(* ===== verification/_CoqProject ===== *)
-Q . S2P
Prelude.v
GoStrings.v
Mqtt5.v
Topic.v
Wire.v
WireParse.v
WireProps.v
WirePropsProofs.v
WireCodec.v
WireRoundtrip.v
WireTyping.v
SubCore.v
SubCoreProofs.v
SubCenter.v
SubCenterProofs.v
WalEngine.v
WalEngineProofs.v
SubCenterSM.v
SessionCore.v
SessionCoreProofs.v
SessionSM.v
SessionWAL.v
TopicAlias.v
IndexedHeap.v
IndexedHeapProofs.v
WillDelay.v
WillDelayProofs.v
Router.v
RouterProofs.v
StateRouter.v
StateRouterProofs.v
Inflight.v
InflightProofs.v
Downlink.v
DownlinkProofs.v
DeliveryStore.v
DeliveryStoreProofs.v
DeliveryQueue.v
ShareQueue.v
Retain.v
RetainProofs.v
RetainStore.v
TaskStore.v
TaskStoreProofs.v
SharedSub.v
SharedSubProofs.v
SharedManager.v
BrokerDelivery.v
BrokerDeliveryProofs.v
Uplink.v
UplinkProofs.v
UplinkFlow.v
UplinkRestore.v
Subscribe.v
SubscribeProofs.v
RetainedJob.v
RetainedJobProofs.v
Outbound.v
OutboundProofs.v
Acl.v
AclProofs.v
Lifecycle.v
LifecycleProofs.v
Negotiate.v
Connect.v
ConnectProofs.v
KeepAlive.v
KeepAliveProofs.v
