(* ===== verification/Prelude.v ===== *)
(** * skyTree: a verified model of an MQTT 5 broker

    skyTree is an MQTT 5 broker in Go.  This library models the parts that decide what
    the broker does with a message, as executable Rocq functions translated from the
    source, and proves the properties that make them correct.

    ** How the program is put together

    A connection is a [Client] ([src/internal/broker/client]).  It reads packets with
    the wire codec ([src/pkg/mqtt5]); CONNECT negotiates, authenticates and takes over
    or opens the session of its client in the session center
    ([src/internal/broker/sessioncenter]); SUBSCRIBE keeps subscriptions in the
    subscription center ([src/internal/broker/subcenter]) and starts the job that sends
    retained messages ([src/internal/broker/retain]), if the access control
    ([src/internal/broker/acl]) agrees.  The state router
    ([src/internal/broker/staterouter]) puts the two centers behind one interface and
    fences connections that have lost the session.  A published message
    ([client_handler_publish.go], [client_handler_qos_flow.go]) goes to the broker
    ([src/internal/broker/core], [broker_delivery*.go]), which asks the delivery router
    ([src/internal/broker/delivery]) who gets it and with which options, saves it in the
    payload store and appends a task to the delivery queue of every receiver and to the
    queue of every share group ([src/pkg/storage/delivery]); QoS 0 may go directly to
    the nodes of the receivers.  The consumer of a share group
    ([src/internal/broker/sharedsubscription]) hands each task of its queue to one
    online member.  The runner of the receiving connection ([delivery_runner.go]) reads
    its queue, sends the messages within the receiver's window, and moves the queue's
    cursor as acknowledgements arrive.  When a connection ends ([client_lifecycle.go])
    its state is saved and its will published, or scheduled in the will-delay store
    ([src/internal/broker/willdelay]) on an indexed heap ([src/pkg/indexedheap]); the
    keep-alive tracker ([src/internal/broker/clientalive]) ends connections that went
    silent.  The centers are state machines; with local persistence they run on a
    write-ahead log ([src/internal/localstate/walsm]).

    ** Files

    - [Prelude], [GoStrings]: results, machine integers, tactics; Go strings and bytes.
    - [Mqtt5], [Topic], [Wire], [WireParse], [WireProps], [WireCodec]: packets, topic
      filters, and the wire codec of [src/pkg/mqtt5] ([wire/], [topic/], [packetsize/]);
      [WirePropsProofs], [WireRoundtrip]: decoding what was encoded, truncation, sizes;
      [WireTyping]: encoding what was decoded.
    - [SubCore], [SubCenter]: the trie of one shard and the sharded center
      ([subcenter/memory]); [SubCoreProofs], [SubCenterProofs].
    - [WalEngine], [WalEngineProofs]: the WAL-backed state machine ([walsm]), against a
      class of state machines; [SubCenterSM], [SessionSM]: the two centers' update
      formats and their instances of that class.
    - [SessionCore], [SessionCoreProofs]: sessions, owners, unfinished messages;
      [SessionWAL]: the session center on the write-ahead log ([sessioncenter/wal]).
    - [IndexedHeap], [WillDelay] and their proofs: delayed wills and the scanner.
    - [Router], [RouterProofs]: which subscribers get a message; [StateRouter],
      [StateRouterProofs]: acquire, save, subscribe, delete over both centers.
    - [TopicAlias]: topic aliases in both directions.
    - [Inflight], [Downlink] and their proofs: messages to the client, from the window
      and packet identifiers to acknowledgement, retransmission and restore.
    - [DeliveryStore], [DeliveryStoreProofs], [DeliveryQueue], [ShareQueue]: the queues of
      clients and of share groups on an ordered key-value store, which is a class here
      ([KV]) with an instance.
    - [TaskStore], [TaskStoreProofs]: saving a message, its stored form, queueing a task
      ([delivery/store_client_delivery.go], [message/serializer], [messagepayload]).
    - [Retain], [RetainProofs], [RetainStore]: the stored form of retained messages and
      their store with its lazy deletes and sweep.
    - [SharedSub], [SharedSubProofs], [SharedManager]: members of a share group, the
      consumer of its queue, timeouts and rollback; the manager of clients and consumers.
    - [BrokerDelivery], [BrokerDeliveryProofs]: a publication through the broker, direct
      QoS 0 delivery, wake-ups, wills, expired sessions ([core/broker_delivery*.go],
      [broker_will.go], [broker_session_cleanup.go]).
    - [Uplink], [UplinkProofs], [UplinkFlow], [UplinkRestore]: messages from the client,
      their flows, and the flows restored from the session.
    - [Subscribe], [SubscribeProofs], [RetainedJob], [RetainedJobProofs]: SUBSCRIBE and
      UNSUBSCRIBE ([client_handler_subscribe.go]) and the retained-message job.
    - [Outbound], [OutboundProofs]: the write path of every packet ([client_io.go]).
    - [Acl], [AclProofs]: rules, their evaluation, manager and plugin.
    - [Lifecycle], [LifecycleProofs]: the end of a connection, wills and timers;
      [Negotiate], [Connect], [ConnectProofs]: CONNECT, AUTH and DISCONNECT;
      [KeepAlive], [KeepAliveProofs]: the tracker, the scan, the connection manager.

    ** Conventions

    A Go function that mutates its receiver takes and returns the state; [(T, error)]
    is [result]; a nil pointer is [None]; unsigned integers are [Z] with [wrap] where
    the code converts.  Mutexes make an operation atomic, so operations are functions
    and concurrency is the order of the operations in a sequence.  What other systems
    answer (the clock, new UUIDs, plugins, databases, the fate of a write) is an
    argument of the operation, one record per handler, so that theorems quantify over
    every failure.  Map iteration that the code leaves unordered is either shown not to
    matter or an argument.  Libraries (protobuf, JSON, YAML, badger, etcd's WAL) are
    classes or section variables with their documented laws, and every theorem that uses
    them has an instance.

    ** What is proved

    - Codec: [Decode] after [Encode] is the normalised packet; whatever [Decode] accepts
      is well formed, encodes in no more bytes and decodes to itself; no truncated frame is
      accepted; [MatchTopicFilter] is the matching of MQTT 5 section 4.7.
    - Subscriptions: every sequence of operations keeps tries, client index, placement
      and counts consistent; a match returns exactly the covering subscriptions;
      snapshots and the WAL restore the center.  SUBSCRIBE and UNSUBSCRIBE are answered
      code by code, store exactly the granted filters and send exactly the retained
      messages the options ask for.
    - Routing: the plans and share tasks of a message are exactly those of the matching
      subscriptions; a connection that lost the session changes nothing.
    - Publication: a message whose routing succeeds is in the queue of every subscriber
      (the publisher's own subscriptions with No Local apart) and share group with its
      payload stored; direct QoS 0 delivery notifies only online subscribers and one member
      of each group, and all of them when their owners can be looked up.
    - Shared subscriptions: the store refines queues of tasks; no task of a group is lost
      in any run of publishers, consumers, timeouts and rollbacks; processing a task ends
      with it handed to an online member or pending again; the manager keeps exactly the
      filters in use.
    - Sessions and wills: the stores refine maps; on the log too, until an update is refused
      after it was committed, which keeps the log from being opened; offline sessions live
      until their deadline; closing settles the will; due wills are delivered once.
    - Connections: packets are handled only in the order MQTT allows; an accepted CONNECT
      answers and negotiates as specified; no connection that spoke is closed for silence, and
      silent ones are closed unless a late packet of an earlier connection hid them.
    - Access control: an accepted SUBSCRIBE is within the rules; the manager refines a table
      of rules beside an optional file that takes precedence; filter inclusion is exact.
    - Downlink: the window and the receiver's maximum are respected, a released QoS 2
      message is not published again, acknowledgements advance in order, what is saved
      at disconnect covers what is in flight; no packet exceeds the client's maximum.
    - Delivery queue: the store refines ordered queues with a cursor, one task per
      message; searches end with the right answer.
    - Uplink: the handlers refine an abstract MQTT receiver while services work, a QoS 2
      message is routed exactly once, also across connections when its flow was saved, and
      with any failure no message is routed twice on a connection and none is
      acknowledged before it is routed.
    - Behaviour that loses or repeats messages is stated as theorems too (the findings of
      the manifest).

    ** Fuel and bounds

    Loops that are not structural take fuel: the heap gets one step more than its
    entries (a path is shorter), the packet identifier search 65535 tries (all there
    are), the paged searches of a queue one page more than the queue needs (proved enough
    in [DeliveryTaskExists_complete]), the choice of a member of a share group one step
    more than there are candidates (proved enough in [shared_task_processed]),
    transaction retries the code's own limit.  The theorems state results, not only what
    holds when fuel suffices.

    ** Not modelled

    Goroutines, timers and channels beyond the order of operations; the construction and
    wiring of the broker, its listeners, shutdown and the retry callbacks of failed wills;
    leader election and the Raft wrappers (the consensus library is external, the updates
    they propose are modelled); the Scylla stores (statements run by a database); the
    tree view of the subscription center; authentication providers (calls of an external
    service); HTTP and gRPC APIs, console, Kubernetes, configuration, logging, metrics.
*)

From stdpp Require Export base tactics numbers option list strings gmap pretty.
From Stdlib Require Export ZArith Lia Ascii.

#[global] Open Scope Z_scope.
#[global] Set Default Goal Selector "!".
#[global] Arguments String.append !s1 s2 : simpl nomatch.

(** ** Results: Go's [(value, error)] pairs *)

(** A Go function returning [(T, error)] is modelled by [result E T]: the value
    on the [nil]-error path, the error otherwise. *)
Inductive result (E A : Type) : Type :=
| Ok (a : A)
| Err (e : E).
Arguments Ok {E A} a.
Arguments Err {E A} e.

#[export] Instance result_eq_dec {E A} `{!EqDecision E, !EqDecision A} : EqDecision (result E A).
Proof. solve_decision. Defined.

Definition result_bind {E A B} (f : A → result E B) (m : result E A) : result E B :=
  match m with Ok a => f a | Err e => Err e end.

#[export] Instance result_mret {E} : MRet (result E) := λ A a, Ok a.
#[export] Instance result_mbind {E} : MBind (result E) := λ A B f m, result_bind f m.
#[export] Instance result_fmap {E} : FMap (result E) :=
  λ A B f m, match m with Ok a => Ok (f a) | Err e => Err e end.

Definition is_Ok {E A} (m : result E A) : Prop := ∃ a, m = Ok a.

(** [check c e] is the early return [if c { return e }]. *)
Definition check {E} (c : bool) (e : E) : result E unit :=
  if c then Err e else Ok tt.

Section result_lemmas.
Context {E A B : Type}.

Lemma bind_Ok_inv (f : A → result E B) (m : result E A) b :
  m ≫= f = Ok b → ∃ a, m = Ok a ∧ f a = Ok b.
Proof. destruct m; cbn; [eauto|done]. Qed.

Lemma check_Ok_inv (c : bool) (e : E) u : check c e = Ok u → c = false.
Proof. by destruct c. Qed.

Lemma Ok_inj (a a' : A) : @Ok E A a = Ok a' → a = a'.
Proof. by intros [= ->]. Qed.

Lemma check_false (e : E) : check false e = Ok tt.
Proof. done. Qed.
End result_lemmas.

(** ** Machine-width integers

    Go's unsigned integers are kept as [Z]; a conversion [byte(x)], [uint16(x)]
    is reduction modulo the width, and the range predicates are what the Go type
    of a field guarantees. *)

Definition wrap (w z : Z) : Z := z `mod` 2 ^ w.
(** Conversion to [int64]: two's complement. *)
Definition wrap_i64 (z : Z) : Z := (z + 2 ^ 63) `mod` 2 ^ 64 - 2 ^ 63.
Definition is_u8 (z : Z) : Prop := 0 ≤ z < 256.
Definition is_u16 (z : Z) : Prop := 0 ≤ z < 65536.
Definition is_u32 (z : Z) : Prop := 0 ≤ z < 4294967296.

#[export] Instance is_u8_dec z : Decision (is_u8 z).
Proof. unfold is_u8. apply _. Defined.
#[export] Instance is_u16_dec z : Decision (is_u16 z).
Proof. unfold is_u16. apply _. Defined.
#[export] Instance is_u32_dec z : Decision (is_u32 z).
Proof. unfold is_u32. apply _. Defined.

Lemma wrap_i64_id z : - 2 ^ 63 ≤ z < 2 ^ 63 → wrap_i64 z = z.
Proof. intros H. unfold wrap_i64. rewrite Z.mod_small; lia. Qed.

(** ** Lists *)

Lemma filter_none {A} (P : A → Prop) `{!∀ x, Decision (P x)} l :
  (∀ x, x ∈ l → ¬ P x) → filter P l = [].
Proof.
  induction l as [|x l IH]; intros Hn; [done|].
  rewrite filter_cons_False by (apply Hn; left). apply IH. intros y Hy. apply Hn. by right.
Qed.

Lemma filter_ext_elem {A} (P Q : A → Prop) `{!∀ x, Decision (P x), !∀ x, Decision (Q x)} (l : list A) :
  (∀ x, x ∈ l → P x ↔ Q x) → filter P l = filter Q l.
Proof.
  induction l as [|x l IH]; intros Hi; [done|]. rewrite !filter_cons.
  rewrite IH by (intros y Hy; apply Hi; by right).
  apply decide_ext, Hi. left.
Qed.

(** ** Automation *)

Create HintDb go discriminated.
Create Rewrite HintDb go.

(** Split a successful chain of monadic binds and early returns in hypotheses. *)
Ltac inv_ok :=
  repeat match goal with
  | H : Ok _ = Ok _ |- _ => apply Ok_inj in H; try subst
  | H : Err _ = Ok _ |- _ => discriminate H
  | H : Ok _ = Err _ |- _ => discriminate H
  | H : mret _ = Ok _ |- _ => unfold mret, result_mret in H
  | H : _ ≫= _ = Ok _ |- _ =>
      let a := fresh "a" in let E := fresh "E" in
      apply bind_Ok_inv in H as (a & E & H)
  | H : check _ _ = Ok _ |- _ => apply check_Ok_inv in H
  end.

(** Turn boolean tests of the code into arithmetic facts. *)
Ltac bool_arith :=
  repeat match goal with
  | H : negb _ = true |- _ => apply negb_true_iff in H
  | H : negb _ = false |- _ => apply negb_false_iff in H
  | H : (_ && _) = true |- _ => apply andb_true_iff in H as [? ?]
  | H : (_ || _) = false |- _ => apply orb_false_iff in H as [? ?]
  end.

(** Case-split the outermost conditional of the goal. *)
Ltac case_if :=
  match goal with |- context [if ?b then _ else _] => destruct b eqn:? end.
Ltac case_if_in H :=
  match type of H with context [if ?b then _ else _] => destruct b eqn:? end.

(** Decide the arithmetic tests of the goal, discarding impossible branches. *)
Ltac zcase :=
  repeat match goal with
  | |- context [?a <? ?b] => destruct (Z.ltb_spec a b); try (exfalso; lia)
  | |- context [?a <=? ?b] => destruct (Z.leb_spec a b); try (exfalso; lia)
  | |- context [?a =? ?b] => destruct (Z.eqb_spec a b); try (exfalso; lia)
  end; cbn [orb andb negb].
