(* ===== verification/GoStrings.v ===== *)
(** * Bytes, strings and the parts of Go's standard library the sources use

    A Go [byte] in a buffer is an [ascii] (eight bits), a [[]byte] a list of
    them, and a Go [string] (an immutable byte sequence) Stdlib's [string].
    Conversions between the last two are the two mutually inverse functions
    [go_bytes] and [go_string].  Integer-valued bytes are [Z]; [b2z] reads a
    buffer cell and [z2b] is the conversion [byte(x)] with its wrap-around. *)

From S2P Require Import Prelude.
From Stdlib Require Import NArith.

Abbreviation byte := ascii (only parsing).

Definition b2z (b : byte) : Z := Z.of_N (N_of_ascii b).
Definition z2b (z : Z) : byte := ascii_of_N (Z.to_N (z `mod` 256)).

Lemma b2z_range b : is_u8 (b2z b).
Proof.
  unfold b2z, is_u8. pose proof (N_ascii_bounded b). lia.
Qed.

Lemma b2z_z2b z : b2z (z2b z) = z `mod` 256.
Proof.
  unfold b2z, z2b. pose proof (Z.mod_pos_bound z 256).
  rewrite N_ascii_embedding by lia. lia.
Qed.

Lemma b2z_z2b_u8 z : is_u8 z → b2z (z2b z) = z.
Proof. intros. rewrite b2z_z2b. apply Z.mod_small. done. Qed.

Lemma z2b_b2z b : z2b (b2z b) = b.
Proof.
  pose proof (b2z_range b) as H. unfold z2b. rewrite Z.mod_small by done.
  unfold b2z. rewrite N2Z.id. apply ascii_N_embedding.
Qed.

Lemma z2b_mod z : z2b (z `mod` 256) = z2b z.
Proof. unfold z2b. by rewrite Z.mod_mod. Qed.

#[export] Hint Resolve b2z_range : go.

(** ** Conversions between [string] and [[]byte] *)

Definition go_bytes (s : string) : list byte := String.list_ascii_of_string s.
Definition go_string (l : list byte) : string := String.string_of_list_ascii l.

Lemma go_string_bytes s : go_string (go_bytes s) = s.
Proof. apply String.string_of_list_ascii_of_string. Qed.
Lemma go_bytes_string l : go_bytes (go_string l) = l.
Proof. apply String.list_ascii_of_string_of_list_ascii. Qed.
Lemma length_go_bytes s : length (go_bytes s) = String.length s.
Proof. induction s; cbn; [done|]. unfold go_bytes in *. by rewrite IHs. Qed.

(** ** Searching *)

Fixpoint contains_byte (c : byte) (s : string) : bool :=
  match s with
  | EmptyString => false
  | String d s' => bool_decide (c = d) || contains_byte c s'
  end.

(** [strings.ContainsAny(s, chars)]. *)
Fixpoint contains_any (s : string) (chars : string) : bool :=
  match s with
  | EmptyString => false
  | String c s' => contains_byte c chars || contains_any s' chars
  end.

(** [strings.HasPrefix(s, p)] and [strings.TrimPrefix(s, p)]. *)
Fixpoint has_prefix (s p : string) {struct p} : bool :=
  match p, s with
  | EmptyString, _ => true
  | String _ _, EmptyString => false
  | String c p', String d s' => bool_decide (c = d) && has_prefix s' p'
  end.

Fixpoint drop_string (n : nat) (s : string) : string :=
  match n, s with
  | O, _ => s
  | S n', String _ s' => drop_string n' s'
  | S _, EmptyString => EmptyString
  end.

Definition trim_prefix (s p : string) : string :=
  if has_prefix s p then drop_string (String.length p) s else s.

(** [strings.Cut]-style search for the first separator byte: the part before
    it and the part after it. *)
Fixpoint cut_byte (sep : byte) (s : string) : option (string * string) :=
  match s with
  | EmptyString => None
  | String c s' =>
      if decide (c = sep) then Some (EmptyString, s')
      else match cut_byte sep s' with
           | Some (l, r) => Some (String c l, r)
           | None => None
           end
  end.

(** [strings.Split(s, sep)] for a one-byte separator. *)
Fixpoint split_byte (sep : byte) (s : string) : list string :=
  match s with
  | EmptyString => [EmptyString]
  | String c s' =>
      if decide (c = sep) then EmptyString :: split_byte sep s'
      else match split_byte sep s' with
           | [] => [String c EmptyString]
           | h :: t => String c h :: t
           end
  end.

(** [strings.Join(parts, sep)] for a one-byte separator. *)
Fixpoint join_byte (sep : byte) (l : list string) : string :=
  match l with
  | [] => EmptyString
  | [h] => h
  | h :: t => String.append h (String sep (join_byte sep t))
  end.

(** [strings.Trim(s, c)] for a one-byte cut set. *)
Fixpoint trim_left_byte (c : byte) (s : string) : string :=
  match s with
  | String d s' => if decide (d = c) then trim_left_byte c s' else s
  | EmptyString => EmptyString
  end.
Fixpoint trim_right_byte (c : byte) (s : string) : string :=
  match s with
  | EmptyString => EmptyString
  | String d s' =>
      match trim_right_byte c s' with
      | EmptyString => if decide (d = c) then EmptyString else String d EmptyString
      | r => String d r
      end
  end.
Definition trim_byte (c : byte) (s : string) : string :=
  trim_right_byte c (trim_left_byte c s).

(** Lexicographic byte order, Go's [<] on strings. *)
Fixpoint string_ltb (a b : string) : bool :=
  match a, b with
  | _, EmptyString => false
  | EmptyString, String _ _ => true
  | String c a', String d b' =>
      if b2z c <? b2z d then true
      else if b2z d <? b2z c then false
      else string_ltb a' b'
  end.

(** ** UTF-8 validity ([unicode/utf8.Valid])

    The acceptance table of the Unicode standard, as Go's package implements
    it: the second byte's range depends on the leading byte, which excludes
    overlong forms, surrogates and code points above U+10FFFF. *)

Definition in_range (lo hi : Z) (b : byte) : bool := (lo <=? b2z b) && (b2z b <=? hi).

(** Number of bytes of the sequence and the range of its second byte. *)
Definition utf8_first (v : Z) : option (nat * Z * Z) :=
  if (0xC2 <=? v) && (v <=? 0xDF) then Some (2%nat, 0x80, 0xBF)
  else if v =? 0xE0 then Some (3%nat, 0xA0, 0xBF)
  else if (0xE1 <=? v) && (v <=? 0xEC) then Some (3%nat, 0x80, 0xBF)
  else if v =? 0xED then Some (3%nat, 0x80, 0x9F)
  else if (0xEE <=? v) && (v <=? 0xEF) then Some (3%nat, 0x80, 0xBF)
  else if v =? 0xF0 then Some (4%nat, 0x90, 0xBF)
  else if (0xF1 <=? v) && (v <=? 0xF3) then Some (4%nat, 0x80, 0xBF)
  else if v =? 0xF4 then Some (4%nat, 0x80, 0x8F)
  else None.

Fixpoint utf8_valid (p : list byte) : bool :=
  match p with
  | [] => true
  | b0 :: p1 =>
      if b2z b0 <? 0x80 then utf8_valid p1
      else match utf8_first (b2z b0), p1 with
           | Some (2%nat, lo, hi), b1 :: p2 => in_range lo hi b1 && utf8_valid p2
           | Some (3%nat, lo, hi), b1 :: b2 :: p3 =>
               in_range lo hi b1 && in_range 0x80 0xBF b2 && utf8_valid p3
           | Some (4%nat, lo, hi), b1 :: b2 :: b3 :: p4 =>
               in_range lo hi b1 && in_range 0x80 0xBF b2
               && in_range 0x80 0xBF b3 && utf8_valid p4
           | _, _ => false
           end
  end.

(** ** Lemmas *)

Lemma has_prefix_spec s p : has_prefix s p = true ↔ ∃ r, s = String.append p r.
Proof.
  revert s. induction p as [|c p IH]; intros s; cbn.
  - split; [intros _; by exists s|done].
  - destruct s as [|d s]; [split; [done|intros [r ?]; discriminate]|].
    rewrite andb_true_iff, bool_decide_eq_true, IH. split.
    + intros [-> [r ->]]. by exists r.
    + intros [r Hr]. injection Hr as -> ->. eauto.
Qed.

Lemma drop_string_append p r : drop_string (String.length p) (String.append p r) = r.
Proof. induction p; cbn; [by destruct r|done]. Qed.

Lemma split_byte_nonempty sep s : split_byte sep s ≠ [].
Proof. destruct s; cbn; [done|]. case_decide; [done|]. by case_match. Qed.

Lemma join_split sep s : join_byte sep (split_byte sep s) = s.
Proof.
  induction s as [|c s IH]; [done|]. cbn [split_byte].
  pose proof (split_byte_nonempty sep s) as Hne.
  case_decide as Hc.
  - subst. destruct (split_byte sep s) eqn:E; [done|]. cbn in *. by rewrite IH.
  - destruct (split_byte sep s) as [|h [|h' t]] eqn:E; cbn in *; [done| |];
      by rewrite <-IH.
Qed.

Lemma contains_byte_app c s t :
  contains_byte c (String.append s t) = contains_byte c s || contains_byte c t.
Proof. induction s as [|d s IH]; cbn; [done|]. by rewrite IH, orb_assoc. Qed.

Lemma split_byte_no_sep sep s : contains_byte sep s = false → split_byte sep s = [s].
Proof.
  induction s as [|c s IH]; [done|]. cbn. intros [Hc Hs]%orb_false_iff.
  apply bool_decide_eq_false in Hc. rewrite decide_False by done. by rewrite IH.
Qed.

Lemma split_byte_app sep s t :
  contains_byte sep s = false →
  split_byte sep (String.append s (String sep t)) = s :: split_byte sep t.
Proof.
  induction s as [|c s IH]; cbn; intros Hs.
  - by rewrite decide_True by done.
  - apply orb_false_iff in Hs as [Hc Hs]. apply bool_decide_eq_false in Hc.
    rewrite decide_False by done. by rewrite IH.
Qed.

Lemma split_join sep l :
  l ≠ [] → Forall (λ s, contains_byte sep s = false) l →
  split_byte sep (join_byte sep l) = l.
Proof.
  intros Hne Hl. induction Hl as [|s l Hs Hl IH]; [done|].
  destruct l as [|s' l]; [by apply split_byte_no_sep|].
  change (join_byte sep (s :: s' :: l)) with
    (String.append s (String sep (join_byte sep (s' :: l)))).
  rewrite split_byte_app by done. by rewrite IH.
Qed.

Lemma split_byte_parts sep s : Forall (λ p, contains_byte sep p = false) (split_byte sep s).
Proof.
  induction s as [|c s IH]; cbn; [by repeat constructor|].
  case_decide as Hc; [by constructor|].
  destruct (split_byte sep s) as [|h t]; inversion IH; subst;
    constructor; cbn; try done; rewrite ?bool_decide_eq_false_2 by congruence; done.
Qed.

Lemma cut_byte_Some sep s l r :
  cut_byte sep s = Some (l, r) →
  s = String.append l (String sep r) ∧ contains_byte sep l = false.
Proof.
  revert l r. induction s as [|c s IH]; intros l r; cbn; [done|].
  case_decide as Hc.
  - intros [= <- <-]. by subst.
  - destruct (cut_byte sep s) as [[l' r']|]; [|done].
    intros [= <- <-]. destruct (IH _ _ eq_refl) as [-> Hl]. cbn.
    split; [done|]. by rewrite bool_decide_eq_false_2 by congruence.
Qed.

Lemma cut_byte_None sep s : cut_byte sep s = None ↔ contains_byte sep s = false.
Proof.
  induction s as [|c s IH]; cbn; [done|]. case_decide as Hc.
  - subst. by rewrite bool_decide_eq_true_2.
  - rewrite bool_decide_eq_false_2 by congruence. rewrite orb_false_l, <-IH.
    by destruct (cut_byte sep s) as [[??]|].
Qed.

Lemma string_ltb_irrefl s : string_ltb s s = false.
Proof. induction s; cbn; [done|]. by rewrite Z.ltb_irrefl. Qed.

Lemma b2z_inj b b' : b2z b = b2z b' → b = b'.
Proof. intros H. by rewrite <-(z2b_b2z b), <-(z2b_b2z b'), H. Qed.

Lemma string_ltb_total a b : a ≠ b → string_ltb a b = true ∨ string_ltb b a = true.
Proof.
  revert b. induction a as [|c a IH]; intros [|d b] Hne; cbn; auto.
  destruct (Z.ltb_spec (b2z c) (b2z d)); [auto|].
  destruct (Z.ltb_spec (b2z d) (b2z c)); [auto|].
  assert (c = d) as -> by (apply b2z_inj; lia).
  apply IH. congruence.
Qed.

Lemma string_ltb_trans a b c :
  string_ltb a b = true → string_ltb b c = true → string_ltb a c = true.
Proof.
  revert b c. induction a as [|x a IH]; intros [|y b] [|z c]; cbn; try done.
  repeat case_match; try done; try lia. apply IH.
Qed.
