(* ===== verification/Mqtt5.v ===== *)
(** * MQTT 5 control packets in memory

    The data model of [src/pkg/mqtt5]: packet types, property identifiers,
    reason codes, one record per packet and per property struct, and the bit
    layouts packed and unpacked by [packet.go].  A Go pointer field that may be
    [nil] is an [option]; a [[]byte] whose nilness the code tests is an [option]
    of a list, the others are lists (a nil and an empty slice behave alike);
    integers keep their Go width, stated by the [wf_*] predicates. *)

From S2P Require Import Prelude GoStrings.

(** ** Packet types ([packet.go]) *)

Definition CONNECT : Z := 1.
Definition CONNACK : Z := 2.
Definition PUBLISH : Z := 3.
Definition PUBACK : Z := 4.
Definition PUBREC : Z := 5.
Definition PUBREL : Z := 6.
Definition PUBCOMP : Z := 7.
Definition SUBSCRIBE : Z := 8.
Definition SUBACK : Z := 9.
Definition UNSUBSCRIBE : Z := 10.
Definition UNSUBACK : Z := 11.
Definition PINGREQ : Z := 12.
Definition PINGRESP : Z := 13.
Definition DISCONNECT : Z := 14.
Definition AUTH : Z := 15.
Definition WILLPROPERTIES : Z := 16.

Definition packetNames : list string :=
  [""; "CONNECT"; "CONNACK"; "PUBLISH"; "PUBACK"; "PUBREC"; "PUBREL"; "PUBCOMP";
   "SUBSCRIBE"; "SUBACK"; "UNSUBSCRIBE"; "UNSUBACK"; "PINGREQ"; "PINGRESP";
   "DISCONNECT"; "AUTH"].

Definition PacketTypeName (packetType : Z) : string :=
  if (0 <=? packetType) && (packetType <? Z.of_nat (length packetNames))
  then default "UNKNOWN" (packetNames !! Z.to_nat packetType)
  else "UNKNOWN".

(** ** Property identifiers ([properties.go]) *)

Definition PropPayloadFormat : Z := 1.
Definition PropMessageExpiry : Z := 2.
Definition PropContentType : Z := 3.
Definition PropResponseTopic : Z := 8.
Definition PropCorrelationData : Z := 9.
Definition PropSubscriptionIdentifier : Z := 11.
Definition PropSessionExpiryInterval : Z := 17.
Definition PropAssignedClientID : Z := 18.
Definition PropServerKeepAlive : Z := 19.
Definition PropAuthMethod : Z := 21.
Definition PropAuthData : Z := 22.
Definition PropRequestProblemInfo : Z := 23.
Definition PropWillDelayInterval : Z := 24.
Definition PropRequestResponseInfo : Z := 25.
Definition PropResponseInfo : Z := 26.
Definition PropServerReference : Z := 28.
Definition PropReasonString : Z := 31.
Definition PropReceiveMaximum : Z := 33.
Definition PropTopicAliasMaximum : Z := 34.
Definition PropTopicAlias : Z := 35.
Definition PropMaximumQOS : Z := 36.
Definition PropRetainAvailable : Z := 37.
Definition PropUser : Z := 38.
Definition PropMaximumPacketSize : Z := 39.
Definition PropWildcardSubAvailable : Z := 40.
Definition PropSubIDAvailable : Z := 41.
Definition PropSharedSubAvailable : Z := 42.

(** ** Property structs ([properties.go]) *)

Record User := mkUser { usr_Key : string; usr_Value : string }.

Record PublishProperties := mkPublishProperties {
  pup_PayloadFormat : option Z;
  pup_MessageExpiry : option Z;
  pup_WillDelayInterval : option Z;
  pup_ContentType : string;
  pup_ResponseTopic : string;
  pup_CorrelationData : option (list byte);
  pup_TopicAlias : option Z;
  pup_SubscriptionIdentifier : list Z;
  pup_User : list User }.

Record ConnectProperties := mkConnectProperties {
  cop_SessionExpiryInterval : option Z;
  cop_AuthMethod : string;
  cop_AuthData : option (list byte);
  cop_RequestProblemInfo : option Z;
  cop_RequestResponseInfo : option Z;
  cop_ReceiveMaximum : option Z;
  cop_TopicAliasMaximum : option Z;
  cop_MaximumPacketSize : option Z;
  cop_User : list User }.

Record ConnAckProperties := mkConnAckProperties {
  cap_SessionExpiryInterval : option Z;
  cap_AssignedClientID : string;
  cap_ServerKeepAlive : option Z;
  cap_AuthMethod : string;
  cap_AuthData : option (list byte);
  cap_ResponseInfo : string;
  cap_ServerReference : string;
  cap_ReasonString : string;
  cap_ReceiveMaximum : option Z;
  cap_TopicAliasMaximum : option Z;
  cap_MaximumQOS : option Z;
  cap_RetainAvailable : option Z;
  cap_WildcardSubAvailable : option Z;
  cap_SubIDAvailable : option Z;
  cap_SharedSubAvailable : option Z;
  cap_MaximumPacketSize : option Z;
  cap_User : list User }.

Record SubscribeProperties := mkSubscribeProperties {
  sbp_SubscriptionIdentifier : option Z;
  sbp_User : list User }.

Record UnsubscribeProperties := mkUnsubscribeProperties { usp_User : list User }.

(** SUBACK, UNSUBACK, PUBACK, PUBREC, PUBREL and PUBCOMP have structs with the
    same two fields; the code keeps six Go types, [ReasonProperties] is their
    common shape and [Properties] below tells them apart. *)
Record ReasonProperties := mkReasonProperties {
  rsp_ReasonString : string;
  rsp_User : list User }.

Record DisconnectProperties := mkDisconnectProperties {
  dip_SessionExpiryInterval : option Z;
  dip_ServerReference : string;
  dip_ReasonString : string;
  dip_User : list User }.

Record AuthProperties := mkAuthProperties {
  aup_AuthMethod : string;
  aup_AuthData : option (list byte);
  aup_ReasonString : string;
  aup_User : list User }.

(** The dynamic types behind the interface [mqtt5.Properties]. *)
Inductive Properties :=
| PropsPublish (p : PublishProperties)
| PropsConnect (p : ConnectProperties)
| PropsConnAck (p : ConnAckProperties)
| PropsSubscribe (p : SubscribeProperties)
| PropsSuback (p : ReasonProperties)
| PropsUnsubscribe (p : UnsubscribeProperties)
| PropsUnsuback (p : ReasonProperties)
| PropsPuback (p : ReasonProperties)
| PropsPubrec (p : ReasonProperties)
| PropsPubrel (p : ReasonProperties)
| PropsPubcomp (p : ReasonProperties)
| PropsDisconnect (p : DisconnectProperties)
| PropsAuth (p : AuthProperties).

Definition GetUserProperties (props : Properties) : list User :=
  match props with
  | PropsPublish p => pup_User p
  | PropsConnect p => cop_User p
  | PropsConnAck p => cap_User p
  | PropsSubscribe p => sbp_User p
  | PropsUnsubscribe p => usp_User p
  | PropsSuback p | PropsUnsuback p | PropsPuback p
  | PropsPubrec p | PropsPubrel p | PropsPubcomp p => rsp_User p
  | PropsDisconnect p => dip_User p
  | PropsAuth p => aup_User p
  end.

(** Zero values, the [&T{}] of the sources. *)
Definition emptyPublishProperties : PublishProperties :=
  mkPublishProperties None None None "" "" None None [] [].
Definition emptyConnectProperties : ConnectProperties :=
  mkConnectProperties None "" None None None None None None [].
Definition emptyConnAckProperties : ConnAckProperties :=
  mkConnAckProperties None "" None "" None "" "" "" None None None None None None None None [].
Definition emptySubscribeProperties : SubscribeProperties := mkSubscribeProperties None [].
Definition emptyUnsubscribeProperties : UnsubscribeProperties := mkUnsubscribeProperties [].
Definition emptyReasonProperties : ReasonProperties := mkReasonProperties "" [].
Definition emptyDisconnectProperties : DisconnectProperties := mkDisconnectProperties None "" "" [].
Definition emptyAuthProperties : AuthProperties := mkAuthProperties "" None "" [].

(** ** Packets ([packet.go]) *)

Record Connect := mkConnect {
  con_WillMessage : list byte;
  con_Password : list byte;
  con_Username : string;
  con_ProtocolName : string;
  con_ClientID : string;
  con_WillTopic : string;
  con_Properties : option ConnectProperties;
  con_WillProperties : option PublishProperties;
  con_KeepAlive : Z;
  con_ProtocolVersion : Z;
  con_WillQOS : Z;
  con_PasswordFlag : bool;
  con_UsernameFlag : bool;
  con_WillRetain : bool;
  con_WillFlag : bool;
  con_CleanStart : bool }.

Record ConnAck := mkConnAck {
  coa_Properties : option ConnAckProperties;
  coa_ReasonCode : Z;
  coa_SessionPresent : bool }.

Record Publish := mkPublish {
  pub_Payload : list byte;
  pub_Topic : string;
  pub_Properties : option PublishProperties;
  pub_PacketID : Z;
  pub_QoS : Z;
  pub_Duplicate : bool;
  pub_Retain : bool }.

(** Puback, Pubrec, Pubrel and Pubcomp: three fields each, of the same types. *)
Record Ack := mkAck {
  ack_Properties : option ReasonProperties;
  ack_PacketID : Z;
  ack_ReasonCode : Z }.

Record SubOptions := mkSubOptions {
  sub_Topic : string;
  sub_QoS : Z;
  sub_RetainHandling : Z;
  sub_NoLocal : bool;
  sub_RetainAsPublished : bool }.

Record Subscribe := mkSubscribe {
  sbs_Properties : option SubscribeProperties;
  sbs_Subscriptions : list SubOptions;
  sbs_PacketID : Z }.

(** Suback and Unsuback. *)
Record CodeList := mkCodeList {
  cdl_Properties : option ReasonProperties;
  cdl_Reasons : list Z;
  cdl_PacketID : Z }.

Record Unsubscribe := mkUnsubscribe {
  uns_Topics : list string;
  uns_Properties : option UnsubscribeProperties;
  uns_PacketID : Z }.

Record Disconnect := mkDisconnect {
  dis_Properties : option DisconnectProperties;
  dis_ReasonCode : Z }.

Record Auth := mkAuth {
  aut_Properties : option AuthProperties;
  aut_ReasonCode : Z }.

(** The dynamic types behind the interface [mqtt5.Packet] (non-nil pointers). *)
Inductive Packet :=
| PConnect (p : Connect)
| PConnAck (p : ConnAck)
| PPublish (p : Publish)
| PPuback (p : Ack)
| PPubrec (p : Ack)
| PPubrel (p : Ack)
| PPubcomp (p : Ack)
| PSubscribe (p : Subscribe)
| PSuback (p : CodeList)
| PUnsubscribe (p : Unsubscribe)
| PUnsuback (p : CodeList)
| PPingreq
| PPingresp
| PDisconnect (p : Disconnect)
| PAuth (p : Auth).

Definition PacketType (p : Packet) : Z :=
  match p with
  | PConnect _ => CONNECT
  | PConnAck _ => CONNACK
  | PPublish _ => PUBLISH
  | PPuback _ => PUBACK
  | PPubrec _ => PUBREC
  | PPubrel _ => PUBREL
  | PPubcomp _ => PUBCOMP
  | PSubscribe _ => SUBSCRIBE
  | PSuback _ => SUBACK
  | PUnsubscribe _ => UNSUBSCRIBE
  | PUnsuback _ => UNSUBACK
  | PPingreq => PINGREQ
  | PPingresp => PINGRESP
  | PDisconnect _ => DISCONNECT
  | PAuth _ => AUTH
  end.

Record FixedHeader := mkFixedHeader {
  fh_Type : Z;
  fh_Flags : Z;
  fh_RemainingLength : Z }.

Record ControlPacket := mkControlPacket {
  cp_Content : option Packet;
  cp_Packet : option Packet;
  cp_FixedHeader : FixedHeader }.

Definition CanonicalPacket (c : ControlPacket) : option Packet :=
  match cp_Content c with
  | Some p => Some p
  | None => cp_Packet c
  end.

Definition setPacket (c : ControlPacket) (packet : option Packet) : ControlPacket :=
  match packet with
  | None => mkControlPacket None None (cp_FixedHeader c)
  | Some p =>
      let t := PacketType p in
      let flags :=
        if (t =? PUBREL) || (t =? SUBSCRIBE) || (t =? UNSUBSCRIBE)
        then 2 else fh_Flags (cp_FixedHeader c) in
      mkControlPacket (Some p) (Some p)
        (mkFixedHeader t flags (fh_RemainingLength (cp_FixedHeader c)))
  end.

(** The packet [NewControlPacket] installs for each type. *)
Definition defaultPacket (packetType : Z) : option Packet :=
  if packetType =? CONNECT then
    Some (PConnect (mkConnect [] [] "" "MQTT" "" "" (Some emptyConnectProperties) None
                      0 5 0 false false false false false))
  else if packetType =? CONNACK then
    Some (PConnAck (mkConnAck (Some emptyConnAckProperties) 0 false))
  else if packetType =? PUBLISH then
    Some (PPublish (mkPublish [] "" (Some emptyPublishProperties) 0 0 false false))
  else if packetType =? PUBACK then Some (PPuback (mkAck (Some emptyReasonProperties) 0 0))
  else if packetType =? PUBREC then Some (PPubrec (mkAck (Some emptyReasonProperties) 0 0))
  else if packetType =? PUBREL then Some (PPubrel (mkAck (Some emptyReasonProperties) 0 0))
  else if packetType =? PUBCOMP then Some (PPubcomp (mkAck (Some emptyReasonProperties) 0 0))
  else if packetType =? SUBSCRIBE then
    Some (PSubscribe (mkSubscribe (Some emptySubscribeProperties) [] 0))
  else if packetType =? SUBACK then
    Some (PSuback (mkCodeList (Some emptyReasonProperties) [] 0))
  else if packetType =? UNSUBSCRIBE then
    Some (PUnsubscribe (mkUnsubscribe [] (Some emptyUnsubscribeProperties) 0))
  else if packetType =? UNSUBACK then
    Some (PUnsuback (mkCodeList (Some emptyReasonProperties) [] 0))
  else if packetType =? PINGREQ then Some PPingreq
  else if packetType =? PINGRESP then Some PPingresp
  else if packetType =? DISCONNECT then
    Some (PDisconnect (mkDisconnect (Some emptyDisconnectProperties) 0))
  else if packetType =? AUTH then Some (PAuth (mkAuth (Some emptyAuthProperties) 0))
  else None.

Definition NewControlPacket (packetType : Z) : option ControlPacket :=
  match defaultPacket packetType with
  | None => None
  | Some p => Some (setPacket (mkControlPacket None None (mkFixedHeader packetType 0 0)) (Some p))
  end.

Definition PacketID (c : ControlPacket) : Z :=
  match CanonicalPacket c with
  | Some (PPublish p) => pub_PacketID p
  | Some (PPuback p) => ack_PacketID p
  | Some (PPubrec p) => ack_PacketID p
  | Some (PPubrel p) => ack_PacketID p
  | Some (PPubcomp p) => ack_PacketID p
  | Some (PSubscribe p) => sbs_PacketID p
  | Some (PSuback p) => cdl_PacketID p
  | Some (PUnsubscribe p) => uns_PacketID p
  | Some (PUnsuback p) => cdl_PacketID p
  | _ => 0
  end.

(** [c.PackFlags()]; [<<] on a [byte] wraps at eight bits. *)
Definition PackFlags (c : Connect) : Z :=
  let f0 := 0 in
  let f1 := if con_UsernameFlag c then Z.lor f0 0x80 else f0 in
  let f2 := if con_PasswordFlag c then Z.lor f1 0x40 else f1 in
  let f3 :=
    if con_WillFlag c then
      let g := Z.lor (Z.lor f2 0x04) (wrap 8 (Z.shiftl (con_WillQOS c) 3)) in
      if con_WillRetain c then Z.lor g 0x20 else g
    else f2 in
  if con_CleanStart c then Z.lor f3 0x02 else f3.

(** [s.Pack()]. *)
Definition Pack (s : SubOptions) : Z :=
  let o := Z.lor 0 (Z.land (sub_QoS s) 0x03) in
  let o := if sub_NoLocal s then Z.lor o 0x04 else o in
  let o := if sub_RetainAsPublished s then Z.lor o 0x08 else o in
  Z.lor o (Z.land (wrap 8 (Z.shiftl (sub_RetainHandling s) 4)) 0x30).

(** The fixed-header flags of a PUBLISH, as [p.ToControlPacket()] computes them. *)
Definition publishFlags (p : Publish) : Z :=
  let flags := wrap 8 (Z.shiftl (pub_QoS p) 1) in
  let flags := if pub_Duplicate p then Z.lor flags 0x08 else flags in
  if pub_Retain p then Z.lor flags 0x01 else flags.

Definition ToControlPacket (p : Publish) : ControlPacket :=
  let flags := publishFlags p in
  let cp := setPacket (mkControlPacket None None (mkFixedHeader PUBLISH flags 0))
              (Some (PPublish p)) in
  mkControlPacket (cp_Content cp) (cp_Packet cp)
    (mkFixedHeader (fh_Type (cp_FixedHeader cp)) flags (fh_RemainingLength (cp_FixedHeader cp))).
