(* ===== verification/Topic.v ===== *)
(** * Topic names, topic filters and shared subscriptions

    [src/pkg/mqtt5/topic/topic.go], [src/pkg/mqtt5/topic/filter_validator.go]
    and [src/pkg/brokerapi/sharedsubscription/parser.go]: splitting, the
    wildcard syntax check, the matching of a concrete topic against a filter,
    and the two parsers of [$share/{group}/{filter}]; with the matching relation
    of the MQTT 5 specification (section 4.7) they implement. *)

From S2P Require Import Prelude GoStrings.

Definition slash : byte := "/"%char.
Definition plus_char : byte := "+"%char.
Definition hash_char : byte := "#"%char.

(** ** [topic.go] *)

Definition SplitTopicLevels (topic : string) : list string :=
  if bool_decide (topic = "") then [] else split_byte slash topic.

Definition HasWildcard (topic : string) : bool :=
  contains_byte plus_char topic || contains_byte hash_char topic.

(** The body of the [for idx, filterLevel := range filterLevels] loop:
    [Some b] is an early [return b], [None] falls through to the end. *)
Fixpoint matchLoop (nFilter : nat) (topicLevels : list string) (idx : nat)
    (filterLevels : list string) : option bool :=
  match filterLevels with
  | [] => None
  | filterLevel :: rest =>
      if bool_decide (filterLevel = "#") then Some (bool_decide (idx = (nFilter - 1)%nat))
      else if bool_decide (filterLevel = "+") then
        if bool_decide (length topicLevels ≤ idx)%nat then Some false
        else matchLoop nFilter topicLevels (S idx) rest
      else if bool_decide (length topicLevels ≤ idx)%nat
              || negb (bool_decide (topicLevels !! idx = Some filterLevel))
      then Some false
      else matchLoop nFilter topicLevels (S idx) rest
  end.

Definition MatchTopicFilter (filter topic : string) : bool :=
  if bool_decide (filter = "") || bool_decide (topic = "") then false
  else
    let filterLevels := SplitTopicLevels filter in
    let topicLevels := SplitTopicLevels topic in
    match filterLevels, topicLevels with
    | f0 :: _, t0 :: _ =>
        if has_prefix t0 "$" && negb (has_prefix f0 "$") then false
        else match matchLoop (length filterLevels) topicLevels 0 filterLevels with
             | Some b => b
             | None => bool_decide (length filterLevels = length topicLevels)
             end
    | _, _ => false
    end.

Definition IsShareTopic (shareTopic : string) : bool := has_prefix shareTopic "$share/".

Definition ParseShareTopic (shareTopic : string) : string * string :=
  if negb (IsShareTopic shareTopic) then ("", shareTopic)
  else
    match cut_byte slash (trim_prefix shareTopic "$share/") with
    | None => ("", "")
    | Some (group, sub) => (group, sub)
    end.

(** ** [filter_validator.go] *)

Inductive topicFilterValidationError :=
| errTopicFilterEmpty
| errSharedSubscriptionFormat
| errSharedSubscriptionGroupSyntax
| errMultiWildcardSyntax
| errSingleWildcardSyntax.

Definition topicFilterError_Error (e : topicFilterValidationError) : string :=
  match e with
  | errTopicFilterEmpty => "topic filter must be non-empty"
  | errSharedSubscriptionFormat => "shared subscription must be $share/{group}/{filter}"
  | errSharedSubscriptionGroupSyntax => "shared subscription share name must not contain wildcards"
  | errMultiWildcardSyntax => "multi-level wildcard must occupy the final segment"
  | errSingleWildcardSyntax => "single-level wildcard must occupy an entire segment"
  end.

(** The loop over the levels; [n] is [len(levels)]. *)
Fixpoint validateLevels (n idx : nat) (levels : list string)
    : result topicFilterValidationError unit :=
  match levels with
  | [] => Ok tt
  | level :: rest =>
      if bool_decide (level = "#") then
        if negb (bool_decide (idx = (n - 1)%nat)) then Err errMultiWildcardSyntax
        else validateLevels n (S idx) rest
      else if contains_byte hash_char level then Err errMultiWildcardSyntax
      else if contains_byte plus_char level && negb (bool_decide (level = "+"))
      then Err errSingleWildcardSyntax
      else validateLevels n (S idx) rest
  end.

Definition ValidateTopicFilterSyntax (filter : string)
    : result topicFilterValidationError unit :=
  if bool_decide (filter = "") then Err errTopicFilterEmpty
  else
    parsedFilter ←
      (if has_prefix filter "$share/" then
         match cut_byte slash (trim_prefix filter "$share/") with
         | None => Err errSharedSubscriptionFormat
         | Some (p0, p1) =>
             if bool_decide (p0 = "") || bool_decide (p1 = "") then Err errSharedSubscriptionFormat
             else if contains_any p0 "+#" then Err errSharedSubscriptionGroupSyntax
             else Ok p1
         end
       else Ok filter);
    let levels := SplitTopicLevels parsedFilter in
    validateLevels (length levels) 0 levels.

(** ** [brokerapi/sharedsubscription/parser.go] *)

Definition SharedSubscriptionPrefix : string := "$share/".

Inductive sharedParseError :=
| errNotShared (topicFilter : string)
| errMissingShareName
| errMissingTopicFilter
| errEmptyShareName
| errShareNameWildcard
| errEmptyTopicFilter.

Definition IsSharedSubscription (topicFilter : string) : bool :=
  has_prefix topicFilter SharedSubscriptionPrefix.

Definition ParseSharedSubscription (topicFilter : string)
    : result sharedParseError (string * string) :=
  if negb (IsSharedSubscription topicFilter) then Err (errNotShared topicFilter)
  else
    let withoutPrefix := drop_string (String.length SharedSubscriptionPrefix) topicFilter in
    if bool_decide (withoutPrefix = "") then Err errMissingShareName
    else
      match SplitTopicLevels withoutPrefix with
      | shareGroup :: ((_ :: _) as rest) =>
          if bool_decide (shareGroup = "") then Err errEmptyShareName
          else if contains_any shareGroup "+#" then Err errShareNameWildcard
          else
            let actualTopicFilter := join_byte slash rest in
            if bool_decide (actualTopicFilter = "") then Err errEmptyTopicFilter
            else Ok (shareGroup, actualTopicFilter)
      | _ => Err errMissingTopicFilter
      end.

Definition BuildSharedSubscriptionTopicFilter (shareGroup topicFilter : string) : string :=
  String.append SharedSubscriptionPrefix
    (String.append shareGroup (String slash topicFilter)).

(** ** Specification: the matching rules of MQTT 5, section 4.7 *)

(** A level that contains no wildcard character. *)
Definition literal_level (l : string) : Prop :=
  contains_byte plus_char l = false ∧ contains_byte hash_char l = false.

Definition plain_level (l : string) : Prop := literal_level l ∨ l = "+".

(** Well-formed filters: [+] alone in its level, [#] alone in the last level. *)
Inductive filter_levels : list string → Prop :=
| fl_hash : filter_levels ["#"]
| fl_last l : plain_level l → filter_levels [l]
| fl_cons l ls : plain_level l → filter_levels ls → filter_levels (l :: ls).

(** When a filter matches a topic, level by level.  [#] also matches its parent
    level, hence the rule for any remaining topic levels, none included. *)
Inductive levels_match : list string → list string → Prop :=
| lm_nil : levels_match [] []
| lm_hash ts : levels_match ["#"] ts
| lm_plus fs t ts : levels_match fs ts → levels_match ("+" :: fs) (t :: ts)
| lm_literal l fs ts :
    l ≠ "#" → l ≠ "+" → levels_match fs ts → levels_match (l :: fs) (l :: ts).

(** The same relation as a decision procedure on levels. *)
Fixpoint levels_matchb (fs ts : list string) : bool :=
  match fs, ts with
  | [], [] => true
  | [], _ :: _ => false
  | f :: fs', _ =>
      if bool_decide (f = "#") then bool_decide (fs' = [])
      else match ts with
           | [] => false
           | t :: ts' => (bool_decide (f = "+") || bool_decide (f = t)) && levels_matchb fs' ts'
           end
  end.

(** Section 4.7.2: a filter whose first level is a wildcard does not match a
    topic starting with [$]. *)
Definition dollar_rule (fs ts : list string) : Prop :=
  ∀ f0 t0, head fs = Some f0 → head ts = Some t0 →
    has_prefix t0 "$" = true → has_prefix f0 "$" = true.

Definition topic_matches (filter topic : string) : Prop :=
  filter ≠ "" ∧ topic ≠ "" ∧
  dollar_rule (SplitTopicLevels filter) (SplitTopicLevels topic) ∧
  levels_match (SplitTopicLevels filter) (SplitTopicLevels topic).

(** ** Lemmas *)

Lemma levels_matchb_spec fs ts : levels_matchb fs ts = true ↔ levels_match fs ts.
Proof.
  split.
  - revert ts. induction fs as [|f fs IH]; intros [|t ts]; cbn; try done.
    + intros _. constructor.
    + case_bool_decide; [|done]. intros ->%bool_decide_eq_true. subst. constructor.
    + case_bool_decide as Hf; [intros ->%bool_decide_eq_true; subst; constructor|].
      intros [[Hp|Hp]%orb_true_iff Hm]%andb_true_iff;
        apply bool_decide_eq_true in Hp; subst; [apply lm_plus; auto|].
      destruct (decide (t = "+")) as [->|]; [apply lm_plus|apply lm_literal]; auto.
  - induction 1 as [|ts|fs t ts _ IH|l fs ts H1 H2 _ IH]; cbn; try done.
    rewrite bool_decide_eq_false_2 by done. rewrite IH.
    rewrite (bool_decide_eq_true_2 (l = l)) by done. by rewrite orb_true_r.
Qed.

#[export] Instance levels_match_dec fs ts : Decision (levels_match fs ts).
Proof.
  destruct (levels_matchb fs ts) eqn:E; [left|right; rewrite <-levels_matchb_spec, E];
    [by apply levels_matchb_spec|done].
Defined.

Lemma levels_match_app_inv fs ts :
  levels_match fs ts → (∃ p, fs = p ++ ["#"]) ∨ length fs = length ts.
Proof.
  induction 1 as [|ts|fs t ts _ [[p ->]|IH]|l fs ts _ _ _ [[p ->]|IH]]; cbn; eauto.
  - left. by exists [].
  - left. by exists ("+" :: p).
  - left. by exists (l :: p).
Qed.

Lemma SplitTopicLevels_nonempty s : s ≠ "" → SplitTopicLevels s ≠ [].
Proof.
  intros. unfold SplitTopicLevels. rewrite bool_decide_eq_false_2 by done.
  apply split_byte_nonempty.
Qed.

Lemma join_SplitTopicLevels s : join_byte slash (SplitTopicLevels s) = s.
Proof.
  unfold SplitTopicLevels. case_bool_decide; [by subst|]. apply join_split.
Qed.

Lemma SplitTopicLevels_inj s t : SplitTopicLevels s = SplitTopicLevels t → s = t.
Proof. intros H. by rewrite <-(join_SplitTopicLevels s), <-(join_SplitTopicLevels t), H. Qed.

(** The index loop of the code computes the level-by-level decision. *)
Lemma matchLoop_spec fs tpre ts n :
  n = (length tpre + length fs)%nat →
  match matchLoop n (tpre ++ ts) (length tpre) fs with
  | Some b => b
  | None => bool_decide (n = length (tpre ++ ts))
  end = levels_matchb fs ts.
Proof.
  revert tpre ts. induction fs as [|f fs IH]; intros tpre ts Hn; cbn.
  - rewrite length_app. destruct ts; cbn; [by apply bool_decide_eq_true_2; cbn in *; lia|].
    apply bool_decide_eq_false_2; cbn in *; lia.
  - cbn in Hn. case_bool_decide as Hh.
    { destruct ts as [|t ts]; apply bool_decide_ext; destruct fs; cbn in *;
        split; intros; try done; lia. }
    destruct ts as [|t ts]; cbn.
    { rewrite app_nil_r.
      rewrite (bool_decide_eq_true_2 (length tpre ≤ length tpre)%nat) by done.
      by destruct (bool_decide (f = "+")). }
    assert (length (tpre ++ t :: ts) > length tpre)%nat by (rewrite length_app; cbn; lia).
    rewrite (bool_decide_eq_false_2 (_ ≤ _)%nat) by lia.
    rewrite list_lookup_middle by done.
    specialize (IH (tpre ++ [t]) ts). rewrite <-app_assoc, length_app in IH. cbn in IH.
    rewrite Nat.add_1_r in IH. specialize (IH ltac:(lia)).
    destruct (decide (f = "+")) as [->|Hp]; [exact IH|].
    rewrite (bool_decide_eq_false_2 (f = "+")) by done. cbn.
    destruct (decide (f = t)) as [->|Hft].
    + rewrite (bool_decide_eq_true_2 (Some t = Some t)) by done.
      rewrite (bool_decide_eq_true_2 (t = t)) by done. exact IH.
    + rewrite (bool_decide_eq_false_2 (Some t = Some f)) by congruence.
      by rewrite (bool_decide_eq_false_2 (f = t)) by done.
Qed.

Lemma MatchTopicFilter_levels f t :
  f ≠ "" → t ≠ "" →
  MatchTopicFilter f t =
    match head (SplitTopicLevels f), head (SplitTopicLevels t) with
    | Some f0, Some t0 => negb (has_prefix t0 "$" && negb (has_prefix f0 "$"))
    | _, _ => true
    end && levels_matchb (SplitTopicLevels f) (SplitTopicLevels t).
Proof.
  intros Hf Ht. unfold MatchTopicFilter.
  rewrite !bool_decide_eq_false_2 by done. cbn [orb].
  pose proof (SplitTopicLevels_nonempty f Hf) as Hfl.
  pose proof (SplitTopicLevels_nonempty t Ht) as Htl.
  pose proof (matchLoop_spec (SplitTopicLevels f) [] (SplitTopicLevels t) _ eq_refl) as Hm.
  cbn [length app Nat.add] in Hm.
  destruct (SplitTopicLevels f) as [|f0 fl], (SplitTopicLevels t) as [|t0 tl]; try done.
  cbn [head]. rewrite <-Hm. by destruct (has_prefix t0 "$" && _).
Qed.

(** *** Wildcard syntax *)

Lemma bool_decide_last_idx (pre ls : list string) (n : nat) :
  n = (length pre + S (length ls))%nat →
  bool_decide (length pre = (n - 1)%nat) = bool_decide (ls = []).
Proof. intros ->. apply bool_decide_ext. destruct ls; cbn; split; intros; try done; lia. Qed.

Lemma hash_not_plain : ¬ plain_level "#".
Proof. intros [[_ H]|H]; discriminate H. Qed.

Lemma validateLevels_spec (pre ls : list string) n :
  n = (length pre + length ls)%nat → ls ≠ [] →
  validateLevels n (length pre) ls = Ok tt ↔ filter_levels ls.
Proof.
  revert pre. induction ls as [|l ls IH]; intros pre Hn Hne; [done|]. cbn in Hn.
  cbn [validateLevels]. specialize (IH (pre ++ [l])). rewrite length_app in IH.
  cbn in IH. rewrite Nat.add_1_r in IH. specialize (IH ltac:(lia)).
  rewrite (bool_decide_last_idx pre ls n) by lia.
  destruct (decide (l = "#")) as [->|Hl].
  { rewrite (bool_decide_eq_true_2 ("#" = "#")) by done.
    case_bool_decide as Hls; cbn; [subst; split; [constructor|done]|].
    split; [done|]. inversion 1; subst; [done| |]; by exfalso; eapply hash_not_plain. }
  rewrite (bool_decide_eq_false_2 (l = "#")) by done.
  assert (Hplain : plain_level l ↔
    contains_byte hash_char l = false ∧
    contains_byte plus_char l && negb (bool_decide (l = "+")) = false).
  { unfold plain_level, literal_level. destruct (decide (l = "+")) as [->|].
    - split; [done|auto].
    - rewrite (bool_decide_eq_false_2 (l = "+")) by done. cbn. rewrite andb_true_r.
      naive_solver. }
  destruct (contains_byte hash_char l) eqn:Hh.
  { split; [done|]. inversion 1; subst; naive_solver. }
  destruct (contains_byte plus_char l && _) eqn:Hp.
  { split; [done|]. inversion 1; subst; naive_solver. }
  assert (plain_level l) by naive_solver.
  destruct ls as [|l' ls]; cbn; [split; [by constructor|done]|].
  rewrite IH by done. split; [by apply fl_cons|]. inversion 1; subst; done.
Qed.

Lemma validateLevels_Split f :
  f ≠ "" →
  validateLevels (length (SplitTopicLevels f)) 0 (SplitTopicLevels f) = Ok tt ↔
  filter_levels (SplitTopicLevels f).
Proof.
  intros Hf. apply (validateLevels_spec ([] : list string)); [done|by apply SplitTopicLevels_nonempty].
Qed.

(** *** Shared subscriptions *)

(** What makes [g] a share name and [f] the rest of a shared filter. *)
Definition share_parts (g f : string) : Prop :=
  g ≠ "" ∧ f ≠ "" ∧ contains_byte slash g = false ∧ contains_any g "+#" = false.

Lemma has_share_prefix s :
  has_prefix s "$share/" = true → ∃ r, s = String.append "$share/" r.
Proof. apply has_prefix_spec. Qed.

Lemma drop_share r :
  drop_string (String.length "$share/") (String.append "$share/" r) = r.
Proof. apply (drop_string_append "$share/"). Qed.

Lemma trim_share r : trim_prefix (String.append "$share/" r) "$share/" = r.
Proof. unfold trim_prefix. replace (has_prefix _ _) with true; [|done]. apply drop_share. Qed.

Lemma append_nonempty g f : String.append g (String slash f) ≠ "".
Proof. by destruct g. Qed.

Lemma cut_byte_append g f :
  contains_byte slash g = false →
  cut_byte slash (String.append g (String slash f)) = Some (g, f).
Proof.
  induction g as [|c g IH]; cbn; [done|]. intros [Hc Hg]%orb_false_iff.
  apply bool_decide_eq_false in Hc. rewrite decide_False by done. by rewrite IH.
Qed.

Lemma join_rest (l : list string) r : l ≠ [] → join_byte slash (r :: l) =
  String.append r (String slash (join_byte slash l)).
Proof. by destruct l. Qed.

Lemma ParseSharedSubscription_spec s g f :
  ParseSharedSubscription s = Ok (g, f) ↔
  s = BuildSharedSubscriptionTopicFilter g f ∧ share_parts g f.
Proof.
  unfold ParseSharedSubscription, IsSharedSubscription, BuildSharedSubscriptionTopicFilter.
  unfold share_parts, SharedSubscriptionPrefix. split.
  - destruct (has_prefix s "$share/") eqn:E; [|done]. cbn [negb].
    apply has_share_prefix in E as [r ->]. rewrite (drop_share r).
    case_bool_decide as Hr; [done|].
    pose proof (split_byte_parts slash r) as Hparts.
    pose proof (join_SplitTopicLevels r) as Hj. revert Hj. unfold SplitTopicLevels.
    rewrite bool_decide_eq_false_2 by done.
    destruct (split_byte slash r) as [|g' [|f' rest]] eqn:Es; [done|done|]. intros Hj.
    case_bool_decide; [done|]. destruct (contains_any g' "+#") eqn:Ew; [done|].
    case_bool_decide; [done|]. intros [= <- <-]. apply Forall_cons in Hparts as [Hg _].
    rewrite <-Hj, join_rest by done. done.
  - intros [-> (Hg & Hf & Hs & Hw)]. replace (has_prefix _ _) with true; [|done].
    cbn [negb]. rewrite (drop_share (String.append g _)).
    rewrite bool_decide_eq_false_2 by apply append_nonempty.
    unfold SplitTopicLevels at 1. rewrite bool_decide_eq_false_2 by apply append_nonempty.
    rewrite split_byte_app by done. pose proof (split_byte_nonempty slash f).
    pose proof (join_split slash f) as Hj.
    destruct (split_byte slash f) eqn:E; [done|].
    rewrite bool_decide_eq_false_2, Hw by done. rewrite Hj.
    by rewrite bool_decide_eq_false_2 by done.
Qed.

Lemma ValidateTopicFilterSyntax_spec filter :
  ValidateTopicFilterSyntax filter = Ok tt ↔
  filter ≠ "" ∧
  if has_prefix filter "$share/"
  then ∃ g f, filter = BuildSharedSubscriptionTopicFilter g f ∧ share_parts g f ∧
              filter_levels (SplitTopicLevels f)
  else filter_levels (SplitTopicLevels filter).
Proof.
  unfold ValidateTopicFilterSyntax. case_bool_decide as Hf; [naive_solver|].
  destruct (has_prefix filter "$share/") eqn:E; [|cbn; rewrite validateLevels_Split; naive_solver].
  apply has_share_prefix in E as [r ->]. rewrite trim_share.
  unfold BuildSharedSubscriptionTopicFilter, SharedSubscriptionPrefix, share_parts. split.
  - destruct (cut_byte slash r) as [[g f]|] eqn:Ec; [|done].
    apply cut_byte_Some in Ec as [-> Hs].
    destruct (bool_decide (g = "") || bool_decide (f = "")) eqn:Eb; [done|].
    apply orb_false_iff in Eb as [?%bool_decide_eq_false ?%bool_decide_eq_false].
    destruct (contains_any g "+#") eqn:Ew; [done|]. cbn -[String.append].
    rewrite validateLevels_Split by done. naive_solver.
  - intros [_ (g & f & Hr & (Hg & Hf' & Hs & Hw) & Hl)]. injection Hr as ->.
    rewrite cut_byte_append by done.
    rewrite !(bool_decide_eq_false_2 _) by done. cbn -[String.append].
    rewrite Hw. cbn. by apply validateLevels_Split.
Qed.

Lemma HasWildcard_level f l :
  HasWildcard f = false → l ∈ SplitTopicLevels f → literal_level l.
Proof.
  unfold HasWildcard, SplitTopicLevels. case_bool_decide; [by subst; intros _ ?%elem_of_nil|].
  intros [Hp Hh]%orb_false_iff Hl.
  assert (∀ c s, contains_byte c s = false → ∀ p, p ∈ split_byte slash s →
            contains_byte c p = false) as Hsplit.
  { clear. intros c s. induction s as [|d s IH]; intros Hs p; cbn.
    - by intros ->%list_elem_of_singleton.
    - cbn in Hs. apply orb_false_iff in Hs as [Hd Hs]. specialize (IH Hs).
      destruct (decide (d = slash)).
      + intros [->|]%elem_of_cons; [done|by apply IH].
      + destruct (split_byte slash s) as [|h t] eqn:E; [by destruct (split_byte_nonempty slash s)|].
        intros [->|Hp]%elem_of_cons; [|apply IH; by right].
        cbn. rewrite Hd. apply IH. by left. }
  split; eapply Hsplit; eauto.
Qed.

Lemma levels_match_literal fs ts :
  Forall literal_level fs → levels_match fs ts → fs = ts.
Proof.
  induction 2 as [|ts|fs t ts _ IH|l fs ts _ _ _ IH]; try done.
  - inversion H as [|?? [_ Hh]]. discriminate Hh.
  - inversion H as [|?? [Hh _]]. discriminate Hh.
  - inversion H. f_equal. auto.
Qed.

Lemma levels_match_refl fs : Forall literal_level fs → levels_match fs fs.
Proof.
  induction 1 as [|l fs [Hp Hh] _ IH]; [constructor|].
  apply lm_literal; [intros ->; discriminate Hh|intros ->; discriminate Hp|done].
Qed.

(** ** Theorems *)

(** [MatchTopicFilter] decides exactly the matching relation of the MQTT 5
    specification: level-by-level matching with [+] and a trailing [#] (which
    also matches its parent level), together with the rule that a leading
    wildcard does not match topics starting with [$]. *)
Theorem MatchTopicFilter_correct filter topic :
  MatchTopicFilter filter topic = true ↔ topic_matches filter topic.
Proof.
  unfold topic_matches. destruct (decide (filter = "")) as [->|Hf].
  { split; [done|by intros [? _]]. }
  destruct (decide (topic = "")) as [->|Ht].
  { split; [|by intros (_ & ? & _)]. unfold MatchTopicFilter. by rewrite orb_true_r. }
  rewrite MatchTopicFilter_levels, andb_true_iff, levels_matchb_spec by done.
  pose proof (SplitTopicLevels_nonempty filter Hf).
  pose proof (SplitTopicLevels_nonempty topic Ht). unfold dollar_rule.
  destruct (SplitTopicLevels filter) as [|f0 fl], (SplitTopicLevels topic) as [|t0 tl]; try done.
  cbn [head]. destruct (has_prefix t0 "$") eqn:Et, (has_prefix f0 "$") eqn:Ef; cbn; naive_solver congruence.
Qed.

(** A filter without wildcards matches the topic of the same name and no
    other topic. *)
Theorem MatchTopicFilter_exact filter topic :
  filter ≠ "" → HasWildcard filter = false →
  MatchTopicFilter filter topic = bool_decide (filter = topic).
Proof.
  intros Hf Hw. destruct (decide (topic = "")) as [->|Ht].
  { unfold MatchTopicFilter. rewrite orb_true_r. by rewrite bool_decide_eq_false_2. }
  rewrite MatchTopicFilter_levels by done.
  assert (Forall literal_level (SplitTopicLevels filter)) as Hl.
  { apply Forall_forall. intros. by eapply HasWildcard_level. }
  case_bool_decide as Heq.
  - subst. apply andb_true_iff. rewrite levels_matchb_spec.
    split; [|by apply levels_match_refl].
    destruct (SplitTopicLevels topic); cbn [head]; [done|]. by destruct (has_prefix s "$").
  - apply andb_false_intro2, not_true_is_false. rewrite levels_matchb_spec.
    intros ?%levels_match_literal; [|done]. by apply Heq, SplitTopicLevels_inj.
Qed.

Lemma MatchTopicFilter_exact_witness :
  MatchTopicFilter "sensors/7/temp" "sensors/8/temp" = false ∧
  MatchTopicFilter "$SYS/load" "$SYS/load" = true.
Proof.
  split; (rewrite MatchTopicFilter_exact; [reflexivity|discriminate|reflexivity]).
Defined.

(** The syntax check accepts a filter exactly when it is non-empty and
    its wildcards are well placed, and for a filter starting with [$share/]
    when it is [$share/{group}/{filter}] with a non-empty group without
    wildcards or slashes and a non-empty well-formed inner filter. *)
Theorem ValidateTopicFilterSyntax_correct filter :
  ValidateTopicFilterSyntax filter = Ok tt ↔
  filter ≠ "" ∧
  if has_prefix filter "$share/"
  then ∃ g f, filter = BuildSharedSubscriptionTopicFilter g f ∧ share_parts g f ∧
              filter_levels (SplitTopicLevels f)
  else filter_levels (SplitTopicLevels filter).
Proof.
  apply ValidateTopicFilterSyntax_spec.
Qed.

(** Parsing inverts building: [ParseSharedSubscription] returns [(g, f)]
    exactly for the filter [BuildSharedSubscriptionTopicFilter g f] with a
    legal share name and a non-empty inner filter; the parser of [topic.go]
    gives the same two parts on those filters. *)
Theorem ParseSharedSubscription_roundtrip s g f :
  ParseSharedSubscription s = Ok (g, f) ↔
  s = BuildSharedSubscriptionTopicFilter g f ∧ share_parts g f ∧ ParseShareTopic s = (g, f).
Proof.
  rewrite ParseSharedSubscription_spec. split; [|naive_solver].
  intros [-> Hp]. split_and!; [done..|]. destruct Hp as (_ & _ & Hs & _).
  unfold ParseShareTopic, BuildSharedSubscriptionTopicFilter, SharedSubscriptionPrefix.
  replace (IsShareTopic _) with true by done. cbn [negb].
  by rewrite trim_share, cut_byte_append.
Qed.

(** Every filter that passes the syntax check and starts with [$share/] is
    parsed by [ParseSharedSubscription] into a legal share name and a filter
    that itself passes the wildcard rules: later stages never see a parse
    error on a validated subscription. *)
Theorem validated_shared_parses s :
  ValidateTopicFilterSyntax s = Ok tt → IsSharedSubscription s = true →
  ∃ g f, ParseSharedSubscription s = Ok (g, f) ∧ filter_levels (SplitTopicLevels f).
Proof.
  intros [_ Hv]%ValidateTopicFilterSyntax_spec Hs.
  unfold IsSharedSubscription, SharedSubscriptionPrefix in Hs. rewrite Hs in Hv.
  destruct Hv as (g & f & -> & Hp & Hl). exists g, f. split; [|done].
  by apply ParseSharedSubscription_spec.
Qed.

Lemma validated_shared_parses_witness :
  ∃ g f, ParseSharedSubscription "$share/grp/a/+/#" = Ok (g, f) ∧
         filter_levels (SplitTopicLevels f).
Proof. apply validated_shared_parses; reflexivity. Defined.
