(* ===== verification/Wire.v ===== *)
(** * The wire layer: errors, cursor, variable byte integers, fixed header

    [src/pkg/mqtt5/wire/errors.go], [cursor.go], [vbi.go] and
    [fixed_header.go].  A read method of [*cursor] is a [decoder]: it maps the
    cursor to a value and the advanced cursor, or to the error that aborts the
    packet.  A write function returns the bytes it appends to the buffer (every
    caller drops the buffer on error).  An [io.Reader] is the list of bytes it
    will still deliver before EOF. *)

From S2P Require Import Prelude GoStrings Mqtt5.

(** ** Errors ([errors.go]) *)

Inductive ErrorKind :=
| ErrMalformedPacket
| ErrProtocolError
| ErrPacketTooLarge
| ErrUnsupportedProtocolVersion
| ErrImplementation.

(** Errors of [io.ReadFull]. *)
Inductive IOError := EOF | ErrUnexpectedEOF.

Definition IOError_Error (e : IOError) : string :=
  match e with EOF => "EOF" | ErrUnexpectedEOF => "unexpected EOF" end.

Record WireError := mkWireError {
  we_Kind : ErrorKind;
  we_Packet : Z;
  we_Field : string;
  we_Reason : Z;
  we_Message : string;
  we_PacketSize : Z;
  we_MaxPacketSize : Z;
  we_Cause : option IOError }.

Definition kindReason (kind : ErrorKind) : Z :=
  match kind with
  | ErrPacketTooLarge => 0x95
  | ErrUnsupportedProtocolVersion => 0x84
  | ErrProtocolError => 0x82
  | ErrMalformedPacket => 0x81
  | ErrImplementation => 0x83
  end.

Definition wireError (kind : ErrorKind) (packet : Z) (field message : string)
    (cause : option IOError) : WireError :=
  mkWireError kind packet field (kindReason kind) message 0 0 cause.

Definition malformed (packet : Z) (field message : string) : WireError :=
  wireError ErrMalformedPacket packet field message None.
Definition protocol (packet : Z) (field message : string) : WireError :=
  wireError ErrProtocolError packet field message None.
Definition implementation (packet : Z) (field message : string) : WireError :=
  wireError ErrImplementation packet field message None.
Definition wrapMalformed (packet : Z) (field message : string) (err : IOError) : WireError :=
  wireError ErrMalformedPacket packet field message (Some err).

Definition tooLarge (packet size max : Z) : WireError :=
  let err := wireError ErrPacketTooLarge packet "remaining length"
    (String.append "packet size " (String.append (pretty size)
       (String.append " exceeds maximum " (pretty max)))) None in
  mkWireError (we_Kind err) (we_Packet err) (we_Field err) (we_Reason err)
    (we_Message err) size max (we_Cause err).

Definition unsupportedVersion (version : Z) : WireError :=
  wireError ErrUnsupportedProtocolVersion CONNECT "protocol version"
    (String.append "unsupported protocol version " (pretty version)) None.

Definition WireError_Error (e : WireError) : string :=
  let msg := if bool_decide (we_Message e = "") then "mqtt wire error" else we_Message e in
  let msg := if we_Packet e =? 0 then msg
             else String.append (PacketTypeName (we_Packet e)) (String.append " " msg) in
  let msg := if bool_decide (we_Field e = "") then msg
             else String.append msg (String.append " (" (String.append (we_Field e) ")")) in
  match we_Cause e with
  | Some c => String.append msg (String.append ": " (IOError_Error c))
  | None => msg
  end.

(** An error value of the reader functions: an [io] error as it came from the
    connection, or a [*WireError]. *)
Inductive ReadError :=
| IOErr (e : IOError)
| WireErr (e : WireError).

Definition classifyReadError (packet : Z) (field : string) (err : ReadError) : ReadError :=
  match err with
  | WireErr w => WireErr w
  | IOErr e => WireErr (wrapMalformed packet field "failed to read field" e)
  end.

(** ** Variable byte integers ([vbi.go], [fixed_header.go]) *)

Definition maxRemainingLength : Z := 268435455.

Definition minimalVBIBytes (value : Z) : Z :=
  if value <? 128 then 1
  else if value <? 16384 then 2
  else if value <? 2097152 then 3
  else 4.

(** The [for] loop of [encodeRemainingLength]; four iterations are enough for
    any length up to [maxRemainingLength] (lemma [encodeVBI_loop_enough]). *)
Fixpoint encodeVBI_loop (fuel : nat) (length : Z) : list byte :=
  match fuel with
  | O => []
  | S fuel' =>
      let digit := length `mod` 128 in
      let length := length `div` 128 in
      let digit := if 0 <? length then Z.lor digit 0x80 else digit in
      z2b digit :: (if length =? 0 then [] else encodeVBI_loop fuel' length)
  end.

Definition encodeRemainingLength (length : Z) : result WireError (list byte) :=
  if (length <? 0) || (maxRemainingLength <? length)
  then Err (malformed 0 "remaining length" "remaining length exceeds MQTT maximum")
  else Ok (encodeVBI_loop 4 length).

(** [io.ReadFull(r, buf)] for a buffer of [n] bytes. *)
Definition ReadFull (n : nat) (r : list byte) : result IOError (list byte * list byte) :=
  if bool_decide (n ≤ length r)%nat then Ok (take n r, drop n r)
  else if bool_decide (r = []) then Err EOF
  else Err ErrUnexpectedEOF.

(** The loop of [readRemainingLength]: value, width and the rest of the stream. *)
Fixpoint readRemainingLength_loop (left : nat) (width value multiplier : Z) (r : list byte)
    : result ReadError (Z * Z * list byte) :=
  match left with
  | O => Err (WireErr (malformed 0 "remaining length" "malformed variable byte integer"))
  | S left' =>
      match ReadFull 1 r with
      | Err e => Err (IOErr e)
      | Ok (digit, r') =>
          let d := match digit with b :: _ => b2z b | [] => 0 end in
          let value := value + Z.land d 127 * multiplier in
          if maxRemainingLength <? value
          then Err (WireErr (malformed 0 "remaining length" "remaining length exceeds MQTT maximum"))
          else if Z.land d 128 =? 0 then
            if negb (width =? minimalVBIBytes value)
            then Err (WireErr (malformed 0 "remaining length" "remaining length is not minimally encoded"))
            else Ok (value, width, r')
          else readRemainingLength_loop left' (width + 1) value (multiplier * 128) r'
      end
  end.

Definition readRemainingLength (r : list byte) : result ReadError (Z * Z * list byte) :=
  readRemainingLength_loop 4 1 0 1 r.

(** ** Cursor ([cursor.go]) *)

Record cursor := mkCursor {
  cur_packet : Z;
  cur_data : list byte;
  cur_pos : nat }.

Definition newCursor (packet : Z) (data : list byte) : cursor := mkCursor packet data 0.

Definition remaining (c : cursor) : Z := Z.of_nat (length (cur_data c)) - Z.of_nat (cur_pos c).

Definition decoder (A : Type) : Type := cursor → result WireError (A * cursor).

#[export] Instance decoder_mret : MRet decoder := λ A a c, Ok (a, c).
#[export] Instance decoder_mbind : MBind decoder :=
  λ A B f m c, match m c with Ok (a, c') => f a c' | Err e => Err e end.

Definition fail {A} (e : WireError) : decoder A := λ _, Err e.
Definition lift {A} (m : result WireError A) : decoder A :=
  λ c, match m with Ok a => Ok (a, c) | Err e => Err e end.
(** [if cond { return nil, err }]. *)
Definition guard_not (cond : bool) (e : WireError) : decoder unit := lift (check cond e).
Definition get_remaining : decoder Z := λ c, Ok (remaining c, c).
Definition get_packet : decoder Z := λ c, Ok (cur_packet c, c).

(** [c.pos += n]. *)
Definition adv (n : nat) (c : cursor) : cursor :=
  mkCursor (cur_packet c) (cur_data c) (cur_pos c + n).

Definition readByte (field : string) : decoder Z := λ c,
  if remaining c <? 1 then Err (malformed (cur_packet c) field "field is truncated")
  else Ok (b2z (nth (cur_pos c) (cur_data c) zero), adv 1 c).

Definition readBytes (field : string) (n : Z) : decoder (list byte) := λ c,
  if (n <? 0) || (remaining c <? n)
  then Err (malformed (cur_packet c) field "field is truncated")
  else Ok (take (Z.to_nat n) (drop (cur_pos c) (cur_data c)), adv (Z.to_nat n) c).

(** [b[i]] of a slice that was read with a known length. *)
Definition byte_at (b : list byte) (i : nat) : Z := b2z (nth i b zero).

Definition readUint16 (field : string) : decoder Z :=
  b ← readBytes field 2;
  mret (Z.lor (wrap 16 (Z.shiftl (byte_at b 0) 8)) (byte_at b 1)).

Definition readUint32 (field : string) : decoder Z :=
  b ← readBytes field 4;
  mret (Z.lor (Z.lor (Z.lor (wrap 32 (Z.shiftl (byte_at b 0) 24))
                            (wrap 32 (Z.shiftl (byte_at b 1) 16)))
                     (wrap 32 (Z.shiftl (byte_at b 2) 8)))
              (byte_at b 3)).

Definition readBinary (field : string) : decoder (list byte) :=
  n ← readUint16 (String.append field " length");
  readBytes field n.

Definition readString (field : string) : decoder string :=
  data ← readBinary field;
  packet ← get_packet;
  _ ← guard_not (negb (utf8_valid data)) (malformed packet field "malformed UTF-8 string");
  let out := go_string data in
  _ ← guard_not (contains_byte zero out)
        (malformed packet field "UTF-8 string contains null character");
  mret out.

Fixpoint readVBI_loop (field : string) (left : nat) (width value multiplier : Z) : decoder Z :=
  match left with
  | O => packet ← get_packet; fail (malformed packet field "malformed variable byte integer")
  | S left' =>
      digit ← readByte field;
      packet ← get_packet;
      let value := value + Z.land digit 127 * multiplier in
      if maxRemainingLength <? value
      then fail (malformed packet field "variable byte integer exceeds MQTT maximum")
      else if Z.land digit 128 =? 0 then
        if negb (width =? minimalVBIBytes value)
        then fail (malformed packet field "variable byte integer is not minimally encoded")
        else mret value
      else readVBI_loop field left' (width + 1) value (multiplier * 128)
  end.

Definition readVBI (field : string) : decoder Z := readVBI_loop field 4 1 0 1.

(** *** Writers *)

Definition writeUint16 (value : Z) : list byte :=
  [z2b (Z.shiftr value 8); z2b value].

Definition writeUint32 (value : Z) : list byte :=
  [z2b (Z.shiftr value 24); z2b (Z.shiftr value 16); z2b (Z.shiftr value 8); z2b value].

Definition writeBinary (packet : Z) (field : string) (value : list byte)
    : result WireError (list byte) :=
  let n := Z.of_nat (length value) in
  if 65535 <? n
  then Err (malformed packet field "binary data exceeds two-byte length prefix")
  else Ok (writeUint16 (wrap 16 n) ++ value).

Definition writeString (packet : Z) (field value : string) : result WireError (list byte) :=
  let data := go_bytes value in
  let n := Z.of_nat (length data) in
  if 65535 <? n
  then Err (malformed packet field "UTF-8 string exceeds two-byte length prefix")
  else if negb (utf8_valid data)
  then Err (malformed packet field "malformed UTF-8 string")
  else if contains_byte zero value
  then Err (malformed packet field "UTF-8 string contains null character")
  else Ok (writeUint16 (wrap 16 n) ++ data).

Definition writeVBI (packet : Z) (field : string) (value : Z) : result WireError (list byte) :=
  match encodeRemainingLength value with
  | Err err => Err (malformed packet field (WireError_Error err))
  | Ok encoded => Ok encoded
  end.

(** ** Fixed header ([fixed_header.go]) *)

Definition validateFixedHeaderFlags (packetType flags : Z) : result WireError unit :=
  if packetType =? PUBLISH then
    let qos := Z.land (Z.shiftr flags 1) 0x03 in
    let dup := negb (Z.land flags 0x08 =? 0) in
    if qos =? 0x03
    then Err (malformed packetType "fixed header flags" "PUBLISH QoS 3 is reserved")
    else if (qos =? 0x00) && dup
    then Err (malformed packetType "fixed header flags" "PUBLISH QoS 0 must not set DUP")
    else Ok tt
  else if (packetType =? PUBREL) || (packetType =? SUBSCRIBE) || (packetType =? UNSUBSCRIBE) then
    if flags =? 0x02 then Ok tt
    else Err (malformed packetType "fixed header flags" "invalid fixed header flags")
  else
    if flags =? 0x00 then Ok tt
    else Err (malformed packetType "fixed header flags" "invalid fixed header flags").

Definition fixedHeaderFlags (content : Packet) : result WireError Z :=
  match content with
  | PPublish p =>
      if pub_QoS p =? 3
      then Err (malformed PUBLISH "qos" "PUBLISH QoS 3 is reserved")
      else if (pub_QoS p =? 0) && pub_Duplicate p
      then Err (malformed PUBLISH "fixed header flags" "PUBLISH QoS 0 must not set DUP")
      else
        let flags := wrap 8 (Z.shiftl (pub_QoS p) 1) in
        let flags := if pub_Duplicate p then Z.lor flags 0x08 else flags in
        let flags := if pub_Retain p then Z.lor flags 0x01 else flags in
        Ok flags
  | PPubrel _ | PSubscribe _ | PUnsubscribe _ => Ok 0x02
  | _ => Ok 0x00
  end.

(** ** Bit arithmetic on disjoint fields *)

Lemma lor_disjoint a n b : 0 ≤ n → 0 ≤ b < 2 ^ n → Z.lor (a * 2 ^ n) b = a * 2 ^ n + b.
Proof.
  intros Hn Hb. rewrite <-Z.add_lor_land.
  assert (Z.land (a * 2 ^ n) b = 0) as ->; [|lia].
  rewrite <-Z.shiftl_mul_pow2 by lia. apply Z.bits_inj'. intros k Hk.
  rewrite Z.land_spec, Z.bits_0. destruct (decide (k < n)).
  - by rewrite Z.shiftl_spec_low.
  - destruct (decide (b = 0)) as [->|]; [by rewrite Z.bits_0, andb_false_r|].
    rewrite (Z.bits_above_log2 b), andb_false_r; [done|lia|].
    apply Z.lt_le_trans with n; [|lia]. apply Z.log2_lt_pow2; lia.
Qed.

Lemma lor_128 d : 0 ≤ d < 128 → Z.lor d 0x80 = d + 128.
Proof. intros. rewrite Z.lor_comm. change 0x80 with (1 * 2 ^ 7). rewrite lor_disjoint; lia. Qed.

Lemma land_127 d : Z.land d 127 = d `mod` 128.
Proof. apply (Z.land_ones d 7). lia. Qed.

Lemma land_128 d : 0 ≤ d < 256 → Z.land d 128 = if d <? 128 then 0 else 128.
Proof.
  intros Hd.
  assert (Forall (λ k, Z.land (Z.of_nat k) 128 = if Z.of_nat k <? 128 then 0 else 128)
            (seq 0 256)) as Hall by (vm_compute; repeat constructor).
  rewrite Forall_forall in Hall. rewrite <-(Z2Nat.id d) by lia.
  apply Hall, elem_of_seq. lia.
Qed.

(** ** Variable byte integers *)

Section vbi.
(** The byte [encodeVBI_loop] emits for the remaining value [n]. *)
Definition vbi_digit (n : Z) : Z :=
  if 0 <? n `div` 128 then Z.lor (n `mod` 128) 0x80 else n `mod` 128.

Lemma vbi_digit_last n : 0 ≤ n < 128 →
  is_u8 (vbi_digit n) ∧ Z.land (vbi_digit n) 127 = n ∧ Z.land (vbi_digit n) 128 = 0.
Proof.
  intros Hn. unfold vbi_digit. rewrite Z.div_small, Z.mod_small by lia. cbn.
  split; [unfold is_u8; lia|]. rewrite land_127, land_128 by lia.
  rewrite Z.mod_small by lia. case_match; lia.
Qed.

Lemma vbi_digit_more n : 128 ≤ n →
  is_u8 (vbi_digit n) ∧ Z.land (vbi_digit n) 127 = n `mod` 128 ∧
  Z.land (vbi_digit n) 128 = 128.
Proof.
  intros Hn. unfold vbi_digit. pose proof (Z.mod_pos_bound n 128).
  assert ((0 <? n `div` 128) = true) as -> by (apply Z.ltb_lt, Z.div_str_pos; lia).
  rewrite lor_128 by lia. split; [unfold is_u8; lia|].
  rewrite land_127, land_128 by lia. split; [|case_match; lia].
  rewrite <-(Z.mul_1_l 128) at 2. rewrite Z.mod_add by lia. apply Z.mod_small. lia.
Qed.

Lemma encodeVBI_loop_S f n :
  encodeVBI_loop (S f) n =
  z2b (vbi_digit n) :: if n `div` 128 =? 0 then [] else encodeVBI_loop f (n `div` 128).
Proof. done. Qed.

Lemma encodeVBI_loop_last f n : 0 ≤ n < 128 → encodeVBI_loop (S f) n = [z2b (vbi_digit n)].
Proof. intros. rewrite encodeVBI_loop_S, Z.div_small by lia. done. Qed.

Lemma encodeVBI_loop_more f n : 128 ≤ n →
  encodeVBI_loop (S f) n = z2b (vbi_digit n) :: encodeVBI_loop f (n `div` 128).
Proof.
  intros. rewrite encodeVBI_loop_S. case_match; [|done].
  pose proof (Z.div_str_pos n 128). lia.
Qed.

(** The fuel of the encoder is enough: with at least as many iterations as
    base-128 digits, more fuel does not change the result. *)
Lemma encodeVBI_loop_enough f f' n :
  0 ≤ n < 128 ^ Z.of_nat f → (1 ≤ f ≤ f')%nat → encodeVBI_loop f' n = encodeVBI_loop f n.
Proof.
  revert f' n. induction f as [|f IH]; intros f' n Hn Hf; [lia|].
  destruct f' as [|f']; [lia|]. destruct (decide (n < 128)).
  { by rewrite !encodeVBI_loop_last by lia. }
  rewrite !encodeVBI_loop_more by lia. f_equal.
  rewrite Nat2Z.inj_succ, Z.pow_succ_r in Hn by lia.
  apply IH; [|destruct f; cbn in Hn; lia].
  split; [apply Z.div_pos; lia|]. apply Z.div_lt_upper_bound; lia.
Qed.

Lemma encodeVBI_width n :
  0 ≤ n ≤ maxRemainingLength →
  Z.of_nat (length (encodeVBI_loop 4 n)) = minimalVBIBytes n.
Proof.
  unfold maxRemainingLength, minimalVBIBytes. intros Hn.
  destruct (decide (n < 128)).
  { rewrite encodeVBI_loop_last by lia. cbn. case_match; lia. }
  rewrite encodeVBI_loop_more by lia. destruct (decide (n < 16384)).
  { rewrite encodeVBI_loop_last by (split; [apply Z.div_pos|apply Z.div_lt_upper_bound]; lia).
    cbn. repeat case_match; lia. }
  assert (128 ≤ n `div` 128) by (apply Z.div_le_lower_bound; lia).
  rewrite encodeVBI_loop_more by lia. rewrite Z.div_div by lia.
  destruct (decide (n < 2097152)).
  { rewrite encodeVBI_loop_last by (split; [apply Z.div_pos|apply Z.div_lt_upper_bound]; lia).
    cbn. repeat case_match; lia. }
  assert (128 ≤ n `div` (128 * 128)) by (apply Z.div_le_lower_bound; lia).
  rewrite encodeVBI_loop_more by lia. rewrite Z.div_div by lia.
  rewrite encodeVBI_loop_last by (split; [apply Z.div_pos|apply Z.div_lt_upper_bound]; lia).
  cbn. repeat case_match; lia.
Qed.

Lemma minimalVBIBytes_bound v w :
  0 ≤ v < 128 ^ (w - 1) → 1 < w ≤ 4 → minimalVBIBytes v < w.
Proof.
  intros Hv Hw. unfold minimalVBIBytes.
  assert (w = 2 ∨ w = 3 ∨ w = 4) as [-> | [-> | ->]] by lia; cbn in Hv;
    repeat case_match; lia.
Qed.

Lemma ReadFull_1 b r : ReadFull 1 (b :: r) = Ok ([b], r).
Proof. unfold ReadFull. rewrite bool_decide_eq_true_2; [by destruct r|cbn; lia]. Qed.

Lemma pow_width w : 1 ≤ w → 128 ^ w = 128 ^ (w - 1) * 128.
Proof. intros. replace w with (Z.succ (w - 1)) at 1 by lia. rewrite Z.pow_succ_r by lia. lia. Qed.

Lemma readRemainingLength_loop_encode left n width value tl :
  (1 ≤ left)%nat → 0 ≤ n < 128 ^ Z.of_nat left → 1 ≤ width → 0 ≤ value < 128 ^ (width - 1) →
  value + n * 128 ^ (width - 1) ≤ maxRemainingLength →
  minimalVBIBytes (value + n * 128 ^ (width - 1)) =
    width + Z.of_nat (length (encodeVBI_loop left n)) - 1 →
  readRemainingLength_loop left width value (128 ^ (width - 1)) (encodeVBI_loop left n ++ tl) =
    Ok (value + n * 128 ^ (width - 1),
        width + Z.of_nat (length (encodeVBI_loop left n)) - 1, tl).
Proof.
  revert n width value. induction left as [|left IH]; intros n width value Hleft Hn Hw Hv Hmax Hmin.
  { lia. }
  destruct (decide (n < 128)) as [Hlt|Hge].
  - destruct (vbi_digit_last n) as (Hu & H127 & H128); [lia|].
    rewrite encodeVBI_loop_last in * by lia. cbn [length] in *.
    cbn [app readRemainingLength_loop]. rewrite ReadFull_1, b2z_z2b_u8, H127, H128 by done.
    rewrite (proj2 (Z.ltb_ge _ _)) by lia. rewrite Hmin. cbn.
    replace (width + Z.of_nat 1 - 1) with width by lia. by rewrite Z.eqb_refl.
  - destruct (vbi_digit_more n) as (Hu & H127 & H128); [lia|].
    rewrite encodeVBI_loop_more in * by lia. cbn [length] in *.
    cbn [app readRemainingLength_loop]. rewrite ReadFull_1, b2z_z2b_u8, H127, H128 by done.
    rewrite Nat2Z.inj_succ, Z.pow_succ_r in Hn by lia.
    pose proof (Z.div_mod n 128 ltac:(lia)) as Hdm.
    pose proof (Z.mod_pos_bound n 128 ltac:(lia)) as Hmb.
    pose proof (pow_width width Hw) as Hpw.
    assert (0 < 128 ^ (width - 1)) by (apply Z.pow_pos_nonneg; lia).
    assert (0 ≤ n `div` 128 < 128 ^ Z.of_nat left).
    { split; [apply Z.div_pos|apply Z.div_lt_upper_bound]; lia. }
    set (q := n `div` 128) in *. set (m := n `mod` 128) in *.
    set (M := 128 ^ (width - 1)) in *.
    rewrite (proj2 (Z.ltb_ge _ _)) by nia. cbn [Z.eqb].
    specialize (IH q (width + 1) (value + m * M)).
    replace (width + 1 - 1) with width in IH by lia. rewrite Hpw in IH.
    replace (value + m * M + q * (M * 128)) with (value + n * M) in IH by nia.
    rewrite Nat2Z.inj_succ in *. rewrite IH; [f_equal; f_equal; f_equal; lia| |lia|lia|nia|lia|lia].
    destruct left; [cbn in Hn|]; lia.
Qed.

Lemma readRemainingLength_loop_inv left width value r v w tl :
  1 ≤ width → width + Z.of_nat left ≤ 5 → 0 ≤ value < 128 ^ (width - 1) →
  readRemainingLength_loop left width value (128 ^ (width - 1)) r = Ok (v, w, tl) →
  ∃ n, 0 ≤ n ∧ (1 < width → 0 < n) ∧ v = value + n * 128 ^ (width - 1) ∧
       v ≤ maxRemainingLength ∧ r = encodeVBI_loop left n ++ tl ∧
       w = width + Z.of_nat (length (encodeVBI_loop left n)) - 1.
Proof.
  revert width value r. induction left as [|left IH]; intros width value r Hw Hl Hv; [done|].
  cbn [readRemainingLength_loop]. destruct r as [|b r]; [done|]. rewrite ReadFull_1.
  pose proof (b2z_range b) as Hb. unfold is_u8 in Hb.
  rewrite land_127, land_128 by lia.
  pose proof (Z.mod_pos_bound (b2z b) 128 ltac:(lia)) as Hmb.
  assert (0 < 128 ^ (width - 1)) by (apply Z.pow_pos_nonneg; lia).
  pose proof (pow_width width Hw) as Hpw.
  set (M := 128 ^ (width - 1)) in *. set (m := b2z b `mod` 128) in *.
  destruct (Z.ltb_spec maxRemainingLength (value + m * M)) as [|Hmax]; [done|].
  destruct (Z.ltb_spec (b2z b) 128) as [Hlt|Hge].
  - cbn [Z.eqb]. destruct (Z.eqb_spec width (minimalVBIBytes (value + m * M))) as [Hmin|]; [|done].
    intros [= <- <- <-]. assert (m = b2z b) as Hm by (apply Z.mod_small; lia).
    exists m. split_and!; [lia| |done|done| |].
    + intros Hw1. destruct (decide (0 < m)); [done|].
      pose proof (minimalVBIBytes_bound (value + m * M) width). lia.
    + rewrite encodeVBI_loop_last by lia. cbn. f_equal. rewrite Hm. unfold vbi_digit.
      rewrite Z.div_small, Z.mod_small by lia. change (0 <? 0) with false; cbv iota; by rewrite z2b_b2z.
    + rewrite encodeVBI_loop_last by lia. cbn. lia.
  - cbn [Z.eqb]. intros Hrec. specialize (IH (width + 1) (value + m * M) r).
    replace (width + 1 - 1) with width in IH by lia. rewrite Hpw in IH.
    destruct IH as (n & Hn & Hpos & Hv' & Hmax' & -> & Hw'); [lia|lia|nia|done|].
    assert (0 < n) by lia.
    assert (Hdiv : (m + n * 128) `div` 128 = n) by (rewrite Z.div_add by lia; rewrite Z.div_small; lia).
    assert (Hmod : (m + n * 128) `mod` 128 = m) by (rewrite Z.mod_add by lia; apply Z.mod_small; lia).
    exists (m + n * 128). rewrite encodeVBI_loop_more by lia. rewrite Hdiv.
    split_and!; [lia|lia|nia|done| |cbn [length]; lia].
    cbn. f_equal. unfold vbi_digit. rewrite Hdiv, Hmod.
    rewrite (proj2 (Z.ltb_lt _ _)) by lia. rewrite lor_128 by lia.
    rewrite <-(z2b_b2z b). f_equal. unfold m.
    pose proof (Z.div_mod (b2z b) 128). assert (b2z b `div` 128 = 1); [|lia].
    symmetry. apply Z.div_unique with (b2z b - 128); lia.
Qed.
End vbi.
