(* ===== verification/WireParse.v ===== *)
(** * Parsing relation for the cursor, and the primitive round trips

    [parses m bs a]: on any cursor whose unread bytes start with [bs], the
    decoder [m] returns [a] and consumes exactly [bs].  [parses_end m bs a] is
    the same for decoders that look at how much is left (optional trailing
    fields): there [bs] is all that is left.  Both compose along [≫=], so a
    packet's round trip is assembled from the round trips of its fields. *)

From S2P Require Import Prelude GoStrings Mqtt5 Wire.

Definition rest (c : cursor) : list byte := drop (cur_pos c) (cur_data c).
Definition cur_ok (c : cursor) : Prop := (cur_pos c ≤ length (cur_data c))%nat.

Definition parses {A} (m : decoder A) (bs : list byte) (a : A) : Prop :=
  ∀ c tl, cur_ok c → rest c = bs ++ tl → m c = Ok (a, adv (length bs) c).
Definition parses_end {A} (m : decoder A) (bs : list byte) (a : A) : Prop :=
  ∀ c, cur_ok c → rest c = bs → m c = Ok (a, adv (length bs) c).

(** ** Cursor arithmetic *)

Lemma length_rest c : cur_ok c → Z.of_nat (length (rest c)) = remaining c.
Proof. unfold cur_ok, rest, remaining. rewrite length_drop. lia. Qed.

Lemma rest_adv n c : rest (adv n c) = drop n (rest c).
Proof. unfold rest, adv. cbn. by rewrite drop_drop. Qed.

Lemma adv_0 c : adv 0 c = c.
Proof. destruct c. unfold adv. cbn. by rewrite Nat.add_0_r. Qed.

Lemma adv_adv n m c : adv n (adv m c) = adv (m + n) c.
Proof. unfold adv. cbn. f_equal. lia. Qed.

Lemma cur_ok_adv c bs tl : cur_ok c → rest c = bs ++ tl → cur_ok (adv (length bs) c).
Proof.
  unfold cur_ok. intros Hc Hr. apply (f_equal length) in Hr.
  unfold rest in Hr. rewrite length_drop, length_app in Hr. cbn. lia.
Qed.

Lemma rest_adv_app c bs tl : rest c = bs ++ tl → rest (adv (length bs) c) = tl.
Proof. intros Hr. by rewrite rest_adv, Hr, drop_app_length. Qed.

Lemma remaining_app c bs tl :
  cur_ok c → rest c = bs ++ tl → remaining c = Z.of_nat (length bs) + Z.of_nat (length tl).
Proof. intros Hc Hr. rewrite <-length_rest, Hr, length_app by done. lia. Qed.

(** ** Composition *)

Section parses_rules.
Context {A B : Type}.
Implicit Types (m : decoder A) (f : A → decoder B).

Lemma parses_ret (a : A) : parses (mret a) [] a.
Proof. intros c tl _ _. cbn. by rewrite adv_0. Qed.

Lemma parses_bind m f b1 b2 a b :
  parses m b1 a → parses (f a) b2 b → parses (m ≫= f) (b1 ++ b2) b.
Proof.
  intros Hm Hf c tl Hc Hr. rewrite <-app_assoc in Hr.
  unfold mbind, decoder_mbind. rewrite (Hm c (b2 ++ tl)) by done.
  rewrite (Hf _ tl); [|by eapply cur_ok_adv|by apply rest_adv_app].
  by rewrite adv_adv, length_app.
Qed.

Lemma parses_bind_end m f b1 b2 a b :
  parses m b1 a → parses_end (f a) b2 b → parses_end (m ≫= f) (b1 ++ b2) b.
Proof.
  intros Hm Hf c Hc Hr. unfold mbind, decoder_mbind. rewrite (Hm c b2) by done.
  rewrite (Hf (adv (length b1) c)); [|by eapply cur_ok_adv|by apply rest_adv_app].
  by rewrite adv_adv, length_app.
Qed.

Lemma parses_to_end m bs a : parses m bs a → parses_end m bs a.
Proof. intros Hm c Hc Hr. apply (Hm c []); [done|]. by rewrite app_nil_r. Qed.

Lemma parses_end_ret (a : A) : parses_end (mret a) [] a.
Proof. apply parses_to_end, parses_ret. Qed.

Lemma parses_get_packet (f : Z → decoder B) bs b :
  (∀ p, parses (f p) bs b) → parses (get_packet ≫= f) bs b.
Proof. intros Hf c tl Hc Hr. unfold mbind, decoder_mbind, get_packet. by apply Hf with tl. Qed.

Lemma parses_end_remaining (f : Z → decoder B) bs b :
  parses_end (f (Z.of_nat (length bs))) bs b → parses_end (get_remaining ≫= f) bs b.
Proof.
  intros Hf c Hc Hr. unfold mbind, decoder_mbind, get_remaining.
  rewrite <-length_rest, Hr by done. by apply Hf.
Qed.

Lemma parses_guard (f : unit → decoder B) (cond : bool) e bs b :
  cond = false → parses (f tt) bs b → parses (guard_not cond e ≫= f) bs b.
Proof. intros -> Hf c tl Hc Hr. by apply Hf with tl. Qed.

Lemma parses_end_guard (f : unit → decoder B) (cond : bool) e bs b :
  cond = false → parses_end (f tt) bs b → parses_end (guard_not cond e ≫= f) bs b.
Proof. intros -> Hf c Hc Hr. by apply Hf. Qed.

Lemma parses_lift (f : A → decoder B) (m : result WireError A) a bs b :
  m = Ok a → parses (f a) bs b → parses (lift m ≫= f) bs b.
Proof. intros -> Hf c tl Hc Hr. by apply Hf with tl. Qed.

Lemma parses_end_lift (f : A → decoder B) (m : result WireError A) a bs b :
  m = Ok a → parses_end (f a) bs b → parses_end (lift m ≫= f) bs b.
Proof. intros -> Hf c Hc Hr. by apply Hf. Qed.

Lemma parses_map m (g : A → B) bs a :
  parses m bs a → parses (m ≫= λ x, mret (g x)) bs (g a).
Proof.
  intros Hm. rewrite <-(app_nil_r bs). eapply parses_bind; [done|].
  intros c tl _ _. cbn. by rewrite adv_0.
Qed.

Lemma parses_eq m bs bs' a : bs = bs' → parses m bs a → parses m bs' a.
Proof. by intros ->. Qed.
End parses_rules.

#[export] Hint Resolve parses_ret parses_end_ret : go.

(** ** Primitive fields *)

Lemma parses_readBytes field (bs : list byte) :
  parses (readBytes field (Z.of_nat (length bs))) bs bs.
Proof.
  intros c tl Hc Hr. unfold readBytes. rewrite (remaining_app c bs tl) by done.
  zcase. rewrite Nat2Z.id. change (drop (cur_pos c) (cur_data c)) with (rest c).
  by rewrite Hr, take_app_length.
Qed.

Lemma parses_readBytes_n field n (bs : list byte) :
  n = Z.of_nat (length bs) → parses (readBytes field n) bs bs.
Proof. intros ->. apply parses_readBytes. Qed.

Lemma parses_readByte field v : is_u8 v → parses (readByte field) [z2b v] v.
Proof.
  intros Hv c tl Hc Hr. unfold readByte. rewrite (remaining_app c [z2b v] tl) by done.
  cbn [length]. zcase. do 2 f_equal.
  rewrite <-(b2z_z2b_u8 v) by done. f_equal. unfold rest in Hr.
  apply (f_equal (lookup 0%nat)) in Hr. rewrite lookup_drop, Nat.add_0_r in Hr. cbn in Hr.
  rewrite (nth_lookup (cur_data c)). by rewrite Hr.
Qed.

Lemma parses_readByte_b field (b : byte) : parses (readByte field) [b] (b2z b).
Proof. rewrite <-(z2b_b2z b) at 1. apply parses_readByte, b2z_range. Qed.

Lemma wrap_shiftl a w n : 0 ≤ n → 0 ≤ a * 2 ^ n < 2 ^ w → wrap w (Z.shiftl a n) = a * 2 ^ n.
Proof. intros. unfold wrap. rewrite Z.shiftl_mul_pow2 by lia. by apply Z.mod_small. Qed.

Lemma parses_readUint16 field v : is_u16 v → parses (readUint16 field) (writeUint16 v) v.
Proof.
  intros Hv. unfold is_u16 in Hv. unfold readUint16. rewrite <-(app_nil_r (writeUint16 v)).
  eapply parses_bind; [by apply (parses_readBytes_n field 2)|].
  unfold byte_at, writeUint16. cbn [nth]. rewrite !b2z_z2b.
  rewrite Z.shiftr_div_pow2 by lia. change (2 ^ 8) with 256.
  assert (0 ≤ v `div` 256 < 256) by (split; [apply Z.div_pos|apply Z.div_lt_upper_bound]; lia).
  rewrite (Z.mod_small (v `div` 256)) by lia.
  rewrite wrap_shiftl by lia. rewrite lor_disjoint by (try apply Z.mod_pos_bound; lia).
  change (2 ^ 8) with 256.
  replace (v `div` 256 * 256 + v `mod` 256) with v by (pose proof (Z.div_mod v 256); lia).
  apply parses_ret.
Qed.

Lemma parses_readUint32 field v : is_u32 v → parses (readUint32 field) (writeUint32 v) v.
Proof.
  intros Hv. unfold is_u32 in Hv. unfold readUint32. rewrite <-(app_nil_r (writeUint32 v)).
  eapply parses_bind; [by apply (parses_readBytes_n field 4)|].
  unfold byte_at, writeUint32. cbn [nth]. rewrite !b2z_z2b.
  rewrite !Z.shiftr_div_pow2 by lia.
  change (2 ^ 24) with 16777216. change (2 ^ 16) with 65536. change (2 ^ 8) with 256.
  set (b0 := (v `div` 16777216) `mod` 256). set (b1 := (v `div` 65536) `mod` 256).
  set (b2 := (v `div` 256) `mod` 256). set (b3 := v `mod` 256).
  assert (0 ≤ b0 < 256 ∧ 0 ≤ b1 < 256 ∧ 0 ≤ b2 < 256 ∧ 0 ≤ b3 < 256) as (?&?&?&?)
    by (split_and!; apply Z.mod_pos_bound; lia).
  assert (v = b0 * 16777216 + b1 * 65536 + b2 * 256 + b3) as Hsum.
  { unfold b0, b1, b2, b3. rewrite (Z.mod_small (v `div` 16777216)).
    2:{ split; [apply Z.div_pos|apply Z.div_lt_upper_bound]; lia. }
    replace (v `div` 16777216) with (((v `div` 256) `div` 256) `div` 256) by (rewrite !Z.div_div; [done|lia..]).
    replace (v `div` 65536) with ((v `div` 256) `div` 256) by (rewrite !Z.div_div; [done|lia..]).
    pose proof (Z.div_mod v 256). pose proof (Z.div_mod (v `div` 256) 256).
    pose proof (Z.div_mod ((v `div` 256) `div` 256) 256). lia. }
  rewrite !wrap_shiftl by lia.
  rewrite (lor_disjoint b0 24) by lia.
  replace (b0 * 2 ^ 24 + b1 * 2 ^ 16) with ((b0 * 256 + b1) * 2 ^ 16) by lia.
  rewrite (lor_disjoint (b0 * 256 + b1) 16) by lia.
  replace ((b0 * 256 + b1) * 2 ^ 16 + b2 * 2 ^ 8) with ((b0 * 65536 + b1 * 256 + b2) * 2 ^ 8) by lia.
  rewrite (lor_disjoint _ 8) by lia.
  replace (_ * 2 ^ 8 + b3) with v by lia. apply parses_ret.
Qed.

Lemma parses_readBinary field packet wfield value bs :
  writeBinary packet wfield value = Ok bs → parses (readBinary field) bs value.
Proof.
  unfold writeBinary. case_match; [done|]. intros <-%Ok_inj. unfold readBinary.
  unfold wrap. rewrite Z.mod_small by lia.
  eapply parses_bind; [apply parses_readUint16; unfold is_u16; lia|apply parses_readBytes].
Qed.

Lemma parses_readString field packet wfield value bs :
  writeString packet wfield value = Ok bs → parses (readString field) bs value.
Proof.
  unfold writeString. destruct (65535 <? _) eqn:Hlen; [done|]. destruct (utf8_valid (go_bytes value)) eqn:Hu; [|done].
  destruct (contains_byte zero value) eqn:Hz; [done|]. cbn [negb]. intros <-%Ok_inj.
  unfold readString. rewrite <-(app_nil_r (_ ++ go_bytes value)).
  eapply parses_bind.
  { apply (parses_readBinary _ packet wfield). unfold writeBinary. by rewrite Hlen. }
  apply parses_get_packet. intros p. rewrite go_string_bytes.
  apply parses_guard; [by rewrite Hu|]. apply parses_guard; [done|]. apply parses_ret.
Qed.

Lemma readVBI_loop_encode field left n width value :
  (1 ≤ left)%nat → 0 ≤ n < 128 ^ Z.of_nat left → 1 ≤ width → 0 ≤ value < 128 ^ (width - 1) →
  value + n * 128 ^ (width - 1) ≤ maxRemainingLength →
  minimalVBIBytes (value + n * 128 ^ (width - 1)) =
    width + Z.of_nat (length (encodeVBI_loop left n)) - 1 →
  parses (readVBI_loop field left width value (128 ^ (width - 1)))
    (encodeVBI_loop left n) (value + n * 128 ^ (width - 1)).
Proof.
  revert n width value.
  induction left as [|left IH]; intros n width value Hleft Hn Hw Hv Hmax Hmin; [lia|].
  cbn [readVBI_loop]. destruct (decide (n < 128)) as [Hlt|Hge].
  - destruct (vbi_digit_last n) as (Hu & H127 & H128); [lia|].
    rewrite encodeVBI_loop_last in * by lia. cbn [length] in *.
    rewrite <-(app_nil_r [_]). eapply parses_bind; [by apply parses_readByte|].
    apply parses_get_packet. intros p. rewrite H127, H128.
    rewrite (proj2 (Z.ltb_ge _ _)) by lia. rewrite Hmin. cbn [Z.eqb].
    replace (width + Z.of_nat 1 - 1) with width by lia. rewrite Z.eqb_refl. apply parses_ret.
  - destruct (vbi_digit_more n) as (Hu & H127 & H128); [lia|].
    rewrite encodeVBI_loop_more in * by lia. cbn [length] in *.
    change (z2b (vbi_digit n) :: ?l) with ([z2b (vbi_digit n)] ++ l).
    eapply parses_bind; [by apply parses_readByte|].
    apply parses_get_packet. intros p. rewrite H127, H128. cbn [Z.eqb].
    rewrite Nat2Z.inj_succ, Z.pow_succ_r in Hn by lia.
    pose proof (Z.div_mod n 128 ltac:(lia)) as Hdm.
    pose proof (Z.mod_pos_bound n 128 ltac:(lia)) as Hmb.
    pose proof (pow_width width Hw) as Hpw.
    assert (0 < 128 ^ (width - 1)) by (apply Z.pow_pos_nonneg; lia).
    assert (0 ≤ n `div` 128 < 128 ^ Z.of_nat left).
    { split; [apply Z.div_pos|apply Z.div_lt_upper_bound]; lia. }
    set (q := n `div` 128) in *. set (m := n `mod` 128) in *. set (M := 128 ^ (width - 1)) in *.
    rewrite (proj2 (Z.ltb_ge _ _)) by nia.
    specialize (IH q (width + 1) (value + m * M)).
    replace (width + 1 - 1) with width in IH by lia. rewrite Hpw in IH.
    replace (value + m * M + q * (M * 128)) with (value + n * M) in IH by nia.
    rewrite Nat2Z.inj_succ in *. apply IH; [destruct left; [cbn in Hn|]; lia|lia|lia|nia|lia|lia].
Qed.

Lemma parses_readVBI field packet wfield n bs :
  writeVBI packet wfield n = Ok bs → parses (readVBI field) bs n.
Proof.
  unfold writeVBI, encodeRemainingLength.
  destruct ((n <? 0) || (maxRemainingLength <? n)) eqn:Hb; [done|]. intros <-%Ok_inj.
  apply orb_false_iff in Hb as [?%Z.ltb_ge ?%Z.ltb_ge]. unfold maxRemainingLength in *.
  pose proof (encodeVBI_width n) as Hw. unfold maxRemainingLength in Hw.
  pose proof (readVBI_loop_encode field 4 n 1 0) as Hp.
  change (128 ^ Z.of_nat 4) with 268435456 in Hp. change (128 ^ (1 - 1)) with 1 in Hp.
  rewrite Z.mul_1_r, Z.add_0_l in Hp. apply Hp; unfold maxRemainingLength; lia.
Qed.

#[export] Hint Resolve parses_readUint16 parses_readUint32 parses_readByte
  parses_readBinary parses_readString parses_readVBI : go.

Lemma readRemainingLength_app v bs tl :
  encodeRemainingLength v = Ok bs →
  readRemainingLength (bs ++ tl) = Ok (v, Z.of_nat (length bs), tl).
Proof.
  unfold readRemainingLength, encodeRemainingLength. intros Hb.
  case_if_in Hb; [done|]. apply Ok_inj in Hb as <-. bool_arith.
  unfold maxRemainingLength in *.
  pose proof (encodeVBI_width v) as Hw. unfold maxRemainingLength in Hw.
  pose proof (readRemainingLength_loop_encode 4 v 1 0 tl) as Hp.
  change (128 ^ Z.of_nat 4) with 268435456 in Hp. change (128 ^ (1 - 1)) with 1 in Hp.
  rewrite Z.mul_1_r, Z.add_0_l in Hp. rewrite Hp; unfold maxRemainingLength; try lia.
  do 2 f_equal. f_equal. lia.
Qed.

Lemma readRemainingLength_inv r v w tl :
  readRemainingLength r = Ok (v, w, tl) →
  ∃ bs, encodeRemainingLength v = Ok bs ∧ r = bs ++ tl ∧
        w = Z.of_nat (length bs) ∧ w = minimalVBIBytes v.
Proof.
  unfold readRemainingLength, encodeRemainingLength. intros Hr.
  pose proof (readRemainingLength_loop_inv 4 1 0 r v w tl) as Hi.
  change (128 ^ (1 - 1)) with 1 in Hi. destruct Hi as (n & Hn & _ & -> & Hmax & -> & ->); [lia..|done|].
  rewrite Z.mul_1_r in *. rewrite !Z.add_0_l in *. exists (encodeVBI_loop 4 n).
  rewrite <-encodeVBI_width by lia. unfold maxRemainingLength in *. zcase. split_and!; [done|done|lia|lia].
Qed.

Lemma encodeRemainingLength_width v bs :
  encodeRemainingLength v = Ok bs → Z.of_nat (length bs) = minimalVBIBytes v.
Proof.
  intros Hb. destruct (readRemainingLength_inv (bs ++ []) v (Z.of_nat (length bs)) []) as (?&?&?&?&?).
  - by apply readRemainingLength_app.
  - done.
Qed.

(** A strict prefix of an encoded length is not accepted. *)
Lemma readRemainingLength_prefix v bs k :
  encodeRemainingLength v = Ok bs → (k < length bs)%nat →
  ∃ e, readRemainingLength (take k bs) = Err e.
Proof.
  intros Hb Hk. destruct (readRemainingLength (take k bs)) as [[[v' w'] tl]|e] eqn:Hr; [|by eexists].
  destruct (readRemainingLength_inv _ _ _ _ Hr) as (bs' & Hb' & Htk & -> & _).
  pose proof (readRemainingLength_app v bs [] Hb) as H1.
  rewrite app_nil_r, <-(take_drop k bs) in H1. rewrite Htk, <-app_assoc in H1 at 1.
  rewrite (readRemainingLength_app v' bs' _ Hb') in H1. injection H1 as _ Hlen _.
  apply (f_equal length) in Htk. rewrite length_take, length_app in Htk.
  rewrite take_drop in Hlen. lia.
Qed.

(** ** Theorems *)

(** The fixed header's remaining length is read back exactly: a stream is
    accepted with value [v] and width [w] if and only if it starts with the
    encoder's bytes for [v], [0 ≤ v ≤ 268435455] and [w] is their number (1 to
    4).  In particular every value has one accepted encoding, the minimal one. *)
Theorem readRemainingLength_encode r v w tl :
  readRemainingLength r = Ok (v, w, tl) ↔
  ∃ bs, encodeRemainingLength v = Ok bs ∧ r = bs ++ tl ∧
        w = Z.of_nat (length bs) ∧ w = minimalVBIBytes v.
Proof.
  split; [apply readRemainingLength_inv|].
  intros (bs & Hb & -> & -> & _). by apply readRemainingLength_app.
Qed.
