(* ===== verification/WireProps.v ===== *)
(** * Properties and reason codes on the wire

    [src/pkg/mqtt5/wire/properties.go] and [reason.go]: the specification table
    that drives both directions, the decoder of a property section, the
    encoders of the thirteen property structs, and the table of reason codes
    each packet may carry. *)

From S2P Require Import Prelude GoStrings Mqtt5 Wire.

(** ** The specification table *)

Inductive PropertyValueType :=
| propertyByte
| propertyTwoByteInteger
| propertyFourByteInteger
| propertyVariableByteInteger
| propertyBinaryData
| propertyString
| propertyStringPair.

Inductive RepeatPolicy := repeatNever | repeatAllowed.

#[export] Instance RepeatPolicy_eq_dec : EqDecision RepeatPolicy.
Proof. solve_decision. Defined.

Record PropertySpec := mkPropertySpec {
  spec_ID : Z;
  spec_Name : string;
  spec_Type : PropertyValueType;
  spec_Allowed : Z;
  spec_Repeat : RepeatPolicy }.

Definition mask (packetTypes : list Z) : Z :=
  foldl (λ out packetType, Z.lor out (wrap 32 (Z.shiftl 1 packetType))) 0 packetTypes.

Definition propertySpecs : gmap Z PropertySpec :=
  list_to_map [
    (PropPayloadFormat, mkPropertySpec PropPayloadFormat "Payload Format Indicator" propertyByte
       (mask [PUBLISH; WILLPROPERTIES]) repeatNever);
    (PropMessageExpiry, mkPropertySpec PropMessageExpiry "Message Expiry Interval" propertyFourByteInteger
       (mask [PUBLISH; WILLPROPERTIES]) repeatNever);
    (PropContentType, mkPropertySpec PropContentType "Content Type" propertyString
       (mask [PUBLISH; WILLPROPERTIES]) repeatNever);
    (PropResponseTopic, mkPropertySpec PropResponseTopic "Response Topic" propertyString
       (mask [PUBLISH; WILLPROPERTIES]) repeatNever);
    (PropCorrelationData, mkPropertySpec PropCorrelationData "Correlation Data" propertyBinaryData
       (mask [PUBLISH; WILLPROPERTIES]) repeatNever);
    (PropSubscriptionIdentifier, mkPropertySpec PropSubscriptionIdentifier "Subscription Identifier" propertyVariableByteInteger
       (mask [PUBLISH; SUBSCRIBE]) repeatNever);
    (PropSessionExpiryInterval, mkPropertySpec PropSessionExpiryInterval "Session Expiry Interval" propertyFourByteInteger
       (mask [CONNECT; CONNACK; DISCONNECT]) repeatNever);
    (PropAssignedClientID, mkPropertySpec PropAssignedClientID "Assigned Client Identifier" propertyString
       (mask [CONNACK]) repeatNever);
    (PropServerKeepAlive, mkPropertySpec PropServerKeepAlive "Server Keep Alive" propertyTwoByteInteger
       (mask [CONNACK]) repeatNever);
    (PropAuthMethod, mkPropertySpec PropAuthMethod "Authentication Method" propertyString
       (mask [CONNECT; CONNACK; AUTH]) repeatNever);
    (PropAuthData, mkPropertySpec PropAuthData "Authentication Data" propertyBinaryData
       (mask [CONNECT; CONNACK; AUTH]) repeatNever);
    (PropRequestProblemInfo, mkPropertySpec PropRequestProblemInfo "Request Problem Information" propertyByte
       (mask [CONNECT]) repeatNever);
    (PropWillDelayInterval, mkPropertySpec PropWillDelayInterval "Will Delay Interval" propertyFourByteInteger
       (mask [WILLPROPERTIES]) repeatNever);
    (PropRequestResponseInfo, mkPropertySpec PropRequestResponseInfo "Request Response Information" propertyByte
       (mask [CONNECT]) repeatNever);
    (PropResponseInfo, mkPropertySpec PropResponseInfo "Response Information" propertyString
       (mask [CONNACK]) repeatNever);
    (PropServerReference, mkPropertySpec PropServerReference "Server Reference" propertyString
       (mask [CONNACK; DISCONNECT]) repeatNever);
    (PropReasonString, mkPropertySpec PropReasonString "Reason String" propertyString
       (mask [CONNACK; PUBACK; PUBREC; PUBREL; PUBCOMP; SUBACK; UNSUBACK; DISCONNECT; AUTH]) repeatNever);
    (PropReceiveMaximum, mkPropertySpec PropReceiveMaximum "Receive Maximum" propertyTwoByteInteger
       (mask [CONNECT; CONNACK]) repeatNever);
    (PropTopicAliasMaximum, mkPropertySpec PropTopicAliasMaximum "Topic Alias Maximum" propertyTwoByteInteger
       (mask [CONNECT; CONNACK]) repeatNever);
    (PropTopicAlias, mkPropertySpec PropTopicAlias "Topic Alias" propertyTwoByteInteger
       (mask [PUBLISH]) repeatNever);
    (PropMaximumQOS, mkPropertySpec PropMaximumQOS "Maximum QoS" propertyByte
       (mask [CONNACK]) repeatNever);
    (PropRetainAvailable, mkPropertySpec PropRetainAvailable "Retain Available" propertyByte
       (mask [CONNACK]) repeatNever);
    (PropUser, mkPropertySpec PropUser "User Property" propertyStringPair
       (mask [CONNECT; CONNACK; PUBLISH; WILLPROPERTIES; PUBACK; PUBREC; PUBREL; PUBCOMP;
             SUBSCRIBE; SUBACK; UNSUBSCRIBE; UNSUBACK; DISCONNECT; AUTH]) repeatAllowed);
    (PropMaximumPacketSize, mkPropertySpec PropMaximumPacketSize "Maximum Packet Size" propertyFourByteInteger
       (mask [CONNECT; CONNACK]) repeatNever);
    (PropWildcardSubAvailable, mkPropertySpec PropWildcardSubAvailable "Wildcard Subscription Available" propertyByte
       (mask [CONNACK]) repeatNever);
    (PropSubIDAvailable, mkPropertySpec PropSubIDAvailable "Subscription Identifier Available" propertyByte
       (mask [CONNACK]) repeatNever);
    (PropSharedSubAvailable, mkPropertySpec PropSharedSubAvailable "Shared Subscription Available" propertyByte
       (mask [CONNACK]) repeatNever)].

Definition packetAllowed (spec : PropertySpec) (packet : Z) : bool :=
  negb (Z.land (spec_Allowed spec) (wrap 32 (Z.shiftl 1 packet)) =? 0).

Definition propertyRepeatAllowed (spec : PropertySpec) (packet : Z) : bool :=
  if bool_decide (spec_Repeat spec = repeatAllowed) then true
  else (spec_ID spec =? PropSubscriptionIdentifier) && (packet =? PUBLISH).

(** The decoded value of one property; the field used depends on the type, the
    others are zero. *)
Record propertyValue := mkPropertyValue {
  pv_byteValue : Z;
  pv_uint16Value : Z;
  pv_uint32Value : Z;
  pv_vbiValue : Z;
  pv_binaryValue : option (list byte);
  pv_stringValue : string;
  pv_userValue : User }.

Definition noUser : User := mkUser "" "".
Definition pvByte (v : Z) : propertyValue := mkPropertyValue v 0 0 0 None "" noUser.
Definition pvUint16 (v : Z) : propertyValue := mkPropertyValue 0 v 0 0 None "" noUser.
Definition pvUint32 (v : Z) : propertyValue := mkPropertyValue 0 0 v 0 None "" noUser.
Definition pvVBI (v : Z) : propertyValue := mkPropertyValue 0 0 0 v None "" noUser.
Definition pvBinary (v : option (list byte)) : propertyValue := mkPropertyValue 0 0 0 0 v "" noUser.
Definition pvString (v : string) : propertyValue := mkPropertyValue 0 0 0 0 None v noUser.
Definition pvUser (u : User) : propertyValue := mkPropertyValue 0 0 0 0 None "" u.

(** [append([]byte(nil), out...)] is the nil slice when [out] is empty. *)
Definition append_nil (out : list byte) : option (list byte) :=
  match out with [] => None | _ => Some out end.

(** ** Decoding *)

Definition readPropertyValue (spec : PropertySpec) : decoder propertyValue :=
  match spec_Type spec with
  | propertyByte => v ← readByte (spec_Name spec); mret (pvByte v)
  | propertyTwoByteInteger => v ← readUint16 (spec_Name spec); mret (pvUint16 v)
  | propertyFourByteInteger => v ← readUint32 (spec_Name spec); mret (pvUint32 v)
  | propertyVariableByteInteger => v ← readVBI (spec_Name spec); mret (pvVBI v)
  | propertyBinaryData => v ← readBinary (spec_Name spec); mret (pvBinary (append_nil v))
  | propertyString => v ← readString (spec_Name spec); mret (pvString v)
  | propertyStringPair =>
      k ← readString (String.append (spec_Name spec) " key");
      v ← readString (String.append (spec_Name spec) " value");
      mret (pvUser (mkUser k v))
  end.

(** [validateTopicName] of [codec.go], which the property checks call. *)
Definition validateTopicName (packet : Z) (field topic : string) (allowEmpty : bool)
    : result WireError unit :=
  if bool_decide (topic = "") then
    if allowEmpty then Ok tt else Err (malformed packet field "topic name must be non-empty")
  else if contains_any topic "+#"
  then Err (malformed packet field "topic name must not contain wildcards")
  else Ok tt.

Definition validatePropertyValue (packet : Z) (spec : PropertySpec) (value : propertyValue)
    : result WireError unit :=
  let id := spec_ID spec in
  if (id =? PropPayloadFormat) || (id =? PropRequestProblemInfo) ||
     (id =? PropRequestResponseInfo) || (id =? PropRetainAvailable) ||
     (id =? PropWildcardSubAvailable) || (id =? PropSubIDAvailable) ||
     (id =? PropSharedSubAvailable)
  then check (1 <? pv_byteValue value)
         (malformed packet (spec_Name spec) "boolean byte property must be 0 or 1")
  else if id =? PropMaximumQOS
  then check (1 <? pv_byteValue value)
         (malformed packet (spec_Name spec) "maximum QoS must be 0 or 1")
  else if id =? PropReceiveMaximum
  then check (pv_uint16Value value =? 0)
         (malformed packet (spec_Name spec) "receive maximum must be non-zero")
  else if id =? PropTopicAlias
  then check (pv_uint16Value value =? 0)
         (malformed packet (spec_Name spec) "topic alias must be non-zero")
  else if id =? PropMaximumPacketSize
  then check (pv_uint32Value value =? 0)
         (malformed packet (spec_Name spec) "maximum packet size must be non-zero")
  else if id =? PropSubscriptionIdentifier
  then check (pv_vbiValue value =? 0)
         (malformed packet (spec_Name spec) "subscription identifier must be non-zero")
  else if id =? PropResponseTopic
  then validateTopicName packet (spec_Name spec) (pv_stringValue value) false
  else Ok tt.

(** PUBLISH and will properties. *)
Definition assignPublishProperty (p : PublishProperties) (id : Z) (value : propertyValue) : PublishProperties :=
  match p with
  | mkPublishProperties pf me wd ct rt cd ta si us =>
      if id =? PropPayloadFormat then mkPublishProperties (Some (pv_byteValue value)) me wd ct rt cd ta si us
      else if id =? PropMessageExpiry then mkPublishProperties pf (Some (pv_uint32Value value)) wd ct rt cd ta si us
      else if id =? PropWillDelayInterval then mkPublishProperties pf me (Some (pv_uint32Value value)) ct rt cd ta si us
      else if id =? PropContentType then mkPublishProperties pf me wd (pv_stringValue value) rt cd ta si us
      else if id =? PropResponseTopic then mkPublishProperties pf me wd ct (pv_stringValue value) cd ta si us
      else if id =? PropCorrelationData then mkPublishProperties pf me wd ct rt (pv_binaryValue value) ta si us
      else if id =? PropTopicAlias then mkPublishProperties pf me wd ct rt cd (Some (pv_uint16Value value)) si us
      else if id =? PropSubscriptionIdentifier then mkPublishProperties pf me wd ct rt cd ta (si ++ [pv_vbiValue value]) us
      else if id =? PropUser then mkPublishProperties pf me wd ct rt cd ta si (us ++ [pv_userValue value])
      else p
  end.
(** CONNECT properties. *)
Definition assignConnectProperty (p : ConnectProperties) (id : Z) (value : propertyValue) : ConnectProperties :=
  match p with
  | mkConnectProperties se am ad rp rr rm tm mp us =>
      if id =? PropSessionExpiryInterval then mkConnectProperties (Some (pv_uint32Value value)) am ad rp rr rm tm mp us
      else if id =? PropAuthMethod then mkConnectProperties se (pv_stringValue value) ad rp rr rm tm mp us
      else if id =? PropAuthData then mkConnectProperties se am (pv_binaryValue value) rp rr rm tm mp us
      else if id =? PropRequestProblemInfo then mkConnectProperties se am ad (Some (pv_byteValue value)) rr rm tm mp us
      else if id =? PropRequestResponseInfo then mkConnectProperties se am ad rp (Some (pv_byteValue value)) rm tm mp us
      else if id =? PropReceiveMaximum then mkConnectProperties se am ad rp rr (Some (pv_uint16Value value)) tm mp us
      else if id =? PropTopicAliasMaximum then mkConnectProperties se am ad rp rr rm (Some (pv_uint16Value value)) mp us
      else if id =? PropMaximumPacketSize then mkConnectProperties se am ad rp rr rm tm (Some (pv_uint32Value value)) us
      else if id =? PropUser then mkConnectProperties se am ad rp rr rm tm mp (us ++ [pv_userValue value])
      else p
  end.
(** CONNACK properties. *)
Definition assignConnackProperty (p : ConnAckProperties) (id : Z) (value : propertyValue) : ConnAckProperties :=
  match p with
  | mkConnAckProperties se ac sk am ad ri sr rs rm tm mq ra wa si sh mp us =>
      if id =? PropSessionExpiryInterval then mkConnAckProperties (Some (pv_uint32Value value)) ac sk am ad ri sr rs rm tm mq ra wa si sh mp us
      else if id =? PropAssignedClientID then mkConnAckProperties se (pv_stringValue value) sk am ad ri sr rs rm tm mq ra wa si sh mp us
      else if id =? PropServerKeepAlive then mkConnAckProperties se ac (Some (pv_uint16Value value)) am ad ri sr rs rm tm mq ra wa si sh mp us
      else if id =? PropAuthMethod then mkConnAckProperties se ac sk (pv_stringValue value) ad ri sr rs rm tm mq ra wa si sh mp us
      else if id =? PropAuthData then mkConnAckProperties se ac sk am (pv_binaryValue value) ri sr rs rm tm mq ra wa si sh mp us
      else if id =? PropResponseInfo then mkConnAckProperties se ac sk am ad (pv_stringValue value) sr rs rm tm mq ra wa si sh mp us
      else if id =? PropServerReference then mkConnAckProperties se ac sk am ad ri (pv_stringValue value) rs rm tm mq ra wa si sh mp us
      else if id =? PropReasonString then mkConnAckProperties se ac sk am ad ri sr (pv_stringValue value) rm tm mq ra wa si sh mp us
      else if id =? PropReceiveMaximum then mkConnAckProperties se ac sk am ad ri sr rs (Some (pv_uint16Value value)) tm mq ra wa si sh mp us
      else if id =? PropTopicAliasMaximum then mkConnAckProperties se ac sk am ad ri sr rs rm (Some (pv_uint16Value value)) mq ra wa si sh mp us
      else if id =? PropMaximumQOS then mkConnAckProperties se ac sk am ad ri sr rs rm tm (Some (pv_byteValue value)) ra wa si sh mp us
      else if id =? PropRetainAvailable then mkConnAckProperties se ac sk am ad ri sr rs rm tm mq (Some (pv_byteValue value)) wa si sh mp us
      else if id =? PropWildcardSubAvailable then mkConnAckProperties se ac sk am ad ri sr rs rm tm mq ra (Some (pv_byteValue value)) si sh mp us
      else if id =? PropSubIDAvailable then mkConnAckProperties se ac sk am ad ri sr rs rm tm mq ra wa (Some (pv_byteValue value)) sh mp us
      else if id =? PropSharedSubAvailable then mkConnAckProperties se ac sk am ad ri sr rs rm tm mq ra wa si (Some (pv_byteValue value)) mp us
      else if id =? PropMaximumPacketSize then mkConnAckProperties se ac sk am ad ri sr rs rm tm mq ra wa si sh (Some (pv_uint32Value value)) us
      else if id =? PropUser then mkConnAckProperties se ac sk am ad ri sr rs rm tm mq ra wa si sh mp (us ++ [pv_userValue value])
      else p
  end.
(** SUBSCRIBE properties. *)
Definition assignSubscribeProperty (p : SubscribeProperties) (id : Z) (value : propertyValue) : SubscribeProperties :=
  match p with
  | mkSubscribeProperties si us =>
      if id =? PropSubscriptionIdentifier then mkSubscribeProperties (Some (pv_vbiValue value)) us
      else if id =? PropUser then mkSubscribeProperties si (us ++ [pv_userValue value])
      else p
  end.
(** The structs that hold a reason string and user properties only. *)
Definition assignReasonUserProperty (p : ReasonProperties) (id : Z) (value : propertyValue) : ReasonProperties :=
  match p with
  | mkReasonProperties rs us =>
      if id =? PropReasonString then mkReasonProperties (pv_stringValue value) us
      else if id =? PropUser then mkReasonProperties rs (us ++ [pv_userValue value])
      else p
  end.
(** UNSUBSCRIBE properties. *)
Definition assignUnsubscribeProperty (p : UnsubscribeProperties) (id : Z) (value : propertyValue) : UnsubscribeProperties :=
  match p with
  | mkUnsubscribeProperties us =>
      if id =? PropUser then mkUnsubscribeProperties (us ++ [pv_userValue value])
      else p
  end.
(** DISCONNECT properties. *)
Definition assignDisconnectProperty (p : DisconnectProperties) (id : Z) (value : propertyValue) : DisconnectProperties :=
  match p with
  | mkDisconnectProperties se sr rs us =>
      if id =? PropSessionExpiryInterval then mkDisconnectProperties (Some (pv_uint32Value value)) sr rs us
      else if id =? PropServerReference then mkDisconnectProperties se (pv_stringValue value) rs us
      else if id =? PropReasonString then mkDisconnectProperties se sr (pv_stringValue value) us
      else if id =? PropUser then mkDisconnectProperties se sr rs (us ++ [pv_userValue value])
      else p
  end.
(** AUTH properties. *)
Definition assignAuthProperty (p : AuthProperties) (id : Z) (value : propertyValue) : AuthProperties :=
  match p with
  | mkAuthProperties am ad rs us =>
      if id =? PropAuthMethod then mkAuthProperties (pv_stringValue value) ad rs us
      else if id =? PropAuthData then mkAuthProperties am (pv_binaryValue value) rs us
      else if id =? PropReasonString then mkAuthProperties am ad (pv_stringValue value) us
      else if id =? PropUser then mkAuthProperties am ad rs (us ++ [pv_userValue value])
      else p
  end.
Definition assignProperty (props : Properties) (spec : PropertySpec) (value : propertyValue)
    : Properties :=
  let id := spec_ID spec in
  match props with
  | PropsPublish p => PropsPublish (assignPublishProperty p id value)
  | PropsConnect p => PropsConnect (assignConnectProperty p id value)
  | PropsConnAck p => PropsConnAck (assignConnackProperty p id value)
  | PropsSubscribe p => PropsSubscribe (assignSubscribeProperty p id value)
  | PropsSuback p => PropsSuback (assignReasonUserProperty p id value)
  | PropsUnsubscribe p => PropsUnsubscribe (assignUnsubscribeProperty p id value)
  | PropsUnsuback p => PropsUnsuback (assignReasonUserProperty p id value)
  | PropsPuback p => PropsPuback (assignReasonUserProperty p id value)
  | PropsPubrec p => PropsPubrec (assignReasonUserProperty p id value)
  | PropsPubrel p => PropsPubrel (assignReasonUserProperty p id value)
  | PropsPubcomp p => PropsPubcomp (assignReasonUserProperty p id value)
  | PropsDisconnect p => PropsDisconnect (assignDisconnectProperty p id value)
  | PropsAuth p => PropsAuth (assignAuthProperty p id value)
  end.

(** One iteration of the loop of [decodeProperties]: the updated struct and the
    updated set of singleton identifiers already seen. *)
Definition decodeOneProperty (packet : Z) (props : Properties) (seen : gset Z)
    : decoder (Properties * gset Z) :=
  id ← readByte "property id";
  spec ← lift (match propertySpecs !! id with
               | Some spec => Ok spec
               | None => Err (malformed packet "property id" "unknown property")
               end);
  _ ← guard_not (negb (packetAllowed spec packet))
        (malformed packet (spec_Name spec) "property is not allowed for packet");
  let single := negb (propertyRepeatAllowed spec packet) in
  _ ← guard_not (single && bool_decide (id ∈ seen))
        (malformed packet (spec_Name spec) "duplicate singleton property");
  value ← readPropertyValue spec;
  _ ← lift (validatePropertyValue packet spec value);
  mret (assignProperty props spec value, if single then {[id]} ∪ seen else seen).

(** The loop; every iteration consumes at least the identifier byte, so the
    number of bytes is fuel enough (lemma [decodePropertiesLoop_fuel]). *)
Fixpoint decodePropertiesLoop (fuel : nat) (packet : Z) (props : Properties) (seen : gset Z)
    : decoder Properties :=
  match fuel with
  | O => mret props
  | S fuel' =>
      n ← get_remaining;
      if 0 <? n then
        '(props', seen') ← decodeOneProperty packet props seen;
        decodePropertiesLoop fuel' packet props' seen'
      else mret props
  end.

(** The property section proper: a cursor of its own over the next
    [propertyLength] bytes, which the outer cursor skips. *)
Definition decodePropertySection (packet : Z) (props : Properties) (propertyLength : Z)
    : decoder Properties := λ cur,
  let data := take (Z.to_nat propertyLength) (drop (cur_pos cur) (cur_data cur)) in
  match decodePropertiesLoop (length data) packet props ∅ (newCursor packet data) with
  | Ok (props', _) => Ok (props', adv (Z.to_nat propertyLength) cur)
  | Err e => Err e
  end.

Definition decodeProperties (packet : Z) (props : Properties) : decoder Properties :=
  propertyLength ← readVBI "property length";
  n ← get_remaining;
  _ ← guard_not (n <? propertyLength)
        (malformed packet "property length" "property length exceeds remaining packet body");
  decodePropertySection packet props propertyLength.

(** ** Encoding *)

Definition specOf (id : Z) : PropertySpec :=
  default (mkPropertySpec 0 "" propertyByte 0 repeatNever) (propertySpecs !! id).

Definition appendPropertyHeader (packet id : Z) : result WireError (list byte) :=
  match propertySpecs !! id with
  | None => Err (malformed packet "property id" "unknown property")
  | Some spec =>
      if negb (packetAllowed spec packet)
      then Err (malformed packet (spec_Name spec) "property is not allowed for packet")
      else Ok [z2b id]
  end.

Definition appendPropByte (packet id value : Z) : result WireError (list byte) :=
  h ← appendPropertyHeader packet id;
  _ ← validatePropertyValue packet (specOf id) (pvByte value);
  mret (h ++ [z2b value]).

Definition appendPropUint16 (packet id value : Z) : result WireError (list byte) :=
  h ← appendPropertyHeader packet id;
  _ ← validatePropertyValue packet (specOf id) (pvUint16 value);
  mret (h ++ writeUint16 value).

Definition appendPropUint32 (packet id value : Z) : result WireError (list byte) :=
  h ← appendPropertyHeader packet id;
  _ ← validatePropertyValue packet (specOf id) (pvUint32 value);
  mret (h ++ writeUint32 value).

Definition appendPropVBI (packet id value : Z) : result WireError (list byte) :=
  h ← appendPropertyHeader packet id;
  _ ← validatePropertyValue packet (specOf id) (pvVBI value);
  v ← writeVBI packet (spec_Name (specOf id)) value;
  mret (h ++ v).

Definition appendPropBinary (packet id : Z) (value : list byte) : result WireError (list byte) :=
  h ← appendPropertyHeader packet id;
  v ← writeBinary packet (spec_Name (specOf id)) value;
  mret (h ++ v).

Definition appendPropString (packet id : Z) (value : string) : result WireError (list byte) :=
  h ← appendPropertyHeader packet id;
  _ ← validatePropertyValue packet (specOf id) (pvString value);
  v ← writeString packet (spec_Name (specOf id)) value;
  mret (h ++ v).

Definition appendUserProperty (packet : Z) (user : User) : result WireError (list byte) :=
  h ← appendPropertyHeader packet PropUser;
  k ← writeString packet "User Property key" (usr_Key user);
  v ← writeString packet "User Property value" (usr_Value user);
  mret (h ++ k ++ v).

(** [for _, x := range xs { if err := f(x); err != nil { return err } }]. *)
Fixpoint append_each {A} (f : A → result WireError (list byte)) (xs : list A)
    : result WireError (list byte) :=
  match xs with
  | [] => Ok []
  | x :: xs' => b ← f x; bs ← append_each f xs'; mret (b ++ bs)
  end.

Definition appendUserProperties (packet : Z) (users : list User) : result WireError (list byte) :=
  append_each (appendUserProperty packet) users.

(** [if o != nil { ... *o ... }] and [if s != "" { ... }]. *)
Definition when_some {A} (o : option A) (f : A → result WireError (list byte))
    : result WireError (list byte) :=
  match o with Some a => f a | None => Ok [] end.
Definition when_nonempty (s : string) (f : string → result WireError (list byte))
    : result WireError (list byte) :=
  if bool_decide (s = "") then Ok [] else f s.

Definition appendReasonUserProperties (packet : Z) (reason : string) (users : list User)
    : result WireError (list byte) :=
  b1 ← when_nonempty reason (appendPropString packet PropReasonString);
  b2 ← appendUserProperties packet users;
  mret (b1 ++ b2).

Definition appendPublishProperties (packet : Z) (p : PublishProperties)
    : result WireError (list byte) :=
  b1 ← when_some (pup_PayloadFormat p) (appendPropByte packet PropPayloadFormat);
  b2 ← when_some (pup_MessageExpiry p) (appendPropUint32 packet PropMessageExpiry);
  b3 ← when_some (pup_WillDelayInterval p) (appendPropUint32 packet PropWillDelayInterval);
  b4 ← when_nonempty (pup_ContentType p) (appendPropString packet PropContentType);
  b5 ← when_nonempty (pup_ResponseTopic p) (appendPropString packet PropResponseTopic);
  b6 ← when_some (pup_CorrelationData p) (appendPropBinary packet PropCorrelationData);
  b7 ← when_some (pup_TopicAlias p) (appendPropUint16 packet PropTopicAlias);
  b8 ← append_each (appendPropVBI packet PropSubscriptionIdentifier) (pup_SubscriptionIdentifier p);
  b9 ← appendUserProperties packet (pup_User p);
  mret (b1 ++ b2 ++ b3 ++ b4 ++ b5 ++ b6 ++ b7 ++ b8 ++ b9).

Definition appendConnectProperties (packet : Z) (p : ConnectProperties)
    : result WireError (list byte) :=
  b1 ← when_some (cop_SessionExpiryInterval p) (appendPropUint32 packet PropSessionExpiryInterval);
  b2 ← when_nonempty (cop_AuthMethod p) (appendPropString packet PropAuthMethod);
  b3 ← when_some (cop_AuthData p) (appendPropBinary packet PropAuthData);
  b4 ← when_some (cop_RequestProblemInfo p) (appendPropByte packet PropRequestProblemInfo);
  b5 ← when_some (cop_RequestResponseInfo p) (appendPropByte packet PropRequestResponseInfo);
  b6 ← when_some (cop_ReceiveMaximum p) (appendPropUint16 packet PropReceiveMaximum);
  b7 ← when_some (cop_TopicAliasMaximum p) (appendPropUint16 packet PropTopicAliasMaximum);
  b8 ← when_some (cop_MaximumPacketSize p) (appendPropUint32 packet PropMaximumPacketSize);
  b9 ← appendUserProperties packet (cop_User p);
  mret (b1 ++ b2 ++ b3 ++ b4 ++ b5 ++ b6 ++ b7 ++ b8 ++ b9).

Definition appendConnackProperties (packet : Z) (p : ConnAckProperties)
    : result WireError (list byte) :=
  b1 ← when_some (cap_SessionExpiryInterval p) (appendPropUint32 packet PropSessionExpiryInterval);
  b2 ← append_each (λ '(id, value), when_nonempty value (appendPropString packet id))
         [(PropAssignedClientID, cap_AssignedClientID p);
          (PropAuthMethod, cap_AuthMethod p);
          (PropResponseInfo, cap_ResponseInfo p);
          (PropServerReference, cap_ServerReference p);
          (PropReasonString, cap_ReasonString p)];
  b3 ← when_some (cap_ServerKeepAlive p) (appendPropUint16 packet PropServerKeepAlive);
  b4 ← when_some (cap_AuthData p) (appendPropBinary packet PropAuthData);
  b5 ← when_some (cap_ReceiveMaximum p) (appendPropUint16 packet PropReceiveMaximum);
  b6 ← when_some (cap_TopicAliasMaximum p) (appendPropUint16 packet PropTopicAliasMaximum);
  b7 ← append_each (λ '(id, value), when_some value (appendPropByte packet id))
         [(PropMaximumQOS, cap_MaximumQOS p);
          (PropRetainAvailable, cap_RetainAvailable p);
          (PropWildcardSubAvailable, cap_WildcardSubAvailable p);
          (PropSubIDAvailable, cap_SubIDAvailable p);
          (PropSharedSubAvailable, cap_SharedSubAvailable p)];
  b8 ← when_some (cap_MaximumPacketSize p) (appendPropUint32 packet PropMaximumPacketSize);
  b9 ← appendUserProperties packet (cap_User p);
  mret (b1 ++ b2 ++ b3 ++ b4 ++ b5 ++ b6 ++ b7 ++ b8 ++ b9).

Definition appendSubscribeProperties (packet : Z) (p : SubscribeProperties)
    : result WireError (list byte) :=
  b1 ← when_some (sbp_SubscriptionIdentifier p) (appendPropVBI packet PropSubscriptionIdentifier);
  b2 ← appendUserProperties packet (sbp_User p);
  mret (b1 ++ b2).

Definition appendDisconnectProperties (packet : Z) (p : DisconnectProperties)
    : result WireError (list byte) :=
  b1 ← when_some (dip_SessionExpiryInterval p) (appendPropUint32 packet PropSessionExpiryInterval);
  b2 ← when_nonempty (dip_ServerReference p) (appendPropString packet PropServerReference);
  b3 ← appendReasonUserProperties packet (dip_ReasonString p) (dip_User p);
  mret (b1 ++ b2 ++ b3).

Definition appendAuthProperties (packet : Z) (p : AuthProperties)
    : result WireError (list byte) :=
  b1 ← when_nonempty (aup_AuthMethod p) (appendPropString packet PropAuthMethod);
  b2 ← when_some (aup_AuthData p) (appendPropBinary packet PropAuthData);
  b3 ← appendReasonUserProperties packet (aup_ReasonString p) (aup_User p);
  mret (b1 ++ b2 ++ b3).

Definition appendProperties (packet : Z) (props : Properties) : result WireError (list byte) :=
  match props with
  | PropsPublish p => appendPublishProperties packet p
  | PropsConnect p => appendConnectProperties packet p
  | PropsConnAck p => appendConnackProperties packet p
  | PropsSubscribe p => appendSubscribeProperties packet p
  | PropsUnsubscribe p => appendUserProperties packet (usp_User p)
  | PropsSuback p | PropsUnsuback p | PropsPuback p
  | PropsPubrec p | PropsPubrel p | PropsPubcomp p =>
      appendReasonUserProperties packet (rsp_ReasonString p) (rsp_User p)
  | PropsDisconnect p => appendDisconnectProperties packet p
  | PropsAuth p => appendAuthProperties packet p
  end.

(** [None] is a nil properties pointer. *)
Definition encodeProperties (packet : Z) (props : option Properties)
    : result WireError (list byte) :=
  body ← match props with Some p => appendProperties packet p | None => Ok [] end;
  len ← writeVBI packet "property length" (Z.of_nat (length body));
  mret (len ++ body).

(** ** Reason codes ([reason.go]) *)

Definition validReasonCodes : gmap Z (gset Z) :=
  list_to_map [
    (CONNACK, list_to_set [0x00; 0x80; 0x81; 0x82; 0x83; 0x84; 0x85; 0x86; 0x87; 0x88; 0x89;
                           0x8A; 0x8C; 0x90; 0x95; 0x97; 0x99; 0x9A; 0x9B; 0x9C; 0x9D; 0x9F]);
    (PUBACK, list_to_set [0x00; 0x10; 0x80; 0x83; 0x87; 0x90; 0x91; 0x97; 0x99; 0x9A; 0x9B]);
    (PUBREC, list_to_set [0x00; 0x10; 0x80; 0x83; 0x87; 0x90; 0x91; 0x97; 0x99; 0x9A; 0x9B]);
    (PUBREL, list_to_set [0x00; 0x92]);
    (PUBCOMP, list_to_set [0x00; 0x92]);
    (SUBACK, list_to_set [0x00; 0x01; 0x02; 0x80; 0x83; 0x87; 0x8F; 0x91; 0x97; 0x9E; 0xA1; 0xA2]);
    (UNSUBACK, list_to_set [0x00; 0x11; 0x80; 0x83; 0x87; 0x8F; 0x91]);
    (DISCONNECT, list_to_set [0x00; 0x04; 0x80; 0x81; 0x82; 0x83; 0x87; 0x89; 0x8B; 0x8C; 0x8D;
                              0x8E; 0x8F; 0x90; 0x93; 0x94; 0x95; 0x96; 0x97; 0x98; 0x99; 0x9A;
                              0x9B; 0x9C; 0x9D; 0x9E; 0x9F; 0xA0; 0xA1; 0xA2]);
    (AUTH, list_to_set [0x00; 0x18; 0x19])].

Definition validateReason (packet code : Z) : result WireError unit :=
  if bool_decide (code ∈ default ∅ (validReasonCodes !! packet)) then Ok tt
  else Err (malformed packet "reason code" "reason code is not valid for packet").
