(* ===== verification/WirePropsProofs.v ===== *)
(** * Round trip of property sections

    A property struct is a list of entries, written in order by the encoder;
    the decoder's loop reads the same list back and assigns each entry.  The
    file relates the encoders of [properties.go] to entry lists, shows that the
    loop consumes them, and computes the struct they rebuild. *)

From S2P Require Import Prelude GoStrings Mqtt5 Wire WireParse WireProps.

(** ** Entries *)

Inductive entry :=
| EByte (id v : Z)
| EU16 (id v : Z)
| EU32 (id v : Z)
| EVBI (id v : Z)
| EBin (id : Z) (v : list byte)
| EStr (id : Z) (v : string)
| EUser (u : User).

Definition entry_id (e : entry) : Z :=
  match e with
  | EByte id _ | EU16 id _ | EU32 id _ | EVBI id _ | EBin id _ | EStr id _ => id
  | EUser _ => PropUser
  end.

Definition entry_type (e : entry) : PropertyValueType :=
  match e with
  | EByte _ _ => propertyByte
  | EU16 _ _ => propertyTwoByteInteger
  | EU32 _ _ => propertyFourByteInteger
  | EVBI _ _ => propertyVariableByteInteger
  | EBin _ _ => propertyBinaryData
  | EStr _ _ => propertyString
  | EUser _ => propertyStringPair
  end.

(** What the decoder stores for an entry. *)
Definition entry_value (e : entry) : propertyValue :=
  match e with
  | EByte _ v => pvByte v
  | EU16 _ v => pvUint16 v
  | EU32 _ v => pvUint32 v
  | EVBI _ v => pvVBI v
  | EBin _ v => pvBinary (append_nil v)
  | EStr _ v => pvString v
  | EUser u => pvUser u
  end.

(** What the encoder appends for an entry. *)
Definition entry_bytes (packet : Z) (e : entry) : result WireError (list byte) :=
  match e with
  | EByte id v => appendPropByte packet id v
  | EU16 id v => appendPropUint16 packet id v
  | EU32 id v => appendPropUint32 packet id v
  | EVBI id v => appendPropVBI packet id v
  | EBin id v => appendPropBinary packet id v
  | EStr id v => appendPropString packet id v
  | EUser u => appendUserProperty packet u
  end.

(** The entry's value fits its Go type and its identifier has the entry's wire
    type in the specification table. *)
Definition entry_ok (e : entry) : Prop :=
  match e with
  | EByte _ v => is_u8 v
  | EU16 _ v => is_u16 v
  | EU32 _ v => is_u32 v
  | _ => True
  end.
Definition entry_typed (e : entry) : Prop :=
  spec_Type <$> propertySpecs !! entry_id e = Some (entry_type e).

Definition assign_entry (props : Properties) (e : entry) : Properties :=
  assignProperty props (specOf (entry_id e)) (entry_value e).

(** Identifiers of the entries that may occur once only in [packet]. *)
Definition singles (packet : Z) (es : list entry) : list Z :=
  filter (λ id, propertyRepeatAllowed (specOf id) packet = false) (entry_id <$> es).

(** ** Facts on the specification table *)

Definition spec_fact (id : Z) (spec : PropertySpec) : Prop :=
  spec_ID spec = id ∧ is_u8 id ∧
  match spec_Type spec with
  | propertyBinaryData => id = PropCorrelationData ∨ id = PropAuthData
  | propertyStringPair => id = PropUser
  | _ => True
  end.

#[local] Instance spec_fact_dec id spec : Decision (spec_fact id spec).
Proof. unfold spec_fact. destruct (spec_Type spec); apply _. Defined.

Lemma propertySpecs_facts : map_Forall spec_fact propertySpecs.
Proof. apply (bool_decide_unpack _). by vm_compute. Qed.

Lemma propertySpecs_lookup id spec : propertySpecs !! id = Some spec → spec_fact id spec.
Proof. apply propertySpecs_facts. Qed.

Lemma appendPropertyHeader_Ok packet id h :
  appendPropertyHeader packet id = Ok h →
  ∃ spec, propertySpecs !! id = Some spec ∧ specOf id = spec ∧
          packetAllowed spec packet = true ∧ h = [z2b id].
Proof.
  unfold appendPropertyHeader, specOf. destruct (propertySpecs !! id) as [spec|] eqn:E; [|done].
  destruct (packetAllowed spec packet) eqn:Ea; [|done]. intros <-%Ok_inj. by exists spec.
Qed.

(** ** One entry *)

Lemma entry_value_parses packet e spec h bs :
  entry_ok e → entry_typed e → propertySpecs !! entry_id e = Some spec →
  appendPropertyHeader packet (entry_id e) = Ok h → entry_bytes packet e = Ok bs →
  ∃ vs, bs = h ++ vs ∧ parses (readPropertyValue spec) vs (entry_value e) ∧
        validatePropertyValue packet spec (entry_value e) = Ok tt.
Proof.
  intros Hok Hty Hs Hh Hb. unfold entry_typed in Hty. rewrite Hs in Hty. injection Hty as Hty.
  assert (specOf (entry_id e) = spec) as Hspec by (unfold specOf; by rewrite Hs).
  pose proof (propertySpecs_lookup _ _ Hs) as (Hid & _ & Hk).
  unfold readPropertyValue. rewrite Hty in Hk |- *.
  destruct e; cbn [entry_bytes entry_id entry_type entry_value entry_ok] in *; subst spec;
    unfold appendPropByte, appendPropUint16, appendPropUint32, appendPropVBI,
      appendPropBinary, appendPropString, appendUserProperty in Hb;
    rewrite Hh in Hb; cbn in Hb; inv_ok; (eexists; split; [done|]); split;
    repeat match goal with u : unit |- _ => destruct u end; try done.
  all: try (match goal with |- parses (_ ≫= λ x, mret (?g x)) _ _ =>
              apply (parses_map _ g); eauto with go end).
  - apply (parses_map _ (λ v, pvBinary (append_nil v))). eauto with go.
  - unfold validatePropertyValue. rewrite Hid. by destruct Hk as [-> | ->].
  - eapply parses_bind; [eauto with go|]. destruct u as [k v].
    apply (parses_map _ (λ v, pvUser (mkUser k v))). eauto with go.
Qed.

Lemma decodeOneProperty_entry packet e bs props seen :
  entry_ok e → entry_typed e → entry_bytes packet e = Ok bs →
  (propertyRepeatAllowed (specOf (entry_id e)) packet = true ∨ entry_id e ∉ seen) →
  parses (decodeOneProperty packet props seen) bs
    (assign_entry props e,
     if negb (propertyRepeatAllowed (specOf (entry_id e)) packet)
     then {[entry_id e]} ∪ seen else seen).
Proof.
  intros Hok Hty Hb Hseen.
  assert (∃ h, appendPropertyHeader packet (entry_id e) = Ok h) as [h Hh].
  { destruct e; cbn in *; unfold appendPropByte, appendPropUint16, appendPropUint32,
      appendPropVBI, appendPropBinary, appendPropString, appendUserProperty in Hb; inv_ok; eauto. }
  destruct (appendPropertyHeader_Ok _ _ _ Hh) as (spec & Hs & Hspec & Ha & ->).
  destruct (entry_value_parses packet e spec _ bs Hok Hty Hs Hh Hb) as (vs & -> & Hp & Hv).
  pose proof (propertySpecs_lookup _ _ Hs) as (Hid & Hu8 & _).
  unfold decodeOneProperty. eapply parses_bind; [by apply parses_readByte|].
  rewrite Hs. eapply parses_lift; [done|]. rewrite Ha. apply parses_guard; [done|].
  rewrite Hspec in *. apply parses_guard.
  { destruct Hseen as [->|?]; [done|]. rewrite bool_decide_eq_false_2 by done. by destruct (negb _). }
  rewrite <-(app_nil_r vs). eapply parses_bind; [exact Hp|].
  eapply parses_lift; [exact Hv|]. unfold assign_entry. rewrite Hspec. apply parses_ret.
Qed.

(** ** A list of entries *)

Lemma entry_bytes_nonempty packet e bs : entry_bytes packet e = Ok bs → (1 ≤ length bs)%nat.
Proof.
  assert (∀ packet id h, appendPropertyHeader packet id = Ok h → length h = 1%nat) as Hl.
  { intros ??? H. by destruct (appendPropertyHeader_Ok _ _ _ H) as (? & _ & _ & _ & ->). }
  destruct e; cbn; unfold appendPropByte, appendPropUint16, appendPropUint32,
    appendPropVBI, appendPropBinary, appendPropString, appendUserProperty; intros H; inv_ok;
    rewrite length_app; match goal with H : appendPropertyHeader _ _ = _ |- _ => apply Hl in H end; lia.
Qed.

Lemma append_each_length {A} (f : A → result WireError (list byte)) es bs :
  (∀ e b, f e = Ok b → (1 ≤ length b)%nat) →
  append_each f es = Ok bs → (length es ≤ length bs)%nat.
Proof.
  intros Hf. revert bs. induction es as [|e es IH]; cbn; intros bs H; [lia|]. inv_ok.
  rewrite length_app. apply Hf in E. apply IH in E0. lia.
Qed.

Lemma singles_cons packet e es :
  singles packet (e :: es) =
    if propertyRepeatAllowed (specOf (entry_id e)) packet
    then singles packet es else entry_id e :: singles packet es.
Proof.
  unfold singles. rewrite fmap_cons, filter_cons.
  by destruct (propertyRepeatAllowed (specOf (entry_id e)) packet).
Qed.

Lemma singles_app packet es es' :
  singles packet (es ++ es') = singles packet es ++ singles packet es'.
Proof. unfold singles. by rewrite fmap_app, filter_app. Qed.

Lemma decodePropertiesLoop_entries packet es : ∀ fuel props seen bs,
  append_each (entry_bytes packet) es = Ok bs → (length es ≤ fuel)%nat →
  Forall entry_ok es → Forall entry_typed es →
  NoDup (singles packet es) → (∀ id, id ∈ singles packet es → id ∉ seen) →
  parses_end (decodePropertiesLoop fuel packet props seen) bs (foldl assign_entry props es).
Proof.
  induction es as [|e es IH]; intros fuel props seen bs Hb Hf Hok Hty Hnd Hseen.
  - cbn in Hb. inv_ok. destruct fuel; [apply parses_end_ret|].
    apply parses_end_remaining. apply parses_end_ret.
  - cbn in Hb, Hf. inv_ok. destruct fuel as [|fuel]; [lia|]. cbn [decodePropertiesLoop].
    apply Forall_cons in Hok as [Hok Hok'], Hty as [Hty Hty'].
    pose proof (entry_bytes_nonempty _ _ _ E). apply parses_end_remaining.
    rewrite length_app. zcase. cbn [foldl].
    rewrite singles_cons in Hnd, Hseen. eapply parses_bind_end.
    { apply decodeOneProperty_entry; [done..|].
      destruct (propertyRepeatAllowed _ _); [by left|right]. apply Hseen. by left. }
    destruct (propertyRepeatAllowed _ _); cbn [negb].
    + apply IH; [done|lia|done..].
    + apply NoDup_cons in Hnd as [Hni Hnd]. apply IH; [done|lia|done|done|done|].
      intros id Hid [->%elem_of_singleton|?]%elem_of_union; [done|].
      eapply Hseen; [by right|done].
Qed.

Lemma writeVBI_Ok packet field n bs :
  writeVBI packet field n = Ok bs → 0 ≤ n ≤ maxRemainingLength ∧ bs = encodeVBI_loop 4 n.
Proof.
  unfold writeVBI, encodeRemainingLength.
  destruct ((n <? 0) || (maxRemainingLength <? n)) eqn:Hb; [done|]. intros <-%Ok_inj.
  bool_arith. split; [lia|done].
Qed.

(** Any property section the encoder produced from an entry list is read back
    by [decodeProperties], which applies the entries to the initial struct. *)
Lemma parses_decodeProperties packet props0 es body len :
  append_each (entry_bytes packet) es = Ok body →
  writeVBI packet "property length" (Z.of_nat (length body)) = Ok len →
  Forall entry_ok es → Forall entry_typed es → NoDup (singles packet es) →
  parses (decodeProperties packet props0) (len ++ body) (foldl assign_entry props0 es).
Proof.
  intros Hb Hl Hok Hty Hnd. unfold decodeProperties.
  eapply parses_bind; [by eapply parses_readVBI|].
  intros c tl Hc Hr. unfold mbind at 1, decoder_mbind at 1, get_remaining.
  pose proof (remaining_app _ _ _ Hc Hr) as Hrem. rewrite Hrem.
  unfold mbind, decoder_mbind, guard_not, lift, check. zcase.
  unfold decodePropertySection. rewrite Nat2Z.id.
  change (drop (cur_pos c) (cur_data c)) with (rest c). rewrite Hr, take_app_length.
  rewrite (decodePropertiesLoop_entries packet es _ props0 ∅ body); try done.
  - eapply append_each_length; [apply entry_bytes_nonempty|done].
  - unfold cur_ok. cbn. lia.
Qed.

(** ** Property structs as entry lists *)

Definition opt_e {A} (c : A → entry) (o : option A) : list entry :=
  match o with Some a => [c a] | None => [] end.
Definition str_e (id : Z) (s : string) : list entry :=
  if bool_decide (s = "") then [] else [EStr id s].

Definition reason_entries (reason : string) (users : list User) : list entry :=
  str_e PropReasonString reason ++ (EUser <$> users).

Definition entries_of (props : Properties) : list entry :=
  match props with
  | PropsPublish p =>
      opt_e (EByte PropPayloadFormat) (pup_PayloadFormat p) ++
      opt_e (EU32 PropMessageExpiry) (pup_MessageExpiry p) ++
      opt_e (EU32 PropWillDelayInterval) (pup_WillDelayInterval p) ++
      str_e PropContentType (pup_ContentType p) ++
      str_e PropResponseTopic (pup_ResponseTopic p) ++
      opt_e (EBin PropCorrelationData) (pup_CorrelationData p) ++
      opt_e (EU16 PropTopicAlias) (pup_TopicAlias p) ++
      (EVBI PropSubscriptionIdentifier <$> pup_SubscriptionIdentifier p) ++
      (EUser <$> pup_User p)
  | PropsConnect p =>
      opt_e (EU32 PropSessionExpiryInterval) (cop_SessionExpiryInterval p) ++
      str_e PropAuthMethod (cop_AuthMethod p) ++
      opt_e (EBin PropAuthData) (cop_AuthData p) ++
      opt_e (EByte PropRequestProblemInfo) (cop_RequestProblemInfo p) ++
      opt_e (EByte PropRequestResponseInfo) (cop_RequestResponseInfo p) ++
      opt_e (EU16 PropReceiveMaximum) (cop_ReceiveMaximum p) ++
      opt_e (EU16 PropTopicAliasMaximum) (cop_TopicAliasMaximum p) ++
      opt_e (EU32 PropMaximumPacketSize) (cop_MaximumPacketSize p) ++
      (EUser <$> cop_User p)
  | PropsConnAck p =>
      opt_e (EU32 PropSessionExpiryInterval) (cap_SessionExpiryInterval p) ++
      str_e PropAssignedClientID (cap_AssignedClientID p) ++
      str_e PropAuthMethod (cap_AuthMethod p) ++
      str_e PropResponseInfo (cap_ResponseInfo p) ++
      str_e PropServerReference (cap_ServerReference p) ++
      str_e PropReasonString (cap_ReasonString p) ++
      opt_e (EU16 PropServerKeepAlive) (cap_ServerKeepAlive p) ++
      opt_e (EBin PropAuthData) (cap_AuthData p) ++
      opt_e (EU16 PropReceiveMaximum) (cap_ReceiveMaximum p) ++
      opt_e (EU16 PropTopicAliasMaximum) (cap_TopicAliasMaximum p) ++
      opt_e (EByte PropMaximumQOS) (cap_MaximumQOS p) ++
      opt_e (EByte PropRetainAvailable) (cap_RetainAvailable p) ++
      opt_e (EByte PropWildcardSubAvailable) (cap_WildcardSubAvailable p) ++
      opt_e (EByte PropSubIDAvailable) (cap_SubIDAvailable p) ++
      opt_e (EByte PropSharedSubAvailable) (cap_SharedSubAvailable p) ++
      opt_e (EU32 PropMaximumPacketSize) (cap_MaximumPacketSize p) ++
      (EUser <$> cap_User p)
  | PropsSubscribe p =>
      opt_e (EVBI PropSubscriptionIdentifier) (sbp_SubscriptionIdentifier p) ++
      (EUser <$> sbp_User p)
  | PropsUnsubscribe p => EUser <$> usp_User p
  | PropsSuback p | PropsUnsuback p | PropsPuback p
  | PropsPubrec p | PropsPubrel p | PropsPubcomp p =>
      reason_entries (rsp_ReasonString p) (rsp_User p)
  | PropsDisconnect p =>
      opt_e (EU32 PropSessionExpiryInterval) (dip_SessionExpiryInterval p) ++
      str_e PropServerReference (dip_ServerReference p) ++
      reason_entries (dip_ReasonString p) (dip_User p)
  | PropsAuth p =>
      str_e PropAuthMethod (aup_AuthMethod p) ++
      opt_e (EBin PropAuthData) (aup_AuthData p) ++
      reason_entries (aup_ReasonString p) (aup_User p)
  end.

(** *** The encoders write the entries in order *)

Lemma append_each_app {A} (f : A → result WireError (list byte)) xs ys :
  append_each f (xs ++ ys) =
    (b1 ← append_each f xs; b2 ← append_each f ys; mret (b1 ++ b2)).
Proof.
  induction xs as [|x xs IH]; cbn; [by destruct (append_each f ys)|].
  rewrite IH. destruct (f x); cbn; [|done]. destruct (append_each f xs); cbn; [|done].
  destruct (append_each f ys); cbn; [|done]. unfold mret, result_mret. by rewrite app_assoc.
Qed.

Lemma append_each_opt {A} packet (c : A → entry) o :
  append_each (entry_bytes packet) (opt_e c o) = when_some o (λ a, entry_bytes packet (c a)).
Proof.
  destruct o as [a|]; cbn; [|done]. destruct (entry_bytes packet (c a)); cbn; [|done].
  unfold mret, result_mret. by rewrite app_nil_r.
Qed.

Lemma append_each_str packet id s :
  append_each (entry_bytes packet) (str_e id s) = when_nonempty s (appendPropString packet id).
Proof.
  unfold str_e, when_nonempty. case_bool_decide; cbn; [done|].
  destruct (appendPropString packet id s); cbn; [|done].
  unfold mret, result_mret. by rewrite app_nil_r.
Qed.

Lemma append_each_map {A} packet (c : A → entry) xs :
  append_each (entry_bytes packet) (c <$> xs) = append_each (λ a, entry_bytes packet (c a)) xs.
Proof. induction xs as [|x xs IH]; cbn; [done|]. by rewrite IH. Qed.

(** Compare two chains of the same appends. *)
Ltac same_appends :=
  repeat rewrite append_each_app; repeat rewrite append_each_opt;
  repeat rewrite append_each_str; repeat rewrite append_each_map; cbn [entry_bytes];
  cbn [append_each];
  repeat match goal with
  | |- context [@mbind (result _) _ _ _ _ ?m] =>
      lazymatch m with
      | mbind _ _ => fail
      | _ => destruct m; cbn [mbind result_mbind result_bind]; [|done]
      end
  end;
  unfold mret, result_mret; cbn [mbind result_mbind result_bind]; rewrite ?app_nil_r, ?app_assoc; try done.

Lemma appendReasonUser_entries packet reason users :
  appendReasonUserProperties packet reason users =
  append_each (entry_bytes packet) (reason_entries reason users).
Proof. unfold appendReasonUserProperties, reason_entries, appendUserProperties. same_appends. Qed.

Lemma appendProperties_entries packet props :
  appendProperties packet props = append_each (entry_bytes packet) (entries_of props).
Proof.
  destruct props; cbn [appendProperties entries_of];
    rewrite ?appendReasonUser_entries; try done.
  - unfold appendPublishProperties, appendUserProperties. same_appends.
  - unfold appendConnectProperties, appendUserProperties. same_appends.
  - unfold appendConnackProperties, appendUserProperties. same_appends.
  - unfold appendSubscribeProperties, appendUserProperties. same_appends.
  - unfold appendUserProperties. same_appends.
  - unfold appendDisconnectProperties. rewrite appendReasonUser_entries. same_appends.
  - unfold appendAuthProperties. rewrite appendReasonUser_entries. same_appends.
Qed.

(** *** Types and ranges *)

Definition opt_in {A} (P : A → Prop) (o : option A) : Prop :=
  match o with Some a => P a | None => True end.

(** The integer fields fit their Go types. *)
Definition wf_props (props : Properties) : Prop :=
  match props with
  | PropsPublish p =>
      opt_in is_u8 (pup_PayloadFormat p) ∧ opt_in is_u32 (pup_MessageExpiry p) ∧
      opt_in is_u32 (pup_WillDelayInterval p) ∧ opt_in is_u16 (pup_TopicAlias p)
  | PropsConnect p =>
      opt_in is_u32 (cop_SessionExpiryInterval p) ∧ opt_in is_u8 (cop_RequestProblemInfo p) ∧
      opt_in is_u8 (cop_RequestResponseInfo p) ∧ opt_in is_u16 (cop_ReceiveMaximum p) ∧
      opt_in is_u16 (cop_TopicAliasMaximum p) ∧ opt_in is_u32 (cop_MaximumPacketSize p)
  | PropsConnAck p =>
      opt_in is_u32 (cap_SessionExpiryInterval p) ∧ opt_in is_u16 (cap_ServerKeepAlive p) ∧
      opt_in is_u16 (cap_ReceiveMaximum p) ∧ opt_in is_u16 (cap_TopicAliasMaximum p) ∧
      opt_in is_u8 (cap_MaximumQOS p) ∧ opt_in is_u8 (cap_RetainAvailable p) ∧
      opt_in is_u8 (cap_WildcardSubAvailable p) ∧ opt_in is_u8 (cap_SubIDAvailable p) ∧
      opt_in is_u8 (cap_SharedSubAvailable p) ∧ opt_in is_u32 (cap_MaximumPacketSize p)
  | PropsDisconnect p => opt_in is_u32 (dip_SessionExpiryInterval p)
  | _ => True
  end.

Lemma Forall_opt_e {A} (P : entry → Prop) (c : A → entry) o :
  opt_in (λ a, P (c a)) o → Forall P (opt_e c o).
Proof. destruct o; cbn; [|constructor]. by repeat constructor. Qed.

Lemma Forall_opt_all {A} (P : entry → Prop) (c : A → entry) o :
  (∀ a, P (c a)) → Forall P (opt_e c o).
Proof. intros. apply Forall_opt_e. by destruct o; cbn. Qed.

Lemma Forall_str_e (P : entry → Prop) id s : P (EStr id s) → Forall P (str_e id s).
Proof. unfold str_e. case_bool_decide; by repeat constructor. Qed.

Lemma Forall_fmap_e {A} (P : entry → Prop) (c : A → entry) xs :
  (∀ a, P (c a)) → Forall P (c <$> xs).
Proof. intros. apply Forall_fmap, Forall_true. done. Qed.

Lemma entries_typed props : Forall entry_typed (entries_of props).
Proof.
  destruct props; cbn [entries_of]; unfold reason_entries; rewrite ?Forall_app; repeat split;
    first [apply Forall_opt_all; intros; reflexivity
          |apply Forall_str_e; reflexivity
          |apply Forall_fmap_e; intros; reflexivity].
Qed.

Lemma entries_ok props : wf_props props → Forall entry_ok (entries_of props).
Proof.
  destruct props; cbn [entries_of wf_props]; unfold reason_entries; intros;
    rewrite ?Forall_app; repeat split;
    first [apply Forall_str_e; done
          |apply Forall_fmap_e; done
          |apply Forall_opt_e; cbn; done || tauto
          |apply Forall_opt_all; done].
Qed.

(** *** No identifier is written twice *)

Lemma singles_opt {A} packet (c : A → entry) o id :
  (∀ a, entry_id (c a) = id) → singles packet (opt_e c o) `sublist_of` [id].
Proof.
  intros Hc. destruct o as [a|]; cbn [opt_e]; [|apply sublist_nil_l].
  rewrite singles_cons, Hc. case_match; [apply sublist_nil_l|done].
Qed.

Lemma singles_str packet id s : singles packet (str_e id s) `sublist_of` [id].
Proof.
  unfold str_e. case_bool_decide; [apply sublist_nil_l|].
  rewrite singles_cons. cbn. case_match; [apply sublist_nil_l|done].
Qed.

Lemma singles_repeat {A} packet (c : A → entry) xs :
  (∀ a, propertyRepeatAllowed (specOf (entry_id (c a))) packet = true) →
  singles packet (c <$> xs) = [].
Proof.
  intros Hc. induction xs as [|x xs IH]; [done|]. by rewrite fmap_cons, singles_cons, Hc.
Qed.

Lemma singles_user packet us : singles packet (EUser <$> us) = [].
Proof. by apply singles_repeat. Qed.

(** Bound the identifiers of a concatenation by a concrete list. *)
Ltac sublist_ids :=
  rewrite ?singles_app, ?singles_user, ?app_nil_r;
  repeat match goal with
  | |- singles _ _ ++ _ `sublist_of` ?x :: ?l =>
      change (x :: l) with ([x] ++ l); apply sublist_app
  | |- singles _ (opt_e _ _) `sublist_of` _ => apply singles_opt; done
  | |- singles _ (str_e _ _) `sublist_of` _ => apply singles_str
  end.

Ltac nodup_by ids :=
  apply (sublist_NoDup _ ids);
    [apply (bool_decide_unpack _); by vm_compute|sublist_ids].

(** Subscription identifiers repeat only in PUBLISH; elsewhere the encoder
    refuses a PUBLISH struct that has any. *)
Definition subids_ok (packet : Z) (props : Properties) : Prop :=
  match props with
  | PropsPublish p => packet = PUBLISH ∨ pup_SubscriptionIdentifier p = []
  | _ => True
  end.

Lemma entries_NoDup packet props :
  subids_ok packet props → NoDup (singles packet (entries_of props)).
Proof.
  destruct props as [p|p|p|p|p|p|p|p|p|p|p|p|p]; cbn [entries_of subids_ok];
    unfold reason_entries; intros Hs.
  - assert (singles packet (EVBI PropSubscriptionIdentifier <$> pup_SubscriptionIdentifier p) = [])
      as Hids. { destruct Hs as [-> | ->]; [by apply singles_repeat|done]. }
    rewrite !singles_app, Hids, singles_user. cbn [app]. rewrite app_nil_r.
    nodup_by [PropPayloadFormat; PropMessageExpiry; PropWillDelayInterval; PropContentType;
              PropResponseTopic; PropCorrelationData; PropTopicAlias].
  - nodup_by [PropSessionExpiryInterval; PropAuthMethod; PropAuthData; PropRequestProblemInfo;
              PropRequestResponseInfo; PropReceiveMaximum; PropTopicAliasMaximum;
              PropMaximumPacketSize].
  - nodup_by [PropSessionExpiryInterval; PropAssignedClientID; PropAuthMethod; PropResponseInfo;
              PropServerReference; PropReasonString; PropServerKeepAlive; PropAuthData;
              PropReceiveMaximum; PropTopicAliasMaximum; PropMaximumQOS; PropRetainAvailable;
              PropWildcardSubAvailable; PropSubIDAvailable; PropSharedSubAvailable;
              PropMaximumPacketSize].
  - nodup_by [PropSubscriptionIdentifier].
  - nodup_by [PropReasonString].
  - rewrite singles_user. constructor.
  - nodup_by [PropReasonString].
  - nodup_by [PropReasonString].
  - nodup_by [PropReasonString].
  - nodup_by [PropReasonString].
  - nodup_by [PropReasonString].
  - nodup_by [PropSessionExpiryInterval; PropServerReference; PropReasonString].
  - nodup_by [PropAuthMethod; PropAuthData; PropReasonString].
Qed.

(** *** The struct the entries rebuild *)

(** A zero-length binary property is decoded as an absent one. *)
Definition norm_bin (o : option (list byte)) : option (list byte) := o ≫= append_nil.

Definition norm_publish (p : PublishProperties) : PublishProperties :=
  match p with
  | mkPublishProperties pf me wd ct rt cd ta si us =>
      mkPublishProperties pf me wd ct rt (norm_bin cd) ta si us
  end.
Definition norm_connect (p : ConnectProperties) : ConnectProperties :=
  match p with
  | mkConnectProperties se am ad rp rr rm tm mp us =>
      mkConnectProperties se am (norm_bin ad) rp rr rm tm mp us
  end.
Definition norm_connack (p : ConnAckProperties) : ConnAckProperties :=
  match p with
  | mkConnAckProperties se ac sk am ad ri sr rs rm tm mq ra wa si sh mp us =>
      mkConnAckProperties se ac sk am (norm_bin ad) ri sr rs rm tm mq ra wa si sh mp us
  end.
Definition norm_auth (p : AuthProperties) : AuthProperties :=
  match p with mkAuthProperties am ad rs us => mkAuthProperties am (norm_bin ad) rs us end.

Definition norm_props (props : Properties) : Properties :=
  match props with
  | PropsPublish p => PropsPublish (norm_publish p)
  | PropsConnect p => PropsConnect (norm_connect p)
  | PropsConnAck p => PropsConnAck (norm_connack p)
  | PropsAuth p => PropsAuth (norm_auth p)
  | p => p
  end.

(** The zero value of the struct [props] points to. *)
Definition empty_of (props : Properties) : Properties :=
  match props with
  | PropsPublish _ => PropsPublish emptyPublishProperties
  | PropsConnect _ => PropsConnect emptyConnectProperties
  | PropsConnAck _ => PropsConnAck emptyConnAckProperties
  | PropsSubscribe _ => PropsSubscribe emptySubscribeProperties
  | PropsSuback _ => PropsSuback emptyReasonProperties
  | PropsUnsubscribe _ => PropsUnsubscribe emptyUnsubscribeProperties
  | PropsUnsuback _ => PropsUnsuback emptyReasonProperties
  | PropsPuback _ => PropsPuback emptyReasonProperties
  | PropsPubrec _ => PropsPubrec emptyReasonProperties
  | PropsPubrel _ => PropsPubrel emptyReasonProperties
  | PropsPubcomp _ => PropsPubcomp emptyReasonProperties
  | PropsDisconnect _ => PropsDisconnect emptyDisconnectProperties
  | PropsAuth _ => PropsAuth emptyAuthProperties
  end.

(** Assignment by the entry's own identifier, without the table. *)
Definition assign_id (props : Properties) (e : entry) : Properties :=
  assignProperty props (mkPropertySpec (entry_id e) "" propertyByte 0 repeatNever) (entry_value e).

Lemma assign_entry_id props e : entry_typed e → assign_entry props e = assign_id props e.
Proof.
  unfold entry_typed, assign_entry, assign_id, specOf.
  destruct (propertySpecs !! entry_id e) as [spec|] eqn:Hs; [|done]. intros _.
  destruct (propertySpecs_lookup _ _ Hs) as [Hid _]. destruct spec. cbn in Hid. by subst.
Qed.

Lemma foldl_assign_id props es :
  Forall entry_typed es → foldl assign_entry props es = foldl assign_id props es.
Proof.
  intros Hes. revert props. induction Hes as [|e es He _ IH]; intros props; [done|].
  cbn [foldl]. by rewrite assign_entry_id, IH.
Qed.

Lemma foldl_assign_fmap {A} (F : list A → Properties) (c : A → entry) xs :
  (∀ l x, assign_id (F l) (c x) = F (l ++ [x])) →
  ∀ l, foldl assign_id (F l) (c <$> xs) = F (l ++ xs).
Proof.
  intros HF. induction xs as [|x xs IH]; intros l; cbn [foldl fmap list_fmap];
    [by rewrite app_nil_r|]. rewrite HF, IH, <-app_assoc. done.
Qed.

(** Apply the entries of one optional field to an explicit struct. *)
Ltac step_field :=
  match goal with
  | |- context [foldl assign_id ?acc (opt_e (EBin ?id) ?o)] =>
      lazymatch acc with context [foldl _ _ _] => fail | _ => idtac end;
      let f := constr:(fun x : list byte => ltac:(
        let v := eval cbv -[append_nil] in (assign_id acc (EBin id x)) in
        let g := eval pattern (append_nil x) in v in
        lazymatch g with ?h _ => let r := eval cbv beta in (h (norm_bin o)) in exact r end)) in
      lazymatch f with fun _ => ?r =>
        replace (foldl assign_id acc (opt_e (EBin id) o)) with r by (destruct o; reflexivity)
      end
  | |- context [foldl assign_id ?acc (@opt_e ?A ?c ?o)] =>
      lazymatch acc with context [foldl _ _ _] => fail | _ => idtac end;
      let f := constr:(fun x : A => ltac:(
        let v := eval cbv in (assign_id acc (c x)) in
        let g := eval pattern (Some x) in v in
        lazymatch g with ?h _ => let r := eval cbv beta in (h o) in exact r end)) in
      lazymatch f with fun _ => ?r =>
        replace (foldl assign_id acc (opt_e c o)) with r by (destruct o; reflexivity)
      end
  | |- context [foldl assign_id ?acc (str_e ?id ?s)] =>
      lazymatch acc with context [foldl _ _ _] => fail | _ => idtac end;
      let r := eval cbv in (assign_id acc (EStr id s)) in
      replace (foldl assign_id acc (str_e id s)) with r
        by (unfold str_e; case_bool_decide; [subst s|]; reflexivity)
  end.

Lemma foldl_entries props :
  foldl assign_entry (empty_of props) (entries_of props) = norm_props props.
Proof.
  rewrite foldl_assign_id by apply entries_typed.
  destruct props as [p|p|p|p|p|p|p|p|p|p|p|p|p]; destruct p;
    cbn -[opt_e str_e assign_id foldl fmap]; unfold reason_entries; rewrite ?foldl_app;
    unfold emptyPublishProperties, emptyConnectProperties, emptyConnAckProperties,
      emptySubscribeProperties, emptyUnsubscribeProperties, emptyReasonProperties,
      emptyDisconnectProperties, emptyAuthProperties; repeat step_field.
  - erewrite (foldl_assign_fmap (λ l, PropsPublish (mkPublishProperties _ _ _ _ _ _ _ l _))) by done.
    by erewrite (foldl_assign_fmap (λ l, PropsPublish (mkPublishProperties _ _ _ _ _ _ _ _ l))) by done.
  - by erewrite (foldl_assign_fmap (λ l, PropsConnect (mkConnectProperties _ _ _ _ _ _ _ _ l))) by done.
  - by erewrite (foldl_assign_fmap (λ l, PropsConnAck (mkConnAckProperties _ _ _ _ _ _ _ _ _ _ _ _ _ _ _ _ l)))
      by done.
  - by erewrite (foldl_assign_fmap (λ l, PropsSubscribe (mkSubscribeProperties _ l))) by done.
  - by erewrite (foldl_assign_fmap (λ l, PropsSuback (mkReasonProperties _ l))) by done.
  - by erewrite (foldl_assign_fmap (λ l, PropsUnsubscribe (mkUnsubscribeProperties l))) by done.
  - by erewrite (foldl_assign_fmap (λ l, PropsUnsuback (mkReasonProperties _ l))) by done.
  - by erewrite (foldl_assign_fmap (λ l, PropsPuback (mkReasonProperties _ l))) by done.
  - by erewrite (foldl_assign_fmap (λ l, PropsPubrec (mkReasonProperties _ l))) by done.
  - by erewrite (foldl_assign_fmap (λ l, PropsPubrel (mkReasonProperties _ l))) by done.
  - by erewrite (foldl_assign_fmap (λ l, PropsPubcomp (mkReasonProperties _ l))) by done.
  - by erewrite (foldl_assign_fmap (λ l, PropsDisconnect (mkDisconnectProperties _ _ _ l))) by done.
  - by erewrite (foldl_assign_fmap (λ l, PropsAuth (mkAuthProperties _ _ _ l))) by done.
Qed.

(** ** Round trip of a property section *)

(** The packet contexts in which each struct is encoded. *)
Definition props_context (packet : Z) (props : Properties) : Prop :=
  match props with
  | PropsPublish _ => packet = PUBLISH ∨ packet = WILLPROPERTIES
  | _ => True
  end.

Lemma will_no_subids p body :
  appendPublishProperties WILLPROPERTIES p = Ok body → pup_SubscriptionIdentifier p = [].
Proof.
  unfold appendPublishProperties. intros H. inv_ok.
  match goal with H : append_each _ (pup_SubscriptionIdentifier p) = _ |- _ => rename H into Hids end.
  destruct (pup_SubscriptionIdentifier p) as [|id ids]; [done|]. exfalso.
  cbn [append_each] in Hids. apply bind_Ok_inv in Hids as (b & Hb & _).
  apply bind_Ok_inv in Hb as (h & Hh & _).
  destruct (appendPropertyHeader_Ok _ _ _ Hh) as (spec & _ & <- & Ha & _).
  vm_compute in Ha. discriminate Ha.
Qed.

Lemma encodeProperties_roundtrip packet props bs :
  encodeProperties packet (Some props) = Ok bs → wf_props props → props_context packet props →
  parses (decodeProperties packet (empty_of props)) bs (norm_props props).
Proof.
  unfold encodeProperties. intros H Hwf Hctx. inv_ok. rewrite <-foldl_entries.
  assert (subids_ok packet props).
  { destruct props; try done. destruct Hctx as [-> | ->]; [by left|right].
    by eapply will_no_subids. }
  rewrite appendProperties_entries in E.
  apply parses_decodeProperties;
    auto using entries_ok, entries_typed, entries_NoDup.
Qed.

Lemma encodeProperties_nil_roundtrip packet props0 bs :
  encodeProperties packet None = Ok bs → parses (decodeProperties packet props0) bs props0.
Proof.
  unfold encodeProperties. intros H. cbn in H. inv_ok.
  by apply (parses_decodeProperties packet props0 []); try constructor.
Qed.

Lemma encodeProperties_nonempty packet props bs :
  encodeProperties packet props = Ok bs → (1 ≤ length bs)%nat.
Proof.
  unfold encodeProperties. intros H. inv_ok. apply writeVBI_Ok in E0 as [_ ->].
  rewrite length_app. cbn [encodeVBI_loop length]. lia.
Qed.

(** A section of length one is the empty one. *)
Lemma encodeProperties_length1 packet props bs :
  encodeProperties packet (Some props) = Ok bs → length bs = 1%nat → entries_of props = [].
Proof.
  unfold encodeProperties. intros H Hl. inv_ok. apply writeVBI_Ok in E0 as [_ ->].
  rewrite length_app in Hl. cbn [encodeVBI_loop length] in Hl.
  rewrite appendProperties_entries in E.
  apply append_each_length in E; [|apply entry_bytes_nonempty].
  destruct (entries_of props); [done|]. cbn in E. lia.
Qed.

Lemma entries_nil_norm props : entries_of props = [] → norm_props props = empty_of props.
Proof. intros H. by rewrite <-foldl_entries, H. Qed.

(** ** Every decoder only moves the cursor forward *)

Definition advances {A} (m : decoder A) : Prop :=
  ∀ c a c', cur_ok c → m c = Ok (a, c') →
    cur_data c' = cur_data c ∧ cur_packet c' = cur_packet c ∧
    (cur_pos c ≤ cur_pos c' ≤ length (cur_data c))%nat.

Section advances_rules.
Context {A B : Type}.

Lemma advances_ret (a : A) : advances (mret a).
Proof. intros c a' c' Hc H. injection H as <- <-. unfold cur_ok in Hc. split_and!; done || lia. Qed.

Lemma advances_bind (m : decoder A) (f : A → decoder B) :
  advances m → (∀ a, advances (f a)) → advances (m ≫= f).
Proof.
  intros Hm Hf c b c' Hc. unfold mbind, decoder_mbind. destruct (m c) as [[a c1]|] eqn:E; [|done].
  intros H. destruct (Hm _ _ _ Hc E) as (Hd & Hp & Hpos).
  assert (cur_ok c1) as Hc1 by (unfold cur_ok; rewrite Hd; lia).
  destruct (Hf _ _ _ _ Hc1 H) as (Hd' & Hp' & Hpos'). rewrite Hd in *.
  split_and!; congruence || lia.
Qed.

Lemma advances_fail e : advances (fail (A:=A) e).
Proof. by intros c a c' _ H. Qed.

Lemma advances_lift (m : result WireError A) : advances (lift m).
Proof.
  intros c a c' Hc H. unfold lift in H. destruct m; [|done]. injection H as <- <-.
  unfold cur_ok in Hc. split_and!; done || lia.
Qed.
End advances_rules.

Lemma advances_guard b e : advances (guard_not b e).
Proof. apply advances_lift. Qed.

Lemma advances_get_remaining : advances get_remaining.
Proof. intros c a c' Hc H. injection H as <- <-. unfold cur_ok in Hc. split_and!; done || lia. Qed.
Lemma advances_get_packet : advances get_packet.
Proof. intros c a c' Hc H. injection H as <- <-. unfold cur_ok in Hc. split_and!; done || lia. Qed.

Lemma readByte_strict field c v c' :
  cur_ok c → readByte field c = Ok (v, c') →
  is_u8 v ∧ c' = adv 1 c ∧ (cur_pos c < length (cur_data c))%nat.
Proof.
  unfold readByte, cur_ok, remaining. intros Hc. zcase; [done|]. intros H'. injection H' as <- <-.
  split_and!; [apply b2z_range|done|lia].
Qed.

Lemma advances_readByte field : advances (readByte field).
Proof.
  intros c v c' Hc H. destruct (readByte_strict _ _ _ _ Hc H) as (_ & -> & Hl).
  unfold cur_ok in Hc. cbn. split_and!; done || lia.
Qed.

Lemma advances_readBytes field n : advances (readBytes field n).
Proof.
  intros c v c' Hc. unfold readBytes, remaining. zcase; try done.
  intros H'. injection H' as <- <-. cbn. unfold cur_ok in Hc. split_and!; done || lia.
Qed.

Create HintDb adv discriminated.
#[export] Hint Constants Opaque : adv.
#[export] Hint Resolve advances_ret advances_fail advances_lift advances_guard
  advances_get_remaining advances_get_packet advances_readByte advances_readBytes : adv.

(** Push [advances] through binds and case distinctions. *)
Ltac adv_tac := repeat first
  [progress intros | solve [auto with adv] | simple apply advances_bind
  | progress cbn beta | progress case_match ].

Lemma advances_readUint16 field : advances (readUint16 field).
Proof. unfold readUint16. adv_tac. Qed.
Lemma advances_readUint32 field : advances (readUint32 field).
Proof. unfold readUint32. adv_tac. Qed.
#[export] Hint Resolve advances_readUint16 advances_readUint32 : adv.
Lemma advances_readBinary field : advances (readBinary field).
Proof. unfold readBinary. adv_tac. Qed.
#[export] Hint Resolve advances_readBinary : adv.
Lemma advances_readString field : advances (readString field).
Proof. unfold readString. adv_tac. Qed.
Lemma advances_readVBI_loop field left : ∀ w v m, advances (readVBI_loop field left w v m).
Proof. induction left as [|left IH]; intros; cbn [readVBI_loop]; adv_tac; apply IH. Qed.
Lemma advances_readVBI field : advances (readVBI field).
Proof. apply advances_readVBI_loop. Qed.
#[export] Hint Resolve advances_readString advances_readVBI : adv.
Lemma advances_readPropertyValue spec : advances (readPropertyValue spec).
Proof. unfold readPropertyValue. case_match; adv_tac. Qed.
#[export] Hint Resolve advances_readPropertyValue : adv.

Lemma decodeOneProperty_strict packet props seen c r c' :
  cur_ok c → decodeOneProperty packet props seen c = Ok (r, c') →
  cur_ok c' ∧ cur_data c' = cur_data c ∧ (cur_pos c < cur_pos c')%nat.
Proof.
  intros Hc. unfold decodeOneProperty, mbind at 1, decoder_mbind at 1.
  destruct (readByte "property id" c) as [[id c1]|] eqn:E; [|done].
  destruct (readByte_strict _ _ _ _ Hc E) as (_ & -> & Hl). intros H.
  match type of H with ?m (adv 1 c) = _ => assert (advances m) as Hm end.
  { adv_tac. }
  assert (cur_ok (adv 1 c)) as Hc1 by (unfold cur_ok; cbn; lia).
  destruct (Hm _ _ _ Hc1 H) as (Hd & _ & Hp). cbn in Hd, Hp.
  unfold cur_ok. rewrite Hd. split_and!; done || lia.
Qed.

(** The loop does not depend on its fuel once there is a unit per byte. *)
Lemma decodePropertiesLoop_fuel packet f1 : ∀ f2 props seen c,
  cur_ok c → (length (rest c) ≤ f1)%nat → (length (rest c) ≤ f2)%nat →
  decodePropertiesLoop f1 packet props seen c = decodePropertiesLoop f2 packet props seen c.
Proof.
  induction f1 as [|f1 IH]; intros f2 props seen c Hc H1 H2.
  { destruct f2; [done|]. cbn [decodePropertiesLoop]. unfold mbind, decoder_mbind, get_remaining.
    rewrite <-length_rest by done. zcase. done. }
  destruct f2 as [|f2]; cbn [decodePropertiesLoop]; unfold mbind, decoder_mbind, get_remaining;
    rewrite <-length_rest by done; zcase; try done.
  destruct (decodeOneProperty packet props seen c) as [[[props' seen'] c']|] eqn:E; [|done].
  destruct (decodeOneProperty_strict _ _ _ _ _ _ Hc E) as (Hc' & Hd & Hp).
  unfold rest in *. rewrite !length_drop in H1, H2.
  apply IH; [done|unfold rest; rewrite length_drop, Hd; lia..].
Qed.
