(* ===== verification/WireCodec.v ===== *)
(** * Packet codec, reader and writer

    [src/pkg/mqtt5/wire/codec.go], [reader.go], [writer.go] and
    [src/pkg/mqtt5/packetsize/packet_size.go]: the body codecs of the fifteen
    control packets, the frame reader [Decode] over an [io.Reader], the frame
    writer [Encode], and the size checks built on it. *)

From S2P Require Import Prelude GoStrings Mqtt5 Topic Wire WireProps.

(** ** Validation helpers *)

Definition validateTopicFilter (packet : Z) (field topic : string) : result WireError unit :=
  match ValidateTopicFilterSyntax topic with
  | Err err => Err (malformed packet field (topicFilterError_Error err))
  | Ok _ => Ok tt
  end.

(** ** Decoding *)

(** [cur.data[cur.pos:]], moving to the end. *)
Definition readRest : decoder (list byte) := λ c,
  Ok (drop (cur_pos c) (cur_data c),
      mkCursor (cur_packet c) (cur_data c) (length (cur_data c))).

(** [decodeProperties] into a fresh struct of each type. *)
Definition decodePublishProps (packet : Z) : decoder PublishProperties :=
  p ← decodeProperties packet (PropsPublish emptyPublishProperties);
  mret (match p with PropsPublish p => p | _ => emptyPublishProperties end).
Definition decodeConnectProps : decoder ConnectProperties :=
  p ← decodeProperties CONNECT (PropsConnect emptyConnectProperties);
  mret (match p with PropsConnect p => p | _ => emptyConnectProperties end).
Definition decodeConnackProps : decoder ConnAckProperties :=
  p ← decodeProperties CONNACK (PropsConnAck emptyConnAckProperties);
  mret (match p with PropsConnAck p => p | _ => emptyConnAckProperties end).
Definition decodeSubscribeProps : decoder SubscribeProperties :=
  p ← decodeProperties SUBSCRIBE (PropsSubscribe emptySubscribeProperties);
  mret (match p with PropsSubscribe p => p | _ => emptySubscribeProperties end).
Definition decodeUnsubscribeProps : decoder UnsubscribeProperties :=
  p ← decodeProperties UNSUBSCRIBE (PropsUnsubscribe emptyUnsubscribeProperties);
  mret (match p with PropsUnsubscribe p => p | _ => emptyUnsubscribeProperties end).
Definition decodeDisconnectProps : decoder DisconnectProperties :=
  p ← decodeProperties DISCONNECT (PropsDisconnect emptyDisconnectProperties);
  mret (match p with PropsDisconnect p => p | _ => emptyDisconnectProperties end).
Definition decodeAuthProps : decoder AuthProperties :=
  p ← decodeProperties AUTH (PropsAuth emptyAuthProperties);
  mret (match p with PropsAuth p => p | _ => emptyAuthProperties end).
(** The six structs with a reason string; [mk] is the struct's Go type. *)
Definition decodeReasonProps (packet : Z) (mk : ReasonProperties → Properties)
    : decoder ReasonProperties :=
  p ← decodeProperties packet (mk emptyReasonProperties);
  mret (match p with
        | PropsSuback p | PropsUnsuback p | PropsPuback p
        | PropsPubrec p | PropsPubrel p | PropsPubcomp p => p
        | _ => emptyReasonProperties
        end).

(** The fields [unpackConnectFlags] sets. *)
Record ConnectFlags := mkConnectFlags {
  cf_CleanStart : bool;
  cf_WillFlag : bool;
  cf_WillQOS : Z;
  cf_WillRetain : bool;
  cf_PasswordFlag : bool;
  cf_UsernameFlag : bool }.

Definition unpackConnectFlags (flags : Z) : result WireError ConnectFlags :=
  if negb (Z.land flags 0x01 =? 0)
  then Err (malformed CONNECT "connect flags" "reserved bit must be zero")
  else
    let f := mkConnectFlags
      (negb (Z.land flags 0x02 =? 0))
      (negb (Z.land flags 0x04 =? 0))
      (Z.land (Z.shiftr flags 3) 0x03)
      (negb (Z.land flags 0x20 =? 0))
      (negb (Z.land flags 0x40 =? 0))
      (negb (Z.land flags 0x80 =? 0)) in
    _ ← (if negb (cf_WillFlag f) then
           _ ← check (negb (cf_WillQOS f =? 0))
                 (malformed CONNECT "connect flags" "will QoS must be zero when will flag is false");
           check (cf_WillRetain f)
             (malformed CONNECT "connect flags" "will retain must be false when will flag is false")
         else Ok tt);
    _ ← check (cf_WillQOS f =? 3) (malformed CONNECT "connect flags" "will QoS 3 is reserved");
    _ ← check (cf_PasswordFlag f && negb (cf_UsernameFlag f))
          (malformed CONNECT "connect flags" "password flag requires username flag");
    mret f.

Definition decodeConnect : decoder Connect :=
  protocolName ← readString "protocol name";
  _ ← guard_not (negb (bool_decide (protocolName = "MQTT")))
        (malformed CONNECT "protocol name" "protocol name must be MQTT");
  protocolVersion ← readByte "protocol version";
  _ ← guard_not (negb (protocolVersion =? 5)) (unsupportedVersion protocolVersion);
  flags ← readByte "connect flags";
  f ← lift (unpackConnectFlags flags);
  keepAlive ← readUint16 "keep alive";
  properties ← decodeConnectProps;
  clientID ← readString "client id";
  '(willProperties, willTopic, willMessage) ←
    (if cf_WillFlag f then
       wp ← decodePublishProps WILLPROPERTIES;
       wt ← readString "will topic";
       _ ← lift (validateTopicName CONNECT "will topic" wt false);
       wm ← readBinary "will message";
       mret (Some wp, wt, wm)
     else mret (None, "", []));
  username ← (if cf_UsernameFlag f then readString "username" else mret "");
  password ← (if cf_PasswordFlag f then readBinary "password" else mret []);
  mret (mkConnect willMessage password username protocolName clientID willTopic
          (Some properties) willProperties keepAlive protocolVersion
          (cf_WillQOS f) (cf_PasswordFlag f) (cf_UsernameFlag f) (cf_WillRetain f)
          (cf_WillFlag f) (cf_CleanStart f)).

Definition decodeConnack : decoder ConnAck :=
  flags ← readByte "acknowledge flags";
  _ ← guard_not (negb (Z.land flags 0xfe =? 0))
        (malformed CONNACK "acknowledge flags" "reserved bits must be zero");
  let sessionPresent := negb (Z.land flags 0x01 =? 0) in
  reasonCode ← readByte "reason code";
  _ ← lift (validateReason CONNACK reasonCode);
  _ ← guard_not (negb (reasonCode =? 0) && sessionPresent)
        (malformed CONNACK "session present" "session present must be false for unsuccessful CONNACK");
  properties ← decodeConnackProps;
  mret (mkConnAck (Some properties) reasonCode sessionPresent).

Definition decodePublish (flags : Z) : decoder Publish :=
  let duplicate := negb (Z.land flags 0x08 =? 0) in
  let qos := Z.land (Z.shiftr flags 1) 0x03 in
  let retain := negb (Z.land flags 0x01 =? 0) in
  _ ← guard_not (qos =? 3) (malformed PUBLISH "qos" "PUBLISH QoS 3 is reserved");
  topic ← readString "topic name";
  packetID ←
    (if 0 <? qos then
       id ← readUint16 "packet identifier";
       _ ← guard_not (id =? 0)
             (malformed PUBLISH "packet identifier" "packet identifier must be non-zero");
       mret id
     else mret 0);
  properties ← decodePublishProps PUBLISH;
  _ ← lift (if bool_decide (topic = "") then
              check (bool_decide (pup_TopicAlias properties = None))
                (malformed PUBLISH "topic name" "topic name is required unless topic alias is present")
            else validateTopicName PUBLISH "topic name" topic false);
  payload ← readRest;
  mret (mkPublish payload topic (Some properties) packetID qos duplicate retain).

Definition decodeAck (packetType : Z) (mk : ReasonProperties → Properties) : decoder Ack :=
  packetID ← readUint16 "packet identifier";
  _ ← guard_not (packetID =? 0)
        (malformed packetType "packet identifier" "packet identifier must be non-zero");
  n ← get_remaining;
  reason ←
    (if 0 <? n then
       r ← readByte "reason code";
       _ ← lift (validateReason packetType r);
       mret r
     else mret 0);
  n ← get_remaining;
  properties ← (if 0 <? n then decodeReasonProps packetType mk else mret emptyReasonProperties);
  mret (mkAck (Some properties) packetID reason).

(** One subscription of a SUBSCRIBE payload. *)
Definition decodeSubscription : decoder SubOptions :=
  topic ← readString "topic filter";
  opts ← readByte "subscription options";
  let sub := mkSubOptions topic (Z.land opts 0x03) (Z.land (Z.shiftr opts 4) 0x03)
               (negb (Z.land opts 0x04 =? 0)) (negb (Z.land opts 0x08 =? 0)) in
  _ ← guard_not (sub_QoS sub =? 3)
        (malformed SUBSCRIBE "subscription options" "QoS 3 is reserved");
  _ ← guard_not (sub_RetainHandling sub =? 3)
        (malformed SUBSCRIBE "subscription options" "retain handling 3 is reserved");
  _ ← guard_not (negb (Z.land opts 0xc0 =? 0))
        (malformed SUBSCRIBE "subscription options" "reserved bits must be zero");
  _ ← lift (validateTopicFilter SUBSCRIBE "topic filter" topic);
  mret sub.

(** [for cur.remaining() > 0 { ... }]: each iteration reads at least one byte,
    so the number of unread bytes is fuel enough. *)
Fixpoint decodeWhile {A} (fuel : nat) (one : decoder A) : decoder (list A) :=
  match fuel with
  | O => mret []
  | S fuel' =>
      n ← get_remaining;
      if 0 <? n then
        x ← one;
        xs ← decodeWhile fuel' one;
        mret (x :: xs)
      else mret []
  end.

Definition decodeAll {A} (one : decoder A) : decoder (list A) :=
  n ← get_remaining;
  decodeWhile (Z.to_nat n) one.

Definition decodeSubscribe : decoder Subscribe :=
  packetID ← readUint16 "packet identifier";
  _ ← guard_not (packetID =? 0)
        (malformed SUBSCRIBE "packet identifier" "packet identifier must be non-zero");
  properties ← decodeSubscribeProps;
  subscriptions ← decodeAll decodeSubscription;
  _ ← guard_not (bool_decide (length subscriptions = 0%nat))
        (malformed SUBSCRIBE "topic filters" "at least one topic filter is required");
  mret (mkSubscribe (Some properties) subscriptions packetID).

(** [for _, reason := range reasons { validateReason ... }]. *)
Fixpoint validateReasons (packetType : Z) (reasons : list Z) : result WireError unit :=
  match reasons with
  | [] => Ok tt
  | r :: rs => _ ← validateReason packetType r; validateReasons packetType rs
  end.

(** [decodeSuback] and [decodeUnsuback], which differ in the packet type only. *)
Definition decodeCodeList (packetType : Z) (mk : ReasonProperties → Properties) : decoder CodeList :=
  packetID ← readUint16 "packet identifier";
  _ ← guard_not (packetID =? 0)
        (malformed packetType "packet identifier" "packet identifier must be non-zero");
  properties ← decodeReasonProps packetType mk;
  data ← readRest;
  let reasons := b2z <$> data in
  _ ← guard_not (bool_decide (length reasons = 0%nat))
        (malformed packetType "reason codes" "at least one reason code is required");
  _ ← lift (validateReasons packetType reasons);
  mret (mkCodeList (Some properties) reasons packetID).

Definition decodeUnsubTopic : decoder string :=
  topic ← readString "topic filter";
  _ ← lift (validateTopicFilter UNSUBSCRIBE "topic filter" topic);
  mret topic.

Definition decodeUnsubscribe : decoder Unsubscribe :=
  packetID ← readUint16 "packet identifier";
  _ ← guard_not (packetID =? 0)
        (malformed UNSUBSCRIBE "packet identifier" "packet identifier must be non-zero");
  properties ← decodeUnsubscribeProps;
  topics ← decodeAll decodeUnsubTopic;
  _ ← guard_not (bool_decide (length topics = 0%nat))
        (malformed UNSUBSCRIBE "topic filters" "at least one topic filter is required");
  mret (mkUnsubscribe topics (Some properties) packetID).

Definition decodeEmpty (packet : Packet) : decoder Packet :=
  n ← get_remaining;
  _ ← guard_not (negb (n =? 0))
        (malformed (PacketType packet) "remaining length" "remaining length must be zero");
  mret packet.

Definition decodeDisconnect : decoder Disconnect :=
  n ← get_remaining;
  if n =? 0 then mret (mkDisconnect (Some emptyDisconnectProperties) 0)
  else
    reasonCode ← readByte "reason code";
    _ ← lift (validateReason DISCONNECT reasonCode);
    n ← get_remaining;
    properties ← (if 0 <? n then decodeDisconnectProps else mret emptyDisconnectProperties);
    mret (mkDisconnect (Some properties) reasonCode).

Definition decodeAuth : decoder Auth :=
  n ← get_remaining;
  if n =? 0 then mret (mkAuth (Some emptyAuthProperties) 0)
  else
    reasonCode ← readByte "reason code";
    _ ← lift (validateReason AUTH reasonCode);
    n ← get_remaining;
    properties ← (if 0 <? n then decodeAuthProps else mret emptyAuthProperties);
    mret (mkAuth (Some properties) reasonCode).

Definition decodeBody (packetType flags : Z) : decoder Packet :=
  if packetType =? CONNECT then p ← decodeConnect; mret (PConnect p)
  else if packetType =? CONNACK then p ← decodeConnack; mret (PConnAck p)
  else if packetType =? PUBLISH then p ← decodePublish flags; mret (PPublish p)
  else if packetType =? PUBACK then p ← decodeAck packetType PropsPuback; mret (PPuback p)
  else if packetType =? PUBREC then p ← decodeAck packetType PropsPubrec; mret (PPubrec p)
  else if packetType =? PUBREL then p ← decodeAck packetType PropsPubrel; mret (PPubrel p)
  else if packetType =? PUBCOMP then p ← decodeAck packetType PropsPubcomp; mret (PPubcomp p)
  else if packetType =? SUBSCRIBE then p ← decodeSubscribe; mret (PSubscribe p)
  else if packetType =? SUBACK then p ← decodeCodeList SUBACK PropsSuback; mret (PSuback p)
  else if packetType =? UNSUBSCRIBE then p ← decodeUnsubscribe; mret (PUnsubscribe p)
  else if packetType =? UNSUBACK then p ← decodeCodeList UNSUBACK PropsUnsuback; mret (PUnsuback p)
  else if packetType =? PINGREQ then decodeEmpty PPingreq
  else if packetType =? PINGRESP then decodeEmpty PPingresp
  else if packetType =? DISCONNECT then p ← decodeDisconnect; mret (PDisconnect p)
  else if packetType =? AUTH then p ← decodeAuth; mret (PAuth p)
  else fail (malformed packetType "packet type" "unknown packet type").

Definition decodePacket (packetType flags : Z) (body : list byte) : result WireError Packet :=
  match decodeBody packetType flags (newCursor packetType body) with
  | Err e => Err e
  | Ok (packet, cur) =>
      if negb (remaining cur =? 0)
      then Err (malformed packetType "body" "packet body has trailing bytes")
      else Ok packet
  end.

(** [Decode(r, opts)]: the packet and what the reader has left. *)
Definition Decode (maxPacketSize : Z) (r : list byte) : result ReadError (ControlPacket * list byte) :=
  match ReadFull 1 r with
  | Err e => Err (IOErr e)
  | Ok (first, r) =>
      let b := match first with x :: _ => b2z x | [] => 0 end in
      let packetType := Z.shiftr b 4 in
      let flags := Z.land b 0x0f in
      if (packetType <? CONNECT) || (AUTH <? packetType)
      then Err (WireErr (malformed packetType "packet type" "unknown packet type"))
      else
        match validateFixedHeaderFlags packetType flags with
        | Err e => Err (WireErr e)
        | Ok _ =>
            match readRemainingLength r with
            | Err e => Err (classifyReadError packetType "remaining length" e)
            | Ok (remainingLength, width, r) =>
                let totalSize := 1 + width + remainingLength in
                if (0 <? maxPacketSize) && (maxPacketSize <? totalSize)
                then Err (WireErr (tooLarge packetType totalSize maxPacketSize))
                else
                  match ReadFull (Z.to_nat remainingLength) r with
                  | Err e => Err (classifyReadError packetType "body" (IOErr e))
                  | Ok (body, r) =>
                      match decodePacket packetType flags body with
                      | Err e => Err (WireErr e)
                      | Ok content =>
                          Ok (mkControlPacket (Some content) (Some content)
                                (mkFixedHeader packetType flags remainingLength), r)
                      end
                  end
            end
        end
  end.

(** ** Encoding *)

Definition validateConnectForEncode (p : Connect) : result WireError unit :=
  _ ← check (2 <? con_WillQOS p)
        (malformed CONNECT "connect flags" "will QoS must be 0, 1, or 2");
  _ ← (if negb (con_WillFlag p) then
         _ ← check (negb (con_WillQOS p =? 0))
               (malformed CONNECT "connect flags" "will QoS must be zero when will flag is false");
         check (con_WillRetain p)
           (malformed CONNECT "connect flags" "will retain must be false when will flag is false")
       else Ok tt);
  check (con_PasswordFlag p && negb (con_UsernameFlag p))
    (malformed CONNECT "connect flags" "password flag requires username flag").

Definition encodeConnect (p : Connect) : result WireError (list byte) :=
  _ ← validateConnectForEncode p;
  _ ← check (negb (bool_decide (con_ProtocolName p = "MQTT")))
        (malformed CONNECT "protocol name" "protocol name must be MQTT");
  _ ← check (negb (con_ProtocolVersion p =? 5)) (unsupportedVersion (con_ProtocolVersion p));
  let flags := PackFlags p in
  name ← writeString CONNECT "protocol name" (con_ProtocolName p);
  props ← encodeProperties CONNECT (PropsConnect <$> con_Properties p);
  clientID ← writeString CONNECT "client id" (con_ClientID p);
  will ←
    (if con_WillFlag p then
       willProps ← encodeProperties WILLPROPERTIES (PropsPublish <$> con_WillProperties p);
       _ ← validateTopicName CONNECT "will topic" (con_WillTopic p) false;
       willTopic ← writeString CONNECT "will topic" (con_WillTopic p);
       willMessage ← writeBinary CONNECT "will message" (con_WillMessage p);
       mret (willProps ++ willTopic ++ willMessage)
     else Ok []);
  username ← (if con_UsernameFlag p then writeString CONNECT "username" (con_Username p) else Ok []);
  password ← (if con_PasswordFlag p then writeBinary CONNECT "password" (con_Password p) else Ok []);
  mret (name ++ [z2b (con_ProtocolVersion p)] ++ [z2b flags] ++ writeUint16 (con_KeepAlive p) ++
        props ++ clientID ++ will ++ username ++ password).

Definition encodeConnack (p : ConnAck) : result WireError (list byte) :=
  _ ← validateReason CONNACK (coa_ReasonCode p);
  _ ← check (negb (coa_ReasonCode p =? 0) && coa_SessionPresent p)
        (malformed CONNACK "session present" "session present must be false for unsuccessful CONNACK");
  props ← encodeProperties CONNACK (PropsConnAck <$> coa_Properties p);
  mret ([z2b (if coa_SessionPresent p then 1 else 0)] ++ [z2b (coa_ReasonCode p)] ++ props).

Definition encodePublish (p : Publish) : result WireError (list byte) :=
  _ ← check (pub_QoS p =? 3) (malformed PUBLISH "qos" "PUBLISH QoS 3 is reserved");
  _ ← check ((pub_QoS p =? 0) && negb (pub_PacketID p =? 0))
        (malformed PUBLISH "packet identifier" "QoS 0 PUBLISH must not carry a packet identifier");
  _ ← check ((0 <? pub_QoS p) && (pub_PacketID p =? 0))
        (malformed PUBLISH "packet identifier" "packet identifier must be non-zero");
  _ ← (if bool_decide (pub_Topic p = "") then
         check (match pub_Properties p with
                | None => true
                | Some props => bool_decide (pup_TopicAlias props = None)
                end)
           (malformed PUBLISH "topic name" "topic name is required unless topic alias is present")
       else validateTopicName PUBLISH "topic name" (pub_Topic p) false);
  topic ← writeString PUBLISH "topic name" (pub_Topic p);
  props ← encodeProperties PUBLISH (PropsPublish <$> pub_Properties p);
  mret (topic ++ (if 0 <? pub_QoS p then writeUint16 (pub_PacketID p) else []) ++
        props ++ pub_Payload p).

Definition encodeAck (packetType packetID reason : Z) (props : option Properties)
    : result WireError (list byte) :=
  _ ← check (packetID =? 0)
        (malformed packetType "packet identifier" "packet identifier must be non-zero");
  _ ← validateReason packetType reason;
  propBytes ← encodeProperties packetType props;
  let buf := writeUint16 packetID in
  if (reason =? 0) && bool_decide (length propBytes = 1%nat) then mret buf
  else
    let buf := buf ++ [z2b reason] in
    if bool_decide (1 < length propBytes)%nat then mret (buf ++ propBytes) else mret buf.

Definition validateSubOptionsForEncode (sub : SubOptions) : result WireError unit :=
  _ ← check (2 <? sub_QoS sub)
        (malformed SUBSCRIBE "subscription options" "QoS must be between 0 and 2");
  check (2 <? sub_RetainHandling sub)
    (malformed SUBSCRIBE "subscription options" "retain handling must be between 0 and 2").

Definition encodeSubscription (sub : SubOptions) : result WireError (list byte) :=
  _ ← validateTopicFilter SUBSCRIBE "topic filter" (sub_Topic sub);
  _ ← validateSubOptionsForEncode sub;
  topic ← writeString SUBSCRIBE "topic filter" (sub_Topic sub);
  mret (topic ++ [z2b (Pack sub)]).

Definition encodeSubscribe (p : Subscribe) : result WireError (list byte) :=
  _ ← check (sbs_PacketID p =? 0)
        (malformed SUBSCRIBE "packet identifier" "packet identifier must be non-zero");
  _ ← check (bool_decide (length (sbs_Subscriptions p) = 0%nat))
        (malformed SUBSCRIBE "topic filters" "at least one topic filter is required");
  props ← encodeProperties SUBSCRIBE (PropsSubscribe <$> sbs_Properties p);
  subs ← append_each encodeSubscription (sbs_Subscriptions p);
  mret (writeUint16 (sbs_PacketID p) ++ props ++ subs).

Definition encodeCodeList (packetType packetID : Z) (props : option Properties) (reasons : list Z)
    : result WireError (list byte) :=
  _ ← check (packetID =? 0)
        (malformed packetType "packet identifier" "packet identifier must be non-zero");
  _ ← check (bool_decide (length reasons = 0%nat))
        (malformed packetType "reason codes" "at least one reason code is required");
  _ ← validateReasons packetType reasons;
  propBytes ← encodeProperties packetType props;
  mret (writeUint16 packetID ++ propBytes ++ (z2b <$> reasons)).

Definition encodeUnsubTopic (topic : string) : result WireError (list byte) :=
  _ ← validateTopicFilter UNSUBSCRIBE "topic filter" topic;
  writeString UNSUBSCRIBE "topic filter" topic.

Definition encodeUnsubscribe (p : Unsubscribe) : result WireError (list byte) :=
  _ ← check (uns_PacketID p =? 0)
        (malformed UNSUBSCRIBE "packet identifier" "packet identifier must be non-zero");
  _ ← check (bool_decide (length (uns_Topics p) = 0%nat))
        (malformed UNSUBSCRIBE "topic filters" "at least one topic filter is required");
  props ← encodeProperties UNSUBSCRIBE (PropsUnsubscribe <$> uns_Properties p);
  topics ← append_each encodeUnsubTopic (uns_Topics p);
  mret (writeUint16 (uns_PacketID p) ++ props ++ topics).

Definition encodeReasonPacket (packetType reason : Z) (props : option Properties)
    : result WireError (list byte) :=
  _ ← validateReason packetType reason;
  propBytes ← encodeProperties packetType props;
  if (reason =? 0) && bool_decide (length propBytes = 1%nat) then mret []
  else
    let buf := [z2b reason] in
    if bool_decide (1 < length propBytes)%nat then mret (buf ++ propBytes) else mret buf.

Definition encodePacket (packet : Packet) : result WireError (list byte) :=
  match packet with
  | PConnect p => encodeConnect p
  | PConnAck p => encodeConnack p
  | PPublish p => encodePublish p
  | PPuback p => encodeAck PUBACK (ack_PacketID p) (ack_ReasonCode p) (PropsPuback <$> ack_Properties p)
  | PPubrec p => encodeAck PUBREC (ack_PacketID p) (ack_ReasonCode p) (PropsPubrec <$> ack_Properties p)
  | PPubrel p => encodeAck PUBREL (ack_PacketID p) (ack_ReasonCode p) (PropsPubrel <$> ack_Properties p)
  | PPubcomp p => encodeAck PUBCOMP (ack_PacketID p) (ack_ReasonCode p) (PropsPubcomp <$> ack_Properties p)
  | PSubscribe p => encodeSubscribe p
  | PSuback p => encodeCodeList SUBACK (cdl_PacketID p) (PropsSuback <$> cdl_Properties p) (cdl_Reasons p)
  | PUnsubscribe p => encodeUnsubscribe p
  | PUnsuback p =>
      encodeCodeList UNSUBACK (cdl_PacketID p) (PropsUnsuback <$> cdl_Properties p) (cdl_Reasons p)
  | PPingreq | PPingresp => Ok []
  | PDisconnect p =>
      encodeReasonPacket DISCONNECT (dis_ReasonCode p) (PropsDisconnect <$> dis_Properties p)
  | PAuth p => encodeReasonPacket AUTH (aut_ReasonCode p) (PropsAuth <$> aut_Properties p)
  end.

(** [Encode(packet, opts)]; [None] is a nil [*ControlPacket]. *)
Definition Encode (maxPacketSize : Z) (packet : option ControlPacket) : result WireError (list byte) :=
  match packet with
  | None => Err (implementation 0 "packet" "nil control packet")
  | Some packet =>
      let type := fh_Type (cp_FixedHeader packet) in
      match CanonicalPacket packet with
      | None => Err (implementation type "content" "nil packet content")
      | Some content =>
          let packetType := PacketType content in
          _ ← check (negb (type =? 0) && negb (type =? packetType))
                (implementation packetType "type" "control packet type does not match content");
          flags ← fixedHeaderFlags content;
          _ ← validateFixedHeaderFlags packetType flags;
          body ← encodePacket content;
          let n := Z.of_nat (length body) in
          _ ← check (maxRemainingLength <? n)
                (malformed packetType "remaining length" "remaining length exceeds MQTT maximum");
          remainingLength ← encodeRemainingLength n;
          let totalSize := 1 + Z.of_nat (length remainingLength) + n in
          _ ← check ((0 <? maxPacketSize) && (maxPacketSize <? totalSize))
                (tooLarge packetType totalSize maxPacketSize);
          mret ([z2b (Z.lor (wrap 8 (Z.shiftl packetType 4)) flags)] ++ remainingLength ++ body)
      end
  end.

(** ** Size checks ([packetsize]) *)

Inductive SizeError :=
| SizeCalculation (e : WireError)
| ErrPacketOversize (size max : Z).

Definition calculatePacketSize (packet : option ControlPacket) : result WireError Z :=
  encoded ← Encode 0 packet;
  mret (Z.of_nat (length encoded)).

Definition CheckPacketSizeWithMax (packet : option ControlPacket) (maxSize : Z)
    : result SizeError unit :=
  match calculatePacketSize packet with
  | Err e => Err (SizeCalculation e)
  | Ok packetSize =>
      if maxSize <? packetSize then Err (ErrPacketOversize packetSize maxSize) else Ok tt
  end.
