(* ===== verification/WireRoundtrip.v ===== *)
(** * Round trip of control packets

    Every frame the encoder produces is decoded to the packet it was made from,
    up to the normalisation [norm_packet] (a nil properties pointer becomes an
    empty struct, fields whose CONNECT flag is off are dropped, an empty binary
    property becomes an absent one), and the decoder stops at the end of the
    frame. *)

From S2P Require Import Prelude GoStrings Mqtt5 Topic Wire WireParse WireProps WirePropsProofs WireCodec.

(** ** What decoding returns *)

Definition norm_connect_packet (p : Connect) : Connect :=
  mkConnect
    (if con_WillFlag p then con_WillMessage p else [])
    (if con_PasswordFlag p then con_Password p else [])
    (if con_UsernameFlag p then con_Username p else "")
    (con_ProtocolName p) (con_ClientID p)
    (if con_WillFlag p then con_WillTopic p else "")
    (Some (norm_connect (default emptyConnectProperties (con_Properties p))))
    (if con_WillFlag p
     then Some (norm_publish (default emptyPublishProperties (con_WillProperties p))) else None)
    (con_KeepAlive p) (con_ProtocolVersion p) (con_WillQOS p)
    (con_PasswordFlag p) (con_UsernameFlag p) (con_WillRetain p) (con_WillFlag p)
    (con_CleanStart p).

Definition norm_ack (p : Ack) : Ack :=
  mkAck (Some (default emptyReasonProperties (ack_Properties p))) (ack_PacketID p) (ack_ReasonCode p).
Definition norm_codes (p : CodeList) : CodeList :=
  mkCodeList (Some (default emptyReasonProperties (cdl_Properties p))) (cdl_Reasons p) (cdl_PacketID p).

Definition norm_packet (p : Packet) : Packet :=
  match p with
  | PConnect p => PConnect (norm_connect_packet p)
  | PConnAck p =>
      PConnAck (mkConnAck (Some (norm_connack (default emptyConnAckProperties (coa_Properties p))))
                  (coa_ReasonCode p) (coa_SessionPresent p))
  | PPublish p =>
      PPublish (mkPublish (pub_Payload p) (pub_Topic p)
                  (Some (norm_publish (default emptyPublishProperties (pub_Properties p))))
                  (pub_PacketID p) (pub_QoS p) (pub_Duplicate p) (pub_Retain p))
  | PPuback p => PPuback (norm_ack p)
  | PPubrec p => PPubrec (norm_ack p)
  | PPubrel p => PPubrel (norm_ack p)
  | PPubcomp p => PPubcomp (norm_ack p)
  | PSubscribe p =>
      PSubscribe (mkSubscribe (Some (default emptySubscribeProperties (sbs_Properties p)))
                    (sbs_Subscriptions p) (sbs_PacketID p))
  | PSuback p => PSuback (norm_codes p)
  | PUnsubscribe p =>
      PUnsubscribe (mkUnsubscribe (uns_Topics p)
                      (Some (default emptyUnsubscribeProperties (uns_Properties p))) (uns_PacketID p))
  | PUnsuback p => PUnsuback (norm_codes p)
  | PPingreq => PPingreq
  | PPingresp => PPingresp
  | PDisconnect p =>
      PDisconnect (mkDisconnect (Some (default emptyDisconnectProperties (dis_Properties p)))
                     (dis_ReasonCode p))
  | PAuth p =>
      PAuth (mkAuth (Some (norm_auth (default emptyAuthProperties (aut_Properties p))))
               (aut_ReasonCode p))
  end.

(** Integer fields within their Go types; for PUBLISH the QoS is one of the
    three levels (the encoder rejects 3 only, see [Encode_qos_out_of_range]). *)
Definition wf_packet (p : Packet) : Prop :=
  match p with
  | PConnect p =>
      is_u16 (con_KeepAlive p) ∧ is_u8 (con_WillQOS p) ∧
      opt_in (λ q, wf_props (PropsConnect q)) (con_Properties p) ∧
      opt_in (λ q, wf_props (PropsPublish q)) (con_WillProperties p)
  | PConnAck p => opt_in (λ q, wf_props (PropsConnAck q)) (coa_Properties p)
  | PPublish p =>
      0 ≤ pub_QoS p ≤ 2 ∧ is_u16 (pub_PacketID p) ∧
      opt_in (λ q, wf_props (PropsPublish q)) (pub_Properties p)
  | PPuback p | PPubrec p | PPubrel p | PPubcomp p => is_u16 (ack_PacketID p)
  | PSubscribe p =>
      is_u16 (sbs_PacketID p) ∧
      Forall (λ s, is_u8 (sub_QoS s) ∧ is_u8 (sub_RetainHandling s)) (sbs_Subscriptions p)
  | PSuback p | PUnsuback p => is_u16 (cdl_PacketID p)
  | PUnsubscribe p => is_u16 (uns_PacketID p)
  | PPingreq | PPingresp => True
  | PDisconnect p => opt_in (λ q, wf_props (PropsDisconnect q)) (dis_Properties p)
  | PAuth p => True
  end.

(** ** Helpers *)

Lemma validateReason_u8 packet code : validateReason packet code = Ok tt → is_u8 code.
Proof.
  unfold validateReason. case_bool_decide as Hin; [|done]. intros _.
  assert (map_Forall (λ _ s, set_Forall is_u8 s) validReasonCodes) as Hall.
  { apply (bool_decide_unpack _). by vm_compute. }
  destruct (validReasonCodes !! packet) as [s|] eqn:E; cbn in Hin; [|by apply elem_of_empty in Hin].
  exact (Hall _ _ E _ Hin).
Qed.

Lemma parses_readRest bs : parses_end readRest bs bs.
Proof.
  intros c Hc Hr. unfold readRest. change (drop (cur_pos c) (cur_data c)) with (rest c).
  rewrite Hr. do 2 f_equal. unfold adv. f_equal. unfold cur_ok in Hc.
  apply (f_equal length) in Hr. unfold rest in Hr. rewrite length_drop in Hr. lia.
Qed.

Lemma parses_decodeWhile {A} (one : decoder A) (enc : A → result WireError (list byte)) xs :
  ∀ fuel bs, append_each enc xs = Ok bs → (length xs ≤ fuel)%nat →
  (∀ x b, x ∈ xs → enc x = Ok b → parses one b x ∧ (1 ≤ length b)%nat) →
  parses_end (decodeWhile fuel one) bs xs.
Proof.
  induction xs as [|x xs IH]; intros fuel bs Hb Hf Hone.
  - cbn in Hb. inv_ok. destruct fuel; [apply parses_end_ret|].
    cbn [decodeWhile]. apply parses_end_remaining, parses_end_ret.
  - cbn in Hb, Hf. inv_ok. destruct fuel as [|fuel]; [lia|]. cbn [decodeWhile].
    destruct (Hone x a ltac:(by left) E) as [Hp Hl]. apply parses_end_remaining.
    rewrite length_app. zcase. eapply parses_bind_end; [exact Hp|].
    rewrite <-(app_nil_r a0).
    intros c Hc Hr. rewrite app_nil_r in Hr.
    unfold mbind, decoder_mbind. rewrite (IH fuel a0); try done; [|lia|].
    + rewrite app_nil_r. done.
    + intros y b Hy. apply Hone. by right.
Qed.

Lemma parses_decodeAll {A} (one : decoder A) (enc : A → result WireError (list byte)) xs bs :
  append_each enc xs = Ok bs →
  (∀ x b, x ∈ xs → enc x = Ok b → parses one b x ∧ (1 ≤ length b)%nat) →
  parses_end (decodeAll one) bs xs.
Proof.
  intros Hb Hone. apply parses_end_remaining. rewrite Nat2Z.id.
  eapply parses_decodeWhile; [done| |done].
  clear -Hb Hone. revert bs Hb. induction xs as [|x xs IH]; cbn; intros bs Hb; [lia|]. inv_ok.
  rewrite length_app. destruct (Hone x a ltac:(by left) E) as [_ Hl].
  apply IH in E0; [lia|]. intros y b Hy. apply Hone. by right.
Qed.

(** A section encoded from an optional struct decodes to the normalised struct,
    the empty one for a nil pointer. *)
Lemma parses_opt_props {A} packet (mk : A → Properties) (o : option A) e bs :
  encodeProperties packet (mk <$> o) = Ok bs →
  opt_in (λ a, wf_props (mk a)) o → (∀ a, props_context packet (mk a)) →
  (∀ a, empty_of (mk a) = mk e) → norm_props (mk e) = mk e →
  parses (decodeProperties packet (mk e)) bs (norm_props (mk (default e o))).
Proof.
  intros Hb Hwf Hctx He Hn. destruct o as [a|]; cbn in *.
  - rewrite <-(He a). by apply encodeProperties_roundtrip.
  - rewrite Hn. by eapply encodeProperties_nil_roundtrip.
Qed.

Lemma opt_props_length1 {A} packet (mk : A → Properties) (o : option A) e bs :
  encodeProperties packet (mk <$> o) = Ok bs → length bs = 1%nat →
  (∀ a, empty_of (mk a) = mk e) → norm_props (mk e) = mk e →
  norm_props (mk (default e o)) = mk e.
Proof.
  intros Hb Hl He Hn. destruct o as [a|]; cbn in *; [|done].
  rewrite <-(He a). apply entries_nil_norm. by eapply encodeProperties_length1.
Qed.

Section typed_props.
Lemma parses_publish_props packet o bs :
  packet = PUBLISH ∨ packet = WILLPROPERTIES →
  encodeProperties packet (PropsPublish <$> o) = Ok bs →
  opt_in (λ q, wf_props (PropsPublish q)) o →
  parses (decodePublishProps packet) bs (norm_publish (default emptyPublishProperties o)).
Proof.
  intros Hp Hb Hwf. pose proof (parses_opt_props packet PropsPublish o _ bs Hb Hwf
    (λ _, Hp) (λ _, eq_refl) eq_refl) as H.
  by apply (parses_map _ (λ p, match p with PropsPublish p => p | _ => emptyPublishProperties end)) in H.
Qed.

Lemma parses_connect_props o bs :
  encodeProperties CONNECT (PropsConnect <$> o) = Ok bs →
  opt_in (λ q, wf_props (PropsConnect q)) o →
  parses decodeConnectProps bs (norm_connect (default emptyConnectProperties o)).
Proof.
  intros Hb Hwf. pose proof (parses_opt_props CONNECT PropsConnect o _ bs Hb Hwf
    (λ _, I) (λ _, eq_refl) eq_refl) as H.
  by apply (parses_map _ (λ p, match p with PropsConnect p => p | _ => emptyConnectProperties end)) in H.
Qed.

Lemma parses_connack_props o bs :
  encodeProperties CONNACK (PropsConnAck <$> o) = Ok bs →
  opt_in (λ q, wf_props (PropsConnAck q)) o →
  parses decodeConnackProps bs (norm_connack (default emptyConnAckProperties o)).
Proof.
  intros Hb Hwf. pose proof (parses_opt_props CONNACK PropsConnAck o _ bs Hb Hwf
    (λ _, I) (λ _, eq_refl) eq_refl) as H.
  by apply (parses_map _ (λ p, match p with PropsConnAck p => p | _ => emptyConnAckProperties end)) in H.
Qed.

Lemma parses_subscribe_props o bs :
  encodeProperties SUBSCRIBE (PropsSubscribe <$> o) = Ok bs →
  parses decodeSubscribeProps bs (default emptySubscribeProperties o).
Proof.
  intros Hb. assert (opt_in (λ q, wf_props (PropsSubscribe q)) o) as Hwf by (by destruct o).
  pose proof (parses_opt_props SUBSCRIBE PropsSubscribe o _ bs Hb Hwf
    (λ _, I) (λ _, eq_refl) eq_refl) as H.
  by apply (parses_map _ (λ p, match p with PropsSubscribe p => p | _ => emptySubscribeProperties end)) in H.
Qed.

Lemma parses_unsubscribe_props o bs :
  encodeProperties UNSUBSCRIBE (PropsUnsubscribe <$> o) = Ok bs →
  parses decodeUnsubscribeProps bs (default emptyUnsubscribeProperties o).
Proof.
  intros Hb. assert (opt_in (λ q, wf_props (PropsUnsubscribe q)) o) as Hwf by (by destruct o).
  pose proof (parses_opt_props UNSUBSCRIBE PropsUnsubscribe o _ bs Hb Hwf
    (λ _, I) (λ _, eq_refl) eq_refl) as H.
  by apply (parses_map _ (λ p, match p with PropsUnsubscribe p => p | _ => emptyUnsubscribeProperties end)) in H.
Qed.

Lemma parses_disconnect_props o bs :
  encodeProperties DISCONNECT (PropsDisconnect <$> o) = Ok bs →
  opt_in (λ q, wf_props (PropsDisconnect q)) o →
  parses decodeDisconnectProps bs (default emptyDisconnectProperties o).
Proof.
  intros Hb Hwf. pose proof (parses_opt_props DISCONNECT PropsDisconnect o _ bs Hb Hwf
    (λ _, I) (λ _, eq_refl) eq_refl) as H.
  by apply (parses_map _ (λ p, match p with PropsDisconnect p => p | _ => emptyDisconnectProperties end)) in H.
Qed.

Lemma parses_auth_props o bs :
  encodeProperties AUTH (PropsAuth <$> o) = Ok bs →
  parses decodeAuthProps bs (norm_auth (default emptyAuthProperties o)).
Proof.
  intros Hb. assert (opt_in (λ q, wf_props (PropsAuth q)) o) as Hwf by (by destruct o).
  pose proof (parses_opt_props AUTH PropsAuth o _ bs Hb Hwf (λ _, I) (λ _, eq_refl) eq_refl) as H.
  by apply (parses_map _ (λ p, match p with PropsAuth p => p | _ => emptyAuthProperties end)) in H.
Qed.

(** The six structs with a reason string. *)
Definition reason_ctor (mk : ReasonProperties → Properties) : Prop :=
  mk = PropsSuback ∨ mk = PropsUnsuback ∨ mk = PropsPuback ∨ mk = PropsPubrec ∨
  mk = PropsPubrel ∨ mk = PropsPubcomp.

Lemma parses_reason_props packet mk o bs :
  reason_ctor mk → encodeProperties packet (mk <$> o) = Ok bs →
  parses (decodeReasonProps packet mk) bs (default emptyReasonProperties o).
Proof.
  intros Hmk Hb. unfold decodeReasonProps.
  assert (opt_in (λ q, wf_props (mk q)) o) as Hwf.
  { destruct o; [|done]. by destruct Hmk as [-> |[-> |[-> |[-> |[-> | ->]]]]]. }
  assert (parses (decodeProperties packet (mk emptyReasonProperties)) bs
            (norm_props (mk (default emptyReasonProperties o)))) as H.
  { apply parses_opt_props; try done;
      by destruct Hmk as [-> |[-> |[-> |[-> |[-> | ->]]]]]. }
  apply (parses_map _ (λ p, match p with
        | PropsSuback p | PropsUnsuback p | PropsPuback p
        | PropsPubrec p | PropsPubrel p | PropsPubcomp p => p
        | _ => emptyReasonProperties end)) in H.
  by destruct Hmk as [-> |[-> |[-> |[-> |[-> | ->]]]]].
Qed.
End typed_props.

(** ** Bit layouts *)

Lemma unpack_PackFlags p :
  is_u8 (con_WillQOS p) → validateConnectForEncode p = Ok tt →
  is_u8 (PackFlags p) ∧
  unpackConnectFlags (PackFlags p) =
    Ok (mkConnectFlags (con_CleanStart p) (con_WillFlag p) (con_WillQOS p) (con_WillRetain p)
          (con_PasswordFlag p) (con_UsernameFlag p)).
Proof.
  unfold validateConnectForEncode, PackFlags, is_u8.
  destruct p as [wm pw un pn ci wt pr wp ka pv q pf uf wr wf cs].
  cbn [con_WillQOS con_WillFlag con_WillRetain con_PasswordFlag con_UsernameFlag con_CleanStart].
  intros Hq H. inv_ok.
  match goal with H : (2 <? q) = false |- _ => apply Z.ltb_ge in H end.
  assert (q = 0 ∨ q = 1 ∨ q = 2) as [-> |[-> | ->]] by lia;
    destruct wf, wr, pf, uf, cs; cbn in *; inv_ok; try discriminate; vm_compute; done.
Qed.

Lemma unpack_Pack s :
  is_u8 (sub_QoS s) → is_u8 (sub_RetainHandling s) → validateSubOptionsForEncode s = Ok tt →
  is_u8 (Pack s) ∧
  Z.land (Pack s) 0x03 = sub_QoS s ∧ Z.land (Z.shiftr (Pack s) 4) 0x03 = sub_RetainHandling s ∧
  negb (Z.land (Pack s) 0x04 =? 0) = sub_NoLocal s ∧
  negb (Z.land (Pack s) 0x08 =? 0) = sub_RetainAsPublished s ∧
  Z.land (Pack s) 0xc0 = 0 ∧ sub_QoS s ≤ 2 ∧ sub_RetainHandling s ≤ 2.
Proof.
  unfold validateSubOptionsForEncode, is_u8. destruct s as [t q r nl rap]. cbn. intros Hq Hr H.
  inv_ok. apply Z.ltb_ge in E, H.
  assert (q = 0 ∨ q = 1 ∨ q = 2) as [-> |[-> | ->]] by lia;
    assert (r = 0 ∨ r = 1 ∨ r = 2) as [-> |[-> | ->]] by lia;
    destruct nl, rap; vm_compute; split_and!; done.
Qed.

Lemma publish_header_bits p :
  0 ≤ pub_QoS p ≤ 2 → (pub_QoS p = 0 → pub_Duplicate p = false) →
  let flags := publishFlags p in
  0 ≤ flags < 16 ∧ negb (Z.land flags 0x08 =? 0) = pub_Duplicate p ∧
  Z.land (Z.shiftr flags 1) 0x03 = pub_QoS p ∧ negb (Z.land flags 0x01 =? 0) = pub_Retain p.
Proof.
  destruct p as [pl t pr id q d r]. unfold publishFlags. cbn. intros Hq Hd.
  assert (q = 0 ∨ q = 1 ∨ q = 2) as [-> |[-> | ->]] by lia;
    destruct d, r; try (discriminate (Hd eq_refl)); vm_compute; split_and!; done.
Qed.

Lemma header_byte t flags :
  1 ≤ t ≤ 15 → 0 ≤ flags < 16 →
  b2z (z2b (Z.lor (wrap 8 (Z.shiftl t 4)) flags)) = t * 16 + flags ∧
  Z.shiftr (t * 16 + flags) 4 = t ∧ Z.land (t * 16 + flags) 0x0f = flags.
Proof.
  intros Ht Hf. rewrite wrap_shiftl by lia. rewrite lor_disjoint by lia.
  change (2 ^ 4) with 16. split; [apply b2z_z2b_u8; unfold is_u8; lia|]. split.
  - rewrite Z.shiftr_div_pow2 by lia. change (2 ^ 4) with 16.
    rewrite Z.div_add_l by lia. rewrite Z.div_small by lia. lia.
  - change 0x0f with (Z.ones 4). rewrite Z.land_ones by lia. change (2 ^ 4) with 16.
    rewrite Z.add_comm, Z.mod_add by lia. by apply Z.mod_small.
Qed.

(** ** Bodies *)

(** Prepare a body for field-by-field parsing. *)
Ltac parse_body := rewrite <-?app_assoc.

Lemma connack_roundtrip p body :
  wf_packet (PConnAck p) → encodeConnack p = Ok body →
  parses_end decodeConnack body
    (mkConnAck (Some (norm_connack (default emptyConnAckProperties (coa_Properties p))))
       (coa_ReasonCode p) (coa_SessionPresent p)).
Proof.
  cbn. unfold encodeConnack. intros Hwf H. inv_ok. destruct a.
  pose proof (validateReason_u8 _ _ E) as Hu.
  unfold decodeConnack. apply parses_to_end.
  eapply parses_bind; [apply parses_readByte; unfold is_u8; case_match; lia|].
  apply parses_guard; [by destruct (coa_SessionPresent p)|].
  eapply parses_bind; [by apply parses_readByte|].
  eapply parses_lift; [done|]. apply parses_guard.
  { destruct (coa_SessionPresent p); [|by rewrite andb_false_r]. cbn.
    by rewrite andb_true_r in *. }
  replace (negb _) with (coa_SessionPresent p) by (by destruct (coa_SessionPresent p)).
  apply (parses_map _ (λ q, mkConnAck (Some q) _ _)). by apply parses_connack_props.
Qed.

Lemma ack_roundtrip packetType mk p body :
  reason_ctor mk → is_u16 (ack_PacketID p) →
  encodeAck packetType (ack_PacketID p) (ack_ReasonCode p) (mk <$> ack_Properties p) = Ok body →
  parses_end (decodeAck packetType mk) body (norm_ack p).
Proof.
  intros Hmk Hid. unfold encodeAck, decodeAck, norm_ack. intros H.
  apply bind_Ok_inv in H as (? & Hnz & H). apply bind_Ok_inv in H as ([] & Hr & H).
  apply bind_Ok_inv in H as (pb & Hp & H). apply check_Ok_inv in Hnz.
  pose proof (validateReason_u8 _ _ Hr) as Hu.
  pose proof (encodeProperties_nonempty _ _ _ Hp) as Hne.
  assert (length pb = 1%nat → default emptyReasonProperties (ack_Properties p) = emptyReasonProperties)
    as Hempty.
  { intros Hl. pose proof (opt_props_length1 packetType mk (ack_Properties p) emptyReasonProperties
      pb Hp Hl) as Hn.
    destruct Hmk as [-> |[-> |[-> |[-> |[-> | ->]]]]]; cbn in Hn;
      specialize (Hn (λ _, eq_refl) eq_refl); by injection Hn. }
  destruct ((ack_ReasonCode p =? 0) && bool_decide (length pb = 1%nat)) eqn:Hc.
  - (* reason and properties omitted *)
    apply andb_true_iff in Hc as [Hz%Z.eqb_eq Hl%bool_decide_eq_true].
    inv_ok. rewrite <-(app_nil_r (writeUint16 _)).
    eapply parses_bind_end; [by apply parses_readUint16|].
    apply parses_end_guard; [done|]. apply parses_end_remaining. cbn [length].
    rewrite <-(app_nil_l []). eapply parses_bind_end; [apply parses_ret|].
    apply parses_end_remaining. cbn [length].
    rewrite <-(app_nil_l []). eapply parses_bind_end; [apply parses_ret|].
    rewrite Hempty, Hz by done. apply parses_end_ret.
  - case_bool_decide as Hl; inv_ok; parse_body;
      (eapply parses_bind_end; [by apply parses_readUint16|]);
      (apply parses_end_guard; [done|]); apply parses_end_remaining;
      [rewrite length_app|]; cbn [length]; zcase.
    + eapply parses_bind_end.
      { rewrite <-(app_nil_r [_]). eapply parses_bind; [by apply parses_readByte|].
        eapply parses_lift; [done|]. apply parses_ret. }
      apply parses_end_remaining. zcase. apply parses_to_end.
      apply (parses_map _ (λ q, mkAck (Some q) _ _)). by apply parses_reason_props.
    + rewrite <-(app_nil_r [_]). eapply parses_bind_end.
      { rewrite <-(app_nil_r [_]). eapply parses_bind; [by apply parses_readByte|].
        eapply parses_lift; [done|]. apply parses_ret. }
      apply parses_end_remaining. cbn [length].
      rewrite <-(app_nil_l []). eapply parses_bind_end; [apply parses_ret|].
      rewrite Hempty by lia. apply parses_end_ret.
Qed.

Lemma norm_publish_alias p : pup_TopicAlias (norm_publish p) = pup_TopicAlias p.
Proof. by destruct p. Qed.

Lemma parses_packetID (qos id : Z) (e : WireError) :
  is_u16 id → (qos ≤ 0 → id = 0) → (0 < qos → id ≠ 0) →
  parses (if 0 <? qos then
            x ← readUint16 "packet identifier"; _ ← guard_not (x =? 0) e; mret x
          else mret 0)
    (if 0 <? qos then writeUint16 id else []) id.
Proof.
  intros Hid H0 H1. destruct (Z.ltb_spec 0 qos).
  - rewrite <-(app_nil_r (writeUint16 id)). eapply parses_bind; [by apply parses_readUint16|].
    apply parses_guard; [apply Z.eqb_neq; auto|]. apply parses_ret.
  - rewrite H0 by done. apply parses_ret.
Qed.

Lemma publish_roundtrip p body :
  wf_packet (PPublish p) → (pub_QoS p = 0 → pub_Duplicate p = false) →
  encodePublish p = Ok body →
  parses_end (decodePublish (publishFlags p)) body
    (mkPublish (pub_Payload p) (pub_Topic p)
       (Some (norm_publish (default emptyPublishProperties (pub_Properties p))))
       (pub_PacketID p) (pub_QoS p) (pub_Duplicate p) (pub_Retain p)).
Proof.
  cbn. intros (Hq & Hid & Hwf) Hdup H. unfold encodePublish in H.
  apply bind_Ok_inv in H as ([] & H3%check_Ok_inv & H).
  apply bind_Ok_inv in H as ([] & H0%check_Ok_inv & H).
  apply bind_Ok_inv in H as ([] & Hn%check_Ok_inv & H).
  apply bind_Ok_inv in H as ([] & Ht & H).
  apply bind_Ok_inv in H as (tb & Htb & H). apply bind_Ok_inv in H as (pb & Hpb & H). inv_ok.
  destruct (publish_header_bits p Hq Hdup) as (_ & Hd & Hqos & Hr).
  unfold decodePublish. rewrite Hd, Hqos, Hr. clear Hd Hqos Hr. apply parses_end_guard; [done|].
  eapply parses_bind_end; [by eapply parses_readString|].
  eapply parses_bind_end.
  { apply parses_packetID; [done| |].
    - intros ?. apply andb_false_iff in H0 as [H0%Z.eqb_neq|H0%negb_false_iff]; [lia|].
      by apply Z.eqb_eq.
    - intros ? Hz. rewrite Hz in Hn. apply andb_false_iff in Hn as [Hn%Z.ltb_ge|Hn]; [lia|done]. }
  eapply parses_bind_end; [apply parses_publish_props; [by left|done..]|].
  eapply parses_end_lift.
  { rewrite norm_publish_alias. case_bool_decide; [|exact Ht].
    destruct (pub_Properties p); [exact Ht|done]. }
  rewrite <-(app_nil_r (pub_Payload p)) at 1.
  intros c Hc Hrest. rewrite app_nil_r in *.
  unfold mbind, decoder_mbind. rewrite (parses_readRest (pub_Payload p)) by done. done.
Qed.

Lemma parses_optional {A} (cond : bool) (m : decoder A) (enc : result WireError (list byte)) bs v d :
  (if cond then enc else Ok []) = Ok bs → (enc = Ok bs → parses m bs v) →
  parses (if cond then m else mret d) bs (if cond then v else d).
Proof. destruct cond; [auto|]. intros <-%Ok_inj _. apply parses_ret. Qed.

Lemma connect_will_roundtrip p will :
  opt_in (λ q, wf_props (PropsPublish q)) (con_WillProperties p) →
  (if con_WillFlag p then
     willProps ← encodeProperties WILLPROPERTIES (PropsPublish <$> con_WillProperties p);
     _ ← validateTopicName CONNECT "will topic" (con_WillTopic p) false;
     willTopic ← writeString CONNECT "will topic" (con_WillTopic p);
     willMessage ← writeBinary CONNECT "will message" (con_WillMessage p);
     mret (willProps ++ willTopic ++ willMessage)
   else Ok []) = Ok will →
  parses
    (if con_WillFlag p then
       wp ← decodePublishProps WILLPROPERTIES;
       wt ← readString "will topic";
       _ ← lift (validateTopicName CONNECT "will topic" wt false);
       wm ← readBinary "will message";
       mret (Some wp, wt, wm)
     else mret (None, "", [])) will
    (if con_WillFlag p
     then Some (norm_publish (default emptyPublishProperties (con_WillProperties p))) else None,
     if con_WillFlag p then con_WillTopic p else "",
     if con_WillFlag p then con_WillMessage p else []).
Proof.
  intros Hwf H. destruct (con_WillFlag p); [|apply Ok_inj in H as <-; apply parses_ret].
  apply bind_Ok_inv in H as (wb & Hwb & H). apply bind_Ok_inv in H as ([] & Ht & H).
  apply bind_Ok_inv in H as (tb & Htb & H). apply bind_Ok_inv in H as (mb & Hmb & H). inv_ok.
  eapply parses_bind; [apply parses_publish_props; [by right|done..]|].
  eapply parses_bind; [by eapply parses_readString|].
  eapply parses_lift; [done|].
  apply (parses_map _ (λ wm, (Some _, _, wm))). by eapply parses_readBinary.
Qed.

Lemma connect_roundtrip p body :
  wf_packet (PConnect p) → encodeConnect p = Ok body →
  parses_end decodeConnect body (norm_connect_packet p).
Proof.
  cbn. intros (Hka & Hwq & Hcp & Hwp) H. unfold encodeConnect in H.
  apply bind_Ok_inv in H as ([] & Hval & H).
  apply bind_Ok_inv in H as ([] & Hname%check_Ok_inv & H).
  apply bind_Ok_inv in H as ([] & Hver%check_Ok_inv & H).
  apply bind_Ok_inv in H as (nb & Hnb & H). apply bind_Ok_inv in H as (pb & Hpb & H).
  apply bind_Ok_inv in H as (cb & Hcb & H). apply bind_Ok_inv in H as (wb & Hwb & H).
  apply bind_Ok_inv in H as (ub & Hub & H). apply bind_Ok_inv in H as (sb & Hsb & H). inv_ok.
  destruct (unpack_PackFlags p Hwq Hval) as [Hu8 Hunpack].
  assert (con_ProtocolVersion p = 5) as Hv5 by (by apply negb_false_iff, Z.eqb_eq in Hver).
  unfold decodeConnect. apply parses_to_end.
  eapply parses_bind; [by eapply parses_readString|]. apply parses_guard; [done|].
  eapply parses_bind; [apply parses_readByte; rewrite Hv5; done|].
  apply parses_guard; [by rewrite Hv5|].
  eapply parses_bind; [by apply parses_readByte|].
  eapply parses_lift; [exact Hunpack|]. cbn [cf_WillFlag cf_UsernameFlag cf_PasswordFlag
    cf_WillQOS cf_WillRetain cf_CleanStart].
  eapply parses_bind; [by apply parses_readUint16|].
  eapply parses_bind; [by apply parses_connect_props|].
  eapply parses_bind; [by eapply parses_readString|].
  eapply parses_bind; [by apply connect_will_roundtrip|]. cbn beta iota.
  eapply parses_bind.
  { eapply parses_optional; [exact Hub|]. intros. by eapply parses_readString. }
  apply (parses_map _ (λ pw, mkConnect _ pw _ _ _ _ _ _ _ _ _ _ _ _ _ _)).
  eapply parses_optional; [exact Hsb|]. intros. by eapply parses_readBinary.
Qed.

Lemma writeString_nonempty packet field s bs :
  writeString packet field s = Ok bs → (2 ≤ length bs)%nat.
Proof.
  unfold writeString. repeat (case_match; try done). intros <-%Ok_inj. cbn. lia.
Qed.

Lemma subscription_roundtrip s b :
  is_u8 (sub_QoS s) → is_u8 (sub_RetainHandling s) → encodeSubscription s = Ok b →
  parses decodeSubscription b s ∧ (1 ≤ length b)%nat.
Proof.
  intros Hq Hr H. unfold encodeSubscription in H.
  apply bind_Ok_inv in H as ([] & Ht & H). apply bind_Ok_inv in H as ([] & Hv & H).
  apply bind_Ok_inv in H as (tb & Htb & H). inv_ok.
  destruct (unpack_Pack s Hq Hr Hv) as (Hu & Eq & Er & En & Ea & Ec & Lq & Lr).
  split; [|rewrite length_app; cbn; lia]. unfold decodeSubscription.
  eapply parses_bind; [by eapply parses_readString|].
  rewrite <-(app_nil_r [_]). eapply parses_bind; [by apply parses_readByte|].
  cbn [sub_QoS sub_RetainHandling]. rewrite Eq, Er, En, Ea.
  apply parses_guard; [apply Z.eqb_neq; lia|]. apply parses_guard; [apply Z.eqb_neq; lia|].
  apply parses_guard; [by rewrite Ec|]. eapply parses_lift; [done|].
  destruct s. apply parses_ret.
Qed.

Lemma parses_end_map {A B} (m : decoder A) (g : A → B) bs a :
  parses_end m bs a → parses_end (m ≫= λ x, mret (g x)) bs (g a).
Proof. intros Hm c Hc Hr. unfold mbind, decoder_mbind. by rewrite Hm. Qed.

(** The decoder's last payload loop, followed by the check that it is not empty. *)
Lemma parses_end_nonempty {A B} (m : decoder (list A)) (g : list A → B) e bs (xs : list A) :
  parses_end m bs xs → bool_decide (length xs = 0%nat) = false →
  parses_end (ys ← m; _ ← guard_not (bool_decide (length ys = 0%nat)) e; mret (g ys)) bs (g xs).
Proof.
  intros Hm He c Hc Hr. unfold mbind, decoder_mbind. rewrite Hm by done.
  unfold guard_not. by rewrite He.
Qed.

Lemma subscribe_roundtrip p body :
  wf_packet (PSubscribe p) → encodeSubscribe p = Ok body →
  parses_end decodeSubscribe body
    (mkSubscribe (Some (default emptySubscribeProperties (sbs_Properties p)))
       (sbs_Subscriptions p) (sbs_PacketID p)).
Proof.
  cbn. intros (Hid & Hsubs) H. unfold encodeSubscribe in H.
  apply bind_Ok_inv in H as ([] & Hz%check_Ok_inv & H).
  apply bind_Ok_inv in H as ([] & He%check_Ok_inv & H).
  apply bind_Ok_inv in H as (pb & Hpb & H). apply bind_Ok_inv in H as (sb & Hsb & H). inv_ok.
  unfold decodeSubscribe. eapply parses_bind_end; [by apply parses_readUint16|].
  apply parses_end_guard; [done|].
  eapply parses_bind_end; [by apply parses_subscribe_props|].
  apply (parses_end_nonempty _ (λ subs, mkSubscribe _ subs _)); [|done].
  eapply parses_decodeAll; [done|]. intros s b Hs Hb.
  rewrite Forall_forall in Hsubs. destruct (Hsubs s Hs). by apply subscription_roundtrip.
Qed.

Lemma unsubscribe_roundtrip p body :
  wf_packet (PUnsubscribe p) → encodeUnsubscribe p = Ok body →
  parses_end decodeUnsubscribe body
    (mkUnsubscribe (uns_Topics p)
       (Some (default emptyUnsubscribeProperties (uns_Properties p))) (uns_PacketID p)).
Proof.
  cbn. intros Hid H. unfold encodeUnsubscribe in H.
  apply bind_Ok_inv in H as ([] & Hz%check_Ok_inv & H).
  apply bind_Ok_inv in H as ([] & He%check_Ok_inv & H).
  apply bind_Ok_inv in H as (pb & Hpb & H). apply bind_Ok_inv in H as (sb & Hsb & H). inv_ok.
  unfold decodeUnsubscribe. eapply parses_bind_end; [by apply parses_readUint16|].
  apply parses_end_guard; [done|].
  eapply parses_bind_end; [by apply parses_unsubscribe_props|].
  apply (parses_end_nonempty _ (λ ts, mkUnsubscribe ts _ _)); [|done].
  eapply parses_decodeAll; [done|]. intros t b _ Hb. unfold encodeUnsubTopic in Hb.
  apply bind_Ok_inv in Hb as ([] & Hf & Hb). split; [|apply writeString_nonempty in Hb; lia].
  unfold decodeUnsubTopic. rewrite <-(app_nil_r b).
  eapply parses_bind; [by eapply parses_readString|]. eapply parses_lift; [done|]. apply parses_ret.
Qed.

Lemma validateReasons_bytes packetType reasons :
  validateReasons packetType reasons = Ok tt → b2z <$> (z2b <$> reasons) = reasons.
Proof.
  induction reasons as [|r rs IH]; cbn; [done|]. intros H.
  apply bind_Ok_inv in H as ([] & Hr & H). f_equal; [|by apply IH].
  by apply b2z_z2b_u8, (validateReason_u8 packetType).
Qed.

Lemma codelist_roundtrip packetType mk p body :
  reason_ctor mk → is_u16 (cdl_PacketID p) →
  encodeCodeList packetType (cdl_PacketID p) (mk <$> cdl_Properties p) (cdl_Reasons p) = Ok body →
  parses_end (decodeCodeList packetType mk) body (norm_codes p).
Proof.
  intros Hmk Hid H. unfold encodeCodeList in H.
  apply bind_Ok_inv in H as ([] & Hz%check_Ok_inv & H).
  apply bind_Ok_inv in H as ([] & He%check_Ok_inv & H).
  apply bind_Ok_inv in H as ([] & Hr & H). apply bind_Ok_inv in H as (pb & Hpb & H). inv_ok.
  unfold decodeCodeList. eapply parses_bind_end; [by apply parses_readUint16|].
  apply parses_end_guard; [done|].
  eapply parses_bind_end; [by apply parses_reason_props|].
  intros c Hc Hrest. unfold mbind, decoder_mbind. rewrite (parses_readRest _ c Hc Hrest).
  rewrite (validateReasons_bytes _ _ Hr). unfold guard_not, lift. by rewrite He, Hr.
Qed.

(** DISCONNECT and AUTH: the reason code and the properties may be left out. *)
Lemma reason_packet_roundtrip {A P} packetType (mk : A → Properties) (o : option A) (e nv : A)
    reason body (dec : decoder A) (ctor : option A → Z → P) :
  encodeReasonPacket packetType reason (mk <$> o) = Ok body →
  (∀ bs, encodeProperties packetType (mk <$> o) = Ok bs →
     parses dec bs nv ∧ (length bs = 1%nat → nv = e)) →
  parses_end
    (n ← get_remaining;
     if n =? 0 then mret (ctor (Some e) 0)
     else
       rc ← readByte "reason code";
       _ ← lift (validateReason packetType rc);
       n ← get_remaining;
       props ← (if 0 <? n then dec else mret e);
       mret (ctor (Some props) rc)) body (ctor (Some nv) reason).
Proof.
  intros H Hdec. unfold encodeReasonPacket in H.
  apply bind_Ok_inv in H as ([] & Hr & H). apply bind_Ok_inv in H as (pb & Hpb & H).
  destruct (Hdec pb Hpb) as [Hp He]. pose proof (encodeProperties_nonempty _ _ _ Hpb) as Hne.
  pose proof (validateReason_u8 _ _ Hr) as Hu. apply parses_end_remaining.
  destruct ((reason =? 0) && bool_decide (length pb = 1%nat)) eqn:Hc.
  - apply andb_true_iff in Hc as [Hz%Z.eqb_eq Hl%bool_decide_eq_true]. inv_ok.
    rewrite He by done. apply parses_end_ret.
  - case_bool_decide as Hl; inv_ok; cbn [length app].
    + zcase. change (?b :: pb) with ([b] ++ pb).
      eapply parses_bind_end; [by apply parses_readByte|]. eapply parses_end_lift; [done|].
      apply parses_end_remaining. zcase. apply parses_to_end.
      by apply (parses_map _ (λ q, ctor (Some q) reason)).
    + cbn. rewrite <-(app_nil_r [_]).
      eapply parses_bind_end; [by apply parses_readByte|]. eapply parses_end_lift; [done|].
      apply parses_end_remaining. cbn. rewrite He by lia. apply parses_end_ret.
Qed.

Lemma disconnect_roundtrip p body :
  wf_packet (PDisconnect p) →
  encodeReasonPacket DISCONNECT (dis_ReasonCode p) (PropsDisconnect <$> dis_Properties p) = Ok body →
  parses_end decodeDisconnect body
    (mkDisconnect (Some (default emptyDisconnectProperties (dis_Properties p))) (dis_ReasonCode p)).
Proof.
  cbn. intros Hwf H. eapply (reason_packet_roundtrip _ _ _ _ _ _ _ _ mkDisconnect); [done|].
  intros bs Hbs. split; [by apply parses_disconnect_props|]. intros Hl.
  pose proof (opt_props_length1 _ PropsDisconnect _ emptyDisconnectProperties _ Hbs Hl
    (λ _, eq_refl) eq_refl) as Hn. cbn in Hn. by injection Hn.
Qed.

Lemma auth_roundtrip p body :
  encodeReasonPacket AUTH (aut_ReasonCode p) (PropsAuth <$> aut_Properties p) = Ok body →
  parses_end decodeAuth body
    (mkAuth (Some (norm_auth (default emptyAuthProperties (aut_Properties p)))) (aut_ReasonCode p)).
Proof.
  intros H. eapply (reason_packet_roundtrip _ _ _ _ _ _ _ _ mkAuth); [done|].
  intros bs Hbs. split; [by apply parses_auth_props|]. intros Hl.
  pose proof (opt_props_length1 _ PropsAuth _ emptyAuthProperties _ Hbs Hl
    (λ _, eq_refl) eq_refl) as Hn. cbn in Hn. by injection Hn.
Qed.

(** ** Frames *)

Lemma body_roundtrip p flags body :
  wf_packet p → fixedHeaderFlags p = Ok flags → encodePacket p = Ok body →
  parses_end (decodeBody (PacketType p) flags) body (norm_packet p).
Proof.
  intros Hwf Hf H.
  destruct p; cbn in H; unfold decodeBody; cbn [PacketType]; cbn [Z.eqb CONNECT CONNACK PUBLISH
    PUBACK PUBREC PUBREL PUBCOMP SUBSCRIBE SUBACK UNSUBSCRIBE UNSUBACK PINGREQ PINGRESP DISCONNECT
    AUTH Pos.eqb]; cbn [norm_packet];
    try (apply Ok_inj in H as <-; apply parses_end_remaining; apply parses_end_guard;
         [done|apply parses_end_ret]); apply parses_end_map.
  - by apply connect_roundtrip.
  - by apply connack_roundtrip.
  - cbn in Hf. destruct (pub_QoS p =? 3); [done|].
    destruct ((pub_QoS p =? 0) && pub_Duplicate p) eqn:Hd; [done|]. apply Ok_inj in Hf as <-.
    apply publish_roundtrip; [done| |done]. intros Hq. rewrite Hq in Hd. done.
  - apply ack_roundtrip; unfold reason_ctor; tauto.
  - apply ack_roundtrip; unfold reason_ctor; tauto.
  - apply ack_roundtrip; unfold reason_ctor; tauto.
  - apply ack_roundtrip; unfold reason_ctor; tauto.
  - by apply subscribe_roundtrip.
  - apply codelist_roundtrip; unfold reason_ctor; tauto.
  - by apply unsubscribe_roundtrip.
  - apply codelist_roundtrip; unfold reason_ctor; tauto.
  - by apply disconnect_roundtrip.
  - by apply auth_roundtrip.
Qed.

Lemma decodePacket_encode p flags body :
  wf_packet p → fixedHeaderFlags p = Ok flags → encodePacket p = Ok body →
  decodePacket (PacketType p) flags body = Ok (norm_packet p).
Proof.
  intros Hwf Hf H. unfold decodePacket.
  rewrite (body_roundtrip p flags body Hwf Hf H); [|unfold cur_ok; cbn; lia|done].
  unfold remaining, adv. cbn. by rewrite Z.sub_diag.
Qed.

Lemma fixedHeaderFlags_range p flags :
  wf_packet p → fixedHeaderFlags p = Ok flags → 0 ≤ flags < 16.
Proof.
  destruct p; cbn; try (intros _ <-%Ok_inj; lia). intros [Hq _].
  destruct (pub_QoS p =? 3); [done|].
  destruct ((pub_QoS p =? 0) && pub_Duplicate p) eqn:Hd; [done|]. intros <-%Ok_inj.
  apply (publish_header_bits p Hq). intros Hz. by rewrite Hz in Hd.
Qed.

Lemma PacketType_range p : 1 ≤ PacketType p ≤ 15.
Proof. by destruct p; vm_compute. Qed.

(** What a successful [Encode] computed. *)
Lemma Encode_inv max cp bs :
  Encode max (Some cp) = Ok bs →
  ∃ p flags body rl, CanonicalPacket cp = Some p ∧ fixedHeaderFlags p = Ok flags ∧
    validateFixedHeaderFlags (PacketType p) flags = Ok tt ∧ encodePacket p = Ok body ∧
    encodeRemainingLength (Z.of_nat (length body)) = Ok rl ∧
    ((0 <? max) && (max <? 1 + Z.of_nat (length rl) + Z.of_nat (length body))) = false ∧
    (fh_Type (cp_FixedHeader cp) = 0 ∨ fh_Type (cp_FixedHeader cp) = PacketType p) ∧
    bs = [z2b (Z.lor (wrap 8 (Z.shiftl (PacketType p) 4)) flags)] ++ rl ++ body.
Proof.
  unfold Encode. destruct (CanonicalPacket cp) as [p|]; [|done]. intros H.
  apply bind_Ok_inv in H as ([] & Ht%check_Ok_inv & H). apply bind_Ok_inv in H as (flags & Hf & H).
  apply bind_Ok_inv in H as ([] & Hv & H). apply bind_Ok_inv in H as (body & Hb & H).
  apply bind_Ok_inv in H as ([] & Hm%check_Ok_inv & H). apply bind_Ok_inv in H as (rl & Hrl & H).
  apply bind_Ok_inv in H as ([] & Hs%check_Ok_inv & H). inv_ok.
  exists p, flags, body, rl. split_and!; try done.
  apply andb_false_iff in Ht as [Ht|Ht]; apply negb_false_iff, Z.eqb_eq in Ht; auto.
Qed.

Lemma ReadFull_app bs tl : ReadFull (length bs) (bs ++ tl) = Ok (bs, tl).
Proof.
  unfold ReadFull. rewrite bool_decide_eq_true_2 by (rewrite length_app; lia).
  by rewrite take_app_length, drop_app_length.
Qed.

(** Reading the fixed header of an encoded frame. *)
Lemma Decode_header max p flags rl n tl :
  wf_packet p → fixedHeaderFlags p = Ok flags →
  validateFixedHeaderFlags (PacketType p) flags = Ok tt → encodeRemainingLength n = Ok rl →
  Decode max ([z2b (Z.lor (wrap 8 (Z.shiftl (PacketType p) 4)) flags)] ++ rl ++ tl) =
    let total := 1 + Z.of_nat (length rl) + n in
    if (0 <? max) && (max <? total) then Err (WireErr (tooLarge (PacketType p) total max))
    else match ReadFull (Z.to_nat n) tl with
         | Err e => Err (classifyReadError (PacketType p) "body" (IOErr e))
         | Ok (body, r) =>
             match decodePacket (PacketType p) flags body with
             | Err e => Err (WireErr e)
             | Ok content =>
                 Ok (mkControlPacket (Some content) (Some content)
                       (mkFixedHeader (PacketType p) flags n), r)
             end
         end.
Proof.
  intros Hwf Hf Hv Hrl. pose proof (PacketType_range p) as Ht.
  pose proof (fixedHeaderFlags_range p flags Hwf Hf) as Hfr.
  destruct (header_byte (PacketType p) flags Ht Hfr) as (Hb & Hsh & Hla).
  unfold Decode. cbn [app]. rewrite ReadFull_1, Hb, Hsh, Hla.
  replace ((PacketType p <? CONNECT) || (AUTH <? PacketType p)) with false
    by (symmetry; apply orb_false_iff; rewrite !Z.ltb_ge; unfold CONNECT, AUTH; lia).
  rewrite Hv. by rewrite (readRemainingLength_app n rl tl Hrl).
Qed.

(** ** Theorems *)

Lemma decode_encoded max cp p bs tl :
  CanonicalPacket cp = Some p → wf_packet p → Encode max (Some cp) = Ok bs →
  ∃ b flags rl body, fixedHeaderFlags p = Ok flags ∧ encodeRemainingLength (Z.of_nat (length body)) = Ok rl ∧
    bs = [b] ++ rl ++ body ∧
    Decode max (bs ++ tl) =
      Ok (mkControlPacket (Some (norm_packet p)) (Some (norm_packet p))
            (mkFixedHeader (PacketType p) flags (Z.of_nat (length body))), tl).
Proof.
  intros Hcp Hwf H. destruct (Encode_inv _ _ _ H) as (p' & flags & body & rl & Hp & Hf & Hv & Hb & Hrl & Hs & _ & ->).
  rewrite Hcp in Hp. injection Hp as <-. eexists _, flags, rl, body. split_and!; [done..|].
  rewrite <-!app_assoc, (Decode_header max p flags rl _ (body ++ tl) Hwf Hf Hv Hrl). cbv zeta. rewrite Hs, Nat2Z.id, ReadFull_app.
  by rewrite (decodePacket_encode p flags body) by done.
Qed.

(** C7. Decoding inverts encoding.  If [Encode] accepts a control packet whose
    integer fields fit their types, then [Decode] with the same size limit, on
    any stream starting with the produced bytes, returns that packet (nil
    property structs as empty ones, fields behind a cleared CONNECT flag
    dropped, empty binary properties absent) with the fixed header it was
    framed with, and leaves exactly the bytes after the frame. *)
Theorem Decode_Encode max cp p bs tl :
  CanonicalPacket cp = Some p → wf_packet p → Encode max (Some cp) = Ok bs →
  ∃ hdr, Decode max (bs ++ tl) =
           Ok (mkControlPacket (Some (norm_packet p)) (Some (norm_packet p)) hdr, tl) ∧
    fh_Type hdr = PacketType p ∧ fixedHeaderFlags p = Ok (fh_Flags hdr) ∧
    Z.of_nat (length bs) = 1 + minimalVBIBytes (fh_RemainingLength hdr) + fh_RemainingLength hdr.
Proof.
  intros Hcp Hwf H. destruct (decode_encoded _ _ _ _ tl Hcp Hwf H) as (b & flags & rl & body & Hf & Hrl & -> & Hd).
  eexists. split_and!; [exact Hd|done..|]. cbn [fh_RemainingLength].
  rewrite <-(encodeRemainingLength_width _ _ Hrl), !length_app. cbn [length]. lia.
Qed.

Definition sample_publish : Publish :=
  mkPublish (go_bytes "21.5") "home/kitchen/temp"
    (Some (mkPublishProperties (Some 1) (Some 60) None "text/plain" "" None None [] [mkUser "k" "v"]))
    10 1 true false.

Lemma Decode_Encode_witness :
  ∃ bs hdr, Encode 0 (Some (ToControlPacket sample_publish)) = Ok bs ∧
    Decode 0 (bs ++ go_bytes "rest") =
      Ok (mkControlPacket (Some (norm_packet (PPublish sample_publish)))
            (Some (norm_packet (PPublish sample_publish))) hdr, go_bytes "rest").
Proof.
  destruct (Encode 0 (Some (ToControlPacket sample_publish))) as [bs|] eqn:Hbs;
    [|vm_compute in Hbs; discriminate].
  destruct (Decode_Encode 0 (ToControlPacket sample_publish) (PPublish sample_publish) bs
    (go_bytes "rest")) as (hdr & Hd & _).
  - reflexivity.
  - cbn. unfold is_u16, is_u8, is_u32. split_and!; lia || done.
  - exact Hbs.
  - exists bs, hdr. split; [reflexivity|exact Hd].
Defined.

(** A truncated frame is never decoded: for every strict prefix of the bytes
    [Encode] produced, [Decode] fails; with no byte at all it reports [io.EOF],
    otherwise the error of the read that ran out. *)
Theorem Decode_truncated max cp p bs k :
  CanonicalPacket cp = Some p → wf_packet p → Encode max (Some cp) = Ok bs →
  (k < length bs)%nat →
  ∃ e, Decode max (take k bs) = Err e ∧ (k = 0%nat → e = IOErr EOF) ∧ ((0 < k)%nat → ∃ w, e = WireErr w).
Proof.
  intros Hcp Hwf H Hk.
  destruct (Encode_inv _ _ _ H) as (p' & flags & body & rl & Hp & Hf & Hv & Hb & Hrl & Hs & _ & ->).
  rewrite Hcp in Hp. injection Hp as <-. rewrite !length_app in Hk. cbn [length] in Hk.
  destruct k as [|k].
  { exists (IOErr EOF). split_and!; [done|done|lia]. }
  cbn [app take].
  destruct (decide (length rl ≤ k)%nat) as [Hle|Hlt].
  - rewrite take_app_ge by lia.
    change (?b :: rl ++ ?t) with ([b] ++ rl ++ t). rewrite (Decode_header max p flags rl _ _ Hwf Hf Hv Hrl).
    cbv zeta. rewrite Hs. rewrite Nat2Z.id.
    destruct (ReadFull (length body) (take (k - length rl) body)) as [[b r]|e] eqn:Hr.
    + unfold ReadFull in Hr. rewrite bool_decide_eq_false_2 in Hr by (rewrite length_take; lia).
      revert Hr. by case_bool_decide.
    + eexists. split; [done|]. split; [done|]. cbn. eauto.
  - rewrite take_app_le by lia.
    destruct (readRemainingLength_prefix _ rl k Hrl) as [e He]; [lia|].
    pose proof (PacketType_range p) as Ht.
    pose proof (fixedHeaderFlags_range p flags Hwf Hf) as Hfr.
    destruct (header_byte (PacketType p) flags Ht Hfr) as (Hbyte & Hsh & Hla).
    unfold Decode. rewrite ReadFull_1, Hbyte, Hsh, Hla.
    replace ((PacketType p <? CONNECT) || (AUTH <? PacketType p)) with false
      by (symmetry; apply orb_false_iff; rewrite !Z.ltb_ge; unfold CONNECT, AUTH; lia).
    rewrite Hv, He. eexists. split; [done|]. split; [done|]. intros _. destruct e; cbn; eauto.
Qed.

Lemma Decode_truncated_witness :
  ∃ bs, Encode 0 (Some (ToControlPacket sample_publish)) = Ok bs ∧
    ∃ e, Decode 0 (take 7 bs) = Err (WireErr e).
Proof.
  destruct (Encode 0 (Some (ToControlPacket sample_publish))) as [bs|] eqn:Hbs;
    [|vm_compute in Hbs; discriminate].
  exists bs. split; [reflexivity|].
  destruct (Decode_truncated 0 (ToControlPacket sample_publish) (PPublish sample_publish) bs 7)
    as (e & He & _ & Hw).
  - reflexivity.
  - cbn. unfold is_u16, is_u8, is_u32. split_and!; lia || done.
  - exact Hbs.
  - vm_compute in Hbs. apply Ok_inj in Hbs as <-. cbn. lia.
  - destruct Hw as [w ->]; [lia|]. by exists w.
Defined.

(** The limit only adds a test of the length of what would be sent. *)
Lemma Encode_limit max cp :
  0 < max →
  Encode max cp =
    match Encode 0 cp with
    | Err e => Err e
    | Ok bs =>
        if max <? Z.of_nat (length bs)
        then Err (tooLarge (match cp ≫= CanonicalPacket with Some p => PacketType p | None => 0 end)
                    (Z.of_nat (length bs)) max)
        else Ok bs
    end.
Proof.
  intros Hmax. destruct cp as [cp|]; [|done]. unfold Encode. cbn [option_bind mbind].
  change (Some cp ≫= CanonicalPacket) with (CanonicalPacket cp).
  destruct (CanonicalPacket cp) as [p|]; [|done]. cbv zeta.
  change (0 <? 0) with false. rewrite (proj2 (Z.ltb_lt 0 max)) by done. cbn [andb].
  repeat (match goal with |- ?m ≫= _ = _ => destruct m; cbn [mbind result_mbind result_bind]; [|done] end).
  unfold check. cbn. rewrite length_app, Nat2Z.inj_succ, Nat2Z.inj_add.
  match goal with |- context [max <? ?n] => replace n with
    (Z.succ (Z.of_nat (length a4) + Z.of_nat (length a2))) by lia end.
  by destruct (max <? _).
Qed.

(** The size limit: what [Encode] produces is never longer than the
    configured maximum (when one is set) nor than the protocol's [268435460]
    bytes, and [CheckPacketSizeWithMax] with a positive maximum accepts
    precisely the packets [Encode] accepts under that maximum. *)
Theorem CheckPacketSizeWithMax_Encode packet max :
  0 < max →
  (CheckPacketSizeWithMax packet max = Ok tt ↔ is_Ok (Encode max packet)) ∧
  (∀ bs, Encode max packet = Ok bs →
     2 ≤ Z.of_nat (length bs) ≤ max ∧ Z.of_nat (length bs) ≤ 268435460).
Proof.
  intros Hmax. split.
  - rewrite Encode_limit by done. unfold CheckPacketSizeWithMax, calculatePacketSize, is_Ok.
    destruct (Encode 0 packet) as [bs|e]; cbn; [|split; [done|by intros []]].
    destruct (max <? _); split; eauto; [done|by intros []].
  - intros bs H. destruct packet as [cp|]; [|done].
    destruct (Encode_inv _ _ _ H) as (p & flags & body & rl & _ & _ & _ & _ & Hrl & Hs & _ & ->).
    pose proof (encodeRemainingLength_width _ _ Hrl) as Hw.
    unfold encodeRemainingLength in Hrl. case_if_in Hrl; [done|]. bool_arith.
    rewrite (proj2 (Z.ltb_lt 0 max)) in Hs by done. cbn [andb] in Hs. apply Z.ltb_ge in Hs.
    assert (1 ≤ minimalVBIBytes (Z.of_nat (length body)) ≤ 4)
      by (unfold minimalVBIBytes; repeat case_match; lia).
    unfold maxRemainingLength in *. rewrite !length_app. cbn [length]. lia.
Qed.

Lemma CheckPacketSizeWithMax_Encode_witness :
  CheckPacketSizeWithMax (Some (ToControlPacket sample_publish)) 100 = Ok tt ∧
  is_Ok (Encode 100 (Some (ToControlPacket sample_publish))).
Proof.
  split; [reflexivity|].
  apply (CheckPacketSizeWithMax_Encode (Some (ToControlPacket sample_publish)) 100);
    [lia|reflexivity].
Defined.

(** The packet a stream decodes to. *)
Definition decoded (r : result WireError (list byte)) : option Packet :=
  match r with
  | Err _ => None
  | Ok bs => match Decode 0 bs with Ok (cp, _) => CanonicalPacket cp | Err _ => None end
  end.

(** The encoder rejects PUBLISH QoS 3 but no other byte above 2.  A PUBLISH
    with QoS 5 is framed with the header bits of QoS 1 and DUP and is received
    as that; one with QoS 8 is framed as QoS 0 although its body carries the
    packet identifier, which the receiver takes for the property length and the
    head of the payload. *)
Theorem Encode_qos_out_of_range :
  let msg q := mkPublish (go_bytes "hi") "t" None 7 q false false in
  let sent q := decoded (Encode 0 (Some (ToControlPacket (msg q)))) in
  sent 3 = None ∧
  sent 5 = Some (PPublish (mkPublish (go_bytes "hi") "t" (Some emptyPublishProperties) 7 1 true false)) ∧
  sent 8 = Some (PPublish (mkPublish (z2b 7 :: z2b 0 :: go_bytes "hi") "t"
                             (Some emptyPublishProperties) 0 0 false false)).
Proof. vm_compute. done. Qed.

(** A zero-length Correlation Data property does not survive a round trip:
    it is written as a property, and read back as an absent one. *)
Theorem Decode_empty_correlation_data :
  let props cd := mkPublishProperties None None None "" "" cd None [] [] in
  let msg cd := mkPublish [] "t" (Some (props cd)) 0 0 false false in
  Encode 0 (Some (ToControlPacket (msg (Some [])))) ≠ Encode 0 (Some (ToControlPacket (msg None))) ∧
  decoded (Encode 0 (Some (ToControlPacket (msg (Some []))))) = Some (PPublish (msg None)).
Proof. by vm_compute. Qed.
