(* ===== verification/WireTyping.v ===== *)
(** * What the decoder returns

    Every packet [Decode] accepts is one that [Encode] accepts: its fields are in
    range, its strings, topics, filters and reason codes are valid, its properties
    belong to the packet, and encoding it again takes no more bytes than it was read
    from.

    [yields Q m] is a Hoare triple for decoders: if [m] succeeds it moved the cursor by
    some [n] bytes and its result satisfies [Q] for that [n].  The packet decoders are
    walked through with its rules; property sections are treated as the entry lists of
    [WirePropsProofs], where assigning a property adds at most its entry. *)

From S2P Require Import Prelude GoStrings Mqtt5 Topic Wire WireParse WireProps WirePropsProofs WireCodec WireRoundtrip.

(** ** Triples *)

Definition yields {A} (Q : A → nat → Prop) (m : decoder A) : Prop :=
  ∀ c a c', cur_ok c → m c = Ok (a, c') → ∃ n, c' = adv n c ∧ cur_ok c' ∧ Q a n.

Section yields_rules.
Context {A B : Type}.
Implicit Types (Q : A → nat → Prop) (R : B → nat → Prop).

Lemma yields_ret Q (a : A) : Q a 0%nat → yields Q (mret a).
Proof. intros HQ c ? ? Hc [= <- <-]. exists 0%nat. by rewrite adv_0. Qed.

Lemma yields_mono Q Q' (m : decoder A) : (∀ a n, Q a n → Q' a n) → yields Q m → yields Q' m.
Proof. intros HQ Hm c a c' Hc H. destruct (Hm c a c' Hc H) as (n & -> & ? & ?). eauto. Qed.

Lemma yields_bind Q R (m : decoder A) (f : A → decoder B) :
  yields Q m → (∀ a n, Q a n → yields (λ b k, R b (n + k)%nat) (f a)) → yields R (m ≫= f).
Proof.
  intros Hm Hf c b c' Hc. unfold mbind, decoder_mbind. destruct (m c) as [[a c1]|] eqn:E; [|done].
  intros H. destruct (Hm _ _ _ Hc E) as (n & -> & Hc1 & HQ).
  destruct (Hf a n HQ _ _ _ Hc1 H) as (k & -> & Hc2 & HR).
  exists (n + k)%nat. by rewrite adv_adv in *.
Qed.

Lemma yields_fail Q e : yields Q (fail e).
Proof. by intros c a c' _ H. Qed.

Lemma yields_guard R cond e (f : unit → decoder B) :
  (cond = false → yields R (f tt)) → yields R (guard_not cond e ≫= f).
Proof. intros Hf c b c' Hc. destruct cond; [done|]. by apply Hf. Qed.

Lemma yields_lift R (r : result WireError A) (f : A → decoder B) :
  (∀ a, r = Ok a → yields R (f a)) → yields R (lift r ≫= f).
Proof. intros Hf c b c' Hc. destruct r as [a|]; [|done]. by apply Hf. Qed.

Lemma yields_remaining R (f : Z → decoder B) : (∀ n, yields R (f n)) → yields R (get_remaining ≫= f).
Proof. intros Hf c b c' Hc. apply Hf. done. Qed.

(** An optional trailing field: when it is absent, nothing is left for what follows. *)
Lemma yields_optional R (m : decoder A) (d : A) (f : A → Z → decoder B) :
  yields R (m ≫= λ a, get_remaining ≫= f a) → (∀ n, n ≤ 0 → yields R (f d n)) →
  yields R (get_remaining ≫= λ n, (if 0 <? n then m else mret d) ≫= λ a, get_remaining ≫= f a).
Proof.
  intros Hm Hd c b c' Hc. unfold mbind at 1, decoder_mbind at 1. unfold get_remaining at 1.
  destruct (Z.ltb_spec 0 (remaining c)); [by apply Hm|]. by apply (Hd (remaining c)).
Qed.

Lemma yields_packet R (f : Z → decoder B) : (∀ n, yields R (f n)) → yields R (get_packet ≫= f).
Proof. intros Hf c b c' Hc. apply Hf. done. Qed.
End yields_rules.

(** ** Primitive fields *)

Lemma yields_readByte field : yields (λ v n, is_u8 v ∧ n = 1%nat) (readByte field).
Proof.
  intros c v c' Hc. unfold readByte. case_if; [done|]. intros [= <- <-]. exists 1%nat.
  split_and!; [done| |apply b2z_range|done]. unfold cur_ok, remaining in *. cbn. lia.
Qed.

Lemma yields_readBytes field k : yields (λ v n, Z.of_nat (length v) = k ∧ Z.of_nat n = k) (readBytes field k).
Proof.
  intros c v c' Hc. unfold readBytes. case_if; [done|]. bool_arith. intros [= <- <-].
  exists (Z.to_nat k). unfold cur_ok, remaining in *. rewrite length_take, length_drop.
  split_and!; [done|cbn; lia|lia|lia].
Qed.

Lemma lor_range a b w : 0 ≤ w → 0 ≤ a < 2 ^ w → 0 ≤ b < 2 ^ w → 0 ≤ Z.lor a b < 2 ^ w.
Proof.
  intros Hw Ha Hb. split; [apply Z.lor_nonneg; lia|].
  destruct (decide (Z.lor a b = 0)) as [->|]; [lia|].
  assert (0 < Z.lor a b) by (pose proof (proj2 (Z.lor_nonneg a b)); lia).
  apply Z.log2_lt_pow2; [done|]. rewrite Z.log2_lor by lia. apply Z.max_lub_lt.
  - destruct (decide (a = 0)) as [->|]; [destruct (decide (w = 0)) as [->|]; [|cbn; lia]|apply Z.log2_lt_pow2; lia].
    exfalso. assert (b = 0) by lia. subst. done.
  - destruct (decide (b = 0)) as [->|]; [destruct (decide (w = 0)) as [->|]; [|cbn; lia]|apply Z.log2_lt_pow2; lia].
    exfalso. assert (a = 0) by lia. subst. done.
Qed.

Lemma byte_at_range b i w : 8 ≤ w → 0 ≤ byte_at b i < 2 ^ w.
Proof.
  intros Hw. unfold byte_at. pose proof (b2z_range (nth i b zero)) as H. unfold is_u8 in H.
  assert (2 ^ 8 ≤ 2 ^ w) by (apply Z.pow_le_mono_r; lia). lia.
Qed.

Lemma wrap_range w v : 0 ≤ w → 0 ≤ wrap w v < 2 ^ w.
Proof. intros. unfold wrap. apply Z.mod_pos_bound. lia. Qed.

Lemma yields_readUint16 field : yields (λ v n, is_u16 v ∧ n = 2%nat) (readUint16 field).
Proof.
  unfold readUint16. eapply yields_bind; [apply yields_readBytes|]. intros b n [_ Hn]. apply yields_ret.
  split; [|lia]. apply (lor_range _ _ 16); [lia|apply wrap_range; lia|apply byte_at_range; lia].
Qed.

Lemma yields_readUint32 field : yields (λ v n, is_u32 v ∧ n = 4%nat) (readUint32 field).
Proof.
  unfold readUint32. eapply yields_bind; [apply yields_readBytes|]. intros b n [_ Hn]. apply yields_ret.
  split; [|lia]. repeat (apply (lor_range _ _ 32); [lia| |]); try (apply wrap_range; lia).
  apply byte_at_range. lia.
Qed.

Lemma yields_readBinary field :
  yields (λ v n, (Z.of_nat (length v) ≤ 65535) ∧ n = (2 + length v)%nat) (readBinary field).
Proof.
  unfold readBinary. eapply yields_bind; [apply yields_readUint16|]. intros k n [Hk ->].
  eapply yields_mono; [|apply yields_readBytes]. intros v n [Hv Hn]. unfold is_u16 in Hk. lia.
Qed.

(** A string the writer accepts. *)
Definition good_string (s : string) : Prop :=
  Z.of_nat (length (go_bytes s)) ≤ 65535 ∧ utf8_valid (go_bytes s) = true ∧ contains_byte zero s = false.

Lemma yields_readString field :
  yields (λ s n, good_string s ∧ n = (2 + length (go_bytes s))%nat) (readString field).
Proof.
  unfold readString. eapply yields_bind; [apply yields_readBinary|]. intros data n [Hl ->].
  apply yields_packet. intros packet. apply yields_guard. intros Hu. apply yields_guard. intros Hz.
  apply yields_ret. unfold good_string. rewrite go_bytes_string. bool_arith. split_and!; [done..|lia].
Qed.

Lemma writeBinary_good packet field v : Z.of_nat (length v) ≤ 65535 →
  ∃ bs, writeBinary packet field v = Ok bs ∧ length bs = (2 + length v)%nat.
Proof. intros Hv. unfold writeBinary. zcase. eexists. split; [done|]. by rewrite length_app. Qed.

Lemma writeString_good packet field s : good_string s →
  ∃ bs, writeString packet field s = Ok bs ∧ length bs = (2 + length (go_bytes s))%nat.
Proof.
  intros (Hl & Hu & Hz). unfold writeString. zcase. rewrite Hu, Hz. cbn [negb].
  eexists. split; [done|]. by rewrite length_app.
Qed.

Lemma yields_readVBI_loop field left : ∀ width value multiplier, 0 ≤ value → 0 ≤ multiplier →
  yields (λ v n, 0 ≤ v ≤ maxRemainingLength ∧ width + Z.of_nat n = minimalVBIBytes v + 1)
    (readVBI_loop field left width value multiplier).
Proof.
  induction left as [|left IH]; intros width value multiplier Hv Hm; cbn [readVBI_loop].
  { apply yields_packet. intros. apply yields_fail. }
  eapply yields_bind; [apply yields_readByte|]. intros d n [Hd ->]. apply yields_packet. intros packet.
  assert (0 ≤ Z.land d 127) as Hl by (rewrite land_127; apply Z.mod_pos_bound; lia).
  destruct (Z.ltb_spec maxRemainingLength (value + Z.land d 127 * multiplier)); [apply yields_fail|].
  case_if.
  - case_if; [apply yields_fail|]. bool_arith. apply yields_ret. split; [nia|lia].
  - eapply yields_mono; [|apply IH; nia]. intros v n [? ?]. split; lia.
Qed.

Lemma yields_readVBI field :
  yields (λ v n, 0 ≤ v ≤ maxRemainingLength ∧ Z.of_nat n = minimalVBIBytes v) (readVBI field).
Proof. eapply yields_mono; [|by apply yields_readVBI_loop]. intros v n [? ?]. split; lia. Qed.

Lemma writeVBI_good packet field v : 0 ≤ v ≤ maxRemainingLength →
  ∃ bs, writeVBI packet field v = Ok bs ∧ Z.of_nat (length bs) = minimalVBIBytes v.
Proof.
  intros Hv. unfold writeVBI, encodeRemainingLength. zcase. eexists. split; [done|]. by apply encodeVBI_width.
Qed.

Lemma minimalVBIBytes_mono a b : a ≤ b → minimalVBIBytes a ≤ minimalVBIBytes b.
Proof. intros Hab. unfold minimalVBIBytes. repeat case_if; lia. Qed.

(** ** Entries that fit a packet *)

Definition entry_size (packet : Z) (e : entry) : nat :=
  match entry_bytes packet e with Ok b => length b | Err _ => 0 end.

(** An empty binary is decoded as an absent one. *)
Definition keeps_bin (e : entry) : Prop := match e with EBin _ v => v ≠ [] | _ => True end.

(** The entry is in range, is written by the encoder and survives normalisation. *)
Definition entry_fine (packet : Z) (e : entry) : Prop :=
  entry_ok e ∧ (∃ b, entry_bytes packet e = Ok b) ∧ keeps_bin e.

Definition fits (packet : Z) (es : list entry) (n : nat) : Prop :=
  Forall (entry_fine packet) es ∧ (sum_list_with (entry_size packet) es ≤ n)%nat.

Lemma sum_list_submseteq {A} (f : A → nat) xs ys : xs ⊆+ ys → (sum_list_with f xs ≤ sum_list_with f ys)%nat.
Proof.
  intros [k Hk]%submseteq_Permutation. rewrite Hk, sum_list_with_app. lia.
Qed.

Lemma fits_sub packet es es' n : es' ⊆+ es → fits packet es n → fits packet es' n.
Proof.
  intros Hs [HF Hn]. split; [|pose proof (sum_list_submseteq (entry_size packet) _ _ Hs); lia].
  apply Forall_forall. intros e He. eapply Forall_forall; [exact HF|]. by eapply elem_of_submseteq.
Qed.

Lemma fits_nil packet n : fits packet [] n.
Proof. split; [constructor|cbn; lia]. Qed.

Lemma fits_app packet es es' n n' : fits packet es n → fits packet es' n' → fits packet (es ++ es') (n + n').
Proof. intros [? ?] [? ?]. split; [by apply Forall_app|]. rewrite sum_list_with_app. lia. Qed.

Lemma fits_one packet e b n : entry_ok e → keeps_bin e →
  entry_bytes packet e = Ok b → (length b ≤ n)%nat → fits packet [e] n.
Proof.
  intros Hok Hb He Hn. split; [apply Forall_singleton; split_and!; eauto|]. cbn. unfold entry_size. rewrite He. lia.
Qed.

Lemma fits_bytes packet es n : fits packet es n →
  ∃ bs, append_each (entry_bytes packet) es = Ok bs ∧ (length bs ≤ n)%nat.
Proof.
  revert n. induction es as [|e es IH]; intros n [HF Hn]; [exists []; cbn; split; [done|lia]|].
  apply Forall_cons in HF as [(_ & [b Hb] & _) HF]. cbn in Hn.
  destruct (IH (sum_list_with (entry_size packet) es)) as (bs & Hbs & Hl); [by split|].
  unfold entry_size in Hn at 1. rewrite Hb in Hn. cbn. rewrite Hb. cbn. rewrite Hbs. cbn.
  eexists. split; [done|]. rewrite length_app. lia.
Qed.

(** The entries a decoded value stands for: an empty string or binary is dropped. *)
Definition value_entries (spec : PropertySpec) (v : propertyValue) : list entry :=
  let id := spec_ID spec in
  match spec_Type spec with
  | propertyByte => [EByte id (pv_byteValue v)]
  | propertyTwoByteInteger => [EU16 id (pv_uint16Value v)]
  | propertyFourByteInteger => [EU32 id (pv_uint32Value v)]
  | propertyVariableByteInteger => [EVBI id (pv_vbiValue v)]
  | propertyBinaryData => opt_e (EBin id) (pv_binaryValue v)
  | propertyString => str_e id (pv_stringValue v)
  | propertyStringPair => [EUser (pv_userValue v)]
  end.

(** *** Assigning a value adds at most its entries *)

Lemma sub_here (e x x' B : list entry) : x' ⊆+ e ++ x → x' ++ B ⊆+ e ++ x ++ B.
Proof. intros H. rewrite (assoc_L (++) e). by apply submseteq_skips_r. Qed.

Lemma sub_skip (e A X X' : list entry) : X' ⊆+ e ++ X → A ++ X' ⊆+ e ++ A ++ X.
Proof.
  intros H. rewrite (assoc_L (++) e), (Permutation_app_comm e A), <-(assoc_L (++)).
  by apply submseteq_skips_l.
Qed.

Lemma sub_none (e X : list entry) : X ⊆+ e ++ X.
Proof. by apply submseteq_inserts_l. Qed.

Lemma sub_set (e X : list entry) : e ⊆+ e ++ X.
Proof. by apply submseteq_inserts_r. Qed.

Lemma sub_more {A} (c : A → entry) xs x : c <$> (xs ++ [x]) ⊆+ [c x] ++ (c <$> xs).
Proof. rewrite fmap_app. cbn. by rewrite Permutation_app_comm. Qed.

Ltac sub_entries :=
  first
    [ apply sub_none
    | apply sub_set
    | apply sub_more
    | apply sub_here; first [apply sub_set | apply sub_more]
    | apply sub_skip; sub_entries ].

Lemma assign_entries id spec props v : propertySpecs !! id = Some spec →
  entries_of (assignProperty props spec v) ⊆+ value_entries spec v ++ entries_of props.
Proof.
  intros Hs. unfold propertySpecs in Hs. apply elem_of_list_to_map_2 in Hs.
  repeat (apply elem_of_cons in Hs as [[= -> ->]|Hs];
    [destruct props as [[]|[]|[]|[]|[]|[]|[]|[]|[]|[]|[]|[]|[]]; cbn -[app opt_e str_e fmap]; unfold reason_entries; sub_entries|]).
  by apply elem_of_nil in Hs.
Qed.

(** *** Reading a property *)

Lemma header_good packet spec : propertySpecs !! spec_ID spec = Some spec → packetAllowed spec packet = true →
  appendPropertyHeader packet (spec_ID spec) = Ok [z2b (spec_ID spec)] ∧ specOf (spec_ID spec) = spec.
Proof. intros Hs Ha. unfold appendPropertyHeader, specOf. by rewrite Hs, Ha. Qed.

Lemma value_fits packet spec : propertySpecs !! spec_ID spec = Some spec → packetAllowed spec packet = true →
  yields (λ v n, validatePropertyValue packet spec v = Ok tt → fits packet (value_entries spec v) (S n))
    (readPropertyValue spec).
Proof.
  intros Hs Ha. destruct (header_good packet spec Hs Ha) as [Hh Ho].
  pose proof (propertySpecs_lookup _ _ Hs) as (_ & _ & Hk).
  unfold readPropertyValue, value_entries. destruct (spec_Type spec).
  - eapply yields_bind; [apply yields_readByte|]. intros v n [Hv ->]. apply yields_ret. intros Hval.
    eapply fits_one; [done|done| |]; [cbn; unfold appendPropByte; by rewrite Hh, Ho; cbn; rewrite Hval|done].
  - eapply yields_bind; [apply yields_readUint16|]. intros v n [Hv ->]. apply yields_ret. intros Hval.
    eapply fits_one; [done|done| |]; [cbn; unfold appendPropUint16; by rewrite Hh, Ho; cbn; rewrite Hval|done].
  - eapply yields_bind; [apply yields_readUint32|]. intros v n [Hv ->]. apply yields_ret. intros Hval.
    eapply fits_one; [done|done| |]; [cbn; unfold appendPropUint32; by rewrite Hh, Ho; cbn; rewrite Hval|done].
  - eapply yields_bind; [apply yields_readVBI|]. intros v n [Hv Hn]. apply yields_ret. intros Hval.
    destruct (writeVBI_good packet (spec_Name spec) v Hv) as (bs & Hbs & Hl).
    eapply fits_one; [done|done| |]; [cbn; unfold appendPropVBI; by rewrite Hh, Ho; cbn; rewrite Hval; cbn; rewrite Hbs|cbn; lia].
  - eapply yields_bind; [apply yields_readBinary|]. intros v n [Hv ->]. apply yields_ret. intros Hval.
    destruct v as [|b v]; cbn [append_nil pvBinary pv_binaryValue opt_e]; [apply fits_nil|].
    destruct (writeBinary_good packet (spec_Name spec) (b :: v) Hv) as (bs & Hbs & Hl).
    eapply fits_one; [done|done| |]; [cbn; unfold appendPropBinary; by rewrite Hh, Ho; cbn; rewrite Hbs|cbn in *; lia].
  - eapply yields_bind; [apply yields_readString|]. intros v n [Hv ->]. apply yields_ret. intros Hval.
    unfold str_e. case_bool_decide; [apply fits_nil|].
    destruct (writeString_good packet (spec_Name spec) v Hv) as (bs & Hbs & Hl).
    eapply fits_one; [done|done| |]; [cbn; unfold appendPropString; by rewrite Hh, Ho; cbn; rewrite Hval; cbn; rewrite Hbs|cbn in *; lia].
  - eapply yields_bind; [apply yields_readString|]. intros k n [Hkey ->].
    eapply yields_bind; [apply yields_readString|]. intros v n [Hv ->]. apply yields_ret. intros Hval.
    destruct (writeString_good packet "User Property key" k Hkey) as (kb & Hkb & Hkl).
    destruct (writeString_good packet "User Property value" v Hv) as (vb & Hvb & Hvl).
    eapply fits_one; [done|done| |]; [cbn; unfold appendUserProperty; rewrite <-Hk, Hh; cbn; by rewrite Hkb; cbn; rewrite Hvb|].
    cbn. rewrite length_app. lia.
Qed.

Lemma decodeOne_fits packet props seen k : fits packet (entries_of props) k →
  yields (λ r n, fits packet (entries_of r.1) (n + k)) (decodeOneProperty packet props seen).
Proof.
  intros Hk. unfold decodeOneProperty. eapply yields_bind; [apply yields_readByte|]. intros id n [_ ->].
  apply yields_lift. intros spec Hspec. destruct (propertySpecs !! id) as [spec'|] eqn:Hs; [|done].
  apply Ok_inj in Hspec as ->. pose proof (propertySpecs_lookup _ _ Hs) as (Hid & _).
  apply yields_guard. intros Ha. bool_arith. apply yields_guard. intros _.
  eapply yields_bind; [apply value_fits; [by rewrite Hid|done]|]. intros v n Hv.
  apply yields_lift. intros [] Hval. apply yields_ret. cbn [fst].
  eapply fits_sub; [by eapply assign_entries|]. rewrite Nat.add_0_r. by apply fits_app; [apply Hv|].
Qed.

Lemma decodeLoop_fits packet fuel : ∀ props seen k, fits packet (entries_of props) k →
  yields (λ p n, fits packet (entries_of p) (n + k)) (decodePropertiesLoop fuel packet props seen).
Proof.
  induction fuel as [|fuel IH]; intros props seen k Hk; cbn [decodePropertiesLoop]; [by apply yields_ret|].
  apply yields_remaining. intros n. case_if; [|by apply yields_ret].
  eapply yields_bind; [by apply decodeOne_fits|]. intros [props' seen'] m Hm.
  eapply yields_mono; [|by apply IH]. cbn. intros p j. by rewrite Nat.add_assoc, (Nat.add_comm j).
Qed.

(** *** A whole section *)

(** The section can be written again in [n] bytes, and is read as it was. *)
Definition section_ok (packet : Z) (props : Properties) (n : nat) : Prop :=
  wf_props props ∧ norm_props props = props ∧ ∃ bs, encodeProperties packet (Some props) = Ok bs ∧ (length bs ≤ n)%nat.

Lemma opt_e_inv {A} (P : entry → Prop) (c : A → entry) o : Forall P (opt_e c o) → opt_in (λ a, P (c a)) o.
Proof. destruct o as [a|]; cbn; [|done]. apply Forall_singleton. Qed.

Lemma entries_wf props : Forall entry_ok (entries_of props) → wf_props props.
Proof.
  destruct props; cbn [entries_of wf_props]; rewrite ?Forall_app; try done; intros H;
    repeat match goal with H : _ ∧ _ |- _ => destruct H end;
    repeat match goal with H : Forall _ (opt_e _ _) |- _ => apply opt_e_inv in H end; cbn in *; split_and?; done.
Qed.

Lemma norm_bin_id id o : Forall keeps_bin (opt_e (EBin id) o) → norm_bin o = o.
Proof. destruct o as [v|]; [|done]. intros Hv. apply Forall_cons in Hv as [Hv _]. by destruct v. Qed.

Lemma entries_norm props : Forall keeps_bin (entries_of props) → norm_props props = props.
Proof.
  destruct props as [[]|[]|[]|[]|[]|[]|[]|[]|[]|[]|[]|[]|[]]; cbn [entries_of norm_props]; try done;
    cbn -[app opt_e str_e fmap norm_bin]; rewrite ?Forall_app; intros H;
    repeat match goal with H : _ ∧ _ |- _ => destruct H end; do 2 f_equal.
  all: match goal with H : Forall _ (opt_e (EBin _) _) |- _ => exact (norm_bin_id _ _ H) end.
Qed.

Lemma fits_section packet props n k :
  fits packet (entries_of props) n → Z.of_nat n ≤ maxRemainingLength → minimalVBIBytes (Z.of_nat n) + Z.of_nat n ≤ Z.of_nat k →
  section_ok packet props k.
Proof.
  intros Hf Hmax Hk. destruct (fits_bytes _ _ _ Hf) as (body & Hb & Hl). destruct Hf as [HF _]. split_and!.
  - apply entries_wf. eapply Forall_impl; [exact HF|]. by intros e (? & _).
  - apply entries_norm. eapply Forall_impl; [exact HF|]. by intros e (_ & _ & ?).
  - destruct (writeVBI_good packet "property length" (Z.of_nat (length body))) as (len & Hlen & Hll); [lia|].
    unfold encodeProperties. rewrite appendProperties_entries, Hb. cbn. rewrite Hlen. cbn. eexists. split; [done|].
    pose proof (minimalVBIBytes_mono (Z.of_nat (length body)) (Z.of_nat n)). rewrite length_app. lia.
Qed.

Lemma decodeProperties_ok packet props0 : entries_of props0 = [] →
  yields (section_ok packet) (decodeProperties packet props0).
Proof.
  intros H0. unfold decodeProperties. eapply yields_bind; [apply yields_readVBI|]. intros k n [Hk Hn].
  intros c p c' Hc H. unfold mbind, decoder_mbind, get_remaining, guard_not, lift, check in H.
  destruct (Z.ltb_spec (remaining c) k) as [|Hr]; [done|]. unfold decodePropertySection in H.
  set (data := take _ _) in H. destruct (decodePropertiesLoop _ _ _ _ _) as [[p' c1]|] eqn:E; [|done].
  injection H as -> <-. exists (Z.to_nat k). unfold cur_ok, remaining in *.
  assert (length data = Z.to_nat k) as Hlen by (unfold data; rewrite length_take, length_drop; lia).
  split_and!; [done|cbn; lia|].
  destruct (decodeLoop_fits packet (length data) props0 ∅ 0) with (c := newCursor packet data) (a := p) (c' := c1)
    as (m & -> & Hm & Hf); [rewrite H0; apply fits_nil|unfold cur_ok; cbn; lia|done|]. rewrite Nat.add_0_r in Hf.
  assert (m ≤ Z.to_nat k)%nat by (unfold cur_ok in Hm; cbn in Hm; lia).
  pose proof (minimalVBIBytes_mono (Z.of_nat m) k). eapply fits_section; [exact Hf|lia|lia].
Qed.

Lemma section_empty packet props n : entries_of props = [] → (1 ≤ n)%nat → section_ok packet props n.
Proof. intros He Hn. apply (fits_section _ _ 0); [rewrite He; apply fits_nil|done|]. change (minimalVBIBytes (Z.of_nat 0)) with 1. lia. Qed.

Lemma section_bytes packet props n : section_ok packet props n → (1 ≤ n)%nat.
Proof. intros (_ & _ & bs & Hbs & Hl). apply encodeProperties_nonempty in Hbs. lia. Qed.

(** The decoders of the structs: [decodeProperties] never changes the type of the struct, and a
    result of another type would be replaced by the empty struct. *)
Ltac section_of :=
  eapply yields_bind; [by apply decodeProperties_ok|];
  intros p n Hp; apply yields_ret; rewrite Nat.add_0_r; pose proof (section_bytes _ _ _ Hp);
  destruct p; first [exact Hp | by apply section_empty].

Lemma yields_publishProps packet : yields (λ q, section_ok packet (PropsPublish q)) (decodePublishProps packet).
Proof. unfold decodePublishProps. section_of. Qed.
Lemma yields_connectProps : yields (λ q, section_ok CONNECT (PropsConnect q)) decodeConnectProps.
Proof. unfold decodeConnectProps. section_of. Qed.
Lemma yields_connackProps : yields (λ q, section_ok CONNACK (PropsConnAck q)) decodeConnackProps.
Proof. unfold decodeConnackProps. section_of. Qed.
Lemma yields_subscribeProps : yields (λ q, section_ok SUBSCRIBE (PropsSubscribe q)) decodeSubscribeProps.
Proof. unfold decodeSubscribeProps. section_of. Qed.
Lemma yields_unsubscribeProps : yields (λ q, section_ok UNSUBSCRIBE (PropsUnsubscribe q)) decodeUnsubscribeProps.
Proof. unfold decodeUnsubscribeProps. section_of. Qed.
Lemma yields_disconnectProps : yields (λ q, section_ok DISCONNECT (PropsDisconnect q)) decodeDisconnectProps.
Proof. unfold decodeDisconnectProps. section_of. Qed.
Lemma yields_authProps : yields (λ q, section_ok AUTH (PropsAuth q)) decodeAuthProps.
Proof. unfold decodeAuthProps. section_of. Qed.

Lemma yields_reasonProps packet mk : reason_ctor mk → yields (λ q, section_ok packet (mk q)) (decodeReasonProps packet mk).
Proof.
  intros Hmk. unfold decodeReasonProps. eapply yields_bind.
  { apply decodeProperties_ok. unfold reason_ctor in Hmk. by destruct_or? Hmk; subst. }
  intros p n Hp. apply yields_ret. rewrite Nat.add_0_r. pose proof (section_bytes _ _ _ Hp).
  assert (∀ q, entries_of (mk q) = reason_entries (rsp_ReasonString q) (rsp_User q)) as He.
  { intros q. unfold reason_ctor in Hmk. by destruct_or? Hmk; subst. }
  assert (∀ q, wf_props (mk q) ∧ norm_props (mk q) = mk q) as Hw.
  { intros q. unfold reason_ctor in Hmk. by destruct_or? Hmk; subst. }
  destruct p; try (by apply section_empty; [rewrite He|]).
  all: destruct Hp as (_ & _ & bs & Hbs & Hl); split_and!; [apply Hw..|]; exists bs; split; [|done];
    rewrite <-Hbs; unfold encodeProperties; by rewrite !appendProperties_entries, He.
Qed.

(** ** Packets *)

#[local] Arguments encodeProperties : simpl never.
#[local] Arguments writeString : simpl never.
#[local] Arguments writeBinary : simpl never.
#[local] Arguments validateReason : simpl never.
#[local] Arguments validateTopicName : simpl never.

(** The packet's fields are in range, decoding kept all of it, and its body can be written again
    in [n] bytes. *)
Definition packet_ok (p : Packet) (n : nat) : Prop :=
  wf_packet p ∧ norm_packet p = p ∧ ∃ bs, encodePacket p = Ok bs ∧ (length bs ≤ n)%nat.

(** One step of a packet decoder. *)
Ltac ystep :=
  lazymatch goal with
  | |- yields _ (mret _) => apply yields_ret
  | |- yields _ (guard_not _ _ ≫= _) => apply yields_guard; intros ?; bool_arith
  | |- yields _ (lift _ ≫= _) => apply yields_lift; intros ? ?
  | |- yields _ (get_remaining ≫= _) => apply yields_remaining; intros ?
  | |- yields _ (readByte _ ≫= _) => eapply yields_bind; [apply yields_readByte|]; intros ? ? [? ->]
  | |- yields _ (readUint16 _ ≫= _) => eapply yields_bind; [apply yields_readUint16|]; intros ? ? [? ->]
  | |- yields _ (readString _ ≫= _) => eapply yields_bind; [apply yields_readString|]; intros ? ? [? ->]
  | |- yields _ (readBinary _ ≫= _) => eapply yields_bind; [apply yields_readBinary|]; intros ? ? [? ->]
  end.

(** Normalising a packet whose struct is normal. *)
Ltac norm_eq Hn :=
  unfold norm_packet, norm_connect_packet; cbn -[norm_connect norm_connack norm_publish norm_auth] in Hn |- *;
  injection Hn as Hn; rewrite ?Hn.

Ltac len_le := cbn; rewrite ?length_app; cbn; rewrite ?length_app, ?length_fmap; cbn; lia.

(** Runs the encoder: what it checks is among the hypotheses. *)
Ltac run_encoder :=
  repeat match goal with u : unit |- _ => destruct u end;
  repeat (cbn [mbind result_mbind result_bind check negb andb orb];
    match goal with
    | H : ?x = Ok _ |- context [?x] => rewrite H
    | H : ?x = false |- context [?x] => rewrite H
    | H : ?x = true |- context [?x] => rewrite H
    end); cbn [mbind result_mbind result_bind check negb andb orb].

Lemma connack_ok : yields (λ p, packet_ok (PConnAck p)) decodeConnack.
Proof.
  unfold decodeConnack. repeat ystep. eapply yields_bind; [apply yields_connackProps|]. intros q n (Hwf & Hn & bs & Hbs & Hl).
  ystep. split_and!; [done|by norm_eq Hn|]. cbn. unfold encodeConnack. cbn.
  run_encoder. eexists. split; [done|]. cbn. lia.
Qed.

Lemma encoded_section packet props n : section_ok packet props n →
  ∃ ps, encodeProperties packet (Some props) = Ok ps ∧ (1 ≤ length ps ≤ n)%nat.
Proof. intros (_ & _ & ps & Hps & Hl). pose proof (encodeProperties_nonempty _ _ _ Hps). eauto with lia. Qed.

Lemma encode_empty packet props : entries_of props = [] → encodeProperties packet (Some props) = Ok [z2b 0].
Proof. intros He. unfold encodeProperties. by rewrite appendProperties_entries, He. Qed.

(** A reason code and a section that is left out when it is empty. *)
Lemma yields_trailing_props packet (mk : ReasonProperties → Properties) n : reason_ctor mk →
  yields (λ q k, section_ok packet (mk q) (k `max` 1))
    (if 0 <? n then decodeReasonProps packet mk else mret emptyReasonProperties).
Proof.
  intros Hmk. case_if.
  - eapply yields_mono; [|by apply yields_reasonProps].
    intros q k Hq. pose proof (section_bytes _ _ _ Hq). by rewrite Nat.max_l by lia.
  - apply yields_ret, section_empty; [|done]. unfold reason_ctor in Hmk. by destruct_or? Hmk; subst.
Qed.

Lemma ack_bytes packetType pid r props k : (pid =? 0) = false → validateReason packetType r = Ok tt →
  section_ok packetType props (k `max` 1) →
  ∃ bs, encodeAck packetType pid r (Some props) = Ok bs ∧ (length bs ≤ 3 + k)%nat.
Proof.
  intros Hp Hr Hq. destruct (encoded_section _ _ _ Hq) as (ps & Hps & Hl). unfold encodeAck. run_encoder.
  repeat case_if; (eexists; split; [done|]); rewrite ?length_app; cbn; repeat case_bool_decide; try done; lia.
Qed.

Lemma ack_bytes_short packetType pid mk : (pid =? 0) = false → validateReason packetType 0 = Ok tt → reason_ctor mk →
  ∃ bs, encodeAck packetType pid 0 (Some (mk emptyReasonProperties)) = Ok bs ∧ (length bs ≤ 2)%nat.
Proof.
  intros Hp Hr Hmk. assert (entries_of (mk emptyReasonProperties) = []) as He.
  { unfold reason_ctor in Hmk. by destruct_or? Hmk; subst. }
  apply (encode_empty packetType) in He. unfold encodeAck. run_encoder. by eexists.
Qed.

Lemma ack_ok packetType mk : reason_ctor mk → validateReason packetType 0 = Ok tt →
  yields (λ p n, is_u16 (ack_PacketID p) ∧ norm_ack p = p ∧
    ∃ bs, encodeAck packetType (ack_PacketID p) (ack_ReasonCode p) (mk <$> ack_Properties p) = Ok bs ∧ (length bs ≤ n)%nat)
    (decodeAck packetType mk).
Proof.
  intros Hmk H0. unfold decodeAck. do 2 ystep. apply yields_optional.
  - eapply (yields_bind (λ r n, validateReason packetType r = Ok tt ∧ n = 1%nat)).
    { repeat ystep. by destruct a1. }
    intros r k [Hr ->]. ystep. eapply yields_bind; [by apply yields_trailing_props|]. intros q k Hq. ystep.
    split_and!; [done..|]. cbn. destruct (ack_bytes packetType a r (mk q) k) as (bs & Hbs & Hl); [done..|].
    exists bs. split; [done|lia].
  - intros n Hn. destruct (Z.ltb_spec 0 n); [lia|].
    eapply (yields_bind (λ q k, q = emptyReasonProperties ∧ k = 0%nat)); [by apply yields_ret|]. intros q k [-> ->]. ystep.
    split_and!; [done..|]. cbn. by apply ack_bytes_short.
Qed.

(** *** Lists *)

Definition written {A} (enc : A → result WireError (list byte)) (x : A) (n : nat) : Prop :=
  ∃ bs, enc x = Ok bs ∧ (length bs ≤ n)%nat.

Lemma yields_all {A} (P : A → Prop) enc (one : decoder A) :
  yields (λ x n, P x ∧ written enc x n) one →
  yields (λ xs n, Forall P xs ∧ written (append_each enc) xs n) (decodeAll one).
Proof.
  intros Hone. apply yields_remaining. intros n. generalize (Z.to_nat n). clear n.
  intros fuel. induction fuel as [|fuel IH]; cbn [decodeWhile].
  { apply yields_ret. split; [done|]. by exists []. }
  apply yields_remaining. intros n. case_if; [|apply yields_ret; split; [done|by exists []]].
  eapply yields_bind; [exact Hone|]. intros x k [Hx (b & Hb & Hl)].
  eapply yields_bind; [exact IH|]. intros xs j [Hxs (bs & Hbs & Hls)]. apply yields_ret.
  split; [by constructor|]. exists (b ++ bs). cbn. rewrite Hb. cbn. rewrite Hbs. split; [done|]. len_le.
Qed.

Lemma land_3 x : 0 ≤ Z.land x 3 ≤ 3.
Proof. change 3 with (Z.ones 2) at 1 2. rewrite Z.land_ones by lia. pose proof (Z.mod_pos_bound x (2 ^ 2)). lia. Qed.

Lemma subscription_ok :
  yields (λ s n, (is_u8 (sub_QoS s) ∧ is_u8 (sub_RetainHandling s)) ∧ written encodeSubscription s n) decodeSubscription.
Proof.
  unfold decodeSubscription. repeat ystep. cbn [sub_QoS sub_RetainHandling] in *.
  pose proof (land_3 a0). pose proof (land_3 (Z.shiftr a0 4)). split; [cbn; unfold is_u8; lia|].
  destruct (writeString_good SUBSCRIBE "topic filter" a) as (bs & Hbs & Hl); [done|].
  unfold written, encodeSubscription, validateSubOptionsForEncode. cbn [sub_Topic sub_QoS sub_RetainHandling].
  assert ((2 <? Z.land a0 3) = false) by lia. assert ((2 <? Z.land (Z.shiftr a0 4) 3) = false) by lia.
  run_encoder. eexists. split; [done|]. len_le.
Qed.

Lemma unsub_topic_ok : yields (λ t n, True ∧ written encodeUnsubTopic t n) decodeUnsubTopic.
Proof.
  unfold decodeUnsubTopic. repeat ystep. split; [done|].
  destruct (writeString_good UNSUBSCRIBE "topic filter" a) as (bs & Hbs & Hl); [done|].
  unfold written, encodeUnsubTopic. run_encoder. exists bs. split; [done|lia].
Qed.

Lemma subscribe_ok : yields (λ p, packet_ok (PSubscribe p)) decodeSubscribe.
Proof.
  unfold decodeSubscribe. do 2 ystep. eapply yields_bind; [apply yields_subscribeProps|]. intros q n (_ & _ & ps & Hps & Hl).
  eapply yields_bind; [apply yields_all, subscription_ok|]. intros subs k [Hs (bs & Hbs & Hls)]. do 2 ystep.
  split_and!; [done|done|]. cbn. unfold encodeSubscribe. cbn. run_encoder.
  eexists. split; [done|]. len_le.
Qed.

Lemma unsubscribe_ok : yields (λ p, packet_ok (PUnsubscribe p)) decodeUnsubscribe.
Proof.
  unfold decodeUnsubscribe. do 2 ystep. eapply yields_bind; [apply yields_unsubscribeProps|]. intros q n (_ & _ & ps & Hps & Hl).
  eapply yields_bind; [apply yields_all, unsub_topic_ok|]. intros topics k [_ (bs & Hbs & Hls)]. do 2 ystep.
  split_and!; [done|done|]. cbn. unfold encodeUnsubscribe. cbn. run_encoder.
  eexists. split; [done|]. len_le.
Qed.

Lemma yields_readRest : yields (λ v n, n = length v) readRest.
Proof.
  intros c v c' Hc [= <- <-]. exists (length (cur_data c) - cur_pos c)%nat. unfold cur_ok in *. rewrite length_drop.
  split_and!; [|cbn; lia|done]. unfold adv. f_equal. lia.
Qed.

Lemma codelist_ok packetType mk : reason_ctor mk →
  yields (λ p n, is_u16 (cdl_PacketID p) ∧ norm_codes p = p ∧
    written (encodeCodeList packetType (cdl_PacketID p) (mk <$> cdl_Properties p)) (cdl_Reasons p) n)
    (decodeCodeList packetType mk).
Proof.
  intros Hmk. unfold decodeCodeList. do 2 ystep. eapply yields_bind; [by apply yields_reasonProps|]. intros q n (_ & _ & ps & Hps & Hl).
  eapply yields_bind; [apply yields_readRest|]. intros data k ->. do 3 ystep.
  split_and!; [done..|]. unfold written, encodeCodeList. cbn. run_encoder.
  eexists. split; [done|]. len_le.
Qed.

(** *** The other packets *)

Lemma publish_ok flags :
  yields (λ p n, packet_ok (PPublish p) n ∧ pub_QoS p = Z.land (Z.shiftr flags 1) 3 ∧ pub_Duplicate p = negb (Z.land flags 8 =? 0))
    (decodePublish flags).
Proof.
  unfold decodePublish. pose proof (land_3 (Z.shiftr flags 1)) as Hq. set (qos := Z.land (Z.shiftr flags 1) 3) in *.
  do 2 ystep. destruct (writeString_good PUBLISH "topic name" a) as (tb & Htb & Htl); [done|].
  eapply (yields_bind (λ id n, is_u16 id ∧ (qos =? 0) && negb (id =? 0) = false ∧ (0 <? qos) && (id =? 0) = false ∧
    length (if 0 <? qos then writeUint16 id else []) = n)).
  { destruct (Z.ltb_spec 0 qos); repeat ystep.
    - split_and!; [done| | |done]; lia.
    - split_and!; [by unfold is_u16| | |done]; lia. }
  intros id k (Hid & Hz & Hnz & Hk). eapply yields_bind; [apply yields_publishProps|]. intros q n (Hwf & Hn & ps & Hps & Hl).
  ystep. eapply yields_bind; [apply yields_readRest|]. intros payload m ->. ystep.
  split_and!; [|done..]. split_and!; [|by norm_eq Hn|].
  - split_and!; [cbn; lia..|done|done].
  - cbn. unfold encodePublish. cbn [pub_QoS pub_PacketID pub_Topic pub_Properties pub_Payload fmap option_fmap option_map].
    run_encoder. eexists. split; [done|]. rewrite !length_app, Hk. lia.
Qed.

Lemma reason_bytes packetType r props k : validateReason packetType r = Ok tt → section_ok packetType props (k `max` 1) →
  ∃ bs, encodeReasonPacket packetType r (Some props) = Ok bs ∧ (length bs ≤ 1 + k)%nat.
Proof.
  intros Hr Hq. destruct (encoded_section _ _ _ Hq) as (ps & Hps & Hl). unfold encodeReasonPacket. run_encoder.
  repeat case_if; (eexists; split; [done|]); rewrite ?length_app; cbn; repeat case_bool_decide; try done; lia.
Qed.

Lemma section_trailing packet props k : section_ok packet props k → section_ok packet props (k `max` 1).
Proof. intros Hq. pose proof (section_bytes _ _ _ Hq). by rewrite Nat.max_l by lia. Qed.

Lemma disconnect_ok : yields (λ p, packet_ok (PDisconnect p)) decodeDisconnect.
Proof.
  unfold decodeDisconnect. ystep. case_if.
  { ystep. split_and!; [done|done|]. by eexists. }
  ystep. apply yields_lift. intros [] Hr. ystep. eapply (yields_bind (λ q k, section_ok DISCONNECT (PropsDisconnect q) (k `max` 1))).
  { case_if; [|by apply yields_ret, section_empty]. eapply yields_mono; [|apply yields_disconnectProps]. intros. by apply section_trailing. }
  intros q k Hq. ystep. split_and!; [by destruct Hq|done|]. cbn.
  destruct (reason_bytes DISCONNECT a (PropsDisconnect q) k) as (bs & Hbs & Hl); [done..|]. exists bs. split; [done|lia].
Qed.

Lemma auth_ok : yields (λ p, packet_ok (PAuth p)) decodeAuth.
Proof.
  unfold decodeAuth. ystep. case_if.
  { ystep. split_and!; [done|done|]. by eexists. }
  ystep. apply yields_lift. intros [] Hr. ystep. eapply (yields_bind (λ q k, section_ok AUTH (PropsAuth q) (k `max` 1))).
  { case_if; [|by apply yields_ret, section_empty]. eapply yields_mono; [|apply yields_authProps]. intros. by apply section_trailing. }
  intros q k Hq. ystep. split_and!; [done|destruct Hq as (_ & Hn & _); by norm_eq Hn|]. cbn.
  destruct (reason_bytes AUTH a (PropsAuth q) k) as (bs & Hbs & Hl); [done..|]. exists bs. split; [done|lia].
Qed.

Lemma empty_ok p : packet_ok p 0 → yields (λ p' n, p' = p ∧ packet_ok p n) (decodeEmpty p).
Proof. intros Hp. unfold decodeEmpty. repeat ystep. done. Qed.

Lemma connect_flags flags f : unpackConnectFlags flags = Ok f →
  0 ≤ cf_WillQOS f ≤ 2 ∧ (cf_WillFlag f = false → cf_WillQOS f = 0 ∧ cf_WillRetain f = false) ∧
  (cf_PasswordFlag f && negb (cf_UsernameFlag f) = false).
Proof.
  unfold unpackConnectFlags. case_if; [done|]. intros H. pose proof (land_3 (Z.shiftr flags 3)).
  inv_ok. cbn [cf_WillQOS cf_WillFlag cf_WillRetain cf_PasswordFlag cf_UsernameFlag] in *.
  split_and!; [lia|lia| |done]. intros Hw. rewrite Hw in *. cbn [negb] in *. inv_ok. split; [lia|done].
Qed.

(** The will of a CONNECT packet, as [encodeConnect] writes it. *)
Definition will_bytes (wp : option PublishProperties) (wt : string) (wm : list byte) : result WireError (list byte) :=
  willProps ← encodeProperties WILLPROPERTIES (PropsPublish <$> wp);
  _ ← validateTopicName CONNECT "will topic" wt false;
  willTopic ← writeString CONNECT "will topic" wt;
  willMessage ← writeBinary CONNECT "will message" wm;
  mret (willProps ++ willTopic ++ willMessage).

Definition will_ok (flag : bool) (w : option PublishProperties * string * list byte) (n : nat) : Prop :=
  let '(wp, wt, wm) := w in
  if flag then (∃ q, wp = Some q ∧ wf_props (PropsPublish q) ∧ norm_publish q = q) ∧
               ∃ bs, will_bytes wp wt wm = Ok bs ∧ (length bs ≤ n)%nat
  else w = (None, "", []).

Lemma yields_will (flag : bool) : yields (will_ok flag)
  (if flag then
     wp ← decodePublishProps WILLPROPERTIES;
     wt ← readString "will topic";
     _ ← lift (validateTopicName CONNECT "will topic" wt false);
     wm ← readBinary "will message";
     mret (Some wp, wt, wm)
   else mret (None, "", [])).
Proof.
  destruct flag; [|by ystep].
  eapply yields_bind; [apply yields_publishProps|]. intros q k (Hq & Hn & ps & Hps & Hl). do 4 ystep.
  destruct (writeString_good CONNECT "will topic" a) as (tb & Htb & Htl); [done|].
  destruct (writeBinary_good CONNECT "will message" a1) as (mb & Hmb & Hml); [done|].
  split; [exists q; split_and!; [done..|]; by injection Hn|].
  unfold will_bytes. cbn [fmap option_fmap option_map]. run_encoder. eexists. split; [done|]. len_le.
Qed.

Lemma yields_username (flag : bool) : yields (λ s n, (flag = false → s = "") ∧
    written (λ s, if flag then writeString CONNECT "username" s else Ok []) s n)
  (if flag then readString "username" else mret "").
Proof.
  destruct flag; [|ystep; split; [done|by exists []]]. eapply yields_mono; [|apply yields_readString].
  intros s n [Hs ->]. split; [done|]. destruct (writeString_good CONNECT "username" s Hs) as (bs & Hbs & Hl).
  exists bs. split; [done|lia].
Qed.

Lemma yields_password (flag : bool) : yields (λ s n, (flag = false → s = []) ∧
    written (λ s, if flag then writeBinary CONNECT "password" s else Ok []) s n)
  (if flag then readBinary "password" else mret []).
Proof.
  destruct flag; [|ystep; split; [done|by exists []]]. eapply yields_mono; [|apply yields_readBinary].
  intros s n [Hs ->]. split; [done|]. destruct (writeBinary_good CONNECT "password" s Hs) as (bs & Hbs & Hl).
  exists bs. split; [done|lia].
Qed.

Lemma will_facts flag wp wt wm n : will_ok flag (wp, wt, wm) n →
  opt_in (λ q, wf_props (PropsPublish q)) wp ∧
  (if flag then wm else []) = wm ∧ (if flag then wt else "") = wt ∧
  (if flag then Some (norm_publish (default emptyPublishProperties wp)) else None) = wp ∧
  ∃ bs, (if flag then will_bytes wp wt wm else Ok []) = Ok bs ∧ (length bs ≤ n)%nat.
Proof.
  unfold will_ok. destruct flag; [|intros [= -> -> ->]; split_and!; [done..|exists []; split; [done|cbn; lia]]].
  intros [(q & -> & Hq & Hn) Hb]. cbn. by rewrite Hn.
Qed.

Lemma connect_bytes p ps cb wb ub pb : con_ProtocolName p = "MQTT" → con_ProtocolVersion p = 5 → 0 ≤ con_WillQOS p ≤ 2 →
  (con_WillFlag p = false → con_WillQOS p = 0 ∧ con_WillRetain p = false) →
  con_PasswordFlag p && negb (con_UsernameFlag p) = false →
  encodeProperties CONNECT (PropsConnect <$> con_Properties p) = Ok ps → writeString CONNECT "client id" (con_ClientID p) = Ok cb →
  (if con_WillFlag p then will_bytes (con_WillProperties p) (con_WillTopic p) (con_WillMessage p) else Ok []) = Ok wb →
  (if con_UsernameFlag p then writeString CONNECT "username" (con_Username p) else Ok []) = Ok ub →
  (if con_PasswordFlag p then writeBinary CONNECT "password" (con_Password p) else Ok []) = Ok pb →
  ∃ bs, encodeConnect p = Ok bs ∧ length bs = (10 + length ps + length cb + length wb + length ub + length pb)%nat.
Proof.
  intros Hname Hv Hq Hw Hpw Hps Hcb Hwb Hub Hpb.
  assert (validateConnectForEncode p = Ok tt) as Hval.
  { unfold validateConnectForEncode. assert ((2 <? con_WillQOS p) = false) by lia. run_encoder.
    destruct (con_WillFlag p); cbn; [|destruct Hw as [-> ->]; [done|]; cbn]; run_encoder; done. }
  unfold encodeConnect. rewrite Hval, Hname, Hv. cbn -[writeString]. unfold will_bytes in Hwb.
  destruct (writeString CONNECT "protocol name" "MQTT") as [nb|] eqn:Hnb; [|by vm_compute in Hnb].
  assert (length nb = 6%nat) by (vm_compute in Hnb; by simplify_eq).
  run_encoder. eexists. split; [done|]. len_le.
Qed.

Lemma connect_ok : yields (λ p, packet_ok (PConnect p)) decodeConnect.
Proof.
  unfold decodeConnect. do 5 ystep. apply yields_lift. intros f Hf. ystep.
  destruct (connect_flags _ _ Hf) as (Hq & Hw & Hpw).
  eapply yields_bind; [apply yields_connectProps|]. intros q nq (Hwf & Hn & ps & Hps & Hl). ystep.
  destruct (writeString_good CONNECT "client id" a3) as (cb & Hcb & Hcl); [done|].
  eapply yields_bind; [apply yields_will|]. intros [[wp wt] wm] nw Hwill.
  destruct (will_facts _ _ _ _ _ Hwill) as (Hwp & Hwm & Hwt & Hwn & wb & Hwb & Hwl).
  eapply yields_bind; [apply yields_username|]. intros u nu (Hu & ub & Hub & Hul).
  eapply yields_bind; [apply yields_password|]. intros pw np (Hp & pb & Hpb & Hpl). ystep.
  apply bool_decide_eq_true in H0 as ->. apply Z.eqb_eq in H2 as ->. split_and!.
  - split_and!; [done|cbn; unfold is_u8; lia|done|done].
  - norm_eq Hn. rewrite Hwm, Hwt, Hwn. do 2 f_equal; [destruct (cf_PasswordFlag f)|destruct (cf_UsernameFlag f)]; symmetry; auto.
  - edestruct (connect_bytes (mkConnect wm pw u "MQTT" a3 wt (Some q) wp a2 5 (cf_WillQOS f) (cf_PasswordFlag f)
      (cf_UsernameFlag f) (cf_WillRetain f) (cf_WillFlag f) (cf_CleanStart f))) as (bs & Hbs & Hbl); [done..|].
    exists bs. split; [exact Hbs|]. change (length (go_bytes "MQTT")) with 4%nat. lia.
Qed.

(** ** Frames *)

(** What is written in the header of a decoded packet is what its body says. *)
Definition header_ok (packetType : Z) (p : Packet) : Prop :=
  PacketType p = packetType ∧ ∃ flags', fixedHeaderFlags p = Ok flags' ∧ validateFixedHeaderFlags packetType flags' = Ok tt.

Lemma publish_header flags p n : validateFixedHeaderFlags PUBLISH flags = Ok tt → packet_ok (PPublish p) n →
  pub_QoS p = Z.land (Z.shiftr flags 1) 3 → pub_Duplicate p = negb (Z.land flags 8 =? 0) → header_ok PUBLISH (PPublish p).
Proof.
  intros Hv ((Hq & _) & _) HQ HD. split; [done|]. unfold validateFixedHeaderFlags in Hv. cbn in Hv. rewrite <-HQ, <-HD in Hv.
  case_if_in Hv; [done|]. case_if_in Hv; [done|].
  assert (pub_QoS p = 0 → pub_Duplicate p = false) as Hd by (intros Hz; by rewrite Hz in *).
  exists (publishFlags p). destruct (publish_header_bits p Hq Hd) as (_ & HD' & HQ' & _).
  unfold fixedHeaderFlags, validateFixedHeaderFlags. cbn. rewrite HQ', HD'. run_encoder. done.
Qed.

Lemma yields_as {A} (mk : A → Packet) packetType (m : decoder A) :
  (∀ a, PacketType (mk a) = packetType) → (∀ a q, mk a ≠ PPublish q) → validateFixedHeaderFlags packetType
    (if (packetType =? PUBREL) || (packetType =? SUBSCRIBE) || (packetType =? UNSUBSCRIBE) then 2 else 0) = Ok tt →
  yields (λ a, packet_ok (mk a)) m →
  yields (λ p n, packet_ok p n ∧ header_ok packetType p) (m ≫= λ a, mret (mk a)).
Proof.
  intros Ht Hp Hv Hm. eapply yields_bind; [exact Hm|]. intros a n Ha. apply yields_ret. rewrite Nat.add_0_r.
  split; [done|]. split; [done|]. eexists. split; [|exact Hv]. rewrite <-(Ht a). specialize (Hp a).
  destruct (mk a); try done. by destruct (Hp p).
Qed.

Ltac as_packet H :=
  eapply yields_mono; [|apply H; [unfold reason_ctor; tauto|done..]];
  intros ? ? (? & Hn & ?); split_and!; [done|cbn [norm_packet]; by rewrite Hn|done].

Lemma body_ok packetType flags : validateFixedHeaderFlags packetType flags = Ok tt →
  yields (λ p n, packet_ok p n ∧ header_ok packetType p) (decodeBody packetType flags).
Proof.
  intros Hv. unfold decodeBody.
  repeat match goal with |- context [packetType =? ?k] => destruct (Z.eqb_spec packetType k) as [->|] end; try apply yields_fail.
  3:{ eapply yields_bind; [apply publish_ok|]. intros p k (Hp & Hq & Hd). apply yields_ret. rewrite Nat.add_0_r.
      split; [done|]. by eapply publish_header. }
  11,12: eapply yields_mono; [|apply empty_ok; split_and!; [done|done|by exists []]]; intros ? ? [-> ?]; split; [done|]; split; [done|by eexists].
  all: apply yields_as; [done|done|done|].
  - apply connect_ok.
  - apply connack_ok.
  - as_packet ack_ok.
  - as_packet ack_ok.
  - as_packet ack_ok.
  - as_packet ack_ok.
  - apply subscribe_ok.
  - as_packet codelist_ok.
  - apply unsubscribe_ok.
  - as_packet codelist_ok.
  - apply disconnect_ok.
  - apply auth_ok.
Qed.

Lemma decodePacket_ok packetType flags body p : validateFixedHeaderFlags packetType flags = Ok tt →
  decodePacket packetType flags body = Ok p → packet_ok p (length body) ∧ header_ok packetType p.
Proof.
  intros Hv. unfold decodePacket. destruct (decodeBody _ _ _) as [[q c]|] eqn:E; [|done].
  apply body_ok in E; [|done|unfold cur_ok; cbn; lia]. destruct E as (n & -> & Hc & (Hwf & Hn & bs & Hbs & Hl) & Hh).
  case_if; [done|]. intros [= <-]. split; [|done]. split_and!; [done..|]. exists bs. split; [done|].
  unfold cur_ok in Hc. cbn in Hc. lia.
Qed.

(** What a successful [Decode] read. *)
Lemma Decode_inv max r cp tl : Decode max r = Ok (cp, tl) →
  ∃ packetType flags remainingLength p, cp = mkControlPacket (Some p) (Some p) (mkFixedHeader packetType flags remainingLength) ∧
    packet_ok p (Z.to_nat remainingLength) ∧ header_ok packetType p ∧ 0 ≤ remainingLength ≤ maxRemainingLength ∧
    ((0 <? max) && (max <? 1 + minimalVBIBytes remainingLength + remainingLength)) = false ∧
    Z.of_nat (length r) = 1 + minimalVBIBytes remainingLength + remainingLength + Z.of_nat (length tl).
Proof.
  unfold Decode. destruct r as [|b r]; [done|]. rewrite ReadFull_1. cbv zeta. case_if; [done|].
  destruct (validateFixedHeaderFlags _ _) as [[]|] eqn:Hv; [|done].
  destruct (readRemainingLength r) as [[[n w] r']|] eqn:Hr; [|done].
  apply readRemainingLength_inv in Hr as (lb & Hlb & -> & Hw & Hmin).
  destruct (_ && _) eqn:Hmax; [done|]. unfold ReadFull. case_bool_decide as Hlen; [|by case_bool_decide].
  destruct (decodePacket _ _ _) as [p|] eqn:Hp; [|done]. intros [= <- <-].
  apply decodePacket_ok in Hp as [Hp Hh]; [|done]. rewrite length_take, Nat.min_l in Hp by lia.
  unfold encodeRemainingLength in Hlb. case_if_in Hlb; [done|]. bool_arith. rewrite Hmin in *.
  eexists _, _, n, p. split_and!; [done|done|done|lia|lia|done|]. cbn [length]. rewrite length_app, length_drop. lia.
Qed.

(** C8. The decoder returns only packets of the protocol.  Whatever bytes [Decode] accepts, from
    anyone, the packet it returns has every field in range and is one that [Encode] accepts under
    the same size limit (strings, topics, filters, reason codes, flags and properties are valid for
    its type); the encoding is no longer than the bytes it was read from, and reading it back gives
    the same packet, whatever follows. *)
Theorem Decode_typed max r cp tl : Decode max r = Ok (cp, tl) →
  ∃ p bs, CanonicalPacket cp = Some p ∧ wf_packet p ∧ fh_Type (cp_FixedHeader cp) = PacketType p ∧
    Encode max (Some cp) = Ok bs ∧ (length bs + length tl ≤ length r)%nat ∧
    ∀ tl', ∃ hdr, Decode max (bs ++ tl') = Ok (mkControlPacket (Some p) (Some p) hdr, tl').
Proof.
  intros HD. destruct (Decode_inv _ _ _ _ HD) as (t & fl & n & p & -> & (Hwf & Hn & body & Hb & Hl) & (Ht & fl' & Hfl & Hv) & Hr & Hmax & Hlen).
  pose proof (minimalVBIBytes_mono (Z.of_nat (length body)) n ltac:(lia)) as Hm.
  destruct (writeVBI_good 0 "" (Z.of_nat (length body))) as (rl & Hrl & Hrll); [lia|].
  assert (encodeRemainingLength (Z.of_nat (length body)) = Ok rl) as Hrl'.
  { unfold writeVBI in Hrl. destruct (encodeRemainingLength _); [by apply Ok_inj in Hrl as ->|done]. }
  assert (∃ bs, Encode max (Some (mkControlPacket (Some p) (Some p) (mkFixedHeader t fl n))) = Ok bs ∧
    length bs = (1 + length rl + length body)%nat) as (bs & Hbs & Hbl).
  { unfold Encode. cbn [CanonicalPacket cp_Content cp_FixedHeader fh_Type]. rewrite Ht, Z.eqb_refl, andb_false_r.
    assert ((maxRemainingLength <? Z.of_nat (length body)) = false) by lia.
    assert ((0 <? max) && (max <? 1 + Z.of_nat (length rl) + Z.of_nat (length body)) = false) by lia.
    run_encoder. eexists. split; [done|]. len_le. }
  exists p, bs. split_and!; [done|done|by rewrite Ht|done|lia|]. intros tl'.
  destruct (decode_encoded max (mkControlPacket (Some p) (Some p) (mkFixedHeader t fl n)) p bs tl') as (_ & ? & ? & ? & _ & _ & _ & Hd);
    [done..|]. rewrite Hn in Hd. eauto.
Qed.

(** A QoS 1 PUBLISH with a user property, an empty content type and a trailing byte. *)
Definition sample_frame : list byte :=
  z2b <$> [0x32; 19; 0; 1; 97; 0; 7; 10; 3; 0; 0; 38; 0; 1; 107; 0; 1; 118; 104; 105; 33; 255].

Lemma Decode_typed_witness : ∃ cp tl p bs,
  Decode 0 sample_frame = Ok (cp, tl) ∧ CanonicalPacket cp = Some p ∧ wf_packet p ∧
  Encode 0 (Some cp) = Ok bs ∧ (length bs + length tl ≤ length sample_frame)%nat.
Proof.
  destruct (Decode 0 sample_frame) as [[cp tl]|] eqn:HD; [|vm_compute in HD; discriminate].
  destruct (Decode_typed 0 sample_frame cp tl HD) as (p & bs & Hp & Hwf & _ & Hbs & Hl & _).
  exists cp, tl, p, bs. split_and!; [reflexivity|exact Hp|exact Hwf|exact Hbs|exact Hl].
Defined.
