(* ===== verification/SubCore.v ===== *)
(** * The subscription trie of one shard

    [src/internal/broker/subcenter/memory/sub_core.go]: [SubCore], a trie of
    topic levels whose nodes hold the subscribing clients, together with the
    index from a client to its topic filters.

    Go maps are [gmap]s; a nil and an empty map are not told apart (every write
    of the code first replaces a nil map, every read treats it as empty).  The
    order in which Go iterates over a map is unspecified: the definitions use
    the order of [map_to_list], and every theorem about an iteration is stated
    up to order.  [visit] callbacks become folds over the list of visited nodes,
    in the order of the visits. *)

From S2P Require Import Prelude GoStrings Topic.

(** ** Data ([topic.proto]) *)

Record SubOption := mkSubOption {
  so_QoS : Z;
  so_RetainAsPublished : bool;
  so_Topic : string;
  so_NoLocal : bool;
  so_RetainHandling : Z;
  so_SubscriptionIdentifier : Z }.

#[export] Instance SubOption_eq_dec : EqDecision SubOption.
Proof. solve_decision. Defined.

#[warnings="-register-all"]
Inductive TreeNode := mkTreeNode {
  tn_TopicSection : string;
  tn_Topic : string;
  tn_Client : gmap string SubOption;
  tn_ChildNode : gmap string TreeNode;
  tn_ClusterSub : gmap string Z }.

Record SubCore := mkSubCore {
  sc_root : TreeNode;
  sc_clients : gmap string (gmap string SubOption) }.

Record MatchedSubscription := mkMatched {
  ms_TopicFilter : string;
  ms_QoS : Z;
  ms_RetainAsPublished : bool;
  ms_NoLocal : bool;
  ms_RetainHandling : Z;
  ms_SubscriptionIdentifier : Z }.

Definition NewSubCore : SubCore := mkSubCore (mkTreeNode "/" "/" ∅ ∅ ∅) ∅.

(** [NewSubCoreFromProto]: [core.Root.TreeRoot] and [core.Clients] of a decoded
    snapshot, each of which may be missing. *)
Definition NewSubCoreFromProto (root : option TreeNode)
    (clients : option (gmap string (gmap string SubOption))) : SubCore :=
  mkSubCore (default (mkTreeNode "/" "/" ∅ ∅ ∅) root) (default ∅ clients).

(** ** Validation *)

Fixpoint validateFilterLevels (n i : nat) (levels : list string) : result string unit :=
  match levels with
  | [] => Ok tt
  | lv :: rest =>
      if bool_decide (lv = "#") then
        if negb (bool_decide (i = (n - 1)%nat))
        then Err "invalid topic filter: # must be last level"
        else validateFilterLevels n (S i) rest
      else if contains_byte hash_char lv
      then Err "invalid topic filter: # must occupy entire level"
      else if negb (bool_decide (lv = "+")) && contains_byte plus_char lv
      then Err "invalid topic filter: + must occupy entire level"
      else validateFilterLevels n (S i) rest
  end.

Definition validateTopicFilter (filter : string) : result string unit :=
  if bool_decide (filter = "") then Err "invalid topic filter: empty"
  else
    let levels := SplitTopicLevels filter in
    validateFilterLevels (length levels) 0 levels.

Fixpoint validatePublishLevels (levels : list string) : result string unit :=
  match levels with
  | [] => Ok tt
  | lv :: rest =>
      if bool_decide (lv = "+") || bool_decide (lv = "#") ||
         contains_byte plus_char lv || contains_byte hash_char lv
      then Err "invalid publish topic: contains wildcard"
      else validatePublishLevels rest
  end.

Definition validatePublishTopic (topic : string) : result string unit :=
  if bool_decide (topic = "") then Err "invalid publish topic: empty"
  else validatePublishLevels (SplitTopicLevels topic).

(** ** Which filter wins *)

Definition is_wild (lv : string) : bool := bool_decide (lv = "+") || bool_decide (lv = "#").

Definition countWildcards (levels : list string) : Z :=
  foldl (λ n lv, if is_wild lv then n + 1 else n) 0 levels.

Definition isMoreSpecificFilter (a b : string) : bool :=
  let al := SplitTopicLevels a in
  let bl := SplitTopicLevels b in
  let aw := countWildcards al in
  let bw := countWildcards bl in
  if negb (aw =? bw) then aw <? bw
  else if negb (bool_decide (length al = length bl)) then bool_decide (length bl < length al)%nat
  else string_ltb a b.

Definition allowRootWildcardsForPublish (topicLevels : list string) : bool :=
  match topicLevels with
  | [] => true
  | l0 :: _ => negb (has_prefix l0 "$")
  end.

(** ** Updates *)

Definition set_Client (m : gmap string SubOption) (n : TreeNode) : TreeNode :=
  mkTreeNode (tn_TopicSection n) (tn_Topic n) m (tn_ChildNode n) (tn_ClusterSub n).
Definition set_Topic (topic : string) (n : TreeNode) : TreeNode :=
  mkTreeNode (tn_TopicSection n) topic (tn_Client n) (tn_ChildNode n) (tn_ClusterSub n).
Definition set_Child (level : string) (child : TreeNode) (n : TreeNode) : TreeNode :=
  mkTreeNode (tn_TopicSection n) (tn_Topic n) (tn_Client n)
    (<[level := child]> (tn_ChildNode n)) (tn_ClusterSub n).

Definition newNode (level : string) : TreeNode := mkTreeNode level "" ∅ ∅ ∅.

(** The descent of [createSub]: missing nodes are created, [upd] is what happens
    at the last one. *)
Fixpoint insertPath (levels : list string) (upd : TreeNode → TreeNode) (node : TreeNode) : TreeNode :=
  match levels with
  | [] => upd node
  | level :: rest =>
      let child := default (newNode level) (tn_ChildNode node !! level) in
      set_Child level (insertPath rest upd child) node
  end.

(** The descent of [deleteSub] and [deleteTopic]: [None] when a level is missing. *)
Fixpoint updatePath (levels : list string) (upd : TreeNode → TreeNode) (node : TreeNode)
    : option TreeNode :=
  match levels with
  | [] => Some (upd node)
  | level :: rest =>
      match tn_ChildNode node !! level with
      | None => None
      | Some child =>
          match updatePath rest upd child with
          | None => None
          | Some child' => Some (set_Child level child' node)
          end
      end
  end.

(** The node a path of levels leads to. *)
Fixpoint nodeAt (levels : list string) (node : TreeNode) : option TreeNode :=
  match levels with
  | [] => Some node
  | level :: rest => tn_ChildNode node !! level ≫= nodeAt rest
  end.

Definition createSub (t : SubCore) (clientID : string) (subOption : SubOption)
    : result string SubCore :=
  let topicFilter := so_Topic subOption in
  _ ← validateTopicFilter topicFilter;
  let topicLevels := SplitTopicLevels topicFilter in
  _ ← check (bool_decide (length topicLevels = 0%nat)) "invalid topic filter: empty";
  let root := insertPath topicLevels
    (λ n, set_Client (<[clientID := subOption]> (tn_Client n)) (set_Topic topicFilter n))
    (sc_root t) in
  let subTopics := default ∅ (sc_clients t !! clientID) in
  mret (mkSubCore root (<[clientID := <[topicFilter := subOption]> subTopics]> (sc_clients t))).

(** [delete(subTopics.Topics, topic)], and the client's entry once it is empty. *)
Definition dropClientTopic (clientID topic : string)
    (clients : gmap string (gmap string SubOption)) : gmap string (gmap string SubOption) :=
  match clients !! clientID with
  | None => clients
  | Some topics =>
      let topics' := delete topic topics in
      if bool_decide (topics' = ∅) then delete clientID clients
      else <[clientID := topics']> clients
  end.

Definition deleteSub (t : SubCore) (topic clientID : string) : SubCore :=
  match updatePath (SplitTopicLevels topic)
          (λ n, set_Client (delete clientID (tn_Client n)) n) (sc_root t) with
  | None => t
  | Some root => mkSubCore root (dropClientTopic clientID topic (sc_clients t))
  end.

Definition deleteTopic (t : SubCore) (topic : string) : SubCore * list string :=
  let levels := SplitTopicLevels topic in
  match nodeAt levels (sc_root t), updatePath levels (set_Client ∅) (sc_root t) with
  | Some node, Some root =>
      let removed := (map_to_list (tn_Client node)).*1 in
      (mkSubCore root (foldl (λ cs clientID, dropClientTopic clientID topic cs) (sc_clients t) removed),
       removed)
  | _, _ => (t, [])
  end.

Definition deleteClient (t : SubCore) (clientID : string) : SubCore :=
  match sc_clients t !! clientID with
  | None => t
  | Some topics =>
      foldl (λ t subOption, deleteSub t (so_Topic subOption) clientID) t (map_to_list topics).*2
  end.

(** ** Matching *)

Definition matchingHashChild (node : TreeNode) (depth : nat) (rootWildcardsAllowed : bool)
    : option TreeNode :=
  if bool_decide (depth = 0%nat) && negb rootWildcardsAllowed then None
  else tn_ChildNode node !! "#".

(** The closure [match] below the root; [levels] is [topicLevels[depth:]]. *)
Fixpoint matchFrom (rootWildcardsAllowed : bool) (levels : list string) (depth : nat)
    (node : TreeNode) : list TreeNode :=
  option_list (matchingHashChild node depth rootWildcardsAllowed) ++
  match levels with
  | [] => [node]
  | level :: rest =>
      match tn_ChildNode node !! level with
      | Some child => matchFrom rootWildcardsAllowed rest (S depth) child
      | None => []
      end ++
      match tn_ChildNode node !! "+" with
      | Some plusChild =>
          if negb (bool_decide (depth = 0%nat)) || rootWildcardsAllowed
          then matchFrom rootWildcardsAllowed rest (S depth) plusChild else []
      | None => []
      end
  end.

Definition walkSharedSubscriptionRoots (root : TreeNode) (match_ : TreeNode → list TreeNode)
    : list TreeNode :=
  match tn_ChildNode root !! "$share" with
  | None => []
  | Some shareRoot => mjoin (match_ <$> (map_to_list (tn_ChildNode shareRoot)).*2)
  end.

(** The nodes [visit] is called on, in order. *)
Definition walkMatchingTopicNodes (t : SubCore) (topic : string) : list TreeNode :=
  let topicLevels := SplitTopicLevels topic in
  match validatePublishTopic topic with
  | Err _ => []
  | Ok _ =>
      if bool_decide (length topicLevels = 0%nat) then []
      else
        let allowed := allowRootWildcardsForPublish topicLevels in
        walkSharedSubscriptionRoots (sc_root t) (matchFrom allowed topicLevels 0) ++
        matchFrom allowed topicLevels 0 (sc_root t)
  end.

Definition nodeMaxQoS (node : TreeNode) : Z :=
  foldl (λ maxQoS c, if maxQoS <? so_QoS c then so_QoS c else maxQoS) 0
    (map_to_list (tn_Client node)).*2.

Definition matchTopic (t : SubCore) (topic : string) : gmap string Z :=
  foldl (λ result node,
    if bool_decide (tn_Topic node = "") then result
    else
      let qos := nodeMaxQoS node in
      if default 0 (result !! tn_Topic node) <? qos then <[tn_Topic node := qos]> result else result)
    ∅ (walkMatchingTopicNodes t topic).

(** Whether [incoming] replaces the option kept so far. *)
Definition replaces (incoming : SubOption) (existing : option SubOption) : bool :=
  match existing with
  | None => true
  | Some e =>
      (so_QoS e <? so_QoS incoming) ||
      ((so_QoS incoming =? so_QoS e) && isMoreSpecificFilter (so_Topic incoming) (so_Topic e))
  end.

Definition mergeMatchedNodeClients (result : gmap string SubOption) (node : TreeNode)
    : gmap string SubOption :=
  foldl (λ result '(clientID, incoming),
    if replaces incoming (result !! clientID) then <[clientID := incoming]> result else result)
    result (map_to_list (tn_Client node)).

Definition matchTopicClient (t : SubCore) (topic : string) : gmap string SubOption :=
  foldl mergeMatchedNodeClients ∅ (walkMatchingTopicNodes t topic).

Definition matchedSubscriptionFromOption (opt : SubOption) : MatchedSubscription :=
  mkMatched (so_Topic opt) (so_QoS opt) (so_RetainAsPublished opt) (so_NoLocal opt)
    (so_RetainHandling opt) (so_SubscriptionIdentifier opt).

Definition appendMatchedNodeClients (result : gmap string (list MatchedSubscription))
    (node : TreeNode) : gmap string (list MatchedSubscription) :=
  foldl (λ result '(clientID, opt),
    <[clientID := default [] (result !! clientID) ++ [matchedSubscriptionFromOption opt]]> result)
    result (map_to_list (tn_Client node)).

Definition matchTopicClientV2 (t : SubCore) (topic : string) : gmap string (list MatchedSubscription) :=
  foldl appendMatchedNodeClients ∅ (walkMatchingTopicNodes t topic).

(** [collectAllTopics]: a [gmap] is nested in the node type, so the recursion
    goes through [map_fold]. *)
Fixpoint collectAllTopics (node : TreeNode) : list string :=
  match node with
  | mkTreeNode section topic _ children _ =>
      (if negb (bool_decide (topic = "")) && negb (bool_decide (section = "#")) &&
          negb (bool_decide (section = "+"))
       then [topic] else []) ++
      map_fold (λ _ child acc, collectAllTopics child ++ acc) [] children
  end.

(** For nodes whose [ChildNode] map is not nil, as [createSub] makes them; the code returns
    early at a nil map, which only a restored snapshot has. *)
Fixpoint matchForWildcard (levels : list string) (node : TreeNode) : list string :=
  match levels with
  | [] => if bool_decide (tn_Topic node = "") then [] else [tn_Topic node]
  | section :: rest =>
      if bool_decide (section = "+") then
        mjoin ((λ '(k, child),
          if negb (bool_decide (k = "#")) && negb (bool_decide (k = "+"))
          then matchForWildcard rest child else []) <$> map_to_list (tn_ChildNode node))
      else if bool_decide (section = "#") then collectAllTopics node
      else match tn_ChildNode node !! section with
           | Some child => matchForWildcard rest child
           | None => []
           end
  end.

Definition matchTopicForWildcard (t : SubCore) (wildcardTopic : string) : list string :=
  matchForWildcard (SplitTopicLevels wildcardTopic) (sc_root t).

(** The copies the code builds have all six fields of the original. *)
Definition getClientSubscriptions (t : SubCore) (clientID : string) : gmap string SubOption :=
  match sc_clients t !! clientID with
  | None => ∅
  | Some topics =>
      (λ o, mkSubOption (so_QoS o) (so_RetainAsPublished o) (so_Topic o) (so_NoLocal o)
              (so_RetainHandling o) (so_SubscriptionIdentifier o)) <$> topics
  end.
