(* ===== verification/SubCoreProofs.v ===== *)
(** * Correctness of the subscription trie

    The invariant tying the trie to the client index, its preservation by the
    updates, and the matching theorems: the walk visits exactly the nodes whose
    filter covers the published topic, so the per-client results contain every
    matching subscription once ([matchTopicClientV2]) and the preferred one
    ([matchTopicClient]). *)

From S2P Require Import Prelude GoStrings Topic SubCore.

(** ** Reading a trie *)

(** The subscription of [c] at the node a path leads to, with the node's topic. *)
Definition entryAt (q : list string) (c : string) (n : TreeNode) : option (string * SubOption) :=
  nodeAt q n ≫= λ m, pair (tn_Topic m) <$> tn_Client m !! c.

Definition client_sub (t : SubCore) (c f : string) : option SubOption :=
  sc_clients t !! c ≫= (.!! f).

Record core_ok (t : SubCore) : Prop := mkCoreOk {
  ok_agree c f : entryAt (SplitTopicLevels f) c (sc_root t) = pair f <$> client_sub t c f;
  ok_path q c e : entryAt q c (sc_root t) = Some e → ∃ f, q = SplitTopicLevels f;
  ok_filter c f o : client_sub t c f = Some o →
    so_Topic o = f ∧ validateTopicFilter f = Ok tt;
  ok_nonempty c m : sc_clients t !! c = Some m → m ≠ ∅ }.

(** [upd] keeps the children of the node it is applied to. *)
Definition keeps_children (upd : TreeNode → TreeNode) : Prop :=
  ∀ n, tn_ChildNode (upd n) = tn_ChildNode n.

(** The node [insertPath] applies its update to. *)
Fixpoint pathNode (levels : list string) (n : TreeNode) : TreeNode :=
  match levels with
  | [] => n
  | level :: rest => pathNode rest (default (newNode level) (tn_ChildNode n !! level))
  end.

Lemma entryAt_cons l q c n :
  entryAt (l :: q) c n = tn_ChildNode n !! l ≫= entryAt q c.
Proof. unfold entryAt. cbn. by destruct (tn_ChildNode n !! l). Qed.

Lemma entryAt_newNode q l c : entryAt q c (newNode l) = None.
Proof. by destruct q. Qed.

Lemma entryAt_default q l c (o : option TreeNode) :
  entryAt q c (default (newNode l) o) = o ≫= entryAt q c.
Proof. destruct o; [done|]. apply entryAt_newNode. Qed.

Lemma pathNode_client p c n : tn_Client (pathNode p n) !! c = snd <$> entryAt p c n.
Proof.
  revert n. induction p as [|l p IH]; intros n.
  { unfold entryAt. cbn. by destruct (tn_Client n !! c). }
  cbn [pathNode]. by rewrite IH, entryAt_default, entryAt_cons.
Qed.

Lemma entryAt_insertPath_same p upd c n :
  entryAt p c (insertPath p upd n) =
    pair (tn_Topic (upd (pathNode p n))) <$> tn_Client (upd (pathNode p n)) !! c.
Proof.
  revert n. induction p as [|l p IH]; intros n; [done|].
  rewrite entryAt_cons. cbn. rewrite lookup_insert_eq. apply IH.
Qed.

Lemma entryAt_insertPath_other p q upd c n :
  keeps_children upd → q ≠ p → entryAt q c (insertPath p upd n) = entryAt q c n.
Proof.
  intros Hu. revert q n. induction p as [|l p IH]; intros q n Hne.
  - destruct q as [|k q]; [done|]. rewrite !entryAt_cons. cbn. by rewrite Hu.
  - destruct q as [|k q]; [done|]. rewrite !entryAt_cons. cbn.
    destruct (decide (k = l)) as [->|]; [|by rewrite lookup_insert_ne].
    rewrite lookup_insert_eq. cbn. rewrite IH by congruence. apply entryAt_default.
Qed.

Lemma updatePath_spec p upd n :
  updatePath p upd n =
    match nodeAt p n with None => None | Some _ => Some (insertPath p upd n) end.
Proof.
  revert n. induction p as [|l p IH]; intros n; [done|]. cbn.
  destruct (tn_ChildNode n !! l) as [child|]; [|done]. cbn. rewrite IH.
  by destruct (nodeAt p child).
Qed.

Lemma nodeAt_pathNode p n m : nodeAt p n = Some m → pathNode p n = m.
Proof.
  revert n. induction p as [|l p IH]; intros n; cbn; [congruence|].
  destruct (tn_ChildNode n !! l); [|done]. apply IH.
Qed.

Lemma nodeAt_None_entry p c n : nodeAt p n = None → entryAt p c n = None.
Proof. unfold entryAt. by intros ->. Qed.

(** ** Updates preserve the invariant *)

Lemma NewSubCore_ok : core_ok NewSubCore.
Proof.
  assert (∀ q c, entryAt q c (sc_root NewSubCore) = None) as He by (by intros []).
  split.
  - intros c f. by rewrite He.
  - intros q c e. by rewrite He.
  - intros c f o. done.
  - intros c m. done.
Qed.

Lemma createSub_inv t c o t' :
  createSub t c o = Ok t' →
  validateTopicFilter (so_Topic o) = Ok tt ∧
  t' = mkSubCore
         (insertPath (SplitTopicLevels (so_Topic o))
            (λ n, set_Client (<[c := o]> (tn_Client n)) (set_Topic (so_Topic o) n)) (sc_root t))
         (<[c := <[so_Topic o := o]> (default ∅ (sc_clients t !! c))]> (sc_clients t)).
Proof.
  unfold createSub. intros H. apply bind_Ok_inv in H as ([] & Hv & H).
  apply bind_Ok_inv in H as (? & _ & H). inv_ok. done.
Qed.

Lemma createSub_total t c o :
  validateTopicFilter (so_Topic o) = Ok tt → is_Ok (createSub t c o).
Proof.
  intros Hv. unfold createSub. rewrite Hv. cbn [mbind result_mbind result_bind].
  rewrite bool_decide_eq_false_2; [eexists; reflexivity|].
  unfold validateTopicFilter in Hv. case_bool_decide; [done|].
  intros Hl%nil_length_inv. by apply SplitTopicLevels_nonempty in Hl.
Qed.

Lemma createSub_client_sub t c o t' c' f :
  createSub t c o = Ok t' →
  client_sub t' c' f =
    if bool_decide (c' = c ∧ f = so_Topic o) then Some o else client_sub t c' f.
Proof.
  intros (_ & ->)%createSub_inv. unfold client_sub. cbn.
  destruct (decide (c' = c)) as [->|Hc].
  - rewrite lookup_insert_eq. cbn. destruct (decide (f = so_Topic o)) as [->|Hf].
    + by rewrite lookup_insert_eq, bool_decide_eq_true_2.
    + rewrite lookup_insert_ne, bool_decide_eq_false_2 by naive_solver.
      by destruct (sc_clients t !! c).
  - rewrite lookup_insert_ne, bool_decide_eq_false_2 by naive_solver. done.
Qed.

Lemma createSub_ok t c o t' : core_ok t → createSub t c o = Ok t' → core_ok t'.
Proof.
  intros Hok Hc. pose proof (createSub_inv _ _ _ _ Hc) as (Hv & Ht).
  pose proof (λ c' f, createSub_client_sub _ _ _ _ c' f Hc) as Hsub.
  assert (∀ n, tn_ChildNode (set_Client (<[c := o]> (tn_Client n)) (set_Topic (so_Topic o) n))
                = tn_ChildNode n) as Hkeep by done.
  split.
  - intros c' f. rewrite Hsub. subst t'. cbn.
    destruct (decide (f = so_Topic o)) as [->|Hf].
    + rewrite entryAt_insertPath_same. cbn. destruct (decide (c' = c)) as [->|Hne].
      * by rewrite lookup_insert_eq, bool_decide_eq_true_2.
      * rewrite lookup_insert_ne, pathNode_client, (ok_agree t Hok), bool_decide_eq_false_2
          by naive_solver. by destruct (client_sub t c' (so_Topic o)).
    + rewrite entryAt_insertPath_other; [|done|by intros ?%SplitTopicLevels_inj].
      rewrite bool_decide_eq_false_2 by naive_solver. apply (ok_agree t Hok).
  - intros q c' e. subst t'. cbn.
    destruct (decide (q = SplitTopicLevels (so_Topic o))) as [->|Hq]; [by eexists|].
    rewrite entryAt_insertPath_other by done. apply (ok_path t Hok).
  - intros c' f o'. rewrite Hsub. case_bool_decide as Hb; [|apply (ok_filter t Hok)].
    intros [= ->]. naive_solver.
  - intros c' m. subst t'. cbn. destruct (decide (c' = c)) as [->|].
    + rewrite lookup_insert_eq. intros [= <-]. apply insert_non_empty.
    + rewrite lookup_insert_ne by done. apply (ok_nonempty t Hok).
Qed.

Lemma dropClientTopic_lookup c f cs c' f' :
  dropClientTopic c f cs !! c' ≫= (.!! f') =
    if bool_decide (c' = c ∧ f' = f) then None else cs !! c' ≫= (.!! f').
Proof.
  unfold dropClientTopic. destruct (cs !! c) as [m|] eqn:E.
  2:{ case_bool_decide as Hb; [|done]. destruct Hb as [-> _]. by rewrite E. }
  case_bool_decide as He; (destruct (decide (c' = c)) as [->|Hc];
    [rewrite ?lookup_delete_eq, ?lookup_insert_eq, E
    |rewrite ?lookup_delete_ne, ?lookup_insert_ne, bool_decide_eq_false_2 by naive_solver; done]).
  - case_bool_decide as Hb; [done|]. cbn. symmetry.
    rewrite <-(lookup_delete_ne m f f') by naive_solver. by rewrite He.
  - cbn. destruct (decide (f' = f)) as [->|Hf].
    + by rewrite lookup_delete_eq, bool_decide_eq_true_2.
    + by rewrite lookup_delete_ne, bool_decide_eq_false_2 by naive_solver.
Qed.

Lemma dropClientTopic_nonempty c f cs :
  (∀ c m, cs !! c = Some m → m ≠ ∅) → ∀ c' m, dropClientTopic c f cs !! c' = Some m → m ≠ ∅.
Proof.
  intros Hcs c' m. unfold dropClientTopic. destruct (cs !! c) as [m'|] eqn:E; [|apply Hcs].
  case_bool_decide as He; (destruct (decide (c' = c)) as [->|Hc]).
  - by rewrite lookup_delete_eq.
  - rewrite lookup_delete_ne by done. apply Hcs.
  - rewrite lookup_insert_eq. by intros [= <-].
  - rewrite lookup_insert_ne by done. apply Hcs.
Qed.

(** Removing some subscriptions at one filter: what the three deletions share. *)
Lemma remove_ok t f upd t' :
  core_ok t → keeps_children upd → (∀ n, tn_Topic (upd n) = tn_Topic n) →
  sc_root t' = insertPath (SplitTopicLevels f) upd (sc_root t) →
  (∀ c f', f' ≠ f → client_sub t' c f' = client_sub t c f') →
  (∀ c n, nodeAt (SplitTopicLevels f) (sc_root t) = Some n →
     tn_Client (upd n) !! c = client_sub t' c f) →
  (∀ c o, client_sub t' c f = Some o → client_sub t c f = Some o) →
  (∀ c m, sc_clients t' !! c = Some m → m ≠ ∅) →
  is_Some (nodeAt (SplitTopicLevels f) (sc_root t)) → core_ok t'.
Proof.
  intros Hok Hk Ht Hroot Hother Hsame Hsub Hne [n Hn].
  pose proof (nodeAt_pathNode _ _ _ Hn) as Hp. split.
  - intros c g. rewrite Hroot. destruct (decide (g = f)) as [->|Hg].
    + rewrite entryAt_insertPath_same, Hp, Ht, (Hsame c n Hn).
      destruct (client_sub t' c f) as [o|] eqn:E; [|done]. apply Hsub in E.
      pose proof (ok_agree t Hok c f) as Ha. rewrite E in Ha. unfold entryAt in Ha.
      rewrite Hn in Ha. cbn in Ha. destruct (tn_Client n !! c); [|done]. cbn in *. congruence.
    + rewrite entryAt_insertPath_other; [|done|by intros ?%SplitTopicLevels_inj].
      rewrite Hother by done. apply (ok_agree t Hok).
  - intros q c e. rewrite Hroot. destruct (decide (q = SplitTopicLevels f)) as [->|Hq]; [by eexists|].
    rewrite entryAt_insertPath_other by done. apply (ok_path t Hok).
  - intros c g o Hg. apply (ok_filter t Hok c). destruct (decide (g = f)) as [->|]; [auto|].
    by rewrite <-Hother.
  - exact Hne.
Qed.

Lemma nodeAt_client_sub t c f n :
  core_ok t → nodeAt (SplitTopicLevels f) (sc_root t) = Some n →
  tn_Client n !! c = client_sub t c f.
Proof.
  intros Hok Hn. pose proof (ok_agree t Hok c f) as Ha. unfold entryAt in Ha. rewrite Hn in Ha.
  cbn in Ha. destruct (tn_Client n !! c), (client_sub t c f); cbn in Ha; congruence.
Qed.

Lemma nodeAt_None_client_sub t c f :
  core_ok t → nodeAt (SplitTopicLevels f) (sc_root t) = None → client_sub t c f = None.
Proof.
  intros Hok Hn. pose proof (ok_agree t Hok c f) as Ha. unfold entryAt in Ha. rewrite Hn in Ha.
  by destruct (client_sub t c f).
Qed.

Lemma deleteSub_client_sub t f c c' f' :
  core_ok t →
  client_sub (deleteSub t f c) c' f' =
    if bool_decide (c' = c ∧ f' = f) then None else client_sub t c' f'.
Proof.
  intros Hok. unfold deleteSub. rewrite updatePath_spec.
  destruct (nodeAt _ _) eqn:Hn; [apply dropClientTopic_lookup|].
  case_bool_decide as Hb; [|done]. destruct Hb as [-> ->]. by apply nodeAt_None_client_sub.
Qed.

Lemma deleteSub_ok t f c : core_ok t → core_ok (deleteSub t f c).
Proof.
  intros Hok. pose proof (λ c' f', deleteSub_client_sub t f c c' f' Hok) as Hs.
  revert Hs. unfold deleteSub. rewrite updatePath_spec.
  destruct (nodeAt _ _) as [n|] eqn:Hn; [|done]. intros Hs.
  eapply (remove_ok t f (λ n, set_Client (delete c (tn_Client n)) n)); [done|by intros ?|by intros ?|done| | | | |by eexists].
  - intros c' f' Hf. rewrite Hs, bool_decide_eq_false_2; naive_solver.
  - intros c' n' Hn'. rewrite Hs. cbn. destruct (decide (c' = c)) as [->|].
    + by rewrite lookup_delete_eq, bool_decide_eq_true_2.
    + rewrite lookup_delete_ne, bool_decide_eq_false_2 by naive_solver. by apply nodeAt_client_sub.
  - intros c' o. rewrite Hs. by case_bool_decide.
  - apply dropClientTopic_nonempty, (ok_nonempty t Hok).
Qed.

Lemma fold_dropClientTopic f l cs c' f' :
  foldl (λ cs c, dropClientTopic c f cs) cs l !! c' ≫= (.!! f') =
    if bool_decide (c' ∈ l ∧ f' = f) then None else cs !! c' ≫= (.!! f').
Proof.
  revert cs. induction l as [|c l IH]; intros cs; cbn.
  { rewrite bool_decide_eq_false_2; [done|]. intros [H%elem_of_nil _]. done. }
  rewrite IH, dropClientTopic_lookup. repeat case_bool_decide; try done; set_solver.
Qed.

Lemma fold_dropClientTopic_nonempty f l cs :
  (∀ c m, cs !! c = Some m → m ≠ ∅) →
  ∀ c' m, foldl (λ cs c, dropClientTopic c f cs) cs l !! c' = Some m → m ≠ ∅.
Proof.
  revert cs. induction l as [|c l IH]; intros cs Hcs; cbn; [done|].
  apply IH, dropClientTopic_nonempty, Hcs.
Qed.

Lemma deleteTopic_client_sub t f c' f' :
  core_ok t →
  client_sub (deleteTopic t f).1 c' f' = if bool_decide (f' = f) then None else client_sub t c' f'.
Proof.
  intros Hok. unfold deleteTopic. rewrite updatePath_spec.
  destruct (nodeAt _ _) as [n|] eqn:Hn.
  - cbn. unfold client_sub. cbn. rewrite fold_dropClientTopic.
    destruct (decide (f' = f)) as [->|]; [|by rewrite !bool_decide_eq_false_2 by naive_solver].
    rewrite (bool_decide_eq_true_2 (f = f)) by done. case_bool_decide as Hb; [done|].
    change (client_sub t c' f = None). rewrite <-(nodeAt_client_sub t c' f n) by done.
    destruct (tn_Client n !! c') as [o|] eqn:E; [|done]. destruct Hb. split; [|done].
    apply list_elem_of_fmap. exists (c', o). split; [done|]. by apply elem_of_map_to_list.
  - cbn. case_bool_decide; [|done]. subst. by apply nodeAt_None_client_sub.
Qed.

(** The clients [deleteTopic] reports are those that had the filter, once each. *)
Lemma deleteTopic_removed t f c :
  core_ok t → c ∈ (deleteTopic t f).2 ↔ is_Some (client_sub t c f).
Proof.
  intros Hok. unfold deleteTopic. rewrite updatePath_spec.
  destruct (nodeAt _ _) as [n|] eqn:Hn; cbn.
  - rewrite <-(nodeAt_client_sub t c f n) by done. rewrite list_elem_of_fmap. split.
    + intros ([c' o] & -> & H%elem_of_map_to_list). by eexists.
    + intros [o Ho]. exists (c, o). split; [done|]. by apply elem_of_map_to_list.
  - rewrite nodeAt_None_client_sub by done. split; [by intros ?%elem_of_nil|by intros []].
Qed.

Lemma deleteTopic_NoDup t f : NoDup (deleteTopic t f).2.
Proof.
  unfold deleteTopic. rewrite updatePath_spec. destruct (nodeAt _ _); cbn; [|constructor].
  apply NoDup_fst_map_to_list.
Qed.

Lemma deleteTopic_ok t f : core_ok t → core_ok (deleteTopic t f).1.
Proof.
  intros Hok. pose proof (λ c' f', deleteTopic_client_sub t f c' f' Hok) as Hs.
  revert Hs. unfold deleteTopic. rewrite updatePath_spec.
  destruct (nodeAt _ _) as [n|] eqn:Hn; [|done]. cbn. intros Hs.
  eapply (remove_ok t f (set_Client ∅)); [done|by intros ?|by intros ?|done| | | | |by eexists].
  - intros c' f' Hf. by rewrite Hs, bool_decide_eq_false_2.
  - intros c' n' Hn'. by rewrite Hs, bool_decide_eq_true_2.
  - intros c' o. by rewrite Hs, bool_decide_eq_true_2.
  - apply fold_dropClientTopic_nonempty, (ok_nonempty t Hok).
Qed.

Lemma fold_deleteSub_ok l c t :
  core_ok t → core_ok (foldl (λ t o, deleteSub t (so_Topic o) c) t l) ∧
  ∀ c' f', client_sub (foldl (λ t o, deleteSub t (so_Topic o) c) t l) c' f' =
    if bool_decide (c' = c ∧ f' ∈ so_Topic <$> l) then None else client_sub t c' f'.
Proof.
  revert t. induction l as [|o l IH]; intros t Hok.
  { split; [done|]. intros. rewrite bool_decide_eq_false_2; [done|]. by intros [_ ?%elem_of_nil]. }
  cbn. destruct (IH (deleteSub t (so_Topic o) c)) as [Hok' Hs]; [by apply deleteSub_ok|].
  split; [done|]. intros c' f'. rewrite Hs, deleteSub_client_sub by done.
  repeat case_bool_decide; try done; set_solver.
Qed.

Lemma deleteClient_spec t c :
  core_ok t → core_ok (deleteClient t c) ∧
  ∀ c' f, client_sub (deleteClient t c) c' f =
    if bool_decide (c' = c) then None else client_sub t c' f.
Proof.
  intros Hok. unfold deleteClient. destruct (sc_clients t !! c) as [m|] eqn:E.
  - destruct (fold_deleteSub_ok (map_to_list m).*2 c t Hok) as [Hok' Hs].
    split; [done|]. intros c' f. rewrite Hs. destruct (decide (c' = c)) as [->|];
      [|by rewrite !bool_decide_eq_false_2 by naive_solver].
    rewrite (bool_decide_eq_true_2 (c = c)) by done. case_bool_decide as Hb; [done|].
    unfold client_sub. rewrite E. cbn. destruct (m !! f) as [o|] eqn:Eo; [|done].
    destruct Hb. split; [done|].
    assert (so_Topic o = f) as Ht by (apply (ok_filter t Hok c); unfold client_sub; by rewrite E).
    apply list_elem_of_fmap. exists o. split; [done|]. apply list_elem_of_fmap. exists (f, o).
    split; [done|]. by apply elem_of_map_to_list.
  - split; [done|]. intros c' f. case_bool_decide; [|done]. subst. unfold client_sub. by rewrite E.
Qed.

(** ** The walk *)

(** [matchFrom] with the path of every visited node. *)
Fixpoint matchPaths (allowed : bool) (levels : list string) (depth : nat) (node : TreeNode)
    : list (list string * TreeNode) :=
  (pair ["#"] <$> option_list (matchingHashChild node depth allowed)) ++
  match levels with
  | [] => [([], node)]
  | level :: rest =>
      match tn_ChildNode node !! level with
      | Some child => prod_map (cons level) id <$> matchPaths allowed rest (S depth) child
      | None => []
      end ++
      match tn_ChildNode node !! "+" with
      | Some plusChild =>
          if negb (bool_decide (depth = 0%nat)) || allowed
          then prod_map (cons "+") id <$> matchPaths allowed rest (S depth) plusChild else []
      | None => []
      end
  end.

Lemma fmap_snd_prod_map (l : string) (xs : list (list string * TreeNode)) :
  (prod_map (cons l) id <$> xs).*2 = xs.*2.
Proof. rewrite <-list_fmap_compose. by apply list_fmap_ext. Qed.
Lemma fmap_fst_prod_map (F : list string → list string) (xs : list (list string * TreeNode)) :
  (prod_map F id <$> xs).*1 = F <$> xs.*1.
Proof. rewrite <-!list_fmap_compose. by apply list_fmap_ext. Qed.

Lemma matchFrom_paths allowed levels depth node :
  matchFrom allowed levels depth node = (matchPaths allowed levels depth node).*2.
Proof.
  assert (∀ o : option TreeNode, option_list o = (pair ["#"] <$> option_list o).*2) as Ho by (by intros []).
  revert depth node. induction levels as [|l levels IH]; intros depth node;
    cbn [matchFrom matchPaths]; rewrite !fmap_app, <-Ho; [done|]. f_equal. f_equal.
  - destruct (tn_ChildNode node !! l); [|done]. by rewrite fmap_snd_prod_map.
  - destruct (tn_ChildNode node !! "+"); [|done]. destruct (_ || _); [|done].
    by rewrite fmap_snd_prod_map.
Qed.

(** A path matches the topic levels; at the root, wildcards only if allowed. *)
Definition path_matches (allowed : bool) (depth : nat) (p ts : list string) : Prop :=
  levels_match p ts ∧ (depth = 0%nat → allowed = false → ∀ l, head p = Some l → is_wild l = false).

Lemma path_matches_S allowed d p ts : path_matches allowed (S d) p ts ↔ levels_match p ts.
Proof. unfold path_matches. naive_solver. Qed.

Lemma literal_not_wild l : literal_level l → l ≠ "#" ∧ l ≠ "+".
Proof. intros [Hp Hh]. split; intros ->; [discriminate Hh|discriminate Hp]. Qed.

Lemma levels_match_hash p ts : levels_match ("#" :: p) ts ↔ p = [].
Proof. split; [by inversion 1|]. intros ->. constructor. Qed.

Lemma levels_match_head l p ts :
  l ≠ "#" → l ≠ "+" → levels_match (l :: p) ts → head ts = Some l.
Proof. intros ?? H. by inversion H. Qed.

Lemma levels_match_cons l p t ts :
  l ≠ "#" → t ≠ "#" ∧ t ≠ "+" →
  levels_match (l :: p) (t :: ts) ↔ (l = "+" ∨ l = t) ∧ levels_match p ts.
Proof.
  intros Hl [Ht1 Ht2]. split; [inversion 1; subst; try done; auto|].
  intros [[-> | ->] H]; [by apply lm_plus|by apply lm_literal].
Qed.

Lemma hash_path_elem allowed depth node p n :
  (p, n) ∈ pair ["#"] <$> option_list (matchingHashChild node depth allowed) ↔
  p = ["#"] ∧ nodeAt p node = Some n ∧ (depth = 0%nat → allowed = true).
Proof.
  unfold matchingHashChild.
  destruct (bool_decide (depth = 0%nat) && negb allowed) eqn:Hd.
  - apply andb_true_iff in Hd as [Hd%bool_decide_eq_true Ha%negb_true_iff].
    split; [by intros ?%elem_of_nil|]. intros (_ & _ & Hx). rewrite Hx in Ha by done. done.
  - assert (depth = 0%nat → allowed = true) as Hx.
    { intros ->. destruct allowed; [done|]. done. }
    destruct (tn_ChildNode node !! "#") as [h|] eqn:E; cbn.
    + rewrite list_elem_of_singleton. split; [intros [= -> ->]; cbn; by rewrite E|].
      intros (-> & Hn & _). cbn in Hn. rewrite E in Hn. cbn in Hn. congruence.
    + split; [by intros ?%elem_of_nil|]. intros (-> & Hn & _). cbn in Hn. by rewrite E in Hn.
Qed.

Lemma matchPaths_elem allowed levels depth node p n :
  Forall literal_level levels →
  (p, n) ∈ matchPaths allowed levels depth node ↔
  nodeAt p node = Some n ∧ path_matches allowed depth p levels.
Proof.
  intros Hl. revert depth node p. induction Hl as [|t ts Ht Hts IH]; intros depth node p.
  - cbn. rewrite elem_of_app, hash_path_elem, list_elem_of_singleton. unfold path_matches.
    destruct p as [|l p]; cbn.
    + split; [|intros [[= ->] _]; by right]. intros [(?&_)|[= ->]]; [done|].
      split; [done|]. split; [constructor|done].
    + split.
      * intros [([= -> ->] & Hn & Hd)|?]; [|done]. split; [done|]. split; [constructor|].
        intros -> ->. by specialize (Hd eq_refl).
      * intros (Hn & Hm & Hw). left. assert (l = "#" ∧ p = []) as [-> ->] by (by inversion Hm).
        split_and!; [done..|]. intros Hd. destruct allowed; [done|].
        by specialize (Hw Hd eq_refl "#" eq_refl).
  - apply literal_not_wild in Ht as Ht'. destruct p as [|l p].
    { cbn. rewrite !elem_of_app, hash_path_elem. split.
      - intros [(?&_)|[H|H]]; [done| |]; repeat case_match; try (by apply elem_of_nil in H);
          apply list_elem_of_fmap in H as ([] & [=] & _).
      - intros [_ [Hm _]]. inversion Hm. }
    cbn [matchPaths]. rewrite !elem_of_app, hash_path_elem. unfold path_matches.
    destruct (decide (l = "#")) as [->|Hlh].
    { rewrite levels_match_hash. split.
      - intros [([= ->] & Hn & Hd)|[H|H]].
        + split_and!; [done..|]. intros -> ->. by specialize (Hd eq_refl).
        + case_match; [|by apply elem_of_nil in H].
          apply list_elem_of_fmap in H as ([] & [= <- _ _] & _). naive_solver.
        + repeat case_match; try (by apply elem_of_nil in H).
          apply list_elem_of_fmap in H as ([] & [=] & _).
      - intros (Hn & -> & Hw). left. split_and!; [done..|]. intros Hd. destruct allowed; [done|].
        by specialize (Hw Hd eq_refl "#" eq_refl). }
    rewrite levels_match_cons by done. cbn [nodeAt head]. split.
    + intros [(?&_)|[H|H]]; [congruence| |].
      * destruct (tn_ChildNode node !! t) as [ch|] eqn:E; [|by apply elem_of_nil in H].
        apply list_elem_of_fmap in H as ([p' n'] & [= -> -> ->] & [H1 H2]%IH).
        rewrite path_matches_S in H2. rewrite E. split_and!; [done|by right|done|].
        intros _ _ ? [= <-]. unfold is_wild. by rewrite !bool_decide_eq_false_2 by naive_solver.
      * destruct (tn_ChildNode node !! "+") as [ch|] eqn:E; [|by apply elem_of_nil in H].
        destruct (negb (bool_decide (depth = 0%nat)) || allowed) eqn:Hd; [|by apply elem_of_nil in H].
        apply list_elem_of_fmap in H as ([p' n'] & [= -> -> ->] & [H1 H2]%IH).
        rewrite path_matches_S in H2. rewrite E. split_and!; [done|by left|done|].
        intros -> ->. done.
    + intros (Hn & [Hlt Hm] & Hw). right.
      destruct (tn_ChildNode node !! l) as [ch|] eqn:E; [|done]. cbn in Hn.
      destruct (decide (l = t)) as [->|Hne].
      * left. rewrite E. apply list_elem_of_fmap. exists (p, n). split; [done|].
        apply IH. by rewrite path_matches_S.
      * right. destruct Hlt as [->|]; [|done]. rewrite E.
        replace (negb (bool_decide (depth = 0%nat)) || allowed) with true.
        { apply list_elem_of_fmap. exists (p, n). split; [done|]. apply IH. by rewrite path_matches_S. }
        destruct allowed; [by rewrite orb_true_r|]. case_bool_decide as Hd; [|done].
        by specialize (Hw Hd eq_refl "+" eq_refl).
Qed.

Lemma NoDup_cons_paths (l : string) (ps : list (list string)) :
  NoDup ps → NoDup (cons l <$> ps).
Proof. apply NoDup_fmap_2. by intros ?? [= ->]. Qed.

(** Lists of paths with different first levels do not overlap. *)
Lemma NoDup_heads (l1 l2 l3 : string) (p1 p2 p3 : list (list string)) :
  l1 ≠ l2 → l1 ≠ l3 → l2 ≠ l3 →
  NoDup p1 → NoDup p2 → NoDup p3 → (∀ p, p ∈ p1 → head p = Some l1) →
  (∀ p, p ∈ p2 → head p = Some l2) → (∀ p, p ∈ p3 → head p = Some l3) → NoDup (p1 ++ p2 ++ p3).
Proof.
  intros ?????? H1 H2 H3. apply NoDup_app. split_and!; [done| |apply NoDup_app; split_and!; [done| |done]].
  - intros p Hp%H1 [Hq%H2|Hq%H3]%elem_of_app; congruence.
  - intros p Hp%H2 Hq%H3. congruence.
Qed.

Lemma head_prod_map (l : string) (xs : list (list string * TreeNode)) p :
  p ∈ (prod_map (cons l) id <$> xs).*1 → head p = Some l.
Proof. rewrite fmap_fst_prod_map. by intros (q & -> & _)%list_elem_of_fmap. Qed.

Lemma NoDup_prod_map (l : string) (xs : list (list string * TreeNode)) :
  NoDup xs.*1 → NoDup (prod_map (cons l) id <$> xs).*1.
Proof. rewrite fmap_fst_prod_map. apply NoDup_cons_paths. Qed.

Lemma matchPaths_NoDup allowed levels depth node :
  Forall literal_level levels → NoDup (matchPaths allowed levels depth node).*1.
Proof.
  intros Hl. revert depth node. induction Hl as [|t ts Ht Hts IH]; intros depth node.
  - cbn. rewrite fmap_app. destruct (matchingHashChild _ _ _); cbn; repeat constructor; set_solver.
  - apply literal_not_wild in Ht as [Ht1 Ht2]. cbn [matchPaths]. rewrite !fmap_app.
    apply (NoDup_heads "#" t "+"); try done.
    + destruct (matchingHashChild _ _ _); cbn; repeat constructor; set_solver.
    + case_match; [by apply NoDup_prod_map|constructor].
    + repeat case_match; [by apply NoDup_prod_map|constructor..].
    + destruct (matchingHashChild _ _ _); cbn; [by intros ? ->%list_elem_of_singleton|by intros ? ?%elem_of_nil].
    + case_match; [apply head_prod_map|by intros ? ?%elem_of_nil].
    + repeat case_match; [apply head_prod_map|by intros ? ?%elem_of_nil..].
Qed.

(** The whole walk with paths: shared groups first, then the trie itself. *)
Definition walkPaths (t : SubCore) (topic : string) : list (list string * TreeNode) :=
  let ts := SplitTopicLevels topic in
  let allowed := allowRootWildcardsForPublish ts in
  match tn_ChildNode (sc_root t) !! "$share" with
  | None => []
  | Some shareRoot =>
      mjoin ((λ '(g, groupNode), prod_map (λ p, "$share" :: g :: p) id <$> matchPaths allowed ts 0 groupNode)
                <$> map_to_list (tn_ChildNode shareRoot))
  end ++ matchPaths allowed ts 0 (sc_root t).

Lemma validatePublishLevels_literal ls : validatePublishLevels ls = Ok tt ↔ Forall literal_level ls.
Proof.
  induction ls as [|l ls IH]; cbn; [split; [constructor|done]|].
  rewrite Forall_cons, <-IH. unfold literal_level.
  destruct (contains_byte plus_char l) eqn:Hp, (contains_byte hash_char l) eqn:Hh;
    rewrite ?orb_true_r; try naive_solver.
  rewrite !bool_decide_eq_false_2 by (intros ->; done). cbn. naive_solver.
Qed.

Lemma validatePublishTopic_spec topic :
  validatePublishTopic topic = Ok tt ↔
  topic ≠ "" ∧ Forall literal_level (SplitTopicLevels topic).
Proof.
  unfold validatePublishTopic. case_bool_decide; [naive_solver|].
  rewrite validatePublishLevels_literal. naive_solver.
Qed.

Lemma walk_paths t topic :
  validatePublishTopic topic = Ok tt →
  walkMatchingTopicNodes t topic = (walkPaths t topic).*2.
Proof.
  intros Hv. unfold walkMatchingTopicNodes, walkPaths, walkSharedSubscriptionRoots. rewrite Hv.
  apply validatePublishTopic_spec in Hv as [Hne _].
  rewrite bool_decide_eq_false_2
    by (intros ?%nil_length_inv; by apply (SplitTopicLevels_nonempty topic)).
  rewrite fmap_app, <-matchFrom_paths. f_equal. case_match; [|done].
  generalize (map_to_list (tn_ChildNode t0)) as gs.
  induction gs as [|[g n] gs IH]; [done|]. rewrite !fmap_cons.
  repeat match goal with |- context [mjoin (?x :: ?l)] => change (mjoin (x :: l)) with (x ++ mjoin l) end.
  rewrite fmap_app, <-IH. f_equal.
  rewrite matchFrom_paths, <-list_fmap_compose. by apply list_fmap_ext.
Qed.

(** When the walk reaches the node of a path. *)
Definition walk_reaches (topic : string) (p : list string) : Prop :=
  let ts := SplitTopicLevels topic in
  let pm := path_matches (allowRootWildcardsForPublish ts) 0 in
  (∃ g rest, p = "$share" :: g :: rest ∧ pm rest ts) ∨ pm p ts.

Lemma walkPaths_elem t topic p n :
  Forall literal_level (SplitTopicLevels topic) →
  (p, n) ∈ walkPaths t topic ↔ nodeAt p (sc_root t) = Some n ∧ walk_reaches topic p.
Proof.
  intros Hl. unfold walkPaths, walk_reaches. rewrite elem_of_app, matchPaths_elem by done.
  assert (∀ A C D E : Prop, (A ↔ C ∧ D) → (A ∨ (C ∧ E) ↔ C ∧ (D ∨ E))) as Hlogic by tauto.
  apply Hlogic. clear Hlogic. split.
  - destruct (tn_ChildNode (sc_root t) !! "$share") as [sr|] eqn:E; [|by intros ?%elem_of_nil].
    intros (xs & Hx & ([g gn] & -> & Hg%elem_of_map_to_list)%list_elem_of_fmap)%list_elem_of_join.
    apply list_elem_of_fmap in Hx as ([q m] & [= -> ->] & [Hq Hm]%matchPaths_elem); [|done].
    cbn. rewrite E. cbn. rewrite Hg. cbn. split; [done|]. by exists g, q.
  - intros (Hn & g & rest & -> & Hm). cbn in Hn.
    destruct (tn_ChildNode (sc_root t) !! "$share") as [sr|] eqn:E; [|done]. cbn in Hn.
    destruct (tn_ChildNode sr !! g) as [gn|] eqn:Eg; [|done]. cbn in Hn.
    apply list_elem_of_join. eexists. split.
    2:{ apply list_elem_of_fmap. exists (g, gn). split; [done|]. by apply elem_of_map_to_list. }
    cbn. apply list_elem_of_fmap. exists (rest, n). split; [done|]. by apply matchPaths_elem.
Qed.

Lemma walkPaths_NoDup t topic :
  Forall literal_level (SplitTopicLevels topic) →
  head (SplitTopicLevels topic) ≠ Some "$share" → topic ≠ "" →
  NoDup (walkPaths t topic).*1.
Proof.
  intros Hl Hh Hne. unfold walkPaths. rewrite fmap_app. apply NoDup_app. split_and!.
  - case_match; [|constructor]. clear -Hl.
    assert (NoDup (map_to_list (tn_ChildNode t0)).*1) as Hnd by apply NoDup_fst_map_to_list.
    revert Hnd. generalize (map_to_list (tn_ChildNode t0)) as gs.
    induction gs as [|[g n] gs IH]; [constructor|]. rewrite !fmap_cons.
    match goal with |- context [mjoin (?x :: ?l)] => change (mjoin (x :: l)) with (x ++ mjoin l) end.
    intros [Hg Hgs]%NoDup_cons. rewrite fmap_app. apply NoDup_app. split_and!; [| |by apply IH].
    + rewrite fmap_fst_prod_map. apply NoDup_fmap_2; [by intros ?? [= ->]|by apply matchPaths_NoDup].
    + intros p ([q m] & -> & ([q' m'] & [= -> ->] & _)%list_elem_of_fmap)%list_elem_of_fmap Hx.
      cbn in Hx. apply list_elem_of_fmap in Hx as ([p' m''] & Hp & Hx). cbn in Hp.
      apply list_elem_of_join in Hx as (xs & Hx & ([g' n'] & -> & Hg')%list_elem_of_fmap).
      apply list_elem_of_fmap in Hx as ([r k] & [= -> ->] & _). injection Hp as <- _.
      apply Hg, list_elem_of_fmap. by exists (g, n').
  - intros p Hp Hm. apply list_elem_of_fmap in Hm as ([p' n] & -> & [_ [Hm _]]%matchPaths_elem); [|done].
    cbn in *. case_match; [|by apply elem_of_nil in Hp].
    apply list_elem_of_fmap in Hp as ([q m] & Hq & Hx). cbn in Hq. subst p'.
    apply list_elem_of_join in Hx as (xs & Hx & ([g' n'] & -> & _)%list_elem_of_fmap).
    apply list_elem_of_fmap in Hx as ([r k] & [= -> _] & _).
    by apply Hh, (levels_match_head "$share" (g' :: r)).
  - by apply matchPaths_NoDup.
Qed.

(** ** Validated filters are accepted by the trie *)

Lemma validateFilterLevels_same n i ls :
  validateFilterLevels n i ls = Ok tt ↔ validateLevels n i ls = Ok tt.
Proof.
  revert i. induction ls as [|l ls IH]; intros i; [done|].
  cbn [validateFilterLevels validateLevels]. rewrite (andb_comm (negb _)).
  case_bool_decide; [destruct (negb _); [done|apply IH]|].
  destruct (contains_byte hash_char l); [done|]. destruct (_ && _); [done|apply IH].
Qed.

Lemma validateTopicFilter_spec f :
  validateTopicFilter f = Ok tt ↔ f ≠ "" ∧ filter_levels (SplitTopicLevels f).
Proof.
  unfold validateTopicFilter. case_bool_decide as Hf; [naive_solver|]. cbv zeta.
  rewrite validateFilterLevels_same, validateLevels_Split by done. naive_solver.
Qed.

Lemma SplitTopicLevels_shared g f :
  share_parts g f →
  SplitTopicLevels (BuildSharedSubscriptionTopicFilter g f) = "$share" :: g :: SplitTopicLevels f.
Proof.
  intros (Hg & Hf & Hs & Hw). unfold SplitTopicLevels. rewrite (bool_decide_eq_false_2 (f = "")) by done.
  rewrite <- (split_byte_app slash g f) by done.
  change (BuildSharedSubscriptionTopicFilter g f) with
    (String.append "$share" (String slash (String.append g (String slash f)))).
  rewrite bool_decide_eq_false_2 by done. by rewrite split_byte_app.
Qed.

Lemma contains_any_wildcards g :
  contains_any g "+#" = false → contains_byte plus_char g = false ∧ contains_byte hash_char g = false.
Proof.
  induction g as [|c g IH]; [done|]. cbn [contains_any contains_byte].
  intros [Hc Hg]%orb_false_iff. destruct (IH Hg) as [-> ->].
  cbn in Hc. rewrite !orb_false_iff, !bool_decide_eq_false in Hc. destruct Hc as (H1 & H2 & _).
  by rewrite !bool_decide_eq_false_2.
Qed.

Lemma syntax_check_implies_trie f :
  ValidateTopicFilterSyntax f = Ok tt → validateTopicFilter f = Ok tt.
Proof.
  rewrite ValidateTopicFilterSyntax_spec, validateTopicFilter_spec. intros [Hf Hv]. split; [done|].
  destruct (has_prefix f "$share/"); [|done]. destruct Hv as (g & f' & -> & Hp & Hl).
  rewrite SplitTopicLevels_shared by done. apply fl_cons; [by left|]. apply fl_cons; [|done]. left.
  destruct Hp as (_ & _ & _ & [H1 H2]%contains_any_wildcards). by split.
Qed.

(** ** Which subscriptions a topic reaches *)

(** Specification: a stored filter covers a published topic.  A shared
    subscription [$share/{group}/{filter}] covers what [filter] matches. *)
Definition covers (f topic : string) : bool :=
  match SplitTopicLevels f with
  | l0 :: _ :: rest =>
      if bool_decide (l0 = "$share") then MatchTopicFilter (join_byte slash rest) topic
      else MatchTopicFilter f topic
  | _ => MatchTopicFilter f topic
  end.

(** What a shared subscription covers is what its inner filter matches. *)
Lemma covers_shared s g f topic : ParseSharedSubscription s = Ok (g, f) →
  covers s topic = MatchTopicFilter f topic.
Proof.
  intros [-> Hp]%ParseSharedSubscription_spec. unfold covers. rewrite SplitTopicLevels_shared by done.
  rewrite bool_decide_true by done. by rewrite join_SplitTopicLevels.
Qed.

Lemma is_wild_spec l : is_wild l = true ↔ l = "+" ∨ l = "#".
Proof. unfold is_wild. rewrite orb_true_iff, !bool_decide_eq_true. done. Qed.

Lemma path_matches_filter f topic :
  f ≠ "" → topic ≠ "" →
  path_matches (allowRootWildcardsForPublish (SplitTopicLevels topic)) 0
    (SplitTopicLevels f) (SplitTopicLevels topic) ↔ MatchTopicFilter f topic = true.
Proof.
  intros Hf Ht. rewrite MatchTopicFilter_levels, andb_true_iff, levels_matchb_spec by done.
  pose proof (SplitTopicLevels_nonempty f Hf). pose proof (SplitTopicLevels_nonempty topic Ht).
  unfold path_matches, allowRootWildcardsForPublish.
  destruct (SplitTopicLevels f) as [|f0 fl], (SplitTopicLevels topic) as [|t0 tl]; try done.
  cbn [head]. destruct (has_prefix t0 "$") eqn:Et; cbn [negb andb]; [|naive_solver].
  split; intros [H1 H2]; split; [|done|done|].
  - destruct (is_wild f0) eqn:Ew; [by rewrite H2 in Ew|].
    assert (f0 = t0) as ->; [|by rewrite Et].
    inversion H1; subst; done.
  - intros _ _ ? [= <-]. apply not_true_is_false. intros [-> | ->]%is_wild_spec; done.
Qed.

Lemma SplitTopicLevels_rest (rest : list string) f :
  rest `suffix_of` SplitTopicLevels f → rest ≠ [] → rest ≠ [""] →
  join_byte slash rest ≠ "" ∧ SplitTopicLevels (join_byte slash rest) = rest.
Proof.
  intros [pre Hs] H1 H2.
  assert (Forall (λ p, contains_byte slash p = false) rest) as Hall.
  { assert (Forall (λ p, contains_byte slash p = false) (SplitTopicLevels f)) as Hf.
    { unfold SplitTopicLevels. case_bool_decide; [constructor|apply split_byte_parts]. }
    rewrite Hs in Hf. by apply Forall_app in Hf as [_ ?]. }
  pose proof (split_join slash rest H1 Hall) as Hj.
  assert (join_byte slash rest ≠ "") as Hne by (intros Hx; rewrite Hx in Hj; by subst).
  split; [done|]. unfold SplitTopicLevels. by rewrite bool_decide_eq_false_2.
Qed.

Lemma walk_reaches_covers f topic :
  topic ≠ "" → head (SplitTopicLevels topic) ≠ Some "$share" →
  walk_reaches topic (SplitTopicLevels f) ↔ covers f topic = true.
Proof.
  intros Ht Hh. unfold walk_reaches, covers.
  set (ts := SplitTopicLevels topic) in *. set (a := allowRootWildcardsForPublish ts).
  assert (path_matches a 0 (SplitTopicLevels f) ts ↔ MatchTopicFilter f topic = true) as Hplain.
  { destruct (decide (f = "")) as [->|]; [|by apply path_matches_filter]. split; [|done].
    intros [Hm _]. inversion Hm. by destruct (SplitTopicLevels_nonempty topic). }
  assert ((∀ g rest, SplitTopicLevels f = "$share" :: g :: rest → False) →
    ((∃ g rest, SplitTopicLevels f = "$share" :: g :: rest ∧ path_matches a 0 rest ts) ∨
      path_matches a 0 (SplitTopicLevels f) ts ↔ MatchTopicFilter f topic = true)) as Hno.
  { intros Hns. rewrite Hplain. naive_solver. }
  destruct (SplitTopicLevels f) as [|l0 [|g rest]] eqn:Es.
  - apply Hno. naive_solver.
  - apply Hno. naive_solver.
  - case_bool_decide as Hl; [subst l0|apply Hno; naive_solver].
    assert (¬ path_matches a 0 ("$share" :: g :: rest) ts) as Hn.
    { intros [Hm _]. by apply Hh, (levels_match_head "$share" (g :: rest)). }
    transitivity (path_matches a 0 rest ts); [naive_solver|].
    destruct (decide (rest = [])) as [->|Hr1].
    { cbn. split; [|done]. intros [Hm _]. inversion Hm. by destruct (SplitTopicLevels_nonempty topic). }
    destruct (decide (rest = [""])) as [->|Hr2].
    { cbn. split; [|done]. intros [Hm _]. inversion Hm as [| | |??? _ _ Hm' Hx Hx2]; subst.
      inversion Hm'; subst. exfalso. apply Ht. rewrite <-(join_SplitTopicLevels topic).
      fold ts. by rewrite <-Hx2. }
    destruct (SplitTopicLevels_rest rest f) as [Hj1 Hj2]; [|done..|].
    { exists ["$share"; g]. done. }
    rewrite <-(path_matches_filter _ topic) by done. by rewrite Hj2.
Qed.

(** The subscriptions of one client at the visited nodes, in visiting order. *)
Definition matched_opts (t : SubCore) (topic c : string) : list SubOption :=
  omap (λ n, tn_Client n !! c) (walkMatchingTopicNodes t topic).

Lemma matched_opts_elem t topic c o :
  core_ok t → validatePublishTopic topic = Ok tt →
  head (SplitTopicLevels topic) ≠ Some "$share" →
  o ∈ matched_opts t topic c ↔
  client_sub t c (so_Topic o) = Some o ∧ covers (so_Topic o) topic = true.
Proof.
  intros Hok Hv Hh. unfold matched_opts. rewrite list_elem_of_omap, walk_paths by done.
  apply validatePublishTopic_spec in Hv as [Hne Hl]. split.
  - intros (n & Hx & Ho). apply list_elem_of_fmap in Hx as ([p n'] & -> & Hx).
    apply walkPaths_elem in Hx as [Hn Hr]; [|done]. cbn in Ho. destruct (ok_path t Hok p c (tn_Topic n', o)) as [f ->].
    { unfold entryAt. rewrite Hn. cbn. by rewrite Ho. }
    rewrite (nodeAt_client_sub t c f n') in Ho by done.
    pose proof (ok_filter t Hok c f o Ho) as [-> _]. split; [done|]. by apply walk_reaches_covers.
  - intros [Hs Hc]. pose proof (ok_agree t Hok c (so_Topic o)) as Ha. rewrite Hs in Ha.
    unfold entryAt in Ha. destruct (nodeAt _ (sc_root t)) as [n|] eqn:Hn; [|done].
    exists n. split; [|by rewrite (nodeAt_client_sub t c _ n Hok Hn)].
    apply list_elem_of_fmap. exists (SplitTopicLevels (so_Topic o), n). split; [done|].
    apply walkPaths_elem; [done|]. split; [done|]. by apply walk_reaches_covers.
Qed.

Lemma matched_opts_NoDup t topic c :
  core_ok t → validatePublishTopic topic = Ok tt →
  head (SplitTopicLevels topic) ≠ Some "$share" →
  NoDup (so_Topic <$> matched_opts t topic c).
Proof.
  intros Hok Hv Hh. unfold matched_opts. rewrite walk_paths by done.
  apply validatePublishTopic_spec in Hv as [Hne Hl].
  pose proof (walkPaths_NoDup t topic Hl Hh Hne) as Hnd.
  assert (∀ x, x ∈ walkPaths t topic → nodeAt x.1 (sc_root t) = Some x.2) as Hat.
  { intros [p n] H. by apply walkPaths_elem in H as [? _]. }
  revert Hnd Hat. generalize (walkPaths t topic) as l.
  induction l as [|[p n] l IH]; intros Hnd Hat; [constructor|]. cbn in Hnd |- *.
  apply NoDup_cons in Hnd as [Hp Hnd]. specialize (IH Hnd ltac:(set_solver)).
  destruct (tn_Client n !! c) as [o|] eqn:Eo; [|done]. cbn. constructor; [|done].
  intros (o' & Ht & (n' & ([p' m] & -> & Hx)%list_elem_of_fmap & Ho')%list_elem_of_omap)%list_elem_of_fmap.
  apply Hp, list_elem_of_fmap. exists (p', m). split; [|done]. cbn in *.
  assert (∀ q k w, nodeAt q (sc_root t) = Some k → tn_Client k !! c = Some w →
            q = SplitTopicLevels (so_Topic w)) as Hq.
  { intros q k w Hk Hw. destruct (ok_path t Hok q c (tn_Topic k, w)) as [f ->].
    { unfold entryAt. rewrite Hk. cbn. by rewrite Hw. }
    rewrite (nodeAt_client_sub t c f k) in Hw by done.
    by destruct (ok_filter t Hok c f w Hw) as [-> _]. }
  rewrite (Hq p n o) by (done || apply (Hat (p, n)); by left).
  rewrite (Hq p' m o') by (done || apply (Hat (p', m)); by right). by rewrite Ht.
Qed.

(** What a client has in the index and covers the topic. *)
Definition covering_subs (t : SubCore) (topic c : string) : list SubOption :=
  filter (λ o, covers (so_Topic o) topic = true) (map_to_list (default ∅ (sc_clients t !! c))).*2.

Lemma client_topics_elem t c o :
  core_ok t → o ∈ (map_to_list (default ∅ (sc_clients t !! c))).*2 ↔ client_sub t c (so_Topic o) = Some o.
Proof.
  intros Hok. unfold client_sub. rewrite list_elem_of_fmap. split.
  - intros ([f o'] & -> & H%elem_of_map_to_list). cbn.
    destruct (sc_clients t !! c) as [m|] eqn:E; [|done]. cbn in *.
    assert (so_Topic o' = f) as -> by (apply (ok_filter t Hok c); unfold client_sub; by rewrite E). done.
  - destruct (sc_clients t !! c) as [m|] eqn:E; [|done]. cbn. intros H.
    exists (so_Topic o, o). split; [done|]. by apply elem_of_map_to_list.
Qed.

Lemma client_topics_NoDup t c :
  core_ok t → NoDup (map_to_list (default ∅ (sc_clients t !! c))).*2.
Proof.
  intros Hok. apply (NoDup_fmap_1 so_Topic). rewrite <-list_fmap_compose.
  erewrite (list_fmap_ext _ fst); [apply NoDup_fst_map_to_list|].
  intros i [f o] Hx%list_elem_of_lookup_2%elem_of_map_to_list. cbn.
  apply (ok_filter t Hok c). unfold client_sub.
  destruct (sc_clients t !! c); [exact Hx|done].
Qed.

Lemma matched_opts_covering t topic c :
  core_ok t → validatePublishTopic topic = Ok tt →
  head (SplitTopicLevels topic) ≠ Some "$share" →
  matched_opts t topic c ≡ₚ covering_subs t topic c.
Proof.
  intros Hok Hv Hh. apply NoDup_Permutation.
  - by eapply NoDup_fmap_1, matched_opts_NoDup.
  - by apply NoDup_filter, client_topics_NoDup.
  - intros o. rewrite matched_opts_elem by done. unfold covering_subs.
    rewrite list_elem_of_filter, client_topics_elem by done. tauto.
Qed.

(** ** Folding the visited nodes into results *)

Lemma foldl_map_lookup {A B} (f : gmap string B → string * A → gmap string B)
    (step : option B → A → option B) (cs : gmap string A) m c :
  (∀ m k a c, f m (k, a) !! c = if bool_decide (c = k) then step (m !! k) a else m !! c) →
  foldl f m (map_to_list cs) !! c =
    match cs !! c with None => m !! c | Some a => step (m !! c) a end.
Proof.
  intros Hf. assert (NoDup (map_to_list cs).*1) as Hnd by apply NoDup_fst_map_to_list.
  assert (∀ a, cs !! c = Some a ↔ (c, a) ∈ map_to_list cs) as Hin
    by (intros; by rewrite elem_of_map_to_list).
  revert m Hnd Hin. generalize (cs !! c). generalize (map_to_list cs) as l.
  induction l as [|[k a] l IH]; intros o m Hnd Hin; cbn.
  { destruct o as [a|]; [|done]. pose proof (proj1 (Hin a) eq_refl) as H. by apply elem_of_nil in H. }
  cbn in Hnd. apply NoDup_cons in Hnd as [Hk Hnd]. destruct (decide (c = k)) as [->|Hc].
  - rewrite (IH None); [|done|].
    + rewrite Hf, bool_decide_eq_true_2 by done.
      by rewrite (proj2 (Hin a)) by (by left).
    + intros a'. split; [done|]. intros H. destruct Hk. apply list_elem_of_fmap. by exists (k, a').
  - rewrite (IH o); [|done|].
    + by rewrite Hf, bool_decide_eq_false_2.
    + intros a'. rewrite Hin. rewrite elem_of_cons. naive_solver.
Qed.

Lemma foldl_nodes_lookup {B} (merge : gmap string B → TreeNode → gmap string B)
    (step : option B → SubOption → option B) nodes m c :
  (∀ m n, merge m n !! c =
     match tn_Client n !! c with None => m !! c | Some o => step (m !! c) o end) →
  foldl merge m nodes !! c = foldl step (m !! c) (omap (λ n, tn_Client n !! c) nodes).
Proof.
  intros Hm. revert m. induction nodes as [|n nodes IH]; intros m; [done|].
  cbn. rewrite IH, Hm. by destruct (tn_Client n !! c).
Qed.

Definition keep_best (acc : option SubOption) (o : SubOption) : option SubOption :=
  if replaces o acc then Some o else acc.

Lemma matchTopicClient_lookup t topic c :
  matchTopicClient t topic !! c = foldl keep_best None (matched_opts t topic c).
Proof.
  unfold matchTopicClient. erewrite foldl_nodes_lookup; [by rewrite lookup_empty|].
  intros m n. unfold mergeMatchedNodeClients. apply foldl_map_lookup.
  intros m' k o c'. unfold keep_best. destruct (replaces o (m' !! k)); case_bool_decide; subst;
    by rewrite ?lookup_insert_eq, ?lookup_insert_ne.
Qed.

Definition append_match (acc : option (list MatchedSubscription)) (o : SubOption) :=
  Some (default [] acc ++ [matchedSubscriptionFromOption o]).

Lemma foldl_append_match l acc :
  foldl append_match acc l =
    match l with [] => acc | _ => Some (default [] acc ++ (matchedSubscriptionFromOption <$> l)) end.
Proof.
  revert acc. induction l as [|o l IH]; intros acc; [done|]. cbn [foldl]. rewrite IH.
  destruct l; [done|]. unfold append_match. cbn. by rewrite <-app_assoc.
Qed.

Lemma matchTopicClientV2_lookup t topic c :
  matchTopicClientV2 t topic !! c =
    match matched_opts t topic c with
    | [] => None
    | l => Some (matchedSubscriptionFromOption <$> l)
    end.
Proof.
  unfold matchTopicClientV2. erewrite (foldl_nodes_lookup _ append_match).
  { rewrite lookup_empty, foldl_append_match. unfold matched_opts.
    by destruct (omap _ _). }
  intros m n. unfold appendMatchedNodeClients. apply foldl_map_lookup.
  intros m' k o c'. unfold append_match. case_bool_decide; subst;
    by rewrite ?lookup_insert_eq, ?lookup_insert_ne.
Qed.

(** *** The preference between overlapping subscriptions is a strict total order *)

Definition better (o e : SubOption) : bool := replaces o (Some e).

Lemma isMoreSpecificFilter_irrefl a : isMoreSpecificFilter a a = false.
Proof.
  unfold isMoreSpecificFilter. rewrite Z.eqb_refl, bool_decide_eq_true_2 by done. cbn.
  apply string_ltb_irrefl.
Qed.

Lemma isMoreSpecificFilter_total a b :
  a ≠ b → isMoreSpecificFilter a b = true ∨ isMoreSpecificFilter b a = true.
Proof.
  intros Hne. unfold isMoreSpecificFilter.
  set (wa := countWildcards _). set (wb := countWildcards _).
  rewrite (Z.eqb_sym wb wa). destruct (Z.eqb_spec wa wb) as [->|]; cbn [negb];
    [|rewrite !Z.ltb_lt; lia].
  repeat case_bool_decide; cbn [negb]; try done; try lia; try (by auto); try by apply string_ltb_total.
Qed.

Lemma isMoreSpecificFilter_trans a b c :
  isMoreSpecificFilter a b = true → isMoreSpecificFilter b c = true → isMoreSpecificFilter a c = true.
Proof.
  unfold isMoreSpecificFilter.
  set (wa := countWildcards _). set (wb := countWildcards _). set (wc := countWildcards _).
  destruct (Z.eqb_spec wa wb), (Z.eqb_spec wb wc), (Z.eqb_spec wa wc); cbn [negb];
    rewrite ?Z.ltb_lt; try lia; try done;
    repeat case_bool_decide; cbn [negb]; try lia; try done.
  apply string_ltb_trans.
Qed.

Lemma better_spec o e :
  better o e = true ↔ so_QoS e < so_QoS o ∨
    (so_QoS o = so_QoS e ∧ isMoreSpecificFilter (so_Topic o) (so_Topic e) = true).
Proof. unfold better, replaces. by rewrite orb_true_iff, andb_true_iff, Z.ltb_lt, Z.eqb_eq. Qed.

Lemma better_trans a b c : better a b = true → better b c = true → better a c = true.
Proof.
  rewrite !better_spec. intros [?|[? H1]] [?|[? H2]]; [left; lia..|].
  right. split; [lia|]. by eapply isMoreSpecificFilter_trans.
Qed.

Lemma better_total a b : so_Topic a ≠ so_Topic b → better a b = true ∨ better b a = true.
Proof.
  intros Hne. rewrite !better_spec. destruct (isMoreSpecificFilter_total _ _ Hne);
    destruct (Z.lt_trichotomy (so_QoS a) (so_QoS b)) as [|[|]]; auto.
Qed.

(** The option the fold keeps is preferred to every other one, whatever the order. *)
Lemma keep_best_spec l :
  NoDup (so_Topic <$> l) →
  match foldl keep_best None l with
  | None => l = []
  | Some o => o ∈ l ∧ ∀ o', o' ∈ l → o' = o ∨ better o o' = true
  end.
Proof.
  induction l as [|x l IH] using rev_ind; [done|].
  rewrite fmap_app, NoDup_app. intros (Hnd & Hx & _). specialize (IH Hnd).
  rewrite foldl_app. cbn. unfold keep_best at 1. destruct (foldl keep_best None l) as [o|].
  - destruct IH as [Ho Hbest].
    change (replaces x (Some o)) with (better x o). destruct (better x o) eqn:Hb.
    + split; [set_solver|]. intros o' [Ho'|Ho']%elem_of_app; [|set_solver]. right.
      destruct (Hbest o' Ho') as [->|]; [done|]. by eapply better_trans.
    + split; [set_solver|]. intros o' [Ho'|Ho']%elem_of_app; [by apply Hbest|].
      assert (o' = x) as -> by set_solver. right. destruct (better_total o x) as [|Hbx]; [|done|congruence].
      intros Ht. apply (Hx (so_Topic o)); set_solver.
  - subst. cbn. split; set_solver.
Qed.

(** ** Operation sequences *)

Inductive core_op :=
| OpCreate (clientID : string) (o : SubOption)
| OpDelete (clientID topic : string)
| OpDeleteTopic (topic : string)
| OpDeleteClient (clientID : string).

Definition run_core_op (t : SubCore) (op : core_op) : SubCore :=
  match op with
  | OpCreate c o => match createSub t c o with Ok t' => t' | Err _ => t end
  | OpDelete c f => deleteSub t f c
  | OpDeleteTopic f => (deleteTopic t f).1
  | OpDeleteClient c => deleteClient t c
  end.

Lemma run_core_op_ok t op : core_ok t → core_ok (run_core_op t op).
Proof.
  intros Hok. destruct op; cbn.
  - destruct (createSub t clientID o) eqn:E; [by eapply createSub_ok|done].
  - by apply deleteSub_ok.
  - by apply deleteTopic_ok.
  - by apply deleteClient_spec.
Qed.

Lemma run_core_ops_ok ops t : core_ok t → core_ok (foldl run_core_op t ops).
Proof. revert t. induction ops as [|op ops IH]; cbn; [done|]. intros. by apply IH, run_core_op_ok. Qed.

#[export] Hint Resolve NewSubCore_ok createSub_ok deleteSub_ok deleteTopic_ok run_core_ops_ok : go.

(** ** Theorems *)

(** From an empty shard, after any sequence of subscribe, unsubscribe,
    delete-topic and delete-client operations, the trie and the client index
    agree: client [c] is stored with option [o] at the node of filter [f] (and
    that node carries [f] as its topic) exactly when the index lists [o] for
    [c] under [f]; and every stored filter is syntactically valid. *)
Theorem trie_index_agree ops c f :
  let t := foldl run_core_op NewSubCore ops in
  entryAt (SplitTopicLevels f) c (sc_root t) = pair f <$> client_sub t c f ∧
  (∀ o, client_sub t c f = Some o → so_Topic o = f ∧ validateTopicFilter f = Ok tt).
Proof.
  cbv zeta. pose proof (run_core_ops_ok ops _ NewSubCore_ok) as Hok.
  split; [apply (ok_agree _ Hok)|]. intros o. apply (ok_filter _ Hok).
Qed.

(** What one operation changes: subscribing with a valid filter stores the
    option under exactly that client and filter, replacing a previous one;
    unsubscribing removes exactly that entry; deleting a topic removes the
    filter for every client and reports each of them; deleting a client removes
    all its filters.  Nothing else changes. *)
Theorem core_op_effect ops op c f :
  let t := foldl run_core_op NewSubCore ops in
  client_sub (run_core_op t op) c f =
    match op with
    | OpCreate c' o =>
        if bool_decide (validateTopicFilter (so_Topic o) = Ok tt ∧ c = c' ∧ f = so_Topic o)
        then Some o else client_sub t c f
    | OpDelete c' f' => if bool_decide (c = c' ∧ f = f') then None else client_sub t c f
    | OpDeleteTopic f' => if bool_decide (f = f') then None else client_sub t c f
    | OpDeleteClient c' => if bool_decide (c = c') then None else client_sub t c f
    end.
Proof.
  cbv zeta. pose proof (run_core_ops_ok ops _ NewSubCore_ok) as Hok.
  set (t := foldl run_core_op NewSubCore ops) in *. destruct op as [c' o|c' f'|f'|c']; cbn.
  - destruct (createSub t c' o) as [t'|e] eqn:E.
    + rewrite (createSub_client_sub t c' o t') by done.
      apply createSub_inv in E as [Hv _]. repeat case_bool_decide; naive_solver.
    + rewrite bool_decide_eq_false_2; [done|]. intros [Hv _].
      destruct (createSub_total t c' o Hv) as [? H]. congruence.
  - by apply deleteSub_client_sub.
  - by apply deleteTopic_client_sub.
  - by apply deleteClient_spec.
Qed.

(** [matchTopicClientV2] is exact: for a valid publish topic (other than one
    under [$share]), the list it returns for a client is, up to order, the
    client's stored subscriptions whose filter covers the topic, each once; and
    clients with none are absent. *)
Theorem matchTopicClientV2_exact ops topic c :
  let t := foldl run_core_op NewSubCore ops in
  validatePublishTopic topic = Ok tt → head (SplitTopicLevels topic) ≠ Some "$share" →
  default [] (matchTopicClientV2 t topic !! c) ≡ₚ
    matchedSubscriptionFromOption <$> covering_subs t topic c ∧
  (matchTopicClientV2 t topic !! c = None ↔ covering_subs t topic c = []).
Proof.
  intros t Hv Hh. pose proof (run_core_ops_ok ops _ NewSubCore_ok : core_ok t) as Hok.
  pose proof (matched_opts_covering t topic c Hok Hv Hh) as Hp.
  rewrite matchTopicClientV2_lookup. split.
  - rewrite <-Hp. by destruct (matched_opts t topic c).
  - destruct (matched_opts t topic c) as [|o l].
    + apply Permutation_nil_l in Hp. rewrite Hp. done.
    + split; [done|]. intros Hx. rewrite Hx in Hp. by apply Permutation_nil_r in Hp.
Qed.

Definition sample_ops : list core_op :=
  [OpCreate "c1" (mkSubOption 1 false "a/+" false 0 0);
   OpCreate "c1" (mkSubOption 1 false "a/b" false 0 0);
   OpCreate "c1" (mkSubOption 0 false "$share/g/a/#" false 0 0);
   OpCreate "c2" (mkSubOption 2 false "a/c" false 0 0);
   OpDelete "c2" "a/c"].

Lemma matchTopicClientV2_exact_witness :
  let t := foldl run_core_op NewSubCore sample_ops in
  (ms_TopicFilter <$> default [] (matchTopicClientV2 t "a/b" !! "c1")) ≡ₚ ["a/+"; "a/b"; "$share/g/a/#"] ∧
  matchTopicClientV2 t "a/c" !! "c2" = None.
Proof.
  split.
  - destruct (matchTopicClientV2_exact sample_ops "a/b" "c1") as [Hp _]; [reflexivity|discriminate|].
    cbv zeta in Hp. rewrite Hp. vm_compute. solve_Permutation.
  - apply (matchTopicClientV2_exact sample_ops "a/c" "c2"); [reflexivity|discriminate|reflexivity].
Defined.

(** [matchTopicClient] folds overlapping subscriptions of a client to the
    preferred one, independently of the order of the walk: among the client's
    subscriptions covering the topic the result has the highest QoS and, among
    those, the filter [isMoreSpecificFilter] prefers; a client is absent exactly
    when nothing covers the topic. *)
Theorem matchTopicClient_best ops topic c :
  let t := foldl run_core_op NewSubCore ops in
  validatePublishTopic topic = Ok tt → head (SplitTopicLevels topic) ≠ Some "$share" →
  match matchTopicClient t topic !! c with
  | None => covering_subs t topic c = []
  | Some o => o ∈ covering_subs t topic c ∧
      ∀ o', o' ∈ covering_subs t topic c → o' = o ∨ better o o' = true
  end.
Proof.
  intros t Hv Hh. pose proof (run_core_ops_ok ops _ NewSubCore_ok : core_ok t) as Hok.
  pose proof (matched_opts_covering t topic c Hok Hv Hh) as Hp.
  pose proof (keep_best_spec _ (matched_opts_NoDup t topic c Hok Hv Hh)) as Hb.
  rewrite matchTopicClient_lookup. destruct (foldl keep_best None _) as [o|].
  - rewrite Hp in Hb. destruct Hb as [Ho Hb]. split; [done|].
    intros o' Ho'. apply Hb. by rewrite Hp.
  - rewrite Hb in Hp. by apply Permutation_nil_l in Hp.
Qed.

Lemma matchTopicClient_best_witness :
  let t := foldl run_core_op NewSubCore sample_ops in
  matchTopicClient t "a/b" !! "c1" = Some (mkSubOption 1 false "a/b" false 0 0) ∧
  mkSubOption 1 false "a/b" false 0 0 ∈ covering_subs t "a/b" "c1".
Proof.
  assert (matchTopicClient (foldl run_core_op NewSubCore sample_ops) "a/b" !! "c1" =
            Some (mkSubOption 1 false "a/b" false 0 0)) as Hm by (vm_compute; reflexivity).
  split; [exact Hm|].
  pose proof (matchTopicClient_best sample_ops "a/b" "c1" eq_refl ltac:(discriminate)) as H.
  cbv zeta in H. rewrite Hm in H. exact (proj1 H).
Defined.

(** [matchTopic] leaves out filters whose subscribers all asked for QoS 0:
    its result lists matching filters with their maximum QoS, and a filter with
    maximum 0 never beats the map's default 0. *)
Theorem matchTopic_omits_qos0 :
  let t := foldl run_core_op NewSubCore
             [OpCreate "c1" (mkSubOption 0 false "a/b" false 0 0);
              OpCreate "c2" (mkSubOption 1 false "a/#" false 0 0)] in
  map_to_list (matchTopic t "a/b") = [("a/#", 1)] ∧ covers "a/b" "a/b" = true.
Proof. split; vm_compute; reflexivity. Qed.

(** Publishing to a topic under [$share] reaches shared subscribers as if
    the shared filter were an ordinary one: a message published to
    [$share/g/a] is matched with the subscription [$share/g/a], whose inner
    filter [a] does not match that topic. *)
Theorem publish_to_share_topic :
  let t := run_core_op NewSubCore (OpCreate "c1" (mkSubOption 1 false "$share/g/a" false 0 0)) in
  is_Some (matchTopicClientV2 t "$share/g/a" !! "c1") ∧
  ParseSharedSubscription "$share/g/a" = Ok ("g", "a") ∧ MatchTopicFilter "a" "$share/g/a" = false.
Proof. split; [eexists; vm_compute; reflexivity|split; vm_compute; reflexivity]. Qed.

(** [matchTopicForWildcard] returns filters that are no longer subscribed
    (unsubscribing leaves the node's topic in place), and [#] also returns the
    root's own topic [/], which nobody subscribed. *)
Theorem matchTopicForWildcard_stale :
  let t := foldl run_core_op NewSubCore
             [OpCreate "c1" (mkSubOption 1 false "a/b" false 0 0); OpDelete "c1" "a/b"] in
  sc_clients t = ∅ ∧ matchTopicForWildcard t "a/+" = ["a/b"] ∧
  matchTopicForWildcard t "#" = ["/"; "a/b"].
Proof. split_and!; vm_compute; reflexivity. Qed.
