(* ===== verification/SubCenter.v ===== *)
(** * The in-memory subscription center

    [src/internal/broker/subcenter/memory]: [MemorySubCenter], the shards of
    subscription tries, the index from a client to the shards it has
    subscriptions in, and the owner tokens that fence stale connections; with
    its write operations, queries, sharding rules, and the snapshot state.

    The locks only serialise access: each operation is modelled as one
    transition.  Iterations over Go maps use the order of [map_to_list]; the
    theorems about them hold for every order. *)

From S2P Require Import Prelude GoStrings Topic SubCore.

(** ** State ([types.go]) *)

Record MemorySubCenter := mkCenter {
  mc_shards : gmap string SubCore;
  mc_index : gmap string (gmap string Z);
  mc_ownerTokens : gmap string string }.

Definition NewMemorySubCenter : MemorySubCenter := mkCenter ∅ ∅ ∅.

Definition set_shards (s : gmap string SubCore) (t : MemorySubCenter) : MemorySubCenter :=
  mkCenter s (mc_index t) (mc_ownerTokens t).
Definition set_index (i : gmap string (gmap string Z)) (t : MemorySubCenter) : MemorySubCenter :=
  mkCenter (mc_shards t) i (mc_ownerTokens t).
Definition set_tokens (o : gmap string string) (t : MemorySubCenter) : MemorySubCenter :=
  mkCenter (mc_shards t) (mc_index t) o.

(** *** [clientShardIndex] *)

Definition inc (i : gmap string (gmap string Z)) (clientID shardKey : string)
    : gmap string (gmap string Z) :=
  if bool_decide (clientID = "") || bool_decide (shardKey = "") then i
  else
    let shards := default ∅ (i !! clientID) in
    <[clientID := <[shardKey := default 0 (shards !! shardKey) + 1]> shards]> i.

Definition dec (i : gmap string (gmap string Z)) (clientID shardKey : string)
    : gmap string (gmap string Z) :=
  if bool_decide (clientID = "") || bool_decide (shardKey = "") then i
  else
    match i !! clientID with
    | None => i
    | Some shards =>
        match shards !! shardKey with
        | None => i
        | Some v =>
            let v := v - 1 in
            let shards := if v <=? 0 then delete shardKey shards else <[shardKey := v]> shards in
            if bool_decide (shards = ∅) then delete clientID i else <[clientID := shards]> i
        end
    end.

Definition shardsForClient (i : gmap string (gmap string Z)) (clientID : string) : list string :=
  if bool_decide (clientID = "") then []
  else (map_to_list (default ∅ (i !! clientID))).*1.

Definition index_deleteClient (i : gmap string (gmap string Z)) (clientID : string)
    : gmap string (gmap string Z) :=
  if bool_decide (clientID = "") then i else delete clientID i.

(** *** Owner tokens ([owner_token.go]) *)

Definition getOwnerToken (t : MemorySubCenter) (clientID : string) : string :=
  if bool_decide (clientID = "") then "" else default "" (mc_ownerTokens t !! clientID).

Definition setOwnerToken (t : MemorySubCenter) (clientID token : string) : MemorySubCenter :=
  if bool_decide (clientID = "") then t
  else if bool_decide (token = "") then set_tokens (delete clientID (mc_ownerTokens t)) t
  else set_tokens (<[clientID := token]> (mc_ownerTokens t)) t.

(** ** Sharding ([sharding.go]) *)

Fixpoint firstNonEmpty (levels : list string) : string :=
  match levels with
  | [] => "_default"
  | lv :: rest => if bool_decide (lv = "") then firstNonEmpty rest else lv
  end.

Definition shardKeyFromTopic (topic : string) : string :=
  firstNonEmpty (SplitTopicLevels topic).

Definition shardKeysForMatch (publishTopic : string) : list string :=
  let key := shardKeyFromTopic publishTopic in
  if bool_decide (key = "+") || bool_decide (key = "#") then [key]
  else if bool_decide (key = "$share") then ["$share"; "+"; "#"]
  else [key; "+"; "#"; "$share"].

(** [getOrCreateShard]: the shards with the key present, and the shard. *)
Definition getOrCreateShard (t : MemorySubCenter) (key : string) : MemorySubCenter * SubCore :=
  let key := if bool_decide (key = "") then "_default" else key in
  match mc_shards t !! key with
  | Some shard => (t, shard)
  | None => (set_shards (<[key := NewSubCore]> (mc_shards t)) t, NewSubCore)
  end.

(** ** Write operations ([write_ops.go]) *)

Record SubRequest := mkSubRequest {
  sr_Topics : list SubOption;
  sr_ClientID : string;
  sr_OwnerToken : string }.

Record SubResponse := mkSubResponse {
  srp_Topics : gmap string Z;
  srp_Success : bool }.

(** One iteration of the loop of [CreateSub]. *)
Definition createOne (clientID : string)
    (acc : MemorySubCenter * gmap string Z * list string) (subOption : SubOption)
    : MemorySubCenter * gmap string Z * list string :=
  let '(t, topics, errs) := acc in
  let topic := so_Topic subOption in
  let shardKey := shardKeyFromTopic topic in
  let '(t, shard) := getOrCreateShard t shardKey in
  let already := bool_decide (is_Some (sc_clients shard !! clientID ≫= (.!! topic))) in
  match createSub shard clientID subOption with
  | Err err => (t, <[topic := -1]> topics, errs ++ [err])
  | Ok shard' =>
      let t := set_shards (<[shardKey := shard']> (mc_shards t)) t in
      let t := if negb already then set_index (inc (mc_index t) clientID shardKey) t else t in
      (t, <[topic := so_QoS subOption]> topics, errs)
  end.

(** [-1] for every named topic of a fenced request. *)
Definition rejectTopics (opts : list SubOption) : gmap string Z :=
  foldl (λ m o, if bool_decide (so_Topic o = "") then m else <[so_Topic o := -1]> m) ∅ opts.

(** New state, response, and the joined errors ([nil] is the empty list). *)
Definition CreateSub (t : MemorySubCenter) (req : SubRequest)
    : MemorySubCenter * SubResponse * list string :=
  let clientID := sr_ClientID req in
  let run t :=
    let '(t, topics, errs) := foldl (createOne clientID) (t, ∅, []) (sr_Topics req) in
    (t, mkSubResponse topics false, errs) in
  if negb (bool_decide (sr_OwnerToken req = "")) then
    let stored := getOwnerToken t clientID in
    if bool_decide (stored = "") then run (setOwnerToken t clientID (sr_OwnerToken req))
    else if negb (bool_decide (stored = sr_OwnerToken req))
    then (t, mkSubResponse (rejectTopics (sr_Topics req)) false, [])
    else run t
  else run t.

Record UnSubRequest := mkUnSubRequest {
  ur_Topics : list string;
  ur_ClientID : string;
  ur_OwnerToken : string }.

Definition deleteOne (clientID : string) (acc : MemorySubCenter * list Z) (topic : string)
    : MemorySubCenter * list Z :=
  let '(t, codes) := acc in
  let shardKey := shardKeyFromTopic topic in
  match mc_shards t !! shardKey with
  | None => (t, codes ++ [0x11])
  | Some shard =>
      let existed := bool_decide (is_Some (sc_clients shard !! clientID ≫= (.!! topic))) in
      let t := set_shards (<[shardKey := deleteSub shard topic clientID]> (mc_shards t)) t in
      if existed then (set_index (dec (mc_index t) clientID shardKey) t, codes ++ [0])
      else (t, codes ++ [0x11])
  end.

Definition DeleteSub (t : MemorySubCenter) (req : UnSubRequest) : MemorySubCenter * list Z :=
  let clientID := ur_ClientID req in
  if negb (bool_decide (ur_OwnerToken req = "")) &&
     negb (bool_decide (getOwnerToken t clientID = ur_OwnerToken req))
  then (t, (λ _, -1) <$> ur_Topics req)
  else foldl (deleteOne clientID) (t, []) (ur_Topics req).

(** The response is always [Success: true]. *)
Definition DeleteTopic (t : MemorySubCenter) (topic : string) : MemorySubCenter :=
  let shardKey := shardKeyFromTopic topic in
  match mc_shards t !! shardKey with
  | None => t
  | Some shard =>
      let '(shard', removed) := deleteTopic shard topic in
      mkCenter (<[shardKey := shard']> (mc_shards t))
        (foldl (λ i clientID, dec i clientID shardKey) (mc_index t) removed) (mc_ownerTokens t)
  end.

Record DeleteClientRequest := mkDeleteClientRequest {
  dr_ClientID : string;
  dr_OwnerToken : string }.

Definition DeleteClient (t : MemorySubCenter) (req : DeleteClientRequest) : MemorySubCenter * bool :=
  let clientID := dr_ClientID req in
  if negb (bool_decide (dr_OwnerToken req = "")) &&
     negb (bool_decide (getOwnerToken t clientID = dr_OwnerToken req))
  then (t, false)
  else
    let shardKeys := shardsForClient (mc_index t) clientID in
    if bool_decide (length shardKeys = 0%nat) then (t, true)
    else
      let shards := foldl (λ shards shardKey,
        match shards !! shardKey with
        | None => shards
        | Some shard => <[shardKey := deleteClient shard clientID]> shards
        end) (mc_shards t) shardKeys in
      (mkCenter shards (index_deleteClient (mc_index t) clientID) (mc_ownerTokens t), true).

Definition SetClientOwnerToken (t : MemorySubCenter) (clientID ownerToken : string)
    : MemorySubCenter * bool :=
  if bool_decide (clientID = "") then (t, false) else (setOwnerToken t clientID ownerToken, true).

(** ** Queries ([read_ops.go], [client_subs.go], [shared_subscription.go]) *)

(** The shards of [shardKeysForMatch] that exist, in that order. *)
Definition matchShards (t : MemorySubCenter) (topic : string) : list SubCore :=
  omap (λ k, mc_shards t !! k) (shardKeysForMatch topic).

Definition GetAllMatchTopics (t : MemorySubCenter) (topic : string) : gmap string Z :=
  foldl (λ response shard,
    foldl (λ response '(subTopic, maxQoS),
      match response !! subTopic with
      | Some old => if old <? maxQoS then <[subTopic := maxQoS]> response else response
      | None => <[subTopic := maxQoS]> response
      end) response (map_to_list (matchTopic shard topic)))
    ∅ (matchShards t topic).

Definition GetAllMatchClient (t : MemorySubCenter) (topic : string) : gmap string SubOption :=
  foldl (λ response shard,
    foldl (λ response '(clientID, subOption),
      match response !! clientID with
      | Some old => if so_QoS old <? so_QoS subOption then <[clientID := subOption]> response else response
      | None => <[clientID := subOption]> response
      end) response (map_to_list (matchTopicClient shard topic)))
    ∅ (matchShards t topic).

(** The aggregate the code keeps per client: maximum QoS and matches. *)
Record agg := mkAgg { ag_maxQoS : Z; ag_matched : list MatchedSubscription }.

Definition addMatch (a : agg) (ms : MatchedSubscription) : agg :=
  mkAgg (if ag_maxQoS a <? ms_QoS ms then ms_QoS ms else ag_maxQoS a) (ag_matched a ++ [ms]).

(** The loop over the matches of one shard. *)
Definition aggShard (topic : string) (aggs : gmap string agg) (shard : SubCore) : gmap string agg :=
  foldl (λ aggs '(clientID, subs),
    if bool_decide (length subs = 0%nat) then aggs
    else <[clientID := foldl addMatch (default (mkAgg 0 []) (aggs !! clientID)) subs]> aggs)
    aggs (map_to_list (matchTopicClientV2 shard topic)).

Definition aggMap (t : MemorySubCenter) (topic : string) : gmap string agg :=
  foldl (aggShard topic) ∅ (matchShards t topic).

Record ClientMatch := mkClientMatch {
  cm_ClientID : string;
  cm_MaxQoS : Z;
  cm_Matched : list MatchedSubscription }.

Definition GetAllMatchClientV2 (t : MemorySubCenter) (topic : string) : list ClientMatch :=
  (λ '(clientID, a), mkClientMatch clientID (ag_maxQoS a) (ag_matched a)) <$>
    map_to_list (aggMap t topic).

Definition GetAllMatchTopicsForWildTopic (t : MemorySubCenter) (topic : string) : list string :=
  mjoin ((λ shard, matchTopicForWildcard shard topic) <$> (map_to_list (mc_shards t)).*2).

Definition GetClientSubscriptions (t : MemorySubCenter) (clientID : string) : gmap string SubOption :=
  if bool_decide (clientID = "") then ∅
  else foldl (λ topics shard, getClientSubscriptions shard clientID ∪ topics) ∅
         (map_to_list (mc_shards t)).*2.

(** ** Snapshots ([snapshot.go], [sharding.go]) *)

(** The message written to a snapshot. *)
Record ClusterSub := mkClusterSub {
  cs_Cluster : gmap string (option TreeNode * option (gmap string (gmap string SubOption)));
  cs_ClientOwnerTokens : gmap string string }.

Definition snapshotOf (t : MemorySubCenter) : ClusterSub :=
  mkClusterSub ((λ core, (Some (sc_root core), Some (sc_clients core))) <$> mc_shards t)
    (mc_ownerTokens t).

(** One client of one shard in [rebuildClientIndexFromShards]. *)
Definition countClient (shardKey : string) (i : gmap string (gmap string Z))
    (e : string * gmap string SubOption) : gmap string (gmap string Z) :=
  let '(clientID, subTopics) := e in
  let cnt := Z.of_nat (size subTopics) in
  if cnt <=? 0 then i
  else
    let shards := default ∅ (i !! clientID) in
    <[clientID := <[shardKey := default 0 (shards !! shardKey) + cnt]> shards]> i.

Definition rebuildClientIndexFromShards (shards : gmap string SubCore) : gmap string (gmap string Z) :=
  foldl (λ i '(shardKey, shard), foldl (countClient shardKey) i (map_to_list (sc_clients shard)))
    ∅ (map_to_list shards).

Definition recoverFrom (clusterSub : ClusterSub) : MemorySubCenter :=
  let shards := (λ '(root, clients), NewSubCoreFromProto root clients) <$> cs_Cluster clusterSub in
  mkCenter shards (rebuildClientIndexFromShards shards) (cs_ClientOwnerTokens clusterSub).

Section snapshot_io.
(** [proto.Marshal] and [proto.Unmarshal] of the generated [ClusterSub] type. *)
Context {Data E : Type}.
Variable marshal : ClusterSub → result E Data.
Variable unmarshal : Data → result E ClusterSub.

Definition WriteSnapshot (t : MemorySubCenter) : result E Data := marshal (snapshotOf t).

(** A failed decode leaves the center unchanged. *)
Definition RecoverSnapshot (t : MemorySubCenter) (data : Data) : MemorySubCenter * option E :=
  match unmarshal data with
  | Err e => (t, Some e)
  | Ok clusterSub => (recoverFrom clusterSub, None)
  end.
End snapshot_io.
