(* ===== verification/SubCenterProofs.v ===== *)
(** * Correctness of the subscription center

    The invariant of [MemorySubCenter] (every shard is consistent, holds only
    filters of its own key, and the client index counts exactly), its
    preservation by every write operation, what each operation does to the
    stored subscriptions, fencing by owner token, completeness of the sharded
    lookup, and the snapshot round trip. *)

From S2P Require Import Prelude GoStrings Topic SubCore SubCoreProofs SubCenter.

(** ** The abstract view *)

(** The filters of one client in a shard. *)
Definition topics_of (t : SubCore) (c : string) : gmap string SubOption :=
  default ∅ (sc_clients t !! c).

(** What a center promises: the option stored for a client and a filter. *)
Definition sub_of (st : MemorySubCenter) (c f : string) : option SubOption :=
  mc_shards st !! shardKeyFromTopic f ≫= λ core, client_sub core c f.

Definition index_count (i : gmap string (gmap string Z)) (c k : string) : Z :=
  default 0 (i !! c ≫= (.!! k)).

Definition shard_count (shards : gmap string SubCore) (c k : string) : Z :=
  match shards !! k with
  | None => 0
  | Some core => Z.of_nat (size (topics_of core c))
  end.

(** An index without zero counts, empty maps and anonymous clients. *)
Record index_wf (i : gmap string (gmap string Z)) : Prop := mkIndexWf {
  iw_positive c m k v : i !! c = Some m → m !! k = Some v → 0 < v;
  iw_nonempty c m : i !! c = Some m → m ≠ ∅;
  iw_named : i !! "" = None }.

Record center_ok (st : MemorySubCenter) : Prop := mkCenterOk {
  co_core k core : mc_shards st !! k = Some core → core_ok core;
  co_key k core c f o : mc_shards st !! k = Some core → client_sub core c f = Some o →
    shardKeyFromTopic f = k;
  co_index_wf : index_wf (mc_index st);
  co_count c k : c ≠ "" → index_count (mc_index st) c k = shard_count (mc_shards st) c k }.

Lemma topics_of_lookup t c f : topics_of t c !! f = client_sub t c f.
Proof. unfold topics_of, client_sub. by destruct (sc_clients t !! c). Qed.

Lemma topics_of_eq t c m : (∀ f, client_sub t c f = m !! f) → topics_of t c = m.
Proof. intros H. apply map_eq. intros f. by rewrite topics_of_lookup. Qed.

(** ** Shard keys *)

Lemma firstNonEmpty_nonempty ls : firstNonEmpty ls ≠ "".
Proof. induction ls as [|l ls IH]; cbn; [done|]. by case_bool_decide. Qed.

Lemma shardKey_nonempty f : shardKeyFromTopic f ≠ "".
Proof. apply firstNonEmpty_nonempty. Qed.

(** A filter whose levels match shares its first non-empty level with the topic,
    unless that level is a wildcard. *)
Lemma firstNonEmpty_match fs ts :
  levels_match fs ts → firstNonEmpty fs = "+" ∨ firstNonEmpty fs = "#" ∨
    firstNonEmpty fs = firstNonEmpty ts.
Proof.
  induction 1 as [|ts|fs t ts _ IH|l fs ts _ _ _ IH]; cbn; auto.
  case_bool_decide; auto.
Qed.

Lemma firstNonEmpty_literal ls :
  Forall literal_level ls → firstNonEmpty ls ≠ "+" ∧ firstNonEmpty ls ≠ "#".
Proof.
  induction 1 as [|l ls Hl _ IH]; cbn; [done|]. case_bool_decide; [done|].
  apply literal_not_wild in Hl as [? ?]. done.
Qed.

Lemma covers_shard f topic :
  validatePublishTopic topic = Ok tt → covers f topic = true →
  shardKeyFromTopic f ∈ shardKeysForMatch topic.
Proof.
  intros [Hne Hl]%validatePublishTopic_spec Hc. unfold shardKeysForMatch.
  destruct (firstNonEmpty_literal _ Hl) as [H1 H2].
  change (firstNonEmpty (SplitTopicLevels topic)) with (shardKeyFromTopic topic) in *.
  rewrite (bool_decide_eq_false_2 _ H1), (bool_decide_eq_false_2 _ H2). cbn [orb].
  assert (shardKeyFromTopic f = "$share" ∨ shardKeyFromTopic f = "+" ∨ shardKeyFromTopic f = "#" ∨
          shardKeyFromTopic f = shardKeyFromTopic topic) as Hk.
  { unfold covers, shardKeyFromTopic in *.
    assert (MatchTopicFilter f topic = true → levels_match (SplitTopicLevels f) (SplitTopicLevels topic)) as Hm.
    { intros H. destruct (decide (f = "")) as [->|Hf]; [done|].
      rewrite MatchTopicFilter_levels in H by done. apply andb_true_iff in H as [_ H].
      by apply levels_matchb_spec. }
    destruct (SplitTopicLevels f) as [|l0 [|g rest]] eqn:Es.
    1,2: right; by apply firstNonEmpty_match, Hm.
    case_bool_decide as Hs; [subst; by left|]. right. by apply firstNonEmpty_match, Hm. }
  case_bool_decide; destruct Hk as [-> |[-> |[-> | ->]]]; set_solver.
Qed.

Lemma shardKeysForMatch_NoDup topic :
  Forall literal_level (SplitTopicLevels topic) → NoDup (shardKeysForMatch topic).
Proof.
  intros Hl. destruct (firstNonEmpty_literal _ Hl) as [H1 H2]. unfold shardKeysForMatch.
  change (firstNonEmpty (SplitTopicLevels topic)) with (shardKeyFromTopic topic) in *.
  rewrite (bool_decide_eq_false_2 _ H1), (bool_decide_eq_false_2 _ H2). cbn [orb].
  case_bool_decide; repeat constructor; set_solver.
Qed.

(** ** The index *)

Section index.
Implicit Types (i : gmap string (gmap string Z)) (c k : string).

Lemma inc_count i c k c' k' :
  c ≠ "" → k ≠ "" →
  index_count (inc i c k) c' k' = index_count i c' k' + if bool_decide (c' = c ∧ k' = k) then 1 else 0.
Proof.
  intros Hc Hk. unfold inc, index_count.
  rewrite (bool_decide_eq_false_2 _ Hc), (bool_decide_eq_false_2 _ Hk). cbn [orb].
  destruct (decide (c' = c)) as [->|].
  - rewrite lookup_insert_eq. cbn. destruct (decide (k' = k)) as [->|].
    + rewrite lookup_insert_eq, bool_decide_eq_true_2 by done. cbn. by destruct (i !! c).
    + rewrite lookup_insert_ne, bool_decide_eq_false_2 by naive_solver.
      destruct (i !! c); cbn; rewrite ?lookup_empty; cbn; lia.
  - rewrite lookup_insert_ne, bool_decide_eq_false_2 by naive_solver. lia.
Qed.

Lemma inc_wf i c k : index_wf i → index_wf (inc i c k).
Proof.
  intros [Hp Hn He]. unfold inc. destruct (bool_decide (c = "") || _) eqn:Hb; [by constructor|].
  apply orb_false_iff in Hb as [Hc%bool_decide_eq_false _]. constructor.
  - intros c' m k' v. destruct (decide (c' = c)) as [->|]; [|rewrite lookup_insert_ne by done; apply Hp].
    rewrite lookup_insert_eq. intros [= <-].
    destruct (decide (k' = k)) as [->|].
    + rewrite lookup_insert_eq. intros [= <-]. destruct (i !! c) as [m|] eqn:E; cbn.
      * destruct (m !! k) eqn:Ek; cbn; [pose proof (Hp _ _ _ _ E Ek)|]; lia.
      * rewrite lookup_empty. cbn. lia.
    + rewrite lookup_insert_ne by done. destruct (i !! c) as [m|] eqn:E; [by apply (Hp c)|done].
  - intros c' m. destruct (decide (c' = c)) as [->|]; [|rewrite lookup_insert_ne by done; apply Hn].
    rewrite lookup_insert_eq. intros [= <-]. apply insert_non_empty.
  - by rewrite lookup_insert_ne by done.
Qed.

Lemma dec_wf i c k : index_wf i → index_wf (dec i c k).
Proof.
  intros [Hp Hn He]. unfold dec. destruct (_ || _) eqn:Hb; [by constructor|].
  apply orb_false_iff in Hb as [Hc%bool_decide_eq_false _].
  destruct (i !! c) as [m|] eqn:E; [|by constructor].
  destruct (m !! k) as [v|] eqn:Ek; [|by constructor].
  set (m' := if _ <=? 0 then _ else _).
  assert (∀ k' v', m' !! k' = Some v' → 0 < v') as Hm'.
  { intros k' v'. unfold m'. destruct (Z.leb_spec (v - 1) 0).
    - intros [_ ?]%lookup_delete_Some. by apply (Hp c m k').
    - intros [[_ <-]|[_ ?]]%lookup_insert_Some; [lia|]. by apply (Hp c m k'). }
  case_bool_decide as Hm; constructor.
  - intros c' m0 k' v'. intros [_ ?]%lookup_delete_Some. by eapply Hp.
  - intros c' m0 [_ ?]%lookup_delete_Some. by eapply Hn.
  - rewrite lookup_delete_None. auto.
  - intros c' m0 k' v' [[_ <-]|[_ ?]]%lookup_insert_Some; [apply Hm'|by eapply Hp].
  - intros c' m0 [[_ <-]|[_ ?]]%lookup_insert_Some; [done|by eapply Hn].
  - by rewrite lookup_insert_ne.
Qed.

Lemma dec_count i c k c' k' :
  index_wf i → c ≠ "" → k ≠ "" →
  index_count (dec i c k) c' k' =
    if bool_decide (c' = c ∧ k' = k) then Z.max 0 (index_count i c' k' - 1) else index_count i c' k'.
Proof.
  intros [Hp Hn He] Hc Hk. unfold dec.
  rewrite (bool_decide_eq_false_2 _ Hc), (bool_decide_eq_false_2 _ Hk). cbn [orb].
  destruct (i !! c) as [m|] eqn:E.
  2:{ unfold index_count. case_bool_decide as Hb; [|done]. destruct Hb as [-> _]. by rewrite E. }
  destruct (m !! k) as [v|] eqn:Ek.
  2:{ unfold index_count. case_bool_decide as Hb; [|done]. destruct Hb as [-> ->]. rewrite E. cbn. by rewrite Ek. }
  set (m' := if _ <=? 0 then _ else _).
  assert (∀ k', default 0 (m' !! k') = if bool_decide (k' = k) then v - 1 else default 0 (m !! k')) as Hm'.
  { intros k''. pose proof (Hp c m k v E Ek). unfold m'. destruct (Z.leb_spec (v - 1) 0);
      case_bool_decide; subst; rewrite ?lookup_delete_eq, ?lookup_delete_ne, ?lookup_insert_eq,
        ?lookup_insert_ne by done; cbn; lia || done. }
  pose proof (Hp c m k v E Ek) as Hv.
  assert (index_count (if bool_decide (m' = ∅) then delete c i else <[c:=m']> i) c' k' =
    if bool_decide (c' = c) then default 0 (m' !! k') else index_count i c' k') as ->.
  { unfold index_count. case_bool_decide as Hb; (destruct (decide (c' = c)) as [->|];
      [rewrite bool_decide_eq_true_2 by done|rewrite bool_decide_eq_false_2 by done]).
    - rewrite Hb, lookup_delete_eq. done.
    - by rewrite lookup_delete_ne.
    - by rewrite lookup_insert_eq.
    - by rewrite lookup_insert_ne. }
  destruct (decide (c' = c)) as [->|].
  - rewrite bool_decide_eq_true_2, Hm' by done. unfold index_count. rewrite E. cbn.
    destruct (decide (k' = k)) as [->|].
    + rewrite !bool_decide_eq_true_2, Ek by done. cbn. lia.
    + by rewrite !bool_decide_eq_false_2 by naive_solver.
  - by rewrite !bool_decide_eq_false_2 by naive_solver.
Qed.

Lemma dec_named i c k : c = "" → dec i c k = i.
Proof. intros ->. done. Qed.
End index.

(** ** Write operations *)

Lemma center_ok_tokens st tok : center_ok st → center_ok (set_tokens tok st).
Proof. intros [H1 H2 H3 H4]. by constructor. Qed.

Lemma NewMemorySubCenter_ok : center_ok NewMemorySubCenter.
Proof. by constructor; [..|constructor|]. Qed.

(** Replacing one shard. *)
Lemma replace_shard_ok st k core' i' tok :
  center_ok st → core_ok core' →
  (∀ c f o, client_sub core' c f = Some o → shardKeyFromTopic f = k) → index_wf i' →
  (∀ c k', c ≠ "" → index_count i' c k' =
     if bool_decide (k' = k) then Z.of_nat (size (topics_of core' c)) else index_count (mc_index st) c k') →
  center_ok (mkCenter (<[k := core']> (mc_shards st)) i' tok).
Proof.
  intros [H1 H2 H3 H4] Hok Hkey Hwf Hcnt. constructor; cbn [mc_shards mc_index]; [| |done|].
  - intros k' core [[_ <-]|[_ ?]]%lookup_insert_Some; [done|by eapply H1].
  - intros k' core c f o [[<- <-]|[_ ?]]%lookup_insert_Some; [apply Hkey|by eapply H2].
  - intros c k' Hc. rewrite Hcnt by done. unfold shard_count. case_bool_decide as Hk.
    + subst. by rewrite lookup_insert_eq.
    + rewrite lookup_insert_ne by done. by apply H4.
Qed.

Lemma sub_of_replace st k core' i' tok c f :
  sub_of (mkCenter (<[k := core']> (mc_shards st)) i' tok) c f =
    if bool_decide (shardKeyFromTopic f = k) then client_sub core' c f else sub_of st c f.
Proof.
  unfold sub_of. cbn. case_bool_decide as Hk.
  - by rewrite Hk, lookup_insert_eq.
  - by rewrite lookup_insert_ne.
Qed.

Lemma sub_of_shard st k core c f :
  mc_shards st !! k = Some core → shardKeyFromTopic f = k → client_sub core c f = sub_of st c f.
Proof. intros Hs Hk. unfold sub_of. by rewrite Hk, Hs. Qed.

Lemma getOrCreateShard_spec st k st' core :
  center_ok st → k ≠ "" → getOrCreateShard st k = (st', core) →
  center_ok st' ∧ mc_shards st' !! k = Some core ∧ mc_index st' = mc_index st ∧
  mc_ownerTokens st' = mc_ownerTokens st ∧ ∀ c f, sub_of st' c f = sub_of st c f.
Proof.
  intros Hok Hk. unfold getOrCreateShard. rewrite (bool_decide_eq_false_2 _ Hk).
  destruct (mc_shards st !! k) as [core0|] eqn:E; [by intros [= <- <-]|]. intros [= <- <-].
  unfold set_shards. cbn. rewrite lookup_insert_eq. split; [|split_and!; try done].
  - apply (replace_shard_ok st k NewSubCore (mc_index st)); [done|apply NewSubCore_ok|done|by destruct Hok|].
    intros c k' Hc. case_bool_decide as Hb; [|done]. subst.
    rewrite (co_count st Hok) by done. unfold shard_count. by rewrite E.
  - intros c f. rewrite sub_of_replace. case_bool_decide as Hb; [|done]. unfold sub_of.
    by rewrite Hb, E.
Qed.

Definition valid_opt (o : SubOption) : Prop := validateTopicFilter (so_Topic o) = Ok tt.
#[export] Instance valid_opt_dec o : Decision (valid_opt o).
Proof. unfold valid_opt. apply _. Defined.

Lemma topics_of_createSub t c o t' c' :
  createSub t c o = Ok t' →
  topics_of t' c' = if bool_decide (c' = c) then <[so_Topic o := o]> (topics_of t c) else topics_of t c'.
Proof.
  intros H. apply topics_of_eq. intros f. rewrite (createSub_client_sub _ _ _ _ _ _ H).
  destruct (decide (c' = c)) as [->|]; [destruct (decide (f = so_Topic o)) as [->|]|].
  - by rewrite !bool_decide_eq_true_2, lookup_insert_eq by done.
  - rewrite bool_decide_eq_false_2, bool_decide_eq_true_2, lookup_insert_ne by naive_solver.
    by rewrite topics_of_lookup.
  - rewrite !bool_decide_eq_false_2 by naive_solver. by rewrite topics_of_lookup.
Qed.

Lemma createOne_spec c st topics errs o st' topics' errs' :
  center_ok st → createOne c (st, topics, errs) o = (st', topics', errs') →
  center_ok st' ∧ mc_ownerTokens st' = mc_ownerTokens st ∧
  (∀ c' f, sub_of st' c' f =
     if bool_decide (valid_opt o ∧ c' = c ∧ f = so_Topic o) then Some o else sub_of st c' f) ∧
  topics' = <[so_Topic o := if bool_decide (valid_opt o) then so_QoS o else -1]> topics.
Proof.
  intros Hok. unfold createOne.
  destruct (getOrCreateShard st _) as [st1 core] eqn:Eg.
  apply getOrCreateShard_spec in Eg as (Hok1 & Hs1 & Hi1 & Ht1 & Hsub1); [|done|apply shardKey_nonempty].
  pose proof (co_core _ Hok1 _ _ Hs1) as Hcore.
  destruct (createSub core c o) as [core'|err] eqn:Ec.
  - apply createSub_inv in Ec as Hinv. destruct Hinv as [Hv _].
    set (k := shardKeyFromTopic (so_Topic o)) in *.
    set (st2 := set_shards _ st1).
    set (already := bool_decide (is_Some (sc_clients core !! c ≫= (.!! so_Topic o)))).
    set (i' := if negb already then inc (mc_index st2) c k else mc_index st2).
    intros Heq. rewrite (bool_decide_eq_true_2 (valid_opt o)) by done.
    assert (st' = mkCenter (<[k := core']> (mc_shards st1)) i' (mc_ownerTokens st1) ∧
            topics' = <[so_Topic o := so_QoS o]> topics) as [-> ->].
    { unfold i'. by destruct already; injection Heq as <- <- <-. }
    split_and!; [|by rewrite <-Ht1| |done].
    + apply (replace_shard_ok st1); [done|by eapply createSub_ok| | |].
      * intros c' f o'. rewrite (createSub_client_sub _ _ _ _ _ _ Ec). case_bool_decide as Hb;
          [by destruct Hb as [_ ->]|]. by apply (co_key st1 Hok1).
      * unfold i'. destruct already; [by destruct Hok1|]. apply inc_wf. by destruct Hok1.
      * intros c' k' Hc'. unfold i'. rewrite (topics_of_createSub _ _ _ _ _ Ec).
        pose proof (co_count st1 Hok1) as Hcnt. unfold shard_count in Hcnt.
        assert (already = bool_decide (is_Some (topics_of core c !! so_Topic o))) as Ha
          by (unfold already; by rewrite topics_of_lookup).
        change (mc_index st2) with (mc_index st1).
        destruct (decide (c' = c)) as [->|Hne].
        -- rewrite (bool_decide_eq_true_2 (c = c)) by done. rewrite Ha. case_bool_decide as Hal; cbn [negb].
           ++ case_bool_decide; [|done]. subst. rewrite Hcnt, Hs1 by done.
              by rewrite map_size_insert_Some by done.
           ++ rewrite inc_count by (done || apply shardKey_nonempty). case_bool_decide as Hb; cbn.
              ** destruct Hb as [_ ->]. rewrite bool_decide_eq_true_2 by done. rewrite Hcnt, Hs1 by done.
                 rewrite map_size_insert_None by (by apply eq_None_not_Some). lia.
              ** rewrite (bool_decide_eq_false_2 (k' = k)) by naive_solver. lia.
        -- rewrite (bool_decide_eq_false_2 (c' = c)) by done.
           assert (index_count (if negb already then inc (mc_index st1) c k else mc_index st1) c' k' =
                     index_count (mc_index st1) c' k') as ->.
           { destruct already; [done|]. cbn [negb]. destruct (decide (c = "")) as [->|]; [done|].
             rewrite inc_count by (done || apply shardKey_nonempty).
             rewrite bool_decide_eq_false_2 by naive_solver. lia. }
           destruct (decide (k' = k)) as [Hk'|Hk'];
             [rewrite bool_decide_eq_true_2 by done|by rewrite bool_decide_eq_false_2].
           rewrite Hk', Hcnt by done. by rewrite Hs1.
    + intros c' f. rewrite sub_of_replace, (createSub_client_sub _ _ _ _ _ _ Ec), <-Hsub1.
      case_bool_decide as Hk.
      * rewrite (sub_of_shard st1 k core) by done. repeat case_bool_decide; naive_solver.
      * rewrite bool_decide_eq_false_2; [done|]. intros (_ & _ & ->). done.
  - intros [= <- <- <-].
    assert (¬ valid_opt o) as Hv.
    { intros Hv. destruct (createSub_total core c o Hv) as [? H]. congruence. }
    rewrite (bool_decide_eq_false_2 (valid_opt o)) by done. split_and!; [done|done| |done].
    intros c' f. rewrite Hsub1. rewrite bool_decide_eq_false_2; [done|]. naive_solver.
Qed.

Lemma topics_of_deleteSub t f c c' :
  core_ok t → topics_of (deleteSub t f c) c' =
    if bool_decide (c' = c) then delete f (topics_of t c) else topics_of t c'.
Proof.
  intros Hok. apply topics_of_eq. intros g. rewrite deleteSub_client_sub by done.
  destruct (decide (c' = c)) as [->|]; [destruct (decide (g = f)) as [->|]|].
  - by rewrite !bool_decide_eq_true_2, lookup_delete_eq by done.
  - rewrite bool_decide_eq_false_2, bool_decide_eq_true_2, lookup_delete_ne by naive_solver.
    by rewrite topics_of_lookup.
  - rewrite !bool_decide_eq_false_2 by naive_solver. by rewrite topics_of_lookup.
Qed.

Lemma size_delete_Z (m : gmap string SubOption) f :
  Z.of_nat (size (delete f m)) =
    if bool_decide (is_Some (m !! f)) then Z.max 0 (Z.of_nat (size m) - 1) else Z.of_nat (size m).
Proof.
  case_bool_decide as H.
  - destruct H as [o Ho]. rewrite map_size_delete_Some by eauto. lia.
  - rewrite map_size_delete_None; [done|]. by apply eq_None_not_Some.
Qed.

Lemma deleteOne_spec c st codes f st' codes' :
  center_ok st → deleteOne c (st, codes) f = (st', codes') →
  center_ok st' ∧ mc_ownerTokens st' = mc_ownerTokens st ∧
  (∀ c' f', sub_of st' c' f' = if bool_decide (c' = c ∧ f' = f) then None else sub_of st c' f') ∧
  codes' = codes ++ [if bool_decide (is_Some (sub_of st c f)) then 0 else 0x11].
Proof.
  intros Hok. unfold deleteOne. set (k := shardKeyFromTopic f).
  destruct (mc_shards st !! k) as [core|] eqn:Es.
  2:{ intros [= <- <-]. assert (∀ c', sub_of st c' f = None) as Hn
        by (intros; unfold sub_of; fold k; by rewrite Es).
      split_and!; [done..| |by rewrite Hn]. intros c' f'. case_bool_decide as Hb; [|done].
      destruct Hb as [-> ->]. apply Hn. }
  pose proof (co_core _ Hok _ _ Es) as Hcore.
  set (existed := bool_decide (is_Some (sc_clients core !! c ≫= (.!! f)))).
  set (i' := if existed then dec (mc_index st) c k else mc_index st). intros Heq.
  assert (existed = bool_decide (is_Some (sub_of st c f))) as Hex.
  { unfold existed, sub_of. fold k. by rewrite Es. }
  assert (st' = mkCenter (<[k := deleteSub core f c]> (mc_shards st)) i' (mc_ownerTokens st) ∧
          codes' = codes ++ [if existed then 0 else 0x11]) as [-> ->].
  { unfold i'. by destruct existed; injection Heq as <- <-. }
  split_and!; [|done| |by rewrite Hex].
  - apply (replace_shard_ok st); [done|by apply deleteSub_ok| | |].
    + intros c' f' o. rewrite deleteSub_client_sub by done. destruct (bool_decide (c' = c ∧ f' = f)); [done|].
      by apply (co_key st Hok).
    + unfold i'. destruct existed; [apply dec_wf|]; by destruct Hok.
    + intros c' k' Hc'. rewrite topics_of_deleteSub by done. unfold i'.
      assert (existed = bool_decide (is_Some (topics_of core c !! f))) as Hex'
        by (unfold existed; by rewrite topics_of_lookup).
      pose proof (co_count st Hok c' k Hc') as Hcnt. unfold shard_count in Hcnt. rewrite Es in Hcnt.
      clearbody existed. destruct (decide (c' = c)) as [->|Hne].
      * rewrite (bool_decide_eq_true_2 (c = c)), size_delete_Z, <-Hex', <-Hcnt by done.
        destruct existed.
        2:{ destruct (decide (k' = k)) as [->|]; [by rewrite bool_decide_eq_true_2|].
            by rewrite bool_decide_eq_false_2. }
        rewrite dec_count; [|by destruct Hok|done|apply shardKey_nonempty].
        destruct (decide (k' = k)) as [->|]; [by rewrite !bool_decide_eq_true_2|].
        by rewrite !bool_decide_eq_false_2 by naive_solver.
      * rewrite (bool_decide_eq_false_2 (c' = c)) by done.
        assert (index_count (if existed then dec (mc_index st) c k else mc_index st) c' k' =
                  index_count (mc_index st) c' k') as ->.
        { destruct existed; [|done]. destruct (decide (c = "")) as [->|]; [done|].
          rewrite dec_count; [|by destruct Hok|done|apply shardKey_nonempty].
          by rewrite bool_decide_eq_false_2 by naive_solver. }
        destruct (decide (k' = k)) as [->|]; [by rewrite bool_decide_eq_true_2|].
        by rewrite bool_decide_eq_false_2.
  - intros c' f'. rewrite sub_of_replace, deleteSub_client_sub by done.
    destruct (decide (shardKeyFromTopic f' = k)) as [Hk|Hk].
    + rewrite (bool_decide_eq_true_2 _ Hk). by rewrite (sub_of_shard st k core).
    + rewrite (bool_decide_eq_false_2 _ Hk), bool_decide_eq_false_2; [done|]. intros [_ ->]. done.
Qed.

Lemma fold_dec_wf k l i : index_wf i → index_wf (foldl (λ i c, dec i c k) i l).
Proof. revert i. induction l; cbn; intros; auto using dec_wf. Qed.

Lemma fold_dec_count k l i c k' :
  index_wf i → NoDup l → k ≠ "" → c ≠ "" →
  index_count (foldl (λ i c, dec i c k) i l) c k' =
    if bool_decide (c ∈ l ∧ k' = k) then Z.max 0 (index_count i c k' - 1) else index_count i c k'.
Proof.
  intros Hwf Hnd Hk Hc. revert i Hwf. induction Hnd as [|c0 l Hc0 Hnd IH]; intros i Hwf; cbn.
  { rewrite bool_decide_eq_false_2; [done|]. by intros [?%elem_of_nil _]. }
  rewrite IH by (by apply dec_wf).
  assert (index_count (dec i c0 k) c k' =
    if bool_decide (c = c0 ∧ k' = k) then Z.max 0 (index_count i c k' - 1) else index_count i c k') as ->.
  { destruct (decide (c0 = "")) as [->|]; [|by apply dec_count].
    rewrite bool_decide_eq_false_2 by naive_solver. done. }
  repeat case_bool_decide; try done; set_solver.
Qed.

Lemma DeleteTopic_spec st f :
  center_ok st → center_ok (DeleteTopic st f) ∧
  mc_ownerTokens (DeleteTopic st f) = mc_ownerTokens st ∧
  ∀ c f', sub_of (DeleteTopic st f) c f' = if bool_decide (f' = f) then None else sub_of st c f'.
Proof.
  intros Hok. unfold DeleteTopic. set (k := shardKeyFromTopic f).
  destruct (mc_shards st !! k) as [core|] eqn:Es.
  2:{ split_and!; [done..|]. intros c f'. case_bool_decide; [|done]. subst. unfold sub_of. fold k.
      by rewrite Es. }
  pose proof (co_core _ Hok _ _ Es) as Hcore. pose proof (deleteTopic_ok core f Hcore) as Hok'.
  pose proof (λ c f', deleteTopic_client_sub core f c f' Hcore) as Hsub.
  pose proof (λ c, deleteTopic_removed core f c Hcore) as Hrem. pose proof (deleteTopic_NoDup core f) as Hnd.
  destruct (deleteTopic core f) as [core' removed]. cbn [fst snd] in *. split_and!; [|done|].
  - apply (replace_shard_ok st); [done|done| | |].
    + intros c f' o. rewrite Hsub. case_bool_decide; [done|]. by apply (co_key st Hok).
    + apply fold_dec_wf. by destruct Hok.
    + intros c k' Hc. rewrite fold_dec_count; [|by destruct Hok|done|apply shardKey_nonempty|done].
      assert (topics_of core' c = delete f (topics_of core c)) as ->.
      { apply topics_of_eq. intros g. rewrite Hsub. case_bool_decide as Hg.
        - subst. by rewrite lookup_delete_eq.
        - by rewrite lookup_delete_ne, topics_of_lookup. }
      rewrite size_delete_Z, topics_of_lookup.
      pose proof (co_count st Hok c k Hc) as Hcnt. unfold shard_count in Hcnt. rewrite Es in Hcnt.
      rewrite <-Hcnt. destruct (decide (k' = k)) as [->|].
      * rewrite (bool_decide_eq_true_2 (k = k)) by done.
        rewrite (bool_decide_ext (c ∈ removed ∧ k = k) (is_Some (client_sub core c f)));
          [done|]. rewrite <-Hrem. naive_solver.
      * by rewrite !bool_decide_eq_false_2 by naive_solver.
  - intros c f'. rewrite sub_of_replace, Hsub. destruct (decide (shardKeyFromTopic f' = k)) as [Hk|Hk].
    + rewrite (bool_decide_eq_true_2 _ Hk). by rewrite (sub_of_shard st k core).
    + rewrite (bool_decide_eq_false_2 _ Hk), bool_decide_eq_false_2; [done|]. by intros ->.
Qed.

Lemma fold_deleteClient_shards c keys (shards : gmap string SubCore) k :
  NoDup keys →
  foldl (λ shards k, match shards !! k with
         | None => shards | Some s => <[k := deleteClient s c]> shards end) shards keys !! k =
    if bool_decide (k ∈ keys) then (λ s, deleteClient s c) <$> shards !! k else shards !! k.
Proof.
  intros Hnd. revert shards. induction Hnd as [|k0 keys Hk0 Hnd IH]; intros shards; cbn.
  { by rewrite bool_decide_eq_false_2 by (by intros ?%elem_of_nil). }
  rewrite IH. destruct (decide (k = k0)) as [->|Hne].
  - rewrite (bool_decide_eq_false_2 _ Hk0), bool_decide_eq_true_2 by set_solver.
    destruct (shards !! k0) eqn:E; [by rewrite lookup_insert_eq|by rewrite E].
  - assert ((match shards !! k0 with
             | None => shards | Some s => <[k0 := deleteClient s c]> shards end) !! k = shards !! k) as ->.
    { destruct (shards !! k0); [by rewrite lookup_insert_ne|done]. }
    repeat case_bool_decide; try done; set_solver.
Qed.

(** Removing one client from every shard and from the index. *)
Section clear_client.
Context (st : MemorySubCenter) (c : string) (shards' : gmap string SubCore) (tok : gmap string string).
Hypothesis Hok : center_ok st.
Hypothesis Hc : c ≠ "".
Hypothesis Hnew : ∀ k core, mc_shards st !! k = Some core → ∃ core', core_ok core' ∧
  shards' !! k = Some core' ∧
  ∀ c' f, client_sub core' c' f = if bool_decide (c' = c) then None else client_sub core c' f.
Hypothesis Habs : ∀ k, mc_shards st !! k = None → shards' !! k = None.

Lemma clear_client_old k core' :
  shards' !! k = Some core' → ∃ core, mc_shards st !! k = Some core ∧ core_ok core' ∧
  ∀ c' f, client_sub core' c' f = if bool_decide (c' = c) then None else client_sub core c' f.
Proof.
  intros E. destruct (mc_shards st !! k) as [core|] eqn:Es; [|by rewrite Habs in E].
  destruct (Hnew k core Es) as (core2 & ? & E2 & ?). rewrite E in E2. injection E2 as <-. eauto.
Qed.

Lemma clear_client_count c' k :
  c' ≠ "" → index_count (delete c (mc_index st)) c' k = shard_count shards' c' k.
Proof.
  intros Hc'. pose proof (co_count st Hok c' k Hc') as Hcnt. unfold index_count, shard_count in *.
  destruct (decide (c' = c)) as [->|Hne].
  - rewrite lookup_delete_eq. destruct (shards' !! k) as [core'|] eqn:E; [|done].
    destruct (clear_client_old k core' E) as (core & _ & _ & Hs). cbn.
    rewrite (topics_of_eq core' c ∅); [done|]. intros f. by rewrite Hs, bool_decide_eq_true_2.
  - rewrite lookup_delete_ne, Hcnt by done. destruct (mc_shards st !! k) as [core|] eqn:Es.
    + destruct (Hnew k core Es) as (core' & _ & -> & Hs).
      rewrite (topics_of_eq core' c' (topics_of core c')); [done|].
      intros f. by rewrite Hs, bool_decide_eq_false_2, topics_of_lookup.
    + by rewrite Habs.
Qed.

Lemma clear_client_ok : center_ok (mkCenter shards' (delete c (mc_index st)) tok).
Proof.
  constructor; cbn [mc_shards mc_index].
  - intros k core' E. by destruct (clear_client_old k core' E) as (? & _ & ? & _).
  - intros k core' c' f o E. destruct (clear_client_old k core' E) as (core & Es & _ & Hs).
    rewrite Hs. case_bool_decide; [done|]. by apply (co_key st Hok).
  - destruct (co_index_wf st Hok) as [Hp Hn He]. constructor.
    + intros c' m' k v [_ ?]%lookup_delete_Some. by eapply Hp.
    + intros c' m' [_ ?]%lookup_delete_Some. by eapply Hn.
    + rewrite lookup_delete_None. auto.
  - intros c' k. apply clear_client_count.
Qed.

Lemma clear_client_sub_of c' f :
  sub_of (mkCenter shards' (delete c (mc_index st)) tok) c' f =
    if bool_decide (c' = c) then None else sub_of st c' f.
Proof.
  unfold sub_of. cbn [mc_shards].
  destruct (mc_shards st !! shardKeyFromTopic f) as [core|] eqn:Es; cbn.
  - destruct (Hnew _ core Es) as (core2 & _ & -> & Hs). apply Hs.
  - rewrite Habs by done. by case_bool_decide.
Qed.
End clear_client.

(** A shard the index does not list for [c] has nothing of [c]. *)
Lemma index_complete st c k core f :
  center_ok st → c ≠ "" → mc_shards st !! k = Some core →
  ¬ is_Some (default ∅ (mc_index st !! c) !! k) → client_sub core c f = None.
Proof.
  intros Hok Hc Es Hm. pose proof (co_count st Hok c k Hc) as Hcnt.
  unfold index_count, shard_count in Hcnt. rewrite Es in Hcnt. apply eq_None_not_Some in Hm.
  assert (mc_index st !! c ≫= (.!! k) = None) as Hi by (by destruct (mc_index st !! c)).
  rewrite Hi in Hcnt. cbn in Hcnt. rewrite <-topics_of_lookup.
  assert (topics_of core c = ∅) as -> by (apply map_size_empty_inv; lia). apply lookup_empty.
Qed.

Lemma elem_of_keys {A} (m : gmap string A) k : k ∈ (map_to_list m).*1 ↔ is_Some (m !! k).
Proof.
  rewrite list_elem_of_fmap. split.
  - intros ([k' v] & -> & ?%elem_of_map_to_list). by eexists.
  - intros [v Hv]. exists (k, v). split; [done|]. by apply elem_of_map_to_list.
Qed.

Definition fenced (st : MemorySubCenter) (c tok : string) : Prop :=
  tok ≠ "" ∧ getOwnerToken st c ≠ tok.
#[export] Instance fenced_dec st c tok : Decision (fenced st c tok).
Proof. unfold fenced. apply _. Defined.

Lemma fenced_bool st c tok :
  negb (bool_decide (tok = "")) && negb (bool_decide (getOwnerToken st c = tok)) =
  bool_decide (fenced st c tok).
Proof. unfold fenced. by repeat case_bool_decide; try tauto. Qed.

Lemma DeleteClient_spec st c tok st' b :
  center_ok st → c ≠ "" → DeleteClient st (mkDeleteClientRequest c tok) = (st', b) →
  center_ok st' ∧ mc_ownerTokens st' = mc_ownerTokens st ∧ (b = false ↔ fenced st c tok) ∧
  (∀ c' f, sub_of st' c' f = if bool_decide (c' = c ∧ ¬ fenced st c tok) then None else sub_of st c' f).
Proof.
  intros Hok Hc. unfold DeleteClient. cbn [dr_ClientID dr_OwnerToken]. rewrite fenced_bool.
  destruct (decide (fenced st c tok)) as [Hf|Hf].
  { rewrite bool_decide_eq_true_2 by done. intros [= <- <-]. split_and!; [done..|].
    intros c' f. by rewrite bool_decide_eq_false_2 by tauto. }
  rewrite bool_decide_eq_false_2 by done. unfold shardsForClient. rewrite (bool_decide_eq_false_2 _ Hc).
  destruct (decide (length (map_to_list (default ∅ (mc_index st !! c))).*1 = 0%nat)) as [Hl|Hl].
  { rewrite bool_decide_eq_true_2 by done. intros [= <- <-]. split_and!; [done..|].
    intros c' f. case_bool_decide as Hb; [|done]. destruct Hb as [-> _]. unfold sub_of.
    destruct (mc_shards st !! _) as [core|] eqn:Es; [|done].
    apply (index_complete st c _ core f Hok Hc Es). rewrite <-elem_of_keys.
    apply nil_length_inv in Hl. rewrite Hl. by intros ?%elem_of_nil. }
  rewrite bool_decide_eq_false_2 by done. unfold index_deleteClient. rewrite (bool_decide_eq_false_2 _ Hc).
  set (shards' := foldl _ _ _). intros [= <- <-].
  pose proof (fold_deleteClient_shards c (map_to_list (default ∅ (mc_index st !! c))).*1 (mc_shards st)) as Hfold.
  specialize (λ k, Hfold k (NoDup_fst_map_to_list _)). fold shards' in Hfold.
  assert (∀ k core, mc_shards st !! k = Some core → ∃ core', core_ok core' ∧ shards' !! k = Some core' ∧
    ∀ c' f, client_sub core' c' f = if bool_decide (c' = c) then None else client_sub core c' f) as Hnew.
  { intros k core Es. rewrite Hfold, Es. pose proof (co_core _ Hok _ _ Es) as Hcore.
    destruct (deleteClient_spec core c Hcore) as [Hd1 Hd2].
    case_bool_decide as Hk; [by eexists|]. exists core. split_and!; [done..|]. intros c' f.
    case_bool_decide; [|done]. subst. apply (index_complete st c k); try done. by rewrite <-elem_of_keys. }
  assert (∀ k, mc_shards st !! k = None → shards' !! k = None) as Habs.
  { intros k Es. rewrite Hfold, Es. by case_bool_decide. }
  split_and!; [by apply clear_client_ok|done|done|].
  intros c' f. rewrite (clear_client_sub_of st c shards') by done.
  repeat case_bool_decide; tauto || done.
Qed.

(** *** Whole requests *)

(** What a SUBSCRIBE leaves stored under filter [f]: the last valid option naming it. *)
Definition subscribe_effect (f : string) (opts : list SubOption) (old : option SubOption)
    : option SubOption :=
  foldl (λ acc o, if bool_decide (valid_opt o ∧ f = so_Topic o) then Some o else acc) old opts.

(** What the response says about [f]: granted QoS or [-1], by the last option naming it. *)
Definition subscribe_ack (f : string) (opts : list SubOption) (old : option Z) : option Z :=
  foldl (λ acc o, if bool_decide (f = so_Topic o)
                  then Some (if bool_decide (valid_opt o) then so_QoS o else -1) else acc) old opts.

Lemma fold_createOne_spec c opts st topics errs st' topics' errs' :
  center_ok st → foldl (createOne c) (st, topics, errs) opts = (st', topics', errs') →
  center_ok st' ∧ mc_ownerTokens st' = mc_ownerTokens st ∧
  (∀ c' f, sub_of st' c' f =
     if bool_decide (c' = c) then subscribe_effect f opts (sub_of st c' f) else sub_of st c' f) ∧
  (∀ f, topics' !! f = subscribe_ack f opts (topics !! f)).
Proof.
  revert st topics errs. induction opts as [|o opts IH]; intros st topics errs Hok.
  { cbn. intros [= <- <- <-]. split_and!; [done..| |done]. intros c' f. by case_bool_decide. }
  cbn [foldl]. destruct (createOne c (st, topics, errs) o) as [[st1 topics1] errs1] eqn:E1.
  destruct (createOne_spec _ _ _ _ _ _ _ _ Hok E1) as (Hok1 & Ht1 & Hs1 & ->). intros E.
  destruct (IH st1 _ errs1 Hok1 E) as (Hok' & Ht' & Hs' & Htop). split_and!; [done|congruence| |].
  - intros c' f. rewrite Hs', Hs1. unfold subscribe_effect. cbn [foldl].
    destruct (decide (c' = c)) as [->|Hc].
    + rewrite (bool_decide_eq_true_2 (c = c)) by done. f_equal.
      rewrite (bool_decide_ext (valid_opt o ∧ c = c ∧ f = so_Topic o) (valid_opt o ∧ f = so_Topic o));
        [done|naive_solver].
    + by rewrite !bool_decide_eq_false_2 by naive_solver.
  - intros f. rewrite Htop. unfold subscribe_ack. cbn [foldl]. f_equal.
    destruct (decide (f = so_Topic o)) as [->|Hf].
    + by rewrite lookup_insert_eq, (bool_decide_eq_true_2 (_ = _)).
    + by rewrite lookup_insert_ne, (bool_decide_eq_false_2 (f = _)).
Qed.

(** The UNSUBACK codes: 0 for a stored filter, 0x11 for one not (or no longer) stored. *)
Fixpoint unsubscribe_codes (has : string → bool) (fs : list string) : list Z :=
  match fs with
  | [] => []
  | f :: fs =>
      (if has f then 0 else 0x11) :: unsubscribe_codes (λ g, has g && negb (bool_decide (g = f))) fs
  end.

Lemma unsubscribe_codes_ext h h' fs :
  (∀ f, h f = h' f) → unsubscribe_codes h fs = unsubscribe_codes h' fs.
Proof.
  revert h h'. induction fs as [|f fs IH]; intros h h' Hh; cbn; [done|]. rewrite Hh. f_equal.
  apply IH. intros g. by rewrite Hh.
Qed.

Definition has_sub (st : MemorySubCenter) (c f : string) : bool := bool_decide (is_Some (sub_of st c f)).

Lemma fold_deleteOne_spec c fs st codes st' codes' :
  center_ok st → foldl (deleteOne c) (st, codes) fs = (st', codes') →
  center_ok st' ∧ mc_ownerTokens st' = mc_ownerTokens st ∧
  (∀ c' f, sub_of st' c' f = if bool_decide (c' = c ∧ f ∈ fs) then None else sub_of st c' f) ∧
  codes' = codes ++ unsubscribe_codes (has_sub st c) fs.
Proof.
  revert st codes. induction fs as [|f0 fs IH]; intros st codes Hok.
  { cbn. intros [= <- <-]. split_and!; [done..| |by rewrite app_nil_r]. intros c' f.
    rewrite bool_decide_eq_false_2; [done|]. by intros [_ ?%elem_of_nil]. }
  cbn [foldl]. destruct (deleteOne c (st, codes) f0) as [st1 codes1] eqn:E1.
  destruct (deleteOne_spec _ _ _ _ _ _ Hok E1) as (Hok1 & Ht1 & Hs1 & ->). intros E.
  destruct (IH st1 _ Hok1 E) as (Hok' & Ht' & Hs' & Hlen). split_and!; [done|congruence| |].
  - intros c' f. rewrite Hs', Hs1. repeat case_bool_decide; try done; set_solver.
  - rewrite Hlen, <-app_assoc. cbn. do 2 f_equal. apply unsubscribe_codes_ext. intros f.
    unfold has_sub. rewrite Hs1. destruct (decide (f = f0)) as [->|].
    + rewrite (bool_decide_eq_true_2 (c = c ∧ f0 = f0)), (bool_decide_eq_true_2 (f0 = f0)) by done.
      by rewrite andb_false_r.
    + rewrite (bool_decide_eq_false_2 (c = c ∧ f = f0)), (bool_decide_eq_false_2 (f = f0)) by naive_solver.
      by rewrite andb_true_r.
Qed.

(** A request that fencing turns away. *)
Definition create_fenced (st : MemorySubCenter) (req : SubRequest) : Prop :=
  sr_OwnerToken req ≠ "" ∧ getOwnerToken st (sr_ClientID req) ≠ "" ∧
  getOwnerToken st (sr_ClientID req) ≠ sr_OwnerToken req.
#[export] Instance create_fenced_dec st req : Decision (create_fenced st req).
Proof. unfold create_fenced. apply _. Defined.

Lemma setOwnerToken_ok st c tok : center_ok st → center_ok (setOwnerToken st c tok).
Proof. intros. unfold setOwnerToken. by repeat case_bool_decide; try apply center_ok_tokens. Qed.

Lemma setOwnerToken_sub_of st c tok c' f : sub_of (setOwnerToken st c tok) c' f = sub_of st c' f.
Proof. unfold setOwnerToken. by repeat case_bool_decide. Qed.

Lemma CreateSub_spec st req st' resp errs :
  center_ok st → CreateSub st req = (st', resp, errs) →
  center_ok st' ∧
  if bool_decide (create_fenced st req) then st' = st ∧ resp = mkSubResponse (rejectTopics (sr_Topics req)) false ∧ errs = []
  else
    (∀ c f, sub_of st' c f = if bool_decide (c = sr_ClientID req)
       then subscribe_effect f (sr_Topics req) (sub_of st c f) else sub_of st c f) ∧
    (∀ f, srp_Topics resp !! f = subscribe_ack f (sr_Topics req) None).
Proof.
  intros Hok. unfold CreateSub, create_fenced.
  assert (∀ st0 st' resp errs, center_ok st0 → (∀ c f, sub_of st0 c f = sub_of st c f) →
    (let '(t, topics, errs) := foldl (createOne (sr_ClientID req)) (st0, ∅, []) (sr_Topics req) in
     (t, mkSubResponse topics false, errs)) = (st', resp, errs) →
    center_ok st' ∧ (∀ c f, sub_of st' c f = if bool_decide (c = sr_ClientID req)
       then subscribe_effect f (sr_Topics req) (sub_of st c f) else sub_of st c f) ∧
    (∀ f, srp_Topics resp !! f = subscribe_ack f (sr_Topics req) None)) as Hrun.
  { clear st' resp errs. intros st0 st' resp errs Hok0 Heq.
    destruct (foldl _ _ _) as [[t topics] errs0] eqn:E. intros [= <- <- <-].
    destruct (fold_createOne_spec _ _ _ _ _ _ _ _ Hok0 E) as (H1 & _ & H2 & H3).
    split_and!; [done| |exact H3]. intros c f. by rewrite H2, Heq. }
  destruct (decide (sr_OwnerToken req = "")) as [Ht|Ht].
  { rewrite (bool_decide_eq_true_2 _ Ht), (bool_decide_eq_false_2 (_ ∧ _)) by (by intros (?&?&?)). cbn [negb]. by apply Hrun. }
  rewrite (bool_decide_eq_false_2 _ Ht). cbn [negb].
  destruct (decide (getOwnerToken st (sr_ClientID req) = "")) as [Hs|Hs].
  { rewrite (bool_decide_eq_true_2 _ Hs), (bool_decide_eq_false_2 (_ ∧ _)) by (by intros (?&?&?)).
    apply Hrun; [by apply setOwnerToken_ok|]. intros. apply setOwnerToken_sub_of. }
  rewrite (bool_decide_eq_false_2 _ Hs).
  destruct (decide (getOwnerToken st (sr_ClientID req) = sr_OwnerToken req)) as [He|He].
  - rewrite (bool_decide_eq_true_2 _ He), (bool_decide_eq_false_2 (_ ∧ _)) by (by intros (?&?&?)). by apply Hrun.
  - rewrite (bool_decide_eq_false_2 _ He), (bool_decide_eq_true_2 (_ ∧ _)) by done. cbn [negb].
    intros [= <- <- <-]. done.
Qed.

Lemma DeleteSub_spec st req st' codes :
  center_ok st → DeleteSub st req = (st', codes) →
  center_ok st' ∧
  codes = (if bool_decide (fenced st (ur_ClientID req) (ur_OwnerToken req)) then (λ _, -1) <$> ur_Topics req
           else unsubscribe_codes (has_sub st (ur_ClientID req)) (ur_Topics req)) ∧
  ∀ c f, sub_of st' c f =
    if bool_decide (c = ur_ClientID req ∧ f ∈ ur_Topics req ∧
                    ¬ fenced st (ur_ClientID req) (ur_OwnerToken req))
    then None else sub_of st c f.
Proof.
  intros Hok. unfold DeleteSub. rewrite fenced_bool. destruct (decide (fenced st (ur_ClientID req) (ur_OwnerToken req))) as [Hf|Hf].
  - rewrite bool_decide_eq_true_2 by done. intros [= <- <-]. split_and!; [done..|].
    intros c f. by rewrite bool_decide_eq_false_2 by (by intros (_ & _ & ?)).
  - rewrite bool_decide_eq_false_2 by done. intros E.
    destruct (fold_deleteOne_spec _ _ _ _ _ _ Hok E) as (H1 & _ & H2 & H3).
    split_and!; [done..|]. intros c f. rewrite H2.
    rewrite (bool_decide_ext (c = ur_ClientID req ∧ f ∈ ur_Topics req)
      (c = ur_ClientID req ∧ f ∈ ur_Topics req ∧ ¬ fenced st (ur_ClientID req) (ur_OwnerToken req)));
      [done|tauto].
Qed.

(** ** Reachable centers *)

Inductive center_op :=
| CCreate (req : SubRequest)
| CDelete (req : UnSubRequest)
| CDeleteTopic (topic : string)
| CDeleteClient (req : DeleteClientRequest)
| CSetOwner (clientID token : string).

Definition run_center_op (st : MemorySubCenter) (op : center_op) : MemorySubCenter :=
  match op with
  | CCreate req => (CreateSub st req).1.1
  | CDelete req => (DeleteSub st req).1
  | CDeleteTopic f => DeleteTopic st f
  | CDeleteClient req => (DeleteClient st req).1
  | CSetOwner c tok => (SetClientOwnerToken st c tok).1
  end.

Lemma run_center_op_ok st op : center_ok st → center_ok (run_center_op st op).
Proof.
  intros Hok. destruct op as [req|req|f|req|c tok]; cbn.
  - destruct (CreateSub st req) as [[st' resp] errs] eqn:E. by apply CreateSub_spec in E as [? _].
  - destruct (DeleteSub st req) as [st' codes] eqn:E. by apply DeleteSub_spec in E as [? _].
  - by apply DeleteTopic_spec.
  - destruct req as [c tok]. destruct (decide (c = "")) as [->|Hc].
    + unfold DeleteClient. cbn. by destruct (negb _ && _).
    + destruct (DeleteClient st _) as [st' b] eqn:E. by apply DeleteClient_spec in E as [? _].
  - unfold SetClientOwnerToken. case_bool_decide; [done|]. by apply setOwnerToken_ok.
Qed.

Definition reachable (ops : list center_op) : MemorySubCenter :=
  foldl run_center_op NewMemorySubCenter ops.

Lemma reachable_ok ops : center_ok (reachable ops).
Proof.
  unfold reachable. generalize NewMemorySubCenter_ok. generalize NewMemorySubCenter as st.
  induction ops as [|op ops IH]; cbn; [done|]. intros. by apply IH, run_center_op_ok.
Qed.

#[export] Hint Resolve NewMemorySubCenter_ok run_center_op_ok reachable_ok setOwnerToken_ok : go.

(** ** Queries *)

Lemma foldl_addMatch l a :
  foldl addMatch a l =
    mkAgg (foldl (λ q ms, Z.max q (ms_QoS ms)) (ag_maxQoS a) l) (ag_matched a ++ l).
Proof.
  revert a. induction l as [|ms l IH]; intros [q m]; cbn; [by rewrite app_nil_r|].
  rewrite IH. cbn. rewrite <-app_assoc. f_equal. f_equal. destruct (Z.ltb_spec q (ms_QoS ms)); lia.
Qed.

(** All matches of one client over the shards of a lookup. *)
Definition shard_matches (cores : list SubCore) (topic c : string) : list MatchedSubscription :=
  mjoin ((λ core, default [] (matchTopicClientV2 core topic !! c)) <$> cores).

Lemma fold_agg_lookup topic c cores aggs :
  foldl (aggShard topic) aggs cores !! c =
  match shard_matches cores topic c with
  | [] => aggs !! c
  | l => Some (foldl addMatch (default (mkAgg 0 []) (aggs !! c)) l)
  end.
Proof.
  revert aggs. induction cores as [|core cores IH]; intros aggs; [done|]. cbn [foldl].
  rewrite IH. unfold shard_matches. rewrite fmap_cons.
  change (mjoin (?x :: ?l)) with (x ++ mjoin l). set (rest := mjoin _). unfold aggShard.
  erewrite (foldl_map_lookup _ (λ acc subs, if bool_decide (length subs = 0%nat) then acc
    else Some (foldl addMatch (default (mkAgg 0 []) acc) subs))).
  2:{ intros m k subs c'. destruct (bool_decide (length subs = 0%nat)).
      - case_bool_decide; congruence.
      - case_bool_decide; subst; by rewrite ?lookup_insert_eq, ?lookup_insert_ne. }
  destruct (matchTopicClientV2 core topic !! c) as [subs|]; [|done]. cbn [default from_option id].
  destruct subs as [|s subs]; [done|]. cbn [length app bool_decide decide_rel].
  rewrite bool_decide_eq_false_2 by done.
  destruct rest as [|r rest]; [by rewrite app_nil_r|]. f_equal.
  change (s :: subs ++ r :: rest) with ((s :: subs) ++ r :: rest). by rewrite foldl_app.
Qed.

Lemma aggMap_lookup st topic c :
  aggMap st topic !! c =
    match shard_matches (matchShards st topic) topic c with
    | [] => None
    | l => Some (mkAgg (foldl (λ q ms, Z.max q (ms_QoS ms)) 0 l) l)
    end.
Proof.
  unfold aggMap. rewrite fold_agg_lookup, lookup_empty. cbn [default from_option id].
  destruct (shard_matches _ _ _); [done|]. by rewrite foldl_addMatch.
Qed.

Lemma shard_match_elem core topic c ms :
  core_ok core → validatePublishTopic topic = Ok tt →
  head (SplitTopicLevels topic) ≠ Some "$share" →
  ms ∈ default [] (matchTopicClientV2 core topic !! c) ↔
  ∃ o, ms = matchedSubscriptionFromOption o ∧ client_sub core c (so_Topic o) = Some o ∧
       covers (so_Topic o) topic = true.
Proof.
  intros Hok Hv Hh. rewrite matchTopicClientV2_lookup.
  assert (ms ∈ matchedSubscriptionFromOption <$> matched_opts core topic c ↔
    ∃ o, ms = matchedSubscriptionFromOption o ∧ client_sub core c (so_Topic o) = Some o ∧
       covers (so_Topic o) topic = true) as <-.
  { rewrite list_elem_of_fmap. by setoid_rewrite (matched_opts_elem core topic c). }
  by destruct (matched_opts core topic c).
Qed.

Lemma shard_match_filters core topic c :
  ms_TopicFilter <$> default [] (matchTopicClientV2 core topic !! c) =
  so_Topic <$> matched_opts core topic c.
Proof.
  rewrite matchTopicClientV2_lookup.
  assert (∀ l : list SubOption, ms_TopicFilter <$> (matchedSubscriptionFromOption <$> l) = so_Topic <$> l) as H.
  { intros l. rewrite <-list_fmap_compose. by apply list_fmap_ext. }
  destruct (matched_opts core topic c); [done|]. apply H.
Qed.

Lemma matchShards_elem st topic core :
  core ∈ matchShards st topic ↔ ∃ k, k ∈ shardKeysForMatch topic ∧ mc_shards st !! k = Some core.
Proof. unfold matchShards. apply list_elem_of_omap. Qed.

Lemma center_match_elem st topic c ms :
  center_ok st → validatePublishTopic topic = Ok tt →
  head (SplitTopicLevels topic) ≠ Some "$share" →
  ms ∈ shard_matches (matchShards st topic) topic c ↔
  ∃ o, ms = matchedSubscriptionFromOption o ∧ sub_of st c (so_Topic o) = Some o ∧
       covers (so_Topic o) topic = true.
Proof.
  intros Hok Hv Hh. unfold shard_matches. rewrite list_elem_of_join. split.
  - intros (l & Hms & (core & -> & Hc)%list_elem_of_fmap).
    apply matchShards_elem in Hc as (k & Hk & Hs).
    apply shard_match_elem in Hms as (o & -> & Ho & Hcov); [|by apply (co_core st Hok k)|done..].
    exists o. split_and!; [done| |done].
    rewrite <-(sub_of_shard st k core); [done..|]. by apply (co_key st Hok k core c _ o).
  - intros (o & -> & Ho & Hcov). unfold sub_of in Ho.
    destruct (mc_shards st !! shardKeyFromTopic (so_Topic o)) as [core|] eqn:Es; [|done].
    exists (default [] (matchTopicClientV2 core topic !! c)). split.
    + apply shard_match_elem; [by apply (co_core st Hok _ _ Es)|done..|]. by exists o.
    + apply list_elem_of_fmap. exists core. split; [done|]. apply matchShards_elem.
      eexists. split; [|exact Es]. by apply covers_shard.
Qed.

Lemma center_match_NoDup st topic c :
  center_ok st → validatePublishTopic topic = Ok tt →
  head (SplitTopicLevels topic) ≠ Some "$share" →
  NoDup (ms_TopicFilter <$> shard_matches (matchShards st topic) topic c).
Proof.
  intros Hok Hv Hh. unfold shard_matches, matchShards.
  assert (NoDup (shardKeysForMatch topic)) as Hnd
    by (apply shardKeysForMatch_NoDup; by apply validatePublishTopic_spec in Hv as [_ ?]).
  revert Hnd. generalize (shardKeysForMatch topic) as keys.
  assert (∀ k core f, mc_shards st !! k = Some core →
            f ∈ ms_TopicFilter <$> default [] (matchTopicClientV2 core topic !! c) →
            shardKeyFromTopic f = k) as Hkey.
  { intros k core f Hs (ms & -> & Hms)%list_elem_of_fmap.
    apply shard_match_elem in Hms as (o & -> & Ho & _); [|by apply (co_core st Hok k)|done..].
    by apply (co_key st Hok k core c _ o). }
  induction 1 as [|k keys Hk Hnd IH]; [constructor|]. cbn.
  destruct (mc_shards st !! k) as [core|] eqn:Es; [|exact IH]. rewrite fmap_cons.
  change (mjoin (?x :: ?l)) with (x ++ mjoin l). rewrite fmap_app. apply NoDup_app. split_and!; [| |exact IH].
  - rewrite shard_match_filters. apply matched_opts_NoDup; [by apply (co_core st Hok k)|done..].
  - intros f Hf Hf'. apply (Hkey k core) in Hf; [|done].
    apply list_elem_of_fmap in Hf' as (ms & -> & Hms).
    apply list_elem_of_join in Hms as (l & Hms & (core' & -> & Hc)%list_elem_of_fmap).
    apply list_elem_of_omap in Hc as (k' & Hk' & Es').
    assert (shardKeyFromTopic (ms_TopicFilter ms) = k') by (apply (Hkey k' core'); [done|set_solver]).
    congruence.
Qed.

Lemma getClientSubscriptions_lookup core c f :
  getClientSubscriptions core c !! f = client_sub core c f.
Proof.
  unfold getClientSubscriptions, client_sub. destruct (sc_clients core !! c) as [m|]; [|done].
  cbn. rewrite lookup_fmap. by destruct (m !! f) as [[]|].
Qed.

Lemma fold_subs_lookup l c f (m : gmap string SubOption) v :
  (∀ core, core ∈ l → is_Some (client_sub core c f) → client_sub core c f = v) →
  foldl (λ topics shard, getClientSubscriptions shard c ∪ topics) m l !! f =
    if bool_decide (Exists (λ core, is_Some (client_sub core c f)) l) then v else m !! f.
Proof.
  revert m. induction l as [|core l IH]; intros m Hl; cbn [foldl].
  { rewrite bool_decide_eq_false_2; [done|]. by intros ?%Exists_nil. }
  rewrite IH by (intros; apply Hl; [by right|done]).
  rewrite lookup_union, getClientSubscriptions_lookup.
  destruct (decide (Exists (λ core, is_Some (client_sub core c f)) l)) as [He|He].
  { rewrite !bool_decide_eq_true_2; [done|by apply Exists_cons_tl|done]. }
  rewrite (bool_decide_eq_false_2 _ He). destruct (client_sub core c f) as [o|] eqn:Eo.
  - rewrite bool_decide_eq_true_2 by (apply Exists_cons_hd; by eexists).
    rewrite <-(Hl core) by (by left || rewrite Eo; by eexists). rewrite Eo. by destruct (m !! f).
  - rewrite bool_decide_eq_false_2.
    + by destruct (m !! f).
    + intros [H|H]%Exists_cons; [rewrite Eo in H; by destruct H|done].
Qed.

(** ** Snapshots *)

Lemma index_ext i j :
  index_wf i → index_wf j → (∀ c k, index_count i c k = index_count j c k) → i = j.
Proof.
  intros Hi Hj Hc. apply map_eq. intros c.
  assert (∀ i j, index_wf i → index_wf j → (∀ c k, index_count i c k = index_count j c k) →
    ∀ m, i !! c = Some m → j !! c = Some m) as Hdir.
  { clear. intros i j [Hp Hn _] [Hp' Hn' _] Hc m Hm.
    destruct (j !! c) as [m'|] eqn:Hj.
    - f_equal. apply map_eq. intros k. specialize (Hc c k). unfold index_count in Hc.
      rewrite Hm, Hj in Hc. cbn in Hc.
      destruct (m !! k) as [v|] eqn:E, (m' !! k) as [v'|] eqn:E'; cbn in Hc; [by subst| | |done].
      + pose proof (Hp c m k v Hm E). lia.
      + pose proof (Hp' c m' k v' Hj E'). lia.
    - exfalso. apply (Hn c m Hm). apply map_eq. intros k. specialize (Hc c k). unfold index_count in Hc.
      rewrite Hm, Hj in Hc. cbn in Hc. rewrite lookup_empty. destruct (m !! k) as [v|] eqn:E; [|done].
      pose proof (Hp c m k v Hm E). cbn in Hc. lia. }
  destruct (i !! c) as [m|] eqn:E; [by rewrite (Hdir i j Hi Hj Hc m E)|].
  destruct (j !! c) as [m|] eqn:E'; [|done].
  rewrite (Hdir j i Hj Hi (λ c k, eq_sym (Hc c k)) m E') in E. done.
Qed.

(** The counts of one client as the rebuild accumulates them. *)
Definition count_step (k : string) (acc : option (gmap string Z)) (topics : gmap string SubOption)
    : option (gmap string Z) :=
  if Z.of_nat (size topics) <=? 0 then acc
  else Some (<[k := default 0 (default ∅ acc !! k) + Z.of_nat (size topics)]> (default ∅ acc)).

Lemma rebuild_lookup l i c :
  foldl (λ i '(shardKey, shard), foldl (countClient shardKey) i (map_to_list (sc_clients shard))) i l !! c =
  foldl (λ acc '(k, core), count_step k acc (topics_of core c)) (i !! c) l.
Proof.
  revert i. induction l as [|[k core] l IH]; intros i; [done|]. cbn [foldl]. rewrite IH. f_equal.
  rewrite (foldl_map_lookup _ (count_step k)).
  - unfold topics_of. destruct (sc_clients core !! c); [done|].
    unfold count_step. cbn [default from_option id]. by rewrite map_size_empty.
  - intros m k' topics c'. unfold countClient, count_step.
    destruct (Z.of_nat (size topics) <=? 0); case_bool_decide; subst;
      by rewrite ?lookup_insert_eq, ?lookup_insert_ne.
Qed.

Lemma rebuild_spec shards :
  (∀ c k, index_count (rebuildClientIndexFromShards shards) c k = shard_count shards c k) ∧
  (∀ c m, rebuildClientIndexFromShards shards !! c = Some m → m ≠ ∅ ∧ ∀ k v, m !! k = Some v → 0 < v).
Proof.
  split.
  - intros c k. unfold index_count, rebuildClientIndexFromShards. rewrite rebuild_lookup, lookup_empty.
    assert (∀ l acc, default ∅ (foldl (λ acc '(k, core), count_step k acc (topics_of core c)) acc l) =
      foldl (λ (m : gmap string Z) '(k, core),
        if Z.of_nat (size (topics_of core c)) <=? 0 then m
        else <[k := default 0 (m !! k) + Z.of_nat (size (topics_of core c))]> m) (default ∅ acc) l) as Hd.
    { induction l as [|[k' core] l IH]; intros acc; [done|]. cbn [foldl]. rewrite IH. f_equal.
      unfold count_step. by destruct (_ <=? 0). }
    transitivity (default 0 (default ∅ (foldl (λ acc '(k, core), count_step k acc (topics_of core c))
      (None : option (gmap string Z)) (map_to_list shards)) !! k)).
    { by destruct (foldl _ _ _). }
    rewrite Hd. cbn [default from_option id].
    rewrite (foldl_map_lookup _ (λ o core, if Z.of_nat (size (topics_of core c)) <=? 0 then o
      else Some (default 0 o + Z.of_nat (size (topics_of core c))))).
    + unfold shard_count. rewrite lookup_empty. destruct (shards !! k); [|done].
      destruct (Z.leb_spec (Z.of_nat (size (topics_of s c))) 0); cbn; lia.
    + intros m k' core c'. destruct (_ <=? 0); case_bool_decide; subst;
        by rewrite ?lookup_insert_eq, ?lookup_insert_ne.
  - intros c m. unfold rebuildClientIndexFromShards. rewrite rebuild_lookup, lookup_empty.
    assert (∀ l acc, (∀ m, acc = Some m → m ≠ ∅ ∧ ∀ k v, m !! k = Some v → 0 < v) →
      ∀ m, foldl (λ acc '(k, core), count_step k acc (topics_of core c)) acc l = Some m →
      m ≠ ∅ ∧ ∀ k v, m !! k = Some v → 0 < v) as H; [|by apply H].
    clear. induction l as [|[k core] l IH]; intros acc Hacc; [done|]. cbn [foldl]. apply IH.
    intros m. unfold count_step. destruct (Z.leb_spec (Z.of_nat (size (topics_of core c))) 0); [apply Hacc|].
    intros [= <-]. split; [apply insert_non_empty|]. intros k' v.
    intros [[_ <-]|[_ Hv]]%lookup_insert_Some.
    + destruct acc as [m|]; cbn; [|rewrite lookup_empty; cbn; lia].
      destruct (m !! k) eqn:E; cbn; [|lia]. destruct (Hacc m eq_refl) as [_ Hp]. apply Hp in E. lia.
    + destruct acc as [m|]; cbn in Hv; [|by rewrite lookup_empty in Hv].
      destruct (Hacc m eq_refl) as [_ Hp]. by eapply Hp.
Qed.

(** ** Theorems *)

(** Invariant of every reachable center: each shard's trie agrees with its
    client index, a shard holds only filters whose key it is, and the
    reverse index counts exactly the filters each named client has in each
    shard (with no zero counts and no empty entries), after any sequence of
    SUBSCRIBE, UNSUBSCRIBE, delete-topic, delete-client and owner-token
    requests. *)
Theorem reachable_center_ok ops : center_ok (reachable ops).
Proof. apply reachable_ok. Qed.

(** A SUBSCRIBE request that fencing lets through stores, for its client,
    the last valid option naming each filter, leaves every other client's and
    every other filter's subscription as it was, and acknowledges each named
    filter with the granted QoS or [-1] if the filter is malformed. *)
Theorem CreateSub_effect ops req st' resp errs :
  let st := reachable ops in
  ¬ create_fenced st req → CreateSub st req = (st', resp, errs) →
  (∀ c f, sub_of st' c f = if bool_decide (c = sr_ClientID req)
     then subscribe_effect f (sr_Topics req) (sub_of st c f) else sub_of st c f) ∧
  (∀ f, srp_Topics resp !! f = subscribe_ack f (sr_Topics req) None).
Proof.
  intros st Hf H. apply CreateSub_spec in H as [_ H]; [|apply reachable_ok].
  by rewrite bool_decide_eq_false_2 in H.
Qed.

Definition sample_req : SubRequest :=
  mkSubRequest [mkSubOption 1 false "a/b" false 0 0; mkSubOption 2 false "a/#/b" false 0 0] "c1" "t1".

Lemma CreateSub_effect_witness :
  let '(st', resp, _) := CreateSub (reachable []) sample_req in
  sub_of st' "c1" "a/b" = Some (mkSubOption 1 false "a/b" false 0 0) ∧
  srp_Topics resp !! "a/#/b" = Some (-1).
Proof.
  destruct (CreateSub (reachable []) sample_req) as [[st' resp] errs] eqn:E.
  destruct (CreateSub_effect [] sample_req st' resp errs) as [H1 H2]; [|exact E|].
  - intros (_ & H & _). apply H. reflexivity.
  - split; [rewrite H1|rewrite H2]; reflexivity.
Defined.

(** UNSUBSCRIBE removes exactly the requested filters of its client and
    answers 0 for each filter that was stored, 0x11 for each that was not (a
    filter named twice is gone the second time); a request carrying a stale
    owner token changes nothing and is answered [-1] throughout. *)
Theorem DeleteSub_effect ops req :
  let st := reachable ops in
  let '(st', codes) := DeleteSub st req in
  let stale := bool_decide (fenced st (ur_ClientID req) (ur_OwnerToken req)) in
  codes = (if stale then (λ _, -1) <$> ur_Topics req
           else unsubscribe_codes (has_sub st (ur_ClientID req)) (ur_Topics req)) ∧
  ∀ c f, sub_of st' c f =
    if bool_decide (c = ur_ClientID req ∧ f ∈ ur_Topics req) && negb stale
    then None else sub_of st c f.
Proof.
  intros st. destruct (DeleteSub st req) as [st' codes] eqn:E.
  apply DeleteSub_spec in E as (_ & H1 & H2); [|apply reachable_ok]. split; [done|].
  intros c f. rewrite H2. unfold st. repeat case_bool_decide; cbn; tauto || done.
Qed.

(** Deleting a named client removes all its subscriptions, in all shards,
    and nobody else's; with a stale owner token it reports failure and removes
    nothing.  The shards to clean are found through the reverse index only. *)
Theorem DeleteClient_effect ops c tok :
  let st := reachable ops in
  c ≠ "" →
  let '(st', success) := DeleteClient st (mkDeleteClientRequest c tok) in
  (success = false ↔ fenced st c tok) ∧
  ∀ c' f, sub_of st' c' f =
    if bool_decide (c' = c ∧ ¬ fenced st c tok) then None else sub_of st c' f.
Proof.
  intros st Hc. destruct (DeleteClient st _) as [st' b] eqn:E.
  apply DeleteClient_spec in E as (_ & _ & H1 & H2); [done|apply reachable_ok|done].
Qed.

Lemma DeleteClient_effect_witness :
  let st := reachable [CCreate sample_req] in
  sub_of st "c1" "a/b" = Some (mkSubOption 1 false "a/b" false 0 0) ∧
  sub_of (DeleteClient st (mkDeleteClientRequest "c1" "")).1 "c1" "a/b" = None ∧
  (DeleteClient st (mkDeleteClientRequest "c1" "t0")).2 = false.
Proof.
  pose proof (DeleteClient_effect [CCreate sample_req] "c1" "" ltac:(discriminate)) as H1.
  pose proof (DeleteClient_effect [CCreate sample_req] "c1" "t0" ltac:(discriminate)) as H2.
  cbv zeta in *. split; [vm_compute; reflexivity|].
  destruct (DeleteClient _ (mkDeleteClientRequest "c1" "")) as [st1 b1].
  destruct (DeleteClient _ (mkDeleteClientRequest "c1" "t0")) as [st2 b2]. cbn. split.
  - destruct H1 as [_ ->]. rewrite bool_decide_eq_true_2; [done|]. split; [done|]. intros [H _]. by apply H.
  - apply H2. split; [discriminate|]. vm_compute. discriminate.
Defined.

(** Owner-token fencing of SUBSCRIBE: once a client's owner token is set, a
    request with a different non-empty token leaves the whole center unchanged
    (tokens included) and every filter it names is answered [-1] without an
    error; the current owner's request, or one without a token, is executed. *)
Theorem CreateSub_fencing ops req :
  let st := reachable ops in
  create_fenced st req →
  CreateSub st req = (st, mkSubResponse (rejectTopics (sr_Topics req)) false, []) ∧
  ∀ o, o ∈ sr_Topics req → so_Topic o ≠ "" → rejectTopics (sr_Topics req) !! so_Topic o = Some (-1).
Proof.
  intros st Hf. split.
  - destruct (CreateSub st req) as [[st' resp] errs] eqn:E.
    apply CreateSub_spec in E as [_ E]; [|apply reachable_ok].
    rewrite bool_decide_eq_true_2 in E by done. by destruct E as (-> & -> & ->).
  - unfold rejectTopics. intros o Ho Hne.
    assert (∀ (l : list SubOption) (m : gmap string Z), o ∈ l ∨ m !! so_Topic o = Some (-1) →
      foldl (λ m o, if bool_decide (so_Topic o = "") then m else <[so_Topic o := -1]> m) m l !! so_Topic o
        = Some (-1)) as H; [|by apply H; left].
    clear Ho. induction l as [|o' l IH]; cbn; intros m [Ho|Ho]; [by apply elem_of_nil in Ho|done| |];
      apply IH.
    + apply elem_of_cons in Ho as [->|]; [right|by left]. rewrite bool_decide_eq_false_2 by done.
      apply lookup_insert_eq.
    + right. case_bool_decide; [done|]. destruct (decide (so_Topic o = so_Topic o')) as [->|];
        [apply lookup_insert_eq|by rewrite lookup_insert_ne].
Qed.

Lemma CreateSub_fencing_witness :
  let st := reachable [CSetOwner "c1" "new"] in
  CreateSub st sample_req = (st, mkSubResponse (rejectTopics (sr_Topics sample_req)) false, []) ∧
  rejectTopics (sr_Topics sample_req) !! "a/b" = Some (-1).
Proof.
  destruct (CreateSub_fencing [CSetOwner "c1" "new"] sample_req) as [H1 H2].
  - split_and!; discriminate.
  - split; [exact H1|]. apply (H2 (mkSubOption 1 false "a/b" false 0 0)); [by left|discriminate].
Defined.

(** The matches of a consistent center, per client. *)
Lemma center_matches st topic :
  center_ok st → validatePublishTopic topic = Ok tt → head (SplitTopicLevels topic) ≠ Some "$share" →
  NoDup (cm_ClientID <$> GetAllMatchClientV2 st topic) ∧
  (∀ c, c ∈ cm_ClientID <$> GetAllMatchClientV2 st topic ↔
        ∃ f o, sub_of st c f = Some o ∧ covers f topic = true) ∧
  (∀ cm, cm ∈ GetAllMatchClientV2 st topic →
     NoDup (ms_TopicFilter <$> cm_Matched cm) ∧
     (∀ ms, ms ∈ cm_Matched cm ↔ ∃ o, ms = matchedSubscriptionFromOption o ∧
        sub_of st (cm_ClientID cm) (so_Topic o) = Some o ∧ covers (so_Topic o) topic = true) ∧
     cm_MaxQoS cm = foldl (λ q ms, Z.max q (ms_QoS ms)) 0 (cm_Matched cm)).
Proof.
  intros Hok Hv Hh.
  pose proof (λ c, aggMap_lookup st topic c) as Hagg.
  pose proof (λ c ms, center_match_elem st topic c ms Hok Hv Hh) as Helem.
  assert (cm_ClientID <$> GetAllMatchClientV2 st topic = (map_to_list (aggMap st topic)).*1) as Hids.
  { unfold GetAllMatchClientV2. rewrite <-list_fmap_compose. apply list_fmap_ext. by intros ? []. }
  split_and!.
  - rewrite Hids. apply NoDup_fst_map_to_list.
  - intros c. rewrite Hids, elem_of_keys, Hagg. split.
    + destruct (shard_matches _ topic c) as [|ms l] eqn:E; [by intros []|]. intros _.
      destruct (proj1 (Helem c ms)) as (o & _ & ? & ?); [rewrite E; by left|]. by exists (so_Topic o), o.
    + intros (f & o & Ho & Hc). destruct (shard_matches _ topic c) eqn:E; [|by eexists].
      assert (so_Topic o = f) as <-.
      { unfold sub_of in Ho. destruct (mc_shards st !! _) as [core|] eqn:Es; [|done].
        apply (ok_filter core (co_core st Hok _ _ Es) c f o Ho). }
      assert (matchedSubscriptionFromOption o ∈ shard_matches (matchShards st topic) topic c) as Hin
        by (apply Helem; by exists o).
      rewrite E in Hin. by apply elem_of_nil in Hin.
  - intros cm ([c a] & -> & Ha%elem_of_map_to_list)%list_elem_of_fmap. rewrite Hagg in Ha.
    cbn [cm_ClientID cm_MaxQoS cm_Matched].
    assert (ag_matched a = shard_matches (matchShards st topic) topic c ∧
      ag_maxQoS a = foldl (λ q ms, Z.max q (ms_QoS ms)) 0 (ag_matched a)) as [-> Hq].
    { destruct (shard_matches _ topic c); [done|]. by injection Ha as <-. }
    split_and!; [by apply center_match_NoDup|apply Helem|done].
Qed.

(** C29. The sharded lookup is exact.  For a valid publish topic (not under
    [$share]), [GetAllMatchClientV2] lists a client, once, exactly when some
    subscription of that client stored anywhere in the center covers the topic;
    its matches are all those subscriptions, each once; and [MaxQoS] is the
    highest of their QoS.  In particular the shards of [shardKeysForMatch]
    miss no matching subscription. *)
Theorem GetAllMatchClientV2_exact ops topic :
  let st := reachable ops in
  validatePublishTopic topic = Ok tt → head (SplitTopicLevels topic) ≠ Some "$share" →
  NoDup (cm_ClientID <$> GetAllMatchClientV2 st topic) ∧
  (∀ c, c ∈ cm_ClientID <$> GetAllMatchClientV2 st topic ↔
        ∃ f o, sub_of st c f = Some o ∧ covers f topic = true) ∧
  (∀ cm, cm ∈ GetAllMatchClientV2 st topic →
     NoDup (ms_TopicFilter <$> cm_Matched cm) ∧
     (∀ ms, ms ∈ cm_Matched cm ↔ ∃ o, ms = matchedSubscriptionFromOption o ∧
        sub_of st (cm_ClientID cm) (so_Topic o) = Some o ∧ covers (so_Topic o) topic = true) ∧
     cm_MaxQoS cm = foldl (λ q ms, Z.max q (ms_QoS ms)) 0 (cm_Matched cm)).
Proof. intros st Hv Hh. by apply center_matches; [apply reachable_ok|..]. Qed.

Lemma GetAllMatchClientV2_exact_witness :
  let st := reachable [CCreate (mkSubRequest [mkSubOption 1 false "+/b" false 0 0;
    mkSubOption 2 false "$share/g/a/#" false 0 0] "c1" "")] in
  "c1" ∈ cm_ClientID <$> GetAllMatchClientV2 st "a/b" ∧
  ¬ "c1" ∈ cm_ClientID <$> GetAllMatchClientV2 st "$SYS/b".
Proof.
  split.
  - destruct (GetAllMatchClientV2_exact [CCreate (mkSubRequest [mkSubOption 1 false "+/b" false 0 0;
      mkSubOption 2 false "$share/g/a/#" false 0 0] "c1" "")] "a/b") as (_ & H & _);
      [reflexivity|discriminate|].
    apply H. exists "+/b", (mkSubOption 1 false "+/b" false 0 0). split; vm_compute; reflexivity.
  - vm_compute. intros H. by apply elem_of_nil in H.
Defined.

(** Rebuilding from the snapshot message of a consistent center whose subscribers
    are all named gives the center back. *)
Lemma recover_snapshot st :
  center_ok st → (∀ f, sub_of st "" f = None) → recoverFrom (snapshotOf st) = st.
Proof.
  intros Hok Hnamed. unfold recoverFrom, snapshotOf. cbn.
  assert (((λ '(root, clients), NewSubCoreFromProto root clients) <$>
    ((λ core, (Some (sc_root core), Some (sc_clients core))) <$> mc_shards st)) = mc_shards st) as ->.
  { apply map_eq. intros k. rewrite !lookup_fmap. by destruct (mc_shards st !! k) as [[]|]. }
  destruct st as [shards idx tok] eqn:Est. cbn in *. f_equal.
  destruct (rebuild_spec shards) as [Hc Hp]. destruct Hok as [H1 H2 H3 H4]. cbn in *.
  assert (∀ k, shard_count shards "" k = 0) as Hanon.
  { intros k. unfold shard_count. destruct (shards !! k) as [core|] eqn:E'; [|done].
    rewrite (topics_of_eq core "" ∅); [done|]. intros f. rewrite lookup_empty.
    destruct (client_sub core "" f) as [o|] eqn:Eo; [|done].
    pose proof (H2 k core "" f o E' Eo) as Hk. specialize (Hnamed f). unfold sub_of in Hnamed.
    cbn in Hnamed. rewrite Hk, E' in Hnamed. cbn in Hnamed. congruence. }
  apply index_ext; [constructor|done|].
  - intros c m k v Hcm. by apply (Hp c m Hcm).
  - intros c m Hcm. by apply (Hp c m Hcm).
  - destruct (rebuildClientIndexFromShards shards !! "") as [m|] eqn:Em; [|done].
    destruct (Hp "" m Em) as [Hne Hpos]. destruct Hne. apply map_eq. intros k. rewrite lookup_empty.
    destruct (m !! k) as [v|] eqn:Ev; [|done]. specialize (Hc "" k). unfold index_count in Hc.
    rewrite Em in Hc. cbn in Hc. rewrite Ev, Hanon in Hc. cbn in Hc. specialize (Hpos k v Ev). lia.
  - intros c k. rewrite Hc. destruct (decide (c = "")) as [->|Hne]; [|by rewrite H4].
    rewrite Hanon. destruct H3 as [_ _ He]. unfold index_count. by rewrite He.
Qed.

(** Snapshot round trip: writing a snapshot of a reachable center whose
    subscribers are all named, and recovering from the bytes into any center,
    yields the same center: shards, owner tokens, and a rebuilt reverse index
    equal to the incrementally maintained one.  It relies on [proto.Unmarshal]
    inverting [proto.Marshal] on the snapshot message. *)
Theorem snapshot_roundtrip {Data E : Type} (marshal : ClusterSub → result E Data)
    (unmarshal : Data → result E ClusterSub) ops st0 data :
  let st := reachable ops in
  (∀ x d, marshal x = Ok d → unmarshal d = Ok x) →
  (∀ f, sub_of st "" f = None) →
  WriteSnapshot marshal st = Ok data → RecoverSnapshot unmarshal st0 data = (st, None).
Proof.
  intros st Hm Hnamed Hw. unfold RecoverSnapshot. rewrite (Hm _ _ Hw).
  by rewrite recover_snapshot by (done || apply reachable_ok).
Qed.

Lemma snapshot_roundtrip_witness :
  let st := reachable [CCreate sample_req] in
  RecoverSnapshot (E := string) Ok NewMemorySubCenter (snapshotOf st) = (st, None).
Proof.
  apply (snapshot_roundtrip (E := string) Ok Ok [CCreate sample_req]).
  - intros x d H. injection H as <-. reflexivity.
  - intros f. unfold sub_of. destruct (mc_shards _ !! _) as [core|] eqn:Es; [|reflexivity].
    assert (core ∈ (map_to_list (mc_shards (reachable [CCreate sample_req]))).*2) as Hin.
    { apply list_elem_of_fmap. exists (shardKeyFromTopic f, core). split; [reflexivity|].
      by apply elem_of_map_to_list. }
    vm_compute in Hin. apply list_elem_of_singleton in Hin as ->. reflexivity.
  - reflexivity.
Defined.

(** [GetClientSubscriptions] returns for a named client exactly what is
    stored for it across all shards. *)
Theorem GetClientSubscriptions_exact ops c f :
  c ≠ "" → GetClientSubscriptions (reachable ops) c !! f = sub_of (reachable ops) c f.
Proof.
  intros Hc. set (st := reachable ops). pose proof (reachable_ok ops : center_ok st) as Hok.
  unfold GetClientSubscriptions. rewrite bool_decide_eq_false_2 by done.
  rewrite (fold_subs_lookup _ c f _ (sub_of st c f)).
  - rewrite lookup_empty. destruct (sub_of st c f) as [o|] eqn:Eo; [|by case_bool_decide].
    rewrite bool_decide_eq_true_2; [done|]. unfold sub_of in Eo.
    destruct (mc_shards st !! _) as [core|] eqn:Es; [|done]. apply Exists_exists. exists core.
    split; [|rewrite <-not_eq_None_Some in *; cbn in Eo; by rewrite Eo].
    apply list_elem_of_fmap. eexists (_, core). split; [done|]. by apply elem_of_map_to_list.
  - intros core ([k core'] & -> & Hk%elem_of_map_to_list)%list_elem_of_fmap [o Ho].
    apply (sub_of_shard st k); [done|]. by apply (co_key st Hok k core' c f o).
Qed.

Lemma GetClientSubscriptions_exact_witness :
  GetClientSubscriptions (reachable [CCreate sample_req]) "c1" !! "a/b" =
    Some (mkSubOption 1 false "a/b" false 0 0).
Proof.
  rewrite (GetClientSubscriptions_exact [CCreate sample_req] "c1" "a/b"); [|discriminate].
  vm_compute. reflexivity.
Defined.

(** [GetAllMatchClient] does not keep the preference of [matchTopicClient]
    across shards: between subscriptions of equal QoS in different shards the
    first shard looked up wins.  For topic [a/b/c] and the filters [a/+/+] (two
    wildcards) and [+/b/c] (one), it returns the less specific [a/+/+]. *)
Theorem GetAllMatchClient_not_most_specific :
  let st := reachable [CCreate (mkSubRequest [mkSubOption 1 false "a/+/+" false 0 0;
    mkSubOption 1 false "+/b/c" false 0 7] "c1" "")] in
  isMoreSpecificFilter "+/b/c" "a/+/+" = true ∧
  GetAllMatchClient st "a/b/c" !! "c1" = Some (mkSubOption 1 false "a/+/+" false 0 0) ∧
  sub_of st "c1" "+/b/c" = Some (mkSubOption 1 false "+/b/c" false 0 7).
Proof. split_and!; vm_compute; reflexivity. Qed.
