(* ===== verification/WalEngine.v ===== *)
(** * The local WAL state machine engine ([src/internal/localstate/walsm])

    The engine makes a deterministic state machine durable on one node: each
    update is appended to a write-ahead log as a pending record and a commit
    record, then applied; snapshots bound the replay; [NewEngine] rebuilds the
    state from the latest snapshot and the committed records after it.

    The state machines are an interface ([SMAdapter], the Go [smAdapter]), with
    the laws the engine relies on in [SMLaws]; the session and subscription
    centers are instances in other files.  The etcd WAL and the file system are
    external: the disk is the list of saved entries and the latest snapshot, and
    every call that can fail takes its outcome as an argument.  A [Save] that
    reports an error is taken to have written nothing. *)

From S2P Require Import Prelude GoStrings.

(** ** Entry encoding ([encodePendingWALEntry], [encodeCommitWALEntry], [decodeWALEntry]) *)

Definition walEntryMagic : list byte := go_bytes "skytree-wal-sm-v1".
Definition walEntryTypePending : Z := 1.
Definition walEntryTypeCommit : Z := 2.
(** [len(walEntryMagic) + 1 + 8]. *)
Definition headerSize : nat := length walEntryMagic + 1 + 8.

(** [binary.BigEndian.PutUint64] and [Uint64], for any number of bytes. *)
Fixpoint bigEndian (n : nat) (v : Z) : list byte :=
  match n with
  | O => []
  | S n' => bigEndian n' (v / 256) ++ [z2b v]
  end.
Definition bigEndianValue (l : list byte) : Z := foldl (λ acc b, acc * 256 + b2z b) 0 l.

Definition encodePendingWALEntry (index : Z) (payload : list byte) : list byte :=
  walEntryMagic ++ [z2b walEntryTypePending] ++ bigEndian 8 index ++ payload.

Definition encodeCommitWALEntry (pendingIndex : Z) : list byte :=
  walEntryMagic ++ [z2b walEntryTypeCommit] ++ bigEndian 8 pendingIndex.

(** The Go results [(entryType, index, payload, wrapped)]; [None] when not wrapped. *)
Definition decodeWALEntry (data : list byte) : option (Z * Z * list byte) :=
  if bool_decide (length data < headerSize)%nat
     || negb (bool_decide (take (length walEntryMagic) data = walEntryMagic)) then None
  else
    let entryType := b2z (default "000"%char (data !! length walEntryMagic)) in
    let index := bigEndianValue (take 8 (drop (length walEntryMagic + 1) data)) in
    Some (entryType, index, drop headerSize data).

(** ** The state machine interface *)

(** [smAdapter] and the optional [updateValidator] ([sm_validate] answers [Ok]
    where a state machine has none).  [clock] is the time the call reads. *)
Class SMAdapter (S R E Snap : Type) := {
  sm_init : S;
  sm_validate : list byte → result E unit;
  sm_update : Z → S → list byte → S * result E R;
  sm_save : S → result E Snap;
  sm_recover : S → Snap → S * result E unit }.

(** ** Disk and engine state *)

Record Entry := mkEntry { en_Index : Z; en_Normal : bool; en_Data : list byte }.

Record Disk (Snap : Type) := mkDisk {
  d_wal : list Entry;
  d_snap : option (Z * Snap) }.
Arguments mkDisk {Snap}. Arguments d_wal {Snap}. Arguments d_snap {Snap}.

(** The files of an empty directory after [OpenOrCreateWAL]: the reserved no-op. *)
Definition freshDisk {Snap} : Disk Snap := mkDisk [mkEntry 0 true []] None.

Record Engine (S Snap : Type) := mkEngine {
  e_sm : S;
  e_disk : Disk Snap;
  e_appliedIndex : Z;
  e_nextIndex : Z;
  e_snapshotEntries : Z;
  e_sinceSnapshot : Z }.
Arguments mkEngine {S Snap}. Arguments e_sm {S Snap}. Arguments e_disk {S Snap}.
Arguments e_appliedIndex {S Snap}. Arguments e_nextIndex {S Snap}.
Arguments e_snapshotEntries {S Snap}. Arguments e_sinceSnapshot {S Snap}.

(** Errors of the engine: those of the state machine and those of the storage. *)
Inductive EngineError (E : Type) :=
| ValidateError (e : E)
| UpdateError (e : E)
| SnapshotError (e : E)
| StorageError.
Arguments ValidateError {E}. Arguments UpdateError {E}.
Arguments SnapshotError {E}. Arguments StorageError {E}.

(** How the file operations of one [Write] turn out. *)
Record WriteIO := mkWriteIO {
  io_pending : bool;
  io_commit : bool;
  io_snapSave : bool;
  io_walSnapshot : bool;
  io_release : bool }.
Definition all_good : WriteIO := mkWriteIO true true true true true.

Definition maxU64 (a b : Z) : Z := if b <? a then a else b.

Section engine.
Context {S R E Snap : Type} `{!SMAdapter S R E Snap}.

(** ** [Write] and snapshots *)

Definition saveEntry (ent : Entry) (d : Disk Snap) : Disk Snap :=
  mkDisk (d_wal d ++ [ent]) (d_snap d).

(** The Boolean result says whether the call returned [nil]; a snapshot file
    that was saved replaces the older ones even if a later step fails. *)
Definition takeSnapshotLocked (io : WriteIO) (e : Engine S Snap) : Engine S Snap * bool :=
  if e_appliedIndex e =? 0 then (e, true)
  else
    match sm_save (e_sm e) with
    | Err _ => (e, false)
    | Ok data =>
        if negb (io_snapSave io) then (e, false)
        else
          let disk := mkDisk (d_wal (e_disk e)) (Some (e_appliedIndex e, data)) in
          let e := mkEngine (e_sm e) disk (e_appliedIndex e) (e_nextIndex e)
                     (e_snapshotEntries e) (e_sinceSnapshot e) in
          if negb (io_walSnapshot io) then (e, false)
          else if negb (io_release io) then (e, false)
          else (mkEngine (e_sm e) disk (e_appliedIndex e) (e_nextIndex e)
                  (e_snapshotEntries e) 0, true)
    end.

Definition maybeSnapshotByTimer (io : WriteIO) (e : Engine S Snap) : Engine S Snap * bool :=
  if e_sinceSnapshot e =? 0 then (e, true) else takeSnapshotLocked io e.

Definition Write (clock : Z) (io : WriteIO) (e : Engine S Snap) (updateBytes : list byte)
    : Engine S Snap * result (EngineError E) R :=
  match sm_validate updateBytes with
  | Err err => (e, Err (ValidateError err))
  | Ok _ =>
      let idx := e_nextIndex e in
      if negb (io_pending io) then (e, Err StorageError)
      else
        let disk := saveEntry (mkEntry idx true (encodePendingWALEntry idx updateBytes)) (e_disk e) in
        let commitIdx := wrap 64 (idx + 1) in
        if negb (io_commit io) then
          (mkEngine (e_sm e) disk (e_appliedIndex e) (wrap 64 (commitIdx + 1))
             (e_snapshotEntries e) (e_sinceSnapshot e), Err StorageError)
        else
          let disk := saveEntry (mkEntry commitIdx true (encodeCommitWALEntry idx)) disk in
          let next := wrap 64 (commitIdx + 1) in
          match sm_update clock (e_sm e) updateBytes with
          | (sm, Err err) =>
              (mkEngine sm disk (e_appliedIndex e) next (e_snapshotEntries e) (e_sinceSnapshot e),
               Err (UpdateError err))
          | (sm, Ok res) =>
              let since := wrap 64 (e_sinceSnapshot e + 1) in
              let e := mkEngine sm disk idx next (e_snapshotEntries e) since in
              if (0 <? e_snapshotEntries e) && (e_snapshotEntries e <=? since)
              then ((takeSnapshotLocked io e).1, Ok res)
              else (e, Ok res)
          end
  end.

(** ** [NewEngine]: recovery *)

Definition committedPendingEntries (ents : list Entry) : gset Z :=
  foldl (λ committed ent,
    match decodeWALEntry (en_Data ent) with
    | Some (entryType, pendingIndex, _) =>
        if entryType =? walEntryTypeCommit then {[pendingIndex]} ∪ committed else committed
    | None => committed
    end) ∅ ents.

Definition shouldSkipReplayEntry (ent : Entry) (hasSnapshot : bool) (appliedIndex : Z) : bool :=
  if negb (en_Normal ent) then true
  else if bool_decide (length (en_Data ent) = 0%nat) then true
  else hasSnapshot && (en_Index ent <=? appliedIndex).

Record Replay := mkReplay {
  rp_sm : S;
  rp_any : bool;
  rp_lastApplied : Z;
  rp_lastWAL : Z }.

(** One iteration of [replayWALEntries]. *)
Definition replayOne (clock : Z) (committed : gset Z) (hasSnapshot : bool) (appliedIndex : Z)
    (rp : Replay) (ent : Entry) : result (EngineError E) Replay :=
  let rp := mkReplay (rp_sm rp) (rp_any rp) (rp_lastApplied rp)
              (maxU64 (rp_lastWAL rp) (en_Index ent)) in
  let apply payload :=
    match sm_update clock (rp_sm rp) payload with
    | (_, Err err) => Err (UpdateError err)
    | (sm, Ok _) => Ok (mkReplay sm true (en_Index ent) (rp_lastWAL rp))
    end in
  if shouldSkipReplayEntry ent hasSnapshot appliedIndex then Ok rp
  else
    match decodeWALEntry (en_Data ent) with
    | None => apply (en_Data ent)
    | Some (entryType, _, payload) =>
        if entryType =? walEntryTypePending then
          if bool_decide (en_Index ent ∈ committed) then apply payload else Ok rp
        else Ok rp
    end.

Fixpoint replayLoop (clock : Z) (committed : gset Z) (hasSnapshot : bool) (appliedIndex : Z)
    (rp : Replay) (ents : list Entry) : result (EngineError E) Replay :=
  match ents with
  | [] => Ok rp
  | ent :: rest =>
      rp ← replayOne clock committed hasSnapshot appliedIndex rp ent;
      replayLoop clock committed hasSnapshot appliedIndex rp rest
  end.

Definition replayWALEntries (clock : Z) (sm : S) (ents : list Entry) (hasSnapshot : bool)
    (appliedIndex : Z) : result (EngineError E) Replay :=
  replayLoop clock (committedPendingEntries ents) hasSnapshot appliedIndex
    (mkReplay sm hasSnapshot appliedIndex 0) ents.

(** [readAll w index]: the entries etcd's WAL hands back when it is opened at
    the snapshot with that index ([OpenOrCreateWAL]). *)
Variable readAll : list Entry → Z → list Entry.

(** [NewEngine] and [init] on a directory with the given contents. *)
Definition NewEngine (clock snapshotEntries : Z) (disk : Disk Snap)
    : result (EngineError E) (Engine S Snap) :=
  '(sm, hasSnapshot, appliedIndex) ←
    match d_snap disk with
    | Some (index, data) =>
        match sm_recover sm_init data with
        | (sm, Ok _) => Ok (sm, true, index)
        | (_, Err err) => Err (SnapshotError err)
        end
    | None => Ok (sm_init, false, 0)
    end;
  let ents := readAll (d_wal disk) appliedIndex in
  rp ← replayWALEntries clock sm ents hasSnapshot appliedIndex;
  let applied := maxU64 appliedIndex (rp_lastApplied rp) in
  let next := if rp_any rp then maxU64 (wrap 64 (applied + 1)) (wrap 64 (rp_lastWAL rp + 1))
              else maxU64 1 (wrap 64 (rp_lastWAL rp + 1)) in
  Ok (mkEngine (rp_sm rp) disk applied next snapshotEntries 0).
End engine.

(** ** The laws of a state machine

    [sm_inv] is an invariant of its states; the [sm_admissible] updates keep it
    and do not depend on when they are applied. *)
Class SMLaws (S R E Snap : Type) `{!SMAdapter S R E Snap} := {
  sm_inv : S → Prop;
  sm_admissible : list byte → Prop;
  sm_inv_init : sm_inv sm_init;
  sm_inv_update clock s d : sm_inv s → sm_admissible d → sm_inv (sm_update clock s d).1;
  sm_update_clock clock clock' s d : sm_admissible d → sm_update clock s d = sm_update clock' s d;
  sm_save_recover s s0 data :
    sm_inv s → sm_save s = Ok data → sm_recover s0 data = (s, Ok tt) }.
