(* ===== verification/WalEngineProofs.v ===== *)
(** * Crash recovery of the WAL engine

    Whatever the engine has written, and wherever a crash interrupts a write,
    a restart finds exactly the updates whose commit record reached the log;
    and an update the state machine refuses after it was committed keeps the
    engine from starting again. *)

From S2P Require Import Prelude GoStrings WalEngine.

(** ** Encoding of log records *)

Lemma length_bigEndian n v : length (bigEndian n v) = n.
Proof. revert v. induction n as [|n IH]; intros v; cbn; [done|]. rewrite length_app, IH. cbn. lia. Qed.

Lemma bigEndianValue_app l b : bigEndianValue (l ++ [b]) = bigEndianValue l * 256 + b2z b.
Proof. unfold bigEndianValue. by rewrite foldl_app. Qed.

Lemma bigEndian_value n v : 0 ≤ v < 256 ^ Z.of_nat n → bigEndianValue (bigEndian n v) = v.
Proof.
  revert v. induction n as [|n IH]; intros v Hv.
  - cbn in *. lia.
  - cbn [bigEndian]. rewrite bigEndianValue_app, b2z_z2b, IH.
    + pose proof (Z.div_mod v 256). lia.
    + rewrite Nat2Z.inj_succ, Z.pow_succ_r in Hv by lia. split; [apply Z.div_pos; lia|].
      apply Z.div_lt_upper_bound; lia.
Qed.

Lemma decode_record t i rest :
  is_u8 t → 0 ≤ i < 2 ^ 64 →
  decodeWALEntry (walEntryMagic ++ [z2b t] ++ bigEndian 8 i ++ rest) = Some (t, i, rest).
Proof.
  intros Ht Hi. unfold decodeWALEntry, headerSize. rewrite !length_app, length_bigEndian.
  rewrite bool_decide_false by (cbn; lia). rewrite take_app_length, bool_decide_true by done.
  cbn [orb negb]. do 3 f_equal.
  - rewrite lookup_app_r, Nat.sub_diag by lia. cbn. by apply b2z_z2b_u8.
  - rewrite drop_app_ge by lia. replace (length walEntryMagic + 1 - length walEntryMagic)%nat with 1%nat by lia.
    change (drop 1 ([z2b t] ++ bigEndian 8 i ++ rest)) with (bigEndian 8 i ++ rest).
    rewrite take_app_length' by (by rewrite length_bigEndian).
    apply bigEndian_value. lia.
Qed.

Lemma decode_pending i p :
  0 ≤ i < 2 ^ 64 → decodeWALEntry (encodePendingWALEntry i p) = Some (walEntryTypePending, i, p).
Proof. intros Hi. by apply decode_record. Qed.

Lemma decode_commit i :
  0 ≤ i < 2 ^ 64 → decodeWALEntry (encodeCommitWALEntry i) = Some (walEntryTypeCommit, i, []).
Proof.
  intros Hi. unfold encodeCommitWALEntry. rewrite <- (app_nil_r (bigEndian 8 i)). by apply decode_record.
Qed.

Lemma length_pending i p : length (encodePendingWALEntry i p) ≠ 0%nat.
Proof. unfold encodePendingWALEntry. rewrite length_app. cbn. lia. Qed.
Lemma length_commit i : length (encodeCommitWALEntry i) ≠ 0%nat.
Proof. unfold encodeCommitWALEntry. rewrite length_app. cbn. lia. Qed.

(** ** The log as a list of updates

    A log is what a list of updates, each committed or not, leaves on disk from
    an index on. *)

Definition glog : Type := list (list byte * bool).

Definition pend (i : Z) (p : list byte) : Entry := mkEntry i true (encodePendingWALEntry i p).
Definition comm (i : Z) : Entry := mkEntry (i + 1) true (encodeCommitWALEntry i).

Fixpoint render (i : Z) (g : glog) : list Entry :=
  match g with
  | [] => []
  | (p, true) :: g => pend i p :: comm i :: render (i + 2) g
  | (p, false) :: g => pend i p :: render (i + 1) g
  end.

(** The first free index after the log. *)
Fixpoint gend (i : Z) (g : glog) : Z :=
  match g with
  | [] => i
  | (_, c) :: g => gend (if c : bool then i + 2 else i + 1) g
  end.

(** The committed updates with their index. *)
Fixpoint committed (i : Z) (g : glog) : list (Z * list byte) :=
  match g with
  | [] => []
  | (p, true) :: g => (i, p) :: committed (i + 2) g
  | (_, false) :: g => committed (i + 1) g
  end.

Lemma render_app i g1 g2 : render i (g1 ++ g2) = render i g1 ++ render (gend i g1) g2.
Proof. revert i. induction g1 as [|[p []] g1 IH]; intros i; cbn; by rewrite ?IH. Qed.
Lemma gend_app i g1 g2 : gend i (g1 ++ g2) = gend (gend i g1) g2.
Proof. revert i. induction g1 as [|[p []] g1 IH]; intros i; cbn; by rewrite ?IH. Qed.
Lemma committed_app i g1 g2 : committed i (g1 ++ g2) = committed i g1 ++ committed (gend i g1) g2.
Proof. revert i. induction g1 as [|[p []] g1 IH]; intros i; cbn; by rewrite ?IH. Qed.

Lemma gend_ge i g : i ≤ gend i g.
Proof. revert i. induction g as [|[p []] g IH]; intros i; cbn; [lia|specialize (IH (i + 2))|specialize (IH (i + 1))]; lia. Qed.

Lemma committed_range i g j p : (j, p) ∈ committed i g → i ≤ j ∧ j + 2 ≤ gend i g.
Proof.
  revert i. induction g as [|[q []] g IH]; intros i; cbn; [set_solver| |].
  - intros [[= -> ->]|Hin]%elem_of_cons.
    + pose proof (gend_ge (i + 2) g). lia.
    + apply IH in Hin. lia.
  - intros Hin. apply IH in Hin. lia.
Qed.

Lemma render_range i g ent : ent ∈ render i g → i ≤ en_Index ent < gend i g.
Proof.
  revert i. induction g as [|[q []] g IH]; intros i; cbn; [set_solver| |].
  - pose proof (gend_ge (i + 2) g). intros [->|[->|Hin]%elem_of_cons]%elem_of_cons; cbn; [lia|lia|].
    apply IH in Hin. lia.
  - pose proof (gend_ge (i + 1) g). intros [->|Hin]%elem_of_cons; cbn; [lia|].
    apply IH in Hin. lia.
Qed.

(** Commit records name exactly the committed updates. *)
Lemma render_commits i g ent j q :
  0 ≤ i → gend i g ≤ 2 ^ 64 → ent ∈ render i g →
  decodeWALEntry (en_Data ent) = Some (walEntryTypeCommit, j, q) →
  en_Index ent = j + 1 ∧ ∃ p, (j, p) ∈ committed i g.
Proof.
  revert i. induction g as [|[p []] g IH]; intros i Hi Hg; cbn in Hg |- *; [set_solver| |].
  - pose proof (gend_ge (i + 2) g).
    intros [->|[->|Hin]%elem_of_cons]%elem_of_cons Hd.
    + cbn [en_Data pend comm] in Hd. rewrite decode_pending in Hd by lia. done.
    + cbn [en_Data pend comm] in Hd. rewrite decode_commit in Hd by lia. injection Hd as <- <-.
      split; [done|]. exists p. left.
    + destruct (IH (i + 2)) as (? & p' & ?); [lia|done..|]. split; [done|]. exists p'. by right.
  - pose proof (gend_ge (i + 1) g). intros [->|Hin]%elem_of_cons Hd.
    + cbn [en_Data pend comm] in Hd. rewrite decode_pending in Hd by lia. done.
    + apply (IH (i + 1)); [lia|done..].
Qed.

Lemma committed_commit i g j p : (j, p) ∈ committed i g → comm j ∈ render i g.
Proof.
  revert i. induction g as [|[q []] g IH]; intros i; cbn; [set_solver| |].
  - intros [[= -> ->]|Hin]%elem_of_cons; [right; left|]. do 2 right. by apply IH.
  - intros Hin. right. by apply IH.
Qed.

(** [committedPendingEntries] of any selection of log entries. *)
Lemma elem_of_committedPendingEntries ents j :
  j ∈ committedPendingEntries ents ↔
  ∃ ent q, ent ∈ ents ∧ decodeWALEntry (en_Data ent) = Some (walEntryTypeCommit, j, q).
Proof.
  unfold committedPendingEntries.
  assert (∀ acc : gset Z, j ∈ foldl (λ committed ent,
    match decodeWALEntry (en_Data ent) with
    | Some (entryType, pendingIndex, _) =>
        if entryType =? walEntryTypeCommit then {[pendingIndex]} ∪ committed else committed
    | None => committed
    end) acc ents ↔ j ∈ acc ∨ ∃ ent q, ent ∈ ents ∧
      decodeWALEntry (en_Data ent) = Some (walEntryTypeCommit, j, q)) as H.
  { induction ents as [|ent ents IH]; intros acc; cbn [foldl].
    - split; [by left|]. intros [?|(? & ? & ?%elem_of_nil & _)]; done.
    - rewrite IH. setoid_rewrite elem_of_cons.
      destruct (decodeWALEntry (en_Data ent)) as [[[t k] q]|] eqn:Hd.
      + destruct (Z.eqb_spec t walEntryTypeCommit) as [->|Ht].
        * split.
          -- intros [[->%elem_of_singleton|?]%elem_of_union|(e' & q' & ? & ?)]; [right; eauto|eauto|right; eauto].
          -- intros [?|(e' & q' & [->|?] & ?)]; [set_solver| |eauto].
             left. assert (k = j) by congruence. set_solver.
        * split; [intros [?|(e' & q' & ? & ?)]; eauto 6|].
          intros [?|(e' & q' & [->|?] & ?)]; [eauto|congruence|eauto 6].
      + split; [intros [?|(e' & q' & ? & ?)]; eauto 6|].
        intros [?|(e' & q' & [->|?] & ?)]; [eauto|congruence|eauto 6]. }
  rewrite H. set_solver.
Qed.

(** ** Replay *)

Section replay.
Context {S R E Snap : Type} `{!SMAdapter S R E Snap, !SMLaws S R E Snap}.

(** The state after a list of updates, or the first error. *)
Fixpoint runs (s : S) (ps : list (Z * list byte)) : result E S :=
  match ps with
  | [] => Ok s
  | (_, p) :: ps =>
      match sm_update 0 s p with
      | (s', Ok _) => runs s' ps
      | (_, Err e) => Err e
      end
  end.

Lemma runs_app s ps1 ps2 : runs s (ps1 ++ ps2) = runs s ps1 ≫= λ s', runs s' ps2.
Proof.
  revert s. induction ps1 as [|[j p] ps1 IH]; intros s; [done|]. cbn.
  destruct (sm_update 0 s p) as [s' []]; [apply IH|done].
Qed.

Lemma runs_inv s ps s' :
  Forall (λ jp, sm_admissible jp.2) ps → sm_inv s → runs s ps = Ok s' → sm_inv s'.
Proof.
  intros Hps. revert s. induction Hps as [|[j p] ps Hp Hps IH]; intros s Hs; cbn; [by intros [= <-]|].
  pose proof (sm_inv_update 0 s p Hs Hp) as Hi.
  destruct (sm_update 0 s p) as [s1 []]; [|done]. by apply IH.
Qed.

Definition bump (rp : Replay) (ent : Entry) : @Replay S :=
  mkReplay (rp_sm rp) (rp_any rp) (rp_lastApplied rp) (maxU64 (rp_lastWAL rp) (en_Index ent)).

Section loop.
Context (clock : Z) (C : gset Z) (hs : bool) (k : Z).
Hypothesis Hhs : hs = false → k = 0.

Lemma replayOne_commit rp i :
  0 ≤ i < 2 ^ 64 → replayOne clock C hs k rp (comm i) = Ok (bump rp (comm i)).
Proof.
  intros Hi. unfold replayOne, shouldSkipReplayEntry. cbn [comm en_Normal en_Data en_Index negb].
  rewrite bool_decide_false by apply length_commit. destruct (hs && _); [done|].
  by rewrite decode_commit.
Qed.

Lemma replayOne_old rp i p :
  0 < i ≤ k → replayOne clock C hs k rp (pend i p) = Ok (bump rp (pend i p)).
Proof.
  intros Hi. unfold replayOne, shouldSkipReplayEntry. cbn [pend en_Normal en_Data en_Index negb].
  rewrite bool_decide_false by apply length_pending.
  destruct hs; [|specialize (Hhs eq_refl); lia].
  by rewrite (proj2 (Z.leb_le i k)) by lia.
Qed.

Lemma replayOne_pend rp i p :
  0 ≤ i < 2 ^ 64 → k < i → sm_admissible p →
  replayOne clock C hs k rp (pend i p) =
  if decide (i ∈ C) then
    match sm_update 0 (rp_sm rp) p with
    | (_, Err err) => Err (UpdateError err)
    | (sm, Ok _) => Ok (mkReplay sm true i (maxU64 (rp_lastWAL rp) i))
    end
  else Ok (bump rp (pend i p)).
Proof.
  intros Hi Hki Ht. unfold replayOne, shouldSkipReplayEntry. cbn [pend en_Normal en_Data en_Index negb].
  rewrite bool_decide_false by apply length_pending.
  rewrite (proj2 (Z.leb_gt i k)), andb_false_r by lia. rewrite decode_pending by done.
  cbn [Z.eqb walEntryTypePending Pos.eqb]. cbn [rp_sm]. rewrite (sm_update_clock clock 0) by done.
  destruct (decide (i ∈ C)); [by rewrite bool_decide_true|by rewrite bool_decide_false].
Qed.

Definition after (l : list (Z * list byte)) : list (Z * list byte) := filter (λ jp, k < jp.1) l.

Lemma after_cons i p l :
  after ((i, p) :: l) = if decide (k < i) then (i, p) :: after l else after l.
Proof. unfold after. by rewrite filter_cons. Qed.

Definition lastIndex (d : Z) (l : list (Z * list byte)) : Z := foldl (λ _ jp, jp.1) d l.

Definition maxIndex (d : Z) (ents : list Entry) : Z := foldl (λ a e, maxU64 a (en_Index e)) d ents.

Lemma replayLoop_render (P : Entry → bool) g i rp :
  0 < i → gend i g ≤ 2 ^ 64 → Forall (λ pc, sm_admissible pc.1) g →
  (∀ j, i ≤ j → k < j → j ∈ C ↔ ∃ p, (j, p) ∈ committed i g) →
  (∀ ent, ent ∈ render i g → k < en_Index ent → P ent = true) →
  replayLoop clock C hs k rp (filter (λ ent, P ent = true) (render i g)) =
  match runs (rp_sm rp) (after (committed i g)) with
  | Err err => Err (UpdateError err)
  | Ok s => Ok (mkReplay s (rp_any rp || negb (bool_decide (after (committed i g) = [])))
                 (lastIndex (rp_lastApplied rp) (after (committed i g)))
                 (maxIndex (rp_lastWAL rp) (filter (λ ent, P ent = true) (render i g))))
  end.
Proof.
  revert i rp. induction g as [|[p c] g IH]; intros i rp Hi Hg Ht HC HP.
  { cbn. rewrite orb_false_r. by destruct rp. }
  apply Forall_cons in Ht as [Htp Ht].
  destruct c; cbn [render committed gend] in *.
  - pose proof (gend_ge (i + 2) g).
    assert (Hrest : ∀ rp, replayLoop clock C hs k rp
        (filter (λ ent, P ent = true) (comm i :: render (i + 2) g)) =
      match runs (rp_sm rp) (after (committed (i + 2) g)) with
      | Err err => Err (UpdateError err)
      | Ok s => Ok (mkReplay s (rp_any rp || negb (bool_decide (after (committed (i + 2) g) = [])))
                 (lastIndex (rp_lastApplied rp) (after (committed (i + 2) g)))
                 (maxIndex (rp_lastWAL rp) (filter (λ ent, P ent = true) (comm i :: render (i + 2) g))))
      end).
    { intros rp'. assert (IH' := λ rp, IH (i + 2) rp). rewrite filter_cons. destruct (decide _).
      - cbn [replayLoop]. rewrite replayOne_commit by lia. cbn [mbind result_mbind result_bind].
        rewrite IH'; [done|lia|lia|done| |].
        + intros j Hj Hkj. rewrite HC by lia. split; intros [q Hq]; exists q; [|by right].
          apply elem_of_cons in Hq as [[= -> _]|Hq]; [lia|done].
        + intros ent Hent. apply HP. by do 2 right.
      - apply IH'; [lia|lia|done| |].
        + intros j Hj Hkj. rewrite HC by lia. split; intros [q Hq]; exists q; [|by right].
          apply elem_of_cons in Hq as [[= -> _]|Hq]; [lia|done].
        + intros ent Hent. apply HP. by do 2 right. }
    rewrite after_cons.
    rewrite (filter_cons _ (pend i p)).
    destruct (decide (k < i)) as [Hki|Hki].
    + rewrite decide_True by (apply HP; [left|done]). cbn [replayLoop].
      rewrite replayOne_pend by (done || lia).
      rewrite decide_True by (apply HC; [lia|lia|exists p; left]).
      cbn [runs]. destruct (sm_update 0 (rp_sm rp) p) as [s []]; [|done].
      cbn [mbind result_mbind result_bind]. rewrite Hrest. cbn [rp_sm].
      destruct (runs s _); [|done].
      rewrite (bool_decide_false (_ :: _ = [])) by done. cbn [rp_any orb negb]. by rewrite orb_true_r.
    + destruct (decide _).
      * cbn [replayLoop]. rewrite replayOne_old by lia. cbn [mbind result_mbind result_bind].
        by rewrite Hrest.
      * by rewrite Hrest.
  - pose proof (gend_ge (i + 1) g).
    assert (IH' := λ rp, IH (i + 1) rp). 
    assert (HC' : ∀ j, i + 1 ≤ j → k < j → j ∈ C ↔ ∃ p, (j, p) ∈ committed (i + 1) g).
    { intros j Hj Hkj. apply HC; lia. }
    assert (HP' : ∀ ent, ent ∈ render (i + 1) g → k < en_Index ent → P ent = true).
    { intros ent Hent. apply HP. by right. }
    rewrite (filter_cons _ (pend i p)). destruct (decide _) as [HPi|HPi].
    + cbn [replayLoop]. destruct (decide (k < i)) as [Hki|Hki].
      * rewrite replayOne_pend by (done || lia). rewrite decide_False.
        -- cbn [mbind result_mbind result_bind]. rewrite IH' by (done || lia). done.
        -- rewrite HC by lia. intros [q Hq]. apply committed_range in Hq. lia.
      * rewrite replayOne_old by lia. cbn [mbind result_mbind result_bind].
        rewrite IH' by (done || lia). done.
    + apply IH'; done || lia.
Qed.
End loop.

(** ** Indices of a log *)

Lemma after_all k i g : k < i → after k (committed i g) = committed i g.
Proof.
  revert i. induction g as [|[p []] g IH]; intros i Hi; cbn [committed]; [done| |].
  - rewrite after_cons, decide_True by done. f_equal. apply IH. lia.
  - apply IH. lia.
Qed.

Definition upto (k : Z) (l : list (Z * list byte)) : list (Z * list byte) :=
  filter (λ jp, jp.1 ≤ k) l.

Lemma committed_split k i g : committed i g = upto k (committed i g) ++ after k (committed i g).
Proof.
  revert i. induction g as [|[p []] g IH]; intros i; cbn [committed]; [done| |apply IH].
  rewrite after_cons. unfold upto in *. rewrite filter_cons. cbn [fst].
  destruct (decide (i ≤ k)).
  - rewrite decide_False by lia. cbn. f_equal. apply IH.
  - rewrite decide_True by lia. rewrite after_all by lia.
    assert (filter (λ jp, jp.1 ≤ k) (committed (i + 2) g) = []) as ->; [|done].
    apply filter_none. intros [j q] Hj. apply committed_range in Hj. cbn. lia.
Qed.

Lemma committed_admissible i g :
  Forall (λ pc, sm_admissible pc.1) g → Forall (λ jp, sm_admissible jp.2) (committed i g).
Proof.
  intros Hg. revert i. induction Hg as [|[p []] g Hp Hg IH]; intros i; cbn; [done| |apply IH].
  constructor; [done|apply IH].
Qed.

Lemma lastIndex_app d l1 l2 : lastIndex d (l1 ++ l2) = lastIndex (lastIndex d l1) l2.
Proof. apply foldl_app. Qed.

Lemma lastIndex_bounds d m l :
  d ≤ m → Forall (λ jp, d ≤ jp.1 ≤ m) l → d ≤ lastIndex d l ≤ m.
Proof.
  intros Hd Hl. assert (Hgen : ∀ d', d ≤ d' ≤ m → d ≤ lastIndex d' l ≤ m); [|apply Hgen; lia].
  induction Hl as [|[j p] l Hj Hl IH]; intros d' Hd'; [done|]. cbn. apply IH. apply Hj.
Qed.

Lemma lastIndex_upto i g k :
  lastIndex 0 (committed i g) = k → 0 ≤ i → upto k (committed i g) = committed i g.
Proof.
  intros Hl Hi. pose proof (committed_split k i g) as Hs.
  destruct (after k (committed i g)) as [|x l] eqn:Ha; [by rewrite app_nil_r in Hs|].
  exfalso. rewrite Hs, lastIndex_app, <- Ha in Hl.
  assert (Hlt : ∀ d, k < lastIndex d (after k (committed i g))); [|specialize (Hlt (lastIndex 0 (upto k (committed i g)))); lia].
  assert (Hall : Forall (λ jp, k < jp.1) (after k (committed i g))).
  { apply Forall_forall. intros jp. unfold after. by intros [? _]%list_elem_of_filter. }
  intros d. rewrite Ha in Hall |- *. apply Forall_cons in Hall as [Hx Hall]. cbn.
  clear -Hx Hall. revert x Hx. induction Hall as [|y l Hy Hl IH]; intros x Hx; [done|]. cbn. by apply IH.
Qed.

Lemma maxIndex_eq d m ents :
  d ≤ m → Forall (λ e, en_Index e ≤ m) ents → (m = d ∨ ∃ e, e ∈ ents ∧ en_Index e = m) →
  maxIndex d ents = m.
Proof.
  intros Hd Hall Hex. revert d Hd Hex.
  induction Hall as [|e ents He Hall IH]; intros d Hd Hex.
  - destruct Hex as [->|(? & ?%elem_of_nil & _)]; done.
  - cbn. apply IH; [unfold maxU64; zcase; lia|].
    destruct Hex as [->|(e' & [->|Hin]%elem_of_cons & <-)]; [left|left|right; eauto];
      unfold maxU64; zcase; lia.
Qed.

Lemma render_last i g : g ≠ [] → ∃ e, e ∈ render i g ∧ en_Index e = gend i g - 1.
Proof.
  intros Hg. destruct g as [|[p c] g _] using rev_ind; [done|].
  rewrite render_app, gend_app. destruct c; cbn.
  - exists (comm (gend i g)). split; [set_solver|]. cbn. lia.
  - exists (pend (gend i g) p). split; [set_solver|]. cbn. lia.
Qed.

Lemma render_indices i g : en_Index <$> render i g = seqZ i (gend i g - i).
Proof.
  revert i. induction g as [|[p []] g IH]; intros i.
  - cbn. by rewrite Z.sub_diag.
  - cbn. rewrite IH. pose proof (gend_ge (i + 2) g).
    rewrite (seqZ_cons i) by lia. rewrite (seqZ_cons (Z.succ i)) by lia.
    repeat f_equal; lia.
  - cbn. rewrite IH. pose proof (gend_ge (i + 1) g). rewrite (seqZ_cons i) by lia. repeat f_equal; lia.
Qed.
End replay.

(** ** Recovery *)

(** The entries of a log, numbered from 0 without a gap. *)
Definition contiguous (w : list Entry) : Prop := en_Index <$> w = seqZ 0 (Z.of_nat (length w)).

(** What the engine relies on in etcd's WAL: opened at a snapshot index, a log
    without gaps is handed back in order, all entries after that index included. *)
Definition reads_log (readAll : list Entry → Z → list Entry) : Prop :=
  ∀ w k, contiguous w → 0 ≤ k →
  ∃ P : Entry → bool, readAll w k = filter (λ e, P e = true) w ∧
    ∀ e, e ∈ w → k < en_Index e → P e = true.

Section recovery.
Context {S R E Snap : Type} `{!SMAdapter S R E Snap, !SMLaws S R E Snap}.
Context (readAll : list Entry → Z → list Entry) (Hread : reads_log readAll).

Definition noop : Entry := mkEntry 0 true [].

Record DiskOk (d : Disk Snap) (g : glog) (s : S) (a : Z) : Prop := {
  dk_wal : d_wal d = noop :: render 1 g;
  dk_end : gend 1 g < 2 ^ 64;
  dk_timed : Forall (λ pc, sm_admissible pc.1) g;
  dk_state : runs sm_init (committed 1 g) = Ok s;
  dk_applied : lastIndex 0 (committed 1 g) = a;
  dk_snap k data : d_snap d = Some (k, data) →
    0 < k ∧ lastIndex 0 (upto k (committed 1 g)) = k ∧
    ∃ s1, runs sm_init (upto k (committed 1 g)) = Ok s1 ∧ sm_save s1 = Ok data }.

Lemma noop_contiguous g : contiguous (noop :: render 1 g).
Proof.
  unfold contiguous. rewrite fmap_cons, render_indices. cbn [length].
  assert (Z.of_nat (length (render 1 g)) = gend 1 g - 1) as Hl.
  { rewrite <- (length_fmap en_Index), render_indices, length_seqZ. pose proof (gend_ge 1 g). lia. }
  rewrite Nat2Z.inj_succ, Hl, (seqZ_cons 0) by (pose proof (gend_ge 1 g); lia).
  cbn. repeat f_equal; lia.
Qed.

Lemma replayOne_noop clock C hs k rp :
  0 ≤ rp_lastWAL rp → replayOne clock C hs k rp noop = Ok (rp : @Replay S).
Proof.
  intros Hl. unfold replayOne, shouldSkipReplayEntry. cbn [noop en_Normal en_Data en_Index negb length].
  rewrite bool_decide_true by done. destruct rp as [s any la lw]. cbn in *. unfold maxU64. zcase; [done|].
  repeat f_equal; lia.
Qed.

(** The committed set computed from what was read. *)
Lemma committed_set g k P :
  gend 1 g < 2 ^ 64 → 0 ≤ k → (∀ e, e ∈ noop :: render 1 g → k < en_Index e → P e = true) →
  ∀ j, 1 ≤ j → k < j →
  j ∈ committedPendingEntries (filter (λ e : Entry, P e = true) (noop :: render 1 g)) ↔
  ∃ p, (j, p) ∈ committed 1 g.
Proof.
  intros Hg Hk HP j Hj Hkj. rewrite elem_of_committedPendingEntries. split.
  - intros (ent & q & [_ [->|Hin]%elem_of_cons]%list_elem_of_filter & Hd); [done|].
    by apply (render_commits 1 g ent j q); [lia|lia|..].
  - intros [p Hp]. exists (comm j), []. pose proof (committed_range _ _ _ _ Hp).
    split; [|apply decode_commit; lia]. apply list_elem_of_filter.
    assert (comm j ∈ noop :: render 1 g) as Hin by (right; by eapply committed_commit).
    split; [|done]. apply HP; [done|]. cbn. lia.
Qed.

(** Replaying a log of the given shape from a state at index [k]. *)
Lemma replay_log clock g k hs s0 :
  gend 1 g < 2 ^ 64 → Forall (λ pc, sm_admissible pc.1) g → 0 ≤ k → (hs = false → k = 0) →
  (k = 0 ∨ k + 2 ≤ gend 1 g) →
  replayWALEntries clock s0 (readAll (noop :: render 1 g) k) hs k =
  match runs s0 (after k (committed 1 g)) with
  | Err err => Err (UpdateError err)
  | Ok s => Ok (mkReplay s (hs || negb (bool_decide (after k (committed 1 g) = [])))
                 (lastIndex k (after k (committed 1 g))) (gend 1 g - 1))
  end.
Proof.
  intros Hg Ht Hk Hhs Hkg.
  destruct (Hread (noop :: render 1 g) k (noop_contiguous g) Hk) as (P & -> & HP).
  unfold replayWALEntries. pose proof (committed_set g k P Hg Hk HP) as HC.
  revert HC. generalize (committedPendingEntries (filter (λ e, P e = true) (noop :: render 1 g))).
  intros C HC.
  assert (Hrp : replayLoop clock C hs k (mkReplay s0 hs k 0) (filter (λ e, P e = true) (noop :: render 1 g))
    = replayLoop clock C hs k (mkReplay s0 hs k 0) (filter (λ e, P e = true) (render 1 g))).
  { rewrite filter_cons. destruct (decide _); [|done]. cbn [replayLoop]. by rewrite replayOne_noop. }
  rewrite Hrp, (replayLoop_render clock C hs k Hhs P g 1); [|lia|lia|done|exact HC|].
  2:{ intros ent Hent. apply HP. by right. }
  cbn [rp_sm]. destruct (runs s0 _); [|done]. cbn [rp_any rp_lastApplied rp_lastWAL]. do 2 f_equal.
  pose proof (gend_ge 1 g). apply maxIndex_eq; [lia| |].
  - apply Forall_forall. intros ent [_ Hin]%list_elem_of_filter. apply render_range in Hin. lia.
  - destruct (decide (g = [])) as [->|Hne]; [by left|]. right.
    destruct (render_last 1 g Hne) as (e & He & Hidx). exists e. split; [|done].
    apply list_elem_of_filter. split; [|done]. apply HP; [by right|].
    assert (1 < gend 1 g); [|lia]. destruct g as [|[q []] g']; [done|..]; cbn [gend];
      [pose proof (gend_ge (1 + 2) g')|pose proof (gend_ge (1 + 1) g')]; lia.
Qed.

Lemma lastIndex_committed k g :
  0 ≤ k → (k = 0 ∨ k + 2 ≤ gend 1 g) →
  k ≤ lastIndex k (after k (committed 1 g)) ∧
  (lastIndex k (after k (committed 1 g)) = 0 ∨ lastIndex k (after k (committed 1 g)) + 2 ≤ gend 1 g).
Proof.
  intros Hk Hkg. destruct (decide (after k (committed 1 g) = [])) as [->|Hne]; [unfold lastIndex; cbn; lia|].
  assert (Hall : Forall (λ jp, k ≤ jp.1 ≤ gend 1 g - 2) (after k (committed 1 g))).
  { apply Forall_forall. intros [j p] [Hj Hin]%list_elem_of_filter. apply committed_range in Hin. cbn in *. lia. }
  destruct (after k (committed 1 g)) as [|x l]; [done|].
  apply Forall_cons in Hall as [Hx Hall]. cbn.
  assert (Hgen : ∀ d, k ≤ d ≤ gend 1 g - 2 → k ≤ lastIndex d l ≤ gend 1 g - 2).
  { clear Hne. induction Hall as [|y l Hy Hl IH]; intros d Hd; [done|]. cbn. by apply IH. }
  specialize (Hgen x.1 Hx). unfold lastIndex in Hgen. lia.
Qed.

Lemma wrap64_small z : 0 ≤ z < 2 ^ 64 → wrap 64 z = z.
Proof. intros. by apply Z.mod_small. Qed.

Lemma next_index g hs la n :
  gend 1 g < 2 ^ 64 → 0 ≤ la → (la = 0 ∨ la + 2 ≤ gend 1 g) →
  (if hs || n : bool then maxU64 (wrap 64 (la + 1)) (wrap 64 (gend 1 g - 1 + 1))
   else maxU64 1 (wrap 64 (gend 1 g - 1 + 1))) = gend 1 g.
Proof.
  intros Hg Hla Hl. pose proof (gend_ge 1 g). rewrite !wrap64_small by lia. unfold maxU64.
  destruct (hs || n); zcase; lia.
Qed.

(** Opening the disk of an engine gives back its state, or the error of the first
    committed update that fails. *)
Lemma NewEngine_eq clock n d g :
  d_wal d = noop :: render 1 g → gend 1 g < 2 ^ 64 → Forall (λ pc, sm_admissible pc.1) g →
  (∀ k data, d_snap d = Some (k, data) → 0 < k ∧ k + 2 ≤ gend 1 g ∧
     lastIndex 0 (upto k (committed 1 g)) = k ∧
     ∃ s1, runs sm_init (upto k (committed 1 g)) = Ok s1 ∧ sm_save s1 = Ok data) →
  NewEngine readAll clock n d =
  match runs sm_init (committed 1 g) with
  | Err err => Err (UpdateError err)
  | Ok s => Ok (mkEngine s d (lastIndex 0 (committed 1 g)) (gend 1 g) n 0)
  end.
Proof.
  intros Hw Hg Ht Hsnap. unfold NewEngine. rewrite Hw.
  destruct (d_snap d) as [[k data]|] eqn:Hd.
  - destruct (Hsnap k data eq_refl) as (Hk & Hkg & Hlast & s1 & Hrun & Hsave).
    assert (sm_inv s1) as Hinv.
    { eapply runs_inv, Hrun; [|apply sm_inv_init]. apply Forall_forall. intros jp [_ Hin]%list_elem_of_filter. revert jp Hin.
      apply Forall_forall, committed_admissible, Ht. }
    rewrite (sm_save_recover s1 sm_init data) by done.
    cbn [mbind result_mbind result_bind]. rewrite replay_log by (done || lia).
    assert (runs sm_init (committed 1 g) = runs s1 (after k (committed 1 g))) as ->.
    { rewrite (committed_split k 1 g) at 1. by rewrite runs_app, Hrun. }
    assert (lastIndex 0 (committed 1 g) = lastIndex k (after k (committed 1 g))) as ->.
    { rewrite (committed_split k 1 g) at 1. by rewrite lastIndex_app, Hlast. }
    destruct (runs s1 _) as [s|]; [|done]. cbn [mbind result_mbind result_bind rp_lastApplied rp_any rp_lastWAL rp_sm].
    destruct (lastIndex_committed k g) as [Hl1 Hl2]; [lia|lia|].
    set (la := lastIndex k _) in *.
    assert (maxU64 k la = la) as -> by (unfold maxU64; zcase; lia).
    f_equal. f_equal. by apply next_index; lia.
  - cbn [mbind result_mbind result_bind]. rewrite replay_log by (done || lia).
    rewrite after_all by lia.
    destruct (runs sm_init _) as [s|]; [|done]. cbn [mbind result_mbind result_bind rp_lastApplied rp_any rp_lastWAL rp_sm].
    destruct (lastIndex_committed 0 g) as [Hl1 Hl2]; [lia|lia|]. rewrite after_all in Hl1, Hl2 by lia.
    set (la := lastIndex 0 _) in *.
    assert (maxU64 0 la = la) as -> by (unfold maxU64; zcase; lia).
    f_equal. f_equal. by apply next_index; lia.
Qed.

Lemma lastIndex_in d l k : lastIndex d l = k → k ≠ d → ∃ p, (k, p) ∈ l.
Proof.
  revert d. induction l as [|[j p] l IH]; intros d Hl Hk; [done|]. cbn in Hl.
  destruct (decide (k = j)) as [->|Hne]; [exists p; left|].
  destruct (IH j Hl Hne) as [q Hq]. exists q. by right.
Qed.

Lemma upto_snoc k g pc :
  k < gend 1 g → upto k (committed 1 (g ++ [pc])) = upto k (committed 1 g).
Proof.
  intros Hk. rewrite committed_app. unfold upto. rewrite filter_app.
  rewrite (filter_none _ (committed (gend 1 g) [pc])), app_nil_r; [done|].
  intros [j p] Hin%committed_range. cbn in *. lia.
Qed.

Lemma snap_range d g s a k data :
  DiskOk d g s a → d_snap d = Some (k, data) → k + 2 ≤ gend 1 g.
Proof.
  intros Hd Hs. destruct (dk_snap _ _ _ _ Hd _ _ Hs) as (Hk & Hl & _).
  apply lastIndex_in in Hl as [p [_ Hin]%list_elem_of_filter]; [|lia].
  apply committed_range in Hin. lia.
Qed.

Lemma DiskOk_open clock n d g s a :
  DiskOk d g s a → NewEngine readAll clock n d = Ok (mkEngine s d a (gend 1 g) n 0).
Proof.
  intros Hd. rewrite (NewEngine_eq clock n d g).
  - by rewrite (dk_state _ _ _ _ Hd), (dk_applied _ _ _ _ Hd).
  - apply Hd. - apply Hd. - apply Hd.
  - intros k data Hs. pose proof (snap_range _ _ _ _ _ _ Hd Hs).
    destruct (dk_snap _ _ _ _ Hd _ _ Hs) as (? & ? & ?). done.
Qed.

Definition add_pending (u : list byte) (i : Z) (d : Disk Snap) : Disk Snap := saveEntry (pend i u) d.
Definition add_both (u : list byte) (i : Z) (d : Disk Snap) : Disk Snap :=
  saveEntry (comm i) (add_pending u i d).

(** The shape of the disk after one more update, committed or not. *)
Lemma disk_snoc d g s a u (c : bool) :
  DiskOk d g s a → gend 1 g + 2 < 2 ^ 64 → sm_admissible u →
  let d' := if c then add_both u (gend 1 g) d else add_pending u (gend 1 g) d in
  d_wal d' = noop :: render 1 (g ++ [(u, c)]) ∧ gend 1 (g ++ [(u, c)]) < 2 ^ 64 ∧
  Forall (λ pc, sm_admissible pc.1) (g ++ [(u, c)]) ∧
  (∀ k data, d_snap d' = Some (k, data) → 0 < k ∧ k + 2 ≤ gend 1 (g ++ [(u, c)]) ∧
     lastIndex 0 (upto k (committed 1 (g ++ [(u, c)]))) = k ∧
     ∃ s1, runs sm_init (upto k (committed 1 (g ++ [(u, c)]))) = Ok s1 ∧ sm_save s1 = Ok data).
Proof.
  intros Hd Hb Ht d'. rewrite render_app, gend_app. split_and!.
  - subst d'. destruct c; cbn; rewrite (dk_wal _ _ _ _ Hd); cbn; by rewrite <- ?app_assoc.
  - destruct c; cbn; lia.
  - apply Forall_app. split; [apply Hd|]. by constructor.
  - intros k data Hs. replace (d_snap d') with (d_snap d) in Hs by (by destruct c).
    pose proof (snap_range _ _ _ _ _ _ Hd Hs). rewrite upto_snoc by lia.
    destruct (dk_snap _ _ _ _ Hd _ _ Hs) as (? & ? & ?). split_and!; try done.
    destruct c; cbn; lia.
Qed.

Lemma DiskOk_committed d g s a u s' r :
  DiskOk d g s a → gend 1 g + 2 < 2 ^ 64 → sm_admissible u → sm_update 0 s u = (s', Ok r) →
  DiskOk (add_both u (gend 1 g) d) (g ++ [(u, true)]) s' (gend 1 g).
Proof.
  intros Hd Hb Ht Hu. destruct (disk_snoc d g s a u true Hd Hb Ht) as (H1 & H2 & H3 & H4).
  split; [done..| | |].
  - rewrite committed_app, runs_app, (dk_state _ _ _ _ Hd). cbn. by rewrite Hu.
  - by rewrite committed_app, lastIndex_app.
  - intros k data Hs. destruct (H4 k data Hs) as (? & _ & ? & ?). done.
Qed.

Lemma DiskOk_pending d g s a u :
  DiskOk d g s a → gend 1 g + 2 < 2 ^ 64 → sm_admissible u →
  DiskOk (add_pending u (gend 1 g) d) (g ++ [(u, false)]) s a.
Proof.
  intros Hd Hb Ht. destruct (disk_snoc d g s a u false Hd Hb Ht) as (H1 & H2 & H3 & H4).
  split; [done..| | |].
  - rewrite committed_app, app_nil_r. apply Hd.
  - rewrite committed_app, app_nil_r. apply Hd.
  - intros k data Hs. destruct (H4 k data Hs) as (? & _ & ? & ?). done.
Qed.

Lemma DiskOk_snapshot d g s a data :
  DiskOk d g s a → a ≠ 0 → sm_save s = Ok data → DiskOk (mkDisk (d_wal d) (Some (a, data))) g s a.
Proof.
  intros Hd Ha Hs. split; try apply Hd. cbn. intros k data' [= <- <-].
  pose proof (dk_applied _ _ _ _ Hd) as Hl. rewrite (lastIndex_upto 1 g a) by (done || lia).
  split_and!; [|done|].
  - destruct (lastIndex_committed 0 g) as [Hl1 _]; [lia|lia|]. rewrite after_all, Hl in Hl1 by lia. lia.
  - exists s. split; [apply Hd|done].
Qed.

(** ** Engine states *)

Record EngineOk (e : Engine S Snap) (g : glog) : Prop := {
  eo_disk : DiskOk (e_disk e) g (e_sm e) (e_appliedIndex e);
  eo_next : e_nextIndex e = gend 1 g }.

Lemma takeSnapshot_ok io e g : EngineOk e g → EngineOk (takeSnapshotLocked io e).1 g.
Proof.
  intros He. unfold takeSnapshotLocked. destruct (Z.eqb_spec (e_appliedIndex e) 0) as [|Ha]; [done|].
  destruct (sm_save (e_sm e)) as [data|] eqn:Hs; [|done].
  destruct (io_snapSave io); [|done]. cbn.
  destruct (io_walSnapshot io); [destruct (io_release io)|]; cbn; (split; [|apply He]); cbn;
    apply DiskOk_snapshot; try done; apply He.
Qed.

Lemma Write_good clock io e g u s' r :
  EngineOk e g → gend 1 g + 2 < 2 ^ 64 → sm_admissible u → io_pending io = true → io_commit io = true →
  sm_validate u = Ok tt → sm_update clock (e_sm e) u = (s', Ok r) →
  (Write clock io e u).2 = Ok r ∧ e_sm (Write clock io e u).1 = s' ∧
  EngineOk (Write clock io e u).1 (g ++ [(u, true)]).
Proof.
  intros He Hb Ht Hp Hc Hv Hu. unfold Write. rewrite Hv, Hp, Hc, Hu. cbn [negb].
  pose proof (gend_ge 1 g) as Hge. pose proof (eo_next _ _ He) as Hn.
  rewrite !wrap64_small by lia.
  set (e1 := mkEngine _ _ _ _ _ _).
  assert (EngineOk e1 (g ++ [(u, true)])) as He1.
  { subst e1. rewrite Hn. split; cbn.
    - rewrite (sm_update_clock clock 0) in Hu by done.
      apply (DiskOk_committed _ _ _ _ _ _ _ (eo_disk _ _ He) Hb Ht Hu).
    - rewrite gend_app. cbn. lia. }
  assert (e_sm (takeSnapshotLocked io e1).1 = s') as Hsm.
  { unfold takeSnapshotLocked. by case_match; [|case_match; [repeat case_match|]]. }
  destruct (_ && _); cbn [fst snd]; split_and!; try done. by apply takeSnapshot_ok.
Qed.

(** What a crash during the write of [u] leaves on disk: neither record, the
    pending one, or both. *)
Inductive crash_point := BeforePending | AfterPending | AfterCommit.

Definition crash_disk (e : Engine S Snap) (u : list byte) (cp : crash_point) : Disk Snap :=
  let i := e_nextIndex e in
  let pending := mkEntry i true (encodePendingWALEntry i u) in
  let commit := mkEntry (i + 1) true (encodeCommitWALEntry i) in
  match cp with
  | BeforePending => e_disk e
  | AfterPending => saveEntry pending (e_disk e)
  | AfterCommit => saveEntry commit (saveEntry pending (e_disk e))
  end.

(** Engines reached from an empty directory by writes, timer snapshots, and
    restarts after a crash at any point; no update was refused by the state machine,
    and no process went on after a commit record could not be saved (a crash then is
    the crash point [AfterPending]). *)
Inductive reach : Engine S Snap → Prop :=
| reach_new clock n e :
    NewEngine readAll clock n freshDisk = Ok e → reach e
| reach_write clock io e u :
    reach e → sm_admissible u → e_nextIndex e + 2 < 2 ^ 64 →
    (io_pending io = true → io_commit io = true) →
    (∀ err, (Write clock io e u).2 ≠ Err (UpdateError err)) →
    reach (Write clock io e u).1
| reach_timer io e :
    reach e → reach (maybeSnapshotByTimer io e).1
| reach_restart clock n e u cp e' :
    reach e → sm_admissible u → e_nextIndex e + 2 < 2 ^ 64 →
    NewEngine readAll clock n (crash_disk e u cp) = Ok e' → reach e'.

Lemma freshDisk_ok : DiskOk freshDisk [] sm_init 0.
Proof. by split. Qed.

(** Reopening after a crash: the update counts exactly if its commit record is there. *)
Lemma crash_open clock n e g u cp :
  EngineOk e g → sm_admissible u → gend 1 g + 2 < 2 ^ 64 →
  NewEngine readAll clock n (crash_disk e u cp) =
  match cp with
  | BeforePending => Ok (mkEngine (e_sm e) (crash_disk e u cp) (e_appliedIndex e) (gend 1 g) n 0)
  | AfterPending => Ok (mkEngine (e_sm e) (crash_disk e u cp) (e_appliedIndex e) (gend 1 g + 1) n 0)
  | AfterCommit =>
      match sm_update 0 (e_sm e) u with
      | (s', Ok _) => Ok (mkEngine s' (crash_disk e u cp) (gend 1 g) (gend 1 g + 2) n 0)
      | (_, Err err) => Err (UpdateError err)
      end
  end.
Proof.
  intros [Hd Hn] Ht Hb. unfold crash_disk. rewrite Hn. destruct cp.
  - by apply DiskOk_open.
  - rewrite (DiskOk_open _ _ _ _ _ _ (DiskOk_pending _ _ _ _ u Hd Hb Ht)). by rewrite gend_app.
  - destruct (disk_snoc _ _ _ _ u true Hd Hb Ht) as (H1 & H2 & H3 & H4).
    change (saveEntry _ (saveEntry _ _)) with (add_both u (gend 1 g) (e_disk e)).
    rewrite (NewEngine_eq clock n _ _ H1 H2 H3 H4), committed_app, runs_app, (dk_state _ _ _ _ Hd).
    cbn. destruct (sm_update 0 (e_sm e) u) as [s' []]; cbn; [|done].
    rewrite lastIndex_app, gend_app. done.
Qed.

(** The first index free of what a crash leaves on disk. *)
Lemma crash_indices e g u cp : EngineOk e g → sm_admissible u → gend 1 g + 2 < 2 ^ 64 →
  ∀ ent, ent ∈ d_wal (crash_disk e u cp) →
    en_Index ent < match cp with BeforePending => gend 1 g | AfterPending => gend 1 g + 1 | AfterCommit => gend 1 g + 2 end.
Proof.
  intros Hg Ht Hb ent Hin. assert (∀ g', ent ∈ noop :: render 1 g' → en_Index ent < gend 1 g') as Hlt.
  { intros g' [->|Hin']%elem_of_cons; [pose proof (gend_ge 1 g'); cbn; lia|]. apply render_range in Hin'. lia. }
  unfold crash_disk in Hin. rewrite ?(eo_next _ _ Hg) in Hin. destruct cp.
  - rewrite (dk_wal _ _ _ _ (eo_disk _ _ Hg)) in Hin. by apply Hlt.
  - destruct (disk_snoc _ _ _ _ u false (eo_disk _ _ Hg) Hb Ht) as (H1 & _).
    pose proof (Hlt (_ ++ _) ltac:(rewrite <- H1; exact Hin)) as Hl. by rewrite gend_app in Hl.
  - destruct (disk_snoc _ _ _ _ u true (eo_disk _ _ Hg) Hb Ht) as (H1 & _).
    pose proof (Hlt (_ ++ _) ltac:(rewrite <- H1; exact Hin)) as Hl. by rewrite gend_app in Hl.
Qed.

Lemma Write_refused clock e g u s' err :
  EngineOk e g → gend 1 g + 2 < 2 ^ 64 → sm_admissible u → sm_validate u = Ok tt →
  sm_update clock (e_sm e) u = (s', Err err) →
  Write clock all_good e u
    = (mkEngine s' (crash_disk e u AfterCommit) (e_appliedIndex e) (e_nextIndex e + 2)
         (e_snapshotEntries e) (e_sinceSnapshot e), Err (UpdateError err)) ∧
  ∀ clock' n, NewEngine readAll clock' n (crash_disk e u AfterCommit) = Err (UpdateError err).
Proof.
  intros Hg Hb Ht Hv Hu. pose proof (gend_ge 1 g). split.
  - unfold Write, crash_disk. rewrite Hv, Hu. cbn [negb all_good io_pending io_commit].
    rewrite (eo_next _ _ Hg). rewrite !wrap64_small by lia.
    by replace (gend 1 g + 1 + 1) with (gend 1 g + 2) by lia.
  - intros clock' n. rewrite (crash_open _ _ _ g) by done.
    rewrite (sm_update_clock clock 0) in Hu by done. by rewrite Hu.
Qed.

Lemma reach_ok e : reach e → ∃ g, EngineOk e g.
Proof.
  induction 1 as [clock n e He|clock io e u _ [g He] Ht Hb Hio Hno|io e _ [g He]
                 |clock n e u cp e' _ [g He] Ht Hb Ho].
  - rewrite (DiskOk_open _ _ _ _ _ _ freshDisk_ok) in He. injection He as <-. exists [].
    split; [apply freshDisk_ok|done].
  - rewrite (eo_next _ _ He) in Hb.
    destruct (sm_validate u) as [[]|] eqn:Hv; [|exists g; unfold Write; by rewrite Hv].
    destruct (io_pending io) eqn:Hp; [|exists g; unfold Write; by rewrite Hv, Hp].
    specialize (Hio eq_refl). destruct (sm_update clock (e_sm e) u) as [s' [r|err]] eqn:Hu.
    + exists (g ++ [(u, true)]). by eapply Write_good.
    + exfalso. apply (Hno err). unfold Write. by rewrite Hv, Hp, Hio, Hu.
  - exists g. unfold maybeSnapshotByTimer. destruct (_ =? 0); [done|]. by apply takeSnapshot_ok.
  - rewrite (eo_next _ _ He) in Hb. rewrite (crash_open _ _ _ g) in Ho by done. destruct cp.
    + injection Ho as <-. exists g. split; [apply He|done].
    + injection Ho as <-. exists (g ++ [(u, false)]). split; cbn; [|by rewrite gend_app].
      rewrite (eo_next _ _ He). by apply DiskOk_pending; [apply He|..].
    + destruct (sm_update 0 (e_sm e) u) as [s' []] eqn:Hu; [|done]. injection Ho as <-.
      exists (g ++ [(u, true)]). split; cbn; [|by rewrite gend_app].
      rewrite (eo_next _ _ He). by eapply DiskOk_committed; [apply He|..].
Qed.
End recovery.

(** C24. Crash recovery: take any engine reached by writes, snapshots, crashes and restarts, as
    long as no update was refused by the state machine after it was committed and no commit
    record failed to be saved while the process went on, and let the process die anywhere in
    the write of one more valid update, whose effect does not depend on the clock.  If the
    commit record had not reached the log, reopening succeeds and the state machine holds
    exactly the state before that write; if it had and the state machine accepts the update,
    reopening succeeds with the state after it; in both cases the next index lies beyond
    everything on disk.  If it had and the state machine refuses the update, reopening fails
    with that refusal.  With both records saved and no crash, [Write] itself reaches the state
    after the update and answers it, or the refusal. *)
Theorem wal_crash_recovery {S R E Snap} `{!SMAdapter S R E Snap, !SMLaws S R E Snap}
    (readAll : list Entry → Z → list Entry) (e : Engine S Snap) clock clock' n u cp :
  reads_log readAll → reach readAll e → e_nextIndex e + 2 < 2 ^ 64 →
  sm_admissible u → sm_validate u = Ok tt →
  let '(s', res) := sm_update clock (e_sm e) u in
  match cp, res with
  | AfterCommit, Err err => NewEngine readAll clock' n (crash_disk e u cp) = Err (UpdateError err)
  | _, _ =>
      ∃ e', NewEngine readAll clock' n (crash_disk e u cp) = Ok e' ∧
        e_sm e' = (match cp with AfterCommit => s' | _ => e_sm e end) ∧
        e_disk e' = crash_disk e u cp ∧
        ∀ ent, ent ∈ d_wal (e_disk e') → en_Index ent < e_nextIndex e'
  end ∧
  e_sm (Write clock all_good e u).1 = s' ∧
  (Write clock all_good e u).2 = match res with Ok r => Ok r | Err err => Err (UpdateError err) end.
Proof.
  intros Hr He Hb Ht Hv. destruct (reach_ok readAll Hr e He) as [g Hg]. rewrite (eo_next _ _ Hg) in Hb.
  destruct (sm_update clock (e_sm e) u) as [s' res] eqn:Hu. split.
  - rewrite (crash_open readAll Hr _ _ _ g) by done. rewrite (sm_update_clock clock 0) in Hu by done. rewrite Hu.
    destruct cp, res as [r|err]; try done; eexists; (split; [done|]); (split; [done|]); (split; [done|]); cbn [e_disk e_nextIndex];
      first [by apply (crash_indices e g u BeforePending) | by apply (crash_indices e g u AfterPending) | by apply (crash_indices e g u AfterCommit)].
  - destruct res as [r|err].
    + by destruct (Write_good clock all_good e g u s' r) as (? & ? & _).
    + by destruct (Write_refused readAll Hr clock e g u s' err) as [-> _].
Qed.

(** A refused update blocks recovery: if an update passes validation but the state
    machine refuses it, [Write] reports the error after both records were
    saved, and no later [NewEngine] on that directory succeeds. *)
Theorem wal_refused_update_blocks_restart {S R E Snap} `{!SMAdapter S R E Snap, !SMLaws S R E Snap}
    (readAll : list Entry → Z → list Entry) (e : Engine S Snap) clock u s' err :
  reads_log readAll → reach readAll e → e_nextIndex e + 2 < 2 ^ 64 →
  sm_admissible u → sm_validate u = Ok tt → sm_update clock (e_sm e) u = (s', Err err) →
  let '(e', res) := Write clock all_good e u in
  res = Err (UpdateError err) ∧
  ∀ clock' n, NewEngine readAll clock' n (e_disk e') = Err (UpdateError err).
Proof.
  intros Hr He Hb Ht Hv Hu. destruct (reach_ok readAll Hr e He) as [g Hg].
  rewrite (eo_next _ _ Hg) in Hb.
  destruct (Write_refused readAll Hr clock e g u s' err) as [-> Hn]; done.
Qed.

(** ** A small state machine and log reader that satisfy the assumptions

    It records the updates it is given and refuses the empty one. *)

Definition sample_sm : SMAdapter (list (list byte)) nat string (list (list byte)) := {|
  sm_init := [];
  sm_validate _ := Ok tt;
  sm_update _ s d := match d with [] => (s, Err "refused") | _ => (s ++ [d], Ok (length s)) end;
  sm_save s := Ok s;
  sm_recover _ data := (data, Ok tt) |}.

Lemma sample_laws : @SMLaws _ _ _ _ sample_sm.
Proof.
  refine (@Build_SMLaws _ _ _ _ sample_sm (λ _, True) (λ _, True) I _ _ _); try done.
  intros s s0 data _ [= ->]. done.
Defined.

Definition sample_read (w : list Entry) (k : Z) : list Entry := filter (λ e, (k <? en_Index e) = true) w.

Lemma sample_reads : reads_log sample_read.
Proof. intros w k _ _. exists (λ e, k <? en_Index e). split; [done|]. intros e _. apply Z.ltb_lt. Qed.

Definition sample_engine : Engine (list (list byte)) (list (list byte)) :=
  mkEngine [] freshDisk 0 1 10 0.

Lemma sample_reach : @reach _ _ _ _ sample_sm sample_laws sample_read sample_engine.
Proof. apply (reach_new sample_read 3 10). vm_compute. reflexivity. Qed.

(** One update that is accepted and one that is refused. *)
Lemma wal_crash_recovery_witness :
  let H := sample_sm in let u := go_bytes "u" in
  (∃ e', NewEngine sample_read 9 10 (crash_disk sample_engine u AfterCommit) = Ok e' ∧ e_sm e' = [u]) ∧
  (∃ e', NewEngine sample_read 9 10 (crash_disk sample_engine [] AfterPending) = Ok e' ∧ e_sm e' = []) ∧
  NewEngine sample_read 9 10 (crash_disk sample_engine [] AfterCommit) = Err (UpdateError "refused").
Proof.
  intros H u.
  pose proof (λ u, @wal_crash_recovery _ _ _ _ sample_sm sample_laws sample_read sample_engine 5 9 10 u AfterCommit
    sample_reads sample_reach ltac:(vm_compute; reflexivity) I eq_refl) as Hc.
  pose proof (@wal_crash_recovery _ _ _ _ sample_sm sample_laws sample_read sample_engine 5 9 10 [] AfterPending
    sample_reads sample_reach ltac:(vm_compute; reflexivity) I eq_refl) as Hp.
  split_and!.
  - destruct (Hc u) as [(e' & He & Hs & _) _]. by exists e'.
  - destruct Hp as [(e' & He & Hs & _) _]. by exists e'.
  - by destruct (Hc []) as [Hr _].
Defined.

Lemma wal_refused_update_blocks_restart_witness :
  let H := sample_sm in
  let '(e', res) := Write 5 all_good sample_engine [] in
  res = Err (UpdateError "refused") ∧
  ∀ clock' n, NewEngine sample_read clock' n (e_disk e') = Err (UpdateError "refused").
Proof.
  intros H.
  apply (@wal_refused_update_blocks_restart _ _ _ _ sample_sm sample_laws sample_read sample_engine
    5 [] [] "refused").
  - apply sample_reads.
  - apply (reach_new sample_read 3 10). vm_compute. reflexivity.
  - vm_compute. reflexivity.
  - exact I.
  - reflexivity.
  - reflexivity.
Defined.
