(* ===== verification/SubCenterSM.v ===== *)
(** * The subscription center behind the WAL engine

    [src/internal/broker/subcenter/statemachine] (requests decoded and applied
    to the in-memory center, responses encoded) as an instance of the state
    machine interface of [WalEngine], and [src/internal/broker/subcenter/wal]
    (the center whose writes go through the engine).

    The protobuf encodings are generated code: they are the fields of
    [SubProto], with [proto_ok] the round trip the code relies on. *)

From S2P Require Import Prelude GoStrings Topic SubCore SubCoreProofs SubCenter SubCenterProofs.
From S2P Require Import WalEngine WalEngineProofs.

(** ** Messages *)

Record UpdateRequest := mkUpdateRequest {
  uq_Type : Z;
  uq_Data : list byte;
  uq_RequestID : string }.

Record UpdateResponse := mkUpdateResponse {
  up_Type : Z;
  up_Data : list byte;
  up_RequestID : string }.

Definition TopicRequestType_Sub : Z := 0.
Definition TopicRequestType_UnSub : Z := 1.
Definition TopicRequestType_DeleteClient : Z := 2.
Definition TopicRequestType_DeleteTopic : Z := 3.
Definition TopicRequestType_SetClientOwnerToken : Z := 4.

(** The requests and responses of [proto_topic]. *)
Inductive SubMessage :=
| MSub (r : SubRequest)
| MUnSub (r : UnSubRequest)
| MDeleteClient (r : DeleteClientRequest)
| MDeleteTopic (topic : string)
| MSetOwner (clientID ownerToken : string).

(** [proto.Marshal] and [proto.Unmarshal] of each message type. *)
Record SubProto (E Snap : Type) := {
  marshalUpdateRequest : UpdateRequest → result E (list byte);
  unmarshalUpdateRequest : list byte → result E UpdateRequest;
  marshalUpdateResponse : UpdateResponse → result E (list byte);
  unmarshalUpdateResponse : list byte → result E UpdateResponse;
  marshalSubRequest : SubRequest → result E (list byte);
  unmarshalSubRequest : list byte → result E SubRequest;
  marshalUnSubRequest : UnSubRequest → result E (list byte);
  unmarshalUnSubRequest : list byte → result E UnSubRequest;
  marshalDeleteClientRequest : DeleteClientRequest → result E (list byte);
  unmarshalDeleteClientRequest : list byte → result E DeleteClientRequest;
  marshalDeleteTopicRequest : string → result E (list byte);
  unmarshalDeleteTopicRequest : list byte → result E string;
  marshalSetOwnerRequest : string * string → result E (list byte);
  unmarshalSetOwnerRequest : list byte → result E (string * string);
  marshalSubResponse : SubResponse → result E (list byte);
  unmarshalSubResponse : list byte → result E SubResponse;
  marshalUnSubResponse : list Z → result E (list byte);
  unmarshalUnSubResponse : list byte → result E (list Z);
  marshalSuccess : bool → result E (list byte);
  unmarshalSuccess : list byte → result E bool;
  marshalClusterSub : ClusterSub → result E Snap;
  unmarshalClusterSub : Snap → result E ClusterSub }.
Arguments marshalUpdateRequest {E Snap}. Arguments unmarshalUpdateRequest {E Snap}.
Arguments marshalUpdateResponse {E Snap}. Arguments unmarshalUpdateResponse {E Snap}.
Arguments marshalSubRequest {E Snap}. Arguments unmarshalSubRequest {E Snap}.
Arguments marshalUnSubRequest {E Snap}. Arguments unmarshalUnSubRequest {E Snap}.
Arguments marshalDeleteClientRequest {E Snap}. Arguments unmarshalDeleteClientRequest {E Snap}.
Arguments marshalDeleteTopicRequest {E Snap}. Arguments unmarshalDeleteTopicRequest {E Snap}.
Arguments marshalSetOwnerRequest {E Snap}. Arguments unmarshalSetOwnerRequest {E Snap}.
Arguments marshalSubResponse {E Snap}. Arguments unmarshalSubResponse {E Snap}.
Arguments marshalUnSubResponse {E Snap}. Arguments unmarshalUnSubResponse {E Snap}.
Arguments marshalSuccess {E Snap}. Arguments unmarshalSuccess {E Snap}.
Arguments marshalClusterSub {E Snap}. Arguments unmarshalClusterSub {E Snap}.

(** [Unmarshal] reads back what [Marshal] wrote; [total] messages always marshal. *)
Definition round_trips {E A D} (m : A → result E D) (u : D → result E A) : Prop :=
  ∀ x d, m x = Ok d → u d = Ok x.

Record proto_ok {E Snap} (P : SubProto E Snap) : Prop := {
  po_request : round_trips (marshalUpdateRequest P) (unmarshalUpdateRequest P);
  po_response : round_trips (marshalUpdateResponse P) (unmarshalUpdateResponse P);
  po_sub : round_trips (marshalSubRequest P) (unmarshalSubRequest P);
  po_unsub : round_trips (marshalUnSubRequest P) (unmarshalUnSubRequest P);
  po_deleteClient : round_trips (marshalDeleteClientRequest P) (unmarshalDeleteClientRequest P);
  po_deleteTopic : round_trips (marshalDeleteTopicRequest P) (unmarshalDeleteTopicRequest P);
  po_setOwner : round_trips (marshalSetOwnerRequest P) (unmarshalSetOwnerRequest P);
  po_subResp : round_trips (marshalSubResponse P) (unmarshalSubResponse P);
  po_unsubResp : round_trips (marshalUnSubResponse P) (unmarshalUnSubResponse P);
  po_success : round_trips (marshalSuccess P) (unmarshalSuccess P);
  po_cluster : round_trips (marshalClusterSub P) (unmarshalClusterSub P) }.

(** ** The state machine *)

Inductive SubSMError (E : Type) :=
| ProtoError (e : E)
| MarshalFailed (what : string) (e : E)
| UnknownRequestType
| SubErrors (errs : list string).
Arguments ProtoError {E}. Arguments MarshalFailed {E}.
Arguments UnknownRequestType {E}. Arguments SubErrors {E}.

Definition lift_proto {E A} (r : result E A) : result (SubSMError E) A :=
  match r with Ok a => Ok a | Err e => Err (ProtoError e) end.
Definition lift_marshal {E A} (what : string) (r : result E A) : result (SubSMError E) A :=
  match r with Ok a => Ok a | Err e => Err (MarshalFailed what e) end.

Section state_machine.
Context {E Snap : Type} (P : SubProto E Snap).

Definition ValidateUpdate (bytes : list byte) : result (SubSMError E) unit :=
  req ← lift_proto (unmarshalUpdateRequest P bytes);
  let data := uq_Data req in
  if uq_Type req =? TopicRequestType_Sub then
    _ ← lift_proto (unmarshalSubRequest P data); Ok tt
  else if uq_Type req =? TopicRequestType_UnSub then
    _ ← lift_proto (unmarshalUnSubRequest P data); Ok tt
  else if uq_Type req =? TopicRequestType_DeleteClient then
    _ ← lift_proto (unmarshalDeleteClientRequest P data); Ok tt
  else if uq_Type req =? TopicRequestType_DeleteTopic then
    _ ← lift_proto (unmarshalDeleteTopicRequest P data); Ok tt
  else if uq_Type req =? TopicRequestType_SetClientOwnerToken then
    _ ← lift_proto (unmarshalSetOwnerRequest P data); Ok tt
  else Err UnknownRequestType.

(** The tail shared by the branches of [Update]: the response is marshalled into
    the envelope, then the envelope, then the error of the operation is returned. *)
Definition respond (req : UpdateRequest) (what : string) (body : result E (list byte))
    (errs : list string) : result (SubSMError E) (list byte) :=
  b ← lift_marshal what body;
  data ← lift_marshal "update response"
           (marshalUpdateResponse P (mkUpdateResponse (uq_Type req) b (uq_RequestID req)));
  match errs with [] => Ok data | _ => Err (SubErrors errs) end.

(** On an error of [CreateSub], Go returns the response data next to the error;
    no caller reads it. *)
Definition Update (t : MemorySubCenter) (bytes : list byte)
    : MemorySubCenter * result (SubSMError E) (list byte) :=
  match unmarshalUpdateRequest P bytes with
  | Err e => (t, Err (ProtoError e))
  | Ok req =>
      let data := uq_Data req in
      if uq_Type req =? TopicRequestType_Sub then
        match unmarshalSubRequest P data with
        | Err e => (t, Err (ProtoError e))
        | Ok subReq =>
            let '(t', resp, errs) := CreateSub t subReq in
            (t', respond req "sub response" (marshalSubResponse P resp) errs)
        end
      else if uq_Type req =? TopicRequestType_UnSub then
        match unmarshalUnSubRequest P data with
        | Err e => (t, Err (ProtoError e))
        | Ok unSubReq =>
            let '(t', codes) := DeleteSub t unSubReq in
            (t', respond req "unsub response" (marshalUnSubResponse P codes) [])
        end
      else if uq_Type req =? TopicRequestType_DeleteClient then
        match unmarshalDeleteClientRequest P data with
        | Err e => (t, Err (ProtoError e))
        | Ok deleteClientReq =>
            let '(t', success) := DeleteClient t deleteClientReq in
            (t', respond req "delete client response" (marshalSuccess P success) [])
        end
      else if uq_Type req =? TopicRequestType_DeleteTopic then
        match unmarshalDeleteTopicRequest P data with
        | Err e => (t, Err (ProtoError e))
        | Ok topic =>
            (DeleteTopic t topic,
             respond req "delete topic response" (marshalSuccess P true) [])
        end
      else if uq_Type req =? TopicRequestType_SetClientOwnerToken then
        match unmarshalSetOwnerRequest P data with
        | Err e => (t, Err (ProtoError e))
        | Ok (clientID, ownerToken) =>
            let '(t', success) := SetClientOwnerToken t clientID ownerToken in
            (t', respond req "set owner token response" (marshalSuccess P success) [])
        end
      else (t, Err UnknownRequestType)
  end.

Definition SaveSnapshot (t : MemorySubCenter) : result (SubSMError E) Snap :=
  lift_proto (WriteSnapshot (marshalClusterSub P) t).

Definition RecoverFromSnapshot (t : MemorySubCenter) (data : Snap)
    : MemorySubCenter * result (SubSMError E) unit :=
  match RecoverSnapshot (unmarshalClusterSub P) t data with
  | (t', None) => (t', Ok tt)
  | (t', Some e) => (t', Err (ProtoError e))
  end.

(** ** [codec.go] *)

Definition EncodeUpdate (msg : SubMessage) : result E (list byte) :=
  '(type, b) ←
    match msg with
    | MSub r => b ← marshalSubRequest P r; Ok (TopicRequestType_Sub, b)
    | MUnSub r => b ← marshalUnSubRequest P r; Ok (TopicRequestType_UnSub, b)
    | MDeleteClient r => b ← marshalDeleteClientRequest P r; Ok (TopicRequestType_DeleteClient, b)
    | MDeleteTopic f => b ← marshalDeleteTopicRequest P f; Ok (TopicRequestType_DeleteTopic, b)
    | MSetOwner c tok => b ← marshalSetOwnerRequest P (c, tok);
                         Ok (TopicRequestType_SetClientOwnerToken, b)
    end;
  marshalUpdateRequest P (mkUpdateRequest type b "").

Definition DecodeUpdateResult {A} (unmarshal : list byte → result E A) (data : list byte)
    : result E A :=
  env ← unmarshalUpdateResponse P data; unmarshal (up_Data env).
End state_machine.

#[export] Instance sub_sm {E Snap} (P : SubProto E Snap)
    : SMAdapter MemorySubCenter (list byte) (SubSMError E) Snap := {|
  sm_init := NewMemorySubCenter;
  sm_validate := ValidateUpdate P;
  sm_update _ := Update P;
  sm_save := SaveSnapshot P;
  sm_recover := RecoverFromSnapshot P |}.

(** ** [LocalWALCenter] *)

Inductive WALCenterError (E : Type) :=
| CenterCodecError (e : E)
| CenterEngineError (e : EngineError (SubSMError E)).
Arguments CenterCodecError {E}. Arguments CenterEngineError {E}.

Section wal_center.
Context {E Snap : Type} (P : SubProto E Snap).

(** The body shared by the five writing methods of [LocalWALCenter]. *)
Definition walCall {A} (clock : Z) (io : WriteIO) (msg : SubMessage)
    (out : list byte → result E A) (engine : Engine MemorySubCenter Snap)
    : Engine MemorySubCenter Snap * result (WALCenterError E) A :=
  match EncodeUpdate P msg with
  | Err e => (engine, Err (CenterCodecError e))
  | Ok updateBytes =>
      let '(engine, res) := @Write _ _ _ _ (sub_sm P) clock io engine updateBytes in
      match res with
      | Err e => (engine, Err (CenterEngineError e))
      | Ok data =>
          (engine, match DecodeUpdateResult P out data with
                   | Ok a => Ok a
                   | Err e => Err (CenterCodecError e)
                   end)
      end
  end.

Definition wal_CreateSub clock io engine (option : SubRequest) :=
  walCall clock io (MSub option) (unmarshalSubResponse P) engine.
Definition wal_DeleteSub clock io engine (option : UnSubRequest) :=
  walCall clock io (MUnSub option) (unmarshalUnSubResponse P) engine.
Definition wal_DeleteClient clock io engine (req : DeleteClientRequest) :=
  walCall clock io (MDeleteClient req) (unmarshalSuccess P) engine.
Definition wal_DeleteTopic clock io engine (topic : string) :=
  walCall clock io (MDeleteTopic topic) (unmarshalSuccess P) engine.
Definition wal_SetClientOwnerToken clock io engine (clientID ownerToken : string) :=
  walCall clock io (MSetOwner clientID ownerToken) (unmarshalSuccess P) engine.
End wal_center.

(** ** The laws of the state machine *)

Definition named (op : center_op) : Prop :=
  match op with CCreate r => sr_ClientID r ≠ "" | _ => True end.

Definition named_center (t : MemorySubCenter) : Prop := ∀ f, sub_of t "" f = None.

Lemma run_center_op_named t op :
  center_ok t → named op → named_center t → named_center (run_center_op t op).
Proof.
  intros Hok Hop Hn f. specialize (Hn f). destruct op as [req|req|f'|[c tok]|c tok]; cbn in *.
  - destruct (CreateSub t req) as [[t' resp] errs] eqn:E. apply CreateSub_spec in E as [_ E]; [|done].
    cbn. case_bool_decide.
    + destruct E as [-> _]. done.
    + destruct E as [E _]. rewrite E. by rewrite bool_decide_eq_false_2.
  - destruct (DeleteSub t req) as [t' codes] eqn:E. apply DeleteSub_spec in E as (_ & _ & E); [|done].
    cbn. rewrite E. by case_bool_decide.
  - destruct (DeleteTopic_spec t f' Hok) as (_ & _ & ->). by case_bool_decide.
  - destruct (decide (c = "")) as [->|Hc].
    + unfold DeleteClient. cbn. by destruct (negb _ && _).
    + destruct (DeleteClient t _) as [t' b] eqn:E. apply DeleteClient_spec in E as (_ & _ & _ & E); [|done..].
      cbn. rewrite E. by case_bool_decide.
  - unfold SetClientOwnerToken. case_bool_decide; [done|]. cbn. by rewrite setOwnerToken_sub_of.
Qed.

Section laws.
Context {E Snap : Type} (P : SubProto E Snap) (HP : proto_ok P).

(** Updates whose SUBSCRIBE, if they are one, names a client. *)
Definition named_update (bytes : list byte) : Prop :=
  ∀ req r, unmarshalUpdateRequest P bytes = Ok req → uq_Type req = TopicRequestType_Sub →
  unmarshalSubRequest P (uq_Data req) = Ok r → sr_ClientID r ≠ "".

(** An update either leaves the center alone or performs one of its operations. *)
Lemma sub_Update_op t bytes :
  (Update P t bytes).1 = t ∨
  ∃ op, (Update P t bytes).1 = run_center_op t op ∧ (named_update bytes → named op).
Proof.
  unfold Update, named_update. destruct (unmarshalUpdateRequest P bytes) as [req|]; [|by left].
  destruct (Z.eqb_spec (uq_Type req) TopicRequestType_Sub).
  { destruct (unmarshalSubRequest P _) as [r|] eqn:Hr; [|by left]. right. exists (CCreate r).
    cbn. destruct (CreateSub t r) as [[]]. split; [done|]. eauto. }
  destruct (Z.eqb_spec (uq_Type req) TopicRequestType_UnSub).
  { destruct (unmarshalUnSubRequest P _) as [r|]; [|by left]. right. exists (CDelete r).
    cbn. by destruct (DeleteSub t r). }
  destruct (Z.eqb_spec (uq_Type req) TopicRequestType_DeleteClient).
  { destruct (unmarshalDeleteClientRequest P _) as [r|]; [|by left]. right. exists (CDeleteClient r).
    cbn. by destruct (DeleteClient t r). }
  destruct (Z.eqb_spec (uq_Type req) TopicRequestType_DeleteTopic).
  { destruct (unmarshalDeleteTopicRequest P _) as [f|]; [|by left]. right. by exists (CDeleteTopic f). }
  destruct (Z.eqb_spec (uq_Type req) TopicRequestType_SetClientOwnerToken); [|by left].
  destruct (unmarshalSetOwnerRequest P _) as [[c tok]|]; [|by left]. right. exists (CSetOwner c tok).
  cbn. by destruct (SetClientOwnerToken t c tok).
Qed.

#[export] Instance sub_sm_laws : @SMLaws _ _ _ _ (sub_sm P).
Proof.
  refine (@Build_SMLaws _ _ _ _ (sub_sm P) (λ t, center_ok t ∧ named_center t) named_update _ _ _ _).
  - split; [apply NewMemorySubCenter_ok|]. done.
  - intros clock t d [Hok Hn] Hd. cbn. destruct (sub_Update_op t d) as [->|(op & -> & Hop)]; [done|].
    split; [by apply run_center_op_ok|]. by apply run_center_op_named; [|apply Hop|].
  - done.
  - intros t t0 data [Hok Hn]. cbn. unfold SaveSnapshot, RecoverFromSnapshot, WriteSnapshot, RecoverSnapshot.
    intros Hm. destruct (marshalClusterSub P _) as [d|] eqn:Hd; [|done]. injection Hm as ->.
    rewrite (po_cluster P HP _ _ Hd). by rewrite recover_snapshot.
Defined.

(** ** Writes through the engine *)

Definition op_of (msg : SubMessage) : center_op :=
  match msg with
  | MSub r => CCreate r
  | MUnSub r => CDelete r
  | MDeleteClient r => CDeleteClient r
  | MDeleteTopic f => CDeleteTopic f
  | MSetOwner c tok => CSetOwner c tok
  end.

Definition op_errors (t : MemorySubCenter) (msg : SubMessage) : list string :=
  match msg with MSub r => (CreateSub t r).2 | _ => [] end.

(** The marshalled response of the in-memory center. *)
Definition op_response (t : MemorySubCenter) (msg : SubMessage) : result E (list byte) :=
  match msg with
  | MSub r => marshalSubResponse P (CreateSub t r).1.2
  | MUnSub r => marshalUnSubResponse P (DeleteSub t r).2
  | MDeleteClient r => marshalSuccess P (DeleteClient t r).2
  | MDeleteTopic _ => marshalSuccess P true
  | MSetOwner c tok => marshalSuccess P (SetClientOwnerToken t c tok).2
  end.

Lemma EncodeUpdate_request msg bytes :
  EncodeUpdate P msg = Ok bytes →
  ∃ req, unmarshalUpdateRequest P bytes = Ok req ∧
  match msg with
  | MSub r => uq_Type req = TopicRequestType_Sub ∧ unmarshalSubRequest P (uq_Data req) = Ok r
  | MUnSub r => uq_Type req = TopicRequestType_UnSub ∧ unmarshalUnSubRequest P (uq_Data req) = Ok r
  | MDeleteClient r => uq_Type req = TopicRequestType_DeleteClient ∧
      unmarshalDeleteClientRequest P (uq_Data req) = Ok r
  | MDeleteTopic f => uq_Type req = TopicRequestType_DeleteTopic ∧
      unmarshalDeleteTopicRequest P (uq_Data req) = Ok f
  | MSetOwner c tok => uq_Type req = TopicRequestType_SetClientOwnerToken ∧
      unmarshalSetOwnerRequest P (uq_Data req) = Ok (c, tok)
  end.
Proof.
  unfold EncodeUpdate. intros H. apply bind_Ok_inv in H as ([type b] & Hb & Hm).
  exists (mkUpdateRequest type b ""). split; [by apply (po_request P HP)|]. cbn [uq_Type uq_Data].
  destruct msg; apply bind_Ok_inv in Hb as (b' & Hb' & [= <- <-]); (split; [done|]).
  - by apply (po_sub P HP). - by apply (po_unsub P HP). - by apply (po_deleteClient P HP).
  - by apply (po_deleteTopic P HP). - by apply (po_setOwner P HP).
Qed.

Lemma EncodeUpdate_valid msg bytes : EncodeUpdate P msg = Ok bytes → ValidateUpdate P bytes = Ok tt.
Proof.
  intros H. apply EncodeUpdate_request in H as (req & Hr & Hd). unfold ValidateUpdate.
  rewrite Hr. cbn. destruct msg; destruct Hd as [-> ->]; done.
Qed.

Lemma EncodeUpdate_named msg bytes :
  EncodeUpdate P msg = Ok bytes → named (op_of msg) → named_update bytes.
Proof.
  intros H Hn req r Hr Ht Hs. apply EncodeUpdate_request in H as (req' & Hr' & Hd).
  assert (req' = req) as -> by congruence.
  destruct msg; destruct Hd as [Ht' Hd]; rewrite Ht in Ht'; try done. cbn in Hn. congruence.
Qed.

Lemma EncodeUpdate_update msg bytes t :
  EncodeUpdate P msg = Ok bytes →
  ∃ req what, unmarshalUpdateRequest P bytes = Ok req ∧
  Update P t bytes = (run_center_op t (op_of msg),
                      respond P req what (op_response t msg) (op_errors t msg)).
Proof.
  intros H. apply EncodeUpdate_request in H as (req & Hr & Hd). unfold Update. rewrite Hr.
  destruct msg as [r|r|r|f|c tok]; destruct Hd as [-> ->]; cbn.
  - destruct (CreateSub t r) as [[t' resp] errs]. eauto.
  - destruct (DeleteSub t r) as [t' codes]. eauto.
  - destruct (DeleteClient t r) as [t' b]. eauto.
  - eauto.
  - destruct (SetClientOwnerToken t c tok) as [t' b]. eauto.
Qed.

Lemma respond_decode {A} req what (out : list byte → result E A) m (a : A) body data :
  round_trips m out → m a = body → respond P req what body [] = Ok data →
  DecodeUpdateResult P out data = Ok a.
Proof.
  intros Hrt Hm Hr. unfold respond, lift_marshal, DecodeUpdateResult in *.
  destruct body as [b|]; [|done]. cbn in Hr.
  destruct (marshalUpdateResponse P _) as [d|] eqn:Hd; [|done]. injection Hr as <-.
  rewrite (po_response P HP _ _ Hd). cbn. by apply Hrt.
Qed.
End laws.

Lemma CreateSub_no_errors t req :
  Forall (λ o, valid_opt o) (sr_Topics req) → (CreateSub t req).2 = [].
Proof.
  intros Hv. unfold CreateSub.
  assert (∀ t topics, (foldl (createOne (sr_ClientID req)) (t, topics, []) (sr_Topics req)).2 = []) as Hrun.
  { induction Hv as [|o opts Ho Hv IH]; intros t' topics; [done|]. cbn [foldl].
    unfold createOne at 2. destruct (getOrCreateShard t' _) as [t1 core].
    unfold createSub. rewrite Ho. cbn [mbind result_mbind result_bind].
    assert (so_Topic o ≠ "") as Hne by (intros Hx; unfold valid_opt in Ho; by rewrite Hx in Ho).
    rewrite (bool_decide_eq_false_2 (length _ = 0%nat)); [apply IH|].
    intros Hl%nil_length_inv. by apply SplitTopicLevels_nonempty in Hl. }
  repeat case_bool_decide; cbn [negb snd]; try done;
    match goal with |- context [foldl _ (?t0, ∅, []) _] => specialize (Hrun t0 ∅) end;
    by destruct (foldl _ _ _) as [[]].
Qed.

(** Marshalling never fails: [proto.Marshal] of the messages the center builds. *)
Record proto_total {E Snap} (P : SubProto E Snap) : Prop := {
  pt_request m : is_Ok (marshalUpdateRequest P m);
  pt_response m : is_Ok (marshalUpdateResponse P m);
  pt_sub m : is_Ok (marshalSubRequest P m);
  pt_unsub m : is_Ok (marshalUnSubRequest P m);
  pt_deleteClient m : is_Ok (marshalDeleteClientRequest P m);
  pt_deleteTopic m : is_Ok (marshalDeleteTopicRequest P m);
  pt_setOwner m : is_Ok (marshalSetOwnerRequest P m);
  pt_subResp m : is_Ok (marshalSubResponse P m);
  pt_unsubResp m : is_Ok (marshalUnSubResponse P m);
  pt_success m : is_Ok (marshalSuccess P m) }.

Section durable.
Context {E Snap : Type} (P : SubProto E Snap) (HP : proto_ok P) (HT : proto_total P).
Context (readAll : list Entry → Z → list Entry) (Hread : reads_log readAll).
#[local] Existing Instance sub_sm_laws.

(** The engine holds the center [t] in memory and on disk: any reopening finds it. *)
Definition holds (e : Engine MemorySubCenter Snap) (t : MemorySubCenter) : Prop :=
  e_sm e = t ∧
  ∀ clock n, ∃ e', @NewEngine _ _ _ _ (sub_sm P) readAll clock n (e_disk e) = Ok e' ∧ e_sm e' = t.

Lemma EncodeUpdate_total msg : is_Ok (EncodeUpdate P msg).
Proof.
  unfold EncodeUpdate. destruct msg as [r|r|r|f|c tok]; cbn;
    [destruct (pt_sub P HT r) as [b ->]|destruct (pt_unsub P HT r) as [b ->]
    |destruct (pt_deleteClient P HT r) as [b ->]|destruct (pt_deleteTopic P HT f) as [b ->]
    |destruct (pt_setOwner P HT (c, tok)) as [b ->]]; cbn; apply (pt_request P HT).
Qed.

Lemma op_response_total t msg : is_Ok (op_response P t msg).
Proof.
  destruct msg; cbn; [apply (pt_subResp P HT)|apply (pt_unsubResp P HT)|apply (pt_success P HT)..].
Qed.

Lemma respond_total req what body : is_Ok body → is_Ok (respond P req what body []).
Proof.
  intros [b ->]. unfold respond. cbn.
  destruct (pt_response P HT (mkUpdateResponse (uq_Type req) b (uq_RequestID req))) as [d Hd].
  rewrite Hd. eexists. done.
Qed.

Lemma walCall_durable {A} clock (e : Engine MemorySubCenter Snap) msg
    (out : list byte → result E A) m (a : A) :
  @reach _ _ _ _ (sub_sm P) (sub_sm_laws P HP) readAll e → e_nextIndex e + 2 < 2 ^ 64 →
  named (op_of msg) → op_errors (e_sm e) msg = [] →
  round_trips m out → op_response P (e_sm e) msg = m a →
  let '(e', res) := walCall P clock all_good msg out e in
  res = Ok a ∧ holds e' (run_center_op (e_sm e) (op_of msg)).
Proof.
  intros He Hb Hn Herr Hrt Hresp.
  destruct (EncodeUpdate_total msg) as [bytes Henc].
  destruct (EncodeUpdate_update P HP msg bytes (e_sm e) Henc) as (req & what & Hreq & Hu).
  destruct (respond_total req what _ (op_response_total (e_sm e) msg)) as [data Hdata].
  rewrite Herr, Hdata in Hu.
  pose proof (EncodeUpdate_named P HP msg bytes Henc Hn) as Hadm.
  destruct (@reach_ok _ _ _ _ (sub_sm P) (sub_sm_laws P HP) readAll Hread e He) as [g Hg].
  rewrite (eo_next _ _ Hg) in Hb.
  destruct (@Write_good _ _ _ _ (sub_sm P) (sub_sm_laws P HP) clock all_good e g bytes _ data Hg Hb Hadm
    eq_refl eq_refl (EncodeUpdate_valid P HP _ _ Henc) Hu) as (H1 & H2 & H3).
  unfold walCall. rewrite Henc.
  destruct (Write clock all_good e bytes) as [e' res]. cbn [fst snd] in *. subst res.
  split.
  - rewrite (respond_decode P HP req what out m a (op_response P (e_sm e) msg) data); done.
  - split; [done|]. intros clock' n. eexists. split.
    + apply (@DiskOk_open _ _ _ _ (sub_sm P) (sub_sm_laws P HP) readAll Hread _ _ _ _ _ _ (eo_disk _ _ H3)).
    + done.
Qed.
End durable.

(** The durable center implements the in-memory one: on an engine reached by
    writes, snapshots, crashes and restarts, each writing method of
    [LocalWALCenter] answers what the in-memory operation answers, leaves its
    state in memory, and that state is what any later reopening finds.
    Subscriptions must name a client and carry filters that pass the syntax
    check; saving to the log succeeds, and protobuf reads back what it wrote. *)
Theorem wal_center_durable {E Snap} (P : SubProto E Snap) (HP : proto_ok P)
    (readAll : list Entry → Z → list Entry) clock (e : Engine MemorySubCenter Snap) :
  proto_total P → reads_log readAll →
  @reach _ _ _ _ (sub_sm P) (sub_sm_laws P HP) readAll e → e_nextIndex e + 2 < 2 ^ 64 →
  let t := e_sm e in
  let holds := holds P readAll in
  (∀ r, sr_ClientID r ≠ "" → Forall (λ o, ValidateTopicFilterSyntax (so_Topic o) = Ok tt) (sr_Topics r) →
     let '(e', res) := wal_CreateSub P clock all_good e r in
     res = Ok (CreateSub t r).1.2 ∧ holds e' (CreateSub t r).1.1) ∧
  (∀ r, let '(e', res) := wal_DeleteSub P clock all_good e r in
     res = Ok (DeleteSub t r).2 ∧ holds e' (DeleteSub t r).1) ∧
  (∀ r, let '(e', res) := wal_DeleteClient P clock all_good e r in
     res = Ok (DeleteClient t r).2 ∧ holds e' (DeleteClient t r).1) ∧
  (∀ f, let '(e', res) := wal_DeleteTopic P clock all_good e f in
     res = Ok true ∧ holds e' (DeleteTopic t f)) ∧
  (∀ c tok, let '(e', res) := wal_SetClientOwnerToken P clock all_good e c tok in
     res = Ok (SetClientOwnerToken t c tok).2 ∧ holds e' (SetClientOwnerToken t c tok).1).
Proof.
  intros HT Hr He Hb t holds. subst t holds.
  assert (Hcall := λ A msg (out : list byte → result E A),
    walCall_durable P HP HT readAll Hr (A := A) clock e msg out).
  split_and!.
  - intros r Hid Hv. apply (Hcall _ (MSub r) _ (marshalSubResponse P)); try done.
    + cbn. apply CreateSub_no_errors. eapply Forall_impl; [done|]. intros o. apply syntax_check_implies_trie.
    + apply (po_subResp P HP).
  - intros r. apply (Hcall _ (MUnSub r) _ (marshalUnSubResponse P)); try done. apply (po_unsubResp P HP).
  - intros r. apply (Hcall _ (MDeleteClient r) _ (marshalSuccess P)); try done. apply (po_success P HP).
  - intros f. apply (Hcall _ (MDeleteTopic f) _ (marshalSuccess P)); try done. apply (po_success P HP).
  - intros c tok. apply (Hcall _ (MSetOwner c tok) _ (marshalSuccess P)); try done. apply (po_success P HP).
Qed.

(** ** A concrete encoding that satisfies the assumptions

    Messages are numbered through their fields and the number is written in
    binary, one digit per byte. *)

Fixpoint pos_bytes (p : positive) : list byte :=
  match p with
  | xH => []
  | xO p => "0"%char :: pos_bytes p
  | xI p => "1"%char :: pos_bytes p
  end.

Fixpoint bytes_pos (l : list byte) : positive :=
  match l with
  | [] => xH
  | b :: l => if bool_decide (b = "1"%char) then xI (bytes_pos l) else xO (bytes_pos l)
  end.

Lemma bytes_pos_bytes p : bytes_pos (pos_bytes p) = p.
Proof. induction p as [p IH|p IH|]; cbn; by rewrite ?IH. Qed.

Definition enc_via {R A} `{Countable A} (f : R → A) (r : R) : result string (list byte) :=
  Ok (pos_bytes (encode (f r))).
Definition dec_via {R A} `{Countable A} (g : A → R) (l : list byte) : result string R :=
  match decode (bytes_pos l) with Some a => Ok (g a) | None => Err "malformed message" end.

Lemma via_round_trips {R A} `{Countable A} (f : R → A) (g : A → R) :
  (∀ r, g (f r) = r) → round_trips (enc_via f) (dec_via g).
Proof.
  intros Hgf x d [= <-]. unfold dec_via. by rewrite bytes_pos_bytes, decode_encode, Hgf.
Qed.

Definition opt_tuple (o : SubOption) : Z * bool * string * bool * Z * Z :=
  (so_QoS o, so_RetainAsPublished o, so_Topic o, so_NoLocal o, so_RetainHandling o,
   so_SubscriptionIdentifier o).
Definition tuple_opt (t : Z * bool * string * bool * Z * Z) : SubOption :=
  let '(q, rap, f, n, rh, i) := t in mkSubOption q rap f n rh i.

Lemma tuple_opts (l : list SubOption) : tuple_opt <$> (opt_tuple <$> l) = l.
Proof. induction l as [|[] l IH]; cbn; [done|]. by rewrite IH. Qed.

Definition sample_proto : SubProto string ClusterSub := {|
  marshalUpdateRequest := enc_via (λ r, (uq_Type r, go_string (uq_Data r), uq_RequestID r));
  unmarshalUpdateRequest := dec_via (λ '(t, d, i), mkUpdateRequest t (go_bytes d) i);
  marshalUpdateResponse := enc_via (λ r, (up_Type r, go_string (up_Data r), up_RequestID r));
  unmarshalUpdateResponse := dec_via (λ '(t, d, i), mkUpdateResponse t (go_bytes d) i);
  marshalSubRequest := enc_via (λ r, (opt_tuple <$> sr_Topics r, sr_ClientID r, sr_OwnerToken r));
  unmarshalSubRequest := dec_via (λ '(ts, c, o), mkSubRequest (tuple_opt <$> ts) c o);
  marshalUnSubRequest := enc_via (λ r, (ur_Topics r, ur_ClientID r, ur_OwnerToken r));
  unmarshalUnSubRequest := dec_via (λ '(ts, c, o), mkUnSubRequest ts c o);
  marshalDeleteClientRequest := enc_via (λ r, (dr_ClientID r, dr_OwnerToken r));
  unmarshalDeleteClientRequest := dec_via (λ '(c, o), mkDeleteClientRequest c o);
  marshalDeleteTopicRequest := enc_via (λ f : string, f);
  unmarshalDeleteTopicRequest := dec_via (λ f : string, f);
  marshalSetOwnerRequest := enc_via (λ ct : string * string, ct);
  unmarshalSetOwnerRequest := dec_via (λ ct : string * string, ct);
  marshalSubResponse := enc_via (λ r, (srp_Topics r, srp_Success r));
  unmarshalSubResponse := dec_via (λ '(m, b), mkSubResponse m b);
  marshalUnSubResponse := enc_via (λ l : list Z, l);
  unmarshalUnSubResponse := dec_via (λ l : list Z, l);
  marshalSuccess := enc_via (λ b : bool, b);
  unmarshalSuccess := dec_via (λ b : bool, b);
  marshalClusterSub := Ok;
  unmarshalClusterSub := Ok |}.

Lemma sample_proto_ok : proto_ok sample_proto.
Proof.
  split; try (apply via_round_trips; intros []; cbn; by rewrite ?go_bytes_string, ?tuple_opts);
    try (apply via_round_trips; done).
  intros x d [= ->]. done.
Qed.

Lemma sample_proto_total : proto_total sample_proto.
Proof. split; intros m; eexists; reflexivity. Qed.

Definition sample_center_engine : Engine MemorySubCenter ClusterSub :=
  mkEngine NewMemorySubCenter freshDisk 0 1 10 0.

Lemma sample_center_reached :
  @reach _ _ _ _ (sub_sm sample_proto) (sub_sm_laws sample_proto sample_proto_ok) sample_read
    sample_center_engine.
Proof. apply (reach_new sample_read 3 10). vm_compute. reflexivity. Qed.

Lemma wal_center_durable_witness :
  let r := mkSubRequest [mkSubOption 1 false "a/+" false 0 0] "c" "" in
  let '(e', res) := wal_CreateSub sample_proto 5 all_good sample_center_engine r in
  res = Ok (CreateSub NewMemorySubCenter r).1.2 ∧
  holds sample_proto sample_read e' (CreateSub NewMemorySubCenter r).1.1.
Proof.
  intros r.
  destruct (wal_center_durable sample_proto sample_proto_ok sample_read 5 sample_center_engine) as [H _].
  - apply sample_proto_total.
  - apply sample_reads.
  - apply sample_center_reached.
  - vm_compute. reflexivity.
  - apply (H r); [discriminate|]. constructor; [reflexivity|constructor].
Defined.

(** A refused subscription makes the center's directory unusable: a SUBSCRIBE that
    names a client and whose filter the trie rejects is answered with an error
    by [LocalWALCenter], and afterwards the directory can never be opened again. *)
Theorem wal_refused_subscribe_blocks_restart {E Snap} (P : SubProto E Snap) (HP : proto_ok P)
    (readAll : list Entry → Z → list Entry) clock (e : Engine MemorySubCenter Snap) (r : SubRequest) :
  proto_total P → reads_log readAll →
  @reach _ _ _ _ (sub_sm P) (sub_sm_laws P HP) readAll e → e_nextIndex e + 2 < 2 ^ 64 →
  sr_ClientID r ≠ "" → (CreateSub (e_sm e) r).2 ≠ [] →
  let err := UpdateError (SubErrors (CreateSub (e_sm e) r).2) in
  let '(e', res) := wal_CreateSub P clock all_good e r in
  res = Err (CenterEngineError err) ∧
  ∀ clock' n, @NewEngine _ _ _ _ (sub_sm P) readAll clock' n (e_disk e') = Err err.
Proof.
  intros HT Hr He Hb Hid Herr err.
  destruct (EncodeUpdate_total P HT (MSub r)) as [bytes Henc].
  destruct (EncodeUpdate_update P HP (MSub r) bytes (e_sm e) Henc) as (req & what & Hreq & Hu).
  assert (respond P req what (op_response P (e_sm e) (MSub r)) (op_errors (e_sm e) (MSub r))
          = Err (SubErrors (CreateSub (e_sm e) r).2)) as Hresp.
  { unfold respond. destruct (op_response_total P HT (e_sm e) (MSub r)) as [b ->]. cbn.
    destruct (pt_response P HT (mkUpdateResponse (uq_Type req) b (uq_RequestID req))) as [d ->]. cbn.
    by destruct (CreateSub (e_sm e) r).2. }
  rewrite Hresp in Hu.
  destruct (@reach_ok _ _ _ _ (sub_sm P) (sub_sm_laws P HP) readAll Hr e He) as [g Hg].
  pose proof (EncodeUpdate_named P HP (MSub r) bytes Henc Hid) as Hadm.
  destruct (@Write_refused _ _ _ _ (sub_sm P) (sub_sm_laws P HP) readAll Hr clock e g bytes _ _ Hg
    ltac:(by rewrite <- (eo_next _ _ Hg)) Hadm (EncodeUpdate_valid P HP _ _ Henc) Hu) as [Hw Hn].
  unfold wal_CreateSub, walCall. rewrite Henc. cbn in Hw |- *. rewrite Hw. split; [done|].
  intros clock' n. apply Hn.
Qed.

Lemma wal_refused_subscribe_blocks_restart_witness :
  let r := mkSubRequest [mkSubOption 1 false "a/#/b" false 0 0] "c" "" in
  let err := UpdateError (SubErrors ["invalid topic filter: # must be last level"]) in
  let '(e', res) := wal_CreateSub sample_proto 5 all_good sample_center_engine r in
  res = Err (CenterEngineError err) ∧
  ∀ clock' n, @NewEngine _ _ _ _ (sub_sm sample_proto) sample_read clock' n (e_disk e') = Err err.
Proof.
  intros r.
  apply (wal_refused_subscribe_blocks_restart sample_proto sample_proto_ok sample_read 5
           sample_center_engine r).
  - apply sample_proto_total.
  - apply sample_reads.
  - apply sample_center_reached.
  - vm_compute. reflexivity.
  - discriminate.
  - discriminate.
Defined.
