(* ===== verification/SessionCore.v ===== *)
(** * The session center ([src/internal/broker/sessioncenter/memory/core.go])

    State of the store that keeps, per client identifier, the MQTT session
    (unfinished messages, will, expiry deadline, replay cursor) and the runtime
    owner (node and fencing token), with one definition per handler.  The
    messages are those of [src/proto/proto_session/session.proto].

    Conventions.  Each handler takes the mutex for its whole body, so it is one
    step of the state.  [proto.Clone] copies a message deeply; with immutable
    values it is the identity, so [cloneSession] and its siblings do not appear.
    A [nil] pointer is [None].  Lists that arrive in a request may hold [nil]
    pointers; the lists that are stored never do, because every function that
    stores one skips them and [proto.Unmarshal] creates none, so stored lists
    hold messages.  [clock] is the value [time.Now().UnixNano()] would return
    during the call.  Log lines are not modelled. *)

From S2P Require Import Prelude GoStrings.

(** ** Messages of [session.proto] *)

Record UserProperty := mkUserProperty { upr_Key : string; upr_Value : string }.

Record WillMessage := mkWillMessage {
  wm_Topic : string;
  wm_Payload : list byte;
  wm_Qos : Z;
  wm_Retain : bool;
  wm_Properties : gmap string string;
  wm_ContentType : option string;
  wm_ResponseTopic : option string;
  wm_CorrelationData : option (list byte);
  wm_MessageExpiry : option Z;
  wm_UserProperties : list UserProperty;
  wm_PayloadFormat : option Z;
  wm_WillDelayInterval : option Z }.

Inductive MessageState :=
| WAITING_PUBACK | WAITING_PUBREC | WAITING_PUBCOMP | WAITING_PUBREL.

#[export] Instance MessageState_eq_dec : EqDecision MessageState.
Proof. solve_decision. Defined.

Record UnfinishedMessage := mkUnfinished {
  um_MessageID : string;
  um_PacketID : Z;
  um_Qos : Z;
  um_State : MessageState;
  um_SubscribeTopic : option string;
  um_IsOutgoing : bool;
  um_FirstPubTime : Z;
  um_PublishPacket : list byte;
  um_AckReasonCode : Z }.

#[export] Instance UnfinishedMessage_eq_dec : EqDecision UnfinishedMessage.
Proof. solve_decision. Defined.

Record OutgoingReplayCursor := mkReplayCursor {
  orc_TaskUnixMicro : Z;
  orc_TaskID : string;
  orc_Generation : Z }.

Record Session := mkSession {
  ss_ClientID : string;
  ss_WillMessage : option WillMessage;
  ss_UnfinishedMessages : list UnfinishedMessage;
  ss_SessionExpiryInterval : Z;
  ss_ExpireAtUnixNano : Z;
  ss_OutgoingReplayCursor : option OutgoingReplayCursor }.

Record SessionOwner := mkOwner {
  ow_ClientID : string;
  ow_NodeID : Z;
  ow_OwnerToken : string;
  ow_Online : bool }.

(** [Core]: the two maps of its [ClusterSessions]. *)
Record Core := mkCore {
  c_Sessions : gmap string Session;
  c_Owners : gmap string SessionOwner }.

Definition NewCore : Core := mkCore ∅ ∅.

Definition set_session (clientID : string) (s : Session) (c : Core) : Core :=
  mkCore (<[clientID := s]> (c_Sessions c)) (c_Owners c).
Definition set_owner (clientID : string) (o : SessionOwner) (c : Core) : Core :=
  mkCore (c_Sessions c) (<[clientID := o]> (c_Owners c)).

(** The pair of [delete] statements the handlers repeat, and [deleteSession]. *)
Definition deleteSession (clientID : string) (c : Core) : Core :=
  mkCore (delete clientID (c_Sessions c)) (delete clientID (c_Owners c)).

(** ** Time *)

(** [^uint32(0)]. *)
Definition neverExpireSessionInterval : Z := 4294967295.

Definition requestNowUnixNano (clock now : Z) : Z := if 0 <? now then now else clock.

Definition sessionExpired (session : option Session) (now : Z) : bool :=
  match session with
  | None => false
  | Some s => (0 <? ss_ExpireAtUnixNano s) && (ss_ExpireAtUnixNano s <=? now)
  end.

(** [now + int64(interval)*int64(time.Second)], with the wrap-around of [int64]. *)
Definition sessionExpiryDeadlineUnixNano (interval now : Z) : Z :=
  if (interval =? 0) || (interval =? neverExpireSessionInterval) then 0
  else wrap_i64 (now + wrap_i64 (interval * 1000000000)).

(** ** Unfinished messages *)

Definition not_nil {A} (l : list (option A)) : list A := omap id l.

(** [offlineIncoming]: the packet identifiers of the incoming entries of the request. *)
Definition offlineIncoming (offline : list (option UnfinishedMessage)) : gset Z :=
  foldl (λ ids msg,
    match msg with
    | Some m => if um_IsOutgoing m then ids else {[um_PacketID m]} ∪ ids
    | None => ids
    end) ∅ offline.

Definition mergeOfflineUnfinishedMessages (existing : list UnfinishedMessage)
    (offline : list (option UnfinishedMessage)) : list UnfinishedMessage :=
  let ids := offlineIncoming offline in
  filter (λ msg, um_IsOutgoing msg = false ∧ um_PacketID msg ∉ ids) existing ++ not_nil offline.

Definition upsertIncomingUnfinishedMessage (messages : list UnfinishedMessage)
    (unfinished : UnfinishedMessage) : list UnfinishedMessage :=
  filter (λ msg, ¬ (um_IsOutgoing msg = false ∧ um_PacketID msg = um_PacketID unfinished)) messages
  ++ [unfinished].

(** ** Requests and responses *)

Record OpenSessionForConnectRequest := mkOpenRequest {
  osr_ClientID : string;
  osr_WillMessage : option WillMessage;
  osr_SessionExpiryInterval : Z;
  osr_NowUnixNano : Z }.

Record OpenSessionForConnectResponse := mkOpenResponse {
  osp_OldSession : option Session;
  osp_OldSessionExists : bool;
  osp_Session : Session }.

Record TakeOverSessionOwnerResponse := mkTakeOverResponse {
  top_PreviousOwner : option SessionOwner;
  top_PreviousOwnerExists : bool;
  top_Owner : SessionOwner }.

Record ReplaceSessionStateOnCleanStartRequest := mkReplaceRequest {
  rsr_ClientID : string;
  rsr_WillMessage : option WillMessage;
  rsr_SessionExpiryInterval : Z;
  rsr_NowUnixNano : Z }.

Record SaveOfflineStateRequest := mkSaveOfflineRequest {
  sor_ClientID : string;
  sor_UnfinishedMessages : list (option UnfinishedMessage);
  sor_WillMessage : option WillMessage;
  sor_ClearWill : bool;
  sor_SessionExpiryInterval : Z;
  sor_NowUnixNano : Z;
  sor_OwnerToken : string;
  sor_OutgoingReplayCursor : option OutgoingReplayCursor }.

Record RemoveOutgoingUnfinishedRequest := mkRemoveOutgoingRequest {
  ror_ClientID : string;
  ror_MessageID : string;
  ror_NowUnixNano : Z }.

Record CommitOutgoingProgressRequest := mkCommitRequest {
  cor_ClientID : string;
  cor_UnfinishedMessages : list (option UnfinishedMessage);
  cor_OutgoingReplayCursor : option OutgoingReplayCursor;
  cor_OwnerToken : string;
  cor_NowUnixNano : Z }.

Record UpsertIncomingUnfinishedRequest := mkUpsertRequest {
  uir_ClientID : string;
  uir_PacketID : Z;
  uir_UnfinishedMessage : option UnfinishedMessage;
  uir_OwnerToken : string;
  uir_NowUnixNano : Z }.

Record RemoveIncomingUnfinishedRequest := mkRemoveIncomingRequest {
  rir_ClientID : string;
  rir_PacketID : Z;
  rir_OwnerToken : string;
  rir_NowUnixNano : Z }.

(** ** Handlers

    A handler returns the new state and the Go results; on an error the state
    is the one the Go code leaves behind, which is the old one. *)

Definition openSessionForConnect (clock : Z) (c : Core) (request : OpenSessionForConnectRequest)
    : Core * result string OpenSessionForConnectResponse :=
  let clientID := osr_ClientID request in
  if bool_decide (clientID = "") then (c, Err "client id is required")
  else
    let oldSession := c_Sessions c !! clientID in
    let now := requestNowUnixNano clock (osr_NowUnixNano request) in
    let '(c, oldSession) :=
      if sessionExpired oldSession now then (deleteSession clientID c, None)
      else (c, oldSession) in
    let effective :=
      match oldSession with
      | Some s => s
      | None => mkSession clientID None [] 0 0 None
      end in
    let effective := mkSession clientID (osr_WillMessage request) (ss_UnfinishedMessages effective)
      (osr_SessionExpiryInterval request) 0 (ss_OutgoingReplayCursor effective) in
    (set_session clientID effective c,
     Ok (mkOpenResponse oldSession (bool_decide (is_Some oldSession)) effective)).

Definition takeOverSessionOwner (c : Core) (owner : option SessionOwner)
    : Core * result string TakeOverSessionOwnerResponse :=
  match owner with
  | None => (c, Err "owner is required")
  | Some newOwner =>
      let clientID := ow_ClientID newOwner in
      if bool_decide (clientID = "") then (c, Err "client id is required")
      else
        let oldOwner := c_Owners c !! clientID in
        (set_owner clientID newOwner c,
         Ok (mkTakeOverResponse oldOwner (bool_decide (is_Some oldOwner)) newOwner))
  end.

Definition replaceSessionStateOnCleanStart (c : Core)
    (request : ReplaceSessionStateOnCleanStartRequest) : Core * result string unit :=
  let clientID := rsr_ClientID request in
  if bool_decide (clientID = "") then (c, Err "client id is required")
  else
    (set_session clientID
       (mkSession clientID (rsr_WillMessage request) [] (rsr_SessionExpiryInterval request) 0 None) c,
     Ok tt).

Definition ownerTokenMatches (c : Core) (clientID ownerToken : string) : bool :=
  if bool_decide (ownerToken = "") then true
  else
    match c_Owners c !! clientID with
    | None => true
    | Some owner => bool_decide (ow_OwnerToken owner = ownerToken)
    end.

(** The token test at the head of [saveOfflineState] is written out there in
    Go; it has the branches of [ownerTokenMatches]. *)
Definition saveOfflineState (clock : Z) (c : Core) (request : SaveOfflineStateRequest)
    : Core * result string unit :=
  let clientID := sor_ClientID request in
  if bool_decide (clientID = "") then (c, Err "client id is required")
  else
    let ownerToken := sor_OwnerToken request in
    let stale :=
      if negb (bool_decide (ownerToken = "")) then
        match c_Owners c !! clientID with
        | Some owner => negb (bool_decide (ow_OwnerToken owner = ownerToken))
        | None => false
        end
      else false in
    if stale then (c, Ok tt)
    else
      let interval := sor_SessionExpiryInterval request in
      if interval =? 0 then (deleteSession clientID c, Ok tt)
      else
        let sessionState :=
          match c_Sessions c !! clientID with
          | Some s => s
          | None => mkSession clientID None [] 0 0 None
          end in
        let will :=
          if sor_ClearWill request then None
          else match sor_WillMessage request with
               | Some w => Some w
               | None => ss_WillMessage sessionState
               end in
        let sessionState := mkSession clientID will
          (mergeOfflineUnfinishedMessages (ss_UnfinishedMessages sessionState)
             (sor_UnfinishedMessages request))
          interval
          (sessionExpiryDeadlineUnixNano interval
             (requestNowUnixNano clock (sor_NowUnixNano request)))
          (sor_OutgoingReplayCursor request) in
        let c := set_session clientID sessionState c in
        match c_Owners c !! clientID with
        | Some owner =>
            (set_owner clientID
               (mkOwner (ow_ClientID owner) (ow_NodeID owner) (ow_OwnerToken owner) false) c, Ok tt)
        | None => (c, Ok tt)
        end.

Definition set_unfinished (l : list UnfinishedMessage) (s : Session) : Session :=
  mkSession (ss_ClientID s) (ss_WillMessage s) l (ss_SessionExpiryInterval s)
    (ss_ExpireAtUnixNano s) (ss_OutgoingReplayCursor s).

Definition removeOutgoingUnfinished (clock : Z) (c : Core)
    (request : RemoveOutgoingUnfinishedRequest) : Core * result string unit :=
  let clientID := ror_ClientID request in
  if bool_decide (clientID = "") then (c, Err "client id is required")
  else
    let messageID := ror_MessageID request in
    if bool_decide (messageID = "") then (c, Err "message id is required")
    else
      let sessionState := c_Sessions c !! clientID in
      if sessionExpired sessionState (requestNowUnixNano clock (ror_NowUnixNano request))
      then (deleteSession clientID c, Ok tt)
      else
        match sessionState with
        | None => (c, Ok tt)
        | Some s =>
            if bool_decide (length (ss_UnfinishedMessages s) = 0%nat) then (c, Ok tt)
            else
              let kept := filter (λ m, ¬ (um_IsOutgoing m = true ∧ um_MessageID m = messageID))
                            (ss_UnfinishedMessages s) in
              (set_session clientID (set_unfinished kept s) c, Ok tt)
        end.

Definition commitOutgoingProgress (clock : Z) (c : Core)
    (request : CommitOutgoingProgressRequest) : Core * result string unit :=
  let clientID := cor_ClientID request in
  if bool_decide (clientID = "") then (c, Err "client id is required")
  else if negb (ownerTokenMatches c clientID (cor_OwnerToken request)) then (c, Ok tt)
  else
    let sessionState := c_Sessions c !! clientID in
    if sessionExpired sessionState (requestNowUnixNano clock (cor_NowUnixNano request))
    then (deleteSession clientID c, Ok tt)
    else
      match sessionState with
      | None => (c, Ok tt)
      | Some s =>
          let s := mkSession clientID (ss_WillMessage s)
            (mergeOfflineUnfinishedMessages (ss_UnfinishedMessages s)
               (cor_UnfinishedMessages request))
            (ss_SessionExpiryInterval s) (ss_ExpireAtUnixNano s)
            (cor_OutgoingReplayCursor request) in
          (set_session clientID s c, Ok tt)
      end.

Definition upsertIncomingUnfinished (clock : Z) (c : Core)
    (request : UpsertIncomingUnfinishedRequest) : Core * result string unit :=
  let clientID := uir_ClientID request in
  if bool_decide (clientID = "") then (c, Err "client id is required")
  else
    let packetID := uir_PacketID request in
    if packetID =? 0 then (c, Err "packet id is required")
    else
      match uir_UnfinishedMessage request with
      | None => (c, Err "unfinished message is required")
      | Some m =>
          if negb (ownerTokenMatches c clientID (uir_OwnerToken request)) then (c, Ok tt)
          else
            let sessionState := c_Sessions c !! clientID in
            let '(c, sessionState) :=
              if sessionExpired sessionState (requestNowUnixNano clock (uir_NowUnixNano request))
              then (deleteSession clientID c, None)
              else (c, sessionState) in
            let s :=
              match sessionState with
              | Some s => s
              | None => mkSession clientID None [] 0 0 None
              end in
            let unfinished := mkUnfinished (um_MessageID m) packetID 2 WAITING_PUBREL
              (um_SubscribeTopic m) false (um_FirstPubTime m) (um_PublishPacket m)
              (um_AckReasonCode m) in
            let s := mkSession clientID (ss_WillMessage s)
              (upsertIncomingUnfinishedMessage (ss_UnfinishedMessages s) unfinished)
              (ss_SessionExpiryInterval s) (ss_ExpireAtUnixNano s) (ss_OutgoingReplayCursor s) in
            (set_session clientID s c, Ok tt)
      end.

Definition removeIncomingUnfinished (clock : Z) (c : Core)
    (request : RemoveIncomingUnfinishedRequest) : Core * result string unit :=
  let clientID := rir_ClientID request in
  if bool_decide (clientID = "") then (c, Err "client id is required")
  else
    let packetID := rir_PacketID request in
    if packetID =? 0 then (c, Err "packet id is required")
    else if negb (ownerTokenMatches c clientID (rir_OwnerToken request)) then (c, Ok tt)
    else
      let sessionState := c_Sessions c !! clientID in
      if sessionExpired sessionState (requestNowUnixNano clock (rir_NowUnixNano request))
      then (deleteSession clientID c, Ok tt)
      else
        match sessionState with
        | None => (c, Ok tt)
        | Some s =>
            if bool_decide (length (ss_UnfinishedMessages s) = 0%nat) then (c, Ok tt)
            else
              let kept := filter (λ m, ¬ (um_IsOutgoing m = false ∧ um_PacketID m = packetID))
                            (ss_UnfinishedMessages s) in
              (set_session clientID (set_unfinished kept s) c, Ok tt)
        end.

(** [DeleteExpiredSessions]: Go's [range] over the session map while deleting
    from it.  Its order is unspecified; here it is the order of [map_to_list]. *)
Definition DeleteExpiredSessions (clock : Z) (c : Core) (nowUnixNano : Z) : Core * list string :=
  let now := requestNowUnixNano clock nowUnixNano in
  foldl (λ '(c, deleted) '(clientID, sessionState),
    if negb (sessionExpired (Some sessionState) now) then (c, deleted)
    else (deleteSession clientID c, deleted ++ [clientID]))
    (c, []) (map_to_list (c_Sessions c)).

(** ** Queries *)

Definition GetSession (clock : Z) (c : Core) (clientID : string) (nowUnixNano : Z)
    : option Session * bool :=
  let session := c_Sessions c !! clientID in
  let session := if sessionExpired session (requestNowUnixNano clock nowUnixNano)
                 then None else session in
  (session, bool_decide (is_Some session)).

Definition GetSessionOwner (c : Core) (clientID : string) : option SessionOwner * bool :=
  let owner := c_Owners c !! clientID in (owner, bool_decide (is_Some owner)).

Record ReadSessionOwnerItem := mkOwnerItem {
  roi_ClientID : string;
  roi_Owner : option SessionOwner;
  roi_Exist : bool }.

Definition GetSessionOwners (c : Core) (clientIDs : list string) : list ReadSessionOwnerItem :=
  if bool_decide (length clientIDs = 0%nat) then []
  else
    (foldl (λ '(seen, items) clientID,
       if bool_decide (clientID = "") then (seen, items)
       else if bool_decide (clientID ∈ seen) then (seen, items)
       else
         let owner := c_Owners c !! clientID in
         ({[clientID]} ∪ seen,
          items ++ [mkOwnerItem clientID owner (bool_decide (is_Some owner))]))
       ((∅ : gset string), []) clientIDs).2.

(** ** Snapshots *)

Section snapshot_io.
(** [proto.Marshal] and [proto.Unmarshal] of the generated [ClusterSessions].
    [Unmarshal] fills the message it is given and reports an error; on an error
    the message is left with what was read so far. *)
Context {Data E : Type}.
Variable marshal : Core → result E Data.
Variable unmarshal : Data → Core * option E.

Definition WriteSnapshot (c : Core) : result E Data := marshal c.

Definition RecoverSnapshot (data : Data) : Core * result E unit :=
  match unmarshal data with
  | (c', None) => (c', Ok tt)
  | (c', Some e) => (c', Err e)
  end.
End snapshot_io.
