(* ===== verification/SessionCoreProofs.v ===== *)
(** * Correctness of the session center

    The concrete store keeps each session's unfinished messages in one list; the
    abstract store of this file keeps the incoming ones in a map from packet
    identifiers and the outgoing ones in a list.  Every handler refines its
    abstract counterpart, and the properties of owner fencing, isolation and
    expiry are proved of the handlers. *)

From S2P Require Import Prelude GoStrings SessionCore.

(** ** Operations *)

Inductive SessionOp :=
| OpOpen (r : OpenSessionForConnectRequest)
| OpTakeOver (o : option SessionOwner)
| OpReplace (r : ReplaceSessionStateOnCleanStartRequest)
| OpSaveOffline (r : SaveOfflineStateRequest)
| OpRemoveOutgoing (r : RemoveOutgoingUnfinishedRequest)
| OpCommit (r : CommitOutgoingProgressRequest)
| OpUpsert (r : UpsertIncomingUnfinishedRequest)
| OpRemoveIncoming (r : RemoveIncomingUnfinishedRequest)
| OpDelete (clientID : string)
| OpDeleteExpired (nowUnixNano : Z).

(** The state after an operation, whatever it answers. *)
Definition run_op (clock : Z) (op : SessionOp) (c : Core) : Core :=
  match op with
  | OpOpen r => (openSessionForConnect clock c r).1
  | OpTakeOver o => (takeOverSessionOwner c o).1
  | OpReplace r => (replaceSessionStateOnCleanStart c r).1
  | OpSaveOffline r => (saveOfflineState clock c r).1
  | OpRemoveOutgoing r => (removeOutgoingUnfinished clock c r).1
  | OpCommit r => (commitOutgoingProgress clock c r).1
  | OpUpsert r => (upsertIncomingUnfinished clock c r).1
  | OpRemoveIncoming r => (removeIncomingUnfinished clock c r).1
  | OpDelete clientID => deleteSession clientID c
  | OpDeleteExpired now => (DeleteExpiredSessions clock c now).1
  end.

(** ** The abstract store *)

Record ASession := mkASession {
  as_will : option WillMessage;
  as_incoming : gmap Z UnfinishedMessage;
  as_outgoing : list UnfinishedMessage;
  as_interval : Z;
  as_deadline : Z;
  as_cursor : option OutgoingReplayCursor }.

Definition AStore : Type := gmap string ASession * gmap string SessionOwner.

Definition incoming (l : list UnfinishedMessage) : list UnfinishedMessage :=
  filter (λ m, um_IsOutgoing m = false) l.
Definition outgoing (l : list UnfinishedMessage) : list UnfinishedMessage :=
  filter (λ m, um_IsOutgoing m = true) l.
Definition incoming_map (l : list UnfinishedMessage) : gmap Z UnfinishedMessage :=
  list_to_map ((λ m, (um_PacketID m, m)) <$> incoming l).

Definition abs_session (s : Session) : ASession :=
  mkASession (ss_WillMessage s) (incoming_map (ss_UnfinishedMessages s))
    (outgoing (ss_UnfinishedMessages s)) (ss_SessionExpiryInterval s)
    (ss_ExpireAtUnixNano s) (ss_OutgoingReplayCursor s).

Definition abs (c : Core) : AStore := (abs_session <$> c_Sessions c, c_Owners c).

Definition a_empty : ASession := mkASession None ∅ [] 0 0 None.

Definition a_delete (id : string) (a : AStore) : AStore := (delete id a.1, delete id a.2).

Definition a_expired (now : Z) (s : ASession) : Prop := 0 < as_deadline s ≤ now.

#[export] Instance a_expired_dec now s : Decision (a_expired now s).
Proof. unfold a_expired. apply _. Defined.

Definition a_expired_opt (now : Z) (o : option ASession) : Prop :=
  match o with Some s => a_expired now s | None => False end.

#[export] Instance a_expired_opt_dec now o : Decision (a_expired_opt now o).
Proof. destruct o; apply _. Defined.

(** Drop a client's session and owner if the session's deadline has passed. *)
Definition a_expire (now : Z) (id : string) (a : AStore) : AStore :=
  if decide (a_expired_opt now (a.1 !! id)) then a_delete id a else a.

(** A request is fenced when it carries a token and the client's owner has another one. *)
Definition fenced (owners : gmap string SessionOwner) (id token : string) : Prop :=
  token ≠ "" ∧ ∃ o, owners !! id = Some o ∧ ow_OwnerToken o ≠ token.

#[export] Instance fenced_dec owners id token : Decision (fenced owners id token).
Proof.
  destruct (decide (token = "")) as [->|Ht]; [right; intros [? _]; done|].
  destruct (owners !! id) as [o|] eqn:Ho.
  - destruct (decide (ow_OwnerToken o = token)).
    + right. intros (_ & o' & Ho' & ?). naive_solver.
    + left. split; eauto.
  - right. intros (_ & o' & Ho' & ?). naive_solver.
Defined.

Definition a_offline (o : SessionOwner) : SessionOwner :=
  mkOwner (ow_ClientID o) (ow_NodeID o) (ow_OwnerToken o) false.

Definition a_store (id : string) (s : ASession) (a : AStore) : AStore := (<[id := s]> a.1, a.2).

(** What each operation means on the abstract store. *)
Definition a_run (clock : Z) (op : SessionOp) (a : AStore) : AStore :=
  match op with
  | OpOpen r =>
      let id := osr_ClientID r in
      if decide (id = "") then a
      else
        let a := a_expire (requestNowUnixNano clock (osr_NowUnixNano r)) id a in
        let s := default a_empty (a.1 !! id) in
        a_store id (mkASession (osr_WillMessage r) (as_incoming s) (as_outgoing s)
                      (osr_SessionExpiryInterval r) 0 (as_cursor s)) a
  | OpTakeOver None => a
  | OpTakeOver (Some o) =>
      if decide (ow_ClientID o = "") then a else (a.1, <[ow_ClientID o := o]> a.2)
  | OpReplace r =>
      if decide (rsr_ClientID r = "") then a
      else a_store (rsr_ClientID r)
             (mkASession (rsr_WillMessage r) ∅ [] (rsr_SessionExpiryInterval r) 0 None) a
  | OpSaveOffline r =>
      let id := sor_ClientID r in
      if decide (id = "" ∨ fenced a.2 id (sor_OwnerToken r)) then a
      else if decide (sor_SessionExpiryInterval r = 0) then a_delete id a
      else
        let s := default a_empty (a.1 !! id) in
        let msgs := not_nil (sor_UnfinishedMessages r) in
        let will := if sor_ClearWill r then None
                    else match sor_WillMessage r with Some w => Some w | None => as_will s end in
        (<[id := mkASession will (incoming_map msgs ∪ as_incoming s) (outgoing msgs)
                  (sor_SessionExpiryInterval r)
                  (sessionExpiryDeadlineUnixNano (sor_SessionExpiryInterval r)
                     (requestNowUnixNano clock (sor_NowUnixNano r)))
                  (sor_OutgoingReplayCursor r)]> a.1,
         alter a_offline id a.2)
  | OpRemoveOutgoing r =>
      let id := ror_ClientID r in
      if decide (id = "" ∨ ror_MessageID r = "") then a
      else
        let a := a_expire (requestNowUnixNano clock (ror_NowUnixNano r)) id a in
        (alter (λ s, mkASession (as_will s) (as_incoming s)
                       (filter (λ m, um_MessageID m ≠ ror_MessageID r) (as_outgoing s))
                       (as_interval s) (as_deadline s) (as_cursor s)) id a.1, a.2)
  | OpCommit r =>
      let id := cor_ClientID r in
      if decide (id = "" ∨ fenced a.2 id (cor_OwnerToken r)) then a
      else
        let a := a_expire (requestNowUnixNano clock (cor_NowUnixNano r)) id a in
        let msgs := not_nil (cor_UnfinishedMessages r) in
        (alter (λ s, mkASession (as_will s) (incoming_map msgs ∪ as_incoming s) (outgoing msgs)
                       (as_interval s) (as_deadline s) (cor_OutgoingReplayCursor r)) id a.1, a.2)
  | OpUpsert r =>
      let id := uir_ClientID r in
      match uir_UnfinishedMessage r with
      | None => a
      | Some m =>
          if decide (id = "" ∨ uir_PacketID r = 0 ∨ fenced a.2 id (uir_OwnerToken r)) then a
          else
            let a := a_expire (requestNowUnixNano clock (uir_NowUnixNano r)) id a in
            let s := default a_empty (a.1 !! id) in
            let m := mkUnfinished (um_MessageID m) (uir_PacketID r) 2 WAITING_PUBREL
              (um_SubscribeTopic m) false (um_FirstPubTime m) (um_PublishPacket m)
              (um_AckReasonCode m) in
            a_store id (mkASession (as_will s) (<[uir_PacketID r := m]> (as_incoming s))
                          (as_outgoing s) (as_interval s) (as_deadline s) (as_cursor s)) a
      end
  | OpRemoveIncoming r =>
      let id := rir_ClientID r in
      if decide (id = "" ∨ rir_PacketID r = 0 ∨ fenced a.2 id (rir_OwnerToken r)) then a
      else
        let a := a_expire (requestNowUnixNano clock (rir_NowUnixNano r)) id a in
        (alter (λ s, mkASession (as_will s) (delete (rir_PacketID r) (as_incoming s))
                       (as_outgoing s) (as_interval s) (as_deadline s) (as_cursor s)) id a.1, a.2)
  | OpDelete id => a_delete id a
  | OpDeleteExpired now =>
      let now := requestNowUnixNano clock now in
      (filter (λ '(_, s), ¬ a_expired now s) a.1,
       filter (λ '(id, _), ¬ a_expired_opt now (a.1 !! id)) a.2)
  end.

(** ** Lists of unfinished messages and the incoming map *)

(** [incoming_map] finds the first incoming entry with the packet identifier. *)
Lemma lookup_incoming_map l p :
  incoming_map l !! p = head (filter (λ m, um_IsOutgoing m = false ∧ um_PacketID m = p) l).
Proof.
  unfold incoming_map, incoming. induction l as [|m l IH]; [done|].
  rewrite (filter_cons (λ m, um_IsOutgoing m = false)), (filter_cons (λ m, _ ∧ _)).
  destruct (decide (um_IsOutgoing m = false)) as [Hm|Hm].
  - cbn. destruct (decide (um_PacketID m = p)) as [<-|Hp].
    + rewrite decide_True by done. by rewrite lookup_insert_eq.
    + rewrite decide_False by naive_solver. by rewrite lookup_insert_ne.
  - rewrite decide_False by naive_solver. done.
Qed.

Lemma outgoing_app l1 l2 : outgoing (l1 ++ l2) = outgoing l1 ++ outgoing l2.
Proof. apply filter_app. Qed.

Lemma offlineIncoming_spec offline p :
  p ∈ offlineIncoming offline ↔ is_Some (incoming_map (not_nil offline) !! p).
Proof.
  unfold offlineIncoming.
  assert (∀ ids, p ∈ foldl (λ ids msg, match msg with
    | Some m => if um_IsOutgoing m then ids else {[um_PacketID m]} ∪ ids
    | None => ids end) ids offline ↔ p ∈ (ids : gset Z) ∨ is_Some (incoming_map (not_nil offline) !! p)) as H.
  { induction offline as [|[m|] offline IH]; intros ids; cbn [foldl].
    - change (incoming_map (not_nil [])) with (∅ : gmap Z UnfinishedMessage). rewrite lookup_empty. split; [by left|]. intros [?|[? ?]]; done.
    - rewrite IH, !lookup_incoming_map.
      change (not_nil (Some m :: offline)) with (m :: not_nil offline). rewrite filter_cons.
      destruct (um_IsOutgoing m) eqn:Hm.
      + rewrite decide_False by naive_solver. done.
      + destruct (decide (um_PacketID m = p)) as [<-|Hp].
        * rewrite decide_True by done. cbn. split; [right; eauto|]. left. set_solver.
        * rewrite decide_False by naive_solver. set_solver.
    - apply IH. }
  rewrite H. set_solver.
Qed.

Lemma incoming_map_app l1 l2 : incoming_map (l1 ++ l2) = incoming_map l1 ∪ incoming_map l2.
Proof. unfold incoming_map, incoming. by rewrite filter_app, fmap_app, list_to_map_app. Qed.

Lemma incoming_map_filter (P : UnfinishedMessage → Prop) `{!∀ m, Decision (P m)} l p :
  (∀ m, um_IsOutgoing m = false → um_PacketID m = p → P m) →
  incoming_map (filter P l) !! p = incoming_map l !! p.
Proof.
  intros HP. rewrite !lookup_incoming_map, list_filter_filter. f_equal.
  apply list_filter_iff. naive_solver.
Qed.

Lemma incoming_map_filter_None (P : UnfinishedMessage → Prop) `{!∀ m, Decision (P m)} l p :
  (∀ m, um_IsOutgoing m = false → um_PacketID m = p → ¬ P m) →
  incoming_map (filter P l) !! p = None.
Proof.
  intros HP. rewrite lookup_incoming_map, list_filter_filter, filter_none; [done|]. naive_solver.
Qed.

Lemma incoming_map_merge existing offline :
  incoming_map (mergeOfflineUnfinishedMessages existing offline)
  = incoming_map (not_nil offline) ∪ incoming_map existing.
Proof.
  unfold mergeOfflineUnfinishedMessages. rewrite incoming_map_app. apply map_eq. intros p.
  rewrite !lookup_union. pose proof (offlineIncoming_spec offline p) as Hs.
  destruct (incoming_map (not_nil offline) !! p) as [m|].
  - rewrite incoming_map_filter_None by naive_solver. by destruct (incoming_map existing !! p).
  - rewrite incoming_map_filter.
    + by destruct (incoming_map existing !! p).
    + intros m ? ?. split; [done|]. subst. intros [? ?]%Hs. done.
Qed.

Lemma outgoing_merge existing offline :
  outgoing (mergeOfflineUnfinishedMessages existing offline) = outgoing (not_nil offline).
Proof.
  unfold mergeOfflineUnfinishedMessages. rewrite outgoing_app. unfold outgoing at 1.
  rewrite list_filter_filter, filter_none; [done|]. intros m _ [Hm [? _]]. congruence.
Qed.

Lemma incoming_map_upsert l m :
  um_IsOutgoing m = false →
  incoming_map (upsertIncomingUnfinishedMessage l m) = <[um_PacketID m := m]> (incoming_map l).
Proof.
  intros Hm. unfold upsertIncomingUnfinishedMessage. rewrite incoming_map_app. apply map_eq. intros p.
  rewrite lookup_union. unfold incoming_map at 2, incoming. rewrite filter_cons_True by done. cbn.
  destruct (decide (p = um_PacketID m)) as [->|Hp].
  - rewrite incoming_map_filter_None by naive_solver. by rewrite !lookup_insert_eq.
  - rewrite incoming_map_filter by naive_solver. rewrite !lookup_insert_ne by done.
    rewrite lookup_empty. by destruct (incoming_map l !! p).
Qed.

Lemma outgoing_upsert l m :
  um_IsOutgoing m = false → outgoing (upsertIncomingUnfinishedMessage l m) = outgoing l.
Proof.
  intros Hm. unfold upsertIncomingUnfinishedMessage. rewrite outgoing_app.
  unfold outgoing. rewrite (filter_cons_False _ m) by congruence. rewrite filter_nil, app_nil_r.
  rewrite list_filter_filter. apply list_filter_iff. intros x. split; [by intros [? _]|].
  intros Hx. split; [done|]. intros [? _]. congruence.
Qed.

Lemma incoming_map_remove l p :
  incoming_map (filter (λ m, ¬ (um_IsOutgoing m = false ∧ um_PacketID m = p)) l)
  = delete p (incoming_map l).
Proof.
  apply map_eq. intros q. destruct (decide (q = p)) as [->|Hq].
  - rewrite lookup_delete_eq. apply incoming_map_filter_None. naive_solver.
  - rewrite lookup_delete_ne by done. apply incoming_map_filter. naive_solver.
Qed.

Lemma outgoing_remove l p :
  outgoing (filter (λ m, ¬ (um_IsOutgoing m = false ∧ um_PacketID m = p)) l) = outgoing l.
Proof.
  unfold outgoing. rewrite list_filter_filter. apply list_filter_iff. intros x.
  split; [by intros [? _]|]. intros Hx. split; [done|]. intros [? _]. congruence.
Qed.

Lemma incoming_map_remove_outgoing l id :
  incoming_map (filter (λ m, ¬ (um_IsOutgoing m = true ∧ um_MessageID m = id)) l) = incoming_map l.
Proof.
  apply map_eq. intros p. apply incoming_map_filter. intros m Hm _ [? _]. congruence.
Qed.

Lemma outgoing_remove_outgoing l id :
  outgoing (filter (λ m, ¬ (um_IsOutgoing m = true ∧ um_MessageID m = id)) l)
  = filter (λ m, um_MessageID m ≠ id) (outgoing l).
Proof. unfold outgoing. rewrite !list_filter_filter. apply list_filter_iff. naive_solver. Qed.

#[export] Hint Rewrite incoming_map_merge outgoing_merge incoming_map_remove outgoing_remove
  incoming_map_remove_outgoing outgoing_remove_outgoing : go.

(** ** The abstraction commutes with the store's primitives *)

Lemma abs_lookup c id : (abs c).1 !! id = abs_session <$> c_Sessions c !! id.
Proof. apply lookup_fmap. Qed.

Lemma abs_set_session id s c : abs (set_session id s c) = a_store id (abs_session s) (abs c).
Proof. unfold abs, a_store, set_session. cbn. by rewrite fmap_insert. Qed.

Lemma abs_delete id c : abs (deleteSession id c) = a_delete id (abs c).
Proof. unfold abs, a_delete, deleteSession. cbn. by rewrite fmap_delete. Qed.

Lemma sessionExpired_abs c id now :
  sessionExpired (c_Sessions c !! id) now = bool_decide (a_expired_opt now ((abs c).1 !! id)).
Proof.
  rewrite abs_lookup. destruct (c_Sessions c !! id) as [s|]; cbn.
  - apply eq_true_iff_eq. rewrite andb_true_iff, Z.ltb_lt, Z.leb_le, bool_decide_eq_true.
    unfold a_expired; cbn. lia.
  - done.
Qed.

Lemma ownerTokenMatches_fenced c id token :
  ownerTokenMatches c id token = negb (bool_decide (fenced (c_Owners c) id token)).
Proof.
  apply eq_true_iff_eq. rewrite negb_true_iff, bool_decide_eq_false. unfold ownerTokenMatches, fenced.
  case_bool_decide as Ht; [tauto|]. destruct (c_Owners c !! id) as [o|]; [|naive_solver].
  rewrite bool_decide_eq_true. destruct (decide (ow_OwnerToken o = token)); naive_solver.
Qed.

(** The sessions with the client's one dropped if it has expired. *)
Definition expire_core (now : Z) (id : string) (c : Core) : Core :=
  if sessionExpired (c_Sessions c !! id) now then deleteSession id c else c.

Lemma abs_expire now id c : abs (expire_core now id c) = a_expire now id (abs c).
Proof.
  unfold expire_core, a_expire. rewrite sessionExpired_abs.
  destruct (decide _) as [He|He].
  - by rewrite bool_decide_true, abs_delete.
  - by rewrite bool_decide_false.
Qed.

Lemma expire_core_lookup now id c :
  c_Sessions (expire_core now id c) !! id
  = if sessionExpired (c_Sessions c !! id) now then None else c_Sessions c !! id.
Proof. unfold expire_core. case_if; [|done]. cbn. apply lookup_delete_eq. Qed.

Lemma default_abs id c :
  default a_empty ((abs c).1 !! id)
  = abs_session (default (mkSession id None [] 0 0 None) (c_Sessions c !! id)).
Proof. rewrite abs_lookup. by destruct (c_Sessions c !! id). Qed.

Lemma abs_alter_session g f id c :
  (∀ s, c_Sessions c !! id = Some s → abs_session (g s) = f (abs_session s)) →
  match c_Sessions c !! id with
  | Some s => abs (set_session id (g s) c)
  | None => abs c
  end = (alter f id (abs c).1, (abs c).2).
Proof.
  intros Hg. pose proof (abs_lookup c id) as Hl. destruct (c_Sessions c !! id) as [s|] eqn:Hs.
  - rewrite abs_set_session, Hg by done. unfold a_store. f_equal.
    apply map_eq. intros k. destruct (decide (k = id)) as [->|Hk].
    + by rewrite lookup_insert_eq, lookup_alter_eq, Hl.
    + by rewrite lookup_insert_ne, lookup_alter_ne by done.
  - destruct (abs c) as [a1 a2]. cbn [fst snd] in *. f_equal. apply map_eq. intros k. destruct (decide (k = id)) as [->|Hk].
    + by rewrite lookup_alter_eq, Hl.
    + by rewrite lookup_alter_ne.
Qed.

(** ** [DeleteExpiredSessions] *)

Definition deleteAll (ids : list string) (c : Core) : Core := foldl (flip deleteSession) c ids.

Lemma deleteAll_lookup ids c id :
  c_Sessions (deleteAll ids c) !! id = (if decide (id ∈ ids) then None else c_Sessions c !! id)
  ∧ c_Owners (deleteAll ids c) !! id = (if decide (id ∈ ids) then None else c_Owners c !! id).
Proof.
  revert c. induction ids as [|k ids IH]; intros c; [done|].
  change (deleteAll (k :: ids) c) with (deleteAll ids (deleteSession k c)).
  destruct (IH (deleteSession k c)) as [-> ->]. cbn [deleteSession c_Sessions c_Owners]. destruct (decide (id ∈ ids)).
  - by rewrite !decide_True by set_solver.
  - destruct (decide (id = k)) as [->|Hk].
    + rewrite !decide_True by set_solver. by rewrite !lookup_delete_eq.
    + rewrite !decide_False by set_solver. by rewrite !lookup_delete_ne.
Qed.

Definition expired_ids (now : Z) (c : Core) : list string :=
  (filter (λ e, sessionExpired (Some e.2) now = true) (map_to_list (c_Sessions c))).*1.

Lemma DeleteExpiredSessions_eq clock c now :
  let ids := expired_ids (requestNowUnixNano clock now) c in
  DeleteExpiredSessions clock c now = (deleteAll ids c, ids).
Proof.
  intros ids. subst ids. unfold DeleteExpiredSessions, expired_ids.
  generalize (map_to_list (c_Sessions c)) (requestNowUnixNano clock now). intros l n.
  assert (∀ c del, foldl (λ '(c, deleted) '(clientID, sessionState),
    if negb (sessionExpired (Some sessionState) n) then (c, deleted)
    else (deleteSession clientID c, deleted ++ [clientID])) (c, del) l
    = (deleteAll (filter (λ e : string * Session, sessionExpired (Some e.2) n = true) l).*1 c,
       del ++ (filter (λ e, sessionExpired (Some e.2) n = true) l).*1)) as H; [|apply H].
  clear c. induction l as [|[k s] l IH]; intros c del.
  - cbn. by rewrite app_nil_r.
  - rewrite filter_cons. cbn [foldl snd]. destruct (sessionExpired (Some s) n).
    + rewrite decide_True by done. cbn [negb]. rewrite IH. cbn. by rewrite <- app_assoc.
    + rewrite decide_False by done. cbn [negb]. by rewrite IH.
Qed.

Lemma elem_of_expired_ids now c id :
  id ∈ expired_ids now c ↔ sessionExpired (c_Sessions c !! id) now = true.
Proof.
  unfold expired_ids. rewrite list_elem_of_fmap. split.
  - intros ([k s] & -> & [Hs Hk]%list_elem_of_filter). apply elem_of_map_to_list in Hk. cbn in *.
    by rewrite Hk.
  - destruct (c_Sessions c !! id) as [s|] eqn:Hs; [|done]. intros He. exists (id, s).
    rewrite list_elem_of_filter, elem_of_map_to_list. done.
Qed.

(** ** Refinement, operation by operation *)

Ltac simpl_session :=
  cbn [ss_ClientID ss_WillMessage ss_UnfinishedMessages ss_SessionExpiryInterval
       ss_ExpireAtUnixNano ss_OutgoingReplayCursor set_unfinished fst snd
       as_will as_incoming as_outgoing as_interval as_deadline as_cursor].

Lemma open_refines clock c r :
  abs (openSessionForConnect clock c r).1 = a_run clock (OpOpen r) (abs c).
Proof.
  unfold openSessionForConnect, a_run. case_bool_decide as Hid; [by rewrite decide_True|].
  rewrite decide_False by done. rewrite <- abs_expire, default_abs, expire_core_lookup.
  unfold expire_core.
  destruct (sessionExpired _ _); cbn [fst]; rewrite abs_set_session; [done|].
  by destruct (c_Sessions c !! osr_ClientID r).
Qed.

Lemma upsert_refines clock c r :
  abs (upsertIncomingUnfinished clock c r).1 = a_run clock (OpUpsert r) (abs c).
Proof.
  unfold upsertIncomingUnfinished, a_run. rewrite ownerTokenMatches_fenced, negb_involutive.
  change (abs c).2 with (c_Owners c).
  destruct (uir_UnfinishedMessage r) as [m|].
  2:{ by repeat case_if. }
  repeat case_bool_decide; destruct (Z.eqb_spec (uir_PacketID r) 0);
    try (rewrite decide_True by tauto; done).
  rewrite decide_False by tauto. rewrite <- abs_expire, default_abs, expire_core_lookup.
  unfold expire_core.
  destruct (sessionExpired _ _); cbn [fst]; rewrite abs_set_session; [done|].
  unfold abs_session at 1; simpl_session. rewrite incoming_map_upsert, outgoing_upsert by done.
  by destruct (c_Sessions c !! uir_ClientID r).
Qed.

Lemma replace_refines clock c r :
  abs (replaceSessionStateOnCleanStart c r).1 = a_run clock (OpReplace r) (abs c).
Proof.
  unfold replaceSessionStateOnCleanStart, a_run. case_bool_decide; [by rewrite decide_True|].
  rewrite decide_False by done. cbn [fst]. by rewrite abs_set_session.
Qed.

Lemma takeOver_refines clock c o :
  abs (takeOverSessionOwner c o).1 = a_run clock (OpTakeOver o) (abs c).
Proof.
  destruct o as [o|]; [|done]. cbn. case_bool_decide; [by rewrite decide_True|].
  by rewrite decide_False.
Qed.

Lemma saveOffline_refines clock c r :
  abs (saveOfflineState clock c r).1 = a_run clock (OpSaveOffline r) (abs c).
Proof.
  unfold saveOfflineState, a_run. change (abs c).2 with (c_Owners c).
  case_bool_decide as Hid; [by rewrite decide_True by tauto|].
  set (stale := if negb _ then _ else _).
  assert (stale = bool_decide (fenced (c_Owners c) (sor_ClientID r) (sor_OwnerToken r))) as ->.
  { rewrite <- (negb_involutive (bool_decide _)), <- ownerTokenMatches_fenced.
    subst stale. unfold ownerTokenMatches. case_bool_decide; [done|].
    by destruct (c_Owners c !! sor_ClientID r). }
  case_bool_decide as Hf; [by rewrite decide_True by tauto|]. rewrite decide_False by tauto.
  destruct (Z.eqb_spec (sor_SessionExpiryInterval r) 0).
  { rewrite decide_True by done. cbn [fst]. apply abs_delete. }
  rewrite decide_False by done. rewrite default_abs.
  set (s := default _ _). change (match c_Sessions c !! _ with Some _ => _ | None => _ end) with s.
  cbn [set_session c_Owners]. set (s' := mkSession _ _ _ _ _ _).
  assert (alter a_offline (sor_ClientID r) (c_Owners c)
    = match c_Owners c !! sor_ClientID r with
      | Some o => <[sor_ClientID r := a_offline o]> (c_Owners c) | None => c_Owners c end) as ->.
  { apply map_eq. intros k. destruct (decide (k = sor_ClientID r)) as [->|].
    - rewrite lookup_alter_eq. destruct (c_Owners c !! _) eqn:Ho; cbn; by rewrite ?lookup_insert_eq.
    - rewrite lookup_alter_ne by done. destruct (c_Owners c !! sor_ClientID r) eqn:Ho;
        by rewrite ?lookup_insert_ne. }
  assert (abs_session s' = mkASession
    (if sor_ClearWill r then None
     else match sor_WillMessage r with Some w => Some w | None => as_will (abs_session s) end)
    (incoming_map (not_nil (sor_UnfinishedMessages r)) ∪ as_incoming (abs_session s))
    (outgoing (not_nil (sor_UnfinishedMessages r))) (sor_SessionExpiryInterval r)
    (sessionExpiryDeadlineUnixNano (sor_SessionExpiryInterval r)
       (requestNowUnixNano clock (sor_NowUnixNano r))) (sor_OutgoingReplayCursor r)) as <-.
  { subst s'. unfold abs_session at 1; simpl_session. by rewrite incoming_map_merge, outgoing_merge. }
  destruct (c_Owners c !! _); unfold abs; cbn; by rewrite fmap_insert.
Qed.

Lemma removeOutgoing_refines clock c r :
  abs (removeOutgoingUnfinished clock c r).1 = a_run clock (OpRemoveOutgoing r) (abs c).
Proof.
  unfold removeOutgoingUnfinished, a_run.
  case_bool_decide; [by rewrite decide_True by tauto|].
  case_bool_decide; [by rewrite decide_True by tauto|]. rewrite decide_False by tauto.
  rewrite <- abs_expire, <- (abs_alter_session (λ s, set_unfinished
    (filter (λ m, ¬ (um_IsOutgoing m = true ∧ um_MessageID m = ror_MessageID r))
       (ss_UnfinishedMessages s)) s)).
  2:{ intros s _. unfold abs_session; simpl_session. by autorewrite with go. }
  rewrite expire_core_lookup. unfold expire_core.
  destruct (sessionExpired _ _); [done|]. destruct (c_Sessions c !! _) as [s|] eqn:Hs; [|done].
  case_bool_decide as Hl; [|done]. apply nil_length_inv in Hl. rewrite Hl. cbn [fst].
  rewrite abs_set_session. unfold a_store, abs. f_equal. symmetry. apply insert_id.
  rewrite lookup_fmap, Hs. cbn. unfold abs_session; simpl_session. by rewrite Hl.
Qed.

Lemma removeIncoming_refines clock c r :
  abs (removeIncomingUnfinished clock c r).1 = a_run clock (OpRemoveIncoming r) (abs c).
Proof.
  unfold removeIncomingUnfinished, a_run. rewrite ownerTokenMatches_fenced, negb_involutive.
  change (abs c).2 with (c_Owners c).
  repeat case_bool_decide; destruct (Z.eqb_spec (rir_PacketID r) 0);
    try (rewrite decide_True by tauto; done).
  rewrite decide_False by tauto.
  rewrite <- abs_expire, <- (abs_alter_session (λ s, set_unfinished
    (filter (λ m, ¬ (um_IsOutgoing m = false ∧ um_PacketID m = rir_PacketID r))
       (ss_UnfinishedMessages s)) s)).
  2:{ intros s _. unfold abs_session; simpl_session. by autorewrite with go. }
  rewrite expire_core_lookup. unfold expire_core.
  destruct (sessionExpired _ _); [done|]. destruct (c_Sessions c !! _) as [s|] eqn:Hs; [|done].
  case_bool_decide as Hl; [|done]. apply nil_length_inv in Hl. rewrite Hl. cbn [fst].
  rewrite abs_set_session. unfold a_store, abs. f_equal. symmetry. apply insert_id.
  rewrite lookup_fmap, Hs. cbn. unfold abs_session; simpl_session. by rewrite Hl.
Qed.

Lemma commit_refines clock c r :
  abs (commitOutgoingProgress clock c r).1 = a_run clock (OpCommit r) (abs c).
Proof.
  unfold commitOutgoingProgress, a_run. rewrite ownerTokenMatches_fenced, negb_involutive.
  change (abs c).2 with (c_Owners c).
  case_bool_decide; [by rewrite decide_True by tauto|].
  case_bool_decide; [by rewrite decide_True by tauto|]. rewrite decide_False by tauto.
  rewrite <- abs_expire, <- (abs_alter_session (λ s, mkSession (cor_ClientID r) (ss_WillMessage s)
    (mergeOfflineUnfinishedMessages (ss_UnfinishedMessages s) (cor_UnfinishedMessages r))
    (ss_SessionExpiryInterval s) (ss_ExpireAtUnixNano s) (cor_OutgoingReplayCursor r))).
  2:{ intros s _. unfold abs_session; simpl_session. by autorewrite with go. }
  rewrite expire_core_lookup. unfold expire_core.
  destruct (sessionExpired _ _); [done|]. by destruct (c_Sessions c !! _).
Qed.

Lemma deleteExpired_refines clock c now :
  abs (DeleteExpiredSessions clock c now).1 = a_run clock (OpDeleteExpired now) (abs c).
Proof.
  rewrite DeleteExpiredSessions_eq. cbn [fst a_run]. set (n := requestNowUnixNano clock now).
  unfold abs; cbn [fst snd]. f_equal; apply map_eq; intros id;
    destruct (deleteAll_lookup (expired_ids n c) c id) as [H1 H2];
    pose proof (elem_of_expired_ids n c id) as He; rewrite sessionExpired_abs in He;
    rewrite bool_decide_eq_true, abs_lookup in He.
  - rewrite lookup_fmap, H1, map_lookup_filter, lookup_fmap. destruct (decide _) as [Hd|Hd].
    + apply He in Hd. destruct (c_Sessions c !! id); cbn; [|done].
      by rewrite option_guard_False by tauto.
    + destruct (c_Sessions c !! id) as [s|]; [|done]. cbn in *.
      by rewrite option_guard_True by tauto.
  - rewrite H2, map_lookup_filter. destruct (decide _) as [Hd|Hd].
    + apply He in Hd. destruct (c_Owners c !! id); cbn; [|done].
      by rewrite option_guard_False by (rewrite lookup_fmap; tauto).
    + destruct (c_Owners c !! id); [|done]. cbn in *.
      by rewrite option_guard_True by (rewrite lookup_fmap; tauto).
Qed.

Lemma run_op_abs clock op c : abs (run_op clock op c) = a_run clock op (abs c).
Proof.
  destruct op; cbn [run_op];
    [apply open_refines|apply takeOver_refines|apply replace_refines|apply saveOffline_refines
    |apply removeOutgoing_refines|apply commit_refines|apply upsert_refines
    |apply removeIncoming_refines|apply abs_delete|apply deleteExpired_refines].
Qed.

(** C30. Refinement: a session center that executes any sequence of operations, each
    at its own clock reading, starting empty, holds exactly what the abstract
    store holds, in which incoming unfinished messages are a map from packet
    identifiers, a save or commit replaces the outgoing messages and overrides
    incoming ones by packet identifier, expired sessions vanish when touched,
    and fenced requests do nothing. *)
Theorem session_store_refines (ops : list (Z * SessionOp)) :
  abs (foldl (λ c o, run_op o.1 o.2 c) NewCore ops) = foldl (λ a o, a_run o.1 o.2 a) (∅, ∅) ops.
Proof.
  change (∅, ∅) with (abs NewCore). generalize NewCore.
  induction ops as [|o ops IH]; intros c; [done|]. cbn [foldl]. by rewrite IH, run_op_abs.
Qed.

(** Split every branch of a handler. *)
Ltac case_handler :=
  repeat match goal with
  | |- context [match ?x with _ => _ end] =>
      lazymatch x with context [match _ with _ => _ end] => fail | _ => destruct x end
  end; cbn [fst].

(** ** Owner fencing *)

(** The client and the token of the operations that carry a token. *)
Definition op_token (op : SessionOp) : option (string * string) :=
  match op with
  | OpSaveOffline r => Some (sor_ClientID r, sor_OwnerToken r)
  | OpCommit r => Some (cor_ClientID r, cor_OwnerToken r)
  | OpUpsert r => Some (uir_ClientID r, uir_OwnerToken r)
  | OpRemoveIncoming r => Some (rir_ClientID r, rir_OwnerToken r)
  | _ => None
  end.

Lemma fenced_stale c id token :
  fenced (c_Owners c) id token → ownerTokenMatches c id token = false.
Proof. intros Hf. by rewrite ownerTokenMatches_fenced, bool_decide_true. Qed.

Lemma fenced_noop clock op c id token :
  op_token op = Some (id, token) → fenced (c_Owners c) id token → run_op clock op c = c.
Proof.
  destruct op as [| | |r| |r|r|r| |]; try done; intros [= <- <-] Hf; pose proof Hf as Hm;
    apply fenced_stale in Hm; cbn [run_op].
  - unfold saveOfflineState. case_bool_decide; [done|].
    destruct Hf as (Ht & o & -> & Ho). by rewrite !bool_decide_false.
  - unfold commitOutgoingProgress. case_if; [done|]. by rewrite Hm.
  - unfold upsertIncomingUnfinished. rewrite Hm. cbn [negb]. by case_handler.
  - unfold removeIncomingUnfinished. rewrite Hm. cbn [negb]. by case_handler.
Qed.

(** Fencing: once another owner has taken a client over, every write that still
    carries an earlier owner's token (offline save, progress commit, incoming
    upsert and removal) leaves sessions and owners exactly as they are, for as
    long as the ownership entry stays. *)
Theorem stale_owner_writes_ignored clock op (c : Core) (o : SessionOwner) id token :
  ow_ClientID o = id → id ≠ "" → ow_OwnerToken o ≠ token → token ≠ "" →
  op_token op = Some (id, token) →
  let c' := (takeOverSessionOwner c (Some o)).1 in
  run_op clock op c' = c'.
Proof.
  intros Ho Hid Hne Ht Hop c'. apply (fenced_noop _ _ _ _ _ Hop). split; [done|]. exists o.
  split; [|done]. subst c'. unfold takeOverSessionOwner. rewrite Ho, bool_decide_false by done.
  cbn. apply lookup_insert_eq.
Qed.

Lemma stale_owner_writes_ignored_witness :
  let o := mkOwner "c" 2 "new" true in
  let op := OpCommit (mkCommitRequest "c" [] None "old" 5) in
  let c' := (takeOverSessionOwner NewCore (Some o)).1 in
  run_op 7 op c' = c'.
Proof.
  intros o op. apply (stale_owner_writes_ignored 7 op NewCore o "c" "old"); done.
Defined.

(** ** Isolation *)

(** The client an operation addresses; [DeleteExpiredSessions] addresses all. *)
Definition op_client (op : SessionOp) : option string :=
  match op with
  | OpOpen r => Some (osr_ClientID r)
  | OpTakeOver o => Some (match o with Some o => ow_ClientID o | None => "" end)
  | OpReplace r => Some (rsr_ClientID r)
  | OpSaveOffline r => Some (sor_ClientID r)
  | OpRemoveOutgoing r => Some (ror_ClientID r)
  | OpCommit r => Some (cor_ClientID r)
  | OpUpsert r => Some (uir_ClientID r)
  | OpRemoveIncoming r => Some (rir_ClientID r)
  | OpDelete id => Some id
  | OpDeleteExpired _ => None
  end.

(** Two stores that agree on a client. *)
Definition same_client (id : string) (c1 c2 : Core) : Prop :=
  c_Sessions c1 !! id = c_Sessions c2 !! id ∧ c_Owners c1 !! id = c_Owners c2 !! id.

Lemma same_client_refl id c : same_client id c c.
Proof. done. Qed.
Lemma same_client_set_session id k s c c' :
  id ≠ k → same_client id c c' → same_client id (set_session k s c) c'.
Proof. intros Hne [H1 H2]. split; cbn; [|done]. by rewrite lookup_insert_ne. Qed.
Lemma same_client_set_owner id k o c c' :
  id ≠ k → same_client id c c' → same_client id (set_owner k o c) c'.
Proof. intros Hne [H1 H2]. split; cbn; [done|]. by rewrite lookup_insert_ne. Qed.
Lemma same_client_delete id k c c' :
  id ≠ k → same_client id c c' → same_client id (deleteSession k c) c'.
Proof. intros Hne [H1 H2]. split; cbn; by rewrite lookup_delete_ne. Qed.

#[export] Hint Resolve same_client_refl same_client_set_session same_client_set_owner
  same_client_delete : go.

Lemma run_op_same_client clock op c id id' :
  op_client op = Some id → id' ≠ id → same_client id' (run_op clock op c) c.
Proof.
  destruct op as [r|o|r|r|r|r|r|r|k|now]; cbn; intros [= <-] Hne;
    unfold openSessionForConnect, takeOverSessionOwner, replaceSessionStateOnCleanStart,
      saveOfflineState, removeOutgoingUnfinished, commitOutgoingProgress,
      upsertIncomingUnfinished, removeIncomingUnfinished; cbv zeta;
    case_handler; auto with go.
Qed.

Lemma deleteExpired_same_client clock now c id :
  sessionExpired (c_Sessions c !! id) (requestNowUnixNano clock now) = false →
  same_client id (DeleteExpiredSessions clock c now).1 c.
Proof.
  intros He. rewrite DeleteExpiredSessions_eq. cbn [fst].
  destruct (deleteAll_lookup (expired_ids (requestNowUnixNano clock now) c) c id) as [H1 H2].
  rewrite decide_False in H1 by (rewrite elem_of_expired_ids; congruence).
  rewrite decide_False in H2 by (rewrite elem_of_expired_ids; congruence). by split.
Qed.

(** Isolation: an operation changes the session and owner of the client it
    addresses only, and the expiry sweep only those of clients whose session's
    deadline has passed. *)
Theorem session_ops_isolated clock op (c : Core) id :
  match op_client op with
  | Some k => id ≠ k
  | None => ∀ now, op = OpDeleteExpired now →
      sessionExpired (c_Sessions c !! id) (requestNowUnixNano clock now) = false
  end →
  same_client id (run_op clock op c) c.
Proof.
  destruct (op_client op) as [k|] eqn:Hop; intros H.
  - by eapply run_op_same_client.
  - destruct op; try done. apply deleteExpired_same_client. by apply H.
Qed.

Lemma session_ops_isolated_witness :
  let c := (openSessionForConnect 1 NewCore (mkOpenRequest "a" None 10 1)).1 in
  same_client "a" (run_op 9 (OpDelete "b") c) c.
Proof. intros c. apply (session_ops_isolated 9 (OpDelete "b") c "a"). done. Defined.

(** ** Session lifetime *)

Lemma deadline_value interval now :
  is_u32 interval → interval ≠ 0 → interval ≠ neverExpireSessionInterval →
  0 < now → now + interval * 1000000000 < 2 ^ 63 →
  sessionExpiryDeadlineUnixNano interval now = now + interval * 1000000000.
Proof.
  intros Hu H0 Hn Hnow Hlt. unfold sessionExpiryDeadlineUnixNano, is_u32 in *. zcase.
  rewrite (wrap_i64_id (interval * _)) by lia. apply wrap_i64_id. lia.
Qed.

Lemma requestNow_pos clock now : 0 < now → requestNowUnixNano clock now = now.
Proof. intros. unfold requestNowUnixNano. by zcase. Qed.

Lemma saveOffline_session clock c r :
  sor_ClientID r ≠ "" → ¬ fenced (c_Owners c) (sor_ClientID r) (sor_OwnerToken r) →
  sor_SessionExpiryInterval r ≠ 0 →
  ∃ s, c_Sessions (saveOfflineState clock c r).1 !! sor_ClientID r = Some s
    ∧ ss_ExpireAtUnixNano s = sessionExpiryDeadlineUnixNano (sor_SessionExpiryInterval r)
        (requestNowUnixNano clock (sor_NowUnixNano r)).
Proof.
  intros Hid Hf Hi. pose proof (saveOffline_refines clock c r) as Hr.
  apply (f_equal (λ a, a.1 !! sor_ClientID r)) in Hr. cbn [a_run] in Hr.
  change (abs c).2 with (c_Owners c) in Hr. rewrite abs_lookup in Hr.
  rewrite decide_False in Hr by tauto. rewrite decide_False in Hr by done.
  cbn [fst] in Hr. rewrite lookup_insert_eq in Hr.
  destruct (c_Sessions _ !! sor_ClientID r) as [s|]; [|done]. exists s. split; [done|].
  cbn in Hr. by injection Hr.
Qed.

(** When a stored session is visible. *)
Lemma GetSession_live clock c id n s :
  c_Sessions c !! id = Some s → 0 < n →
  GetSession clock c id n
  = if decide (0 < ss_ExpireAtUnixNano s ≤ n) then (None, false) else (Some s, true).
Proof.
  intros Hs Hn. unfold GetSession. rewrite Hs, requestNow_pos by done. cbn.
  destruct (decide _); zcase; try lia; done.
Qed.

Lemma open_old_session clock c r :
  osr_ClientID r ≠ "" → 
  ∃ s, openSessionForConnect clock c r
    = (set_session (osr_ClientID r) s
         (expire_core (requestNowUnixNano clock (osr_NowUnixNano r)) (osr_ClientID r) c),
       Ok (mkOpenResponse (GetSession clock c (osr_ClientID r) (osr_NowUnixNano r)).1
             (GetSession clock c (osr_ClientID r) (osr_NowUnixNano r)).2 s)).
Proof.
  intros Hid. unfold openSessionForConnect, GetSession, expire_core. rewrite bool_decide_false by done.
  cbn [fst snd]. destruct (sessionExpired _ _); eauto.
Qed.

(** Session expiry: a session saved offline at time [t] with expiry interval [i]
    seconds is given back, by a query or by the next CONNECT of the client, at
    every time before [t + i] seconds and at no later time; with the interval
    0xFFFFFFFF it is given back at any time. *)
Theorem offline_session_lifetime clock (c : Core) (r : SaveOfflineStateRequest) t i :
  sor_ClientID r ≠ "" → ¬ fenced (c_Owners c) (sor_ClientID r) (sor_OwnerToken r) →
  sor_NowUnixNano r = t → sor_SessionExpiryInterval r = i →
  is_u32 i → i ≠ 0 → 0 < t → t + i * 1000000000 < 2 ^ 63 →
  let c' := (saveOfflineState clock c r).1 in
  ∃ s, c_Sessions c' !! sor_ClientID r = Some s ∧
  ∀ clock' n will ival, 0 < n →
  let found := if decide (i = neverExpireSessionInterval ∨ n < t + i * 1000000000)
               then Some s else None in
  GetSession clock' c' (sor_ClientID r) n = (found, bool_decide (is_Some found)) ∧
  ∃ s', (openSessionForConnect clock' c' (mkOpenRequest (sor_ClientID r) will ival n)).2
        = Ok (mkOpenResponse found (bool_decide (is_Some found)) s').
Proof.
  intros Hid Hf Ht Hi Hu H0 Htp Hlt c'. subst c'.
  destruct (saveOffline_session clock c r) as (s & Hs & He); [done..|congruence|].
  exists s. split; [done|]. intros clock' n will ival Hn found. rewrite Ht, Hi, requestNow_pos in He by done.
  assert (GetSession clock' (saveOfflineState clock c r).1 (sor_ClientID r) n
          = (found, bool_decide (is_Some found))) as HG.
  { rewrite (GetSession_live _ _ _ _ s) by done. rewrite He. subst found.
    destruct (decide (i = neverExpireSessionInterval)) as [->|Hne].
    - change (sessionExpiryDeadlineUnixNano neverExpireSessionInterval t) with 0.
      rewrite (decide_False (P := 0 < 0 ≤ n)) by lia. by rewrite decide_True by (by left).
    - rewrite deadline_value by done. unfold is_u32 in Hu.
      destruct (decide (n < t + i * 1000000000)).
      + rewrite (decide_False (P := 0 < _ ≤ n)) by lia. by rewrite decide_True by (by right).
      + rewrite (decide_True (P := 0 < _ ≤ n)) by lia. by rewrite decide_False by tauto. }
  split; [done|]. destruct (open_old_session clock' (saveOfflineState clock c r).1
    (mkOpenRequest (sor_ClientID r) will ival n)) as [s' ->]; [done|].
  exists s'. cbn [snd osr_ClientID osr_NowUnixNano]. by rewrite HG.
Qed.

Lemma offline_session_lifetime_witness :
  let r := mkSaveOfflineRequest "c" [] None false 60 1000 "" None in
  let c' := (saveOfflineState 0 NewCore r).1 in
  ∃ s, c_Sessions c' !! "c" = Some s ∧
  ∀ clock' n will ival, 0 < n →
  let found := if decide (60 = neverExpireSessionInterval ∨ n < 1000 + 60 * 1000000000)
               then Some s else None in
  GetSession clock' c' "c" n = (found, bool_decide (is_Some found)) ∧
  ∃ s', (openSessionForConnect clock' c' (mkOpenRequest "c" will ival n)).2
        = Ok (mkOpenResponse found (bool_decide (is_Some found)) s').
Proof.
  intros r. apply (offline_session_lifetime 0 NewCore r 1000 60); try done.
  intros (? & ? & ? & ?). done.
Defined.

(** The expiry sweep: it reports each client whose session has expired once and no
    other, removes their sessions and owners, and cannot be noticed through
    [GetSession] at any later time. *)
Theorem DeleteExpiredSessions_exact clock (c : Core) now :
  let n := requestNowUnixNano clock now in
  let '(c', deleted) := DeleteExpiredSessions clock c now in
  NoDup deleted ∧
  (∀ id, id ∈ deleted ↔ sessionExpired (c_Sessions c !! id) n = true) ∧
  (∀ id, id ∈ deleted → c_Sessions c' !! id = None ∧ c_Owners c' !! id = None) ∧
  (∀ id, id ∉ deleted → same_client id c' c) ∧
  (∀ clock' id n', n ≤ requestNowUnixNano clock' n' →
     GetSession clock' c' id n' = GetSession clock' c id n').
Proof.
  intros n. rewrite DeleteExpiredSessions_eq. fold n. split_and!.
  - unfold expired_ids. apply (sublist_NoDup _ (map_to_list (c_Sessions c)).*1);
      [apply NoDup_fst_map_to_list|apply fmap_sublist, sublist_filter].
  - intros id. apply elem_of_expired_ids.
  - intros id Hid. destruct (deleteAll_lookup (expired_ids n c) c id) as [H1 H2].
    rewrite decide_True in H1 by done. by rewrite decide_True in H2.
  - intros id Hid. destruct (deleteAll_lookup (expired_ids n c) c id) as [H1 H2].
    rewrite decide_False in H1 by done. rewrite decide_False in H2 by done. by split.
  - intros clock' id n' Hn. destruct (deleteAll_lookup (expired_ids n c) c id) as [H1 _].
    unfold GetSession. rewrite H1. destruct (decide _) as [Hd|Hd]; [|done].
    apply elem_of_expired_ids in Hd. destruct (c_Sessions c !! id) as [s|]; [|done]. cbn in *.
    destruct (0 <? ss_ExpireAtUnixNano s); [|done]. cbn in *.
    apply Z.leb_le in Hd. by rewrite (proj2 (Z.leb_le _ _)) by lia.
Qed.

(** ** Invariant *)

Definition incoming_ids (l : list UnfinishedMessage) : list Z := um_PacketID <$> incoming l.

Record session_ok (id : string) (s : Session) : Prop := {
  so_id : ss_ClientID s = id ∧ id ≠ "";
  so_incoming : NoDup (incoming_ids (ss_UnfinishedMessages s));
  so_deadline : ss_ExpireAtUnixNano s ≠ 0 →
    ss_SessionExpiryInterval s ≠ 0 ∧ ss_SessionExpiryInterval s ≠ neverExpireSessionInterval }.

Record core_ok (c : Core) : Prop := {
  co_sessions : map_Forall session_ok (c_Sessions c);
  co_owners : map_Forall (λ id o, ow_ClientID o = id ∧ id ≠ "") (c_Owners c) }.

(** Requests never name an incoming packet identifier twice. *)
Definition op_ok (op : SessionOp) : Prop :=
  match op with
  | OpSaveOffline r => NoDup (incoming_ids (not_nil (sor_UnfinishedMessages r)))
  | OpCommit r => NoDup (incoming_ids (not_nil (cor_UnfinishedMessages r)))
  | _ => True
  end.

Lemma incoming_ids_filter (P : UnfinishedMessage → Prop) `{!∀ m, Decision (P m)} l :
  NoDup (incoming_ids l) → NoDup (incoming_ids (filter P l)).
Proof.
  intros Hnd. apply (sublist_NoDup _ _ Hnd). apply fmap_sublist.
  unfold incoming. induction l as [|m l IH]; [done|]. rewrite !(filter_cons _ m).
  destruct (decide (P m)); [rewrite (filter_cons _ m)|]; destruct (decide (um_IsOutgoing m = false));
    try (apply sublist_skip || apply sublist_cons); apply IH; unfold incoming_ids, incoming in Hnd;
    rewrite filter_cons in Hnd; case_decide; try done; cbn in Hnd; by apply NoDup_cons in Hnd as [_ ?].
Qed.

Lemma elem_of_incoming_ids l p : p ∈ incoming_ids l ↔ is_Some (incoming_map l !! p).
Proof.
  unfold incoming_ids, incoming_map. rewrite <- elem_of_dom, dom_list_to_map_L, elem_of_list_to_set.
  by rewrite <- list_fmap_compose.
Qed.

Lemma incoming_ids_app l1 l2 :
  NoDup (incoming_ids l1) → NoDup (incoming_ids l2) →
  (∀ p, incoming_map l1 !! p = None ∨ incoming_map l2 !! p = None) →
  NoDup (incoming_ids (l1 ++ l2)).
Proof.
  intros H1 H2 Hd. unfold incoming_ids, incoming. rewrite filter_app, fmap_app.
  apply NoDup_app. split_and!; [done| |done]. intros p Hp1 Hp2.
  apply elem_of_incoming_ids in Hp1 as [? Hp1], Hp2 as [? Hp2].
  destruct (Hd p); congruence.
Qed.

Lemma incoming_ids_merge existing offline :
  NoDup (incoming_ids existing) → NoDup (incoming_ids (not_nil offline)) →
  NoDup (incoming_ids (mergeOfflineUnfinishedMessages existing offline)).
Proof.
  intros He Ho. apply incoming_ids_app; [by apply incoming_ids_filter|done|]. intros p.
  destruct (incoming_map (not_nil offline) !! p) eqn:Hp; [left|by right].
  apply incoming_map_filter_None. intros m _ <- [_ Hn]. apply Hn, offlineIncoming_spec. eauto.
Qed.

Lemma incoming_ids_upsert l m :
  um_IsOutgoing m = false → NoDup (incoming_ids l) →
  NoDup (incoming_ids (upsertIncomingUnfinishedMessage l m)).
Proof.
  intros Hm Hl. apply incoming_ids_app; [by apply incoming_ids_filter| |].
  - unfold incoming_ids, incoming. rewrite filter_cons_True by done. apply NoDup_singleton.
  - intros p. destruct (decide (p = um_PacketID m)) as [->|Hp].
    + left. apply incoming_map_filter_None. naive_solver.
    + right. rewrite lookup_incoming_map, filter_none; [done|].
      intros x ->%list_elem_of_singleton. naive_solver.
Qed.

Lemma deadline_zero interval now :
  sessionExpiryDeadlineUnixNano interval now ≠ 0 →
  interval ≠ 0 ∧ interval ≠ neverExpireSessionInterval.
Proof. unfold sessionExpiryDeadlineUnixNano. zcase; cbn; naive_solver. Qed.

Lemma session_ok_new id will l interval cursor :
  id ≠ "" → NoDup (incoming_ids l) → session_ok id (mkSession id will l interval 0 cursor).
Proof. by split. Qed.

Lemma session_ok_lookup c id s : core_ok c → c_Sessions c !! id = Some s → session_ok id s.
Proof. intros [Hs _] ?. by apply Hs. Qed.

Lemma core_ok_set_session id s c : session_ok id s → core_ok c → core_ok (set_session id s c).
Proof. intros Hs [H1 H2]. split; [|done]. by apply map_Forall_insert_2. Qed.

Lemma core_ok_set_owner id o c :
  ow_ClientID o = id → id ≠ "" → core_ok c → core_ok (set_owner id o c).
Proof. intros Ho Hid [H1 H2]. split; [done|]. by apply map_Forall_insert_2. Qed.

Lemma core_ok_delete id c : core_ok c → core_ok (deleteSession id c).
Proof. intros [H1 H2]. split; by apply map_Forall_delete. Qed.

Lemma core_ok_deleteAll ids c : core_ok c → core_ok (deleteAll ids c).
Proof.
  revert c. induction ids as [|id ids IH]; intros c Hc; [done|].
  apply (IH (deleteSession id c)), core_ok_delete, Hc.
Qed.

#[export] Hint Resolve core_ok_set_session core_ok_set_owner core_ok_delete session_ok_new
  incoming_ids_merge incoming_ids_upsert incoming_ids_filter so_incoming session_ok_lookup : go.

Lemma session_ok_update id will l interval deadline cursor :
  id ≠ "" → NoDup (incoming_ids l) →
  (deadline ≠ 0 → interval ≠ 0 ∧ interval ≠ neverExpireSessionInterval) →
  session_ok id (mkSession id will l interval deadline cursor).
Proof. by split. Qed.

Lemma session_ok_set_unfinished id s l :
  session_ok id s → NoDup (incoming_ids l) → session_ok id (set_unfinished l s).
Proof. intros [? ? ?] ?. by split. Qed.

Lemma session_ok_default c id :
  core_ok c → id ≠ "" →
  session_ok id (match c_Sessions c !! id with
                 | Some s => s | None => mkSession id None [] 0 0 None end).
Proof.
  intros Hc Hid. destruct (c_Sessions c !! id) eqn:Hs; [by eapply session_ok_lookup|].
  apply session_ok_new; [done|constructor].
Qed.

Lemma run_op_ok clock op c : op_ok op → core_ok c → core_ok (run_op clock op c).
Proof.
  intros Ho Hc. destruct op as [r|o|r|r|r|r|r|r|k|now]; cbn [run_op].
  - unfold openSessionForConnect. case_bool_decide as Hid; [done|].
    pose proof (session_ok_default c _ Hc Hid) as Hs. destruct (sessionExpired _ _); cbn.
    + apply core_ok_set_session; [apply session_ok_new; [done|constructor]|auto with go].
    + apply core_ok_set_session; [|done]. apply session_ok_new; [done|].
      by destruct (c_Sessions c !! _); [apply (so_incoming _ _ Hs)|constructor].
  - destruct o as [o|]; [|done]. cbn. case_bool_decide; [done|]. by apply core_ok_set_owner.
  - unfold replaceSessionStateOnCleanStart. case_bool_decide; [done|]. cbn.
    apply core_ok_set_session; [apply session_ok_new; [done|constructor]|done].
  - unfold saveOfflineState. case_bool_decide as Hid; [done|].
    pose proof (session_ok_default c _ Hc Hid) as Hs.
    match goal with |- core_ok (if ?st then _ else _).1 => destruct st; [done|] end.
    case_if; [cbn; auto with go|].
    match goal with |- context [set_session _ ?s' _] => assert (session_ok (sor_ClientID r) s') as Hs' end.
    { apply session_ok_update; [done| |apply deadline_zero].
      apply incoming_ids_merge; [apply (so_incoming _ _ Hs)|done]. }
    destruct (c_Owners _ !! _) as [o|] eqn:Hlo; cbn; auto with go.
    apply core_ok_set_owner; [|done|auto with go]. by apply Hc in Hlo as [? _].
  - unfold removeOutgoingUnfinished. repeat (case_bool_decide; [done|]).
    destruct (sessionExpired _ _); [cbn; auto with go|].
    destruct (c_Sessions c !! _) as [s|] eqn:Hs; [|done]. case_bool_decide; [done|]. cbn [fst].
    eauto 7 using session_ok_set_unfinished with go.
  - unfold commitOutgoingProgress. case_bool_decide; [done|]. case_if; [done|].
    destruct (sessionExpired _ _); [cbn; auto with go|].
    destruct (c_Sessions c !! _) as [s|] eqn:Hs; [|done]. cbn [fst].
    pose proof (session_ok_lookup _ _ _ Hc Hs) as [? Hnd Hd].
    apply core_ok_set_session; [|done]. apply session_ok_update; [done| |done].
    by apply incoming_ids_merge.
  - unfold upsertIncomingUnfinished. case_bool_decide as Hid; [done|].
    destruct (_ =? 0); [done|]. destruct (uir_UnfinishedMessage r); [|done].
    destruct (negb _); [done|]. pose proof (session_ok_default c _ Hc Hid) as Hs.
    destruct (sessionExpired _ _); cbn [fst].
    + apply core_ok_set_session; [|auto with go]. apply session_ok_new; [done|].
      apply incoming_ids_upsert; [done|constructor].
    + apply core_ok_set_session; [|done]. destruct Hs as [? Hnd Hd].
      apply session_ok_update; [done| |done]. by apply incoming_ids_upsert.
  - unfold removeIncomingUnfinished. case_bool_decide; [done|].
    destruct (_ =? 0); [done|]. destruct (negb _); [done|].
    destruct (sessionExpired _ _); [cbn; auto with go|].
    destruct (c_Sessions c !! _) as [s|] eqn:Hs; [|done]. case_bool_decide; [done|]. cbn [fst].
    eauto 7 using session_ok_set_unfinished with go.
  - auto with go.
  - rewrite DeleteExpiredSessions_eq. by apply core_ok_deleteAll.
Qed.

(** States reached from the empty center, each operation at its own clock reading. *)
Inductive reachable : Core → Prop :=
| reach_init : reachable NewCore
| reach_step clock op c : reachable c → op_ok op → reachable (run_op clock op c).

(** Invariant of every reachable session center: sessions and owners are filed under
    their own non-empty client identifier, a session holds at most one incoming
    unfinished message per packet identifier, and only sessions with a finite
    expiry interval have a deadline. *)
Theorem session_reachable_ok (c : Core) : reachable c → core_ok c.
Proof.
  induction 1; [split; apply map_Forall_empty|]. by apply run_op_ok.
Qed.

Lemma session_reachable_ok_witness :
  core_ok (run_op 3 (OpUpsert (mkUpsertRequest "c" 7
    (Some (mkUnfinished "m" 0 0 WAITING_PUBACK None true 0 [] 0)) "" 0)) NewCore).
Proof.
  apply session_reachable_ok, reach_step; [apply reach_init|exact I].
Defined.

(** ** What keeps an incoming QoS 2 message *)

(** The unfinished incoming message stored for a client and packet identifier. *)
Definition incoming_of (c : Core) (id : string) (pid : Z) : option UnfinishedMessage :=
  s ← c_Sessions c !! id; incoming_map (ss_UnfinishedMessages s) !! pid.

(** The operations that discard the entry of client [id] and packet [pid]: a
    clean start, a deletion, a disconnect that ends the session, the removal
    itself, and any operation that finds the session expired, unless it is the
    upsert of that very packet. *)
Definition discards (clock : Z) (c : Core) (op : SessionOp) (id : string) (pid : Z) : Prop :=
  let expired now := sessionExpired (c_Sessions c !! id) (requestNowUnixNano clock now) = true in
  match op with
  | OpOpen r => osr_ClientID r = id ∧ expired (osr_NowUnixNano r)
  | OpTakeOver _ => False
  | OpReplace r => rsr_ClientID r = id
  | OpSaveOffline r => sor_ClientID r = id ∧ sor_SessionExpiryInterval r = 0
      ∧ ¬ fenced (c_Owners c) id (sor_OwnerToken r)
  | OpRemoveOutgoing r => ror_ClientID r = id ∧ ror_MessageID r ≠ "" ∧ expired (ror_NowUnixNano r)
  | OpCommit r => cor_ClientID r = id ∧ ¬ fenced (c_Owners c) id (cor_OwnerToken r)
      ∧ expired (cor_NowUnixNano r)
  | OpUpsert r => uir_ClientID r = id ∧ uir_PacketID r ≠ 0 ∧ is_Some (uir_UnfinishedMessage r)
      ∧ ¬ fenced (c_Owners c) id (uir_OwnerToken r) ∧ expired (uir_NowUnixNano r)
      ∧ uir_PacketID r ≠ pid
  | OpRemoveIncoming r => rir_ClientID r = id ∧ rir_PacketID r ≠ 0
      ∧ ¬ fenced (c_Owners c) id (rir_OwnerToken r)
      ∧ (rir_PacketID r = pid ∨ expired (rir_NowUnixNano r))
  | OpDelete k => k = id
  | OpDeleteExpired now => expired now
  end.

Definition a_incoming_of (a : AStore) (id : string) (pid : Z) : option UnfinishedMessage :=
  s ← a.1 !! id; as_incoming s !! pid.

Lemma incoming_of_abs c id pid : incoming_of c id pid = a_incoming_of (abs c) id pid.
Proof. unfold incoming_of, a_incoming_of. rewrite abs_lookup. by destruct (c_Sessions c !! id). Qed.

Lemma a_incoming_other a a' id pid :
  a'.1 !! id = a.1 !! id → a_incoming_of a' id pid = a_incoming_of a id pid.
Proof. unfold a_incoming_of. by intros ->. Qed.

Lemma a_incoming_delete a id pid : a_incoming_of (a_delete id a) id pid = None.
Proof. unfold a_incoming_of. cbn. by rewrite lookup_delete_eq. Qed.

Lemma a_incoming_store a id s pid : a_incoming_of (a_store id s a) id pid = as_incoming s !! pid.
Proof. unfold a_incoming_of. cbn. by rewrite lookup_insert_eq. Qed.

Lemma a_incoming_alter f m o id pid :
  a_incoming_of (alter f id m, o) id pid = s ← m !! id; as_incoming (f s) !! pid.
Proof. unfold a_incoming_of. cbn. rewrite lookup_alter_eq. by destruct (m !! id). Qed.

Lemma a_expire_yes now id a : a_expired_opt now (a.1 !! id) → a_expire now id a = a_delete id a.
Proof. intros. unfold a_expire. by rewrite decide_True. Qed.
Lemma a_expire_no now id a : ¬ a_expired_opt now (a.1 !! id) → a_expire now id a = a.
Proof. intros. unfold a_expire. by rewrite decide_False. Qed.

Lemma is_Some_None_iff {A} (P : Prop) : P → (is_Some (@None A) ↔ ¬ P).
Proof. intros HP. split; [by intros [? ?]|done]. Qed.
Lemma is_Some_Some_iff {A} (x : A) (P : Prop) : ¬ P → (is_Some (Some x) ↔ ¬ P).
Proof. intros HP. split; [done|eauto]. Qed.

Ltac not_discarded :=
  apply is_Some_Some_iff; intros ?; destruct_and?; simplify_eq; tauto.

Section kept.
Context (clock : Z) (c : Core) (id : string) (pid : Z) (s : ASession) (m : UnfinishedMessage).
Hypothesis Hid : id ≠ "".
Hypothesis Hs : (abs c).1 !! id = Some s.
Hypothesis Hm : as_incoming s !! pid = Some m.

Definition kept_by (op : SessionOp) : Prop :=
  is_Some (a_incoming_of (a_run clock op (abs c)) id pid) ↔ ¬ discards clock c op id pid.

Lemma expired_iff now :
  sessionExpired (c_Sessions c !! id) now = true ↔ a_expired_opt now ((abs c).1 !! id).
Proof. rewrite sessionExpired_abs. apply bool_decide_eq_true. Qed.

Lemma kept_same : a_incoming_of (abs c) id pid = Some m.
Proof. unfold a_incoming_of. by rewrite Hs. Qed.

Lemma kept_upsert r : kept_by (OpUpsert r).
Proof.
  unfold kept_by, discards. cbn [a_run]. change (abs c).2 with (c_Owners c). rewrite expired_iff.
  destruct (uir_UnfinishedMessage r) as [u|].
  2:{ rewrite kept_same. apply is_Some_Some_iff. intros (? & ? & [? ?] & ?). done. }
  case_decide as Hd. { rewrite kept_same. not_discarded. }
  destruct (decide (uir_ClientID r = id)) as [<-|Hne].
  2:{ rewrite (a_incoming_other (abs c)), kept_same; [not_discarded|].
      cbn. rewrite lookup_insert_ne by done. unfold a_expire. case_decide; [|done].
      cbn. by rewrite lookup_delete_ne. }
  rewrite a_incoming_store. cbn [as_incoming].
  destruct (decide (uir_PacketID r = pid)) as [->|Hp].
  { rewrite lookup_insert_eq. not_discarded. }
  rewrite lookup_insert_ne by done.
  destruct (decide (a_expired_opt (requestNowUnixNano clock (uir_NowUnixNano r))
                      ((abs c).1 !! uir_ClientID r))) as [He|He].
  - rewrite a_expire_yes by done. cbn. rewrite lookup_delete_eq. cbn. rewrite lookup_empty.
    apply is_Some_None_iff. intuition eauto.
  - rewrite a_expire_no by done. rewrite Hs in He |- *. cbn. rewrite Hm. not_discarded.
Qed.

Lemma kept_open r : kept_by (OpOpen r).
Proof.
  unfold kept_by, discards. cbn [a_run]. rewrite expired_iff.
  case_decide as Hd. { rewrite kept_same. not_discarded. }
  destruct (decide (osr_ClientID r = id)) as [<-|Hne].
  2:{ rewrite (a_incoming_other (abs c)), kept_same; [not_discarded|].
      cbn. rewrite lookup_insert_ne by done. unfold a_expire. case_decide; [|done].
      cbn. by rewrite lookup_delete_ne. }
  rewrite a_incoming_store. cbn [as_incoming].
  destruct (decide (a_expired_opt (requestNowUnixNano clock (osr_NowUnixNano r))
                      ((abs c).1 !! osr_ClientID r))) as [He|He].
  - rewrite a_expire_yes by done. cbn. rewrite lookup_delete_eq. cbn. rewrite lookup_empty.
    apply is_Some_None_iff. intuition eauto.
  - rewrite a_expire_no by done. rewrite Hs in He |- *. cbn. rewrite Hm. not_discarded.
Qed.

Lemma kept_save r : kept_by (OpSaveOffline r).
Proof.
  unfold kept_by, discards. cbn [a_run]. change (abs c).2 with (c_Owners c).
  case_decide as Hd. { rewrite kept_same. not_discarded. }
  destruct (decide (sor_ClientID r = id)) as [<-|Hne].
  2:{ rewrite (a_incoming_other (abs c)), kept_same; [not_discarded|].
      case_decide; cbn; [by rewrite lookup_delete_ne|by rewrite lookup_insert_ne]. }
  case_decide as Hi.
  - rewrite a_incoming_delete. apply is_Some_None_iff. intuition eauto.
  - unfold a_incoming_of. cbn [fst]. rewrite lookup_insert_eq, Hs. cbn.
    rewrite lookup_union, Hm. destruct (incoming_map _ !! pid); cbn;
      not_discarded.
Qed.

(** Operations that touch the session, if it is there, after dropping it if expired. *)
Lemma kept_alter f now id' (P : Prop) :
  (∀ s, id' = id → is_Some (as_incoming s !! pid) → is_Some (as_incoming (f s) !! pid) ↔ ¬ P) →
  is_Some (a_incoming_of (alter f id' (a_expire now id' (abs c)).1, (a_expire now id' (abs c)).2) id pid)
  ↔ ¬ (id' = id ∧ (P ∨ a_expired_opt now ((abs c).1 !! id))).
Proof.
  intros Hf. destruct (decide (id' = id)) as [->|Hne].
  - rewrite a_incoming_alter.
    destruct (decide (a_expired_opt now ((abs c).1 !! id))) as [He|He].
    + rewrite a_expire_yes by done. cbn. rewrite lookup_delete_eq. apply is_Some_None_iff. intuition eauto.
    + rewrite a_expire_no by done. rewrite Hs. cbn. rewrite Hf by eauto. rewrite Hs in He. tauto.
  - rewrite (a_incoming_other (abs c)), kept_same; [not_discarded|].
    cbn. rewrite lookup_alter_ne by done. unfold a_expire. case_decide; [|done].
    cbn. by rewrite lookup_delete_ne.
Qed.

Lemma kept_removeIncoming r : kept_by (OpRemoveIncoming r).
Proof.
  unfold kept_by, discards. cbn [a_run]. change (abs c).2 with (c_Owners c). rewrite expired_iff.
  case_decide as Hd. { rewrite kept_same. not_discarded. }
  rewrite (kept_alter _ _ _ (rir_PacketID r = pid));
    [destruct (decide (rir_ClientID r = id)) as [<-|]; tauto|].
  intros s' _ [m' Hm']. cbn [as_incoming]. destruct (decide (rir_PacketID r = pid)) as [->|Hp].
  - rewrite lookup_delete_eq. by apply is_Some_None_iff.
  - rewrite lookup_delete_ne, Hm' by done. by apply is_Some_Some_iff.
Qed.

Lemma kept_commit r : kept_by (OpCommit r).
Proof.
  unfold kept_by, discards. cbn [a_run]. change (abs c).2 with (c_Owners c). rewrite expired_iff.
  case_decide as Hd. { rewrite kept_same. not_discarded. }
  rewrite (kept_alter _ _ _ False); [destruct (decide (cor_ClientID r = id)) as [<-|]; tauto|].
  intros s' _ [m' Hm']. cbn [as_incoming]. rewrite lookup_union, Hm'.
  destruct (incoming_map _ !! pid); cbn; not_discarded.
Qed.

Lemma kept_removeOutgoing r : kept_by (OpRemoveOutgoing r).
Proof.
  unfold kept_by, discards. cbn [a_run]. rewrite expired_iff.
  case_decide as Hd. { rewrite kept_same. not_discarded. }
  rewrite (kept_alter _ _ _ False); [destruct (decide (ror_ClientID r = id)) as [<-|]; tauto|].
  intros s' _ [m' Hm']. cbn [as_incoming]. rewrite Hm'. not_discarded.
Qed.

Lemma kept_others op :
  match op with OpTakeOver _ | OpReplace _ | OpDelete _ | OpDeleteExpired _ => True | _ => False end →
  kept_by op.
Proof.
  destruct op as [|o|r| | | | | |k|now]; try done; intros _; unfold kept_by, discards; cbn [a_run].
  - rewrite (a_incoming_other (abs c)), kept_same; [not_discarded|].
    destruct o; [|done]. by case_decide.
  - destruct (decide (rsr_ClientID r = id)) as [<-|Hne].
    + rewrite decide_False by done. rewrite a_incoming_store. cbn. rewrite lookup_empty.
      by apply is_Some_None_iff.
    + rewrite (a_incoming_other (abs c)), kept_same; [not_discarded|].
      case_decide; [done|]. cbn. by rewrite lookup_insert_ne.
  - destruct (decide (k = id)) as [->|Hne].
    + rewrite a_incoming_delete. by apply is_Some_None_iff.
    + rewrite (a_incoming_other (abs c)), kept_same; [not_discarded|].
      cbn. by rewrite lookup_delete_ne.
  - rewrite expired_iff. unfold a_incoming_of. cbn [fst]. rewrite map_lookup_filter, Hs. cbn.
    destruct (decide (a_expired (requestNowUnixNano clock now) s)) as [He|He].
    + rewrite option_guard_False by tauto. by apply is_Some_None_iff.
    + rewrite option_guard_True by done. cbn. rewrite Hm. not_discarded.
Qed.
End kept.

(** An incoming QoS 2 message that waits for its PUBREL stays recorded, across
    reconnects, offline saves and progress commits, exactly until an operation
    that is meant to discard it: its own removal, a clean start, a deletion, the
    end of the session or its expiry. *)
Theorem incoming_unfinished_kept clock op (c : Core) id pid :
  id ≠ "" → is_Some (incoming_of c id pid) →
  is_Some (incoming_of (run_op clock op c) id pid) ↔ ¬ discards clock c op id pid.
Proof.
  intros Hid [m Hm]. rewrite incoming_of_abs in Hm |- *. rewrite run_op_abs.
  unfold a_incoming_of in Hm. destruct ((abs c).1 !! id) as [s|] eqn:Hs; [|done]. cbn in Hm.
  fold (kept_by clock c id pid op).
  destruct op;
    eauto using kept_open, kept_save, kept_removeOutgoing, kept_commit, kept_upsert,
      kept_removeIncoming, kept_others.
Qed.

Lemma incoming_unfinished_kept_witness :
  let m := mkUnfinished "m" 7 2 WAITING_PUBREL None false 0 [] 0 in
  let c := mkCore {["c" := mkSession "c" None [m] 60 0 None]} ∅ in
  is_Some (incoming_of (run_op 5 (OpRemoveIncoming (mkRemoveIncomingRequest "c" 8 "" 5)) c) "c" 7)
  ↔ ¬ discards 5 c (OpRemoveIncoming (mkRemoveIncomingRequest "c" 8 "" 5)) "c" 7.
Proof.
  intros m c. apply incoming_unfinished_kept; [done|]. exists m. vm_compute. reflexivity.
Defined.
