(* ===== verification/SessionSM.v ===== *)
(** * The session center as a replicated state machine

    [src/internal/broker/sessioncenter/statemachine]: requests are decoded,
    checked by [ValidateUpdate] before they are logged, and applied by
    [Update]; [EncodeRequest] builds them.  The protobuf encodings are the
    fields of [SessionProto].  The state machine is an instance of the
    interface of [WalEngine], and its updates do not depend on the replica's
    clock when they carry their own time. *)

From S2P Require Import Prelude GoStrings WalEngine WalEngineProofs SessionCore SessionCoreProofs.

(** ** Messages *)

Record SessionRequest := mkSessionRequest {
  srq_RequestID : string;
  srq_Type : Z;
  srq_Data : list byte;
  srq_Time : Z;
  srq_ClientID : string;
  srq_RequestNodeID : Z }.

Definition OPEN_SESSION_FOR_CONNECT : Z := 0.
Definition TAKE_OVER_SESSION_OWNER : Z := 1.
Definition REPLACE_SESSION_STATE_ON_CLEAN_START : Z := 2.
Definition SAVE_OFFLINE_STATE : Z := 3.
Definition DELETE_SESSION : Z := 4.
Definition REMOVE_OUTGOING_UNFINISHED : Z := 5.
Definition DELETE_EXPIRED_SESSIONS : Z := 6.
Definition UPSERT_INCOMING_UNFINISHED : Z := 7.
Definition REMOVE_INCOMING_UNFINISHED : Z := 8.
Definition COMMIT_OUTGOING_PROGRESS : Z := 9.

(** [proto.Marshal] and [proto.Unmarshal] of each message type.  A decoded
    take-over request is its optional [Owner] field. *)
Record SessionProto (E Snap : Type) := {
  marshalRequest : SessionRequest → result E (list byte);
  unmarshalRequest : list byte → result E SessionRequest;
  unmarshalOpen : list byte → result E OpenSessionForConnectRequest;
  unmarshalTakeOver : list byte → result E (option SessionOwner);
  unmarshalReplace : list byte → result E ReplaceSessionStateOnCleanStartRequest;
  unmarshalDelete : list byte → result E string;
  unmarshalDeleteExpired : list byte → result E Z;
  unmarshalSaveOffline : list byte → result E SaveOfflineStateRequest;
  unmarshalRemoveOutgoing : list byte → result E RemoveOutgoingUnfinishedRequest;
  unmarshalUpsert : list byte → result E UpsertIncomingUnfinishedRequest;
  unmarshalRemoveIncoming : list byte → result E RemoveIncomingUnfinishedRequest;
  unmarshalCommit : list byte → result E CommitOutgoingProgressRequest;
  marshalOpenResponse : OpenSessionForConnectResponse → result E (list byte);
  marshalTakeOverResponse : TakeOverSessionOwnerResponse → result E (list byte);
  marshalDeleteExpiredResponse : list string → result E (list byte);
  marshalClusterSessions : Core → result E Snap;
  unmarshalClusterSessions : Snap → Core * option E }.
Arguments marshalRequest {E Snap}. Arguments unmarshalRequest {E Snap}.
Arguments unmarshalOpen {E Snap}. Arguments unmarshalTakeOver {E Snap}.
Arguments unmarshalReplace {E Snap}. Arguments unmarshalDelete {E Snap}.
Arguments unmarshalDeleteExpired {E Snap}. Arguments unmarshalSaveOffline {E Snap}.
Arguments unmarshalRemoveOutgoing {E Snap}. Arguments unmarshalUpsert {E Snap}.
Arguments unmarshalRemoveIncoming {E Snap}. Arguments unmarshalCommit {E Snap}.
Arguments marshalOpenResponse {E Snap}. Arguments marshalTakeOverResponse {E Snap}.
Arguments marshalDeleteExpiredResponse {E Snap}.
Arguments marshalClusterSessions {E Snap}. Arguments unmarshalClusterSessions {E Snap}.

Inductive SessionSMError (E : Type) :=
| SProtoError (e : E)
| SMarshalError (what : string) (e : E)
| SInvalidType (type : Z)
| SBusinessError (msg : string).
Arguments SProtoError {E}. Arguments SMarshalError {E}.
Arguments SInvalidType {E}. Arguments SBusinessError {E}.

Definition decoded_ok {E A} (r : result E A) : result (SessionSMError E) unit :=
  match r with Ok _ => Ok tt | Err e => Err (SProtoError e) end.

Section state_machine.
Context {E Snap : Type} (P : SessionProto E Snap).

(** [EncodeRequest]: [data] is the marshalled message. *)
Definition EncodeRequest (t : Z) (clientID : string) (requestNodeID : Z)
    (data : result E (list byte)) : result E (list byte) :=
  data ← data;
  marshalRequest P (mkSessionRequest "" t data 0 clientID requestNodeID).

Definition ValidateUpdate (bytes : list byte) : result (SessionSMError E) unit :=
  match unmarshalRequest P bytes with
  | Err e => Err (SProtoError e)
  | Ok rawReq =>
      let type := srq_Type rawReq in
      let data := srq_Data rawReq in
      if type =? OPEN_SESSION_FOR_CONNECT then decoded_ok (unmarshalOpen P data)
      else if type =? TAKE_OVER_SESSION_OWNER then decoded_ok (unmarshalTakeOver P data)
      else if type =? REPLACE_SESSION_STATE_ON_CLEAN_START then decoded_ok (unmarshalReplace P data)
      else if type =? DELETE_SESSION then decoded_ok (unmarshalDelete P data)
      else if type =? DELETE_EXPIRED_SESSIONS then decoded_ok (unmarshalDeleteExpired P data)
      else if type =? SAVE_OFFLINE_STATE then decoded_ok (unmarshalSaveOffline P data)
      else if type =? REMOVE_OUTGOING_UNFINISHED then decoded_ok (unmarshalRemoveOutgoing P data)
      else if type =? UPSERT_INCOMING_UNFINISHED then decoded_ok (unmarshalUpsert P data)
      else if type =? REMOVE_INCOMING_UNFINISHED then decoded_ok (unmarshalRemoveIncoming P data)
      else if type =? COMMIT_OUTGOING_PROGRESS then decoded_ok (unmarshalCommit P data)
      else Err (SInvalidType type)
  end.

(** [if err := proto.Unmarshal(...); err != nil { return result, err }]. *)
Definition decoded {A} (c : Core) (r : result E A)
    (k : A → Core * result (SessionSMError E) (list byte))
    : Core * result (SessionSMError E) (list byte) :=
  match r with Ok a => k a | Err e => (c, Err (SProtoError e)) end.

(** A handler without response: [result.Data] stays empty. *)
Definition plain (r : Core * result string unit) : Core * result (SessionSMError E) (list byte) :=
  match r with
  | (c, Ok _) => (c, Ok [])
  | (c, Err msg) => (c, Err (SBusinessError msg))
  end.

(** A handler whose response is marshalled into [result.Data]; the error is
    wrapped with the name of the operation, a marshalling error with [mwhat]. *)
Definition responding {A} (what mwhat : string) (marshal : A → result E (list byte))
    (r : Core * result string A) : Core * result (SessionSMError E) (list byte) :=
  match r with
  | (c, Err msg) => (c, Err (SBusinessError (String.append what (String.append ": " msg))))
  | (c, Ok a) =>
      (c, match marshal a with Ok d => Ok d | Err e => Err (SMarshalError mwhat e) end)
  end.

Definition Update (clock : Z) (c : Core) (bytes : list byte)
    : Core * result (SessionSMError E) (list byte) :=
  match unmarshalRequest P bytes with
  | Err e => (c, Err (SProtoError e))
  | Ok rawReq =>
      let type := srq_Type rawReq in
      let data := srq_Data rawReq in
      if type =? OPEN_SESSION_FOR_CONNECT then
        decoded c (unmarshalOpen P data) (λ req,
          responding "open session for connect" "marshal open session response" (marshalOpenResponse P)
            (openSessionForConnect clock c req))
      else if type =? TAKE_OVER_SESSION_OWNER then
        decoded c (unmarshalTakeOver P data) (λ owner,
          responding "take over session owner" "marshal take over session owner response" (marshalTakeOverResponse P)
            (takeOverSessionOwner c owner))
      else if type =? REPLACE_SESSION_STATE_ON_CLEAN_START then
        decoded c (unmarshalReplace P data) (λ req, plain (replaceSessionStateOnCleanStart c req))
      else if type =? DELETE_SESSION then
        decoded c (unmarshalDelete P data) (λ clientID, plain (deleteSession clientID c, Ok tt))
      else if type =? DELETE_EXPIRED_SESSIONS then
        decoded c (unmarshalDeleteExpired P data) (λ now,
          let '(c', ids) := DeleteExpiredSessions clock c now in
          responding "delete expired sessions" "marshal delete expired sessions response" (marshalDeleteExpiredResponse P) (c', Ok ids))
      else if type =? SAVE_OFFLINE_STATE then
        decoded c (unmarshalSaveOffline P data) (λ req, plain (saveOfflineState clock c req))
      else if type =? REMOVE_OUTGOING_UNFINISHED then
        decoded c (unmarshalRemoveOutgoing P data) (λ req,
          plain (removeOutgoingUnfinished clock c req))
      else if type =? UPSERT_INCOMING_UNFINISHED then
        decoded c (unmarshalUpsert P data) (λ req, plain (upsertIncomingUnfinished clock c req))
      else if type =? REMOVE_INCOMING_UNFINISHED then
        decoded c (unmarshalRemoveIncoming P data) (λ req,
          plain (removeIncomingUnfinished clock c req))
      else if type =? COMMIT_OUTGOING_PROGRESS then
        decoded c (unmarshalCommit P data) (λ req, plain (commitOutgoingProgress clock c req))
      else (c, Err (SInvalidType type))
  end.

Definition SaveSnapshot (c : Core) : result (SessionSMError E) Snap :=
  match WriteSnapshot (marshalClusterSessions P) c with
  | Ok d => Ok d
  | Err e => Err (SProtoError e)
  end.

Definition RecoverFromSnapshot (data : Snap) : Core * result (SessionSMError E) unit :=
  match RecoverSnapshot (unmarshalClusterSessions P) data with
  | (c, Ok _) => (c, Ok tt)
  | (c, Err e) => (c, Err (SProtoError e))
  end.
End state_machine.

#[export] Instance session_sm {E Snap} (P : SessionProto E Snap)
    : SMAdapter Core (list byte) (SessionSMError E) Snap := {|
  sm_init := NewCore;
  sm_validate := ValidateUpdate P;
  sm_update := Update P;
  sm_save := SaveSnapshot P;
  sm_recover _ := RecoverFromSnapshot P |}.

(** ** Lookup *)

Inductive SessionQuery :=
| QSession (clientID : string) (nowUnixNano : Z)
| QOwner (clientID : string)
| QOwners (clientIDs : list string).

Inductive SessionAnswer :=
| ASessionResponse (session : option Session) (exist : bool)
| AOwnerResponse (owner : option SessionOwner) (exist : bool)
| AOwnersResponse (items : list ReadSessionOwnerItem).

Definition Lookup (clock : Z) (c : Core) (q : SessionQuery) : SessionAnswer :=
  match q with
  | QSession id now => let '(s, b) := GetSession clock c id now in ASessionResponse s b
  | QOwner id => let '(o, b) := GetSessionOwner c id in AOwnerResponse o b
  | QOwners ids => AOwnersResponse (GetSessionOwners c ids)
  end.

(** ** What an update does *)

Section correctness.
Context {E Snap : Type} (P : SessionProto E Snap).

Definition decode_as {A} (r : result E A) (k : A → SessionOp) : result (SessionSMError E) SessionOp :=
  match r with Ok a => Ok (k a) | Err e => Err (SProtoError e) end.

(** The operation an update stands for. *)
Definition op_of_type (type : Z) (data : list byte) : result (SessionSMError E) SessionOp :=
  match type with
  | 0 => decode_as (unmarshalOpen P data) OpOpen
  | 1 => decode_as (unmarshalTakeOver P data) OpTakeOver
  | 2 => decode_as (unmarshalReplace P data) OpReplace
  | 3 => decode_as (unmarshalSaveOffline P data) OpSaveOffline
  | 4 => decode_as (unmarshalDelete P data) OpDelete
  | 5 => decode_as (unmarshalRemoveOutgoing P data) OpRemoveOutgoing
  | 6 => decode_as (unmarshalDeleteExpired P data) OpDeleteExpired
  | 7 => decode_as (unmarshalUpsert P data) OpUpsert
  | 8 => decode_as (unmarshalRemoveIncoming P data) OpRemoveIncoming
  | 9 => decode_as (unmarshalCommit P data) OpCommit
  | type => Err (SInvalidType type)
  end.
Definition op_of_bytes (bytes : list byte) : result (SessionSMError E) SessionOp :=
  match unmarshalRequest P bytes with
  | Err e => Err (SProtoError e)
  | Ok rawReq => op_of_type (srq_Type rawReq) (srq_Data rawReq)
  end.

(** Errors that mean the update could not be understood. *)
Definition undecodable (e : SessionSMError E) : Prop :=
  match e with SProtoError _ | SInvalidType _ => True | _ => False end.

Ltac split_type :=
  repeat match goal with
  | |- context [?t =? ?k] => destruct (Z.eqb_spec t k) as [->|?]; [cbn|]
  end.

(** Split on whether the payload decodes. *)
Ltac case_decoded :=
  match goal with
  | |- context [match ?x with Ok _ => _ | Err _ => _ end] =>
      lazymatch x with context [match _ with _ => _ end] => fail | _ => destruct x end
  end.

Lemma op_of_bytes_invalid rawReq :
  srq_Type rawReq ≠ OPEN_SESSION_FOR_CONNECT → srq_Type rawReq ≠ TAKE_OVER_SESSION_OWNER →
  srq_Type rawReq ≠ REPLACE_SESSION_STATE_ON_CLEAN_START → srq_Type rawReq ≠ DELETE_SESSION →
  srq_Type rawReq ≠ DELETE_EXPIRED_SESSIONS → srq_Type rawReq ≠ SAVE_OFFLINE_STATE →
  srq_Type rawReq ≠ REMOVE_OUTGOING_UNFINISHED → srq_Type rawReq ≠ UPSERT_INCOMING_UNFINISHED →
  srq_Type rawReq ≠ REMOVE_INCOMING_UNFINISHED → srq_Type rawReq ≠ COMMIT_OUTGOING_PROGRESS →
  srq_Type rawReq < 0 ∨ 9 < srq_Type rawReq.
Proof.
  unfold OPEN_SESSION_FOR_CONNECT, TAKE_OVER_SESSION_OWNER, REPLACE_SESSION_STATE_ON_CLEAN_START,
    DELETE_SESSION, DELETE_EXPIRED_SESSIONS, SAVE_OFFLINE_STATE, REMOVE_OUTGOING_UNFINISHED,
    UPSERT_INCOMING_UNFINISHED, REMOVE_INCOMING_UNFINISHED, COMMIT_OUTGOING_PROGRESS. lia.
Qed.

Lemma op_of_type_out type data :
  type < 0 ∨ 9 < type → op_of_type type data = Err (SInvalidType type).
Proof.
  intros H. destruct type as [|p|p]; [lia| |done].
  do 4 (destruct p as [p|p|]; try done; try lia).
Qed.

Lemma ValidateUpdate_op bytes :
  ValidateUpdate P bytes = match op_of_bytes bytes with Ok _ => Ok tt | Err e => Err e end.
Proof.
  unfold ValidateUpdate, op_of_bytes. destruct (unmarshalRequest P bytes) as [rawReq|]; [|done].
  cbv zeta. destruct rawReq as [rid type data tm cid node]. cbn [srq_Type srq_Data].
  split_type; [unfold decoded_ok, decode_as; by repeat case_match..|].
  rewrite op_of_type_out; [done|]. by apply (op_of_bytes_invalid (mkSessionRequest rid type data tm cid node)).
Qed.

Lemma plain_spec r : (@plain E r).1 = r.1 ∧ ∀ e, (@plain E r).2 = Err e → ¬ undecodable e.
Proof. destruct r as [c [u|msg]]; split; try done; intros x [= <-] []. Qed.

Lemma responding_spec {A} what mwhat (m : A → result E (list byte)) r :
  (responding what mwhat m r).1 = r.1 ∧ ∀ e, (responding what mwhat m r).2 = Err e → ¬ undecodable e.
Proof. destruct r as [c [a|msg]]; cbn; [destruct (m a)|]; split; try done; intros x [= <-] []. Qed.

Lemma session_Update_op bytes clock c :
  match op_of_bytes bytes with
  | Err e => Update P clock c bytes = (c, Err e)
  | Ok op => (Update P clock c bytes).1 = run_op clock op c ∧
             ∀ e, (Update P clock c bytes).2 = Err e → ¬ undecodable e
  end.
Proof.
  unfold Update, op_of_bytes. destruct (unmarshalRequest P bytes) as [rawReq|]; [|done].
  cbv zeta. destruct rawReq as [rid type data tm cid node]. cbn [srq_Type srq_Data].
  split_type; unfold decode_as, decoded; try (case_decoded; [|done];
    first [apply responding_spec | apply plain_spec]).
  - destruct (unmarshalDelete P data); done.
  - destruct (unmarshalDeleteExpired P data) as [now|]; [|done]. cbn [run_op].
    destruct (DeleteExpiredSessions clock c now) as [c' ids].
    apply (responding_spec "delete expired sessions" "marshal delete expired sessions response"
      (marshalDeleteExpiredResponse P) (c', Ok ids)).
  - rewrite op_of_type_out; [done|].
    by apply (op_of_bytes_invalid (mkSessionRequest rid type data tm cid node)).
Qed.

(** Operations that carry the time they act at. *)
Definition op_timed (op : SessionOp) : Prop :=
  match op with
  | OpOpen r => 0 < osr_NowUnixNano r
  | OpSaveOffline r => 0 < sor_NowUnixNano r
  | OpRemoveOutgoing r => 0 < ror_NowUnixNano r
  | OpCommit r => 0 < cor_NowUnixNano r
  | OpUpsert r => 0 < uir_NowUnixNano r
  | OpRemoveIncoming r => 0 < rir_NowUnixNano r
  | OpDeleteExpired now => 0 < now
  | _ => True
  end.

Definition timed_update (bytes : list byte) : Prop :=
  match op_of_bytes bytes with Ok op => op_timed op ∧ op_ok op | Err _ => True end.

Lemma Update_clock clock clock' c bytes :
  timed_update bytes → Update P clock c bytes = Update P clock' c bytes.
Proof.
  unfold timed_update, Update, op_of_bytes.
  destruct (unmarshalRequest P bytes) as [rawReq|]; [|done].
  cbv zeta. destruct rawReq as [rid type data tm cid node]. cbn [srq_Type srq_Data].
  split_type; unfold decode_as, decoded; try done; case_decoded; try done; cbn; intros [Ht _];
    unfold openSessionForConnect, saveOfflineState, removeOutgoingUnfinished, commitOutgoingProgress,
      upsertIncomingUnfinished, removeIncomingUnfinished, DeleteExpiredSessions;
    by rewrite !requestNow_pos by done.
Qed.

(** Snapshots read back. *)
Definition snapshot_ok : Prop :=
  ∀ c d, marshalClusterSessions P c = Ok d → unmarshalClusterSessions P d = (c, None).

#[export] Instance session_sm_laws (HS : snapshot_ok) : @SMLaws _ _ _ _ (session_sm P).
Proof.
  refine (@Build_SMLaws _ _ _ _ (session_sm P) core_ok timed_update _ _ _ _).
  - split; apply map_Forall_empty.
  - intros clock c d Hc Hd. cbn. pose proof (session_Update_op d clock c) as Hu. unfold timed_update in Hd.
    destruct (op_of_bytes d) as [op|e]; [|by rewrite Hu]. destruct Hu as [-> _].
    by apply run_op_ok; [apply Hd|].
  - intros clock clock' c d. apply Update_clock.
  - intros c c0 data Hc. cbn. unfold SaveSnapshot, RecoverFromSnapshot, WriteSnapshot, RecoverSnapshot.
    destruct (marshalClusterSessions P c) as [d|] eqn:Hd; [|done]. intros [= <-].
    by rewrite (HS _ _ Hd).
Defined.
End correctness.

(** Validation is the decoding of [Update]: an update [ValidateUpdate] rejects would
    make [Update] fail with the same error and no effect, and one it accepts is
    carried out by [Update] as the operation it encodes, with an error only
    from that operation or from marshalling its response. *)
Theorem session_validated_updates {E Snap} (P : SessionProto E Snap) bytes :
  match ValidateUpdate P bytes with
  | Err e => ∀ clock c, Update P clock c bytes = (c, Err e)
  | Ok _ => ∃ op, ∀ clock c, (Update P clock c bytes).1 = run_op clock op c ∧
      ∀ e, (Update P clock c bytes).2 = Err e → ¬ undecodable e
  end.
Proof.
  rewrite ValidateUpdate_op. pose proof (session_Update_op P bytes) as Hu.
  destruct (op_of_bytes P bytes) as [op|e]; [by exists op|done].
Qed.

(** Replicas agree: two session centers that apply the same log of updates, each
    carrying its own time, end in the same state whatever their clocks show
    when they apply them, and that state satisfies the center's invariant. *)
Theorem session_replicas_agree {E Snap} (P : SessionProto E Snap) (log : list (list byte))
    (clocks clocks' : list Z) :
  length clocks = length log → length clocks' = length log → Forall (timed_update P) log →
  let replay clocks := foldl (λ c cb, (Update P cb.1 c cb.2).1) NewCore (zip clocks log) in
  replay clocks = replay clocks' ∧ core_ok (replay clocks).
Proof.
  intros Hl Hl' Ht replay. subst replay. cbv beta.
  assert (core_ok NewCore) as Hc by (split; apply map_Forall_empty).
  revert Hc. generalize NewCore. revert clocks clocks' Hl Hl'.
  induction Ht as [|b log Hb Ht IH]; intros [|k ks] [|k' ks'] Hl Hl' c Hc; try done.
  cbn [zip zip_with foldl fst snd]. rewrite (Update_clock P k k' c b Hb).
  apply IH; [by injection Hl|by injection Hl'|].
  pose proof (session_Update_op P b k' c) as Hu. unfold timed_update in Hb.
  destruct (op_of_bytes P b) as [op|e]; [|by rewrite Hu]. destruct Hu as [-> _].
  by apply run_op_ok; [apply Hb|].
Qed.

(** A decoder that reads every update as a deletion of the client it names. *)
Definition sample_session_proto : SessionProto string Core := {|
  marshalRequest r := Ok (srq_Data r);
  unmarshalRequest b := Ok (mkSessionRequest "" DELETE_SESSION b 0 "" 0);
  unmarshalOpen _ := Err "unused"; unmarshalTakeOver _ := Err "unused";
  unmarshalReplace _ := Err "unused"; unmarshalDelete b := Ok (go_string b);
  unmarshalDeleteExpired _ := Err "unused"; unmarshalSaveOffline _ := Err "unused";
  unmarshalRemoveOutgoing _ := Err "unused"; unmarshalUpsert _ := Err "unused";
  unmarshalRemoveIncoming _ := Err "unused"; unmarshalCommit _ := Err "unused";
  marshalOpenResponse _ := Ok []; marshalTakeOverResponse _ := Ok [];
  marshalDeleteExpiredResponse _ := Ok [];
  marshalClusterSessions := Ok; unmarshalClusterSessions c := (c, None) |}.

Lemma session_replicas_agree_witness :
  let P := sample_session_proto in
  let log := [go_bytes "a"; go_bytes "b"] in
  let replay clocks := foldl (λ c cb, (Update P cb.1 c cb.2).1) NewCore (zip clocks log) in
  replay [1; 2] = replay [5; 9] ∧ core_ok (replay [1; 2]).
Proof.
  intros P log. apply (session_replicas_agree P log [1; 2] [5; 9]); [reflexivity|reflexivity|].
  repeat constructor.
Defined.
