(* ===== verification/SessionWAL.v ===== *)
(** * The session center on the write-ahead log

    [src/internal/broker/sessioncenter/wal/local_wal_center.go]: every writing method
    marshals its request, wraps it with [EncodeRequest], writes it through the engine of
    [WalEngine] and decodes the answer; reading methods ask the state machine.  The
    encodings of the request and response messages that only this file uses are the
    fields of [SessionWire].

    [session_wal_durable]: on every engine that writes, snapshots, crashes and restarts
    can lead to without a refused update, each method whose request and answer can be
    marshalled and whose operation is not refused answers what the operation of [SessionCore]
    answers on the state in memory, and the state it leaves is the one any later restart finds. *)

From S2P Require Import Prelude GoStrings WalEngine WalEngineProofs SessionCore SessionCoreProofs SubCenterSM SessionSM.

(** [proto.Marshal] of the requests and [proto.Unmarshal] of the responses. *)
Record SessionWire (E : Type) := {
  marshalOpen : OpenSessionForConnectRequest → result E (list byte);
  marshalTakeOver : option SessionOwner → result E (list byte);
  marshalReplace : ReplaceSessionStateOnCleanStartRequest → result E (list byte);
  marshalSaveOffline : SaveOfflineStateRequest → result E (list byte);
  marshalRemoveOutgoing : RemoveOutgoingUnfinishedRequest → result E (list byte);
  marshalUpsert : UpsertIncomingUnfinishedRequest → result E (list byte);
  marshalRemoveIncoming : RemoveIncomingUnfinishedRequest → result E (list byte);
  marshalCommit : CommitOutgoingProgressRequest → result E (list byte);
  marshalDelete : string → result E (list byte);
  marshalDeleteExpired : Z → result E (list byte);
  unmarshalOpenResponse : list byte → result E OpenSessionForConnectResponse;
  unmarshalTakeOverResponse : list byte → result E TakeOverSessionOwnerResponse;
  unmarshalDeleteExpiredResponse : list byte → result E (list string) }.
Arguments marshalOpen {E}. Arguments marshalTakeOver {E}. Arguments marshalReplace {E}.
Arguments marshalSaveOffline {E}. Arguments marshalRemoveOutgoing {E}. Arguments marshalUpsert {E}.
Arguments marshalRemoveIncoming {E}. Arguments marshalCommit {E}. Arguments marshalDelete {E}.
Arguments marshalDeleteExpired {E}. Arguments unmarshalOpenResponse {E}.
Arguments unmarshalTakeOverResponse {E}. Arguments unmarshalDeleteExpiredResponse {E}.

Inductive SWALError (E : Type) :=
| SNilRequest
| SCodecError (e : E)
| SEngineError (e : EngineError (SessionSMError E)).
Arguments SNilRequest {E}. Arguments SCodecError {E}. Arguments SEngineError {E}.

Section center.
Context {E Snap : Type} (P : SessionProto E Snap) (M : SessionWire E).
Notation SEngine := (Engine Core Snap).

(** The body the writing methods share: [out] decodes [res.Data]. *)
Definition swalCall {A} (clock : Z) (io : WriteIO) (t : Z) (clientID : string) (data : result E (list byte))
    (out : list byte → result E A) (engine : SEngine) : SEngine * result (SWALError E) A :=
  match EncodeRequest P t clientID 0 data with
  | Err e => (engine, Err (SCodecError e))
  | Ok updateBytes =>
      match @Write _ _ _ _ (session_sm P) clock io engine updateBytes with
      | (engine, Err e) => (engine, Err (SEngineError e))
      | (engine, Ok d) => (engine, match out d with Ok a => Ok a | Err e => Err (SCodecError e) end)
      end
  end.
Definition no_answer (d : list byte) : result E unit := Ok tt.

Definition swal_OpenSessionForConnect clock io (request : OpenSessionForConnectRequest) :=
  swalCall clock io OPEN_SESSION_FOR_CONNECT (osr_ClientID request) (marshalOpen M request) (unmarshalOpenResponse M).
Definition swal_TakeOverSessionOwner clock io (owner : option SessionOwner) (engine : SEngine) :=
  match owner with
  | None => (engine, Err SNilRequest)
  | Some o =>
      swalCall clock io TAKE_OVER_SESSION_OWNER (ow_ClientID o) (marshalTakeOver M owner) (unmarshalTakeOverResponse M) engine
  end.
Definition swal_ReplaceSessionStateOnCleanStart clock io (request : ReplaceSessionStateOnCleanStartRequest) :=
  swalCall clock io REPLACE_SESSION_STATE_ON_CLEAN_START (rsr_ClientID request) (marshalReplace M request) no_answer.
Definition swal_SaveOfflineState clock io (request : SaveOfflineStateRequest) :=
  swalCall clock io SAVE_OFFLINE_STATE (sor_ClientID request) (marshalSaveOffline M request) no_answer.
Definition swal_RemoveOutgoingUnfinished clock io (request : RemoveOutgoingUnfinishedRequest) :=
  swalCall clock io REMOVE_OUTGOING_UNFINISHED (ror_ClientID request) (marshalRemoveOutgoing M request) no_answer.
Definition swal_UpsertIncomingUnfinished clock io (request : UpsertIncomingUnfinishedRequest) :=
  swalCall clock io UPSERT_INCOMING_UNFINISHED (uir_ClientID request) (marshalUpsert M request) no_answer.
Definition swal_RemoveIncomingUnfinished clock io (request : RemoveIncomingUnfinishedRequest) :=
  swalCall clock io REMOVE_INCOMING_UNFINISHED (rir_ClientID request) (marshalRemoveIncoming M request) no_answer.
Definition swal_CommitOutgoingProgress clock io (request : CommitOutgoingProgressRequest) :=
  swalCall clock io COMMIT_OUTGOING_PROGRESS (cor_ClientID request) (marshalCommit M request) no_answer.
Definition swal_DeleteSession clock io (clientID : string) :=
  swalCall clock io DELETE_SESSION clientID (marshalDelete M clientID) no_answer.
Definition swal_DeleteExpiredSessions clock io (nowUnixNano : Z) :=
  swalCall clock io DELETE_EXPIRED_SESSIONS "" (marshalDeleteExpired M nowUnixNano) (unmarshalDeleteExpiredResponse M).

(** The reading methods: [engine.Read] is the state machine's [Lookup]. *)
Definition swal_GetSession (clock : Z) (engine : SEngine) (clientID : string) (nowUnixNano : Z) : SessionAnswer :=
  Lookup clock (e_sm engine) (QSession clientID nowUnixNano).
Definition swal_GetSessionOwner (clock : Z) (engine : SEngine) (clientID : string) : SessionAnswer :=
  Lookup clock (e_sm engine) (QOwner clientID).
Definition swal_GetSessionOwners (clock : Z) (engine : SEngine) (clientIDs : list string) : SessionAnswer :=
  Lookup clock (e_sm engine) (QOwners clientIDs).
End center.

(** ** Durability *)

(** What protobuf promises: a message that could be marshalled (one whose strings are UTF-8
    and whose numbers fit their types) is read back as it was written.  Lists with a nil
    element are excepted, because protobuf reads an empty message in its place. *)
Record swire_ok {E Snap} (P : SessionProto E Snap) (M : SessionWire E) : Prop := {
  sw_request : round_trips (marshalRequest P) (unmarshalRequest P);
  sw_open : round_trips (marshalOpen M) (unmarshalOpen P);
  sw_takeOver : round_trips (marshalTakeOver M) (unmarshalTakeOver P);
  sw_replace : round_trips (marshalReplace M) (unmarshalReplace P);
  sw_saveOffline r : None ∉ sor_UnfinishedMessages r → ∀ d, marshalSaveOffline M r = Ok d → unmarshalSaveOffline P d = Ok r;
  sw_removeOutgoing : round_trips (marshalRemoveOutgoing M) (unmarshalRemoveOutgoing P);
  sw_upsert : round_trips (marshalUpsert M) (unmarshalUpsert P);
  sw_removeIncoming : round_trips (marshalRemoveIncoming M) (unmarshalRemoveIncoming P);
  sw_commit r : None ∉ cor_UnfinishedMessages r → ∀ d, marshalCommit M r = Ok d → unmarshalCommit P d = Ok r;
  sw_delete : round_trips (marshalDelete M) (unmarshalDelete P);
  sw_deleteExpired : round_trips (marshalDeleteExpired M) (unmarshalDeleteExpired P);
  sw_openResponse : round_trips (marshalOpenResponse P) (unmarshalOpenResponse M);
  sw_takeOverResponse : round_trips (marshalTakeOverResponse P) (unmarshalTakeOverResponse M);
  sw_expiredResponse : round_trips (marshalDeleteExpiredResponse P) (unmarshalDeleteExpiredResponse M);
  sw_snapshot : snapshot_ok P }.

Section durable.
Context {E Snap : Type} (P : SessionProto E Snap) (M : SessionWire E) (HW : swire_ok P M).
Context (readAll : list Entry → Z → list Entry) (Hread : reads_log readAll).
Notation SEngine := (Engine Core Snap).
Notation laws := (session_sm_laws P (sw_snapshot P M HW)).

(** The engine holds the sessions [c] in memory and on disk: any restart finds them. *)
Definition sholds (e : SEngine) (c : Core) : Prop :=
  e_sm e = c ∧ ∀ clock n, ∃ e', @NewEngine _ _ _ _ (session_sm P) readAll clock n (e_disk e) = Ok e' ∧ e_sm e' = c.

(** The method [call], whose request is encoded as [request] and whose answer as [answer], does
    on the engine what [op] does in memory: it fails and changes nothing if the request cannot
    be encoded; otherwise, if the operation succeeds and its answer can be encoded, it gives
    that answer and the new state is held. *)
Definition implements {A} (e : SEngine) (request : result E (list byte)) (answer : A → result E (list byte))
    (call : SEngine → SEngine * result (SWALError E) A) (op : Core → Core * result string A) : Prop :=
  match request with
  | Err err => call e = (e, Err (SCodecError err))
  | Ok _ => ∀ c' a, op (e_sm e) = (c', Ok a) → is_Ok (answer a) → let '(e', res) := call e in res = Ok a ∧ sholds e' c'
  end.

Lemma swalCall_durable {A B} clock (e : SEngine) t clientID (m : B → result E (list byte)) (u : list byte → result E B) (r : B)
    (out : list byte → result E A) op c' d a bytes :
  @reach _ _ _ _ (session_sm P) laws readAll e → e_nextIndex e + 2 < 2 ^ 64 →
  (∀ data, m r = Ok data → u data = Ok r) → op_timed op → op_ok op →
  (∀ data, u data = Ok r → op_of_type P t data = Ok op) →
  (∀ bytes data, unmarshalRequest P bytes = Ok (mkSessionRequest "" t data 0 clientID 0) → u data = Ok r →
     Update P clock (e_sm e) bytes = (c', Ok d)) → out d = Ok a → EncodeRequest P t clientID 0 (m r) = Ok bytes →
  let '(e', res) := swalCall P clock all_good t clientID (m r) out e in res = Ok a ∧ sholds e' c'.
Proof.
  intros He Hb Hrt Ht Ho Hop Hu Hout Henc. unfold swalCall. rewrite Henc. unfold EncodeRequest in Henc.
  destruct (m r) as [data|]; [|done]. specialize (Hrt data eq_refl). cbn [mbind result_mbind result_bind] in Henc.
  pose proof (sw_request P M HW _ _ Henc) as Hreq.
  assert (op_of_bytes P bytes = Ok op) as Hob by (unfold op_of_bytes; rewrite Hreq; by apply Hop).
  assert (timed_update P bytes) as Hadm by (unfold timed_update; by rewrite Hob).
  assert (ValidateUpdate P bytes = Ok tt) as Hval by (by rewrite ValidateUpdate_op, Hob).
  destruct (@reach_ok _ _ _ _ (session_sm P) laws readAll Hread e He) as [g Hg]. rewrite (eo_next _ _ Hg) in Hb.
  destruct (@Write_good _ _ _ _ (session_sm P) laws clock all_good e g bytes _ d Hg Hb Hadm
    eq_refl eq_refl Hval (Hu bytes data Hreq Hrt)) as (H1 & H2 & H3).
  destruct (Write clock all_good e bytes) as [e' res]. cbn [fst snd] in *. subst res.
  rewrite Hout. split; [done|]. split; [done|]. intros clock' n. eexists. split;
    [apply (@DiskOk_open _ _ _ _ (session_sm P) laws readAll Hread _ _ _ _ _ _ (eo_disk _ _ H3))|done].
Qed.

Lemma swalCall_unencoded {A} clock (e : SEngine) t clientID data (out : list byte → result E A) err :
  EncodeRequest P t clientID 0 data = Err err → swalCall P clock all_good t clientID data out e = (e, Err (SCodecError err)).
Proof. unfold swalCall. by intros ->. Qed.

(** Durability of a method whose state-machine branch answers nothing or marshals its answer. *)
Lemma swal_plain {B} clock (e : SEngine) t clientID (m : B → result E (list byte)) (u : list byte → result E B) (r : B) op (f : Core → Core * result string unit) :
  @reach _ _ _ _ (session_sm P) laws readAll e → e_nextIndex e + 2 < 2 ^ 64 →
  (∀ data, m r = Ok data → u data = Ok r) → op_timed op → op_ok op →
  (∀ data, u data = Ok r → op_of_type P t data = Ok op) →
  (∀ bytes data, unmarshalRequest P bytes = Ok (mkSessionRequest "" t data 0 clientID 0) → u data = Ok r →
     Update P clock (e_sm e) bytes = plain (f (e_sm e))) →
  implements e (EncodeRequest P t clientID 0 (m r)) (λ _, Ok []) (swalCall P clock all_good t clientID (m r) no_answer) f.
Proof.
  intros He Hb Hm Ht Ho Hop Hu. unfold implements. destruct (EncodeRequest P t clientID 0 (m r)) as [bytes|] eqn:Henc; [|by apply swalCall_unencoded].
  intros c' [] Hf _. eapply (swalCall_durable clock e t clientID m u r); [done..| |done|done].
  intros bytes' data Hr Hd. by rewrite (Hu bytes' data Hr Hd), Hf.
Qed.

Lemma swal_answer {A B} clock (e : SEngine) t clientID (m : B → result E (list byte)) (u : list byte → result E B) (r : B) op
    (f : Core → Core * result string A) what mwhat (mr : A → result E (list byte)) ur :
  @reach _ _ _ _ (session_sm P) laws readAll e → e_nextIndex e + 2 < 2 ^ 64 →
  (∀ data, m r = Ok data → u data = Ok r) → round_trips mr ur → op_timed op → op_ok op →
  (∀ data, u data = Ok r → op_of_type P t data = Ok op) →
  (∀ bytes data, unmarshalRequest P bytes = Ok (mkSessionRequest "" t data 0 clientID 0) → u data = Ok r →
     Update P clock (e_sm e) bytes = responding what mwhat mr (f (e_sm e))) →
  implements e (EncodeRequest P t clientID 0 (m r)) mr (swalCall P clock all_good t clientID (m r) ur) f.
Proof.
  intros He Hb Hm Hrt Ht Ho Hop Hu. unfold implements. destruct (EncodeRequest P t clientID 0 (m r)) as [bytes|] eqn:Henc; [|by apply swalCall_unencoded].
  intros c' a Hf [d Hd]. eapply (swalCall_durable clock e t clientID m u r); [done..| |by apply Hrt|done].
  intros bytes' data Hr Hdata. rewrite (Hu bytes' data Hr Hdata), Hf. cbn. by rewrite Hd.
Qed.
End durable.

(** The state machine's branch for the request at hand. *)
Ltac wal_branch :=
  [> intros data Hd; cbn; by rewrite Hd | intros bytes data Hr Hd; unfold Update; rewrite Hr; cbn; rewrite Hd; cbn].
Ltac wal_plain u r op Hm :=
  match goal with |- @implements _ _ ?P ?ra _ ?e _ _ _ _ =>
    match goal with HW : swire_ok P ?M, Hread : reads_log ra |- _ =>
      eapply (swal_plain P M HW ra Hread _ e _ _ _ u r op); [done|done|by apply Hm|done|done|..]; wal_branch end end.
Ltac wal_answer u r op Hm Hr what mwhat :=
  match goal with |- @implements _ _ ?P ?ra _ ?e _ _ _ _ =>
    match goal with HW : swire_ok P ?M, Hread : reads_log ra |- _ =>
      eapply (swal_answer P M HW ra Hread _ e _ _ _ u r op _ what mwhat); [done|done|by apply Hm|exact Hr|done|done|..]; wal_branch end end.

(** C25. The durable session center implements the one in memory.  Take an engine reached by writes,
    snapshots, crashes and restarts in whose history no update was refused after it was
    committed and no process went on after a commit record could not be saved.  A writing
    method of [LocalWALCenter] whose request cannot be marshalled answers that error and
    changes nothing.  Otherwise, if its file operations work, the request carries its time
    (and, for the two that carry unfinished messages, lists no nil message and no incoming
    packet identifier twice), the operation of the session store does not refuse it and the
    answer can be marshalled, it gives the operation's answer, leaves the operation's state in
    memory, and that state is what any later restart finds. *)
Theorem session_wal_durable {E Snap} (P : SessionProto E Snap) (M : SessionWire E) (HW : swire_ok P M)
    (readAll : list Entry → Z → list Entry) clock (e : Engine Core Snap) :
  reads_log readAll → @reach _ _ _ _ (session_sm P) (session_sm_laws P (sw_snapshot P M HW)) readAll e → e_nextIndex e + 2 < 2 ^ 64 →
  let implements {A} t clientID data := @implements E Snap P readAll A e (EncodeRequest P t clientID 0 data) in
  let silent := λ _ : unit, Ok [] in
  (∀ r, 0 < osr_NowUnixNano r →
     implements OPEN_SESSION_FOR_CONNECT (osr_ClientID r) (marshalOpen M r) (marshalOpenResponse P)
       (swal_OpenSessionForConnect P M clock all_good r) (λ c, openSessionForConnect clock c r)) ∧
  (∀ o, implements TAKE_OVER_SESSION_OWNER (ow_ClientID o) (marshalTakeOver M (Some o)) (marshalTakeOverResponse P)
       (swal_TakeOverSessionOwner P M clock all_good (Some o)) (λ c, takeOverSessionOwner c (Some o))) ∧
  (∀ r, implements REPLACE_SESSION_STATE_ON_CLEAN_START (rsr_ClientID r) (marshalReplace M r) silent
       (swal_ReplaceSessionStateOnCleanStart P M clock all_good r) (λ c, replaceSessionStateOnCleanStart c r)) ∧
  (∀ r, 0 < sor_NowUnixNano r → None ∉ sor_UnfinishedMessages r → NoDup (incoming_ids (not_nil (sor_UnfinishedMessages r))) →
     implements SAVE_OFFLINE_STATE (sor_ClientID r) (marshalSaveOffline M r) silent
       (swal_SaveOfflineState P M clock all_good r) (λ c, saveOfflineState clock c r)) ∧
  (∀ r, 0 < ror_NowUnixNano r →
     implements REMOVE_OUTGOING_UNFINISHED (ror_ClientID r) (marshalRemoveOutgoing M r) silent
       (swal_RemoveOutgoingUnfinished P M clock all_good r) (λ c, removeOutgoingUnfinished clock c r)) ∧
  (∀ r, 0 < uir_NowUnixNano r →
     implements UPSERT_INCOMING_UNFINISHED (uir_ClientID r) (marshalUpsert M r) silent
       (swal_UpsertIncomingUnfinished P M clock all_good r) (λ c, upsertIncomingUnfinished clock c r)) ∧
  (∀ r, 0 < rir_NowUnixNano r →
     implements REMOVE_INCOMING_UNFINISHED (rir_ClientID r) (marshalRemoveIncoming M r) silent
       (swal_RemoveIncomingUnfinished P M clock all_good r) (λ c, removeIncomingUnfinished clock c r)) ∧
  (∀ r, 0 < cor_NowUnixNano r → None ∉ cor_UnfinishedMessages r → NoDup (incoming_ids (not_nil (cor_UnfinishedMessages r))) →
     implements COMMIT_OUTGOING_PROGRESS (cor_ClientID r) (marshalCommit M r) silent
       (swal_CommitOutgoingProgress P M clock all_good r) (λ c, commitOutgoingProgress clock c r)) ∧
  (∀ id, implements DELETE_SESSION id (marshalDelete M id) silent
       (swal_DeleteSession P M clock all_good id) (λ c, (deleteSession id c, Ok tt))) ∧
  (∀ now, 0 < now →
     implements DELETE_EXPIRED_SESSIONS "" (marshalDeleteExpired M now) (marshalDeleteExpiredResponse P)
       (swal_DeleteExpiredSessions P M clock all_good now)
       (λ c, let '(c', ids) := DeleteExpiredSessions clock c now in (c', Ok ids))).
Proof.
  intros Hread He Hb implements silent. subst implements silent. split_and!; intros.
  - by wal_answer (unmarshalOpen P) r (OpOpen r) (sw_open P M HW) (sw_openResponse P M HW)
      "open session for connect" "marshal open session response".
  - by wal_answer (unmarshalTakeOver P) (Some o) (OpTakeOver (Some o)) (sw_takeOver P M HW) (sw_takeOverResponse P M HW)
      "take over session owner" "marshal take over session owner response".
  - by wal_plain (unmarshalReplace P) r (OpReplace r) (sw_replace P M HW).
  - by wal_plain (unmarshalSaveOffline P) r (OpSaveOffline r) (sw_saveOffline P M HW).
  - by wal_plain (unmarshalRemoveOutgoing P) r (OpRemoveOutgoing r) (sw_removeOutgoing P M HW).
  - by wal_plain (unmarshalUpsert P) r (OpUpsert r) (sw_upsert P M HW).
  - by wal_plain (unmarshalRemoveIncoming P) r (OpRemoveIncoming r) (sw_removeIncoming P M HW).
  - by wal_plain (unmarshalCommit P) r (OpCommit r) (sw_commit P M HW).
  - by wal_plain (unmarshalDelete P) id (OpDelete id) (sw_delete P M HW).
  - wal_answer (unmarshalDeleteExpired P) now (OpDeleteExpired now) (sw_deleteExpired P M HW) (sw_expiredResponse P M HW)
      "delete expired sessions" "marshal delete expired sessions response".
    by destruct (DeleteExpiredSessions clock (e_sm e) now).
Qed.

(** ** An encoding that satisfies the assumptions

    Messages are numbered through their fields, as in [SubCenterSM]. *)

#[local] Instance ascii_eq : EqDecision ascii := ascii_dec.
#[local] Instance ascii_countable : Countable ascii := inj_countable' nat_of_ascii ascii_of_nat ascii_nat_embedding.
#[local] Instance userProperty_eq : EqDecision UserProperty.
Proof. solve_decision. Defined.
#[local] Instance userProperty_countable : Countable UserProperty :=
  inj_countable' (λ u, (upr_Key u, upr_Value u)) (λ '(k, v), mkUserProperty k v) ltac:(by intros []).
#[local] Instance willMessage_eq : EqDecision WillMessage.
Proof. solve_decision. Defined.
#[local] Instance willMessage_countable : Countable WillMessage :=
  inj_countable' (λ w, (wm_Topic w, wm_Payload w, wm_Qos w, wm_Retain w, wm_Properties w, wm_ContentType w, wm_ResponseTopic w,
      wm_CorrelationData w, wm_MessageExpiry w, wm_UserProperties w, wm_PayloadFormat w, wm_WillDelayInterval w))
    (λ '(a, b, c, d, e, f, g, h, i, j, k, l), mkWillMessage a b c d e f g h i j k l) ltac:(by intros []).
#[local] Instance messageState_countable : Countable MessageState :=
  inj_countable' (λ s, match s with WAITING_PUBACK => 0 | WAITING_PUBREC => 1 | WAITING_PUBCOMP => 2 | WAITING_PUBREL => 3 end)
    (λ n : Z, match n with 0 => WAITING_PUBACK | 1 => WAITING_PUBREC | 2 => WAITING_PUBCOMP | _ => WAITING_PUBREL end)
    ltac:(by intros []).
#[local] Instance unfinished_countable : Countable UnfinishedMessage :=
  inj_countable' (λ m, (um_MessageID m, um_PacketID m, um_Qos m, um_State m, um_SubscribeTopic m, um_IsOutgoing m,
      um_FirstPubTime m, um_PublishPacket m, um_AckReasonCode m))
    (λ '(a, b, c, d, e, f, g, h, i), mkUnfinished a b c d e f g h i) ltac:(by intros []).
#[local] Instance replayCursor_eq : EqDecision OutgoingReplayCursor.
Proof. solve_decision. Defined.
#[local] Instance replayCursor_countable : Countable OutgoingReplayCursor :=
  inj_countable' (λ c, (orc_TaskUnixMicro c, orc_TaskID c, orc_Generation c)) (λ '(a, b, c), mkReplayCursor a b c) ltac:(by intros []).
#[local] Instance session_eq : EqDecision Session.
Proof. solve_decision. Defined.
#[local] Instance session_countable : Countable Session :=
  inj_countable' (λ s, (ss_ClientID s, ss_WillMessage s, ss_UnfinishedMessages s, ss_SessionExpiryInterval s, ss_ExpireAtUnixNano s,
      ss_OutgoingReplayCursor s)) (λ '(a, b, c, d, e, f), mkSession a b c d e f) ltac:(by intros []).
#[local] Instance owner_eq : EqDecision SessionOwner.
Proof. solve_decision. Defined.
#[local] Instance owner_countable : Countable SessionOwner :=
  inj_countable' (λ o, (ow_ClientID o, ow_NodeID o, ow_OwnerToken o, ow_Online o)) (λ '(a, b, c, d), mkOwner a b c d) ltac:(by intros []).

(** Requests and responses as tuples of their fields. *)
Definition request_fields (r : SessionRequest) :=
  (srq_RequestID r, srq_Type r, srq_Data r, srq_Time r, srq_ClientID r, srq_RequestNodeID r).
Definition open_fields (r : OpenSessionForConnectRequest) :=
  (osr_ClientID r, osr_WillMessage r, osr_SessionExpiryInterval r, osr_NowUnixNano r).
Definition replace_fields (r : ReplaceSessionStateOnCleanStartRequest) :=
  (rsr_ClientID r, rsr_WillMessage r, rsr_SessionExpiryInterval r, rsr_NowUnixNano r).
Definition save_fields (r : SaveOfflineStateRequest) :=
  (sor_ClientID r, sor_UnfinishedMessages r, sor_WillMessage r, sor_ClearWill r, sor_SessionExpiryInterval r, sor_NowUnixNano r,
   sor_OwnerToken r, sor_OutgoingReplayCursor r).
Definition remove_fields (r : RemoveOutgoingUnfinishedRequest) := (ror_ClientID r, ror_MessageID r, ror_NowUnixNano r).
Definition upsert_fields (r : UpsertIncomingUnfinishedRequest) :=
  (uir_ClientID r, uir_PacketID r, uir_UnfinishedMessage r, uir_OwnerToken r, uir_NowUnixNano r).
Definition incoming_fields (r : RemoveIncomingUnfinishedRequest) := (rir_ClientID r, rir_PacketID r, rir_OwnerToken r, rir_NowUnixNano r).
Definition commit_fields (r : CommitOutgoingProgressRequest) :=
  (cor_ClientID r, cor_UnfinishedMessages r, cor_OutgoingReplayCursor r, cor_OwnerToken r, cor_NowUnixNano r).
Definition openResponse_fields (r : OpenSessionForConnectResponse) := (osp_OldSession r, osp_OldSessionExists r, osp_Session r).
Definition takeOverResponse_fields (r : TakeOverSessionOwnerResponse) := (top_PreviousOwner r, top_PreviousOwnerExists r, top_Owner r).

Definition swal_proto : SessionProto string Core := {|
  marshalRequest := enc_via request_fields;
  unmarshalRequest := dec_via (λ '(a, b, c, d, e, f), mkSessionRequest a b c d e f);
  unmarshalOpen := dec_via (λ '(a, b, c, d), mkOpenRequest a b c d);
  unmarshalTakeOver := dec_via (λ o : option SessionOwner, o);
  unmarshalReplace := dec_via (λ '(a, b, c, d), mkReplaceRequest a b c d);
  unmarshalDelete := dec_via (λ s : string, s);
  unmarshalDeleteExpired := dec_via (λ n : Z, n);
  unmarshalSaveOffline := dec_via (λ '(a, b, c, d, e, f, g, h), mkSaveOfflineRequest a b c d e f g h);
  unmarshalRemoveOutgoing := dec_via (λ '(a, b, c), mkRemoveOutgoingRequest a b c);
  unmarshalUpsert := dec_via (λ '(a, b, c, d, e), mkUpsertRequest a b c d e);
  unmarshalRemoveIncoming := dec_via (λ '(a, b, c, d), mkRemoveIncomingRequest a b c d);
  unmarshalCommit := dec_via (λ '(a, b, c, d, e), mkCommitRequest a b c d e);
  marshalOpenResponse := enc_via openResponse_fields;
  marshalTakeOverResponse := enc_via takeOverResponse_fields;
  marshalDeleteExpiredResponse := enc_via (λ l : list string, l);
  marshalClusterSessions := Ok; unmarshalClusterSessions c := (c, None) |}.

Definition swal_wire : SessionWire string := {|
  marshalOpen := enc_via open_fields;
  marshalTakeOver := enc_via (λ o : option SessionOwner, o);
  marshalReplace := enc_via replace_fields;
  marshalSaveOffline := enc_via save_fields;
  marshalRemoveOutgoing := enc_via remove_fields;
  marshalUpsert := enc_via upsert_fields;
  marshalRemoveIncoming := enc_via incoming_fields;
  marshalCommit := enc_via commit_fields;
  marshalDelete := enc_via (λ s : string, s);
  marshalDeleteExpired := enc_via (λ n : Z, n);
  unmarshalOpenResponse := dec_via (λ '(a, b, c), mkOpenResponse a b c);
  unmarshalTakeOverResponse := dec_via (λ '(a, b, c), mkTakeOverResponse a b c);
  unmarshalDeleteExpiredResponse := dec_via (λ l : list string, l) |}.

Lemma swal_wire_ok : swire_ok swal_proto swal_wire.
Proof.
  split; try (apply via_round_trips; first [by intros [] | done]); [intros r _; apply via_round_trips; by intros []..|].
  by intros c d [= ->].
Qed.

Definition swal_engine : Engine Core Core := mkEngine NewCore freshDisk 0 1 10 0.

Lemma session_wal_durable_witness :
  let o := mkOwner "c" 1 "token" true in
  let '(e', res) := swal_TakeOverSessionOwner swal_proto swal_wire 5 all_good (Some o) swal_engine in
  res = Ok (mkTakeOverResponse None false o) ∧ sholds swal_proto sample_read e' (mkCore ∅ {["c" := o]}).
Proof.
  intros o. destruct (session_wal_durable swal_proto swal_wire swal_wire_ok sample_read 5 swal_engine) as (_ & H & _).
  - apply sample_reads.
  - apply (reach_new sample_read 3 10). reflexivity.
  - reflexivity.
  - apply (H o); [reflexivity|eexists; reflexivity].
Defined.
