(* ===== verification/TopicAlias.v ===== *)
(** * Topic aliases ([src/internal/broker/client/internal/topicalias/manager.go])

    The per-connection table of MQTT 5 topic aliases in both directions, and the
    rollback [revertDownlinkAlias] of [src/internal/broker/client/client_io.go].
    A method that rewrites the PUBLISH it is given returns the rewritten packet.
    The theorem composes the two directions: packets rewritten by one manager
    and read by another are understood as the topics they were sent for. *)

From S2P Require Import Prelude GoStrings Mqtt5.

(** ** State *)

Record TopicAliasManager := mkAliasManager {
  ta_uplinkAliasToTopic : gmap Z string;
  ta_downlinkTopicToAlias : gmap string Z;
  ta_downlinkNext : Z;
  ta_downlinkFree : list Z;
  ta_downlinkMax : Z }.

Definition NewTopicAliasManager : TopicAliasManager := mkAliasManager ∅ ∅ 0 [] 0.

Definition SetDownlinkMax (max : Z) (m : TopicAliasManager) : TopicAliasManager :=
  mkAliasManager (ta_uplinkAliasToTopic m) (ta_downlinkTopicToAlias m) (ta_downlinkNext m)
    (ta_downlinkFree m) max.

Definition GetDownlinkMax (m : TopicAliasManager) : Z := ta_downlinkMax m.

Definition ResetDownlink (m : TopicAliasManager) : TopicAliasManager :=
  mkAliasManager (ta_uplinkAliasToTopic m) ∅ 0 [] (ta_downlinkMax m).

(** [m.downlinkTopicToAlias[topic] = alias]. *)
Definition map_topic (topic : string) (alias : Z) (m : TopicAliasManager) : TopicAliasManager :=
  mkAliasManager (ta_uplinkAliasToTopic m) (<[topic := alias]> (ta_downlinkTopicToAlias m))
    (ta_downlinkNext m) (ta_downlinkFree m) (ta_downlinkMax m).

(** ** Packet fields *)

Definition set_topic (topic : string) (p : Publish) : Publish :=
  mkPublish (pub_Payload p) topic (pub_Properties p) (pub_PacketID p) (pub_QoS p)
    (pub_Duplicate p) (pub_Retain p).

Definition with_alias (alias : option Z) (q : PublishProperties) : PublishProperties :=
  mkPublishProperties (pup_PayloadFormat q) (pup_MessageExpiry q) (pup_WillDelayInterval q)
    (pup_ContentType q) (pup_ResponseTopic q) (pup_CorrelationData q) alias
    (pup_SubscriptionIdentifier q) (pup_User q).

Definition set_properties (q : option PublishProperties) (p : Publish) : Publish :=
  mkPublish (pub_Payload p) (pub_Topic p) q (pub_PacketID p) (pub_QoS p)
    (pub_Duplicate p) (pub_Retain p).

(** [if p.Properties != nil { p.Properties.TopicAlias = nil }]. *)
Definition clear_alias (p : Publish) : Publish :=
  set_properties (with_alias None <$> pub_Properties p) p.

(** [if p.Properties == nil { p.Properties = &PublishProperties{} }], then set the alias. *)
Definition put_alias (alias : Z) (p : Publish) : Publish :=
  set_properties (Some (with_alias (Some alias) (default emptyPublishProperties (pub_Properties p)))) p.

Definition packet_alias (p : Publish) : option Z := pub_Properties p ≫= pup_TopicAlias.

(** ** Downlink *)

(** The known-topic branch: alias only, unless the entry is out of range. *)
Definition use_alias (maxAlias alias : Z) (p : Publish) : Publish :=
  if (alias =? 0) || (maxAlias <? alias) then p else set_topic "" (put_alias alias p).

(** The part of [ApplyDownlink] under the write lock. *)
Definition applyDownlinkSlow (m : TopicAliasManager) (p : Publish) : TopicAliasManager * Publish :=
  let maxAlias := ta_downlinkMax m in
  if (maxAlias =? 0) || bool_decide (pub_Topic p = "") then (m, p)
  else
    match ta_downlinkTopicToAlias m !! pub_Topic p with
    | Some alias => (m, use_alias maxAlias alias p)
    | None =>
        let sequential m :=
          if maxAlias <=? ta_downlinkNext m then (m, p)
          else
            let alias := wrap 16 (ta_downlinkNext m + 1) in
            let m := mkAliasManager (ta_uplinkAliasToTopic m) (ta_downlinkTopicToAlias m) alias
                       (ta_downlinkFree m) (ta_downlinkMax m) in
            (map_topic (pub_Topic p) alias m, put_alias alias p) in
        match last (ta_downlinkFree m) with
        | None => sequential m
        | Some alias =>
            let m := mkAliasManager (ta_uplinkAliasToTopic m) (ta_downlinkTopicToAlias m)
                       (ta_downlinkNext m)
                       (take (length (ta_downlinkFree m) - 1) (ta_downlinkFree m)) maxAlias in
            if negb (alias =? 0) && (alias <=? maxAlias)
            then (map_topic (pub_Topic p) alias m, put_alias alias p)
            else sequential m
        end
    end.

(** No other goroutine changes the manager between the two locked parts: the
    client writes packets under its write lock. *)
Definition ApplyDownlink (m : TopicAliasManager) (p : Publish) : TopicAliasManager * Publish :=
  let p := clear_alias p in
  let maxAlias := ta_downlinkMax m in
  if (maxAlias =? 0) || bool_decide (pub_Topic p = "") then (m, p)
  else
    match ta_downlinkTopicToAlias m !! pub_Topic p with
    | Some alias => (m, use_alias maxAlias alias p)
    | None => applyDownlinkSlow m p
    end.

Definition RevertDownlinkAlias (topic : string) (m : TopicAliasManager) : TopicAliasManager :=
  if bool_decide (topic = "") then m
  else
    match ta_downlinkTopicToAlias m !! topic with
    | None => m
    | Some alias =>
        mkAliasManager (ta_uplinkAliasToTopic m) (delete topic (ta_downlinkTopicToAlias m))
          (ta_downlinkNext m)
          (if 0 <? alias then ta_downlinkFree m ++ [alias] else ta_downlinkFree m)
          (ta_downlinkMax m)
    end.

(** [revertDownlinkAlias] of [client_io.go]. *)
Definition revertDownlinkAlias (fullTopic publishTopic : string) (m : TopicAliasManager)
    : TopicAliasManager :=
  let originalTopic := if bool_decide (fullTopic = "") then publishTopic else fullTopic in
  if negb (bool_decide (originalTopic = "")) then RevertDownlinkAlias originalTopic m else m.

(** ** Uplink *)

Inductive TopicAliasError := ErrTopicAliasNotFound | ErrTopicAliasInvalid.

Definition ApplyUplink (m : TopicAliasManager) (p : Publish) (serverMax : Z)
    : TopicAliasManager * Publish * result TopicAliasError (string * bool) :=
  match packet_alias p with
  | None => (m, p, Ok (pub_Topic p, false))
  | Some alias =>
      if alias =? 0 then (m, p, Err ErrTopicAliasInvalid)
      else if (serverMax =? 0) || (serverMax <? alias) then (m, p, Err ErrTopicAliasInvalid)
      else if negb (bool_decide (pub_Topic p = "")) then
        (mkAliasManager (<[alias := pub_Topic p]> (ta_uplinkAliasToTopic m))
           (ta_downlinkTopicToAlias m) (ta_downlinkNext m) (ta_downlinkFree m) (ta_downlinkMax m),
         clear_alias p, Ok (pub_Topic p, false))
      else
        let topic := default "" (ta_uplinkAliasToTopic m !! alias) in
        if bool_decide (topic = "") then (m, p, Err ErrTopicAliasNotFound)
        else (m, clear_alias (set_topic topic p), Ok (topic, true))
  end.

(** ** A connection: sender and receiver *)

(** One PUBLISH goes out and is delivered, or is dropped and rolled back. *)
Record Send := mkSend { sd_packet : Publish; sd_delivered : bool }.

Definition send_one (s : TopicAliasManager * TopicAliasManager) (x : Send)
    : TopicAliasManager * TopicAliasManager * option (result TopicAliasError string) :=
  let '(sender, receiver) := s in
  let fullTopic := pub_Topic (sd_packet x) in
  let '(sender, p) := ApplyDownlink sender (sd_packet x) in
  if sd_delivered x then
    let '(receiver, _, res) := ApplyUplink receiver p (ta_downlinkMax sender) in
    (sender, receiver, Some (fst <$> res))
  else (revertDownlinkAlias fullTopic (pub_Topic p) sender, receiver, None).

Fixpoint send_all (s : TopicAliasManager * TopicAliasManager) (xs : list Send)
    : list (option (result TopicAliasError string)) :=
  match xs with
  | [] => []
  | x :: xs => let '(a, b, r) := send_one s x in r :: send_all (a, b) xs
  end.

(** ** Correctness *)

(** The sender's mappings are distinct, in range, disjoint from the free list,
    and known to the receiver. *)
Record alias_ok (m r : TopicAliasManager) : Prop := {
  al_max : is_u16 (ta_downlinkMax m);
  al_next : 0 ≤ ta_downlinkNext m ≤ ta_downlinkMax m;
  al_range t a : ta_downlinkTopicToAlias m !! t = Some a → t ≠ "" ∧ 1 ≤ a ≤ ta_downlinkNext m;
  al_inj t t' a : ta_downlinkTopicToAlias m !! t = Some a →
    ta_downlinkTopicToAlias m !! t' = Some a → t = t';
  al_free_nodup : NoDup (ta_downlinkFree m);
  al_free a : a ∈ ta_downlinkFree m →
    1 ≤ a ≤ ta_downlinkNext m ∧ ∀ t, ta_downlinkTopicToAlias m !! t ≠ Some a;
  al_known t a : ta_downlinkTopicToAlias m !! t = Some a → ta_uplinkAliasToTopic r !! a = Some t }.

Lemma alias_ok_init max :
  is_u16 max → alias_ok (SetDownlinkMax max NewTopicAliasManager) NewTopicAliasManager.
Proof.
  intros Hm. pose proof Hm as Hm'. unfold is_u16 in Hm'.
  split; cbn; try done; try lia; try constructor; set_solver.
Qed.

(** Everything but the receiver's part. *)
Definition alias_wf (m : TopicAliasManager) : Prop := ∃ r, alias_ok m r.

Definition known_except (topic : string) (m r : TopicAliasManager) : Prop :=
  ∀ t a, t ≠ topic → ta_downlinkTopicToAlias m !! t = Some a → ta_uplinkAliasToTopic r !! a = Some t.

Lemma revert_ok topic m r :
  topic ≠ "" → alias_wf m → known_except topic m r → alias_ok (RevertDownlinkAlias topic m) r.
Proof.
  intros Ht [r0 Hm] Hk. unfold RevertDownlinkAlias. rewrite bool_decide_false by done.
  destruct (ta_downlinkTopicToAlias m !! topic) as [a|] eqn:Ha.
  2:{ destruct Hm. split; try done. intros t a Hta. apply Hk; [|done]. congruence. }
  destruct (al_range _ _ Hm _ _ Ha) as [_ Hr]. rewrite (proj2 (Z.ltb_lt 0 a)) by lia.
  destruct Hm as [Hmax Hnext Hrange Hinj Hnd Hfree Hknown].
  split; cbn [ta_downlinkMax ta_downlinkNext ta_downlinkTopicToAlias ta_downlinkFree]; try done.
  - intros t b [_ Hb]%lookup_delete_Some. by apply Hrange in Hb.
  - intros t t' b [_ Hb]%lookup_delete_Some [_ Hb']%lookup_delete_Some. by eapply Hinj.
  - apply NoDup_app. split_and!; [done| |apply NoDup_singleton].
    intros b Hb ->%list_elem_of_singleton. by apply (proj2 (Hfree a Hb)) in Ha.
  - intros b [Hb| ->%list_elem_of_singleton]%elem_of_app.
    + destruct (Hfree b Hb) as [? Hn]. split; [done|]. intros t [_ Hd]%lookup_delete_Some. by apply Hn in Hd.
    + split; [done|]. intros t [Hne Hd]%lookup_delete_Some. apply Hne. by eapply Hinj.
  - intros t b [Hne Hb]%lookup_delete_Some. by apply Hk.
Qed.

(** Mapping an unmapped topic to an alias nobody has. *)
Lemma fresh_ok topic a next free m r :
  alias_ok m r → topic ≠ "" → ta_downlinkTopicToAlias m !! topic = None →
  (∀ t, ta_downlinkTopicToAlias m !! t ≠ Some a) →
  1 ≤ a ≤ next → ta_downlinkNext m ≤ next ≤ ta_downlinkMax m →
  NoDup free → (∀ b, b ∈ free → b ≠ a ∧ b ∈ ta_downlinkFree m) →
  let m' := map_topic topic a (mkAliasManager (ta_uplinkAliasToTopic m)
    (ta_downlinkTopicToAlias m) next free (ta_downlinkMax m)) in
  (∀ r', ta_uplinkAliasToTopic r' = <[a := topic]> (ta_uplinkAliasToTopic r) → alias_ok m' r') ∧
  known_except topic m' r.
Proof.
  intros [Hmax Hnext Hrange Hinj Hnd Hfree Hknown] Ht Hnone Hna Ha Hn Hnd' Hsub m'. split.
  - intros r' Hr'. split; cbn; try done; try lia.
    + intros t b [[<- <-]|[Hne Hb]]%lookup_insert_Some; [done|]. apply Hrange in Hb. split; [by apply Hb|lia].
    + intros t t' b [[<- <-]|[Hne Hb]]%lookup_insert_Some [[<- Hx]|[Hne' Hb']]%lookup_insert_Some;
        [done|by apply Hna in Hb'|subst; by apply Hna in Hb|by eapply Hinj].
    + intros b Hb. destruct (Hsub b Hb) as [Hne Hin]. destruct (Hfree b Hin) as [? Hnm]. split; [lia|].
      intros t [[<- <-]|[_ Hd]]%lookup_insert_Some; [done|]. by apply Hnm in Hd.
    + intros t b [[<- <-]|[Hne Hb]]%lookup_insert_Some; rewrite Hr'; [by rewrite lookup_insert_eq|].
      rewrite lookup_insert_ne; [by apply Hknown|]. intros ->. by apply Hna in Hb.
  - intros t b Hne. cbn. intros [[<- _]|[_ Hb]]%lookup_insert_Some; [done|]. by apply Hknown.
Qed.

(** What goes on the wire for a topic, and what it does to the sender. *)
Inductive downlink_case (m r : TopicAliasManager) (topic : string)
    : TopicAliasManager → string → option Z → Prop :=
| dc_plain : downlink_case m r topic m topic None
| dc_known a : ta_downlinkTopicToAlias m !! topic = Some a → 1 ≤ a ≤ ta_downlinkMax m →
    downlink_case m r topic m "" (Some a)
| dc_fresh m' a : 1 ≤ a ≤ ta_downlinkMax m → ta_downlinkMax m' = ta_downlinkMax m →
    (∀ r', ta_uplinkAliasToTopic r' = <[a := topic]> (ta_uplinkAliasToTopic r) → alias_ok m' r') →
    known_except topic m' r → downlink_case m r topic m' topic (Some a).

Lemma packet_alias_put a p : packet_alias (put_alias a p) = Some a.
Proof. done. Qed.
Lemma packet_alias_clear p : packet_alias (clear_alias p) = None.
Proof. unfold packet_alias, clear_alias. cbn. by destruct (pub_Properties p). Qed.

Lemma NoDup_last_out {A} `{!EqDecision A} (l : list A) a :
  NoDup l → last l = Some a → NoDup (take (length l - 1) l) ∧
  a ∈ l ∧ ∀ b, b ∈ take (length l - 1) l → b ≠ a ∧ b ∈ l.
Proof.
  intros Hnd [l' ->]%last_Some. rewrite length_app. cbn. replace (length l' + 1 - 1)%nat with (length l') by lia.
  rewrite take_app_length. apply NoDup_app in Hnd as (H1 & H2 & _). split_and!; [done|set_solver|].
  intros b Hb. split; [|set_solver]. intros ->. apply (H2 a Hb). set_solver.
Qed.

Lemma ApplyDownlink_case m r p :
  alias_ok m r → pub_Topic p ≠ "" →
  let '(m', p') := ApplyDownlink m p in
  downlink_case m r (pub_Topic p) m' (pub_Topic p') (packet_alias p').
Proof.
  intros Hm Ht. unfold ApplyDownlink. cbn [clear_alias set_properties pub_Topic].
  set (q := clear_alias p). assert (Hq : pub_Topic q = pub_Topic p) by done.
  rewrite (bool_decide_false (pub_Topic p = "")), orb_false_r by done.
  pose proof (al_max _ _ Hm) as Hmax. unfold is_u16 in Hmax. pose proof (al_next _ _ Hm) as Hnext.
  destruct (Z.eqb_spec (ta_downlinkMax m) 0) as [H0|H0].
  { subst q. rewrite packet_alias_clear. constructor. }
  destruct (ta_downlinkTopicToAlias m !! pub_Topic p) as [a|] eqn:Ha.
  { destruct (al_range _ _ Hm _ _ Ha) as [_ Hr]. unfold use_alias.
    rewrite (proj2 (Z.eqb_neq a 0)), (proj2 (Z.ltb_ge _ _)) by lia. cbn [orb].
    apply dc_known; [done|lia]. }
  unfold applyDownlinkSlow. rewrite Hq, Ha.
  rewrite (proj2 (Z.eqb_neq (ta_downlinkMax m) 0)), (bool_decide_false (pub_Topic p = "")) by done. cbn [orb].
  destruct (last (ta_downlinkFree m)) as [a|] eqn:Hl.
  - destruct (NoDup_last_out _ _ (al_free_nodup _ _ Hm) Hl) as (Hnd & Hin & Hsub).
    destruct (al_free _ _ Hm _ Hin) as [Hr Hna].
    rewrite (proj2 (Z.eqb_neq a 0)), (proj2 (Z.leb_le _ _)) by lia. cbn [negb andb].
    destruct (fresh_ok (pub_Topic p) a (ta_downlinkNext m) _ m r Hm Ht Ha Hna Hr ltac:(lia) Hnd Hsub)
      as [H1 H2].
    apply dc_fresh; [lia|done|exact H1|exact H2].
  - destruct (Z.leb_spec (ta_downlinkMax m) (ta_downlinkNext m)).
    { subst q. rewrite packet_alias_clear. constructor. }
    assert (wrap 16 (ta_downlinkNext m + 1) = ta_downlinkNext m + 1) as ->.
    { apply Z.mod_small. lia. }
    apply last_None in Hl.
    destruct (fresh_ok (pub_Topic p) (ta_downlinkNext m + 1) (ta_downlinkNext m + 1) [] m r Hm Ht Ha)
      as [H1 H2]; [|lia|lia|constructor|set_solver|].
    + intros t Hta. apply (al_range _ _ Hm) in Hta. lia.
    + apply dc_fresh; [lia|done| |]; cbn; rewrite Hl; [exact H1|exact H2].
Qed.

Lemma send_one_ok s r x :
  alias_ok s r → pub_Topic (sd_packet x) ≠ "" →
  let '(s', r', res) := send_one (s, r) x in
  alias_ok s' r' ∧ ta_downlinkMax s' = ta_downlinkMax s ∧
  res = if sd_delivered x then Some (Ok (pub_Topic (sd_packet x))) else None.
Proof.
  intros Hs Ht. unfold send_one. pose proof (ApplyDownlink_case s r (sd_packet x) Hs Ht) as Hc.
  destruct (ApplyDownlink s (sd_packet x)) as [s' p].
  assert (Hrev : ∀ m t', alias_wf m → known_except (pub_Topic (sd_packet x)) m r → ta_downlinkMax m = ta_downlinkMax s →
    alias_ok (revertDownlinkAlias (pub_Topic (sd_packet x)) t' m) r ∧
    ta_downlinkMax (revertDownlinkAlias (pub_Topic (sd_packet x)) t' m) = ta_downlinkMax s).
  { intros m t' Hm Hk Hmax. unfold revertDownlinkAlias.
    rewrite (bool_decide_false (pub_Topic (sd_packet x) = "")) by done.
    rewrite bool_decide_false by done. cbn [negb].
    split; [by apply revert_ok|]. unfold RevertDownlinkAlias. by repeat case_match. }
  inversion Hc as [E1 E2 E3|a Ha Hr E1 E2 E3|m' a Hr Hmax Hok Hk E1 E2 E3]; subst.
  - destruct (sd_delivered x).
    + unfold ApplyUplink. rewrite <- E3. split_and!; [done|done|]. cbn. congruence.
    + edestruct (Hrev s') as [? ?]; [by exists r| |done|by split_and!]. intros t a _. apply (al_known _ _ Hs).
  - destruct (sd_delivered x).
    + unfold ApplyUplink. rewrite <- E3.
      rewrite (proj2 (Z.eqb_neq a 0)), (proj2 (Z.eqb_neq (ta_downlinkMax s') 0)),
        (proj2 (Z.ltb_ge _ _)) by lia. cbn [orb].
      rewrite bool_decide_true by done. cbn [negb].
      rewrite (al_known _ _ Hs _ _ Ha). cbn [default]. rewrite bool_decide_false by done. done.
    + edestruct (Hrev s') as [? ?]; [by exists r| |done|by split_and!]. intros t b _. apply (al_known _ _ Hs).
  - destruct (sd_delivered x).
    + unfold ApplyUplink. rewrite <- E3.
      rewrite (proj2 (Z.eqb_neq a 0)), (proj2 (Z.eqb_neq (ta_downlinkMax s') 0)),
        (proj2 (Z.ltb_ge _ _)) by lia. cbn [orb].
      rewrite bool_decide_false by congruence. cbn [negb]. split_and!; [|done|cbn; congruence].
      apply Hok. cbn. congruence.
    + edestruct (Hrev s') as [? ?]; [|exact Hk|done|by split_and!].
      eexists (mkAliasManager _ ∅ 0 [] 0). by apply Hok.
Qed.

Lemma send_all_ok xs : ∀ s r,
  alias_ok s r → Forall (λ x, pub_Topic (sd_packet x) ≠ "") xs →
  send_all (s, r) xs
  = (λ x, if sd_delivered x then Some (Ok (pub_Topic (sd_packet x))) else None) <$> xs.
Proof.
  induction xs as [|x xs IH]; intros s r Hok Hxs; [done|]. cbn [send_all fmap list_fmap].
  apply Forall_cons in Hxs as [Hx Hxs].
  pose proof (send_one_ok s r x Hok Hx) as Hs. destruct (send_one (s, r) x) as [[s' r'] res].
  destruct Hs as (Hok' & _ & ->). f_equal. by apply IH.
Qed.

(** Topic aliases are transparent: whatever PUBLISH packets a connection sends and
    whichever of them are dropped for size (and rolled back), every delivered
    packet, reduced to an alias or not, is read by the receiving side, which
    enforces the negotiated maximum, as the topic it was sent for. *)
Theorem topic_alias_transparent max (xs : list Send) :
  is_u16 max → Forall (λ x, pub_Topic (sd_packet x) ≠ "") xs →
  send_all (SetDownlinkMax max NewTopicAliasManager, NewTopicAliasManager) xs
  = (λ x, if sd_delivered x then Some (Ok (pub_Topic (sd_packet x))) else None) <$> xs.
Proof.
  intros Hm Hxs. by apply send_all_ok; [apply alias_ok_init|].
Qed.

Definition sample_publish (topic : string) : Publish := mkPublish [] topic None 0 0 false false.

Lemma topic_alias_transparent_witness :
  let xs := [mkSend (sample_publish "a") true; mkSend (sample_publish "a") true;
             mkSend (sample_publish "b") false; mkSend (sample_publish "c") true] in
  send_all (SetDownlinkMax 2 NewTopicAliasManager, NewTopicAliasManager) xs
  = [Some (Ok "a"); Some (Ok "a"); None; Some (Ok "c")].
Proof.
  intros xs. apply (topic_alias_transparent 2 xs); [vm_compute; split; congruence|].
  repeat constructor; discriminate.
Defined.
