(* ===== verification/IndexedHeap.v ===== *)
(** * Indexed heap

    [src/pkg/indexedheap/queue.go]: a min-heap of entries ordered by priority and
    then by arrival, with a map from keys to entries.  The slice and the map hold
    pointers to the same entries, and [Swap] writes the position of an entry
    through those pointers, so entries live in a store and [items] and [byKey]
    hold addresses.  The loops are those of Go's [container/heap]; [None] is a
    run-time panic (or exhausted fuel, which the theorems exclude). *)

From stdpp Require Import sorting.
From S2P Require Import Prelude.

(** ** Slices indexed by [int] *)

Definition zget {A} (l : list A) (i : Z) : option A :=
  if i <? 0 then None else l !! Z.to_nat i.

Section queue.
Context {K V : Type} `{!EqDecision K, !Countable K}.

Record entry := mkHeapEntry {
  he_key : K;
  he_priority : Z;
  he_value : V;
  he_index : Z;
  he_seq : Z
}.

(** The entries by address, the next free address, and the slice of pointers. *)
Record priorityHeap := mkHeap {
  h_store : gmap nat entry;
  h_alloc : nat;
  h_items : list nat
}.

Definition at_index (h : priorityHeap) (i : Z) : option entry :=
  zget (h_items h) i ≫= λ p, h_store h !! p.

Definition set_entry (f : entry → entry) (p : nat) (h : priorityHeap) : priorityHeap :=
  mkHeap (alter f p (h_store h)) (h_alloc h) (h_items h).

Definition with_index (i : Z) (e : entry) : entry :=
  mkHeapEntry (he_key e) (he_priority e) (he_value e) i (he_seq e).

Definition heap_Len (h : priorityHeap) : Z := Z.of_nat (length (h_items h)).

Definition entry_less (a b : entry) : bool :=
  if he_priority a =? he_priority b then he_seq a <? he_seq b
  else he_priority a <? he_priority b.

Definition Less (h : priorityHeap) (i j : Z) : option bool :=
  a ← at_index h i; b ← at_index h j; Some (entry_less a b).

Definition Swap (h : priorityHeap) (i j : Z) : option priorityHeap :=
  pi ← zget (h_items h) i; pj ← zget (h_items h) j;
  let items := <[Z.to_nat j := pi]> (<[Z.to_nat i := pj]> (h_items h)) in
  let h := mkHeap (h_store h) (h_alloc h) items in
  Some (set_entry (with_index j) pi (set_entry (with_index i) pj h)).

Definition heap_Push (h : priorityHeap) (p : nat) : priorityHeap :=
  set_entry (with_index (heap_Len h)) p
    (mkHeap (h_store h) (h_alloc h) (h_items h ++ [p])).

Definition heap_Pop (h : priorityHeap) : option priorityHeap :=
  let n := heap_Len h in
  item ← zget (h_items h) (n - 1);
  Some (set_entry (with_index (-1)) item
          (mkHeap (h_store h) (h_alloc h) (take (Z.to_nat (n - 1)) (h_items h)))).

(** ** [container/heap] *)

Fixpoint up (fuel : nat) (h : priorityHeap) (j : Z) : option priorityHeap :=
  match fuel with
  | O => None
  | S fuel =>
      let i := Z.quot (j - 1) 2 in
      if i =? j then Some h
      else
        less ← Less h j i;
        if negb less then Some h
        else h ← Swap h i j; up fuel h i
  end.

(** The choice of the child [down] compares with. *)
Definition smaller_child (h : priorityHeap) (j1 n : Z) : option Z :=
  let j2 := j1 + 1 in
  if j2 <? n then less ← Less h j2 j1; Some (if less : bool then j2 else j1)
  else Some j1.

Fixpoint down_loop (fuel : nat) (h : priorityHeap) (i n : Z) : option (priorityHeap * Z) :=
  match fuel with
  | O => None
  | S fuel =>
      let j1 := 2 * i + 1 in
      if (n <=? j1) || (j1 <? 0) then Some (h, i)
      else
        j ← smaller_child h j1 n;
        less ← Less h j i;
        if negb less then Some (h, i)
        else h ← Swap h i j; down_loop fuel h j n
  end.

(** Positions fall below the length on the way up and rise to it on the way down,
    so one iteration more than there are entries is enough. *)
Definition fuel_of (h : priorityHeap) : nat := S (S (length (h_items h))).

Definition down (h : priorityHeap) (i0 n : Z) : option (priorityHeap * bool) :=
  '(h, i) ← down_loop (fuel_of h) h i0 n; Some (h, i0 <? i).

Definition heap_push (h : priorityHeap) (p : nat) : option priorityHeap :=
  let h := heap_Push h p in up (fuel_of h) h (heap_Len h - 1).

Definition heap_Fix (h : priorityHeap) (i : Z) : option priorityHeap :=
  '(h, moved) ← down h i (heap_Len h);
  if moved : bool then Some h else up (fuel_of h) h i.

Definition heap_Remove (h : priorityHeap) (i : Z) : option priorityHeap :=
  let n := heap_Len h - 1 in
  h ← (if n =? i then Some h
       else
         h ← Swap h i n;
         '(h, moved) ← down h i n;
         if moved : bool then Some h else up (fuel_of h) h i);
  heap_Pop h.

(** ** The queue *)

Record Queue := mkQueue {
  q_items : priorityHeap;
  q_byKey : gmap K nat;
  q_next : Z
}.

(** [heap.Init] on the empty heap does nothing. *)
Definition New : Queue := mkQueue (mkHeap ∅ 0 []) ∅ 0.

Definition Len (q : Queue) : Z := heap_Len (q_items q).

Definition Upsert (key : K) (priority : Z) (value : V) (q : Queue) : option Queue :=
  match q_byKey q !! key with
  | Some p =>
      let h := set_entry (λ e, mkHeapEntry (he_key e) priority value (he_index e) (he_seq e)) p (q_items q) in
      item ← h_store h !! p;
      h ← heap_Fix h (he_index item);
      Some (mkQueue h (q_byKey q) (q_next q))
  | None =>
      let h := q_items q in
      let p := h_alloc h in
      let item := mkHeapEntry key priority value 0 (q_next q) in
      h ← heap_push (mkHeap (<[p := item]> (h_store h)) (S p) (h_items h)) p;
      Some (mkQueue h (<[key := p]> (q_byKey q)) (wrap 64 (q_next q + 1)))
  end.

Definition Remove (key : K) (q : Queue) : option (Queue * bool) :=
  match q_byKey q !! key with
  | None => Some (q, false)
  | Some p =>
      item ← h_store (q_items q) !! p;
      h ← heap_Remove (q_items q) (he_index item);
      Some (mkQueue h (delete key (q_byKey q)) (q_next q), true)
  end.

(** [Some None] is a missing key, [None] a nil pointer. *)
Definition Get (key : K) (q : Queue) : option (option V) :=
  match q_byKey q !! key with
  | None => Some None
  | Some p => item ← h_store (q_items q) !! p; Some (Some (he_value item))
  end.

Definition Peek (q : Queue) : option (option (K * Z * V)) :=
  if Len q =? 0 then Some None
  else item ← at_index (q_items q) 0; Some (Some (he_key item, he_priority item, he_value item)).

Fixpoint collectAtOrBefore (fuel : nat) (q : Queue) (index priority : Z) (out : list entry)
    : option (list entry) :=
  match fuel with
  | O => None
  | S fuel =>
      if Len q <=? index then Some out
      else
        item ← at_index (q_items q) index;
        if priority <? he_priority item then Some out
        else
          out ← collectAtOrBefore fuel q (2 * index + 1) priority (out ++ [item]);
          collectAtOrBefore fuel q (2 * index + 2) priority out
  end.

Definition entry_le (a b : entry) : Prop := entry_less b a = false.
#[export] Instance entry_le_dec a b : Decision (entry_le a b).
Proof. unfold entry_le. apply _. Defined.

(** [sort.Slice] with that comparison is a sorted permutation; sequence numbers
    are distinct, so there is only one. *)
Definition ValuesAtOrBefore (priority : Z) (q : Queue) : option (list V) :=
  if Len q =? 0 then Some []
  else
    due ← collectAtOrBefore (fuel_of (q_items q)) q 0 priority [];
    Some (he_value <$> merge_sort entry_le due).
End queue.

Arguments entry : clear implicits.
Arguments priorityHeap : clear implicits.
Arguments Queue K V {_ _}.
