(* ===== verification/IndexedHeapProofs.v ===== *)
(** * Indexed heap: proofs

    The pointer heap is related to a plain list of nodes ([rep]); the loops of
    [container/heap] keep the list a permutation and restore the heap order
    around one misplaced position; the queue then refines a map from keys to
    nodes. *)

From stdpp Require Import sorting.
From S2P Require Import Prelude IndexedHeap.

(** ** Slices *)

Section zget.
Context {A : Type}.
Implicit Types l : list A.

Lemma zget_range l i x : zget l i = Some x → 0 ≤ i < Z.of_nat (length l).
Proof.
  unfold zget. case_if; [done|]. intros H%lookup_lt_Some. lia.
Qed.

Lemma zget_Some l i : 0 ≤ i < Z.of_nat (length l) → is_Some (zget l i).
Proof.
  intros H. unfold zget. case_if; [lia|]. apply lookup_lt_is_Some. lia.
Qed.

Lemma zget_nat l (i : nat) : zget l (Z.of_nat i) = l !! i.
Proof. unfold zget. destruct (Z.ltb_spec (Z.of_nat i) 0); [lia|]. by rewrite Nat2Z.id. Qed.

Lemma zget_app_l l k i : i < Z.of_nat (length l) → zget (l ++ k) i = zget l i.
Proof. intros H. unfold zget. case_if; [done|]. rewrite lookup_app_l by lia. done. Qed.

Lemma zget_app_Some l k i x : zget l i = Some x → zget (l ++ k) i = Some x.
Proof. intros Hx. rewrite zget_app_l; [done|]. apply zget_range in Hx. lia. Qed.

Lemma NoDup_zget l i j x : NoDup l → zget l i = Some x → zget l j = Some x → i = j.
Proof.
  intros Hd Hi Hj. pose proof (zget_range _ _ _ Hi). pose proof (zget_range _ _ _ Hj).
  unfold zget in *. case_if_in Hi; [lia|]. case_if_in Hj; [lia|].
  pose proof (NoDup_lookup _ _ _ _ Hd Hi Hj). lia.
Qed.

Definition zswap (i j : Z) l : list A :=
  match zget l i, zget l j with
  | Some a, Some b => <[Z.to_nat j := a]> (<[Z.to_nat i := b]> l)
  | _, _ => l
  end.

Lemma zswap_length i j l : length (zswap i j l) = length l.
Proof. unfold zswap. repeat case_match; rewrite ?length_insert; done. Qed.

Lemma zget_zswap l i j k :
  0 ≤ i < Z.of_nat (length l) → 0 ≤ j < Z.of_nat (length l) →
  zget (zswap i j l) k = zget l (if k =? j then i else if k =? i then j else k).
Proof.
  intros Hi Hj. destruct (zget_Some l i Hi) as [a Ha], (zget_Some l j Hj) as [b Hb].
  unfold zswap. rewrite Ha, Hb. unfold zget at 1. case_if.
  - destruct (k =? j) eqn:?; [lia|]. destruct (k =? i) eqn:?; [lia|]. unfold zget. by rewrite Heqb0.
  - destruct (Z.eqb_spec k j) as [->|].
    { rewrite list_lookup_insert_eq; [done|]. rewrite length_insert. lia. }
    rewrite list_lookup_insert_ne by lia. destruct (Z.eqb_spec k i) as [->|].
    { rewrite list_lookup_insert_eq; [done|lia]. }
    rewrite list_lookup_insert_ne by lia. unfold zget. by rewrite Heqb0.
Qed.

Lemma zget_ext l k : length l = length k → (∀ i, zget l i = zget k i) → l = k.
Proof. intros _ H. apply list_eq. intros i. rewrite <-!zget_nat. apply H. Qed.

Lemma zswap_app i j l k :
  0 ≤ i < Z.of_nat (length l) → 0 ≤ j < Z.of_nat (length l) →
  zswap i j (l ++ k) = zswap i j l ++ k.
Proof.
  intros Hi Hj. unfold zswap. rewrite !zget_app_l by lia.
  destruct (zget_Some l i Hi) as [a ->], (zget_Some l j Hj) as [b ->].
  rewrite insert_app_l by lia. by rewrite insert_app_l by (rewrite length_insert; lia).
Qed.

Lemma zswap_Permutation i j l : zswap i j l ≡ₚ l.
Proof.
  unfold zswap. destruct (zget l i) as [a|] eqn:Ha; [|done]. destruct (zget l j) as [b|] eqn:Hb; [|done].
  pose proof (zget_range _ _ _ Ha). pose proof (zget_range _ _ _ Hb).
  unfold zget in Ha, Hb. case_if_in Ha; [lia|]. case_if_in Hb; [lia|].
  set (i' := Z.to_nat i) in *. set (j' := Z.to_nat j) in *.
  apply Permutation_inj. split; [by rewrite !length_insert|].
  exists (λ k, if decide (k = j') then i' else if decide (k = i') then j' else k). split.
  - intros x y. repeat case_decide; congruence.
  - intros k. case_decide; [subst k|case_decide; [subst k|]].
    + rewrite list_lookup_insert_eq; [done|]. rewrite length_insert. subst j'. lia.
    + rewrite list_lookup_insert_ne by done. rewrite list_lookup_insert_eq; [done|]. subst i'. lia.
    + by rewrite !list_lookup_insert_ne by done.
Qed.
End zget.

Section heap.
Context {K V : Type} `{!EqDecision K, !Countable K}.

(** ** Nodes: entries without their position *)

Record node := mkNode { n_key : K; n_priority : Z; n_value : V; n_seq : Z }.

Definition entry_of (i : Z) (x : node) : entry K V :=
  mkHeapEntry (n_key x) (n_priority x) (n_value x) i (n_seq x).

Definition le (a b : node) : Prop :=
  n_priority a < n_priority b ∨ (n_priority a = n_priority b ∧ n_seq a ≤ n_seq b).

#[export] Instance le_dec a b : Decision (le a b).
Proof. unfold le. apply _. Defined.

Lemma entry_less_le i j a b : entry_less (entry_of i a) (entry_of j b) = bool_decide (¬ le b a).
Proof.
  unfold entry_less, le. cbn. destruct (Z.eqb_spec (n_priority a) (n_priority b)) as [E|E].
  - destruct (Z.ltb_spec (n_seq a) (n_seq b)); symmetry;
      [apply bool_decide_true|apply bool_decide_false]; lia.
  - destruct (Z.ltb_spec (n_priority a) (n_priority b)); symmetry;
      [apply bool_decide_true|apply bool_decide_false]; lia.
Qed.

#[export] Instance le_trans : Transitive le.
Proof. intros a b c. unfold le. lia. Qed.
#[export] Instance le_total : Total le.
Proof. intros a b. unfold le. lia. Qed.

(** ** The pointer heap represents a list of nodes *)

Record rep (h : priorityHeap K V) (l : list node) : Prop := {
  rep_length : length (h_items h) = length l;
  rep_NoDup : NoDup (h_items h);
  rep_get : ∀ i p, zget (h_items h) i = Some p →
    ∃ x, zget l i = Some x ∧ h_store h !! p = Some (entry_of i x)
}.

Lemma rep_Len h l : rep h l → heap_Len h = Z.of_nat (length l).
Proof. intros H. unfold heap_Len. by rewrite (rep_length _ _ H). Qed.

Lemma rep_at h l i x : rep h l → zget l i = Some x →
  ∃ p, zget (h_items h) i = Some p ∧ h_store h !! p = Some (entry_of i x).
Proof.
  intros H Hx. pose proof (zget_range _ _ _ Hx) as Hi. rewrite <- (rep_length _ _ H) in Hi.
  destruct (zget_Some _ _ Hi) as [p Hp]. destruct (rep_get _ _ H i p Hp) as (y & Hy & Hs).
  exists p. by simplify_eq.
Qed.

Lemma at_index_rep h l i x : rep h l → zget l i = Some x → at_index h i = Some (entry_of i x).
Proof. intros H Hx. destruct (rep_at _ _ _ _ H Hx) as (p & Hp & Hs). unfold at_index. by rewrite Hp. Qed.

Lemma Less_rep h l i j x y : rep h l → zget l i = Some x → zget l j = Some y →
  Less h i j = Some (bool_decide (¬ le y x)).
Proof.
  intros H Hx Hy. unfold Less. rewrite (at_index_rep _ _ _ _ H Hx), (at_index_rep _ _ _ _ H Hy).
  cbn. by rewrite entry_less_le.
Qed.

(** Two heaps with the same pointers, whose entries differ in their positions only. *)
Record frame (h h' : priorityHeap K V) : Prop := {
  fr_items : h_items h' ≡ₚ h_items h;
  fr_alloc : h_alloc h' = h_alloc h;
  fr_store : ∀ p, with_index 0 <$> h_store h' !! p = with_index 0 <$> h_store h !! p
}.

#[export] Instance frame_refl : Reflexive frame.
Proof. by split. Qed.
#[export] Instance frame_trans : Transitive frame.
Proof.
  intros a b c [H1 H2 H3] [H4 H5 H6]. split; [by rewrite H4|congruence|].
  intros p. by rewrite H6.
Qed.

Lemma lookup_alter_index (m : gmap nat (entry K V)) i p r :
  with_index 0 <$> alter (with_index i) p m !! r = with_index 0 <$> m !! r.
Proof.
  destruct (decide (p = r)) as [->|]; [|by rewrite lookup_alter_ne].
  rewrite lookup_alter_eq. by destruct (m !! r).
Qed.

Lemma frame_fuel h h' : frame h h' → fuel_of h' = fuel_of h.
Proof. intros [Hp _ _]. unfold fuel_of. by rewrite Hp. Qed.

Lemma Swap_rep h l i j x y : rep h l → zget l i = Some x → zget l j = Some y → i ≠ j →
  ∃ h', Swap h i j = Some h' ∧ rep h' (zswap i j l) ∧ frame h h'.
Proof.
  intros H Hx Hy Hij. destruct (rep_at _ _ _ _ H Hx) as (p & Hp & Hsp).
  destruct (rep_at _ _ _ _ H Hy) as (q & Hq & Hsq).
  assert (p ≠ q) as Hpq.
  { intros ->. apply Hij. eapply NoDup_zget; [apply (rep_NoDup _ _ H)|done..]. }
  pose proof (zget_range _ _ _ Hp) as Ri. pose proof (zget_range _ _ _ Hq) as Rj.
  assert (Hits : <[Z.to_nat j:=p]> (<[Z.to_nat i:=q]> (h_items h)) = zswap i j (h_items h)).
  { unfold zswap. by rewrite Hp, Hq. }
  unfold Swap. rewrite Hp. cbn. rewrite Hq. cbn. rewrite Hits.
  eexists; split; [done|]. split;
    [|split; [apply zswap_Permutation|done|intros r; cbn; by rewrite !lookup_alter_index]].
  constructor; cbn.
  - rewrite !zswap_length. apply (rep_length _ _ H).
  - rewrite zswap_Permutation. apply (rep_NoDup _ _ H).
  - intros k r. rewrite !zget_zswap by (rewrite <- ?(rep_length _ _ H); done).
    destruct (Z.eqb_spec k j) as [->|]; [|destruct (Z.eqb_spec k i) as [->|]]; intros Hr.
    + simplify_eq. exists x. split; [done|]. rewrite lookup_alter_eq, lookup_alter_ne by done.
      by rewrite Hsp.
    + simplify_eq. exists y. split; [done|]. rewrite lookup_alter_ne, lookup_alter_eq by done.
      by rewrite Hsq.
    + destruct (rep_get _ _ H _ _ Hr) as (z & Hz & Hs). exists z. split; [done|].
      pose proof (rep_NoDup _ _ H) as Hd.
      rewrite !lookup_alter_ne; [done|..]; intros <-; eauto using NoDup_zget.
Qed.

(** ** Heap order *)

Definition parent (j : Z) : Z := Z.quot (j - 1) 2.

Lemma parent_spec c : 0 < c → 0 ≤ parent c < c ∧ (c = 2 * parent c + 1 ∨ c = 2 * parent c + 2).
Proof. unfold parent. intros H. Z.to_euclidean_division_equations. lia. Qed.

Definition ordered (l : list node) (c : Z) : Prop :=
  ∀ x y, zget l c = Some x → zget l (parent c) = Some y → le y x.

Definition heap (l : list node) : Prop := ∀ c, 0 < c → ordered l c.

(** The parent of position [j] is in order with the children of [j]. *)
Definition grands (l : list node) (j : Z) : Prop :=
  0 < j → ∀ c, 0 < c → parent c = j →
  ∀ x y, zget l c = Some x → zget l (parent j) = Some y → le y x.

(** Only position [j] may be smaller than its parent. *)
Definition up_inv (l : list node) (j : Z) : Prop :=
  (∀ c, 0 < c → c ≠ j → ordered l c) ∧ grands l j.

(** Only the children of [i] may be smaller than [i], and [i0], if the walk is
    still there, smaller than its parent. *)
Definition down_inv (l : list node) (i0 i : Z) : Prop :=
  (∀ c, 0 < c → parent c ≠ i → c ≠ i0 ∨ i ≠ i0 → ordered l c) ∧ grands l i.

(** A lookup in a list whose positions [i] and [j], holding [x] and [y], were swapped. *)
Inductive swapped_at (l : list node) (i j : Z) (x y : node) (k : Z) : option node → Prop :=
| at_left : k = i → swapped_at l i j x y k (Some y)
| at_right : k = j → swapped_at l i j x y k (Some x)
| at_other : k ≠ i → k ≠ j → swapped_at l i j x y k (zget l k).

Lemma swapped_at_spec l i j x y k : zget l i = Some x → zget l j = Some y →
  swapped_at l i j x y k (zget (zswap i j l) k).
Proof.
  intros Hx Hy. rewrite zget_zswap by eauto using zget_range.
  destruct (Z.eqb_spec k j) as [->|]; [rewrite Hx; by apply at_right|].
  destruct (Z.eqb_spec k i) as [->|]; [rewrite Hy; by apply at_left|by apply at_other].
Qed.

(** Split a lookup hypothesis [H] in the swapped list by position. *)
Ltac case_swapped H Hx Hy :=
  lazymatch type of H with
  | zget (zswap ?i ?j ?l) ?k = Some _ =>
      destruct (swapped_at_spec l i j _ _ k Hx Hy); [injection H as <-|injection H as <-|];
      try (exfalso; lia)
  end.

Lemma up_step l j x y :
  up_inv l j → 0 < j → zget l j = Some x → zget l (parent j) = Some y → ¬ le y x →
  up_inv (zswap (parent j) j l) (parent j).
Proof.
  intros [Ho Hg] Hj Hx Hy Hlt. destruct (parent_spec j Hj) as [Hp _].
  assert (le x y) as Hle by (destruct (le_total x y); tauto).
  split.
  - intros c Hc Hne a b Ha Hb. destruct (parent_spec c Hc) as [Hpc _].
    case_swapped Ha Hy Hx; case_swapped Hb Hy Hx; subst; try congruence; try done.
    + trans y; [done|]. apply (Ho c Hc); [done|done|congruence].
    + by apply (Hg Hj c Hc).
    + by apply (Ho c Hc).
  - intros Hpj c Hc Hpc a b Ha Hb. destruct (parent_spec c Hc) as [Rc _].
    destruct (parent_spec _ Hpj) as [Rp _].
    case_swapped Hb Hy Hx.
    assert (le b y) as Hby by by apply (Ho (parent j) Hpj ltac:(lia)).
    case_swapped Ha Hy Hx; [done|]. trans y; [done|].
    apply (Ho c Hc ltac:(done)); [done|by rewrite Hpc].
Qed.

Lemma down_step l i0 i j x y :
  down_inv l i0 i → i0 ≤ i → 0 < j → parent j = i → zget l i = Some x → zget l j = Some y →
  ¬ le x y → (∀ c z, 0 < c → parent c = i → zget l c = Some z → le y z) →
  down_inv (zswap i j l) i0 j.
Proof.
  intros [Ho Hg] H0 Hj <- Hx Hy Hlt Hmin. destruct (parent_spec j Hj) as [Hp _].
  assert (le y x) as Hle by (destruct (le_total x y); tauto).
  split.
  - intros c Hc Hne _ a b Ha Hb. destruct (parent_spec c Hc) as [Hpc _].
    case_swapped Ha Hx Hy; case_swapped Hb Hx Hy; subst; try congruence; try done.
    + by apply (Hg Hc j Hj eq_refl).
    + by apply (Hmin c).
    + apply (Ho c Hc); [congruence|lia|done|done].
  - intros _ c Hc Hpc a b Ha Hb. destruct (parent_spec c Hc) as [Rc _].
    case_swapped Hb Hx Hy; case_swapped Ha Hx Hy.
    apply (Ho c Hc); [lia|lia|done|by rewrite Hpc].
Qed.

(** ** The loops *)

Lemma up_spec fuel : ∀ h l tl j,
  rep h (l ++ tl) → up_inv l j → 0 ≤ j < Z.of_nat (length l) → j < Z.of_nat fuel →
  ∃ h' l', up fuel h j = Some h' ∧ rep h' (l' ++ tl) ∧ l' ≡ₚ l ∧ heap l' ∧ frame h h'.
Proof.
  induction fuel as [|fuel IH]; intros h l tl j Hr Hi Hj Hf; [lia|]. cbn [up]. fold (parent j).
  destruct (Z.eqb_spec (parent j) j) as [E|E].
  { assert (j = 0) as ->.
    { destruct (Z.eq_dec j 0); [done|]. destruct (parent_spec j); lia. }
    exists h, l. split_and!; try done. intros c Hc. apply Hi; lia. }
  assert (0 < j) as Hj0. { destruct (Z.eq_dec j 0) as [->|]; [by destruct E|lia]. }
  destruct (parent_spec j Hj0) as [Hp _].
  destruct (zget_Some l j) as [x Hx]; [lia|]. destruct (zget_Some l (parent j)) as [y Hy]; [lia|].
  pose proof (zget_app_Some _ tl _ _ Hx) as Hx'. pose proof (zget_app_Some _ tl _ _ Hy) as Hy'.
  rewrite (Less_rep _ _ _ _ _ _ Hr Hx' Hy'). cbn. case_bool_decide as Hle; cbn.
  - destruct (Swap_rep _ _ _ _ _ _ Hr Hy' Hx' E) as (h1 & -> & Hr1 & Hf1). cbn.
    rewrite zswap_app in Hr1 by lia.
    destruct (IH h1 (zswap (parent j) j l) tl (parent j)) as (h2 & l2 & ? & ? & Hl2 & ? & ?);
      [done|by eapply up_step|rewrite zswap_length; lia|lia|].
    exists h2, l2. split_and!; try done; [by rewrite Hl2, zswap_Permutation|by trans h1].
  - exists h, l. split_and!; try done. intros c Hc. destruct (Z.eq_dec c j) as [->|]; [|by apply Hi].
    intros a b Ha Hb. simplify_eq. done.
Qed.

Lemma smaller_child_spec h l tl i :
  rep h (l ++ tl) → 0 ≤ i → 2 * i + 1 < Z.of_nat (length l) →
  ∃ j y, smaller_child h (2 * i + 1) (Z.of_nat (length l)) = Some j ∧
    0 < j ∧ parent j = i ∧ zget l j = Some y ∧
    ∀ c z, 0 < c → parent c = i → zget l c = Some z → le y z.
Proof.
  intros Hr Hi Hn. destruct (zget_Some l (2 * i + 1)) as [y Hy]; [lia|].
  assert (parent (2 * i + 1) = i) as H1 by (unfold parent; Z.to_euclidean_division_equations; lia).
  assert (parent (2 * i + 2) = i) as H2 by (unfold parent; Z.to_euclidean_division_equations; lia).
  unfold smaller_child. replace (2 * i + 1 + 1) with (2 * i + 2) by lia.
  assert (Hch : ∀ c, 0 < c → parent c = i → c = 2 * i + 1 ∨ c = 2 * i + 2).
  { intros c Hc Hp. destruct (parent_spec c Hc). lia. }
  assert (le y y) as Hyy by (destruct (le_total y y); done).
  destruct (Z.ltb_spec (2 * i + 2) (Z.of_nat (length l))) as [H|H].
  - destruct (zget_Some l (2 * i + 2)) as [z Hz]; [lia|].
    rewrite (Less_rep _ _ _ _ z y Hr) by eauto using zget_app_Some. cbn.
    assert (le z z) as Hzz by (destruct (le_total z z); done).
    case_bool_decide as Hle.
    + eexists (2 * i + 2), z. split_and!; try done; [lia|]. intros c w Hc Hp Hw.
      destruct (le_total y z); [done|]. destruct (Hch c Hc Hp) as [->| ->]; by simplify_eq.
    + exists (2 * i + 1), y. split_and!; try done; [lia|].
      intros c w Hc Hp Hw. destruct (Hch c Hc Hp) as [->| ->]; by simplify_eq.
  - exists (2 * i + 1), y. split_and!; try done; [lia|]. intros c w Hc Hp Hw.
    destruct (Hch c Hc Hp) as [->| ->]; [by simplify_eq|]. apply zget_range in Hw. lia.
Qed.

Lemma down_loop_spec fuel : ∀ h l tl i0 i,
  rep h (l ++ tl) → down_inv l i0 i → 0 ≤ i0 ≤ i → i < Z.of_nat (length l) →
  Z.of_nat (length l) - i < Z.of_nat fuel →
  ∃ h' l' i', down_loop fuel h i (Z.of_nat (length l)) = Some (h', i') ∧
    rep h' (l' ++ tl) ∧ l' ≡ₚ l ∧ frame h h' ∧ i ≤ i' ∧
    (∀ c, 0 < c → c ≠ i0 ∨ i' ≠ i0 → ordered l' c) ∧ (i' = i → l' = l).
Proof.
  induction fuel as [|fuel IH]; intros h l tl i0 i Hr Hi Hi0 Hil Hf; [lia|]. cbn [down_loop].
  destruct ((Z.of_nat (length l) <=? 2 * i + 1) || (2 * i + 1 <? 0)) eqn:Hend.
  { exists h, l, i. split_and!; try done. intros c Hc Hne.
    destruct (Z.eq_dec (parent c) i) as [E|]; [|by apply Hi].
    intros a b Ha%zget_range _. destruct (parent_spec c Hc). lia. }
  destruct (smaller_child_spec h l tl i) as (j & y & -> & Hj & Hpj & Hy & Hmin); [done|lia|lia|]. cbn.
  destruct (zget_Some l i) as [x Hx]; [lia|]. destruct (parent_spec j Hj) as [Rj _].
  pose proof (zget_range _ _ _ Hy) as Ry.
  rewrite (Less_rep _ _ _ _ y x Hr) by eauto using zget_app_Some. cbn. case_bool_decide as Hle; cbn.
  - destruct (Swap_rep h (l ++ tl) i j x y) as (h1 & -> & Hr1 & Hf1);
      [done|by eauto using zget_app_Some..|lia|]. cbn.
    rewrite zswap_app in Hr1 by lia.
    destruct (IH h1 (zswap i j l) tl i0 j) as (h2 & l2 & i2 & Hd & ? & Hl2 & ? & ? & ? & ?);
      [done|by eapply down_step; try done; lia|lia|rewrite zswap_length; lia..|].
    rewrite zswap_length in Hd. exists h2, l2, i2. split_and!; try done; [|by trans h1|lia|lia].
    by rewrite Hl2, zswap_Permutation.
  - exists h, l, i. split_and!; try done. intros c Hc Hne.
    destruct (Z.eq_dec (parent c) i) as [E|]; [|by apply Hi].
    intros a b Ha Hb. rewrite E in Hb. simplify_eq. trans y; [done|].
    by apply (Hmin c).
Qed.

(** ** The operations of [container/heap] *)

(** [if !down(h, i, n) { up(h, i) }]. *)
Definition sift (h : priorityHeap K V) (i n : Z) : option (priorityHeap K V) :=
  '(h, moved) ← down h i n; if moved : bool then Some h else up (fuel_of h) h i.

Lemma sift_spec h l tl i :
  rep h (l ++ tl) → down_inv l i i → 0 ≤ i < Z.of_nat (length l) →
  ∃ h' l', sift h i (Z.of_nat (length l)) = Some h' ∧ rep h' (l' ++ tl) ∧ l' ≡ₚ l ∧ heap l' ∧ frame h h'.
Proof.
  intros Hr Hi Hl. pose proof (rep_length _ _ Hr) as Hlen. rewrite length_app in Hlen.
  destruct (down_loop_spec (fuel_of h) h l tl i i) as (h1 & l1 & i1 & Hd & Hr1 & Hl1 & Hf1 & Hle & Ho & Heq);
    [done..|lia|lia|unfold fuel_of; lia|].
  unfold sift, down. rewrite Hd. cbn. destruct (Z.ltb_spec i i1).
  - exists h1, l1. split_and!; try done. intros c Hc. apply Ho; lia.
  - assert (i1 = i) as -> by lia. rewrite Heq in Hr1, Ho by done.
    destruct (up_spec (fuel_of h1) h1 l tl i) as (h2 & l2 & Hu & ? & ? & ? & ?);
      [done|split; [intros c Hc Hne; apply Ho; auto|apply Hi]|done
      |rewrite (frame_fuel _ _ Hf1); unfold fuel_of; lia|].
    exists h2, l2. split_and!; try done. by trans h1.
Qed.

Lemma heap_Fix_spec h l i :
  rep h l → down_inv l i i → 0 ≤ i < Z.of_nat (length l) →
  ∃ h' l', heap_Fix h i = Some h' ∧ rep h' l' ∧ l' ≡ₚ l ∧ heap l' ∧ frame h h'.
Proof.
  intros Hr Hi Hl. destruct (sift_spec h l [] i) as (h' & l' & Hs & ? & ? & ? & ?);
    [by rewrite app_nil_r|done..|]. rewrite app_nil_r in *.
  exists h', l'. split_and!; try done. unfold heap_Fix. by rewrite (rep_Len _ _ Hr).
Qed.

Lemma zget_snoc {A} (l : list A) x : zget (l ++ [x]) (Z.of_nat (length l)) = Some x.
Proof. by rewrite zget_nat, lookup_app_r, Nat.sub_diag. Qed.

Lemma zget_snoc_inv {A} (l : list A) x i y : zget (l ++ [x]) i = Some y →
  (i = Z.of_nat (length l) ∧ y = x) ∨ zget l i = Some y.
Proof.
  intros H. pose proof (zget_range _ _ _ H) as R. rewrite length_app in R. cbn in R.
  destruct (Z.eq_dec i (Z.of_nat (length l))) as [->|]; [rewrite zget_snoc in H; left; naive_solver|].
  right. by rewrite zget_app_l in H by lia.
Qed.

Lemma zget_elem {A} (l : list A) i x : zget l i = Some x → x ∈ l.
Proof. unfold zget. case_if; [done|]. apply list_elem_of_lookup_2. Qed.

Lemma elem_zget {A} (l : list A) x : x ∈ l → ∃ i, zget l i = Some x.
Proof. intros [i Hi]%list_elem_of_lookup. exists (Z.of_nat i). by rewrite zget_nat. Qed.

Lemma heap_Push_rep h l p x : rep h l → p ∉ h_items h → h_store h !! p = Some (entry_of 0 x) →
  rep (heap_Push h p) (l ++ [x]).
Proof.
  intros Hr Hp Hs. split; cbn.
  - rewrite !length_app. by rewrite (rep_length _ _ Hr).
  - rewrite <- Permutation_cons_append. constructor; [done|apply (rep_NoDup _ _ Hr)].
  - intros i q [[-> ->]|Hq]%zget_snoc_inv.
    + exists x. rewrite (rep_length _ _ Hr), zget_snoc, lookup_alter_eq, Hs. split; [done|].
      cbn. by rewrite (rep_Len _ _ Hr).
    + destruct (rep_get _ _ Hr _ _ Hq) as (y & Hy & Hsy). exists y. split; [by apply zget_app_Some|].
      rewrite lookup_alter_ne; [done|]. intros ->. by apply zget_elem in Hq.
Qed.

Lemma heap_push_spec h l p x : rep h l → heap l → p ∉ h_items h → h_store h !! p = Some (entry_of 0 x) →
  ∃ h' l', heap_push h p = Some h' ∧ rep h' l' ∧ l' ≡ₚ x :: l ∧ heap l' ∧ frame (heap_Push h p) h'.
Proof.
  intros Hr Hh Hp Hs. pose proof (heap_Push_rep _ _ _ _ Hr Hp Hs) as Hr'.
  pose proof (rep_Len _ _ Hr') as Hlen. rewrite length_app in Hlen. cbn [length] in Hlen.
  assert (heap_Len (heap_Push h p) - 1 = Z.of_nat (length l)) as Hn by lia.
  destruct (up_spec (fuel_of (heap_Push h p)) (heap_Push h p) (l ++ [x]) [] (Z.of_nat (length l)))
    as (h' & l' & Hu & Hr1 & Hl1 & ? & ?).
  - by rewrite app_nil_r.
  - split.
    + intros c Hc Hne a b Ha Hb. apply zget_snoc_inv in Ha as [[? ?]|Ha]; [done|].
      pose proof (zget_range _ _ _ Ha). destruct (parent_spec c Hc).
      apply (Hh c Hc); [done|]. rewrite zget_app_l in Hb by lia. done.
    + intros Hj c Hc Hpc a b Ha Hb. apply zget_range in Ha. rewrite length_app in Ha. cbn in Ha.
      destruct (parent_spec c Hc). lia.
  - rewrite length_app. cbn. lia.
  - unfold fuel_of. unfold heap_Len in Hlen. lia.
  - rewrite app_nil_r in Hr1. exists h', l'. unfold heap_push. rewrite Hn. split_and!; try done.
    rewrite Hl1. symmetry. apply Permutation_cons_append.
Qed.

Lemma heap_Pop_spec h l x : rep h (l ++ [x]) →
  ∃ h' p, heap_Pop h = Some h' ∧ rep h' l ∧ h_items h = h_items h' ++ [p] ∧
    h_alloc h' = h_alloc h ∧ (∀ q, with_index 0 <$> h_store h' !! q = with_index 0 <$> h_store h !! q) ∧
    ∃ i, h_store h !! p = Some (entry_of i x).
Proof.
  intros Hr. destruct (rep_at _ _ _ _ Hr (zget_snoc l x)) as (p & Hp & Hs).
  pose proof (rep_length _ _ Hr) as Hl. rewrite length_app in Hl. cbn in Hl.
  assert (h_items h = take (length l) (h_items h) ++ [p]) as Hits.
  { rewrite zget_nat in Hp. rewrite <- (take_drop (length l) (h_items h)) at 1. f_equal.
    apply drop_S in Hp. rewrite Hp. f_equal. apply drop_ge. lia. }
  unfold heap_Pop. rewrite (rep_Len _ _ Hr), length_app. cbn [length].
  replace (Z.of_nat (length l + 1) - 1) with (Z.of_nat (length l)) by lia. rewrite Hp, Nat2Z.id. cbn.
  eexists _, p. split; [done|]. cbn.
  pose proof (rep_NoDup _ _ Hr) as Hd. rewrite Hits, <- Permutation_cons_append in Hd.
  apply NoDup_cons in Hd as [Hnp Hd].
  split_and!; [|done|done|intros q; apply lookup_alter_index|by eexists].
  split; cbn; [rewrite length_take; lia|done|].
  intros i q Hq. pose proof (zget_range _ _ _ Hq) as R. rewrite length_take in R.
  destruct (rep_get _ _ Hr i q) as (y & Hy & Hsy).
  { rewrite Hits. by apply zget_app_Some. }
  exists y. rewrite zget_app_l in Hy by lia. split; [done|].
  rewrite lookup_alter_ne; [done|]. intros ->. by apply zget_elem in Hq.
Qed.

Lemma heap_prefix l x : heap (l ++ [x]) → heap l.
Proof.
  intros H c Hc a b Ha Hb. apply (H c Hc); by apply zget_app_Some.
Qed.

Lemma heap_grands l i : heap l → grands l i.
Proof.
  intros H Hi c Hc Hp a b Ha Hb. destruct (parent_spec c Hc).
  destruct (zget_Some l i) as [m Hm]; [apply zget_range in Ha; lia|].
  trans m; [by apply (H i Hi)|apply (H c Hc); [done|by rewrite Hp]].
Qed.

(** Replacing one node of a heap disturbs the order around its position only. *)
Lemma heap_replace l k i :
  heap l → (∀ c, c ≠ i → zget k c = zget l c ∨ zget k c = None) → down_inv k i i.
Proof.
  intros H Hk. split.
  - intros c Hc Hp Hne a b Ha Hb. destruct (Hk c) as [E1|E1]; [lia| |congruence].
    destruct (Hk (parent c)) as [E2|E2]; [done| |congruence].
    apply (H c Hc); congruence.
  - intros Hi c Hc Hp a b Ha Hb. destruct (parent_spec c Hc). destruct (parent_spec i Hi).
    destruct (Hk c) as [E1|E1]; [lia| |congruence].
    destruct (Hk (parent i)) as [E2|E2]; [lia| |congruence].
    apply (heap_grands l i H Hi c Hc Hp); congruence.
Qed.

Lemma zget_insert {A} (l : list A) i y c : 0 ≤ i → c ≠ i → zget (<[Z.to_nat i := y]> l) c = zget l c.
Proof. intros Hi Hc. unfold zget. case_if; [done|]. rewrite list_lookup_insert_ne by lia. done. Qed.

Lemma zswap_last {A} (l : list A) i x y : zget l i = Some x →
  zswap i (Z.of_nat (length l)) (l ++ [y]) = <[Z.to_nat i := y]> l ++ [x].
Proof.
  intros Hx. pose proof (zget_range _ _ _ Hx). unfold zswap.
  rewrite zget_snoc, (zget_app_Some _ _ _ _ Hx), Nat2Z.id, insert_app_l by lia.
  rewrite insert_app_r_alt by (rewrite length_insert; lia). by rewrite length_insert, Nat.sub_diag.
Qed.

Lemma heap_Remove_spec h l i x : rep h l → heap l → zget l i = Some x →
  ∃ h' l' q, heap_Remove h i = Some h' ∧ rep h' l' ∧ l ≡ₚ x :: l' ∧ heap l' ∧
    h_items h ≡ₚ q :: h_items h' ∧ with_index 0 <$> h_store h !! q = Some (entry_of 0 x) ∧
    h_alloc h' = h_alloc h ∧
    ∀ q, with_index 0 <$> h_store h' !! q = with_index 0 <$> h_store h !! q.
Proof.
  intros Hr Hh Hx. pose proof (zget_range _ _ _ Hx) as Ri.
  destruct l as [|y l _] using rev_ind; [cbn in Ri; lia|]. rewrite length_app in Ri. cbn in Ri.
  unfold heap_Remove. rewrite (rep_Len _ _ Hr), length_app. cbn [length].
  replace (Z.of_nat (length l + 1) - 1) with (Z.of_nat (length l)) by lia.
  destruct (Z.eqb_spec (Z.of_nat (length l)) i) as [E|E].
  - subst i. rewrite zget_snoc in Hx. injection Hx as ->.
    destruct (heap_Pop_spec _ _ _ Hr) as (h' & q & Hpop & Hr' & Hits & Ha & Hst & k & Hq).
    cbn. exists h', l, q. rewrite Hpop, Hits, Hq. split_and!; try done.
    + symmetry. apply Permutation_cons_append.
    + by eapply heap_prefix.
    + symmetry. apply Permutation_cons_append.
  - assert (zget l i = Some x) as Hx' by by rewrite zget_app_l in Hx by lia.
    destruct (Swap_rep h (l ++ [y]) i (Z.of_nat (length l)) x y) as (h1 & Hsw & Hr1 & Hf1);
      [done|done|apply zget_snoc|done|].
    pose proof (zswap_Permutation i (Z.of_nat (length l)) (l ++ [y])) as Hperm.
    rewrite (zswap_last l i x y Hx') in Hr1, Hperm. rewrite Hsw. cbn [mbind option_bind].
    destruct (sift_spec h1 (<[Z.to_nat i := y]> l) [x] i) as (h2 & l2 & Hs & Hr2 & Hl2 & Hh2 & Hf2);
      [done| |rewrite length_insert; lia|].
    { apply (heap_replace l); [by eapply heap_prefix|]. intros c Hc. left. apply zget_insert; lia. }
    rewrite length_insert in Hs. unfold sift in Hs. rewrite Hs. cbn.
    destruct (heap_Pop_spec _ _ _ Hr2) as (h' & q & Hpop & Hr' & Hits & Ha & Hst & k & Hq).
    assert (frame h h2) as Hf by by trans h1.
    exists h', l2, q. rewrite Hpop. split_and!; try done.
    + by rewrite Hl2, <- Hperm, <- Permutation_cons_append.
    + rewrite <- (fr_items _ _ Hf), Hits. symmetry. apply Permutation_cons_append.
    + by rewrite <- (fr_store _ _ Hf), Hq.
    + by rewrite Ha, (fr_alloc _ _ Hf).
    + intros r. by rewrite Hst, (fr_store _ _ Hf).
Qed.

(** ** Collecting the due entries *)

(** Position [j] lies in the subtree of position [i]. *)
Inductive below (i : Z) : Z → Prop :=
| below_here : below i i
| below_child c : 0 < c → below i (parent c) → below i c.

Lemma below_ge i j : below i j → i ≤ j.
Proof. induction 1 as [|c Hc _ IH]; [done|]. destruct (parent_spec c Hc). lia. Qed.

Lemma parent_of_child i c : 0 ≤ i → (c = 2 * i + 1 ∨ c = 2 * i + 2) → parent c = i.
Proof. intros Hi Hc. unfold parent. Z.to_euclidean_division_equations. lia. Qed.

Lemma below_split i j : 0 ≤ i → below i j ↔ j = i ∨ below (2 * i + 1) j ∨ below (2 * i + 2) j.
Proof.
  intros Hi. split.
  - induction 1 as [|c Hc Hb IH]; [by left|]. right. destruct IH as [E|[H|H]].
    + destruct (parent_spec c Hc) as [_ [Hp|Hp]]; rewrite Hp, E; [left|right]; constructor.
    + left. by apply below_child.
    + right. by apply below_child.
  - intros [->|[H|H]]; [constructor|induction H as [|c Hc _ IH]..].
    + apply below_child; [lia|]. rewrite (parent_of_child i) by lia. constructor.
    + by apply below_child.
    + apply below_child; [lia|]. rewrite (parent_of_child i) by lia. constructor.
    + by apply below_child.
Qed.

Lemma below_disjoint i j : 0 ≤ i → below (2 * i + 1) j → below (2 * i + 2) j → False.
Proof.
  intros Hi. induction 1 as [|c Hc Hb IH]; intros H.
  - apply below_ge in H. lia.
  - inversion H as [|c' Hc' H']; subst; [|by apply IH].
    rewrite (parent_of_child i) in Hb by lia. apply below_ge in Hb. lia.
Qed.

Lemma below_root j : 0 ≤ j → below 0 j.
Proof.
  intros Hj. induction (Z.lt_wf 0 j) as [j _ IH]. destruct (Z.eq_dec j 0) as [->|]; [constructor|].
  destruct (parent_spec j); [lia|]. apply below_child; [lia|]. apply IH; lia.
Qed.

Lemma below_le l i j x y : heap l → 0 ≤ i → below i j → zget l i = Some x → zget l j = Some y → le x y.
Proof.
  intros Hh Hi Hb Hx. revert y. induction Hb as [|c Hc Hb IH]; intros y Hy.
  { simplify_eq. by destruct (le_total x x). }
  pose proof (zget_range _ _ _ Hy). destruct (parent_spec c Hc).
  destruct (zget_Some l (parent c)) as [z Hz]; [lia|].
  trans z; [by apply IH|by apply (Hh c Hc)].
Qed.

Definition node_of (e : entry K V) : node :=
  mkNode (he_key e) (he_priority e) (he_value e) (he_seq e).

Lemma node_of_entry i x : node_of (entry_of i x) = x.
Proof. by destruct x. Qed.

(** The due nodes of the subtree at [i], each once. *)
Definition collected (l : list node) (i p : Z) (res : list (entry K V)) : Prop :=
  NoDup (node_of <$> res) ∧
  ∀ x, x ∈ node_of <$> res ↔ ∃ j, below i j ∧ zget l j = Some x ∧ n_priority x ≤ p.

Lemma collect_spec fuel (q : Queue K V) l p : rep (q_items q) l → heap l → NoDup l → ∀ i out,
  0 ≤ i → Z.of_nat (length l) - i < Z.of_nat fuel → (0 < fuel)%nat →
  ∃ res, collectAtOrBefore fuel q i p out = Some (out ++ res) ∧ collected l i p res.
Proof.
  intros Hr Hh Hd. induction fuel as [|fuel IH]; intros i out Hi Hf Hpos; [lia|].
  cbn [collectAtOrBefore]. unfold Len. rewrite (rep_Len _ _ Hr).
  destruct (Z.leb_spec (Z.of_nat (length l)) i) as [Hl|Hl].
  { exists []. rewrite app_nil_r. split; [done|]. split; [constructor|]. intros x. cbn. split.
    - intros H. by apply elem_of_nil in H.
    - intros (j & Hb%below_ge & Hj%zget_range & _). lia. }
  destruct (zget_Some l i) as [x Hx]; [lia|]. rewrite (at_index_rep _ _ _ _ Hr Hx). cbn.
  destruct (Z.ltb_spec p (n_priority x)) as [Hp|Hp].
  { exists []. rewrite app_nil_r. split; [done|]. split; [constructor|]. intros y. cbn. split.
    - intros H. by apply elem_of_nil in H.
    - intros (j & Hb & Hj & Hy). pose proof (below_le _ _ _ _ _ Hh Hi Hb Hx Hj) as [?|[? ?]]; lia. }
  destruct (IH (2 * i + 1) (out ++ [entry_of i x])) as (r1 & -> & Hd1 & Hr1); [lia|lia|lia|]. cbn.
  destruct (IH (2 * i + 2) ((out ++ [entry_of i x]) ++ r1)) as (r2 & -> & Hd2 & Hr2); [lia|lia|lia|].
  exists (entry_of i x :: r1 ++ r2). split; [by rewrite <- !app_assoc|].
  split; rewrite fmap_cons, fmap_app, node_of_entry.
  - constructor.
    + rewrite elem_of_app, Hr1, Hr2.
      intros [(j & Hb%below_ge & Hj & _)|(j & Hb%below_ge & Hj & _)];
        pose proof (NoDup_zget _ _ _ _ Hd Hj Hx); lia.
    + apply NoDup_app. split_and!; [done| |done]. intros y.
      rewrite Hr1, Hr2. intros (j & Hb & Hj & _) (k & Hb' & Hk & _).
      pose proof (NoDup_zget _ _ _ _ Hd Hj Hk) as ->. by eapply below_disjoint.
  - intros y. rewrite elem_of_cons, elem_of_app, Hr1, Hr2. split.
    + intros [->|[(j & ? & ?)|(j & ? & ?)]]; [exists i|exists j|exists j]; rewrite below_split by done;
        naive_solver.
    + intros (j & Hb & Hj & Hy). apply below_split in Hb as [->|[Hb|Hb]]; [|naive_solver..|done].
      left. congruence.
Qed.

(** ** The queue refines a map *)

Definition model (l : list node) : gmap K node := list_to_map ((λ x, (n_key x, x)) <$> l).

Record queue_ok (q : Queue K V) (l : list node) : Prop := {
  qo_rep : rep (q_items q) l;
  qo_heap : heap l;
  qo_keys : NoDup (n_key <$> l);
  qo_byKey : ∀ k p, q_byKey q !! k = Some p ↔
    p ∈ h_items (q_items q) ∧ he_key <$> h_store (q_items q) !! p = Some k;
  qo_alloc : ∀ p, p ∈ h_items (q_items q) → (p < h_alloc (q_items q))%nat
}.

Lemma keyed_fst (l : list node) : ((λ x, (n_key x, x)) <$> l).*1 = n_key <$> l.
Proof. by rewrite <- list_fmap_compose. Qed.

Lemma model_lookup l k x : NoDup (n_key <$> l) →
  model l !! k = Some x ↔ x ∈ l ∧ n_key x = k.
Proof.
  intros Hd. unfold model. rewrite <- elem_of_list_to_map by by rewrite keyed_fst.
  rewrite list_elem_of_fmap. naive_solver.
Qed.

Lemma model_None l k : model l !! k = None ↔ k ∉ n_key <$> l.
Proof. unfold model. rewrite <- not_elem_of_list_to_map. by rewrite keyed_fst. Qed.

Lemma model_perm l k : NoDup (n_key <$> l) → l ≡ₚ k → model l = model k.
Proof.
  intros Hd Hp. apply list_to_map_proper; [by rewrite keyed_fst|by rewrite Hp].
Qed.

Lemma model_cons x l : model (x :: l) = <[n_key x := x]> (model l).
Proof. done. Qed.

Lemma key_frame (m m' : gmap nat (entry K V)) p :
  with_index 0 <$> m' !! p = with_index 0 <$> m !! p → he_key <$> m' !! p = he_key <$> m !! p.
Proof. destruct (m !! p), (m' !! p); cbn; intros H; simplify_eq; congruence. Qed.

Lemma queue_ok_New : queue_ok New [].
Proof.
  split; cbn.
  - split; cbn; [done|constructor|]. intros i p Hp%zget_range. cbn in Hp. lia.
  - intros c Hc x y Hx%zget_range. cbn in Hx. lia.
  - constructor.
  - intros k p. rewrite lookup_empty. split; [done|]. intros [H _]. by apply elem_of_nil in H.
  - intros p H. by apply elem_of_nil in H.
Qed.

(** A key of the queue, its pointer, its node and its position. *)
Lemma byKey_node q l k p : queue_ok q l → q_byKey q !! k = Some p →
  ∃ i x, zget l i = Some x ∧ n_key x = k ∧ zget (h_items (q_items q)) i = Some p ∧
    h_store (q_items q) !! p = Some (entry_of i x).
Proof.
  intros Hq Hp. apply (qo_byKey _ _ Hq) in Hp as [Hin Hk].
  apply elem_zget in Hin as [i Hi]. destruct (rep_get _ _ (qo_rep _ _ Hq) _ _ Hi) as (x & Hx & Hs).
  rewrite Hs in Hk. injection Hk as <-. by exists i, x.
Qed.

Lemma byKey_model q l k : queue_ok q l →
  model l !! k = q_byKey q !! k ≫= λ p, node_of <$> h_store (q_items q) !! p.
Proof.
  intros Hq. destruct (q_byKey q !! k) as [p|] eqn:Hp; cbn.
  - destruct (byKey_node _ _ _ _ Hq Hp) as (i & x & Hx & Hk & _ & Hs). rewrite Hs. cbn.
    rewrite node_of_entry. apply model_lookup; [apply (qo_keys _ _ Hq)|]. eauto using zget_elem.
  - apply model_None. intros (x & -> & Hx)%list_elem_of_fmap. apply elem_zget in Hx as [i Hi].
    destruct (rep_at _ _ _ _ (qo_rep _ _ Hq) Hi) as (p & Hpi & Hs).
    assert (q_byKey q !! n_key x = Some p) as E; [|congruence].
    apply (qo_byKey _ _ Hq). rewrite Hs. eauto using zget_elem.
Qed.

Lemma Upsert_new q l k pr v : queue_ok q l → q_byKey q !! k = None →
  ∃ q' l', Upsert k pr v q = Some q' ∧ queue_ok q' l' ∧
    l' ≡ₚ mkNode k pr v (q_next q) :: l ∧ q_next q' = wrap 64 (q_next q + 1).
Proof.
  intros Hq Hk. unfold Upsert. rewrite Hk. set (x := mkNode k pr v (q_next q)).
  set (a := h_alloc (q_items q)).
  set (h := mkHeap (<[a := mkHeapEntry k pr v 0 (q_next q)]> (h_store (q_items q))) (S a) (h_items (q_items q))).
  assert (a ∉ h_items (q_items q)) as Ha. { intros H%(qo_alloc _ _ Hq). subst a. lia. }
  assert (∀ p, p ∈ h_items (q_items q) → h_store h !! p = h_store (q_items q) !! p) as Hold.
  { intros p Hp. cbn. apply lookup_insert_ne. by intros <-. }
  assert (rep h l) as Hr.
  { destruct (qo_rep _ _ Hq) as [H1 H2 H3]. split; [done|done|]. intros i p Hp.
    rewrite Hold by eauto using zget_elem. by apply H3. }
  destruct (heap_push_spec h l a x) as (h' & l' & Hpush & Hr' & Hl' & Hh' & Hf);
    [done|apply (qo_heap _ _ Hq)|done|cbn; apply lookup_insert_eq|].
  rewrite Hpush. cbn. eexists _, l'. split; [done|]. split_and!; [|done|done].
  pose proof (fr_items _ _ Hf) as Hits. cbn in Hits.
  assert (∀ p, he_key <$> h_store h' !! p = he_key <$> h_store h !! p) as Hkey.
  { intros p. rewrite (key_frame _ _ _ (fr_store _ _ Hf p)). apply key_frame, lookup_alter_index. }
  split; cbn [q_items q_byKey]; [done|done|rewrite Hl'; cbn|intros k' p|intros p].
  - constructor; [|apply (qo_keys _ _ Hq)]. rewrite <- model_None, (byKey_model _ _ _ Hq), Hk. done.
  - rewrite Hkey, Hits, elem_of_app, list_elem_of_singleton. destruct (decide (p = a)) as [->|Hne].
    + cbn. rewrite lookup_insert_eq. cbn. split.
      * destruct (decide (k = k')) as [->|]; [by rewrite lookup_insert_eq; naive_solver|].
        rewrite lookup_insert_ne by done. intros [H _]%(qo_byKey _ _ Hq). done.
      * intros [_ [= <-]]. apply lookup_insert_eq.
    + cbn. rewrite (lookup_insert_ne (h_store (q_items q))) by done.
      destruct (decide (k = k')) as [->|].
      * rewrite lookup_insert_eq. split; [by intros [= ->]|]. intros [[H|?] Hs]; [|done].
        assert (q_byKey q !! k' = Some p) by by apply (qo_byKey _ _ Hq). congruence.
      * rewrite lookup_insert_ne by done. rewrite (qo_byKey _ _ Hq). naive_solver.
  - rewrite Hits, elem_of_app, list_elem_of_singleton, (fr_alloc _ _ Hf). cbn.
    intros [H%(qo_alloc _ _ Hq)| ->]; subst a; lia.
Qed.

Lemma zget_split {A} (l : list A) i x : zget l i = Some x →
  ∃ r, l ≡ₚ x :: r ∧ ∀ y, <[Z.to_nat i := y]> l ≡ₚ y :: r.
Proof.
  intros Hx. pose proof (zget_range _ _ _ Hx). unfold zget in Hx. case_if_in Hx; [lia|].
  exists (take (Z.to_nat i) l ++ drop (S (Z.to_nat i)) l). split.
  - by rewrite Permutation_middle, take_drop_middle.
  - intros y. by rewrite insert_take_drop, <- Permutation_middle by lia.
Qed.

Lemma zget_insert_eq {A} (l : list A) i y : 0 ≤ i < Z.of_nat (length l) →
  zget (<[Z.to_nat i := y]> l) i = Some y.
Proof. intros H. unfold zget. case_if; [lia|]. apply list_lookup_insert_eq. lia. Qed.

Lemma Upsert_old q l k pr v p : queue_ok q l → q_byKey q !! k = Some p →
  ∃ q' l' x r, Upsert k pr v q = Some q' ∧ queue_ok q' l' ∧ n_key x = k ∧
    l ≡ₚ x :: r ∧ l' ≡ₚ mkNode k pr v (n_seq x) :: r ∧ q_next q' = q_next q.
Proof.
  intros Hq Hp. destruct (byKey_node _ _ _ _ Hq Hp) as (i & x & Hx & Hk & Hi & Hs).
  pose proof (zget_range _ _ _ Hx) as Ri. destruct (zget_split l i x Hx) as (r & Hl & Hins).
  unfold Upsert. rewrite Hp. cbn zeta. set (h := set_entry _ p (q_items q)).
  set (x' := mkNode k pr v (n_seq x)).
  assert (h_store h !! p = Some (entry_of i x')) as Hsp.
  { subst h. cbn. rewrite lookup_alter_eq, Hs. cbn. by rewrite Hk. }
  rewrite Hsp. cbn [mbind option_bind he_index entry_of].
  destruct (qo_rep _ _ Hq) as [R1 R2 R3].
  assert (rep h (<[Z.to_nat i := x']> l)) as Hr.
  { split; [by rewrite length_insert|done|]. intros c y Hc.
    change (h_items h) with (h_items (q_items q)) in Hc. destruct (Z.eq_dec c i) as [->|].
    - assert (y = p) as -> by congruence. exists x'. split; [|done]. by apply zget_insert_eq.
    - rewrite zget_insert by lia. subst h. cbn.
      rewrite lookup_alter_ne; [by apply R3|]. intros <-. eauto using NoDup_zget. }
  destruct (heap_Fix_spec h (<[Z.to_nat i := x']> l) i) as (h' & l' & -> & Hr' & Hl' & Hh' & Hf);
    [done| |by rewrite length_insert|].
  { apply (heap_replace l); [apply (qo_heap _ _ Hq)|]. intros c Hc. left. apply zget_insert; lia. }
  cbn. eexists _, l', x, r. split; [done|]. rewrite Hins in Hl'. split_and!; try done.
  assert (∀ c, he_key <$> h_store h' !! c = he_key <$> h_store (q_items q) !! c) as Hkey.
  { intros c. rewrite (key_frame _ _ _ (fr_store _ _ Hf c)). subst h. cbn.
    destruct (decide (c = p)) as [->|]; [|by rewrite lookup_alter_ne].
    rewrite lookup_alter_eq. by destruct (h_store (q_items q) !! p). }
  split; cbn [q_items q_byKey]; [done|done| |intros k' c|intros c].
  - pose proof (qo_keys _ _ Hq) as Hd. rewrite Hl in Hd. rewrite Hl'. cbn in *. by rewrite <- Hk.
  - rewrite Hkey, (fr_items _ _ Hf). apply (qo_byKey _ _ Hq).
  - rewrite (fr_items _ _ Hf), (fr_alloc _ _ Hf). apply (qo_alloc _ _ Hq).
Qed.

Lemma Remove_spec q l k p : queue_ok q l → q_byKey q !! k = Some p →
  ∃ q' l' x, Remove k q = Some (q', true) ∧ queue_ok q' l' ∧ n_key x = k ∧
    l ≡ₚ x :: l' ∧ q_next q' = q_next q.
Proof.
  intros Hq Hp. destruct (byKey_node _ _ _ _ Hq Hp) as (i & x & Hx & Hk & Hi & Hs).
  unfold Remove. rewrite Hp, Hs. cbn [mbind option_bind he_index entry_of].
  destruct (heap_Remove_spec (q_items q) l i x) as (h' & l' & c & -> & Hr' & Hl & Hh & Hits & Hc & Ha & Hst);
    [apply (qo_rep _ _ Hq)|apply (qo_heap _ _ Hq)|done|].
  cbn. eexists _, l', x. split; [done|]. split_and!; try done.
  pose proof (qo_keys _ _ Hq) as Hd. rewrite Hl in Hd. cbn in Hd. apply NoDup_cons in Hd as [_ Hd].
  pose proof (rep_NoDup _ _ (qo_rep _ _ Hq)) as Hnd. rewrite Hits in Hnd.
  apply NoDup_cons in Hnd as [Hnc _].
  assert (∀ r, he_key <$> h_store h' !! r = he_key <$> h_store (q_items q) !! r) as Hkey.
  { intros r. apply key_frame, Hst. }
  assert (he_key <$> h_store (q_items q) !! c = Some k) as Hck.
  { rewrite <- Hk. apply (f_equal (fmap he_key)) in Hc. by rewrite <- option_fmap_compose in Hc. }
  split; cbn [q_items q_byKey]; [done|done|done|intros k' r|intros r Hr].
  - rewrite Hkey. destruct (decide (k = k')) as [<-|].
    + rewrite lookup_delete_eq. split; [done|]. intros [Hr Hkr].
      assert (q_byKey q !! k = Some r) as E1. { apply (qo_byKey _ _ Hq). rewrite Hits. by split; [right|]. }
      assert (q_byKey q !! k = Some c) as E2. { apply (qo_byKey _ _ Hq). rewrite Hits. by split; [left|]. }
      congruence.
    + rewrite lookup_delete_ne by done. rewrite (qo_byKey _ _ Hq), Hits, elem_of_cons.
      split; [|naive_solver]. intros [[->|?] ?]; [congruence|done].
  - rewrite Ha. apply (qo_alloc _ _ Hq). rewrite Hits. by right.
Qed.

(** What [Upsert] and [Remove] do to the map from keys to nodes. *)
Lemma model_replace l l' x y r : NoDup (n_key <$> l) → NoDup (n_key <$> l') →
  l ≡ₚ x :: r → l' ≡ₚ y :: r → n_key y = n_key x → model l' = <[n_key x := y]> (model l).
Proof.
  intros Hd Hd' Hl Hl' Hk. rewrite (model_perm l' _ Hd' Hl'), (model_perm l _ Hd Hl), !model_cons.
  by rewrite Hk, insert_insert_eq.
Qed.

Lemma model_remove l l' x : NoDup (n_key <$> l) → l ≡ₚ x :: l' → model l' = delete (n_key x) (model l).
Proof.
  intros Hd Hl. rewrite (model_perm l _ Hd Hl), model_cons, delete_insert_id; [done|].
  apply model_None. rewrite Hl in Hd. by apply NoDup_cons in Hd as [? _].
Qed.

Lemma Upsert_model q l k pr v : queue_ok q l →
  ∃ q' l' s, Upsert k pr v q = Some q' ∧ queue_ok q' l' ∧
    model l' = <[k := mkNode k pr v s]> (model l).
Proof.
  intros Hq. pose proof (qo_keys _ _ Hq) as Hd. destruct (q_byKey q !! k) as [p|] eqn:Hp.
  - destruct (Upsert_old q l k pr v p Hq Hp) as (q' & l' & x & r & -> & Hq' & <- & Hl & Hl' & _).
    exists q', l', (n_seq x). split_and!; try done. eapply model_replace; try done. apply (qo_keys _ _ Hq').
  - destruct (Upsert_new q l k pr v Hq Hp) as (q' & l' & -> & Hq' & Hl' & _).
    exists q', l', (q_next q). split_and!; try done.
    by rewrite (model_perm l' _ (qo_keys _ _ Hq') Hl'), model_cons.
Qed.

Lemma Remove_model q l k : queue_ok q l →
  ∃ q' l', Remove k q = Some (q', bool_decide (is_Some (model l !! k))) ∧ queue_ok q' l' ∧
    model l' = delete k (model l).
Proof.
  intros Hq. pose proof (qo_keys _ _ Hq) as Hd. rewrite (byKey_model _ _ k Hq).
  destruct (q_byKey q !! k) as [p|] eqn:Hp; cbn.
  - destruct (Remove_spec q l k p Hq Hp) as (q' & l' & x & -> & Hq' & <- & Hl & _).
    destruct (byKey_node _ _ _ _ Hq Hp) as (i & y & _ & _ & _ & ->).
    exists q', l'. split_and!; try done. by apply model_remove.
  - exists q, l. unfold Remove. rewrite Hp. split_and!; try done.
    symmetry. apply delete_id. by rewrite (byKey_model _ _ k Hq), Hp.
Qed.

(** ** Abstract priority map *)

Inductive queue_op := QUpsert (k : K) (pr : Z) (v : V) | QRemove (k : K).

(** The queue after an operation, with the answer of [Remove]. *)
Definition q_run (q : Queue K V) (op : queue_op) : option (Queue K V * bool) :=
  match op with
  | QUpsert k pr v => q ← Upsert k pr v q; Some (q, true)
  | QRemove k => Remove k q
  end.

Fixpoint q_runs (q : Queue K V) (ops : list queue_op) : option (Queue K V * list bool) :=
  match ops with
  | [] => Some (q, [])
  | op :: ops => '(q, b) ← q_run q op; '(q, bs) ← q_runs q ops; Some (q, b :: bs)
  end.

(** A map from keys to nodes and the number of keys inserted so far. *)
Definition a_run (m : gmap K node * Z) (op : queue_op) : (gmap K node * Z) * bool :=
  match op with
  | QUpsert k pr v =>
      (match m.1 !! k with
       | Some x => (<[k := mkNode k pr v (n_seq x)]> m.1, m.2)
       | None => (<[k := mkNode k pr v m.2]> m.1, m.2 + 1)
       end, true)
  | QRemove k => ((delete k m.1, m.2), bool_decide (is_Some (m.1 !! k)))
  end.

Fixpoint a_runs (m : gmap K node * Z) (ops : list queue_op) : (gmap K node * Z) * list bool :=
  match ops with
  | [] => (m, [])
  | op :: ops => let '(m, b) := a_run m op in let '(m, bs) := a_runs m ops in (m, b :: bs)
  end.

(** The nodes by priority and, within a priority, by arrival. *)
Definition a_sorted (m : gmap K node) : list node := merge_sort le (map_to_list m).*2.

(** *** Queries *)

Lemma model_nodes l : NoDup (n_key <$> l) → (map_to_list (model l)).*2 ≡ₚ l.
Proof.
  intros Hd. unfold model. rewrite map_to_list_to_map by by rewrite keyed_fst.
  rewrite <- list_fmap_compose. by rewrite list_fmap_id.
Qed.

Lemma NoDup_nodes (l : list node) : NoDup (n_key <$> l) → NoDup l.
Proof. apply NoDup_fmap_1. Qed.

(** Nodes are told apart by their arrival. *)
Definition seqs_distinct (l : list node) : Prop :=
  ∀ x y, x ∈ l → y ∈ l → n_seq x = n_seq y → x = y.

Lemma sorted_unique l k : seqs_distinct l → StronglySorted le l → StronglySorted le k → k ≡ₚ l → k = l.
Proof.
  intros Hs Hl Hk Hp. apply (StronglySorted_unique_strong le); [|done..].
  intros x y Hx Hy H1 H2. apply Hs; [by rewrite <- Hp|done|]. unfold le in *. lia.
Qed.

Lemma a_sorted_spec l : NoDup (n_key <$> l) →
  a_sorted (model l) ≡ₚ l ∧ StronglySorted le (a_sorted (model l)).
Proof.
  intros Hd. unfold a_sorted. split.
  - rewrite merge_sort_Permutation. by apply model_nodes.
  - apply (StronglySorted_merge_sort le).
Qed.

Lemma seqs_distinct_perm l k : l ≡ₚ k → seqs_distinct k → seqs_distinct l.
Proof. intros Hp Hs x y Hx Hy. rewrite Hp in Hx, Hy. by apply Hs. Qed.

Lemma queue_Len q l : queue_ok q l → Len q = Z.of_nat (size (model l)).
Proof.
  intros Hq. unfold Len. rewrite (rep_Len _ _ (qo_rep _ _ Hq)). f_equal.
  rewrite <- length_map_to_list, <- (length_fmap snd).
  by rewrite (model_nodes l (qo_keys _ _ Hq)).
Qed.

Lemma queue_Get q l k : queue_ok q l → Get k q = Some (n_value <$> model l !! k).
Proof.
  intros Hq. unfold Get. rewrite (byKey_model _ _ k Hq).
  destruct (q_byKey q !! k) as [p|] eqn:Hp; [|done]. cbn.
  destruct (byKey_node _ _ _ _ Hq Hp) as (i & x & _ & _ & _ & ->). done.
Qed.

Lemma queue_Peek q l : queue_ok q l → seqs_distinct l →
  Peek q = Some ((λ x, (n_key x, n_priority x, n_value x)) <$> head (a_sorted (model l))).
Proof.
  intros Hq Hs. unfold Peek, Len. rewrite (rep_Len _ _ (qo_rep _ _ Hq)).
  destruct (a_sorted_spec l (qo_keys _ _ Hq)) as [Hp Hsort].
  destruct (Z.eqb_spec (Z.of_nat (length l)) 0) as [E|E].
  { destruct l; [|cbn in E; lia]. by apply Permutation_nil_r in Hp as ->. }
  destruct (zget_Some l 0) as [r Hr]; [lia|]. rewrite (at_index_rep _ _ _ _ (qo_rep _ _ Hq) Hr). cbn.
  destruct (a_sorted (model l)) as [|x s] eqn:Es.
  { symmetry in Hp. apply Permutation_nil_r in Hp as ->. done. }
  cbn. assert (r = x) as ->; [|done].
  assert (x ∈ l) as Hx by (rewrite <- Hp; left). assert (r ∈ l) as Hrl by eauto using zget_elem.
  apply Hs; [done..|]. destruct (elem_zget l x Hx) as [j Hj].
  pose proof (below_le l 0 j r x (qo_heap _ _ Hq) ltac:(done)
    (below_root j ltac:(apply zget_range in Hj; lia)) Hr Hj) as H1.
  rewrite <- Hp in Hrl. apply elem_of_cons in Hrl as [->|Hrs]; [done|].
  apply StronglySorted_inv in Hsort as [_ Hall]. rewrite Forall_forall in Hall.
  pose proof (Hall r Hrs). unfold le in *. lia.
Qed.

Lemma filter_StronglySorted P `{!∀ x, Decision (P x)} l :
  StronglySorted le l → StronglySorted le (filter P l).
Proof.
  induction 1 as [|x l Hl IH Hx]; [constructor|]. rewrite filter_cons. case_decide; [|done].
  constructor; [done|]. rewrite Forall_forall in Hx |- *. intros y [_ Hy]%list_elem_of_filter. by apply Hx.
Qed.

Lemma entry_le_node a b : entry_le a b ↔ le (node_of a) (node_of b).
Proof.
  unfold entry_le, entry_less, le. destruct a, b; cbn. case_if; lia.
Qed.

#[export] Instance entry_le_trans : Transitive (entry_le (K:=K) (V:=V)).
Proof. intros a b c. rewrite !entry_le_node. apply le_trans. Qed.
#[export] Instance entry_le_total : Total (entry_le (K:=K) (V:=V)).
Proof. intros a b. rewrite !entry_le_node. apply le_total. Qed.

(** Whatever the arrival numbers are, the due values come out once each, by
    priority. *)
Lemma queue_due_perm q l p : queue_ok q l →
  ∃ d, ValuesAtOrBefore p q = Some (n_value <$> d) ∧
    d ≡ₚ filter (λ x, n_priority x ≤ p) l ∧ StronglySorted le d.
Proof.
  intros Hq. unfold ValuesAtOrBefore, Len. rewrite (rep_Len _ _ (qo_rep _ _ Hq)).
  destruct (Z.eqb_spec (Z.of_nat (length l)) 0) as [E|E].
  { destruct l; [|cbn in E; lia]. exists []. split_and!; [done|done|constructor]. }
  pose proof (NoDup_nodes l (qo_keys _ _ Hq)) as Hd.
  destruct (collect_spec (fuel_of (q_items q)) q l p (qo_rep _ _ Hq) (qo_heap _ _ Hq) Hd 0 [])
    as (res & -> & Hnd & Hres);
    [done|unfold fuel_of; rewrite (rep_length _ _ (qo_rep _ _ Hq)); lia|unfold fuel_of; lia|].
  exists (node_of <$> merge_sort entry_le res). cbn. split_and!.
  - f_equal. change he_value with (n_value ∘ node_of). apply list_fmap_compose.
  - rewrite merge_sort_Permutation. apply NoDup_Permutation; [done|by apply NoDup_filter|]. intros x.
    rewrite list_elem_of_filter, Hres. split.
    + intros (j & _ & Hj & Hx). eauto using zget_elem.
    + intros [Hx Hl]. apply elem_zget in Hl as [j Hj]. exists j. split; [|done].
      apply below_root. apply zget_range in Hj. lia.
  - apply (StronglySorted_fmap _ entry_le le); [intros a b; by rewrite entry_le_node|].
    apply (StronglySorted_merge_sort entry_le).
Qed.

Lemma queue_due q l p : queue_ok q l → seqs_distinct l →
  ValuesAtOrBefore p q
  = Some (n_value <$> filter (λ x, n_priority x ≤ p) (a_sorted (model l))).
Proof.
  intros Hq Hs. destruct (queue_due_perm q l p Hq) as (d & -> & Hd & Hsd). do 2 f_equal.
  destruct (a_sorted_spec l (qo_keys _ _ Hq)) as [Hp Hsort]. apply sorted_unique; try done.
  - apply (seqs_distinct_perm _ (filter (λ x, n_priority x ≤ p) l)); [by rewrite Hp|].
    intros x y [_ ?]%list_elem_of_filter [_ ?]%list_elem_of_filter. by apply Hs.
  - by apply filter_StronglySorted.
  - by rewrite Hd, Hp.
Qed.

(** *** Operations *)

(** Arrival numbers are below the counter and distinct. *)
Definition seqs_ok (l : list node) (next : Z) : Prop :=
  seqs_distinct l ∧ (∀ x, x ∈ l → n_seq x < next).

Lemma seqs_ok_perm l k n : l ≡ₚ k → seqs_ok k n → seqs_ok l n.
Proof.
  intros Hp [H1 H2]. split; [by eapply seqs_distinct_perm|]. intros x. rewrite Hp. apply H2.
Qed.

Lemma seqs_ok_tail x l n : seqs_ok (x :: l) n → seqs_ok l n.
Proof. intros [H1 H2]. split; [intros a b Ha Hb; apply H1|intros a Ha; apply H2]; by right. Qed.

Lemma seqs_ok_replace x y l n : x ∉ l → n_seq y = n_seq x → seqs_ok (x :: l) n → seqs_ok (y :: l) n.
Proof.
  intros Hx Hy [H1 H2]. assert (Hl : ∀ a, a ∈ l → n_seq a ≠ n_seq x).
  { intros a Ha E. apply Hx. rewrite <- (H1 a x); [done|by right|left|done]. }
  split.
  - intros a b [->|Ha]%elem_of_cons [->|Hb]%elem_of_cons E; [done|..].
    + destruct (Hl b Hb). congruence.
    + destruct (Hl a Ha). congruence.
    + apply H1; [by right|by right|done].
  - intros a [->|Ha]%elem_of_cons; [rewrite Hy; apply H2; left|apply H2; by right].
Qed.

Lemma seqs_ok_fresh y l n : n_seq y = n → seqs_ok l n → seqs_ok (y :: l) (n + 1).
Proof.
  intros Hy [H1 H2]. split.
  - intros a b [->|Ha]%elem_of_cons [->|Hb]%elem_of_cons E; [done| | |by apply H1].
    + specialize (H2 b Hb). lia.
    + specialize (H2 a Ha). lia.
  - intros a [->|Ha]%elem_of_cons; [lia|]. specialize (H2 a Ha). lia.
Qed.

Lemma q_run_spec q l op n : queue_ok q l → seqs_ok l n → q_next q = n → 0 ≤ n < 2 ^ 64 - 1 →
  let '((m', n'), b) := a_run (model l, n) op in
  ∃ q' l', q_run q op = Some (q', b) ∧ queue_ok q' l' ∧ model l' = m' ∧ seqs_ok l' n' ∧
    q_next q' = n' ∧ n ≤ n' ≤ n + 1.
Proof.
  intros Hq Hs Hn Hb. pose proof (qo_keys _ _ Hq) as Hd. destruct op as [k pr v|k]; cbn [a_run q_run fst snd].
  all: rewrite (byKey_model _ _ k Hq); destruct (q_byKey q !! k) as [p|] eqn:Hp.
  - destruct (Upsert_old q l k pr v p Hq Hp) as (q' & l' & x & r & -> & Hq' & Hk & Hl & Hl' & Hnx).
    destruct (byKey_node _ _ _ _ Hq Hp) as (i & x' & Hx' & Hk' & _ & Hsx). cbn. rewrite Hsx. cbn.
    rewrite Hl in Hd. apply NoDup_cons in Hd as [Hkr Hdr].
    assert (x' = x) as ->.
    { apply zget_elem in Hx'. rewrite Hl in Hx'. apply elem_of_cons in Hx' as [->|Hx']; [done|].
      destruct Hkr. apply list_elem_of_fmap. exists x'. split; [congruence|done]. }
    exists q', l'. split; [done|]. split_and!; try done; try lia; try congruence.
    + subst k. by eapply model_replace; eauto using qo_keys.
    + eapply seqs_ok_perm; [exact Hl'|]. eapply (seqs_ok_replace x); [|done|by eapply seqs_ok_perm].
      intros Hx. apply Hkr, list_elem_of_fmap. eauto.
  - cbn. destruct (Upsert_new q l k pr v Hq Hp) as (q' & l' & -> & Hq' & Hl' & Hnx). cbn.
    exists q', l'. split; [done|]. split_and!; try done; try lia.
    + rewrite (model_perm l' _ (qo_keys _ _ Hq') Hl'), model_cons. cbn. by rewrite Hn.
    + eapply seqs_ok_perm; [exact Hl'|]. by apply seqs_ok_fresh.
    + rewrite Hnx, Hn. unfold wrap. rewrite Z.mod_small; lia.
  - destruct (Remove_spec q l k p Hq Hp) as (q' & l' & x & -> & Hq' & Hk & Hl & Hnx).
    destruct (byKey_node _ _ _ _ Hq Hp) as (i & x' & Hx' & Hk' & _ & Hsx). cbn. rewrite Hsx. cbn.
    exists q', l'. split; [done|]. split_and!; try done; try lia; try congruence.
    + rewrite <- Hk. by apply model_remove.
    + eapply seqs_ok_tail. by eapply seqs_ok_perm; [symmetry|].
  - cbn. unfold Remove. rewrite Hp. exists q, l.
    split_and!; try done; try lia. symmetry. apply delete_id. by rewrite (byKey_model _ _ k Hq), Hp.
Qed.

Lemma q_runs_spec ops : ∀ q l n, queue_ok q l → seqs_ok l n → q_next q = n → 0 ≤ n →
  n + Z.of_nat (length ops) < 2 ^ 64 →
  let '((m', n'), bs) := a_runs (model l, n) ops in
  ∃ q' l', q_runs q ops = Some (q', bs) ∧ queue_ok q' l' ∧ model l' = m' ∧ seqs_ok l' n'.
Proof.
  induction ops as [|op ops IH]; intros q l n Hq Hs Hn H0 Hb; [by exists q, l|].
  cbn [length a_runs q_runs] in *.
  pose proof (q_run_spec q l op n Hq Hs Hn ltac:(lia)) as Hop.
  destruct (a_run (model l, n) op) as [[m1 n1] b].
  destruct Hop as (q1 & l1 & -> & Hq1 & <- & Hs1 & Hn1 & Hle). cbn.
  specialize (IH q1 l1 n1 Hq1 Hs1 Hn1 ltac:(lia) ltac:(lia)).
  destruct (a_runs (model l1, n1) ops) as [[m2 n2] bs].
  destruct IH as (q2 & l2 & -> & ?). by exists q2, l2.
Qed.

(** C31. The indexed heap is a priority map: any sequence of fewer than [2^64] upserts and
    removals runs without a panic and within the loops' bounds, answers as the
    map from keys to (priority, value, arrival) does, and leaves a queue whose
    [Len], [Get], [Peek] and [ValuesAtOrBefore] are those of the map: the least
    node by priority then arrival, and all values due, in that order. *)
Theorem queue_refines_map (ops : list queue_op) :
  Z.of_nat (length ops) < 2 ^ 64 →
  let '((m, _), answers) := a_runs (∅, 0) ops in
  ∃ q, q_runs New ops = Some (q, answers) ∧
    Len q = Z.of_nat (size m) ∧
    (∀ k, Get k q = Some (n_value <$> m !! k)) ∧
    Peek q = Some ((λ x, (n_key x, n_priority x, n_value x)) <$> head (a_sorted m)) ∧
    (∀ p, ValuesAtOrBefore p q = Some (n_value <$> filter (λ x, n_priority x ≤ p) (a_sorted m))).
Proof.
  intros Hb. pose proof (q_runs_spec ops New [] 0 queue_ok_New) as H. change (model []) with (∅ : gmap K node) in H.
  destruct (a_runs (∅, 0) ops) as [[m n] bs].
  destruct H as (q & l & Hr & Hq & <- & Hs); [by split; [intros x ? ?%elem_of_nil|intros x ?%elem_of_nil]|done|done|lia|].
  exists q. split_and!; [done|by apply queue_Len|intros k; by apply queue_Get|by apply queue_Peek, Hs|].
  intros p. by apply queue_due, Hs.
Qed.
End heap.

Arguments node : clear implicits.
Arguments queue_op : clear implicits.

Lemma queue_refines_map_witness :
  ∃ q : Queue string nat,
    q_runs New [QUpsert "a" 5 1%nat; QUpsert "b" 3 2%nat; QUpsert "c" 3 3%nat; QUpsert "a" 3 4%nat; QRemove "b"]
      = Some (q, [true; true; true; true; true]) ∧
    Peek q = Some (Some ("a", 3, 4%nat)) ∧ ValuesAtOrBefore 3 q = Some [4%nat; 3%nat].
Proof.
  destruct (queue_refines_map (K:=string) (V:=nat)
    [QUpsert "a" 5 1%nat; QUpsert "b" 3 2%nat; QUpsert "c" 3 3%nat; QUpsert "a" 3 4%nat; QRemove "b"] ltac:(cbn; lia))
    as (q & Hr & _ & _ & Hp & Hd).
  exists q. split; [exact Hr|]. split; [exact Hp|]. rewrite (Hd 3). vm_compute. reflexivity.
Defined.
