(* ===== verification/WillDelay.v ===== *)
(** * Delayed will messages

    [src/internal/broker/willdelay]: the task store ([internal/state/core.go],
    [validation.go]), its state machine ([statemachine/state_machine.go]), the
    scanner that publishes due wills ([scanner.go]), and the conversion of a will
    between a CONNECT packet, the session message and a PUBLISH packet
    ([src/pkg/brokerapi/session/converters.go]).

    The store keeps the tasks in a map and an indexed heap; [None] is a run-time
    panic of the heap.  Go ranges over a map in an unspecified order: [range] is
    that order, any enumeration of the map's entries. *)

From stdpp Require Import sorting.
From S2P Require Import Prelude GoStrings Mqtt5 SessionCore IndexedHeap.

(** ** Messages of [will_delay.proto] *)

Record WillDelayTask := mkWillTask {
  wt_ClientID : string;
  wt_ScheduledPublishTime : Z;
  wt_OwnerToken : string }.

#[export] Instance WillDelayTask_eq_dec : EqDecision WillDelayTask.
Proof. solve_decision. Defined.

Definition ADD_TASK : Z := 0.
Definition DELETE_TASK : Z := 1.
Definition GET_DUE_TASKS : Z := 2.

Record WillDelayRequest := mkWillRequest {
  wr_Type : Z;
  wr_Task : option WillDelayTask;
  wr_ClientID : option string;
  wr_CurrentTime : option Z }.

Record WillDelayResponse := mkWillResponse {
  wp_DueClientIDs : list string;
  wp_Success : bool;
  wp_DueTasks : list WillDelayTask }.

(** ** The task store *)

Definition ValidateTaskForAdd (task : option WillDelayTask) : result string unit :=
  match task with
  | None => Err "nil will delay task"
  | Some t =>
      if bool_decide (wt_ClientID t = "") then Err "will delay task client id is required"
      else if bool_decide (wt_OwnerToken t = "") then Err "will delay task owner token is required"
      else Ok tt
  end.

Definition willDelayTaskKeySeparator : string := String "000" "".

Definition taskKeyFromParts (clientID ownerToken : string) : string :=
  if bool_decide (ownerToken = "") then clientID
  else (clientID +:+ willDelayTaskKeySeparator +:+ ownerToken)%string.

Definition taskKey (task : WillDelayTask) : string :=
  taskKeyFromParts (wt_ClientID task) (wt_OwnerToken task).

Record WillCore := mkWillCore {
  wc_dueTasks : Queue string WillDelayTask;
  wc_tasks : gmap string WillDelayTask }.

Definition NewWillCore : WillCore := mkWillCore New ∅.

(** [c.tasks[key] = task; c.dueTasks.Upsert(...)]. *)
Definition putTask (task : WillDelayTask) (c : WillCore) : option WillCore :=
  let key := taskKey task in
  q ← Upsert key (wt_ScheduledPublishTime task) task (wc_dueTasks c);
  Some (mkWillCore q (<[key := task]> (wc_tasks c))).

Definition AddTask (task : option WillDelayTask) (c : WillCore)
    : option (WillCore * result string unit) :=
  match ValidateTaskForAdd task, task with
  | Ok _, Some t => c ← putTask t c; Some (c, Ok tt)
  | Err e, _ => Some (c, Err e)
  | Ok _, None => None
  end.

Definition deleteTaskKeyUnsafe (key : string) (c : WillCore) : option WillCore :=
  '(q, _) ← Remove key (wc_dueTasks c);
  Some (mkWillCore q (delete key (wc_tasks c))).

(** The enumeration of a map by [range]. *)
Definition map_range : Type := gmap string WillDelayTask → list (string * WillDelayTask).

Fixpoint deleteTasksOf (clientID : string) (entries : list (string * WillDelayTask)) (c : WillCore)
    : option WillCore :=
  match entries with
  | [] => Some c
  | (key, task) :: entries =>
      c ← (if bool_decide (wt_ClientID task ≠ clientID) then Some c else deleteTaskKeyUnsafe key c);
      deleteTasksOf clientID entries c
  end.

Definition DeleteTask (range : map_range) (clientID : string) (c : WillCore) : option WillCore :=
  deleteTasksOf clientID (range (wc_tasks c)) c.

Definition DeleteTaskByOwner (range : map_range) (clientID ownerToken : string) (c : WillCore)
    : option WillCore :=
  if bool_decide (ownerToken = "") then deleteTasksOf clientID (range (wc_tasks c)) c
  else deleteTaskKeyUnsafe (taskKeyFromParts clientID ownerToken) c.

(** Stored tasks are never nil. *)
Definition GetDueTasks (nowUnixMicro : Z) (c : WillCore) : option (list WillDelayTask) :=
  ValuesAtOrBefore nowUnixMicro (wc_dueTasks c).

Definition GetState (c : WillCore) : gmap string WillDelayTask := wc_tasks c.

Fixpoint recoverTasks (entries : list (string * WillDelayTask)) (c : WillCore) : option WillCore :=
  match entries with
  | [] => Some c
  | (_, task) :: entries =>
      c ← match ValidateTaskForAdd (Some task) with
          | Err _ => Some c
          | Ok _ => putTask task c
          end;
      recoverTasks entries c
  end.

Definition RecoverFromState (range : map_range) (state : gmap string WillDelayTask)
    : option WillCore :=
  recoverTasks (range state) NewWillCore.

(** ** The state machine *)

(** Protobuf encodings of requests and snapshots. *)
Record WillProto (E Snap : Type) := {
  unmarshalWillRequest : list byte → result E WillDelayRequest;
  marshalWillState : gmap string WillDelayTask → result E Snap;
  unmarshalWillState : Snap → result E (gmap string WillDelayTask) }.
Arguments unmarshalWillRequest {E Snap}.
Arguments marshalWillState {E Snap}.
Arguments unmarshalWillState {E Snap}.

Inductive WillSMError (E : Type) :=
| WProtoError (e : E)
| WTaskError (msg : string)
| WMissingClientID
| WInvalidType (t : Z).
Arguments WProtoError {E}.
Arguments WTaskError {E}.
Arguments WMissingClientID {E}.
Arguments WInvalidType {E}.

Section state_machine.
Context {E Snap : Type} (P : WillProto E Snap).

Definition lift_task (r : result string unit) : result (WillSMError E) unit :=
  match r with Ok _ => Ok tt | Err e => Err (WTaskError e) end.

Definition client_of (req : WillDelayRequest) : string := default "" (wr_ClientID req).

Definition ValidateUpdate (bytes : list byte) : result (WillSMError E) unit :=
  match unmarshalWillRequest P bytes with
  | Err e => Err (WProtoError e)
  | Ok req =>
      if wr_Type req =? ADD_TASK then lift_task (ValidateTaskForAdd (wr_Task req))
      else if wr_Type req =? DELETE_TASK then
        if bool_decide (client_of req = "") then Err WMissingClientID else Ok tt
      else Err (WInvalidType (wr_Type req))
  end.

Definition Update (range : map_range) (c : WillCore) (bytes : list byte)
    : option (WillCore * result (WillSMError E) unit) :=
  match unmarshalWillRequest P bytes with
  | Err e => Some (c, Err (WProtoError e))
  | Ok req =>
      if wr_Type req =? ADD_TASK then
        match ValidateTaskForAdd (wr_Task req) with
        | Err e => Some (c, Err (WTaskError e))
        | Ok _ => '(c, r) ← AddTask (wr_Task req) c; Some (c, lift_task r)
        end
      else if wr_Type req =? DELETE_TASK then
        if bool_decide (client_of req = "") then Some (c, Err WMissingClientID)
        else
          let token := default "" (wt_OwnerToken <$> wr_Task req) in
          c ← (if bool_decide (token ≠ "") then DeleteTaskByOwner range (client_of req) token c
               else DeleteTask range (client_of req) c);
          Some (c, Ok tt)
      else Some (c, Err (WInvalidType (wr_Type req)))
  end.

(** [clock] is [time.Now().UnixMicro()], read when the request carries no time. *)
Definition Lookup (clock : Z) (c : WillCore) (req : WillDelayRequest)
    : option (result (WillSMError E) WillDelayResponse) :=
  if negb (wr_Type req =? GET_DUE_TASKS) then Some (Err (WInvalidType (wr_Type req)))
  else
    due ← GetDueTasks (default clock (wr_CurrentTime req)) c;
    Some (Ok (mkWillResponse (wt_ClientID <$> due) true due)).

Definition SaveSnapshot (c : WillCore) : result (WillSMError E) Snap :=
  match marshalWillState P (GetState c) with Ok d => Ok d | Err e => Err (WProtoError e) end.

Definition RecoverFromSnapshot (range : map_range) (c : WillCore) (data : Snap)
    : option (WillCore * result (WillSMError E) unit) :=
  match unmarshalWillState P data with
  | Err e => Some (c, Err (WProtoError e))
  | Ok state => c ← RecoverFromState range state; Some (c, Ok tt)
  end.
End state_machine.

(** ** Wills as session messages and PUBLISH packets *)

Definition WillMessageToProto (connectPacket : Connect) : option WillMessage :=
  if negb (con_WillFlag connectPacket) then None
  else
    let base := mkWillMessage (con_WillTopic connectPacket) (con_WillMessage connectPacket)
                  (con_WillQOS connectPacket) (con_WillRetain connectPacket) ∅
                  None None None None [] None None in
    Some match con_WillProperties connectPacket with
    | None => base
    | Some p =>
        mkWillMessage (wm_Topic base) (wm_Payload base) (wm_Qos base) (wm_Retain base) ∅
          (if bool_decide (pup_ContentType p = "") then None else Some (pup_ContentType p))
          (if bool_decide (pup_ResponseTopic p = "") then None else Some (pup_ResponseTopic p))
          (match pup_CorrelationData p with Some (b :: d) => Some (b :: d) | _ => None end)
          (pup_MessageExpiry p)
          ((λ u, mkUserProperty (usr_Key u) (usr_Value u)) <$> pup_User p)
          (pup_PayloadFormat p)
          (pup_WillDelayInterval p)
    end.

Definition ProtoToWillProperties (willMsg : WillMessage) : PublishProperties :=
  mkPublishProperties
    (wrap 8 <$> wm_PayloadFormat willMsg)
    (wm_MessageExpiry willMsg)
    None
    (default "" (wm_ContentType willMsg))
    (default "" (wm_ResponseTopic willMsg))
    (match wm_CorrelationData willMsg with Some (b :: d) => Some (b :: d) | _ => None end)
    None []
    ((λ u, mkUser (upr_Key u) (upr_Value u)) <$> wm_UserProperties willMsg).

(** ** The scanner *)

(** The message handed to the broker; its other fields keep their zero value. *)
Record Message := mkMessage {
  mg_Publish : Publish;
  mg_SendClientID : string;
  mg_OwnerToken : string;
  mg_Will : bool }.

(** What the scanner needs of a [Center] that also deletes by owner; [ws_scheduled]
    is the abstract contents: the time for which a client's owner scheduled its
    will.  The laws are what the center promises. *)
Class WillCenter (S : Type) := {
  ws_ok : S → Prop;
  ws_scheduled : S → string → string → option Z;
  ws_GetDueTasks : Z → S → option (list WillDelayTask);
  ws_DeleteTask : string → S → option S;
  ws_DeleteTaskByOwner : string → string → S → option S;
  ws_due now s : ws_ok s →
    ∃ due, ws_GetDueTasks now s = Some due ∧ NoDup due ∧
      StronglySorted (λ a b, wt_ScheduledPublishTime a ≤ wt_ScheduledPublishTime b) due ∧
      ∀ t, t ∈ due ↔ ws_scheduled s (wt_ClientID t) (wt_OwnerToken t) = Some (wt_ScheduledPublishTime t) ∧
        wt_ScheduledPublishTime t ≤ now;
  ws_named s id token : ws_ok s → is_Some (ws_scheduled s id token) → id ≠ "" ∧ token ≠ "";
  ws_delete s id token : ws_ok s → token ≠ "" → id ≠ "" →
    is_Some (ws_scheduled s id token) →
    ∃ s', ws_DeleteTaskByOwner id token s = Some s' ∧ ws_ok s' ∧
      ∀ i k, ws_scheduled s' i k = if decide (i = id ∧ k = token) then None else ws_scheduled s i k }.

(** What happens around the execution of one task: the session center it reads,
    whether its two queries fail, the time the session query reads, whether the
    channel takes the message before the context ends, and whether the deletion
    fails. *)
Record TaskIO := mkTaskIO {
  io_session : Core;
  io_ownerErr : bool;
  io_sessionErr : bool;
  io_clock : Z;
  io_sent : bool;
  io_deleteErr : bool }.

Definition willDelayTaskOwnerStillValid (io : TaskIO) (task : WillDelayTask) : bool :=
  if bool_decide (wt_OwnerToken task = "") then true
  else if io_ownerErr io then false
  else
    match GetSessionOwner (io_session io) (wt_ClientID task) with
    | (Some owner, true) =>
        if bool_decide (ow_OwnerToken owner ≠ wt_OwnerToken task) then false
        else negb (ow_Online owner)
    | _ => true
    end.

(** The message of a task, as [executeTask] builds it. *)
Definition will_publication (task : WillDelayTask) (w : WillMessage) : Message :=
  mkMessage
    (mkPublish (wm_Payload w) (wm_Topic w) (Some (ProtoToWillProperties w)) 0
       (wrap 8 (wm_Qos w)) false (wm_Retain w))
    (wt_ClientID task) (wt_OwnerToken task) true.

Section scanner.
Context {S : Type} `{!WillCenter S}.

Definition deleteTask (io : TaskIO) (task : WillDelayTask) (s : S) : option S :=
  if io_deleteErr io then Some s
  else if bool_decide (wt_OwnerToken task ≠ "")
  then ws_DeleteTaskByOwner (wt_ClientID task) (wt_OwnerToken task) s
  else ws_DeleteTask (wt_ClientID task) s.

Definition executeTask (io : TaskIO) (task : WillDelayTask) (s : S) : option (S * list Message) :=
  if bool_decide (wt_ClientID task = "") then Some (s, [])
  else if negb (willDelayTaskOwnerStillValid io task) then
    s ← deleteTask io task s; Some (s, [])
  else if io_sessionErr io then Some (s, [])
  else
    match GetSession (io_clock io) (io_session io) (wt_ClientID task) 0 with
    | (Some session, true) =>
        match ss_WillMessage session with
        | None => s ← deleteTask io task s; Some (s, [])
        | Some w =>
            if io_sent io then
              s ← deleteTask io task s; Some (s, [will_publication task w])
            else Some (s, [])
        end
    | _ => s ← deleteTask io task s; Some (s, [])
    end.

Fixpoint executeTasks (io : WillDelayTask → TaskIO) (tasks : list WillDelayTask) (s : S)
    : option (S * list Message) :=
  match tasks with
  | [] => Some (s, [])
  | task :: tasks =>
      '(s, out) ← executeTask (io task) task s;
      '(s, out') ← executeTasks io tasks s;
      Some (s, out ++ out')
  end.

Definition scanAndExecute (io : WillDelayTask → TaskIO) (currentTime : Z) (s : S)
    : option (S * list Message) :=
  dueTasks ← ws_GetDueTasks currentTime s;
  executeTasks io dueTasks s.
End scanner.
