(* ===== verification/WillDelayProofs.v ===== *)
(** * Delayed will messages: proofs

    The task store refines a map from (client, owner token) to a publish time;
    the scanner, proved against the [WillCenter] interface, publishes each due
    will once; the store implements the interface. *)

From stdpp Require Import sorting.
From S2P Require Import Prelude GoStrings Mqtt5 SessionCore IndexedHeap IndexedHeapProofs WillDelay.

(** ** Task keys *)

(** MQTT strings hold no NUL character; the wire decoder rejects it. *)
Definition nul_free (s : string) : Prop := "000"%char ∉ go_bytes s.

#[export] Instance nul_free_dec s : Decision (nul_free s).
Proof. unfold nul_free. apply _. Defined.

Lemma nul_free_cons a s : nul_free (String a s) ↔ a ≠ "000"%char ∧ nul_free s.
Proof. unfold nul_free. cbn. rewrite not_elem_of_cons. naive_solver. Qed.

Lemma key_parts_inj i j k k' : nul_free i → nul_free j → k ≠ "" → k' ≠ "" →
  taskKeyFromParts i k = taskKeyFromParts j k' → i = j ∧ k = k'.
Proof.
  intros Hi Hj Hk Hk'. unfold taskKeyFromParts. rewrite !bool_decide_false by done.
  revert j Hj. induction i as [|a i IH]; intros [|b j] Hj; cbn; intros [=]; subst.
  - done.
  - by apply nul_free_cons in Hj as [? _].
  - by apply nul_free_cons in Hi as [? _].
  - apply nul_free_cons in Hi as [_ Hi]. apply nul_free_cons in Hj as [_ Hj].
    destruct (IH Hi j Hj) as [-> ->]; done.
Qed.

(** ** Invariant of the store *)

Record task_ok (t : WillDelayTask) : Prop := {
  to_client : wt_ClientID t ≠ "";
  to_token : wt_OwnerToken t ≠ "";
  to_nul : nul_free (wt_ClientID t) }.

Lemma ValidateTaskForAdd_Ok t u : ValidateTaskForAdd (Some t) = Ok u ↔ wt_ClientID t ≠ "" ∧ wt_OwnerToken t ≠ "".
Proof. destruct u. cbn. repeat case_bool_decide; naive_solver. Qed.

(** Queue and map hold the same tasks, each under its key, queued for its time. *)
Definition will_ok (c : WillCore) : Prop :=
  ∃ l, queue_ok (wc_dueTasks c) l ∧ wc_tasks c = n_value <$> model l ∧
    map_Forall (λ k x, n_priority x = wt_ScheduledPublishTime (n_value x) ∧
                       k = taskKey (n_value x) ∧ task_ok (n_value x)) (model l).

Definition scheduled (c : WillCore) (clientID ownerToken : string) : option Z :=
  t ← wc_tasks c !! taskKeyFromParts clientID ownerToken;
  guard (wt_ClientID t = clientID ∧ wt_OwnerToken t = ownerToken);; Some (wt_ScheduledPublishTime t).

Lemma scheduled_Some c i k z :
  scheduled c i k = Some z ↔ wc_tasks c !! taskKeyFromParts i k = Some (mkWillTask i z k).
Proof.
  unfold scheduled. destruct (wc_tasks c !! taskKeyFromParts i k) as [[i' z' k']|]; cbn; [|done].
  case_guard as Hg; cbn in *; split; intros; simplify_eq; try done; naive_solver.
Qed.

Lemma will_ok_task c key t : will_ok c → wc_tasks c !! key = Some t → key = taskKey t ∧ task_ok t.
Proof.
  intros (l & _ & -> & Hl) Ht. rewrite lookup_fmap in Ht. apply fmap_Some in Ht as (x & Hx & ->).
  by destruct (Hl _ _ Hx) as (_ & ? & ?).
Qed.

Lemma scheduled_named c i k : will_ok c → is_Some (scheduled c i k) → i ≠ "" ∧ k ≠ "" ∧ nul_free i.
Proof.
  intros Hc [z Hz]. apply scheduled_Some in Hz. by destruct (will_ok_task _ _ _ Hc Hz) as [_ [? ? ?]].
Qed.

Lemma will_ok_New : will_ok NewWillCore.
Proof. exists []. split_and!; [apply queue_ok_New|done|apply map_Forall_empty]. Qed.

(** ** Writing one key *)

Lemma putTask_ok c t : will_ok c → task_ok t →
  ∃ c', putTask t c = Some c' ∧ will_ok c' ∧ wc_tasks c' = <[taskKey t := t]> (wc_tasks c).
Proof.
  intros (l & Hq & Ht & Hl) Hok. unfold putTask.
  destruct (Upsert_model _ _ (taskKey t) (wt_ScheduledPublishTime t) t Hq) as (q' & l' & s & -> & Hq' & Hm).
  cbn. eexists. split; [done|]. split; [|done]. exists l'. split; [done|]. cbn. rewrite Hm, fmap_insert, Ht.
  split; [done|]. by apply map_Forall_insert_2.
Qed.

Lemma deleteTaskKey_ok c key : will_ok c →
  ∃ c', deleteTaskKeyUnsafe key c = Some c' ∧ will_ok c' ∧ wc_tasks c' = delete key (wc_tasks c).
Proof.
  intros (l & Hq & Ht & Hl). unfold deleteTaskKeyUnsafe.
  destruct (Remove_model _ _ key Hq) as (q' & l' & -> & Hq' & Hm).
  cbn. eexists. split; [done|]. split; [|done]. exists l'. split; [done|]. cbn.
  rewrite Hm, fmap_delete, Ht. split; [done|]. by apply map_Forall_delete.
Qed.

(** What a write of one key means for what is scheduled. *)
Lemma scheduled_put c c' t : will_ok c → task_ok t → wc_tasks c' = <[taskKey t := t]> (wc_tasks c) →
  ∀ i k, scheduled c' i k
    = if decide (i = wt_ClientID t ∧ k = wt_OwnerToken t) then Some (wt_ScheduledPublishTime t)
      else scheduled c i k.
Proof.
  intros Hc Ht E i k. apply option_eq. intros z. rewrite scheduled_Some, E. case_decide as Hd.
  - destruct Hd as [-> ->]. change (taskKeyFromParts _ _) with (taskKey t). rewrite lookup_insert_eq.
    destruct t. cbn. naive_solver.
  - rewrite scheduled_Some. destruct (decide (taskKey t = taskKeyFromParts i k)) as [Hk|Hk];
      [|by rewrite lookup_insert_ne].
    rewrite Hk, lookup_insert_eq. split; [intros [= ->]; naive_solver|].
    intros Hold. exfalso. apply Hd. destruct (will_ok_task _ _ _ Hc Hold) as [_ [H1 H2 H3]].
    destruct Ht as [? ? ?]. cbn in *. unfold taskKey in Hk. apply key_parts_inj in Hk; naive_solver.
Qed.

Lemma scheduled_delete c c' i0 k0 : will_ok c → k0 ≠ "" → nul_free i0 →
  wc_tasks c' = delete (taskKeyFromParts i0 k0) (wc_tasks c) →
  ∀ i k, scheduled c' i k = if decide (i = i0 ∧ k = k0) then None else scheduled c i k.
Proof.
  intros Hc Hk0 Hi0 E i k. apply option_eq. intros z. rewrite scheduled_Some, E. case_decide as Hd.
  - destruct Hd as [-> ->]. by rewrite lookup_delete_eq.
  - rewrite scheduled_Some. destruct (decide (taskKeyFromParts i0 k0 = taskKeyFromParts i k)) as [Hk|Hk];
      [|by rewrite lookup_delete_ne].
    rewrite Hk, lookup_delete_eq. split; [done|]. intros Hold. exfalso. apply Hd.
    destruct (will_ok_task _ _ _ Hc Hold) as [_ [H1 H2 H3]]. cbn in *.
    apply key_parts_inj in Hk; naive_solver.
Qed.

(** ** Sweeps over the map *)

Definition range_ok (range : map_range) : Prop := ∀ m, range m ≡ₚ map_to_list m.

Lemma elem_of_range range m k t : range_ok range → (k, t) ∈ range m ↔ m !! k = Some t.
Proof. intros Hr. rewrite (Hr m). apply elem_of_map_to_list. Qed.

Lemma deleteTasksOf_ok id entries : ∀ c, will_ok c →
  ∃ c', deleteTasksOf id entries c = Some c' ∧ will_ok c' ∧
    ∀ k, wc_tasks c' !! k = if decide (Exists (λ e, e.1 = k ∧ wt_ClientID e.2 = id) entries)
                            then None else wc_tasks c !! k.
Proof.
  induction entries as [|[k t] entries IH]; intros c Hc.
  { by exists c. }
  cbn [deleteTasksOf]. assert (Hx : ∀ k', Exists (λ e, e.1 = k' ∧ wt_ClientID e.2 = id) ((k, t) :: entries)
    ↔ (k = k' ∧ wt_ClientID t = id) ∨ Exists (λ e, e.1 = k' ∧ wt_ClientID e.2 = id) entries)
    by (intros; apply Exists_cons).
  case_bool_decide as Hid.
  - destruct (IH c Hc) as (c' & Hd & Hc' & Ht). exists c'. split_and!; [done|done|]. intros k'.
    rewrite Ht. apply decide_ext; rewrite Hx; naive_solver.
  - destruct (deleteTaskKey_ok c k Hc) as (c1 & -> & Hc1 & Ht1). cbn.
    destruct (IH c1 Hc1) as (c' & Hd & Hc' & Ht). exists c'. split_and!; [done|done|]. intros k'.
    rewrite Ht, Ht1. destruct (decide (k = k')) as [->|Hk].
    + rewrite lookup_delete_eq. rewrite (decide_True (P := Exists _ (_ :: _))) by (apply Hx; auto).
      by case_decide.
    + rewrite lookup_delete_ne by done. apply decide_ext; rewrite Hx; naive_solver.
Qed.

Lemma DeleteTask_ok range id c : range_ok range → will_ok c →
  ∃ c', DeleteTask range id c = Some c' ∧ will_ok c' ∧
    ∀ i k, scheduled c' i k = if decide (i = id) then None else scheduled c i k.
Proof.
  intros Hr Hc. destruct (deleteTasksOf_ok id (range (wc_tasks c)) c Hc) as (c' & Hd & Hc' & Ht).
  exists c'. split_and!; [done|done|]. intros i k. apply option_eq. intros z.
  rewrite scheduled_Some, Ht.
  assert (Hx : wc_tasks c !! taskKeyFromParts i k = Some (mkWillTask i z k) →
    Exists (λ e, e.1 = taskKeyFromParts i k ∧ wt_ClientID e.2 = id) (range (wc_tasks c)) ↔ i = id).
  { intros Hold. rewrite Exists_exists. split.
    - intros ([k' t] & Hin & Hk & Hi). apply (elem_of_range range _ _ _ Hr) in Hin. naive_solver.
    - intros ->. exists (taskKeyFromParts id k, mkWillTask id z k). split; [|done].
      by apply (elem_of_range range). }
  destruct (decide (i = id)); case_decide; rewrite ?scheduled_Some; naive_solver.
Qed.

Lemma DeleteTaskByOwner_ok range id token c : range_ok range → will_ok c → token ≠ "" → nul_free id →
  ∃ c', DeleteTaskByOwner range id token c = Some c' ∧ will_ok c' ∧
    ∀ i k, scheduled c' i k = if decide (i = id ∧ k = token) then None else scheduled c i k.
Proof.
  intros Hr Hc Ht Hid. unfold DeleteTaskByOwner. rewrite bool_decide_false by done.
  destruct (deleteTaskKey_ok c (taskKeyFromParts id token) Hc) as (c' & Hd & Hc' & E).
  exists c'. split_and!; [done|done|]. by apply scheduled_delete.
Qed.

Lemma recoverTasks_ok entries : ∀ c, will_ok c →
  Forall (λ e, e.1 = taskKey e.2 ∧ task_ok e.2) entries → NoDup entries.*1 →
  ∃ c', recoverTasks entries c = Some c' ∧ will_ok c' ∧
    wc_tasks c' = list_to_map entries ∪ wc_tasks c.
Proof.
  induction entries as [|[k t] entries IH]; intros c Hc Hn Hd.
  { exists c. split_and!; try done. symmetry. apply (left_id_L ∅ _). }
  apply Forall_cons in Hn as [[Hk Ht] Hn]. apply NoDup_cons in Hd as [Hnk Hd]. cbn [fst snd] in *.
  cbn [recoverTasks]. destruct (ValidateTaskForAdd (Some t)) as [[]|e] eqn:Hv.
  - destruct (putTask_ok c t Hc Ht) as (c1 & -> & Hc1 & Ht1). cbn [mbind option_bind].
    destruct (IH c1 Hc1 Hn Hd) as (c' & Hr & Hc' & Hin). exists c'. split_and!; [done|done|].
    rewrite Hin, Ht1, <- Hk. cbn. rewrite <- insert_union_r by by apply not_elem_of_list_to_map.
    by rewrite insert_union_l.
  - exfalso. destruct Ht as [H1 H2 _]. assert (ValidateTaskForAdd (Some t) = Ok tt) as E
      by by apply ValidateTaskForAdd_Ok. congruence.
Qed.

Lemma RecoverFromState_ok range c : range_ok range → will_ok c →
  ∃ c', RecoverFromState range (GetState c) = Some c' ∧ will_ok c' ∧ wc_tasks c' = wc_tasks c.
Proof.
  intros Hr Hc. unfold RecoverFromState, GetState.
  destruct (recoverTasks_ok (range (wc_tasks c)) NewWillCore will_ok_New) as (c' & Hd & Hc' & Ht).
  - apply Forall_forall. intros [k t] Hin. apply (elem_of_range range _ _ _ Hr) in Hin.
    by apply (will_ok_task c).
  - rewrite (Hr (wc_tasks c)). apply NoDup_fst_map_to_list.
  - exists c'. split_and!; [done|done|]. rewrite Ht. cbn. rewrite (right_id_L ∅ _).
    rewrite (list_to_map_proper _ (map_to_list (wc_tasks c))); [apply list_to_map_to_list| |apply Hr].
    rewrite (Hr (wc_tasks c)). apply NoDup_fst_map_to_list.
Qed.

(** ** Due tasks *)

Definition by_time (a b : WillDelayTask) : Prop := wt_ScheduledPublishTime a ≤ wt_ScheduledPublishTime b.

Lemma GetDueTasks_ok now c : will_ok c →
  ∃ due, GetDueTasks now c = Some due ∧ NoDup due ∧ StronglySorted by_time due ∧
    ∀ t, t ∈ due ↔ scheduled c (wt_ClientID t) (wt_OwnerToken t) = Some (wt_ScheduledPublishTime t) ∧
      wt_ScheduledPublishTime t ≤ now.
Proof.
  intros (l & Hq & Ht & Hl). destruct (queue_due_perm _ _ now Hq) as (d & Hd & Hp & Hs).
  pose proof (qo_keys _ _ Hq) as Hk.
  assert (Hin : ∀ x, x ∈ d ↔ model l !! n_key x = Some x ∧ n_priority x ≤ now).
  { intros x. rewrite Hp, list_elem_of_filter, (model_lookup l _ x Hk). naive_solver. }
  assert (Hok : ∀ x, x ∈ d → n_priority x = wt_ScheduledPublishTime (n_value x) ∧ n_key x = taskKey (n_value x)).
  { intros x [Hx _]%Hin. by destruct (Hl _ _ Hx) as (? & ? & _). }
  exists (n_value <$> d). split_and!.
  - done.
  - apply (NoDup_fmap_1 taskKey). rewrite <- list_fmap_compose.
    rewrite (list_fmap_ext _ n_key); [|intros i x Hx; symmetry; apply Hok; by eapply list_elem_of_lookup_2].
    rewrite Hp. apply (sublist_NoDup _ (n_key <$> l)); [done|]. apply fmap_sublist, sublist_filter.
  - clear Hd Hp Hin. induction Hs as [|x d Hs IH Hx]; [constructor|]. cbn. constructor.
    + apply IH. intros y Hy. apply Hok. by right.
    + rewrite Forall_fmap. rewrite Forall_forall in Hx |- *. intros y Hy. cbn. unfold by_time.
      rewrite <- (proj1 (Hok x ltac:(left))), <- (proj1 (Hok y ltac:(by right))).
      specialize (Hx y Hy). unfold le in Hx. lia.
  - intros t. rewrite scheduled_Some, Ht, lookup_fmap. change (taskKeyFromParts _ _) with (taskKey t).
    assert (mkWillTask (wt_ClientID t) (wt_ScheduledPublishTime t) (wt_OwnerToken t) = t) as -> by by destruct t.
    rewrite list_elem_of_fmap. split.
    + intros (x & -> & Hx). destruct (Hok x Hx) as [E1 E2]. apply Hin in Hx as [Hx Hle].
      rewrite <- E2, Hx. split; [done|lia].
    + intros [Hx Hle]. apply fmap_Some in Hx as (x & Hx & ->). exists x. split; [done|]. apply Hin.
      destruct (Hl _ _ Hx) as (E1 & E2 & _). apply (model_lookup l _ x Hk) in Hx as Hx'.
      destruct Hx' as [_ ->]. split; [done|lia].
Qed.

(** The store implements the interface of the scanner. *)
#[export] Program Instance core_center (range : map_range) (Hr : range_ok range) : WillCenter WillCore := {|
  ws_ok := will_ok;
  ws_scheduled := scheduled;
  ws_GetDueTasks := GetDueTasks;
  ws_DeleteTask := DeleteTask range;
  ws_DeleteTaskByOwner := DeleteTaskByOwner range |}.
Next Obligation. intros range Hr now s Hs. by apply GetDueTasks_ok. Qed.
Next Obligation. intros range Hr s id token Hs H. by destruct (scheduled_named _ _ _ Hs H) as (? & ? & _). Qed.
Next Obligation.
  intros range Hr s id token Hs Ht Hid H. destruct (scheduled_named _ _ _ Hs H) as (_ & _ & Hn).
  by apply DeleteTaskByOwner_ok.
Qed.

(** ** Refinement of a map of schedules *)

Inductive will_op :=
| WAdd (task : option WillDelayTask)
| WDelete (range : map_range) (clientID : string)
| WDeleteByOwner (range : map_range) (clientID ownerToken : string)
| WRestart (range : map_range).

(** A restart snapshots the tasks and recovers a new store from the snapshot. *)
Definition will_run (op : will_op) (c : WillCore) : option (WillCore * result string unit) :=
  match op with
  | WAdd task => AddTask task c
  | WDelete range id => c ← DeleteTask range id c; Some (c, Ok tt)
  | WDeleteByOwner range id token => c ← DeleteTaskByOwner range id token c; Some (c, Ok tt)
  | WRestart range => c ← RecoverFromState range (GetState c); Some (c, Ok tt)
  end.

Fixpoint will_runs (ops : list will_op) (c : WillCore) : option (WillCore * list (result string unit)) :=
  match ops with
  | [] => Some (c, [])
  | op :: ops => '(c, r) ← will_run op c; '(c, rs) ← will_runs ops c; Some (c, r :: rs)
  end.

(** Client identifiers come off the wire; a map is ranged over in some order. *)
Definition will_op_ok (op : will_op) : Prop :=
  match op with
  | WAdd task => ∀ t, task = Some t → nul_free (wt_ClientID t)
  | WDelete range _ | WRestart range => range_ok range
  | WDeleteByOwner range id _ => range_ok range ∧ nul_free id
  end.

(** The abstract store: publish times by client and owner token. *)
Definition schedule : Type := string → string → option Z.

Definition s_run (op : will_op) (s : schedule) : schedule :=
  match op with
  | WAdd task =>
      match ValidateTaskForAdd task, task with
      | Ok _, Some t => λ i k,
          if decide (i = wt_ClientID t ∧ k = wt_OwnerToken t) then Some (wt_ScheduledPublishTime t)
          else s i k
      | _, _ => s
      end
  | WDelete _ id | WDeleteByOwner _ id "" => λ i k, if decide (i = id) then None else s i k
  | WDeleteByOwner _ id token => λ i k, if decide (i = id ∧ k = token) then None else s i k
  | WRestart _ => s
  end.

Definition s_answer (op : will_op) : result string unit :=
  match op with WAdd task => ValidateTaskForAdd task | _ => Ok tt end.

Lemma scheduled_tasks c c' : wc_tasks c' = wc_tasks c → ∀ i k, scheduled c' i k = scheduled c i k.
Proof. intros E i k. unfold scheduled. by rewrite E. Qed.

Lemma will_run_ok op c : will_ok c → will_op_ok op →
  ∃ c', will_run op c = Some (c', s_answer op) ∧ will_ok c' ∧
    ∀ i k, scheduled c' i k = s_run op (scheduled c) i k.
Proof.
  intros Hc Hop. destruct op as [task|range id|range id token|range]; cbn [will_run s_answer s_run].
  - unfold AddTask. destruct (ValidateTaskForAdd task) as [[]|e] eqn:Hv; [|by exists c].
    destruct task as [t|]; [|done]. apply ValidateTaskForAdd_Ok in Hv as [H1 H2].
    assert (task_ok t) as Ht by (split; [done..|by apply Hop]).
    destruct (putTask_ok c t Hc Ht) as (c' & -> & Hc' & E). exists c'. split_and!; [done|done|].
    by apply scheduled_put.
  - destruct (DeleteTask_ok range id c Hop Hc) as (c' & -> & Hc' & E). by exists c'.
  - destruct Hop as [Hr Hid]. destruct (decide (token = "")) as [->|Ht].
    + destruct (DeleteTask_ok range id c Hr Hc) as (c' & Hd & Hc' & E). exists c'.
      change (DeleteTaskByOwner range id "" c) with (DeleteTask range id c). by rewrite Hd.
    + destruct (DeleteTaskByOwner_ok range id token c Hr Hc Ht Hid) as (c' & -> & Hc' & E). exists c'.
      split_and!; [done|done|]. intros i k. rewrite E. by destruct token.
  - destruct (RecoverFromState_ok range c Hop Hc) as (c' & -> & Hc' & E). exists c'.
    split_and!; [done|done|]. by apply scheduled_tasks.
Qed.

Lemma s_run_ext op s s' : (∀ i k, s i k = s' i k) → ∀ i k, s_run op s i k = s_run op s' i k.
Proof.
  intros E i k. destruct op as [task|range id|range id token|range]; cbn [s_run]; rewrite ?E; try done.
  - destruct (ValidateTaskForAdd task); [destruct task|]; cbn; by rewrite ?E.
  - destruct token; cbn; by rewrite ?E.
Qed.

Lemma will_runs_ok ops : ∀ c s, will_ok c → Forall will_op_ok ops → (∀ i k, scheduled c i k = s i k) →
  ∃ c', will_runs ops c = Some (c', s_answer <$> ops) ∧ will_ok c' ∧
    ∀ i k, scheduled c' i k = foldl (λ s op, s_run op s) s ops i k.
Proof.
  induction ops as [|op ops IH]; intros c s Hc Hops Hs; [by exists c|].
  apply Forall_cons in Hops as [Hop Hops]. cbn [will_runs].
  destruct (will_run_ok op c Hc Hop) as (c1 & -> & Hc1 & E1). cbn [mbind option_bind].
  destruct (IH c1 (s_run op s) Hc1 Hops) as (c' & -> & Hc' & E').
  { intros i k. rewrite E1. by apply s_run_ext. }
  exists c'. by split_and!.
Qed.

(** The delayed-will store is a map from client and owner token to a publish time:
    any sequence of additions, deletions by client, deletions by owner and
    restarts from a snapshot, whatever order maps are ranged over in, runs
    without a panic, answers a refused task with its error, and leaves scheduled
    what the map holds; a deletion by owner leaves the other owners' tasks.
    [GetDueTasks] then returns exactly the tasks whose time has come, each once,
    earliest first.  Client identifiers are NUL-free, as decoded from the wire. *)
Theorem will_store_refines (ops : list will_op) :
  Forall will_op_ok ops →
  let s := foldl (λ s op, s_run op s) (λ _ _, None) ops in
  ∃ c, will_runs ops NewWillCore = Some (c, s_answer <$> ops) ∧
    (∀ i k, scheduled c i k = s i k) ∧
    ∀ now, ∃ due, GetDueTasks now c = Some due ∧ NoDup due ∧ StronglySorted by_time due ∧
      ∀ t, t ∈ due ↔ s (wt_ClientID t) (wt_OwnerToken t) = Some (wt_ScheduledPublishTime t) ∧
        wt_ScheduledPublishTime t ≤ now.
Proof.
  intros Hops s. destruct (will_runs_ok ops NewWillCore (λ _ _, None) will_ok_New Hops) as (c & Hr & Hc & E).
  { intros i k. unfold scheduled. cbn. by rewrite lookup_empty. }
  exists c. split_and!; [done|done|]. intros now.
  destruct (GetDueTasks_ok now c Hc) as (due & Hd & Hnd & Hs & Hin). exists due. split_and!; try done.
  intros t. rewrite Hin, E. done.
Qed.

Lemma will_store_refines_witness :
  let ops := [WAdd (Some (mkWillTask "c" 20 "old")); WAdd (Some (mkWillTask "c" 10 "new"));
              WAdd (Some (mkWillTask "" 1 "t")); WDeleteByOwner map_to_list "c" "old"; WRestart map_to_list] in
  ∃ c, will_runs ops NewWillCore
       = Some (c, [Ok tt; Ok tt; Err "will delay task client id is required"; Ok tt; Ok tt]) ∧
    scheduled c "c" "new" = Some 10 ∧ scheduled c "c" "old" = None.
Proof.
  intros ops. destruct (will_store_refines ops) as (c & Hr & Hs & _).
  - assert (Hn : nul_free "c" ∧ nul_free "") by (split; by apply (bool_decide_unpack _)).
    destruct Hn as [Hn1 Hn2].
    apply Forall_cons; split; [by intros t [= <-]|]. apply Forall_cons; split; [by intros t [= <-]|].
    apply Forall_cons; split; [by intros t [= <-]|]. apply Forall_cons; split; [by split; [intros m|]|].
    apply Forall_cons; split; [by intros m|constructor].
  - exists c. split; [exact Hr|]. split; [exact (Hs "c" "new")|exact (Hs "c" "old")].
Defined.

(** ** The scanner *)

(** The will of the client's live session, as the task's execution reads it. *)
Definition live_will (io : TaskIO) (t : WillDelayTask) : option WillMessage :=
  (GetSession (io_clock io) (io_session io) (wt_ClientID t) 0).1 ≫= ss_WillMessage.

(** The message published for a due task, if any. *)
Definition published (io : TaskIO) (t : WillDelayTask) : option Message :=
  if willDelayTaskOwnerStillValid io t && negb (io_sessionErr io) && io_sent io
  then will_publication t <$> live_will io t else None.

(** The task is over: its owner is not the current offline one, or the session was
    read and has no will, or the will was handed over. *)
Definition settled (io : TaskIO) (t : WillDelayTask) : bool :=
  negb (willDelayTaskOwnerStillValid io t)
  || (negb (io_sessionErr io) && (bool_decide (live_will io t = None) || io_sent io)).

Section scanner_proofs.
Context {S : Type} `{!WillCenter S}.

(** [t] is scheduled under its client and owner token. *)
Definition pending (s : S) (t : WillDelayTask) : Prop :=
  ws_scheduled s (wt_ClientID t) (wt_OwnerToken t) = Some (wt_ScheduledPublishTime t).

Lemma deleteTask_spec io t (s : S) : ws_ok s → pending s t →
  ∃ s', deleteTask io t s = Some s' ∧ ws_ok s' ∧
    ∀ i k, ws_scheduled s' i k
      = if negb (io_deleteErr io) && bool_decide (i = wt_ClientID t ∧ k = wt_OwnerToken t) then None
        else ws_scheduled s i k.
Proof.
  intros Hs Hp. assert (is_Some (ws_scheduled s (wt_ClientID t) (wt_OwnerToken t))) as H by by eexists.
  destruct (ws_named s _ _ Hs H) as [Hid Ht]. unfold deleteTask.
  destruct (io_deleteErr io); [by exists s|]. rewrite bool_decide_true by done.
  destruct (ws_delete s _ _ Hs Ht Hid H) as (s' & -> & Hs' & E). exists s'. split_and!; [done|done|].
  intros i k. rewrite E. cbn. case_decide; [by rewrite bool_decide_true|by rewrite bool_decide_false].
Qed.

Lemma executeTask_spec io t (s : S) : ws_ok s → pending s t →
  ∃ s', executeTask io t s = Some (s', option_list (published io t)) ∧ ws_ok s' ∧
    ∀ i k, ws_scheduled s' i k
      = if settled io t && negb (io_deleteErr io) && bool_decide (i = wt_ClientID t ∧ k = wt_OwnerToken t)
        then None else ws_scheduled s i k.
Proof.
  intros Hs Hp. destruct (deleteTask_spec io t s Hs Hp) as (s' & Hd & Hs' & E).
  assert (is_Some (ws_scheduled s (wt_ClientID t) (wt_OwnerToken t))) as H by by eexists.
  destruct (ws_named s _ _ Hs H) as [Hid _]. unfold executeTask. rewrite bool_decide_false by done.
  unfold published, settled, live_will.
  destruct (willDelayTaskOwnerStillValid io t); cbn [negb andb orb];
    [|rewrite Hd; by exists s'].
  destruct (io_sessionErr io); cbn [negb andb orb]; [by exists s|].
  assert (∃ o, GetSession (io_clock io) (io_session io) (wt_ClientID t) 0 = (o, bool_decide (is_Some o)))
    as [o ->] by by eexists.
  cbn [fst]. destruct o as [ses|]; cbn [bool_decide]; [|rewrite Hd; exists s'; by destruct (io_sent io)].
  change (bool_decide (is_Some (Some ses))) with true. cbn [mbind option_bind].
  destruct (ss_WillMessage ses) as [w|]; [|rewrite Hd; exists s'; by destruct (io_sent io)].
  rewrite bool_decide_false by done. cbn [orb]. destruct (io_sent io); [rewrite Hd; by exists s'|by exists s].
Qed.

(** The due task stored for a client and owner token was executed and deleted. *)
Definition retired (io : WillDelayTask → TaskIO) (due : list WillDelayTask) (i k : string) : Prop :=
  Exists (λ t, wt_ClientID t = i ∧ wt_OwnerToken t = k ∧ settled (io t) t = true ∧
               io_deleteErr (io t) = false) due.

#[export] Instance retired_dec io due i k : Decision (retired io due i k).
Proof. unfold retired. apply _. Defined.

Lemma executeTasks_spec io due : ∀ (s : S), ws_ok s →
  NoDup ((λ t, (wt_ClientID t, wt_OwnerToken t)) <$> due) → Forall (pending s) due →
  ∃ s', executeTasks io due s = Some (s', omap (λ t, published (io t) t) due) ∧ ws_ok s' ∧
    ∀ i k, ws_scheduled s' i k = if decide (retired io due i k) then None else ws_scheduled s i k.
Proof.
  induction due as [|t due IH]; intros s Hs Hd Hp.
  { exists s. split_and!; [done|done|]. intros i k. rewrite decide_False; [done|]. by inversion 1. }
  apply NoDup_cons in Hd as [Hnt Hd]. apply Forall_cons in Hp as [Ht Hp].
  destruct (executeTask_spec (io t) t s Hs Ht) as (s1 & He & Hs1 & E1).
  destruct (IH s1 Hs1 Hd) as (s' & He' & Hs' & E').
  { rewrite Forall_forall in Hp |- *. intros u Hu. unfold pending. rewrite E1.
    rewrite bool_decide_false; [rewrite andb_false_r; by apply Hp|].
    intros [Hc Hk]. apply Hnt, list_elem_of_fmap. exists u. by rewrite Hc, Hk. }
  exists s'. cbn [executeTasks]. rewrite He. cbn [mbind option_bind]. rewrite He'. cbn [mbind option_bind].
  split_and!; [by destruct (published (io t) t) eqn:Hpub; cbn; rewrite Hpub|done|].
  intros i k. rewrite E', E1.
  assert (Hr : retired io (t :: due) i k ↔
    (wt_ClientID t = i ∧ wt_OwnerToken t = k ∧ settled (io t) t = true ∧ io_deleteErr (io t) = false) ∨
    retired io due i k) by apply Exists_cons.
  destruct (decide (retired io (t :: due) i k)) as [H|H]; rewrite Hr in H; case_decide; try done.
  - destruct H as [(-> & -> & -> & ->)|]; [|done]. by rewrite bool_decide_true.
  - by tauto.
  - destruct (settled (io t) t) eqn:?, (io_deleteErr (io t)) eqn:?; try done.
    rewrite bool_decide_false; [done|]. intros [-> ->]. tauto.
Qed.

Lemma scan_spec io now (s : S) : ws_ok s →
  ∃ due s', ws_GetDueTasks now s = Some due ∧
    scanAndExecute io now s = Some (s', omap (λ t, published (io t) t) due) ∧ ws_ok s' ∧
    (∀ t, t ∈ due ↔ pending s t ∧ wt_ScheduledPublishTime t ≤ now) ∧ NoDup due ∧
    ∀ i k, ws_scheduled s' i k = if decide (retired io due i k) then None else ws_scheduled s i k.
Proof.
  intros Hs. destruct (ws_due now s Hs) as (due & Hd & Hnd & _ & Hin).
  destruct (executeTasks_spec io due s Hs) as (s' & He & Hs' & E).
  - apply NoDup_fmap_2_strong; [|done]. intros t u Ht Hu [= H1 H2].
    apply Hin in Ht as [Ht _]. apply Hin in Hu as [Hu _]. rewrite H1, H2 in Ht. rewrite Ht in Hu.
    destruct t, u. cbn in *. congruence.
  - apply Forall_forall. intros t Ht. by apply Hin in Ht as [? _].
  - exists due, s'. unfold scanAndExecute. rewrite Hd. by split_and!.
Qed.

(** The messages of a client and owner token. *)
Definition of_owner (id token : string) (out : list Message) : list Message :=
  filter (λ m, mg_SendClientID m = id ∧ mg_OwnerToken m = token) out.

Lemma published_from io t m : published io t = Some m → mg_SendClientID m = wt_ClientID t ∧ mg_OwnerToken m = wt_OwnerToken t.
Proof. unfold published. destruct (_ && _); [|done]. by intros (x & _ & ->)%fmap_Some. Qed.

(** Among tasks of which [t] is the only one of its owner, what is handed over for the owner is
    what is published for [t], once. *)
Lemma of_owner_omap io due t : NoDup due →
  (∀ u, u ∈ due → wt_ClientID u = wt_ClientID t → wt_OwnerToken u = wt_OwnerToken t → u = t) →
  of_owner (wt_ClientID t) (wt_OwnerToken t) (omap (λ t, published (io t) t) due)
  = if decide (t ∈ due) then option_list (published (io t) t) else [].
Proof.
  unfold of_owner. induction 1 as [|u due Hu _ IH]; intros Honly; [done|].
  specialize (IH ltac:(intros v Hv; apply Honly; by right)). cbn [omap list_omap].
  destruct (decide (u = t)) as [->|Hne].
  - rewrite decide_True by left. rewrite (decide_False _ _ Hu) in IH. destruct (published (io t) t) as [m|] eqn:Hm; [|exact IH].
    rewrite filter_cons_True by (by eapply published_from). by rewrite IH.
  - transitivity (if decide (t ∈ due) then option_list (published (io t) t) else []); [|by repeat case_decide; set_solver].
    destruct (published (io u) u) as [m|] eqn:Hm; [|exact IH]. rewrite filter_cons_False; [exact IH|].
    intros [H1 H2]. apply published_from in Hm as [H3 H4]. apply Hne, Honly; [left|congruence..].
Qed.

(** One scan, seen from one owner that has a task. *)
Lemma scan_owner io now (s : S) t : ws_ok s → pending s t →
  ∃ s' out, scanAndExecute io now s = Some (s', out) ∧ ws_ok s' ∧
    of_owner (wt_ClientID t) (wt_OwnerToken t) out
      = (if decide (wt_ScheduledPublishTime t ≤ now) then option_list (published (io t) t) else []) ∧
    ws_scheduled s' (wt_ClientID t) (wt_OwnerToken t)
      = if decide (wt_ScheduledPublishTime t ≤ now ∧ settled (io t) t = true ∧ io_deleteErr (io t) = false) then None
        else Some (wt_ScheduledPublishTime t).
Proof.
  intros Hs Hp. destruct (scan_spec io now s Hs) as (due & s' & _ & Hr & Hs' & Hin & Hnd & E).
  assert (∀ u, u ∈ due → wt_ClientID u = wt_ClientID t → wt_OwnerToken u = wt_OwnerToken t → u = t) as Honly.
  { intros u Hu H1 H2. apply Hin in Hu as [Hu _]. unfold pending in *. rewrite H1, H2, Hp in Hu. destruct t, u. cbn in *. congruence. }
  assert (t ∈ due ↔ wt_ScheduledPublishTime t ≤ now) as Hdue by (rewrite Hin; tauto).
  assert (retired io due (wt_ClientID t) (wt_OwnerToken t) ↔
    wt_ScheduledPublishTime t ≤ now ∧ settled (io t) t = true ∧ io_deleteErr (io t) = false) as Hret.
  { unfold retired. rewrite Exists_exists, <-Hdue. split; [|intros (? & ? & ?); by exists t].
    intros (u & Hu & H1 & H2 & ?). by rewrite <-(Honly u Hu H1 H2). }
  exists s', (omap (λ t, published (io t) t) due). split_and!; [done|done| |].
  - rewrite (of_owner_omap io due t Hnd Honly). repeat case_decide; tauto.
  - rewrite E, Hp. repeat case_decide; tauto.
Qed.

(** One scan, seen from an owner that has none. *)
Lemma scan_no_owner io now (s : S) id token : ws_ok s → ws_scheduled s id token = None →
  ∃ s' out, scanAndExecute io now s = Some (s', out) ∧ ws_ok s' ∧ of_owner id token out = [] ∧ ws_scheduled s' id token = None.
Proof.
  intros Hs Hno. destruct (scan_spec io now s Hs) as (due & s' & _ & Hr & Hs' & Hin & Hnd & E).
  assert (∀ u, u ∈ due → ¬ (wt_ClientID u = id ∧ wt_OwnerToken u = token)) as Hout.
  { intros u [Hu _]%Hin [H1 H2]. unfold pending in Hu. by rewrite H1, H2, Hno in Hu. }
  exists s', (omap (λ t, published (io t) t) due). split_and!; [done|done| |].
  - pose proof (of_owner_omap io due (mkWillTask id 0 token) Hnd ltac:(intros u Hu H1 H2; by destruct (Hout u Hu))) as Ho.
    cbn [wt_ClientID wt_OwnerToken] in Ho. rewrite Ho, decide_False; [done|]. intros Hu. by apply (Hout _ Hu).
  - rewrite E, Hno. by case_decide.
Qed.

(** Scans one after the other, with everything they hand over. *)
Fixpoint scan_rounds (rounds : list ((WillDelayTask → TaskIO) * Z)) (s : S) : option (S * list Message) :=
  match rounds with
  | [] => Some (s, [])
  | (io, now) :: rounds =>
      '(s, out) ← scanAndExecute io now s;
      '(s, out') ← scan_rounds rounds s;
      Some (s, out ++ out')
  end.

Lemma of_owner_app id token out out' : of_owner id token (out ++ out') = of_owner id token out ++ of_owner id token out'.
Proof. apply filter_app. Qed.

(** Nothing is ever handed over for an owner without a task. *)
Lemma rounds_no_owner rounds id token : ∀ s : S, ws_ok s → ws_scheduled s id token = None →
  ∃ s' out, scan_rounds rounds s = Some (s', out) ∧ ws_ok s' ∧ of_owner id token out = [] ∧ ws_scheduled s' id token = None.
Proof.
  induction rounds as [|[io now] rounds IH]; intros s Hs Hno; [by exists s, []|]. cbn [scan_rounds].
  destruct (scan_no_owner io now s id token Hs Hno) as (s1 & out & -> & Hs1 & Ho & Hn1). cbn [mbind option_bind].
  destruct (IH s1 Hs1 Hn1) as (s' & out' & -> & Hs' & Ho' & Hn'). cbn [mbind option_bind].
  exists s', (out ++ out'). by rewrite of_owner_app, Ho, Ho'.
Qed.

(** Until a task is due, scans leave it alone. *)
Lemma rounds_early rounds t : Forall (λ r, r.2 < wt_ScheduledPublishTime t) rounds → ∀ s : S, ws_ok s → pending s t →
  ∃ s' out, scan_rounds rounds s = Some (s', out) ∧ ws_ok s' ∧ of_owner (wt_ClientID t) (wt_OwnerToken t) out = [] ∧ pending s' t.
Proof.
  induction 1 as [|[io now] rounds Hlt _ IH]; intros s Hs Hp; [by exists s, []|]. cbn [scan_rounds]. cbn in Hlt.
  destruct (scan_owner io now s t Hs Hp) as (s1 & out & -> & Hs1 & Ho & Hn1). cbn [mbind option_bind].
  rewrite decide_False in Ho by lia. rewrite decide_False in Hn1 by lia.
  destruct (IH s1 Hs1 Hn1) as (s' & out' & -> & Hs' & Ho' & Hn'). cbn [mbind option_bind].
  exists s', (out ++ out'). by rewrite of_owner_app, Ho, Ho'.
Qed.

Lemma scan_rounds_app rounds rounds' : ∀ (s s1 s2 : S) out out', scan_rounds rounds s = Some (s1, out) → scan_rounds rounds' s1 = Some (s2, out') →
  scan_rounds (rounds ++ rounds') s = Some (s2, out ++ out').
Proof.
  induction rounds as [|[io now] rounds IH]; intros s s1 s2 out out'; [by intros [= <- <-]|]. cbn [app scan_rounds].
  destruct (scanAndExecute io now s) as [[s0 o]|]; [|done]. cbn [mbind option_bind].
  destruct (scan_rounds rounds s0) as [[s3 o3]|] eqn:E; [|done]. cbn [mbind option_bind]. intros [= <- <-] H.
  rewrite (IH _ _ _ _ _ E H). cbn. by rewrite app_assoc.
Qed.

(** A scan delivers the wills that are due: for every center that keeps its
    contract, the scan ends without panic, hands over exactly one message per due
    task whose owner is still the client's current offline owner, whose live
    session holds a will and whose message the channel takes, and removes a due
    task only when it is settled: delivered, without will, or of a stale owner.
    A task whose message could not be handed over or whose session could not be
    read stays scheduled, as do all tasks that are not due. *)
Theorem scan_delivers_wills io now (s : S) : ws_ok s →
  ∃ due s' out, scanAndExecute io now s = Some (s', out) ∧ ws_ok s' ∧ NoDup due ∧
    (∀ t, t ∈ due ↔ pending s t ∧ wt_ScheduledPublishTime t ≤ now) ∧
    out = omap (λ t, published (io t) t) due ∧
    (∀ t, t ∈ due → (pending s' t ↔ settled (io t) t = false ∨ io_deleteErr (io t) = true)) ∧
    (∀ t, now < wt_ScheduledPublishTime t → pending s' t ↔ pending s t).
Proof.
  intros Hs. destruct (scan_spec io now s Hs) as (due & s' & _ & Hr & Hs' & Hin & Hnd & E).
  exists due, s', (omap (λ t, published (io t) t) due). split_and!; try done.
  - intros t Ht. pose proof (proj1 (Hin t) Ht) as [Hp _]. unfold pending in *. rewrite E.
    assert (retired io due (wt_ClientID t) (wt_OwnerToken t) ↔
            settled (io t) t = true ∧ io_deleteErr (io t) = false) as Hret.
    { unfold retired. rewrite Exists_exists. split; [|by exists t].
      intros (u & Hu & H1 & H2 & ?). apply Hin in Hu as [Hu _]. unfold pending in Hu.
      rewrite H1, H2, Hp in Hu. assert (u = t) as -> by (destruct t, u; cbn in *; congruence). done. }
    case_decide as Hd; rewrite Hret in Hd; destruct (settled (io t) t), (io_deleteErr (io t)); naive_solver.
  - intros t Ht. unfold pending. rewrite E. case_decide as Hd; [|done]. split; [done|]. intros Hp.
    unfold retired in Hd. rewrite Exists_exists in Hd. destruct Hd as (u & Hu & H1 & H2 & _).
    apply Hin in Hu as [Hu Hle]. unfold pending in Hu. rewrite H1, H2, Hp in Hu.
    injection Hu as Hu. lia.
Qed.

(** Wills are published once: when every task of a scan is settled and deleted, the
    next scan, whatever the session center answers then, finds none of them due
    up to that time and publishes nothing. *)
Theorem scan_publishes_once io io' now now' (s : S) : ws_ok s → now' ≤ now →
  (∀ t, pending s t → wt_ScheduledPublishTime t ≤ now →
     settled (io t) t = true ∧ io_deleteErr (io t) = false) →
  ∃ s' out, scanAndExecute io now s = Some (s', out) ∧ scanAndExecute io' now' s' = Some (s', []).
Proof.
  intros Hs Hle Hio. destruct (scan_spec io now s Hs) as (due & s' & _ & Hr & Hs' & Hin & _ & E).
  exists s', (omap (λ t, published (io t) t) due). split; [done|].
  destruct (scan_spec io' now' s' Hs') as (due' & s'' & Hd' & Hr' & _ & Hin' & _ & _).
  assert (due' = []) as ->; [|unfold scanAndExecute; by rewrite Hd'].
  apply elem_of_nil_inv. intros t Ht. apply Hin' in Ht as [Hp Ht]. unfold pending in Hp. rewrite E in Hp.
  case_decide as Hret; [done|]. apply Hret. unfold retired. rewrite Exists_exists. exists t.
  destruct (Hio t); [done|lia|]. split; [apply Hin; split; [done|lia]|done].
Qed.

(** A failing owner query loses the will: when the session center cannot answer who
    owns the client, the due task is deleted and nothing is published, although
    the owner may still be the current one; only a failing session query keeps
    the task. *)
Theorem owner_query_error_drops_will io t (s : S) : ws_ok s → pending s t →
  io_ownerErr io = true → io_deleteErr io = false →
  ∃ s', executeTask io t s = Some (s', []) ∧ ws_scheduled s' (wt_ClientID t) (wt_OwnerToken t) = None.
Proof.
  intros Hs Hp Ho Hd. destruct (executeTask_spec io t s Hs Hp) as (s' & He & _ & E).
  assert (is_Some (ws_scheduled s (wt_ClientID t) (wt_OwnerToken t))) as H by by eexists.
  destruct (ws_named s _ _ Hs H) as [_ Ht].
  assert (willDelayTaskOwnerStillValid io t = false) as Hv.
  { unfold willDelayTaskOwnerStillValid. by rewrite bool_decide_false, Ho. }
  exists s'. rewrite He, E. unfold published, settled. rewrite Hv, Hd. split; [done|]. cbn.
  by rewrite bool_decide_true.
Qed.
End scanner_proofs.

(** ** A scan over a small store *)

Lemma range_ok_map_to_list : range_ok map_to_list.
Proof. by intros m. Qed.

Definition sample_will : WillMessage := mkWillMessage "w" [] 1 false ∅ None None None None [] None None.

(** Client ["c"] is offline with owner ["t"] and a will; ["d"] was taken over. *)
Definition sample_sessions : Core :=
  mkCore {["c" := mkSession "c" (Some sample_will) [] 60 0 None;
           "d" := mkSession "d" (Some sample_will) [] 60 0 None]}
         {["c" := mkOwner "c" 1 "t" false; "d" := mkOwner "d" 1 "other" true]}.

Definition sample_io (ownerErr sent : bool) (_ : WillDelayTask) : TaskIO :=
  mkTaskIO sample_sessions ownerErr false 5 sent false.

Definition sample_store : WillCore :=
  default NewWillCore
    (c ← putTask (mkWillTask "c" 10 "t") NewWillCore; putTask (mkWillTask "d" 11 "t") c).

Lemma sample_store_ok : will_ok sample_store.
Proof.
  assert (∀ c, c = "c" ∨ c = "d" → nul_free c) as Hn.
  { intros c [->| ->]; by apply (bool_decide_unpack _). }
  destruct (putTask_ok NewWillCore (mkWillTask "c" 10 "t") will_ok_New) as (c1 & E1 & H1 & _);
    [split; [done..|by apply Hn; left]|].
  destruct (putTask_ok c1 (mkWillTask "d" 11 "t") H1) as (c2 & E2 & H2 & _);
    [split; [done..|by apply Hn; right]|].
  unfold sample_store. rewrite E1. cbn [mbind option_bind]. rewrite E2. exact H2.
Qed.

Lemma scan_delivers_wills_witness :
  let center := core_center map_to_list range_ok_map_to_list in
  ∃ due s' out, @scanAndExecute _ center (sample_io false true) 10 sample_store = Some (s', out) ∧
    will_ok s' ∧ NoDup due ∧
    (∀ t, t ∈ due ↔ @pending _ center sample_store t ∧ wt_ScheduledPublishTime t ≤ 10) ∧
    out = omap (λ t, published (sample_io false true t) t) due ∧
    (∀ t, t ∈ due → (@pending _ center s' t ↔
       settled (sample_io false true t) t = false ∨ io_deleteErr (sample_io false true t) = true)) ∧
    (∀ t, 10 < wt_ScheduledPublishTime t → @pending _ center s' t ↔ @pending _ center sample_store t).
Proof.
  intros center. apply (@scan_delivers_wills _ center (sample_io false true) 10 sample_store sample_store_ok).
Defined.

Lemma scan_publishes_once_witness :
  let center := core_center map_to_list range_ok_map_to_list in
  ∃ s' out, @scanAndExecute _ center (sample_io false true) 12 sample_store = Some (s', out) ∧
    @scanAndExecute _ center (sample_io true true) 11 s' = Some (s', []).
Proof.
  intros center. apply (@scan_publishes_once _ center); [exact sample_store_ok|lia|].
  intros t _ _. split; [|done]. unfold settled. cbn. by rewrite !orb_true_r.
Defined.

Lemma owner_query_error_drops_will_witness :
  let center := core_center map_to_list range_ok_map_to_list in
  let t := mkWillTask "c" 10 "t" in
  published (sample_io false true t) t = Some (will_publication t sample_will) ∧
  ∃ s', @executeTask _ center (sample_io true true t) t sample_store = Some (s', []) ∧
    scheduled s' "c" "t" = None.
Proof.
  intros center t. split; [vm_compute; reflexivity|].
  apply (@owner_query_error_drops_will _ center (sample_io true true t) t sample_store);
    [exact sample_store_ok|vm_compute; reflexivity|reflexivity|reflexivity].
Defined.

(** A scan at time 12 publishes the will of ["c"] and drops the task of ["d"]. *)
Example sample_scan :
  let center := core_center map_to_list range_ok_map_to_list in
  (snd <$> @scanAndExecute _ center (sample_io false true) 12 sample_store)
  = Some [will_publication (mkWillTask "c" 10 "t") sample_will].
Proof. vm_compute. reflexivity. Qed.

(** ** The state machine *)

(** The client identifier a request names is NUL-free. *)
Definition request_ok {E Snap} (P : WillProto E Snap) (bytes : list byte) : Prop :=
  ∀ req, unmarshalWillRequest P bytes = Ok req →
    nul_free (client_of req) ∧ ∀ t, wr_Task req = Some t → nul_free (wt_ClientID t).

(** The operation a request asks for. *)
Definition will_op_of (range : map_range) (req : WillDelayRequest) : will_op :=
  if wr_Type req =? ADD_TASK then WAdd (wr_Task req)
  else WDeleteByOwner range (client_of req) (default "" (wt_OwnerToken <$> wr_Task req)).

(** A validated will update is never refused: [ValidateUpdate] rejects exactly the
    updates [Update] answers with an error, the same error and no effect; an
    accepted one is carried out, without panic, as the operation it encodes.  So
    a log of validated updates replays. *)
Theorem will_validated_updates {E Snap} (P : WillProto E Snap) range c bytes :
  range_ok range → will_ok c → request_ok P bytes →
  match ValidateUpdate P bytes with
  | Err e => Update P range c bytes = Some (c, Err e)
  | Ok _ => ∃ req c', unmarshalWillRequest P bytes = Ok req ∧
      Update P range c bytes = Some (c', Ok tt) ∧ will_ok c' ∧
      ∀ i k, scheduled c' i k = s_run (will_op_of range req) (scheduled c) i k
  end.
Proof.
  intros Hr Hc Hq. unfold ValidateUpdate, Update, will_op_of.
  destruct (unmarshalWillRequest P bytes) as [req|e] eqn:Hu; [|done].
  destruct (Hq req Hu) as [Hn1 Hn2]. destruct (wr_Type req =? ADD_TASK) eqn:Hadd.
  - destruct (will_run_ok (WAdd (wr_Task req)) c Hc Hn2) as (c' & Hrun & Hc' & E'). cbn in Hrun.
    destruct (ValidateTaskForAdd (wr_Task req)) as [[]|e]; cbn; [|done].
    exists req, c'. rewrite Hrun. cbn. by rewrite Hadd.
  - destruct (wr_Type req =? DELETE_TASK); [|done]. case_bool_decide; [done|].
    destruct (will_run_ok (WDeleteByOwner range (client_of req) (default "" (wt_OwnerToken <$> wr_Task req))) c
      Hc (conj Hr Hn1)) as (c' & Hrun & Hc' & E').
    exists req, c'. rewrite Hadd. split_and!; try done. revert Hrun. cbn [will_run].
    destruct (decide (default "" (wt_OwnerToken <$> wr_Task req) = "")) as [->|Hne].
    + change (DeleteTaskByOwner range (client_of req) "" c) with (DeleteTask range (client_of req) c).
      by destruct (DeleteTask range (client_of req) c); intros [= ->].
    + rewrite bool_decide_true by done.
      by destruct (DeleteTaskByOwner range (client_of req) _ c); intros [= ->].
Qed.

Definition sample_will_proto (req : WillDelayRequest) : WillProto string (gmap string WillDelayTask) := {|
  unmarshalWillRequest _ := Ok req; marshalWillState := Ok; unmarshalWillState := Ok |}.

Lemma will_validated_updates_witness :
  let req := mkWillRequest ADD_TASK (Some (mkWillTask "c" 3 "t")) None None in
  ∃ req' c', unmarshalWillRequest (sample_will_proto req) [] = Ok req' ∧
    Update (sample_will_proto req) map_to_list NewWillCore [] = Some (c', Ok tt) ∧ will_ok c' ∧
    ∀ i k, scheduled c' i k = s_run (will_op_of map_to_list req') (scheduled NewWillCore) i k.
Proof.
  intros req. apply (will_validated_updates (sample_will_proto req) map_to_list NewWillCore []);
    [by intros m|exact will_ok_New|].
  intros r [= <-]. split; [by apply (bool_decide_unpack _)|]. intros t [= <-]. by apply (bool_decide_unpack _).
Defined.

(** ** A will on its way through the session *)

Definition nonempty_bytes (d : option (list byte)) : option (list byte) :=
  match d with Some (_ :: _) => d | _ => None end.

(** A will survives its way through the session: the PUBLISH packet the scanner
    builds from the stored session message carries the topic, payload, QoS,
    retain flag and properties of the CONNECT packet's will, without the delay
    interval (and without the properties a will cannot have). *)
Theorem will_survives_session (con : Connect) (t : WillDelayTask) :
  con_WillFlag con = true → is_u8 (con_WillQOS con) →
  (∀ p f, con_WillProperties con = Some p → pup_PayloadFormat p = Some f → is_u8 f) →
  ∃ w, WillMessageToProto con = Some w ∧
    let p := mg_Publish (will_publication t w) in
    pub_Topic p = con_WillTopic con ∧ pub_Payload p = con_WillMessage con ∧
    pub_QoS p = con_WillQOS con ∧ pub_Retain p = con_WillRetain con ∧
    pub_Properties p = Some match con_WillProperties con with
      | None => mkPublishProperties None None None "" "" None None [] []
      | Some q => mkPublishProperties (pup_PayloadFormat q) (pup_MessageExpiry q) None
          (pup_ContentType q) (pup_ResponseTopic q) (nonempty_bytes (pup_CorrelationData q)) None []
          (pup_User q)
      end.
Proof.
  intros Hf Hq Hpf. unfold WillMessageToProto. rewrite Hf. cbn [negb]. eexists. split; [done|].
  assert (∀ z, is_u8 z → wrap 8 z = z) as Hw by (intros z Hz; apply Z.mod_small; done).
  destruct (con_WillProperties con) as [p|]; cbn; rewrite (Hw _ Hq); split_and!; try done.
  unfold ProtoToWillProperties. cbn. f_equal. f_equal.
  - destruct (pup_PayloadFormat p) as [f|] eqn:Ef; [|done]. cbn. by rewrite (Hw f) by by apply (Hpf p).
  - case_bool_decide as E; [by rewrite E|done].
  - case_bool_decide as E; [by rewrite E|done].
  - by destruct (pup_CorrelationData p) as [[]|].
  - rewrite <- list_fmap_compose. rewrite <- (list_fmap_id (pup_User p)) at 2. apply list_fmap_ext.
    by intros ? [] _.
Qed.

Lemma will_survives_session_witness :
  let con := mkConnect [] [] "" "MQTT" "c" "will/t" None
    (Some (mkPublishProperties (Some 1) None (Some 30) "text" "" None None [] [mkUser "k" "v"])) 0 5 2
    false false true true true in
  ∃ w, WillMessageToProto con = Some w ∧
    pub_Topic (mg_Publish (will_publication (mkWillTask "c" 0 "t") w)) = "will/t".
Proof.
  intros con. destruct (will_survives_session con (mkWillTask "c" 0 "t")) as (w & Hw & Ht & _).
  - reflexivity.
  - vm_compute. split; congruence.
  - intros p f [= <-] [= <-]. vm_compute. split; congruence.
  - exists w. split; [exact Hw|exact Ht].
Defined.
