(* ===== verification/Router.v ===== *)
(** * Routing a publication to its subscribers

    [src/internal/broker/delivery/router_subcenter.go]: from the matches of the
    subscription center to one plan per client with ordinary subscriptions and one
    task per share group, with the no-local rule, the choice of the winning
    subscription and the effective QoS.  The types are those of [types.go]; the
    fields the router leaves empty are omitted.  Marshalling a slice of integers
    to JSON cannot fail, so the error branches around it are not taken. *)

From S2P Require Import Prelude GoStrings Mqtt5 Topic SubCore SubCenter.

Record ClientPlan := mkPlan {
  cp_ClientID : string;
  cp_DeliveryQoS : Z;
  cp_SubscriptionIDsJSON : string;
  cp_WinnerNoLocal : bool;
  cp_WinnerRAP : bool }.

Record ShareGroupTask := mkShareTask {
  st_ShareGroup : string;
  st_TopicFilter : string;
  st_DeliveryQoS : Z;
  st_PublishQoS : Z;
  st_PublisherClient : string;
  st_SubscriptionIDs : string;
  st_WinnerNoLocal : bool;
  st_WinnerRAP : bool }.

Record RouteResult := mkRoute {
  rr_Plans : list ClientPlan;
  rr_ShareGroupTasks : list ShareGroupTask }.

(** [json.Marshal] of a slice of [int32]. *)
Definition jsonMarshal (ids : list Z) : string :=
  ("[" +:+ join_byte ","%char (pretty <$> ids) +:+ "]")%string.

Definition splitMatches (matched : list MatchedSubscription)
    : list MatchedSubscription * list MatchedSubscription :=
  foldl (λ '(normalMatches, sharedMatches) ms,
    if IsSharedSubscription (ms_TopicFilter ms) then (normalMatches, sharedMatches ++ [ms])
    else (normalMatches ++ [ms], sharedMatches)) ([], []) matched.

(** [wildcardMetrics]: the characters it counts are single bytes. *)
Definition wildcardMetrics (filter : string) : Z * Z :=
  let count p := foldl (λ n ch, if p ch : bool then n + 1 else n) in
  let wildCnt := count (λ ch, bool_decide (ch = "+"%char) || bool_decide (ch = "#"%char)) 0 (go_bytes filter) in
  if bool_decide (filter = "") then (wildCnt, 0)
  else (wildCnt, count (λ ch, bool_decide (ch = "/"%char)) 1 (go_bytes filter)).

Definition isBetterWinner (ms : MatchedSubscription) (currentWinner : option MatchedSubscription) : bool :=
  match currentWinner with
  | None => true
  | Some cur =>
      let q1 := ms_QoS ms in
      let q2 := ms_QoS cur in
      if negb (q1 =? q2) then q2 <? q1
      else
        let f1 := ms_TopicFilter ms in
        let f2 := ms_TopicFilter cur in
        let '(wc1, d1) := wildcardMetrics f1 in
        let '(wc2, d2) := wildcardMetrics f2 in
        if negb (wc1 =? wc2) then wc1 <? wc2
        else if negb (d1 =? d2) then d2 <? d1
        else string_ltb f1 f2
  end.

(** The no-local rule: the publisher's own subscription asks not to get it back. *)
Definition noLocalSkips (publisherClientID clientID : string) (ms : MatchedSubscription) : bool :=
  negb (bool_decide (publisherClientID = "")) && bool_decide (publisherClientID = clientID) && ms_NoLocal ms.

(** ** Shared subscriptions *)

Record shareAgg := mkShareAgg {
  sa_shareGroup : string;
  sa_topicFilter : string;
  sa_winner : option MatchedSubscription;
  sa_subIDs : list Z }.

(** [a] after one more match of its group. *)
Definition addShared (a : shareAgg) (ms : MatchedSubscription) : shareAgg :=
  mkShareAgg (sa_shareGroup a) (sa_topicFilter a)
    (if isBetterWinner ms (sa_winner a) then Some ms else sa_winner a)
    (if 0 <? ms_SubscriptionIdentifier ms then sa_subIDs a ++ [ms_SubscriptionIdentifier ms]
     else sa_subIDs a).

Definition shareKey (shareGroup actualTopicFilter : string) : string :=
  (shareGroup +:+ "|" +:+ actualTopicFilter)%string.

Definition aggregateSharedOne (clientID publisherClientID : string) (shareAggMap : gmap string shareAgg)
    (ms : MatchedSubscription) : gmap string shareAgg :=
  if noLocalSkips publisherClientID clientID ms then shareAggMap
  else
    match ParseSharedSubscription (ms_TopicFilter ms) with
    | Err _ => shareAggMap
    | Ok (shareGroup, actualTopicFilter) =>
        if bool_decide (shareGroup = "") || bool_decide (actualTopicFilter = "") then shareAggMap
        else
          let key := shareKey shareGroup actualTopicFilter in
          let a := default (mkShareAgg shareGroup actualTopicFilter None []) (shareAggMap !! key) in
          <[key := addShared a ms]> shareAggMap
    end.

Definition aggregateSharedMatches (clientID : string) (sharedMatches : list MatchedSubscription)
    (shareAggMap : gmap string shareAgg) (publisherClientID : string) : gmap string shareAgg :=
  foldl (aggregateSharedOne clientID publisherClientID) shareAggMap sharedMatches.

Definition effectiveQoS (winnerQoS publishQoS : Z) : Z :=
  if publishQoS <? winnerQoS then publishQoS else winnerQoS.

Definition buildShareGroupTask (publish : Publish) (publisherClientID : string) (a : shareAgg)
    : option ShareGroupTask :=
  match sa_winner a with
  | None => None
  | Some w =>
      if bool_decide (sa_shareGroup a = "") || bool_decide (sa_topicFilter a = "") then None
      else Some (mkShareTask (sa_shareGroup a) (sa_topicFilter a)
             (effectiveQoS (ms_QoS w) (pub_QoS publish)) (pub_QoS publish) publisherClientID
             (jsonMarshal (sa_subIDs a)) (ms_NoLocal w) (ms_RetainAsPublished w))
  end.

Definition buildShareGroupTasks (shareAggMap : gmap string shareAgg) (publish : Publish)
    (publisherClientID : string) : list ShareGroupTask :=
  omap (buildShareGroupTask publish publisherClientID) (map_to_list shareAggMap).*2.

(** ** Ordinary subscriptions *)

Definition filterNoLocalMatches (matches : list MatchedSubscription) (clientID publisherClientID : string)
    : list MatchedSubscription :=
  filter (λ ms, noLocalSkips publisherClientID clientID ms = false) matches.

Record winnerState := mkWinner {
  ws_noLocal : bool;
  ws_rap : bool;
  ws_qos : Z;
  ws_wildcardCnt : Z;
  ws_depth : Z;
  ws_filter : string;
  ws_set : bool }.

Definition shouldReplaceWinner (ms : MatchedSubscription) (winner : winnerState) : bool :=
  if negb (ws_set winner) then true
  else
    let q := ms_QoS ms in
    if negb (q =? ws_qos winner) then ws_qos winner <? q
    else
      let f := ms_TopicFilter ms in
      let '(wc, d) := wildcardMetrics f in
      if negb (wc =? ws_wildcardCnt winner) then wc <? ws_wildcardCnt winner
      else if negb (d =? ws_depth winner) then ws_depth winner <? d
      else string_ltb f (ws_filter winner).

Definition winnerOf (ms : MatchedSubscription) : winnerState :=
  let '(wc, d) := wildcardMetrics (ms_TopicFilter ms) in
  mkWinner (ms_NoLocal ms) (ms_RetainAsPublished ms) (ms_QoS ms) wc d (ms_TopicFilter ms) true.

Definition selectWinnerAndSubIDs (normalMatches : list MatchedSubscription) : winnerState * list Z :=
  foldl (λ '(winner, subIDs) ms,
    let winner := if shouldReplaceWinner ms winner then winnerOf ms else winner in
    let sid := ms_SubscriptionIdentifier ms in
    (winner, if sid <=? 0 then subIDs else subIDs ++ [sid]))
    (mkWinner false true 0 0 0 "" false, []) normalMatches.

Definition buildClientPlan (cm : ClientMatch) (publish : Publish) (normalMatches : list MatchedSubscription)
    (publisherClientID : string) : option ClientPlan :=
  if bool_decide (length normalMatches = 0%nat) then None
  else if bool_decide (cm_ClientID cm = "") then None
  else
    let filteredMatches := filterNoLocalMatches normalMatches (cm_ClientID cm) publisherClientID in
    if bool_decide (length filteredMatches = 0%nat) then None
    else
      let '(winner, subIDs) := selectWinnerAndSubIDs filteredMatches in
      if negb (ws_set winner) then None
      else Some (mkPlan (cm_ClientID cm) (effectiveQoS (ws_qos winner) (pub_QoS publish))
                   (jsonMarshal subIDs) (ws_noLocal winner) (ws_rap winner)).

(** ** The route *)

(** One client of the loop of [Route]. *)
Definition routeClient (publish : Publish) (publisherClientID : string)
    (acc : list ClientPlan * gmap string shareAgg) (cm : ClientMatch)
    : list ClientPlan * gmap string shareAgg :=
  let '(plans, shareAggMap) := acc in
  if bool_decide (length (cm_Matched cm) = 0%nat) then (plans, shareAggMap)
  else
    let '(normalMatches, sharedMatches) := splitMatches (cm_Matched cm) in
    let shareAggMap := aggregateSharedMatches (cm_ClientID cm) sharedMatches shareAggMap publisherClientID in
    match buildClientPlan cm publish normalMatches publisherClientID with
    | Some plan => (plans ++ [plan], shareAggMap)
    | None => (plans, shareAggMap)
    end.

Definition Route (subCenter : MemorySubCenter) (publish : Publish) (publisherClientID : string) : RouteResult :=
  let matches := GetAllMatchClientV2 subCenter (pub_Topic publish) in
  if bool_decide (length matches = 0%nat) then mkRoute [] []
  else
    let '(plans, shareAggMap) := foldl (routeClient publish publisherClientID) ([], ∅) matches in
    mkRoute plans (buildShareGroupTasks shareAggMap publish publisherClientID).
