(* ===== verification/RouterProofs.v ===== *)
(** * Routing a publication to its subscribers: proofs

    A route is exact: one plan per client with an ordinary subscription that
    covers the topic, one task per share group with a member that does, each with
    the winning subscription's QoS capped by the publication's. *)

From S2P Require Import Prelude GoStrings Mqtt5 Topic SubCore SubCoreProofs SubCenter SubCenterProofs Router.

(** ** The preference between subscriptions *)

Definition beats (a b : MatchedSubscription) : bool := isBetterWinner a (Some b).

Lemma beats_spec a b : beats a b = true ↔
  ms_QoS b < ms_QoS a ∨ (ms_QoS a = ms_QoS b ∧
   let '(wa, da) := wildcardMetrics (ms_TopicFilter a) in
   let '(wb, db) := wildcardMetrics (ms_TopicFilter b) in
   wa < wb ∨ (wa = wb ∧ (db < da ∨ (da = db ∧ string_ltb (ms_TopicFilter a) (ms_TopicFilter b) = true)))).
Proof.
  unfold beats, isBetterWinner.
  destruct (wildcardMetrics (ms_TopicFilter a)) as [wa da], (wildcardMetrics (ms_TopicFilter b)) as [wb db].
  destruct (Z.eqb_spec (ms_QoS a) (ms_QoS b)); cbn [negb]; [|lia].
  destruct (Z.eqb_spec wa wb); cbn [negb]; [|lia].
  destruct (Z.eqb_spec da db); cbn [negb]; [|lia]. split; [by auto 7|].
  intros [?|[_ [?|[_ [?|[_ ?]]]]]]; [lia..|done].
Qed.

Lemma beats_irrefl a : beats a a = false.
Proof.
  apply not_true_is_false. rewrite beats_spec. destruct (wildcardMetrics _) as [w d].
  rewrite string_ltb_irrefl. intros [?|[_ [?|[_ [?|[_ ?]]]]]]; [lia..|done].
Qed.

Lemma beats_trans a b c : beats a b = true → beats b c = true → beats a c = true.
Proof.
  rewrite !beats_spec.
  destruct (wildcardMetrics (ms_TopicFilter a)), (wildcardMetrics (ms_TopicFilter b)),
    (wildcardMetrics (ms_TopicFilter c)).
  intros [?|[? H1]]; [intros [?|[? _]]; left; lia|]. intros [?|[? H2]]; [left; lia|]. right.
  split; [lia|]. destruct H1 as [?|[? H1]]; [destruct H2 as [?|[? _]]; left; lia|].
  destruct H2 as [?|[? H2]]; [left; lia|]. right. split; [lia|].
  destruct H1 as [?|[? H1]]; [destruct H2 as [?|[? _]]; left; lia|].
  destruct H2 as [?|[? H2]]; [left; lia|]. right. split; [lia|]. by eapply string_ltb_trans.
Qed.

Lemma not_beats_qos a b : beats a b = false → ms_QoS a ≤ ms_QoS b.
Proof.
  intros H. destruct (Z.le_gt_cases (ms_QoS a) (ms_QoS b)); [done|].
  assert (beats a b = true) by (apply beats_spec; lia). congruence.
Qed.

(** The winner of a list, and its positive subscription identifiers. *)
Definition best_of (l : list MatchedSubscription) : option MatchedSubscription :=
  foldl (λ w ms, if isBetterWinner ms w then Some ms else w) None l.

Definition ids_of (l : list MatchedSubscription) : list Z :=
  filter (λ i, 0 < i) (ms_SubscriptionIdentifier <$> l).

Lemma best_of_snoc l ms : best_of (l ++ [ms]) = if isBetterWinner ms (best_of l) then Some ms else best_of l.
Proof. unfold best_of. by rewrite foldl_app. Qed.

Lemma best_of_spec l : l ≠ [] →
  ∃ w, best_of l = Some w ∧ w ∈ l ∧ ∀ ms, ms ∈ l → beats ms w = false.
Proof.
  induction l as [|ms l IH] using rev_ind; [done|]. intros _. rewrite best_of_snoc.
  destruct (decide (l = [])) as [->|Hl].
  { exists ms. split_and!; [done|left|]. intros x [->|?%elem_of_nil]%elem_of_cons; [apply beats_irrefl|done]. }
  destruct (IH Hl) as (w & -> & Hw & Hbest). fold (beats ms w). destruct (beats ms w) eqn:E.
  - exists ms. split_and!; [done|by apply elem_of_app; right; left|].
    intros x [Hx|[->|?%elem_of_nil]%elem_of_cons]%elem_of_app; [|apply beats_irrefl|done].
    apply not_true_is_false. intros H. specialize (Hbest x Hx).
    rewrite (beats_trans x ms w) in Hbest; done.
  - exists w. split_and!; [done|by apply elem_of_app; left|].
    intros x [Hx|[->|?%elem_of_nil]%elem_of_cons]%elem_of_app; [by apply Hbest|done|done].
Qed.

Lemma ids_of_snoc l ms : ids_of (l ++ [ms]) =
  if 0 <? ms_SubscriptionIdentifier ms then ids_of l ++ [ms_SubscriptionIdentifier ms] else ids_of l.
Proof.
  unfold ids_of. rewrite fmap_app, filter_app. cbn [fmap list_fmap]. rewrite filter_cons, filter_nil.
  destruct (Z.ltb_spec 0 (ms_SubscriptionIdentifier ms)).
  - by rewrite decide_True.
  - rewrite decide_False by lia. apply app_nil_r.
Qed.

Lemma elem_of_ids l i : i ∈ ids_of l ↔ 0 < i ∧ ∃ ms, ms ∈ l ∧ ms_SubscriptionIdentifier ms = i.
Proof. unfold ids_of. rewrite list_elem_of_filter, list_elem_of_fmap. naive_solver. Qed.

Lemma shouldReplaceWinner_of ms w : shouldReplaceWinner ms (winnerOf w) = beats ms w.
Proof.
  unfold shouldReplaceWinner, winnerOf, beats, isBetterWinner.
  destruct (wildcardMetrics (ms_TopicFilter w)) as [wb db]. cbn.
  by destruct (wildcardMetrics (ms_TopicFilter ms)).
Qed.

Lemma selectWinner_spec l : selectWinnerAndSubIDs l =
  (match best_of l with Some w => winnerOf w | None => mkWinner false true 0 0 0 "" false end, ids_of l).
Proof.
  induction l as [|ms l IH] using rev_ind; [done|]. unfold selectWinnerAndSubIDs in *.
  rewrite foldl_app, IH, best_of_snoc, ids_of_snoc. cbn. f_equal.
  - destruct (best_of l) as [w|]; [|done]. rewrite shouldReplaceWinner_of. fold (beats ms w).
    by destruct (beats ms w).
  - rewrite Z.leb_antisym. by destruct (0 <? ms_SubscriptionIdentifier ms).
Qed.

Lemma splitMatches_spec l : splitMatches l =
  (filter (λ ms, IsSharedSubscription (ms_TopicFilter ms) = false) l,
   filter (λ ms, IsSharedSubscription (ms_TopicFilter ms) = true) l).
Proof.
  induction l as [|ms l IH] using rev_ind; [done|]. unfold splitMatches in *.
  rewrite foldl_app, IH, !filter_app. cbn [foldl]. rewrite !filter_cons, !filter_nil.
  destruct (IsSharedSubscription (ms_TopicFilter ms)); cbn; by rewrite ?app_nil_r.
Qed.

(** ** The loop over the matches *)

Definition plan_of (publish : Publish) (publisher : string) (cm : ClientMatch) : option ClientPlan :=
  if bool_decide (length (cm_Matched cm) = 0%nat) then None
  else buildClientPlan cm publish
         (filter (λ ms, IsSharedSubscription (ms_TopicFilter ms) = false) (cm_Matched cm)) publisher.

(** A shared match that counts: its group, inner filter and subscription. *)
Definition share_entry (publisher c : string) (ms : MatchedSubscription)
    : option (string * string * MatchedSubscription) :=
  if noLocalSkips publisher c ms then None
  else match ParseSharedSubscription (ms_TopicFilter ms) with
       | Ok (g, f) => Some (g, f, ms)
       | Err _ => None
       end.

Definition share_entries (publisher : string) (cm : ClientMatch) : list (string * string * MatchedSubscription) :=
  omap (share_entry publisher (cm_ClientID cm)) (cm_Matched cm).

Definition entry_key (e : string * string * MatchedSubscription) : string := shareKey e.1.1 e.1.2.

Definition add_entry (m : gmap string shareAgg) (e : string * string * MatchedSubscription) : gmap string shareAgg :=
  <[entry_key e := addShared (default (mkShareAgg e.1.1 e.1.2 None []) (m !! entry_key e)) e.2]> m.

Lemma ParseShared_shared s g f : ParseSharedSubscription s = Ok (g, f) → IsSharedSubscription s = true.
Proof. unfold ParseSharedSubscription. by destruct (IsSharedSubscription s). Qed.

Lemma aggregateSharedOne_spec c publisher m ms : aggregateSharedOne c publisher m ms =
  match share_entry publisher c ms with Some e => add_entry m e | None => m end.
Proof.
  unfold aggregateSharedOne, share_entry. destruct (noLocalSkips publisher c ms); [done|].
  destruct (ParseSharedSubscription (ms_TopicFilter ms)) as [[g f]|] eqn:E; [|done].
  apply ParseSharedSubscription_spec in E as [_ (Hg & Hf & _)]. by rewrite !bool_decide_false.
Qed.

Lemma aggregate_spec c publisher l m :
  aggregateSharedMatches c (filter (λ ms, IsSharedSubscription (ms_TopicFilter ms) = true) l) m publisher
  = foldl add_entry m (omap (share_entry publisher c) l).
Proof.
  unfold aggregateSharedMatches. revert m. induction l as [|ms l IH]; intros m; [done|].
  rewrite filter_cons. cbn [omap list_omap]. case_decide as Hs.
  - cbn [foldl]. rewrite IH, aggregateSharedOne_spec. by destruct (share_entry publisher c ms).
  - assert (share_entry publisher c ms = None) as ->; [|apply IH].
    unfold share_entry. destruct (noLocalSkips publisher c ms); [done|].
    destruct (ParseSharedSubscription (ms_TopicFilter ms)) as [[g f]|] eqn:E; [|done].
    apply ParseShared_shared in E. congruence.
Qed.

Lemma routeClient_spec publish publisher matches : ∀ plans m,
  foldl (routeClient publish publisher) (plans, m) matches
  = (plans ++ omap (plan_of publish publisher) matches,
     foldl add_entry m (matches ≫= share_entries publisher)).
Proof.
  induction matches as [|cm matches IH]; intros plans m; [by rewrite app_nil_r|].
  cbn [foldl mbind list_bind omap list_omap]. rewrite foldl_app. unfold routeClient at 2. cbn zeta.
  unfold plan_of at 1, share_entries at 1.
  case_bool_decide as Hl.
  { destruct (cm_Matched cm); [|done]. apply IH. }
  rewrite splitMatches_spec, aggregate_spec. destruct (buildClientPlan _ _ _ _); rewrite IH; [|done].
  by rewrite <- app_assoc.
Qed.

Lemma Route_spec st publish publisher :
  let matches := GetAllMatchClientV2 st (pub_Topic publish) in
  Route st publish publisher
  = mkRoute (omap (plan_of publish publisher) matches)
      (buildShareGroupTasks (foldl add_entry ∅ (matches ≫= share_entries publisher)) publish publisher).
Proof.
  intros matches. unfold Route. fold matches. case_bool_decide as Hl.
  - by destruct matches.
  - by rewrite routeClient_spec.
Qed.

(** ** Plans *)

(** Client [c] is to receive the publication through its subscription [o]. *)
Definition takes (st : MemorySubCenter) (topic publisher c : string) (o : SubOption) : Prop :=
  sub_of st c (so_Topic o) = Some o ∧ covers (so_Topic o) topic = true ∧
  ¬ (publisher ≠ "" ∧ publisher = c ∧ so_NoLocal o = true).

Definition ordinary (o : SubOption) : Prop := IsSharedSubscription (so_Topic o) = false.

(** Preference between stored subscriptions. *)
Definition preferred (a b : SubOption) : bool :=
  beats (matchedSubscriptionFromOption a) (matchedSubscriptionFromOption b).

Lemma noLocalSkips_spec publisher c ms :
  noLocalSkips publisher c ms = false ↔ ¬ (publisher ≠ "" ∧ publisher = c ∧ ms_NoLocal ms = true).
Proof.
  unfold noLocalSkips. repeat case_bool_decide; cbn; destruct (ms_NoLocal ms); naive_solver.
Qed.

Section route.
Context (st : MemorySubCenter) (publish : Publish) (publisher : string).
Context (Hok : center_ok st) (Hv : validatePublishTopic (pub_Topic publish) = Ok tt).
Context (Hh : head (SplitTopicLevels (pub_Topic publish)) ≠ Some "$share").
Abbreviation topic := (pub_Topic publish).
Abbreviation matches := (GetAllMatchClientV2 st topic).

(** The subscriptions a client's plan is built from. *)
Definition eligible (cm : ClientMatch) : list MatchedSubscription :=
  filterNoLocalMatches (filter (λ ms, IsSharedSubscription (ms_TopicFilter ms) = false) (cm_Matched cm))
    (cm_ClientID cm) publisher.

Lemma elem_of_eligible cm ms : cm ∈ matches →
  ms ∈ eligible cm ↔ ∃ o, ms = matchedSubscriptionFromOption o ∧
    takes st topic publisher (cm_ClientID cm) o ∧ ordinary o.
Proof.
  intros Hcm. destruct (center_matches st topic Hok Hv Hh) as (_ & _ & H).
  destruct (H cm Hcm) as (_ & Hin & _). unfold eligible, filterNoLocalMatches, takes, ordinary.
  rewrite !list_elem_of_filter, Hin, noLocalSkips_spec. split.
  - intros (Hn & Hs & o & -> & Ho & Hc). exists o. by split_and!.
  - intros (o & -> & (Ho & Hc & Hn) & Hs). split_and!; [done|done|]. by exists o.
Qed.

Lemma plan_of_spec cm : plan_of publish publisher cm =
  if bool_decide (cm_ClientID cm = "") then None
  else (λ w, mkPlan (cm_ClientID cm) (Z.min (ms_QoS w) (pub_QoS publish))
          (jsonMarshal (ids_of (eligible cm))) (ms_NoLocal w) (ms_RetainAsPublished w))
       <$> best_of (eligible cm).
Proof.
  unfold plan_of, buildClientPlan. fold (eligible cm). rewrite selectWinner_spec.
  assert (eligible cm ≠ [] → length (cm_Matched cm) ≠ 0%nat ∧
    length (filter (λ ms, IsSharedSubscription (ms_TopicFilter ms) = false) (cm_Matched cm)) ≠ 0%nat) as Hne.
  { unfold eligible. intros He. split; intros Hz; apply He.
    - by rewrite (nil_length_inv _ Hz).
    - by rewrite (nil_length_inv _ Hz). }
  destruct (decide (eligible cm = [])) as [->|He].
  { cbn. by repeat case_bool_decide. }
  destruct (Hne He) as [H1 H2]. rewrite !(bool_decide_false (length _ = 0%nat)); [|by intros ?%nil_length_inv|done|done].
  case_bool_decide; [done|]. destruct (best_of_spec _ He) as (w & -> & _). cbn [fmap option_fmap option_map].
  unfold winnerOf. destruct (wildcardMetrics (ms_TopicFilter w)) as [wc d]. cbn. do 2 f_equal.
  unfold effectiveQoS. destruct (Z.ltb_spec (pub_QoS publish) (ms_QoS w)); lia.
Qed.

Lemma plans_elem pl : pl ∈ rr_Plans (Route st publish publisher) ↔
  ∃ cm, cm ∈ matches ∧ plan_of publish publisher cm = Some pl.
Proof. rewrite Route_spec. cbn. apply list_elem_of_omap. Qed.

Lemma plan_client cm pl : plan_of publish publisher cm = Some pl → cp_ClientID pl = cm_ClientID cm.
Proof.
  rewrite plan_of_spec. case_bool_decide; [done|]. intros (w & _ & ->)%fmap_Some. done.
Qed.

Lemma plans_NoDup : NoDup (cp_ClientID <$> rr_Plans (Route st publish publisher)).
Proof.
  destruct (center_matches st topic Hok Hv Hh) as (Hd & _). rewrite Route_spec. cbn.
  induction matches as [|cm l IH]; [constructor|]. apply NoDup_cons in Hd as [Hn Hd]. cbn.
  destruct (plan_of publish publisher cm) as [pl|] eqn:E; [|by apply IH]. cbn. constructor; [|by apply IH].
  rewrite (plan_client _ _ E). intros (pl' & Hc & (cm' & Hin & E')%list_elem_of_omap)%list_elem_of_fmap.
  apply Hn, list_elem_of_fmap. exists cm'. split; [|done]. by rewrite Hc, (plan_client _ _ E').
Qed.

(** The plan of a client: the winner of its eligible subscriptions. *)
Lemma plan_spec pl : pl ∈ rr_Plans (Route st publish publisher) →
  ∃ w ids, takes st topic publisher (cp_ClientID pl) w ∧ ordinary w ∧
    (∀ o, takes st topic publisher (cp_ClientID pl) o → ordinary o → preferred o w = false) ∧
    (∀ i, i ∈ ids ↔ 0 < i ∧ ∃ o, takes st topic publisher (cp_ClientID pl) o ∧ ordinary o ∧
                                  so_SubscriptionIdentifier o = i) ∧
    cp_ClientID pl ≠ "" ∧
    pl = mkPlan (cp_ClientID pl) (Z.min (so_QoS w) (pub_QoS publish)) (jsonMarshal ids)
           (so_NoLocal w) (so_RetainAsPublished w).
Proof.
  intros (cm & Hcm & Hpl)%plans_elem. rewrite plan_of_spec in Hpl. case_bool_decide as Hid; [done|].
  apply fmap_Some in Hpl as (ms & Hb & ->). cbn [cp_ClientID].
  assert (eligible cm ≠ []) as He by (intros E; by rewrite E in Hb).
  destruct (best_of_spec _ He) as (ms' & Hb' & Hin & Hbest). rewrite Hb in Hb'. injection Hb' as <-.
  apply (elem_of_eligible cm ms Hcm) in Hin as (w & -> & Hw & How).
  exists w, (ids_of (eligible cm)). split_and!; try done.
  - intros o Ho Hoo. apply Hbest, (elem_of_eligible cm _ Hcm). by exists o.
  - intros i. rewrite elem_of_ids. apply and_iff_compat_l. split.
    + intros (ms & Hms & <-). apply (elem_of_eligible cm _ Hcm) in Hms as (o & -> & ? & ?). by exists o.
    + intros (o & ? & ? & <-). exists (matchedSubscriptionFromOption o). split; [|done].
      apply (elem_of_eligible cm _ Hcm). by exists o.
Qed.

Lemma plans_clients c : c ∈ cp_ClientID <$> rr_Plans (Route st publish publisher) ↔
  c ≠ "" ∧ ∃ o, takes st topic publisher c o ∧ ordinary o.
Proof.
  rewrite list_elem_of_fmap. split.
  - intros (pl & -> & Hpl). destruct (plan_spec pl Hpl) as (w & _ & ? & ? & _ & _ & ? & _). split; [done|].
    by exists w.
  - intros [Hc (o & Ho & Hoo)]. destruct (center_matches st topic Hok Hv Hh) as (_ & Hcl & _).
    assert (c ∈ cm_ClientID <$> matches) as Hin.
    { apply Hcl. destruct Ho as (? & ? & _). by exists (so_Topic o), o. }
    apply list_elem_of_fmap in Hin as (cm & -> & Hcm).
    assert (matchedSubscriptionFromOption o ∈ eligible cm) as He.
    { apply (elem_of_eligible cm _ Hcm). by exists o. }
    destruct (best_of_spec (eligible cm)) as (ms & Hb & _).
    { intros E. rewrite E in He. by apply elem_of_nil in He. }
    eexists. split; [|apply plans_elem; exists cm; split; [done|]; rewrite plan_of_spec, Hb;
      by rewrite bool_decide_false]. done.
Qed.
End route.

(** C1. Routing to clients is exact: for a valid publish topic (not under [$share]), a
    client gets one plan exactly when it is named and one of its ordinary
    subscriptions stored anywhere in the center covers the topic and is not
    suppressed by no-local for the publisher itself.  The plan carries the
    smaller of the publication's QoS and the highest QoS among those
    subscriptions, the options of the preferred one of them, and all their
    positive subscription identifiers. *)
Theorem Route_plans_exact ops publish publisher :
  let st := reachable ops in
  let plans := rr_Plans (Route st publish publisher) in
  let takes := takes st (pub_Topic publish) publisher in
  validatePublishTopic (pub_Topic publish) = Ok tt →
  head (SplitTopicLevels (pub_Topic publish)) ≠ Some "$share" →
  NoDup (cp_ClientID <$> plans) ∧
  (∀ c, c ∈ cp_ClientID <$> plans ↔ c ≠ "" ∧ ∃ o, takes c o ∧ ordinary o) ∧
  (∀ pl, pl ∈ plans → let c := cp_ClientID pl in
     ∃ w ids, takes c w ∧ ordinary w ∧
       (∀ o, takes c o → ordinary o → so_QoS o ≤ so_QoS w ∧ preferred o w = false) ∧
       (∀ i, i ∈ ids ↔ 0 < i ∧ ∃ o, takes c o ∧ ordinary o ∧ so_SubscriptionIdentifier o = i) ∧
       pl = mkPlan c (Z.min (so_QoS w) (pub_QoS publish)) (jsonMarshal ids)
              (so_NoLocal w) (so_RetainAsPublished w)).
Proof.
  intros st plans takes' Hv Hh. pose proof (reachable_ok ops : center_ok st) as Hok. split_and!.
  - by apply plans_NoDup.
  - by apply plans_clients.
  - intros pl Hpl c. destruct (plan_spec st publish publisher Hok Hv Hh pl Hpl)
      as (w & ids & Hw & How & Hbest & Hids & _ & Heq).
    exists w, ids. split_and!; try done. intros o Ho Hoo. specialize (Hbest o Ho Hoo).
    split; [|done]. by apply not_beats_qos in Hbest.
Qed.

Lemma Route_plans_exact_witness :
  let st := reachable [CCreate (mkSubRequest [mkSubOption 1 true "+/b" false 0 7;
    mkSubOption 2 false "a/#" true 0 8] "c1" "")] in
  let publish := mkPublish [] "a/b" None 0 2 false false in
  "c1" ∈ cp_ClientID <$> rr_Plans (Route st publish "c1") ∧
  rr_Plans (Route st publish "c1") = [mkPlan "c1" 1 "[7]" false true].
Proof.
  intros st publish. split; [|vm_compute; reflexivity].
  destruct (Route_plans_exact [CCreate (mkSubRequest [mkSubOption 1 true "+/b" false 0 7;
    mkSubOption 2 false "a/#" true 0 8] "c1" "")] publish "c1") as (_ & H & _);
    [reflexivity|discriminate|].
  apply H. split; [discriminate|]. exists (mkSubOption 1 true "+/b" false 0 7).
  split; [|vm_compute; reflexivity]. split_and!; [vm_compute; reflexivity..|].
  intros (_ & _ & Hn). discriminate Hn.
Defined.

(** ** Share groups

    Tasks are aggregated under the key [group|filter], which could be read in two
    ways; among filters that match one topic it cannot. *)

Lemma append_sep_inv a b c d :
  (a +:+ "|" +:+ b = c +:+ "|" +:+ d)%string →
  (a = c ∧ b = d) ∨ (∃ x, c = (a +:+ "|" +:+ x)%string ∧ b = (x +:+ "|" +:+ d)%string) ∨
  (∃ x, a = (c +:+ "|" +:+ x)%string ∧ d = (x +:+ "|" +:+ b)%string).
Proof.
  revert c. induction a as [|ch a IH]; intros [|ch' c] H; cbn in H.
  - injection H as ->. by left.
  - injection H as <- ->. right. left. by exists c.
  - injection H as -> <-. right. right. by exists a.
  - injection H as <- H. destruct (IH c H) as [[-> ->]|[(x & -> & ->)|(x & -> & ->)]]; [by left|..].
    + right. left. by exists x.
    + right. right. by exists x.
Qed.

Lemma contains_append ch s t : contains_byte ch (s +:+ t)%string = contains_byte ch s || contains_byte ch t.
Proof. apply contains_byte_app. Qed.

(** The first level of [x|f] is [x|] followed by the first level of [f]. *)
Lemma head_level_prefix x f : contains_byte slash x = false → f ≠ "" →
  ∃ h, head (SplitTopicLevels f) = Some h ∧
    head (SplitTopicLevels (x +:+ "|" +:+ f)%string) = Some (x +:+ "|" +:+ h)%string.
Proof.
  intros Hx Hf. unfold SplitTopicLevels. rewrite !bool_decide_false by (done || by destruct x).
  assert (∀ y, contains_byte slash y = false → ∃ h, head (split_byte slash f) = Some h ∧
    head (split_byte slash (y +:+ f)%string) = Some (y +:+ h)%string) as H.
  { induction y as [|ch y IH]; intros Hy.
    - pose proof (split_byte_nonempty slash f). cbn. destruct (split_byte slash f) as [|h l]; [done|]. by exists h.
    - cbn in Hy. apply orb_false_iff in Hy as [Hc Hy]. apply bool_decide_eq_false in Hc.
      destruct (IH Hy) as (h & Hh & Hh'). exists h. split; [done|]. cbn.
      rewrite decide_False by done. destruct (split_byte slash (y +:+ f)%string) as [|h' l]; [done|].
      cbn in *. congruence. }
  destruct (H (x +:+ "|")%string) as (h & Hh & Hh').
  { rewrite contains_append, Hx. done. }
  exists h. split; [done|].
  assert (∀ z, ((x +:+ "|") +:+ z = x +:+ "|" +:+ z)%string) as Hassoc.
  { intros z. clear. induction x as [|ch x IH]; [done|]. cbn in *. by rewrite IH. }
  by rewrite !Hassoc in Hh'.
Qed.

(** The first level of a filter that matches: a wildcard or the topic's. *)
Lemma match_head f topic h : MatchTopicFilter f topic = true → head (SplitTopicLevels f) = Some h →
  h = "#" ∨ h = "+" ∨ head (SplitTopicLevels topic) = Some h.
Proof.
  intros Hm Hf. assert (f ≠ "") as Hne by (by intros ->).
  destruct (decide (topic = "")) as [->|Ht].
  { exfalso. revert Hm. unfold MatchTopicFilter. by rewrite bool_decide_false. }
  rewrite MatchTopicFilter_levels in Hm by done. apply andb_true_iff in Hm as [_ Hm].
  apply levels_matchb_spec in Hm.
  destruct Hm; cbn in Hf; [done|injection Hf as <-; by auto..].
Qed.

Lemma plain_head f h : filter_levels (SplitTopicLevels f) → head (SplitTopicLevels f) = Some h →
  h = "#" ∨ plain_level h.
Proof. intros Hl Hf. destruct Hl; injection Hf as <-; auto. Qed.

Lemma append_length_lt x h : (x +:+ "|" +:+ h)%string ≠ h.
Proof.
  intros E. apply (f_equal String.length) in E. revert E.
  assert (∀ s t, String.length (s +:+ t)%string = (String.length s + String.length t)%nat) as Hlen.
  { intros s t. induction s as [|c s IH]; [done|]. cbn. by rewrite IH. }
  rewrite !Hlen. cbn. lia.
Qed.

Lemma share_key_prefix x f topic : contains_byte slash x = false → f ≠ "" →
  filter_levels (SplitTopicLevels (x +:+ "|" +:+ f)%string) →
  MatchTopicFilter f topic = true → MatchTopicFilter (x +:+ "|" +:+ f)%string topic = true → False.
Proof.
  intros Hx Hf Hl Hm Hm'. destruct (head_level_prefix x f Hx Hf) as (h & Hh & Hh').
  assert (∀ w, (w = "+" ∨ w = "#") → (x +:+ "|" +:+ h)%string ≠ w) as Hnw.
  { intros w Hw E. destruct x as [|c [|c' x]]; cbn in E; destruct Hw as [->| ->]; injection E as E; try done. }
  assert (literal_level (x +:+ "|" +:+ h)%string) as [Hp Hhs].
  { destruct (plain_head _ _ Hl Hh') as [E|[?|E]]; [|done|]; exfalso; revert E; apply Hnw; auto. }
  rewrite !contains_append in Hp, Hhs. apply orb_false_iff in Hp as [_ [_ Hp]%orb_false_iff].
  apply orb_false_iff in Hhs as [_ [_ Hhs]%orb_false_iff].
  destruct (match_head _ _ _ Hm Hh) as [->|[->|Ht]]; [done|done|].
  destruct (match_head _ _ _ Hm' Hh') as [E|[E|Ht']]; [revert E; apply Hnw; auto..|].
  rewrite Ht in Ht'. injection Ht' as E. symmetry in E. by apply append_length_lt in E.
Qed.

Abbreviation shared_match := (string * string * MatchedSubscription)%type (only parsing).

Definition agg_of (l : list shared_match) : option shareAgg :=
  match l with
  | [] => None
  | e :: _ => Some (mkShareAgg e.1.1 e.1.2 (best_of l.*2) (ids_of l.*2))
  end.

Lemma agg_of_Some l a : agg_of l = Some a →
  ∃ e l', l = e :: l' ∧ a = mkShareAgg e.1.1 e.1.2 (best_of l.*2) (ids_of l.*2).
Proof. destruct l as [|e l']; [done|]. intros [= <-]. by exists e, l'. Qed.

Lemma add_entry_lookup (es : list shared_match) k :
  foldl add_entry ∅ es !! k = agg_of (filter (λ e, entry_key e = k) es).
Proof.
  induction es as [|e es IH] using rev_ind; [done|].
  rewrite foldl_app, filter_app. cbn [foldl]. unfold add_entry at 1. rewrite filter_cons, filter_nil.
  case_decide as Hk.
  - rewrite Hk, lookup_insert_eq, IH. destruct (filter _ es) as [|e0 l]; cbn [agg_of default].
    { cbn [app agg_of]. f_equal. unfold addShared. cbn [sa_shareGroup sa_topicFilter sa_winner sa_subIDs].
      change ([e].*2) with ([] ++ [e.2]). by rewrite best_of_snoc, ids_of_snoc. }
    change ((e0 :: l) ++ [e]) with (e0 :: (l ++ [e])). cbn [agg_of]. f_equal.
    unfold addShared. cbn [sa_shareGroup sa_topicFilter sa_winner sa_subIDs].
    change (e0 :: (l ++ [e])) with ((e0 :: l) ++ [e]). rewrite fmap_app. cbn [fmap list_fmap].
    by rewrite best_of_snoc, ids_of_snoc.
  - rewrite lookup_insert_ne by done. by rewrite app_nil_r.
Qed.

(** Keys tell groups and filters apart, and both are non-empty. *)
Definition entries_ok (es : list shared_match) : Prop :=
  (∀ e, e ∈ es → e.1.1 ≠ "" ∧ e.1.2 ≠ "") ∧
  (∀ e e', e ∈ es → e' ∈ es → entry_key e = entry_key e' → e.1 = e'.1).

Definition members (g f : string) (es : list shared_match) : list MatchedSubscription :=
  (filter (λ e, e.1 = (g, f)) es).*2.

Definition share_task (publish : Publish) (publisher g f : string) (l : list MatchedSubscription)
    (w : MatchedSubscription) : ShareGroupTask :=
  mkShareTask g f (Z.min (ms_QoS w) (pub_QoS publish)) (pub_QoS publish) publisher
    (jsonMarshal (ids_of l)) (ms_NoLocal w) (ms_RetainAsPublished w).

Lemma filter_key_members es e0 : entries_ok es → e0 ∈ es →
  (filter (λ e, entry_key e = entry_key e0) es).*2 = members e0.1.1 e0.1.2 es.
Proof.
  intros [_ Hinj] H0. unfold members. f_equal. apply filter_ext_elem. intros e He.
  destruct e0 as [[g f] ms0], e as [[g' f'] ms]. cbn. split.
  - intros Hk. apply (Hinj (g', f', ms) (g, f, ms0) He H0 Hk).
  - by intros [= -> ->].
Qed.

Lemma agg_members es k a : entries_ok es → foldl add_entry ∅ es !! k = Some a →
  ∃ e w, e ∈ es ∧ k = entry_key e ∧ best_of (members e.1.1 e.1.2 es) = Some w ∧
    (∀ publish publisher, buildShareGroupTask publish publisher a
       = Some (share_task publish publisher e.1.1 e.1.2 (members e.1.1 e.1.2 es) w)).
Proof.
  intros Hok. rewrite add_entry_lookup. intros (e & l & Hf & ->)%agg_of_Some.
  assert (e ∈ filter (λ e, entry_key e = k) es) as He by (rewrite Hf; left).
  apply list_elem_of_filter in He as [<- He]. rewrite (filter_key_members es e Hok He).
  destruct (best_of_spec (members e.1.1 e.1.2 es)) as (w & Hw & _).
  { rewrite <- (filter_key_members es e Hok He), Hf. done. }
  exists e, w. split_and!; try done. intros publish publisher. unfold buildShareGroupTask. cbn. rewrite Hw.
  destruct (proj1 Hok e He) as [H1 H2]. rewrite !bool_decide_false by done. cbn. unfold share_task. do 2 f_equal.
  unfold effectiveQoS. destruct (Z.ltb_spec (pub_QoS publish) (ms_QoS w)); lia.
Qed.

Lemma tasks_elem es publish publisher t : entries_ok es →
  t ∈ buildShareGroupTasks (foldl add_entry ∅ es) publish publisher ↔
  ∃ e w, e ∈ es ∧ best_of (members e.1.1 e.1.2 es) = Some w ∧
    t = share_task publish publisher e.1.1 e.1.2 (members e.1.1 e.1.2 es) w.
Proof.
  intros Hok. unfold buildShareGroupTasks. rewrite list_elem_of_omap. split.
  - intros (a & ([k a'] & -> & Ha%elem_of_map_to_list)%list_elem_of_fmap & Ht). cbn in Ht.
    destruct (agg_members es k a' Hok Ha) as (e & w & He & _ & Hw & Hb). rewrite Hb in Ht.
    exists e, w. split_and!; try done. congruence.
  - intros (e & w & He & Hw & ->).
    destruct (foldl add_entry ∅ es !! entry_key e) as [a|] eqn:Ha.
    + destruct (agg_members es _ a Hok Ha) as (e' & w' & He' & Hk & Hw' & Hb).
      rewrite (proj2 Hok e e' He He' Hk) in Hw |- *. rewrite Hw in Hw'. injection Hw' as <-.
      exists a. split; [|apply Hb]. apply list_elem_of_fmap. exists (entry_key e, a). split; [done|].
      by apply elem_of_map_to_list.
    + exfalso. rewrite add_entry_lookup in Ha. destruct (filter _ es) as [|e' l] eqn:Hf; [|done].
      assert (e ∈ filter (λ e', entry_key e' = entry_key e) es) as H by by apply list_elem_of_filter.
      rewrite Hf in H. by apply elem_of_nil in H.
Qed.

Lemma tasks_NoDup es publish publisher : entries_ok es →
  NoDup ((λ t, (st_ShareGroup t, st_TopicFilter t)) <$>
         buildShareGroupTasks (foldl add_entry ∅ es) publish publisher).
Proof.
  intros Hok. unfold buildShareGroupTasks.
  assert (∀ k a t, foldl add_entry ∅ es !! k = Some a → buildShareGroupTask publish publisher a = Some t →
    k = shareKey (st_ShareGroup t) (st_TopicFilter t)) as Hkey.
  { intros k a t Ha Ht. destruct (agg_members es k a Hok Ha) as (e & w & _ & -> & _ & Hb).
    rewrite Hb in Ht. injection Ht as <-. done. }
  pose proof (NoDup_fst_map_to_list (foldl add_entry ∅ es)) as Hd.
  assert (∀ k a, (k, a) ∈ map_to_list (foldl add_entry ∅ es) → foldl add_entry ∅ es !! k = Some a) as Hin
    by (intros k a; by rewrite elem_of_map_to_list).
  induction (map_to_list (foldl add_entry ∅ es)) as [|[k a] l IH]; [constructor|]. cbn in *.
  apply NoDup_cons in Hd as [Hn Hd].
  destruct (buildShareGroupTask publish publisher a) as [t|] eqn:Ht;
    [|apply IH; [done|intros; apply Hin; by right]].
  cbn. constructor; [|apply IH; [done|intros; apply Hin; by right]].
  intros (t' & [= Hg Hf] & (a' & ([k' a''] & -> & Hl)%list_elem_of_fmap & Ht')%list_elem_of_omap)%list_elem_of_fmap.
  cbn in Ht'. apply Hn, list_elem_of_fmap. exists (k', a''). split; [|done]. cbn.
  rewrite (Hkey k a t (Hin k a ltac:(left)) Ht), (Hkey k' a'' t' (Hin k' a'' ltac:(by right)) Ht').
  by rewrite Hg, Hf.
Qed.

Section share.
Context (st : MemorySubCenter) (publish : Publish) (publisher : string).
Context (Hok : center_ok st) (Hv : validatePublishTopic (pub_Topic publish) = Ok tt).
Context (Hh : head (SplitTopicLevels (pub_Topic publish)) ≠ Some "$share").
Abbreviation topic := (pub_Topic publish).
Abbreviation entries := (GetAllMatchClientV2 st topic ≫= share_entries publisher).

(** [o] makes client [c] a member of share group [g] for the filter [f]. *)
Definition shares (c : string) (o : SubOption) (g f : string) : Prop :=
  takes st topic publisher c o ∧ ParseSharedSubscription (so_Topic o) = Ok (g, f).

Lemma entries_elem g f ms : (g, f, ms) ∈ entries ↔
  ∃ c o, ms = matchedSubscriptionFromOption o ∧ shares c o g f.
Proof.
  destruct (center_matches st topic Hok Hv Hh) as (_ & Hcl & Hms). rewrite list_elem_of_bind.
  unfold share_entries. split.
  - intros (cm & He & Hcm). apply list_elem_of_omap in He as (ms' & Hin & He).
    unfold share_entry in He. destruct (noLocalSkips _ _ _) eqn:Hn; [done|].
    destruct (ParseSharedSubscription _) as [[g' f']|] eqn:Hp; [|done]. injection He as -> -> ->.
    apply noLocalSkips_spec in Hn. apply (Hms cm Hcm) in Hin as (o & -> & Ho & Hc).
    exists (cm_ClientID cm), o. split; [done|]. by split_and!.
  - intros (c & o & -> & (Ho & Hc & Hn) & Hp).
    assert (c ∈ cm_ClientID <$> GetAllMatchClientV2 st topic) as Hin by (apply Hcl; by exists (so_Topic o), o).
    apply list_elem_of_fmap in Hin as (cm & -> & Hcm). exists cm. split; [|done].
    apply list_elem_of_omap. exists (matchedSubscriptionFromOption o). split; [apply (Hms cm Hcm); by exists o|].
    unfold share_entry. rewrite (proj2 (noLocalSkips_spec _ _ _)) by done. cbn. by rewrite Hp.
Qed.

Lemma filter_levels_tail l ls : filter_levels (l :: ls) → ls ≠ [] → filter_levels ls.
Proof. by inversion 1. Qed.

Lemma shares_filter c o g f : shares c o g f →
  share_parts g f ∧ filter_levels (SplitTopicLevels f) ∧ MatchTopicFilter f topic = true.
Proof.
  intros [(Ho & Hc & _) Hp]. rewrite (covers_shared _ _ _ _ Hp) in Hc.
  unfold sub_of in Ho. destruct (mc_shards st !! _) as [core|] eqn:Es; [|done].
  destruct (ok_filter core (co_core st Hok _ _ Es) c _ o Ho) as [_ [_ Hl]%validateTopicFilter_spec].
  apply ParseSharedSubscription_spec in Hp as [Hs Hp]. rewrite Hs, SplitTopicLevels_shared in Hl by done.
  split_and!; [done| |done].
  apply filter_levels_tail in Hl; [|done]. apply filter_levels_tail in Hl; [done|].
  apply SplitTopicLevels_nonempty, Hp.
Qed.

Lemma shareKey_inj c o g f c' o' g' f' : shares c o g f → shares c' o' g' f' →
  shareKey g f = shareKey g' f' → g = g' ∧ f = f'.
Proof.
  intros H H' Hk. destruct (shares_filter _ _ _ _ H) as ((_ & Hf & Hs & _) & Hl & Hm).
  destruct (shares_filter _ _ _ _ H') as ((_ & Hf' & Hs' & _) & Hl' & Hm').
  apply append_sep_inv in Hk as [?|[(x & -> & ->)|(x & -> & ->)]]; [done|exfalso..].
  - rewrite !contains_append in Hs'. apply orb_false_iff in Hs' as [_ [_ Hx]%orb_false_iff].
    by apply (share_key_prefix x f' topic).
  - rewrite !contains_append in Hs. apply orb_false_iff in Hs as [_ [_ Hx]%orb_false_iff].
    by apply (share_key_prefix x f topic).
Qed.

Lemma entries_ok_matches : entries_ok entries.
Proof.
  split.
  - intros [[g f] ms] (c & o & _ & Hs)%entries_elem. by destruct (shares_filter _ _ _ _ Hs) as ((? & ? & _) & _).
  - intros [[g f] ms] [[g' f'] ms'] (c & o & _ & Hs)%entries_elem (c' & o' & _ & Hs')%entries_elem Hk.
    destruct (shareKey_inj _ _ _ _ _ _ _ _ Hs Hs' Hk) as [-> ->]. done.
Qed.

Lemma members_elem g f ms : ms ∈ members g f entries ↔
  ∃ c o, ms = matchedSubscriptionFromOption o ∧ shares c o g f.
Proof.
  unfold members. rewrite list_elem_of_fmap. rewrite <- entries_elem. split.
  - intros ([[g' f'] ms'] & -> & [[= -> ->] He]%list_elem_of_filter). done.
  - intros He. exists (g, f, ms). split; [done|]. by apply list_elem_of_filter.
Qed.

(** The share groups and filters that get a task. *)
Lemma share_tasks_groups g f :
  (∃ t, t ∈ rr_ShareGroupTasks (Route st publish publisher) ∧ st_ShareGroup t = g ∧ st_TopicFilter t = f) ↔ ∃ c o, shares c o g f.
Proof.
  pose proof entries_ok_matches as Hent. rewrite Route_spec. cbn [rr_ShareGroupTasks].
  set (es := _ ≫= share_entries publisher) in *. split.
  - intros (t & (e & w & He & _ & ->)%(tasks_elem es _ _ _ Hent) & <- & <-). destruct e as [[g' f'] ms].
    apply entries_elem in He as (c & o & _ & Hs). by exists c, o.
  - intros (c & o & Hs). assert (members g f es ≠ []) as Hne.
    { intros E. assert (matchedSubscriptionFromOption o ∈ members g f es) as H by (apply members_elem; by exists c, o).
      rewrite E in H. by apply elem_of_nil in H. }
    destruct (best_of_spec _ Hne) as (w & Hw & _).
    exists (share_task publish publisher g f (members g f es) w). split; [|done].
    apply (tasks_elem es _ _ _ Hent). exists (g, f, matchedSubscriptionFromOption o), w. split_and!; [|done|done].
    apply entries_elem. by exists c, o.
Qed.
End share.

(** C2. Routing to share groups is exact: for a valid publish topic (not under
    [$share]), a share group and filter get one task exactly when some client is
    a member through a stored subscription that covers the topic and is not
    suppressed by no-local; the aggregation key never confuses two of them.  The
    task carries the smaller of the publication's QoS and the highest QoS among
    the members' subscriptions, the options of the preferred one, and all their
    positive subscription identifiers. *)
Theorem Route_share_tasks_exact ops publish publisher :
  let st := reachable ops in
  let tasks := rr_ShareGroupTasks (Route st publish publisher) in
  let shares := shares st publish publisher in
  validatePublishTopic (pub_Topic publish) = Ok tt →
  head (SplitTopicLevels (pub_Topic publish)) ≠ Some "$share" →
  NoDup ((λ t, (st_ShareGroup t, st_TopicFilter t)) <$> tasks) ∧
  (∀ g f, (∃ t, t ∈ tasks ∧ st_ShareGroup t = g ∧ st_TopicFilter t = f) ↔ ∃ c o, shares c o g f) ∧
  (∀ t, t ∈ tasks → let g := st_ShareGroup t in let f := st_TopicFilter t in
     ∃ c w ids, shares c w g f ∧
       (∀ c' o, shares c' o g f → so_QoS o ≤ so_QoS w ∧ preferred o w = false) ∧
       (∀ i, i ∈ ids ↔ 0 < i ∧ ∃ c' o, shares c' o g f ∧ so_SubscriptionIdentifier o = i) ∧
       t = mkShareTask g f (Z.min (so_QoS w) (pub_QoS publish)) (pub_QoS publish) publisher
             (jsonMarshal ids) (so_NoLocal w) (so_RetainAsPublished w)).
Proof.
  intros st tasks shares' Hv Hh. pose proof (reachable_ok ops : center_ok st) as Hok.
  pose proof (entries_ok_matches st publish publisher Hok Hv Hh) as Hent.
  pose proof (λ g f ms, members_elem st publish publisher Hok Hv Hh g f ms) as Hmem.
  pose proof (share_tasks_groups st publish publisher Hok Hv Hh) as Hgroups.
  subst tasks. rewrite Route_spec in Hgroups |- *. cbn [rr_ShareGroupTasks] in *. set (es := _ ≫= share_entries publisher) in *.
  split_and!.
  - by apply tasks_NoDup.
  - exact Hgroups.
  - intros t Ht. apply (tasks_elem es _ _ _ Hent) in Ht as ([[g f] ms] & w & He & Hw & ->). cbn in *.
    assert (members g f es ≠ []) as Hne by (intros E; by rewrite E in Hw).
    destruct (best_of_spec _ Hne) as (w' & Hw' & Hin & Hbest). rewrite Hw in Hw'. injection Hw' as <-.
    apply Hmem in Hin as (c & o & -> & Hs). exists c, o, (ids_of (members g f es)). split_and!; try done.
    + intros c' o' Hs'. assert (preferred o' o = false) as Hp by (apply Hbest, Hmem; by exists c', o').
      split; [by apply not_beats_qos in Hp|done].
    + intros i. rewrite elem_of_ids. apply and_iff_compat_l. split.
      * intros (m & Hm & <-). apply Hmem in Hm as (c' & o' & -> & Hs'). by exists c', o'.
      * intros (c' & o' & Hs' & <-). exists (matchedSubscriptionFromOption o'). split; [|done].
        apply Hmem. by exists c', o'.
Qed.

Lemma Route_share_tasks_exact_witness :
  let st := reachable [CCreate (mkSubRequest [mkSubOption 1 true "$share/g/+/b" false 0 7] "c1" "");
                       CCreate (mkSubRequest [mkSubOption 2 false "$share/g/+/b" false 0 0] "c2" "")] in
  let publish := mkPublish [] "a/b" None 0 1 false false in
  (∃ t, t ∈ rr_ShareGroupTasks (Route st publish "p") ∧ st_ShareGroup t = "g" ∧ st_TopicFilter t = "+/b") ∧
  rr_ShareGroupTasks (Route st publish "p") = [mkShareTask "g" "+/b" 1 1 "p" "[7]" false false].
Proof.
  intros st publish. split; [|vm_compute; reflexivity].
  destruct (Route_share_tasks_exact
    [CCreate (mkSubRequest [mkSubOption 1 true "$share/g/+/b" false 0 7] "c1" "");
     CCreate (mkSubRequest [mkSubOption 2 false "$share/g/+/b" false 0 0] "c2" "")] publish "p") as (_ & H & _);
    [reflexivity|discriminate|].
  apply H. exists "c1", (mkSubOption 1 true "$share/g/+/b" false 0 7).
  split; [|vm_compute; reflexivity]. split_and!; [vm_compute; reflexivity..|].
  intros (_ & Hc & _). discriminate Hc.
Defined.
