(* ===== verification/StateRouter.v ===== *)
(** * State router

    [src/internal/broker/staterouter/in_process.go]: the boundary through which a
    connection acquires its session, saves it, subscribes and routes.  It composes
    the session center and the subscription center, which share the owner token
    of a client; the state is the pair of the two.  The unused [BrokerInstanceID]
    of the requests is omitted.  The injected publish route and node controller
    are not modelled beyond their argument checks. *)

From S2P Require Import Prelude GoStrings Mqtt5 Topic SubCore SubCenter SessionCore Router.

Record RouterState := mkRouterState {
  rs_sessions : Core;
  rs_subs : MemorySubCenter }.

Record AcquireSessionRequest := mkAcquireRequest {
  aq_BrokerNodeID : Z;
  aq_ClientID : string;
  aq_OwnerToken : string;
  aq_WillMessage : option WillMessage;
  aq_SessionExpiryInterval : Z;
  aq_CleanStart : bool;
  aq_NowUnixNano : Z }.

Record AcquireSessionResponse := mkAcquireResponse {
  ap_OpenSession : OpenSessionForConnectResponse;
  ap_Takeover : TakeOverSessionOwnerResponse }.

(** [SaveOfflineStateRequest] of the router: the session center's request, without
    a will message, and the node. *)
Record RouterSaveRequest := mkRouterSave {
  sv_BrokerNodeID : Z;
  sv_ClientID : string;
  sv_OwnerToken : string;
  sv_UnfinishedMessages : list (option UnfinishedMessage);
  sv_OutgoingReplayCursor : option OutgoingReplayCursor;
  sv_ClearWill : bool;
  sv_SessionExpiryInterval : Z;
  sv_NowUnixNano : Z }.

Record SubscribeRequest := mkSubscribeRequest {
  sq_BrokerNodeID : Z;
  sq_ClientID : string;
  sq_OwnerToken : string;
  sq_Subscribe : option Subscribe;
  sq_MaxQoS : Z }.

Record DeleteClientSubscriptionsRequest := mkDeleteSubsRequest {
  dq_BrokerNodeID : Z;
  dq_ClientID : string;
  dq_OwnerToken : string }.

Definition validateClientOwnerRequest (clientID ownerToken : string) (brokerNodeID : Z)
    : result string unit :=
  if bool_decide (clientID = "") then Err "client id is required"
  else if bool_decide (ownerToken = "") then Err "owner token is required"
  else if brokerNodeID =? 0 then Err "broker node id is required"
  else Ok tt.

Definition validateAcquireSessionRequest (req : AcquireSessionRequest) : result string unit :=
  _ ← validateClientOwnerRequest (aq_ClientID req) (aq_OwnerToken req) (aq_BrokerNodeID req);
  check (aq_NowUnixNano req <=? 0) "now unix nano is required".

(** [clock] is the wall clock of the session center's calls. *)
Definition AcquireSession (clock : Z) (st : RouterState) (req : AcquireSessionRequest)
    : RouterState * result string AcquireSessionResponse :=
  match validateAcquireSessionRequest req with
  | Err e => (st, Err e)
  | Ok _ =>
      let '(c, openResp) := openSessionForConnect clock (rs_sessions st)
        (mkOpenRequest (aq_ClientID req) (aq_WillMessage req) (aq_SessionExpiryInterval req)
           (aq_NowUnixNano req)) in
      let st := mkRouterState c (rs_subs st) in
      match openResp with
      | Err e => (st, Err e)
      | Ok openResp =>
          let '(c, replaced) :=
            if aq_CleanStart req then
              replaceSessionStateOnCleanStart c
                (mkReplaceRequest (aq_ClientID req) (aq_WillMessage req)
                   (aq_SessionExpiryInterval req) (aq_NowUnixNano req))
            else (c, Ok tt) in
          let st := mkRouterState c (rs_subs st) in
          match replaced with
          | Err e => (st, Err e)
          | Ok _ =>
              let '(c, takeoverResp) := takeOverSessionOwner c
                (Some (mkOwner (aq_ClientID req) (aq_BrokerNodeID req) (aq_OwnerToken req) true)) in
              let st := mkRouterState c (rs_subs st) in
              match takeoverResp with
              | Err e => (st, Err e)
              | Ok takeoverResp =>
                  let '(t, _) := SetClientOwnerToken (rs_subs st) (aq_ClientID req) (aq_OwnerToken req) in
                  (mkRouterState c t, Ok (mkAcquireResponse openResp takeoverResp))
              end
          end
      end
  end.

Definition SaveOfflineState (clock : Z) (st : RouterState) (req : RouterSaveRequest)
    : RouterState * result string unit :=
  match validateClientOwnerRequest (sv_ClientID req) (sv_OwnerToken req) (sv_BrokerNodeID req) with
  | Err e => (st, Err e)
  | Ok _ =>
      let '(c, r) := saveOfflineState clock (rs_sessions st)
        (mkSaveOfflineRequest (sv_ClientID req) (sv_UnfinishedMessages req) None
           (sv_ClearWill req) (sv_SessionExpiryInterval req) (sv_NowUnixNano req) (sv_OwnerToken req)
           (sv_OutgoingReplayCursor req)) in
      (mkRouterState c (rs_subs st), r)
  end.

Definition subscribeWithQoSCap (subscribe : Subscribe) (maxQoS : Z) : Subscribe :=
  if (maxQoS <? 0) || (2 <? maxQoS) then subscribe
  else
    mkSubscribe (sbs_Properties subscribe)
      ((λ o, if maxQoS <? sub_QoS o
             then mkSubOptions (sub_Topic o) (wrap 8 maxQoS) (sub_RetainHandling o) (sub_NoLocal o)
                    (sub_RetainAsPublished o)
             else o) <$> sbs_Subscriptions subscribe)
      (sbs_PacketID subscribe).

(** Conversion to [int32]: two's complement. *)
Definition wrap_i32 (z : Z) : Z := (z + 2 ^ 31) `mod` 2 ^ 32 - 2 ^ 31.

Definition protoSubOption (subID : Z) (o : SubOptions) : SubOption :=
  mkSubOption (sub_QoS o) (sub_RetainAsPublished o) (sub_Topic o) (sub_NoLocal o)
    (sub_RetainHandling o) subID.

Definition NewProtoSubRequest (subOptions : Subscribe) (clientID ownerToken : string) : SubRequest :=
  let subID := wrap_i32 (default 0 (sbs_Properties subOptions ≫= sbp_SubscriptionIdentifier)) in
  mkSubRequest (protoSubOption subID <$> sbs_Subscriptions subOptions) clientID ownerToken.

(** The loop of [Subscribe]: one [CreateSub] per filter; an error ends it and keeps
    what was created before. *)
Fixpoint subscribeEach (t : MemorySubCenter) (packet : Subscribe) (clientID ownerToken : string)
    (subs : list SubOptions) (granted : list Z) : MemorySubCenter * result (list string) (list Z) :=
  match subs with
  | [] => (t, Ok granted)
  | sub :: subs =>
      let singleReq := mkSubscribe (sbs_Properties packet) [sub] (sbs_PacketID packet) in
      let '(t, rsp, errs) := CreateSub t (NewProtoSubRequest singleReq clientID ownerToken) in
      match errs with
      | _ :: _ => (t, Err errs)
      | [] => subscribeEach t packet clientID ownerToken subs
                (granted ++ [default (-1) (srp_Topics rsp !! sub_Topic sub)])
      end
  end.

Definition RouterSubscribe (st : RouterState) (req : SubscribeRequest)
    : RouterState * result (list string) (list Z) :=
  match validateClientOwnerRequest (sq_ClientID req) (sq_OwnerToken req) (sq_BrokerNodeID req) with
  | Err e => (st, Err [e])
  | Ok _ =>
      match sq_Subscribe req with
      | None => (st, Err ["subscribe packet is nil"])
      | Some subscribe =>
          let subscribePacket := subscribeWithQoSCap subscribe (sq_MaxQoS req) in
          let '(t, r) := subscribeEach (rs_subs st) subscribePacket (sq_ClientID req) (sq_OwnerToken req)
                           (sbs_Subscriptions subscribePacket) [] in
          (mkRouterState (rs_sessions st) t, r)
      end
  end.

Definition DeleteClientSubscriptions (st : RouterState) (req : DeleteClientSubscriptionsRequest)
    : RouterState * result string unit :=
  match validateClientOwnerRequest (dq_ClientID req) (dq_OwnerToken req) (dq_BrokerNodeID req) with
  | Err e => (st, Err e)
  | Ok _ =>
      let '(t, _) := DeleteClient (rs_subs st) (mkDeleteClientRequest (dq_ClientID req) (dq_OwnerToken req)) in
      (mkRouterState (rs_sessions st) t, Ok tt)
  end.

Definition ListClientSubscriptions (st : RouterState) (clientID : string) (brokerNodeID : Z)
    : result string (gmap string SubOption) :=
  if bool_decide (clientID = "") then Err "client id is required"
  else if brokerNodeID =? 0 then Err "broker node id is required"
  else Ok (GetClientSubscriptions (rs_subs st) clientID).

Definition HasMatchingSubscribers (st : RouterState) (clientID : string) (brokerNodeID : Z) (topic : string)
    : result string bool :=
  if bool_decide (clientID = "") then Err "client id is required"
  else if brokerNodeID =? 0 then Err "broker node id is required"
  else if bool_decide (topic = "") then Err "topic is required"
  else
    let resp := Route (rs_subs st) (mkPublish [] topic None 0 0 false false) clientID in
    Ok (bool_decide (length (rr_Plans resp) ≠ 0%nat) || bool_decide (length (rr_ShareGroupTasks resp) ≠ 0%nat)).
