(* ===== verification/StateRouterProofs.v ===== *)
(** * State router: proofs

    The owner token fences the session center and the subscription center
    together: after a takeover the requests of other owners of the client are
    invisible, whatever they are interleaved with.  Acquiring and subscribing have
    the effects of the composed operations. *)

From S2P Require Import Prelude GoStrings Mqtt5 Topic SubCore SubCoreProofs SubCenter SubCenterProofs SessionCore SessionCoreProofs Router RouterProofs StateRouter.

(** ** Owner tokens of the subscription center *)

Lemma getOwnerToken_set t c tok c' : c ≠ "" → tok ≠ "" →
  getOwnerToken (setOwnerToken t c tok) c' = if decide (c' = c) then tok else getOwnerToken t c'.
Proof.
  intros Hc Ht. unfold getOwnerToken, setOwnerToken. rewrite !(bool_decide_false (c = "")), (bool_decide_false (tok = "")) by done.
  cbn. case_decide as E.
  - subst c'. by rewrite bool_decide_false, lookup_insert_eq.
  - by rewrite lookup_insert_ne.
Qed.

Lemma getOwnerToken_eq t t' c : mc_ownerTokens t' = mc_ownerTokens t → getOwnerToken t' c = getOwnerToken t c.
Proof. intros E. unfold getOwnerToken. by rewrite E. Qed.

Lemma CreateSub_ok t req : center_ok t → center_ok (CreateSub t req).1.1.
Proof.
  intros Hok. destruct (CreateSub t req) as [[t' r] errs] eqn:E. by apply CreateSub_spec in E as [? _].
Qed.

(** A subscription sets the token of its client if it had none, and no other. *)
Lemma CreateSub_token t req c : center_ok t → sr_ClientID req ≠ "" →
  getOwnerToken t c ≠ "" ∨ c ≠ sr_ClientID req →
  getOwnerToken (CreateSub t req).1.1 c = getOwnerToken t c.
Proof.
  intros Hok Hid Hc. unfold CreateSub.
  assert (∀ t0, center_ok t0 → getOwnerToken (let '(t, topics, errs) :=
    foldl (createOne (sr_ClientID req)) (t0, ∅, []) (sr_Topics req) in
    (t, mkSubResponse topics false, errs)).1.1 c = getOwnerToken t0 c) as Hrun.
  { intros t0 H0. destruct (foldl _ _ _) as [[t1 tp] er] eqn:E. cbn.
    apply fold_createOne_spec in E as (_ & Ht & _); [|done]. by apply getOwnerToken_eq. }
  case_bool_decide as Htok; cbn [negb]; [by apply Hrun|].
  case_bool_decide as Hs; [|case_bool_decide; cbn; [by apply Hrun|done]].
  rewrite Hrun by by apply setOwnerToken_ok. rewrite getOwnerToken_set by done.
  case_decide; [subst c|done]. naive_solver.
Qed.

Lemma rejectTopics_value opts f v : rejectTopics opts !! f = Some v → v = -1.
Proof.
  unfold rejectTopics.
  assert (∀ (m : gmap string Z), (∀ v, m !! f = Some v → v = -1) → ∀ v,
    foldl (λ m o, if bool_decide (so_Topic o = "") then m else <[so_Topic o := -1]> m) m opts !! f = Some v → v = -1) as H.
  { induction opts as [|o opts IH]; intros m Hm; [done|]. cbn. apply IH. case_bool_decide; [done|].
    intros w. rewrite lookup_insert_Some. naive_solver. }
  by apply H.
Qed.

(** ** Requests as a sequence *)

Inductive RouterOp :=
| RAcquire (r : AcquireSessionRequest)
| RSave (r : RouterSaveRequest)
| RSubscribe (r : SubscribeRequest)
| RDelete (r : DeleteClientSubscriptionsRequest).

Inductive RouterAnswer :=
| AAcquired (a : result string AcquireSessionResponse)
| ASaved (a : result string unit)
| ASubscribed (a : result (list string) (list Z))
| ADeleted (a : result string unit).

(** A request and the clock it is served at. *)
Definition serve (op : Z * RouterOp) (st : RouterState) : RouterState * RouterAnswer :=
  match op.2 with
  | RAcquire r => let '(st, a) := AcquireSession op.1 st r in (st, AAcquired a)
  | RSave r => let '(st, a) := SaveOfflineState op.1 st r in (st, ASaved a)
  | RSubscribe r => let '(st, a) := RouterSubscribe st r in (st, ASubscribed a)
  | RDelete r => let '(st, a) := DeleteClientSubscriptions st r in (st, ADeleted a)
  end.

Definition served (ops : list (Z * RouterOp)) (st : RouterState) : RouterState :=
  foldl (λ st op, (serve op st).1) st ops.

(** Every request with its answer, in order. *)
Fixpoint answers (ops : list (Z * RouterOp)) (st : RouterState) : list (Z * RouterOp * RouterAnswer) :=
  match ops with
  | [] => []
  | op :: ops => (op, (serve op st).2) :: answers ops (serve op st).1
  end.

(** [tok] owns client [c] in both centers. *)
Definition holds (c tok : string) (st : RouterState) : Prop :=
  center_ok (rs_subs st) ∧ c ≠ "" ∧ tok ≠ "" ∧ getOwnerToken (rs_subs st) c = tok ∧
  ow_OwnerToken <$> c_Owners (rs_sessions st) !! c = Some tok.

(** The client and the token a write carries. *)
Definition write_token (op : RouterOp) : option (string * string) :=
  match op with
  | RAcquire _ => None
  | RSave r => Some (sv_ClientID r, sv_OwnerToken r)
  | RSubscribe r => Some (sq_ClientID r, sq_OwnerToken r)
  | RDelete r => Some (dq_ClientID r, dq_OwnerToken r)
  end.

(** A write for [c] that does not carry [tok]. *)
Definition foreign (c tok : string) (op : Z * RouterOp) : Prop :=
  ∃ tok', write_token op.2 = Some (c, tok') ∧ tok' ≠ tok.

#[export] Instance foreign_dec c tok op : Decision (foreign c tok op).
Proof.
  unfold foreign. destruct (write_token op.2) as [[c' tok']|]; [|right; naive_solver].
  destruct (decide (c' = c ∧ tok' ≠ tok)); [left|right]; naive_solver.
Defined.

(** No other owner acquires [c], and the owner does not end the session with expiry 0. *)
Definition keeps_owner (c tok : string) (op : Z * RouterOp) : Prop :=
  match op.2 with
  | RAcquire r => aq_ClientID r = c → aq_OwnerToken r = tok
  | RSave r => sv_ClientID r = c → sv_OwnerToken r = tok → sv_SessionExpiryInterval r ≠ 0
  | _ => True
  end.

(** A refused write: an error, or [-1] for every filter. *)
Definition refused (a : RouterAnswer) : Prop :=
  match a with
  | ASubscribed (Ok granted) => Forall (.= -1) granted
  | _ => True
  end.

(** ** Writes of other owners *)

Lemma validate_ok c tok n : validateClientOwnerRequest c tok n = Ok tt ↔ c ≠ "" ∧ tok ≠ "" ∧ n ≠ 0.
Proof.
  unfold validateClientOwnerRequest. repeat case_bool_decide; try (split; [done|naive_solver]).
  destruct (Z.eqb_spec n 0); split; naive_solver.
Qed.

Lemma CreateSub_fenced t req : create_fenced t req →
  CreateSub t req = (t, mkSubResponse (rejectTopics (sr_Topics req)) false, []).
Proof. intros (H1 & H2 & H3). unfold CreateSub. by rewrite !bool_decide_false. Qed.

Lemma subscribeEach_fenced t p c tok subs granted :
  tok ≠ "" → getOwnerToken t c ≠ "" → getOwnerToken t c ≠ tok → Forall (.= -1) granted →
  ∃ granted', subscribeEach t p c tok subs granted = (t, Ok granted') ∧ Forall (.= -1) granted'.
Proof.
  intros H1 H2 H3. revert granted. induction subs as [|s subs IH]; intros granted Hg; cbn [subscribeEach]; [eauto|].
  rewrite CreateSub_fenced by done. apply IH. rewrite Forall_app, Forall_singleton. split; [done|].
  cbn [srp_Topics]. destruct (_ !! sub_Topic s) eqn:E; [|done]. by apply rejectTopics_value in E.
Qed.

Lemma foreign_noop c tok st op : holds c tok st → foreign c tok op →
  (serve op st).1 = st ∧ refused (serve op st).2.
Proof.
  destruct st as [ss subs]. intros (Hok & Hc & Ht & Hs & Hss) (tok' & Hw & Hne). cbn in Hs, Hss.
  unfold serve. destruct op as [clock [r|r|r|r]]; cbn in *; try done; injection Hw as <- <-.
  - unfold SaveOfflineState. destruct (validateClientOwnerRequest _ _ _) as [[]|] eqn:Hv; [|done].
    apply validate_ok in Hv as (_ & ? & _). pose proof (fenced_noop clock (OpSaveOffline
        (mkSaveOfflineRequest (sv_ClientID r) (sv_UnfinishedMessages r) None
           (sv_ClearWill r) (sv_SessionExpiryInterval r) (sv_NowUnixNano r) (sv_OwnerToken r)
           (sv_OutgoingReplayCursor r))) ss _ _ eq_refl) as Hn. cbn in Hn.
    destruct (saveOfflineState _ _ _) as [c' a]. cbn in *. rewrite Hn; [done|].
    apply fmap_Some in Hss as (o & Ho & ->). by split; [|exists o].
  - unfold RouterSubscribe. destruct (validateClientOwnerRequest _ _ _) as [[]|] eqn:Hv; [|done].
    apply validate_ok in Hv as (_ & ? & _). destruct (sq_Subscribe r) as [p|]; [|done]. cbn.
    edestruct (subscribeEach_fenced subs (subscribeWithQoSCap p (sq_MaxQoS r)) (sq_ClientID r)
      (sq_OwnerToken r)) as (g & -> & Hg); [| | | |done]; naive_solver.
  - unfold DeleteClientSubscriptions. destruct (validateClientOwnerRequest _ _ _) as [[]|] eqn:Hv; [|done].
    apply validate_ok in Hv as (_ & ? & _). unfold DeleteClient. cbn. by rewrite !bool_decide_false by naive_solver.
Qed.

(** ** Requests that leave the owner in place *)

(** The three steps of a valid acquisition, none of which can fail. *)
Definition acquire_open (r : AcquireSessionRequest) : SessionOp :=
  OpOpen (mkOpenRequest (aq_ClientID r) (aq_WillMessage r) (aq_SessionExpiryInterval r) (aq_NowUnixNano r)).
Definition acquire_replace (r : AcquireSessionRequest) : SessionOp :=
  OpReplace (mkReplaceRequest (aq_ClientID r) (aq_WillMessage r) (aq_SessionExpiryInterval r) (aq_NowUnixNano r)).
Definition acquired_owner (r : AcquireSessionRequest) : SessionOwner :=
  mkOwner (aq_ClientID r) (aq_BrokerNodeID r) (aq_OwnerToken r) true.

Definition acquired_core (clock : Z) (r : AcquireSessionRequest) (c : Core) : Core :=
  let c := run_op clock (acquire_open r) c in
  if aq_CleanStart r then run_op clock (acquire_replace r) c else c.

Lemma AcquireSession_eq clock st r : validateAcquireSessionRequest r = Ok tt →
  let c1 := acquired_core clock r (rs_sessions st) in
  ∃ opened, AcquireSession clock st r =
    (mkRouterState (set_owner (aq_ClientID r) (acquired_owner r) c1)
       (setOwnerToken (rs_subs st) (aq_ClientID r) (aq_OwnerToken r)),
     Ok (mkAcquireResponse opened (mkTakeOverResponse (c_Owners c1 !! aq_ClientID r)
           (bool_decide (is_Some (c_Owners c1 !! aq_ClientID r))) (acquired_owner r)))) ∧
    (openSessionForConnect clock (rs_sessions st) (mkOpenRequest (aq_ClientID r) (aq_WillMessage r)
       (aq_SessionExpiryInterval r) (aq_NowUnixNano r))).2 = Ok opened.
Proof.
  intros Hv. unfold AcquireSession. rewrite Hv. unfold validateAcquireSessionRequest in Hv.
  destruct (validateClientOwnerRequest _ _ _) as [[]|] eqn:Hc; [|done]. apply validate_ok in Hc as (Hc & _ & _).
  unfold acquired_core, acquire_open, acquire_replace. cbn [run_op].
  edestruct (open_old_session clock (rs_sessions st) (mkOpenRequest (aq_ClientID r) (aq_WillMessage r)
       (aq_SessionExpiryInterval r) (aq_NowUnixNano r))) as [s Hs]; [done|].
  rewrite Hs. cbn [fst snd]. eexists. split; [|done].
  unfold replaceSessionStateOnCleanStart, takeOverSessionOwner, SetClientOwnerToken, acquired_owner.
  cbn [rsr_ClientID ow_ClientID rs_sessions rs_subs]. rewrite (bool_decide_false (aq_ClientID r = "")) by done.
  by destruct (aq_CleanStart r).
Qed.

Lemma acquired_core_same clock r c id : id ≠ aq_ClientID r → same_client id (acquired_core clock r c) c.
Proof.
  intros Hne. unfold acquired_core.
  pose proof (run_op_same_client clock (acquire_open r) c (aq_ClientID r) id eq_refl Hne) as [H1 H2].
  destruct (aq_CleanStart r); [|done].
  pose proof (run_op_same_client clock (acquire_replace r) (run_op clock (acquire_open r) c)
    (aq_ClientID r) id eq_refl Hne) as [H3 H4].
  split; congruence.
Qed.

Lemma saveOffline_owner clock c r id tok : sor_SessionExpiryInterval r ≠ 0 ∨ id ≠ sor_ClientID r →
  ow_OwnerToken <$> c_Owners c !! id = Some tok →
  ow_OwnerToken <$> c_Owners (saveOfflineState clock c r).1 !! id = Some tok.
Proof.
  intros Hi Ho. destruct (decide (id = sor_ClientID r)) as [->|Hne].
  - destruct Hi as [Hi|]; [|done]. unfold saveOfflineState. cbv zeta.
    rewrite (proj2 (Z.eqb_neq _ _) Hi). apply fmap_Some in Ho as (o & Ho & ->).
    cbn [c_Owners set_session set_owner]. rewrite Ho.
    case_handler; cbn; rewrite ?lookup_insert_eq, ?Ho; done.
  - destruct (run_op_same_client clock (OpSaveOffline r) c (sor_ClientID r) id eq_refl Hne) as [_ H].
    cbn in H. by rewrite H.
Qed.

Lemma subscribeEach_token p c tok subs : tok ≠ "" → c ≠ "" → ∀ t granted t' r id,
  center_ok t → getOwnerToken t id ≠ "" → subscribeEach t p c tok subs granted = (t', r) →
  center_ok t' ∧ getOwnerToken t' id = getOwnerToken t id.
Proof.
  intros Ht Hc. induction subs as [|s subs IH]; intros t granted t' r id Hok Hid.
  { by intros [= <- _]. }
  cbn [subscribeEach]. set (req := NewProtoSubRequest _ _ _).
  pose proof (CreateSub_ok t req Hok) as Hok1.
  pose proof (CreateSub_token t req id Hok Hc (or_introl Hid)) as Htok.
  destruct (CreateSub t req) as [[t1 rsp] errs]. cbn [fst] in *. destruct errs as [|e errs].
  - intros E. apply (IH _ _ _ _ id) in E as [? ?]; [|done|congruence]. split; [done|congruence].
  - intros [= <- _]. done.
Qed.

Lemma keeps_holds c tok st op : holds c tok st → keeps_owner c tok op → holds c tok (serve op st).1.
Proof.
  intros Hh Hk. destruct (decide (foreign c tok op)) as [Hf|Hnf].
  { by rewrite (proj1 (foreign_noop _ _ _ _ Hh Hf)). }
  destruct st as [ss subs]. destruct Hh as (Hok & Hc & Ht & Hs & Hss). cbn in Hs, Hss, Hok.
  destruct op as [clock [r|r|r|r]]; unfold serve; cbn [fst snd]; unfold keeps_owner in Hk; cbn in Hk.
  - destruct (validateAcquireSessionRequest r) as [[]|e] eqn:Hv;
      [|unfold AcquireSession; by rewrite Hv].
    destruct (AcquireSession_eq clock (mkRouterState ss subs) r Hv) as (opened & -> & _). cbn [fst].
    unfold validateAcquireSessionRequest in Hv.
    destruct (validateClientOwnerRequest _ _ _) as [[]|] eqn:Hv'; [|done]. apply validate_ok in Hv' as (Hc' & Ht' & _).
    split_and!; cbn; [by apply setOwnerToken_ok|done..| |].
    + rewrite getOwnerToken_set by done. case_decide; [subst; auto|done].
    + destruct (decide (c = aq_ClientID r)) as [->|Hne].
      { rewrite lookup_insert_eq. cbn. by rewrite Hk. }
      rewrite lookup_insert_ne by done. by rewrite (proj2 (acquired_core_same clock r ss c Hne)).
  - unfold SaveOfflineState. destruct (validateClientOwnerRequest _ _ _) as [[]|] eqn:Hv; [|done].
    cbn [rs_sessions]. set (req := mkSaveOfflineRequest _ _ _ _ _ _ _ _).
    destruct (saveOfflineState clock ss req) as [c' a] eqn:E. cbn. split_and!; [done..|]. cbn.
    pose proof (saveOffline_owner clock ss req c tok) as Ho. rewrite E in Ho. apply Ho; [|done].
    destruct (decide (c = sv_ClientID r)) as [->|]; [left|by right]. apply Hk; [done|].
    destruct (decide (sv_OwnerToken r = tok)); [done|]. exfalso. apply Hnf. by eexists.
  - unfold RouterSubscribe. destruct (validateClientOwnerRequest _ _ _) as [[]|] eqn:Hv; [|done].
    apply validate_ok in Hv as (Hc' & Ht' & _). destruct (sq_Subscribe r) as [p|]; [|done]. cbn [rs_subs rs_sessions].
    destruct (subscribeEach _ _ _ _ _ _) as [t' a] eqn:E.
    apply (subscribeEach_token _ _ _ _ Ht' Hc' _ _ _ _ c) in E as [? E]; [|done|congruence].
    split_and!; cbn; congruence.
  - unfold DeleteClientSubscriptions. destruct (validateClientOwnerRequest _ _ _) as [[]|] eqn:Hv; [|done].
    apply validate_ok in Hv as (Hc' & _). cbn [rs_subs rs_sessions]. destruct (DeleteClient _ _) as [t' b] eqn:E.
    apply DeleteClient_spec in E as (? & E & _); [|done..].
    split_and!; cbn; [done..| |done]. by rewrite (getOwnerToken_eq _ _ _ E).
Qed.

(** C23. Fencing of both centers under interleaving: while [tok] owns client [c] (no
    other owner acquires it and the owner does not end the session with expiry 0),
    any writes for [c] that carry another token may be interleaved with any other
    requests: the sessions, owners, subscriptions and tokens end up exactly as if
    those writes had never been sent, every other request is answered as if they
    had not been, and a SUBSCRIBE among them is granted no filter. *)
Theorem stale_owner_invisible c tok st (ops : list (Z * RouterOp)) :
  holds c tok st → Forall (keeps_owner c tok) ops →
  let others := filter (λ op, ¬ foreign c tok op) ops in
  served ops st = served others st ∧
  answers others st = filter (λ oa, ¬ foreign c tok oa.1) (answers ops st) ∧
  Forall (λ oa, foreign c tok oa.1 → refused oa.2) (answers ops st).
Proof.
  intros Hh Hk. revert st Hh. induction Hk as [|op ops Hop Hops IH]; intros st Hh others; [done|].
  subst others. cbn [served foldl answers]. rewrite !filter_cons, Forall_cons.
  pose proof (IH _ (keeps_holds _ _ _ _ Hh Hop)) as (H1 & H2 & H3). fold (served ops (serve op st).1).
  destruct (decide (foreign c tok op)) as [Hf|Hf].
  - destruct (foreign_noop _ _ _ _ Hh Hf) as [E Hr]. rewrite E in *.
    rewrite !decide_False by (cbn; tauto). by split_and!.
  - rewrite !decide_True by (cbn; tauto). cbn [served foldl answers]. fold (served (filter (λ op, ¬ foreign c tok op) ops) (serve op st).1).
    split_and!; [done|by rewrite H2|cbn; tauto|done].
Qed.

(** ** Acquiring and subscribing *)

Lemma acquired_core_session clock r c : aq_ClientID r ≠ "" → aq_CleanStart r = true →
  c_Sessions (acquired_core clock r c) !! aq_ClientID r =
  Some (mkSession (aq_ClientID r) (aq_WillMessage r) [] (aq_SessionExpiryInterval r) 0 None).
Proof.
  intros Hc Hcs. unfold acquired_core. rewrite Hcs. cbn. unfold replaceSessionStateOnCleanStart.
  cbn [rsr_ClientID]. rewrite bool_decide_false by done. cbn. by rewrite lookup_insert_eq.
Qed.

Lemma holds_acquired clock st r : center_ok (rs_subs st) → validateAcquireSessionRequest r = Ok tt →
  holds (aq_ClientID r) (aq_OwnerToken r) (AcquireSession clock st r).1.
Proof.
  intros Hok Hv. destruct (AcquireSession_eq clock st r Hv) as (opened & -> & _). cbn [fst].
  unfold validateAcquireSessionRequest in Hv.
  destruct (validateClientOwnerRequest _ _ _) as [[]|] eqn:Hv'; [|done]. apply validate_ok in Hv' as (Hc & Ht & _).
  split_and!; cbn; [by apply setOwnerToken_ok|done..| |].
  - rewrite getOwnerToken_set by done. by rewrite decide_True.
  - by rewrite lookup_insert_eq.
Qed.

(** Connecting: a valid acquisition always succeeds; the new token owns the client
    in both centers; the answer carries the session that was visible at that time
    and the owner that is replaced; a clean start leaves a session without
    unfinished messages or cursor; the subscriptions of every client and the
    sessions and owners of all other clients are untouched. *)
Theorem AcquireSession_takes_over clock st r :
  center_ok (rs_subs st) → validateAcquireSessionRequest r = Ok tt →
  let id := aq_ClientID r in
  let st' := (AcquireSession clock st r).1 in
  holds id (aq_OwnerToken r) st' ∧
  (∃ s owner, (AcquireSession clock st r).2 = Ok (mkAcquireResponse
     (mkOpenResponse (GetSession clock (rs_sessions st) id (aq_NowUnixNano r)).1
        (GetSession clock (rs_sessions st) id (aq_NowUnixNano r)).2 s)
     (mkTakeOverResponse owner (bool_decide (is_Some owner)) (acquired_owner r)))
     ∧ owner = if sessionExpired (c_Sessions (rs_sessions st) !! id)
                    (requestNowUnixNano clock (aq_NowUnixNano r))
               then None else c_Owners (rs_sessions st) !! id) ∧
  (aq_CleanStart r = true → c_Sessions (rs_sessions st') !! id =
     Some (mkSession id (aq_WillMessage r) [] (aq_SessionExpiryInterval r) 0 None)) ∧
  (∀ c f, sub_of (rs_subs st') c f = sub_of (rs_subs st) c f) ∧
  (∀ c, c ≠ id → same_client c (rs_sessions st') (rs_sessions st)).
Proof.
  intros Hok Hv id st'. pose proof (holds_acquired clock st r Hok Hv) as Hh. split; [done|].
  pose proof Hh as (_ & Hc & _). subst st'. clear Hh.
  destruct (AcquireSession_eq clock st r Hv) as (opened & -> & Ho). cbn [fst snd rs_sessions rs_subs].
  destruct (open_old_session clock (rs_sessions st) (mkOpenRequest (aq_ClientID r) (aq_WillMessage r)
       (aq_SessionExpiryInterval r) (aq_NowUnixNano r))) as [s Hs]; [done|].
  rewrite Hs in Ho. cbn in Ho. injection Ho as <-. split_and!.
  - eexists s, _. split; [done|]. unfold acquired_core. cbn. rewrite Hs. cbn. unfold expire_core.
    unfold replaceSessionStateOnCleanStart. cbn [rsr_ClientID]. rewrite bool_decide_false by done.
    subst id. by destruct (aq_CleanStart r), (sessionExpired _ _); cbn; rewrite ?lookup_delete_eq.
  - intros Hcs. cbn. by apply acquired_core_session.
  - intros c f. apply setOwnerToken_sub_of.
  - intros c Hne. apply same_client_set_owner; [done|]. by apply acquired_core_same.
Qed.

Lemma CreateSub_one t c tok o : center_ok t → tok ≠ "" → getOwnerToken t c = tok → 
  let '(t', rsp, errs) := CreateSub t (mkSubRequest [o] c tok) in
  center_ok t' ∧ getOwnerToken t' c = tok ∧
  (∀ c' f, sub_of t' c' f = if bool_decide (valid_opt o ∧ c' = c ∧ f = so_Topic o) then Some o else sub_of t c' f) ∧
  srp_Topics rsp !! so_Topic o = Some (if bool_decide (valid_opt o) then so_QoS o else -1) ∧
  (errs = [] ↔ valid_opt o).
Proof.
  intros Hok Ht Hg. unfold CreateSub. cbn [sr_OwnerToken sr_ClientID sr_Topics].
  rewrite Hg, !(bool_decide_false (tok = "")), (bool_decide_true (tok = tok)) by done. cbn [negb foldl].
  destruct (createOne c (t, ∅, []) o) as [[t' topics] errs] eqn:E.
  pose proof (createOne_spec _ _ _ _ _ _ _ _ Hok E) as (Hok' & Htok & Hsub & ->).
  split_and!; [done|by rewrite (getOwnerToken_eq _ _ _ Htok)|done|cbn; by rewrite lookup_insert_eq|].
  clear -E. unfold createOne in E. destruct (getOrCreateShard _ _) as [t1 core].
  destruct (decide (valid_opt o)) as [Hv|Hv].
  - destruct (createSub_total core c o Hv) as [core' Hc]. rewrite Hc in E. split; [done|]. by injection E as _ _ <-.
  - split; [|done]. intros ->. destruct (createSub core c o) eqn:Hc; [|done].
    by apply createSub_inv in Hc as [? _].
Qed.

(** The option stored for a filter of the packet, its QoS capped. *)
Definition capped (maxQoS subID : Z) (s : SubOptions) : SubOption :=
  mkSubOption (Z.min (sub_QoS s) maxQoS) (sub_RetainAsPublished s) (sub_Topic s) (sub_NoLocal s)
    (sub_RetainHandling s) subID.

Definition packet_subID (p : Subscribe) : Z :=
  wrap_i32 (default 0 (sbs_Properties p ≫= sbp_SubscriptionIdentifier)).

#[export] Instance SubOptions_eq_dec : EqDecision SubOptions.
Proof. solve_decision. Defined.

(** The leading filters the center accepts. *)
Fixpoint accepted (subs : list SubOptions) : list SubOptions :=
  match subs with
  | [] => []
  | s :: subs => if decide (validateTopicFilter (sub_Topic s) = Ok tt) then s :: accepted subs else []
  end.

Lemma subscribeEach_spec p c tok subs : tok ≠ "" → ∀ t granted t' r,
  center_ok t → getOwnerToken t c = tok → subscribeEach t p c tok subs granted = (t', r) →
  let opt := protoSubOption (packet_subID p) in
  center_ok t' ∧
  (∀ c' f, sub_of t' c' f = if bool_decide (c' = c)
     then subscribe_effect f (opt <$> accepted subs) (sub_of t c' f) else sub_of t c' f) ∧
  if decide (accepted subs = subs) then r = Ok (granted ++ (sub_QoS <$> subs)) else ∃ e, r = Err e ∧ e ≠ [].
Proof.
  intros Ht. induction subs as [|s subs IH]; intros t granted t' r Hok Hg E opt; cbn [subscribeEach accepted] in *.
  { injection E as <- <-. split_and!; [done| |by rewrite app_nil_r]. intros. by case_bool_decide. }
  pose proof (CreateSub_one t c tok (opt s) Hok Ht Hg) as Hone.
  change (NewProtoSubRequest _ c tok) with (mkSubRequest [opt s] c tok) in E.
  destruct (CreateSub _ _) as [[t1 rsp] errs]. destruct Hone as (Hok1 & Hg1 & Hsub1 & Hq & Herr).
  change (valid_opt (opt s)) with (validateTopicFilter (sub_Topic s) = Ok tt) in *.
  destruct (decide (validateTopicFilter (sub_Topic s) = Ok tt)) as [Hv|Hv].
  - rewrite (proj2 Herr Hv) in E. change (so_Topic (opt s)) with (sub_Topic s) in *. rewrite Hq in E.
    apply IH in E as (Hok' & Hsub' & Hr); [|done..]. split_and!; [done| |].
    + intros c' f. rewrite Hsub', Hsub1. unfold subscribe_effect. rewrite fmap_cons. cbn [foldl].
      destruct (decide (c' = c)) as [->|Hc']; [|by rewrite !bool_decide_eq_false_2 by tauto].
      rewrite (bool_decide_eq_true_2 (c = c)) by done. f_equal. unfold valid_opt. cbn [so_Topic opt protoSubOption].
      by repeat case_bool_decide; naive_solver.
    + rewrite bool_decide_true in Hr by done. cbn [default] in Hr. rewrite <-app_assoc in Hr.
      destruct (decide (accepted subs = subs)) as [E1|E1]; [by rewrite decide_True by congruence|].
      rewrite decide_False; [done|]. by intros [= ?].
  - destruct errs as [|e errs]; [by rewrite <-Herr in Hv|]. injection E as <- <-. split_and!; [done| |].
    + intros c' f. rewrite Hsub1, (bool_decide_eq_false_2 (_ ∧ _)) by tauto. destruct (bool_decide (c' = c)); reflexivity.
    + rewrite decide_False by done. eauto.
Qed.

Lemma cap_option maxQoS subID s : 0 ≤ maxQoS ≤ 2 →
  protoSubOption subID (if maxQoS <? sub_QoS s
     then mkSubOptions (sub_Topic s) (wrap 8 maxQoS) (sub_RetainHandling s) (sub_NoLocal s) (sub_RetainAsPublished s)
     else s) = capped maxQoS subID s.
Proof.
  intros Hm. unfold capped, protoSubOption. destruct (Z.ltb_spec maxQoS (sub_QoS s)); cbn; f_equal; [|lia].
  unfold wrap. rewrite Z.mod_small by lia. lia.
Qed.

Lemma accepted_fmap (g : SubOptions → SubOptions) subs : (∀ s, sub_Topic (g s) = sub_Topic s) →
  accepted (g <$> subs) = g <$> accepted subs.
Proof.
  intros Hg. induction subs as [|s subs IH]; [done|]. rewrite fmap_cons. cbn [accepted]. rewrite Hg.
  case_decide; [|done]. by rewrite fmap_cons, IH.
Qed.

Lemma accepted_all subs : accepted subs = subs ↔ Forall (λ s, validateTopicFilter (sub_Topic s) = Ok tt) subs.
Proof.
  induction subs as [|s subs IH]; [done|]. cbn [accepted]. rewrite Forall_cons, <-IH. case_decide; [|naive_solver].
  split; [|naive_solver congruence]. by intros [= ?].
Qed.

(** SUBSCRIBE through the router: for the owner of a client and a QoS cap of 0, 1
    or 2, the filters up to the first one the center does not accept are stored
    with the packet's options, identifier and the capped QoS, later options of the
    same filter replacing earlier ones; nothing else changes.  If all filters are
    acceptable the capped QoS values are granted in order, otherwise the request
    fails although the accepted prefix stays stored. *)
Lemma RouterSubscribe_grants st (req : SubscribeRequest) p :
  holds (sq_ClientID req) (sq_OwnerToken req) st → sq_BrokerNodeID req ≠ 0 →
  sq_Subscribe req = Some p → 0 ≤ sq_MaxQoS req ≤ 2 →
  let opts := capped (sq_MaxQoS req) (packet_subID p) <$> sbs_Subscriptions p in
  let stored := capped (sq_MaxQoS req) (packet_subID p) <$> accepted (sbs_Subscriptions p) in
  let st' := (RouterSubscribe st req).1 in
  rs_sessions st' = rs_sessions st ∧ center_ok (rs_subs st') ∧
  (∀ c f, sub_of (rs_subs st') c f = if bool_decide (c = sq_ClientID req)
     then subscribe_effect f stored (sub_of (rs_subs st) c f) else sub_of (rs_subs st) c f) ∧
  (if bool_decide (Forall valid_opt opts) then (RouterSubscribe st req).2 = Ok (so_QoS <$> opts)
   else ∃ e, (RouterSubscribe st req).2 = Err e).
Proof.
  intros (Hok & Hc & Ht & Hg & _) Hn Hp Hm opts stored st'. subst st'. unfold RouterSubscribe.
  rewrite (proj2 (validate_ok _ _ _)), Hp by done.
  set (g := λ s, if sq_MaxQoS req <? sub_QoS s
     then mkSubOptions (sub_Topic s) (wrap 8 (sq_MaxQoS req)) (sub_RetainHandling s) (sub_NoLocal s) (sub_RetainAsPublished s)
     else s).
  assert (subscribeWithQoSCap p (sq_MaxQoS req) = mkSubscribe (sbs_Properties p) (g <$> sbs_Subscriptions p) (sbs_PacketID p)) as ->.
  { unfold subscribeWithQoSCap. by zcase. }
  assert (∀ s, sub_Topic (g s) = sub_Topic s) as Hgt by (intros s; subst g; cbn; by case_match).
  destruct (subscribeEach _ _ _ _ _ _) as [t' r] eqn:E.
  apply subscribeEach_spec in E as (Hok' & Hsub & Hr); [|done..]. cbn [fst snd rs_sessions rs_subs sbs_Subscriptions] in *.
  change (packet_subID (mkSubscribe (sbs_Properties p) _ _)) with (packet_subID p) in Hsub.
  assert (∀ l : list SubOptions, protoSubOption (packet_subID p) <$> (g <$> l) = capped (sq_MaxQoS req) (packet_subID p) <$> l) as Hcap.
  { intros l. rewrite <-list_fmap_compose. apply list_fmap_ext. intros _ s _. by apply cap_option. }
  split_and!; [done..| |].
  - intros c f. rewrite Hsub. by rewrite accepted_fmap, Hcap by done.
  - assert (Forall valid_opt opts ↔ accepted (g <$> sbs_Subscriptions p) = g <$> sbs_Subscriptions p) as Hiff.
    { rewrite accepted_all. subst opts. rewrite !Forall_fmap. apply Forall_iff. intros s. cbn. by rewrite Hgt. }
    case_bool_decide as Hv.
    + rewrite decide_True in Hr by tauto. rewrite Hr. cbn. f_equal. subst opts. rewrite <-(Hcap (sbs_Subscriptions p)).
      by rewrite <-(list_fmap_compose _ so_QoS).
    + rewrite decide_False in Hr by tauto. destruct Hr as (e & -> & _). eauto.
Qed.

(** Two connections of one client: the second acquires it while requests of the
    first are still on their way. *)
Definition example_start : RouterState := mkRouterState NewCore NewMemorySubCenter.
Definition example_acquire (tok : string) : AcquireSessionRequest :=
  mkAcquireRequest 1 "c" tok None 60 true 1000.
Definition example_subscribe (tok : string) : SubscribeRequest :=
  mkSubscribeRequest 1 "c" tok (Some (mkSubscribe None [mkSubOptions "a/b" 2 0 false false] 7)) 1.

Lemma stale_owner_invisible_witness :
  let st := (AcquireSession 0 example_start (example_acquire "new")).1 in
  let ops := [(0, RSubscribe (example_subscribe "old")); (0, RSubscribe (example_subscribe "new"));
    (5, RSave (mkRouterSave 1 "c" "old" [] None true 0 5)); (6, RDelete (mkDeleteSubsRequest 1 "c" "old"))] in
  let others := filter (λ op, ¬ foreign "c" "new" op) ops in
  others = [(0, RSubscribe (example_subscribe "new"))] ∧
  served ops st = served others st ∧
  answers others st = filter (λ oa, ¬ foreign "c" "new" oa.1) (answers ops st) ∧
  Forall (λ oa, foreign "c" "new" oa.1 → refused oa.2) (answers ops st).
Proof.
  intros st ops others. split; [vm_compute; reflexivity|]. apply (stale_owner_invisible "c" "new" st ops).
  - apply (holds_acquired 0 example_start (example_acquire "new")); [exact NewMemorySubCenter_ok|reflexivity].
  - repeat constructor; cbn; done.
Defined.

Lemma AcquireSession_takes_over_witness :
  let r := example_acquire "new" in
  let st := (AcquireSession 0 example_start (example_acquire "old")).1 in
  let st' := (AcquireSession 0 st r).1 in
  holds "c" "new" st' ∧
  (∃ s owner, (AcquireSession 0 st r).2 = Ok (mkAcquireResponse
     (mkOpenResponse (GetSession 0 (rs_sessions st) "c" 1000).1 (GetSession 0 (rs_sessions st) "c" 1000).2 s)
     (mkTakeOverResponse owner (bool_decide (is_Some owner)) (acquired_owner r)))
     ∧ owner = if sessionExpired (c_Sessions (rs_sessions st) !! "c") 1000
               then None else c_Owners (rs_sessions st) !! "c").
Proof.
  intros r st st'.
  destruct (AcquireSession_takes_over 0 st r) as (H1 & H2 & _);
    [apply (holds_acquired 0 example_start (example_acquire "old")); [exact NewMemorySubCenter_ok|reflexivity]|reflexivity|].
  split; [exact H1|exact H2].
Defined.

Lemma RouterSubscribe_grants_witness :
  let st := (AcquireSession 0 example_start (example_acquire "new")).1 in
  (RouterSubscribe st (example_subscribe "new")).2 = Ok [1] ∧
  sub_of (rs_subs (RouterSubscribe st (example_subscribe "new")).1) "c" "a/b"
  = Some (mkSubOption 1 false "a/b" false 0 0).
Proof.
  intros st.
  destruct (RouterSubscribe_grants st (example_subscribe "new")
    (mkSubscribe None [mkSubOptions "a/b" 2 0 false false] 7)) as (_ & _ & Hsub & Hr);
    [apply (holds_acquired 0 example_start (example_acquire "new")); [exact NewMemorySubCenter_ok|reflexivity]
    |done|done|done|].
  split; [exact Hr|]. rewrite Hsub. vm_compute. reflexivity.
Defined.
