(* ===== verification/Inflight.v ===== *)
(** * Downlink inflight window

    [src/internal/broker/client/outgoing_inflight.go], [internal/packetid/packet_id.go],
    [rate/bucket.go] and [Client.NextPacketID] of [client_identity.go]: the table of
    QoS 1 and 2 messages sent to a client and not yet acknowledged, the packet
    identifiers they use and the Receive Maximum window.  A [time.Time] is its
    nanosecond count, [None] the zero time where the code tests [IsZero]; a
    [uuid.UUID] is its canonical string.  Every operation runs under the store's
    mutex. *)

From stdpp Require Import sorting.
From S2P Require Import Prelude GoStrings Mqtt5.

Definition uuid_Nil : string := "00000000-0000-0000-0000-000000000000".

(** ** Packet identifiers *)

(** [PacketIDFactory] is its last identifier. *)
Definition factory_NextPacketID (id : Z) : Z :=
  let id := if id =? 65535 then 1 else wrap 16 (id + 1) in
  if id =? 0 then 1 else id.

(** ** Entries *)

Inductive outgoingInflightState :=
| outInflightWaitingPubAck
| outInflightWaitingPubRec
| outInflightWaitingPubComp.

#[export] Instance outgoingInflightState_eq_dec : EqDecision outgoingInflightState.
Proof. solve_decision. Defined.

Record outgoingInflightEntry := mkInflight {
  oi_PacketID : Z;
  oi_QoS : Z;
  oi_TaskTS : Z;
  oi_TaskID : string;
  oi_Generation : Z;
  oi_MessageID : string;
  oi_ShareGroup : string;
  oi_SharedTaskID : string;
  oi_Retained : bool;
  oi_PublishPacket : list byte;
  oi_FirstPubTime : option Z;
  oi_LastSendTime : option Z;
  oi_RetryCount : Z;
  oi_Acked : bool;
  oi_FlowTokenHeld : bool;
  oi_State : outgoingInflightState;
  oi_PersistedInSession : bool }.

#[export] Instance outgoingInflightEntry_eq_dec : EqDecision outgoingInflightEntry.
Proof. solve_decision. Defined.

(** Field assignments [e.State = st], [e.Acked = true], ... *)
Definition set_state (st : outgoingInflightState) (e : outgoingInflightEntry) : outgoingInflightEntry :=
  let 'mkInflight a b c d g h i j k l m n o p q _ s := e in mkInflight a b c d g h i j k l m n o p q st s.
Definition set_acked (e : outgoingInflightEntry) : outgoingInflightEntry :=
  let 'mkInflight a b c d g h i j k l m n o _ q r s := e in mkInflight a b c d g h i j k l m n o true q r s.
Definition set_held (held : bool) (e : outgoingInflightEntry) : outgoingInflightEntry :=
  let 'mkInflight a b c d g h i j k l m n o p _ r s := e in mkInflight a b c d g h i j k l m n o p held r s.
Definition set_sent (now : option Z) (retries : Z) (e : outgoingInflightEntry) : outgoingInflightEntry :=
  let 'mkInflight a b c d g h i j k l m _ _ p q r s := e in mkInflight a b c d g h i j k l m now retries p q r s.

Notation outgoingInflightStore := (gmap Z outgoingInflightEntry).

Definition outgoingInflightLess (a b : outgoingInflightEntry) : bool :=
  if negb (oi_TaskTS a =? oi_TaskTS b) then oi_TaskTS a <? oi_TaskTS b
  else string_ltb (oi_TaskID a) (oi_TaskID b).

(** ** The store *)

Definition Put (e : outgoingInflightEntry) (s : outgoingInflightStore) : outgoingInflightStore * bool :=
  if oi_PacketID e =? 0 then (s, false)
  else (<[oi_PacketID e := e]> s, bool_decide (is_Some (s !! oi_PacketID e))).

Definition inflight_Get (packetID : Z) (s : outgoingInflightStore) : option outgoingInflightEntry :=
  if packetID =? 0 then None else s !! packetID.

Definition UpdateState (packetID : Z) (st : outgoingInflightState) (s : outgoingInflightStore)
    : outgoingInflightStore :=
  if packetID =? 0 then s else alter (set_state st) packetID s.

Definition MarkAcked (packetID qos : Z) (s : outgoingInflightStore)
    : outgoingInflightStore * option outgoingInflightEntry :=
  if packetID =? 0 then (s, None)
  else
    match s !! packetID with
    | None => (s, None)
    | Some e =>
        if negb (oi_QoS e =? qos) || oi_Acked e then (s, None)
        else (<[packetID := set_acked e]> s, Some (set_acked e))
    end.

Definition MarkFlowTokenHeld (packetID : Z) (s : outgoingInflightStore)
    : outgoingInflightStore * option outgoingInflightEntry :=
  if packetID =? 0 then (s, None)
  else
    match s !! packetID with
    | None => (s, None)
    | Some e =>
        if oi_FlowTokenHeld e then (s, None)
        else (<[packetID := set_held true e]> s, Some (set_held true e))
    end.

Definition ClearFlowTokenHeld (packetID : Z) (s : outgoingInflightStore) : outgoingInflightStore :=
  if packetID =? 0 then s else alter (set_held false) packetID s.

Definition inflight_Delete (packetID : Z) (s : outgoingInflightStore)
    : outgoingInflightStore * option outgoingInflightEntry :=
  if packetID =? 0 then (s, None)
  else
    match s !! packetID with
    | None => (s, None)
    | Some e => (delete packetID s, Some e)
    end.

Definition MarkSent (packetID now : Z) (s : outgoingInflightStore) : outgoingInflightStore * option Z :=
  if packetID =? 0 then (s, None)
  else
    match s !! packetID with
    | None => (s, None)
    | Some e =>
        let retries := oi_RetryCount e + 1 in
        (<[packetID := set_sent (Some now) retries e]> s, Some retries)
    end.

(** The order [sort.Slice] sorts by; entries with equal keys, which a client's
    distinct tasks never have, would come in an unspecified order. *)
Definition inflight_le (a b : outgoingInflightEntry) : Prop := outgoingInflightLess b a = false.
#[export] Instance inflight_le_dec a b : Decision (inflight_le a b).
Proof. unfold inflight_le. apply _. Defined.

Definition inflight_sorted (s : outgoingInflightStore) : list outgoingInflightEntry :=
  merge_sort inflight_le (map_to_list s).*2.

(** The leading run of acknowledged entries. *)
Fixpoint acked_prefix (l : list outgoingInflightEntry) : list outgoingInflightEntry :=
  match l with
  | [] => []
  | e :: l => if negb (oi_Acked e) then [] else e :: acked_prefix l
  end.

Definition PopAckedInOrder (s : outgoingInflightStore)
    : outgoingInflightStore * list outgoingInflightEntry :=
  let out := acked_prefix (inflight_sorted s) in
  (foldl (λ s e, delete (oi_PacketID e) s) s out, out).

Definition inflight_Len (s : outgoingInflightStore) : nat := size s.

Definition inflight_All (s : outgoingInflightStore) : list outgoingInflightEntry := (map_to_list s).*2.

(** The entry a scan of the map keeps: the first one unless [better] a later one. *)
Definition scan_best (better : outgoingInflightEntry → outgoingInflightEntry → bool)
    (l : list outgoingInflightEntry) : option outgoingInflightEntry :=
  foldl (λ best e,
    match best with
    | None => Some e
    | Some b => if better e b then Some e else best
    end) None l.

Definition FirstUnacked (s : outgoingInflightStore) : option outgoingInflightEntry :=
  scan_best outgoingInflightLess (filter (λ e, oi_Acked e = false) (inflight_All s)).

Definition LastTask (s : outgoingInflightStore) : option outgoingInflightEntry :=
  scan_best (λ e last, outgoingInflightLess last e) (inflight_All s).

(** ** The Receive Maximum window ([rate.Bucket]) *)

(** [bk_num <= 0] is the unlimited bucket, whose channel is closed and empty. *)
Record Bucket := mkBucket {
  bk_num : Z;
  bk_len : Z }.

Definition NewBucket (num : Z) : Bucket := if num <=? 0 then mkBucket num 0 else mkBucket num num.

(** [None]: the call blocks until a token is put back. *)
Definition GetToken (b : Bucket) : option Bucket :=
  if bk_num b <=? 0 then Some b
  else if 0 <? bk_len b then Some (mkBucket (bk_num b) (bk_len b - 1)) else None.

Definition TryGetToken (b : Bucket) : Bucket * bool :=
  if bk_num b <=? 0 then (b, true)
  else if 0 <? bk_len b then (mkBucket (bk_num b) (bk_len b - 1), true) else (b, false).

(** A token put into a full bucket is dropped. *)
Definition PutToken (b : Bucket) : Bucket :=
  if bk_num b <=? 0 then b
  else if bk_len b <? bk_num b then mkBucket (bk_num b) (bk_len b + 1) else b.

Definition RemainingToken (b : Bucket) : Z := bk_len b.

(** ** Allocating an identifier ([Client.NextPacketID]) *)

(** At most [attempts] identifiers are tried; the result is the factory's last
    identifier and the one handed out, 0 if all are in use. *)
Fixpoint next_packet_id (attempts : nat) (id : Z) (s : outgoingInflightStore) : Z * Z :=
  match attempts with
  | O => (id, 0)
  | S attempts =>
      let id := factory_NextPacketID id in
      if id =? 0 then next_packet_id attempts id s
      else
        match inflight_Get id s with
        | Some _ => next_packet_id attempts id s
        | None => (id, id)
        end
  end.

Definition NextPacketID (id : Z) (s : outgoingInflightStore) : Z * Z :=
  next_packet_id (Z.to_nat 65535) id s.
