(* ===== verification/InflightProofs.v ===== *)
(** * Downlink inflight window: proofs

    Fresh packet identifiers, the acknowledged prefix in task order, and the entries
    the scans find. *)

From stdpp Require Import sorting.
From S2P Require Import Prelude GoStrings Mqtt5 Inflight.

(** ** Packet identifiers *)

Definition is_id (z : Z) : Prop := 1 ≤ z ≤ 65535.

Lemma factory_next id : 0 ≤ id ≤ 65535 → factory_NextPacketID id = id `mod` 65535 + 1.
Proof.
  intros H. unfold factory_NextPacketID, wrap. change (2 ^ 16) with 65536.
  destruct (Z.eqb_spec id 65535) as [->|]; [done|]. rewrite !Z.mod_small by lia. by zcase.
Qed.

Lemma factory_is_id id : 0 ≤ id ≤ 65535 → is_id (factory_NextPacketID id).
Proof. intros H. rewrite factory_next by done. unfold is_id. pose proof (Z.mod_pos_bound id 65535). lia. Qed.

(** The [k]-th identifier after [id]. *)
Definition nth_id (id : Z) (k : nat) : Z := (id - 1 + Z.of_nat k) `mod` 65535 + 1.

Lemma nth_id_S id k : 0 ≤ id ≤ 65535 → nth_id (factory_NextPacketID id) k = nth_id id (S k).
Proof.
  intros H. rewrite factory_next by done. unfold nth_id.
  replace (id `mod` 65535 + 1 - 1 + Z.of_nat k) with (id `mod` 65535 + Z.of_nat k) by lia.
  rewrite Zplus_mod_idemp_l. do 2 f_equal. lia.
Qed.

Lemma inflight_Get_id s id : is_id id → inflight_Get id s = s !! id.
Proof. unfold is_id, inflight_Get. intros. by zcase. Qed.

Lemma next_packet_id_spec n : ∀ id s ids r, 0 ≤ id ≤ 65535 → next_packet_id n id s = (ids, r) →
  0 ≤ ids ≤ 65535 ∧
  ((is_id r ∧ s !! r = None ∧ ids = r) ∨
   (r = 0 ∧ ∀ k, (1 ≤ k ≤ n)%nat → is_Some (s !! nth_id id k))).
Proof.
  induction n as [|n IH]; intros id s ids r Hid; cbn [next_packet_id].
  { intros [= <- <-]. split; [done|]. right. split; [done|lia]. }
  pose proof (factory_is_id id Hid) as Hn. unfold is_id in Hn.
  destruct (Z.eqb_spec (factory_NextPacketID id) 0) as [|_]; [lia|].
  rewrite inflight_Get_id by done. destruct (s !! factory_NextPacketID id) as [e|] eqn:He.
  - intros E. apply IH in E as [Hids Hr]; [|lia]. split; [done|]. destruct Hr as [?|[-> Hall]]; [by left|].
    right. split; [done|]. intros k Hk. destruct k as [|k]; [lia|]. rewrite <-nth_id_S by done.
    destruct k as [|k]; [|apply Hall; lia].
    assert (nth_id (factory_NextPacketID id) 0 = factory_NextPacketID id) as ->; [|by rewrite He].
    unfold nth_id. rewrite Z.add_0_r, Z.mod_small by lia. lia.
  - intros [= <- <-]. split; [lia|]. left. by split_and!.
Qed.

Lemma nth_id_onto id z : 0 ≤ id ≤ 65535 → is_id z → ∃ k, (1 ≤ k ≤ Z.to_nat 65535)%nat ∧ nth_id id k = z.
Proof.
  intros Hid Hz. unfold is_id in Hz. set (m := (z - id - 1) `mod` 65535).
  pose proof (Z.mod_pos_bound (z - id - 1) 65535 ltac:(lia)) as Hm. fold m in Hm.
  exists (Z.to_nat (m + 1)). split; [lia|]. unfold nth_id. rewrite Z2Nat.id by lia.
  replace (id - 1 + (m + 1)) with (id + m) by lia. unfold m. rewrite Zplus_mod_idemp_r.
  replace (id + (z - id - 1)) with (z - 1) by lia. rewrite Z.mod_small by lia. lia.
Qed.

Lemma NextPacketID_spec id s ids r : 0 ≤ id ≤ 65535 → NextPacketID id s = (ids, r) →
  0 ≤ ids ≤ 65535 ∧
  ((is_id r ∧ s !! r = None ∧ ids = r) ∨ (r = 0 ∧ ∀ z, is_id z → is_Some (s !! z))).
Proof.
  intros Hid E. apply next_packet_id_spec in E as [Hids Hr]; [|done]. split; [done|].
  destruct Hr as [?|[-> Hall]]; [by left|]. right. split; [done|]. intros z Hz.
  destruct (nth_id_onto id z Hid Hz) as (k & Hk & <-). by apply Hall.
Qed.

(** ** Task order *)

Lemma inflight_less_spec a b : outgoingInflightLess a b = true ↔
  oi_TaskTS a < oi_TaskTS b ∨ oi_TaskTS a = oi_TaskTS b ∧ string_ltb (oi_TaskID a) (oi_TaskID b) = true.
Proof.
  unfold outgoingInflightLess. destruct (Z.eqb_spec (oi_TaskTS a) (oi_TaskTS b)) as [E|E]; cbn [negb].
  - rewrite E. split; [by right|]. by intros [?|[_ ?]]; [lia|].
  - rewrite Z.ltb_lt. split; [by left|]. by intros [?|[? _]].
Qed.

Lemma inflight_less_asym a b : outgoingInflightLess a b = true → outgoingInflightLess b a = false.
Proof.
  intros H. destruct (outgoingInflightLess b a) eqn:E; [|done]. apply inflight_less_spec in H, E.
  destruct H as [?|[? H]], E as [?|[? E]]; try lia.
  pose proof (string_ltb_trans _ _ _ H E) as F. by rewrite string_ltb_irrefl in F.
Qed.

#[export] Instance inflight_le_total : Total inflight_le.
Proof.
  intros a b. unfold inflight_le. destruct (outgoingInflightLess b a) eqn:E; [right|by left].
  by apply inflight_less_asym.
Qed.

#[export] Instance inflight_le_trans : Transitive inflight_le.
Proof.
  intros a b c. unfold inflight_le. rewrite <-!not_true_iff_false, !inflight_less_spec. intros H1 H2 H3.
  destruct (decide (oi_TaskTS a = oi_TaskTS b)) as [E1|E1], (decide (oi_TaskTS b = oi_TaskTS c)) as [E2|E2];
    try (destruct H3 as [?|[? ?]]; [|]; naive_solver lia).
  destruct H3 as [H3|[_ H3]]; [lia|].
  destruct (decide (oi_TaskID b = oi_TaskID c)) as [Eb|Eb].
  { apply H1. right. split; [done|]. by rewrite Eb. }
  destruct (string_ltb_total _ _ Eb) as [L|L]; [|by apply H2; right].
  apply H1. right. split; [done|]. by eapply string_ltb_trans.
Qed.

(** ** The acknowledged prefix *)

(** Every entry is filed under its own identifier. *)
Definition keyed (s : outgoingInflightStore) : Prop :=
  ∀ id e, s !! id = Some e → oi_PacketID e = id ∧ is_id id.

Lemma elem_of_All s e : e ∈ inflight_All s ↔ ∃ id, s !! id = Some e.
Proof.
  unfold inflight_All. rewrite list_elem_of_fmap. split.
  - intros ([id e'] & -> & H). apply elem_of_map_to_list in H. eauto.
  - intros [id H]. exists (id, e). split; [done|]. by apply elem_of_map_to_list.
Qed.

Lemma elem_of_sorted s e : e ∈ inflight_sorted s ↔ ∃ id, s !! id = Some e.
Proof. unfold inflight_sorted. rewrite merge_sort_Permutation. apply elem_of_All. Qed.

Lemma acked_prefix_spec l : StronglySorted inflight_le l → ∀ e,
  e ∈ acked_prefix l → e ∈ l ∧ oi_Acked e = true ∧ ∀ e', e' ∈ l → outgoingInflightLess e' e = true → oi_Acked e' = true.
Proof.
  induction 1 as [|a l Hs IH Ha]; intros e; cbn [acked_prefix]; [by intros ?%elem_of_nil|].
  destruct (oi_Acked a) eqn:Hack; cbn [negb]; [|by intros ?%elem_of_nil].
  rewrite elem_of_cons. intros [->|He].
  - split_and!; [by left|done|]. intros e' He' Hl. apply elem_of_cons in He' as [->|He']; [done|].
    rewrite Forall_forall in Ha. specialize (Ha e' He'). unfold inflight_le in Ha. congruence.
  - destruct (IH e He) as (H1 & H2 & H3). split_and!; [by right|done|]. intros e' He' Hl.
    apply elem_of_cons in He' as [->|He']; [done|]. by apply H3.
Qed.

Lemma acked_prefix_max l : StronglySorted inflight_le l → ∀ e, e ∈ l → oi_Acked e = true →
  (∀ e', e' ∈ l → inflight_le e' e → oi_Acked e' = true) → e ∈ acked_prefix l.
Proof.
  induction 1 as [|a l Hs IH Ha]; intros e He Hack Hall; [by apply elem_of_nil in He|].
  cbn [acked_prefix]. rewrite Forall_forall in Ha.
  assert (inflight_le a e) as Hae.
  { apply elem_of_cons in He as [->|He]; [|by apply Ha]. destruct (total inflight_le a a); done. }
  rewrite (Hall a (list_elem_of_here _ _) Hae). cbn [negb]. apply elem_of_cons in He as [->|He]; [left|right].
  apply IH; [done..|]. intros e' He' Hl. apply Hall; [by right|done].
Qed.

Lemma fold_delete_lookup (out : list outgoingInflightEntry) (s : outgoingInflightStore) id :
  foldl (λ s e, delete (oi_PacketID e) s) s out !! id =
  if bool_decide (id ∈ oi_PacketID <$> out) then None else s !! id.
Proof.
  revert s. induction out as [|e out IH]; intros s; cbn [foldl]; [done|]. rewrite IH, fmap_cons.
  destruct (decide (id = oi_PacketID e)) as [->|Hne].
  - rewrite (bool_decide_true (_ ∈ _ :: _)) by by left. rewrite lookup_delete_eq. by case_bool_decide.
  - rewrite lookup_delete_ne by done. case_bool_decide as H.
    + by rewrite bool_decide_true by by right.
    + rewrite bool_decide_false; [done|]. rewrite elem_of_cons. tauto.
Qed.

Lemma PopAckedInOrder_spec s s' out : keyed s → PopAckedInOrder s = (s', out) →
  StronglySorted inflight_le out ∧
  (∀ e, e ∈ out → s !! oi_PacketID e = Some e ∧ oi_Acked e = true ∧
     ∀ id e', s !! id = Some e' → outgoingInflightLess e' e = true → oi_Acked e' = true) ∧
  (∀ id e, s !! id = Some e → oi_Acked e = true →
     (∀ id' e', s !! id' = Some e' → inflight_le e' e → oi_Acked e' = true) → e ∈ out) ∧
  (∀ id, s' !! id = match s !! id with
                    | Some e => if bool_decide (e ∈ out) then None else Some e
                    | None => None
                    end).
Proof.
  intros Hk. unfold PopAckedInOrder. intros [= <- <-].
  assert (StronglySorted inflight_le (inflight_sorted s)) as Hs by (apply (StronglySorted_merge_sort inflight_le); apply _).
  assert (∀ l, StronglySorted inflight_le l → StronglySorted inflight_le (acked_prefix l)) as Hpre.
  { induction 1 as [|a l ? IH Ha]; cbn; [constructor|]. destruct (oi_Acked a); cbn; constructor; [done|].
    rewrite Forall_forall in *. intros e He. apply Ha. by apply acked_prefix_spec in He as [? _]. }
  assert (∀ e, e ∈ acked_prefix (inflight_sorted s) → s !! oi_PacketID e = Some e) as Hin.
  { intros e He. apply acked_prefix_spec in He as [He _]; [|done]. apply elem_of_sorted in He as [id He].
    by destruct (Hk id e He) as [-> _]. }
  split_and!.
  - by apply Hpre.
  - intros e He. split; [by apply Hin|]. apply acked_prefix_spec in He as (_ & ? & H); [|done].
    split; [done|]. intros id e' He'. apply H. apply elem_of_sorted. eauto.
  - intros id e He Hack Hall. apply acked_prefix_max; [done|apply elem_of_sorted; eauto|done|].
    intros e' [id' He']%elem_of_sorted. by apply Hall with id'.
  - intros id. rewrite fold_delete_lookup. case_bool_decide as H.
    + apply list_elem_of_fmap in H as (e & -> & He). rewrite (Hin e He). by rewrite bool_decide_true.
    + destruct (s !! id) as [e|] eqn:E; [|done]. rewrite bool_decide_false; [done|]. intros He. apply H.
      apply list_elem_of_fmap. exists e. split; [|done]. by destruct (Hk id e E) as [-> _].
Qed.

(** ** Scans *)

Lemma scan_best_elem better l e : scan_best better l = Some e → e ∈ l.
Proof.
  unfold scan_best.
  assert (∀ best, foldl (λ best e, match best with None => Some e | Some b => if better e b then Some e else best end)
    best l = Some e → best = Some e ∨ e ∈ l) as H.
  { induction l as [|a l IH]; cbn; intros best Hb; [by left|]. apply IH in Hb as [Hb|?]; [|right; by right].
    destruct best as [b|]; [destruct (better a b)|]; simplify_eq; [right; by left|by left|right; by left]. }
  intros Hf. by destruct (H _ Hf).
Qed.

Lemma scan_best_None better l : scan_best better l = None → l = [].
Proof.
  unfold scan_best. destruct l as [|a l]; [done|]. cbn.
  assert (∀ best, is_Some best → is_Some (foldl (λ best e, match best with None => Some e | Some b => if better e b then Some e else best end)
    best l)) as H.
  { induction l as [|b l IH]; intros best Hb; [done|]. cbn. apply IH. destruct best as [x|]; [|eauto]. destruct (better b x); eauto. }
  intros E. destruct (H (Some a)) as [? H']; [eauto|]. congruence.
Qed.

(** The earliest of a list of entries. *)
Lemma scan_first_least l e : scan_best outgoingInflightLess l = Some e → ∀ e', e' ∈ l → inflight_le e e'.
Proof.
  unfold scan_best.
  assert (∀ best e, foldl (λ best e, match best with None => Some e | Some b => if outgoingInflightLess e b then Some e else best end)
    best l = Some e → (∀ b, best = Some b → inflight_le e b) ∧ ∀ e', e' ∈ l → inflight_le e e') as H.
  { induction l as [|a l IH]; cbn; intros best e0 Hb.
    { subst best. split; [|by intros ? ?%elem_of_nil]. intros b [= <-]. by destruct (total inflight_le e0 e0). }
    apply IH in Hb as [H1 H2]. destruct best as [b|].
    - destruct (outgoingInflightLess a b) eqn:E.
      + specialize (H1 a eq_refl). split.
        * intros b' [= <-]. transitivity a; [done|]. by apply inflight_less_asym.
        * intros e' [->|?]%elem_of_cons; auto.
      + specialize (H1 b eq_refl). split; [by intros ? [= <-]|].
        intros e' [->|?]%elem_of_cons; [|auto]. by transitivity b.
    - split; [done|]. intros e' [->|?]%elem_of_cons; auto. }
  intros E. by apply H in E as [_ ?].
Qed.

Lemma FirstUnacked_spec s e : FirstUnacked s = Some e → (∃ id, s !! id = Some e) ∧ oi_Acked e = false.
Proof.
  unfold FirstUnacked. intros E. apply scan_best_elem, list_elem_of_filter in E as [? E].
  by apply elem_of_All in E.
Qed.
