(* ===== verification/Downlink.v ===== *)
(** * Downlink delivery

    [src/internal/broker/client/delivery_runner.go], [client_handler_qos_flow.go],
    [retained_delivery.go], [outgoing_progress_commit.go] and the parts of
    [message_expiry.go], [subscription_identifier.go], [outgoing_inflight_restore.go]
    they call: how stored messages are sent to a connected client under its Receive
    Maximum, acknowledged, retransmitted, and how the delivery cursor advances.

    The state is what a connection keeps; [dl_trace] records what it does to the
    outside, in order: packets written, cursors stored, shared tasks completed,
    session entries removed, commits started.  What the outside answers is an
    argument of each step: the stored payload, whether the cursor could be stored,
    what became of a write.  Each function is one atomic step; metrics and logs are
    omitted.  Topic aliases are transparent ([TopicAlias.v]), so a written PUBLISH is
    recorded with its full topic. *)

From S2P Require Import Prelude GoStrings Mqtt5 Wire WireParse WireProps WireCodec SessionCore Inflight.

(** ** Data of the delivery store *)

Record DeliveryTask := mkTask {
  dt_TS : Z;
  dt_TaskID : string;
  dt_ClientID : string;
  dt_MessageID : string;
  dt_Generation : Z;
  dt_DeliveryQoS : Z;
  dt_SubscriptionIDs : list Z;
  dt_NoLocal : bool;
  dt_RetainAsPublished : bool;
  dt_ShareGroup : string;
  dt_SharedTaskID : string }.

Record DeliveryCursor := mkCursor {
  dc_ClientID : string;
  dc_Generation : Z;
  dc_LastTS : Z;
  dc_LastTaskID : string }.

(** The fields of a stored [brokerpublish.Message] that delivery reads. *)
Record StoredMessage := mkStored {
  sm_Publish : Publish;
  sm_SendClientID : string;
  sm_ExpiredTime : Z }.

(** ** Effects and state *)

Inductive Effect :=
| Sent (p : Packet)
| CursorAdvanced (c : DeliveryCursor)
| SharedTaskProcessed (shareGroup taskID : string)
| UnfinishedRemoved (messageID : string)
| CommitStarted
| Closed.

Record Downlink := mkDownlink {
  dl_ID : string;
  dl_packetIDs : Z;
  dl_publishBucket : option Bucket;
  dl_outgoingInflight : outgoingInflightStore;
  dl_packetIdentifierIDTopic : gmap Z string;
  dl_last : Z * string;
  dl_outgoingAcksSinceCommit : Z;
  dl_outgoingCommitInFlight : bool;
  dl_done : bool;
  dl_trace : list Effect }.

Definition with_packetIDs (x : Z) (d : Downlink) : Downlink :=
  let 'mkDownlink a _ c e f g h i j k := d in mkDownlink a x c e f g h i j k.
Definition with_bucket (x : option Bucket) (d : Downlink) : Downlink :=
  let 'mkDownlink a b _ e f g h i j k := d in mkDownlink a b x e f g h i j k.
Definition with_inflight (x : outgoingInflightStore) (d : Downlink) : Downlink :=
  let 'mkDownlink a b c _ f g h i j k := d in mkDownlink a b c x f g h i j k.
Definition with_topics (x : gmap Z string) (d : Downlink) : Downlink :=
  let 'mkDownlink a b c e _ g h i j k := d in mkDownlink a b c e x g h i j k.
Definition with_last (x : Z * string) (d : Downlink) : Downlink :=
  let 'mkDownlink a b c e f _ h i j k := d in mkDownlink a b c e f x h i j k.
Definition with_acks (x : Z) (d : Downlink) : Downlink :=
  let 'mkDownlink a b c e f g _ i j k := d in mkDownlink a b c e f g x i j k.
Definition with_commit (x : bool) (d : Downlink) : Downlink :=
  let 'mkDownlink a b c e f g h _ j k := d in mkDownlink a b c e f g h x j k.
(** The context of the connection is done. *)
Definition cancel (d : Downlink) : Downlink :=
  let 'mkDownlink a b c e f g h i _ k := d in mkDownlink a b c e f g h i true k.
Definition emit (x : Effect) (d : Downlink) : Downlink :=
  let 'mkDownlink a b c e f g h i j k := d in mkDownlink a b c e f g h i j (k ++ [x]).

(** [Client.close]; only its first call has an effect outside. *)
Definition close (d : Downlink) : Downlink := emit Closed (cancel d).

Definition putToken (d : Downlink) : Downlink := with_bucket (PutToken <$> dl_publishBucket d) d.

(** ** Writing packets *)

(** What became of a write: sent, larger than the client's Maximum Packet Size, or
    failed on the connection. *)
Inductive WriteOutcome := WSent | WOversized | WFailed.

Definition errOversizedOutboundPublish : string :=
  "outbound publish exceeds client maximum packet size; discarded".

(** [Client.Write] and [Client.write], as far as this component is concerned: the
    topic of a PUBLISH is noted under its identifier, an oversized PUBLISH is
    discarded, any other oversized packet closes the connection, and a failed write
    cancels it.  The outcome is given: it covers the encoder's refusals too, which
    [Outbound] derives from the packet. *)
Definition write (o : WriteOutcome) (p : Packet) (fullTopic : string) (d : Downlink)
    : Downlink * result string unit :=
  let d := match p with
           | PPublish pub => with_topics (<[pub_PacketID pub := fullTopic]> (dl_packetIdentifierIDTopic d)) d
           | _ => d
           end in
  match o with
  | WSent => (emit (Sent p) d, Ok tt)
  | WOversized =>
      match p with
      | PPublish _ => (d, Err errOversizedOutboundPublish)
      | _ => (close d, Err "packet size exceeds client maximum")
      end
  | WFailed => (cancel d, Err "write packet error")
  end.

(** [internal/disconnect]: the reasons used here have no surrounding blanks for
    [strings.TrimSpace] to remove. *)
Definition NewServerDisconnect (code : Z) (reason : string) : Packet :=
  PDisconnect (mkDisconnect
    (if bool_decide (reason = "") then None else Some (mkDisconnectProperties None "" reason [])) code).

Definition DisconnectProtocolError : Z := 0x82.
Definition DisconnectQuotaExceeded : Z := 0x97.

Definition ForProtocolError (reason : string) : Packet :=
  if bool_decide (reason = "") then NewServerDisconnect DisconnectProtocolError "protocol error"
  else NewServerDisconnect DisconnectProtocolError ("protocol error: " +:+ reason).

Definition ForQuotaExceeded (reason : string) : Packet :=
  if bool_decide (reason = "") then NewServerDisconnect DisconnectQuotaExceeded "quota exceeded"
  else NewServerDisconnect DisconnectQuotaExceeded ("quota exceeded: " +:+ reason).

(** [_ = c.write(packet); _ = c.close()]: the packet may or may not get out. *)
Definition disconnect (o : WriteOutcome) (packet : Packet) (d : Downlink) : Downlink :=
  close (write o packet "" d).1.

(** ** Preparing a stored PUBLISH *)

(** [copyProperties] leaves the will delay interval out. *)
Definition CopyPublish (src : Publish) : Publish :=
  mkPublish (pub_Payload src) (pub_Topic src)
    ((λ p, mkPublishProperties (pup_PayloadFormat p) (pup_MessageExpiry p) None (pup_ContentType p)
             (pup_ResponseTopic p) (pup_CorrelationData p) (pup_TopicAlias p)
             (pup_SubscriptionIdentifier p) (pup_User p)) <$> pub_Properties src)
    (pub_PacketID src) (pub_QoS src) (pub_Duplicate src) (pub_Retain src).

Definition set_props (f : PublishProperties → PublishProperties) (p : Publish) : Publish :=
  mkPublish (pub_Payload p) (pub_Topic p) (f <$> pub_Properties p) (pub_PacketID p) (pub_QoS p)
    (pub_Duplicate p) (pub_Retain p).

(** [publish.Properties = &packets.PublishProperties{}] when it is nil. *)
Definition ensure_props (p : Publish) : Publish :=
  mkPublish (pub_Payload p) (pub_Topic p)
    (Some (default (mkPublishProperties None None None "" "" None None [] []) (pub_Properties p)))
    (pub_PacketID p) (pub_QoS p) (pub_Duplicate p) (pub_Retain p).

Definition set_expiry (x : option Z) (p : PublishProperties) : PublishProperties :=
  mkPublishProperties (pup_PayloadFormat p) x (pup_WillDelayInterval p) (pup_ContentType p)
    (pup_ResponseTopic p) (pup_CorrelationData p) (pup_TopicAlias p) (pup_SubscriptionIdentifier p) (pup_User p).

Definition set_subids (x : list Z) (p : PublishProperties) : PublishProperties :=
  mkPublishProperties (pup_PayloadFormat p) (pup_MessageExpiry p) (pup_WillDelayInterval p)
    (pup_ContentType p) (pup_ResponseTopic p) (pup_CorrelationData p) (pup_TopicAlias p) x (pup_User p).

(** [None]: the message has expired and is not delivered. *)
Definition applyMessageExpiryForDelivery (publish : Publish) (expiredTime now : Z) : option Publish :=
  if expiredTime =? 0 then Some (set_props (set_expiry None) publish)
  else
    let remainingNano := wrap_i64 (expiredTime - now) in
    if remainingNano <=? 0 then None
    else
      let remaining := wrap 32 (wrap_i64 (remainingNano + 1000000000 - 1) `div` 1000000000) in
      if remaining =? 0 then None
      else Some (set_props (set_expiry (Some remaining)) (ensure_props publish)).

Definition outboundPayloadFormatInvalid (p : Publish) : bool :=
  match pub_Properties p with
  | None => false
  | Some props =>
      match pup_PayloadFormat props with
      | None => false
      | Some f => (f =? 1) && negb (utf8_valid (pub_Payload p))
      end
  end.

Definition sanitizeSubscriptionIdentifiers (subIDs : list Z) : list Z :=
  filter (λ sid, 1 ≤ sid ≤ 268435455) subIDs.

Definition setPublishSubscriptionIdentifiers (subIDs : list Z) (p : Publish) : Publish :=
  let validSubIDs := sanitizeSubscriptionIdentifiers subIDs in
  if bool_decide (length validSubIDs = 0%nat) then set_props (set_subids []) p
  else set_props (set_subids validSubIDs) (ensure_props p).

Definition set_retain (r : bool) (p : Publish) : Publish :=
  mkPublish (pub_Payload p) (pub_Topic p) (pub_Properties p) (pub_PacketID p) (pub_QoS p) (pub_Duplicate p) r.
Definition set_qos_id (qos id : Z) (p : Publish) : Publish :=
  mkPublish (pub_Payload p) (pub_Topic p) (pub_Properties p) id qos (pub_Duplicate p) (pub_Retain p).
Definition set_dup (p : Publish) : Publish :=
  mkPublish (pub_Payload p) (pub_Topic p) (pub_Properties p) (pub_PacketID p) (pub_QoS p) true (pub_Retain p).

(** [None]: dropped, because expired or not UTF-8. *)
Definition applyDeliveryPublishOptions (t : DeliveryTask) (msg : StoredMessage) (now : Z) (p : Publish)
    : option Publish :=
  match applyMessageExpiryForDelivery p (sm_ExpiredTime msg) now with
  | None => None
  | Some p =>
      if outboundPayloadFormatInvalid p then None
      else
        let p := if dt_RetainAsPublished t then p else set_retain false p in
        Some (setPublishSubscriptionIdentifiers (dt_SubscriptionIDs t) p)
  end.

Definition deliveryQoS (taskQoS : Z) : Z :=
  if 2 <=? taskQoS then 2 else if taskQoS <=? 0 then 0 else 1.

(** ** Sending a stored message ([deliverSingleClientDeliveryTask]) *)

(** What the outside answers while one task is delivered. *)
Inductive Loaded :=
| LoadNotFound
| LoadFailed
| LoadEmpty
| LoadUndecodable
| LoadOk (msg : StoredMessage).

Record DeliveryIO := mkDeliveryIO {
  io_payload : Loaded;
  io_advance : bool;
  io_write : WriteOutcome;
  io_disconnect : WriteOutcome;
  io_now : Z }.

Definition completeSharedDeliveryTask (shareGroup taskID : string) (d : Downlink) : Downlink :=
  if bool_decide (shareGroup = "") || bool_decide (taskID = uuid_Nil) then d
  else emit (SharedTaskProcessed shareGroup taskID) d.

Definition advanceClientDeliveryCursor (io : DeliveryIO) (t : DeliveryTask) (d : Downlink)
    : Downlink * result string unit :=
  let d := with_last (dt_TS t, dt_TaskID t) d in
  if negb (io_advance io) then (d, Err "advance cursor")
  else
    let d := emit (CursorAdvanced (mkCursor (dl_ID d) (dt_Generation t) (dt_TS t) (dt_TaskID t))) d in
    (completeSharedDeliveryTask (dt_ShareGroup t) (dt_SharedTaskID t) d, Ok tt).

Definition newDeliveryInflightEntry (t : DeliveryTask) (packetID qos now : Z) (flowTokenHeld : bool)
    : outgoingInflightEntry :=
  mkInflight packetID qos (dt_TS t) (dt_TaskID t) (dt_Generation t) (dt_MessageID t) (dt_ShareGroup t)
    (dt_SharedTaskID t) false [] (Some now) (Some now) 0 false flowTokenHeld
    (if qos =? 2 then outInflightWaitingPubRec else outInflightWaitingPubAck) false.

Record deliveryInflightState := mkInflightState {
  is_packetID : Z;
  is_usedFlowToken : bool;
  is_registeredInflight : bool }.

(** [c.publishBucket.GetToken(c.ctx)] if there is a bucket; [None] blocks.  A done
    context also ends the wait, without a token. *)
Definition takeToken (d : Downlink) : option Downlink :=
  match dl_publishBucket d with
  | None => Some d
  | Some b =>
      match GetToken b with
      | Some b => Some (with_bucket (Some b) d)
      | None => if dl_done d then Some d else None
      end
  end.

(** The outer [option] is [None] when the call blocks for a token. *)
Definition prepareDeliveryQoSAndInflight (io : DeliveryIO) (t : DeliveryTask) (p : Publish) (qos : Z)
    (d : Downlink) : option (Downlink * Publish * result string deliveryInflightState) :=
  if qos =? 0 then Some (d, set_qos_id 0 0 p, Ok (mkInflightState 0 false false))
  else
    let '(ids, packetID) := NextPacketID (dl_packetIDs d) (dl_outgoingInflight d) in
    let d := with_packetIDs ids d in
    let p := set_qos_id qos packetID p in
    if packetID =? 0 then
      Some (disconnect (io_disconnect io) (ForQuotaExceeded "downlink packet identifiers exhausted") d, p,
            Err "no available packet id for downlink publish")
    else
      match takeToken d with
      | None => None
      | Some d =>
          let used := bool_decide (is_Some (dl_publishBucket d)) in
          let '(inflight, replaced) :=
            Put (newDeliveryInflightEntry t packetID qos (io_now io) used) (dl_outgoingInflight d) in
          let d := with_inflight inflight d in
          if replaced then
            let d := if used then putToken d else d in
            Some (disconnect (io_disconnect io)
                    (ForProtocolError "downlink packet id reused while inflight") d, p,
                  Err "downlink packet id reused while inflight")
          else Some (d, p, Ok (mkInflightState packetID used true))
      end.

Definition releaseDeliveryInflight (i : deliveryInflightState) (d : Downlink) : Downlink :=
  if is_registeredInflight i then
    let '(inflight, deleted) := inflight_Delete (is_packetID i) (dl_outgoingInflight d) in
    let d := with_inflight inflight d in
    if bool_decide (is_Some deleted) && is_usedFlowToken i then putToken d else d
  else if is_usedFlowToken i then putToken d
  else d.

Definition handleDeliveryWriteError (io : DeliveryIO) (t : DeliveryTask) (i : deliveryInflightState)
    (err : string) (d : Downlink) : Downlink * result string unit :=
  let d := releaseDeliveryInflight i d in
  if bool_decide (err = errOversizedOutboundPublish) then advanceClientDeliveryCursor io t d
  else (d, Err err).

(** [inl msg]: loaded; [inr r]: the task is handled with result [r]. *)
Definition loadClientDeliveryMessage (io : DeliveryIO) (t : DeliveryTask) (d : Downlink)
    : StoredMessage + Downlink * result string unit :=
  match io_payload io with
  | LoadNotFound | LoadEmpty => inr (advanceClientDeliveryCursor io t d)
  | LoadFailed => inr (d, Err "read message payload failed")
  | LoadUndecodable => inr (d, Err "decode message payload failed")
  | LoadOk msg => inl msg
  end.

Definition deliverSingleClientDeliveryTask (io : DeliveryIO) (t : DeliveryTask) (d : Downlink)
    : option (Downlink * result string unit) :=
  match loadClientDeliveryMessage io t d with
  | inr r => Some r
  | inl msg =>
      if dt_NoLocal t && negb (bool_decide (sm_SendClientID msg = ""))
         && bool_decide (sm_SendClientID msg = dl_ID d)
      then Some (advanceClientDeliveryCursor io t d)
      else
        match applyDeliveryPublishOptions t msg (io_now io) (CopyPublish (sm_Publish msg)) with
        | None => Some (advanceClientDeliveryCursor io t d)
        | Some p =>
            let qos := deliveryQoS (dt_DeliveryQoS t) in
            match prepareDeliveryQoSAndInflight io t p qos d with
            | None => None
            | Some (d, p, Err e) => Some (d, Err e)
            | Some (d, p, Ok i) =>
                match write (io_write io) (PPublish p) (pub_Topic (sm_Publish msg)) d with
                | (d, Err e) => Some (handleDeliveryWriteError io t i e d)
                | (d, Ok _) =>
                    if qos =? 0 then Some (advanceClientDeliveryCursor io t d)
                    else Some (with_last (dt_TS t, dt_TaskID t) d, Ok tt)
                end
            end
        end
  end.

Definition canSendMoreDownlink (d : Downlink) : bool :=
  match dl_publishBucket d with
  | Some b => 0 <? RemainingToken b
  | None => bool_decide (inflight_Len (dl_outgoingInflight d) = 0%nat)
  end.

(** One batch, in order; it ends at the first failure, when the window is full or
    the connection is gone. *)
Fixpoint deliverClientDeliveryTasks (tasks : list (DeliveryIO * DeliveryTask)) (d : Downlink)
    : option Downlink :=
  match tasks with
  | [] => Some d
  | (io, t) :: tasks =>
      if dl_done d then Some d
      else if negb (canSendMoreDownlink d) then Some d
      else
        match deliverSingleClientDeliveryTask io t d with
        | None => None
        | Some (d, Err _) => Some d
        | Some (d, Ok _) =>
            if negb (canSendMoreDownlink d) then Some d
            else deliverClientDeliveryTasks tasks d
        end
  end.

(** ** Acknowledgements ([client_handler_qos_flow.go]) *)

Definition mqtt5ReasonCodeIsError (reasonCode : Z) : bool := 0x80 <=? reasonCode.

(** [maybeCommitOutgoingProgress]: one commit at a time. *)
Definition maybeCommitOutgoingProgress (d : Downlink) : Downlink :=
  if dl_outgoingCommitInFlight d then d else emit CommitStarted (with_commit true d).

Definition recordOutgoingTerminalAcks (outgoingCommitMaxAcks n : Z) (d : Downlink) : Downlink :=
  if n <=? 0 then d
  else
    let d := with_acks (dl_outgoingAcksSinceCommit d + n) d in
    if (0 <? outgoingCommitMaxAcks) && (outgoingCommitMaxAcks <=? dl_outgoingAcksSinceCommit d)
    then maybeCommitOutgoingProgress d else d.

(** What an acknowledgement needs of the outside: whether each cursor is stored,
    the fate of a packet it sends, and the commit threshold of the configuration. *)
Record AckIO := mkAckIO {
  ak_advance : outgoingInflightEntry → bool;
  ak_write : WriteOutcome;
  ak_commitMaxAcks : Z }.

Definition removeOutgoingUnfinishedFromSession (messageID : string) (d : Downlink) : Downlink :=
  if bool_decide (messageID = uuid_Nil) || bool_decide (dl_ID d = "") then d
  else emit (UnfinishedRemoved messageID) d.

(** The body of the loop over the popped entries. *)
Definition finishEntry (io : AckIO) (d : Downlink) (e : outgoingInflightEntry) : Downlink :=
  let d := with_topics (delete (oi_PacketID e) (dl_packetIdentifierIDTopic d)) d in
  if oi_Retained e then
    if oi_PersistedInSession e then removeOutgoingUnfinishedFromSession (oi_MessageID e) d else d
  else
    let d :=
      if ak_advance io e then
        completeSharedDeliveryTask (oi_ShareGroup e) (oi_SharedTaskID e)
          (emit (CursorAdvanced (mkCursor (dl_ID d) (oi_Generation e) (oi_TaskTS e) (oi_TaskID e))) d)
      else d in
    if oi_PersistedInSession e then removeOutgoingUnfinishedFromSession (oi_MessageID e) d else d.

Definition advanceAckedOutgoingInflight (io : AckIO) (d : Downlink) : Downlink :=
  let '(inflight, entries) := PopAckedInOrder (dl_outgoingInflight d) in
  let d := with_inflight inflight d in
  if bool_decide (length entries = 0%nat) then d
  else
    recordOutgoingTerminalAcks (ak_commitMaxAcks io) (Z.of_nat (length entries))
      (foldl (finishEntry io) d entries).

Definition completeTerminalOutgoingInflight (io : AckIO) (packetID qos : Z) (d : Downlink) : Downlink :=
  let '(inflight, ackedEntry) := MarkAcked packetID qos (dl_outgoingInflight d) in
  let d := with_inflight inflight d in
  match ackedEntry with
  | None => d
  | Some e =>
      let d := if oi_FlowTokenHeld e then putToken d else d in
      advanceAckedOutgoingInflight io d
  end.

(** Both outcomes of the reason code complete the entry; they differ in metrics. *)
Definition handlePubAck (io : AckIO) (pubAck : Ack) (d : Downlink) : Downlink :=
  completeTerminalOutgoingInflight io (ack_PacketID pubAck) 1 d.

Definition newPubrel (packetID : Z) : Packet := PPubrel (mkAck None packetID 0).

Definition handlePubRec (io : AckIO) (pubRec : Ack) (d : Downlink) : Downlink :=
  let packetID := ack_PacketID pubRec in
  if mqtt5ReasonCodeIsError (ack_ReasonCode pubRec) then completeTerminalOutgoingInflight io packetID 2 d
  else
    let d :=
      match inflight_Get packetID (dl_outgoingInflight d) with
      | Some e =>
          if (oi_QoS e =? 2) && bool_decide (oi_State e = outInflightWaitingPubRec) then
            let d := with_inflight
              (UpdateState packetID outInflightWaitingPubComp (dl_outgoingInflight d)) d in
            (write (ak_write io) (newPubrel packetID) "" d).1
          else d
      | None => d
      end in
    with_topics (delete packetID (dl_packetIdentifierIDTopic d)) d.

Definition handlePubComp (io : AckIO) (pubComp : Ack) (d : Downlink) : Downlink :=
  completeTerminalOutgoingInflight io (ack_PacketID pubComp) 2 d.

(** ** Retransmission ([maybeRetransmitOutgoingInflight]) *)

Record RunnerConfig := mkRunnerConfig {
  rc_InflightMaxAge : Z;
  rc_InflightMaxRetries : Z;
  rc_InflightRetransmitInterval : Z }.

Record RetransmitIO := mkRetransmitIO {
  rio_tasks : result string (list DeliveryTask);
  rio_payload : Loaded;
  rio_write : WriteOutcome;
  rio_now : Z }.

Definition firstRetransmittableInflight (d : Downlink) : option outgoingInflightEntry :=
  match FirstUnacked (dl_outgoingInflight d) with
  | Some e => if oi_PacketID e =? 0 then None else Some e
  | None => None
  end.

(** [Some d']: the client is disconnected because the message is too old or was
    retransmitted too often. *)
Definition disconnectForExpiredRetransmit (cfg : RunnerConfig) (io : RetransmitIO)
    (e : outgoingInflightEntry) (d : Downlink) : option Downlink :=
  if (0 <? rc_InflightMaxAge cfg) &&
     match oi_FirstPubTime e with Some first => rc_InflightMaxAge cfg <? rio_now io - first | None => false end
  then Some (disconnect (rio_write io) (ForQuotaExceeded "downlink inflight expired without ACK") d)
  else if (0 <=? rc_InflightMaxRetries cfg) && (rc_InflightMaxRetries cfg <=? oi_RetryCount e)
  then Some (disconnect (rio_write io) (ForQuotaExceeded "downlink inflight retransmission limit exceeded") d)
  else None.

Definition shouldWaitForRetransmitInterval (cfg : RunnerConfig) (now : Z) (e : outgoingInflightEntry) : bool :=
  (0 <? rc_InflightRetransmitInterval cfg) &&
  match oi_LastSendTime e with
  | Some last => now - last <? rc_InflightRetransmitInterval cfg
  | None => false
  end.

(** The entry, whether a token was taken for it, and whether to go on. *)
Definition acquireRetransmitFlowToken (e : outgoingInflightEntry) (d : Downlink)
    : Downlink * outgoingInflightEntry * bool * bool :=
  match dl_publishBucket d with
  | None => (d, e, false, true)
  | Some b =>
      if oi_FlowTokenHeld e then (d, e, false, true)
      else
        let '(b, taken) := TryGetToken b in
        let d := with_bucket (Some b) d in
        if negb taken then (d, e, false, false)
        else
          let '(inflight, updated) := MarkFlowTokenHeld (oi_PacketID e) (dl_outgoingInflight d) in
          let d := with_inflight inflight d in
          match updated with
          | None => (putToken d, e, false, false)
          | Some updated => (d, updated, true, true)
          end
  end.

(** [findDeliveryTaskByMessageID] over the tasks read from the persisted cursor. *)
Definition findDeliveryTaskByMessageID (messageID : string) (tasks : result string (list DeliveryTask))
    : result string DeliveryTask :=
  tasks ← tasks;
  match list_find (λ t, dt_MessageID t = messageID) tasks with
  | Some (_, t) => Ok t
  | None => Err "not found"
  end.

Definition applyRetransmitPublishOptions (t : DeliveryTask) (qos packetID : Z) (p : Publish) : Publish :=
  let p := if dt_RetainAsPublished t then p else set_retain false p in
  let p := setPublishSubscriptionIdentifiers (dt_SubscriptionIDs t) p in
  set_dup (set_qos_id qos packetID p).

Definition retransmitPublishFromTask (io : RetransmitIO) (t : DeliveryTask) (qos packetID : Z) (d : Downlink)
    : Downlink * result string unit :=
  if bool_decide (dt_MessageID t = uuid_Nil) then (d, Err "invalid args")
  else if negb (qos =? 1) && negb (qos =? 2) then (d, Err "invalid qos")
  else if packetID =? 0 then (d, Err "invalid packet id")
  else
    match rio_payload io with
    | LoadNotFound | LoadFailed => (d, Err "load message payload")
    | LoadEmpty => (d, Err "empty message payload")
    | LoadUndecodable => (d, Err "invalid decoded message")
    | LoadOk msg =>
        let p := applyRetransmitPublishOptions t qos packetID (CopyPublish (sm_Publish msg)) in
        write (rio_write io) (PPublish p) (pub_Topic (sm_Publish msg)) d
    end.

Definition retransmitRetainedPublishFromEntry (io : RetransmitIO) (e : outgoingInflightEntry) (d : Downlink)
    : Downlink * result string unit :=
  match Decode 0 (oi_PublishPacket e) with
  | Err _ => (d, Err "decode retained publish")
  | Ok (cp, _) =>
      match cp_Content cp with
      | Some (PPublish publish) =>
          write (rio_write io) (PPublish (set_dup (set_qos_id (oi_QoS e) (oi_PacketID e) publish)))
            (pub_Topic publish) d
      | _ => (d, Err "retained inflight packet is not PUBLISH")
      end
  end.

Definition retransmitOutgoingInflightEntry (io : RetransmitIO) (e : outgoingInflightEntry) (d : Downlink)
    : Downlink * result string unit :=
  match oi_State e with
  | outInflightWaitingPubComp => write (rio_write io) (newPubrel (oi_PacketID e)) "" d
  | _ =>
      if oi_Retained e && negb (bool_decide (length (oi_PublishPacket e) = 0%nat))
      then retransmitRetainedPublishFromEntry io e d
      else
        match findDeliveryTaskByMessageID (oi_MessageID e) (rio_tasks io) with
        | Err err => (d, Err err)
        | Ok t => retransmitPublishFromTask io t (oi_QoS e) (oi_PacketID e) d
        end
  end.

Definition handleOutgoingRetransmitError (e : outgoingInflightEntry) (tokenAcquired : bool) (err : string)
    (d : Downlink) : Downlink :=
  if bool_decide (err = errOversizedOutboundPublish) then
    let '(inflight, deleted) := inflight_Delete (oi_PacketID e) (dl_outgoingInflight d) in
    let d := with_inflight inflight d in
    if bool_decide (is_Some deleted) || tokenAcquired then putToken d else d
  else if tokenAcquired then
    putToken (with_inflight (ClearFlowTokenHeld (oi_PacketID e) (dl_outgoingInflight d)) d)
  else d.

Definition maybeRetransmitOutgoingInflight (cfg : RunnerConfig) (io : RetransmitIO) (d : Downlink) : Downlink :=
  match firstRetransmittableInflight d with
  | None => d
  | Some e =>
      match disconnectForExpiredRetransmit cfg io e d with
      | Some d => d
      | None =>
          if shouldWaitForRetransmitInterval cfg (rio_now io) e then d
          else
            let '(d, e, tokenAcquired, ok) := acquireRetransmitFlowToken e d in
            if negb ok then d
            else
              match retransmitOutgoingInflightEntry io e d with
              | (d, Err err) => handleOutgoingRetransmitError e tokenAcquired err d
              | (d, Ok _) =>
                  with_inflight (MarkSent (oi_PacketID e) (rio_now io) (dl_outgoingInflight d)).1 d
              end
      end
  end.

Definition hasDeferredRestoredOutgoingInflight (d : Downlink) : bool :=
  match FirstUnacked (dl_outgoingInflight d) with
  | Some e => negb (oi_FlowTokenHeld e)
  | None => false
  end.

(** ** Retained messages ([writeRetainedPublish]) *)

Record RetainedIO := mkRetainedIO {
  rt_messageID : string;
  rt_encoded : list byte;
  rt_write : WriteOutcome;
  rt_disconnect : WriteOutcome;
  rt_now : Z }.

(** [rt_encoded] is what [wire.Write] produced for the packet (empty if it failed),
    [rt_messageID] the fresh identifier.  [None]: blocked for a token. *)
Definition writeRetainedPublish (io : RetainedIO) (p : Publish) (fullTopic : string) (d : Downlink)
    : option Downlink :=
  if outboundPayloadFormatInvalid p then Some d
  else if pub_QoS p =? 0 then Some (write (rt_write io) (PPublish (set_qos_id 0 0 p)) fullTopic d).1
  else
    let '(ids, packetID) := NextPacketID (dl_packetIDs d) (dl_outgoingInflight d) in
    let d := with_packetIDs ids d in
    let p := set_qos_id (pub_QoS p) packetID p in
    if packetID =? 0 then Some d
    else
      match takeToken d with
      | None => None
      | Some d =>
          let '(inflight, replaced) :=
            Put (mkInflight packetID (pub_QoS p) (rt_now io) (rt_messageID io) 0 (rt_messageID io) ""
                   uuid_Nil true (rt_encoded io) (Some (rt_now io)) (Some (rt_now io)) 0 false
                   (bool_decide (is_Some (dl_publishBucket d)))
                   (if pub_QoS p =? 2 then outInflightWaitingPubRec else outInflightWaitingPubAck) false)
              (dl_outgoingInflight d) in
          let d := with_inflight inflight d in
          if replaced then
            Some (disconnect (rt_disconnect io)
                    (ForProtocolError "downlink packet id reused while retained inflight") (putToken d))
          else
            match write (rt_write io) (PPublish p) fullTopic d with
            | (d, Ok _) => Some d
            | (d, Err _) =>
                let '(inflight, deleted) := inflight_Delete packetID (dl_outgoingInflight d) in
                let d := with_inflight inflight d in
                Some (if bool_decide (is_Some deleted) then putToken d else d)
            end
      end.

(** ** Restoring after a reconnect ([outgoing_inflight_restore.go]) *)

Definition isRestorableOutgoingUnfinished (m : UnfinishedMessage) : bool :=
  if negb (um_IsOutgoing m) then false
  else if um_PacketID m =? 0 then false
  else if um_Qos m =? 1 then negb (bool_decide (length (um_PublishPacket m) = 0%nat))
  else if um_Qos m =? 2 then
    match um_State m with
    | WAITING_PUBACK | WAITING_PUBREC | WAITING_PUBCOMP => true
    | _ => false
    end
  else false.

Definition outgoingInflightStateFromSession (st : MessageState) : option outgoingInflightState :=
  match st with
  | WAITING_PUBACK => Some outInflightWaitingPubAck
  | WAITING_PUBREC => Some outInflightWaitingPubRec
  | WAITING_PUBCOMP => Some outInflightWaitingPubComp
  | _ => None
  end.

(** [time.UnixMicro]: microseconds since 1970 as nanoseconds. *)
Definition firstPublishTimeFromSession (m : UnfinishedMessage) (now : Z) : Z :=
  if 0 <? um_FirstPubTime m then um_FirstPubTime m * 1000 else now.

(** The entry is stored with or without a token; without one it is sent later, by
    the runner.  The result says whether a token is held. *)
Definition registerRestoredOutgoingInflight (entry : outgoingInflightEntry) (d : Downlink)
    : Downlink * bool :=
  let '(b, tokenHeld) :=
    match dl_publishBucket d with
    | None => (None, true)
    | Some b => let '(b, taken) := TryGetToken b in (Some b, taken)
    end in
  let d := with_bucket b d in
  let entry := set_held tokenHeld entry in
  let entry := if negb tokenHeld then set_sent None (oi_RetryCount entry) entry else entry in
  (with_inflight (Put entry (dl_outgoingInflight d)).1 d, tokenHeld).

(** [entry.LastSendTime = now] after the entry was stored: the store holds the
    same object. *)
Definition touchRestored (packetID now : Z) (d : Downlink) : Downlink :=
  with_inflight (alter (λ e, set_sent (Some now) (oi_RetryCount e) e) packetID (dl_outgoingInflight d)) d.

(** [uuid.Parse] of the stored identifiers: [None] if invalid or nil. *)
Record RestoreIO := mkRestoreIO {
  rs_messageID : option string;
  rs_newID : string;
  rs_retransmit : RetransmitIO }.

Definition restoreRetainedOutgoingInflight (io : RestoreIO) (m : UnfinishedMessage) (d : Downlink) : Downlink :=
  let now := rio_now (rs_retransmit io) in
  match Decode 0 (um_PublishPacket m) with
  | Ok (cp, _) =>
      match cp_Content cp, outgoingInflightStateFromSession (um_State m) with
      | Some (PPublish publish), Some st =>
          let qos := wrap 8 (um_Qos m) in
          if negb (qos =? 1) && negb (qos =? 2) then d
          else
            let packetID := wrap 16 (um_PacketID m) in
            let first := firstPublishTimeFromSession m now in
            let messageID := default (rs_newID io) (rs_messageID io) in
            let entry := mkInflight packetID qos first messageID 0 messageID "" uuid_Nil true
              (um_PublishPacket m) (Some first) None 0 false false st true in
            let '(d, held) := registerRestoredOutgoingInflight entry d in
            if negb held then d
            else
              let d := touchRestored packetID now d in
              if bool_decide (um_State m = WAITING_PUBCOMP)
              then (write (rio_write (rs_retransmit io)) (newPubrel packetID) "" d).1
              else (write (rio_write (rs_retransmit io))
                      (PPublish (set_dup (set_qos_id qos packetID publish))) (pub_Topic publish) d).1
      | _, _ => d
      end
  | Err _ => d
  end.

Definition restoreOneOutgoingInflight (io : RestoreIO) (m : UnfinishedMessage) (d : Downlink) : Downlink :=
  if negb (bool_decide (length (um_PublishPacket m) = 0%nat)) then restoreRetainedOutgoingInflight io m d
  else
    match rs_messageID io with
    | None => d
    | Some msgID =>
        match findDeliveryTaskByMessageID msgID (rio_tasks (rs_retransmit io)),
              outgoingInflightStateFromSession (um_State m) with
        | Ok t, Some st =>
            let packetID := wrap 16 (um_PacketID m) in
            let qos := wrap 8 (um_Qos m) in
            let now := rio_now (rs_retransmit io) in
            let entry := mkInflight packetID qos (dt_TS t) (dt_TaskID t) (dt_Generation t) (dt_MessageID t) ""
              uuid_Nil false [] (Some (firstPublishTimeFromSession m now)) None 0 false false st true in
            let '(d, held) := registerRestoredOutgoingInflight entry d in
            if negb held then d
            else
              let d := touchRestored packetID now d in
              if bool_decide (um_State m = WAITING_PUBCOMP)
              then (write (rio_write (rs_retransmit io)) (newPubrel packetID) "" d).1
              else (retransmitPublishFromTask (rs_retransmit io) t qos packetID d).1
        | _, _ => d
        end
    end.

(** ** What a disconnect saves ([client_lifecycle.go]) *)

(** [unix nanoseconds / 1000], rounded towards negative infinity for [UnixMicro]. *)
Definition unixMicro (t : Z) : Z := t `div` 1000.

Definition unfinishedOf (nowUS : Z) (e : outgoingInflightEntry) : option UnfinishedMessage :=
  if oi_PacketID e =? 0 then None
  else if (oi_QoS e =? 1) && negb (oi_Retained e) then None
  else
    let st :=
      if oi_QoS e =? 1 then Some WAITING_PUBACK
      else if oi_QoS e =? 2 then
        Some (if bool_decide (oi_State e = outInflightWaitingPubComp) then WAITING_PUBCOMP else WAITING_PUBREC)
      else None in
    (λ st, mkUnfinished (oi_MessageID e) (oi_PacketID e) (oi_QoS e) st None true
             (match oi_FirstPubTime e with Some first => unixMicro first | None => nowUS end)
             (oi_PublishPacket e) 0) <$> st.

Definition collectOutgoingUnfinishedMessages (nowUS : Z) (s : outgoingInflightStore) : list UnfinishedMessage :=
  omap (unfinishedOf nowUS) (inflight_All s).

Definition collectOutgoingReplayCursor (s : outgoingInflightStore) : option OutgoingReplayCursor :=
  (λ e, mkReplayCursor (unixMicro (oi_TaskTS e)) (oi_TaskID e) (oi_Generation e)) <$>
  scan_best outgoingInflightLess
    (filter (λ e, oi_Acked e = false ∧ oi_Retained e = false ∧ oi_QoS e = 1 ∧ oi_TaskID e ≠ uuid_Nil)
       (inflight_All s)).

(** ** Starting the runner ([runClientDeliveryRunner] up to its loop) *)

(** Reading the persisted cursor: [Err] when the store fails, [Ok None] without one. *)
Definition restoreQoS1ReplayCursorFromSession (taskID : option string)
    (persisted : result string (option DeliveryCursor)) (cursor : option OutgoingReplayCursor)
    : option OutgoingReplayCursor :=
  match cursor with
  | None => None
  | Some cursor =>
      match taskID with
      | None => None
      | Some taskID =>
          if orc_TaskUnixMicro cursor <=? 0 then None
          else
            match persisted with
            | Err _ => None
            | Ok (Some p) =>
                if negb (dc_Generation p =? orc_Generation cursor) then None
                else Some (mkReplayCursor (orc_TaskUnixMicro cursor) taskID (orc_Generation cursor))
            | Ok None => Some (mkReplayCursor (orc_TaskUnixMicro cursor) taskID (orc_Generation cursor))
            end
      end
  end.

(** The position to read tasks from: just before the replay cursor if there is
    one. *)
Definition loadClientDeliveryCursor (persisted : result string (option DeliveryCursor))
    (replay : option OutgoingReplayCursor) : Z * string :=
  match replay with
  | Some r =>
      let replayStart := orc_TaskUnixMicro r * 1000 - 1000 in
      (if replayStart <? 0 then 0 else replayStart, uuid_Nil)
  | None =>
      match persisted with
      | Ok (Some cur) => (dc_LastTS cur, dc_LastTaskID cur)
      | _ => (0, uuid_Nil)
      end
  end.

(** [readTasks] is the store's [ReadTasks] from a position, each task with the
    answers of the outside; [None] blocks. *)
Definition alignDeliveryCursorBeforeRunner (replay : option OutgoingReplayCursor)
    (readTasks : Z * string → result string (list (DeliveryIO * DeliveryTask))) (d : Downlink)
    : option Downlink :=
  if negb (bool_decide (is_Some replay)) && bool_decide ((0 < inflight_Len (dl_outgoingInflight d))%nat) then
    match LastTask (dl_outgoingInflight d) with
    | Some e => Some (if oi_Retained e then d else with_last (oi_TaskTS e, oi_TaskID e) d)
    | None => Some d
    end
  else
    match readTasks (dl_last d) with
    | Err _ => Some d
    | Ok tasks => deliverClientDeliveryTasks tasks d
    end.

Definition startRunner (persisted : result string (option DeliveryCursor)) (replay : option OutgoingReplayCursor)
    (readTasks : Z * string → result string (list (DeliveryIO * DeliveryTask))) (d : Downlink)
    : option Downlink :=
  alignDeliveryCursorBeforeRunner replay readTasks
    (with_last (loadClientDeliveryCursor persisted replay) d).
