(* ===== verification/DownlinkProofs.v ===== *)
(** * Downlink delivery: proofs

    The Receive Maximum window is never exceeded and never leaks, acknowledgements
    advance the cursor in task order only, and what a disconnect saves covers every
    unacknowledged message; together with the cases in which the delivery path
    falls short of this. *)

From stdpp Require Import sorting.
From S2P Require Import Prelude GoStrings Mqtt5 Wire WireParse WireProps WireCodec SessionCore Inflight InflightProofs Downlink.

(** ** Entries that hold a token *)

Definition counts (e : outgoingInflightEntry) : bool := oi_FlowTokenHeld e && negb (oi_Acked e).

(** How many unacknowledged messages hold a token of the window. *)
Definition held (s : outgoingInflightStore) : Z :=
  Z.of_nat (size (filter (λ ie : Z * outgoingInflightEntry, counts ie.2 = true) s)).

Definition count (e : outgoingInflightEntry) : Z := if counts e then 1 else 0.

Lemma held_insert_fresh s i e : s !! i = None → held (<[i := e]> s) = held s + count e.
Proof.
  intros Hi. unfold held, count. destruct (counts e) eqn:E.
  - rewrite map_filter_insert_True by done. rewrite map_size_insert_None; [lia|].
    apply map_lookup_filter_None. by left.
  - rewrite map_filter_insert_False by (cbn; by rewrite E). rewrite delete_id by done. lia.
Qed.

Lemma held_delete s i e : s !! i = Some e → held (delete i s) = held s - count e.
Proof.
  intros Hi. rewrite <-(insert_id _ _ _ Hi) at 2. rewrite <-insert_delete_eq.
  rewrite held_insert_fresh by apply lookup_delete_eq. lia.
Qed.

Lemma held_replace s i e e' : s !! i = Some e → held (<[i := e']> s) = held s - count e + count e'.
Proof.
  intros Hi. rewrite <-insert_delete_eq. rewrite held_insert_fresh by apply lookup_delete_eq.
  by rewrite (held_delete _ _ e).
Qed.

Lemma held_nonneg s : 0 ≤ held s.
Proof. unfold held. lia. Qed.

(** ** The window invariant *)

(** A window of [n] tokens, of which [j] are in the hands of the running step: the
    others are in the bucket or held by an unacknowledged entry. *)
Record window (n j : Z) (d : Downlink) : Prop := {
  wi_pos : 0 < n;
  wi_debt : 0 ≤ j;
  wi_bucket : ∃ k, dl_publishBucket d = Some (mkBucket n k) ∧ 0 ≤ k ∧ k + held (dl_outgoingInflight d) + j = n;
  wi_keyed : keyed (dl_outgoingInflight d);
  wi_qos : ∀ id e, dl_outgoingInflight d !! id = Some e → oi_QoS e = 1 ∨ oi_QoS e = 2;
  wi_ids : 0 ≤ dl_packetIDs d ≤ 65535 }.

(** States that agree on everything but the runner's cursor, the topics, the commit
    counters and the trace. *)
Definition same_flow (d d' : Downlink) : Prop :=
  dl_ID d' = dl_ID d ∧ dl_packetIDs d' = dl_packetIDs d ∧ dl_publishBucket d' = dl_publishBucket d ∧
  dl_outgoingInflight d' = dl_outgoingInflight d ∧ (dl_done d' = false → dl_done d = false).

Lemma same_flow_refl d : same_flow d d.
Proof. by split_and!. Qed.

Lemma same_flow_trans d1 d2 d3 : same_flow d1 d2 → same_flow d2 d3 → same_flow d1 d3.
Proof. unfold same_flow. intros (?&?&?&?&?) (?&?&?&?&?). split_and!; try congruence. auto. Qed.

Lemma window_same n j d d' : same_flow d d' → window n j d → window n j d'.
Proof.
  intros (_ & E1 & E2 & E3 & _) [? ? ? ? ? ?]. split; [done|done|by rewrite E2, E3|by rewrite E3|by rewrite E3|by rewrite E1].
Qed.

Ltac open_downlink d := destruct d as [? ? ? ? ? ? ? ? ? ?].

Lemma emit_same x d : same_flow d (emit x d).
Proof. by open_downlink d. Qed.
Lemma cancel_same d : same_flow d (cancel d).
Proof. by open_downlink d. Qed.
Lemma with_topics_same x d : same_flow d (with_topics x d).
Proof. by open_downlink d. Qed.
Lemma with_last_same x d : same_flow d (with_last x d).
Proof. by open_downlink d. Qed.
Lemma with_acks_same x d : same_flow d (with_acks x d).
Proof. by open_downlink d. Qed.
Lemma with_commit_same x d : same_flow d (with_commit x d).
Proof. by open_downlink d. Qed.

Create HintDb flow.
#[export] Hint Resolve same_flow_refl emit_same cancel_same with_topics_same with_last_same with_acks_same
  with_commit_same : flow.

Lemma close_same d : same_flow d (close d).
Proof. eapply same_flow_trans; [apply cancel_same|apply emit_same]. Qed.

Lemma write_same o p t d : same_flow d (write o p t d).1.
Proof.
  unfold write. set (d1 := match p with PPublish _ => _ | _ => _ end).
  apply same_flow_trans with d1; [subst d1; destruct p; auto with flow|].
  destruct o; [apply emit_same| |apply cancel_same]. destruct p; apply close_same || apply same_flow_refl.
Qed.

Lemma disconnect_same o p d : same_flow d (disconnect o p d).
Proof. eapply same_flow_trans; [apply write_same|apply close_same]. Qed.

Lemma disconnect_done o p d : dl_done (disconnect o p d) = true.
Proof. unfold disconnect, close, cancel, emit. by destruct (write o p "" d).1. Qed.

Lemma completeShared_same g i d : same_flow d (completeSharedDeliveryTask g i d).
Proof. unfold completeSharedDeliveryTask. case_match; auto with flow. Qed.

Lemma advanceCursor_same io t d : same_flow d (advanceClientDeliveryCursor io t d).1.
Proof.
  unfold advanceClientDeliveryCursor. case_match; cbn [fst]; [auto with flow|].
  eapply same_flow_trans; [|apply completeShared_same].
  eapply same_flow_trans; [apply with_last_same|apply emit_same].
Qed.

Lemma removeUnfinished_same m d : same_flow d (removeOutgoingUnfinishedFromSession m d).
Proof. unfold removeOutgoingUnfinishedFromSession. case_match; auto with flow. Qed.

Lemma finishEntry_same io d e : same_flow d (finishEntry io d e).
Proof.
  unfold finishEntry. set (d1 := with_topics _ d). apply same_flow_trans with d1; [apply with_topics_same|].
  destruct (oi_Retained e); [destruct (oi_PersistedInSession e); auto using removeUnfinished_same with flow|].
  set (d2 := if ak_advance io e then _ else _). apply same_flow_trans with d2.
  - subst d2. destruct (ak_advance io e); [|auto with flow].
    eapply same_flow_trans; [apply emit_same|apply completeShared_same].
  - destruct (oi_PersistedInSession e); auto using removeUnfinished_same with flow.
Qed.

Lemma recordAcks_same m k d : same_flow d (recordOutgoingTerminalAcks m k d).
Proof.
  unfold recordOutgoingTerminalAcks, maybeCommitOutgoingProgress. destruct (k <=? 0); [auto with flow|].
  eapply same_flow_trans; [apply with_acks_same|]. repeat case_match; auto with flow.
  eapply same_flow_trans; [apply with_commit_same|apply emit_same].
Qed.

Lemma foldl_same {A} (f : Downlink → A → Downlink) l d :
  (∀ d a, same_flow d (f d a)) → same_flow d (foldl f d l).
Proof.
  intros Hf. revert d. induction l as [|a l IH]; intros d; cbn; [auto with flow|].
  eapply same_flow_trans; [apply Hf|apply IH].
Qed.

#[export] Hint Resolve close_same write_same disconnect_same completeShared_same advanceCursor_same
  removeUnfinished_same finishEntry_same recordAcks_same : flow.

(** ** Tokens and entries *)

Lemma window_take n j d d' : window n j d → dl_done d = false → takeToken d = Some d' →
  window n (j + 1) d' ∧ dl_outgoingInflight d' = dl_outgoingInflight d ∧ dl_done d' = false ∧
  dl_ID d' = dl_ID d ∧ is_Some (dl_publishBucket d').
Proof.
  intros [? ? (k & Hb & Hk & Hsum) ? ? ?] Hd. unfold takeToken. rewrite Hb. unfold GetToken. cbn [bk_num bk_len].
  destruct (Z.leb_spec n 0); [lia|]. destruct (Z.ltb_spec 0 k); [|by rewrite Hd].
  intros [= <-]. open_downlink d. cbn in *. split_and!; try done. split; cbn; try done; [lia|].
  exists (k - 1). split_and!; [done|lia|lia].
Qed.

Lemma window_put n j d : window n (j + 1) d → 0 ≤ j → window n j (putToken d).
Proof.
  intros [? ? (k & Hb & Hk & Hsum) ? ? ?] Hj. unfold putToken. rewrite Hb. pose proof (held_nonneg (dl_outgoingInflight d)).
  open_downlink d. cbn in *. split; cbn; try done. unfold PutToken. cbn [bk_num bk_len].
  destruct (Z.leb_spec n 0); [lia|]. destruct (Z.ltb_spec k n); [|lia].
  exists (k + 1). split_and!; [done|lia|lia].
Qed.

Lemma putToken_same d : dl_outgoingInflight (putToken d) = dl_outgoingInflight d ∧ dl_done (putToken d) = dl_done d
  ∧ dl_ID (putToken d) = dl_ID d.
Proof. by open_downlink d. Qed.

(** Storing a map that differs from the current one by [delta] held entries. *)
Lemma window_inflight n j j' d s : window n j d → keyed s →
  (∀ id e, s !! id = Some e → oi_QoS e = 1 ∨ oi_QoS e = 2) →
  0 ≤ j' → held s + j' = held (dl_outgoingInflight d) + j → window n j' (with_inflight s d).
Proof.
  intros [? ? (k & Hb & Hk & Hsum) ? ? ?] Hks Hq Hj Hh. open_downlink d. cbn in *. split; cbn; try done.
  exists k. split_and!; [done|lia|lia].
Qed.

Lemma keyed_insert s i e : keyed s → oi_PacketID e = i → is_id i → keyed (<[i := e]> s).
Proof.
  intros Hk He Hi id e'. rewrite lookup_insert_Some. intros [[<- <-]|[_ H]]; [done|]. by apply Hk.
Qed.

Lemma keyed_delete s i : keyed s → keyed (delete i s).
Proof. intros Hk id e. rewrite lookup_delete_Some. intros [_ H]. by apply Hk. Qed.

Definition good_qos (s : outgoingInflightStore) : Prop :=
  ∀ id e, s !! id = Some e → oi_QoS e = 1 ∨ oi_QoS e = 2.

Lemma good_qos_insert s i e : good_qos s → (oi_QoS e = 1 ∨ oi_QoS e = 2) → good_qos (<[i := e]> s).
Proof. intros Hq He id e'. rewrite lookup_insert_Some. intros [[<- <-]|[_ H]]; [done|]. by eapply Hq. Qed.

Lemma good_qos_delete s i : good_qos s → good_qos (delete i s).
Proof. intros Hq id e. rewrite lookup_delete_Some. intros [_ H]. by eapply Hq. Qed.

Lemma window_insert n j d e : window n (j + count e) d → 0 ≤ j → is_id (oi_PacketID e) →
  dl_outgoingInflight d !! oi_PacketID e = None → (oi_QoS e = 1 ∨ oi_QoS e = 2) →
  window n j (with_inflight (<[oi_PacketID e := e]> (dl_outgoingInflight d)) d).
Proof.
  intros Hw Hj Hid Hn Hq. pose proof Hw as [? ? _ Hk Hqs _]. eapply window_inflight; [done| | |done|].
  - by apply keyed_insert.
  - by apply good_qos_insert.
  - rewrite held_insert_fresh by done. lia.
Qed.

(** Replacing an entry by one with the same identifier and QoS. *)
Lemma window_update n j d i e e' : window n j d → dl_outgoingInflight d !! i = Some e →
  oi_PacketID e' = oi_PacketID e → oi_QoS e' = oi_QoS e → count e' ≤ count e + j →
  window n (j + count e - count e') (with_inflight (<[i := e']> (dl_outgoingInflight d)) d).
Proof.
  intros Hw Hi Hid Hq Hc. pose proof Hw as [? ? _ Hk Hqs _]. destruct (Hk i e Hi) as [E ?].
  eapply window_inflight; [done| | |lia|].
  - apply keyed_insert; [done|congruence|done].
  - apply good_qos_insert; [done|]. rewrite Hq. by eapply Hqs.
  - rewrite (held_replace _ _ e) by done. lia.
Qed.

Lemma window_delete n j d i e : window n j d → dl_outgoingInflight d !! i = Some e →
  window n (j + count e) (with_inflight (delete i (dl_outgoingInflight d)) d).
Proof.
  intros Hw Hi. pose proof Hw as [? ? _ Hk Hqs _]. eapply window_inflight; [done| | | |].
  - by apply keyed_delete.
  - by apply good_qos_delete.
  - unfold count. destruct (counts e); lia.
  - rewrite (held_delete _ _ e) by done. lia.
Qed.

Lemma window_packetIDs n j d x : window n j d → 0 ≤ x ≤ 65535 → window n j (with_packetIDs x d).
Proof. intros [? ? ? ? ? ?] ?. open_downlink d. by split. Qed.

Lemma with_inflight_simpl s d : dl_outgoingInflight (with_inflight s d) = s ∧ dl_done (with_inflight s d) = dl_done d
  ∧ dl_ID (with_inflight s d) = dl_ID d ∧ dl_publishBucket (with_inflight s d) = dl_publishBucket d.
Proof. by open_downlink d. Qed.

Lemma with_packetIDs_simpl x d : dl_outgoingInflight (with_packetIDs x d) = dl_outgoingInflight d
  ∧ dl_done (with_packetIDs x d) = dl_done d ∧ dl_ID (with_packetIDs x d) = dl_ID d.
Proof. by open_downlink d. Qed.

(** From [E : f x = (d, r)], rewrite [d] to [(f x).1]. *)
Ltac fst_of E := let H := fresh in pose proof (f_equal fst E) as H; cbn [fst] in H; rewrite <-H; clear H.

(** ** Sending keeps the window *)

Lemma Put_fresh e s : is_id (oi_PacketID e) → s !! oi_PacketID e = None → Put e s = (<[oi_PacketID e := e]> s, false).
Proof.
  intros Hid Hn. unfold Put, is_id in *. destruct (Z.eqb_spec (oi_PacketID e) 0); [lia|].
  rewrite bool_decide_false; [done|]. by rewrite Hn; intros [??].
Qed.

Lemma inflight_Delete_Some i s e : is_id i → s !! i = Some e → inflight_Delete i s = (delete i s, Some e).
Proof. intros Hid He. unfold inflight_Delete, is_id in *. destruct (Z.eqb_spec i 0); [lia|]. by rewrite He. Qed.

(** What [prepareDeliveryQoSAndInflight] leaves for a QoS above 0. *)
Definition registered (d d' : Downlink) (i : deliveryInflightState) : Prop :=
  ∃ e, i = mkInflightState (oi_PacketID e) true true ∧ is_id (oi_PacketID e) ∧ count e = 1 ∧
    dl_outgoingInflight d !! oi_PacketID e = None ∧
    dl_outgoingInflight d' = <[oi_PacketID e := e]> (dl_outgoingInflight d).

Lemma prepare_window n io t p qos d d' p' r :
  window n 0 d → dl_done d = false → qos = 0 ∨ qos = 1 ∨ qos = 2 →
  prepareDeliveryQoSAndInflight io t p qos d = Some (d', p', r) →
  match r with
  | Err _ => dl_done d' = true
  | Ok i => window n 0 d' ∧ dl_done d' = false ∧
            (qos = 0 ∧ i = mkInflightState 0 false false ∨ qos ≠ 0 ∧ registered d d' i)
  end.
Proof.
  intros Hw Hd Hq. unfold prepareDeliveryQoSAndInflight.
  destruct (Z.eqb_spec qos 0) as [->|Hq0]; [intros [= <- <- <-]; auto|].
  destruct (NextPacketID _ _) as [ids id] eqn:En. pose proof (wi_ids _ _ _ Hw) as Hids.
  apply NextPacketID_spec in En as [Hids' Hid]; [|done].
  pose proof (window_packetIDs _ _ _ _ Hw Hids') as Hw1. destruct (with_packetIDs_simpl ids d) as (Ei & Ed & _).
  set (d1 := with_packetIDs ids d) in *. destruct Hid as [(Hid & Hfresh & _)|[-> _]].
  2: { cbn. intros [= <- _ <-]. apply disconnect_done. }
  destruct (Z.eqb_spec id 0); [unfold is_id in *; lia|].
  destruct (takeToken d1) as [d2|] eqn:Et; [|done].
  apply (window_take n 0) in Et as (Hw2 & Ei2 & Hd2 & _ & Hb); [|done|congruence].
  rewrite (bool_decide_true (is_Some _)) by done.
  set (e := newDeliveryInflightEntry t id qos (io_now io) true).
  rewrite (Put_fresh e) by (cbn; congruence || done). cbn [oi_PacketID e newDeliveryInflightEntry].
  intros [= <- _ <-]. split_and!.
  - apply (window_insert n 0 d2 e); [done|done|done|cbn; congruence|]. cbn. tauto.
  - by rewrite (proj1 (proj2 (with_inflight_simpl _ _))).
  - right. split; [done|]. exists e. split_and!; [done|done|done|cbn; congruence|].
    rewrite (proj1 (with_inflight_simpl _ _)). cbn. congruence.
Qed.

Lemma release_window n d0 d i : window n 0 d → registered d0 d i → window n 0 (releaseDeliveryInflight i d).
Proof.
  intros Hw (e & -> & Hid & Hc & Hf & Hi). unfold releaseDeliveryInflight. cbn [is_registeredInflight is_packetID is_usedFlowToken].
  assert (dl_outgoingInflight d !! oi_PacketID e = Some e) as He by by rewrite Hi, lookup_insert_eq.
  rewrite (inflight_Delete_Some _ _ e) by done. rewrite bool_decide_true by eauto. cbn [andb].
  apply window_put; [|done]. rewrite <-Hc. by apply window_delete.
Qed.

Lemma release_done i d : dl_done (releaseDeliveryInflight i d) = dl_done d.
Proof.
  unfold releaseDeliveryInflight. destruct (inflight_Delete _ _) as [s o].
  repeat case_match; rewrite ?(proj1 (proj2 (putToken_same _))), ?(proj1 (proj2 (with_inflight_simpl _ _))); done.
Qed.

Lemma deliveryQoS_range q : deliveryQoS q = 0 ∨ deliveryQoS q = 1 ∨ deliveryQoS q = 2.
Proof. unfold deliveryQoS. repeat case_match; auto. Qed.

Lemma same_flow_registered d d1 d2 i : same_flow d1 d2 → registered d d1 i → registered d d2 i.
Proof. intros (_ & _ & _ & E & _) (e & ?). exists e. by rewrite E. Qed.

Lemma deliverSingle_window n io t d d' r : window n 0 d → dl_done d = false →
  deliverSingleClientDeliveryTask io t d = Some (d', r) → dl_done d' = false → window n 0 d'.
Proof.
  intros Hw Hd. unfold deliverSingleClientDeliveryTask.
  assert (∀ d', same_flow d d' → window n 0 d') as Hsame by (intros; by eapply window_same).
  assert (∀ d' r, Some (advanceClientDeliveryCursor io t d) = Some (d', r) → window n 0 d') as Hadv.
  { intros d1 r1 [= E]. apply Hsame. fst_of E. auto with flow. }
  unfold loadClientDeliveryMessage. destruct (io_payload io) as [| | | |msg]; [by eauto|by intros [= <- _]|by eauto|by intros [= <- _]|].
  destruct (_ && _); [by eauto|]. destruct (applyDeliveryPublishOptions _ _ _ _) as [p|]; [|by eauto].
  destruct (prepareDeliveryQoSAndInflight _ _ _ _ _) as [[[d1 p1] ri]|] eqn:Ep; [|done].
  apply (prepare_window n) in Ep; [|done|done|apply deliveryQoS_range].
  destruct ri as [i|e]; [|by intros [= <- _]; congruence]. destruct Ep as (Hw1 & Hd1 & Hi).
  pose proof (write_same (io_write io) (PPublish p1) (pub_Topic (sm_Publish msg)) d1) as Hs.
  destruct (write _ _ _ _) as [d2 [[]|e]]; cbn in Hs; pose proof (window_same _ _ _ _ Hs Hw1) as Hw2.
  - destruct (deliveryQoS _ =? 0).
    + intros [= E] _. eapply window_same; [|exact Hw2]. fst_of E. auto with flow.
    + intros [= <- _] _. eapply window_same; [|exact Hw2]. auto with flow.
  - unfold handleDeliveryWriteError. intros [= E] _.
    assert (window n 0 (releaseDeliveryInflight i d2)) as Hw3.
    { destruct Hi as [[_ ->]|[_ Hi]]; [done|]. eapply release_window; [done|]. by eapply same_flow_registered. }
    case_bool_decide; [|by injection E as <- _]. eapply window_same; [|exact Hw3].
    fst_of E. auto with flow.
Qed.

(** [done] is never reset. *)
Lemma advanceCursor_done io t d : dl_done (advanceClientDeliveryCursor io t d).1 = dl_done d.
Proof.
  unfold advanceClientDeliveryCursor, completeSharedDeliveryTask. by open_downlink d; repeat case_match.
Qed.

Lemma deliver_batch_window n tasks : ∀ d, window n 0 d → dl_done d = false →
  ∃ d', deliverClientDeliveryTasks tasks d = Some d' ∧ (dl_done d' = false → window n 0 d').
Proof.
  induction tasks as [|[io t] tasks IH]; intros d Hw Hd; cbn [deliverClientDeliveryTasks]; [eauto|].
  rewrite Hd. destruct (canSendMoreDownlink d) eqn:Hc; cbn [negb]; [|eauto].
  destruct (deliverSingleClientDeliveryTask io t d) as [[d1 r]|] eqn:E.
  - pose proof (deliverSingle_window n _ _ _ _ _ Hw Hd E) as H1. destruct r as [[]|e]; [|eauto].
    destruct (canSendMoreDownlink d1) eqn:Hc1; cbn [negb]; [|eauto].
    destruct (dl_done d1) eqn:Hd1; [|by apply IH; auto].
    exists d1. split; [|by rewrite Hd1]. destruct tasks as [|[]]; cbn; [done|]. by rewrite Hd1.
  - exfalso. revert E. unfold deliverSingleClientDeliveryTask, loadClientDeliveryMessage.
    destruct (io_payload io); try done. destruct (_ && _); [done|].
    destruct (applyDeliveryPublishOptions _ _ _ _) as [p|]; [|done].
    destruct (prepareDeliveryQoSAndInflight _ _ _ _ _) as [[[d1 p1] [i|e]]|] eqn:Ep.
    { destruct (write _ _ _ _) as [? [[]|]]; [by destruct (_ =? 0)|done]. }
    { done. }
    intros _. revert Ep. unfold prepareDeliveryQoSAndInflight. destruct (deliveryQoS _ =? 0); [done|].
    destruct (NextPacketID _ _) as [ids id]. destruct (id =? 0); [done|].
    destruct (takeToken _) as [d2|] eqn:Et; [destruct (Put _ _) as [? []]; done|].
    intros _. revert Et. unfold takeToken. destruct Hw as [? ? (k & Hb & Hk & Hsum) _ _ _].
    unfold canSendMoreDownlink, RemainingToken in Hc. rewrite Hb in Hc. open_downlink d. cbn in *. rewrite Hb.
    unfold GetToken. cbn [bk_num bk_len] in *. destruct (n <=? 0); [done|]. by rewrite Hc.
Qed.

(** ** Acknowledgements keep the window *)

Lemma held_popped s s' out : keyed s → PopAckedInOrder s = (s', out) → held s' = held s.
Proof.
  intros Hk E. apply PopAckedInOrder_spec in E as (_ & Hout & _ & Hs'); [|done]. unfold held. do 2 f_equal.
  apply map_eq. intros id. apply option_eq. intros e. rewrite !map_lookup_filter_Some, Hs'. cbn.
  destruct (s !! id) as [e0|] eqn:E0; [|tauto]. case_bool_decide as Hin; [|tauto]. split; [by intros [? ?]|].
  intros [[= ->] Hc]. apply Hout in Hin as (_ & Ha & _). unfold counts in Hc. rewrite Ha in Hc.
  by rewrite andb_false_r in Hc.
Qed.

Lemma advanceAcked_window n io d : window n 0 d → window n 0 (advanceAckedOutgoingInflight io d).
Proof.
  intros Hw. unfold advanceAckedOutgoingInflight. destruct (PopAckedInOrder _) as [s' out] eqn:E.
  pose proof Hw as [? ? _ Hk Hq _]. pose proof (held_popped _ _ _ Hk E) as Hh.
  apply PopAckedInOrder_spec in E as (_ & _ & _ & Hs'); [|done].
  assert (window n 0 (with_inflight s' d)) as Hw'.
  { apply (window_inflight n 0 0 d s' Hw); [| |done|lia].
    - intros id e He. rewrite Hs' in He. destruct (dl_outgoingInflight d !! id) eqn:E0; [|done].
      case_bool_decide; simplify_eq. by apply Hk.
    - intros id e He. rewrite Hs' in He. destruct (dl_outgoingInflight d !! id) eqn:E0; [|done].
      case_bool_decide; simplify_eq. by eapply Hq. }
  case_bool_decide; [done|]. eapply window_same; [apply recordAcks_same|]. eapply window_same; [|exact Hw'].
  apply foldl_same. auto with flow.
Qed.

Lemma completeTerminal_window n io id qos d : window n 0 d → window n 0 (completeTerminalOutgoingInflight io id qos d).
Proof.
  intros Hw. unfold completeTerminalOutgoingInflight, MarkAcked. pose proof Hw as [? ? _ Hk _ _].
  assert (window n 0 (with_inflight (dl_outgoingInflight d) d)) as Hid by (destruct Hw; by open_downlink d).
  destruct (Z.eqb_spec id 0); [done|]. destruct (dl_outgoingInflight d !! id) as [e|] eqn:He; [|done].
  destruct (_ || oi_Acked e) eqn:Hg; [done|]. apply orb_false_iff in Hg as [_ Hack].
  apply advanceAcked_window. assert (oi_FlowTokenHeld (set_acked e) = oi_FlowTokenHeld e) as -> by by destruct e.
  assert (count (set_acked e) = 0) as Hc0.
  { unfold count, counts. destruct e. cbn in *. by rewrite andb_false_r. }
  assert (window n (0 + count e - count (set_acked e)) (with_inflight (<[id:=set_acked e]> (dl_outgoingInflight d)) d)) as Hw1.
  { apply window_update; [done..|by destruct e|by destruct e|]. rewrite Hc0. unfold count. destruct (counts e); lia. }
  rewrite Hc0 in Hw1. unfold count, counts in Hw1. rewrite Hack, andb_true_r in Hw1.
  destruct (oi_FlowTokenHeld e); [|done]. apply window_put; [done|lia].
Qed.

Lemma set_state_id st e : oi_PacketID (set_state st e) = oi_PacketID e ∧ oi_QoS (set_state st e) = oi_QoS e
  ∧ count (set_state st e) = count e.
Proof. by destruct e. Qed.

Lemma alter_insert {A} (f : A → A) (m : gmap Z A) i a : m !! i = Some a → alter f i m = <[i := f a]> m.
Proof.
  intros Hi. apply map_eq. intros j. destruct (decide (j = i)) as [->|].
  - by rewrite lookup_alter_eq, lookup_insert_eq, Hi.
  - by rewrite lookup_alter_ne, lookup_insert_ne.
Qed.

Lemma handlePubRec_window n io a d : window n 0 d → window n 0 (handlePubRec io a d).
Proof.
  intros Hw. unfold handlePubRec. destruct (mqtt5ReasonCodeIsError _); [by apply completeTerminal_window|].
  eapply window_same; [apply with_topics_same|]. unfold inflight_Get.
  destruct (Z.eqb_spec (ack_PacketID a) 0) as [|H0]; [done|].
  destruct (dl_outgoingInflight d !! ack_PacketID a) as [e|] eqn:He; [|done].
  destruct (_ && _); [|done]. eapply window_same; [apply write_same|].
  unfold UpdateState. rewrite (proj2 (Z.eqb_neq _ _) H0). rewrite (alter_insert _ _ _ e) by done.
  destruct (set_state_id outInflightWaitingPubComp e) as (E1 & E2 & E3).
  pose proof (window_update n 0 d (ack_PacketID a) e (set_state outInflightWaitingPubComp e) Hw He E1 E2) as H.
  rewrite E3 in H. replace (0 + count e - count e) with 0 in H by lia. apply H. lia.
Qed.

(** ** Retransmission keeps the window *)

Lemma set_held_simpl h e : oi_PacketID (set_held h e) = oi_PacketID e ∧ oi_QoS (set_held h e) = oi_QoS e
  ∧ oi_Acked (set_held h e) = oi_Acked e ∧ oi_FlowTokenHeld (set_held h e) = h.
Proof. by destruct e. Qed.

Lemma set_sent_simpl t r e : oi_PacketID (set_sent t r e) = oi_PacketID e ∧ oi_QoS (set_sent t r e) = oi_QoS e
  ∧ count (set_sent t r e) = count e.
Proof. by destruct e. Qed.

(** An entry of the store that holds a token and is not acknowledged. *)
Definition inflight_held (d : Downlink) (e : outgoingInflightEntry) : Prop :=
  dl_outgoingInflight d !! oi_PacketID e = Some e ∧ is_id (oi_PacketID e) ∧ count e = 1.

Lemma acquire_window n d e d' e' acq ok : window n 0 d → dl_outgoingInflight d !! oi_PacketID e = Some e →
  oi_Acked e = false → acquireRetransmitFlowToken e d = (d', e', acq, ok) →
  window n 0 d' ∧ dl_done d' = dl_done d ∧ (ok = true → inflight_held d' e') ∧ oi_State e' = oi_State e
  ∧ oi_PacketID e' = oi_PacketID e.
Proof.
  intros Hw He Hack. pose proof Hw as [? ? (k & Hb & Hk0 & Hsum) Hk _ _].
  destruct (Hk _ _ He) as [_ Hid]. unfold acquireRetransmitFlowToken. rewrite Hb.
  destruct (oi_FlowTokenHeld e) eqn:Hh.
  { intros [= <- <- _ <-]. split_and!; try done. intros _. split_and!; [done|done|]. unfold count, counts. by rewrite Hh, Hack. }
  unfold TryGetToken. cbn [bk_num bk_len]. destruct (Z.leb_spec n 0); [lia|].
  assert (with_bucket (Some (mkBucket n k)) d = d) as Hid0 by (open_downlink d; cbn in *; by rewrite Hb).
  destruct (Z.ltb_spec 0 k); [|cbn; rewrite Hid0; by intros [= <- <- _ <-]].
  cbn [negb]. set (d1 := with_bucket _ d).
  assert (dl_outgoingInflight d1 = dl_outgoingInflight d ∧ dl_done d1 = dl_done d) as [E1 E2] by by open_downlink d.
  assert (window n (0 + 1) d1) as Hw1.
  { destruct Hw. subst d1. open_downlink d. cbn in *. split; cbn; try done.
    exists (k - 1). split_and!; [done|lia|lia]. }
  unfold MarkFlowTokenHeld. unfold is_id in Hid. destruct (Z.eqb_spec (oi_PacketID e) 0); [lia|]. rewrite E1, He, Hh.
  intros [= <- <- <- <-]. destruct (set_held_simpl true e) as (F1 & F2 & F3 & F4).
  assert (count (set_held true e) = 1) as Fc by (unfold count, counts; by rewrite F3, F4, Hack).
  assert (count e = 0) as Gc by (unfold count, counts; by rewrite Hh).
  split_and!.
  - pose proof (window_update n (0 + 1) d1 (oi_PacketID e) e (set_held true e) Hw1) as Hu. rewrite E1 in Hu.
    rewrite Fc, Gc in Hu. replace (0 + 1 + 0 - 1) with 0 in Hu by lia. by apply Hu.
  - by rewrite (proj1 (proj2 (with_inflight_simpl _ _))).
  - intros _. split_and!; [|rewrite F1; done|done]. rewrite (proj1 (with_inflight_simpl _ _)), F1. apply lookup_insert_eq.
  - by destruct e.
  - done.
Qed.

Lemma retransmitFromTask_same io t q id d : same_flow d (retransmitPublishFromTask io t q id d).1.
Proof.
  unfold retransmitPublishFromTask. repeat case_match; cbn [fst]; auto with flow.
Qed.

Lemma retransmitEntry_same io e d : same_flow d (retransmitOutgoingInflightEntry io e d).1.
Proof.
  unfold retransmitOutgoingInflightEntry, retransmitRetainedPublishFromEntry.
  repeat case_match; cbn [fst]; auto using retransmitFromTask_same with flow.
Qed.

Lemma inflight_held_same d d' e : same_flow d d' → inflight_held d e → inflight_held d' e.
Proof. intros (_ & _ & _ & E & _). unfold inflight_held. by rewrite E. Qed.

Lemma retransmitError_window n e acq err d : window n 0 d → inflight_held d e →
  window n 0 (handleOutgoingRetransmitError e acq err d).
Proof.
  intros Hw (He & Hid & Hc). unfold handleOutgoingRetransmitError. case_bool_decide.
  - rewrite (inflight_Delete_Some _ _ e) by done. rewrite bool_decide_true by eauto. cbn [orb].
    apply window_put; [|done]. rewrite <-Hc. by apply window_delete.
  - destruct acq; [|done]. apply window_put; [|done]. unfold ClearFlowTokenHeld, is_id in *.
    destruct (Z.eqb_spec (oi_PacketID e) 0); [lia|]. rewrite (alter_insert _ _ _ e) by done.
    destruct (set_held_simpl false e) as (F1 & F2 & F3 & F4).
    assert (count (set_held false e) = 0) as Fc by (unfold count, counts; by rewrite F4).
    pose proof (window_update n 0 d (oi_PacketID e) e (set_held false e) Hw He F1 F2) as Hu.
    rewrite Fc, Hc in Hu. apply Hu. lia.
Qed.

Lemma retransmit_window n cfg io d : window n 0 d → window n 0 (maybeRetransmitOutgoingInflight cfg io d).
Proof.
  intros Hw. unfold maybeRetransmitOutgoingInflight, firstRetransmittableInflight.
  destruct (FirstUnacked _) as [e|] eqn:Ef; [|done]. destruct (oi_PacketID e =? 0); [done|].
  apply FirstUnacked_spec in Ef as [[id He] Hack]. destruct (wi_keyed _ _ _ Hw id e He) as [<- Hid].
  unfold disconnectForExpiredRetransmit.
  destruct (_ && _); [eapply window_same; [apply disconnect_same|done]|].
  destruct (_ && _); [eapply window_same; [apply disconnect_same|done]|].
  destruct (shouldWaitForRetransmitInterval _ _ _); [done|].
  destruct (acquireRetransmitFlowToken e d) as [[[d1 e1] acq] ok] eqn:Ea.
  apply (acquire_window n) in Ea as (Hw1 & _ & Hheld & _); [|done..].
  destruct ok; cbn [negb]; [|done]. specialize (Hheld eq_refl).
  pose proof (retransmitEntry_same io e1 d1) as Hs. destruct (retransmitOutgoingInflightEntry _ _ _) as [d2 [[]|err]].
  - pose proof (window_same _ _ _ _ Hs Hw1) as Hw2. pose proof (inflight_held_same _ _ _ Hs Hheld) as (He2 & Hid2 & _).
    cbn [fst] in *. unfold MarkSent, is_id in *. destruct (Z.eqb_spec (oi_PacketID e1) 0); [lia|]. rewrite He2. cbn [fst].
    destruct (set_sent_simpl (Some (rio_now io)) (oi_RetryCount e1 + 1) e1) as (F1 & F2 & F3).
    pose proof (window_update n 0 d2 (oi_PacketID e1) e1 _ Hw2 He2 F1 F2) as Hu. rewrite F3 in Hu.
    replace (0 + count e1 - count e1) with 0 in Hu by lia. apply Hu. lia.
  - apply retransmitError_window; [by eapply window_same|by eapply inflight_held_same].
Qed.

(** ** Retained and restored messages keep the window *)

Lemma retained_window n io p topic d d' : window n 0 d → dl_done d = false →
  pub_QoS p = 0 ∨ pub_QoS p = 1 ∨ pub_QoS p = 2 →
  writeRetainedPublish io p topic d = Some d' → dl_done d' = false → window n 0 d'.
Proof.
  intros Hw Hd Hq. unfold writeRetainedPublish. destruct (outboundPayloadFormatInvalid p); [by intros [= <-]|].
  destruct (Z.eqb_spec (pub_QoS p) 0) as [_|Hq0].
  { intros [= <-] _. eapply window_same; [apply write_same|done]. }
  destruct (NextPacketID _ _) as [ids id] eqn:En. pose proof (wi_ids _ _ _ Hw) as Hids.
  apply NextPacketID_spec in En as [Hids' Hid]; [|done].
  pose proof (window_packetIDs _ _ _ _ Hw Hids') as Hw1. destruct (with_packetIDs_simpl ids d) as (Ei & Ed & _).
  set (d1 := with_packetIDs ids d) in *. destruct Hid as [(Hid & Hfresh & _)|[-> _]]; [|by intros [= <-]].
  destruct (Z.eqb_spec id 0); [unfold is_id in *; lia|].
  destruct (takeToken d1) as [d2|] eqn:Et; [|done].
  apply (window_take n 0) in Et as (Hw2 & Ei2 & Hd2 & _ & Hb); [|done|congruence].
  rewrite (bool_decide_true (is_Some _)) by done. set (e := mkInflight _ _ _ _ _ _ _ _ _ _ _ _ _ _ _ _ _).
  rewrite (Put_fresh e) by (cbn; congruence || done).
  assert (window n 0 (with_inflight (<[oi_PacketID e := e]> (dl_outgoingInflight d2)) d2)) as Hw3.
  { apply window_insert; [done|done|done|cbn; congruence|]. cbn. tauto. }
  set (d3 := with_inflight _ d2) in *.
  set (p1 := set_qos_id _ _ _).
  pose proof (write_same (rt_write io) (PPublish p1) topic d3) as Hs. pose proof (window_same _ _ _ _ Hs Hw3) as Hw4.
  destruct (write _ _ _ _) as [d4 [[]|err]]; cbn [fst] in *; [by intros [= <-]|].
  assert (dl_outgoingInflight d4 !! id = Some e) as He.
  { destruct Hs as (_ & _ & _ & -> & _). subst d3. rewrite (proj1 (with_inflight_simpl _ _)). apply lookup_insert_eq. }
  rewrite (inflight_Delete_Some _ _ e) by done. rewrite bool_decide_true by eauto. intros [= <-] _.
  apply window_put; [|done]. by apply (window_delete n 0 d4 id e).
Qed.

Lemma register_window n e d d' h : window n 0 d → is_id (oi_PacketID e) → oi_Acked e = false →
  dl_outgoingInflight d !! oi_PacketID e = None → oi_QoS e = 1 ∨ oi_QoS e = 2 →
  registerRestoredOutgoingInflight e d = (d', h) → window n 0 d' ∧ dl_done d' = dl_done d.
Proof.
  intros Hw Hid Hack Hfresh Hq. pose proof Hw as [? ? (k & Hb & Hk0 & Hsum) Hk _ _].
  unfold registerRestoredOutgoingInflight. rewrite Hb. unfold TryGetToken. cbn [bk_num bk_len].
  destruct (Z.leb_spec n 0); [lia|]. destruct (set_held_simpl true e) as (F1 & F2 & F3 & F4).
  destruct (Z.ltb_spec 0 k); cbn [negb].
  - set (d1 := with_bucket _ d).
    assert (dl_outgoingInflight d1 = dl_outgoingInflight d ∧ dl_done d1 = dl_done d) as [E1 E2] by by open_downlink d.
    assert (window n (0 + 1) d1) as Hw1.
    { destruct Hw. subst d1. open_downlink d. cbn in *. split; cbn; try done.
      exists (k - 1). split_and!; [done|lia|lia]. }
    rewrite (Put_fresh (set_held true e)) by (rewrite F1, ?E1; done). intros [= <- _].
    split; [|by rewrite (proj1 (proj2 (with_inflight_simpl _ _)))].
    apply window_insert; [|done|by rewrite F1|by rewrite F1, E1|by rewrite F2].
    replace (count (set_held true e)) with 1; [done|]. unfold count, counts. by rewrite F3, F4, Hack.
  - assert (with_bucket (Some (mkBucket n k)) d = d) as -> by (open_downlink d; cbn in *; by rewrite Hb).
    set (e1 := set_sent _ _ _). destruct (set_held_simpl false e) as (G1 & G2 & G3 & G4).
    destruct (set_sent_simpl None (oi_RetryCount (set_held false e)) (set_held false e)) as (S1 & S2 & S3).
    rewrite (Put_fresh e1) by (unfold e1; rewrite S1, G1; done). intros [= <- _].
    split; [|by rewrite (proj1 (proj2 (with_inflight_simpl _ _)))].
    apply window_insert; [|done|by unfold e1; rewrite S1, G1|by unfold e1; rewrite S1, G1|by unfold e1; rewrite S2, G2].
    unfold e1. rewrite S3. unfold count, counts. by rewrite G4.
Qed.

Lemma touch_window n id now d : window n 0 d → window n 0 (touchRestored id now d).
Proof.
  intros Hw. unfold touchRestored. destruct (dl_outgoingInflight d !! id) as [e|] eqn:He.
  - rewrite (alter_insert _ _ _ e) by done.
    destruct (set_sent_simpl (Some now) (oi_RetryCount e) e) as (F1 & F2 & F3).
    pose proof (window_update n 0 d id e _ Hw He F1 F2) as Hu. rewrite F3 in Hu.
    replace (0 + count e - count e) with 0 in Hu by lia. apply Hu. lia.
  - rewrite alter_id; [destruct Hw; by open_downlink d|]. intros e He'. congruence.
Qed.

Lemma restore_window n io m d : window n 0 d → isRestorableOutgoingUnfinished m = true →
  is_id (um_PacketID m) → dl_outgoingInflight d !! um_PacketID m = None →
  window n 0 (restoreOneOutgoingInflight io m d).
Proof.
  intros Hw Hr Hid Hfresh. assert (wrap 16 (um_PacketID m) = um_PacketID m) as Hwr.
  { unfold wrap, is_id in *. change (2 ^ 16) with 65536. rewrite Z.mod_small; lia. }
  assert (um_Qos m = 1 ∨ um_Qos m = 2) as Hq.
  { unfold isRestorableOutgoingUnfinished in Hr. destruct (negb _); [done|]. destruct (_ =? 0); [done|].
    destruct (Z.eqb_spec (um_Qos m) 1); [by left|]. destruct (Z.eqb_spec (um_Qos m) 2); [by right|done]. }
  assert (wrap 8 (um_Qos m) = um_Qos m) as Hwq by by destruct Hq as [-> | ->].
  unfold restoreOneOutgoingInflight, restoreRetainedOutgoingInflight. rewrite Hwr, Hwq.
  destruct (negb _).
  - destruct (Decode _ _) as [[cp ?]|]; [|done]. destruct (cp_Content cp) as [[]|]; try done.
    destruct (outgoingInflightStateFromSession _); [|done]. destruct (_ && _); [done|].
    destruct (registerRestoredOutgoingInflight _ _) as [d1 h] eqn:E.
    apply (register_window n) in E as [Hw1 _]; [|done..]. destruct h; cbn [negb]; [|done].
    case_bool_decide; (eapply window_same; [apply write_same|by apply touch_window]).
  - destruct (rs_messageID io); [|done]. destruct (findDeliveryTaskByMessageID _ _); [|done].
    destruct (outgoingInflightStateFromSession _); [|done].
    destruct (registerRestoredOutgoingInflight _ _) as [d1 h] eqn:E.
    apply (register_window n) in E as [Hw1 _]; [|done..]. destruct h; cbn [negb]; [|done].
    case_bool_decide; (eapply window_same; [apply write_same || apply retransmitFromTask_same|by apply touch_window]).
Qed.

(** ** The connection as a state machine *)

(** A fresh connection with Receive Maximum [n]. *)
Definition connected (id : string) (packetIDs n : Z) (last : Z * string) : Downlink :=
  mkDownlink id packetIDs (Some (NewBucket n)) ∅ ∅ last 0 false false [].

Inductive downlink_step : Downlink → Downlink → Prop :=
| step_deliver tasks d d' : deliverClientDeliveryTasks tasks d = Some d' → downlink_step d d'
| step_puback io a d : downlink_step d (handlePubAck io a d)
| step_pubrec io a d : downlink_step d (handlePubRec io a d)
| step_pubcomp io a d : downlink_step d (handlePubComp io a d)
| step_retransmit cfg io d : downlink_step d (maybeRetransmitOutgoingInflight cfg io d)
| step_retained io p topic d d' :
    pub_QoS p = 0 ∨ pub_QoS p = 1 ∨ pub_QoS p = 2 →
    writeRetainedPublish io p topic d = Some d' → downlink_step d d'
| step_restore io m d :
    isRestorableOutgoingUnfinished m = true → is_id (um_PacketID m) →
    dl_outgoingInflight d !! um_PacketID m = None →
    downlink_step d (restoreOneOutgoingInflight io m d).

(** Steps of a connection whose context is not done. *)
Definition live_step (d d' : Downlink) : Prop := dl_done d = false ∧ downlink_step d d'.

Lemma step_window n d d' : window n 0 d → live_step d d' → dl_done d' = false → window n 0 d'.
Proof.
  intros Hw [Hd Hs] Hd'. destruct Hs.
  - destruct (deliver_batch_window n tasks d Hw Hd) as (d1 & E & H1). simplify_eq. auto.
  - by apply completeTerminal_window.
  - by apply handlePubRec_window.
  - by apply completeTerminal_window.
  - by apply retransmit_window.
  - by eapply retained_window.
  - by apply restore_window.
Qed.

Lemma connected_window id ids n last : 0 < n → 0 ≤ ids ≤ 65535 → window n 0 (connected id ids n last).
Proof.
  intros Hn Hi. split; cbn; try done. exists n. unfold NewBucket. destruct (Z.leb_spec n 0); [lia|].
  unfold held. rewrite map_filter_empty, map_size_empty. split_and!; [done|lia|lia].
Qed.

Lemma reachable_window n d0 d : window n 0 d0 → rtc live_step d0 d → dl_done d = false → window n 0 d.
Proof.
  intros Hw Hr. revert Hw. induction Hr as [d|d1 d2 d3 H12 H23 IH]; intros Hw Hd; [done|].
  assert (dl_done d2 = false) as Hd2.
  { destruct H23 as [|d2 d3 d4 [? _] _]; done. }
  apply IH; [|done]. by eapply step_window.
Qed.

(** C27. Flow control: on a live connection, whatever is delivered, retained, restored,
    acknowledged or retransmitted in any order and with any failures, no more than
    Receive Maximum unacknowledged QoS 1 and 2 messages hold a place in the window,
    and none is lost: free places and held ones always add up to Receive Maximum,
    so each acknowledgement makes room for another message and a put-back token is
    never dropped.  Entries are filed under their own identifier, 1 to 65535. *)
Theorem receive_maximum_respected id ids n last d :
  0 < n → 0 ≤ ids ≤ 65535 → rtc live_step (connected id ids n last) d → dl_done d = false →
  held (dl_outgoingInflight d) ≤ n ∧
  (∃ b, dl_publishBucket d = Some b ∧ 0 ≤ RemainingToken b ∧
        RemainingToken b + held (dl_outgoingInflight d) = n) ∧
  (∀ i e, dl_outgoingInflight d !! i = Some e → oi_PacketID e = i ∧ 1 ≤ i ≤ 65535 ∧ (oi_QoS e = 1 ∨ oi_QoS e = 2)).
Proof.
  intros Hn Hi Hr Hd. destruct (reachable_window n _ _ (connected_window _ _ _ _ Hn Hi) Hr Hd)
    as [_ _ (k & Hb & Hk & Hsum) Hkey Hq _]. split_and!.
  - lia.
  - exists (mkBucket n k). split_and!; [done|done|cbn; lia].
  - intros i e He. destruct (Hkey i e He). split_and!; try done; [unfold is_id in *; lia..|]. by eapply Hq.
Qed.

(** ** Concrete messages *)

Definition example_message (topic : string) (expired : Z) : StoredMessage :=
  mkStored (mkPublish [] topic None 0 1 false false) "publisher" expired.
Definition example_task (ts : Z) (taskID messageID : string) (qos : Z) : DeliveryTask :=
  mkTask ts taskID "c" messageID 0 qos [] false false "" uuid_Nil.
Definition example_io (payload : Loaded) (now : Z) : DeliveryIO := mkDeliveryIO payload true WSent WSent now.
Definition example_ack (id : Z) : Ack := mkAck None id 0.
Definition example_ackIO : AckIO := mkAckIO (λ _, true) WSent 0.

Definition example_batch : list (DeliveryIO * DeliveryTask) :=
  [(example_io (LoadOk (example_message "a" 0)) 5, example_task 3 "t1" "m1" 1);
   (example_io (LoadOk (example_message "b" 0)) 6, example_task 4 "t2" "m2" 2)].

Definition example_sent : Downlink :=
  default (connected "" 0 1 (0, "")) (deliverClientDeliveryTasks example_batch (connected "c" 0 2 (0, uuid_Nil))).

Lemma example_sent_eq : deliverClientDeliveryTasks example_batch (connected "c" 0 2 (0, uuid_Nil)) = Some example_sent.
Proof. vm_compute. reflexivity. Qed.

Lemma receive_maximum_respected_witness :
  let d := handlePubAck example_ackIO (example_ack 1) example_sent in
  held (dl_outgoingInflight example_sent) = 2 ∧ held (dl_outgoingInflight d) ≤ 2 ∧
  (∃ b, dl_publishBucket d = Some b ∧ 0 ≤ RemainingToken b ∧ RemainingToken b + held (dl_outgoingInflight d) = 2).
Proof.
  intros d. split; [vm_compute; reflexivity|].
  destruct (receive_maximum_respected "c" 0 2 (0, uuid_Nil) d) as (H1 & H2 & _); [done|done| |vm_compute; reflexivity|].
  - apply rtc_l with example_sent; [split; [reflexivity|exact (step_deliver _ _ _ example_sent_eq)]|].
    apply rtc_once. split; [vm_compute; reflexivity|]. exact (step_puback example_ackIO (example_ack 1) example_sent).
  - split; [exact H1|exact H2].
Defined.

(** Packet identifiers: the allocation ends after at most 65535 tries with an
    identifier from 1 to 65535 that no message in flight uses, which becomes the
    last one handed out; it answers 0 exactly when every identifier is in use. *)
Theorem NextPacketID_fresh id s ids r : 0 ≤ id ≤ 65535 → NextPacketID id s = (ids, r) →
  (r = 0 ↔ ∀ z, 1 ≤ z ≤ 65535 → is_Some (s !! z)) ∧
  (r ≠ 0 → 1 ≤ r ≤ 65535 ∧ s !! r = None ∧ ids = r).
Proof.
  intros Hid E. apply NextPacketID_spec in E as [_ [(Hr & Hn & ->)|[-> Hall]]]; [|done|done].
  split; [|by intros _]. split; [unfold is_id in *; lia|]. intros Hall. destruct (Hall r Hr) as [? ?]. congruence.
Qed.

Lemma NextPacketID_fresh_witness :
  let e := newDeliveryInflightEntry (example_task 3 "t1" "m1" 1) 1 1 5 true in
  NextPacketID 65535 {[1 := e]} = (2, 2) ∧ 1 ≤ 2 ≤ 65535 ∧ ({[1 := e]} : outgoingInflightStore) !! 2 = None.
Proof.
  intros e. assert (NextPacketID 65535 {[1 := e]} = (2, 2)) as E by (vm_compute; reflexivity).
  destruct (NextPacketID_fresh 65535 {[1 := e]} 2 2) as [_ H]; [lia|exact E|].
  destruct (H ltac:(lia)) as (H1 & H2 & _). split; [exact E|]. split; [exact H1|exact H2].
Defined.

(** ** What an acknowledgement does outside *)

Definition finish_effects (io : AckIO) (id : string) (e : outgoingInflightEntry) : list Effect :=
  let removed := if oi_PersistedInSession e && negb (bool_decide (oi_MessageID e = uuid_Nil) || bool_decide (id = ""))
                 then [UnfinishedRemoved (oi_MessageID e)] else [] in
  if oi_Retained e then removed
  else
    (if ak_advance io e then
       CursorAdvanced (mkCursor id (oi_Generation e) (oi_TaskTS e) (oi_TaskID e)) ::
       (if bool_decide (oi_ShareGroup e = "") || bool_decide (oi_SharedTaskID e = uuid_Nil) then []
        else [SharedTaskProcessed (oi_ShareGroup e) (oi_SharedTaskID e)])
     else []) ++ removed.

Lemma finishEntry_trace io d e :
  dl_trace (finishEntry io d e) = dl_trace d ++ finish_effects io (dl_ID d) e ∧ dl_ID (finishEntry io d e) = dl_ID d.
Proof.
  open_downlink d. unfold finishEntry, finish_effects, completeSharedDeliveryTask, removeOutgoingUnfinishedFromSession.
  destruct (oi_Retained e), (oi_PersistedInSession e), (ak_advance io e); cbn;
    try (destruct (bool_decide (oi_ShareGroup e = "") || _); cbn);
    try (destruct (bool_decide (oi_MessageID e = uuid_Nil) || _); cbn); rewrite ?app_nil_r, <-?app_assoc; done.
Qed.

Lemma finish_all_trace io l : ∀ d,
  dl_trace (foldl (finishEntry io) d l) = dl_trace d ++ (l ≫= finish_effects io (dl_ID d)).
Proof.
  induction l as [|e l IH]; intros d; [cbn; by rewrite app_nil_r|]. cbn [foldl].
  destruct (finishEntry_trace io d e) as [H1 H2]. rewrite IH, H1, H2. by rewrite <-app_assoc.
Qed.

Lemma recordAcks_trace m k d : ∃ l, dl_trace (recordOutgoingTerminalAcks m k d) = dl_trace d ++ l ∧ Forall (.= CommitStarted) l.
Proof.
  unfold recordOutgoingTerminalAcks, maybeCommitOutgoingProgress. open_downlink d. destruct (k <=? 0); [exists []; by rewrite app_nil_r|].
  cbn. destruct (_ && _); [|exists []; by rewrite app_nil_r]. case_match; [exists []; by rewrite app_nil_r|].
  exists [CommitStarted]. split; [done|by repeat constructor].
Qed.

Lemma advanceAcked_trace io d : ∃ l,
  dl_trace (advanceAckedOutgoingInflight io d) =
    dl_trace d ++ ((PopAckedInOrder (dl_outgoingInflight d)).2 ≫= finish_effects io (dl_ID d)) ++ l ∧
  Forall (.= CommitStarted) l.
Proof.
  unfold advanceAckedOutgoingInflight. destruct (PopAckedInOrder _) as [s' out]. cbn [snd].
  assert (dl_trace (with_inflight s' d) = dl_trace d ∧ dl_ID (with_inflight s' d) = dl_ID d) as [E1 E2] by by open_downlink d.
  case_bool_decide as Hl.
  - apply nil_length_inv in Hl as ->. exists []. cbn. by rewrite E1, app_nil_r.
  - destruct (recordAcks_trace (ak_commitMaxAcks io) (Z.of_nat (length out)) (foldl (finishEntry io) (with_inflight s' d) out))
      as (l & -> & Hf). exists l. split; [|done]. by rewrite finish_all_trace, E1, E2, <-app_assoc.
Qed.

(** Case analysis on [H : x ∈ l] for an explicit list [l]. *)
Ltac list_cases H :=
  cbn [app] in H; repeat (apply elem_of_cons in H as [H|H]; [discriminate H || injection H as ->|]);
  try (by apply elem_of_nil in H).

Lemma elem_of_finish_cursor io id e c : CursorAdvanced c ∈ finish_effects io id e →
  c = mkCursor id (oi_Generation e) (oi_TaskTS e) (oi_TaskID e) ∧ oi_Retained e = false.
Proof.
  unfold finish_effects. intros H.
  destruct (oi_Retained e), (oi_PersistedInSession e && _), (ak_advance io e),
    (bool_decide (oi_ShareGroup e = "") || bool_decide (oi_SharedTaskID e = uuid_Nil)); list_cases H; done.
Qed.

Lemma elem_of_finish_sent io id e p : Sent p ∈ finish_effects io id e → False.
Proof.
  unfold finish_effects. intros H.
  destruct (oi_Retained e), (oi_PersistedInSession e && _), (ak_advance io e),
    (bool_decide (oi_ShareGroup e = "") || bool_decide (oi_SharedTaskID e = uuid_Nil)); list_cases H.
Qed.

(** What [completeTerminalOutgoingInflight] adds to the trace. *)
Lemma completeTerminal_trace n io id qos d : window n 0 d → ∃ l,
  dl_trace (completeTerminalOutgoingInflight io id qos d) = dl_trace d ++ l ∧
  (∀ x, x ∈ l → (∃ p, x = Sent p) → False) ∧
  (∀ c, CursorAdvanced c ∈ l → ∃ i e, dl_outgoingInflight d !! i = Some e ∧
     c = mkCursor (dl_ID d) (oi_Generation e) (oi_TaskTS e) (oi_TaskID e) ∧
     (oi_Acked e = true ∨ i = id) ∧
     (∀ i' e', dl_outgoingInflight d !! i' = Some e' → outgoingInflightLess e' e = true →
        oi_Acked e' = true ∨ i' = id)).
Proof.
  intros Hw. unfold completeTerminalOutgoingInflight, MarkAcked. pose proof (wi_keyed _ _ _ Hw) as Hk.
  assert (∃ l : list Effect, dl_trace (with_inflight (dl_outgoingInflight d) d) = dl_trace d ++ l ∧
    (∀ x, x ∈ l → (∃ p, x = Sent p) → False) ∧ ∀ c, CursorAdvanced c ∈ l → ∃ i e, dl_outgoingInflight d !! i = Some e ∧
     c = mkCursor (dl_ID d) (oi_Generation e) (oi_TaskTS e) (oi_TaskID e) ∧ (oi_Acked e = true ∨ i = id) ∧
     (∀ i' e', dl_outgoingInflight d !! i' = Some e' → outgoingInflightLess e' e = true → oi_Acked e' = true ∨ i' = id)) as Hnil.
  { exists []. rewrite app_nil_r. split_and!; [by open_downlink d|by intros ? ?%elem_of_nil|by intros ? ?%elem_of_nil]. }
  destruct (id =? 0); [done|]. destruct (dl_outgoingInflight d !! id) as [e|] eqn:He; [|done].
  destruct (_ || oi_Acked e); [done|]. clear Hnil.
  set (s1 := <[id := set_acked e]> (dl_outgoingInflight d)). set (d1 := if oi_FlowTokenHeld _ then _ else _).
  assert (dl_trace d1 = dl_trace d ∧ dl_ID d1 = dl_ID d ∧ dl_outgoingInflight d1 = s1) as (E1 & E2 & E3).
  { subst d1 s1. open_downlink d. by destruct (oi_FlowTokenHeld _). }
  assert (keyed s1) as Hk1.
  { apply keyed_insert; [done| |]; destruct (Hk id e He); [by destruct e|done]. }
  destruct (advanceAcked_trace io d1) as (l & -> & Hl). rewrite E1, E2, E3.
  destruct (PopAckedInOrder s1) as [s2 out] eqn:Ep. apply PopAckedInOrder_spec in Ep as (_ & Hout & _); [|done].
  exists ((out ≫= finish_effects io (dl_ID d)) ++ l). cbn [snd]. split_and!; [done| |].
  - intros x Hx [p ->]. apply elem_of_app in Hx as [Hx|Hx]; [|rewrite Forall_forall in Hl; by apply Hl in Hx].
    apply list_elem_of_bind in Hx as (e0 & Hx & _). by apply elem_of_finish_sent in Hx.
  - intros c Hc. apply elem_of_app in Hc as [Hc|Hc]; [|rewrite Forall_forall in Hl; by apply Hl in Hc].
    apply list_elem_of_bind in Hc as (e0 & Hc & He0). apply elem_of_finish_cursor in Hc as [-> _].
    apply Hout in He0 as (H0 & Hack & Hall).
    assert (∀ i' e', dl_outgoingInflight d !! i' = Some e' → outgoingInflightLess e' e0 = true →
      oi_Acked e' = true ∨ i' = id) as Hless.
    { intros i' e' He' Hlt. destruct (decide (i' = id)) as [->|]; [by right|left].
      apply (Hall i'); [|done]. subst s1. by rewrite lookup_insert_ne. }
    subst s1. apply lookup_insert_Some in H0 as [[H0 <-]|[H0 H0']].
    + exists id, e. destruct e; cbn in *. split_and!; [done|done|by right|]. done.
    + exists (oi_PacketID e0), e0. split_and!; [done|done|by left|done].
Qed.

Lemma write_trace o p t d : ∃ l, dl_trace (write o p t d).1 = dl_trace d ++ l ∧ ∀ x, x ∈ l → x = Sent p ∨ x = Closed.
Proof.
  unfold write. set (d1 := match p with PPublish _ => _ | _ => _ end).
  assert (dl_trace d1 = dl_trace d) as <- by (subst d1; open_downlink d; by destruct p).
  assert (∀ d', dl_trace d' = dl_trace d1 → ∃ l, dl_trace d' = dl_trace d1 ++ l ∧ ∀ x, x ∈ l → x = Sent p ∨ x = Closed) as Hnil.
  { intros d' ->. exists []. rewrite app_nil_r. split; [done|]. by intros ? ?%elem_of_nil. }
  destruct o; cbn [fst].
  - exists [Sent p]. split; [by open_downlink d1|]. intros x Hx%list_elem_of_singleton. by left.
  - assert (∃ l, dl_trace (close d1) = dl_trace d1 ++ l ∧ ∀ x, x ∈ l → x = Sent p ∨ x = Closed) as Hc.
    { exists [Closed]. split; [by open_downlink d1|]. intros x Hx%list_elem_of_singleton. by right. }
    clearbody d1. by destruct p; cbn [fst]; auto.
  - apply Hnil. by open_downlink d1.
Qed.

(** The three acknowledgements a client sends. *)
Inductive acknowledges (id : Z) (d : Downlink) : Downlink → Prop :=
| acks_puback io a : ack_PacketID a = id → acknowledges id d (handlePubAck io a d)
| acks_pubrec io a : ack_PacketID a = id → acknowledges id d (handlePubRec io a d)
| acks_pubcomp io a : ack_PacketID a = id → acknowledges id d (handlePubComp io a d).

(** C28. Acknowledgements advance the delivery cursor in task order only: when a PUBACK,
    PUBREC or PUBCOMP stores a cursor position, it is the position of a message in
    flight that is acknowledged, and every message in flight that comes before it in
    the queue is acknowledged too, so the cursor never passes an unacknowledged
    message; nothing is sent but the PUBREL. *)
Theorem acks_advance_in_order id ids n last d aid d' :
  0 < n → 0 ≤ ids ≤ 65535 → rtc live_step (connected id ids n last) d → dl_done d = false →
  acknowledges aid d d' → ∃ l, dl_trace d' = dl_trace d ++ l ∧
  (∀ p, Sent p ∈ l → p = newPubrel aid) ∧
  (∀ c, CursorAdvanced c ∈ l → ∃ i e, dl_outgoingInflight d !! i = Some e ∧
     c = mkCursor (dl_ID d) (oi_Generation e) (oi_TaskTS e) (oi_TaskID e) ∧
     (oi_Acked e = true ∨ i = aid) ∧
     (∀ i' e', dl_outgoingInflight d !! i' = Some e' → outgoingInflightLess e' e = true →
        oi_Acked e' = true ∨ i' = aid)).
Proof.
  intros Hn Hi Hr Hd Ha. pose proof (reachable_window n _ _ (connected_window _ _ _ _ Hn Hi) Hr Hd) as Hw.
  assert (∀ io qos, let d' := completeTerminalOutgoingInflight io aid qos d in ∃ l, dl_trace d' = dl_trace d ++ l ∧
    (∀ p, Sent p ∈ l → p = newPubrel aid) ∧
    (∀ c, CursorAdvanced c ∈ l → ∃ i e, dl_outgoingInflight d !! i = Some e ∧
       c = mkCursor (dl_ID d) (oi_Generation e) (oi_TaskTS e) (oi_TaskID e) ∧ (oi_Acked e = true ∨ i = aid) ∧
       (∀ i' e', dl_outgoingInflight d !! i' = Some e' → outgoingInflightLess e' e = true → oi_Acked e' = true ∨ i' = aid)))
    as Hc.
  { intros io qos. destruct (completeTerminal_trace n io aid qos d Hw) as (l & H1 & H2 & H3). exists l.
    split_and!; [done| |done]. intros p Hp. exfalso. eauto. }
  destruct Ha as [io a <-|io a <-|io a <-]; [apply Hc| |apply Hc].
  unfold handlePubRec. destruct (mqtt5ReasonCodeIsError _); [apply Hc|]. clear Hc.
  assert (∀ x d1, dl_trace (with_topics x d1) = dl_trace d1) as Et by (intros; by open_downlink d1).
  rewrite Et.
  assert (∃ l : list Effect, dl_trace d = dl_trace d ++ l ∧ ∀ x, x ∈ l → x = Sent (newPubrel (ack_PacketID a)) ∨ x = Closed) as Hn0.
  { exists []. rewrite app_nil_r. split; [done|]. by intros ? ?%elem_of_nil. }
  assert (∃ l, dl_trace (match inflight_Get (ack_PacketID a) (dl_outgoingInflight d) with
      | Some e => if (oi_QoS e =? 2) && bool_decide (oi_State e = outInflightWaitingPubRec) then
          (write (ak_write io) (newPubrel (ack_PacketID a)) "" (with_inflight
            (UpdateState (ack_PacketID a) outInflightWaitingPubComp (dl_outgoingInflight d)) d)).1 else d
      | None => d end) = dl_trace d ++ l ∧ ∀ x, x ∈ l → x = Sent (newPubrel (ack_PacketID a)) ∨ x = Closed) as (l & -> & Hl).
  { destruct (inflight_Get _ _); [|done]. destruct (_ && _); [|done].
    destruct (write_trace (ak_write io) (newPubrel (ack_PacketID a)) "" (with_inflight
            (UpdateState (ack_PacketID a) outInflightWaitingPubComp (dl_outgoingInflight d)) d)) as (l & -> & Hl).
    exists l. split; [by open_downlink d|done]. }
  exists l. split_and!; [done| |].
  - intros p Hp. destruct (Hl _ Hp) as [[= ->]|[=]]. done.
  - intros c Hc. by destruct (Hl _ Hc).
Qed.

Lemma acks_advance_in_order_witness :
  let d' := handlePubComp example_ackIO (example_ack 2) example_sent in
  ∃ l, dl_trace d' = dl_trace example_sent ++ l ∧ (∀ p, Sent p ∈ l → p = newPubrel 2) ∧
  (∀ c, CursorAdvanced c ∈ l → ∃ i e, dl_outgoingInflight example_sent !! i = Some e ∧
     c = mkCursor (dl_ID example_sent) (oi_Generation e) (oi_TaskTS e) (oi_TaskID e) ∧
     (oi_Acked e = true ∨ i = 2) ∧
     (∀ i' e', dl_outgoingInflight example_sent !! i' = Some e' → outgoingInflightLess e' e = true →
        oi_Acked e' = true ∨ i' = 2)).
Proof.
  apply (acks_advance_in_order "c" 0 2 (0, uuid_Nil) example_sent 2); [done|done| |vm_compute; reflexivity|].
  - apply rtc_once. split; [reflexivity|]. exact (step_deliver _ _ _ example_sent_eq).
  - exact (acks_pubcomp 2 example_sent example_ackIO (example_ack 2) eq_refl).
Defined.

(** ** No PUBLISH after PUBREL *)

(** No PUBLISH with identifier [id] is written between [d] and [d']. *)
Definition quiet (id : Z) (d d' : Downlink) : Prop :=
  ∃ l, dl_trace d' = dl_trace d ++ l ∧ ∀ p, Sent (PPublish p) ∈ l → pub_PacketID p ≠ id.

Lemma quiet_same id d d' : dl_trace d' = dl_trace d → quiet id d d'.
Proof. intros E. exists []. rewrite E, app_nil_r. split; [done|]. by intros ? ?%elem_of_nil. Qed.

Lemma quiet_trans id d1 d2 d3 : quiet id d1 d2 → quiet id d2 d3 → quiet id d1 d3.
Proof.
  intros (l1 & E1 & H1) (l2 & E2 & H2). exists (l1 ++ l2). rewrite E2, E1, app_assoc. split; [done|].
  intros p [?|?]%elem_of_app; auto.
Qed.

Lemma quiet_refl id d : quiet id d d.
Proof. by apply quiet_same. Qed.

Lemma quiet_emit id x d : (∀ p, x = Sent (PPublish p) → pub_PacketID p ≠ id) → quiet id d (emit x d).
Proof.
  intros Hx. exists [x]. split; [by open_downlink d|]. intros p Hp%list_elem_of_singleton. by apply Hx.
Qed.

Lemma quiet_write id o p t d : (∀ pub, p = PPublish pub → pub_PacketID pub ≠ id) → quiet id d (write o p t d).1.
Proof.
  intros Hp. destruct (write_trace o p t d) as (l & E & Hl). exists l. split; [done|].
  intros pub Hpub. apply Hl in Hpub as [[= <-]|[=]]. by apply Hp.
Qed.

Lemma quiet_close id d : quiet id d (close d).
Proof. eapply quiet_trans; [apply quiet_same|apply quiet_emit; done]. by open_downlink d. Qed.

Lemma quiet_disconnect id o code reason d : quiet id d (disconnect o (NewServerDisconnect code reason) d).
Proof. eapply quiet_trans; [|apply quiet_close]. apply quiet_write. by intros pub. Qed.

Lemma quiet_quota id o reason d : quiet id d (disconnect o (ForQuotaExceeded reason) d).
Proof. unfold ForQuotaExceeded. case_match; apply quiet_disconnect. Qed.

Lemma quiet_protocol id o reason d : quiet id d (disconnect o (ForProtocolError reason) d).
Proof. unfold ForProtocolError. case_match; apply quiet_disconnect. Qed.

Lemma quiet_advance id io t d : quiet id d (advanceClientDeliveryCursor io t d).1.
Proof.
  unfold advanceClientDeliveryCursor, completeSharedDeliveryTask.
  case_match; [by apply quiet_same; open_downlink d|]. cbn [fst].
  assert (quiet id d (with_last (dt_TS t, dt_TaskID t) d)) as H1 by by apply quiet_same; open_downlink d.
  repeat case_match; (eapply quiet_trans; [exact H1|]); [by apply quiet_emit|].
  eapply quiet_trans; by apply quiet_emit.
Qed.

(** [d'] is quiet on [id] and leaves its entry alone. *)
Definition spares (id : Z) (d d' : Downlink) : Prop :=
  quiet id d d' ∧ dl_outgoingInflight d' !! id = dl_outgoingInflight d !! id.

Lemma spares_trans id d1 d2 d3 : spares id d1 d2 → spares id d2 d3 → spares id d1 d3.
Proof. intros [? ?] [? ?]. split; [by eapply quiet_trans|congruence]. Qed.

Lemma spares_flow id d d' : quiet id d d' → same_flow d d' → spares id d d'.
Proof. intros ? (_ & _ & _ & E & _). split; [done|by rewrite E]. Qed.

Lemma release_spares id i d : is_packetID i ≠ id → spares id d (releaseDeliveryInflight i d).
Proof.
  intros Hne. unfold releaseDeliveryInflight, inflight_Delete.
  open_downlink d. destruct (is_registeredInflight i), (is_usedFlowToken i); cbn;
    repeat case_match; simplify_eq; (split; [by apply quiet_same|]); cbn; rewrite ?lookup_delete_ne by done; done.
Qed.

Lemma takeToken_spares id d d' : takeToken d = Some d' → spares id d d'.
Proof.
  open_downlink d. unfold takeToken. cbn. intros. repeat case_match; simplify_eq; (split; [by apply quiet_same|done]).
Qed.

Lemma prepare_spares id io t p qos d d' p' r : is_id id → 0 ≤ dl_packetIDs d ≤ 65535 →
  is_Some (dl_outgoingInflight d !! id) → prepareDeliveryQoSAndInflight io t p qos d = Some (d', p', r) →
  spares id d d' ∧ pub_PacketID p' ≠ id ∧ ∀ i, r = Ok i → is_packetID i ≠ id.
Proof.
  intros Hid Hids He. unfold prepareDeliveryQoSAndInflight. unfold is_id in Hid.
  destruct (qos =? 0).
  { intros [= <- <- <-]. split_and!; [split; [by apply quiet_same|done]|cbn; lia|]. intros i [= <-]. cbn. lia. }
  destruct (NextPacketID _ _) as [ids r0] eqn:En. apply NextPacketID_spec in En as [_ Hr]; [|done].
  assert (spares id d (with_packetIDs ids d)) as H1 by (split; [by apply quiet_same; open_downlink d|by open_downlink d]).
  destruct Hr as [(Hr & Hfresh & _)|[-> _]].
  2: { cbn. intros [= <- <- <-]. split_and!; [|cbn; lia|done]. eapply spares_trans; [done|].
       apply spares_flow; [apply quiet_quota|apply disconnect_same]. }
  assert (r0 ≠ id) as Hne by (intros ->; destruct He; congruence).
  destruct (Z.eqb_spec r0 0); [unfold is_id in *; lia|].
  destruct (takeToken _) as [d2|] eqn:Et; [|done]. apply (takeToken_spares id) in Et.
  pose proof (spares_trans _ _ _ _ H1 Et) as H2.
  destruct (Put _ _) as [s replaced] eqn:Ep.
  assert (spares id d (with_inflight s d2)) as H3.
  { eapply spares_trans; [exact H2|]. split; [by apply quiet_same; open_downlink d2|].
    rewrite (proj1 (with_inflight_simpl _ _)). revert Ep. unfold Put. cbn.
    destruct (r0 =? 0); intros [= <- _]; [done|]. by rewrite lookup_insert_ne. }
  destruct replaced; intros [= <- <- <-]; (split_and!; [|cbn; done|]).
  - case_match.
    + eapply spares_trans; [exact H3|]. apply spares_trans with (putToken (with_inflight s d2)).
      { split; [by apply quiet_same; open_downlink d2|by open_downlink d2]. }
      apply spares_flow; [apply quiet_protocol|apply disconnect_same].
    + eapply spares_trans; [exact H3|]. apply spares_flow; [apply quiet_protocol|apply disconnect_same].
  - done.
  - done.
  - by intros i [= <-].
Qed.

Lemma deliverSingle_spares id io t d d' r : is_id id → 0 ≤ dl_packetIDs d ≤ 65535 →
  is_Some (dl_outgoingInflight d !! id) → deliverSingleClientDeliveryTask io t d = Some (d', r) → spares id d d'.
Proof.
  intros Hid Hids He. unfold deliverSingleClientDeliveryTask.
  assert (∀ d, spares id d (advanceClientDeliveryCursor io t d).1) as Hadv.
  { intros. apply spares_flow; [apply quiet_advance|auto with flow]. }
  assert (∀ d1 d' r, advanceClientDeliveryCursor io t d1 = (d', r) → spares id d1 d') as Hadv'.
  { intros d1 d2 r2 E. fst_of E. apply Hadv. }
  assert (spares id d d) as Hrefl by (split; [apply quiet_refl|done]).
  unfold loadClientDeliveryMessage. destruct (io_payload io) as [| | | |msg];
    [by intros [= ?]; eauto|by intros [= <- _]|by intros [= ?]; eauto|by intros [= <- _]|].
  destruct (_ && _); [by intros [= ?]; eauto|].
  destruct (applyDeliveryPublishOptions _ _ _ _) as [p|]; [|by intros [= ?]; eauto].
  destruct (prepareDeliveryQoSAndInflight _ _ _ _ _) as [[[d1 p1] ri]|] eqn:Ep; [|done].
  apply (prepare_spares id) in Ep as (H1 & Hp1 & Hi); [|done..].
  destruct ri as [i|e]; [|by intros [= <- _]].
  assert (spares id d1 (write (io_write io) (PPublish p1) (pub_Topic (sm_Publish msg)) d1).1) as H2.
  { apply spares_flow; [apply quiet_write; by intros ? [= <-]|auto with flow]. }
  pose proof (spares_trans _ _ _ _ H1 H2) as H12. destruct (write _ _ _ _) as [d2 [[]|e]]; cbn [fst] in *.
  - destruct (deliveryQoS _ =? 0); [intros [= E]; eapply spares_trans; [done|by eapply Hadv']|].
    intros [= <- _]. eapply spares_trans; [done|]. split; [by apply quiet_same; open_downlink d2|by open_downlink d2].
  - unfold handleDeliveryWriteError. intros [= E].
    eapply spares_trans; [done|]. eapply spares_trans; [apply release_spares; by apply Hi|].
    case_bool_decide; [by eapply Hadv'|injection E as <- _]. split; [apply quiet_refl|done].
Qed.

Lemma deliver_batch_spares n id tasks : is_id id → ∀ d d', window n 0 d → dl_done d = false →
  is_Some (dl_outgoingInflight d !! id) → deliverClientDeliveryTasks tasks d = Some d' → spares id d d'.
Proof.
  intros Hid. induction tasks as [|[io t] tasks IH]; intros d d' Hw Hd He; cbn [deliverClientDeliveryTasks].
  { intros [= <-]. split; [apply quiet_refl|done]. }
  assert (spares id d d) as Hrefl by (split; [apply quiet_refl|done]).
  rewrite Hd. destruct (canSendMoreDownlink d); cbn [negb]; [|by intros [= <-]].
  destruct (deliverSingleClientDeliveryTask io t d) as [[d1 r]|] eqn:E; [|done].
  pose proof (deliverSingle_window n _ _ _ _ _ Hw Hd E) as Hw1.
  apply (deliverSingle_spares id) in E; [|done|by destruct Hw|done].
  destruct r as [[]|e]; [|by intros [= <-]]. destruct (canSendMoreDownlink d1); cbn [negb]; [|by intros [= <-]].
  destruct (dl_done d1) eqn:Hd1.
  - intros E1. assert (d' = d1) as ->; [|done]. destruct tasks as [|[]]; cbn in E1; [congruence|]. rewrite Hd1 in E1. congruence.
  - intros E1. eapply spares_trans; [exact E|]. apply IH; [auto|done| |done]. by rewrite (proj2 E).
Qed.

(** The entry of [id] is a QoS 2 message whose PUBREL is out. *)
Definition released (id : Z) (d : Downlink) : Prop :=
  ∃ e, dl_outgoingInflight d !! id = Some e ∧ oi_QoS e = 2 ∧ oi_State e = outInflightWaitingPubComp.

Lemma released_spares id d d' : spares id d d' → released id d → released id d'.
Proof. intros [_ E] (e & He & ?). exists e. by rewrite E. Qed.

Lemma completeTerminal_entry n io aid qos id d e : window n 0 d → dl_outgoingInflight d !! id = Some e →
  let d' := completeTerminalOutgoingInflight io aid qos d in
  dl_outgoingInflight d' !! id = None ∨
  ∃ e', dl_outgoingInflight d' !! id = Some e' ∧ oi_QoS e' = oi_QoS e ∧ oi_State e' = oi_State e.
Proof.
  intros Hw He. unfold completeTerminalOutgoingInflight, MarkAcked. pose proof (wi_keyed _ _ _ Hw) as Hk.
  assert (dl_outgoingInflight (with_inflight (dl_outgoingInflight d) d) !! id = None ∨
    ∃ e', dl_outgoingInflight (with_inflight (dl_outgoingInflight d) d) !! id = Some e' ∧
      oi_QoS e' = oi_QoS e ∧ oi_State e' = oi_State e) as Hsame.
  { right. exists e. by rewrite (proj1 (with_inflight_simpl _ _)). }
  destruct (aid =? 0); [done|]. destruct (dl_outgoingInflight d !! aid) as [e0|] eqn:He0; [|done].
  destruct (_ || oi_Acked e0); [done|]. clear Hsame. cbn zeta.
  set (s1 := <[aid := set_acked e0]> (dl_outgoingInflight d)). set (d1 := if oi_FlowTokenHeld _ then _ else _).
  assert (dl_outgoingInflight d1 = s1) as E3 by (subst d1 s1; open_downlink d; by destruct (oi_FlowTokenHeld _)).
  assert (∃ e1, s1 !! id = Some e1 ∧ oi_QoS e1 = oi_QoS e ∧ oi_State e1 = oi_State e) as (e1 & He1 & Hq1).
  { subst s1. destruct (decide (id = aid)) as [->|]; [|exists e; by rewrite lookup_insert_ne].
    exists (set_acked e0). rewrite lookup_insert_eq. split; [done|]. assert (e0 = e) as -> by congruence. by destruct e. }
  assert (keyed s1) as Hk1 by (apply keyed_insert; [done| |]; destruct (Hk aid e0 He0); [by destruct e0|done]).
  unfold advanceAckedOutgoingInflight. rewrite E3. destruct (PopAckedInOrder s1) as [s2 out] eqn:Ep.
  apply PopAckedInOrder_spec in Ep as (_ & _ & _ & Hs2); [|done]. specialize (Hs2 id). rewrite He1 in Hs2.
  assert (∀ d2, dl_outgoingInflight d2 = s2 → dl_outgoingInflight d2 !! id = None ∨
    ∃ e', dl_outgoingInflight d2 !! id = Some e' ∧ oi_QoS e' = oi_QoS e ∧ oi_State e' = oi_State e) as Hfin.
  { intros d2 ->. rewrite Hs2. case_bool_decide; [by left|right; eauto]. }
  clearbody d1. apply Hfin. destruct (bool_decide (length out = 0%nat)); [by destruct d1|].
  destruct (recordAcks_same (ak_commitMaxAcks io) (Z.of_nat (length out)) (foldl (finishEntry io) (with_inflight s2 d1) out))
    as (_ & _ & _ & -> & _).
  destruct (foldl_same (finishEntry io) out (with_inflight s2 d1)) as (_ & _ & _ & -> & _); [auto with flow|].
  by rewrite (proj1 (with_inflight_simpl _ _)).
Qed.

Lemma completeTerminal_quiet n io aid qos id d : window n 0 d →
  quiet id d (completeTerminalOutgoingInflight io aid qos d).
Proof.
  intros Hw. destruct (completeTerminal_trace n io aid qos d Hw) as (l & E & Hs & _). exists l. split; [done|].
  intros p Hp. exfalso. eauto.
Qed.

(** Quiet on [id], and [id] is still released unless it is finished. *)
Definition released_or_gone (id : Z) (d' : Downlink) : Prop :=
  released id d' ∨ dl_outgoingInflight d' !! id = None.

Lemma completeTerminal_released n io aid qos id d : window n 0 d → released id d →
  let d' := completeTerminalOutgoingInflight io aid qos d in quiet id d d' ∧ released_or_gone id d'.
Proof.
  intros Hw (e & He & Hq & Hst). split; [by eapply completeTerminal_quiet|].
  destruct (completeTerminal_entry n io aid qos id d e Hw He) as [?|(e' & ? & ? & ?)]; [by right|left].
  exists e'. split_and!; congruence.
Qed.

Lemma handlePubRec_released n io a id d : window n 0 d → released id d →
  quiet id d (handlePubRec io a d) ∧ released_or_gone id (handlePubRec io a d).
Proof.
  intros Hw Hrel. unfold handlePubRec.
  destruct (mqtt5ReasonCodeIsError _); [by apply (completeTerminal_released n)|].
  match goal with |- context [with_topics (delete _ (dl_packetIdentifierIDTopic ?x)) _] => set (d1 := x) end.
  assert (spares id d d1) as H1.
  { subst d1. assert (spares id d d) as Hrefl by (split; [apply quiet_refl|done]).
    destruct (inflight_Get _ _) as [e0|] eqn:Eg; [|done]. destruct (_ && _) eqn:Eb; [|done].
    apply andb_true_iff in Eb as [_ Hst]. apply bool_decide_eq_true in Hst.
    assert (ack_PacketID a ≠ id) as Hne.
    { intros E. destruct Hrel as (e & He & _ & Hs). unfold inflight_Get in Eg. rewrite E in Eg.
      destruct (id =? 0); [done|]. congruence. }
    eapply spares_trans; [|apply spares_flow; [apply quiet_write; by intros ? [=]|apply write_same]].
    split; [by apply quiet_same; open_downlink d|]. rewrite (proj1 (with_inflight_simpl _ _)).
    unfold UpdateState. destruct (_ =? 0); [done|]. by rewrite lookup_alter_ne. }
  assert (spares id d (with_topics (delete (ack_PacketID a) (dl_packetIdentifierIDTopic d1)) d1)) as H2.
  { eapply spares_trans; [exact H1|]. split; [by apply quiet_same; open_downlink d1|by open_downlink d1]. }
  split; [by destruct H2|left]. by eapply released_spares.
Qed.

Lemma quiet_retransmitFromTask id io t q pid d : pid ≠ id → quiet id d (retransmitPublishFromTask io t q pid d).1.
Proof.
  intros Hne. unfold retransmitPublishFromTask. repeat case_match; cbn [fst]; try apply quiet_refl.
  apply quiet_write. intros pub [= <-]. done.
Qed.

Lemma quiet_retransmitEntry id io e d : oi_PacketID e ≠ id ∨ oi_State e = outInflightWaitingPubComp →
  quiet id d (retransmitOutgoingInflightEntry io e d).1.
Proof.
  intros He. unfold retransmitOutgoingInflightEntry, retransmitRetainedPublishFromEntry.
  destruct (oi_State e); [| |by apply quiet_write]; (destruct He as [He|]; [|done]);
  (destruct (_ && _); [repeat case_match; try apply quiet_refl; apply quiet_write; by intros ? [= <-]
    |case_match; [by apply quiet_retransmitFromTask|apply quiet_refl]]).
Qed.

Lemma retransmitError_released id e acq err d : released id d →
  dl_outgoingInflight d !! oi_PacketID e = Some e →
  let d' := handleOutgoingRetransmitError e acq err d in quiet id d d' ∧ released_or_gone id d'.
Proof.
  intros Hrel He. split.
  - apply quiet_same. unfold handleOutgoingRetransmitError. open_downlink d. destruct (inflight_Delete _ _).
    by repeat case_match.
  - destruct Hrel as (e0 & He0 & Hq & Hst). unfold handleOutgoingRetransmitError, inflight_Delete, ClearFlowTokenHeld.
    destruct (decide (oi_PacketID e = id)) as [E|E].
    + rewrite E in *. assert (e0 = e) as -> by congruence. case_bool_decide.
      * destruct (id =? 0) eqn:E0.
        { left. exists e. open_downlink d. cbn in *. repeat case_match; by split_and!. }
        rewrite He. right. rewrite bool_decide_true by eauto. open_downlink d. cbn. by rewrite lookup_delete_eq.
      * left. destruct acq; [|exists e; done]. destruct (id =? 0); [exists e; by open_downlink d|].
        exists (set_held false e). open_downlink d. cbn in *. rewrite lookup_alter_eq, He. by destruct e.
    + left. exists e0. case_bool_decide; [|destruct acq; [|done]]; open_downlink d; cbn in *;
        repeat case_match; simplify_eq; cbn; rewrite ?lookup_delete_ne, ?lookup_alter_ne by done; done.
Qed.

Lemma acquire_quiet id e d d' e' acq ok : acquireRetransmitFlowToken e d = (d', e', acq, ok) →
  quiet id d d' ∧ (released id d → released id d').
Proof.
  unfold acquireRetransmitFlowToken. intros E.
  assert (∀ s, (s = dl_outgoingInflight d ∨ ∃ e0, dl_outgoingInflight d !! oi_PacketID e = Some e0 ∧
     s = <[oi_PacketID e := set_held true e0]> (dl_outgoingInflight d)) → released id d →
     ∃ e1, s !! id = Some e1 ∧ oi_QoS e1 = 2 ∧ oi_State e1 = outInflightWaitingPubComp) as Hs.
  { intros s [->|(e0 & He0 & ->)] (e1 & He1 & Hq & Hst); [by exists e1|].
    destruct (decide (oi_PacketID e = id)) as [<-|].
    - exists (set_held true e0). rewrite lookup_insert_eq. assert (e1 = e0) as -> by congruence. by destruct e0.
    - exists e1. by rewrite lookup_insert_ne. }
  destruct (dl_publishBucket d) as [b|]; [|by injection E as <- _ _ _; split; [apply quiet_refl|]].
  destruct (oi_FlowTokenHeld e); [by injection E as <- _ _ _; split; [apply quiet_refl|]|].
  destruct (TryGetToken b) as [b' taken]. destruct taken; cbn [negb] in E.
  - destruct (MarkFlowTokenHeld _ _) as [s u] eqn:Em.
    assert (dl_outgoingInflight (with_bucket (Some b') d) = dl_outgoingInflight d) as Eb by by open_downlink d.
    rewrite Eb in Em.
    assert (released id d → ∃ e1, s !! id = Some e1 ∧ oi_QoS e1 = 2 ∧ oi_State e1 = outInflightWaitingPubComp) as Hs'.
    { apply Hs. revert Em. unfold MarkFlowTokenHeld. destruct (_ =? 0); [intros [= <- _]; by left|].
      destruct (dl_outgoingInflight d !! oi_PacketID e) as [e0|]; [|intros [= <- _]; by left].
      destruct (oi_FlowTokenHeld e0); intros [= <- _]; [by left|right; by exists e0]. }
    destruct u; injection E as <- _ _ _; (split; [by apply quiet_same; open_downlink d|]); unfold released;
      open_downlink d; exact Hs'.
  - injection E as <- _ _ _. split; [by apply quiet_same; open_downlink d|]. by open_downlink d.
Qed.

Lemma retransmit_released n cfg io id d : window n 0 d → released id d →
  let d' := maybeRetransmitOutgoingInflight cfg io d in quiet id d d' ∧ released_or_gone id d'.
Proof.
  intros Hw Hrel. unfold maybeRetransmitOutgoingInflight, firstRetransmittableInflight.
  assert (quiet id d d ∧ released_or_gone id d) as Hrefl by (split; [apply quiet_refl|by left]).
  destruct (FirstUnacked _) as [e|] eqn:Ef; [|done]. destruct (oi_PacketID e =? 0); [done|].
  apply FirstUnacked_spec in Ef as [[i He] Hack]. destruct (wi_keyed _ _ _ Hw i e He) as [<- Hid].
  assert (∀ o reason, let d' := disconnect o (ForQuotaExceeded reason) d in quiet id d d' ∧ released_or_gone id d') as Hdis.
  { intros o reason. split; [apply quiet_quota|]. left. eapply released_spares; [|done].
    apply spares_flow; [apply quiet_quota|apply disconnect_same]. }
  unfold disconnectForExpiredRetransmit. destruct (_ && _); [apply Hdis|]. destruct (_ && _); [apply Hdis|].
  destruct (shouldWaitForRetransmitInterval _ _ _); [done|].
  destruct (acquireRetransmitFlowToken e d) as [[[d1 e1] acq] ok] eqn:Ea.
  destruct (acquire_quiet id _ _ _ _ _ _ Ea) as [Hq1 Hr1]. specialize (Hr1 Hrel).
  apply (acquire_window n) in Ea as (Hw1 & _ & Hheld & Est & Eid); [|done..].
  destruct ok; cbn [negb]; [|split; [done|by left]]. destruct (Hheld eq_refl) as (He1 & _ & _).
  assert (quiet id d1 (retransmitOutgoingInflightEntry io e1 d1).1) as Hq2.
  { apply quiet_retransmitEntry. destruct (decide (oi_PacketID e1 = id)) as [E|]; [right|by left].
    destruct Hr1 as (e2 & He2 & _ & Hs2). rewrite E in He1. congruence. }
  pose proof (retransmitEntry_same io e1 d1) as Hs.
  assert (released id (retransmitOutgoingInflightEntry io e1 d1).1) as Hr2.
  { eapply released_spares; [|exact Hr1]. by apply spares_flow. }
  destruct (retransmitOutgoingInflightEntry io e1 d1) as [d2 [[]|err]]; cbn [fst] in *.
  - split; [eapply quiet_trans; [exact Hq1|]; eapply quiet_trans; [exact Hq2|]; by apply quiet_same; open_downlink d2|].
    left. destruct Hr2 as (e2 & He2 & Hqq & Hst). unfold released. rewrite (proj1 (with_inflight_simpl _ _)).
    unfold MarkSent. destruct (oi_PacketID e1 =? 0); [by exists e2|].
    destruct (dl_outgoingInflight d2 !! oi_PacketID e1) as [e3|] eqn:E3; [|by exists e2]. cbn [fst].
    destruct (decide (oi_PacketID e1 = id)) as [E|].
    + exists (set_sent (Some (rio_now io)) (oi_RetryCount e3 + 1) e3). rewrite E in *. rewrite lookup_insert_eq.
      assert (e3 = e2) as -> by congruence. by destruct e2.
    + exists e2. by rewrite lookup_insert_ne.
  - destruct (retransmitError_released id e1 acq err d2 Hr2) as [Hq3 ?].
    { destruct Hs as (_ & _ & _ & -> & _). done. }
    split; [|done]. by eapply quiet_trans; [exact Hq1|]; eapply quiet_trans; [exact Hq2|].
Qed.

Lemma retained_spares id io p topic d d' : is_id id → 0 ≤ dl_packetIDs d ≤ 65535 →
  is_Some (dl_outgoingInflight d !! id) → writeRetainedPublish io p topic d = Some d' → spares id d d'.
Proof.
  intros Hid Hids He. unfold writeRetainedPublish, is_id in *.
  assert (spares id d d) as Hrefl by (split; [apply quiet_refl|done]).
  destruct (outboundPayloadFormatInvalid p); [by intros [= <-]|]. destruct (pub_QoS p =? 0).
  { intros [= <-]. apply spares_flow; [|apply write_same]. apply quiet_write. intros ? [= <-]. cbn. lia. }
  destruct (NextPacketID _ _) as [ids r0] eqn:En. apply NextPacketID_spec in En as [_ Hr]; [|done].
  assert (spares id d (with_packetIDs ids d)) as H1 by (split; [by apply quiet_same; open_downlink d|by open_downlink d]).
  destruct Hr as [(Hr & Hfresh & _)|[-> _]]; [|by intros [= <-]].
  assert (r0 ≠ id) as Hne by (intros ->; destruct He; congruence).
  destruct (Z.eqb_spec r0 0); [unfold is_id in *; lia|].
  destruct (takeToken _) as [d2|] eqn:Et; [|done]. apply (takeToken_spares id) in Et.
  destruct (Put _ _) as [s replaced] eqn:Ep.
  assert (spares id d (with_inflight s d2)) as H3.
  { eapply spares_trans; [exact H1|]. eapply spares_trans; [exact Et|]. split; [by apply quiet_same; open_downlink d2|].
    rewrite (proj1 (with_inflight_simpl _ _)). revert Ep. unfold Put. cbn.
    destruct (r0 =? 0); intros [= <- _]; [done|]. by rewrite lookup_insert_ne. }
  assert (∀ d, spares id d (putToken d)) as Hput.
  { intros d0. split; [by apply quiet_same; open_downlink d0|by open_downlink d0]. }
  destruct replaced.
  { intros [= <-]. eapply spares_trans; [exact H3|]. eapply spares_trans; [apply Hput|].
    apply spares_flow; [apply quiet_protocol|apply disconnect_same]. }
  set (p1 := set_qos_id _ _ _).
  assert (spares id d (write (rt_write io) (PPublish p1) topic (with_inflight s d2)).1) as H4.
  { eapply spares_trans; [exact H3|]. apply spares_flow; [|apply write_same]. apply quiet_write. by intros ? [= <-]. }
  destruct (write _ _ _ _) as [d4 [[]|err]]; cbn [fst] in *; [by intros [= <-]|].
  destruct (inflight_Delete _ _) as [s5 o5] eqn:E5.
  assert (spares id d (with_inflight s5 d4)) as H5.
  { eapply spares_trans; [exact H4|]. split; [by apply quiet_same; open_downlink d4|].
    rewrite (proj1 (with_inflight_simpl _ _)). unfold inflight_Delete in E5.
    destruct (r0 =? 0); [by simplify_eq|].
    destruct (dl_outgoingInflight d4 !! r0); simplify_eq; [by rewrite lookup_delete_ne|done]. }
  intros [= <-]. destruct (bool_decide (is_Some o5)); [|exact H5]. eapply spares_trans; [exact H5|apply Hput].
Qed.

Lemma restore_spares n id io m d : window n 0 d → isRestorableOutgoingUnfinished m = true →
  is_id (um_PacketID m) → dl_outgoingInflight d !! um_PacketID m = None → um_PacketID m ≠ id →
  spares id d (restoreOneOutgoingInflight io m d).
Proof.
  intros Hw Hr Hid Hfresh Hne. assert (wrap 16 (um_PacketID m) = um_PacketID m) as Hwr.
  { unfold wrap, is_id in *. change (2 ^ 16) with 65536. rewrite Z.mod_small; lia. }
  assert (spares id d d) as Hrefl by (split; [apply quiet_refl|done]).
  assert (∀ e d' h, oi_PacketID e = um_PacketID m → registerRestoredOutgoingInflight e d = (d', h) → spares id d d') as Hreg.
  { intros e d' h He. unfold registerRestoredOutgoingInflight.
    match goal with |- (let '(_, _) := ?x in _) = _ → _ => destruct x as [b tok] end. intros [= <- _].
    split; [by apply quiet_same; open_downlink d|]. rewrite (proj1 (with_inflight_simpl _ _)).
    assert (dl_outgoingInflight (with_bucket b d) = dl_outgoingInflight d) as -> by by open_downlink d.
    unfold Put. destruct (_ =? 0); [done|]. cbn [fst]. rewrite lookup_insert_ne; [done|].
    destruct tok; destruct e; cbn in *; congruence. }
  assert (∀ d1 now, spares id d1 (touchRestored (um_PacketID m) now d1)) as Htouch.
  { intros d1 now. split; [by apply quiet_same; open_downlink d1|]. unfold touchRestored.
    rewrite (proj1 (with_inflight_simpl _ _)). by rewrite lookup_alter_ne. }
  assert (∀ o t d1, spares id d1 (write o (newPubrel (um_PacketID m)) t d1).1) as Hrel.
  { intros. apply spares_flow; [apply quiet_write; by intros ? [=]|apply write_same]. }
  unfold restoreOneOutgoingInflight, restoreRetainedOutgoingInflight. rewrite Hwr. destruct (negb _).
  - destruct (Decode _ _) as [[cp ?]|]; [|done]. destruct (cp_Content cp) as [[]|]; try done.
    destruct (outgoingInflightStateFromSession _); [|done]. destruct (_ && _); [done|].
    destruct (registerRestoredOutgoingInflight _ _) as [d1 h] eqn:E. apply Hreg in E; [|done].
    destruct h; cbn [negb]; [|done]. eapply spares_trans; [exact E|]. eapply spares_trans; [apply Htouch|].
    case_bool_decide; [apply Hrel|]. apply spares_flow; [|apply write_same]. apply quiet_write. by intros ? [= <-].
  - destruct (rs_messageID io); [|done]. destruct (findDeliveryTaskByMessageID _ _); [|done].
    destruct (outgoingInflightStateFromSession _); [|done].
    destruct (registerRestoredOutgoingInflight _ _) as [d1 h] eqn:E. apply Hreg in E; [|done].
    destruct h; cbn [negb]; [|done]. eapply spares_trans; [exact E|]. eapply spares_trans; [apply Htouch|].
    case_bool_decide; [apply Hrel|]. apply spares_flow; [by apply quiet_retransmitFromTask|apply retransmitFromTask_same].
Qed.

Lemma step_released n id d d' : window n 0 d → live_step d d' → released id d →
  quiet id d d' ∧ released_or_gone id d'.
Proof.
  intros Hw [Hd Hs] Hrel. pose proof Hrel as (e & He & _). destruct (wi_keyed _ _ _ Hw id e He) as [_ Hid].
  assert (∀ d', spares id d d' → quiet id d d' ∧ released_or_gone id d') as Hsp.
  { intros d1 H1. split; [by destruct H1|left]. by eapply released_spares. }
  destruct Hs.
  - apply Hsp. eapply deliver_batch_spares; eauto.
  - by apply (completeTerminal_released n).
  - by apply (handlePubRec_released n).
  - by apply (completeTerminal_released n).
  - by apply (retransmit_released n).
  - apply Hsp. eapply retained_spares; eauto. by destruct Hw.
  - apply Hsp. eapply restore_spares; eauto. intros E. rewrite E in *. congruence.
Qed.

(** QoS 2, sender side: once the PUBREL of a message is out, no PUBLISH is written
    under its identifier, neither a retransmission nor another message, for as long
    as its handshake is in flight, whatever happens on the live connection in the
    meantime. *)
Theorem no_publish_after_pubrel id ids n last d d' pid :
  0 < n → 0 ≤ ids ≤ 65535 → rtc live_step (connected id ids n last) d → released pid d →
  rtc (λ d1 d2, live_step d1 d2 ∧ dl_done d2 = false ∧ is_Some (dl_outgoingInflight d2 !! pid)) d d' →
  dl_done d = false → quiet pid d d' ∧ released pid d'.
Proof.
  intros Hn Hi Hr Hrel Hrun Hd. pose proof (reachable_window n _ _ (connected_window _ _ _ _ Hn Hi) Hr Hd) as Hw.
  clear Hr. induction Hrun as [d|d1 d2 d3 (Hs & Hd2 & Hsome) _ IH]; [split; [apply quiet_refl|done]|].
  destruct (step_released n pid _ _ Hw Hs Hrel) as [Hq Hrg].
  assert (released pid d2) as Hrel2 by (destruct Hrg as [|E]; [done|]; rewrite E in Hsome; by destruct Hsome).
  destruct IH as [IH1 IH2]; [done|done|by eapply step_window|]. split; [by eapply quiet_trans|done].
Qed.

Definition example_released : Downlink := handlePubRec example_ackIO (example_ack 2) example_sent.
Definition example_retried : Downlink :=
  maybeRetransmitOutgoingInflight (mkRunnerConfig 0 5 0) (mkRetransmitIO (Ok []) LoadFailed WSent 100)
    (handlePubAck example_ackIO (example_ack 1) example_released).

Lemma no_publish_after_pubrel_witness :
  quiet 2 example_released example_retried ∧ released 2 example_retried ∧
  last (dl_trace example_retried) = Some (Sent (newPubrel 2)).
Proof.
  assert (live_step example_released (handlePubAck example_ackIO (example_ack 1) example_released)) as S1.
  { split; [vm_compute; reflexivity|]. exact (step_puback example_ackIO (example_ack 1) example_released). }
  assert (live_step (handlePubAck example_ackIO (example_ack 1) example_released) example_retried) as S2.
  { split; [vm_compute; reflexivity|]. exact (step_retransmit _ _ _). }
  destruct (no_publish_after_pubrel "c" 0 2 (0, uuid_Nil) example_released example_retried 2) as [H1 H2];
    [done|done| | | |vm_compute; reflexivity|].
  - apply rtc_l with example_sent; [split; [reflexivity|exact (step_deliver _ _ _ example_sent_eq)]|].
    apply rtc_once. split; [vm_compute; reflexivity|]. exact (step_pubrec example_ackIO (example_ack 2) example_sent).
  - eexists. split; [vm_compute; reflexivity|]. split; vm_compute; reflexivity.
  - apply rtc_l with (handlePubAck example_ackIO (example_ack 1) example_released).
    + split; [exact S1|]. split; [vm_compute; reflexivity|]. eexists. vm_compute. reflexivity.
    + apply rtc_once. split; [exact S2|]. split; [vm_compute; reflexivity|]. eexists. vm_compute. reflexivity.
  - split; [exact H1|]. split; [exact H2|]. vm_compute. reflexivity.
Defined.

(** ** What a disconnect saves *)

Lemma elem_of_unfinished nowUS s i e m : keyed s → s !! i = Some e → unfinishedOf nowUS e = Some m →
  m ∈ collectOutgoingUnfinishedMessages nowUS s.
Proof.
  intros Hk He Hm. unfold collectOutgoingUnfinishedMessages. apply list_elem_of_omap. exists e. split; [|done].
  apply elem_of_All. eauto.
Qed.

(** A disconnect loses no unacknowledged message: of what is saved, either the
    replay cursor makes the next connection read from before the message's task (a
    QoS 1 message of the queue), or the message is among the unfinished ones with
    its identifier and stage, and is taken up again on reconnect (QoS 2, and retained
    messages that could be encoded). *)
Theorem offline_state_covers_inflight nowUS persisted s i e :
  keyed s → s !! i = Some e → oi_Acked e = false → oi_QoS e = 1 ∨ oi_QoS e = 2 →
  if decide (oi_QoS e = 1 ∧ oi_Retained e = false) then
    oi_TaskID e ≠ uuid_Nil → 0 < oi_TaskTS e → ∃ c, collectOutgoingReplayCursor s = Some c ∧
      (loadClientDeliveryCursor persisted (Some c)).1 < oi_TaskTS e
  else ∃ m, m ∈ collectOutgoingUnfinishedMessages nowUS s ∧
    um_MessageID m = oi_MessageID e ∧ um_PacketID m = i ∧ um_PublishPacket m = oi_PublishPacket e ∧
    (um_State m = WAITING_PUBCOMP ↔ oi_QoS e = 2 ∧ oi_State e = outInflightWaitingPubComp) ∧
    (oi_QoS e = 2 ∨ oi_PublishPacket e ≠ [] → isRestorableOutgoingUnfinished m = true).
Proof.
  intros Hk He Hack Hq. destruct (Hk i e He) as [Hpid Hid]. unfold is_id in Hid. case_decide as Hcase.
  - destruct Hcase as [Hq1 Hret]. intros Htask Hts. unfold collectOutgoingReplayCursor.
    set (l := filter _ (inflight_All s)).
    assert (e ∈ l) as Hin by (apply list_elem_of_filter; split; [by split_and!|apply elem_of_All; eauto]).
    destruct (scan_best outgoingInflightLess l) as [f|] eqn:Ef.
    2: { apply scan_best_None in Ef. rewrite Ef in Hin. by apply elem_of_nil in Hin. }
    pose proof (scan_first_least l f Ef e Hin) as Hle. eexists. split; [done|]. cbn.
    assert (oi_TaskTS f ≤ oi_TaskTS e) as Hfe.
    { unfold inflight_le in Hle. destruct (Z.le_gt_cases (oi_TaskTS f) (oi_TaskTS e)) as [?|Hgt]; [done|].
      assert (outgoingInflightLess e f = true) by (apply inflight_less_spec; left; lia). congruence. }
    unfold unixMicro. pose proof (Z.mul_div_le (oi_TaskTS f) 1000 ltac:(lia)).
    destruct (Z.ltb_spec (oi_TaskTS f `div` 1000 * 1000 - 1000) 0); cbn; lia.
  - destruct (unfinishedOf nowUS e) as [m|] eqn:Em.
    + exists m. split; [by eapply elem_of_unfinished|]. revert Em. unfold unfinishedOf.
      destruct (Z.eqb_spec (oi_PacketID e) 0); [lia|].
      destruct (Z.eqb_spec (oi_QoS e) 1) as [E1|E1]; cbn [andb].
      * destruct (oi_Retained e) eqn:Er; cbn [negb]; [|done]. intros [= <-]. cbn. split_and!; [done|done|done| |].
        { split; [done|]. rewrite E1. naive_solver. }
        intros [?|Hp]; [lia|]. unfold isRestorableOutgoingUnfinished. cbn. rewrite E1. cbn.
        destruct (Z.eqb_spec (oi_PacketID e) 0); [lia|]. rewrite bool_decide_false; [done|].
        by destruct (oi_PublishPacket e).
      * assert (oi_QoS e = 2) as E2 by lia. rewrite E2. cbn. intros [= <-]. cbn. split_and!; [done|done|done| |].
        { case_bool_decide; naive_solver. }
        intros _. unfold isRestorableOutgoingUnfinished. cbn. destruct (Z.eqb_spec (oi_PacketID e) 0); [lia|].
        by case_bool_decide.
    + exfalso. revert Em. unfold unfinishedOf. destruct (Z.eqb_spec (oi_PacketID e) 0); [lia|].
      destruct Hq as [Hq|Hq]; rewrite Hq; cbn; [|done]. by destruct (oi_Retained e); [|tauto].
Qed.

Lemma offline_state_covers_inflight_witness :
  (∃ c, collectOutgoingReplayCursor (dl_outgoingInflight example_sent) = Some c ∧
     (loadClientDeliveryCursor (Ok None) (Some c)).1 < 3) ∧
  (∃ m, m ∈ collectOutgoingUnfinishedMessages 7 (dl_outgoingInflight example_sent) ∧ um_MessageID m = "m2" ∧
     um_PacketID m = 2 ∧ um_PublishPacket m = [] ∧ um_State m ≠ WAITING_PUBCOMP).
Proof.
  assert (keyed (dl_outgoingInflight example_sent)) as Hk.
  { apply (wi_keyed 2 0), (reachable_window 2 (connected "c" 0 2 (0, uuid_Nil))); [by apply connected_window| |vm_compute; reflexivity].
    apply rtc_once. split; [reflexivity|exact (step_deliver _ _ _ example_sent_eq)]. }
  split.
  - apply (offline_state_covers_inflight 7 (Ok None) _ 1
      (newDeliveryInflightEntry (example_task 3 "t1" "m1" 1) 1 1 5 true) Hk); [vm_compute; reflexivity|done|by left|done|done].
  - destruct (offline_state_covers_inflight 7 (Ok None) _ 2
      (newDeliveryInflightEntry (example_task 4 "t2" "m2" 2) 2 2 6 true) Hk) as (m & H1 & H2 & H3 & H4 & H5 & _);
      [vm_compute; reflexivity|done|by right|].
    exists m. split; [exact H1|]. split; [exact H2|]. split; [exact H3|]. split; [exact H4|].
    intros Hs. destruct (proj1 H5 Hs) as [_ Hst]. discriminate Hst.
Defined.

(** ** Where the delivery path falls short *)

(** A task that is skipped: its payload is gone or empty, the message has expired or
    is not the UTF-8 it claims to be, or no-local suppresses it. *)
Definition skipped (io : DeliveryIO) (t : DeliveryTask) (d : Downlink) : Prop :=
  match io_payload io with
  | LoadNotFound | LoadEmpty => True
  | LoadOk msg =>
      dt_NoLocal t = true ∧ sm_SendClientID msg ≠ "" ∧ sm_SendClientID msg = dl_ID d ∨
      applyDeliveryPublishOptions t msg (io_now io) (CopyPublish (sm_Publish msg)) = None
  | _ => False
  end.

Lemma skipped_advances io t d : skipped io t d →
  deliverSingleClientDeliveryTask io t d = Some (advanceClientDeliveryCursor io t d).
Proof.
  unfold skipped, deliverSingleClientDeliveryTask, loadClientDeliveryMessage.
  destruct (io_payload io) as [| | | |msg]; try done. intros [(H1 & H2 & H3)|H].
  - by rewrite H1, bool_decide_false, bool_decide_true.
  - rewrite H. by destruct (_ && _).
Qed.

(** A skipped task stores the cursor at its own position, whatever is in flight. *)
Lemma skipped_effect io t d : skipped io t d → io_advance io = true →
  ∃ d', deliverSingleClientDeliveryTask io t d = Some (d', Ok tt) ∧
    CursorAdvanced (mkCursor (dl_ID d) (dt_Generation t) (dt_TS t) (dt_TaskID t)) ∈ dl_trace d' ∧
    dl_outgoingInflight d' = dl_outgoingInflight d ∧
    ∃ l, dl_trace d' = dl_trace d ++ l ∧ ∀ p, Sent p ∉ l.
Proof.
  intros Hp Ha. rewrite (skipped_advances _ _ _ Hp).
  unfold advanceClientDeliveryCursor. rewrite Ha. cbn [negb]. eexists _. split; [done|].
  clear Hp. open_downlink d. unfold completeSharedDeliveryTask. cbn in *. destruct (_ || _); cbn; split_and!; try done.
  - apply elem_of_app. right. by left.
  - eexists. split; [done|]. intros p Hs. list_cases Hs.
  - rewrite !elem_of_app. left. right. by left.
  - eexists. rewrite <-app_assoc. split; [done|]. intros p Hs. list_cases Hs.
Qed.

(** An undecodable payload stalls the queue: the task is neither sent nor skipped,
    and none of the tasks behind it is reached, however often the batch is tried. *)
Theorem undecodable_payload_stalls io t rest d :
  io_payload io = LoadUndecodable →
  deliverClientDeliveryTasks ((io, t) :: rest) d = Some d ∧
  (dl_done d = false → canSendMoreDownlink d = true → ∃ err, deliverSingleClientDeliveryTask io t d = Some (d, Err err)).
Proof.
  intros Hp. cbn [deliverClientDeliveryTasks]. unfold deliverSingleClientDeliveryTask, loadClientDeliveryMessage.
  rewrite Hp. split; [by destruct (dl_done d), (canSendMoreDownlink d)|eauto].
Qed.

Lemma undecodable_payload_stalls_witness :
  deliverClientDeliveryTasks ((example_io LoadUndecodable 1, example_task 3 "t1" "m1" 1) :: example_batch)
    (connected "c" 0 2 (0, uuid_Nil)) = Some (connected "c" 0 2 (0, uuid_Nil)).
Proof. apply (undecodable_payload_stalls (example_io LoadUndecodable 1)). reflexivity. Defined.

(** The queue of the next two connections: a QoS 1 and a QoS 2 message, both in flight
    when the client goes away. *)
Definition example_queue : list (DeliveryIO * DeliveryTask) :=
  [(example_io (LoadOk (example_message "a" 0)) 50000, example_task 5000 "t1" "m1" 1);
   (example_io (LoadOk (example_message "b" 0)) 60000, example_task 6000 "t2" "m2" 2)].

Definition example_before : Downlink :=
  default (connected "" 0 1 (0, "")) (deliverClientDeliveryTasks example_queue (connected "c" 0 9 (0, uuid_Nil))).

(** The reconnection: restore what was saved, then start the runner over a store that
    still holds both tasks. *)
Definition example_after : option Downlink :=
  let s := dl_outgoingInflight example_before in
  let io := mkRestoreIO (Some "m2") "new"
    (mkRetransmitIO (Ok (snd <$> example_queue)) (LoadOk (example_message "b" 0)) WSent 90000) in
  let restored := foldl (λ d m, if isRestorableOutgoingUnfinished m then restoreOneOutgoingInflight io m d else d)
    (connected "c" 100 9 (0, uuid_Nil)) (collectOutgoingUnfinishedMessages 70 s) in
  let replay := restoreQoS1ReplayCursorFromSession (Some "t1") (Ok None) (collectOutgoingReplayCursor s) in
  startRunner (Ok None) replay
    (λ pos, Ok (filter (λ it, pos.1 < dt_TS it.2) example_queue)) restored.

Definition published (d : Downlink) : list (string * Z * Z * bool) :=
  omap (λ x, match x with
             | Sent (PPublish p) => Some (pub_Topic p, pub_QoS p, pub_PacketID p, pub_Duplicate p)
             | _ => None
             end) (dl_trace d).

(** A QoS 2 message in flight together with an earlier QoS 1 message is published
    twice after a reconnect: once restored under its identifier, and once more, as a
    new message under another identifier, when the queue is read again from the
    replay cursor. *)
Theorem replay_republishes_qos2 :
  published example_before = [("a", 1, 1, false); ("b", 2, 2, false)] ∧
  published <$> example_after = Some [("b", 2, 2, true); ("a", 1, 101, false); ("b", 2, 102, false)].
Proof. split; vm_compute; reflexivity. Qed.
