(* ===== verification/DeliveryStore.v ===== *)
(** * The delivery queue store ([src/pkg/storage/delivery/metadata/badgerstore])

    Each client has a queue of delivery tasks and a cursor in an ordered key-value
    store: tasks under [dq:t:<client>\x00<ts><task id>], so that the key order is the
    order of the queue, and the cursor under [dq:c:<client>]; the tasks and cursors of
    share groups likewise under [sq:t:] and [sq:c:].  The state machine applies JSON
    encoded updates, each in one transaction of the store, and answers queries.

    The key-value store is dgraph-io/badger, an interface here ([KV], laws in
    [KVLaws]), as are the UUID package ([UUIDs]) and the JSON encoding of the structs
    below ([Json]); each has an instance in [DeliveryStoreProofs].  A UUID value is
    written as its canonical text.  A transaction that does not commit changes
    nothing, and how it ends is an argument of the update. *)

From stdpp Require Import sorting.
From S2P Require Import Prelude GoStrings WalEngine Inflight Downlink.

(** ** Interfaces of the outside *)

(** A transaction of badger: point reads and writes, and iteration in key order from
    the first key that is not smaller than the one sought. *)
Class KV (DB : Type) := {
  kv_get : DB → string → option string;
  kv_set : string → string → DB → DB;
  kv_delete : string → DB → DB;
  kv_seek : DB → string → list (string * string) }.

Class KVLaws (DB : Type) `{!KV DB} : Prop := {
  kv_get_set k v (db : DB) k' : kv_get (kv_set k v db) k' = if decide (k = k') then Some v else kv_get db k';
  kv_get_delete k (db : DB) k' : kv_get (kv_delete k db) k' = if decide (k = k') then None else kv_get db k';
  kv_seek_elem (db : DB) s k v : (k, v) ∈ kv_seek db s ↔ kv_get db k = Some v ∧ string_ltb k s = false;
  kv_seek_sorted (db : DB) s : StronglySorted (λ x y, string_ltb x.1 y.1 = true) (kv_seek db s) }.

(** [uuid.Parse], the 16 bytes of a UUID and [uuid.FromBytes]. *)
Class UUIDs := {
  uuid_Parse : string → option string;
  uuid_bytes : string → string;
  uuid_FromBytes : string → string }.

Class UUIDLaws `{!UUIDs} : Prop := {
  uuid_Parse_String s u : uuid_Parse s = Some u → uuid_Parse u = Some u;
  uuid_bytes_length u : uuid_Parse u = Some u → String.length (uuid_bytes u) = 16%nat;
  uuid_FromBytes_bytes u : uuid_Parse u = Some u → uuid_FromBytes (uuid_bytes u) = u;
  uuid_order u v : uuid_Parse u = Some u → uuid_Parse v = Some v →
    string_ltb (uuid_bytes u) (uuid_bytes v) = string_ltb u v;
  uuid_Parse_Nil : uuid_Parse uuid_Nil = Some uuid_Nil;
  uuid_Parse_empty : uuid_Parse "" = None }.

(** [json.Marshal] and [json.Unmarshal] for one struct type: objects, read back as
    they were written.  ([encoding/json] would replace bytes that are not UTF-8; the strings
    stored here are UUIDs, lists of numbers and MQTT strings, which the packet decoder accepts
    only as UTF-8.) *)
Class Json (A : Type) := {
  json_Marshal : A → string;
  json_Unmarshal : string → option A;
  json_roundtrip a : json_Unmarshal (json_Marshal a) = Some a;
  json_object a : ∃ r, json_Marshal a = String "{" r }.

(** ** Keys ([keys.go]) *)

Definition prefixTask : string := "dq:t:".
Definition prefixCursor : string := "dq:c:".
Definition prefixShareTask : string := "sq:t:".
Definition prefixShareCursor : string := "sq:c:".
Definition nul : string := String "000" "".

Definition taskKeyPrefix (clientID : string) : string := prefixTask +:+ clientID +:+ nul.

(** [binary.BigEndian.PutUint64(ts[:], uint64(tsUnixNano))]. *)
Definition tsBytes (tsUnixNano : Z) : string := go_string (bigEndian 8 (wrap 64 tsUnixNano)).
Arguments tsBytes : simpl never.

Section keys.
Context `{!UUIDs}.

Definition taskKey (clientID : string) (tsUnixNano : Z) (taskID : string) : string :=
  taskKeyPrefix clientID +:+ tsBytes tsUnixNano +:+ uuid_bytes taskID.

Definition cursorKey (clientID : string) : string := prefixCursor +:+ clientID.

Definition shareTaskKeyPrefix (shareGroup : string) : string := prefixShareTask +:+ shareGroup +:+ nul.

Definition shareTaskKey (shareGroup : string) (tsUnixNano : Z) (taskID : string) : string :=
  shareTaskKeyPrefix shareGroup +:+ tsBytes tsUnixNano +:+ uuid_bytes taskID.

Definition shareCursorKey (shareGroup : string) : string := prefixShareCursor +:+ shareGroup.

(** [int64(binary.BigEndian.Uint64(b))]. *)
Definition int64OfBytes (b : string) : Z := wrap_i64 (bigEndianValue (go_bytes b)).

(** [parseTaskKey] and [parseShareTaskKey], which are the same function. *)
Definition parseTaskKey (key expectPrefix : string) : option (Z * string) :=
  if negb (has_prefix key expectPrefix) then None
  else
    let rest := drop_string (String.length expectPrefix) key in
    if bool_decide (String.length rest < 24)%nat then None
    else Some (int64OfBytes (String.substring 0 8 rest), uuid_FromBytes (String.substring 8 16 rest)).

Definition parseClientIDFromTaskKey (key : string) : option string :=
  if negb (has_prefix key prefixTask) then None
  else match cut_byte "000" (drop_string (String.length prefixTask) key) with
       | Some (clientID, _) => if bool_decide (clientID = "") then None else Some clientID
       | None => None
       end.
End keys.

(** ** Stored values and requests ([state_machine.go], [codec.go]) *)

Record taskValue := mkTaskValue {
  tv_MessageID : string;
  tv_DeliveryQoS : Z;
  tv_SubscriptionIDs : list Z;
  tv_NoLocal : bool;
  tv_RetainAsPublished : bool;
  tv_ShareGroup : string;
  tv_SharedTaskID : string }.

Record cursorValue := mkCursorValue {
  cv_UpdatedTSUnixNano : Z;
  cv_ClientID : string;
  cv_LastTSUnixNano : Z;
  cv_LastTaskID : string }.

(** [TaskStatus]: the JSON strings. *)
Definition TaskStatusPending : string := "pending".
Definition TaskStatusProcessing : string := "processing".
Definition TaskStatusCompleted : string := "completed".
Definition TaskStatusRolledBack : string := "rolled_back".

Record shareTaskValue := mkShareTaskValue {
  stv_ShareGroup : string;
  stv_TopicFilter : string;
  stv_MessageID : string;
  stv_DeliveryQoS : Z;
  stv_PublishQoS : Z;
  stv_PublisherClient : string;
  stv_SubscriptionIDs : string;
  stv_WinnerNoLocal : bool;
  stv_WinnerRAP : bool;
  stv_Status : string;
  stv_ProcessedByNode : Z;
  stv_ProcessedAtNano : Z;
  stv_RollbackReason : string }.

Record shareCursorValue := mkShareCursorValue {
  scv_ShareGroup : string;
  scv_LastProcessedTSNano : Z;
  scv_LastProcessedTaskID : string;
  scv_LeaderNodeID : Z;
  scv_LastRenewalNano : Z }.

Record updateRequest := mkUpdateRequest {
  ur_Op : string;
  ur_Data : string }.

Record appendTaskRequest := mkAppendTask {
  at_TSUnixNano : Z;
  at_TaskID : string;
  at_ClientID : string;
  at_MessageID : string;
  at_DeliveryQoS : Z;
  at_SubscriptionIDs : list Z;
  at_NoLocal : bool;
  at_RetainAsPublished : bool;
  at_ShareGroup : string;
  at_SharedTaskID : string }.

Record advanceCursorRequest := mkAdvanceCursor {
  ac_UpdatedTSUnixNano : Z;
  ac_ClientID : string;
  ac_LastTSUnixNano : Z;
  ac_LastTaskID : string }.

Record deleteClientStateRequest := mkDeleteClientState { dcs_ClientID : string }.

Record deleteSharedTasksRequest := mkDeleteSharedTasks {
  dst_ClientID : string;
  dst_ShareGroup : string }.

Record appendShareTaskRequest := mkAppendShareTask {
  ast_TSUnixNano : Z;
  ast_TaskID : string;
  ast_ShareGroup : string;
  ast_TopicFilter : string;
  ast_MessageID : string;
  ast_DeliveryQoS : Z;
  ast_PublishQoS : Z;
  ast_PublisherClient : string;
  ast_SubscriptionIDs : string;
  ast_WinnerNoLocal : bool;
  ast_WinnerRAP : bool;
  ast_Status : string;
  ast_ProcessedByNode : Z;
  ast_ProcessedAtNano : Z;
  ast_RollbackReason : string }.

Record updateShareTaskStatusRequest := mkUpdateShareTaskStatus {
  us_TaskID : string;
  us_ShareGroup : string;
  us_OldStatus : string;
  us_NewStatus : string;
  us_NowNano : Z }.

Record appendShareGroupCursorRequest := mkAppendShareGroupCursor {
  asc_ShareGroup : string;
  asc_LastProcessedTSNano : Z;
  asc_LastProcessedTaskID : string;
  asc_LeaderNodeID : Z;
  asc_LastRenewalNano : Z }.

(** All encodings the store uses. *)
Class Codecs := {
  #[global] json_taskValue :: Json taskValue;
  #[global] json_cursorValue :: Json cursorValue;
  #[global] json_shareTaskValue :: Json shareTaskValue;
  #[global] json_shareCursorValue :: Json shareCursorValue;
  #[global] json_updateRequest :: Json updateRequest;
  #[global] json_appendTask :: Json appendTaskRequest;
  #[global] json_advanceCursor :: Json advanceCursorRequest;
  #[global] json_deleteClientState :: Json deleteClientStateRequest;
  #[global] json_deleteSharedTasks :: Json deleteSharedTasksRequest;
  #[global] json_appendShareTask :: Json appendShareTaskRequest;
  #[global] json_updateShareTaskStatus :: Json updateShareTaskStatusRequest;
  #[global] json_appendShareGroupCursor :: Json appendShareGroupCursorRequest }.

(** The operation names. *)
Definition opEnsureSchema : string := "ensure_schema".
Definition opAppendTask : string := "append_task".
Definition opAdvanceCursor : string := "append_cursor".
Definition opDeleteClientState : string := "delete_client_state".
Definition opDeleteSharedTasks : string := "delete_shared_tasks".
Definition opAppendShareTask : string := "append_share_task".
Definition opUpdateShareTaskStatus : string := "update_share_task_status".
Definition opAppendShareGroupCursor : string := "append_share_group_cursor".
Definition opRollbackShareGroupTask : string := "rollback_share_group_task".

(** [DeliveryCursor] as it is read back, with the time of its last update. *)
Record StoredCursor := mkStoredCursor {
  sc_UpdatedTS : Z;
  sc_Cursor : DeliveryCursor }.

Record ShareGroupTask := mkShareGroupTask {
  sg_TaskID : string;
  sg_ShareGroup : string;
  sg_TopicFilter : string;
  sg_MessageID : string;
  sg_DeliveryQoS : Z;
  sg_PublishQoS : Z;
  sg_PublisherClient : string;
  sg_SubscriptionIDs : string;
  sg_WinnerNoLocal : bool;
  sg_WinnerRAP : bool;
  sg_Status : string;
  sg_ProcessedByNode : Z;
  sg_ProcessedAt : Z;
  sg_RollbackReason : string;
  sg_Timestamp : Z }.

Record ShareGroupCursor := mkShareGroupCursor {
  sgc_ShareGroup : string;
  sgc_LastProcessedTS : Z;
  sgc_LastProcessedTaskID : string;
  sgc_LeaderNodeID : Z;
  sgc_LastRenewal : Z }.

(** ** Transactions *)

(** How [db.Update] ends: committed, with a conflict that may be retried, or with
    another error. *)
Inductive TxnOutcome := TxnCommit | TxnConflict | TxnFailed.

(** [statemachine.Result] and the error. *)
Definition Applied : Type := Z * result string unit.

Section store.
Context {DB : Type} `{!KV DB, !UUIDs, !Codecs}.

(** [db.Update(f)]: an error of [f] or of the commit discards the writes. *)
Definition db_Update {A} (o : TxnOutcome) (f : DB → result string (DB * A)) (db : DB) : DB * result string A :=
  match f db with
  | Err e => (db, Err e)
  | Ok (db', a) =>
      match o with
      | TxnCommit => (db', Ok a)
      | TxnConflict => (db, Err "conflict")
      | TxnFailed => (db, Err "transaction failed")
      end
  end.

(** [withBadgerUpdateRetry]: up to three more attempts while the error is a
    conflict.  [outcomes] says how the attempts end, beyond its end as [TxnCommit]. *)
Fixpoint withBadgerUpdateRetry {A} (backoff : nat) (outcomes : list TxnOutcome)
    (f : DB → result string (DB * A)) (db : DB) : DB * result string A :=
  let o := default TxnCommit (head outcomes) in
  let r := db_Update o f db in
  match o, f db, backoff with
  | TxnConflict, Ok _, S n => withBadgerUpdateRetry n (tail outcomes) f db
  | _, _, _ => r
  end.

(** [it.Seek(prefix); it.ValidForPrefix(prefix); it.Next()]. *)
Fixpoint take_prefix (p : string) (l : list (string * string)) : list (string * string) :=
  match l with
  | [] => []
  | x :: l' => if has_prefix x.1 p then x :: take_prefix p l' else []
  end.
Definition iterate (db : DB) (seek prefix : string) : list (string * string) :=
  take_prefix prefix (kv_seek db seek).

Definition deleteKeys (l : list (string * string)) (db : DB) : DB := foldl (λ db x, kv_delete x.1 db) db l.

(** ** Updates of a client's queue ([state_machine_update.go]) *)

(** The loop of [deliveryTaskExistsInTxn]. *)
Fixpoint anyWithMessage (messageID : string) (l : list (string * string)) : result string bool :=
  match l with
  | [] => Ok false
  | x :: l' =>
      match json_Unmarshal x.2 with
      | None => Err "json"
      | Some tv => if bool_decide (tv_MessageID tv = messageID) then Ok true else anyWithMessage messageID l'
      end
  end.
Definition deliveryTaskExistsInTxn (db : DB) (clientID messageID : string) : result string bool :=
  if bool_decide (clientID = "") || bool_decide (messageID = "") then Ok false
  else anyWithMessage messageID (iterate db (taskKeyPrefix clientID) (taskKeyPrefix clientID)).

(** [Result{Value: 1}] is answered once the task was to be inserted, also when the
    transaction then fails. *)
Definition updateAppendTask (outcomes : list TxnOutcome) (data : string) (db : DB) : DB * Applied :=
  match json_Unmarshal data with
  | None => (db, (0, Err "json"))
  | Some r =>
      if bool_decide (at_ClientID r = "") then (db, (0, Err "client_id is empty"))
      else match uuid_Parse (at_TaskID r) with
      | None => (db, (0, Err "invalid UUID"))
      | Some taskUUID =>
          let val := json_Marshal (mkTaskValue (at_MessageID r) (at_DeliveryQoS r) (at_SubscriptionIDs r)
                       (at_NoLocal r) (at_RetainAsPublished r) (at_ShareGroup r) (at_SharedTaskID r)) in
          let key := taskKey (at_ClientID r) (at_TSUnixNano r) taskUUID in
          let exists_ := deliveryTaskExistsInTxn db (at_ClientID r) (at_MessageID r) in
          let '(db', res) := withBadgerUpdateRetry 3 outcomes (λ db,
            deliveryTaskExistsInTxn db (at_ClientID r) (at_MessageID r) ≫= λ exists_ : bool,
            Ok (if exists_ then db else kv_set key val db, tt)) db in
          (db', (match exists_ with Ok false => 1 | _ => 0 end, res))
      end
  end.

(** [deliveryCursorFromValue]: the generation is not stored. *)
Definition deliveryCursorFromValue (val : string) : result string StoredCursor :=
  match json_Unmarshal val with
  | None => Err "json"
  | Some cv =>
      match uuid_Parse (cv_LastTaskID cv) with
      | None => Err "invalid UUID"
      | Some lastTask => Ok (mkStoredCursor (cv_UpdatedTSUnixNano cv)
                               (mkCursor (cv_ClientID cv) 0 (cv_LastTSUnixNano cv) lastTask))
      end
  end.

Definition lookupDeliveryCursorInTxn (db : DB) (clientID : string) : result string (option StoredCursor) :=
  match kv_get db (cursorKey clientID) with
  | None => Ok None
  | Some val => Some <$> deliveryCursorFromValue val
  end.

Definition deliveryPositionAfter (tsUnixNano : Z) (taskID : string) (current : option StoredCursor) : bool :=
  match current with
  | None => true
  | Some c =>
      if negb (tsUnixNano =? dc_LastTS (sc_Cursor c)) then dc_LastTS (sc_Cursor c) <? tsUnixNano
      else string_ltb (uuid_bytes (dc_LastTaskID (sc_Cursor c))) (uuid_bytes taskID)
  end.

(** The keys up to [endKey]: the loop stops at the first larger one. *)
Fixpoint keysThrough (endKey : string) (l : list (string * string)) : list (string * string) :=
  match l with
  | [] => []
  | x :: l' => if string_ltb endKey x.1 then [] else x :: keysThrough endKey l'
  end.
Definition deleteDeliveryTasksThroughCursor (clientID : string) (lastTSUnixNano : Z) (lastTaskID : string)
    (db : DB) : result string DB :=
  match uuid_Parse lastTaskID with
  | None => Err "invalid UUID"
  | Some taskUUID =>
      Ok (deleteKeys (keysThrough (taskKey clientID lastTSUnixNano taskUUID)
                        (iterate db (taskKeyPrefix clientID) (taskKeyPrefix clientID))) db)
  end.

Definition advanceCursorTxn (r : advanceCursorRequest) (val : string) (db : DB) : result string (DB * bool) :=
  lookupDeliveryCursorInTxn db (ac_ClientID r) ≫= λ current,
  match uuid_Parse (ac_LastTaskID r) with
  | None => Err "invalid UUID"
  | Some nextTaskID =>
      if negb (deliveryPositionAfter (ac_LastTSUnixNano r) nextTaskID current) then Ok (db, false)
      else
        deleteDeliveryTasksThroughCursor (ac_ClientID r) (ac_LastTSUnixNano r) (ac_LastTaskID r)
          (kv_set (cursorKey (ac_ClientID r)) val db) ≫= λ db', Ok (db', true)
  end.

Definition updateAdvanceCursor (o : TxnOutcome) (data : string) (db : DB) : DB * Applied :=
  match json_Unmarshal data with
  | None => (db, (0, Err "json"))
  | Some r =>
      if bool_decide (ac_ClientID r = "") then (db, (0, Err "client_id is empty"))
      else if bool_decide (ac_LastTaskID r = "") then (db, (0, Err "last_task_id is empty"))
      else
        let val := json_Marshal (mkCursorValue (ac_UpdatedTSUnixNano r) (ac_ClientID r)
                                   (ac_LastTSUnixNano r) (ac_LastTaskID r)) in
        let '(db', res) := db_Update o (advanceCursorTxn r val) db in
        (db', (match advanceCursorTxn r val db with Ok (_, true) => 1 | _ => 0 end, (λ _ : bool, tt) <$> res))
  end.

Definition deleteClientDeliveryState (clientID : string) (db : DB) : DB :=
  kv_delete (cursorKey clientID)
    (deleteKeys (iterate db (taskKeyPrefix clientID) (taskKeyPrefix clientID)) db).

Definition updateDeleteClientState (o : TxnOutcome) (data : string) (db : DB) : DB * Applied :=
  match json_Unmarshal data with
  | None => (db, (0, Err "json"))
  | Some r =>
      if bool_decide (dcs_ClientID r = "") then (db, (0, Err "client_id is empty"))
      else let '(db', res) := db_Update o (λ db, Ok (deleteClientDeliveryState (dcs_ClientID r) db, tt)) db in
           (db', (0, res))
  end.

(** The tasks [deleteClientSharedDeliveryTasks] selects. *)
Fixpoint sharedOnes (shareGroup : string) (l : list (string * string)) : result string (list (string * string)) :=
  match l with
  | [] => Ok []
  | x :: l' =>
      match json_Unmarshal x.2 with
      | None => Err "json"
      | Some tv =>
          rest ← sharedOnes shareGroup l';
          Ok (if bool_decide (tv_ShareGroup tv = shareGroup) && negb (bool_decide (tv_SharedTaskID tv = ""))
              then x :: rest else rest)
      end
  end.
Definition deleteClientSharedDeliveryTasks (clientID shareGroup : string) (db : DB) : result string DB :=
  (λ l, deleteKeys l db) <$> sharedOnes shareGroup (iterate db (taskKeyPrefix clientID) (taskKeyPrefix clientID)).

Definition updateDeleteSharedTasks (o : TxnOutcome) (data : string) (db : DB) : DB * Applied :=
  match json_Unmarshal data with
  | None => (db, (0, Err "json"))
  | Some r =>
      if bool_decide (dst_ClientID r = "") then (db, (0, Err "client_id is empty"))
      else if bool_decide (dst_ShareGroup r = "") then (db, (0, Err "share_group is empty"))
      else let '(db', res) := db_Update o (λ db,
                 (λ db', (db', tt)) <$> deleteClientSharedDeliveryTasks (dst_ClientID r) (dst_ShareGroup r) db) db in
           (db', (0, res))
  end.

(** ** Share-group tasks ([state_machine_update.go], [state_machine_shared.go]) *)

Definition shareTaskValueOf (r : appendShareTaskRequest) (status : string) : shareTaskValue :=
  mkShareTaskValue (ast_ShareGroup r) (ast_TopicFilter r) (ast_MessageID r) (ast_DeliveryQoS r) (ast_PublishQoS r)
    (ast_PublisherClient r) (ast_SubscriptionIDs r) (ast_WinnerNoLocal r) (ast_WinnerRAP r) status
    (ast_ProcessedByNode r) (ast_ProcessedAtNano r) (ast_RollbackReason r).

Definition updateAppendShareTask (o : TxnOutcome) (data : string) (db : DB) : DB * Applied :=
  match json_Unmarshal data with
  | None => (db, (0, Err "json"))
  | Some r =>
      if bool_decide (ast_ShareGroup r = "") then (db, (0, Err "share_group is empty"))
      else match uuid_Parse (ast_TaskID r) with
      | None => (db, (0, Err "invalid UUID"))
      | Some taskUUID =>
          let status := if bool_decide (ast_Status r = "") then TaskStatusPending else ast_Status r in
          let '(db', res) := db_Update o (λ db,
            Ok (kv_set (shareTaskKey (ast_ShareGroup r) (ast_TSUnixNano r) taskUUID)
                  (json_Marshal (shareTaskValueOf r status)) db, tt)) db in
          (db', (0, res))
      end
  end.

(** [findShareTask]: the first key of the group with the task's identifier. *)
Fixpoint findShareTaskIn (groupPrefix taskID : string) (l : list (string * string))
    : result string (option (string * Z * shareTaskValue)) :=
  match l with
  | [] => Ok None
  | x :: l' =>
      match parseTaskKey x.1 groupPrefix with
      | Some (ts, u) =>
          if bool_decide (u = taskID) then
            match json_Unmarshal x.2 with
            | None => Err "json"
            | Some tv => Ok (Some (x.1, ts, tv))
            end
          else findShareTaskIn groupPrefix taskID l'
      | None => findShareTaskIn groupPrefix taskID l'
      end
  end.
Definition findShareTask (db : DB) (shareGroup taskID : string) : result string (option (string * Z * shareTaskValue)) :=
  findShareTaskIn (shareTaskKeyPrefix shareGroup) taskID
    (iterate db (shareTaskKeyPrefix shareGroup) (shareTaskKeyPrefix shareGroup)).

Definition with_status (status : string) (processedByNode processedAtNano : Z) (tv : shareTaskValue) : shareTaskValue :=
  let 'mkShareTaskValue a b c d e f g h i _ _ _ m := tv in
  mkShareTaskValue a b c d e f g h i status processedByNode processedAtNano m.

Definition setShareTaskStatus (oldKey shareGroup taskID : string) (tsUnixNano : Z) (tv : shareTaskValue)
    (newStatus : string) (nowNano : Z) (db : DB) : DB :=
  let '(newTS, tv) :=
    if bool_decide (newStatus = TaskStatusPending) then (nowNano, with_status newStatus 0 0 tv)
    else if bool_decide (newStatus = TaskStatusProcessing) || bool_decide (newStatus = TaskStatusCompleted)
            || bool_decide (newStatus = TaskStatusRolledBack)
    then (tsUnixNano, with_status newStatus (stv_ProcessedByNode tv) nowNano tv)
    else (tsUnixNano, with_status newStatus (stv_ProcessedByNode tv) (stv_ProcessedAtNano tv) tv) in
  let newKey := shareTaskKey shareGroup newTS taskID in
  kv_set newKey (json_Marshal tv) (if bool_decide (oldKey = newKey) then db else kv_delete oldKey db).

(** [updateShareTaskStatus]; [clock] is read when the request carries no time. *)
Definition shareTaskStatusTxn (shareGroup taskID oldStatus newStatus : string) (nowNano clock : Z) (db : DB)
    : result string (DB * bool) :=
  let nowNano := if nowNano <=? 0 then clock else nowNano in
  found ← findShareTask db shareGroup taskID;
  match found with
  | None => Ok (db, false)
  | Some (key, tsUnixNano, tv) =>
      if negb (bool_decide (stv_Status tv = oldStatus)) then Ok (db, false)
      else Ok (setShareTaskStatus key shareGroup taskID tsUnixNano tv newStatus nowNano db, true)
  end.

Definition updateShareTaskStatus (o : TxnOutcome) (clock : Z) (data : string) (db : DB) : DB * Applied :=
  match json_Unmarshal data with
  | None => (db, (0, Err "json"))
  | Some r =>
      if bool_decide (us_ShareGroup r = "") then (db, (0, Err "share_group is empty"))
      else match uuid_Parse (us_TaskID r) with
      | None => (db, (0, Err "invalid UUID"))
      | Some taskUUID =>
          let txn := shareTaskStatusTxn (us_ShareGroup r) taskUUID (us_OldStatus r) (us_NewStatus r) (us_NowNano r) clock in
          let '(db', res) := db_Update o txn db in
          (db', (match txn db with Ok (_, true) => 1 | _ => 0 end, (λ _ : bool, tt) <$> res))
      end
  end.

Definition rollbackShareTask (clock : Z) (req : appendShareTaskRequest) (db : DB) : result string DB :=
  match uuid_Parse (ast_TaskID req) with
  | None => Err "invalid UUID"
  | Some taskID =>
      let nowNano := if ast_TSUnixNano req <=? 0 then clock else ast_TSUnixNano req in
      found ← findShareTask db (ast_ShareGroup req) taskID;
      match found with
      | Some (key, tsUnixNano, tv) =>
          if bool_decide (stv_Status tv = TaskStatusCompleted) then Ok db
          else Ok (setShareTaskStatus key (ast_ShareGroup req) taskID tsUnixNano tv TaskStatusPending nowNano db)
      | None =>
          let tv := with_status TaskStatusPending 0 0 (shareTaskValueOf req TaskStatusPending) in
          Ok (kv_set (shareTaskKey (ast_ShareGroup req) nowNano taskID) (json_Marshal tv) db)
      end
  end.

Definition updateRollbackShareGroupTask (o : TxnOutcome) (clock : Z) (data : string) (db : DB) : DB * Applied :=
  match json_Unmarshal data with
  | None => (db, (0, Err "json"))
  | Some r =>
      if bool_decide (ast_ShareGroup r = "") then (db, (0, Err "share_group is empty"))
      else let '(db', res) := db_Update o (λ db, (λ db', (db', tt)) <$> rollbackShareTask clock r db) db in
           (db', (0, res))
  end.

Definition updateAppendShareGroupCursor (o : TxnOutcome) (data : string) (db : DB) : DB * Applied :=
  match json_Unmarshal data with
  | None => (db, (0, Err "json"))
  | Some r =>
      if bool_decide (asc_ShareGroup r = "") then (db, (0, Err "share_group is empty"))
      else
        let val := json_Marshal (mkShareCursorValue (asc_ShareGroup r) (asc_LastProcessedTSNano r)
                     (asc_LastProcessedTaskID r) (asc_LeaderNodeID r) (asc_LastRenewalNano r)) in
        let '(db', res) := db_Update o (λ db, Ok (kv_set (shareCursorKey (asc_ShareGroup r)) val db, tt)) db in
        (db', (0, res))
  end.

(** ** The state machine ([state_machine.go]) *)

Definition healthCheckMessage : string := "health_check".
Definition ignoreDeliveryStateUpdate (b : string) : bool :=
  bool_decide (b = "") || bool_decide (b = healthCheckMessage).

Definition unmarshalUpdate (b : string) : result string updateRequest :=
  if bool_decide (b = "") then Err "empty update bytes"
  else match json_Unmarshal b with
       | None => Err "json"
       | Some req => if bool_decide (ur_Op req = "") then Err "missing op" else Ok req
       end.

Definition marshalUpdate {A} `{!Json A} (op : string) (v : A) : string :=
  json_Marshal (mkUpdateRequest op (json_Marshal v)).

(** What the outside decides about one update: how its transactions end and the time
    read while it is applied. *)
Record UpdateIO := mkUpdateIO {
  uo_outcomes : list TxnOutcome;
  uo_clock : Z }.
Definition uo_outcome (io : UpdateIO) : TxnOutcome := default TxnCommit (head (uo_outcomes io)).

Definition applyUpdate (io : UpdateIO) (req : updateRequest) (db : DB) : DB * Applied :=
  let op := ur_Op req in
  if bool_decide (op = opEnsureSchema) then (db, (0, Ok tt))
  else if bool_decide (op = opAppendTask) then updateAppendTask (uo_outcomes io) (ur_Data req) db
  else if bool_decide (op = opAdvanceCursor) then updateAdvanceCursor (uo_outcome io) (ur_Data req) db
  else if bool_decide (op = opDeleteClientState) then updateDeleteClientState (uo_outcome io) (ur_Data req) db
  else if bool_decide (op = opDeleteSharedTasks) then updateDeleteSharedTasks (uo_outcome io) (ur_Data req) db
  else if bool_decide (op = opAppendShareTask) then updateAppendShareTask (uo_outcome io) (ur_Data req) db
  else if bool_decide (op = opUpdateShareTaskStatus)
    then updateShareTaskStatus (uo_outcome io) (uo_clock io) (ur_Data req) db
  else if bool_decide (op = opRollbackShareGroupTask)
    then updateRollbackShareGroupTask (uo_outcome io) (uo_clock io) (ur_Data req) db
  else if bool_decide (op = opAppendShareGroupCursor)
    then updateAppendShareGroupCursor (uo_outcome io) (ur_Data req) db
  else (db, (0, Err "unknown op")).

Definition sm_Update (io : UpdateIO) (b : string) (db : DB) : DB * Applied :=
  if ignoreDeliveryStateUpdate b then (db, (0, Ok tt))
  else match unmarshalUpdate b with
       | Err e => (db, (0, Err e))
       | Ok req => applyUpdate io req db
       end.

(** ** Queries ([state_machine_lookup.go], [state_machine_shared.go]) *)

Definition lookupDeliveryCursor (db : DB) (clientID : string) : result string (option StoredCursor) :=
  if bool_decide (clientID = "") then Ok None else lookupDeliveryCursorInTxn db clientID.

Definition deliveryTaskFromValue (clientID : string) (tsUnixNano : Z) (taskUUID : string) (tv : taskValue)
    : option DeliveryTask :=
  match uuid_Parse (tv_MessageID tv) with
  | None => None
  | Some msgUUID =>
      let sharedTaskID :=
        if bool_decide (tv_SharedTaskID tv = "") then uuid_Nil
        else default uuid_Nil (uuid_Parse (tv_SharedTaskID tv)) in
      Some (mkTask tsUnixNano taskUUID clientID msgUUID 0 (tv_DeliveryQoS tv) (tv_SubscriptionIDs tv)
              (tv_NoLocal tv) (tv_RetainAsPublished tv) (tv_ShareGroup tv) sharedTaskID)
  end.

(** [deliveryTaskFromItem]: [Ok None] where the Go answer is not [ok]. *)
Definition deliveryTaskFromItem (clientID clientPrefix seekKey : string) (outLen : nat) (item : string * string)
    : result string (option DeliveryTask) :=
  if bool_decide (outLen = 0%nat) && bool_decide (item.1 = seekKey) then Ok None
  else match parseTaskKey item.1 clientPrefix with
       | None => Ok None
       | Some (tsUnixNano, taskUUID) =>
           match json_Unmarshal item.2 with
           | None => Err "json"
           | Some tv => Ok (deliveryTaskFromValue clientID tsUnixNano taskUUID tv)
           end
       end.

Definition deliveryTaskSeekKey (clientID : string) (lastTSUnixNano : Z) (lastTaskID clientPrefix : string) : string :=
  if bool_decide (lastTaskID = uuid_Nil) && (lastTSUnixNano <=? 0) then clientPrefix
  else taskKey clientID lastTSUnixNano lastTaskID.

(** The loop of [lookupDeliveryTasks]. *)
Fixpoint collectTasks (clientID clientPrefix seekKey : string) (limit : nat) (out : list DeliveryTask)
    (l : list (string * string)) : result string (list DeliveryTask) :=
  match l with
  | [] => Ok out
  | item :: l' =>
      if bool_decide (limit <= length out)%nat then Ok out
      else
        t ← deliveryTaskFromItem clientID clientPrefix seekKey (length out) item;
        collectTasks clientID clientPrefix seekKey limit (out ++ match t with Some t => [t] | None => [] end) l'
  end.

Definition lookupDeliveryTasks (db : DB) (clientID : string) (lastTSUnixNano : Z) (lastTaskID : string) (limit : Z)
    : result string (list DeliveryTask) :=
  if bool_decide (clientID = "") || (limit <=? 0) then Ok []
  else
    let clientPrefix := taskKeyPrefix clientID in
    let seekKey := deliveryTaskSeekKey clientID lastTSUnixNano lastTaskID clientPrefix in
    collectTasks clientID clientPrefix seekKey (Z.to_nat limit) [] (iterate db seekKey clientPrefix).

Definition lookupDeliveryBacklogSummary (db : DB) : Z * Z :=
  let l := iterate db prefixTask prefixTask in
  (Z.of_nat (length l), Z.of_nat (size (list_to_set (omap (λ x, parseClientIDFromTaskKey x.1) l) : gset string))).

Definition shareTaskFromValue (shareGroup : string) (tsUnixNano : Z) (taskID : string) (tv : shareTaskValue)
    : option ShareGroupTask :=
  match uuid_Parse (stv_MessageID tv) with
  | None => None
  | Some messageID =>
      Some (mkShareGroupTask taskID shareGroup (stv_TopicFilter tv) messageID (stv_DeliveryQoS tv) (stv_PublishQoS tv)
              (stv_PublisherClient tv) (stv_SubscriptionIDs tv) (stv_WinnerNoLocal tv) (stv_WinnerRAP tv)
              (stv_Status tv) (stv_ProcessedByNode tv) (stv_ProcessedAtNano tv) (stv_RollbackReason tv) tsUnixNano)
  end.

(** One item of the loops over a group's tasks that keep the tasks satisfying [keep]. *)
Definition shareTaskOfItem (shareGroup groupPrefix : string) (keep : shareTaskValue → bool) (item : string * string)
    : result string (option ShareGroupTask) :=
  match parseTaskKey item.1 groupPrefix with
  | None => Ok None
  | Some (tsUnixNano, taskUUID) =>
      match json_Unmarshal item.2 with
      | None => Err "json"
      | Some tv => Ok (if keep tv then shareTaskFromValue shareGroup tsUnixNano taskUUID tv else None)
      end
  end.

(** The loop of [readShareGroupTasks]. *)
Fixpoint collectPending (shareGroup groupPrefix seekKey : string) (limit : nat) (out : list ShareGroupTask)
    (l : list (string * string)) : result string (list ShareGroupTask) :=
  match l with
  | [] => Ok out
  | item :: l' =>
      if bool_decide (limit <= length out)%nat then Ok out
      else if bool_decide (length out = 0%nat) && bool_decide (item.1 = seekKey)
        then collectPending shareGroup groupPrefix seekKey limit out l'
      else
        t ← shareTaskOfItem shareGroup groupPrefix (λ tv, bool_decide (stv_Status tv = TaskStatusPending)) item;
        collectPending shareGroup groupPrefix seekKey limit (out ++ match t with Some t => [t] | None => [] end) l'
  end.

Definition readShareGroupTasks (db : DB) (shareGroup : string) (lastTSUnixNano : Z) (lastTaskID : string) (limit : Z)
    : result string (list ShareGroupTask) :=
  let groupPrefix := shareTaskKeyPrefix shareGroup in
  let seekKey := if bool_decide (lastTaskID = uuid_Nil) && (lastTSUnixNano <=? 0) then groupPrefix
                 else shareTaskKey shareGroup lastTSUnixNano lastTaskID in
  collectPending shareGroup groupPrefix seekKey (Z.to_nat limit) [] (iterate db seekKey groupPrefix).

(** The loops that read the whole group. *)
Fixpoint collectShare (shareGroup groupPrefix : string) (keep : shareTaskValue → bool) (l : list (string * string))
    : result string (list ShareGroupTask) :=
  match l with
  | [] => Ok []
  | item :: l' =>
      t ← shareTaskOfItem shareGroup groupPrefix keep item;
      rest ← collectShare shareGroup groupPrefix keep l';
      Ok (match t with Some t => t :: rest | None => rest end)
  end.

Definition queryProcessingShareTasksBefore (db : DB) (shareGroup : string) (beforeNano : Z)
    : result string (list ShareGroupTask) :=
  collectShare shareGroup (shareTaskKeyPrefix shareGroup)
    (λ tv, bool_decide (stv_Status tv = TaskStatusProcessing) && negb (beforeNano <? stv_ProcessedAtNano tv))
    (iterate db (shareTaskKeyPrefix shareGroup) (shareTaskKeyPrefix shareGroup)).

(** The loop of [queryShareTaskByMessageID] ends at the first task found. *)
Fixpoint firstShare (shareGroup groupPrefix : string) (keep : shareTaskValue → bool) (l : list (string * string))
    : result string (option ShareGroupTask) :=
  match l with
  | [] => Ok None
  | item :: l' =>
      t ← shareTaskOfItem shareGroup groupPrefix keep item;
      match t with Some t => Ok (Some t) | None => firstShare shareGroup groupPrefix keep l' end
  end.

Definition queryShareTaskByMessageID (db : DB) (shareGroup messageID : string) (statuses : list string)
    : result string (option ShareGroupTask) :=
  firstShare shareGroup (shareTaskKeyPrefix shareGroup)
    (λ tv, (bool_decide (statuses = []) || bool_decide (stv_Status tv ∈ statuses))
           && bool_decide (stv_MessageID tv = messageID))
    (iterate db (shareTaskKeyPrefix shareGroup) (shareTaskKeyPrefix shareGroup)).

Definition readShareGroupCursor (db : DB) (shareGroup : string) : result string (option ShareGroupCursor) :=
  match kv_get db (shareCursorKey shareGroup) with
  | None => Ok None
  | Some val =>
      match json_Unmarshal val with
      | None => Err "json"
      | Some cv =>
          lastTaskID ← (if bool_decide (scv_LastProcessedTaskID cv = "") then Ok uuid_Nil
                        else match uuid_Parse (scv_LastProcessedTaskID cv) with
                             | None => Err "invalid UUID" | Some u => Ok u end);
          Ok (Some (mkShareGroupCursor (scv_ShareGroup cv) (scv_LastProcessedTSNano cv) lastTaskID
                      (scv_LeaderNodeID cv) (scv_LastRenewalNano cv)))
      end
  end.

(** ** The local store ([local_store.go], [shared_store.go]) *)

(** The answer [result.Value == 1, err] of the methods that report an effect. *)
Definition reported (r : DB * Applied) : DB * (bool * result string unit) :=
  (r.1, (r.2.1 =? 1, r.2.2)).

Definition AppendDeliveryTask (io : UpdateIO) (task : DeliveryTask) (db : DB) : DB * (bool * result string unit) :=
  let sharedTaskID := if bool_decide (dt_SharedTaskID task = uuid_Nil) then "" else dt_SharedTaskID task in
  reported (sm_Update io (marshalUpdate opAppendTask
    (mkAppendTask (dt_TS task) (dt_TaskID task) (dt_ClientID task) (dt_MessageID task) (dt_DeliveryQoS task)
       (dt_SubscriptionIDs task) (dt_NoLocal task) (dt_RetainAsPublished task) (dt_ShareGroup task) sharedTaskID)) db).

Definition ReadDeliveryTasks (db : DB) (clientID : string) (lastTS : Z) (lastTaskID : string) (limit : Z)
    : result string (list DeliveryTask) := lookupDeliveryTasks db clientID lastTS lastTaskID limit.

Definition AdvanceDeliveryCursor (io : UpdateIO) (updatedTS : Z) (c : DeliveryCursor) (db : DB)
    : DB * (bool * result string unit) :=
  reported (sm_Update io (marshalUpdate opAdvanceCursor
    (mkAdvanceCursor updatedTS (dc_ClientID c) (dc_LastTS c) (dc_LastTaskID c))) db).

Definition ReadDeliveryCursor (db : DB) (clientID : string) : result string (option StoredCursor) :=
  lookupDeliveryCursor db clientID.

Definition ResetClientDeliveryState (io : UpdateIO) (clientID : string) (db : DB) : DB * result string unit :=
  if bool_decide (clientID = "") then (db, Err "clientID is empty")
  else let '(db', (_, res)) := sm_Update io (marshalUpdate opDeleteClientState (mkDeleteClientState clientID)) db in
       (db', res).

Definition DeleteClientSharedDeliveryTasks (io : UpdateIO) (clientID shareGroup : string) (db : DB)
    : DB * result string unit :=
  if bool_decide (clientID = "") then (db, Err "clientID is empty")
  else if bool_decide (shareGroup = "") then (db, Err "shareGroup is empty")
  else let '(db', (_, res)) :=
         sm_Update io (marshalUpdate opDeleteSharedTasks (mkDeleteSharedTasks clientID shareGroup)) db in
       (db', res).

(** The zero time of Go, whose [UnixNano] is not positive. *)
Definition zeroTime : Z := -6795364578871345152.
Definition sharedDeliveryReadBatchSize : Z := 200.

(** [checkDeliveryTaskExists]: pages of 200 tasks; [None] is fuel that ran out. *)
Fixpoint existsPaged (fuel : nat) (db : DB) (clientID messageID : string) (lastTS : Z) (lastTaskID : string)
    : option (result string bool) :=
  match fuel with
  | O => None
  | S fuel =>
      match ReadDeliveryTasks db clientID lastTS lastTaskID sharedDeliveryReadBatchSize with
      | Err e => Some (Err e)
      | Ok tasks =>
          if bool_decide (Exists (λ t, dt_MessageID t = messageID) tasks) then Some (Ok true)
          else match last tasks with
               | None => Some (Ok false)
               | Some t =>
                   if Z.of_nat (length tasks) <? sharedDeliveryReadBatchSize then Some (Ok false)
                   else existsPaged fuel db clientID messageID (dt_TS t) (dt_TaskID t)
               end
      end
  end.

Definition appendShareTaskRequestFromTask (ts : option Z) (now : Z) (task : ShareGroupTask) : result string appendShareTaskRequest :=
  if bool_decide (sg_TaskID task = uuid_Nil) then Err "shared subscription taskID is empty"
  else if bool_decide (sg_ShareGroup task = "") then Err "shareGroup is empty"
  else if bool_decide (sg_MessageID task = uuid_Nil) then Err "messageID is empty"
  else
    let status := if bool_decide (sg_Status task = "") then TaskStatusPending else sg_Status task in
    let ts := match ts with Some ts => ts
              | None => if sg_Timestamp task =? zeroTime then now else sg_Timestamp task end in
    Ok (mkAppendShareTask ts (sg_TaskID task) (sg_ShareGroup task) (sg_TopicFilter task) (sg_MessageID task)
          (sg_DeliveryQoS task) (sg_PublishQoS task) (sg_PublisherClient task) (sg_SubscriptionIDs task)
          (sg_WinnerNoLocal task) (sg_WinnerRAP task) status (sg_ProcessedByNode task) (sg_ProcessedAt task)
          (sg_RollbackReason task)).

Definition AppendShareGroupTask (io : UpdateIO) (ts : option Z) (now : Z) (task : ShareGroupTask) (db : DB)
    : DB * result string unit :=
  match appendShareTaskRequestFromTask ts now task with
  | Err e => (db, Err e)
  | Ok req => let '(db', (_, res)) := sm_Update io (marshalUpdate opAppendShareTask req) db in (db', res)
  end.

Definition AtomicUpdateTaskStatus (io : UpdateIO) (taskID shareGroup oldStatus newStatus : string) (now : Z) (db : DB)
    : DB * (bool * result string unit) :=
  reported (sm_Update io (marshalUpdate opUpdateShareTaskStatus
    (mkUpdateShareTaskStatus taskID shareGroup oldStatus newStatus now)) db).

(** [markShareGroupTaskProcessed]: completed from whichever state it is in; [io old]
    is what the outside decides about the attempt from [old]. *)
Fixpoint markProcessedFrom (io : string → UpdateIO) (taskID shareGroup : string) (now : Z) (olds : list string) (db : DB)
    : DB * result string unit :=
  match olds with
  | [] => (db, Ok tt)
  | old :: olds' =>
      match AtomicUpdateTaskStatus (io old) taskID shareGroup old TaskStatusCompleted now db with
      | (db', (_, Err e)) => (db', Err e)
      | (db', (true, Ok _)) => (db', Ok tt)
      | (db', (false, Ok _)) => markProcessedFrom io taskID shareGroup now olds' db'
      end
  end.
Definition MarkShareGroupTaskProcessed (io : string → UpdateIO) (taskID shareGroup : string) (now : Z) (db : DB)
    : DB * result string unit :=
  markProcessedFrom io taskID shareGroup now [TaskStatusProcessing; TaskStatusPending; TaskStatusRolledBack] db.

Definition RollbackSharedSubscriptionTask (io : UpdateIO) (now : Z) (task : ShareGroupTask) (db : DB)
    : DB * result string unit :=
  match appendShareTaskRequestFromTask (Some now) now task with
  | Err e => (db, Err e)
  | Ok req => let '(db', (_, res)) := sm_Update io (marshalUpdate opRollbackShareGroupTask req) db in (db', res)
  end.

(** [appendShareGroupCursorRequestFromCursor]. *)
Definition appendShareGroupCursorRequestFromCursor (shareGroup : string) (c : ShareGroupCursor) : result string appendShareGroupCursorRequest :=
  let shareGroup := if bool_decide (shareGroup = "") then sgc_ShareGroup c else shareGroup in
  if bool_decide (shareGroup = "") then Err "shareGroup is empty"
  else Ok (mkAppendShareGroupCursor shareGroup (sgc_LastProcessedTS c) (sgc_LastProcessedTaskID c) (sgc_LeaderNodeID c) (sgc_LastRenewal c)).

Definition AppendShareGroupCursor (io : UpdateIO) (shareGroup : string) (c : ShareGroupCursor) (db : DB) : DB * result string unit :=
  match appendShareGroupCursorRequestFromCursor shareGroup c with
  | Err e => (db, Err e)
  | Ok req => let '(db', (_, res)) := sm_Update io (marshalUpdate opAppendShareGroupCursor req) db in (db', res)
  end.
End store.
