(* ===== verification/DeliveryStoreProofs.v ===== *)
(** * Correctness of the delivery queue store

    The keys order the tasks of a client as (timestamp, task id) and keep the clients
    apart ([key_order], [taskKey_prefix]).  [queue_of] reads the queue of a client out
    of the store as a map from positions to tasks with a cursor, and every operation
    is shown to act on these queues as the plain operation on such a map does
    ([step_refines], [read_refines]). *)

From stdpp Require Import sorting.
From S2P Require Import Prelude GoStrings WalEngine WalEngineProofs Inflight Downlink DeliveryStore.

(** ** Byte strings *)

Lemma append_assoc (a b c : string) : (a +:+ b) +:+ c = a +:+ (b +:+ c).
Proof. induction a as [|x a IH]; cbn; [done|]. by rewrite IH. Qed.

Lemma append_length (a b : string) : String.length (a +:+ b) = (String.length a + String.length b)%nat.
Proof. induction a as [|x a IH]; cbn; [done|]. by rewrite IH. Qed.

Lemma append_inj_l (p a b : string) : p +:+ a = p +:+ b → a = b.
Proof. induction p as [|x p IH]; cbn; [done|]. intros [= ?]. auto. Qed.

Lemma append_inj (a a' b b' : string) :
  String.length a = String.length a' → a +:+ b = a' +:+ b' → a = a' ∧ b = b'.
Proof.
  revert a'. induction a as [|x a IH]; intros [|y a']; cbn; try done.
  intros [= Hl] [= -> E]. by destruct (IH _ Hl E) as [-> ->].
Qed.

Lemma string_ltb_app_l p a b : string_ltb (p +:+ a) (p +:+ b) = string_ltb a b.
Proof. induction p as [|x p IH]; cbn; [done|]. by rewrite Z.ltb_irrefl. Qed.

Lemma string_ltb_app a a' b b' : String.length a = String.length a' →
  string_ltb (a +:+ b) (a' +:+ b') = if decide (a = a') then string_ltb b b' else string_ltb a a'.
Proof.
  revert a'. induction a as [|x a IH]; intros [|y a']; try done; intros [= Hl].
  cbn [String.append string_ltb]. destruct (Z.ltb_spec (b2z x) (b2z y)) as [Hlt|Hge].
  { rewrite decide_False; [done|]. intros [= -> ?]. lia. }
  destruct (Z.ltb_spec (b2z y) (b2z x)) as [Hlt|Hge'].
  { rewrite decide_False; [done|]. intros [= -> ?]. lia. }
  assert (x = y) as -> by (apply b2z_inj; lia). rewrite (IH _ Hl).
  destruct (decide (a = a')) as [->|Hne]; [by rewrite decide_True|]. rewrite decide_False; [done|congruence].
Qed.

Lemma string_ltb_antisym a b : string_ltb a b = true → string_ltb b a = false.
Proof.
  intros H. destruct (string_ltb b a) eqn:E; [|done].
  pose proof (string_ltb_trans _ _ _ H E) as F. by rewrite string_ltb_irrefl in F.
Qed.

Lemma string_ltb_false_trans a b c :
  string_ltb a b = false → string_ltb b c = false → string_ltb a c = false.
Proof.
  intros H1 H2. destruct (string_ltb a c) eqn:E; [|done]. destruct (decide (b = c)) as [->|Hne]; [congruence|].
  destruct (string_ltb_total _ _ Hne) as [Hl|Hl]; [congruence|]. by rewrite (string_ltb_trans _ _ _ E Hl) in H1.
Qed.

Lemma has_prefix_app p r : has_prefix (p +:+ r) p = true.
Proof. apply has_prefix_spec. eauto. Qed.

(** The keys with a prefix are an interval. *)
Lemma prefix_interval p x r :
  string_ltb x p = false → string_ltb x (p +:+ r) = true → has_prefix x p = true.
Proof.
  revert x. induction p as [|c p IH]; intros [|d x]; cbn; try done.
  destruct (b2z d <? b2z c) eqn:E1; [done|]. destruct (b2z c <? b2z d) eqn:E2; [done|].
  intros H1 H2. assert (c = d) as -> by (apply b2z_inj; lia). rewrite bool_decide_true by done. cbn. auto.
Qed.

Lemma string_ltb_prefix p r : string_ltb (p +:+ r) p = false.
Proof. induction p as [|c p IH]; cbn; [by destruct r|]. by rewrite Z.ltb_irrefl. Qed.

(** ** Timestamps *)

Lemma length_go_string l : String.length (go_string l) = length l.
Proof. by rewrite <-length_go_bytes, go_bytes_string. Qed.

Lemma tsBytes_length ts : String.length (tsBytes ts) = 8%nat.
Proof. unfold tsBytes. by rewrite length_go_string, length_bigEndian. Qed.

Lemma go_string_app a b : go_string (a ++ b) = go_string a +:+ go_string b.
Proof. induction a as [|x a IH]; cbn; [done|]. unfold go_string in IH. by rewrite IH. Qed.

Lemma bigEndian_order n a b : 0 ≤ a < 256 ^ Z.of_nat n → 0 ≤ b < 256 ^ Z.of_nat n →
  string_ltb (go_string (bigEndian n a)) (go_string (bigEndian n b)) = (a <? b).
Proof.
  revert a b. induction n as [|n IH]; intros a b Ha Hb.
  { cbn in *. symmetry. apply Z.ltb_ge. lia. }
  cbn [bigEndian]. rewrite !go_string_app.
  rewrite string_ltb_app by (by rewrite !length_go_string, !length_bigEndian).
  assert (∀ z, 0 ≤ z < 256 ^ Z.of_nat (S n) → 0 ≤ z / 256 < 256 ^ Z.of_nat n) as Hdiv.
  { intros z Hz. rewrite Nat2Z.inj_succ, Z.pow_succ_r in Hz by lia.
    split; [apply Z.div_pos; lia|apply Z.div_lt_upper_bound; lia]. }
  pose proof (Z.div_mod a 256 ltac:(lia)). pose proof (Z.div_mod b 256 ltac:(lia)).
  pose proof (Z.mod_pos_bound a 256 ltac:(lia)). pose proof (Z.mod_pos_bound b 256 ltac:(lia)).
  destruct (decide (go_string (bigEndian n (a / 256)) = go_string (bigEndian n (b / 256)))) as [E|Hne].
  - apply (f_equal go_bytes), (f_equal bigEndianValue) in E.
    rewrite !go_bytes_string, !bigEndian_value in E by auto.
    cbn. rewrite !b2z_z2b. destruct (Z.ltb_spec (a `mod` 256) (b `mod` 256)), (Z.ltb_spec a b); try lia; try done.
    by destruct (_ <? _).
  - rewrite IH by auto. assert (a / 256 ≠ b / 256) by congruence.
    destruct (Z.ltb_spec (a / 256) (b / 256)), (Z.ltb_spec a b); lia.
Qed.

Definition ts_ok (ts : Z) : Prop := 0 ≤ ts < 2 ^ 63.

#[export] Instance ts_ok_dec ts : Decision (ts_ok ts).
Proof. unfold ts_ok. apply _. Defined.

Lemma ts_ok_wrap ts : ts_ok ts → wrap 64 ts = ts.
Proof. intros [? ?]. unfold wrap. apply Z.mod_small. lia. Qed.

Lemma tsBytes_order a b : ts_ok a → ts_ok b → string_ltb (tsBytes a) (tsBytes b) = (a <? b).
Proof.
  intros Ha Hb. unfold tsBytes. rewrite !ts_ok_wrap by done. unfold ts_ok in *.
  apply bigEndian_order; change (256 ^ Z.of_nat 8) with (2 ^ 64); lia.
Qed.

Lemma int64OfBytes_ts ts : ts_ok ts → int64OfBytes (tsBytes ts) = ts.
Proof.
  intros H. unfold int64OfBytes, tsBytes. rewrite go_bytes_string, ts_ok_wrap by done. unfold ts_ok in H.
  rewrite bigEndian_value by (change (256 ^ Z.of_nat 8) with (2 ^ 64); lia). apply wrap_i64_id. lia.
Qed.

Lemma tsBytes_inj a b : ts_ok a → ts_ok b → tsBytes a = tsBytes b → a = b.
Proof. intros Ha Hb E. by rewrite <-(int64OfBytes_ts a), <-(int64OfBytes_ts b), E. Qed.

Lemma substring_app a b : String.substring 0 (String.length a) (a +:+ b) = a.
Proof. induction a as [|x a IH]; cbn; [by destruct b|]. by rewrite IH. Qed.

Lemma substring_skip a b n : String.substring (String.length a) n (a +:+ b) = String.substring 0 n b.
Proof. induction a as [|x a IH]; cbn; [done|done]. Qed.

Lemma substring_all a : String.substring 0 (String.length a) a = a.
Proof. induction a as [|x a IH]; cbn; [done|]. by rewrite IH. Qed.

(** ** Keys *)

(** Client identifiers are UTF-8 strings of the wire, which have no NUL. *)
Definition client_ok (c : string) : Prop := c ≠ "" ∧ contains_byte "000" c = false.

Lemma nul_split a b r r' : contains_byte "000" a = false → contains_byte "000" b = false →
  a +:+ nul +:+ r = b +:+ nul +:+ r' → a = b ∧ r = r'.
Proof.
  revert b. induction a as [|x a IH]; intros [|y b]; cbn; intros Ha Hb.
  - by intros [= ->].
  - intros [= <- ?]. by rewrite bool_decide_true in Hb.
  - intros [= -> ?]. by rewrite bool_decide_true in Ha.
  - apply orb_false_iff in Ha as [_ Ha], Hb as [_ Hb]. intros [= -> E].
    destruct (IH b Ha Hb E) as [-> ->]. done.
Qed.

Section key_lemmas.
Context `{Huu : !UUIDs, HUU : !UUIDLaws}.

Definition canonical (u : string) : Prop := uuid_Parse u = Some u.

#[export] Instance canonical_dec u : Decision (canonical u).
Proof. unfold canonical. apply _. Defined.

(** Positions of a queue. *)
Definition pos_lt (p q : Z * string) : bool :=
  (p.1 <? q.1) || ((p.1 =? q.1) && string_ltb p.2 q.2).
Definition pos_ok (p : Z * string) : Prop := ts_ok p.1 ∧ canonical p.2.

(** Both kinds of task key are a prefix, the timestamp and the identifier. *)
Definition positionBytes (p : Z * string) : string := tsBytes p.1 +:+ uuid_bytes p.2.

Lemma positionBytes_order p q : pos_ok p → pos_ok q →
  string_ltb (positionBytes p) (positionBytes q) = pos_lt p q.
Proof.
  destruct p as [t u], q as [t' u']. intros [Ht Hu] [Ht' Hu']. cbn in Ht, Hu, Ht', Hu'. unfold positionBytes, pos_lt. cbn [fst snd].
  rewrite string_ltb_app by (by rewrite !tsBytes_length). destruct (decide (tsBytes t = tsBytes t')) as [E|Hne].
  - apply tsBytes_inj in E as ->; [|done|done]. rewrite uuid_order by done. by rewrite Z.ltb_irrefl, Z.eqb_refl.
  - rewrite tsBytes_order by done. destruct (Z.eqb_spec t t') as [->|]; [done|]. by rewrite orb_false_r.
Qed.

Lemma positionBytes_length p : pos_ok p → String.length (positionBytes p) = 24%nat.
Proof.
  destruct p as [t u]. intros [Ht Hu]. unfold positionBytes. cbn [fst snd].
  by rewrite append_length, tsBytes_length, uuid_bytes_length.
Qed.

Lemma parse_position prefix p : pos_ok p → parseTaskKey (prefix +:+ positionBytes p) prefix = Some p.
Proof.
  intros Hp. pose proof (positionBytes_length p Hp) as Hl. destruct p as [t u], Hp as [Ht Hu]. cbn in Ht, Hu.
  unfold parseTaskKey. rewrite has_prefix_app, drop_string_append, Hl. cbn [negb].
  rewrite bool_decide_false by lia. unfold positionBytes. cbn [fst snd].
  assert (String.substring 0 8 (tsBytes t +:+ uuid_bytes u) = tsBytes t) as ->
    by (rewrite <-(tsBytes_length t) at 1; apply substring_app).
  assert (String.substring 8 16 (tsBytes t +:+ uuid_bytes u) = uuid_bytes u) as ->.
  { rewrite <-(tsBytes_length t) at 1. rewrite substring_skip. rewrite <-(uuid_bytes_length u Hu). apply substring_all. }
  by rewrite int64OfBytes_ts, uuid_FromBytes_bytes.
Qed.

Lemma position_inj p q : pos_ok p → pos_ok q → positionBytes p = positionBytes q → p = q.
Proof. intros Hp Hq E. pose proof (parse_position "" p Hp) as Hpq. rewrite E, (parse_position "" q Hq) in Hpq.
  congruence. Qed.

Definition tkey (c : string) (p : Z * string) : string := taskKeyPrefix c +:+ positionBytes p.

Arguments tkey : simpl never.

Lemma taskKey_tkey c ts u : taskKey c ts u = tkey c (ts, u).
Proof. done. Qed.

Lemma key_order c p q : pos_ok p → pos_ok q → string_ltb (tkey c p) (tkey c q) = pos_lt p q.
Proof. intros. unfold tkey. rewrite string_ltb_app_l. by apply positionBytes_order. Qed.

(** The prefix of a client picks out that client's keys. *)
Lemma taskKey_prefix c c' p : client_ok c → client_ok c' →
  has_prefix (tkey c' p) (taskKeyPrefix c) = true ↔ c = c'.
Proof.
  intros [_ Hc] [_ Hc']. split; [|intros ->; apply has_prefix_app]. intros (r & E)%has_prefix_spec.
  unfold tkey, taskKeyPrefix in E. rewrite !append_assoc in E. apply append_inj_l in E.
  by destruct (nul_split _ _ _ _ Hc' Hc E) as [-> _].
Qed.

Lemma tkey_inj c c' p q : client_ok c → client_ok c' → pos_ok p → pos_ok q →
  tkey c p = tkey c' q ↔ c = c' ∧ p = q.
Proof.
  intros Hc Hc' Hp Hq. split; [|by intros [-> ->]]. intros E.
  assert (c = c') as ->.
  { apply (taskKey_prefix _ _ q Hc Hc'). rewrite <-E. apply has_prefix_app. }
  split; [done|]. apply position_inj; [done|done|]. by eapply append_inj_l.
Qed.

Lemma cursorKey_no_task c c' : has_prefix (cursorKey c) (taskKeyPrefix c') = false.
Proof. done. Qed.

Lemma cursorKey_tkey c c' p : cursorKey c ≠ tkey c' p.
Proof. done. Qed.
End key_lemmas.

(** ** Iteration *)

Section iteration.
Context {DB : Type} `{Hkv : !KV DB, HKV : !KVLaws DB}.

Lemma take_prefix_all p r l :
  StronglySorted (λ x y : string * string, string_ltb x.1 y.1 = true) l →
  Forall (λ x, string_ltb x.1 (p +:+ r) = false) l →
  take_prefix p l = filter (λ x, has_prefix x.1 p = true) l.
Proof.
  intros Hs Hl. induction l as [|x l IH]; [done|]. apply StronglySorted_inv in Hs as [Hs Hx].
  apply Forall_cons in Hl as [Hx' Hl]. cbn [take_prefix]. rewrite filter_cons.
  destruct (has_prefix x.1 p) eqn:E.
  - rewrite decide_True by done. f_equal. auto.
  - rewrite decide_False by done. symmetry. apply filter_none. intros y Hy Hp.
    apply has_prefix_spec in Hp as (s & Hp). rewrite Forall_forall in Hx. specialize (Hx y Hy). rewrite Hp in Hx.
    rewrite (prefix_interval p x.1 s) in E; [done| |done].
    eapply string_ltb_false_trans; [exact Hx'|apply string_ltb_prefix].
Qed.

Lemma StronglySorted_filter {A} (R : A → A → Prop) (P : A → Prop) `{!∀ x, Decision (P x)} l :
  StronglySorted R l → StronglySorted R (filter P l).
Proof.
  induction 1 as [|x l Hs IH Hx]; [constructor|]. rewrite filter_cons. case_decide; [|done].
  constructor; [done|]. apply Forall_forall. intros y [_ Hy]%list_elem_of_filter.
  by rewrite Forall_forall in Hx; apply Hx.
Qed.

Lemma Forall_filtered {A} (Q P : A → Prop) `{!∀ x, Decision (P x)} l : Forall Q l → Forall Q (filter P l).
Proof. rewrite !Forall_forall. intros HQ x [_ Hx]%list_elem_of_filter. auto. Qed.

Lemma iterate_spec (db : DB) p r :
  StronglySorted (λ x y : string * string, string_ltb x.1 y.1 = true) (iterate db (p +:+ r) p) ∧
  ∀ k v, (k, v) ∈ iterate db (p +:+ r) p ↔
    kv_get db k = Some v ∧ has_prefix k p = true ∧ string_ltb k (p +:+ r) = false.
Proof.
  unfold iterate. pose proof (kv_seek_sorted db (p +:+ r)) as Hs.
  rewrite (take_prefix_all p r).
  - split; [by apply StronglySorted_filter|]. intros k v. rewrite list_elem_of_filter, kv_seek_elem. cbn. tauto.
  - done.
  - apply Forall_forall. intros [k v] (_ & H)%kv_seek_elem. done.
Qed.

Lemma get_deleteKeys l (db : DB) k :
  kv_get (deleteKeys l db) k = if decide (k ∈ l.*1) then None else kv_get db k.
Proof.
  revert db. induction l as [|x l IH]; intros db; [done|]. cbn [deleteKeys foldl].
  fold (deleteKeys l (kv_delete x.1 db)). rewrite IH, kv_get_delete. cbn [fmap list_fmap].
  destruct (decide (k ∈ l.*1)) as [Hin|Hin]; [rewrite decide_True by (by right); done|].
  destruct (decide (x.1 = k)) as [<-|Hne]; [rewrite decide_True by left; done|].
  rewrite decide_False; [done|]. rewrite elem_of_cons. intros [?|?]; congruence.
Qed.
End iteration.

(** ** Queues as plain maps *)

Record Queue := mkQueue {
  q_tasks : gmap (Z * string) taskValue;
  q_cursor : option (Z * (Z * string)) }.
Definition emptyQueue : Queue := mkQueue ∅ None.

Notation Queues := (gmap string Queue).
Definition queue (a : Queues) (c : string) : Queue := default emptyQueue (a !! c).

Lemma queue_insert a c q c' : queue (<[c := q]> a) c' = if decide (c = c') then q else queue a c'.
Proof. unfold queue. destruct (decide (c = c')) as [->|]; [by rewrite lookup_insert_eq|by rewrite lookup_insert_ne]. Qed.

(** The operations that change a queue, with what the outside decides. *)
Inductive QueueOp :=
| OpAppend (io : UpdateIO) (t : DeliveryTask)
| OpAdvance (io : UpdateIO) (updatedTS : Z) (c : DeliveryCursor)
| OpReset (io : UpdateIO) (clientID : string)
| OpDropShared (io : UpdateIO) (clientID shareGroup : string).

(** How an update with conflict retries ends. *)
Fixpoint final_outcome (backoff : nat) (outcomes : list TxnOutcome) : TxnOutcome :=
  match default TxnCommit (head outcomes), backoff with
  | TxnConflict, S n => final_outcome n (tail outcomes)
  | o, _ => o
  end.
Definition outcome_result (o : TxnOutcome) : result string unit :=
  match o with TxnCommit => Ok tt | TxnConflict => Err "conflict" | TxnFailed => Err "transaction failed" end.
Definition commit {A} (o : TxnOutcome) (new old : A) : A := match o with TxnCommit => new | _ => old end.

Definition value_of (t : DeliveryTask) : taskValue :=
  mkTaskValue (dt_MessageID t) (dt_DeliveryQoS t) (dt_SubscriptionIDs t) (dt_NoLocal t) (dt_RetainAsPublished t)
    (dt_ShareGroup t) (if bool_decide (dt_SharedTaskID t = uuid_Nil) then "" else dt_SharedTaskID t).

Definition has_message (m : string) (q : Queue) : bool :=
  bool_decide (map_Exists (λ _ tv, tv_MessageID tv = m) (q_tasks q)).

Definition cursor_passed (q : Queue) (p : Z * string) : bool :=
  match q_cursor q with None => false | Some (_, p') => negb (pos_lt p' p) end.

(** The same operations on the maps. *)
Definition a_step (op : QueueOp) (a : Queues) : Queues * (bool * result string unit) :=
  match op with
  | OpAppend io t =>
      let q := queue a (dt_ClientID t) in
      let o := final_outcome 3 (uo_outcomes io) in
      if has_message (dt_MessageID t) q then (a, (false, outcome_result o))
      else (commit o (<[dt_ClientID t := mkQueue (<[(dt_TS t, dt_TaskID t) := value_of t]> (q_tasks q)) (q_cursor q)]> a) a,
            (true, outcome_result o))
  | OpAdvance io updated c =>
      let q := queue a (dc_ClientID c) in
      let p := (dc_LastTS c, dc_LastTaskID c) in
      let o := uo_outcome io in
      if cursor_passed q p then (a, (false, outcome_result o))
      else (commit o (<[dc_ClientID c := mkQueue (filter (λ x, pos_lt p x.1 = true) (q_tasks q)) (Some (updated, p))]> a) a,
            (true, outcome_result o))
  | OpReset io c => (commit (uo_outcome io) (<[c := emptyQueue]> a) a, (false, outcome_result (uo_outcome io)))
  | OpDropShared io c g =>
      let q := queue a c in
      (commit (uo_outcome io)
         (<[c := mkQueue (filter (λ x, ¬ (tv_ShareGroup x.2 = g ∧ tv_SharedTaskID x.2 ≠ "")) (q_tasks q)) (q_cursor q)]> a) a,
       (false, outcome_result (uo_outcome io)))
  end.

(** The tasks of a queue in order. *)
Definition entry_le {V} (x y : (Z * string) * V) : Prop := pos_lt y.1 x.1 = false.
#[export] Instance entry_le_dec {V} : RelDecision (entry_le (V := V)).
Proof. intros x y. unfold entry_le. apply _. Defined.
Definition pos_list {V} (m : gmap (Z * string) V) : list ((Z * string) * V) := merge_sort entry_le (map_to_list m).
Definition q_list (q : Queue) : list ((Z * string) * taskValue) := pos_list (q_tasks q).

Definition task_of (c : string) (x : (Z * string) * taskValue) : DeliveryTask :=
  let tv := x.2 in
  mkTask x.1.1 x.1.2 c (tv_MessageID tv) 0 (tv_DeliveryQoS tv) (tv_SubscriptionIDs tv) (tv_NoLocal tv)
    (tv_RetainAsPublished tv) (tv_ShareGroup tv) (if bool_decide (tv_SharedTaskID tv = "") then uuid_Nil else tv_SharedTaskID tv).

(** Reading from the position [p]; the zero position reads from the beginning. *)
Definition after (p x : Z * string) : bool :=
  (bool_decide (p.2 = uuid_Nil) && (p.1 <=? 0)) || pos_lt p x.
Definition q_read (q : Queue) (c : string) (p : Z * string) (limit : Z) : list DeliveryTask :=
  take (Z.to_nat limit) (task_of c <$> filter (λ x, after p x.1 = true) (q_list q)).

Lemma string_ltb_neg a b : string_ltb a b = false → a ≠ b → string_ltb b a = true.
Proof. intros H Hne. destruct (string_ltb_total _ _ Hne); congruence. Qed.

Lemma pos_lt_irrefl p : pos_lt p p = false.
Proof. unfold pos_lt. by rewrite Z.ltb_irrefl, string_ltb_irrefl, andb_false_r. Qed.

Lemma pos_lt_trans p q r : pos_lt p q = true → pos_lt q r = true → pos_lt p r = true.
Proof.
  unfold pos_lt. rewrite !orb_true_iff, !andb_true_iff. intros [H1|[H1 H2]] [H3|[H3 H4]]; [left; lia..|].
  right. split; [lia|by eapply string_ltb_trans].
Qed.

Lemma pos_lt_total p q : p ≠ q → pos_lt p q = true ∨ pos_lt q p = true.
Proof.
  destruct p as [t u], q as [t' u']. intros Hne. unfold pos_lt. cbn.
  destruct (Z.lt_trichotomy t t') as [H|[->|H]].
  - left. apply orb_true_iff. left. lia.
  - rewrite Z.ltb_irrefl, Z.eqb_refl. cbn. apply string_ltb_total. congruence.
  - right. apply orb_true_iff. left. lia.
Qed.

(** Lists sorted by a strict order are determined by their elements. *)
Lemma strict_sorted_unique {A} (R : A → A → Prop) l k :
  (∀ x, ¬ R x x) → (∀ x y z, R x y → R y z → R x z) →
  StronglySorted R l → StronglySorted R k → (∀ x, x ∈ l ↔ x ∈ k) → l = k.
Proof.
  intros Hirr Htr Hl. revert k. induction Hl as [|x l Hl IH Hx]; intros k Hk Hlk.
  - destruct k as [|y k]; [done|]. destruct (Hlk y) as [_ H]. by apply elem_of_nil in H; [|left].
  - destruct k as [|y k]; [destruct (Hlk x) as [H _]; by apply elem_of_nil in H; [|left]|].
    apply StronglySorted_inv in Hk as [Hk Hy]. rewrite Forall_forall in Hx, Hy.
    assert (x = y) as ->.
    { destruct (Hlk x) as [H1 _], (Hlk y) as [_ H2].
      apply elem_of_cons in H1 as [?|H1]; [done| |left]. apply elem_of_cons in H2 as [?|H2]; [done| |left].
      exfalso. apply (Hirr x). eapply Htr; eauto. }
    f_equal. apply IH; [done|]. intros z. split; intros Hz.
    + destruct (Hlk z) as [H1 _]. apply elem_of_cons in H1 as [->|?]; [by destruct (Hirr _ (Hx _ Hz))|done|by right].
    + destruct (Hlk z) as [_ H1]. apply elem_of_cons in H1 as [->|?]; [by destruct (Hirr _ (Hy _ Hz))|done|by right].
Qed.

Lemma pos_list_elem {V} (m : gmap (Z * string) V) p tv : (p, tv) ∈ pos_list m ↔ m !! p = Some tv.
Proof. unfold pos_list. rewrite (merge_sort_Permutation _ _). apply elem_of_map_to_list. Qed.
Lemma q_list_elem q p tv : (p, tv) ∈ q_list q ↔ q_tasks q !! p = Some tv.
Proof. apply pos_list_elem. Qed.

#[export] Instance entry_le_total {V} : Total (entry_le (V := V)).
Proof.
  intros x y. unfold entry_le. destruct (pos_lt y.1 x.1) eqn:E; [right|by left].
  destruct (pos_lt x.1 y.1) eqn:F; [|done]. by rewrite <-(pos_lt_irrefl x.1), (pos_lt_trans _ _ _ F E).
Qed.

#[export] Instance entry_le_trans {V} : Transitive (entry_le (V := V)).
Proof.
  intros x y z. unfold entry_le. intros H1 H2. destruct (pos_lt z.1 x.1) eqn:E; [|done].
  destruct (decide (x.1 = y.1)) as [Heq|Hne]; [congruence|].
  destruct (pos_lt_total _ _ Hne) as [H|H]; [|congruence].
  pose proof (pos_lt_trans _ _ _ E H). congruence.
Qed.

Lemma pos_list_sorted {V} (m : gmap (Z * string) V) : StronglySorted (λ x y, pos_lt x.1 y.1 = true) (pos_list m).
Proof.
  assert (NoDup (pos_list m).*1) as Hnd.
  { unfold pos_list. rewrite (merge_sort_Permutation _ _). apply NoDup_fst_map_to_list. }
  pose proof (StronglySorted_merge_sort entry_le (map_to_list m)) as Hs.
  change (merge_sort entry_le (map_to_list m)) with (pos_list m) in Hs.
  induction Hs as [|x l Hs IH Hx]; [constructor|]. apply NoDup_cons in Hnd as [Hn Hnd].
  constructor; [by apply IH|]. rewrite Forall_forall in Hx |- *. intros y Hy. specialize (Hx y Hy). unfold entry_le in Hx.
  destruct (pos_lt_total x.1 y.1) as [H|H]; [|done|congruence].
  intros E. apply Hn. rewrite E. by apply list_elem_of_fmap_2.
Qed.
Lemma q_list_sorted q : StronglySorted (λ x y, pos_lt x.1 y.1 = true) (q_list q).
Proof. apply pos_list_sorted. Qed.

(** Running a sequence of operations, collecting the answers. *)
Fixpoint run_ops {O S R} (step : O → S → S * R) (ops : list O) (s : S) : S * list R :=
  match ops with
  | [] => (s, [])
  | op :: ops' =>
      let '(s', r) := step op s in
      let '(s'', rs) := run_ops step ops' s' in (s'', r :: rs)
  end.

(** ** The store holds the queues *)

Section refinement.
Context {DB : Type} `{Hkv : !KV DB, HKV : !KVLaws DB, Huu : !UUIDs, HUU : !UUIDLaws, HC : !Codecs}.

Definition cursor_of (c : string) (x : Z * (Z * string)) : cursorValue :=
  mkCursorValue x.1 c x.2.1 x.2.2.

Definition task_ok (p : Z * string) (tv : taskValue) : Prop :=
  pos_ok p ∧ canonical (tv_MessageID tv) ∧ (tv_SharedTaskID tv = "" ∨ canonical (tv_SharedTaskID tv)) ∧ p.2 ≠ uuid_Nil.

Record Rep (db : DB) (a : Queues) : Prop := {
  rep_tasks c p : client_ok c → pos_ok p → kv_get db (tkey c p) = json_Marshal <$> q_tasks (queue a c) !! p;
  rep_keys k v : kv_get db k = Some v → has_prefix k prefixTask = true →
    ∃ c p, client_ok c ∧ pos_ok p ∧ k = tkey c p;
  rep_cursor c : client_ok c → kv_get db (cursorKey c) = (λ x, json_Marshal (cursor_of c x)) <$> q_cursor (queue a c);
  rep_task_ok c p tv : client_ok c → q_tasks (queue a c) !! p = Some tv → task_ok p tv;
  rep_cursor_ok c x : client_ok c → q_cursor (queue a c) = Some x → pos_ok x.2 }.

(** The items of a list of tasks. *)
Definition items (c : string) (es : list ((Z * string) * taskValue)) : list (string * string) :=
  (λ x, (tkey c x.1, json_Marshal x.2)) <$> es.

Lemma taskKeyPrefix_task c k : has_prefix k (taskKeyPrefix c) = true → has_prefix k prefixTask = true.
Proof. intros (r & ->)%has_prefix_spec. unfold taskKeyPrefix. rewrite !append_assoc. apply has_prefix_app. Qed.

(** What an iteration over the keys of a queue yields, where the keys are positions behind a prefix. *)
Lemma json_Marshal_inj {V} `{!Json V} (x y : V) : json_Marshal x = json_Marshal y → x = y.
Proof. intros E%(f_equal json_Unmarshal). rewrite !json_roundtrip in E. congruence. Qed.

Lemma iterate_map {V} `{!Json V} (db : DB) (prefix : string) (m : gmap (Z * string) V) (r : string) :
  (∀ p, pos_ok p → kv_get db (prefix +:+ positionBytes p) = json_Marshal <$> m !! p) →
  (∀ k v, kv_get db k = Some v → has_prefix k prefix = true → ∃ p, pos_ok p ∧ k = prefix +:+ positionBytes p) →
  (∀ p tv, m !! p = Some tv → pos_ok p) →
  ∃ es, iterate db (prefix +:+ r) prefix = ((λ x, (prefix +:+ positionBytes x.1, json_Marshal x.2)) <$> es) ∧
    StronglySorted (λ x y, pos_lt x.1 y.1 = true) es ∧
    ∀ p tv, (p, tv) ∈ es ↔ m !! p = Some tv ∧ string_ltb (prefix +:+ positionBytes p) (prefix +:+ r) = false.
Proof.
  intros Hget Hkeys Hpos. destruct (iterate_spec db prefix r) as [Hs He].
  set (l := iterate db (prefix +:+ r) prefix) in *. clearbody l. set (item := λ x : (Z * string) * V, _).
  assert (∃ es, l = item <$> es ∧ ∀ p tv, (p, tv) ∈ es → m !! p = Some tv) as (es & -> & Hes).
  { assert (∀ x, x ∈ l → ∃ p tv, x = item (p, tv) ∧ m !! p = Some tv) as Hl.
    { intros [k v] (Hg & Hp & _)%He. destruct (Hkeys k v Hg Hp) as (p & Hok & ->). rewrite Hget in Hg by done.
      destruct (m !! p) as [tv|] eqn:E; [|done]. injection Hg as <-. eauto. }
    clear Hs He. induction l as [|x l IH]; [exists []; split; [done|]; by intros p tv ?%elem_of_nil|].
    destruct IH as (es & -> & Hes); [intros y Hy; apply Hl; by right|].
    destruct (Hl x) as (p & tv & -> & Hp); [left|]. exists ((p, tv) :: es). split; [done|].
    intros p' tv' [[= -> ->]|H]%elem_of_cons; auto. }
  assert (∀ x, x ∈ es → pos_ok x.1) as Hok by (intros [p tv] H; eapply Hpos, Hes, H).
  exists es. split_and!; [done| |].
  - clear He Hes. induction es as [|x es IH]; [constructor|]. cbn in Hs. apply StronglySorted_inv in Hs as [Hs Hx].
    constructor; [apply IH; [done|intros y Hy; apply Hok; by right]|]. apply Forall_forall. intros y Hy.
    pose proof (proj1 (Forall_forall _ _) Hx (item y)) as Hxy. cbn in Hxy. rewrite string_ltb_app_l, positionBytes_order in Hxy;
      [|apply Hok; left|apply Hok; by right]. apply Hxy, list_elem_of_fmap. eauto.
  - intros p tv. split.
    + intros H. split; [by apply Hes|]. apply (He (item (p, tv)).1 (item (p, tv)).2), list_elem_of_fmap. by exists (p, tv).
    + intros [Ht Hlt]. assert (item (p, tv) ∈ item <$> es) as H.
      { change (item (p, tv)) with (prefix +:+ positionBytes p, json_Marshal tv). apply He.
        split_and!; [|apply has_prefix_app|done]. rewrite Hget by (by eapply Hpos). by rewrite Ht. }
      apply list_elem_of_fmap in H as ([p' tv'] & [= E1 E2] & H). apply append_inj_l, position_inj in E1; [|by eapply Hpos|by apply (Hok (p', tv'))].
      apply json_Marshal_inj in E2. by subst.
Qed.

Lemma iterate_queue db a c r : Rep db a → client_ok c →
  ∃ es, iterate db (taskKeyPrefix c +:+ r) (taskKeyPrefix c) = items c es ∧
    StronglySorted (λ x y, pos_lt x.1 y.1 = true) es ∧
    Forall (λ x, task_ok x.1 x.2) es ∧
    ∀ p tv, (p, tv) ∈ es ↔ q_tasks (queue a c) !! p = Some tv ∧ string_ltb (tkey c p) (taskKeyPrefix c +:+ r) = false.
Proof.
  intros HR Hc. destruct (iterate_map db (taskKeyPrefix c) (q_tasks (queue a c)) r) as (es & Ei & Hs & He).
  - intros p Hp. by apply (rep_tasks _ _ HR).
  - intros k v Hg Hp. destruct (rep_keys _ _ HR k v Hg (taskKeyPrefix_task _ _ Hp)) as (c' & p & Hc' & Hpos & ->).
    apply taskKey_prefix in Hp as <-; [|done|done]. by exists p.
  - intros p tv Ht. by destruct (rep_task_ok _ _ HR c p tv Hc Ht).
  - exists es. split_and!; [done|done| |done]. apply Forall_forall. intros [p tv] [Ht _]%He. by apply (rep_task_ok _ _ HR c p tv Hc).
Qed.

Lemma append_empty_r (a : string) : a +:+ "" = a.
Proof. induction a as [|x a IH]; cbn; [done|]. by rewrite IH. Qed.

Lemma iterate_all db a c : Rep db a → client_ok c →
  ∃ es, iterate db (taskKeyPrefix c) (taskKeyPrefix c) = items c es ∧
    StronglySorted (λ x y, pos_lt x.1 y.1 = true) es ∧
    Forall (λ x, task_ok x.1 x.2) es ∧ ∀ p tv, (p, tv) ∈ es ↔ q_tasks (queue a c) !! p = Some tv.
Proof.
  intros HR Hc. destruct (iterate_queue db a c "" HR Hc) as (es & E & Hs & Hok & He). rewrite append_empty_r in E, He.
  exists es. split_and!; [done..|]. intros p tv. rewrite He. split; [by intros [? _]|]. intros Ht. split; [done|].
  unfold tkey. apply string_ltb_prefix.
Qed.

Lemma cursorKey_inj c c' : cursorKey c = cursorKey c' → c = c'.
Proof. apply append_inj_l. Qed.

(** A change of one client's queue. *)
Lemma Rep_queue db a c db' q : Rep db a → client_ok c →
  (∀ k, k ≠ cursorKey c → (∀ p, pos_ok p → k ≠ tkey c p) → kv_get db' k = kv_get db k) →
  (∀ p, pos_ok p → kv_get db' (tkey c p) = json_Marshal <$> q_tasks q !! p) →
  kv_get db' (cursorKey c) = (λ x, json_Marshal (cursor_of c x)) <$> q_cursor q →
  (∀ p tv, q_tasks q !! p = Some tv → task_ok p tv) → (∀ x, q_cursor q = Some x → pos_ok x.2) →
  Rep db' (<[c := q]> a).
Proof.
  intros HR Hc Hother Htask Hcur Hok Hcok. split.
  - intros c' p Hc' Hp. rewrite queue_insert. destruct (decide (c = c')) as [<-|Hne]; [auto|].
    rewrite Hother; [by apply HR|done|]. intros p' Hp' (-> & _)%tkey_inj; done.
  - intros k v Hg Hpre. destruct (decide (kv_get db k = Some v)) as [Hg'|Hg']; [by eapply (rep_keys _ _ HR)|].
    destruct (decide (k = cursorKey c)) as [->|Hk]; [done|].
    destruct (parseTaskKey k (taskKeyPrefix c)) as [p|] eqn:Ep.
    + destruct (decide (k = tkey c p ∧ ts_ok p.1 ∧ canonical p.2)) as [(-> & Ht & Hu)|Hn]; [by exists c, p|].
      exfalso. apply Hg'. rewrite <-Hother; [done|done|]. intros p' Hp' ->. apply Hn.
      unfold tkey in Ep. rewrite parse_position in Ep by done. injection Ep as <-. split; [done|apply Hp'].
    + exfalso. apply Hg'. rewrite <-Hother; [done|done|]. intros p' Hp' ->.
      unfold tkey in Ep. by rewrite parse_position in Ep.
  - intros c' Hc'. rewrite queue_insert. destruct (decide (c = c')) as [<-|Hne]; [auto|].
    rewrite Hother; [by apply HR| |done]. intros E%cursorKey_inj. done.
  - intros c' p tv Hc'. rewrite queue_insert. destruct (decide (c = c')); [auto|]. by apply (rep_task_ok _ _ HR).
  - intros c' x Hc'. rewrite queue_insert. destruct (decide (c = c')); [auto|]. by apply (rep_cursor_ok _ _ HR).
Qed.

(** ** Each operation *)

Lemma items_cons c x es : items c (x :: es) = (tkey c x.1, json_Marshal x.2) :: items c es.
Proof. done. Qed.

Lemma anyWithMessage_items m c es :
  anyWithMessage m (items c es) = Ok (bool_decide (Exists (λ x, tv_MessageID x.2 = m) es)).
Proof.
  induction es as [|x es IH]; [done|]. rewrite items_cons. cbn [anyWithMessage snd]. rewrite json_roundtrip.
  destruct (decide (tv_MessageID x.2 = m)) as [H|H].
  - rewrite !bool_decide_true; [done|by apply Exists_cons; auto|done].
  - rewrite (bool_decide_false _ H), IH. f_equal. apply bool_decide_ext. rewrite Exists_cons. tauto.
Qed.

Lemma exists_in_queue db a c m : Rep db a → client_ok c → canonical m →
  deliveryTaskExistsInTxn db c m = Ok (has_message m (queue a c)).
Proof.
  intros HR Hc Hm. unfold deliveryTaskExistsInTxn. destruct (iterate_all db a c HR Hc) as (es & -> & _ & _ & He).
  rewrite !bool_decide_false; [|intros ->; unfold canonical in Hm; by rewrite uuid_Parse_empty in Hm|by destruct Hc].
  cbn [orb]. rewrite anyWithMessage_items. unfold has_message. f_equal. apply bool_decide_ext.
  rewrite Exists_exists. unfold map_Exists. split.
  - intros ([p tv] & H & E). exists p, tv. by rewrite <-He.
  - intros (p & tv & H & E). exists (p, tv). by rewrite He.
Qed.

Definition task_valid (t : DeliveryTask) : Prop :=
  client_ok (dt_ClientID t) ∧ task_ok (dt_TS t, dt_TaskID t) (value_of t).

Definition op_valid (op : QueueOp) : Prop :=
  match op with
  | OpAppend _ t => task_valid t
  | OpAdvance _ _ c => client_ok (dc_ClientID c) ∧ pos_ok (dc_LastTS c, dc_LastTaskID c)
  | OpReset _ c => client_ok c
  | OpDropShared _ c g => client_ok c ∧ g ≠ ""
  end.

Definition q_step (op : QueueOp) (db : DB) : DB * (bool * result string unit) :=
  match op with
  | OpAppend io t => AppendDeliveryTask io t db
  | OpAdvance io u c => AdvanceDeliveryCursor io u c db
  | OpReset io c => let '(db', r) := ResetClientDeliveryState io c db in (db', (false, r))
  | OpDropShared io c g => let '(db', r) := DeleteClientSharedDeliveryTasks io c g db in (db', (false, r))
  end.

Lemma marshalled_update {A} `{!Json A} op (v : A) : op ≠ "" →
  ignoreDeliveryStateUpdate (marshalUpdate op v) = false ∧
  unmarshalUpdate (marshalUpdate op v) = Ok (mkUpdateRequest op (json_Marshal v)).
Proof.
  intros Hop. unfold ignoreDeliveryStateUpdate, unmarshalUpdate, marshalUpdate. rewrite json_roundtrip.
  destruct (json_object (mkUpdateRequest op (json_Marshal v))) as [r ->].
  rewrite !bool_decide_false by done. done.
Qed.

Lemma sm_Update_marshalled {A} `{!Json A} io op (v : A) db : op ≠ "" →
  sm_Update io (marshalUpdate op v) db = applyUpdate io (mkUpdateRequest op (json_Marshal v)) db.
Proof. intros Hop. unfold sm_Update. by destruct (marshalled_update op v Hop) as [-> ->]. Qed.

Lemma retry_final {A} n outcomes (f : DB → result string (DB * A)) db db' x : f db = Ok (db', x) →
  withBadgerUpdateRetry n outcomes f db =
  (commit (final_outcome n outcomes) db' db, (λ _, x) <$> outcome_result (final_outcome n outcomes)).
Proof.
  intros Hf. revert outcomes. induction n as [|n IH]; intros outcomes; cbn; unfold db_Update; rewrite Hf.
  - by destruct (default TxnCommit (head outcomes)).
  - destruct (default TxnCommit (head outcomes)); [done|apply IH|done].
Qed.

Lemma db_Update_Ok {A} o (f : DB → result string (DB * A)) db db' x : f db = Ok (db', x) →
  db_Update o f db = (commit o db' db, (λ _, x) <$> outcome_result o).
Proof. intros Hf. unfold db_Update. rewrite Hf. by destruct o. Qed.

Lemma apply_opAppendTask io d db : applyUpdate io (mkUpdateRequest opAppendTask d) db = updateAppendTask (uo_outcomes io) d db.
Proof. reflexivity. Qed.
Lemma apply_opAdvanceCursor io d db :
  applyUpdate io (mkUpdateRequest opAdvanceCursor d) db = updateAdvanceCursor (uo_outcome io) d db.
Proof. reflexivity. Qed.
Lemma apply_opDeleteClientState io d db :
  applyUpdate io (mkUpdateRequest opDeleteClientState d) db = updateDeleteClientState (uo_outcome io) d db.
Proof. reflexivity. Qed.
Lemma apply_opDeleteSharedTasks io d db :
  applyUpdate io (mkUpdateRequest opDeleteSharedTasks d) db = updateDeleteSharedTasks (uo_outcome io) d db.
Proof. reflexivity. Qed.

Lemma append_refines db a io t : Rep db a → task_valid t →
  let '(db', r) := q_step (OpAppend io t) db in
  let '(a', r') := a_step (OpAppend io t) a in Rep db' a' ∧ r = r'.
Proof.
  intros HR [Hc Hok]. pose proof (exists_in_queue db a _ (dt_MessageID t) HR Hc) as Hex.
  destruct Hok as (Hp & Hm & Hsh). specialize (Hex Hm). cbn [q_step a_step]. unfold AppendDeliveryTask.
  rewrite sm_Update_marshalled by done. rewrite (apply_opAppendTask _ _ _).
  unfold updateAppendTask. rewrite json_roundtrip. cbn [at_ClientID at_TaskID at_MessageID].
  rewrite bool_decide_false by (by destruct Hc). destruct Hp as [Hts Hid]. cbn in Hts, Hid. rewrite Hid, Hex.
  cbn [at_TSUnixNano at_MessageID at_DeliveryQoS at_SubscriptionIDs at_NoLocal at_RetainAsPublished at_ShareGroup at_SharedTaskID].
  fold (value_of t). set (o := final_outcome 3 (uo_outcomes io)).
  destruct (has_message (dt_MessageID t) (queue a (dt_ClientID t))) eqn:Hh.
  - erewrite (retry_final 3 _ _ db db tt); [|by rewrite Hex]. fold o. clearbody o. unfold reported. split; by destruct o.
  - erewrite (retry_final 3 _ _ db (kv_set (taskKey (dt_ClientID t) (dt_TS t) (dt_TaskID t)) (json_Marshal (value_of t)) db) tt);
      [|by rewrite Hex]. fold o. clearbody o. unfold reported. cbn [fst snd]. split; [|by destruct o].
    destruct o; cbn [commit]; [|done|done]. rewrite taskKey_tkey. apply (Rep_queue db a); [done|done| | | | |]; cbn [q_tasks q_cursor].
    + intros k _ Hk. rewrite kv_get_set, decide_False; [done|]. intros <-. by apply (Hk (dt_TS t, dt_TaskID t)).
    + intros p Hp. rewrite kv_get_set. destruct (decide (p = (dt_TS t, dt_TaskID t))) as [->|Hne].
      * by rewrite decide_True, lookup_insert_eq.
      * rewrite decide_False, lookup_insert_ne by (done || (intros [_ ?]%tkey_inj; done)). by apply HR.
    + rewrite kv_get_set, decide_False by done. by apply HR.
    + intros p tv. rewrite lookup_insert_Some. intros [[<- <-]|[_ H]]; [done|]. by apply (rep_task_ok _ _ HR _ _ _ Hc H).
    + intros x. by apply (rep_cursor_ok _ _ HR).
Qed.

Lemma lookup_cursor db a c : Rep db a → client_ok c →
  lookupDeliveryCursorInTxn db c =
  Ok ((λ x, mkStoredCursor x.1 (mkCursor c 0 x.2.1 x.2.2)) <$> q_cursor (queue a c)).
Proof.
  intros HR Hc. unfold lookupDeliveryCursorInTxn. rewrite (rep_cursor _ _ HR) by done.
  destruct (q_cursor (queue a c)) as [[u [ts id]]|] eqn:E; [|done]. cbn. unfold deliveryCursorFromValue.
  rewrite json_roundtrip. cbn. destruct (rep_cursor_ok _ _ HR _ _ Hc E) as [_ Hid]. cbn in Hid. by rewrite Hid.
Qed.

Lemma position_after q c p : (∀ x, q_cursor q = Some x → pos_ok x.2) → pos_ok p →
  deliveryPositionAfter p.1 p.2 ((λ x, mkStoredCursor x.1 (mkCursor c 0 x.2.1 x.2.2)) <$> q_cursor q) = negb (cursor_passed q p).
Proof.
  intros Hq [Hts Hid]. unfold cursor_passed. destruct (q_cursor q) as [[u [ts id]]|]; [|done].
  cbn. destruct (Hq _ eq_refl) as [Hts' Hid']. cbn in *. rewrite uuid_order by done. unfold pos_lt. cbn.
  rewrite negb_involutive. destruct (Z.eqb_spec p.1 ts) as [->|Hne].
  - by rewrite Z.ltb_irrefl, Z.eqb_refl.
  - cbn. rewrite (proj2 (Z.eqb_neq ts p.1)) by lia. by rewrite orb_false_r.
Qed.

Lemma keysThrough_items c p es : pos_ok p → Forall (λ x, task_ok x.1 x.2) es →
  StronglySorted (λ x y, pos_lt x.1 y.1 = true) es →
  keysThrough (tkey c p) (items c es) = items c (filter (λ x, pos_lt p x.1 = false) es).
Proof.
  intros Hp Hok. induction 1 as [|x es Hs IH Hx]; [done|]. apply Forall_cons in Hok as [Hx' Hok].
  rewrite items_cons. cbn [keysThrough fst]. rewrite key_order by (done || apply Hx').
  rewrite filter_cons. destruct (pos_lt p x.1) eqn:E.
  - rewrite decide_False by done. rewrite filter_none; [done|]. intros y Hy.
    rewrite Forall_forall in Hx. specialize (Hx y Hy). by rewrite (pos_lt_trans _ _ _ E Hx).
  - rewrite decide_True by done. rewrite items_cons. f_equal. by apply IH.
Qed.

(** Deleting the keys of some tasks. *)
Lemma get_delete_items c es db k : kv_get (deleteKeys (items c es) db) k =
  if decide (k ∈ (tkey c <$> es.*1)) then None else kv_get db k.
Proof.
  rewrite get_deleteKeys. assert ((items c es).*1 = tkey c <$> es.*1) as ->; [|done].
  unfold items. by rewrite <-!list_fmap_compose.
Qed.

Lemma delete_task_key c es db p : pos_ok p → client_ok c → Forall (λ x, task_ok x.1 x.2) es →
  kv_get (deleteKeys (items c es) db) (tkey c p) = if decide (p ∈ es.*1) then None else kv_get db (tkey c p).
Proof.
  intros Hp Hc Hok. rewrite get_delete_items. apply decide_ext. rewrite list_elem_of_fmap. split; [|by eauto].
  intros (p' & E & Hin). apply list_elem_of_fmap in Hin as (x & -> & Hx). rewrite Forall_forall in Hok.
  apply tkey_inj in E as [_ ->]; [|done..|by apply (Hok x)]. by apply list_elem_of_fmap_2.
Qed.

Lemma delete_other_key c es db k : Forall (λ x, task_ok x.1 x.2) es → (∀ p, pos_ok p → k ≠ tkey c p) →
  kv_get (deleteKeys (items c es) db) k = kv_get db k.
Proof.
  intros Hok Hk. rewrite get_delete_items, decide_False; [done|]. intros (p & -> & Hp)%list_elem_of_fmap.
  apply list_elem_of_fmap in Hp as (x & -> & Hx). rewrite Forall_forall in Hok. by apply (Hk x.1); [apply (Hok x)|].
Qed.

(** The tasks left of a queue when some are deleted. *)
Lemma remaining q (es : list ((Z * string) * taskValue)) (P : (Z * string) * taskValue → Prop) `{!∀ x, Decision (P x)} p :
  (∀ p tv, (p, tv) ∈ es ↔ q_tasks q !! p = Some tv ∧ ¬ P (p, tv)) →
  (if decide (p ∈ es.*1) then None else q_tasks q !! p) = filter P (q_tasks q) !! p.
Proof.
  intros He. symmetry. destruct (q_tasks q !! p) as [tv|] eqn:E; [|case_decide; by apply map_lookup_filter_None; auto].
  destruct (decide (P (p, tv))) as [HP|HP].
  - rewrite decide_False; [by apply map_lookup_filter_Some|]. intros ([p' tv'] & -> & Hin)%list_elem_of_fmap.
    apply He in Hin as [Hin Hn]. cbn in E. by simplify_eq.
  - rewrite decide_True; [apply map_lookup_filter_None; right; intros ? ?; by simplify_eq|].
    apply list_elem_of_fmap. exists (p, tv). split; [done|]. by apply He.
Qed.

(** Storing a cursor leaves the tasks. *)
Lemma Rep_set_cursor db a c x : Rep db a → client_ok c → pos_ok x.2 →
  Rep (kv_set (cursorKey c) (json_Marshal (cursor_of c x)) db) (<[c := mkQueue (q_tasks (queue a c)) (Some x)]> a).
Proof.
  intros HR Hc Hx. apply (Rep_queue db a); [done|done| | | | |]; cbn [q_tasks q_cursor].
  - intros k Hk _. by rewrite kv_get_set, decide_False.
  - intros p Hp. rewrite kv_get_set, decide_False by done. by apply HR.
  - by rewrite kv_get_set, decide_True.
  - intros p tv. by apply (rep_task_ok _ _ HR).
  - by intros ? [= <-].
Qed.

(** Deleting the tasks for which [P] fails. *)
Lemma Rep_delete_tasks db a c es (P : (Z * string) * taskValue → Prop) `{HP : !∀ x, Decision (P x)} :
  Rep db a → client_ok c → Forall (λ x, task_ok x.1 x.2) es →
  (∀ p tv, (p, tv) ∈ es ↔ q_tasks (queue a c) !! p = Some tv ∧ ¬ P (p, tv)) →
  Rep (deleteKeys (items c es) db) (<[c := mkQueue (filter P (q_tasks (queue a c))) (q_cursor (queue a c))]> a).
Proof.
  intros HR Hc Hok He. apply (Rep_queue db a); [done|done| | | | |]; cbn [q_tasks q_cursor].
  - intros k _ Hk. by apply delete_other_key.
  - intros p Hp. rewrite delete_task_key by done. rewrite (rep_tasks _ _ HR) by done.
    rewrite <-(remaining _ es P p He). by case_decide.
  - rewrite delete_other_key by done. by apply HR.
  - intros p tv [H _]%map_lookup_filter_Some. by apply (rep_task_ok _ _ HR _ _ _ Hc H).
  - intros x. by apply (rep_cursor_ok _ _ HR).
Qed.

Lemma filter_elem (P : (Z * string) * taskValue → Prop) `{HP : !∀ x, Decision (P x)}
    (es : list ((Z * string) * taskValue)) q :
  (∀ p tv, (p, tv) ∈ es ↔ q_tasks q !! p = Some tv) →
  ∀ p tv, (p, tv) ∈ filter P es ↔ q_tasks q !! p = Some tv ∧ P (p, tv).
Proof. intros He p tv. rewrite list_elem_of_filter, He. tauto. Qed.

Lemma advance_txn db a u c ts id : Rep db a → client_ok c → pos_ok (ts, id) →
  let q := queue a c in let r := mkAdvanceCursor u c ts id in
  if cursor_passed q (ts, id) then advanceCursorTxn r (json_Marshal (cursor_of c (u, (ts, id)))) db = Ok (db, false)
  else ∃ db', advanceCursorTxn r (json_Marshal (cursor_of c (u, (ts, id)))) db = Ok (db', true) ∧
    Rep db' (<[c := mkQueue (filter (λ x, pos_lt (ts, id) x.1 = true) (q_tasks q)) (Some (u, (ts, id)))]> a).
Proof.
  intros HR Hc Hp q r. unfold advanceCursorTxn, r. cbn [ac_ClientID ac_LastTaskID ac_LastTSUnixNano].
  rewrite (lookup_cursor _ _ _ HR Hc). cbn [mbind result_mbind result_bind].
  destruct Hp as [Hts Hid]. cbn in Hts, Hid. unfold canonical in Hid. rewrite Hid.
  assert (∀ x, q_cursor (queue a c) = Some x → pos_ok x.2) as Hq by (intros x; by apply (rep_cursor_ok _ _ HR)).
  pose proof (position_after (queue a c) c (ts, id) Hq (conj Hts Hid)) as Hpa. cbn [fst snd] in Hpa. rewrite Hpa.
  fold q. rewrite negb_involutive. destruct (cursor_passed q (ts, id)); [done|].
  pose proof (Rep_set_cursor db a c (u, (ts, id)) HR Hc (conj Hts Hid)) as HR1.
  unfold deleteDeliveryTasksThroughCursor. rewrite Hid.
  destruct (iterate_all _ _ c HR1 Hc) as (es & -> & Hs & Hok & He). cbn [result_bind mbind].
  eexists. split; [done|]. rewrite taskKey_tkey, keysThrough_items by done.
  eapply (Rep_delete_tasks _ _ c (filter (λ x, pos_lt (ts, id) x.1 = false) es) (λ x, pos_lt (ts, id) x.1 = true)) in HR1 as HR2;
    [| done | by apply Forall_filtered | ].
  2:{ intros p tv. rewrite (filter_elem (λ x, pos_lt (ts, id) x.1 = false) es _ He). cbn. by rewrite not_true_iff_false. }
  rewrite !queue_insert, decide_True in HR2 by done. cbn in HR2. rewrite insert_insert_eq in HR2. done.
Qed.

Lemma advance_refines db a io u c : Rep db a → op_valid (OpAdvance io u c) →
  let '(db', r) := q_step (OpAdvance io u c) db in
  let '(a', r') := a_step (OpAdvance io u c) a in Rep db' a' ∧ r = r'.
Proof.
  intros HR [Hc Hp]. cbn [q_step a_step]. unfold AdvanceDeliveryCursor.
  rewrite sm_Update_marshalled by done. rewrite apply_opAdvanceCursor. unfold updateAdvanceCursor. rewrite json_roundtrip.
  cbn [ac_ClientID ac_LastTaskID ac_LastTSUnixNano ac_UpdatedTSUnixNano].
  rewrite bool_decide_false by (by destruct Hc).
  rewrite bool_decide_false by (intros E; destruct Hp as [_ Hid]; cbn in Hid; unfold canonical in Hid; rewrite E, uuid_Parse_empty in Hid; done).
  pose proof (advance_txn db a u _ _ _ HR Hc Hp) as Htx. cbn zeta in Htx. unfold cursor_of in Htx. cbn [fst snd] in Htx.
  set (o := uo_outcome io). destruct (cursor_passed (queue a (dc_ClientID c)) (dc_LastTS c, dc_LastTaskID c)).
  - erewrite db_Update_Ok by exact Htx. rewrite Htx. unfold reported. clearbody o. split; by destruct o.
  - destruct Htx as (db' & Htx & HR'). erewrite db_Update_Ok by exact Htx. rewrite Htx. unfold reported. clearbody o.
    cbn [fst snd]. split; by destruct o.
Qed.

Lemma reset_refines db a io c : Rep db a → op_valid (OpReset io c) →
  let '(db', r) := q_step (OpReset io c) db in
  let '(a', r') := a_step (OpReset io c) a in Rep db' a' ∧ r = r'.
Proof.
  intros HR Hc. cbn [op_valid] in Hc. cbn [q_step a_step]. unfold ResetClientDeliveryState.
  rewrite bool_decide_false by (by destruct Hc). rewrite sm_Update_marshalled by done.
  rewrite apply_opDeleteClientState. unfold updateDeleteClientState. rewrite json_roundtrip. cbn [dcs_ClientID].
  rewrite bool_decide_false by (by destruct Hc). erewrite db_Update_Ok by done. set (o := uo_outcome io). clearbody o.
  split; [|by destruct o]. destruct o; cbn [commit]; [|done|done]. unfold deleteClientDeliveryState.
  destruct (iterate_all _ _ c HR Hc) as (es & -> & _ & Hok & He).
  apply (Rep_queue db a); [done|done| | | | |]; cbn [q_tasks q_cursor emptyQueue].
  - intros k Hk Hk'. rewrite kv_get_delete, decide_False by done. by apply delete_other_key.
  - intros p Hp. rewrite kv_get_delete, decide_False by done. rewrite delete_task_key by done. case_decide as Hin; [done|].
    rewrite (rep_tasks _ _ HR) by done. destruct (q_tasks (queue a c) !! p) as [tv|] eqn:E; [|done].
    exfalso. apply Hin, list_elem_of_fmap. exists (p, tv). split; [done|]. by apply He.
  - by rewrite kv_get_delete, decide_True.
  - done.
  - done.
Qed.

Lemma sharedOnes_items g c es : sharedOnes g (items c es) =
  Ok (items c (filter (λ x, tv_ShareGroup x.2 = g ∧ tv_SharedTaskID x.2 ≠ "") es)).
Proof.
  induction es as [|x es IH]; [done|]. rewrite items_cons. cbn [sharedOnes snd]. rewrite json_roundtrip, IH.
  cbn [mbind result_mbind result_bind]. rewrite filter_cons. f_equal.
  destruct (decide (tv_ShareGroup x.2 = g)) as [H1|H1]; [rewrite bool_decide_true by done|rewrite bool_decide_false by done].
  - destruct (decide (tv_SharedTaskID x.2 = "")) as [H2|H2].
    + rewrite bool_decide_true, decide_False by (done || (by intros [_ ?])). done.
    + rewrite bool_decide_false, decide_True by done. done.
  - rewrite decide_False by (by intros [? _]). done.
Qed.

Lemma drop_refines db a io c g : Rep db a → op_valid (OpDropShared io c g) →
  let '(db', r) := q_step (OpDropShared io c g) db in
  let '(a', r') := a_step (OpDropShared io c g) a in Rep db' a' ∧ r = r'.
Proof.
  intros HR [Hc Hg]. cbn [q_step a_step]. unfold DeleteClientSharedDeliveryTasks.
  rewrite !bool_decide_false by (done || by destruct Hc). rewrite sm_Update_marshalled by done.
  rewrite apply_opDeleteSharedTasks. unfold updateDeleteSharedTasks. rewrite json_roundtrip. cbn [dst_ClientID dst_ShareGroup].
  rewrite !bool_decide_false by (done || by destruct Hc). set (o := uo_outcome io). clearbody o.
  destruct (iterate_all _ _ c HR Hc) as (es & Ei & _ & Hok & He).
  erewrite db_Update_Ok; [|unfold deleteClientSharedDeliveryTasks; rewrite Ei, sharedOnes_items; reflexivity].
  split; [|by destruct o]. destruct o; cbn [commit]; [|done|done].
  apply (Rep_delete_tasks db a c _ (λ x, ¬ (tv_ShareGroup x.2 = g ∧ tv_SharedTaskID x.2 ≠ ""))); [done|done| |].
  - by apply Forall_filtered.
  - intros p tv. rewrite (filter_elem (λ x, tv_ShareGroup x.2 = g ∧ tv_SharedTaskID x.2 ≠ "") es _ He). cbn. split; [tauto|]. intros [? H]. split; [done|]. by apply dec_stable.
Qed.

(** ** Reading *)

Lemma item_task c seek n x : task_ok x.1 x.2 → tkey c x.1 ≠ seek →
  deliveryTaskFromItem c (taskKeyPrefix c) seek n (tkey c x.1, json_Marshal x.2) = Ok (Some (task_of c x)).
Proof.
  intros (Hp & Hm & Hsh & _) Hne. unfold deliveryTaskFromItem. cbn [fst snd].
  rewrite (bool_decide_false _ Hne), andb_false_r. unfold tkey. rewrite parse_position by done.
  destruct x as [[ts id] tv]. cbn [fst snd]. rewrite json_roundtrip. unfold deliveryTaskFromValue.
  unfold canonical in Hm. cbn in Hm. rewrite Hm. unfold task_of. cbn [fst snd].
  destruct (decide (tv_SharedTaskID tv = "")) as [E|E]; [by rewrite (bool_decide_true _ E)|].
  rewrite (bool_decide_false _ E). destruct Hsh as [?|Hsh]; [done|]. unfold canonical in Hsh. cbn in Hsh. by rewrite Hsh.
Qed.

Lemma collectTasks_items c seek limit out es :
  Forall (λ x, task_ok x.1 x.2) es → Forall (λ x, tkey c x.1 ≠ seek) es → (length out ≤ limit)%nat →
  collectTasks c (taskKeyPrefix c) seek limit out (items c es) = Ok (take limit (out ++ (task_of c <$> es))).
Proof.
  intros Hok Hne. revert out. induction es as [|x es IH]; intros out Hl.
  { cbn. rewrite app_nil_r, take_ge by done. done. }
  apply Forall_cons in Hok as [Hx Hok], Hne as [Hxn Hne]. rewrite items_cons. cbn [collectTasks fmap list_fmap].
  destruct (decide (limit <= length out)%nat) as [Hle|Hle].
  - rewrite bool_decide_true by done. rewrite take_app_le by lia. by rewrite take_ge by lia.
  - rewrite bool_decide_false by done. rewrite item_task by done. cbn [mbind result_mbind result_bind].
    rewrite IH; [|done|done|rewrite length_app; cbn; lia]. by rewrite <-app_assoc.
Qed.

(** A sorted list of all tasks is the list of the queue. *)
Lemma pos_list_unique {V} (P : (Z * string) * V → Prop) `{HP : !∀ x, Decision (P x)} m es :
  StronglySorted (λ x y, pos_lt x.1 y.1 = true) es →
  (∀ p tv, (p, tv) ∈ es ↔ m !! p = Some tv ∧ P (p, tv)) → es = filter P (pos_list m).
Proof.
  intros Hs He. eapply strict_sorted_unique; [| |exact Hs|apply StronglySorted_filter, pos_list_sorted|].
  - intros x. cbn. by rewrite pos_lt_irrefl.
  - intros x y z. cbn. apply pos_lt_trans.
  - intros [p tv]. rewrite He, list_elem_of_filter, pos_list_elem. tauto.
Qed.
Lemma q_list_unique (P : (Z * string) * taskValue → Prop) `{HP : !∀ x, Decision (P x)} q es :
  StronglySorted (λ x y, pos_lt x.1 y.1 = true) es →
  (∀ p tv, (p, tv) ∈ es ↔ q_tasks q !! p = Some tv ∧ P (p, tv)) → es = filter P (q_list q).
Proof. apply pos_list_unique. Qed.

Lemma pos_lt_asym p q : pos_lt p q = true → pos_lt q p = false.
Proof.
  intros E. destruct (pos_lt q p) eqn:F; [|done]. by rewrite <-(pos_lt_irrefl p), (pos_lt_trans _ _ _ E F).
Qed.

Lemma filter_id {A} (P : A → Prop) `{HP : !∀ x, Decision (P x)} l : Forall P l → filter P l = l.
Proof. induction 1 as [|x l Hx _ IH]; [done|]. by rewrite filter_cons_True, IH. Qed.

(** Reading from the position of a task skips that task. *)
Lemma collect_from c p limit es : client_ok c → pos_ok p → (0 < limit)%nat →
  Forall (λ x, task_ok x.1 x.2) es → StronglySorted (λ x y, pos_lt x.1 y.1 = true) es →
  Forall (λ x, pos_lt x.1 p = false) es →
  collectTasks c (taskKeyPrefix c) (tkey c p) limit [] (items c es) =
  Ok (take limit (task_of c <$> filter (λ x, pos_lt p x.1 = true) es)).
Proof.
  intros Hc Hp Hl Hok Hs Hge.
  assert (∀ l, Forall (λ x, task_ok x.1 x.2) l → Forall (λ x, pos_lt p x.1 = true) l →
    collectTasks c (taskKeyPrefix c) (tkey c p) limit [] (items c l) =
    Ok (take limit (task_of c <$> filter (λ x, pos_lt p x.1 = true) l))) as Hplain.
  { intros l Hlok Hlt. rewrite collectTasks_items; [by rewrite filter_id|done| |cbn; lia].
    rewrite Forall_forall in Hlok, Hlt |- *. intros x Hx E. apply tkey_inj in E as [_ E]; [|done|done|by apply (Hlok x)|done].
    specialize (Hlt x Hx). by rewrite E, pos_lt_irrefl in Hlt. }
  destruct es as [|x es]; [by apply Hplain|].
  apply StronglySorted_inv in Hs as [Hs Hx]. apply Forall_cons in Hok as [Hxok Hok], Hge as [Hxge Hge].
  destruct (decide (x.1 = p)) as [Ex|Hne].
  - rewrite items_cons. cbn [collectTasks length]. rewrite bool_decide_false by lia.
    unfold deliveryTaskFromItem. cbn [fst snd]. rewrite Ex, !bool_decide_true by done.
    cbn [andb mbind result_mbind result_bind app]. rewrite Hplain by (done || by rewrite <-Ex).
    rewrite filter_cons, decide_False; [done|]. by rewrite Ex, pos_lt_irrefl.
  - assert (pos_lt p x.1 = true) as Hpx by (destruct (pos_lt_total _ _ Hne); congruence).
    apply Hplain; [by constructor|]. constructor; [done|]. apply Forall_forall. intros y Hy.
    rewrite Forall_forall in Hx. by eapply pos_lt_trans; [exact Hpx|apply Hx].
Qed.

(** A position to read from: the beginning, or a task's position. *)
Definition start_ok (p : Z * string) : Prop := (p.2 = uuid_Nil ∧ p.1 ≤ 0) ∨ pos_ok p.

Lemma read_refines db a c p limit : Rep db a → client_ok c → start_ok p →
  ReadDeliveryTasks db c p.1 p.2 limit = Ok (q_read (queue a c) c p limit).
Proof.
  intros HR Hc Hp. unfold ReadDeliveryTasks, lookupDeliveryTasks, q_read.
  rewrite bool_decide_false by (by destruct Hc). cbn [orb].
  destruct (Z.leb_spec limit 0) as [Hl|Hl]; [by rewrite Z2Nat.nonpos by lia|].
  unfold deliveryTaskSeekKey, after.
  destruct (bool_decide (p.2 = uuid_Nil) && (p.1 <=? 0)) eqn:Estart.
  - destruct (iterate_all db a c HR Hc) as (es & -> & Hs & Hok & He). rewrite collectTasks_items; [|done| |cbn; lia].
    + cbn [app]. rewrite (q_list_unique (λ _, true = true) (queue a c) es Hs); [done|].
      intros q tv. rewrite He. tauto.
    + apply Forall_forall. intros x Hx E. rewrite Forall_forall in Hok. destruct (Hok x Hx) as [Hxp _].
      apply (f_equal String.length) in E. unfold tkey in E. rewrite append_length, positionBytes_length in E by done. lia.
  - assert (pos_ok p) as Hpos.
    { destruct Hp as [[H1 H2]|Hp]; [|done]. apply andb_false_iff in Estart as [E|E];
        [by rewrite bool_decide_true in E by done|lia]. }
    destruct p as [ts id]. cbn [fst snd] in *. rewrite taskKey_tkey. unfold tkey at 2.
    destruct (iterate_queue db a c (positionBytes (ts, id)) HR Hc) as (es & -> & Hs & Hok & He).
    fold (tkey c (ts, id)) in He.
    assert (∀ p tv, (p, tv) ∈ es ↔ q_tasks (queue a c) !! p = Some tv ∧ pos_lt p (ts, id) = false) as He'.
    { intros p tv. rewrite He. split; intros [Ht H]; (split; [done|]);
        rewrite key_order in *; try done; by destruct (rep_task_ok _ _ HR c p tv Hc Ht). }
    rewrite collect_from; [|done|done|lia|done|done|apply Forall_forall; intros [q tv] Hq; by apply (He' q tv)].
    cbn [orb]. rewrite (q_list_unique (λ x, pos_lt (ts, id) x.1 = true) (queue a c)
      (filter (λ x, pos_lt (ts, id) x.1 = true) es)); [done|by apply StronglySorted_filter|].
    intros q tv. rewrite list_elem_of_filter, He'. cbn. split; [tauto|]. intros [Ht H]. split_and!; [done|done|by apply pos_lt_asym].
Qed.

(** ** Sequences of operations *)

Lemma step_refines op db a : Rep db a → op_valid op →
  let '(db', r) := q_step op db in let '(a', r') := a_step op a in Rep db' a' ∧ r = r'.
Proof.
  intros HR Hop. destruct op; [by apply append_refines|by apply advance_refines|by apply reset_refines|by apply drop_refines].
Qed.

Lemma Rep_empty db : (∀ k, kv_get db k = None) → Rep db ∅.
Proof.
  intros Hnone. split.
  - intros c p _ _. by rewrite Hnone.
  - intros k v H. by rewrite Hnone in H.
  - intros c _. by rewrite Hnone.
  - intros c p tv _. unfold queue. by rewrite lookup_empty.
  - intros c x _. unfold queue. by rewrite lookup_empty.
Qed.

Lemma run_refines ops db a : Rep db a → Forall op_valid ops →
  Rep (run_ops q_step ops db).1 (run_ops a_step ops a).1 ∧
  (run_ops q_step ops db).2 = (run_ops a_step ops a).2.
Proof.
  intros HR Hv. revert db a HR. induction Hv as [|op ops Hop _ IH]; intros db a HR; [done|].
  cbn [run_ops]. pose proof (step_refines op db a HR Hop) as Hs. destruct (q_step op db) as [db1 r], (a_step op a) as [a1 r'].
  destruct Hs as [HR1 <-]. destruct (IH db1 a1 HR1) as [H1 H2].
  destruct (run_ops q_step ops db1), (run_ops a_step ops a1). cbn in *. by subst.
Qed.

(** ** One task per message *)

Definition messages_unique (a : Queues) : Prop := ∀ c p p' tv tv',
  q_tasks (queue a c) !! p = Some tv → q_tasks (queue a c) !! p' = Some tv' → tv_MessageID tv = tv_MessageID tv' → p = p'.

Lemma messages_unique_insert a c q : messages_unique a →
  (∀ p p' tv tv', q_tasks q !! p = Some tv → q_tasks q !! p' = Some tv' → tv_MessageID tv = tv_MessageID tv' → p = p') →
  messages_unique (<[c := q]> a).
Proof. intros Ha Hq c'. rewrite queue_insert. destruct (decide (c = c')); [done|apply Ha]. Qed.

Lemma a_step_unique op a : messages_unique a → messages_unique (a_step op a).1.
Proof.
  intros Ha. destruct op as [io t|io u c|io c|io c g]; cbn [a_step].
  - destruct (has_message _ _) eqn:Hh; [done|]. destruct (final_outcome _ _); cbn [commit fst]; [|done|done].
    apply bool_decide_eq_false in Hh. apply messages_unique_insert; [done|]. cbn [q_tasks].
    intros p p' tv tv'. rewrite !lookup_insert_Some.
    intros [[<- <-]|[Hp H]] [[<- <-]|[Hp' H']] E; [done| | |by eapply Ha].
    + exfalso. apply Hh. by exists p', tv'.
    + exfalso. apply Hh. by exists p, tv.
  - destruct (cursor_passed _ _); [done|]. destruct (uo_outcome io); cbn [commit fst]; [|done|done].
    apply messages_unique_insert; [done|]. cbn [q_tasks].
    intros p p' tv tv' [H _]%map_lookup_filter_Some [H' _]%map_lookup_filter_Some. by eapply Ha.
  - destruct (uo_outcome io); cbn [commit fst]; [|done|done]. by apply messages_unique_insert.
  - destruct (uo_outcome io); cbn [commit fst]; [|done|done]. apply messages_unique_insert; [done|]. cbn [q_tasks].
    intros p p' tv tv' [H _]%map_lookup_filter_Some [H' _]%map_lookup_filter_Some. by eapply Ha.
Qed.

Lemma run_unique ops a : messages_unique a → messages_unique (run_ops a_step ops a).1.
Proof.
  revert a. induction ops as [|op ops IH]; intros a Ha; [done|]. cbn [run_ops].
  pose proof (a_step_unique op a Ha) as Ha1. destruct (a_step op a) as [a1 r]. cbn in Ha1. specialize (IH a1 Ha1).
  by destruct (run_ops a_step ops a1).
Qed.
End refinement.
