(* ===== verification/DeliveryQueue.v ===== *)
(** * The delivery queue: interfaces implemented, and its theorems

    Instances of the interfaces of [DeliveryStore] (an in-memory ordered map, the
    canonical text form of UUIDs and an encoding of the structs), and the theorems
    about the store: it implements per-client queues, holds one task per message,
    pages through a queue to its end, and loses a task appended behind the cursor. *)

From stdpp Require Import sorting countable.
From S2P Require Import Prelude GoStrings WalEngine WalEngineProofs Inflight Downlink DownlinkProofs DeliveryStore DeliveryStoreProofs.

(** ** An ordered map in memory *)

Definition key_le (x y : string * string) : Prop := string_ltb y.1 x.1 = false.
#[export] Instance key_le_dec : RelDecision key_le.
Proof. intros x y. unfold key_le. apply _. Defined.
#[export] Instance key_le_total : Total key_le.
Proof.
  intros x y. unfold key_le. destruct (string_ltb y.1 x.1) eqn:E; [right|by left]. by apply string_ltb_antisym.
Qed.
#[export] Instance key_le_trans : Transitive key_le.
Proof. intros x y z. unfold key_le. intros H1 H2. by eapply string_ltb_false_trans. Qed.

#[export] Instance map_KV : KV (gmap string string) := {
  kv_get db k := db !! k;
  kv_set k v db := <[k := v]> db;
  kv_delete k db := delete k db;
  kv_seek db s := merge_sort key_le (map_to_list (filter (λ x, string_ltb x.1 s = false) db)) }.

#[export] Instance map_KVLaws : KVLaws (gmap string string).
Proof.
  split.
  - intros k v db k'. cbn. destruct (decide (k = k')) as [->|]; [apply lookup_insert_eq|by apply lookup_insert_ne].
  - intros k db k'. cbn. destruct (decide (k = k')) as [->|]; [apply lookup_delete_eq|by apply lookup_delete_ne].
  - intros db s k v. cbn. rewrite (merge_sort_Permutation _ _), elem_of_map_to_list, map_lookup_filter_Some. done.
  - intros db s. cbn. set (l := map_to_list _).
    assert (NoDup (merge_sort key_le l).*1) as Hnd.
    { rewrite (merge_sort_Permutation _ _). unfold l. apply NoDup_fst_map_to_list. }
    pose proof (StronglySorted_merge_sort key_le l) as Hs.
    induction Hs as [|x k Hs IH Hx]; [constructor|]. apply NoDup_cons in Hnd as [Hn Hnd].
    constructor; [by apply IH|]. rewrite Forall_forall in Hx |- *. intros y Hy. specialize (Hx y Hy). unfold key_le in Hx.
    destruct (string_ltb_total x.1 y.1) as [H|H]; [|done|congruence].
    intros E. apply Hn. rewrite E. by apply list_elem_of_fmap_2.
Qed.

(** ** Canonical UUID text *)

Definition hexDigit (z : Z) : byte := z2b (if z <? 10 then 48 + z else 87 + z).
Definition unhexDigit (b : byte) : option Z :=
  let v := b2z b in
  if (48 <=? v) && (v <=? 57) then Some (v - 48)
  else if (97 <=? v) && (v <=? 102) then Some (v - 87) else None.

(** Two digits for each byte, with the dashes after bytes 4, 6, 8 and 10. *)
Fixpoint hexBytes (n : nat) (b : string) : string :=
  match b with
  | EmptyString => EmptyString
  | String c b' =>
      (if bool_decide (n ∈ [4; 6; 8; 10]%nat) then "-" else "") +:+
      String (hexDigit (b2z c / 16)) (String (hexDigit (b2z c mod 16)) (hexBytes (S n) b'))
  end.
Fixpoint unhexBytes (fuel n : nat) (s : string) : option string :=
  match fuel with
  | O => if bool_decide (s = "") then Some "" else None
  | S fuel =>
      let s := if bool_decide (n ∈ [4; 6; 8; 10]%nat) then (match s with String "-" s' => Some s' | _ => None end) else Some s in
      match s with
      | Some (String h (String l s')) =>
          a ← unhexDigit h; b ← unhexDigit l; r ← unhexBytes fuel (S n) s'; Some (String (z2b (16 * a + b)) r)
      | _ => None
      end
  end.

#[export] Instance hex_UUIDs : UUIDs := {
  uuid_Parse s := _ ← unhexBytes 16 0 s; Some s;
  uuid_bytes s := default "" (unhexBytes 16 0 s);
  uuid_FromBytes b := hexBytes 0 b }.

Lemma unhexDigit_spec h a : unhexDigit h = Some a →
  0 ≤ a < 16 ∧ b2z h = (if a <? 10 then 48 + a else 87 + a) ∧ hexDigit a = h.
Proof.
  unfold unhexDigit. intros H.
  assert (0 ≤ a < 16 ∧ b2z h = (if a <? 10 then 48 + a else 87 + a)) as [Ha Hb].
  { destruct ((48 <=? b2z h) && (b2z h <=? 57)) eqn:E.
    - apply andb_true_iff in E as [E1 E2]. injection H as <-. destruct (Z.ltb_spec (b2z h - 48) 10); lia.
    - destruct ((97 <=? b2z h) && (b2z h <=? 102)) eqn:F; [|done]. apply andb_true_iff in F as [F1 F2]. injection H as <-.
      destruct (Z.ltb_spec (b2z h - 87) 10); lia. }
  split_and!; [lia|lia|done|]. unfold hexDigit. by rewrite <-Hb, z2b_b2z.
Qed.

Lemma unhexDigit_order h h' a a' : unhexDigit h = Some a → unhexDigit h' = Some a' →
  (b2z h <? b2z h') = (a <? a').
Proof.
  intros (Ha & E & _)%unhexDigit_spec (Ha' & E' & _)%unhexDigit_spec. rewrite E, E'.
  destruct (Z.ltb_spec a 10), (Z.ltb_spec a' 10), (Z.ltb_spec a a');
    rewrite ?Z.ltb_lt, ?Z.ltb_ge; lia.
Qed.

(** What a successful decoding step did. *)
Lemma unhexBytes_step fuel n s r : unhexBytes (S fuel) n s = Some r →
  ∃ h l s' a b r', s = (if bool_decide (n ∈ [4; 6; 8; 10]%nat) then "-" else "") +:+ String h (String l s') ∧
    unhexDigit h = Some a ∧ unhexDigit l = Some b ∧ unhexBytes fuel (S n) s' = Some r' ∧ r = String (z2b (16 * a + b)) r'.
Proof.
  cbn [unhexBytes]. set (d := bool_decide _).
  destruct (if d then _ else _) as [s1|] eqn:E; [|done].
  assert (s = (if d then "-" else "") +:+ s1) as ->.
  { destruct d; [|by injection E as ->]. destruct s as [|c s]; [done|]. destruct c as [[] [] [] [] [] [] [] []]; try done.
    by injection E as ->. }
  destruct s1 as [|h [|l s']]; [done|done|]. intros H.
  apply bind_Some in H as (a & Ha & H). apply bind_Some in H as (b & Hb & H). apply bind_Some in H as (r' & Hr & H).
  injection H as <-. eauto 12.
Qed.

Lemma unhexBytes_length f n s r : unhexBytes f n s = Some r → String.length r = f.
Proof.
  revert n s r. induction f as [|f IH]; intros n s r E.
  - cbn in E. case_bool_decide; by simplify_eq.
  - apply unhexBytes_step in E as (h & l & s' & a & b & r' & -> & _ & _ & E & ->). cbn. by rewrite (IH _ _ _ E).
Qed.

Lemma hexBytes_unhex f n s r : unhexBytes f n s = Some r → hexBytes n r = s.
Proof.
  revert n s r. induction f as [|f IH]; intros n s r E.
  - cbn in E. case_bool_decide; by simplify_eq.
  - apply unhexBytes_step in E as (h & l & s' & a & b & r' & -> & Ha & Hb & E & ->). cbn [hexBytes].
    apply unhexDigit_spec in Ha as (Ha & _ & Hh), Hb as (Hb & _ & Hl). rewrite b2z_z2b_u8 by (unfold is_u8; lia).
    rewrite (IH _ _ _ E). rewrite <-(Z.div_unique (16 * a + b) 16 a b), <-(Z.mod_unique (16 * a + b) 16 a b) by lia.
    by rewrite Hh, Hl.
Qed.

Lemma unhexBytes_order f n s s' r r' : unhexBytes f n s = Some r → unhexBytes f n s' = Some r' →
  string_ltb r r' = string_ltb s s'.
Proof.
  revert n s s' r r'. induction f as [|f IH]; intros n s s' r r' E E'.
  - cbn in E, E'. repeat case_bool_decide; by simplify_eq.
  - apply unhexBytes_step in E as (h & l & s1 & a & b & r1 & -> & Ha & Hb & E & ->).
    apply unhexBytes_step in E' as (h' & l' & s1' & a' & b' & r1' & -> & Ha' & Hb' & E' & ->).
    rewrite string_ltb_app_l. cbn [string_ltb]. rewrite !(IH _ _ _ _ _ E E').
    rewrite (unhexDigit_order _ _ _ _ Ha Ha'), (unhexDigit_order _ _ _ _ Ha' Ha),
      (unhexDigit_order _ _ _ _ Hb Hb'), (unhexDigit_order _ _ _ _ Hb' Hb).
    apply unhexDigit_spec in Ha as (Ha & _), Hb as (Hb & _), Ha' as (Ha' & _), Hb' as (Hb' & _).
    rewrite !b2z_z2b_u8 by (unfold is_u8; lia).
    destruct (Z.ltb_spec (16 * a + b) (16 * a' + b')), (Z.ltb_spec (16 * a' + b') (16 * a + b)),
      (Z.ltb_spec a a'), (Z.ltb_spec a' a), (Z.ltb_spec b b'), (Z.ltb_spec b' b); try lia; done.
Qed.

#[export] Instance hex_UUIDLaws : UUIDLaws.
Proof.
  split; cbn [uuid_Parse uuid_bytes uuid_FromBytes hex_UUIDs].
  - intros s u (r & E & [= <-])%bind_Some. by rewrite E.
  - intros u (r & E & _)%bind_Some. rewrite E. by eapply unhexBytes_length.
  - intros u (r & E & _)%bind_Some. rewrite E. by eapply hexBytes_unhex.
  - intros u v (r & E & _)%bind_Some (r' & E' & _)%bind_Some. rewrite E, E'. by eapply unhexBytes_order.
  - reflexivity.
  - reflexivity.
Qed.

(** ** An encoding of the structs *)

Fixpoint bits (p : positive) : string :=
  match p with xH => "" | xO p => String "0" (bits p) | xI p => String "1" (bits p) end.
Fixpoint unbits (s : string) : option positive :=
  match s with
  | EmptyString => Some xH
  | String "0" s => xO <$> unbits s
  | String "1" s => xI <$> unbits s
  | _ => None
  end.
Lemma unbits_bits p : unbits (bits p) = Some p.
Proof. induction p as [p IH|p IH|]; cbn; rewrite ?IH; done. Qed.

Definition unmarshalBits {A} `{!EqDecision A, !Countable A} (s : string) : option A :=
  match s with String "{" r => unbits r ≫= decode | _ => None end.
Lemma unmarshalBits_encode {A} `{!EqDecision A, !Countable A} (a : A) :
  unmarshalBits (String "{" (bits (encode a))) = Some a.
Proof. unfold unmarshalBits. rewrite unbits_bits. apply decode_encode. Qed.

Definition countable_Json {A} `{!EqDecision A, !Countable A} : Json A := {|
  json_Marshal a := String "{" (bits (encode a));
  json_Unmarshal := unmarshalBits;
  json_roundtrip := unmarshalBits_encode;
  json_object a := ex_intro _ _ eq_refl |}.

#[export] Instance taskValue_eq_dec : EqDecision taskValue.
Proof. solve_decision. Defined.
#[export] Instance taskValue_countable : Countable taskValue :=
  inj_countable' (λ '(mkTaskValue x0 x1 x2 x3 x4 x5 x6), (x0, x1, x2, x3, x4, x5, x6)) (λ '(x0, x1, x2, x3, x4, x5, x6), mkTaskValue x0 x1 x2 x3 x4 x5 x6) ltac:(by intros []).
#[export] Instance cursorValue_eq_dec : EqDecision cursorValue.
Proof. solve_decision. Defined.
#[export] Instance cursorValue_countable : Countable cursorValue :=
  inj_countable' (λ '(mkCursorValue x0 x1 x2 x3), (x0, x1, x2, x3)) (λ '(x0, x1, x2, x3), mkCursorValue x0 x1 x2 x3) ltac:(by intros []).
#[export] Instance shareTaskValue_eq_dec : EqDecision shareTaskValue.
Proof. solve_decision. Defined.
#[export] Instance shareTaskValue_countable : Countable shareTaskValue :=
  inj_countable' (λ '(mkShareTaskValue x0 x1 x2 x3 x4 x5 x6 x7 x8 x9 x10 x11 x12), (x0, x1, x2, x3, x4, x5, x6, x7, x8, x9, x10, x11, x12)) (λ '(x0, x1, x2, x3, x4, x5, x6, x7, x8, x9, x10, x11, x12), mkShareTaskValue x0 x1 x2 x3 x4 x5 x6 x7 x8 x9 x10 x11 x12) ltac:(by intros []).
#[export] Instance shareCursorValue_eq_dec : EqDecision shareCursorValue.
Proof. solve_decision. Defined.
#[export] Instance shareCursorValue_countable : Countable shareCursorValue :=
  inj_countable' (λ '(mkShareCursorValue x0 x1 x2 x3 x4), (x0, x1, x2, x3, x4)) (λ '(x0, x1, x2, x3, x4), mkShareCursorValue x0 x1 x2 x3 x4) ltac:(by intros []).
#[export] Instance updateRequest_eq_dec : EqDecision updateRequest.
Proof. solve_decision. Defined.
#[export] Instance updateRequest_countable : Countable updateRequest :=
  inj_countable' (λ '(mkUpdateRequest x0 x1), (x0, x1)) (λ '(x0, x1), mkUpdateRequest x0 x1) ltac:(by intros []).
#[export] Instance appendTaskRequest_eq_dec : EqDecision appendTaskRequest.
Proof. solve_decision. Defined.
#[export] Instance appendTaskRequest_countable : Countable appendTaskRequest :=
  inj_countable' (λ '(mkAppendTask x0 x1 x2 x3 x4 x5 x6 x7 x8 x9), (x0, x1, x2, x3, x4, x5, x6, x7, x8, x9)) (λ '(x0, x1, x2, x3, x4, x5, x6, x7, x8, x9), mkAppendTask x0 x1 x2 x3 x4 x5 x6 x7 x8 x9) ltac:(by intros []).
#[export] Instance advanceCursorRequest_eq_dec : EqDecision advanceCursorRequest.
Proof. solve_decision. Defined.
#[export] Instance advanceCursorRequest_countable : Countable advanceCursorRequest :=
  inj_countable' (λ '(mkAdvanceCursor x0 x1 x2 x3), (x0, x1, x2, x3)) (λ '(x0, x1, x2, x3), mkAdvanceCursor x0 x1 x2 x3) ltac:(by intros []).
#[export] Instance deleteClientStateRequest_eq_dec : EqDecision deleteClientStateRequest.
Proof. solve_decision. Defined.
#[export] Instance deleteClientStateRequest_countable : Countable deleteClientStateRequest := inj_countable' dcs_ClientID mkDeleteClientState ltac:(by intros []).
#[export] Instance deleteSharedTasksRequest_eq_dec : EqDecision deleteSharedTasksRequest.
Proof. solve_decision. Defined.
#[export] Instance deleteSharedTasksRequest_countable : Countable deleteSharedTasksRequest :=
  inj_countable' (λ '(mkDeleteSharedTasks x0 x1), (x0, x1)) (λ '(x0, x1), mkDeleteSharedTasks x0 x1) ltac:(by intros []).
#[export] Instance appendShareTaskRequest_eq_dec : EqDecision appendShareTaskRequest.
Proof. solve_decision. Defined.
#[export] Instance appendShareTaskRequest_countable : Countable appendShareTaskRequest :=
  inj_countable' (λ '(mkAppendShareTask x0 x1 x2 x3 x4 x5 x6 x7 x8 x9 x10 x11 x12 x13 x14), (x0, x1, x2, x3, x4, x5, x6, x7, x8, x9, x10, x11, x12, x13, x14)) (λ '(x0, x1, x2, x3, x4, x5, x6, x7, x8, x9, x10, x11, x12, x13, x14), mkAppendShareTask x0 x1 x2 x3 x4 x5 x6 x7 x8 x9 x10 x11 x12 x13 x14) ltac:(by intros []).
#[export] Instance updateShareTaskStatusRequest_eq_dec : EqDecision updateShareTaskStatusRequest.
Proof. solve_decision. Defined.
#[export] Instance updateShareTaskStatusRequest_countable : Countable updateShareTaskStatusRequest :=
  inj_countable' (λ '(mkUpdateShareTaskStatus x0 x1 x2 x3 x4), (x0, x1, x2, x3, x4)) (λ '(x0, x1, x2, x3, x4), mkUpdateShareTaskStatus x0 x1 x2 x3 x4) ltac:(by intros []).
#[export] Instance appendShareGroupCursorRequest_eq_dec : EqDecision appendShareGroupCursorRequest.
Proof. solve_decision. Defined.
#[export] Instance appendShareGroupCursorRequest_countable : Countable appendShareGroupCursorRequest :=
  inj_countable' (λ '(mkAppendShareGroupCursor x0 x1 x2 x3 x4), (x0, x1, x2, x3, x4)) (λ '(x0, x1, x2, x3, x4), mkAppendShareGroupCursor x0 x1 x2 x3 x4) ltac:(by intros []).

#[export] Instance countable_Codecs : Codecs := {
  json_taskValue := countable_Json;
  json_cursorValue := countable_Json;
  json_shareTaskValue := countable_Json;
  json_shareCursorValue := countable_Json;
  json_updateRequest := countable_Json;
  json_appendTask := countable_Json;
  json_advanceCursor := countable_Json;
  json_deleteClientState := countable_Json;
  json_deleteSharedTasks := countable_Json;
  json_appendShareTask := countable_Json;
  json_updateShareTaskStatus := countable_Json;
  json_appendShareGroupCursor := countable_Json }.

(** ** Theorems *)

Section theorems.
Context {DB : Type} `{Hkv : !KV DB, HKV : !KVLaws DB, Huu : !UUIDs, HUU : !UUIDLaws, HC : !Codecs}.

Definition empty_store (db : DB) : Prop := ∀ k, kv_get db k = None.

(** C14. The delivery queue store keeps, for each client, a map from positions
    (timestamp, task id) to tasks and a cursor: whatever tasks are appended, cursors
    advanced, clients reset and shared tasks dropped, with whatever transactions
    failing, the answers are those of the plain operations on such maps (a task is
    inserted unless the client has one with the same message; a cursor advances only
    forward and removes the tasks up to it; a failed transaction changes nothing),
    reading from a position returns the tasks after it in order, up to the limit, and
    no client sees another's tasks. *)
Theorem delivery_queue_refines ops db0 : empty_store db0 → Forall op_valid ops →
  let '(db, rs) := run_ops q_step ops db0 in
  let '(a, rs') := run_ops a_step ops ∅ in
  rs = rs' ∧ ∀ c, client_ok c →
    (∀ p limit, start_ok p → ReadDeliveryTasks db c p.1 p.2 limit = Ok (q_read (queue a c) c p limit)) ∧
    ReadDeliveryCursor db c =
      Ok ((λ x, mkStoredCursor x.1 (mkCursor c 0 x.2.1 x.2.2)) <$> q_cursor (queue a c)).
Proof.
  intros Hnone Hv. destruct (run_refines ops db0 ∅ (Rep_empty _ Hnone) Hv) as [HR Hrs].
  destruct (run_ops q_step ops db0) as [db rs], (run_ops a_step ops ∅) as [a rs']. cbn [fst snd] in HR, Hrs.
  split; [done|]. intros c Hc. split; [intros p limit; by apply read_refines|].
  unfold ReadDeliveryCursor, lookupDeliveryCursor. rewrite bool_decide_false by (by destruct Hc). by apply lookup_cursor.
Qed.


(** What a reached store holds. *)
Lemma reached_Rep ops db0 : empty_store db0 → Forall op_valid ops →
  ∃ a, Rep (run_ops q_step ops db0).1 a ∧ messages_unique a.
Proof.
  intros Hn Hv. exists (run_ops a_step ops ∅).1. split.
  - by apply run_refines; [apply Rep_empty|].
  - apply run_unique. intros c p p' tv tv'. unfold queue. by rewrite lookup_empty.
Qed.

Lemma q_read_elem q c p limit t : t ∈ q_read q c p limit →
  ∃ tv, q_tasks q !! (dt_TS t, dt_TaskID t) = Some tv ∧ t = task_of c ((dt_TS t, dt_TaskID t), tv) ∧ after p (dt_TS t, dt_TaskID t) = true.
Proof.
  unfold q_read. intros Ht. apply elem_of_take in Ht as (i & Ht & _). apply list_elem_of_lookup_2 in Ht.
  apply list_elem_of_fmap in Ht as ([[ts id] tv] & -> & Hin). apply list_elem_of_filter in Hin as [Ha Hin].
  apply q_list_elem in Hin. exists tv. done.
Qed.

Lemma StronglySorted_take {A} (R : A → A → Prop) n l : StronglySorted R l → StronglySorted R (take n l).
Proof.
  intros Hs. revert n. induction Hs as [|x l Hs IH Hx]; intros [|n]; cbn; try constructor; [apply IH|].
  apply Forall_forall. intros y Hy. rewrite Forall_forall in Hx. apply Hx.
  apply elem_of_take in Hy as (i & Hy & _). by eapply list_elem_of_lookup_2.
Qed.

Lemma q_read_sorted q c p limit :
  StronglySorted (λ t t', pos_lt (dt_TS t, dt_TaskID t) (dt_TS t', dt_TaskID t') = true) (q_read q c p limit).
Proof.
  unfold q_read. apply StronglySorted_take. pose proof (StronglySorted_filter _ (λ x, after p x.1 = true) _ (q_list_sorted q)) as Hs.
  induction Hs as [|x l Hs IH Hx]; cbn; constructor; [done|]. apply Forall_forall.
  rewrite Forall_forall in Hx. intros t Ht. apply list_elem_of_fmap in Ht as (y & -> & Hy). specialize (Hx y Hy). destruct x as [[]], y as [[]]. done.
Qed.

(** A message is queued at most once for a client, however often it is routed: in
    every store reached by appends (also repeated ones), cursor advances, resets and
    failed transactions, the tasks read for a client are in strictly increasing
    positions and belong to pairwise different messages; and a task appended again
    while the message is still queued is reported as not inserted. *)
Theorem one_task_per_message ops db0 c : empty_store db0 → Forall op_valid ops → client_ok c →
  let db := (run_ops q_step ops db0).1 in
  ∀ p limit, start_ok p → ∃ l, ReadDeliveryTasks db c p.1 p.2 limit = Ok l ∧
    NoDup (dt_MessageID <$> l) ∧
    StronglySorted (λ t t', pos_lt (dt_TS t, dt_TaskID t) (dt_TS t', dt_TaskID t') = true) l ∧
    ∀ t io t', t ∈ l → task_valid t' → dt_ClientID t' = c → dt_MessageID t' = dt_MessageID t →
      (AppendDeliveryTask io t' db).2.1 = false.
Proof.
  intros Hn Hv Hc db p limit Hp. destruct (reached_Rep ops db0 Hn Hv) as (a & HR & Hu). fold db in HR.
  exists (q_read (queue a c) c p limit). split_and!.
  - by apply read_refines.
  - pose proof (q_read_sorted (queue a c) c p limit) as Hs. pose proof (q_read_elem (queue a c) c p limit) as Hel.
    induction Hs as [|t l Hs IH Ht]; [constructor|]. cbn. constructor; [|apply IH; intros; apply Hel; by right].
    intros (t' & E & Hin)%list_elem_of_fmap. destruct (Hel t) as (tv & H1 & E1 & _); [left|].
    destruct (Hel t') as (tv' & H2 & E2 & _); [by right|]. rewrite E1, E2 in E. cbn in E.
    rewrite Forall_forall in Ht. specialize (Ht t' Hin). rewrite (Hu c _ _ _ _ H1 H2 E) in Ht. by rewrite pos_lt_irrefl in Ht.
  - apply q_read_sorted.
  - intros t io t' Ht Hval Hct Hm. pose proof (append_refines db a io t' HR Hval) as Hs. cbn [q_step a_step] in Hs.
    destruct (AppendDeliveryTask io t' db) as [db' r]. rewrite Hct, Hm in Hs.
    destruct (q_read_elem _ _ _ _ _ Ht) as (tv & H1 & E1 & _).
    unfold has_message in Hs. rewrite bool_decide_true in Hs; [by destruct Hs as [_ ->]|].
    exists (dt_TS t, dt_TaskID t), tv. rewrite E1. done.
Qed.

(** A task appended at or behind the cursor is reported as inserted and is never
    delivered: reading from the cursor, or from any later position, does not return
    it, and the next advance of the cursor deletes it.  Timestamps are taken by the
    publishing side before the append, so this needs only a publisher that is slower,
    or whose clock is behind. *)
Theorem late_task_never_read ops db0 io t cur : empty_store db0 → Forall op_valid ops → task_valid t →
  let db := (run_ops q_step ops db0).1 in
  let c := dt_ClientID t in
  ReadDeliveryCursor db c = Ok (Some cur) →
  let cp := (dc_LastTS (sc_Cursor cur), dc_LastTaskID (sc_Cursor cur)) in
  pos_lt cp (dt_TS t, dt_TaskID t) = false → 0 < cp.1 →
  (AppendDeliveryTask io t db).2 = (true, Ok tt) →
  let db' := (AppendDeliveryTask io t db).1 in
  (∀ p limit, pos_ok p → pos_lt p cp = false → ∃ l, ReadDeliveryTasks db' c p.1 p.2 limit = Ok l ∧
     Forall (λ t', (dt_TS t', dt_TaskID t') ≠ (dt_TS t, dt_TaskID t)) l) ∧
  (∀ io' now p limit nc, op_valid (OpAdvance io' now nc) → dc_ClientID nc = c →
     (AdvanceDeliveryCursor io' now nc db').2 = (true, Ok tt) → start_ok p →
     ∃ l, ReadDeliveryTasks (AdvanceDeliveryCursor io' now nc db').1 c p.1 p.2 limit = Ok l ∧
       Forall (λ t', (dt_TS t', dt_TaskID t') ≠ (dt_TS t, dt_TaskID t)) l).
Proof.
  intros Hn Hv Ht db c Hcur cp Hle Hpos Happ db'. destruct (reached_Rep ops db0 Hn Hv) as (a & HR & _). fold db in HR.
  assert (client_ok c) as Hc by apply Ht.
  pose proof (append_refines db a io t HR Ht) as Hs. cbn [q_step] in Hs.
  unfold db' in *. clear db'. destruct (AppendDeliveryTask io t db) as [db' r] eqn:Ea. cbn [fst snd] in *. subst r.
  destruct (a_step (OpAppend io t) a) as [a' r'] eqn:Es. destruct Hs as [HR' <-].
  assert (q_cursor (queue a' c) = Some (sc_UpdatedTS cur, cp)) as Hcur'.
  { unfold ReadDeliveryCursor, lookupDeliveryCursor in Hcur. rewrite bool_decide_false in Hcur by apply Hc.
    rewrite (lookup_cursor db a c HR Hc) in Hcur.
    destruct (q_cursor (queue a c)) as [[u [ts id]]|] eqn:Eq; [|done]. injection Hcur as <-.
    cbn [a_step] in Es. fold c in Es. destruct (has_message _ _); [by injection Es|].
    destruct (final_outcome 3 (uo_outcomes io)); cbn [commit outcome_result] in Es; try (by injection Es).
    injection Es as <-. rewrite queue_insert, decide_True by done. cbn. by rewrite Eq. }
  split.
  - intros p limit Hp Hpc. eexists. split; [by apply read_refines; [| |right]|]. apply Forall_forall.
    intros t' Hin Heq. destruct (q_read_elem _ _ _ _ _ Hin) as (_ & _ & _ & Ha). rewrite Heq in Ha.
    apply orb_true_iff in Ha as [Ha|Ha].
    + apply andb_true_iff in Ha as [_ Ha]. unfold pos_lt in Hpc. apply orb_false_iff in Hpc as [Hpc _]. lia.
    + destruct (decide (p = cp)) as [->|Hne]; [congruence|].
      destruct (pos_lt_total _ _ Hne) as [H|H]; [congruence|]. pose proof (pos_lt_trans _ _ _ H Ha). congruence.
  - intros io' now p limit nc Hop Hnc Hadv Hp. pose proof (advance_refines db' a' io' now nc HR' Hop) as Hs.
    cbn [q_step a_step] in Hs. destruct (AdvanceDeliveryCursor io' now nc db') as [db'' r'']. cbn in Hadv. subst r''.
    rewrite Hnc in Hs. unfold cursor_passed in Hs. rewrite Hcur' in Hs.
    destruct (pos_lt cp (dc_LastTS nc, dc_LastTaskID nc)) eqn:Elt; cbn [negb] in Hs; [|by destruct Hs as [_ Hs]].
    destruct Hs as [HR'' Hs]. destruct (uo_outcome io'); try done. cbn [commit] in HR''.
    eexists. cbn [fst]. split; [by apply read_refines|]. apply Forall_forall. intros t' Hin Heq.
    destruct (q_read_elem _ _ _ _ _ Hin) as (tv & Hl & _). rewrite Heq, queue_insert, decide_True in Hl by done.
    cbn in Hl. apply map_lookup_filter_Some in Hl as [_ Hl]. cbn in Hl.
    pose proof (pos_lt_trans _ _ _ Elt Hl). congruence.
Qed.

(** ** Paging through a queue *)

Lemma StronglySorted_middle {A} (R : A → A → Prop) l1 x l2 : StronglySorted R (l1 ++ x :: l2) →
  Forall (λ y, R y x) l1 ∧ Forall (R x) l2 ∧ StronglySorted R l2.
Proof.
  induction l1 as [|y l1 IH]; cbn; intros [Hs Hy]%StronglySorted_inv; [done|].
  destruct (IH Hs) as (H1 & H2 & H3). split_and!; [|done|done]. constructor; [|done].
  rewrite Forall_forall in Hy. apply Hy, elem_of_app. right. left.
Qed.

Lemma after_trans p x y : after p x = true → pos_lt x y = true → after p y = true.
Proof.
  unfold after. rewrite !orb_true_iff. intros [H|H] H'; [by left|right]. by eapply pos_lt_trans.
Qed.

(** What is left after the task in the middle of a page. *)
Lemma rest_after q p l1 x l2 : filter (λ y, after p y.1 = true) (q_list q) = l1 ++ x :: l2 →
  x.1.2 ≠ uuid_Nil → filter (λ y, after x.1 y.1 = true) (q_list q) = l2.
Proof.
  intros E Hx. pose proof (StronglySorted_filter _ (λ y, after p y.1 = true) _ (q_list_sorted q)) as Hs. rewrite E in Hs.
  apply StronglySorted_middle in Hs as (H1 & H2 & H3). symmetry. apply q_list_unique; [done|].
  intros p' tv. rewrite Forall_forall in H1, H2. unfold after at 1. cbn [fst]. rewrite bool_decide_false by done. cbn [andb orb].
  split.
  - intros Hin. assert ((p', tv) ∈ l1 ++ x :: l2) as H by (apply elem_of_app; right; by right).
    rewrite <-E in H. apply list_elem_of_filter in H as [_ H]. rewrite <-q_list_elem. split; [done|]. by apply (H2 (p', tv)).
  - intros [Ht Hlt]. assert ((p', tv) ∈ l1 ++ x :: l2) as H.
    { rewrite <-E. apply list_elem_of_filter. rewrite q_list_elem. split; [|done]. cbn.
      assert (x ∈ filter (λ y, after p y.1 = true) (q_list q)) as Hin by (rewrite E; apply elem_of_app; right; left).
      apply list_elem_of_filter in Hin as [Hin _]. by eapply after_trans. }
    apply elem_of_app in H as [H|[<-|H]%elem_of_cons]; [|by cbn in Hlt; rewrite pos_lt_irrefl in Hlt|done].
    specialize (H1 _ H). cbn in H1. by rewrite (pos_lt_asym _ _ H1) in Hlt.
Qed.

Lemma paged_exists db a c m fuel p : Rep db a → client_ok c → start_ok p →
  let R := filter (λ y, after p y.1 = true) (q_list (queue a c)) in
  (length R / 200 < fuel)%nat →
  existsPaged fuel db c m p.1 p.2 = Some (Ok (bool_decide (Exists (λ x, tv_MessageID x.2 = m) R))).
Proof.
  intros HR Hc. revert p. induction fuel as [|fuel IH]; intros p Hp R Hf; [lia|]. cbn [existsPaged].
  rewrite (read_refines db a c p _ HR Hc Hp). unfold q_read. change (Z.to_nat sharedDeliveryReadBatchSize) with 200%nat.
  fold R. rewrite <-fmap_take.
  assert (∀ l : list ((Z * string) * taskValue),
    Exists (λ t, dt_MessageID t = m) (task_of c <$> l) ↔ Exists (λ x, tv_MessageID x.2 = m) l) as Hex.
  { intros l. by rewrite Exists_fmap. }
  destruct (decide (Exists (λ t, dt_MessageID t = m) (task_of c <$> take 200 R))) as [Hin|Hin].
  { rewrite bool_decide_true by done. apply Hex in Hin. rewrite bool_decide_true; [done|].
    rewrite <-(take_drop 200 R). apply Exists_app. by left. }
  rewrite (bool_decide_false _ Hin). rewrite fmap_last.
  destruct (last (take 200 R)) as [x|] eqn:Elast; cbn [fmap option_fmap option_map].
  2:{ apply last_None in Elast. assert (R = []) as -> by (destruct R; done). rewrite bool_decide_false; [done|].
      intros Hnil. by apply Exists_nil in Hnil. }
  rewrite length_fmap, length_take. destruct (Z.ltb_spec (Z.of_nat (200 `min` length R)) sharedDeliveryReadBatchSize) as [Hlt|Hge].
  - unfold sharedDeliveryReadBatchSize in Hlt. rewrite Hex, take_ge in Hin by lia. by rewrite bool_decide_false.
  - unfold sharedDeliveryReadBatchSize in Hge. rewrite last_lookup, length_take in Elast.
    assert (R !! 199%nat = Some x) as Hx.
    { rewrite lookup_take_Some in Elast. replace (Init.Nat.pred (200 `min` length R)) with 199%nat in Elast by lia. by destruct Elast. }
    pose proof (take_drop_middle R 199 x Hx) as Hsplit.
    assert (x ∈ R) as HxR by (by eapply list_elem_of_lookup_2).
    unfold R in HxR. apply list_elem_of_filter in HxR as [_ HxR]. destruct x as [px tx]. apply q_list_elem in HxR.
    destruct (rep_task_ok _ _ HR c px tx Hc HxR) as (Hpx & _ & _ & Hnil).
    pose proof (rest_after (queue a c) p _ _ _ (eq_sym Hsplit) Hnil) as Hrest. cbn [fst] in Hrest.
    specialize (IH px (or_intror Hpx)). rewrite Hrest in IH. destruct px as [ts id]. cbn [dt_TS dt_TaskID task_of fst snd] in IH |- *.
    rewrite IH.
    + f_equal. f_equal. apply bool_decide_ext. rewrite Hex in Hin. rewrite <-(take_drop 200 R) at 2. rewrite Exists_app. tauto.
    + rewrite length_drop. assert (length R / 200 = S ((length R - 200) / 200))%nat as E; [|lia].
      replace (length R) with (1 * 200 + (length R - 200))%nat at 1 by lia. rewrite Nat.div_add_l by lia. done.
Qed.

(** C37. The search for a message through a client's queue, page by page of 200 tasks,
    ends after at most one page more than fit into the queue, and answers whether the
    message is queued, wherever in the queue it is. *)
Theorem DeliveryTaskExists_complete ops db0 c m l limit fuel : empty_store db0 → Forall op_valid ops → client_ok c →
  let db := (run_ops q_step ops db0).1 in
  ReadDeliveryTasks db c zeroTime uuid_Nil limit = Ok l → Z.of_nat (length l) < limit → (length l / 200 < fuel)%nat →
  existsPaged fuel db c m zeroTime uuid_Nil = Some (Ok (bool_decide (Exists (λ t, dt_MessageID t = m) l))).
Proof.
  intros Hn Hv Hc db Hl Hlim Hf. destruct (reached_Rep ops db0 Hn Hv) as (a & HR & _). fold db in HR.
  assert (start_ok (zeroTime, uuid_Nil)) as Hst by (left; split; [done|cbn; unfold zeroTime; lia]).
  pose proof (read_refines db a c _ limit HR Hc Hst) as Hr. cbn [fst snd] in Hr. rewrite Hl in Hr. injection Hr as Hr.
  pose proof (paged_exists db a c m fuel _ HR Hc Hst) as Hp. cbn zeta in Hp. unfold q_read in Hr.
  set (R := filter _ _) in *. cbn [fst snd] in Hp.
  assert (length R = length l) as Hlen.
  { rewrite Hr in Hlim |- *. rewrite length_take, length_fmap in *. lia. }
  rewrite Hp by (by rewrite Hlen). f_equal. f_equal. apply bool_decide_ext. rewrite Hr, take_ge by (rewrite length_fmap; lia).
  by rewrite Exists_fmap.
Qed.

(** A skipped delivery task loses the unacknowledged messages before it: when the
    runner skips a task (payload gone, expired, not valid or no-local) while an earlier
    message of the client is in flight and not acknowledged, the cursor it stores makes
    the store delete the earlier message's task; the message is still in flight, but no
    lookup for its retransmission or its restoration finds it any more. *)
Theorem skipped_task_loses_unacked ops db0 io d t i e now l limit te cur :
  empty_store db0 → Forall op_valid ops → client_ok (dl_ID d) →
  let db := (run_ops q_step ops db0).1 in
  skipped io t d → io_advance io = true → pos_ok (dt_TS t, dt_TaskID t) →
  dl_outgoingInflight d !! i = Some e → oi_Acked e = false → oi_TaskTS e < dt_TS t →
  ReadDeliveryTasks db (dl_ID d) zeroTime uuid_Nil limit = Ok l → te ∈ l →
  dt_TS te = oi_TaskTS e → dt_TaskID te = oi_TaskID e → dt_MessageID te = oi_MessageID e →
  ReadDeliveryCursor db (dl_ID d) = Ok cur → deliveryPositionAfter (dt_TS t) (dt_TaskID t) cur = true →
  ∃ d' c db', deliverSingleClientDeliveryTask io t d = Some (d', Ok tt) ∧
    dl_outgoingInflight d' !! i = Some e ∧ CursorAdvanced c ∈ dl_trace d' ∧
    AdvanceDeliveryCursor (mkUpdateIO [] now) now c db = (db', (true, Ok tt)) ∧
    ∀ p n, start_ok p →
      findDeliveryTaskByMessageID (oi_MessageID e) (ReadDeliveryTasks db' (dl_ID d) p.1 p.2 n) = Err "not found".
Proof.
  intros Hn Hv Hc db Hskip Hadv Hpos He Hack Hts Hl Hte E1 E2 E3 Hcur Hafter.
  destruct (reached_Rep ops db0 Hn Hv) as (a & HR & Hu). fold db in HR.
  destruct (skipped_effect io t d Hskip Hadv) as (d' & Hdel & Hin & Hinf & _).
  set (c := mkCursor (dl_ID d) (dt_Generation t) (dt_TS t) (dt_TaskID t)) in *.
  unfold ReadDeliveryCursor, lookupDeliveryCursor in Hcur. rewrite bool_decide_false in Hcur by apply Hc.
  rewrite (lookup_cursor db a _ HR Hc) in Hcur. injection Hcur as <-.
  assert (∀ x, q_cursor (queue a (dl_ID d)) = Some x → pos_ok x.2) as Hq by (intros x; by apply (rep_cursor_ok _ _ HR)).
  pose proof (position_after (queue a (dl_ID d)) (dl_ID d) (dt_TS t, dt_TaskID t) Hq Hpos) as Hpa. cbn [fst snd] in Hpa.
  rewrite Hafter in Hpa. symmetry in Hpa. apply negb_true_iff in Hpa.
  pose proof (advance_refines db a (mkUpdateIO [] now) now c HR (conj Hc Hpos)) as Hs. cbn [q_step a_step] in Hs.
  change (dc_ClientID c) with (dl_ID d) in Hs. change (dc_LastTS c, dc_LastTaskID c) with (dt_TS t, dt_TaskID t) in Hs.
  rewrite Hpa in Hs. destruct (AdvanceDeliveryCursor (mkUpdateIO [] now) now c db) as [db' r] eqn:Ea.
  destruct Hs as [HR' ->]. cbn [uo_outcome uo_outcomes head default commit outcome_result] in HR'.
  exists d', c, db'. split_and!; [done|by rewrite Hinf|done|done|]. intros p n Hp.
  rewrite (read_refines db' _ _ p n HR' Hc Hp). unfold findDeliveryTaskByMessageID. cbn [mbind result_mbind result_bind].
  destruct (list_find _ _) as [[k t']|] eqn:Ef; [|done]. exfalso.
  apply list_find_Some in Ef as (Hk & Em & _). apply list_elem_of_lookup_2, q_read_elem in Hk as (tv & Ht & Et & _).
  rewrite queue_insert, decide_True in Ht by done. cbn [q_tasks] in Ht. apply map_lookup_filter_Some in Ht as [Ht Hlt].
  assert (start_ok (zeroTime, uuid_Nil)) as Hst by (left; split; [done|cbn; unfold zeroTime; lia]).
  pose proof (read_refines db a _ _ limit HR Hc Hst) as Hr. cbn [fst snd] in Hr. rewrite Hl in Hr. injection Hr as ->.
  apply q_read_elem in Hte as (tv' & Ht' & Et' & _). rewrite Et in Em. rewrite Et' in E3. cbn in Em, E3.
  assert ((dt_TS t', dt_TaskID t') = (dt_TS te, dt_TaskID te)) as Epos by (eapply Hu; [exact Ht|exact Ht'|congruence]).
  rewrite Epos, E1 in Hlt. cbn [fst] in Hlt. unfold pos_lt in Hlt. cbn [fst snd] in Hlt.
  apply orb_true_iff in Hlt as [Hlt|[Hlt _]%andb_true_iff]; lia.
Qed.
End theorems.

(** ** Instances of the theorems *)

Definition example_uuid (n : Z) : string := hexBytes 0 (go_string (bigEndian 16 n)).
Definition example_queue_task (ts id msg : Z) : DeliveryTask :=
  mkTask ts (example_uuid id) "c" (example_uuid msg) 0 1 [] false false "" uuid_Nil.
Definition committed : UpdateIO := mkUpdateIO [] 0.
Definition example_cursor (ts id : Z) : DeliveryCursor := mkCursor "c" 0 ts (example_uuid id).

(** Two tasks, a repetition, a task for another client, and an acknowledged task. *)
Definition example_ops : list QueueOp := [
  OpAppend committed (example_queue_task 10 1 101);
  OpAppend (mkUpdateIO [TxnConflict; TxnConflict] 0) (example_queue_task 20 2 102);
  OpAppend committed (example_queue_task 30 3 101);
  OpAppend (mkUpdateIO [TxnFailed] 0) (example_queue_task 40 4 104);
  OpAdvance committed 50 (example_cursor 10 1)].

Lemma example_ops_valid : Forall op_valid example_ops.
Proof. repeat constructor; try done; try (by left); vm_compute; done. Qed.

Notation example_db := (run_ops q_step example_ops (∅ : gmap string string)).1.
Definition example_queues : Queues := (run_ops a_step example_ops ∅).1.

Lemma example_Rep : Rep example_db example_queues.
Proof. apply run_refines; [apply Rep_empty; intros k; apply lookup_empty|apply example_ops_valid]. Qed.

Lemma example_client : client_ok "c".
Proof. done. Qed.

Lemma example_from : start_ok (10, example_uuid 1).
Proof. right. split; [done|]. vm_compute. reflexivity. Qed.

Lemma example_read p limit : start_ok p →
  ReadDeliveryTasks example_db "c" p.1 p.2 limit = Ok (q_read (queue example_queues "c") "c" p limit).
Proof. intros Hp. apply read_refines; [apply example_Rep|done|done]. Qed.

Lemma example_stored : ReadDeliveryCursor example_db "c" = Ok (Some (mkStoredCursor 50 (example_cursor 10 1))).
Proof.
  unfold ReadDeliveryCursor, lookupDeliveryCursor. rewrite bool_decide_false by done.
  rewrite (lookup_cursor _ _ _ example_Rep example_client). vm_compute. reflexivity.
Qed.

Lemma example_append io t : task_valid t →
  (AppendDeliveryTask io t example_db).2 = (a_step (OpAppend io t) example_queues).2.
Proof.
  intros Ht. pose proof (append_refines _ _ io t example_Rep Ht) as H. cbn [q_step] in H.
  destruct (AppendDeliveryTask io t example_db) as [db r], (a_step _ _) as [a r']. by destruct H as [_ ->].
Qed.

Lemma delivery_queue_refines_witness :
  let '(db, rs) := run_ops q_step example_ops (∅ : gmap string string) in
  rs = [(true, Ok tt); (true, Ok tt); (false, Ok tt); (true, Err "transaction failed"); (true, Ok tt)] ∧
  ReadDeliveryTasks db "c" 10 (example_uuid 1) 10 = Ok [example_queue_task 20 2 102].
Proof.
  pose proof (delivery_queue_refines example_ops (∅ : gmap string string) (λ k, lookup_empty k) example_ops_valid) as H.
  assert ((run_ops a_step example_ops ∅).2 =
    [(true, Ok tt); (true, Ok tt); (false, Ok tt); (true, Err "transaction failed"); (true, Ok tt)]) as Hrs by (vm_compute; reflexivity).
  assert (q_read (queue example_queues "c") "c" (10, example_uuid 1) 10 = [example_queue_task 20 2 102]) as Hq
    by (vm_compute; reflexivity).
  unfold example_queues in Hq. destruct (run_ops q_step example_ops ∅) as [db rs], (run_ops a_step example_ops ∅) as [a rs'].
  cbn [fst snd] in Hrs, Hq. destruct H as [-> H]. split; [exact Hrs|]. destruct (H "c" example_client) as [H1 _].
  rewrite <-Hq. exact (H1 (10, example_uuid 1) 10 example_from).
Defined.

Lemma one_task_per_message_witness :
  ∃ l, ReadDeliveryTasks (run_ops q_step example_ops (∅ : gmap string string)).1 "c" 0 uuid_Nil 10 = Ok l ∧
    NoDup (dt_MessageID <$> l) ∧
    StronglySorted (λ t t', pos_lt (dt_TS t, dt_TaskID t) (dt_TS t', dt_TaskID t') = true) l ∧
    ∀ t io t', t ∈ l → task_valid t' → dt_ClientID t' = "c" → dt_MessageID t' = dt_MessageID t →
      (AppendDeliveryTask io t' (run_ops q_step example_ops (∅ : gmap string string)).1).2.1 = false.
Proof.
  apply (one_task_per_message example_ops (∅ : gmap string string) "c" (λ k, lookup_empty k) example_ops_valid ltac:(done)
    (0, uuid_Nil) 10). left. done.
Defined.

Lemma example_late : task_valid (example_queue_task 5 9 109).
Proof. repeat split; try done; by left. Qed.

Lemma late_task_never_read_witness :
  let db := (run_ops q_step example_ops (∅ : gmap string string)).1 in
  let t := example_queue_task 5 9 109 in
  ∃ l, ReadDeliveryTasks (AppendDeliveryTask committed t db).1 "c" 10 (example_uuid 1) 10 = Ok l ∧
    Forall (λ t', (dt_TS t', dt_TaskID t') ≠ (dt_TS t, dt_TaskID t)) l.
Proof.
  cbv zeta.
  refine (proj1 (late_task_never_read example_ops (∅ : gmap string string) committed (example_queue_task 5 9 109)
    (mkStoredCursor 50 (example_cursor 10 1)) (λ k, lookup_empty k) example_ops_valid _ _ _ _ _) (10, example_uuid 1) 10 _ _).
  - apply example_late.
  - apply example_stored.
  - vm_compute. reflexivity.
  - done.
  - rewrite (example_append _ _ example_late). vm_compute. reflexivity.
  - done.
  - vm_compute. reflexivity.
Defined.

Lemma example_start : start_ok (zeroTime, uuid_Nil).
Proof. left. done. Qed.

Lemma example_all : ReadDeliveryTasks example_db "c" zeroTime uuid_Nil 10 = Ok [example_queue_task 20 2 102].
Proof.
  pose proof (example_read (zeroTime, uuid_Nil) 10 example_start) as H. cbn [fst snd] in H. rewrite H.
  vm_compute. reflexivity.
Qed.

Lemma DeliveryTaskExists_complete_witness :
  existsPaged 1 (run_ops q_step example_ops (∅ : gmap string string)).1 "c" (example_uuid 102) zeroTime uuid_Nil = Some (Ok true).
Proof.
  rewrite (DeliveryTaskExists_complete example_ops (∅ : gmap string string) "c" (example_uuid 102)
    [example_queue_task 20 2 102] 10 1 (λ k, lookup_empty k) example_ops_valid).
  - done.
  - done.
  - exact example_all.
  - done.
  - cbn. lia.
Defined.

(** A message in flight (task 2) and an expired one behind it (task 3). *)
Definition example_inflight_downlink : Downlink :=
  with_inflight {[1 := newDeliveryInflightEntry (example_queue_task 20 2 102) 1 1 21 true]} (connected "c" 1 2 (20, example_uuid 2)).

Lemma skipped_task_loses_unacked_witness :
  let db := (run_ops q_step example_ops (∅ : gmap string string)).1 in
  let d := example_inflight_downlink in
  let e := newDeliveryInflightEntry (example_queue_task 20 2 102) 1 1 21 true in
  ∃ d' c db', deliverSingleClientDeliveryTask (example_io LoadNotFound 60) (example_queue_task 30 3 103) d = Some (d', Ok tt) ∧
    dl_outgoingInflight d' !! 1 = Some e ∧ CursorAdvanced c ∈ dl_trace d' ∧
    AdvanceDeliveryCursor (mkUpdateIO [] 60) 60 c db = (db', (true, Ok tt)) ∧
    ∀ p n, start_ok p →
      findDeliveryTaskByMessageID (oi_MessageID e) (ReadDeliveryTasks db' (dl_ID d) p.1 p.2 n) = Err "not found".
Proof.
  cbv zeta.
  refine (skipped_task_loses_unacked example_ops (∅ : gmap string string) (example_io LoadNotFound 60) example_inflight_downlink
    (example_queue_task 30 3 103) 1 (newDeliveryInflightEntry (example_queue_task 20 2 102) 1 1 21 true) 60
    [example_queue_task 20 2 102] 10 (example_queue_task 20 2 102) (Some (mkStoredCursor 50 (example_cursor 10 1)))
    (λ k, lookup_empty k) example_ops_valid _ _ _ _ _ _ _ _ _ _ _ _ _ _).
  - done.
  - done.
  - done.
  - done.
  - vm_compute. reflexivity.
  - done.
  - done.
  - exact example_all.
  - by left.
  - done.
  - done.
  - done.
  - apply example_stored.
  - vm_compute. reflexivity.
Defined.
