(* ===== verification/ShareQueue.v ===== *)
(** * The queues of share groups in the delivery store

    The share-group half of [DeliveryStore] as plain maps: [SRep] relates the store to a map
    from positions (timestamp, task id) to tasks and a cursor for each group, and every
    operation of [shared_store.go] acts on these maps as the plain operation of the same name
    here ([share_step_refines], [pending_refines], [by_message_refines]).  The queues of the
    clients ([DeliveryStoreProofs.Rep]) and those of the groups do not disturb each other. *)

From stdpp Require Import sorting.
From S2P Require Import Prelude GoStrings WalEngine WalEngineProofs Inflight Downlink DeliveryStore DeliveryStoreProofs DeliveryQueue.

Lemma list_filter_iff' {A} (P Q : A → Prop) `{!∀ x, Decision (P x), !∀ x, Decision (Q x)} (l : list A) :
  (∀ x, x ∈ l → P x ↔ Q x) → filter P l = filter Q l.
Proof.
  induction l as [|x l IH]; intros Heq; [done|]. rewrite !filter_cons, IH by (intros y Hy; apply Heq; by right).
  rewrite (decide_ext (P x) (Q x)) by (apply Heq; left). done.
Qed.

(** ** Groups as plain maps *)

Record Group := mkGroup {
  g_tasks : gmap (Z * string) shareTaskValue;
  g_cursor : option shareCursorValue }.
Definition emptyGroup : Group := mkGroup ∅ None.

Notation Groups := (gmap string Group).
Definition group (a : Groups) (g : string) : Group := default emptyGroup (a !! g).

Lemma group_insert (a : Groups) g q g' : group (<[g := q]> a) g' = if decide (g = g') then q else group a g'.
Proof. unfold group. destruct (decide (g = g')) as [->|]; [by rewrite lookup_insert_eq|by rewrite lookup_insert_ne]. Qed.

Definition g_list (q : Group) : list ((Z * string) * shareTaskValue) := pos_list (g_tasks q).

Definition g_find (q : Group) (taskID : string) : option ((Z * string) * shareTaskValue) :=
  head (filter (λ x, x.1.2 = taskID) (g_list q)).

(** The new position and value of a task whose status is set. *)
Definition restatus (newStatus : string) (now : Z) (x : (Z * string) * shareTaskValue) : (Z * string) * shareTaskValue :=
  if bool_decide (newStatus = TaskStatusPending) then ((now, x.1.2), with_status newStatus 0 0 x.2)
  else if bool_decide (newStatus = TaskStatusProcessing) || bool_decide (newStatus = TaskStatusCompleted)
          || bool_decide (newStatus = TaskStatusRolledBack)
  then (x.1, with_status newStatus (stv_ProcessedByNode x.2) now x.2)
  else (x.1, with_status newStatus (stv_ProcessedByNode x.2) (stv_ProcessedAtNano x.2) x.2).

Definition g_put (x : (Z * string) * shareTaskValue) (q : Group) : Group := mkGroup (<[x.1 := x.2]> (g_tasks q)) (g_cursor q).
Definition g_move (x y : (Z * string) * shareTaskValue) (q : Group) : Group :=
  mkGroup (<[y.1 := y.2]> (delete x.1 (g_tasks q))) (g_cursor q).

(** The operations that change a group. *)
Inductive ShareOp :=
| OpShareAppend (io : UpdateIO) (ts : Z) (t : ShareGroupTask)
| OpShareStatus (io : UpdateIO) (taskID shareGroup oldStatus newStatus : string) (now : Z)
| OpShareRollback (io : UpdateIO) (now : Z) (t : ShareGroupTask)
| OpShareCursor (io : UpdateIO) (g : string) (c : ShareGroupCursor).

Definition cursor_value (g : string) (c : ShareGroupCursor) : shareCursorValue :=
  mkShareCursorValue g (sgc_LastProcessedTS c) (sgc_LastProcessedTaskID c) (sgc_LeaderNodeID c) (sgc_LastRenewal c).

Definition share_value (status : string) (t : ShareGroupTask) : shareTaskValue :=
  mkShareTaskValue (sg_ShareGroup t) (sg_TopicFilter t) (sg_MessageID t) (sg_DeliveryQoS t) (sg_PublishQoS t)
    (sg_PublisherClient t) (sg_SubscriptionIDs t) (sg_WinnerNoLocal t) (sg_WinnerRAP t) status (sg_ProcessedByNode t)
    (sg_ProcessedAt t) (sg_RollbackReason t).
Definition initial_status (t : ShareGroupTask) : string := if bool_decide (sg_Status t = "") then TaskStatusPending else sg_Status t.

(** The same operations on the maps; the answer is the flag that the store reports. *)
Definition g_step (op : ShareOp) (a : Groups) : Groups * (bool * result string unit) :=
  match op with
  | OpShareAppend io ts t =>
      let g := sg_ShareGroup t in
      (commit (uo_outcome io) (<[g := g_put ((ts, sg_TaskID t), share_value (initial_status t) t) (group a g)]> a) a,
       (false, outcome_result (uo_outcome io)))
  | OpShareStatus io id g old new now =>
      match g_find (group a g) id with
      | Some x =>
          if bool_decide (stv_Status x.2 = old)
          then (commit (uo_outcome io) (<[g := g_move x (restatus new now x) (group a g)]> a) a, (true, outcome_result (uo_outcome io)))
          else (a, (false, outcome_result (uo_outcome io)))
      | None => (a, (false, outcome_result (uo_outcome io)))
      end
  | OpShareRollback io now t =>
      let g := sg_ShareGroup t in
      let q := match g_find (group a g) (sg_TaskID t) with
               | Some x => if bool_decide (stv_Status x.2 = TaskStatusCompleted) then group a g
                           else g_move x (restatus TaskStatusPending now x) (group a g)
               | None => g_put ((now, sg_TaskID t), with_status TaskStatusPending 0 0 (share_value TaskStatusPending t)) (group a g)
               end in
      (commit (uo_outcome io) (<[g := q]> a) a, (false, outcome_result (uo_outcome io)))
  | OpShareCursor io g c =>
      (commit (uo_outcome io) (<[g := mkGroup (g_tasks (group a g)) (Some (cursor_value g c))]> a) a, (false, outcome_result (uo_outcome io)))
  end.

(** The task that is read back. *)
Definition share_of (g : string) (x : (Z * string) * shareTaskValue) : ShareGroupTask :=
  let tv := x.2 in
  mkShareGroupTask x.1.2 g (stv_TopicFilter tv) (stv_MessageID tv) (stv_DeliveryQoS tv) (stv_PublishQoS tv)
    (stv_PublisherClient tv) (stv_SubscriptionIDs tv) (stv_WinnerNoLocal tv) (stv_WinnerRAP tv)
    (stv_Status tv) (stv_ProcessedByNode tv) (stv_ProcessedAtNano tv) (stv_RollbackReason tv) x.1.1.

Definition is_pending (x : (Z * string) * shareTaskValue) : Prop := stv_Status x.2 = TaskStatusPending.

(** The pending tasks behind [p], in order. *)
Definition g_pending (q : Group) (p : Z * string) : list ((Z * string) * shareTaskValue) :=
  filter (λ x, after p x.1 = true ∧ stv_Status x.2 = TaskStatusPending) (g_list q).

Definition has_status (statuses : list string) (m : string) (tv : shareTaskValue) : bool :=
  (bool_decide (statuses = []) || bool_decide (stv_Status tv ∈ statuses)) && bool_decide (stv_MessageID tv = m).
Definition g_by_message (q : Group) (m : string) (statuses : list string) : option ((Z * string) * shareTaskValue) :=
  head (filter (λ x, has_status statuses m x.2 = true) (g_list q)).

Definition timed_out (before : Z) (tv : shareTaskValue) : bool :=
  bool_decide (stv_Status tv = TaskStatusProcessing) && negb (before <? stv_ProcessedAtNano tv).

Section share.
Context {DB : Type} `{Hkv : !KV DB, HKV : !KVLaws DB, Huu : !UUIDs, HUU : !UUIDLaws, HC : !Codecs}.

Definition skey (g : string) (p : Z * string) : string := shareTaskKeyPrefix g +:+ positionBytes p.
#[local] Arguments skey : simpl never.

Lemma shareTaskKey_skey g ts u : shareTaskKey g ts u = skey g (ts, u).
Proof. done. Qed.

Lemma skey_prefix g g' p : client_ok g → client_ok g' → has_prefix (skey g' p) (shareTaskKeyPrefix g) = true ↔ g = g'.
Proof.
  intros [_ Hc] [_ Hc']. split; [|intros ->; apply has_prefix_app]. intros (r & E)%has_prefix_spec.
  unfold skey, shareTaskKeyPrefix in E. rewrite !append_assoc in E. apply append_inj_l in E.
  by destruct (nul_split _ _ _ _ Hc' Hc E) as [-> _].
Qed.

Lemma skey_inj g g' p q : client_ok g → client_ok g' → pos_ok p → pos_ok q → skey g p = skey g' q ↔ g = g' ∧ p = q.
Proof.
  intros Hc Hc' Hp Hq. split; [|by intros [-> ->]]. intros E. assert (g = g') as ->.
  { apply (skey_prefix _ _ q Hc Hc'). rewrite <-E. apply has_prefix_app. }
  split; [done|]. apply position_inj; [done|done|]. by eapply append_inj_l.
Qed.

Definition share_ok (p : Z * string) (tv : shareTaskValue) : Prop :=
  pos_ok p ∧ canonical (stv_MessageID tv) ∧ p.2 ≠ uuid_Nil.

Record SRep (db : DB) (a : Groups) : Prop := {
  srep_tasks g p : client_ok g → pos_ok p → kv_get db (skey g p) = json_Marshal <$> g_tasks (group a g) !! p;
  srep_keys k v : kv_get db k = Some v → has_prefix k prefixShareTask = true → ∃ g p, client_ok g ∧ pos_ok p ∧ k = skey g p;
  srep_cursor g : client_ok g → kv_get db (shareCursorKey g) = json_Marshal <$> g_cursor (group a g);
  srep_ok g p tv : client_ok g → g_tasks (group a g) !! p = Some tv → share_ok p tv }.

Lemma SRep_empty db : (∀ k, kv_get db k = None) → SRep db ∅.
Proof.
  intros Hnone. assert (∀ g, group ∅ g = emptyGroup) as Hg by done. split.
  - intros g p _ _. by rewrite Hnone.
  - intros k v H. by rewrite Hnone in H.
  - intros g _. by rewrite Hnone.
  - intros g p tv _. rewrite Hg. cbn. by rewrite lookup_empty.
Qed.

Definition sitems (g : string) (es : list ((Z * string) * shareTaskValue)) : list (string * string) :=
  (λ x, (skey g x.1, json_Marshal x.2)) <$> es.

Lemma sitems_cons g x es : sitems g (x :: es) = (skey g x.1, json_Marshal x.2) :: sitems g es.
Proof. done. Qed.

Lemma share_prefix_task g k : has_prefix k (shareTaskKeyPrefix g) = true → has_prefix k prefixShareTask = true.
Proof. intros (r & ->)%has_prefix_spec. unfold shareTaskKeyPrefix. rewrite !append_assoc. apply has_prefix_app. Qed.

Lemma iterate_group db a g r : SRep db a → client_ok g →
  iterate db (shareTaskKeyPrefix g +:+ r) (shareTaskKeyPrefix g) =
  sitems g (filter (λ x, string_ltb (positionBytes x.1) r = false) (g_list (group a g))).
Proof.
  intros HR Hg. destruct (iterate_map db (shareTaskKeyPrefix g) (g_tasks (group a g)) r) as (es & -> & Hs & He).
  - intros p Hp. by apply (srep_tasks _ _ HR).
  - intros k v Hget Hp. destruct (srep_keys _ _ HR k v Hget (share_prefix_task _ _ Hp)) as (g' & p & Hg' & Hpos & ->).
    apply skey_prefix in Hp as <-; [|done|done]. by exists p.
  - intros p tv Ht. by destruct (srep_ok _ _ HR g p tv Hg Ht).
  - unfold g_list. rewrite (pos_list_unique (λ x, string_ltb (positionBytes x.1) r = false) (g_tasks (group a g)) es Hs); [done|].
    intros p tv. rewrite He, string_ltb_app_l. done.
Qed.

Lemma iterate_group_all db a g : SRep db a → client_ok g →
  iterate db (shareTaskKeyPrefix g) (shareTaskKeyPrefix g) = sitems g (g_list (group a g)).
Proof.
  intros HR Hg. pose proof (iterate_group db a g "" HR Hg) as H. rewrite append_empty_r in H. rewrite H. f_equal.
  apply filter_id, Forall_forall. intros x _. by destruct (positionBytes x.1).
Qed.

Lemma g_list_ok db a g : SRep db a → client_ok g → Forall (λ x, share_ok x.1 x.2) (g_list (group a g)).
Proof. intros HR Hg. apply Forall_forall. intros [p tv] H%pos_list_elem. by apply (srep_ok _ _ HR g). Qed.

Lemma item_share g keep x : share_ok x.1 x.2 →
  shareTaskOfItem g (shareTaskKeyPrefix g) keep (skey g x.1, json_Marshal x.2) = Ok (if keep x.2 then Some (share_of g x) else None).
Proof.
  intros (Hp & Hm & _). unfold shareTaskOfItem. cbn [fst snd]. unfold skey. rewrite parse_position by done.
  destruct x as [[ts id] tv]. cbn [fst snd]. rewrite json_roundtrip. unfold shareTaskFromValue.
  unfold canonical in Hm. cbn in Hm. rewrite Hm. by destruct (keep tv).
Qed.

(** ** Queries *)

Lemma collectShare_items g keep es : Forall (λ x, share_ok x.1 x.2) es →
  collectShare g (shareTaskKeyPrefix g) keep (sitems g es) = Ok (share_of g <$> filter (λ x, keep x.2 = true) es).
Proof.
  induction 1 as [|x es Hx _ IH]; [done|]. rewrite sitems_cons. cbn [collectShare]. rewrite (item_share g keep x Hx).
  cbn [mbind result_mbind result_bind]. rewrite IH. cbn [mbind result_mbind result_bind]. rewrite filter_cons. by destruct (keep x.2).
Qed.

Lemma firstShare_items g keep es : Forall (λ x, share_ok x.1 x.2) es →
  firstShare g (shareTaskKeyPrefix g) keep (sitems g es) = Ok (share_of g <$> head (filter (λ x, keep x.2 = true) es)).
Proof.
  induction 1 as [|x es Hx _ IH]; [done|]. rewrite sitems_cons. cbn [firstShare]. rewrite (item_share g keep x Hx).
  cbn [mbind result_mbind result_bind]. rewrite filter_cons. destruct (keep x.2); [done|]. by rewrite IH.
Qed.

Lemma by_message_refines db a g m statuses : SRep db a → client_ok g →
  queryShareTaskByMessageID db g m statuses = Ok (share_of g <$> g_by_message (group a g) m statuses).
Proof.
  intros HR Hg. unfold queryShareTaskByMessageID. rewrite (iterate_group_all db a g HR Hg).
  by rewrite firstShare_items by (by eapply g_list_ok).
Qed.

Lemma timed_out_refines db a g before : SRep db a → client_ok g →
  queryProcessingShareTasksBefore db g before = Ok (share_of g <$> filter (λ x, timed_out before x.2 = true) (g_list (group a g))).
Proof.
  intros HR Hg. unfold queryProcessingShareTasksBefore. rewrite (iterate_group_all db a g HR Hg).
  by rewrite collectShare_items by (by eapply g_list_ok).
Qed.

Lemma collectPending_items g seek limit out es :
  Forall (λ x, share_ok x.1 x.2) es → Forall (λ x, skey g x.1 ≠ seek) es → (length out ≤ limit)%nat →
  collectPending g (shareTaskKeyPrefix g) seek limit out (sitems g es) =
  Ok (take limit (out ++ (share_of g <$> filter (λ x, stv_Status x.2 = TaskStatusPending) es))).
Proof.
  intros Hok Hne. revert out. induction es as [|x es IH]; intros out Hl.
  { cbn. rewrite app_nil_r, take_ge by done. done. }
  apply Forall_cons in Hok as [Hx Hok], Hne as [Hxn Hne]. rewrite sitems_cons.
  cbn [collectPending fst]. destruct (decide (limit <= length out)%nat) as [Hle|Hle].
  { rewrite bool_decide_true by done. rewrite take_app_le by lia. by rewrite take_ge by lia. }
  rewrite bool_decide_false, (bool_decide_false (skey g x.1 = seek)), andb_false_r by done.
  rewrite (item_share g _ x Hx). cbn [mbind result_mbind result_bind]. rewrite filter_cons.
  destruct (decide (stv_Status x.2 = TaskStatusPending)) as [Hp|Hp].
  - rewrite bool_decide_true by done. rewrite IH; [|done|done|rewrite length_app; cbn; lia]. by rewrite <-app_assoc.
  - rewrite bool_decide_false by done. rewrite app_nil_r. by apply IH.
Qed.

Lemma collectPending_from g p limit es : client_ok g → pos_ok p →
  Forall (λ x, share_ok x.1 x.2) es → StronglySorted (λ x y, pos_lt x.1 y.1 = true) es → Forall (λ x, pos_lt x.1 p = false) es →
  collectPending g (shareTaskKeyPrefix g) (skey g p) limit [] (sitems g es) =
  Ok (take limit (share_of g <$> filter (λ x, pos_lt p x.1 = true ∧ stv_Status x.2 = TaskStatusPending) es)).
Proof.
  intros Hg Hp Hok Hs Hge.
  assert (∀ l, Forall (λ x, share_ok x.1 x.2) l → Forall (λ x, pos_lt p x.1 = true) l →
    collectPending g (shareTaskKeyPrefix g) (skey g p) limit [] (sitems g l) =
    Ok (take limit (share_of g <$> filter (λ x, pos_lt p x.1 = true ∧ stv_Status x.2 = TaskStatusPending) l))) as Hplain.
  { intros l Hlok Hlt. rewrite collectPending_items; [|done| |cbn; lia].
    - cbn [app]. do 3 f_equal. rewrite Forall_forall in Hlt. apply list_filter_iff'. intros x Hx. rewrite (Hlt x Hx). tauto.
    - rewrite Forall_forall in Hlok, Hlt |- *. intros x Hx E. apply skey_inj in E as [_ E]; [|done|done|by apply (Hlok x)|done].
      specialize (Hlt x Hx). by rewrite E, pos_lt_irrefl in Hlt. }
  destruct es as [|x es]; [by apply Hplain|].
  apply StronglySorted_inv in Hs as [Hs Hx]. apply Forall_cons in Hok as [Hxok Hok], Hge as [Hxge Hge].
  destruct (decide (x.1 = p)) as [Ex|Hne].
  - rewrite sitems_cons. cbn [collectPending fst length].
    rewrite filter_cons, decide_False by (rewrite Ex, pos_lt_irrefl; by intros [? _]).
    destruct (decide (limit <= 0)%nat) as [Hl|Hl]; [rewrite bool_decide_true by done; by replace limit with 0%nat by lia|].
    rewrite bool_decide_false, Ex, !bool_decide_true by done. cbn [andb]. apply Hplain; [done|]. by rewrite <-Ex.
  - assert (pos_lt p x.1 = true) as Hpx by (destruct (pos_lt_total _ _ Hne); congruence).
    apply Hplain; [by constructor|]. constructor; [done|]. apply Forall_forall. intros y Hy.
    rewrite Forall_forall in Hx. by eapply pos_lt_trans; [exact Hpx|apply Hx].
Qed.

Lemma pending_refines db a g p limit : SRep db a → client_ok g → start_ok p →
  readShareGroupTasks db g p.1 p.2 limit = Ok (take (Z.to_nat limit) (share_of g <$> g_pending (group a g) p)).
Proof.
  intros HR Hg Hp. unfold readShareGroupTasks, g_pending. unfold after.
  pose proof (g_list_ok db a g HR Hg) as Hok. destruct (bool_decide (p.2 = uuid_Nil) && (p.1 <=? 0)) eqn:Estart.
  - rewrite (iterate_group_all db a g HR Hg), collectPending_items; [|done| |cbn; lia].
    + cbn [app]. do 3 f_equal. apply list_filter_iff. intros x. tauto.
    + apply Forall_forall. intros x Hx E. rewrite Forall_forall in Hok. destruct (Hok x Hx) as [Hxp _].
      apply (f_equal String.length) in E. unfold skey in E. rewrite append_length, positionBytes_length in E by done. lia.
  - assert (pos_ok p) as Hpos.
    { destruct Hp as [[H1 H2]|Hp]; [|done]. apply andb_false_iff in Estart as [E|E]; [by rewrite bool_decide_true in E by done|lia]. }
    destruct p as [ts id]. cbn [fst snd] in *. rewrite shareTaskKey_skey. unfold skey at 2.
    rewrite (iterate_group db a g _ HR Hg), collectPending_from; [|done|done|by apply Forall_filtered|apply StronglySorted_filter, pos_list_sorted|].
    + do 3 f_equal. rewrite list_filter_filter. apply list_filter_iff'. intros x Hx. cbn [orb].
      rewrite Forall_forall in Hok. destruct (Hok x Hx) as [Hxp _]. rewrite positionBytes_order by done.
      split; [tauto|]. intros [H1 H2]. split_and!; [done|done|by apply pos_lt_asym].
    + apply Forall_forall. intros x [Hlt Hx]%list_elem_of_filter. rewrite Forall_forall in Hok. destruct (Hok x Hx) as [Hxp _].
      by rewrite positionBytes_order in Hlt.
Qed.

(** ** Updates *)

Lemma SRep_group db a g db' q : SRep db a → client_ok g →
  (∀ k, k ≠ shareCursorKey g → (∀ p, pos_ok p → k ≠ skey g p) → kv_get db' k = kv_get db k) →
  (∀ p, pos_ok p → kv_get db' (skey g p) = json_Marshal <$> g_tasks q !! p) →
  kv_get db' (shareCursorKey g) = json_Marshal <$> g_cursor q →
  (∀ p tv, g_tasks q !! p = Some tv → share_ok p tv) → SRep db' (<[g := q]> a).
Proof.
  intros HR Hg Hother Htask Hcur Hok. split.
  - intros g' p Hg' Hp. rewrite group_insert. destruct (decide (g = g')) as [<-|Hne]; [auto|].
    rewrite Hother; [by apply HR|done|]. intros p' Hp' (-> & _)%skey_inj; done.
  - intros k v Hget Hpre. destruct (decide (kv_get db k = Some v)) as [Hg'|Hg']; [by eapply (srep_keys _ _ HR)|].
    destruct (decide (k = shareCursorKey g)) as [->|Hk]; [done|].
    destruct (parseTaskKey k (shareTaskKeyPrefix g)) as [p|] eqn:Ep.
    + destruct (decide (k = skey g p ∧ ts_ok p.1 ∧ canonical p.2)) as [(-> & Ht & Hu)|Hn]; [by exists g, p|].
      exfalso. apply Hg'. rewrite <-Hother; [done|done|]. intros p' Hp' ->. apply Hn.
      unfold skey in Ep. rewrite parse_position in Ep by done. injection Ep as <-. split; [done|apply Hp'].
    + exfalso. apply Hg'. rewrite <-Hother; [done|done|]. intros p' Hp' ->. unfold skey in Ep. by rewrite parse_position in Ep.
  - intros g' Hg'. rewrite group_insert. destruct (decide (g = g')) as [<-|Hne]; [auto|].
    rewrite Hother; [by apply HR| |done]. intros E. by apply append_inj_l in E.
  - intros g' p tv Hg'. rewrite group_insert. destruct (decide (g = g')); [auto|]. by apply (srep_ok _ _ HR).
Qed.

Lemma SRep_put db a g x : SRep db a → client_ok g → share_ok x.1 x.2 →
  SRep (kv_set (skey g x.1) (json_Marshal x.2) db) (<[g := g_put x (group a g)]> a).
Proof.
  intros HR Hg Hx. assert (pos_ok x.1) as Hp by apply Hx. apply (SRep_group db a); [done|done| | | |]; cbn [g_put g_tasks g_cursor].
  - intros k _ Hk. rewrite kv_get_set, decide_False; [done|]. intros <-. by apply (Hk x.1).
  - intros p Hp'. rewrite kv_get_set. destruct (decide (x.1 = p)) as [<-|Hne]; [by rewrite decide_True, lookup_insert_eq|].
    rewrite decide_False, lookup_insert_ne by (done || (intros [_ ?]%skey_inj; done)). by apply HR.
  - rewrite kv_get_set, decide_False by done. by apply HR.
  - intros p tv. rewrite lookup_insert_Some. intros [[<- <-]|[_ H]]; [done|]. by apply (srep_ok _ _ HR g).
Qed.

Lemma SRep_move db a g x y : SRep db a → client_ok g → share_ok x.1 x.2 → share_ok y.1 y.2 →
  SRep (kv_set (skey g y.1) (json_Marshal y.2) (if bool_decide (skey g x.1 = skey g y.1) then db else kv_delete (skey g x.1) db))
    (<[g := g_move x y (group a g)]> a).
Proof.
  intros HR Hg Hx Hy. assert (pos_ok x.1) as Hpx by apply Hx. assert (pos_ok y.1) as Hpy by apply Hy.
  assert (∀ k, kv_get (kv_set (skey g y.1) (json_Marshal y.2) (if bool_decide (skey g x.1 = skey g y.1) then db else kv_delete (skey g x.1) db)) k
    = if decide (skey g y.1 = k) then Some (json_Marshal y.2) else if decide (skey g x.1 = k) then None else kv_get db k) as Hget.
  { intros k. rewrite kv_get_set. destruct (decide (skey g y.1 = k)) as [|Hk]; [done|]. case_bool_decide as E.
    - rewrite decide_False; [done|]. congruence.
    - by rewrite kv_get_delete. }
  apply (SRep_group db a); [done|done| | | |]; cbn [g_move g_tasks g_cursor].
  - intros k _ Hk. rewrite Hget, !decide_False; [done|intros <-; by apply (Hk x.1)|intros <-; by apply (Hk y.1)].
  - intros p Hp. rewrite Hget. destruct (decide (y.1 = p)) as [<-|Hne]; [by rewrite decide_True, lookup_insert_eq|].
    rewrite decide_False, lookup_insert_ne by (done || (intros [_ ?]%skey_inj; done)).
    destruct (decide (x.1 = p)) as [<-|Hne']; [by rewrite decide_True, lookup_delete_eq|].
    rewrite decide_False, lookup_delete_ne by (done || (intros [_ ?]%skey_inj; done)). by apply HR.
  - rewrite Hget, !decide_False by done. by apply HR.
  - intros p tv. rewrite lookup_insert_Some, lookup_delete_Some. intros [[<- <-]|[_ [_ H]]]; [done|]. by apply (srep_ok _ _ HR g).
Qed.

Lemma findShareTask_refines db a g id : SRep db a → client_ok g →
  findShareTask db g id = Ok ((λ x, (skey g x.1, x.1.1, x.2)) <$> g_find (group a g) id).
Proof.
  intros HR Hg. unfold findShareTask, g_find. rewrite (iterate_group_all db a g HR Hg).
  pose proof (g_list_ok db a g HR Hg) as Hok. induction Hok as [|x es Hx _ IH]; [done|]. rewrite sitems_cons.
  cbn [findShareTaskIn fst snd]. unfold skey at 1. rewrite parse_position by apply Hx. destruct x as [[ts u] tv].
  rewrite filter_cons. cbn [fst snd]. destruct (decide (u = id)) as [->|Hne].
  - by rewrite bool_decide_true, json_roundtrip.
  - by rewrite bool_decide_false.
Qed.

Lemma g_find_Some q id x : g_find q id = Some x → g_tasks q !! x.1 = Some x.2 ∧ x.1.2 = id.
Proof.
  unfold g_find. intros H. assert (x ∈ filter (λ x, x.1.2 = id) (g_list q)) as Hin.
  { destruct (filter _ _) as [|y l]; [done|]. injection H as ->. left. }
  apply list_elem_of_filter in Hin as [E Hin]. destruct x as [p tv]. apply pos_list_elem in Hin. done.
Qed.

Lemma setShareTaskStatus_spec g x new now (db : DB) :
  setShareTaskStatus (skey g x.1) g x.1.2 x.1.1 x.2 new now db =
  kv_set (skey g (restatus new now x).1) (json_Marshal (restatus new now x).2)
    (if bool_decide (skey g x.1 = skey g (restatus new now x).1) then db else kv_delete (skey g x.1) db).
Proof.
  destruct x as [[ts u] tv]. unfold setShareTaskStatus, restatus. cbn [fst snd].
  destruct (bool_decide (new = TaskStatusPending)); [done|]. by destruct (_ || _ || _).
Qed.

Lemma with_status_message st n at_ tv : stv_MessageID (with_status st n at_ tv) = stv_MessageID tv.
Proof. by destruct tv. Qed.
Lemma with_status_status st n at_ tv : stv_Status (with_status st n at_ tv) = st.
Proof. by destruct tv. Qed.

Lemma restatus_ok new now x : share_ok x.1 x.2 → ts_ok now → share_ok (restatus new now x).1 (restatus new now x).2.
Proof.
  intros (Hp & Hm & Hn) Hnow. unfold share_ok, restatus. destruct x as [[ts u] tv]. cbn [fst snd] in *.
  destruct (bool_decide _); [|destruct (_ || _ || _)]; cbn [fst snd]; rewrite with_status_message; (split_and!; [|done..]); [|done|done].
  split; [done|apply Hp].
Qed.

(** ** Each operation *)

Definition share_task_valid (t : ShareGroupTask) : Prop :=
  client_ok (sg_ShareGroup t) ∧ canonical (sg_TaskID t) ∧ sg_TaskID t ≠ uuid_Nil ∧ canonical (sg_MessageID t) ∧ sg_MessageID t ≠ uuid_Nil.

Definition share_op_valid (op : ShareOp) : Prop :=
  match op with
  | OpShareAppend _ ts t => share_task_valid t ∧ ts_ok ts
  | OpShareStatus _ id g _ _ now => client_ok g ∧ canonical id ∧ ts_ok now ∧ 0 < now
  | OpShareRollback _ now t => share_task_valid t ∧ ts_ok now ∧ 0 < now
  | OpShareCursor _ g _ => client_ok g
  end.

Definition share_step (op : ShareOp) (db : DB) : DB * (bool * result string unit) :=
  match op with
  | OpShareAppend io ts t => let '(db', r) := AppendShareGroupTask io (Some ts) ts t db in (db', (false, r))
  | OpShareStatus io id g old new now => AtomicUpdateTaskStatus io id g old new now db
  | OpShareRollback io now t => let '(db', r) := RollbackSharedSubscriptionTask io now t db in (db', (false, r))
  | OpShareCursor io g c => let '(db', r) := AppendShareGroupCursor io g c db in (db', (false, r))
  end.

Lemma apply_opAppendShareTask io d (db : DB) :
  applyUpdate io (mkUpdateRequest opAppendShareTask d) db = updateAppendShareTask (uo_outcome io) d db.
Proof. reflexivity. Qed.
Lemma apply_opUpdateShareTaskStatus io d (db : DB) :
  applyUpdate io (mkUpdateRequest opUpdateShareTaskStatus d) db = updateShareTaskStatus (uo_outcome io) (uo_clock io) d db.
Proof. reflexivity. Qed.
Lemma apply_opRollbackShareGroupTask io d (db : DB) :
  applyUpdate io (mkUpdateRequest opRollbackShareGroupTask d) db = updateRollbackShareGroupTask (uo_outcome io) (uo_clock io) d db.
Proof. reflexivity. Qed.
Lemma apply_opAppendShareGroupCursor io d (db : DB) :
  applyUpdate io (mkUpdateRequest opAppendShareGroupCursor d) db = updateAppendShareGroupCursor (uo_outcome io) d db.
Proof. reflexivity. Qed.

Lemma request_valid ts now t : share_task_valid t → appendShareTaskRequestFromTask (Some ts) now t =
  Ok (mkAppendShareTask ts (sg_TaskID t) (sg_ShareGroup t) (sg_TopicFilter t) (sg_MessageID t)
        (sg_DeliveryQoS t) (sg_PublishQoS t) (sg_PublisherClient t) (sg_SubscriptionIDs t)
        (sg_WinnerNoLocal t) (sg_WinnerRAP t) (initial_status t) (sg_ProcessedByNode t) (sg_ProcessedAt t) (sg_RollbackReason t)).
Proof.
  intros ([Hg _] & _ & Hid & _ & Hm). unfold appendShareTaskRequestFromTask, initial_status.
  by rewrite !bool_decide_false by done.
Qed.

Lemma share_append_refines db a io ts t : SRep db a → share_op_valid (OpShareAppend io ts t) →
  let '(db', r) := share_step (OpShareAppend io ts t) db in
  let '(a', r') := g_step (OpShareAppend io ts t) a in SRep db' a' ∧ r = r'.
Proof.
  intros HR [Hv Hts]. cbn [share_step g_step]. unfold AppendShareGroupTask. rewrite request_valid by done.
  destruct Hv as (Hg & Hid & Hnil & Hm & _). rewrite sm_Update_marshalled by done. rewrite apply_opAppendShareTask.
  unfold updateAppendShareTask. rewrite json_roundtrip. cbn [ast_ShareGroup ast_TaskID ast_Status].
  rewrite bool_decide_false by (by destruct Hg). unfold canonical in Hid. rewrite Hid.
  assert ((if bool_decide (initial_status t = "") then TaskStatusPending else initial_status t) = initial_status t) as ->.
  { unfold initial_status. destruct (decide (sg_Status t = "")) as [E|E]; [by rewrite (bool_decide_true _ E)|].
    by rewrite !(bool_decide_false _ E). }
  erewrite db_Update_Ok by reflexivity. set (o := uo_outcome io). clearbody o. split; [|by destruct o].
  destruct o; cbn [commit]; [|done|done]. rewrite shareTaskKey_skey. apply (SRep_put db a _ (_, _)); [done|done|].
  split_and!; [done|done|done].
Qed.

Lemma share_status_txn db a g id old new now clock : SRep db a → client_ok g → ts_ok now → 0 < now →
  ∃ db', shareTaskStatusTxn g id old new now clock db =
    Ok (db', match g_find (group a g) id with Some x => bool_decide (stv_Status x.2 = old) | None => false end) ∧
  SRep db' (match g_find (group a g) id with
            | Some x => if bool_decide (stv_Status x.2 = old) then <[g := g_move x (restatus new now x) (group a g)]> a else a
            | None => a end).
Proof.
  intros HR Hg Hts Hnow. unfold shareTaskStatusTxn. replace (now <=? 0) with false by lia.
  rewrite (findShareTask_refines db a g id HR Hg). cbn [mbind result_mbind result_bind].
  destruct (g_find (group a g) id) as [x|] eqn:Ef; [|by exists db].
  cbn [fmap option_fmap option_map]. destruct (bool_decide (stv_Status x.2 = old)); cbn [negb]; [|by exists db].
  eexists. split; [done|]. apply g_find_Some in Ef as [Hx <-]. rewrite setShareTaskStatus_spec.
  pose proof (srep_ok _ _ HR g x.1 x.2 Hg Hx) as Hok. apply SRep_move; [done|done|done|by apply restatus_ok].
Qed.

Lemma share_status_refines db a io id g old new now : SRep db a → share_op_valid (OpShareStatus io id g old new now) →
  let '(db', r) := share_step (OpShareStatus io id g old new now) db in
  let '(a', r') := g_step (OpShareStatus io id g old new now) a in SRep db' a' ∧ r = r'.
Proof.
  intros HR (Hg & Hid & Hts & Hnow). cbn [share_step g_step]. unfold AtomicUpdateTaskStatus.
  rewrite sm_Update_marshalled by done. rewrite apply_opUpdateShareTaskStatus. unfold updateShareTaskStatus. rewrite json_roundtrip.
  cbn [us_ShareGroup us_TaskID us_OldStatus us_NewStatus us_NowNano]. rewrite bool_decide_false by (by destruct Hg).
  unfold canonical in Hid. rewrite Hid. cbn zeta.
  destruct (share_status_txn db a g id old new now (uo_clock io) HR Hg Hts Hnow) as (db' & Htx & HR').
  erewrite db_Update_Ok by exact Htx. rewrite Htx. unfold reported. set (o := uo_outcome io). clearbody o. cbn [fst snd].
  destruct (g_find (group a g) id) as [x|]; [destruct (bool_decide _)|]; (split; [by destruct o|by destruct o]).
Qed.

Lemma share_rollback_refines db a io now t : SRep db a → share_op_valid (OpShareRollback io now t) →
  let '(db', r) := share_step (OpShareRollback io now t) db in
  let '(a', r') := g_step (OpShareRollback io now t) a in SRep db' a' ∧ r = r'.
Proof.
  intros HR (Hv & Hts & Hnow). cbn [share_step g_step]. unfold RollbackSharedSubscriptionTask. rewrite request_valid by done.
  destruct Hv as (Hg & Hid & Hnil & Hm & _). rewrite sm_Update_marshalled by done. rewrite apply_opRollbackShareGroupTask.
  unfold updateRollbackShareGroupTask. rewrite json_roundtrip. cbn [ast_ShareGroup].
  rewrite bool_decide_false by (by destruct Hg). set (q := match g_find _ _ with Some _ => _ | None => _ end).
  match goal with |- context [rollbackShareTask _ ?r _] => assert (∃ db', rollbackShareTask (uo_clock io) r db = Ok db' ∧
    SRep db' (<[sg_ShareGroup t := q]> a)) as (db' & Htx & HR') end.
  { unfold rollbackShareTask. cbn [ast_TaskID ast_TSUnixNano ast_ShareGroup]. unfold canonical in Hid. rewrite Hid.
    replace (now <=? 0) with false by lia. rewrite (findShareTask_refines db a _ _ HR Hg). cbn [mbind result_mbind result_bind].
    unfold q. destruct (g_find _ _) as [x|] eqn:Ef; cbn [fmap option_fmap option_map].
    - destruct (bool_decide _); eexists; (split; [reflexivity|]).
      + apply (SRep_group db a); [done|done|done|by intros p; apply HR|by apply HR|]. intros p tv. by apply (srep_ok _ _ HR).
      + apply g_find_Some in Ef as [Hx <-]. rewrite setShareTaskStatus_spec. pose proof (srep_ok _ _ HR _ x.1 x.2 Hg Hx) as Hok.
        apply SRep_move; [done|done|done|by apply restatus_ok].
    - eexists. split; [reflexivity|]. rewrite shareTaskKey_skey. apply (SRep_put db a _ (_, _)); [done|done|]. split_and!; done. }
  erewrite db_Update_Ok by (rewrite Htx; reflexivity). set (o := uo_outcome io). clearbody o. split; by destruct o.
Qed.

Lemma share_cursor_refines db a io g c : SRep db a → client_ok g →
  let '(db', r) := share_step (OpShareCursor io g c) db in
  let '(a', r') := g_step (OpShareCursor io g c) a in SRep db' a' ∧ r = r'.
Proof.
  intros HR Hg. cbn [share_step g_step]. unfold AppendShareGroupCursor, appendShareGroupCursorRequestFromCursor.
  rewrite !bool_decide_false by (rewrite ?bool_decide_false; by destruct Hg). rewrite sm_Update_marshalled by done.
  rewrite apply_opAppendShareGroupCursor. unfold updateAppendShareGroupCursor. rewrite json_roundtrip. cbn [asc_ShareGroup].
  rewrite bool_decide_false by (by destruct Hg). erewrite db_Update_Ok by reflexivity. set (o := uo_outcome io). clearbody o.
  split; [|by destruct o]. destruct o; cbn [commit]; [|done|done].
  apply (SRep_group db a); [done|done| | | |]; cbn [g_tasks g_cursor].
  - intros k Hk _. by rewrite kv_get_set, decide_False.
  - intros p Hp. rewrite kv_get_set, decide_False by done. by apply HR.
  - by rewrite kv_get_set, decide_True.
  - intros p tv. by apply (srep_ok _ _ HR).
Qed.

Lemma share_step_refines op db a : SRep db a → share_op_valid op →
  let '(db', r) := share_step op db in let '(a', r') := g_step op a in SRep db' a' ∧ r = r'.
Proof.
  intros HR Hop. destruct op; [by apply share_append_refines|by apply share_status_refines|by apply share_rollback_refines|by apply share_cursor_refines].
Qed.

Lemma read_cursor_refines db a g : SRep db a → client_ok g →
  (∀ c, g_cursor (group a g) = Some c → canonical (scv_LastProcessedTaskID c)) →
  readShareGroupCursor db g = Ok ((λ c, mkShareGroupCursor (scv_ShareGroup c) (scv_LastProcessedTSNano c) (scv_LastProcessedTaskID c)
    (scv_LeaderNodeID c) (scv_LastRenewalNano c)) <$> g_cursor (group a g)).
Proof.
  intros HR Hg Hc. unfold readShareGroupCursor. rewrite (srep_cursor _ _ HR) by done.
  destruct (g_cursor (group a g)) as [c|] eqn:E; [|done]. cbn. rewrite json_roundtrip. specialize (Hc c eq_refl).
  rewrite bool_decide_false; [|intros Ee; unfold canonical in Hc; by rewrite Ee, uuid_Parse_empty in Hc].
  unfold canonical in Hc. by rewrite Hc.
Qed.

(** ** The two halves of the store *)

Definition clientHalf (k : string) : bool := has_prefix k "dq:".
Definition shareHalf (k : string) : bool := has_prefix k "sq:".

Lemma client_prefix k : has_prefix k prefixTask = true → clientHalf k = true.
Proof. by intros (r & ->)%has_prefix_spec. Qed.
Lemma share_prefix k : has_prefix k prefixShareTask = true → shareHalf k = true.
Proof. by intros (r & ->)%has_prefix_spec. Qed.

Lemma Rep_frame db db' a : Rep db a → (∀ k, clientHalf k = true → kv_get db' k = kv_get db k) → Rep db' a.
Proof.
  intros HR H. split.
  - intros c p Hc Hp. rewrite H by done. by apply HR.
  - intros k v Hk Hp. rewrite H in Hk by (by apply client_prefix). by eapply HR.
  - intros c Hc. rewrite H by done. by apply HR.
  - apply HR.
  - apply HR.
Qed.

Lemma SRep_frame db db' a : SRep db a → (∀ k, shareHalf k = true → kv_get db' k = kv_get db k) → SRep db' a.
Proof.
  intros HR H. split.
  - intros c p Hc Hp. rewrite H by done. by apply HR.
  - intros k v Hk Hp. rewrite H in Hk by (by apply share_prefix). by eapply HR.
  - intros c Hc. rewrite H by done. by apply HR.
  - apply HR.
Qed.

Lemma db_Update_cases {A} o (f : DB → result string (DB * A)) db :
  (db_Update o f db).1 = db ∨ ∃ x, f db = Ok ((db_Update o f db).1, x).
Proof. unfold db_Update. destruct (f db) as [[db' x]|e]; [|by left]. destruct o; [right; by exists x|by left|by left]. Qed.

Lemma retry_cases {A} n (f : DB → result string (DB * A)) db : ∀ outcomes,
  (withBadgerUpdateRetry n outcomes f db).1 = db ∨ ∃ x, f db = Ok ((withBadgerUpdateRetry n outcomes f db).1, x).
Proof.
  induction n as [|n IH]; intros outcomes; cbn; pose proof (db_Update_cases (default TxnCommit (head outcomes)) f db) as Hc;
    destruct (default _ _); try exact Hc; destruct (f db) as [[]|]; exact Hc || apply IH.
Qed.

Lemma set_status_frame g x id ts tv new now (db : DB) k : clientHalf k = true →
  kv_get (setShareTaskStatus (skey g x) g id ts tv new now db) k = kv_get db k.
Proof.
  intros Hk. unfold setShareTaskStatus. destruct (if bool_decide _ then _ else _) as [ts' tv'].
  rewrite kv_get_set, decide_False by (by intros <-). destruct (bool_decide _); [done|]. rewrite kv_get_delete, decide_False; [done|]. by intros <-.
Qed.

(** Operations on clients' tasks leave the groups alone, and the other way round. *)
Lemma append_frame io t (db : DB) k : shareHalf k = true → kv_get (AppendDeliveryTask io t db).1 k = kv_get db k.
Proof.
  intros Hk. unfold AppendDeliveryTask. rewrite sm_Update_marshalled, apply_opAppendTask by done. unfold updateAppendTask.
  rewrite json_roundtrip. cbn [at_ClientID at_TaskID at_MessageID at_TSUnixNano]. destruct (bool_decide _); [done|].
  destruct (uuid_Parse _) as [u|]; [|done]. match goal with |- context [withBadgerUpdateRetry 3 ?o ?f db] =>
    pose proof (retry_cases 3 f db o) as Hc; destruct (withBadgerUpdateRetry 3 o f db) as [db' r] end.
  cbn [reported fst snd] in *. destruct Hc as [->|[x Hc]]; [done|].
  destruct (deliveryTaskExistsInTxn _ _ _) as [[]|]; [by injection Hc as <-| |done]. injection Hc as <-.
  rewrite kv_get_set, decide_False; [done|]. intros <-. done.
Qed.

Lemma drop_frame io c g db a k : Rep db a → client_ok c → shareHalf k = true →
  kv_get (DeleteClientSharedDeliveryTasks io c g db).1 k = kv_get db k.
Proof.
  intros HR Hc Hk. unfold DeleteClientSharedDeliveryTasks. destruct (bool_decide _); [done|]. destruct (bool_decide (g = "")); [done|].
  rewrite sm_Update_marshalled, apply_opDeleteSharedTasks by done. unfold updateDeleteSharedTasks. rewrite json_roundtrip.
  cbn [dst_ClientID dst_ShareGroup]. destruct (bool_decide (c = "")); [done|]. destruct (bool_decide _); [done|].
  match goal with |- context [db_Update ?o ?f db] => pose proof (db_Update_cases o f db) as Hd; destruct (db_Update o f db) as [db' r] end.
  cbn [fst] in *. destruct Hd as [->|[x Hd]]; [done|]. unfold deleteClientSharedDeliveryTasks in Hd.
  destruct (iterate_all _ _ c HR Hc) as (es & Ei & _ & Hok & _). rewrite Ei, sharedOnes_items in Hd.
  injection Hd as <-.
  apply delete_other_key; [by apply Forall_filtered|]. intros p _ ->. done.
Qed.

Lemma share_frame op db a k : SRep db a → share_op_valid op → clientHalf k = true → kv_get (share_step op db).1 k = kv_get db k.
Proof.
  intros HR Hv Hk. destruct op as [io ts t|io id g old new now|io now t|io g c]; cbn [share_step].
  - destruct Hv as [Hv _]. unfold AppendShareGroupTask. rewrite request_valid, sm_Update_marshalled, apply_opAppendShareTask by done.
    unfold updateAppendShareTask. rewrite json_roundtrip. destruct (bool_decide _); [done|]. destruct (uuid_Parse _); [|done].
    match goal with |- context [db_Update ?o ?f db] => pose proof (db_Update_cases o f db) as Hd; destruct (db_Update o f db) as [db' r] end.
    cbn [fst] in *. destruct Hd as [->|[x Hd]]; [done|]. injection Hd as <-. rewrite kv_get_set, decide_False; [done|]. by intros <-.
  - destruct Hv as (Hg & Hid & Hts & Hnow). unfold AtomicUpdateTaskStatus. rewrite sm_Update_marshalled, apply_opUpdateShareTaskStatus by done.
    unfold updateShareTaskStatus. rewrite json_roundtrip. destruct (bool_decide _); [done|]. destruct (uuid_Parse _) as [u|]; [|done].
    cbn [us_ShareGroup us_TaskID us_OldStatus us_NewStatus us_NowNano]. cbn zeta.
    match goal with |- context [db_Update ?o ?f db] => pose proof (db_Update_cases o f db) as Hd; destruct (db_Update o f db) as [db' r] end.
    cbn [reported fst snd] in *. destruct Hd as [->|[x Hd]]; [done|]. unfold shareTaskStatusTxn in Hd.
    rewrite (findShareTask_refines db a g u HR Hg) in Hd. cbn [mbind result_mbind result_bind] in Hd.
    destruct (g_find _ _) as [y|]; cbn [fmap option_fmap option_map] in Hd; [|by injection Hd as <- _].
    destruct (negb _); [by injection Hd as <- _|]. injection Hd as <- _. by apply set_status_frame.
  - destruct Hv as (Hv & Hts & Hnow). unfold RollbackSharedSubscriptionTask.
    rewrite request_valid, sm_Update_marshalled, apply_opRollbackShareGroupTask by done. destruct Hv as (Hg & Hid & _).
    unfold updateRollbackShareGroupTask. rewrite json_roundtrip. destruct (bool_decide _); [done|].
    match goal with |- context [db_Update ?o ?f db] => pose proof (db_Update_cases o f db) as Hd; destruct (db_Update o f db) as [db' r] end.
    cbn [fst] in *. destruct Hd as [->|[x Hd]]; [done|]. unfold rollbackShareTask in Hd. cbn [ast_TaskID ast_TSUnixNano ast_ShareGroup] in Hd.
    unfold canonical in Hid. rewrite Hid, (findShareTask_refines db a _ _ HR Hg) in Hd. cbn [mbind result_mbind result_bind] in Hd.
    destruct (g_find _ _) as [y|]; cbn [fmap option_fmap option_map] in Hd.
    + destruct (bool_decide _); injection Hd as <-; [done|by apply set_status_frame].
    + injection Hd as <-. rewrite kv_get_set, decide_False; [done|]. by intros <-.
  - unfold AppendShareGroupCursor, appendShareGroupCursorRequestFromCursor. destruct (bool_decide _); [done|].
    rewrite sm_Update_marshalled, apply_opAppendShareGroupCursor by done. unfold updateAppendShareGroupCursor. rewrite json_roundtrip.
    destruct (bool_decide _); [done|]. erewrite db_Update_Ok by reflexivity. destruct (uo_outcome io); cbn [commit fst]; [|done|done].
    rewrite kv_get_set, decide_False; [done|]. by intros <-.
Qed.

(** ** Sequences of operations *)

Lemma run_share ops db a : SRep db a → Forall share_op_valid ops →
  SRep (run_ops share_step ops db).1 (run_ops g_step ops a).1 ∧ (run_ops share_step ops db).2 = (run_ops g_step ops a).2.
Proof.
  revert db a. induction ops as [|op ops IH]; intros db a HR Hv; [done|]. apply Forall_cons in Hv as [Hop Hv].
  cbn [run_ops]. pose proof (share_step_refines op db a HR Hop) as Hs. destruct (share_step op db) as [db1 r], (g_step op a) as [a1 r'].
  destruct Hs as [HR1 ->]. destruct (IH db1 a1 HR1 Hv). destruct (run_ops share_step ops db1), (run_ops g_step ops a1). cbn in *. by subst.
Qed.

(** C16. The share-group half of the store is a queue of tasks for each group: whatever tasks are
    appended, statuses set, tasks rolled back and cursors stored, with whatever transactions
    failing, the answers are those of the plain operations on maps from positions to tasks (a
    status is set only from the expected one; a task that becomes pending moves to the time of
    the update; a completed task is not rolled back; a failed transaction changes nothing), and
    the queries (the pending tasks after a position, the first task for a message in one of
    some statuses, the tasks in processing since before a time, the task of an identifier) find
    exactly what the maps hold; no group sees another's tasks. *)
Theorem share_queue_refines ops db0 : empty_store db0 → Forall share_op_valid ops →
  let '(db, rs) := run_ops share_step ops db0 in
  let '(a, rs') := run_ops g_step ops ∅ in
  rs = rs' ∧ ∀ g, client_ok g →
    (∀ p limit, start_ok p →
       readShareGroupTasks db g p.1 p.2 limit = Ok (take (Z.to_nat limit) (share_of g <$> g_pending (group a g) p))) ∧
    (∀ m statuses, queryShareTaskByMessageID db g m statuses = Ok (share_of g <$> g_by_message (group a g) m statuses)) ∧
    (∀ before, queryProcessingShareTasksBefore db g before =
       Ok (share_of g <$> filter (λ x, timed_out before x.2 = true) (g_list (group a g)))) ∧
    (∀ id, findShareTask db g id = Ok ((λ x, (shareTaskKey g x.1.1 x.1.2, x.1.1, x.2)) <$> g_find (group a g) id)).
Proof.
  intros Hn Hv. destruct (run_share ops db0 ∅ (SRep_empty _ Hn) Hv) as [HR Hrs].
  destruct (run_ops share_step ops db0) as [db rs], (run_ops g_step ops ∅) as [a rs']. cbn [fst snd] in HR, Hrs.
  split; [done|]. intros g Hg. split_and!.
  - intros p limit. by apply pending_refines.
  - intros m statuses. by apply by_message_refines.
  - intros before. by apply timed_out_refines.
  - intros id. rewrite (findShareTask_refines db a g id HR Hg). by destruct (g_find _ _) as [[[] ?]|].
Qed.
End share.

(** ** An example *)

Definition example_share (n : Z) : ShareGroupTask :=
  mkShareGroupTask (example_uuid n) "g" "a/b" (example_uuid (100 + n)) 1 1 "" "" false false "" 0 zeroTime "" 0.

Lemma example_share_valid n : n ∈ [1; 2] → share_task_valid (example_share n).
Proof. intros Hn. repeat (apply elem_of_cons in Hn as [->|Hn]; [by vm_compute|]). by apply elem_of_nil in Hn. Qed.

Definition share_example_ops : list ShareOp :=
  [OpShareAppend committed 10 (example_share 1); OpShareAppend committed 20 (example_share 2);
   OpShareStatus committed (example_uuid 1) "g" TaskStatusPending TaskStatusProcessing 30;
   OpShareStatus committed (example_uuid 1) "g" TaskStatusPending TaskStatusProcessing 31;
   OpShareStatus committed (example_uuid 1) "g" TaskStatusProcessing TaskStatusPending 40].

Lemma share_example_valid : Forall share_op_valid share_example_ops.
Proof.
  repeat constructor; try (by vm_compute); try (by apply example_share_valid; set_solver); unfold ts_ok; try lia.
Qed.

Lemma share_queue_refines_witness :
  let '(db, rs) := run_ops share_step share_example_ops (∅ : gmap string string) in
  rs = [(false, Ok tt); (false, Ok tt); (true, Ok tt); (false, Ok tt); (true, Ok tt)] ∧
  ∃ l, readShareGroupTasks db "g" zeroTime uuid_Nil 10 = Ok l ∧ (λ t, (sg_Timestamp t, sg_TaskID t)) <$> l = [(20, example_uuid 2); (40, example_uuid 1)].
Proof.
  pose proof (share_queue_refines share_example_ops (∅ : gmap string string) (λ k, lookup_empty k) share_example_valid) as H.
  assert ((run_ops g_step share_example_ops ∅).2 = [(false, Ok tt); (false, Ok tt); (true, Ok tt); (false, Ok tt); (true, Ok tt)]) as Hrs
    by (vm_compute; reflexivity).
  assert ((λ t, (sg_Timestamp t, sg_TaskID t)) <$> take 10 (share_of "g" <$> g_pending (group (run_ops g_step share_example_ops ∅).1 "g") (zeroTime, uuid_Nil))
    = [(20, example_uuid 2); (40, example_uuid 1)]) as Hq by (vm_compute; reflexivity).
  destruct (run_ops share_step share_example_ops ∅) as [db rs], (run_ops g_step share_example_ops ∅) as [a rs'].
  cbn [fst snd] in Hrs, Hq. destruct H as [-> H]. split; [exact Hrs|]. destruct (H "g" ltac:(done)) as [H1 _].
  eexists. split; [exact (H1 (zeroTime, uuid_Nil) 10 example_start)|exact Hq].
Defined.
