(* ===== verification/Retain.v ===== *)
(** * Cloned and retained PUBLISH packets ([publish_clone.go], [retain_mqtt5.go] of the client)

    A retained message is stored as the wire bytes of the PUBLISH, so that its
    properties survive, with the absolute time at which it expires. *)

From S2P Require Import Prelude GoStrings Mqtt5 Wire WireParse WireProps WireCodec WireRoundtrip Downlink.

(** ** Clones *)

(** [append([]byte(nil), b...)] of an empty slice is nil. *)
Definition cloneCorrelation (b : option (list byte)) : option (list byte) :=
  match b with Some [] => None | _ => b end.

Definition clonePublishProperties (p : PublishProperties) : PublishProperties :=
  mkPublishProperties (pup_PayloadFormat p) (pup_MessageExpiry p) (pup_WillDelayInterval p) (pup_ContentType p)
    (pup_ResponseTopic p) (cloneCorrelation (pup_CorrelationData p)) (pup_TopicAlias p)
    (pup_SubscriptionIdentifier p) (pup_User p).

Definition clonePublish (p : Publish) : Publish :=
  mkPublish (pub_Payload p) (pub_Topic p) (clonePublishProperties <$> pub_Properties p) (pub_PacketID p)
    (pub_QoS p) (pub_Duplicate p) (pub_Retain p).

Definition clonePublishForLiveDelivery (p : Publish) : Publish :=
  let out := clonePublish p in
  mkPublish (pub_Payload out) (pub_Topic out) (pub_Properties out) (pub_PacketID out) (pub_QoS out) false false.

(** ** Retained messages *)

Record RetainMessage := mkRetain {
  rm_Topic : string;
  rm_Payload : list byte;
  rm_Qos : Z;
  rm_PublishPacket : list byte;
  rm_CreatedAtUnixNano : Z;
  rm_PublisherClientID : string;
  rm_ExpiredAtUnixNano : Z }.

(** [cp := packets.NewControlPacket(packets.PUBLISH); cp.Content = p]. *)
Definition publishPacket (p : Publish) : ControlPacket :=
  mkControlPacket (Some (PPublish p)) (defaultPacket PUBLISH) (mkFixedHeader PUBLISH 0 0).

(** QoS 1 and 2 packets need an identifier on the wire; 1 stands in for it. *)
Definition retainPublishForWireEncoding (publish : Publish) : Publish :=
  let cloned := clonePublish publish in
  if (0 <? pub_QoS cloned) && (pub_PacketID cloned =? 0) then set_qos_id (pub_QoS cloned) 1 cloned else cloned.

Definition retainedExpiredAtUnixNano (publish : Publish) (now : Z) : Z :=
  match pub_Properties publish ≫= pup_MessageExpiry with
  | None => 0
  | Some expiry => wrap_i64 (now + wrap_i64 (expiry * 1000000000))
  end.

Definition newRetainMessageFromPublish (publish : Publish) (now : Z) (publisherClientID : string)
    : result WireError RetainMessage :=
  bytes ← Encode 0 (Some (publishPacket (retainPublishForWireEncoding publish)));
  Ok (mkRetain (pub_Topic publish) (pub_Payload publish) (pub_QoS publish) bytes now publisherClientID
        (retainedExpiredAtUnixNano publish now)).

(** [None]: expired.  A message without an expiry interval never is. *)
Definition applyRetainedMessageExpiry (publish : Publish) (expiredAtUnixNano now : Z) : option Publish :=
  match pub_Properties publish ≫= pup_MessageExpiry with
  | None => Some publish
  | Some _ =>
      if expiredAtUnixNano <=? 0 then None
      else if negb (now <? expiredAtUnixNano) then None
      else
        let remaining := wrap 32 (wrap_i64 (expiredAtUnixNano - now) `quot` 1000000000) in
        let remaining := if remaining =? 0 then 1 else remaining in
        Some (set_props (set_expiry (Some remaining)) publish)
  end.

Definition publishFromRetainMessage (message : RetainMessage) (now : Z) : option Publish :=
  if bool_decide (rm_Topic message = "") then None
  else
    let publish :=
      match rm_PublishPacket message with
      | [] => Some (mkPublish (rm_Payload message) (rm_Topic message) None 0 (wrap 8 (rm_Qos message)) false false)
      | bytes =>
          match Decode 0 bytes with
          | Ok (cp, _) => match cp_Content cp with Some (PPublish p) => Some p | _ => None end
          | Err _ => None
          end
      end in
    match publish with
    | None => None
    | Some p =>
        let p := ensure_props (mkPublish (pub_Payload p) (rm_Topic message) (pub_Properties p) 0 (pub_QoS p)
                                 (pub_Duplicate p) true) in
        applyRetainedMessageExpiry p (rm_ExpiredAtUnixNano message) now
    end.
