(* ===== verification/RetainProofs.v ===== *)
(** * Retained messages: what comes back

    A PUBLISH kept as a retained message is given back with its topic, payload, QoS
    and properties and the lifetime it has left, and not at all once it has expired. *)

From S2P Require Import Prelude GoStrings Mqtt5 Wire WireParse WireProps WirePropsProofs WireCodec WireRoundtrip Downlink Retain.

(** A PUBLISH after a trip over the wire: properties present, an empty binary
    property absent. *)
Definition norm_props_of (p : Publish) : PublishProperties :=
  norm_publish (default emptyPublishProperties (pub_Properties p)).
Definition norm_pub (p : Publish) : Publish :=
  mkPublish (pub_Payload p) (pub_Topic p) (Some (norm_props_of p)) (pub_PacketID p) (pub_QoS p)
    (pub_Duplicate p) (pub_Retain p).

(** The packet the stores keep is read back. *)
Lemma decode_publish p bs :
  wf_packet (PPublish p) → Encode 0 (Some (publishPacket p)) = Ok bs →
  ∃ cp, Decode 0 bs = Ok (cp, []) ∧ cp_Content cp = Some (PPublish (norm_pub p)).
Proof.
  intros Hwf H. destruct (decode_encoded 0 (publishPacket p) (PPublish p) bs [] eq_refl Hwf H) as (b & fl & rl & body & _ & _ & -> & Hd).
  rewrite app_nil_r in Hd. eexists. split; [exact Hd|done].
Qed.

Lemma Encode_nonempty max cp bs : Encode max cp = Ok bs → bs ≠ [].
Proof.
  destruct cp as [cp|]; [|done]. intros (p & fl & body & rl & _ & _ & _ & _ & _ & _ & _ & ->)%Encode_inv. done.
Qed.

Lemma norm_clone q : norm_publish (clonePublishProperties q) = norm_publish q.
Proof. destruct q as [?????[[|]|]???]; done. Qed.

Lemma norm_default_clone (o : option PublishProperties) :
  norm_publish (default emptyPublishProperties (clonePublishProperties <$> o)) = norm_publish (default emptyPublishProperties o).
Proof. destruct o; [apply norm_clone|done]. Qed.

Lemma norm_expiry q : pup_MessageExpiry (norm_publish q) = pup_MessageExpiry q.
Proof. by destruct q. Qed.

Lemma wf_clone p : wf_packet (PPublish p) → wf_packet (PPublish (retainPublishForWireEncoding p)).
Proof.
  intros (Hq & Hid & Hp).
  assert (opt_in (λ q, wf_props (PropsPublish q)) (clonePublishProperties <$> pub_Properties p)) as Hp'.
  { destruct (pub_Properties p) as [q|]; [|done]. exact Hp. }
  unfold retainPublishForWireEncoding. case_if; cbn; split_and!; try done; lia.
Qed.

Lemma retained_fields p : let q := retainPublishForWireEncoding p in
  pub_Payload q = pub_Payload p ∧ pub_QoS q = pub_QoS p ∧ pub_Duplicate q = pub_Duplicate p ∧ norm_props_of q = norm_props_of p.
Proof.
  unfold retainPublishForWireEncoding, norm_props_of. case_if; cbn; (split_and!; [done..|apply norm_default_clone]).
Qed.

(** The PUBLISH a subscriber is given, before its lifetime is set. *)
Definition retained_publish (p : Publish) : Publish :=
  mkPublish (pub_Payload p) (pub_Topic p) (Some (norm_props_of p)) 0 (pub_QoS p) (pub_Duplicate p) true.

Lemma retained_decoded p now id m now' :
  wf_packet (PPublish p) → pub_Topic p ≠ "" → newRetainMessageFromPublish p now id = Ok m →
  publishFromRetainMessage m now' = applyRetainedMessageExpiry (retained_publish p) (retainedExpiredAtUnixNano p now) now'.
Proof.
  intros Hwf Ht. unfold newRetainMessageFromPublish. intros H. apply bind_Ok_inv in H as (bs & He & [= <-]).
  unfold publishFromRetainMessage. cbn [rm_Topic rm_PublishPacket rm_ExpiredAtUnixNano].
  rewrite bool_decide_false by done. destruct (decode_publish _ _ (wf_clone p Hwf) He) as (cp & Hd & Hc).
  pose proof (Encode_nonempty _ _ _ He). destruct bs as [|b bs]; [done|]. rewrite Hd, Hc.
  destruct (retained_fields p) as (H1 & H2 & H3 & H4). unfold ensure_props, norm_pub. cbn.
  by rewrite H1, H2, H3, H4.
Qed.

(** A retained message comes back as it was published: a subscriber reading it at
    [now'] gets the topic, payload, QoS and properties of the stored PUBLISH with the
    retain flag and no packet identifier; with a message expiry interval it gets the
    whole seconds left, at least one, and nothing from the deadline on. *)
Theorem retained_roundtrip p now id m now' :
  wf_packet (PPublish p) → pub_Topic p ≠ "" →
  newRetainMessageFromPublish p now id = Ok m →
  0 < now ≤ now' → now' < 2 ^ 63 → now + 2 ^ 32 * 1000000000 < 2 ^ 63 →
  publishFromRetainMessage m now' =
    match pub_Properties p ≫= pup_MessageExpiry with
    | None => Some (retained_publish p)
    | Some expiry =>
        let deadline := now + expiry * 1000000000 in
        if now' <? deadline
        then Some (set_props (set_expiry (Some (Z.max 1 ((deadline - now') `div` 1000000000)))) (retained_publish p))
        else None
    end.
Proof.
  intros Hwf Ht H Hnow Hnow' Hrange. rewrite (retained_decoded _ _ _ _ _ Hwf Ht H).
  unfold applyRetainedMessageExpiry, retainedExpiredAtUnixNano. cbn [retained_publish pub_Properties mbind option_bind].
  assert (pup_MessageExpiry (norm_props_of p) = pub_Properties p ≫= pup_MessageExpiry) as ->.
  { unfold norm_props_of. rewrite norm_expiry. by destruct (pub_Properties p). }
  destruct (pub_Properties p ≫= pup_MessageExpiry) as [expiry|] eqn:Hexp; [|done].
  assert (is_u32 expiry) as He.
  { destruct Hwf as (_ & _ & Hp). destruct (pub_Properties p) as [q|]; [|done]. cbn in *. destruct q; cbn in *.
    subst. by apply Hp. }
  unfold is_u32 in He. rewrite (wrap_i64_id (expiry * _)), (wrap_i64_id (now + _)) by lia.
  destruct (Z.leb_spec (now + expiry * 1000000000) 0); [lia|].
  destruct (Z.ltb_spec now' (now + expiry * 1000000000)); [|done]. cbn [negb].
  rewrite wrap_i64_id, Z.quot_div_nonneg by lia. set (d := (_ - now') `div` _).
  assert (0 ≤ d < 4294967296) as Hd.
  { unfold d. split; [apply Z.div_pos; lia|]. apply Z.div_lt_upper_bound; lia. }
  unfold wrap. rewrite Z.mod_small by done. do 3 f_equal. destruct (Z.eqb_spec d 0); f_equal; lia.
Qed.

Lemma retained_roundtrip_witness :
  let p := mkPublish (go_bytes "21.5") "home/temp" (Some (mkPublishProperties None (Some 60) None "" "" None None [] [])) 7 1 false true in
  ∃ m, newRetainMessageFromPublish p 1000000000 "c" = Ok m ∧
    (pub_Properties <$> publishFromRetainMessage m 11500000000) =
      Some (Some (mkPublishProperties None (Some 49) None "" "" None None [] [])) ∧
    publishFromRetainMessage m 61000000000 = None.
Proof.
  intros p. destruct (newRetainMessageFromPublish p 1000000000 "c") as [m|] eqn:E; [|vm_compute in E; discriminate].
  exists m. split; [reflexivity|].
  pose proof (retained_roundtrip p 1000000000 "c" m) as H.
  rewrite (H 11500000000), (H 61000000000); [split; vm_compute; reflexivity|..]; try lia; try done; try exact E.
  all: split_and!; [lia|lia|done|by cbn].
Defined.
