(* ===== verification/RetainStore.v ===== *)
(** * The retain store ([src/internal/broker/retain/retain.go])

    Retained messages live in one hash of the key-value store, serialised, under
    their topic.  Expired ones are dropped when they are met and by a sweep.  The
    protobuf encoding is the class [RetainCodec]; the hash store is a finite map whose
    operations may fail.  [StartGC] only decides when [RunGCOnce] runs; a cancelled context
    ends a sweep like a failing read. *)

From stdpp Require Import sorting.
From S2P Require Import Prelude GoStrings Mqtt5 Topic Retain.

(** [proto.Marshal] and [proto.Unmarshal] of a retain message. *)
Class RetainCodec (Data : Type) := {
  rc_Marshal : RetainMessage → result string Data;
  rc_Unmarshal : Data → result string RetainMessage }.
Class RetainCodecLaws (Data : Type) `{!RetainCodec Data} := {
  rc_roundtrip : ∀ m d, rc_Marshal m = Ok d → rc_Unmarshal d = Ok m }.

Section store.
Context {Data : Type} {Hcodec : RetainCodec Data}.

Definition isExpired (m : RetainMessage) (now : Z) : bool :=
  if 0 <? rm_ExpiredAtUnixNano m then negb (now <? rm_ExpiredAtUnixNano m) else false.

(** Each operation takes what goes wrong in the calls of the hash store it makes. *)
Definition PutRetainMessage (fail : option string) (message : RetainMessage) (h : gmap string Data) : gmap string Data * result string unit :=
  match rc_Marshal message with
  | Err e => (h, Err e)
  | Ok data => match fail with Some e => (h, Err e) | None => (<[rm_Topic message := data]> h, Ok tt) end
  end.

Definition DeleteRetainMessage (fail : option string) (topic : string) (h : gmap string Data) : gmap string Data * result string unit :=
  match fail with Some e => (h, Err e) | None => (delete topic h, Ok tt) end.

Definition GetRetainMessage (failGet failDel : option string) (now : Z) (topic : string) (h : gmap string Data)
    : gmap string Data * option RetainMessage :=
  match failGet with
  | Some _ => (h, None)
  | None =>
      match h !! topic with
      | None => (h, None)
      | Some data =>
          match rc_Unmarshal data with
          | Err _ => (h, None)
          | Ok message =>
              if isExpired message now then ((DeleteRetainMessage failDel (rm_Topic message) h).1, None)
              else (h, Some message)
          end
      end
  end.

(** The loop of [GetRetainMessagesByTopicFilter] over the entries of the hash, in any
    order: the messages, and the topics of the expired ones. *)
Fixpoint scanFilter (topicFilter : string) (now : Z) (all : list (string * Data))
    : list RetainMessage * list string :=
  match all with
  | [] => ([], [])
  | (topic, data) :: all =>
      let '(messages, expired) := scanFilter topicFilter now all in
      if negb (MatchTopicFilter topicFilter topic) then (messages, expired)
      else match rc_Unmarshal data with
           | Err _ => (messages, expired)
           | Ok message => if isExpired message now then (messages, topic :: expired) else (message :: messages, expired)
           end
  end.

Definition hdel (topics : list string) (h : gmap string Data) : gmap string Data := foldl (λ h t, delete t h) h topics.

Definition GetRetainMessagesByTopicFilter (failGet failDel : option string) (now : Z) (all : list (string * Data))
    (topicFilter : string) (h : gmap string Data) : gmap string Data * result string (list RetainMessage) :=
  match failGet with
  | Some e => (h, Err e)
  | None =>
      let '(messages, expiredTopics) := scanFilter topicFilter now all in
      (match failDel with Some _ => h | None => hdel expiredTopics h end, Ok messages)
  end.

(** The topics [RunGCOnce] removes: expired or undecodable. *)
Fixpoint scanExpired (now : Z) (all : list (string * Data)) : list string :=
  match all with
  | [] => []
  | (topic, data) :: all =>
      match rc_Unmarshal data with
      | Err _ => topic :: scanExpired now all
      | Ok message => if isExpired message now then topic :: scanExpired now all else scanExpired now all
      end
  end.

Definition RunGCOnce (failGet failDel : option string) (now : Z) (all : list (string * Data)) (h : gmap string Data)
    : gmap string Data * result string Z :=
  match failGet with
  | Some e => (h, Err e)
  | None =>
      match scanExpired now all with
      | [] => (h, Ok 0)
      | expiredTopics =>
          match failDel with Some e => (h, Err e) | None => (hdel expiredTopics h, Ok (Z.of_nat (length expiredTopics))) end
      end
  end.
End store.

(** ** The promise *)

(** A map from topics to messages; expired messages are as good as absent. *)
Definition live (now : Z) (a : gmap string RetainMessage) (topic : string) : option RetainMessage :=
  m ← a !! topic; if isExpired m now then None else Some m.

Section refinement.
Context {Data : Type} {Hcodec : RetainCodec Data} {Hlaws : RetainCodecLaws Data}.

(** An operation: its time, what fails, the order of a scan. *)
Inductive RetainOp :=
| OpPut (fail : option string) (m : RetainMessage)
| OpDelete (fail : option string) (topic : string)
| OpGet (failGet failDel : option string) (topic : string)
| OpScan (failGet failDel : option string) (order : gmap string Data → list (string * Data)) (filter : string)
| OpGC (failGet failDel : option string) (order : gmap string Data → list (string * Data)).

Definition rt_step (now : Z) (op : RetainOp) (h : gmap string Data) : gmap string Data * result string (list RetainMessage) :=
  match op with
  | OpPut fail m => let '(h, r) := PutRetainMessage fail m h in (h, (λ _, []) <$> r)
  | OpDelete fail topic => let '(h, r) := DeleteRetainMessage fail topic h in (h, (λ _, []) <$> r)
  | OpGet fg fd topic => let '(h, r) := GetRetainMessage fg fd now topic h in (h, Ok (option_list r))
  | OpScan fg fd order f => GetRetainMessagesByTopicFilter fg fd now (order h) f h
  | OpGC fg fd order => let '(h, r) := RunGCOnce fg fd now (order h) h in (h, (λ _, []) <$> r)
  end.

(** Put and delete that succeed change the map; nothing else does. *)
Definition a_step (op : RetainOp) (r : result string (list RetainMessage)) (a : gmap string RetainMessage) : gmap string RetainMessage :=
  match op, r with
  | OpPut _ m, Ok _ => <[rm_Topic m := m]> a
  | OpDelete _ topic, Ok _ => delete topic a
  | _, _ => a
  end.

(** Scans see every entry once. *)
Definition op_ok (op : RetainOp) : Prop :=
  match op with
  | OpScan _ _ order _ | OpGC _ _ order => ∀ h, order h ≡ₚ map_to_list h
  | _ => True
  end.

Fixpoint rt_run (ops : list (Z * RetainOp)) (h : gmap string Data) (a : gmap string RetainMessage) : gmap string Data * gmap string RetainMessage :=
  match ops with
  | [] => (h, a)
  | (now, op) :: ops => let '(h, r) := rt_step now op h in rt_run ops h (a_step op r a)
  end.

(** Entries decode to the messages of the map, filed under their topics; those missing
    had expired by [t]. *)
Record Holds (t : Z) (h : gmap string Data) (a : gmap string RetainMessage) : Prop := {
  ho_in : ∀ topic d, h !! topic = Some d → ∃ m, rc_Unmarshal d = Ok m ∧ a !! topic = Some m;
  ho_topic : ∀ topic m, a !! topic = Some m → rm_Topic m = topic;
  ho_lost : ∀ topic m, a !! topic = Some m → h !! topic = None → isExpired m t = true }.

Lemma expired_later m t t' : t ≤ t' → isExpired m t = true → isExpired m t' = true.
Proof. unfold isExpired. case_if; [|done]. intros ? H%negb_true_iff%Z.ltb_ge. apply negb_true_iff, Z.ltb_ge. lia. Qed.

Lemma hdel_lookup topics (h : gmap string Data) k :
  hdel topics h !! k = if bool_decide (k ∈ topics) then None else h !! k.
Proof.
  unfold hdel. revert h. induction topics as [|t topics IH]; intros h; cbn; [done|]. rewrite IH.
  destruct (decide (k = t)) as [->|Hne]; [rewrite lookup_delete_eq, (bool_decide_eq_true_2 (t ∈ t :: topics)); [by case_bool_decide|left]|].
  rewrite lookup_delete_ne by done. by rewrite (bool_decide_ext (k ∈ t :: topics) (k ∈ topics)) by set_solver.
Qed.

(** Removing entries that have expired is not noticed. *)
Lemma holds_drop t t' h a topics : t ≤ t' → Holds t h a →
  (∀ topic m, topic ∈ topics → a !! topic = Some m → isExpired m t' = true) → Holds t' (hdel topics h) a.
Proof.
  intros Hle [H1 H2 H3] Hx. split; [|done|].
  - intros topic d. rewrite hdel_lookup. case_bool_decide; [done|]. apply H1.
  - intros topic m Ha. rewrite hdel_lookup. case_bool_decide; [by eauto|]. intros Hn. by eapply expired_later, H3.
Qed.

Lemma scanned f now l messages expired h a t :
  Holds t h a → (∀ x, x ∈ l → h !! x.1 = Some x.2) → scanFilter f now l = (messages, expired) →
  (∀ topic, topic ∈ expired → ∃ m, a !! topic = Some m ∧ isExpired m now = true) ∧
  messages = omap (λ x, if MatchTopicFilter f x.1 then live now a x.1 else None) l.
Proof.
  intros Hh. revert messages expired. induction l as [|[topic d] l IH]; intros messages expired Hl; cbn.
  { intros [= <- <-]. split; [|done]. intros topic H. by apply elem_of_nil in H. }
  destruct (scanFilter f now l) as [ms ex]. destruct (IH ms ex) as [I1 I2]; [intros; apply Hl; by right|done|].
  destruct (ho_in _ _ _ Hh topic d) as (m & Hm & Ha); [apply (Hl (topic, d)); left|].
  unfold live at 1. rewrite Ha, Hm. cbn. destruct (MatchTopicFilter f topic); cbn; [|by intros [= <- <-]].
  destruct (isExpired m now) eqn:E; intros [= <- <-]; [|by rewrite I2].
  split; [|done]. intros k [->|Hk]%elem_of_cons; [by exists m|by apply I1].
Qed.

Lemma gc_scanned now l h a t :
  Holds t h a → (∀ x, x ∈ l → h !! x.1 = Some x.2) →
  ∀ topic, topic ∈ scanExpired now l → ∃ m, a !! topic = Some m ∧ isExpired m now = true.
Proof.
  intros Hh. induction l as [|[topic d] l IH]; intros Hl k; cbn; [by intros H%elem_of_nil|].
  destruct (ho_in _ _ _ Hh topic d) as (m & -> & Ha); [apply (Hl (topic, d)); left|].
  assert (k ∈ scanExpired now l → ∃ m, a !! k = Some m ∧ isExpired m now = true) as Hgo
    by (apply IH; intros; apply Hl; by right).
  destruct (isExpired m now) eqn:E; [|done]. intros [->|Hk]%elem_of_cons; [by exists m|by apply Hgo].
Qed.

Lemma order_entries (order : gmap string Data → list (string * Data)) h :
  (∀ h, order h ≡ₚ map_to_list h) → ∀ x, x ∈ order h → h !! x.1 = Some x.2.
Proof. intros Ho [k d] Hx. rewrite Ho in Hx. by apply elem_of_map_to_list in Hx. Qed.

Lemma holds_later t t' h a : t ≤ t' → Holds t h a → Holds t' h a.
Proof. intros Hle [H1 H2 H3]. split; [done..|]. intros. by eapply expired_later, H3. Qed.

(** What a reader is answered. *)
Definition a_answer (now : Z) (op : RetainOp) (a : gmap string RetainMessage) (r : result string (list RetainMessage)) : Prop :=
  match op with
  | OpGet None _ topic => r = Ok (option_list (live now a topic))
  | OpScan None _ _ f => ∃ l, r = Ok l ∧ NoDup (rm_Topic <$> l) ∧
      ∀ m, m ∈ l ↔ MatchTopicFilter f (rm_Topic m) = true ∧ live now a (rm_Topic m) = Some m
  | _ => True
  end.

Lemma live_topic t h a now topic m : Holds t h a → live now a topic = Some m → rm_Topic m = topic.
Proof.
  intros Hh. unfold live. destruct (a !! topic) as [m'|] eqn:Ha; [|done]. cbn. case_if; [done|]. intros [= <-]. by eapply ho_topic.
Qed.

Lemma live_stored t now h a topic m : t ≤ now → Holds t h a → live now a topic = Some m → is_Some (h !! topic).
Proof.
  intros Hle Hh. unfold live. destruct (a !! topic) as [m'|] eqn:Ha; [|done]. cbn. case_if; [done|]. intros _.
  destruct (h !! topic) eqn:Hn; [done|]. exfalso. rewrite (expired_later m' t now) in Heqb; [done..|]. by eapply ho_lost.
Qed.

Lemma scan_answer t now f (order : gmap string Data → list (string * Data)) h a messages expired :
  t ≤ now → Holds t h a → (∀ h, order h ≡ₚ map_to_list h) → scanFilter f now (order h) = (messages, expired) →
  NoDup (rm_Topic <$> messages) ∧
  ∀ m, m ∈ messages ↔ MatchTopicFilter f (rm_Topic m) = true ∧ live now a (rm_Topic m) = Some m.
Proof.
  intros Hle Hh Ho Hs. destruct (scanned f now (order h) messages expired h a t Hh (order_entries order h Ho) Hs) as [_ ->].
  split.
  - pose proof (NoDup_fst_map_to_list h) as Hnd. rewrite <-(Ho h) in Hnd. revert Hnd. generalize (order h). clear Hs.
    induction l as [|[k d] l IH]; cbn; [constructor|]. intros [Hn Hnd]%NoDup_cons.
    destruct (if MatchTopicFilter f k then live now a k else None) as [m|] eqn:E; [|by apply IH].
    cbn. constructor; [|by apply IH]. intros (m' & Heq & Hm')%list_elem_of_fmap. apply Hn.
    apply list_elem_of_omap in Hm' as ([k' d'] & Hx & Hm'). cbn in *.
    destruct (MatchTopicFilter f k); [|done]. destruct (MatchTopicFilter f k'); [|done].
    rewrite (live_topic _ _ _ _ _ _ Hh E), (live_topic _ _ _ _ _ _ Hh Hm') in Heq. subst k'.
    apply list_elem_of_fmap. by exists (k, d').
  - intros m. rewrite list_elem_of_omap. split.
    + intros ([k d] & _ & Hm). cbn in Hm. destruct (MatchTopicFilter f k) eqn:Hf; [|done].
      rewrite (live_topic _ _ _ _ _ _ Hh Hm). done.
    + intros [Hf Hm]. destruct (live_stored _ _ _ _ _ _ Hle Hh Hm) as [d Hd]. exists (rm_Topic m, d). cbn. rewrite Hf. split; [|done].
      rewrite (Ho h). by apply elem_of_map_to_list.
Qed.

Lemma step_holds t now op h a : t ≤ now → op_ok op → Holds t h a →
  Holds now (rt_step now op h).1 (a_step op (rt_step now op h).2 a) ∧ a_answer now op a (rt_step now op h).2.
Proof.
  intros Hle Hok Hh. pose proof (holds_later _ _ _ _ Hle Hh) as Hh'. destruct op as [fail m|fail topic|fg fd topic|fg fd order f|fg fd order]; cbn.
  - split; [|done]. unfold PutRetainMessage. destruct (rc_Marshal m) as [d|e] eqn:Hd; [|done]. destruct fail; [done|]. cbn.
    destruct Hh' as [H1 H2 H3]. split.
    + intros topic d' [[<- <-]|[Hne Ht]]%lookup_insert_Some; [exists m; rewrite lookup_insert_eq; split; [by apply rc_roundtrip|done]|].
      rewrite lookup_insert_ne by done. by apply H1.
    + intros topic m' [[<- <-]|[_ Ht]]%lookup_insert_Some; [done|by apply H2].
    + intros topic m' [[<- <-]|[Hne Ht]]%lookup_insert_Some; [by rewrite lookup_insert_eq|]. rewrite lookup_insert_ne by done. by apply H3.
  - split; [|done]. unfold DeleteRetainMessage. destruct fail; [done|]. cbn. destruct Hh' as [H1 H2 H3]. split.
    + intros k d [Hne Hk]%lookup_delete_Some. rewrite lookup_delete_ne by done. by apply H1.
    + intros k m [Hne Hk]%lookup_delete_Some. by apply H2.
    + intros k m [Hne Hk]%lookup_delete_Some. rewrite lookup_delete_ne by done. by apply H3.
  - unfold GetRetainMessage. destruct fg as [e|]; [done|].
    destruct (h !! topic) as [d|] eqn:Hd.
    + destruct (ho_in _ _ _ Hh _ _ Hd) as (m & -> & Ha). destruct (isExpired m now) eqn:E; cbn.
      * split; [|unfold live; rewrite Ha; cbn; by rewrite E]. unfold DeleteRetainMessage. destruct fd; [done|].
        apply (holds_drop t now h a [rm_Topic m]); [done..|]. intros k m' ->%list_elem_of_singleton.
        rewrite (ho_topic _ _ _ Hh _ _ Ha), Ha. by intros [= <-].
      * split; [done|]. unfold live. rewrite Ha. cbn. by rewrite E.
    + split; [done|]. cbn. destruct (live now a topic) eqn:E; [|done].
      destruct (live_stored _ _ _ _ _ _ Hle Hh E) as [??]. congruence.
  - unfold GetRetainMessagesByTopicFilter. destruct fg as [e|]; [done|].
    destruct (scanFilter f now (order h)) as [messages expired] eqn:E. cbn. split.
    + destruct fd; [done|]. apply (holds_drop t); [done..|]. intros k m Hk Ha.
      destruct (scanned f now (order h) messages expired h a t Hh (order_entries order h Hok) E) as [Hx _].
      destruct (Hx k Hk) as (m' & Ha' & He). congruence.
    + exists messages. split; [done|]. by eapply scan_answer.
  - split; [|done]. unfold RunGCOnce. destruct fg as [e|]; [done|].
    pose proof (gc_scanned now (order h) h a t Hh (order_entries order h Hok)) as Hx.
    destruct (scanExpired now (order h)) as [|x l]; [done|]. destruct fd; [done|]. cbn [fst snd fmap result_fmap].
    apply (holds_drop t); [done..|]. intros k m Hk Ha. destruct (Hx k Hk) as (m' & Ha' & He). congruence.
Qed.

Fixpoint times_from (t : Z) (ops : list (Z * RetainOp)) : Prop :=
  match ops with [] => True | (now, op) :: ops => t ≤ now ∧ op_ok op ∧ times_from now ops end.

Lemma run_holds ops : ∀ t h a, Holds t h a → times_from t ops →
  ∃ t', Holds t' (rt_run ops h a).1 (rt_run ops h a).2 ∧ ∀ now, (∀ x, x ∈ ops → x.1 ≤ now) → t ≤ now → t' ≤ now.
Proof.
  induction ops as [|[now op] ops IH]; intros t h a Hh Ht; cbn; [by exists t; split; [|intros; lia]|]. destruct Ht as (Hle & Hok & Ht).
  destruct (step_holds t now op h a Hle Hok Hh) as [Hh' _]. destruct (rt_step now op h) as [h' r]; cbn in *.
  destruct (IH now h' _ Hh' Ht) as (t' & H1 & H2). exists t'. split; [done|]. intros n Hn Hle'. apply H2; [intros; apply Hn; by right|].
  apply (Hn (now, op)). left.
Qed.

(** C36. The retain store keeps the last message put for each topic until it is deleted
    or expires: over every sequence of puts, deletes, reads, scans and sweeps at
    non-decreasing times, with any of the hash operations failing, a read that reaches
    the hash answers the last successfully put message of the topic unless it was
    deleted or has expired, and a scan for a filter answers exactly the live messages
    of the topics it matches, one per topic.  Sweeps and lazy deletions are never
    noticed. *)
Theorem retain_store_refines ops now op :
  times_from 0 (ops ++ [(now, op)]) →
  let '(h, a) := rt_run ops ∅ ∅ in a_answer now op a (rt_step now op h).2.
Proof.
  intros Ht. assert (Holds 0 ∅ ∅) as H0.
  { split; intros topic x Hx; by rewrite lookup_empty in Hx. }
  assert (∀ t, times_from t (ops ++ [(now, op)]) → times_from t ops ∧ op_ok op ∧ t ≤ now ∧ ∀ x, x ∈ ops → x.1 ≤ now) as Hsplit.
  { clear. induction ops as [|[n o] ops IH]; intros t; cbn.
    - intros (? & ? & _). split_and!; [done..|]. intros x Hx. by apply elem_of_nil in Hx.
    - intros (? & ? & Hr). destruct (IH _ Hr) as (? & ? & ? & Hle). split_and!; try done; [lia|].
      intros x [->|Hx]%elem_of_cons; [done|by apply Hle]. }
  destruct (Hsplit 0 Ht) as (Hops & Hok & Hle & Hall). destruct (run_holds ops 0 ∅ ∅ H0 Hops) as (t' & Hh & Ht').
  destruct (rt_run ops ∅ ∅) as [h a]. apply (step_holds t'); [|done..]. apply Ht'; [done|lia].
Qed.
End refinement.

(** ** An instance *)

#[export] Instance plain_codec : RetainCodec RetainMessage := { rc_Marshal := Ok; rc_Unmarshal := Ok }.
#[export] Instance plain_laws : RetainCodecLaws RetainMessage.
Proof. split. by intros m d [= ->]. Qed.

Definition example_retained (topic : string) (expires : Z) : RetainMessage := mkRetain topic [] 0 [] 1 "c" expires.
Definition example_retain_ops : list (Z * @RetainOp RetainMessage) :=
  [(1, OpPut None (example_retained "a/b" 0)); (2, OpPut None (example_retained "a/c" 10));
   (3, OpPut None (example_retained "x" 0)); (4, OpPut (Some "down") (example_retained "a/d" 0));
   (12, OpGC None None map_to_list)].

Lemma retain_store_refines_witness :
  ∃ l, (rt_step 13 (OpScan None None map_to_list "a/+") (rt_run example_retain_ops ∅ ∅).1).2 = Ok l ∧
    NoDup (rm_Topic <$> l) ∧ ∀ m, m ∈ l ↔ MatchTopicFilter "a/+" (rm_Topic m) = true ∧
      live 13 (rt_run example_retain_ops ∅ ∅).2 (rm_Topic m) = Some m.
Proof.
  pose proof (retain_store_refines example_retain_ops 13 (OpScan None None map_to_list "a/+")) as H.
  destruct (rt_run example_retain_ops ∅ ∅) as [h a]. apply H. cbn. split_and!; try lia; try done; intros; reflexivity.
Defined.
