(* ===== verification/TaskStore.v ===== *)
(** * Saving messages and appending tasks ([src/internal/broker/delivery], [src/pkg/brokerapi/message/serializer/pb.go],
    [src/pkg/storage/delivery/messagepayload/badger/badger.go])

    A publication is serialized once into the payload store, under its message identifier, and a
    delivery task is appended for each receiver.  [proto.Marshal] of [StorePublishMessage]
    ([StoreProto]) and [json.Unmarshal] of a list of integers ([JsonInts]) are interfaces with
    instances below; contexts and the time to live of the entries of badger are omitted. *)

From S2P Require Import Prelude GoStrings Mqtt5 Wire WireParse WireProps WirePropsProofs WireCodec WireRoundtrip Inflight Downlink Retain RetainProofs SubCenter Router DeliveryStore DeliveryStoreProofs.

(** ** The serializer ([pb.go]) *)

(** The fields of [brokerpublish.Message] that are stored or routed by. *)
Record PubMessage := mkPubMessage {
  pm_SendClientID : string;
  pm_OwnerToken : string;
  pm_MessageID : string;
  pm_Publish : option Publish;
  pm_PubReceived : bool;
  pm_CreatedTime : Z;
  pm_ExpiredTime : Z }.

Record StorePublishMessage := mkStorePublish {
  spm_MessageID : string;
  spm_PublishPacket : list byte;
  spm_PubReceived : bool;
  spm_CreatedTime : Z;
  spm_ExpiredTime : Z;
  spm_SenderID : string }.

(** [int64]. *)
Definition is_i64 (z : Z) : Prop := - 2 ^ 63 ≤ z < 2 ^ 63.

(** [proto.Marshal] may fail (on a string that is not UTF-8, for instance); what it wrote of a
    message whose times are 64-bit integers is read back. *)
Class StoreProto := {
  spm_Marshal : StorePublishMessage → result string string;
  spm_Unmarshal : string → option StorePublishMessage;
  spm_roundtrip m raw : spm_Marshal m = Ok raw → is_i64 (spm_CreatedTime m) → is_i64 (spm_ExpiredTime m) → spm_Unmarshal raw = Some m }.

(** [controlPacketForStorage] of a PUBLISH: the same clone and placeholder as for retained messages. *)
Definition controlPacketForStorage (publish : Publish) : ControlPacket := publishPacket (retainPublishForWireEncoding publish).

Definition nanosPerSecond : Z := 1000000000.

(** [int64(expiry) * int64(time.Second)], at 64 bits. *)
Definition expiryAt (created expiry : Z) : Z := wrap_i64 (created + wrap_i64 (expiry * nanosPerSecond)).

Definition PublishMessageToProtoMessage (clock : Z) (m : PubMessage) : result WireError StorePublishMessage :=
  packet ← (match pm_Publish m with
            | None => Ok []
            | Some publish => Encode 0 (Some (controlPacketForStorage publish))
            end : result WireError (list byte));
  let createdTime := if pm_CreatedTime m =? 0 then clock else pm_CreatedTime m in
  let expiredTime :=
    if pm_ExpiredTime m =? 0
    then match (pm_Publish m ≫= pub_Properties) ≫= pup_MessageExpiry with
         | Some expiry => expiryAt createdTime expiry
         | None => 0
         end
    else pm_ExpiredTime m in
  Ok (mkStorePublish (pm_MessageID m) packet false createdTime expiredTime (pm_SendClientID m)).

Section serializer.
Context `{!UUIDs, !StoreProto}.

Definition ser_Encode (clock : Z) (m : PubMessage) : result string string :=
  match PublishMessageToProtoMessage clock m with Err _ => Err "encode" | Ok p => spm_Marshal p end.

Definition ProtoMessageToPublishMessage (p : StorePublishMessage) : result string PubMessage :=
  let msg uid publish := mkPubMessage (spm_SenderID p) "" uid publish (spm_PubReceived p) (spm_CreatedTime p) (spm_ExpiredTime p) in
  match spm_PublishPacket p with
  | [] => match uuid_Parse (spm_MessageID p) with None => Err "invalid UUID" | Some uid => Ok (msg uid None) end
  | packet =>
      match Decode 0 packet with
      | Err _ => Err "decode"
      | Ok (ctl, _) =>
          match cp_Content ctl with
          | Some (PPublish pub) =>
              match uuid_Parse (spm_MessageID p) with
              | None => Err "invalid UUID"
              | Some uid => Ok (msg uid (Some (set_qos_id (pub_QoS pub) 0 pub)))
              end
          | Some _ => Err "invalid content"
          | None => Err "empty content"
          end
      end
  end.

Definition ser_Decode (rawData : string) : result string PubMessage :=
  match spm_Unmarshal rawData with None => Err "proto" | Some p => ProtoMessageToPublishMessage p end.
End serializer.

(** ** The payload store ([badger.go]) *)

Definition payloadKey (messageID : string) : string := "p/" +:+ messageID.

Section payload.
Context {PDB : Type} `{!KV PDB}.

Definition SavePayload (o : TxnOutcome) (messageID payload : string) (db : PDB) : PDB * result string unit :=
  if bool_decide (messageID = uuid_Nil) then (db, Err "messageID is empty")
  else match o with
       | TxnCommit => (kv_set (payloadKey messageID) payload db, Ok tt)
       | TxnConflict => (db, Err "conflict")
       | TxnFailed => (db, Err "transaction failed")
       end.

(** [Ok None] is [ErrMessagePayloadNotFound]. *)
Definition LoadMessagePayload (messageID : string) (db : PDB) : result string (option string) :=
  if bool_decide (messageID = uuid_Nil) then Err "messageID is empty" else Ok (kv_get db (payloadKey messageID)).
End payload.

(** ** The task store ([delivery_wrapper.go], [store_client_delivery.go]) *)

(** [clonePublishForStorage]: the packet identifier belongs to the publisher's connection. *)
Definition clonePublishForStorage (publish : Publish) : Publish := set_qos_id (pub_QoS publish) 0 (clonePublish publish).

(** What the outside decides about saving a message: the identifier [uuid.NewV7] gives, or
    that it fails; the clock of the serializer; how the transaction ends. *)
Record SaveIO := mkSaveIO { sv_newID : option string; sv_clock : Z; sv_outcome : TxnOutcome }.

Section save.
Context {PDB : Type} `{!KV PDB, !UUIDs, !StoreProto}.

Definition SaveMessagePayload (io : SaveIO) (message : PubMessage) (db : PDB) : PDB * result string string :=
  match (if bool_decide (pm_MessageID message = uuid_Nil) then sv_newID io else Some (pm_MessageID message)) with
  | None => (db, Err "uuid")
  | Some uid =>
      let message := mkPubMessage (pm_SendClientID message) (pm_OwnerToken message) uid (pm_Publish message) (pm_PubReceived message)
                       (pm_CreatedTime message) (pm_ExpiredTime message) in
      match ser_Encode (sv_clock io) message with
      | Err e => (db, Err e)
      | Ok raw =>
          match SavePayload (sv_outcome io) uid raw db with
          | (db, Err e) => (db, Err e)
          | (db, Ok _) => (db, Ok uid)
          end
      end
  end.

Definition publishExpiredNano (createdNano : Z) (publish : Publish) : Z :=
  match pub_Properties publish ≫= pup_MessageExpiry with
  | None => 0
  | Some expiry => if expiry =? 0 then createdNano else expiryAt createdNano expiry
  end.

Definition SavePublishMessage (io : SaveIO) (ts : Z) (publisherClientID : string) (publish : Publish) (messageID : string) (db : PDB)
    : PDB * result string string :=
  SaveMessagePayload io (mkPubMessage publisherClientID "" messageID (Some (clonePublishForStorage publish)) false ts
                           (publishExpiredNano ts publish)) db.
End save.

(** [json.Unmarshal] into a slice of [int32]. *)
Definition is_i32 (z : Z) : Prop := -2147483648 ≤ z < 2147483648.
Class JsonInts := {
  json_ints : string → option (list Z);
  json_ints_roundtrip ids : Forall is_i32 ids → json_ints (jsonMarshal ids) = Some ids }.

Section tasks.
Context {DB : Type} `{!KV DB, !UUIDs, !Codecs, !JsonInts}.

Definition subscriptionIDsFromJSON (raw : string) : list Z :=
  if bool_decide (raw = "") then [] else default [] (json_ints raw).

(** What the outside decides about appending a task: the identifier of the task, or that
    [uuid.NewV7] fails, and how the store ends. *)
Record AppendIO := mkAppendIO { ap_newID : option string; ap_update : UpdateIO }.

(** [AppendClientTask]; plans of the router have an empty share group and no shared task. *)
Definition AppendClientTask (io : AppendIO) (ts : Z) (clientID messageID : string) (plan : ClientPlan) (shareGroup sharedTaskID : string)
    (db : DB) : DB * result string (string * bool) :=
  match ap_newID io with
  | None => (db, Err "uuid")
  | Some taskID =>
      let task := mkTask ts taskID clientID messageID 0 (cp_DeliveryQoS plan) (subscriptionIDsFromJSON (cp_SubscriptionIDsJSON plan))
                    (cp_WinnerNoLocal plan) (cp_WinnerRAP plan) shareGroup sharedTaskID in
      match AppendDeliveryTask (ap_update io) task db with
      | (db, (_, Err e)) => (db, Err e)
      | (db, (inserted, Ok _)) => (db, Ok (taskID, inserted))
      end
  end.
End tasks.
