(* ===== verification/TaskStoreProofs.v ===== *)
(** * What is saved is read back

    Instances of the encodings of [TaskStore] (decimal integers, and an encoding of the stored
    message), and the round trip of a publication through the payload store. *)

From stdpp Require Import countable.
From S2P Require Import Prelude GoStrings Mqtt5 Wire WireParse WireProps WirePropsProofs WireCodec WireRoundtrip WalEngine Inflight Downlink Retain RetainProofs SubCenter Router DeliveryStore DeliveryStoreProofs DeliveryQueue TaskStore.

(** ** Decimal integers *)

Definition digitValue (b : byte) : option Z :=
  let v := b2z b in if (48 <=? v) && (v <=? 57) then Some (v - 48) else None.
Fixpoint digits (s : string) (acc : Z) : option Z :=
  match s with
  | EmptyString => Some acc
  | String b s => d ← digitValue b; digits s (10 * acc + d)
  end.
Definition parseDecimal (s : string) : option Z :=
  match s with
  | EmptyString => None
  | String "-" s => if bool_decide (s = "") then None else Z.opp <$> digits s 0
  | _ => digits s 0
  end.

Lemma digits_go x : ∀ s, digits (pretty_N_go x s) 0 = digits s (Z.of_N x).
Proof.
  induction (N.lt_wf_0 x) as [x _ IH]; intros s. assert (x = 0 ∨ 0 < x)%N as [->|Hx] by lia; [by rewrite pretty_N_go_0|].
  rewrite pretty_N_go_step by done. rewrite IH by (by apply N.div_lt). cbn [digits].
  assert (x `mod` 10 < 10)%N as Hm by (apply N.mod_lt; lia).
  assert (digitValue (pretty_N_char (x `mod` 10)) = Some (Z.of_N (x `mod` 10))) as ->.
  { assert (∀ y, (y < 10)%N → digitValue (pretty_N_char y) = Some (Z.of_N y)) as H; [|by apply H]. intros y Hy.
    assert (y = 0 ∨ y = 1 ∨ y = 2 ∨ y = 3 ∨ y = 4 ∨ y = 5 ∨ y = 6 ∨ y = 7 ∨ y = 8 ∨ y = 9)%N as Hc by lia.
    by destruct_or! Hc; subst. }
  cbn [mbind option_bind]. f_equal. pose proof (N.div_mod x 10 ltac:(lia)). lia.
Qed.

Lemma go_head x s : (0 < x)%N → ∃ b r, pretty_N_go x s = String b r ∧ b ≠ "-"%char.
Proof.
  intros Hx. destruct (pretty_N_go x s) as [|b r] eqn:E.
  - exfalso. pose proof (digits_go x s) as H. rewrite E in H.
    assert (∀ x s, s ≠ "" → pretty_N_go x s ≠ "") as Hne.
    { clear. intros x. induction (N.lt_wf_0 x) as [x _ IH]; intros s Hs. assert (x = 0 ∨ 0 < x)%N as [->|Hx] by lia; [by rewrite pretty_N_go_0|].
      rewrite pretty_N_go_step by done. apply IH; [by apply N.div_lt|done]. }
    rewrite pretty_N_go_step in E by done. by apply Hne in E.
  - exists b, r. split; [done|]. intros ->. rewrite pretty_N_go_step in E by done. revert E.
    apply (pretty_N_go_ne_dash _ _ r). unfold pretty_N_char. by repeat case_match.
Qed.

Lemma parseDecimal_pretty (z : Z) : parseDecimal (pretty z) = Some z.
Proof.
  destruct z as [|p|p]; [done| |].
  - change (pretty (Zpos p)) with (pretty (Npos p)). unfold pretty, pretty_N. rewrite decide_False by done.
    destruct (go_head (Npos p) "" ltac:(lia)) as (b & r & E & Hb). pose proof (digits_go (Npos p) "") as H. rewrite E in *.
    cbn in H. rewrite <-H. unfold parseDecimal. destruct b as [[] [] [] [] [] [] [] []]; done.
  - change (pretty (Zneg p)) with ("-" +:+ pretty (Npos p)). unfold pretty, pretty_N. rewrite decide_False by done.
    destruct (go_head (Npos p) "" ltac:(lia)) as (b & r & E & Hb). pose proof (digits_go (Npos p) "") as H. rewrite E in *.
    cbn [parseDecimal String.append]. rewrite bool_decide_false by done. by rewrite H.
Qed.

(** No commas in a number. *)
Lemma digits_no_comma s : ∀ acc v, digits s acc = Some v → contains_byte "," s = false.
Proof.
  induction s as [|b s IH]; intros acc v; cbn; [done|]. destruct (digitValue b) as [d|] eqn:E; [|done]. intros H.
  rewrite (IH _ _ H), bool_decide_false; [done|]. intros <-. done.
Qed.
Lemma pretty_no_comma (z : Z) : contains_byte "," (pretty z) = false.
Proof.
  pose proof (parseDecimal_pretty z) as H. unfold parseDecimal in H. destruct (pretty z) as [|b s]; [done|].
  destruct (decide (b = "-"%char)) as [->|Hb].
  - destruct (bool_decide _); [done|]. destruct (digits s 0) eqn:E; [|done]. cbn. by apply digits_no_comma in E.
  - assert (digits (String b s) 0 = Some z) as E by (destruct b as [[] [] [] [] [] [] [] []]; done). by apply digits_no_comma in E.
Qed.

Definition parseInts (raw : string) : option (list Z) :=
  if bool_decide (raw = "[]") then Some []
  else match raw with
       | String "[" r => if bool_decide (String.substring (String.length r - 1) 1 r = "]")
                         then mapM parseDecimal (split_byte "," (String.substring 0 (String.length r - 1) r)) else None
       | _ => None
       end.

Lemma parseInts_Marshal ids : parseInts (jsonMarshal ids) = Some ids.
Proof.
  destruct ids as [|id ids]; [done|]. unfold parseInts, jsonMarshal. set (l := pretty <$> id :: ids).
  assert (Forall (λ s, contains_byte "," s = false) l) as Hl.
  { apply Forall_forall. intros s Hs. unfold l in Hs. apply list_elem_of_fmap in Hs as (z & -> & _). apply pretty_no_comma. }
  assert (split_byte "," (join_byte "," l) = l) as Hsp by (by apply split_join).
  rewrite bool_decide_false.
  2:{ intros E%(f_equal String.length). rewrite !append_length in E. change (String.length "[]") with 2%nat in E.
      change (String.length "[") with 1%nat in E. change (String.length "]") with 1%nat in E.
      destruct (join_byte "," l) as [|c r]; [|cbn in E; lia]. unfold l in Hsp. cbn in Hsp. injection Hsp as Hp _.
      pose proof (parseDecimal_pretty id) as H. by rewrite <-Hp in H. }
  cbn [String.append]. rewrite append_length. cbn [String.length]. replace (String.length (join_byte "," l) + 1 - 1)%nat with (String.length (join_byte "," l)) by lia.
  rewrite substring_skip, substring_app. rewrite bool_decide_true by done. rewrite Hsp. unfold l. clear.
  generalize (id :: ids). intros zs. induction zs as [|z zs IH]; [done|]. cbn. rewrite parseDecimal_pretty. cbn in IH |- *. by rewrite IH.
Qed.

#[export] Instance decimal_JsonInts : JsonInts := { json_ints := parseInts; json_ints_roundtrip ids _ := parseInts_Marshal ids }.

(** ** An encoding of the stored message *)

#[export] Instance StorePublishMessage_eq_dec : EqDecision StorePublishMessage.
Proof. solve_decision. Defined.
#[export] Instance StorePublishMessage_countable : Countable StorePublishMessage :=
  inj_countable' (λ '(mkStorePublish a b c d e f), (a, b, c, d, e, f)) (λ '(a, b, c, d, e, f), mkStorePublish a b c d e f) ltac:(by intros []).

Lemma countable_roundtrip (m : StorePublishMessage) raw : (Ok (String "{" (bits (encode m))) : result string string) = Ok raw → unmarshalBits raw = Some m.
Proof. intros [= <-]. apply unmarshalBits_encode. Qed.

#[export] Instance countable_StoreProto : StoreProto := {|
  spm_Marshal a := Ok (String "{" (bits (encode a)));
  spm_Unmarshal := unmarshalBits;
  spm_roundtrip m raw H _ _ := countable_roundtrip m raw H |}.

Lemma wrap_i64_range z : is_i64 (wrap_i64 z).
Proof. unfold is_i64, wrap_i64. pose proof (Z.mod_pos_bound (z + 2 ^ 63) (2 ^ 64)). lia. Qed.

Lemma publishExpiredNano_range ts p : is_i64 ts → is_i64 (publishExpiredNano ts p).
Proof. intros H. unfold publishExpiredNano. repeat case_match; [done|apply wrap_i64_range|unfold is_i64; lia]. Qed.

(** ** Saving and loading *)

Section saved.
Context {PDB : Type} `{Hkv : !KV PDB, HKV : !KVLaws PDB, Huu : !UUIDs, HP : !StoreProto}.

Lemma payloadKey_inj a b : payloadKey a = payloadKey b → a = b.
Proof. apply append_inj_l. Qed.

Lemma wf_for_storage p : wf_packet (PPublish p) → wf_packet (PPublish (clonePublishForStorage p)).
Proof.
  intros (Hq & _ & Hp). split; [exact Hq|]. split; [unfold is_u16; cbn; lia|]. cbn. destruct (pub_Properties p) as [q|]; [exact Hp|done].
Qed.

(** The publication as it is read back: no packet identifier, properties present, empty
    binary properties absent. *)
Definition stored_publish (p : Publish) : Publish := set_qos_id (pub_QoS p) 0 (norm_pub p).

Lemma stored_clone p : set_qos_id (pub_QoS p) 0 (norm_pub (retainPublishForWireEncoding (clonePublishForStorage p))) = stored_publish p.
Proof.
  unfold stored_publish, norm_pub, norm_props_of, retainPublishForWireEncoding, clonePublishForStorage, set_qos_id, clonePublish.
  destruct p as [pl tp pr id q d r]. cbn. case_if; cbn; f_equal; f_equal; destruct pr as [[?????[[|]|]???]|]; reflexivity.
Qed.

Lemma decode_stored clock id sender p ts exp m raw : uuid_Parse id = Some id → wf_packet (PPublish p) → is_i64 ts → ts ≠ 0 → is_i64 exp →
  PublishMessageToProtoMessage clock (mkPubMessage sender "" id (Some (clonePublishForStorage p)) false ts exp) = Ok m →
  spm_Marshal m = Ok raw →
  ser_Decode raw = Ok (mkPubMessage sender "" id (Some (stored_publish p)) false ts
    (if exp =? 0 then match pub_Properties p ≫= pup_MessageExpiry with Some e => expiryAt ts e | None => 0 end else exp)).
Proof.
  intros Hid Hwf Hts Hnz Hexp. unfold PublishMessageToProtoMessage. cbn [pm_Publish pm_CreatedTime pm_ExpiredTime pm_MessageID pm_SendClientID].
  unfold controlPacketForStorage. destruct (Encode 0 _) as [bs|] eqn:He; [|done]. cbn [mbind result_mbind result_bind].
  replace (ts =? 0) with false by lia. intros [= <-] Hraw. unfold ser_Decode.
  rewrite (spm_roundtrip _ raw Hraw); [|done|cbn; repeat case_match; (done || apply wrap_i64_range || unfold is_i64; lia)].
  unfold ProtoMessageToPublishMessage.
  cbn [spm_PublishPacket spm_MessageID spm_SenderID spm_PubReceived spm_CreatedTime spm_ExpiredTime].
  apply Encode_nonempty in He as Hne. destruct (decode_publish _ bs (wf_clone _ (wf_for_storage _ Hwf)) He) as (cp & Hd & Hc).
  destruct bs as [|b bs]; [done|]. rewrite Hd, Hc, Hid.
  rewrite <-(stored_clone p). replace (pub_QoS (norm_pub _)) with (pub_QoS p).
  - do 2 f_equal. destruct (exp =? 0); [|done]. cbn. by destruct (pub_Properties p) as [q|]; [destruct q|].
  - unfold retainPublishForWireEncoding. by destruct (_ && _).
Qed.

(** What a publication becomes in the payload store.  When a message is saved, loading its
    identifier gives bytes that decode to the publication with its topic, payload, QoS and
    properties, its sender, the time it was saved and, if it has an expiry interval, the moment
    it expires; every other message is untouched.  When saving fails nothing changes. *)
Lemma saved_message_read_back io ts sender p m (db : PDB) :
  wf_packet (PPublish p) → is_i64 ts → ts ≠ 0 → uuid_Parse m = Some m → (∀ u, sv_newID io = Some u → uuid_Parse u = Some u ∧ u ≠ uuid_Nil) →
  match SavePublishMessage io ts sender p m db with
  | (db', Ok id) => (id = m ∨ m = uuid_Nil ∧ sv_newID io = Some id) ∧
      (∃ raw, LoadMessagePayload id db' = Ok (Some raw) ∧
         ser_Decode raw = Ok (mkPubMessage sender "" id (Some (stored_publish p)) false ts (publishExpiredNano ts p))) ∧
      (∀ id', id' ≠ id → LoadMessagePayload id' db' = LoadMessagePayload id' db)
  | (db', Err _) => db' = db
  end.
Proof.
  intros Hwf Hi Hts Hm Hnew. unfold SavePublishMessage, SaveMessagePayload. cbn [pm_MessageID].
  destruct (if bool_decide (m = uuid_Nil) then _ else _) as [uid|] eqn:Euid; [|done].
  assert (uuid_Parse uid = Some uid ∧ uid ≠ uuid_Nil ∧ (uid = m ∨ m = uuid_Nil ∧ sv_newID io = Some uid)) as (Hid & Hnil & Hor).
  { case_bool_decide as E; [destruct (Hnew _ Euid); by split_and!; [| |right]|]. injection Euid as <-. by split_and!; [| |left]. }
  cbn [pm_SendClientID pm_OwnerToken pm_Publish pm_PubReceived pm_CreatedTime pm_ExpiredTime].
  unfold ser_Encode. destruct (PublishMessageToProtoMessage _ _) as [pm|] eqn:Ep; [|done]. destruct (spm_Marshal pm) as [raw|] eqn:Eraw; [|done].
  pose proof (decode_stored _ _ _ _ _ _ _ _ Hid Hwf Hi Hts (publishExpiredNano_range ts p Hi) Ep Eraw) as Hd.
  unfold SavePayload. rewrite bool_decide_false by done. destruct (sv_outcome io); [|done|done]. split_and!; [done| |].
  - eexists. unfold LoadMessagePayload. rewrite bool_decide_false, kv_get_set, decide_True by done. split; [done|]. rewrite Hd.
    do 2 f_equal. unfold publishExpiredNano.
    destruct (pub_Properties p ≫= pup_MessageExpiry) as [e|]; [|done]. destruct (Z.eqb_spec e 0) as [->|He].
    + by replace (ts =? 0) with false by lia.
    + by destruct (Z.eqb_spec (expiryAt ts e) 0) as [E|].
  - intros id' Hne. unfold LoadMessagePayload. rewrite kv_get_set, decide_False; [done|]. by intros ?%payloadKey_inj.
Qed.
End saved.
