(* ===== verification/SharedSub.v ===== *)
(** * Shared subscriptions: members, delivery strategy, consumer, rollback

    ([src/internal/broker/subcenter/memory/shared_subscription.go],
    [src/internal/broker/sharedsubscription/domain], [consumer/consumer.go],
    [badgerstore/shared_store.go])

    A message for a share group is a task of the group's queue ([DeliveryStore]).  The group's
    consumer reads the pending tasks behind its cursor, claims each (pending to processing), puts
    a task into the queue of one online member and wakes it; the member's acknowledgement
    completes the task.  Tasks that stay in processing too long, and those of a member that went
    away, become pending again with a new time, behind the cursor of the consumer.

    What the outside decides (transactions, clocks, fresh identifiers, whether a client can be
    woken) is in records; the goroutines of the consumer are the functions one of their rounds
    runs, and their interleaving is the subject of [SharedSubProofs].  Contexts appear as the
    check before each task; the test hook [wakeClientFunc] and metrics are omitted. *)

From stdpp Require Import sorting.
From S2P Require Import Prelude GoStrings Mqtt5 Topic SubCore SubCenter SessionCore Inflight Downlink Router DeliveryStore TaskStore.

(** ** Members of a group ([shared_subscription.go]) *)

Record ShareGroupMember := mkMember { mb_ClientID : string; mb_TopicFilter : string }.

Definition mem_isSharedSubscription (topicFilter : string) : bool :=
  bool_decide (7 < String.length topicFilter)%nat && has_prefix topicFilter "$share/".

Definition mem_parseSharedSubscription (topicFilter : string) : option (string * string) :=
  if negb (mem_isSharedSubscription topicFilter) then None
  else
    let withoutPrefix := drop_string 7 topicFilter in
    if bool_decide (withoutPrefix = "") then None
    else
      match split_byte slash withoutPrefix with
      | shareGroup :: ((_ :: _) as rest) =>
          if bool_decide (shareGroup = "") then None
          else if contains_any shareGroup "+#" then None
          else
            let actualTopicFilter := join_byte slash rest in
            if bool_decide (actualTopicFilter = "") then None else Some (shareGroup, actualTopicFilter)
      | _ => None
      end.

Definition memberKey (clientID actualTopicFilter : string) : string := clientID +:+ "|" +:+ actualTopicFilter.

Definition addMember (shareGroup clientID : string) (memberMap : gmap string ShareGroupMember) (topicFilter : string)
    : gmap string ShareGroupMember :=
  if negb (mem_isSharedSubscription topicFilter) then memberMap
  else
    match mem_parseSharedSubscription topicFilter with
    | None => memberMap
    | Some (parsedShareGroup, actualTopicFilter) =>
        if negb (bool_decide (parsedShareGroup = shareGroup)) then memberMap
        else
          let key := memberKey clientID actualTopicFilter in
          match memberMap !! key with
          | Some _ => memberMap
          | None => <[key := mkMember clientID actualTopicFilter]> memberMap
          end
    end.

(** All pairs of a client and a filter of all shards; the order of Go's maps is that of
    [map_to_list] here. *)
Definition clientFilters (t : MemorySubCenter) : list (string * string) :=
  (map_to_list (mc_shards t)).*2 ≫= λ shard, map_to_list (sc_clients shard) ≫= λ x, (λ f, (x.1, f)) <$> (map_to_list x.2).*1.

Definition member_le (a b : ShareGroupMember) : Prop :=
  if bool_decide (mb_ClientID a = mb_ClientID b) then string_ltb (mb_TopicFilter b) (mb_TopicFilter a) = false
  else string_ltb (mb_ClientID a) (mb_ClientID b) = true.
#[export] Instance member_le_dec : RelDecision member_le.
Proof. intros a b. unfold member_le. destruct (bool_decide _); apply _. Defined.

Definition GetShareGroupMembers (t : MemorySubCenter) (shareGroup : string) : list ShareGroupMember :=
  if bool_decide (shareGroup = "") then []
  else
    let memberMap := foldl (λ m '(clientID, topicFilter), addMember shareGroup clientID m topicFilter) ∅ (clientFilters t) in
    merge_sort member_le (map_to_list memberMap).*2.

(** ** The delivery strategy ([domain/strategy.go]) *)

Record ResolvedClientOptions := mkResolved {
  rc_DeliveryQoS : Z;
  rc_SubscriptionIDsJSON : string;
  rc_NoLocal : bool;
  rc_RAP : bool }.

Record OnlineShareGroupMember := mkOnline {
  om_ShareGroup : string;
  om_ClientID : string;
  om_TopicFilter : string;
  om_OwnerNodeID : Z }.

(** The collaborators of the strategy: the subscription center, the session center (none for
    direct QoS 0 delivery) and the client manager. *)
Record Strategy := mkStrategy {
  sy_members : string → result string (list ShareGroupMember);
  sy_subs : string → result string (gmap string SubOption);
  sy_owners : option (list string → result string (list ReadSessionOwnerItem));
  sy_clients : option (string → bool) }.

Definition sy_resolveOnlineOwnerNodes (s : Strategy) (clientIDs : list string) : result string (gmap string Z) :=
  if bool_decide (length clientIDs = 0%nat) then Ok ∅
  else
    match sy_owners s with
    | None =>
        Ok (foldl (λ ownerNodes clientID,
          if bool_decide (clientID = "") then ownerNodes
          else if (match sy_clients s with Some readClient => negb (readClient clientID) | None => false end) then ownerNodes
          else <[clientID := 0]> ownerNodes) ∅ clientIDs)
    | Some getSessionOwners =>
        items ← getSessionOwners clientIDs;
        Ok (foldl (λ ownerNodes item,
          if negb (roi_Exist item) || bool_decide (roi_ClientID item = "") then ownerNodes
          else match roi_Owner item with
               | None => ownerNodes
               | Some owner => if negb (ow_Online owner) then ownerNodes else <[roi_ClientID item := ow_NodeID owner]> ownerNodes
               end) (∅ : gmap string Z) items)
    end.

Definition OnlineCandidates (s : Strategy) (shareGroup topicFilter : string) : result string (list OnlineShareGroupMember) :=
  if bool_decide (shareGroup = "") then Ok []
  else
    members ← sy_members s shareGroup;
    let matched := filter (λ m, mb_ClientID m ≠ "" ∧ (topicFilter = "" ∨ mb_TopicFilter m = topicFilter)) members in
    ownerNodes ← sy_resolveOnlineOwnerNodes s (mb_ClientID <$> matched);
    Ok (omap (λ m, (λ ownerNodeID, mkOnline shareGroup (mb_ClientID m) (mb_TopicFilter m) ownerNodeID) <$> ownerNodes !! mb_ClientID m) matched).

(** One subscription of the client, in [ResolveClientOptions]. *)
Definition resolveOne (shareGroup topicFilter publisherClient clientID : string) (acc : Z * bool * bool * list Z)
    (x : string * SubOption) : Z * bool * bool * list Z :=
  let '(bestQoS, bestNoLocal, bestRAP, subIDs) := acc in
  let '(filter, sub) := x in
  if negb (IsSharedSubscription filter) then acc
  else match ParseSharedSubscription filter with
       | Err _ => acc
       | Ok (g, f) =>
           if negb (bool_decide (g = shareGroup)) || negb (bool_decide (f = topicFilter)) then acc
           else if negb (bool_decide (publisherClient = "")) && bool_decide (publisherClient = clientID) && so_NoLocal sub then acc
           else
             let '(bestQoS, bestNoLocal, bestRAP) :=
               if bestQoS <? so_QoS sub then (so_QoS sub, so_NoLocal sub, so_RetainAsPublished sub) else (bestQoS, bestNoLocal, bestRAP) in
             (bestQoS, bestNoLocal, bestRAP, if 0 <? so_SubscriptionIdentifier sub then subIDs ++ [so_SubscriptionIdentifier sub] else subIDs)
       end.

Definition ResolveClientOptions (s : Strategy) (shareGroup topicFilter publisherClient : string) (publishQoS : Z) (clientID : string)
    : result string (option ResolvedClientOptions) :=
  if bool_decide (clientID = "") || bool_decide (shareGroup = "") || bool_decide (topicFilter = "") then Ok None
  else
    topics ← sy_subs s clientID;
    if bool_decide (topics = ∅) then Ok None
    else
      let '(bestQoS, bestNoLocal, bestRAP, subIDs) :=
        foldl (resolveOne shareGroup topicFilter publisherClient clientID) (-1, false, true, []) (map_to_list topics) in
      if bestQoS <? 0 then Ok None
      else
        let deliveryQoS := if (0 <=? publishQoS) && (publishQoS <? bestQoS) then publishQoS else bestQoS in
        Ok (Some (mkResolved deliveryQoS (jsonMarshal subIDs) bestNoLocal bestRAP)).

(** ** The consumer ([consumer.go]) *)

Definition defaultBatchSize : Z := 100.
Definition defaultProcessingTimeout : Z := 30 * nanosPerSecond.

Record SharedSubscriptionConsumer := mkConsumer {
  co_shareGroup : string;
  co_localNodeID : Z;
  co_hasEvent : bool;
  co_lastProcessedTS : Z;
  co_lastProcessedTaskID : string }.
Definition co_setCursor (ts : Z) (taskID : string) (c : SharedSubscriptionConsumer) : SharedSubscriptionConsumer :=
  mkConsumer (co_shareGroup c) (co_localNodeID c) (co_hasEvent c) ts taskID.

Definition isRemoteOwner (c : SharedSubscriptionConsumer) (ownerNodeID : Z) : bool :=
  negb (ownerNodeID =? 0) && negb (co_localNodeID c =? 0) && negb (ownerNodeID =? co_localNodeID c).

Definition orderSharedCandidates (candidates : list OnlineShareGroupMember) (taskOffset : Z) : list OnlineShareGroupMember :=
  match candidates with
  | [] => []
  | _ => let offset := Z.to_nat (taskOffset mod Z.of_nat (length candidates)) in drop offset candidates ++ take offset candidates
  end.

Fixpoint removeOnlineCandidate (candidates : list OnlineShareGroupMember) (clientID : string) : list OnlineShareGroupMember :=
  if bool_decide (clientID = "") then candidates
  else match candidates with
       | [] => []
       | c :: cs => if bool_decide (om_ClientID c = clientID) then cs else c :: removeOnlineCandidate cs clientID
       end.

Definition prioritizeOwnerCandidates (candidates : list OnlineShareGroupMember) (ownerNodeID : Z) : list OnlineShareGroupMember :=
  if bool_decide (length candidates = 0%nat) || (ownerNodeID =? 0) then candidates
  else filter (λ c, om_OwnerNodeID c = ownerNodeID) candidates ++ filter (λ c, om_OwnerNodeID c ≠ ownerNodeID) candidates.

(** What the outside decides about one task: how claiming and releasing it end and when, the
    appends to clients' queues, which clients can be woken here ([ReadClient] and the runner) and
    there ([NotifyToNode]), how storing the cursor ends, and whether the context is done. *)
Record TaskIO := mkTaskIO {
  ti_done : bool;
  ti_claim : UpdateIO;
  ti_claimNow : Z;
  ti_append : string → AppendIO;
  ti_appendNow : string → Z;
  ti_local : string → bool;
  ti_notify : string → bool;
  ti_release : UpdateIO;
  ti_releaseNow : Z;
  ti_cursor : UpdateIO }.

Definition wakeClient (c : SharedSubscriptionConsumer) (io : TaskIO) (m : OnlineShareGroupMember) : result string unit :=
  if bool_decide (om_ClientID m = "") then Err "selected shared member is empty"
  else if negb (isRemoteOwner c (om_OwnerNodeID m))
  then (if ti_local io (om_ClientID m) then Ok tt else Err "shared local client is not online")
  else if negb (co_hasEvent c) then Err "shared remote wake event is nil"
  else if ti_notify io (om_ClientID m) then Ok tt else Err "notify".

Definition resolveSharedPlanOptions (s : Strategy) (task : ShareGroupTask) (clientID : string) : option ResolvedClientOptions :=
  match ResolveClientOptions s (sg_ShareGroup task) (sg_TopicFilter task) (sg_PublisherClient task) (sg_PublishQoS task) clientID with
  | Err _ => None
  | Ok resolved => resolved
  end.

Fixpoint firstResolved (s : Strategy) (task : ShareGroupTask) (remaining : list OnlineShareGroupMember)
    : option (OnlineShareGroupMember * ResolvedClientOptions) :=
  match remaining with
  | [] => None
  | selected :: remaining =>
      if bool_decide (om_ClientID selected = "") then firstResolved s task remaining
      else match resolveSharedPlanOptions s task (om_ClientID selected) with
           | Some resolved => Some (selected, resolved)
           | None => firstResolved s task remaining
           end
  end.

Definition selectClientForTask (s : Strategy) (task : ShareGroupTask) (candidates : list OnlineShareGroupMember) (taskOffset : Z)
    : option (OnlineShareGroupMember * ResolvedClientOptions) :=
  firstResolved s task (orderSharedCandidates candidates taskOffset).

Section consumer.
Context {DB : Type} `{!KV DB, !UUIDs, !Codecs, !JsonInts}.

(** The loop of [assignTaskToWakeableClient]; [None] is fuel that ran out, [failed] whether an
    earlier client could not be woken. *)
Fixpoint assignLoop (fuel : nat) (c : SharedSubscriptionConsumer) (s : Strategy) (io : TaskIO) (task : ShareGroupTask)
    (remaining : list OnlineShareGroupMember) (failed : bool) (db : DB) : option (DB * result string unit) :=
  match fuel with
  | O => None
  | S fuel =>
      let finished := if failed then Err "failed to wake any shared subscription client" else Err "no eligible client selected" in
      if bool_decide (length remaining = 0%nat) then Some (db, finished)
      else match selectClientForTask s task remaining 0 with
           | None => Some (db, finished)
           | Some (selected, resolved) =>
               let id := om_ClientID selected in
               let plan := mkPlan id (rc_DeliveryQoS resolved) (rc_SubscriptionIDsJSON resolved) (rc_NoLocal resolved) (rc_RAP resolved) in
               match AppendClientTask (ti_append io id) (ti_appendNow io id) id (sg_MessageID task) plan (co_shareGroup c) (sg_TaskID task) db with
               | (db, Err e) => Some (db, Err "failed to append client task")
               | (db, Ok _) =>
                   match wakeClient c io selected with
                   | Ok _ => Some (db, Ok tt)
                   | Err _ =>
                       assignLoop fuel c s io task
                         (prioritizeOwnerCandidates (removeOnlineCandidate remaining id) (om_OwnerNodeID selected)) true db
                   end
               end
           end
  end.

Definition assignTaskToWakeableClient (c : SharedSubscriptionConsumer) (s : Strategy) (io : TaskIO) (task : ShareGroupTask)
    (candidates : list OnlineShareGroupMember) (taskOffset : Z) (db : DB) : option (DB * result string unit) :=
  assignLoop (S (length candidates)) c s io task (orderSharedCandidates candidates taskOffset) false db.

(** Back to pending, whose outcome is ignored. *)
Definition releaseTask (c : SharedSubscriptionConsumer) (io : TaskIO) (task : ShareGroupTask) (db : DB) : DB :=
  (AtomicUpdateTaskStatus (ti_release io) (sg_TaskID task) (co_shareGroup c) TaskStatusProcessing TaskStatusPending (ti_releaseNow io) db).1.

Definition processTaskAt (c : SharedSubscriptionConsumer) (s : Strategy) (io : TaskIO) (task : ShareGroupTask) (taskOffset : Z) (db : DB)
    : option (DB * result string unit) :=
  match AtomicUpdateTaskStatus (ti_claim io) (sg_TaskID task) (co_shareGroup c) TaskStatusPending TaskStatusProcessing (ti_claimNow io) db with
  | (db, (_, Err _)) => Some (db, Err "failed to update task status")
  | (db, (false, Ok _)) => Some (db, Ok tt)
  | (db, (true, Ok _)) =>
      match OnlineCandidates s (co_shareGroup c) (sg_TopicFilter task) with
      | Err _ => Some (releaseTask c io task db, Err "failed to get online clients")
      | Ok [] => Some (releaseTask c io task db, Err "no online clients available")
      | Ok onlineClients =>
          '(db, r) ← assignTaskToWakeableClient c s io task onlineClients taskOffset db;
          match r with
          | Err e => Some (releaseTask c io task db, Err e)
          | Ok _ => Some (db, Ok tt)
          end
      end
  end.

(** After a task that succeeded, the cursor moves, here and in the store. *)
Definition advanceCursor (io : TaskIO) (task : ShareGroupTask) (c : SharedSubscriptionConsumer) (db : DB) : SharedSubscriptionConsumer * DB :=
  let c := co_setCursor (sg_Timestamp task) (sg_TaskID task) c in
  (c, (AppendShareGroupCursor (ti_cursor io) (co_shareGroup c)
         (mkShareGroupCursor (co_shareGroup c) (sg_Timestamp task) (sg_TaskID task) 0 zeroTime) db).1).

(** One round of the loop of [processTasks]. *)
Definition processNext (s : Strategy) (io : TaskIO) (i : Z) (task : ShareGroupTask) (c : SharedSubscriptionConsumer) (db : DB)
    : option (SharedSubscriptionConsumer * DB) :=
  '(db, r) ← processTaskAt c s io task i db;
  match r with
  | Err _ => Some (c, db)
  | Ok _ => Some (advanceCursor io task c db)
  end.

Fixpoint processLoop (s : Strategy) (ios : Z → TaskIO) (i : Z) (tasks : list ShareGroupTask) (c : SharedSubscriptionConsumer) (db : DB)
    : option (SharedSubscriptionConsumer * DB) :=
  match tasks with
  | [] => Some (c, db)
  | task :: tasks =>
      if ti_done (ios i) then Some (c, db)
      else '(c, db) ← processNext s (ios i) i task c db; processLoop s ios (i + 1) tasks c db
  end.

Definition processTasks (s : Strategy) (ios : Z → TaskIO) (c : SharedSubscriptionConsumer) (db : DB) : option (SharedSubscriptionConsumer * DB) :=
  match readShareGroupTasks db (co_shareGroup c) (co_lastProcessedTS c) (co_lastProcessedTaskID c) defaultBatchSize with
  | Err _ => Some (c, db)
  | Ok tasks => processLoop s ios 0 tasks c db
  end.

Definition loadCursor (c : SharedSubscriptionConsumer) (db : DB) : SharedSubscriptionConsumer :=
  match readShareGroupCursor db (co_shareGroup c) with
  | Err _ | Ok None => c
  | Ok (Some cursor) => co_setCursor (sgc_LastProcessedTS cursor) (sgc_LastProcessedTaskID cursor) c
  end.

(** ** Rollback ([domain/rollback_service.go], [shared_store.go]) *)

Definition CanTransitionTaskStatus (from to : string) : bool :=
  if bool_decide (from = TaskStatusPending) then bool_decide (to = TaskStatusProcessing)
  else if bool_decide (from = TaskStatusProcessing)
  then bool_decide (to = TaskStatusPending) || bool_decide (to = TaskStatusCompleted) || bool_decide (to = TaskStatusRolledBack)
  else false.

Fixpoint requeueEach (io : string → UpdateIO * Z) (shareGroup : string) (tasks : list ShareGroupTask) (db : DB) : DB :=
  match tasks with
  | [] => db
  | task :: tasks =>
      if negb (CanTransitionTaskStatus TaskStatusProcessing TaskStatusPending) then requeueEach io shareGroup tasks db
      else
        let '(update, now) := io (sg_TaskID task) in
        requeueEach io shareGroup tasks
          (AtomicUpdateTaskStatus update (sg_TaskID task) shareGroup TaskStatusProcessing TaskStatusPending now db).1
  end.

Definition RequeueTimeoutTasks (io : string → UpdateIO * Z) (shareGroup : string) (cutoffTime : Z) (db : DB) : DB :=
  if bool_decide (shareGroup = "") then db
  else match queryProcessingShareTasksBefore db shareGroup cutoffTime with
       | Err _ => db
       | Ok tasks => requeueEach io shareGroup tasks db
       end.

Definition processTimeoutTasks (io : string → UpdateIO * Z) (now : Z) (c : SharedSubscriptionConsumer) (db : DB) : DB :=
  RequeueTimeoutTasks io (co_shareGroup c) (wrap_i64 (now - defaultProcessingTimeout)) db.

Definition subscriptionIDsJSON (ids : list Z) : string := if bool_decide (length ids = 0%nat) then "" else jsonMarshal ids.

Definition shareGroupTaskFromDeliveryTask (task : DeliveryTask) : ShareGroupTask :=
  let taskID := if bool_decide (dt_SharedTaskID task = uuid_Nil) then dt_TaskID task else dt_SharedTaskID task in
  mkShareGroupTask taskID (dt_ShareGroup task) "" (dt_MessageID task) (dt_DeliveryQoS task) 0 ""
    (subscriptionIDsJSON (dt_SubscriptionIDs task)) (dt_NoLocal task) (dt_RetainAsPublished task) "" 0 zeroTime "" (dt_TS task).

(** [readUnackedSharedSubscriptionTasks]: pages of 200; [None] is fuel that ran out. *)
Fixpoint unackedPaged (fuel : nat) (db : DB) (clientID shareGroup : string) (lastTS : Z) (lastTaskID : string)
    : option (result string (list ShareGroupTask)) :=
  match fuel with
  | O => None
  | S fuel =>
      match ReadDeliveryTasks db clientID lastTS lastTaskID sharedDeliveryReadBatchSize with
      | Err e => Some (Err e)
      | Ok tasks =>
          let out := shareGroupTaskFromDeliveryTask <$> filter (λ t, dt_ShareGroup t = shareGroup ∧ dt_SharedTaskID t ≠ uuid_Nil) tasks in
          match last tasks with
          | None => Some (Ok [])
          | Some t =>
              if Z.of_nat (length tasks) <? sharedDeliveryReadBatchSize then Some (Ok out)
              else
                rest ← unackedPaged fuel db clientID shareGroup (dt_TS t) (dt_TaskID t);
                Some (match rest with Err e => Err e | Ok rest => Ok (out ++ rest) end)
          end
      end
  end.

(** What the outside decides about rolling back one task: the context, the update to rolled
    back, what others do to the store while the service waits 100 ms, and the update back to
    pending. *)
Record RollbackIO := mkRollbackIO {
  ri_done : bool;
  ri_waitDone : bool;
  ri_pause : DB → DB;
  ri_mark : UpdateIO;
  ri_markNow : Z;
  ri_rollback : UpdateIO;
  ri_rollbackNow : Z }.

Definition prepareTaskRollback (io : RollbackIO) (shareGroup : string) (task : ShareGroupTask) (db : DB) : DB * bool :=
  match queryShareTaskByMessageID db shareGroup (sg_MessageID task) [TaskStatusPending; TaskStatusProcessing] with
  | Err _ => (db, false)
  | Ok None => (db, true)
  | Ok (Some processingTask) =>
      if negb (bool_decide (sg_Status processingTask = TaskStatusProcessing)) then (db, true)
      else if ri_waitDone io then (db, false)
      else
        let db := ri_pause io db in
        let completed := match queryShareTaskByMessageID db shareGroup (sg_MessageID task) [TaskStatusCompleted] with
                         | Ok (Some t) => bool_decide (sg_Status t = TaskStatusCompleted)
                         | _ => false
                         end in
        if completed then (db, false)
        else if negb (CanTransitionTaskStatus TaskStatusProcessing TaskStatusRolledBack) then (db, false)
        else
          match AtomicUpdateTaskStatus (ri_mark io) (sg_TaskID processingTask) shareGroup TaskStatusProcessing TaskStatusRolledBack (ri_markNow io) db with
          | (db, (updated, Ok _)) => (db, updated)
          | (db, (_, Err _)) => (db, false)
          end
  end.

Definition rollbackOne (io : RollbackIO) (shareGroup : string) (task : ShareGroupTask) (db : DB) : DB * bool :=
  match prepareTaskRollback io shareGroup task db with
  | (db, false) => (db, false)
  | (db, true) =>
      match RollbackSharedSubscriptionTask (ri_rollback io) (ri_rollbackNow io) task db with
      | (db, Err _) => (db, false)
      | (db, Ok _) => (db, true)
      end
  end.

(** The loop over the tasks; [None] when the context ended. *)
Fixpoint rollbackEach (ios : string → RollbackIO) (shareGroup : string) (tasks : list ShareGroupTask) (rolledBackAny : bool) (db : DB)
    : DB * option bool :=
  match tasks with
  | [] => (db, Some rolledBackAny)
  | task :: tasks =>
      let io := ios (sg_TaskID task) in
      if ri_done io then (db, None)
      else let '(db, ok) := rollbackOne io shareGroup task db in rollbackEach ios shareGroup tasks (ok || rolledBackAny) db
  end.

(** [RollbackClientTasks]; the answer is whether the group's consumer is woken. *)
Definition RollbackClientTasks (fuel : nat) (ios : string → RollbackIO) (drop : UpdateIO) (clientID shareGroup : string) (db : DB)
    : option (DB * bool) :=
  if bool_decide (clientID = "") || bool_decide (shareGroup = "") then Some (db, false)
  else match ReadDeliveryCursor db clientID with
       | Err _ => Some (db, false)
       | Ok cursor =>
           let '(lastTS, lastTaskID) := match cursor with
                                        | None => (zeroTime, uuid_Nil)
                                        | Some c => (dc_LastTS (sc_Cursor c), dc_LastTaskID (sc_Cursor c)) end in
           tasks ← unackedPaged fuel db clientID shareGroup lastTS lastTaskID;
           match tasks with
           | Err _ => Some (db, false)
           | Ok tasks =>
               let '(db, rolledBackAny) := rollbackEach ios shareGroup tasks false db in
               match rolledBackAny with
               | Some true => Some ((DeleteClientSharedDeliveryTasks drop clientID shareGroup db).1, true)
               | _ => Some (db, false)
               end
           end
       end.
End consumer.
