(* ===== verification/SharedSubProofs.v ===== *)
(** * Shared subscriptions: no task is lost

    [ginv] is the invariant of a group's queue together with its consumer: every pending task is
    behind the consumer's cursor and is not overtaken by the tasks the consumer holds.  It is kept
    by every step of the publishers, the consumer, the members' acknowledgements, the timeout scan
    and the rollback, in any interleaving ([group_reach]); a claim that fails with a store error
    is what breaks it ([failed_claim_skips_task]). *)

From stdpp Require Import sorting.
From S2P Require Import Prelude GoStrings Mqtt5 Topic SubCore SubCoreProofs SubCenter SubCenterProofs SessionCore WalEngine Inflight Downlink Router DeliveryStore DeliveryStoreProofs DeliveryQueue ShareQueue TaskStore TaskStoreProofs SharedSub.

(** ** Groups whose task identifiers are unique *)

Definition ids_unique (q : Group) : Prop := ∀ p p' tv tv',
  g_tasks q !! p = Some tv → g_tasks q !! p' = Some tv' → p.2 = p'.2 → p = p'.

Lemma g_find_iff q id x : ids_unique q → g_find q id = Some x ↔ g_tasks q !! x.1 = Some x.2 ∧ x.1.2 = id.
Proof.
  intros Hu. split; [apply g_find_Some|]. intros [Hx <-]. unfold g_find.
  assert (x ∈ filter (λ y, y.1.2 = x.1.2) (g_list q)) as Hin.
  { apply list_elem_of_filter. split; [done|]. destruct x as [p tv]. by apply pos_list_elem. }
  destruct (filter _ _) as [|y l] eqn:E; [by apply elem_of_nil in Hin|]. cbn. f_equal.
  assert (y ∈ filter (λ y, y.1.2 = x.1.2) (g_list q)) as Hy by (rewrite E; left).
  apply list_elem_of_filter in Hy as [Ey Hy]. destruct x as [p tv], y as [p' tv']. apply pos_list_elem in Hy. cbn in *.
  assert (p' = p) as -> by (by eapply Hu). congruence.
Qed.

Lemma restatus_id new now x : (restatus new now x).1.2 = x.1.2.
Proof. unfold restatus. destruct (bool_decide _); [done|]. by destruct (_ || _ || _). Qed.
Lemma restatus_status new now x : stv_Status (restatus new now x).2 = new.
Proof. unfold restatus. destruct (bool_decide _); [|destruct (_ || _ || _)]; apply with_status_status. Qed.
Lemma restatus_message new now x : stv_MessageID (restatus new now x).2 = stv_MessageID x.2.
Proof. unfold restatus. destruct (bool_decide _); [|destruct (_ || _ || _)]; apply with_status_message. Qed.
Lemma restatus_pos new now x : (restatus new now x).1 = if decide (new = TaskStatusPending) then (now, x.1.2) else x.1.
Proof.
  unfold restatus. destruct (decide (new = TaskStatusPending)) as [E|E]; [by rewrite bool_decide_true|].
  rewrite bool_decide_false by done. by destruct (_ || _ || _).
Qed.

Lemma move_lookup q x y p tv : g_tasks (g_move x y q) !! p = Some tv ↔
  p = y.1 ∧ tv = y.2 ∨ p ≠ y.1 ∧ p ≠ x.1 ∧ g_tasks q !! p = Some tv.
Proof.
  cbn. rewrite lookup_insert_Some, lookup_delete_Some. split.
  - intros [[<- <-]|[? [? ?]]]; [by left|right; split_and!; congruence].
  - intros [[-> ->]|(? & ? & ?)]; [by left|right; split_and!; congruence].
Qed.

Lemma move_unique q x y : ids_unique q → g_tasks q !! x.1 = Some x.2 → y.1.2 = x.1.2 → ids_unique (g_move x y q).
Proof.
  intros Hu Hx Hy p p' tv tv' H H'. apply move_lookup in H as [[-> ->]|(H1 & H2 & H3)], H' as [[-> ->]|(H1' & H2' & H3')]; intros E.
  - done.
  - exfalso. apply H2'. eapply Hu; [exact H3'|exact Hx|congruence].
  - exfalso. apply H2. eapply Hu; [exact H3|exact Hx|congruence].
  - by eapply Hu.
Qed.

Lemma move_find q x y id : ids_unique q → g_tasks q !! x.1 = Some x.2 → y.1.2 = x.1.2 →
  g_find (g_move x y q) id = if decide (id = x.1.2) then Some y else g_find q id.
Proof.
  intros Hu Hx Hy. pose proof (move_unique q x y Hu Hx Hy) as Hu'. destruct (decide (id = x.1.2)) as [->|Hne].
  - apply g_find_iff; [done|]. split; [|done]. apply move_lookup. by left.
  - apply option_eq. intros z. rewrite !g_find_iff by done. rewrite move_lookup. split.
    + intros [[[E1 E2]|(H1 & H2 & H3)] <-]; [exfalso; apply Hne; congruence|done].
    + intros [H <-]. split; [|done]. right. split_and!; [congruence|congruence|done].
Qed.

(** ** The invariant *)

Definition cursor_pos (c : SharedSubscriptionConsumer) : Z * string := (co_lastProcessedTS c, co_lastProcessedTaskID c).
Definition stored_pos (cv : shareCursorValue) : Z * string := (scv_LastProcessedTSNano cv, scv_LastProcessedTaskID cv).
Definition task_pos (t : ShareGroupTask) : Z * string := (sg_Timestamp t, sg_TaskID t).

Section invariant.
Context `{Huu : !UUIDs, HUU : !UUIDLaws}.

Definition cursor_ok (clock : Z) (p : Z * string) : Prop :=
  p = (zeroTime, uuid_Nil) ∨ pos_ok p ∧ p.1 ≤ clock ∧ p.2 ≠ uuid_Nil.

Lemma cursor_ok_later clock now p : cursor_ok clock p → clock ≤ now → cursor_ok now p.
Proof. intros [->|(H1 & H2 & H3)] ?; [by left|right; split_and!; [done|lia|done]]. Qed.

Lemma cursor_ok_start clock p : cursor_ok clock p → start_ok p.
Proof. intros [->|(H1 & _)]; [left; split; [done|cbn; unfold zeroTime; lia]|by right]. Qed.

Lemma after_now clock now cur id : cursor_ok clock cur → clock < now → after cur (now, id) = true.
Proof.
  intros [->|(_ & H & _)] Hlt; [done|]. unfold after, pos_lt. apply orb_true_iff. right. cbn. apply orb_true_iff. left. lia.
Qed.

Lemma after_cursor clock cur p : cursor_ok clock cur → cur ≠ (zeroTime, uuid_Nil) → after cur p = pos_lt cur p.
Proof. intros [->|(_ & _ & H)] Hn; [done|]. unfold after. by rewrite bool_decide_false. Qed.

Record ginv (clock : Z) (q : Group) (cur : Z * string) (batch : list (Z * string)) (app : list (string * string)) : Prop := {
  gi_unique : ids_unique q;
  gi_clock p tv : g_tasks q !! p = Some tv → p.1 ≤ clock;
  gi_pending p tv : g_tasks q !! p = Some tv → stv_Status tv = TaskStatusPending →
    after cur p = true ∧ (p ∈ batch ∨ Forall (λ b, pos_lt b p = true) batch);
  gi_sorted : StronglySorted (λ b b', pos_lt b b' = true) batch;
  gi_batch : Forall (λ b, after cur b = true ∧ pos_ok b ∧ b.1 ≤ clock ∧ b.2 ≠ uuid_Nil) batch;
  gi_cursor : cursor_ok clock cur;
  gi_stored cv : g_cursor q = Some cv → cursor_ok clock (stored_pos cv) ∧ canonical (scv_LastProcessedTaskID cv) ∧
    ∀ p, after cur p = true → after (stored_pos cv) p = true;
  gi_appended id m : (id, m) ∈ app → ∃ x, g_find q id = Some x ∧ stv_MessageID x.2 = m;
  gi_ids p tv : g_tasks q !! p = Some tv → p.2 ∈ app.*1 }.

Lemma ginv_later clock now q cur batch app : ginv clock q cur batch app → clock ≤ now → ginv now q cur batch app.
Proof.
  intros [H1 H2 H3 H4 H5 H6 H7 H8 H9] Hle. split; try done.
  - intros p tv Hp. specialize (H2 _ _ Hp). lia.
  - eapply Forall_impl; [exact H5|]. cbn. intros b (? & ? & ? & ?). split_and!; [done|done|lia|done].
  - by eapply cursor_ok_later.
  - intros cv Hcv. destruct (H7 _ Hcv) as (? & ? & ?). split_and!; [by eapply cursor_ok_later|done|done].
Qed.

Lemma late_behind_batch clock now cur batch id :
  Forall (λ b, after cur b = true ∧ pos_ok b ∧ b.1 ≤ clock ∧ b.2 ≠ uuid_Nil) batch → clock < now →
  Forall (λ b, pos_lt b (now, id) = true) batch.
Proof.
  intros H Hlt. eapply Forall_impl; [exact H|]. cbn. intros b (_ & _ & Hb & _). unfold pos_lt. apply orb_true_iff. left. cbn. lia.
Qed.

(** A status update of any kind. *)
Lemma ginv_move clock now q cur batch app id new x : ginv clock q cur batch app → clock < now → g_find q id = Some x →
  ginv now (g_move x (restatus new now x) q) cur batch app.
Proof.
  intros Hg Hlt Hf. pose proof Hg as [H1 H2 H3 H4 H5 H6 H7 H8 H9]. apply g_find_Some in Hf as [Hx <-].
  destruct (ginv_later _ now _ _ _ _ Hg ltac:(lia)) as [_ _ _ _ H5' H6' H7' _ _].
  assert (∀ p tv, g_tasks (g_move x (restatus new now x) q) !! p = Some tv → p.2 ∈ app.*1) as Hids.
  { intros p tv. rewrite move_lookup. intros [[-> _]|(_ & _ & Hp)]; [rewrite restatus_id|]; by eapply H9. }
  split; try done.
  - by apply move_unique; [| |apply restatus_id].
  - intros p tv. rewrite move_lookup. intros [[-> _]|(_ & _ & Hp)]; [|specialize (H2 _ _ Hp); lia].
    rewrite restatus_pos. destruct (decide _); [cbn; lia|]. specialize (H2 _ _ Hx). lia.
  - intros p tv. rewrite move_lookup. intros [[-> ->]|(_ & _ & Hp)] Hs; [|by eapply H3].
    rewrite restatus_status in Hs. rewrite restatus_pos, decide_True by done. split; [by apply (after_now clock)|]. right. by apply (late_behind_batch clock _ cur).
  - intros i m Hin. destruct (H8 _ _ Hin) as (z & Hz & Hm). rewrite move_find by (done || apply restatus_id).
    destruct (decide (i = x.1.2)) as [->|]; [|by exists z]. exists (restatus new now x). split; [done|]. rewrite restatus_message.
    apply g_find_iff in Hz as [Hz Ez]; [|done]. assert (z.1 = x.1) as Ezx by (by eapply H1). rewrite Ezx, Hx in Hz. congruence.
Qed.

(** A new task. *)
Lemma ginv_put clock now q cur batch app id tv : ginv clock q cur batch app → clock < now → id ∉ app.*1 →
  ginv now (g_put ((now, id), tv) q) cur batch ((id, stv_MessageID tv) :: app).
Proof.
  intros Hg Hlt Hfresh. pose proof Hg as [H1 H2 H3 H4 H5 H6 H7 H8 H9].
  destruct (ginv_later _ now _ _ _ _ Hg ltac:(lia)) as [_ _ _ _ H5' H6' H7' _ _].
  assert (∀ p tv', g_tasks (g_put ((now, id), tv) q) !! p = Some tv' → p = (now, id) ∧ tv' = tv ∨ g_tasks q !! p = Some tv') as Hput.
  { intros p tv'. cbn. rewrite lookup_insert_Some. intros [[<- <-]|[_ ?]]; [by left|by right]. }
  assert (ids_unique (g_put ((now, id), tv) q)) as Hu.
  { intros p p' t t' Hp Hp' E. apply Hput in Hp as [[-> ->]|Hp], Hp' as [[-> ->]|Hp']; [done| | |by eapply H1];
      exfalso; apply Hfresh; cbn in E; [rewrite E|rewrite <-E]; by eapply H9. }
  split; try done.
  - intros p t Hp. apply Hput in Hp as [[-> ->]|Hp]; [cbn; lia|]. specialize (H2 _ _ Hp). lia.
  - intros p t Hp Hs. apply Hput in Hp as [[-> ->]|Hp]; [|by eapply H3]. split; [by apply (after_now clock)|]. right. by apply (late_behind_batch clock _ cur).
  - intros i m [[= -> ->]|Hin]%elem_of_cons.
    + exists ((now, id), tv). split; [|done]. apply g_find_iff; [done|]. split; [|done]. cbn. by rewrite lookup_insert_eq.
    + destruct (H8 _ _ Hin) as (z & Hz & Hm). exists z. split; [|done]. apply g_find_iff; [done|]. apply g_find_iff in Hz as [Hz Ez]; [|done].
      split; [|done]. cbn. rewrite lookup_insert_ne; [done|]. intros E. specialize (H2 _ _ Hz). rewrite <-E in H2. cbn in H2. lia.
  - intros p t Hp. apply Hput in Hp as [[-> ->]|Hp]; [left|right; by eapply H9].
Qed.

(** The consumer is done with the first task of its batch, which is not pending any more. *)
Lemma ginv_next clock q cur b batch app : ginv clock q cur (b :: batch) app →
  (∀ tv, g_tasks q !! b = Some tv → stv_Status tv ≠ TaskStatusPending) → ginv clock q cur batch app.
Proof.
  intros [H1 H2 H3 H4 H5 H6 H7 H8 H9] Hb. apply StronglySorted_inv in H4 as [H4 _]. apply Forall_cons in H5 as [_ H5]. split; try done.
  intros p tv Hp Hs. destruct (H3 _ _ Hp Hs) as [Ha [[->|Hin]%elem_of_cons|[_ Hall]%Forall_cons]]; [by destruct (Hb _ Hp)|by split; [|left]|by split; [|right]].
Qed.

Lemma ginv_advance clock q cur b batch app : ginv clock q cur (b :: batch) app →
  (∀ tv, g_tasks q !! b = Some tv → stv_Status tv ≠ TaskStatusPending) → ginv clock q b batch app.
Proof.
  intros Hg Hb. pose proof (ginv_next _ _ _ _ _ _ Hg Hb) as [K1 K2 K3 K4 K5 K6 K7 K8 K9]. destruct Hg as [H1 H2 H3 H4 H5 H6 H7 H8 H9].
  apply StronglySorted_inv in H4 as [H4 Hlt]. apply Forall_cons in H5 as [(Hcb & Hpos & Hclock & Hnil) H5].
  assert (cursor_ok clock b) as Hcur by (right; by split_and!).
  assert (∀ p, after b p = pos_lt b p) as Hafter.
  { intros p. apply (after_cursor clock); [done|]. intros ->. cbn in Hnil. done. }
  assert (∀ p, after b p = true → after cur p = true) as Hmono by (intros p; rewrite Hafter; by apply after_trans).
  split; try done.
  - intros p tv Hp Hs. destruct (H3 _ _ Hp Hs) as [_ [[->|Hin]%elem_of_cons|[Hbp Hall]%Forall_cons]]; [by destruct (Hb _ Hp)| |].
    + rewrite Hafter. split; [|by left]. rewrite Forall_forall in Hlt. by apply Hlt.
    + rewrite Hafter. split; [done|by right].
  - rewrite Forall_forall in H5, Hlt |- *. intros x Hx. rewrite Hafter. destruct (H5 x Hx) as (_ & ? & ? & ?). split_and!; try done. by apply Hlt.
  - intros cv Hcv. destruct (H7 _ Hcv) as (? & ? & Hle). split_and!; [done|done|]. intros p Hp. by apply Hle, Hmono.
Qed.

Lemma ginv_stop clock q cur batch app : ginv clock q cur batch app → ginv clock q cur [] app.
Proof.
  intros [H1 H2 H3 H4 H5 H6 H7 H8 H9]. split; [done|done| |constructor|constructor|done..].
  intros p tv Hp Hs. destruct (H3 _ _ Hp Hs) as [? _]. split; [done|right; constructor].
Qed.
End invariant.

(** ** The store under the consumer *)

Section consumer_proofs.
Context {DB : Type} `{Hkv : !KV DB, HKV : !KVLaws DB, Huu : !UUIDs, HUU : !UUIDLaws, HC : !Codecs, HJ : !JsonInts}.

(** A status update of one group. *)
Definition status_step (o : TxnOutcome) (id old new : string) (now : Z) (q : Group) : Group :=
  match g_find q id with
  | Some x => if bool_decide (stv_Status x.2 = old) then commit o (g_move x (restatus new now x) q) q else q
  | None => q
  end.
Definition status_applies (id old : string) (q : Group) : bool :=
  match g_find q id with Some x => bool_decide (stv_Status x.2 = old) | None => false end.

Lemma commit_group o (a : Groups) g q g' : group (commit o (<[g := q]> a) a) g' = if decide (g = g') then commit o q (group a g) else group a g'.
Proof. destruct o; cbn [commit]; [apply group_insert|..]; by destruct (decide (g = g')) as [->|]. Qed.

Lemma status_group db a io id g old new now : SRep db a → client_ok g → canonical id → ts_ok now → 0 < now →
  ∃ db' a', AtomicUpdateTaskStatus io id g old new now db = (db', (status_applies id old (group a g), outcome_result (uo_outcome io))) ∧
    SRep db' a' ∧ group a' g = status_step (uo_outcome io) id old new now (group a g) ∧ (∀ g', g' ≠ g → group a' g' = group a g').
Proof.
  intros HR Hg Hid Hts Hnow. pose proof (share_status_refines db a io id g old new now HR (conj Hg (conj Hid (conj Hts Hnow)))) as Hs.
  cbn [share_step g_step] in Hs. destruct (AtomicUpdateTaskStatus _ _ _ _ _ _ db) as [db' r]. unfold status_step, status_applies.
  destruct (g_find (group a g) id) as [x|]; [destruct (bool_decide _)|]; destruct Hs as [HR' ->]; eexists _, _; (split; [done|split; [exact HR'|]]);
    [|by split|by split]. rewrite commit_group, decide_True by done. split; [done|]. intros g' Hne. by rewrite commit_group, decide_False.
Qed.

Lemma append_client_SRep io ts id m plan g sid db a : SRep db a → SRep (AppendClientTask io ts id m plan g sid db).1 a.
Proof.
  intros HR. unfold AppendClientTask. destruct (ap_newID io) as [u|]; [|done]. set (t := mkTask _ _ _ _ _ _ _ _ _ _ _).
  pose proof (append_frame (ap_update io) t db) as Hf. destruct (AppendDeliveryTask _ t db) as [db' [ins [[]|]]]; by eapply SRep_frame.
Qed.

Lemma assign_SRep fuel c s io task remaining failed db db' r a : SRep db a →
  assignLoop fuel c s io task remaining failed db = Some (db', r) → SRep db' a.
Proof.
  revert remaining failed db. induction fuel as [|fuel IH]; intros remaining failed db HR; [done|]. cbn [assignLoop].
  destruct (bool_decide _); [by intros [= <- _]|]. destruct (selectClientForTask _ _ _ _) as [[m res]|]; [|by intros [= <- _]].
  match goal with |- context [AppendClientTask ?a1 ?a2 ?a3 ?a4 ?a5 ?a6 ?a7 db] =>
    pose proof (append_client_SRep a1 a2 a3 a4 a5 a6 a7 db a HR) as HR1; destruct (AppendClientTask a1 a2 a3 a4 a5 a6 a7 db) as [db1 [x|e]] end;
    cbn [fst] in HR1; [|by intros [= <- _]]. destruct (wakeClient c io m); [by intros [= <- _]|]. by apply IH.
Qed.

(** ** The loop over the candidates ends *)

Lemma firstResolved_elem s task l m r : firstResolved s task l = Some (m, r) → m ∈ l ∧ om_ClientID m ≠ "" ∧ resolveSharedPlanOptions s task (om_ClientID m) = Some r.
Proof.
  induction l as [|x l IH]; [done|]. cbn. case_bool_decide as E; [intros H; destruct (IH H) as (? & ? & ?); split_and!; [by right|done|done]|].
  destruct (resolveSharedPlanOptions s task (om_ClientID x)) as [res|] eqn:Er; [intros [= <- <-]; by split_and!; [left| |]|].
  intros H; destruct (IH H) as (? & ? & ?); split_and!; [by right|done|done].
Qed.

Lemma order_perm l k : orderSharedCandidates l k ≡ₚ l.
Proof. destruct l as [|x l]; [done|]. unfold orderSharedCandidates. rewrite Permutation_app_comm. by rewrite take_drop. Qed.

Lemma order_zero l : orderSharedCandidates l 0 = l.
Proof. destruct l as [|x l]; [done|]. unfold orderSharedCandidates. rewrite Z.mod_0_l by (cbn; lia). cbn. by rewrite app_nil_r. Qed.

Lemma remove_length l id m : id ≠ "" → m ∈ l → om_ClientID m = id → S (length (removeOnlineCandidate l id)) = length l.
Proof.
  intros Hid Hin Hm. induction l as [|y l IH]; [by apply elem_of_nil in Hin|]. cbn. rewrite (bool_decide_false (id = "")) by done.
  case_bool_decide as E; [done|]. cbn. rewrite IH; [done|]. apply elem_of_cons in Hin as [->|?]; done.
Qed.

Lemma remove_subseteq l id m : m ∈ removeOnlineCandidate l id → m ∈ l.
Proof.
  induction l as [|y l IH]; cbn; [by destruct (bool_decide _)|]. destruct (bool_decide (id = "")); [done|].
  destruct (bool_decide _); [by right|]. intros [->|Hy]%elem_of_cons; [left|right; by apply IH].
Qed.

Lemma prioritize_perm l n : prioritizeOwnerCandidates l n ≡ₚ l.
Proof. unfold prioritizeOwnerCandidates. destruct (_ || _); [done|]. apply filter_app_complement. Qed.

Lemma assign_total fuel c s io task remaining failed db : (length remaining < fuel)%nat →
  is_Some (assignLoop fuel c s io task remaining failed db).
Proof.
  revert remaining failed db. induction fuel as [|fuel IH]; intros remaining failed db Hl; [lia|]. cbn [assignLoop].
  destruct (bool_decide _); [done|]. unfold selectClientForTask. rewrite order_zero.
  destruct (firstResolved _ _ _) as [[m res]|] eqn:Es; [|done]. apply firstResolved_elem in Es as (Hin & Hne & _).
  destruct (AppendClientTask _ _ _ _ _ _ _ db) as [db1 [x|]]; [|done]. destruct (wakeClient c io m); [done|]. apply IH.
  rewrite (Permutation_length (prioritize_perm _ _)). pose proof (remove_length remaining _ m Hne Hin eq_refl). lia.
Qed.

(** ** One task *)

(** Claimed, and possibly released. *)
Definition claimed (io : TaskIO) (id : string) (q : Group) : Group :=
  status_step (uo_outcome (ti_claim io)) id TaskStatusPending TaskStatusProcessing (ti_claimNow io) q.
Definition released (io : TaskIO) (id : string) (q : Group) : Group :=
  status_step (uo_outcome (ti_release io)) id TaskStatusProcessing TaskStatusPending (ti_releaseNow io) q.

Lemma release_group c io task db a : SRep db a → client_ok (co_shareGroup c) → canonical (sg_TaskID task) →
  ts_ok (ti_releaseNow io) → 0 < ti_releaseNow io →
  ∃ a', SRep (releaseTask c io task db) a' ∧ group a' (co_shareGroup c) = released io (sg_TaskID task) (group a (co_shareGroup c)).
Proof.
  intros HR Hg Hid Hts Hnow. unfold releaseTask.
  destruct (status_group db a (ti_release io) (sg_TaskID task) _ TaskStatusProcessing TaskStatusPending _ HR Hg Hid Hts Hnow)
    as (db' & a' & -> & HR' & Hq & _). by exists a'.
Qed.

Lemma process_total c s io task i db : is_Some (processTaskAt c s io task i db).
Proof.
  unfold processTaskAt. destruct (AtomicUpdateTaskStatus _ _ _ _ _ _ db) as [db1 [[] [|]]]; try done.
  destruct (OnlineCandidates _ _ _) as [[|m ms]|]; try done. unfold assignTaskToWakeableClient.
  destruct (assign_total (S (length (m :: ms))) c s io task (orderSharedCandidates (m :: ms) i) false db1) as [[db2 r] ->];
    [rewrite (Permutation_length (order_perm _ _)); lia|]. cbn. by destruct r.
Qed.

Lemma process_group c s io task i db db' r a : let g := co_shareGroup c in
  SRep db a → client_ok g → canonical (sg_TaskID task) →
  ts_ok (ti_claimNow io) → 0 < ti_claimNow io → ts_ok (ti_releaseNow io) → 0 < ti_releaseNow io →
  processTaskAt c s io task i db = Some (db', r) →
  ∃ a', SRep db' a' ∧ (group a' g = claimed io (sg_TaskID task) (group a g) ∨
    group a' g = released io (sg_TaskID task) (claimed io (sg_TaskID task) (group a g))).
Proof.
  intros g HR Hg Hid Ht1 H1 Ht2 H2. unfold processTaskAt.
  destruct (status_group db a (ti_claim io) (sg_TaskID task) g TaskStatusPending TaskStatusProcessing _ HR Hg Hid Ht1 H1)
    as (db1 & a1 & E & HR1 & Hq & _). fold g. rewrite E. fold (claimed io (sg_TaskID task) (group a g)) in Hq.
  destruct (outcome_result _), (status_applies _ _ _); try (intros [= <- _]; exists a1; split; [done|by left]).
  assert (∀ db2, SRep db2 a1 → ∃ a', SRep (releaseTask c io task db2) a' ∧
    group a' g = released io (sg_TaskID task) (claimed io (sg_TaskID task) (group a g))) as Hrel.
  { intros db2 HR2. destruct (release_group c io task db2 a1 HR2 Hg Hid Ht2 H2) as (a' & HR' & E'). exists a'. split; [done|]. unfold g in *. by rewrite E', Hq. }
  destruct (OnlineCandidates _ _ _) as [[|m ms]|].
  - intros [= <- _]. destruct (Hrel db1 HR1) as (a' & ? & ?). exists a'. split; [done|by right].
  - unfold assignTaskToWakeableClient. destruct (assignLoop _ _ _ _ _ _ _ db1) as [[db2 r2]|] eqn:Ea; [|done]. cbn.
    pose proof (assign_SRep _ _ _ _ _ _ _ _ _ _ a1 HR1 Ea) as HR2. destruct r2; intros [= <- _]; [exists a1; split; [done|by left]|].
    destruct (Hrel db2 HR2) as (a' & ? & ?). exists a'. split; [done|by right].
  - intros [= <- _]. destruct (Hrel db1 HR1) as (a' & ? & ?). exists a'. split; [done|by right].
Qed.

Lemma ginv_status clock now o q cur batch app id old new : ginv clock q cur batch app → clock < now →
  ginv now (status_step o id old new now q) cur batch app.
Proof.
  intros Hg Hlt. unfold status_step. destruct (g_find q id) as [x|] eqn:Ef; [|by apply (ginv_later clock); [|lia]].
  destruct (bool_decide _); [|by apply (ginv_later clock); [|lia]].
  destruct o; cbn [commit]; [by eapply ginv_move|by apply (ginv_later clock); [|lia]..].
Qed.

(** After a claim that committed, the task is not pending at its place. *)
Lemma claimed_gone io q b : ids_unique q → uo_outcome (ti_claim io) = TxnCommit →
  ∀ tv, g_tasks (claimed io b.2 q) !! b = Some tv → stv_Status tv ≠ TaskStatusPending.
Proof.
  intros Hu Ho tv. unfold claimed, status_step. rewrite Ho. cbn [commit].
  assert (∀ x, g_find q b.2 = Some x → ∀ tv, g_tasks q !! b = Some tv → b = x.1 ∧ tv = x.2) as Hx.
  { intros x Hf tv' Hb. apply g_find_iff in Hf as [Hx Ex]; [|done]. assert (b = x.1) as -> by (by eapply Hu). split; [done|congruence]. }
  destruct (g_find q b.2) as [x|] eqn:Ef.
  - case_bool_decide as Hs.
    + rewrite move_lookup, restatus_pos, decide_False by done. intros [[_ ->]|(_ & H2 & H3)]; [by rewrite restatus_status|].
      destruct (Hx x eq_refl _ H3) as [? _]. done.
    + intros Hb. destruct (Hx x eq_refl _ Hb) as [_ ->]. done.
  - intros Hb. assert (g_find q b.2 = Some (b, tv)) as E by (by apply g_find_iff). congruence.
Qed.

Lemma released_gone io q b : ids_unique q → b.1 < ti_releaseNow io →
  (∀ tv, g_tasks q !! b = Some tv → stv_Status tv ≠ TaskStatusPending) →
  ∀ tv, g_tasks (released io b.2 q) !! b = Some tv → stv_Status tv ≠ TaskStatusPending.
Proof.
  intros Hu Hlt Hq tv. unfold released, status_step. destruct (g_find q b.2) as [x|]; [|by apply Hq].
  destruct (bool_decide _); [|by apply Hq]. destruct (uo_outcome _); cbn [commit]; [|by apply Hq..].
  rewrite move_lookup, restatus_pos, decide_True by done. intros [[E _]|(_ & _ & Hb)]; [|by apply Hq].
  rewrite E in Hlt. cbn in Hlt. lia.
Qed.

(** ** Everything that happens to a group, interleaved *)

(** The store, the group's consumer, the tasks it has read and not yet processed, and the tasks
    ever appended (identifier and message). *)
Record GState := mkGState {
  gs_db : DB;
  gs_consumer : SharedSubscriptionConsumer;
  gs_batch : list ShareGroupTask;
  gs_appended : list (string * string) }.

Definition op_group (op : ShareOp) : string :=
  match op with
  | OpShareAppend _ _ t | OpShareRollback _ _ t => sg_ShareGroup t
  | OpShareStatus _ _ g _ _ _ | OpShareCursor _ g _ => g
  end.

(** One step of one party at [now], after [clock]: a publisher appends a task; the consumer reads
    a batch, processes its next task (its claim reaching the store), stops or is replaced by one
    that loads the stored cursor; an acknowledgement, the timeout scan or a rollback sets a
    status; a task that was assigned is rolled back; something happens to other groups or to
    the clients' queues. *)
Inductive group_step (g : string) (clock now : Z) : GState → GState → Prop :=
| GS_append io t db db' r c batch app : share_task_valid t → sg_ShareGroup t = g → initial_status t = TaskStatusPending →
    sg_TaskID t ∉ app.*1 → AppendShareGroupTask io (Some now) now t db = (db', r) →
    group_step g clock now (mkGState db c batch app)
      (mkGState db' c batch (match r with Ok _ => (sg_TaskID t, sg_MessageID t) :: app | Err _ => app end))
| GS_read db c app tasks :
    readShareGroupTasks db g (co_lastProcessedTS c) (co_lastProcessedTaskID c) defaultBatchSize = Ok tasks →
    group_step g clock now (mkGState db c [] app) (mkGState db c tasks app)
| GS_task s io i t db db' c c' batch app : uo_outcome (ti_claim io) = TxnCommit →
    clock < ti_claimNow io → ti_claimNow io < ti_releaseNow io → ti_releaseNow io < now →
    processNext s io i t c db = Some (c', db') →
    group_step g clock now (mkGState db c (t :: batch) app) (mkGState db' c' batch app)
| GS_stop db c batch app : group_step g clock now (mkGState db c batch app) (mkGState db c [] app)
| GS_restart db c c0 batch app : co_shareGroup c0 = g → cursor_pos c0 = (zeroTime, uuid_Nil) →
    group_step g clock now (mkGState db c batch app) (mkGState db (loadCursor c0 db) [] app)
| GS_status io id old new db db' r c batch app : canonical id → AtomicUpdateTaskStatus io id g old new now db = (db', r) →
    group_step g clock now (mkGState db c batch app) (mkGState db' c batch app)
| GS_rollback io t db db' r c batch app : share_task_valid t → sg_ShareGroup t = g → sg_TaskID t ∈ app.*1 →
    RollbackSharedSubscriptionTask io now t db = (db', r) →
    group_step g clock now (mkGState db c batch app) (mkGState db' c batch app)
| GS_other op db db' r c batch app : share_op_valid op → op_group op ≠ g → share_step op db = (db', r) →
    group_step g clock now (mkGState db c batch app) (mkGState db' c batch app)
| GS_clients db db' c batch app : (∀ k, shareHalf k = true → kv_get db' k = kv_get db k) →
    group_step g clock now (mkGState db c batch app) (mkGState db' c batch app).

Inductive group_reach (g : string) : Z → GState → Prop :=
| group_init db c : empty_store db → co_shareGroup c = g → cursor_pos c = (zeroTime, uuid_Nil) → group_reach g 0 (mkGState db c [] [])
| group_next clock now s s' : group_reach g clock s → clock < now → ts_ok now → group_step g clock now s s' → group_reach g now s'.

Definition group_inv (g : string) (clock : Z) (s : GState) : Prop :=
  co_shareGroup (gs_consumer s) = g ∧ 0 ≤ clock ∧
  ∃ a, SRep (gs_db s) a ∧ ginv clock (group a g) (cursor_pos (gs_consumer s)) (task_pos <$> gs_batch s) (gs_appended s).

Lemma group_inv_init g db c : empty_store db → co_shareGroup c = g → cursor_pos c = (zeroTime, uuid_Nil) →
  group_inv g 0 (mkGState db c [] []).
Proof.
  intros He Hg Hc. split_and!; [done|done|]. exists ∅. split; [by apply SRep_empty|]. cbn. rewrite Hc.
  assert (∀ p, g_tasks (group ∅ g) !! p = None) as Hnone by (intros p; apply lookup_empty).
  split; [intros p p' tv tv' H|intros p tv H|intros p tv H|constructor|constructor|by left|done|intros id m H|intros p tv H];
    try (by rewrite Hnone in H). by apply elem_of_nil in H.
Qed.

Lemma sorted_take {A} (R : A → A → Prop) l x n : StronglySorted R l → x ∈ l →
  x ∈ take n l ∨ length (take n l) = n ∧ Forall (λ y, R y x) (take n l).
Proof.
  intros Hs Hel. rewrite <-(take_drop n l) in Hel, Hs. apply elem_of_app in Hel as [Hel|Hel]; [by left|right]. split.
  - apply length_take_le. destruct (decide (n ≤ length l)%nat) as [?|Hlt]; [done|]. rewrite drop_ge in Hel by lia. by apply elem_of_nil in Hel.
  - apply Forall_forall. intros y Hy. induction (take n l) as [|z l' IH]; [by apply elem_of_nil in Hy|].
    cbn in Hs. apply StronglySorted_inv in Hs as [Hs Hz]. apply elem_of_cons in Hy as [->|Hy]; [|by apply IH].
    rewrite Forall_forall in Hz. apply Hz, elem_of_app. by right.
Qed.

Lemma g_pending_sorted q cur : StronglySorted (λ x y, pos_lt x.1 y.1 = true) (g_pending q cur).
Proof. apply StronglySorted_filter, pos_list_sorted. Qed.

(** Reading a batch: the pending tasks behind the cursor, the others behind them. *)
Lemma ginv_read clock q cur app n : ginv clock q cur [] app → Forall (λ x, share_ok x.1 x.2) (g_list q) →
  ginv clock q cur (task_pos <$> take n (share_of "" <$> g_pending q cur)) app.
Proof.
  intros [H1 H2 H3 H4 H5 H6 H7 H8 H9] Hok.
  assert (∀ l, task_pos <$> (share_of "" <$> l) = l.*1) as Hpos.
  { intros l. rewrite <-list_fmap_compose. apply list_fmap_ext. intros i [[ts id] tv] _. done. }
  rewrite fmap_take, Hpos, <-fmap_take.
  pose proof (g_pending_sorted q cur) as Hs.
  assert (∀ l : list ((Z * string) * shareTaskValue), StronglySorted (λ x y, pos_lt x.1 y.1 = true) l → StronglySorted (λ b b', pos_lt b b' = true) l.*1) as Hmap.
  { induction 1 as [|x l _ IH Hx]; cbn; constructor; [done|]. by apply Forall_fmap. }
  assert (∀ x, x ∈ g_pending q cur → g_tasks q !! x.1 = Some x.2 ∧ after cur x.1 = true ∧ share_ok x.1 x.2) as Hin.
  { intros [p tv] [[Ha _] Hx]%list_elem_of_filter. rewrite Forall_forall in Hok. pose proof (Hok _ Hx). by apply pos_list_elem in Hx. }
  split; try done.
  - intros p tv Hp Hst. destruct (H3 _ _ Hp Hst) as [Ha _]. split; [done|].
    assert ((p, tv) ∈ g_pending q cur) as Hel by (apply list_elem_of_filter; split; [done|by apply pos_list_elem]).
    destruct (sorted_take _ _ _ n Hs Hel) as [Hx|[_ Hall]]; [left; apply list_elem_of_fmap; by exists (p, tv)|right; by apply Forall_fmap].
  - by apply Hmap, StronglySorted_take.
  - apply Forall_fmap, Forall_forall. intros x Hx. apply elem_of_take in Hx as (i & Hx & _). apply list_elem_of_lookup_2, Hin in Hx as (Hq & Ha & Hp & _ & Hn).
    cbn. split_and!; [done|done|by eapply H2|done].
Qed.

Lemma task_pos_of g (l : list ((Z * string) * shareTaskValue)) : task_pos <$> (share_of g <$> l) = task_pos <$> (share_of "" <$> l).
Proof. rewrite <-!list_fmap_compose. by apply list_fmap_ext. Qed.

(** Storing the cursor at the task just processed. *)
Lemma ginv_store clock q b batch app g : ginv clock q b batch app → pos_ok b → b ≠ (zeroTime, uuid_Nil) →
  ginv clock (mkGroup (g_tasks q) (Some (cursor_value g (mkShareGroupCursor g b.1 b.2 0 zeroTime)))) b batch app.
Proof.
  intros [H1 H2 H3 H4 H5 H6 H7 H8 H9] Hp Hn. split; try done. intros cv [= <-]. unfold stored_pos. cbn.
  destruct b as [ts id]. cbn. split_and!; [done|by destruct Hp|done].
Qed.

Lemma advance_inv clock g c io t batch app db a : SRep db a → client_ok g → co_shareGroup c = g →
  ginv clock (group a g) (cursor_pos c) (task_pos t :: batch) app →
  (∀ tv, g_tasks (group a g) !! task_pos t = Some tv → stv_Status tv ≠ TaskStatusPending) →
  ∃ a', SRep (advanceCursor io t c db).2 a' ∧ ginv clock (group a' g) (cursor_pos (advanceCursor io t c db).1) batch app.
Proof.
  intros HR Hg Hc Hi Hgone. pose proof (ginv_advance _ _ _ _ _ _ Hi Hgone) as Hadv. unfold advanceCursor. cbn [co_setCursor co_shareGroup]. rewrite Hc. cbn [fst snd].
  pose proof (share_cursor_refines db a (ti_cursor io) g (mkShareGroupCursor g (sg_Timestamp t) (sg_TaskID t) 0 zeroTime) HR Hg) as Hs.
  cbn [share_step g_step] in Hs. destruct (AppendShareGroupCursor _ _ _ db) as [db' r]. destruct Hs as [HR' _].
  eexists. split; [exact HR'|]. rewrite commit_group, decide_True by done. change (cursor_pos _) with (task_pos t).
  destruct (uo_outcome _); cbn [commit]; [|done..]. destruct Hi as [_ _ _ _ Hb _ _ _ _]. apply Forall_cons in Hb as [(_ & Hp & _ & Hn) _].
  apply (ginv_store clock _ (task_pos t)); [done|done|]. intros E. apply (f_equal snd) in E. cbn in E, Hn. done.
Qed.

Lemma load_inv clock g c0 batch cur app db a : SRep db a → client_ok g → co_shareGroup c0 = g → cursor_pos c0 = (zeroTime, uuid_Nil) →
  ginv clock (group a g) cur batch app → ginv clock (group a g) (cursor_pos (loadCursor c0 db)) [] app ∧ co_shareGroup (loadCursor c0 db) = g.
Proof.
  intros HR Hg Hc0 Hz Hi. pose proof Hi as [H1 H2 H3 H4 H5 H6 H7 H8 H9]. unfold loadCursor. rewrite Hc0.
  rewrite (read_cursor_refines db a g HR Hg) by (intros cv Hcv; by destruct (H7 _ Hcv) as (_ & ? & _)).
  destruct (g_cursor (group a g)) as [cv|] eqn:Ecv; cbn [fmap option_fmap option_map].
  - split; [|done]. change (cursor_pos _) with (stored_pos cv). destruct (H7 _ eq_refl) as (Hok & Hcan & Hle).
    split; [done|done| |constructor|constructor|done| |done|done].
    + intros p tv Hp Hs. destruct (H3 _ _ Hp Hs) as [Ha _]. split; [by apply Hle|right; constructor].
    + intros cv' Hcv'. assert (cv' = cv) as -> by congruence. by split_and!.
  - split; [|done]. rewrite Hz. split; [done|done| |constructor|constructor|by left| |done|done].
    + intros p tv Hp Hs. split; [done|right; constructor].
    + intros cv' Hcv'. congruence.
Qed.

Lemma group_step_inv g clock now s s' : client_ok g → clock < now → ts_ok now → group_step g clock now s s' →
  group_inv g clock s → group_inv g now s'.
Proof.
  intros Hg Hlt Hts Hstep (Hc & Hclock & a & HR & Hi).
  assert (clock ≤ now) as Hle by lia. assert (0 < now) as Hnow by lia.
  destruct Hstep as [io t db db' r c batch app Hv Hgt Hst Hfresh E|db c app tasks E|s io i t db db' c c' batch app Ho Hc1 Hc2 Hc3 E
    |db c batch app|db c c0 batch app Hg0 Hz|io id old new db db' r c batch app Hid E|io t db db' r c batch app Hv Hgt Hin E
    |op db db' r c batch app Hv Hne E|db db' c batch app Hf]; cbn [gs_db gs_consumer gs_batch gs_appended] in *; (split; [|split; [lia|]]); try done.
  - pose proof (share_append_refines db a io now t HR (conj Hv Hts)) as Hs. cbn [share_step g_step] in Hs. rewrite E in Hs.
    destruct Hs as [HR' [= Er]]. eexists. split; [exact HR'|]. cbn [gs_db gs_consumer gs_batch gs_appended]. rewrite Hgt, commit_group, decide_True by done.
    subst r. destruct (uo_outcome io); cbn [commit outcome_result]; [|by apply (ginv_later clock)..].
    rewrite Hst. by apply (ginv_put clock).
  - exists a. split; [done|]. apply (ginv_later clock); [|done]. cbn. rewrite (pending_refines db a g (cursor_pos c)) in E; [|done|done|by eapply cursor_ok_start, gi_cursor].
    injection E as <-. rewrite fmap_take, task_pos_of, <-fmap_take. apply ginv_read; [done|]. by eapply g_list_ok.
  - unfold processNext in E. destruct (processTaskAt _ _ _ _ _ _) as [[db1 r]|]; [|done]. cbn in E. destruct r; by injection E as <- <-.
  - cbn in Hi. pose proof Hi as [Hu _ _ _ Hb _ _ _ _]. apply Forall_cons in Hb as [(_ & [_ Hid] & Htc & _) _]. cbn in Hid, Htc.
    assert (ts_ok (ti_claimNow io) ∧ ts_ok (ti_releaseNow io)) as [Ht1 Ht2] by (unfold ts_ok in *; lia).
    unfold processNext in E. destruct (processTaskAt c s io t i db) as [[db1 r]|] eqn:Ep; [|done].
    destruct (process_group c s io t i db db1 r a HR ltac:(by rewrite Hc) Hid Ht1 ltac:(lia) Ht2 ltac:(lia) Ep) as (a1 & HR1 & Hq).
    rewrite Hc in Hq. pose proof (claimed_gone io (group a g) (task_pos t) Hu Ho) as Hg1. cbn [task_pos snd] in Hg1.
    assert (ginv (ti_claimNow io) (claimed io (sg_TaskID t) (group a g)) (cursor_pos c) (task_pos t :: (task_pos <$> batch)) app) as Hi1 by (by apply (ginv_status clock)).
    assert (ginv now (group a1 g) (cursor_pos c) (task_pos t :: (task_pos <$> batch)) app ∧
      ∀ tv, g_tasks (group a1 g) !! task_pos t = Some tv → stv_Status tv ≠ TaskStatusPending) as [Hi2 Hgone].
    { destruct Hq as [->| ->]; [split; [apply (ginv_later (ti_claimNow io)); [done|lia]|done]|]. split.
      - apply (ginv_later (ti_releaseNow io)); [|lia]. by apply (ginv_status (ti_claimNow io)).
      - apply (released_gone io _ (task_pos t)); [by destruct Hi1|cbn; lia|done]. }
    cbn in E. destruct r; injection E as <- <-; cbn [gs_db gs_consumer gs_batch gs_appended].
    + by apply (advance_inv now g c io t _ _ _ a1).
    + exists a1. split; [done|]. by eapply ginv_next.
  - exists a. split; [done|]. apply (ginv_later clock); [|done]. by eapply ginv_stop.
  - cbn. by eapply load_inv.
  - exists a. split; [done|]. apply (ginv_later clock); [|done]. by eapply load_inv.
  - destruct (status_group db a io id g old new now HR Hg Hid Hts Hnow) as (db1 & a1 & E1 & HR1 & Hq & _). rewrite E1 in E. injection E as <- _.
    exists a1. split; [done|]. cbn. rewrite Hq. by apply (ginv_status clock).
  - pose proof (share_rollback_refines db a io now t HR (conj Hv (conj Hts Hnow))) as Hs. cbn [share_step g_step] in Hs. rewrite E in Hs.
    destruct Hs as [HR' _]. eexists. split; [exact HR'|]. cbn. rewrite Hgt, commit_group, decide_True by done.
    apply list_elem_of_fmap in Hin as ([id m] & Eid & Hin). cbn in Eid. destruct (gi_appended _ _ _ _ _ Hi _ _ Hin) as (x & Hx & _).
    rewrite Eid, Hx. destruct (bool_decide _); [destruct (uo_outcome io); cbn [commit]; by apply (ginv_later clock)|].
    destruct (uo_outcome io); cbn [commit]; [by eapply ginv_move|by apply (ginv_later clock)..].
  - pose proof (share_step_refines op db a HR Hv) as Hs. rewrite E in Hs. destruct (g_step op a) as [a' r'] eqn:Ea. destruct Hs as [HR' _].
    exists a'. split; [done|]. cbn. assert (group a' g = group a g) as ->; [|by apply (ginv_later clock)].
    destruct op as [io ts t|io id g' old new tm|io tm t|io g' cv]; cbn [g_step op_group] in Ea, Hne.
    + injection Ea as <- _. by rewrite commit_group, decide_False.
    + destruct (g_find _ _) as [x|]; [destruct (bool_decide _)|]; injection Ea as <- _; [by rewrite commit_group, decide_False|done|done].
    + injection Ea as <- _. by rewrite commit_group, decide_False.
    + injection Ea as <- _. by rewrite commit_group, decide_False.
  - exists a. split; [by eapply SRep_frame|]. by apply (ginv_later clock).
Qed.

Lemma group_reach_inv g clock s : client_ok g → group_reach g clock s → group_inv g clock s.
Proof. intros Hg. induction 1 as [db c He Hc Hz|clock now s s' _ IH Hlt Hts Hstep]; [by apply group_inv_init|by eapply group_step_inv]. Qed.

(** ** The claims *)

(** C4. Nothing that was queued for a share group gets lost, whatever the publishers, the group's
    consumer, its successors after restarts and changes of leader, the acknowledging members, the
    timeout scan and the rollback of members that went away do, in any order, as long as the
    clock moves forward and claims reach the store: every task ever appended is still in the
    store under its identifier with its message, and if it is pending, the consumer finds it
    behind its cursor: it is in the next batch unless the batch is full of tasks before it. *)
Theorem shared_task_never_lost g clock s id m : client_ok g → group_reach g clock s → (id, m) ∈ gs_appended s →
  ∃ key ts tv, findShareTask (gs_db s) g id = Ok (Some (key, ts, tv)) ∧ stv_MessageID tv = m ∧
    (stv_Status tv = TaskStatusPending → ∀ limit, ∃ tasks,
      readShareGroupTasks (gs_db s) g (co_lastProcessedTS (gs_consumer s)) (co_lastProcessedTaskID (gs_consumer s)) limit = Ok tasks ∧
      ((∃ t, t ∈ tasks ∧ sg_TaskID t = id ∧ sg_MessageID t = m) ∨
       length tasks = Z.to_nat limit ∧ Forall (λ t, pos_lt (task_pos t) (ts, id) = true) tasks)).
Proof.
  intros Hg Hr Hin. destruct (group_reach_inv g clock s Hg Hr) as (Hc & _ & a & HR & Hi).
  destruct (gi_appended _ _ _ _ _ Hi _ _ Hin) as (x & Hx & Hm). exists (skey g x.1), x.1.1, x.2.
  rewrite (findShareTask_refines _ a g id HR Hg), Hx. split_and!; [done|done|]. intros Hs limit.
  apply g_find_Some in Hx as [Hx <-]. destruct (gi_pending _ _ _ _ _ Hi _ _ Hx Hs) as [Ha _].
  pose proof (pending_refines _ a g (cursor_pos (gs_consumer s)) limit HR Hg (cursor_ok_start _ _ (gi_cursor _ _ _ _ _ Hi))) as Hread.
  cbn [cursor_pos fst snd] in Hread. rewrite Hread.
  eexists. split; [done|]. rewrite <-fmap_take, length_fmap.
  destruct (sorted_take _ _ x (Z.to_nat limit) (g_pending_sorted (group a g) (cursor_pos (gs_consumer s)))) as [Hel|[Hlen Hall]].
  - apply list_elem_of_filter. split; [done|]. destruct x. by apply pos_list_elem.
  - left. exists (share_of g x). split; [|done]. by apply list_elem_of_fmap_2.
  - right. split; [done|]. apply Forall_fmap. eapply Forall_impl; [exact Hall|]. by destruct x as [[ts i] tv].
Qed.

(** What a status update of one task does to the others. *)
Lemma status_step_other o id old new now q p tv : g_tasks q !! p = Some tv → p.2 ≠ id →
  g_tasks (status_step o id old new now q) !! p = Some tv.
Proof.
  intros Hp Hne. unfold status_step. destruct (g_find q id) as [x|] eqn:Ef; [|done]. destruct (bool_decide _); [|done].
  destruct o; cbn [commit]; [|done..]. apply g_find_Some in Ef as [_ <-]. apply move_lookup. right.
  split_and!; [|by intros ->|done]. intros E. apply Hne. by rewrite E, restatus_id.
Qed.

Lemma advance_group io t c (db : DB) a : SRep db a → client_ok (co_shareGroup c) →
  ∃ a', SRep (advanceCursor io t c db).2 a' ∧ g_tasks (group a' (co_shareGroup c)) = g_tasks (group a (co_shareGroup c)).
Proof.
  intros HR Hg. unfold advanceCursor. cbn [co_setCursor co_shareGroup fst snd]. set (g := co_shareGroup c) in *.
  pose proof (share_cursor_refines db a (ti_cursor io) g (mkShareGroupCursor g (sg_Timestamp t) (sg_TaskID t) 0 zeroTime) HR Hg) as Hs.
  cbn [share_step g_step] in Hs. destruct (AppendShareGroupCursor _ _ _ db) as [db' r]. destruct Hs as [HR' _].
  eexists. split; [exact HR'|]. rewrite commit_group, decide_True by done. by destruct (uo_outcome _).
Qed.

Lemma failed_status_same io id g old new now (db : DB) : uo_outcome io ≠ TxnCommit → (AtomicUpdateTaskStatus io id g old new now db).1 = db.
Proof.
  intros Ho. unfold AtomicUpdateTaskStatus. rewrite sm_Update_marshalled, apply_opUpdateShareTaskStatus by done.
  unfold updateShareTaskStatus. rewrite json_roundtrip. destruct (bool_decide _); [done|]. destruct (uuid_Parse _) as [u|]; [|done].
  cbv zeta. unfold db_Update. destruct (shareTaskStatusTxn _ _ _ _ _ _ db) as [[db' b]|]; [|done]. by destruct (uo_outcome io).
Qed.

Lemma failed_claim_same c s io t i db a : SRep db a → client_ok (co_shareGroup c) → canonical (sg_TaskID t) →
  ts_ok (ti_claimNow io) → 0 < ti_claimNow io → uo_outcome (ti_claim io) ≠ TxnCommit → processNext s io i t c db = Some (c, db).
Proof.
  intros HR Hg Hid Hts Hnow Ho. unfold processNext, processTaskAt.
  destruct (status_group db a (ti_claim io) (sg_TaskID t) _ TaskStatusPending TaskStatusProcessing _ HR Hg Hid Hts Hnow) as (db' & a' & E & _).
  pose proof (failed_status_same (ti_claim io) (sg_TaskID t) (co_shareGroup c) TaskStatusPending TaskStatusProcessing (ti_claimNow io) db Ho) as Hd.
  rewrite E in Hd |- *. cbn [fst] in Hd. subst db'. by destruct (uo_outcome (ti_claim io)), (status_applies _ _ _).
Qed.

(** C39. Where a task does get lost.  The consumer holds two tasks of its group, the first still
    pending.  Claiming the first fails in the store, which leaves the store and the cursor as
    they were; processing the second succeeds and moves the cursor to it.  Then the first is
    still pending in the store, but no batch read from the consumer's cursor on contains it. *)
Theorem failed_claim_skips_task g clock st t t' rest tv s io io' i : client_ok g → group_reach g clock st →
  gs_batch st = t :: t' :: rest → sg_TaskID t ≠ sg_TaskID t' →
  findShareTask (gs_db st) g (sg_TaskID t) = Ok (Some (shareTaskKey g (sg_Timestamp t) (sg_TaskID t), sg_Timestamp t, tv)) →
  stv_Status tv = TaskStatusPending →
  clock < ti_claimNow io → ts_ok (ti_claimNow io) → uo_outcome (ti_claim io) ≠ TxnCommit →
  clock < ti_claimNow io' → ti_claimNow io' < ti_releaseNow io' → ts_ok (ti_releaseNow io') →
  processNext s io i t (gs_consumer st) (gs_db st) = Some (gs_consumer st, gs_db st) ∧
  ∀ c' db', processNext s io' (i + 1) t' (gs_consumer st) (gs_db st) = Some (c', db') → cursor_pos c' = task_pos t' →
   findShareTask db' g (sg_TaskID t) = Ok (Some (shareTaskKey g (sg_Timestamp t) (sg_TaskID t), sg_Timestamp t, tv)) ∧
   ∀ limit, ∃ tasks, readShareGroupTasks db' g (co_lastProcessedTS c') (co_lastProcessedTaskID c') limit = Ok tasks ∧
     Forall (λ x, sg_TaskID x ≠ sg_TaskID t) tasks.
Proof.
  intros Hg Hr Hb Hne Hf Hp H1 Ht1 Ho H2 H3 Ht2. destruct (group_reach_inv g clock st Hg Hr) as (Hc & Hclock & a & HR & Hi).
  rewrite Hb in Hi. cbn in Hi. pose proof (gi_batch _ _ _ _ _ Hi) as [(_ & [_ Hid] & _ & _) [(_ & Hpos' & Hle' & Hnil') _]%Forall_cons]%Forall_cons.
  pose proof (gi_sorted _ _ _ _ _ Hi) as [_ [Hlt _]%Forall_cons]%StronglySorted_inv. destruct Hpos' as [Hpos' Hid'].
  split; [by apply (failed_claim_same _ _ _ _ _ _ a); [|rewrite Hc| | |lia|]|]. intros c' db' E2 Hcur.
  rewrite (findShareTask_refines _ a g _ HR Hg) in Hf. destruct (g_find (group a g) (sg_TaskID t)) as [x|] eqn:Ef; [|done].
  destruct x as [[xts xid] xtv]. apply g_find_Some in Ef as [Hx Eid]. cbn in Hf, Hx, Eid. injection Hf as _ -> ->. subst xid.
  unfold processNext in E2. destruct (processTaskAt (gs_consumer st) s io' t' (i + 1) (gs_db st)) as [[db2 r]|] eqn:Ep; [|done].
  assert (ts_ok (ti_claimNow io')) as Ht3 by (unfold ts_ok in *; lia).
  destruct (process_group _ s io' t' _ _ _ _ a HR ltac:(by rewrite Hc) Hid' Ht3 ltac:(lia) Ht2 ltac:(lia) Ep) as (a2 & HR2 & Hq).
  rewrite Hc in Hq.
  assert (g_tasks (group a2 g) !! task_pos t = Some tv ∧ ids_unique (group a2 g)) as [Hx2 Hu2].
  { pose proof (ginv_status clock (ti_claimNow io') (uo_outcome (ti_claim io')) _ _ _ _ (sg_TaskID t') TaskStatusPending TaskStatusProcessing Hi H2) as Hi1.
    pose proof (ginv_status _ (ti_releaseNow io') (uo_outcome (ti_release io')) _ _ _ _ (sg_TaskID t') TaskStatusProcessing TaskStatusPending Hi1 H3) as Hi2.
    destruct Hq as [->| ->]; (split; [|by eapply gi_unique; exact Hi1 || exact Hi2]); repeat apply status_step_other; done. }
  assert (∃ a3, SRep db' a3 ∧ g_tasks (group a3 g) = g_tasks (group a2 g)) as (a3 & HR3 & Hq3).
  { cbn in E2. destruct r; injection E2 as <- <-; [|by exists a2].
    destruct (advance_group io' t' (gs_consumer st) db2 a2 HR2) as (a3 & HR3 & E3); [by rewrite Hc|]. rewrite Hc in E3. by exists a3. }
  assert (ids_unique (group a3 g)) as Hu3 by (unfold ids_unique; by rewrite Hq3). rewrite <-Hq3 in Hx2. split.
  - rewrite (findShareTask_refines _ a3 g _ HR3 Hg). rewrite (proj2 (g_find_iff (group a3 g) (sg_TaskID t) (task_pos t, tv) Hu3)); done.
  - intros limit. pose proof (pending_refines db' a3 g (cursor_pos c') limit HR3 Hg) as Hread. rewrite Hcur in Hread.
    injection Hcur as -> ->. eexists. split; [apply Hread; right; by split|].
    apply Forall_take, Forall_fmap, Forall_forall. intros x [[Ha _] Hin]%list_elem_of_filter E. destruct x as [p v].
    apply pos_list_elem in Hin. cbn in E. assert (p = task_pos t) as -> by (by eapply Hu3). cbn in Ha.
    rewrite (after_cursor clock) in Ha; [|right; by split_and!|intros E'; by injection E' as _ E']. by rewrite (pos_lt_asym _ _ Hlt) in Ha.
Qed.

(** ** Who gets a task *)

(** What the outside may answer while a task is handed out: fresh canonical identifiers, times
    that fit, client identifiers that fit keys. *)
Definition append_ok (io : TaskIO) (id : string) : Prop :=
  client_ok id ∧ ts_ok (ti_appendNow io id) ∧ ∀ u, ap_newID (ti_append io id) = Some u → canonical u ∧ u ≠ uuid_Nil.

Lemma has_message_append io t (a : Queues) c : has_message (dt_MessageID t) (queue a c) = true →
  has_message (dt_MessageID t) (queue (a_step (OpAppend io t) a).1 c) = true.
Proof.
  intros Hm. cbn [a_step]. cbv zeta. destruct (has_message (dt_MessageID t) (queue a (dt_ClientID t))) eqn:Hh; [done|].
  destruct (final_outcome 3 (uo_outcomes io)); cbn [commit fst]; [|done..]. rewrite queue_insert. destruct (decide _) as [<-|]; [congruence|done].
Qed.

Lemma has_message_appended io t (a : Queues) : (a_step (OpAppend io t) a).2.2 = Ok tt →
  has_message (dt_MessageID t) (queue (a_step (OpAppend io t) a).1 (dt_ClientID t)) = true.
Proof.
  cbn [a_step]. cbv zeta. destruct (has_message (dt_MessageID t) (queue a (dt_ClientID t))) eqn:Hh; [done|].
  destruct (final_outcome 3 (uo_outcomes io)); cbn [commit fst snd]; [|done..]. intros _. rewrite queue_insert, decide_True by done.
  apply bool_decide_eq_true. exists (dt_TS t, dt_TaskID t), (value_of t). cbn [q_tasks]. by rewrite lookup_insert_eq.
Qed.

Lemma client_task_valid ts u id m gen qos ids nl rap g sid : client_ok id → ts_ok ts → canonical u → u ≠ uuid_Nil → canonical m → canonical sid →
  task_valid (mkTask ts u id m gen qos ids nl rap g sid).
Proof. intros. split; [done|]. split; [by split|]. split; [done|]. split; [|done]. cbn. destruct (bool_decide _); [by left|by right]. Qed.

Lemma append_client_ok io ts id m plan g sid u (db : DB) a : Rep db a → client_ok id → ts_ok ts → canonical m → canonical sid →
  ap_newID io = Some u → canonical u → u ≠ uuid_Nil → final_outcome 3 (uo_outcomes (ap_update io)) = TxnCommit →
  ∃ x, (AppendClientTask io ts id m plan g sid db).2 = Ok x.
Proof.
  intros HR Hid Hts Hm Hs Hu Hcu Hun Ho. unfold AppendClientTask. rewrite Hu. set (t := mkTask _ _ _ _ _ _ _ _ _ _ _).
  assert (task_valid t) as Hv by (by apply client_task_valid).
  pose proof (append_refines db a (ap_update io) t HR Hv) as Hstep. cbn [q_step] in Hstep.
  destruct (AppendDeliveryTask (ap_update io) t db) as [db' [ins r]]. destruct (a_step (OpAppend (ap_update io) t) a) as [a' r'] eqn:Ea.
  destruct Hstep as [_ Er]. subst r'. cbn [a_step] in Ea. cbv zeta in Ea. rewrite Ho in Ea.
  destruct (has_message _ _); injection Ea as _ _ <-; by eexists.
Qed.
Lemma append_client_queue io ts id m plan g sid (db : DB) a : Rep db a → client_ok id → ts_ok ts → canonical m → canonical sid →
  (∀ u, ap_newID io = Some u → canonical u ∧ u ≠ uuid_Nil) →
  ∃ a', Rep (AppendClientTask io ts id m plan g sid db).1 a' ∧
    (∀ c, has_message m (queue a c) = true → has_message m (queue a' c) = true) ∧
    (∀ x, (AppendClientTask io ts id m plan g sid db).2 = Ok x → has_message m (queue a' id) = true).
Proof.
  intros HR Hid Hts Hm Hs Hnew. unfold AppendClientTask. destruct (ap_newID io) as [u|]; [|by exists a].
  destruct (Hnew u eq_refl) as [Hu Hun]. set (t := mkTask _ _ _ _ _ _ _ _ _ _ _).
  assert (task_valid t) as Hv by (by apply client_task_valid).
  pose proof (append_refines db a (ap_update io) t HR Hv) as Hstep. cbn [q_step] in Hstep.
  pose proof (has_message_append (ap_update io) t a) as Hmono. pose proof (has_message_appended (ap_update io) t a) as Hnewm.
  destruct (AppendDeliveryTask (ap_update io) t db) as [db' [ins r]], (a_step (OpAppend (ap_update io) t) a) as [a' r'].
  destruct Hstep as [HR' <-]. exists a'. cbn [fst snd] in *. destruct r as [[]|]; (split_and!; [done|done|]); [|done].
  intros _ _. by apply Hnewm.
Qed.

(** The members that were asked: the last one was woken if the loop succeeded, every other one
    could not be; all of them hold a task for the message. *)
Definition asked (c : SharedSubscriptionConsumer) (s : Strategy) (io : TaskIO) (task : ShareGroupTask)
    (tried : list OnlineShareGroupMember) (r : result string unit) : Prop :=
  Forall (λ m, om_ClientID m ≠ "" ∧ is_Some (resolveSharedPlanOptions s task (om_ClientID m))) tried ∧
  match r with
  | Ok _ => ∃ ms m, tried = ms ++ [m] ∧ Forall (λ m, wakeClient c io m ≠ Ok tt) ms ∧ wakeClient c io m = Ok tt
  | Err _ => Forall (λ m, wakeClient c io m ≠ Ok tt) tried
  end.

Lemma assign_asked fuel c s io task : canonical (sg_MessageID task) → canonical (sg_TaskID task) → ∀ remaining failed (db : DB) a db' r,
  Rep db a → Forall (λ m, append_ok io (om_ClientID m)) remaining →
  assignLoop fuel c s io task remaining failed db = Some (db', r) →
  ∃ a' tried, Rep db' a' ∧ tried ⊆ remaining ∧ asked c s io task tried r ∧
    (∀ id, has_message (sg_MessageID task) (queue a id) = true → has_message (sg_MessageID task) (queue a' id) = true) ∧
    Forall (λ m, has_message (sg_MessageID task) (queue a' (om_ClientID m)) = true) tried.
Proof.
  intros Hm Hid. induction fuel as [|fuel IH]; intros remaining failed db a db' r HR Hok; [done|]. cbn [assignLoop].
  assert (∀ e, Some (db, Err e) = Some (db', r) → ∃ a' tried, Rep db' a' ∧ tried ⊆ remaining ∧ asked c s io task tried r ∧
    (∀ id, has_message (sg_MessageID task) (queue a id) = true → has_message (sg_MessageID task) (queue a' id) = true) ∧
    Forall (λ m, has_message (sg_MessageID task) (queue a' (om_ClientID m)) = true) tried) as Hnone.
  { intros e [= <- <-]. exists a, []. split_and!; [done|set_solver|by split; constructor|done|constructor]. }
  destruct (bool_decide _); [destruct failed; apply Hnone|]. unfold selectClientForTask. rewrite order_zero.
  destruct (firstResolved s task remaining) as [[m res]|] eqn:Es; [|destruct failed; apply Hnone].
  apply firstResolved_elem in Es as (Hin & Hne & Hres). rewrite Forall_forall in Hok. destruct (Hok m Hin) as (Hc & Hts & Hnew).
  match goal with |- context [AppendClientTask ?x1 ?x2 ?x3 ?x4 ?x5 ?x6 ?x7 db] =>
    destruct (append_client_queue x1 x2 x3 x4 x5 x6 x7 db a HR Hc Hts Hm Hid Hnew) as (a1 & HR1 & Hmono & Hhas);
    destruct (AppendClientTask x1 x2 x3 x4 x5 x6 x7 db) as [db1 [x|e]] end; cbn [fst snd] in *.
  - specialize (Hhas x eq_refl). destruct (wakeClient c io m) as [[]|e] eqn:Ew.
    + intros [= <- <-]. exists a1, [m]. split_and!; [done|intros y; set_solver| |done|by constructor].
      split; [by repeat constructor|]. exists [], m. by split_and!.
    + intros E. apply (IH _ _ _ a1) in E as (a2 & tried & HR2 & Hsub & Hask & Hmono2 & Hall); [|done|].
      * exists a2, (m :: tried). split_and!; [done| | |by intros; apply Hmono2, Hmono|constructor; [by apply Hmono2|done]].
        -- intros y [->|Hy]%elem_of_cons; [done|]. apply Hsub in Hy. rewrite prioritize_perm in Hy. by eapply remove_subseteq.
        -- destruct Hask as [Ha Hb]. split; [constructor; [by split|done]|]. destruct r.
           ++ destruct Hb as (ms & m' & -> & ? & ?). exists (m :: ms), m'. split_and!; [done|constructor; [congruence|done]|done].
           ++ constructor; [congruence|done].
      * rewrite prioritize_perm. apply Forall_forall. intros y Hy. apply Hok. by eapply remove_subseteq.
  - intros [= <- <-]. exists a1, []. split_and!; [done|set_solver|by split; constructor|done|constructor].
Qed.

Lemma status_find o id old new now q x : ids_unique q → g_find q id = Some x → stv_Status x.2 = old → o = TxnCommit →
  g_find (status_step o id old new now q) id = Some (restatus new now x) ∧ ids_unique (status_step o id old new now q).
Proof.
  intros Hu Hf Hs ->. unfold status_step. rewrite Hf, bool_decide_true by done. cbn [commit]. apply g_find_Some in Hf as [Hx <-].
  split; [|by apply move_unique; [| |apply restatus_id]]. rewrite move_find by (done || apply restatus_id). by rewrite decide_True.
Qed.

Lemma status_Rep (db : DB) a ga io id g old new now : Rep db a → SRep db ga → client_ok g → canonical id → ts_ok now → 0 < now →
  Rep (AtomicUpdateTaskStatus io id g old new now db).1 a.
Proof.
  intros HR HS Hg Hid Hts Hnow. eapply Rep_frame; [exact HR|]. intros k Hk.
  by apply (share_frame (OpShareStatus io id g old new now) db ga).
Qed.

Lemma release_pending c io task (db : DB) a ga x : let g := co_shareGroup c in Rep db a → SRep db ga → client_ok g → canonical (sg_TaskID task) →
  ts_ok (ti_releaseNow io) → 0 < ti_releaseNow io → uo_outcome (ti_release io) = TxnCommit →
  ids_unique (group ga g) → g_find (group ga g) (sg_TaskID task) = Some x → stv_Status x.2 = TaskStatusProcessing →
  Rep (releaseTask c io task db) a ∧ ∃ key ts tv, findShareTask (releaseTask c io task db) g (sg_TaskID task) = Ok (Some (key, ts, tv)) ∧
    ts = ti_releaseNow io ∧ stv_Status tv = TaskStatusPending.
Proof.
  intros g HR HS Hg Hid Hts Hnow Ho Hu Hf Hs. split; [by eapply status_Rep|].
  destruct (release_group c io task db ga HS Hg Hid Hts Hnow) as (ga' & HS' & Hq). fold g in Hq.
  destruct (status_find _ _ _ TaskStatusPending (ti_releaseNow io) _ x Hu Hf Hs Ho) as [Hf' _].
  rewrite (findShareTask_refines _ ga' g _ HS' Hg), Hq. unfold released. rewrite Hf'. eexists _, _, _. split; [done|].
  by rewrite restatus_pos, decide_True, restatus_status.
Qed.

(** The outcome of a task that was at [ts]: the members that were asked, online ones of the group,
    each with a task for the message in its queue, and the task itself. *)
Definition handed_out (c : SharedSubscriptionConsumer) (s : Strategy) (io : TaskIO) (g : string) (task : ShareGroupTask) (ts : Z)
    (db : DB) (r : result string unit) : Prop :=
  (∃ tried, asked c s io task tried r ∧
    Forall (λ m, (∃ candidates, OnlineCandidates s g (sg_TopicFilter task) = Ok candidates ∧ m ∈ candidates) ∧
      deliveryTaskExistsInTxn db (om_ClientID m) (sg_MessageID task) = Ok true) tried) ∧
  ∃ key' ts' tv', findShareTask db g (sg_TaskID task) = Ok (Some (key', ts', tv')) ∧
    match r with
    | Ok _ => ts' = ts ∧ stv_Status tv' = TaskStatusProcessing
    | Err _ => ts' = ti_releaseNow io ∧ stv_Status tv' = TaskStatusPending
    end.

Lemma handed_out_nobody c s io g task ts (db : DB) e key tv : findShareTask db g (sg_TaskID task) = Ok (Some (key, ti_releaseNow io, tv)) →
  stv_Status tv = TaskStatusPending → handed_out c s io g task ts db (Err e).
Proof. intros Hf Hs. split; [|by exists key, (ti_releaseNow io), tv]. exists []. split; [by split; constructor|constructor]. Qed.

(** C5. What becomes of a pending task that the consumer processes, its claim and, if it comes to
    that, its release reaching the store.  Processing ends.  If it succeeds, the task is marked
    as processing, and an online member of the group that may get the message has a task for it
    in its own queue and was woken; if it fails, the task is pending again at the time of the
    release.  In both cases every member that was asked and could not be woken keeps a task for
    the message too. *)
Theorem shared_task_processed g clock st a s io task i key ts tv : client_ok g → group_reach g clock st → Rep (gs_db st) a →
  canonical (sg_TaskID task) → canonical (sg_MessageID task) →
  clock < ti_claimNow io → ti_claimNow io < ti_releaseNow io → ts_ok (ti_releaseNow io) →
  uo_outcome (ti_claim io) = TxnCommit → uo_outcome (ti_release io) = TxnCommit →
  (∀ candidates, OnlineCandidates s g (sg_TopicFilter task) = Ok candidates → Forall (λ m, append_ok io (om_ClientID m)) candidates) →
  findShareTask (gs_db st) g (sg_TaskID task) = Ok (Some (key, ts, tv)) → stv_Status tv = TaskStatusPending →
  ∃ db' r, processTaskAt (gs_consumer st) s io task i (gs_db st) = Some (db', r) ∧ handed_out (gs_consumer st) s io g task ts db' r.
Proof.
  intros Hg Hr HR Hid Hm H1 H2 Ht2 Ho1 Ho2 Hcands Hf Hp.
  destruct (group_reach_inv g clock st Hg Hr) as (Hc & Hclock & ga & HS & Hi). pose proof (gi_unique _ _ _ _ _ Hi) as Hu.
  assert (ts_ok (ti_claimNow io)) as Ht1 by (unfold ts_ok in *; lia).
  rewrite (findShareTask_refines _ ga g _ HS Hg) in Hf. destruct (g_find (group ga g) (sg_TaskID task)) as [x|] eqn:Ef; [|done].
  injection Hf as <- <- <-.
  destruct (status_group (gs_db st) ga (ti_claim io) (sg_TaskID task) g TaskStatusPending TaskStatusProcessing _ HS Hg Hid Ht1 ltac:(lia))
    as (db1 & ga1 & E1 & HS1 & Hq1 & _).
  pose proof (status_Rep _ _ _ (ti_claim io) (sg_TaskID task) g TaskStatusPending TaskStatusProcessing (ti_claimNow io) HR HS Hg Hid Ht1 ltac:(lia)) as HR1.
  rewrite E1 in HR1. cbn [fst] in HR1.
  destruct (status_find _ _ _ TaskStatusProcessing (ti_claimNow io) _ x Hu Ef Hp Ho1) as [Ef1 Hu1]. rewrite <-Hq1 in Ef1, Hu1.
  assert (∀ db2 a2, Rep db2 a2 → SRep db2 ga1 → Rep (releaseTask (gs_consumer st) io task db2) a2 ∧ ∃ key ts tv,
    findShareTask (releaseTask (gs_consumer st) io task db2) g (sg_TaskID task) = Ok (Some (key, ts, tv)) ∧
    ts = ti_releaseNow io ∧ stv_Status tv = TaskStatusPending) as Hrel.
  { intros db2 a2 HR2 HS2. rewrite <-Hc in Hg, Hu1, Ef1 |- *. eapply release_pending; try done; [lia|apply restatus_status]. }
  unfold processTaskAt. rewrite Hc, E1, Ho1. unfold status_applies. rewrite Ef, bool_decide_true by done. cbn [outcome_result].
  destruct (Hrel db1 a HR1 HS1) as (_ & key & ts' & tv & Hback & -> & Hpend).
  destruct (OnlineCandidates s g (sg_TopicFilter task)) as [[|m0 ms]|e] eqn:Ec;
    [eexists _, _; split; [done|by eapply handed_out_nobody]| |eexists _, _; split; [done|by eapply handed_out_nobody]].
  specialize (Hcands _ eq_refl). set (cands := m0 :: ms) in *. unfold assignTaskToWakeableClient.
  destruct (assign_total (S (length cands)) (gs_consumer st) s io task (orderSharedCandidates cands i) false db1) as [[db2 r] Ea];
    [rewrite (Permutation_length (order_perm _ _)); lia|].
  pose proof (assign_SRep _ _ _ _ _ _ _ _ _ _ ga1 HS1 Ea) as HS2. rewrite <-(order_perm _ i) in Hcands.
  destruct (assign_asked _ _ _ _ _ Hm Hid _ _ _ a _ _ HR1 Hcands Ea) as (a2 & tried & HR2 & Hsub & Hask & _ & Hall).
  assert (∀ db3, Rep db3 a2 → Forall (λ m, (∃ candidates, OnlineCandidates s g (sg_TopicFilter task) = Ok candidates ∧ m ∈ candidates) ∧
      deliveryTaskExistsInTxn db3 (om_ClientID m) (sg_MessageID task) = Ok true) tried) as Htried.
  { intros db3 HR3. rewrite Forall_forall in Hall, Hcands |- *. intros m Hin. split.
    - exists cands. split; [done|]. rewrite <-(order_perm _ i). by apply Hsub.
    - rewrite (exists_in_queue db3 a2) by (done || by apply Hcands, Hsub). f_equal. by apply Hall. }
  rewrite Ea. cbn. destruct (Hrel db2 a2 HR2 HS2) as (HR3 & Hback2). destruct r; eexists _, _; (split; [done|split; [by exists tried; split; [|apply Htried]|]]);
    [|exact Hback2].
  rewrite (findShareTask_refines _ ga1 g _ HS2 Hg), Ef1. eexists _, _, _. split; [done|]. by rewrite restatus_pos, decide_False, restatus_status.
Qed.
End consumer_proofs.

(** ** An example: a group with one online member *)

Definition example_consumer : SharedSubscriptionConsumer := mkConsumer "g" 1 false zeroTime uuid_Nil.
Definition example_strategy : Strategy :=
  mkStrategy (λ _, Ok [mkMember "c" "a/b"]) (λ _, Ok {["$share/g/a/b" := mkSubOption 1 false "$share/g/a/b" false 0 0]}) None None.
Definition example_task_io (claim : UpdateIO) (claimNow : Z) : TaskIO :=
  mkTaskIO false claim claimNow (λ _, mkAppendIO (Some (example_uuid 50)) committed) (λ _, claimNow + 1) (λ _, true) (λ _, false)
    committed (claimNow + 5) committed.

Lemma example_put (db : gmap string string) a n now : SRep db a → n ∈ [1; 2] → ts_ok now →
  ∃ db', AppendShareGroupTask committed (Some now) now (example_share n) db = (db', Ok tt) ∧
    SRep db' (g_step (OpShareAppend committed now (example_share n)) a).1 ∧
    (∀ a', Rep db a' → Rep db' a').
Proof.
  intros HR Hn Hts. pose proof (example_share_valid n Hn) as Hv.
  pose proof (share_append_refines db a committed now (example_share n) HR (conj Hv Hts)) as H.
  pose proof (share_frame (OpShareAppend committed now (example_share n)) db a) as Hf. cbn [share_step] in H, Hf.
  destruct (AppendShareGroupTask _ _ _ _ db) as [db' r]. cbn [g_step] in H |- *. destruct H as [HR' [= ->]].
  exists db'. split_and!; [done|done|]. intros a' Ha. eapply Rep_frame; [done|]. intros k Hk. by apply Hf.
Qed.

Lemma example_empty : empty_store (∅ : gmap string string).
Proof. intros k. apply lookup_empty. Qed.

Lemma example_group : client_ok "g".
Proof. done. Qed.
Lemma example_fresh : example_uuid 2 ∉ [(example_uuid 1, example_uuid 101)].*1.
Proof. intros [E|E%elem_of_nil]%elem_of_cons; [by vm_compute in E|done]. Qed.

Definition example_groups : Groups :=
  (run_ops g_step [OpShareAppend committed 10 (example_share 1); OpShareAppend committed 20 (example_share 2)] ∅).1.
Definition example_stored_value (n : Z) : shareTaskValue := share_value TaskStatusPending (example_share n).
Definition example_read_task (n now : Z) : ShareGroupTask := share_of "g" ((now, example_uuid n), example_stored_value n).

(** Two tasks were appended and read by the consumer. *)
Lemma example_reach : ∃ (st : GState (DB := gmap string string)), group_reach "g" 30 st ∧
  gs_batch st = [example_read_task 1 10; example_read_task 2 20] ∧
  gs_appended st = [(example_uuid 2, example_uuid 102); (example_uuid 1, example_uuid 101)] ∧
  gs_consumer st = example_consumer ∧ Rep (gs_db st) ∅ ∧
  SRep (gs_db st) example_groups.
Proof.
  destruct (example_put ∅ ∅ 1 10 (SRep_empty ∅ example_empty) ltac:(left) ltac:(unfold ts_ok; lia)) as (db1 & E1 & H1 & R1).
  destruct (example_put db1 _ 2 20 H1 ltac:(right; left) ltac:(unfold ts_ok; lia)) as (db2 & E2 & H2 & R2).
  pose proof (pending_refines db2 _ "g" (zeroTime, uuid_Nil) 100 H2 example_group example_start) as Hread.
  assert (take (Z.to_nat 100) (share_of "g" <$> g_pending (group (g_step (OpShareAppend committed 20 (example_share 2))
     (g_step (OpShareAppend committed 10 (example_share 1)) ∅).1).1 "g") (zeroTime, uuid_Nil)) = [example_read_task 1 10; example_read_task 2 20]) as Et
    by (clear; vm_compute; reflexivity).
  rewrite Et in Hread. clear Et.
  exists (mkGState db2 example_consumer [example_read_task 1 10; example_read_task 2 20] [(example_uuid 2, example_uuid 102); (example_uuid 1, example_uuid 101)]).
  assert (group_reach "g" 30 (mkGState db2 example_consumer [example_read_task 1 10; example_read_task 2 20] [(example_uuid 2, example_uuid 102); (example_uuid 1, example_uuid 101)])) as Hr.
  { pose proof (group_init "g" ∅ example_consumer example_empty eq_refl eq_refl) as S0.
    pose proof (group_next "g" 0 10 _ _ S0 ltac:(lia) ltac:(unfold ts_ok; lia) (GS_append "g" 0 10 committed (example_share 1) _ db1 (Ok tt) _ [] []
      (example_share_valid 1 ltac:(left)) eq_refl eq_refl (not_elem_of_nil _) E1)) as S1.
    pose proof (group_next "g" 10 20 _ _ S1 ltac:(lia) ltac:(unfold ts_ok; lia) (GS_append "g" 10 20 committed (example_share 2) _ db2 (Ok tt) _ [] _
      (example_share_valid 2 ltac:(right; left)) eq_refl eq_refl example_fresh E2)) as S2.
    exact (group_next "g" 20 30 _ _ S2 ltac:(lia) ltac:(unfold ts_ok; lia) (GS_read "g" 20 30 db2 example_consumer _ [example_read_task 1 10; example_read_task 2 20] Hread)). }
  split; [exact Hr|]. split; [exact eq_refl|]. split; [exact eq_refl|]. split; [exact eq_refl|].
  split; [|exact H2]. apply R2, R1. exact (Rep_empty _ example_empty).
Qed.

Lemma shared_task_never_lost_witness :
  ∃ st : GState (DB := gmap string string), group_reach "g" 30 st ∧ ∃ key ts tv,
    findShareTask (gs_db st) "g" (example_uuid 1) = Ok (Some (key, ts, tv)) ∧ stv_MessageID tv = example_uuid 101 ∧
    (stv_Status tv = TaskStatusPending → ∀ limit, ∃ tasks,
      readShareGroupTasks (gs_db st) "g" (co_lastProcessedTS (gs_consumer st)) (co_lastProcessedTaskID (gs_consumer st)) limit = Ok tasks ∧
      ((∃ t, t ∈ tasks ∧ sg_TaskID t = example_uuid 1 ∧ sg_MessageID t = example_uuid 101) ∨
       length tasks = Z.to_nat limit ∧ Forall (λ t, pos_lt (task_pos t) (ts, example_uuid 1) = true) tasks)).
Proof.
  destruct example_reach as (st & Hr & _ & Happ & _). exists st. split; [exact Hr|].
  apply (shared_task_never_lost "g" 30 st (example_uuid 1) (example_uuid 101) example_group Hr). rewrite Happ. right. left.
Defined.


Lemma example_stored_task (db : gmap string string) n now : SRep db example_groups → (n, now) ∈ [(1, 10); (2, 20)] →
  findShareTask db "g" (example_uuid n) = Ok (Some (shareTaskKey "g" now (example_uuid n), now, example_stored_value n)).
Proof.
  intros HS Hn. rewrite (findShareTask_refines db _ "g" _ HS example_group). clear HS.
  assert (g_find (group example_groups "g") (example_uuid n) = Some ((now, example_uuid n), example_stored_value n)) as ->; [|done].
  repeat (apply elem_of_cons in Hn as [[= -> ->]|Hn]; [vm_compute; reflexivity|]). by apply elem_of_nil in Hn.
Qed.

(** The second task is handed to the member. *)
Lemma example_handed (db : gmap string string) : SRep db example_groups → Rep db ∅ →
  ∃ db', processTaskAt example_consumer example_strategy (example_task_io committed 40)
    (example_read_task 2 20) 1 db = Some (db', Ok tt).
Proof.
  intros HS HR. set (t := example_read_task 2 20). unfold processTaskAt.
  destruct (status_group db example_groups committed (example_uuid 2) "g" TaskStatusPending TaskStatusProcessing 40 HS example_group
    ltac:(vm_compute; reflexivity) ltac:(unfold ts_ok; lia) ltac:(lia)) as (db1 & a1 & E1 & _).
  pose proof (status_Rep db ∅ _ committed (example_uuid 2) "g" TaskStatusPending TaskStatusProcessing 40 HR HS example_group
    ltac:(vm_compute; reflexivity) ltac:(unfold ts_ok; lia) ltac:(lia)) as HR1.
  rewrite E1 in HR1. cbn [fst] in HR1. cbn [example_task_io ti_claim ti_claimNow]. change (co_shareGroup example_consumer) with "g".
  change (sg_TaskID t) with (example_uuid 2). rewrite E1.
  assert (status_applies (example_uuid 2) TaskStatusPending (group example_groups "g") = true) as -> by (clear; vm_compute; reflexivity).
  cbn [outcome_result committed uo_outcome].
  assert (OnlineCandidates example_strategy "g" (sg_TopicFilter t) = Ok [mkOnline "g" "c" "a/b" 0]) as -> by (clear; vm_compute; reflexivity).
  unfold assignTaskToWakeableClient. change (orderSharedCandidates [mkOnline "g" "c" "a/b" 0] 1) with [mkOnline "g" "c" "a/b" 0].
  cbn [assignLoop length]. rewrite bool_decide_false by done.
  assert (∃ res, selectClientForTask example_strategy t [mkOnline "g" "c" "a/b" 0] 0 = Some (mkOnline "g" "c" "a/b" 0, res)) as [res ->]
    by (clear; eexists; vm_compute; reflexivity).
  cbn [om_ClientID om_OwnerNodeID]. cbv zeta. cbn [example_task_io ti_append ti_appendNow]. change (co_shareGroup example_consumer) with "g".
  change (sg_TaskID t) with (example_uuid 2).
  match goal with |- context [AppendClientTask _ ?ts ?id ?m ?plan _ _ db1] =>
    destruct (append_client_ok (mkAppendIO (Some (example_uuid 50)) committed) ts id m plan "g" (example_uuid 2) (example_uuid 50) db1 ∅ HR1
      ltac:(clear; done) ltac:(clear; unfold ts_ok; lia) ltac:(clear; vm_compute; reflexivity) ltac:(clear; vm_compute; reflexivity) eq_refl
      ltac:(clear; vm_compute; reflexivity) ltac:(clear; by vm_compute) eq_refl) as [x E2];
    destruct (AppendClientTask (mkAppendIO (Some (example_uuid 50)) committed) ts id m plan "g" (example_uuid 2) db1) as [db2 r] end.
  cbn [snd] in E2. subst r. exists db2. reflexivity.
Qed.

Definition failed : UpdateIO := mkUpdateIO [TxnFailed] 0.

Lemma failed_claim_skips_task_witness :
  ∃ (st : GState (DB := gmap string string)) c' db', group_reach "g" 30 st ∧ gs_batch st = [example_read_task 1 10; example_read_task 2 20] ∧
    processNext example_strategy (example_task_io failed 40) 0 (example_read_task 1 10) (gs_consumer st) (gs_db st) = Some (gs_consumer st, gs_db st) ∧
    processNext example_strategy (example_task_io committed 40) 1 (example_read_task 2 20) (gs_consumer st) (gs_db st) = Some (c', db') ∧
    findShareTask db' "g" (example_uuid 1) = Ok (Some (shareTaskKey "g" 10 (example_uuid 1), 10, example_stored_value 1)) ∧
    ∃ tasks, readShareGroupTasks db' "g" (co_lastProcessedTS c') (co_lastProcessedTaskID c') 100 = Ok tasks ∧ Forall (λ x, sg_TaskID x ≠ example_uuid 1) tasks.
Proof.
  destruct example_reach as (st & Hr & Hb & _ & Hc & HR & HS).
  destruct (failed_claim_skips_task "g" 30 st (example_read_task 1 10) (example_read_task 2 20) [] (example_stored_value 1) example_strategy
    (example_task_io failed 40) (example_task_io committed 40) 0 example_group Hr Hb ltac:(clear; vm_compute; discriminate)
    (example_stored_task _ 1 10 HS ltac:(left)) eq_refl ltac:(cbn; lia) ltac:(clear; cbn; unfold ts_ok; lia) ltac:(clear; discriminate)
    ltac:(cbn; lia) ltac:(cbn; lia) ltac:(clear; cbn; unfold ts_ok; lia)) as [H1 H2].
  destruct (example_handed (gs_db st) HS HR) as [db1 E].
  assert (∃ c' db', processNext example_strategy (example_task_io committed 40) (0 + 1) (example_read_task 2 20) (gs_consumer st) (gs_db st) = Some (c', db') ∧
    cursor_pos c' = task_pos (example_read_task 2 20)) as (c' & db' & E2 & Hcur).
  { rewrite Hc. unfold processNext. change (0 + 1) with 1. rewrite E. eexists _, _. split; reflexivity. }
  destruct (H2 c' db' E2 Hcur) as [H3 H4]. exists st, c', db'. split_and!; [exact Hr|exact Hb|exact H1|exact E2|exact H3|exact (H4 100)].
Defined.

Lemma shared_task_processed_witness :
  ∃ (st : GState (DB := gmap string string)), group_reach "g" 30 st ∧ ∃ db' r,
    processTaskAt (gs_consumer st) example_strategy (example_task_io committed 40) (example_read_task 2 20) 1 (gs_db st) = Some (db', r) ∧
    handed_out (gs_consumer st) example_strategy (example_task_io committed 40) "g" (example_read_task 2 20) 20 db' r.
Proof.
  destruct example_reach as (st & Hr & _ & _ & _ & HR & HS). exists st. split; [exact Hr|].
  apply (shared_task_processed "g" 30 st ∅ example_strategy (example_task_io committed 40) (example_read_task 2 20) 1
    (shareTaskKey "g" 20 (example_uuid 2)) 20 (example_stored_value 2) example_group Hr HR).
  - clear; vm_compute; reflexivity.
  - clear; vm_compute; reflexivity.
  - cbn; lia.
  - cbn; lia.
  - clear; cbn; unfold ts_ok; lia.
  - exact eq_refl.
  - exact eq_refl.
  - clear. intros cands. replace (OnlineCandidates example_strategy "g" (sg_TopicFilter (example_read_task 2 20))) with (Ok (E := string) [mkOnline "g" "c" "a/b" 0])
      by (vm_compute; reflexivity). intros [= <-]. constructor; [|constructor]. split; [done|]. split; [cbn; unfold ts_ok; lia|].
    intros u [= <-]. split; [vm_compute; reflexivity|by vm_compute].
  - exact (example_stored_task _ 2 20 HS ltac:(right; left)).
  - exact eq_refl.
Defined.
