(* ===== verification/SharedManager.v ===== *)
(** * The shared-subscription manager ([src/internal/broker/sharedsubscription/manager])

    The manager remembers which filters of which share groups a client uses, decides when the
    tasks of a client are rolled back, and runs one consumer for every group this node leads.  A
    consumer that runs is an entry of [mg_consumers] here (its rounds are in [SharedSub]); calls of
    the leader election, the notification of other nodes and the spawned goroutines are inputs and
    outputs ([Spawned]).  Locks make each operation atomic; the life cycle of contexts is omitted.

    [manager_refines] shows that the nested maps of the clients are a set of (client, group,
    filter) triples. *)

From S2P Require Import Prelude GoStrings Inflight Downlink DeliveryStore.

Notation clientGroups := (gmap string (gset string)).

Record SharedSubscriptionManager := mkSharedManager {
  mg_clientStates : gmap string clientGroups;
  mg_consumers : gmap string string;
  mg_stopped : bool;
  mg_watching : list string }.
Definition NewSharedSubscriptionManager : SharedSubscriptionManager := mkSharedManager ∅ ∅ false [].

Definition with_states (s : gmap string clientGroups) (m : SharedSubscriptionManager) : SharedSubscriptionManager :=
  mkSharedManager s (mg_consumers m) (mg_stopped m) (mg_watching m).
Definition with_consumers (c : gmap string string) (m : SharedSubscriptionManager) : SharedSubscriptionManager :=
  mkSharedManager (mg_clientStates m) c (mg_stopped m) (mg_watching m).
Definition with_watching (w : list string) (m : SharedSubscriptionManager) : SharedSubscriptionManager :=
  mkSharedManager (mg_clientStates m) (mg_consumers m) (mg_stopped m) w.

(** What is started in the background. *)
Inductive Spawned :=
| DelayedRollback (clientID shareGroup : string)
| Rollback (clientID shareGroup : string).

(** ** What clients use *)

Definition rememberClientSharedTopicFilter (clientID shareGroup topicFilter : string) (m : SharedSubscriptionManager) : SharedSubscriptionManager :=
  if bool_decide (clientID = "") || bool_decide (shareGroup = "") || bool_decide (topicFilter = "") then m
  else
    let state := default ∅ (mg_clientStates m !! clientID) in
    let group := default ∅ (state !! shareGroup) in
    with_states (<[clientID := <[shareGroup := {[topicFilter]} ∪ group]> state]> (mg_clientStates m)) m.

Definition forgetClientShareGroupLocked (clientID shareGroup : string) (m : SharedSubscriptionManager) : SharedSubscriptionManager * bool :=
  match mg_clientStates m !! clientID with
  | None => (m, false)
  | Some state =>
      let state := delete shareGroup state in
      if bool_decide (state = ∅) then (with_states (delete clientID (mg_clientStates m)) m, true)
      else (with_states (<[clientID := state]> (mg_clientStates m)) m, true)
  end.

Definition forgetClientSharedTopicFilter (clientID shareGroup topicFilter : string) (m : SharedSubscriptionManager) : SharedSubscriptionManager * bool :=
  if bool_decide (clientID = "") || bool_decide (shareGroup = "") || bool_decide (topicFilter = "") then (m, false)
  else match mg_clientStates m !! clientID with
       | None => (m, false)
       | Some state =>
           match state !! shareGroup with
           | None => (m, false)
           | Some group =>
               let group := group ∖ {[topicFilter]} in
               let m := with_states (<[clientID := <[shareGroup := group]> state]> (mg_clientStates m)) m in
               if bool_decide (group = ∅) then forgetClientShareGroupLocked clientID shareGroup m else (m, false)
           end
       end.

Definition getClientShareGroups (clientID : string) (m : SharedSubscriptionManager) : list string :=
  match mg_clientStates m !! clientID with
  | None => []
  | Some state => (map_to_list state).*1
  end.

(** ** Consumers *)

(** [election] is what [TryAcquireLeadership] answers; [None] when there is no election. *)
Definition ensureConsumer (election : option (result string bool)) (shareGroup topicFilter : string) (m : SharedSubscriptionManager)
    : SharedSubscriptionManager * result string unit :=
  match mg_consumers m !! shareGroup with
  | Some _ => (m, Ok tt)
  | None =>
      match election with
      | Some (Err _) => (m, Err "failed to acquire leadership")
      | Some (Ok false) => (if mg_stopped m then m else with_watching (shareGroup :: mg_watching m) m, Ok tt)
      | Some (Ok true) | None => (with_consumers (<[shareGroup := topicFilter]> (mg_consumers m)) m, Ok tt)
      end
  end.

Definition stopConsumer (shareGroup : string) (m : SharedSubscriptionManager) : SharedSubscriptionManager :=
  with_consumers (delete shareGroup (mg_consumers m)) m.

(** The callback of [watchLeadership]. *)
Definition leadershipChanged (isLeader : bool) (election : option (result string bool)) (shareGroup topicFilter : string) (m : SharedSubscriptionManager)
    : SharedSubscriptionManager :=
  if isLeader then (ensureConsumer election shareGroup topicFilter m).1 else stopConsumer shareGroup m.

(** [renew] is whether [RenewLeadership] fails for a group. *)
Definition renewLeaderships (renew : string → bool) (m : SharedSubscriptionManager) : SharedSubscriptionManager :=
  foldl (λ m shareGroup, if renew shareGroup then stopConsumer shareGroup m else m) m (map_to_list (mg_consumers m)).*1.

Definition sm_Stop (m : SharedSubscriptionManager) : SharedSubscriptionManager := mkSharedManager (mg_clientStates m) ∅ true (mg_watching m).

(** ** Events *)

Definition OnClientOnline (election : option (result string bool)) (clientID shareGroup topicFilter : string) (m : SharedSubscriptionManager)
    : SharedSubscriptionManager * result string unit :=
  if bool_decide (shareGroup = "") || bool_decide (topicFilter = "") then (m, Err "invalid shareGroup or topicFilter")
  else
    let m := rememberClientSharedTopicFilter clientID shareGroup topicFilter m in
    match ensureConsumer election shareGroup topicFilter m with
    | (m, Err _) => (m, Err "failed to ensure consumer")
    | (m, Ok _) => (m, Ok tt)
    end.

Definition OnClientOffline (clientID : string) (m : SharedSubscriptionManager) : list Spawned :=
  if mg_stopped m then [] else DelayedRollback clientID <$> getClientShareGroups clientID m.

Definition OnClientUnsubscribe (clientID shareGroup topicFilter : string) (m : SharedSubscriptionManager)
    : SharedSubscriptionManager * result string (list Spawned) :=
  if bool_decide (shareGroup = "") || bool_decide (topicFilter = "") then (m, Err "invalid shareGroup or topicFilter")
  else
    let '(m, groupRemoved) := forgetClientSharedTopicFilter clientID shareGroup topicFilter m in
    (m, Ok (if groupRemoved && negb (mg_stopped m) then [Rollback clientID shareGroup] else [])).

(** Whether the delayed rollback goes through to [RollbackClientTasks], after its wait. *)
Definition delayedRollbackUnackedTasks (done online : bool) : bool := negb done && negb online.

Record TaskAppendedEvent := mkTaskAppended { ta_ShareGroup : string; ta_TopicFilter : string; ta_TaskID : string }.

Definition Validate (e : TaskAppendedEvent) : result string unit :=
  if bool_decide (ta_ShareGroup e = "") then Err "shareGroup is empty"
  else if bool_decide (ta_TopicFilter e = "") then Err "topicFilter is empty"
  else if bool_decide (ta_TaskID e = uuid_Nil) then Err "taskID is empty"
  else Ok tt.

(** The last component is whether the group's consumer was woken here. *)
Definition HandleRemoteTaskAppended (election : option (result string bool)) (e : TaskAppendedEvent) (m : SharedSubscriptionManager)
    : SharedSubscriptionManager * result string bool :=
  match Validate e with
  | Err err => (m, Err err)
  | Ok _ =>
      match ensureConsumer election (ta_ShareGroup e) (ta_TopicFilter e) m with
      | (m, Err _) => (m, Err "ensure remote shared consumer")
      | (m, Ok _) => (m, Ok (bool_decide (is_Some (mg_consumers m !! ta_ShareGroup e))))
      end
  end.

Definition NotifyTaskAppended (election : option (result string bool)) (broadcast : bool) (e : TaskAppendedEvent) (m : SharedSubscriptionManager)
    : SharedSubscriptionManager * result string bool :=
  match Validate e with
  | Err err => (m, Err err)
  | Ok _ =>
      match ensureConsumer election (ta_ShareGroup e) (ta_TopicFilter e) m with
      | (m, Err _) => (m, Err "ensure shared consumer")
      | (m, Ok _) => if broadcast then (m, Ok (bool_decide (is_Some (mg_consumers m !! ta_ShareGroup e)))) else (m, Err "broadcast shared wake")
      end
  end.

(** ** The clients' maps are a set of triples *)

Definition uses (m : SharedSubscriptionManager) (c g f : string) : Prop :=
  ∃ state group, mg_clientStates m !! c = Some state ∧ state !! g = Some group ∧ f ∈ group.

(** No client without groups, no group without filters. *)
Definition tidy (m : SharedSubscriptionManager) : Prop :=
  map_Forall (λ _ state, state ≠ ∅ ∧ map_Forall (λ _ group, group ≠ ∅) state) (mg_clientStates m).

Lemma remember_uses c g f m c' g' f' : c ≠ "" → g ≠ "" → f ≠ "" →
  uses (rememberClientSharedTopicFilter c g f m) c' g' f' ↔ uses m c' g' f' ∨ (c' = c ∧ g' = g ∧ f' = f).
Proof.
  intros Hc Hg Hf. unfold rememberClientSharedTopicFilter. rewrite !bool_decide_false by done. cbn [orb]. unfold uses. cbn [with_states mg_clientStates].
  destruct (decide (c = c')) as [<-|Hne]; [|rewrite lookup_insert_ne by done; split; [by left|]; intros [?|[? _]]; [done|congruence]].
  rewrite lookup_insert_eq. destruct (decide (g = g')) as [<-|Hne].
  - split.
    + intros (? & ? & [= <-] & Hl & Hin). rewrite lookup_insert_eq in Hl. injection Hl as <-. apply elem_of_union in Hin as [->%elem_of_singleton|Hin]; [by right|left].
      destruct (mg_clientStates m !! c) as [state|]; cbn in Hin; [|set_solver]. destruct (state !! g) as [group|] eqn:Eg; cbn in Hin; [by exists state, group|set_solver].
    + intros [(state & group & -> & Eg & Hin)|(_ & _ & ->)]; eexists _, _; (split; [done|split; [apply lookup_insert_eq|]]); [cbn; rewrite Eg|]; set_solver.
  - split.
    + intros (? & group & [= <-] & Hl & Hin). rewrite lookup_insert_ne in Hl by done. left. destruct (mg_clientStates m !! c) as [state|]; cbn in Hl; [by exists state, group|].
      by rewrite lookup_empty in Hl.
    + intros [(state & group & -> & Eg & Hin)|(_ & ? & _)]; [|congruence]. eexists _, group. split; [done|]. split; [|done]. by rewrite lookup_insert_ne.
Qed.

Lemma remember_tidy c g f m : tidy m → tidy (rememberClientSharedTopicFilter c g f m).
Proof.
  intros Ht. unfold rememberClientSharedTopicFilter. destruct (_ || _ || _); [done|]. unfold tidy. cbn [with_states mg_clientStates].
  apply map_Forall_insert_2; [|done]. split; [apply insert_non_empty|]. apply map_Forall_insert_2; [set_solver|].
  destruct (mg_clientStates m !! c) as [state|] eqn:E; [by destruct (Ht _ _ E)|apply map_Forall_empty].
Qed.

(** Forgetting a filter: the triple is gone, the maps stay tidy, and the answer tells whether the
    client has left the group with it. *)
Lemma forget_uses c g f m : tidy m → c ≠ "" → g ≠ "" → f ≠ "" →
  let r := forgetClientSharedTopicFilter c g f m in
  tidy r.1 ∧ (∀ c' g' f', uses r.1 c' g' f' ↔ uses m c' g' f' ∧ ¬ (c' = c ∧ g' = g ∧ f' = f)) ∧
  (r.2 = true ↔ (∃ f', uses m c g f') ∧ ∀ f', uses m c g f' → f' = f).
Proof.
  intros Ht Hc Hg Hf. cbv zeta. unfold forgetClientSharedTopicFilter. rewrite !bool_decide_false by done. cbn [orb].
  destruct (mg_clientStates m !! c) as [state|] eqn:Ec.
  2: { split; [done|]. split; [|split; [done|intros [(f' & st & gr & HA & _) _]; by rewrite Ec in HA]]. intros c' g' f'. split; [|by intros [? _]].
       intros Hu. split; [done|]. intros (-> & _ & _). destruct Hu as (st & gr & HA & _). cbn [fst] in HA. by rewrite Ec in HA. }
  destruct (state !! g) as [group|] eqn:Eg.
  2: { assert (∀ f', ¬ uses m c g f') as Hno by (intros f' (s & gr & Hs & Hgr & _); assert (s = state) as -> by congruence; congruence).
       split; [done|]. split; [|split; [done|intros [(f' & Hu) _]; by destruct (Hno f')]]. intros c' g' f'. split; [|by intros [? _]].
       intros Hu. split; [done|]. intros (-> & -> & ->). by destruct (Hno f). }
  destruct (Ht _ _ Ec) as [Hsne Hsg]. assert (group ≠ ∅) as Hgne by (by eapply Hsg).
  assert (∀ f', uses m c g f' ↔ f' ∈ group) as Hug.
  { intros f'. split; [intros (s & gr & Hs & Hgr & ?); assert (s = state) as -> by congruence; congruence|]. intros ?. by exists state, group. }
  set (group' := group ∖ {[f]}).
  assert (∀ st : gmap string clientGroups, (∀ c', c' ≠ c → st !! c' = mg_clientStates m !! c') →
    (∀ g' f', (∃ state' group'', st !! c = Some state' ∧ state' !! g' = Some group'' ∧ f' ∈ group'') ↔
      (g' = g ∧ f' ∈ group') ∨ (g' ≠ g ∧ ∃ gr, state !! g' = Some gr ∧ f' ∈ gr)) →
    ∀ c' g' f', uses (with_states st m) c' g' f' ↔ uses m c' g' f' ∧ ¬ (c' = c ∧ g' = g ∧ f' = f)) as Huses.
  { intros st Hother Hst c' g' f'. unfold uses at 1. cbn [with_states mg_clientStates]. destruct (decide (c' = c)) as [->|Hn].
    - rewrite Hst. destruct (decide (g' = g)) as [->|Hgn].
      + rewrite Hug. unfold group'. set_solver.
      + assert (uses m c g' f' ↔ ∃ gr, state !! g' = Some gr ∧ f' ∈ gr) as ->; [|set_solver].
        split; [intros (s & gr & Hs & ? & ?); assert (s = state) as -> by congruence; by exists gr|]. intros (gr & ? & ?). by exists state, gr.
    - rewrite Hother by done. change (uses m c' g' f' ↔ uses m c' g' f' ∧ ¬ (c' = c ∧ g' = g ∧ f' = f)). tauto. }
  case_bool_decide as Egr.
  - unfold forgetClientShareGroupLocked. cbn [with_states mg_clientStates]. rewrite lookup_insert_eq, delete_insert_eq.
    assert ((∃ f', uses m c g f') ∧ ∀ f', uses m c g f' → f' = f) as Hlast.
    { split; [apply set_choose_L in Hgne as [x Hx]; exists x; by apply Hug|]. intros f' Hf'%Hug. destruct (decide (f' = f)) as [|Hn]; [done|].
      assert (f' ∈ group') as Hin by (apply elem_of_difference; split; [done|by intros ?%elem_of_singleton]). rewrite Egr in Hin. by apply not_elem_of_empty in Hin. }
    case_bool_decide as Est; cbn [fst snd]; (split; [|split; [|done]]).
    + unfold tidy. cbn [with_states mg_clientStates]. rewrite delete_insert_eq. by apply map_Forall_delete.
    + apply Huses; [intros c' Hn; by rewrite delete_insert_eq, lookup_delete_ne|]. intros g' f'. rewrite lookup_delete_eq. split; [by intros (? & ? & ? & _)|].
      intros [[_ Hin]|(Hgn & gr & Hgr & _)]; [rewrite Egr in Hin; by apply not_elem_of_empty in Hin|].
      assert (delete g state !! g' = Some gr) as Hd by (by rewrite lookup_delete_ne). rewrite Est, lookup_empty in Hd. done.
    + unfold tidy. cbn [with_states mg_clientStates]. rewrite insert_insert_eq. apply map_Forall_insert_2; [split; [done|by apply map_Forall_delete]|done].
    + apply Huses; [intros c' Hn; by rewrite !lookup_insert_ne|]. intros g' f'. rewrite lookup_insert_eq. split.
      * intros (? & gr & [= <-] & Hgr & Hin). apply lookup_delete_Some in Hgr as [Hgn Hgr]. right. split; [done|by exists gr].
      * intros [[_ Hin]|(Hgn & gr & Hgr & Hin)]; [rewrite Egr in Hin; by apply not_elem_of_empty in Hin|]. eexists _, gr. split; [done|]. by rewrite lookup_delete_ne.
  - cbn [fst snd]. split; [|split].
    + unfold tidy. cbn [with_states mg_clientStates]. apply map_Forall_insert_2; [|done]. split; [apply insert_non_empty|by apply map_Forall_insert_2].
    + apply Huses; [intros c' Hn; by rewrite lookup_insert_ne|]. intros g' f'. rewrite lookup_insert_eq. split.
      * intros (? & gr & [= <-] & Hgr & Hin). apply lookup_insert_Some in Hgr as [[<- <-]|[Hgn Hgr]]; [by left|right; split; [done|by exists gr]].
      * intros [[-> Hin]|(Hgn & gr & Hgr & Hin)]; eexists _, _; (split; [done|]); [by rewrite lookup_insert_eq|by rewrite lookup_insert_ne].
    + split; [done|]. intros [_ Hall]. exfalso. apply Egr. unfold group'. apply set_eq. intros x. split; [|by intros ?%not_elem_of_empty].
      intros [Hx Hxf]%elem_of_difference. apply Hug, Hall in Hx. destruct Hxf. by apply elem_of_singleton.
Qed.

(** ** Sequences of events *)

Inductive ManagerOp :=
| MOnline (election : option (result string bool)) (c g f : string)
| MUnsubscribe (c g f : string)
| MAppended (election : option (result string bool)) (broadcast : bool) (e : TaskAppendedEvent)
| MLeader (isLeader : bool) (election : option (result string bool)) (g f : string)
| MRenew (renew : string → bool).

Definition m_step (op : ManagerOp) (m : SharedSubscriptionManager) : SharedSubscriptionManager :=
  match op with
  | MOnline el c g f => (OnClientOnline el c g f m).1
  | MUnsubscribe c g f => (OnClientUnsubscribe c g f m).1
  | MAppended el b e => (NotifyTaskAppended el b e m).1
  | MLeader l el g f => leadershipChanged l el g f m
  | MRenew renew => renewLeaderships renew m
  end.

Definition named (c g f : string) : bool := negb (bool_decide (c = "") || bool_decide (g = "") || bool_decide (f = "")).

(** The same on a set of triples. *)
Definition s_step (op : ManagerOp) (u : gset (string * string * string)) : gset (string * string * string) :=
  match op with
  | MOnline _ c g f => if named c g f then {[(c, g, f)]} ∪ u else u
  | MUnsubscribe c g f => u ∖ {[(c, g, f)]}
  | _ => u
  end.

Definition holds (m : SharedSubscriptionManager) (u : gset (string * string * string)) : Prop :=
  tidy m ∧ mg_stopped m = false ∧ (∀ c g f, (c, g, f) ∈ u ↔ uses m c g f) ∧ (∀ c g f, (c, g, f) ∈ u → named c g f = true).

Lemma ensure_same el g f m : mg_clientStates (ensureConsumer el g f m).1 = mg_clientStates m ∧ mg_stopped (ensureConsumer el g f m).1 = mg_stopped m.
Proof. unfold ensureConsumer. destruct (mg_consumers m !! g); [done|]. destruct el as [[[]|]|]; [done| |done|done]. by destruct (mg_stopped m) eqn:E. Qed.

Lemma holds_same m m' u : mg_clientStates m' = mg_clientStates m → mg_stopped m' = mg_stopped m → holds m u → holds m' u.
Proof. intros H1 H2 (Ht & Hs & Hu & Hn). unfold holds, tidy, uses. rewrite H1, H2. done. Qed.

Lemma forget_stopped c g f m : mg_stopped (forgetClientSharedTopicFilter c g f m).1 = mg_stopped m.
Proof.
  unfold forgetClientSharedTopicFilter. destruct (_ || _ || _); [done|]. destruct (mg_clientStates m !! c) as [state|]; [|done].
  destruct (state !! g); [|done]. destruct (bool_decide _); [|done]. unfold forgetClientShareGroupLocked. destruct (mg_clientStates _ !! c); [|done].
  by destruct (bool_decide _).
Qed.

Lemma m_step_holds op m u : holds m u → holds (m_step op m) (s_step op u).
Proof.
  intros H. pose proof H as (Ht & Hs & Hu & Hn). destruct op as [el c g f|c g f|el b e|l el g f|renew]; cbn [m_step s_step].
  - unfold OnClientOnline, named. destruct (decide (g = "")) as [->|Hg]; [rewrite (bool_decide_true _ eq_refl), orb_true_r; done|].
    destruct (decide (f = "")) as [->|Hf]; [rewrite (bool_decide_true _ eq_refl), !orb_true_r; done|]. rewrite (bool_decide_false (g = "")), (bool_decide_false (f = "")) by done.
    cbn [orb]. rewrite !orb_false_r. destruct (ensure_same el g f (rememberClientSharedTopicFilter c g f m)) as [E1 E2].
    destruct (ensureConsumer el g f _) as [m1 r]. cbn [fst] in E1, E2. replace (match r with Ok _ => (m1, Ok tt) | Err _ => (m1, Err "failed to ensure consumer") end).1 with m1 by (by destruct r).
    apply (holds_same _ _ _ E1 E2). destruct (decide (c = "")) as [->|Hc]; [done|]. rewrite (bool_decide_false (c = "")) by done. cbn [negb].
    split_and!; [by apply remember_tidy|unfold rememberClientSharedTopicFilter; by destruct (_ || _ || _)| |].
    + intros c' g' f'. rewrite remember_uses, <-Hu by done. rewrite elem_of_union, elem_of_singleton. split; [intros [[= -> -> ->]|?]; [by right|by left]|intros [?|(-> & -> & ->)]; [by right|by left]].
    + intros c' g' f' [[= -> -> ->]%elem_of_singleton|?]%elem_of_union; [unfold named; by rewrite !bool_decide_false|by apply Hn].
  - unfold OnClientUnsubscribe. destruct (named c g f) eqn:En.
    + apply negb_true_iff, orb_false_iff in En as [[Hc Hg]%orb_false_iff Hf]. rewrite Hg, Hf. apply bool_decide_eq_false in Hc, Hg, Hf. cbn [orb].
      destruct (forget_uses c g f m Ht Hc Hg Hf) as (Ht' & Hu' & _). pose proof (forget_stopped c g f m) as Hs'.
      destruct (forgetClientSharedTopicFilter c g f m) as [m1 b]. cbn [fst] in *. split_and!; [done|congruence| |].
      * intros c' g' f'. rewrite Hu', <-Hu, elem_of_difference, elem_of_singleton. split; intros [? Hx]; (split; [done|]); intros E; apply Hx; by injection E as -> -> -> || (destruct E as (-> & -> & ->)).
      * intros c' g' f' [? _]%elem_of_difference. by apply Hn.
    + assert (u ∖ {[(c, g, f)]} = u) as ->.
      { apply set_eq. intros x. rewrite elem_of_difference, elem_of_singleton. split; [by intros [? _]|]. intros Hx. split; [done|]. intros ->. by rewrite (Hn _ _ _ Hx) in En. }
      destruct (_ || _) eqn:Egf; [done|]. unfold forgetClientSharedTopicFilter.
      assert (bool_decide (c = "") || bool_decide (g = "") || bool_decide (f = "") = true) as -> by (by apply negb_false_iff in En). done.
  - unfold NotifyTaskAppended. destruct (Validate e); [|done]. destruct (ensure_same el (ta_ShareGroup e) (ta_TopicFilter e) m) as [E1 E2].
    destruct (ensureConsumer _ _ _ m) as [m1 [[]|]]; cbn [fst] in E1, E2; [destruct b|]; by apply (holds_same m).
  - destruct l; cbn [leadershipChanged]; [|done]. destruct (ensure_same el g f m) as [E1 E2]. by apply (holds_same m).
  - unfold renewLeaderships. revert H. clear. generalize (map_to_list (mg_consumers m)).*1. intros l. revert m.
    induction l as [|g l IH]; intros m H; [done|]. cbn [foldl]. apply IH. by destruct (renew g).
Qed.

(** C35. The maps of the clients are a set of triples: whatever clients come online and unsubscribe,
    tasks are announced and leaderships change, a client's groups are exactly those of the
    triples, going offline schedules one rollback for each of them, and unsubscribing rolls back
    exactly when it removes the client's last filter of the group. *)
Theorem manager_refines ops c :
  let m := foldl (flip m_step) NewSharedSubscriptionManager ops in
  let u := foldl (flip s_step) ∅ ops in
  (∀ g f, uses m c g f ↔ (c, g, f) ∈ u) ∧
  NoDup (OnClientOffline c m) ∧ (∀ g, DelayedRollback c g ∈ OnClientOffline c m ↔ ∃ f, (c, g, f) ∈ u) ∧
  (∀ g f, named c g f = true → (OnClientUnsubscribe c g f m).2 =
     Ok (if bool_decide (filter (λ x, x.1.1 = c ∧ x.1.2 = g) u = {[(c, g, f)]}) then [Rollback c g] else [])).
Proof.
  intros m u. assert (holds m u) as (Ht & Hs & Hu & Hn).
  { assert (∀ m0 u0, holds m0 u0 → holds (foldl (flip m_step) m0 ops) (foldl (flip s_step) u0 ops)) as H
      by (induction ops as [|op ops IH]; intros m0 u0 H0; [done|by apply IH, m_step_holds]).
    apply H. split_and!; [by intros ??|done|intros c' g f; split; [by intros ?%not_elem_of_empty|by intros (? & ? & ? & _)]|by intros c' g f ?%not_elem_of_empty]. }
  clearbody m u. split; [intros g f; by rewrite Hu|]. unfold OnClientOffline. rewrite Hs. split; [|split].
  - apply NoDup_fmap_2; [by intros ?? [= ?]|]. unfold getClientShareGroups. destruct (mg_clientStates m !! c); [apply NoDup_fst_map_to_list|constructor].
  - intros g. rewrite list_elem_of_fmap. unfold getClientShareGroups. destruct (mg_clientStates m !! c) as [state|] eqn:Ec.
    + destruct (Ht _ _ Ec) as [_ Hg]. split.
      * intros (g' & [= <-] & ([g'' group] & -> & Hin)%list_elem_of_fmap). apply elem_of_map_to_list in Hin. pose proof (Hg _ _ Hin) as Hne.
        apply set_choose_L in Hne as [f Hf]. exists f. apply Hu. by exists state, group.
      * intros (f & (st & group & Hst & Hg' & _)%Hu). exists g. split; [done|]. rewrite Ec in Hst. injection Hst as <-.
        apply list_elem_of_fmap. exists (g, group). by rewrite elem_of_map_to_list.
    + split; [by intros (? & _ & ?%elem_of_nil)|]. intros (f & (st & group & Hst & _)%Hu). congruence.
  - intros g f Hnm. pose proof Hnm as [[Hc Hg]%orb_false_iff Hf]%negb_true_iff%orb_false_iff. unfold OnClientUnsubscribe. rewrite Hg, Hf. cbn [orb].
    apply bool_decide_eq_false in Hc, Hg, Hf. destruct (forget_uses c g f m Ht Hc Hg Hf) as (_ & _ & Hr). pose proof (forget_stopped c g f m) as Hst.
    destruct (forgetClientSharedTopicFilter c g f m) as [m1 b]. cbn [fst snd] in *. rewrite Hst, Hs, andb_true_r. do 2 f_equal.
    assert (b = bool_decide (filter (λ x, x.1.1 = c ∧ x.1.2 = g) u = {[(c, g, f)]})) as ->; [|by destruct (bool_decide _)].
    apply eq_bool_prop_intro. rewrite !Is_true_true, bool_decide_eq_true, Hr. split.
    + intros [(f' & Hf') Hall]. apply set_eq. intros [[c' g'] f'']. rewrite elem_of_filter, elem_of_singleton, Hu. cbn. split.
      * intros [[-> ->] Hx]. by rewrite (Hall _ Hx).
      * intros [= -> -> ->]. split; [done|]. by rewrite <-(Hall _ Hf').
    + intros E. split; [|intros f' Hf']; [exists f; apply Hu; assert ((c, g, f) ∈ filter (λ x, x.1.1 = c ∧ x.1.2 = g) u) as H by (rewrite E; by apply elem_of_singleton); by apply elem_of_filter in H as [_ H]|].
      apply Hu in Hf'. assert ((c, g, f') ∈ filter (λ x, x.1.1 = c ∧ x.1.2 = g) u) as H by (by apply elem_of_filter). rewrite E in H. by apply elem_of_singleton in H as [= ->].
Qed.
