(* ===== verification/BrokerDelivery.v ===== *)
(** * The broker's delivery pipeline ([src/internal/broker/core])

    [RoutePublish] is what the handlers of PUBLISH and PUBREL call: a message is retained if it
    asks for it, routed over the subscription center, saved, put into the queues of share groups
    ([broker_delivery_shared.go]) and clients ([broker_delivery_normal.go]), whose owners are then
    woken; a QoS 0 message is handed to the owners directly ([broker_delivery_qos0.go]).  Wills
    take the same way and are then removed from the session ([broker_will.go]); the job of
    [broker_session_cleanup.go] deletes what expired sessions leave behind.

    The state is that of the components it works on.  Transactions, clocks, fresh identifiers,
    failing calls and [rand.Perm] are in records; notifications to nodes are collected in the
    order they are made.  Iteration over Go maps is in the order of [map_to_list]. *)

From S2P Require Import Prelude GoStrings Mqtt5 Topic SubCore SubCenter SessionCore Inflight Downlink Router Retain RetainStore DeliveryStore TaskStore SharedSub.

(** ** Notifications ([delivery/notify], [delivery/event]) *)

Record ClientDeliveryOptions := mkDeliveryOptions {
  do_NoLocal : bool;
  do_RAP : bool;
  do_SubscriptionIDsJSON : string }.

Inductive Kind := KindWake | KindQoS0Direct.

(** One call of [NotifyToNode]. *)
Record NotifyCall := mkNotify {
  nc_nodeID : Z;
  nc_topic : string;
  nc_clientIDs : list string;
  nc_kind : Kind;
  nc_payload : string;
  nc_clientOptions : gmap string ClientDeliveryOptions }.

(** ** Owners of clients ([broker_delivery_normal.go]) *)

Record ownerNodeLookupCache := mkOwnerCache {
  oc_loaded : gset string;
  oc_nodeByClient : gmap string Z }.
Definition newOwnerNodeLookupCache : ownerNodeLookupCache := mkOwnerCache ∅ ∅.

Fixpoint collectUnique (seen : gset string) (clientIDs : list string) : list string :=
  match clientIDs with
  | [] => []
  | clientID :: clientIDs =>
      if bool_decide (clientID = "") || bool_decide (clientID ∈ seen) then collectUnique seen clientIDs
      else clientID :: collectUnique ({[clientID]} ∪ seen) clientIDs
  end.
Definition collectUniqueClientIDs (clientIDs : list string) : list string := collectUnique ∅ clientIDs.

Definition collectPlanClientIDs (plans : list ClientPlan) : list string := filter (λ c, c ≠ "") (cp_ClientID <$> plans).

Definition cacheItem (cache : ownerNodeLookupCache) (item : ReadSessionOwnerItem) : ownerNodeLookupCache :=
  let clientID := roi_ClientID item in
  if bool_decide (clientID = "") then cache
  else
    let loaded := {[clientID]} ∪ oc_loaded cache in
    match roi_Owner item with
    | Some owner =>
        if negb (roi_Exist item) || (ow_NodeID owner =? 0) || negb (ow_Online owner)
        then mkOwnerCache loaded (delete clientID (oc_nodeByClient cache))
        else mkOwnerCache loaded (<[clientID := ow_NodeID owner]> (oc_nodeByClient cache))
    | None => mkOwnerCache loaded (delete clientID (oc_nodeByClient cache))
    end.

Definition cacheMissing (cache : ownerNodeLookupCache) (clientID : string) : ownerNodeLookupCache :=
  if bool_decide (clientID ∈ oc_loaded cache) then cache
  else mkOwnerCache ({[clientID]} ∪ oc_loaded cache) (delete clientID (oc_nodeByClient cache)).

(** [lookup] is [GetSessionOwners] of the session center. *)
Definition resolveOnlineOwnerNodes (lookup : list string → result string (list ReadSessionOwnerItem)) (clientIDs : list string)
    (cache : ownerNodeLookupCache) : gmap string Z * ownerNodeLookupCache :=
  let uniqueClientIDs := collectUniqueClientIDs clientIDs in
  let pending := filter (λ c, c ∉ oc_loaded cache) uniqueClientIDs in
  let cache :=
    if bool_decide (length pending = 0%nat) then cache
    else match lookup pending with
         | Err _ => cache
         | Ok items => foldl cacheMissing (foldl cacheItem cache items) pending
         end in
  (list_to_map (omap (λ c, (λ nodeID, (c, nodeID)) <$> oc_nodeByClient cache !! c) uniqueClientIDs), cache).

(** The clients of the plans, grouped by the node that owns them. *)
Definition groupByNode (nodeByClient : gmap string Z) (plans : list ClientPlan) : gmap Z (gset string) :=
  foldl (λ sets plan,
    if bool_decide (cp_ClientID plan = "") then sets
    else match nodeByClient !! cp_ClientID plan with
         | None => sets
         | Some nodeID => <[nodeID := {[cp_ClientID plan]} ∪ default ∅ (sets !! nodeID)]> sets
         end) ∅ plans.

Definition normalDeliveryWakeMaxAttempts : nat := 2.

(** The attempts to wake one node; [notify] is whether the n-th attempt fails, [sleep] whether
    the wait before the next one was not cut short. *)
Fixpoint notifyAttempts (remaining : nat) (attempt : nat) (notify : nat → bool) (sleep : bool) (call : NotifyCall) : list NotifyCall :=
  match remaining with
  | O => []
  | S remaining =>
      call :: (if negb (notify attempt) then []
               else if bool_decide (remaining = 0%nat) || negb sleep then [] else notifyAttempts remaining (S attempt) notify sleep call)
  end.
Definition notifyNormalClientDeliveryWake (notify : Z → nat → bool) (sleep : bool) (nodeID : Z) (topic : string) (clientIDs : list string)
    : list NotifyCall :=
  notifyAttempts normalDeliveryWakeMaxAttempts 1 (notify nodeID) sleep (mkNotify nodeID topic clientIDs KindWake "" ∅).

Definition wakeClientDeliveryRunners (lookup : list string → result string (list ReadSessionOwnerItem)) (notify : Z → nat → bool) (sleep : bool)
    (topic : string) (plans : list ClientPlan) : list NotifyCall :=
  let '(nodeByClient, _) := resolveOnlineOwnerNodes lookup (collectPlanClientIDs plans) newOwnerNodeLookupCache in
  map_to_list (groupByNode nodeByClient plans) ≫= λ x, notifyNormalClientDeliveryWake notify sleep x.1 topic (elements x.2).

(** ** Direct delivery of QoS 0 ([broker_delivery_qos0.go]) *)

Record EventRequest := mkEventRequest { er_ID : string; er_Data : string; er_RequestNodeID : Z }.
(** [proto.Marshal] of an EMIT_EVENT request. *)
Class EventProto := { er_Marshal : EventRequest → result string string }.

Definition planOptions (plan : ClientPlan) : ClientDeliveryOptions :=
  mkDeliveryOptions (cp_WinnerNoLocal plan) (cp_WinnerRAP plan) (cp_SubscriptionIDsJSON plan).

Definition notifyQoS0DirectNormalPlans (lookup : list string → result string (list ReadSessionOwnerItem)) (topic : string) (plans : list ClientPlan)
    (payload : string) (ownerCache : ownerNodeLookupCache) : list NotifyCall * ownerNodeLookupCache :=
  if bool_decide (length plans = 0%nat) then ([], ownerCache)
  else
    let '(nodeByClient, ownerCache) := resolveOnlineOwnerNodes lookup (collectPlanClientIDs plans) ownerCache in
    let clientOptionsMap := foldl (λ m plan,
      if bool_decide (cp_ClientID plan = "") then m
      else match nodeByClient !! cp_ClientID plan with None => m | Some _ => <[cp_ClientID plan := planOptions plan]> m end)
      (∅ : gmap string ClientDeliveryOptions) plans in
    ((λ x, mkNotify x.1 topic (elements x.2) KindQoS0Direct payload (filter (λ y, y.1 ∈ (x.2 : gset string)) clientOptionsMap))
       <$> map_to_list (groupByNode nodeByClient plans), ownerCache).

Record qos0SharedCandidate := mkQoS0Candidate { qc_clientID : string; qc_nodeID : Z }.

(** The strategy over the subscription center alone, as [NewSharedDeliveryStrategy(subCenter, nil, nil)]. *)
Definition subCenterStrategy (subs : MemorySubCenter) : Strategy :=
  mkStrategy (λ g, Ok (GetShareGroupMembers subs g)) (λ c, Ok (GetClientSubscriptions subs c)) None None.

Definition onlineQoS0SharedCandidates (subs : MemorySubCenter) (lookup : list string → result string (list ReadSessionOwnerItem))
    (shareTask : Router.ShareGroupTask) (ownerCache : ownerNodeLookupCache) : list qos0SharedCandidate * ownerNodeLookupCache :=
  match OnlineCandidates (subCenterStrategy subs) (st_ShareGroup shareTask) (st_TopicFilter shareTask) with
  | Err _ | Ok [] => ([], ownerCache)
  | Ok members =>
      let '(nodeByClient, ownerCache) := resolveOnlineOwnerNodes lookup (filter (λ c, c ≠ "") (om_ClientID <$> members)) ownerCache in
      (omap (λ m, if bool_decide (om_ClientID m = "") then None
                  else (λ nodeID, mkQoS0Candidate (om_ClientID m) nodeID) <$> nodeByClient !! om_ClientID m) members, ownerCache)
  end.

Definition resolveSharedDeliveryOptionsForClient (subs : MemorySubCenter) (clientID : string) (shareTask : Router.ShareGroupTask)
    : option ClientDeliveryOptions :=
  if bool_decide (clientID = "") || bool_decide (st_ShareGroup shareTask = "") || bool_decide (st_TopicFilter shareTask = "") then None
  else match ResolveClientOptions (subCenterStrategy subs) (st_ShareGroup shareTask) (st_TopicFilter shareTask)
               (st_PublisherClient shareTask) (st_PublishQoS shareTask) clientID with
       | Ok (Some resolved) => Some (mkDeliveryOptions (rc_NoLocal resolved) (rc_RAP resolved) (rc_SubscriptionIDsJSON resolved))
       | _ => None
       end.

(** The candidates in the order [rand.Perm] gives. *)
Fixpoint firstQoS0Candidate (subs : MemorySubCenter) (shareTask : Router.ShareGroupTask) (candidates : list qos0SharedCandidate) (perm : list nat)
    : option (qos0SharedCandidate * ClientDeliveryOptions) :=
  match perm with
  | [] => None
  | idx :: perm =>
      match candidates !! idx with
      | None => firstQoS0Candidate subs shareTask candidates perm
      | Some selected =>
          match resolveSharedDeliveryOptionsForClient subs (qc_clientID selected) shareTask with
          | Some opts => Some (selected, opts)
          | None => firstQoS0Candidate subs shareTask candidates perm
          end
      end
  end.

Definition selectQoS0SharedCandidate (subs : MemorySubCenter) (lookup : list string → result string (list ReadSessionOwnerItem))
    (rand : nat → list nat) (shareTask : Router.ShareGroupTask) (ownerCache : ownerNodeLookupCache)
    : option (qos0SharedCandidate * ClientDeliveryOptions) * ownerNodeLookupCache :=
  if bool_decide (st_ShareGroup shareTask = "") || bool_decide (st_TopicFilter shareTask = "") then (None, ownerCache)
  else
    let '(candidates, ownerCache) := onlineQoS0SharedCandidates subs lookup shareTask ownerCache in
    (firstQoS0Candidate subs shareTask candidates (rand (length candidates)), ownerCache).

Definition notifyQoS0SharedCandidate (topic payload : string) (selected : qos0SharedCandidate) (opts : ClientDeliveryOptions) : NotifyCall :=
  mkNotify (qc_nodeID selected) topic [qc_clientID selected] KindQoS0Direct payload {[qc_clientID selected := opts]}.

Fixpoint notifyQoS0DirectSharedTasks (subs : MemorySubCenter) (lookups : nat → list string → result string (list ReadSessionOwnerItem))
    (rands : nat → nat → list nat) (i : nat) (topic payload : string) (shareTasks : list Router.ShareGroupTask) (ownerCache : ownerNodeLookupCache)
    : list NotifyCall :=
  match shareTasks with
  | [] => []
  | shareTask :: shareTasks =>
      let '(selected, ownerCache) := selectQoS0SharedCandidate subs (lookups i) (rands i) shareTask ownerCache in
      match selected with
      | Some (selected, opts) => [notifyQoS0SharedCandidate topic payload selected opts]
      | None => []
      end ++ notifyQoS0DirectSharedTasks subs lookups rands (S i) topic payload shareTasks ownerCache
  end.

(** ** The pipeline ([broker_delivery.go], [broker_delivery_shared.go]) *)

(** What the outside decides about one share-group task: whether the query fails, the fresh task
    identifier, the append and whether the manager could be notified. *)
Record ShareIO := mkShareIO {
  sh_query : bool;
  sh_newID : string;
  sh_update : UpdateIO;
  sh_notify : bool }.

(** About one publication: the hash of retained messages, the payload store, the times, the
    append for each client, the session center, and the notifications. *)
Record PublishIO := mkPublishIO {
  pb_retainNow : Z;
  pb_retainFail : option string;
  pb_eventID : string;
  pb_clock : Z;
  pb_now : Z;
  pb_save : SaveIO;
  pb_share : nat → ShareIO;
  pb_append : string → AppendIO;
  pb_ownersFail : nat → bool;
  pb_notify : Z → nat → bool;
  pb_sleep : bool;
  pb_rand : nat → nat → list nat }.

Definition hasDeliveryRoutes (routeRes : RouteResult) : bool :=
  bool_decide (0 < length (rr_Plans routeRes))%nat || bool_decide (0 < length (rr_ShareGroupTasks routeRes))%nat.

Definition activeShareTaskStatuses : list string := [TaskStatusPending; TaskStatusProcessing].

Definition newPendingShareGroupTask (taskID : string) (now : Z) (messageID : string) (t : Router.ShareGroupTask) : ShareGroupTask :=
  mkShareGroupTask taskID (st_ShareGroup t) (st_TopicFilter t) messageID (st_DeliveryQoS t) (st_PublishQoS t) (st_PublisherClient t)
    (st_SubscriptionIDs t) (st_WinnerNoLocal t) (st_WinnerRAP t) TaskStatusPending 0 zeroTime "" now.

Section broker.
Context {DB PDB Data : Type} `{!KV DB, !KV PDB, !RetainCodec Data, !UUIDs, !Codecs, !JsonInts, !StoreProto, !EventProto}.

Record Broker := mkBroker {
  bk_storeQoS0 : bool;
  bk_localNodeID : Z;
  bk_subs : MemorySubCenter;
  bk_sessions : Core;
  bk_retained : gmap string Data;
  bk_payload : PDB;
  bk_meta : DB }.
Definition with_retained (h : gmap string Data) (b : Broker) : Broker :=
  mkBroker (bk_storeQoS0 b) (bk_localNodeID b) (bk_subs b) (bk_sessions b) h (bk_payload b) (bk_meta b).
Definition with_payload (p : PDB) (b : Broker) : Broker :=
  mkBroker (bk_storeQoS0 b) (bk_localNodeID b) (bk_subs b) (bk_sessions b) (bk_retained b) p (bk_meta b).
Definition with_meta (db : DB) (b : Broker) : Broker :=
  mkBroker (bk_storeQoS0 b) (bk_localNodeID b) (bk_subs b) (bk_sessions b) (bk_retained b) (bk_payload b) db.
Definition with_sessions (c : Core) (b : Broker) : Broker :=
  mkBroker (bk_storeQoS0 b) (bk_localNodeID b) (bk_subs b) c (bk_retained b) (bk_payload b) (bk_meta b).
Definition with_subs (s : MemorySubCenter) (b : Broker) : Broker :=
  mkBroker (bk_storeQoS0 b) (bk_localNodeID b) s (bk_sessions b) (bk_retained b) (bk_payload b) (bk_meta b).

Definition processRetainedInternalPublish (io : PublishIO) (publish : Publish) (publisherClientID : string) (b : Broker)
    : Broker * result string unit :=
  if negb (pub_Retain publish) then (b, Ok tt)
  else if bool_decide (length (pub_Payload publish) = 0%nat)
  then let '(h, r) := DeleteRetainMessage (pb_retainFail io) (pub_Topic publish) (bk_retained b) in (with_retained h b, r)
  else match newRetainMessageFromPublish publish (pb_retainNow io) publisherClientID with
       | Err _ => (b, Err "encode")
       | Ok retained => let '(h, r) := PutRetainMessage (pb_retainFail io) retained (bk_retained b) in (with_retained h b, r)
       end.

(** One share-group task of [appendSharedDeliveryTasks]: the store, and whether it succeeded. *)
Definition appendShareOne (io : ShareIO) (now : Z) (messageID : string) (shareTask : Router.ShareGroupTask) (db : DB) : DB * bool :=
  if bool_decide (st_ShareGroup shareTask = "") then (db, true)
  else if sh_query io then (db, false)
  else match queryShareTaskByMessageID db (st_ShareGroup shareTask) messageID activeShareTaskStatuses with
       | Err _ => (db, false)
       | Ok (Some _) => (db, sh_notify io)
       | Ok None =>
           match AppendShareGroupTask (sh_update io) (Some now) now (newPendingShareGroupTask (sh_newID io) now messageID shareTask) db with
           | (db, Err _) => (db, false)
           | (db, Ok _) => (db, sh_notify io)
           end
       end.

Fixpoint appendSharedDeliveryTasks (ios : nat → ShareIO) (i : nat) (now : Z) (messageID : string) (shareTasks : list Router.ShareGroupTask) (db : DB)
    : DB * bool :=
  match shareTasks with
  | [] => (db, true)
  | shareTask :: shareTasks =>
      let '(db, ok) := appendShareOne (ios i) now messageID shareTask db in
      let '(db, rest) := appendSharedDeliveryTasks ios (S i) now messageID shareTasks db in
      (db, ok && rest)
  end.

Fixpoint appendClientDeliveryTasks (ios : string → AppendIO) (now : Z) (messageID : string) (plans : list ClientPlan) (db : DB) : DB * bool :=
  match plans with
  | [] => (db, true)
  | plan :: plans =>
      if bool_decide (cp_ClientID plan = "") then appendClientDeliveryTasks ios now messageID plans db
      else
        let '(db, r) := AppendClientTask (ios (cp_ClientID plan)) now (cp_ClientID plan) messageID plan "" uuid_Nil db in
        let '(db, rest) := appendClientDeliveryTasks ios now messageID plans db in
        (db, match r with Ok _ => rest | Err _ => false end)
  end.

(** The n-th call of [GetSessionOwners]. *)
Definition ownerLookup (io : PublishIO) (b : Broker) (n : nat) (clientIDs : list string) : result string (list ReadSessionOwnerItem) :=
  if pb_ownersFail io n then Err "session center" else Ok (GetSessionOwners (bk_sessions b) clientIDs).

Definition encodeQoS0DirectPayload (io : PublishIO) (m : PubMessage) (b : Broker) : result string string :=
  encoded ← ser_Encode (pb_clock io) m;
  er_Marshal (mkEventRequest (pb_eventID io) encoded (bk_localNodeID b)).

Definition handleQoS0DirectNoStore (io : PublishIO) (m : PubMessage) (publish : Publish) (routeRes : RouteResult) (b : Broker)
    : result string (list NotifyCall) :=
  payload ← encodeQoS0DirectPayload io m b;
  let '(calls, ownerCache) := notifyQoS0DirectNormalPlans (ownerLookup io b 0) (pub_Topic publish) (rr_Plans routeRes) payload newOwnerNodeLookupCache in
  Ok (calls ++ notifyQoS0DirectSharedTasks (bk_subs b) (λ i, ownerLookup io b (S i)) (pb_rand io) 0 (pub_Topic publish) payload (rr_ShareGroupTasks routeRes) ownerCache).

Definition routePublishClientMode (io : PublishIO) (m : PubMessage) (b : Broker) : Broker * result string (list NotifyCall) :=
  match pm_Publish m with
  | None => (b, Ok [])
  | Some publish =>
      match processRetainedInternalPublish io publish (pm_SendClientID m) b with
      | (b, Err e) => (b, Err e)
      | (b, Ok _) =>
          let routeRes := Route (bk_subs b) publish (pm_SendClientID m) in
          if negb (hasDeliveryRoutes routeRes) then (b, Ok [])
          else if (pub_QoS publish =? 0) && negb (bk_storeQoS0 b) then (b, handleQoS0DirectNoStore io m publish routeRes b)
          else
            match SavePublishMessage (pb_save io) (pb_now io) (pm_SendClientID m) publish (pm_MessageID m) (bk_payload b) with
            | (p, Err e) => (with_payload p b, Err e)
            | (p, Ok messageID) =>
                let b := with_payload p b in
                match appendSharedDeliveryTasks (pb_share io) 0 (pb_now io) messageID (rr_ShareGroupTasks routeRes) (bk_meta b) with
                | (db, false) => (with_meta db b, Err "share group")
                | (db, true) =>
                    match appendClientDeliveryTasks (pb_append io) (pb_now io) messageID (rr_Plans routeRes) db with
                    | (db, false) => (with_meta db b, Err "client")
                    | (db, true) =>
                        let b := with_meta db b in
                        (b, Ok (wakeClientDeliveryRunners (ownerLookup io b 0) (pb_notify io) (pb_sleep io) (pub_Topic publish) (rr_Plans routeRes)))
                    end
                end
            end
      end
  end.

(** ** Wills and expired sessions ([broker_will.go], [broker_session_cleanup.go]) *)

Record WillIO := mkWillIO { wi_getFail : bool; wi_saveFail : bool; wi_clock : Z; wi_now : Z }.

Definition clearPublishedWillFromSession (io : WillIO) (willMsg : PubMessage) (b : Broker) : Broker :=
  if bool_decide (pm_SendClientID willMsg = "") then b
  else if wi_getFail io then b
  else match (GetSession (wi_clock io) (bk_sessions b) (pm_SendClientID willMsg) 0).1 with
       | None => b
       | Some sess =>
           match ss_WillMessage sess with
           | None => b
           | Some _ =>
               if wi_saveFail io then b
               else with_sessions (saveOfflineState (wi_clock io) (bk_sessions b)
                      (mkSaveOfflineRequest (pm_SendClientID willMsg) (Some <$> ss_UnfinishedMessages sess) None true
                         (ss_SessionExpiryInterval sess) (wi_now io) (pm_OwnerToken willMsg) None)).1 b
           end
       end.

(** [plugin] is what [DoReceivedPublish] makes of the publication: the chain may change it, or
    deny it. *)
Definition processWillMessage (plugin : Publish → option Publish) (io : PublishIO) (wio : WillIO) (willMsg : PubMessage) (b : Broker)
    : Broker * list NotifyCall :=
  match pm_Publish willMsg with
  | None => (b, [])
  | Some publish =>
      match plugin publish with
      | None => (b, [])
      | Some publish =>
          let willMsg := mkPubMessage (pm_SendClientID willMsg) (pm_OwnerToken willMsg) (pm_MessageID willMsg) (Some publish)
                           (pm_PubReceived willMsg) (pm_CreatedTime willMsg) (pm_ExpiredTime willMsg) in
          match routePublishClientMode io willMsg b with
          | (b, Err _) => (b, [])
          | (b, Ok calls) => (clearPublishedWillFromSession wio willMsg b, calls)
          end
      end
  end.

(** [subFail] and [reset] are the fate of deleting the subscriptions and the delivery state. *)
Definition cleanupExpiredClientState (subFail : string → bool) (reset : string → UpdateIO) (b : Broker) (clientID : string) : Broker :=
  if bool_decide (clientID = "") then b
  else
    let b := if subFail clientID then b else with_subs (DeleteClient (bk_subs b) (mkDeleteClientRequest clientID "")).1 b in
    with_meta (ResetClientDeliveryState (reset clientID) clientID (bk_meta b)).1 b.

Definition deleteExpiredSessionsOnce (fail : bool) (subFail : string → bool) (reset : string → UpdateIO) (clock now : Z) (b : Broker) : Broker :=
  if fail then b
  else
    let '(c, clientIDs) := DeleteExpiredSessions clock (bk_sessions b) now in
    foldl (cleanupExpiredClientState subFail reset) (with_sessions c b) clientIDs.
End broker.
#[global] Arguments Broker : clear implicits.
