(* ===== verification/BrokerDeliveryProofs.v ===== *)
(** * The delivery pipeline: accepted messages are queued

    The router, the payload store, the queues of clients and those of share groups together:
    what [RoutePublish] has accepted is stored and waits in the queue of everyone it is for
    ([accepted_publish_queued]); direct delivery of QoS 0 reaches only online recipients, and
    all of them when their owners can be looked up ([qos0_direct_exact]); and two places where the pipeline does less or more than it means to
    ([second_filter_of_group_dropped], [published_will_restarts_expiry]). *)

From stdpp Require Import sorting.
From S2P Require Import Prelude GoStrings Mqtt5 Topic WireCodec WireRoundtrip SessionCore SessionCoreProofs SubCore SubCoreProofs SubCenter SubCenterProofs WalEngine Inflight Downlink Router RouterProofs DeliveryStore DeliveryStoreProofs DeliveryQueue ShareQueue Retain RetainProofs RetainStore TaskStore TaskStoreProofs SharedSub SharedSubProofs BrokerDelivery.

(** ** Share groups *)

(** The group has a task for the message that is pending or being processed. *)
Definition active (m : string) (q : Group) : Prop :=
  ∃ p tv, g_tasks q !! p = Some tv ∧ has_status activeShareTaskStatuses m tv = true.

Lemma by_message_active q m : active m q ↔ is_Some (g_by_message q m activeShareTaskStatuses).
Proof.
  unfold g_by_message. split.
  - intros (p & tv & Hp & Hs). assert ((p, tv) ∈ filter (λ x, has_status activeShareTaskStatuses m x.2 = true) (g_list q)) as Hin
      by (apply list_elem_of_filter; split; [done|by apply pos_list_elem]).
    destruct (filter _ _); [by apply elem_of_nil in Hin|done].
  - intros [[p tv] E]. assert ((p, tv) ∈ filter (λ x, has_status activeShareTaskStatuses m x.2 = true) (g_list q)) as Hin
      by (destruct (filter _ _); [done|injection E as ->; left]).
    apply list_elem_of_filter in Hin as [Hs Hin]. apply pos_list_elem in Hin. by exists p, tv.
Qed.

Lemma active_put m q x : has_status activeShareTaskStatuses m x.2 = true → active m (g_put x q).
Proof. intros Hs. exists x.1, x.2. split; [|done]. cbn. by rewrite lookup_insert_eq. Qed.

Section pipeline.
Context {DB PDB Data : Type} `{Hkv : !KV DB, HKV : !KVLaws DB, Hpkv : !KV PDB, HPKV : !KVLaws PDB, HRC : !RetainCodec Data,
  Huu : !UUIDs, HUU : !UUIDLaws, HC : !Codecs, HJ : !JsonInts, HSP : !StoreProto, HEP : !EventProto}.

(** What is assumed about fresh identifiers. *)
Definition fresh_ok (u : string) : Prop := canonical u ∧ u ≠ uuid_Nil.

Lemma share_one io now m t (db db' : DB) a ga ok : Rep db a → SRep db ga → ts_ok now → fresh_ok m → fresh_ok (sh_newID io) →
  (st_ShareGroup t ≠ "" → client_ok (st_ShareGroup t)) → appendShareOne io now m t db = (db', ok) →
  Rep db' a ∧ ∃ ga', SRep db' ga' ∧ (∀ g, active m (group ga g) → active m (group ga' g)) ∧
    (ok = true → st_ShareGroup t ≠ "" → active m (group ga' (st_ShareGroup t))).
Proof.
  intros HR HS Hts [Hm Hmn] [Hid Hidn] Hgok. unfold appendShareOne.
  case_bool_decide as Eg; [intros [= <- <-]; split; [done|]; exists ga; by split_and!|].
  destruct (sh_query io); [intros [= <- <-]; split; [done|]; exists ga; by split_and!|]. specialize (Hgok Eg).
  rewrite (by_message_refines db ga _ m _ HS Hgok). destruct (g_by_message _ _ _) as [x|] eqn:Ex; cbn [fmap option_fmap option_map].
  { intros [= <- <-]. split; [done|]. exists ga. split_and!; [done|done|]. intros _ _. apply by_message_active. by rewrite Ex. }
  set (task := newPendingShareGroupTask _ _ _ _). assert (share_task_valid task) as Hv by (by split_and!).
  pose proof (share_append_refines db ga (sh_update io) now task HS (conj Hv Hts)) as Hs.
  pose proof (λ k, share_frame (OpShareAppend (sh_update io) now task) db ga k HS (conj Hv Hts)) as Hf.
  cbn [share_step g_step] in Hs, Hf. destruct (AppendShareGroupTask _ _ _ task db) as [db1 r]. cbn [fst] in Hf. destruct Hs as [HS' [= Er]].
  pose proof (Rep_frame _ _ _ HR Hf) as HR'. assert (has_status activeShareTaskStatuses m (share_value (initial_status task) task) = true) as Hact
    by (apply andb_true_iff; split; [apply orb_true_iff; right; apply bool_decide_eq_true; left|by apply bool_decide_eq_true]).
  intros E. assert (db' = db1 ∧ (ok = true → r = Ok tt)) as [-> Hok] by (destruct r as [[]|]; by injection E as <- <-).
  split; [done|]. eexists. split; [exact HS'|]. change (sg_ShareGroup task) with (st_ShareGroup t). split.
  - intros g Ha. rewrite commit_group. destruct (decide _) as [<-|]; [|done]. destruct (uo_outcome _); [by apply active_put|done|done].
  - intros Ho _. specialize (Hok Ho). subst r. rewrite commit_group, decide_True by done.
    destruct (uo_outcome _); [by apply active_put|done|done].
Qed.

Lemma share_all ios now m ts : ts_ok now → fresh_ok m → (∀ i, fresh_ok (sh_newID (ios i))) →
  Forall (λ t, st_ShareGroup t ≠ "" → client_ok (st_ShareGroup t)) ts → ∀ i (db db' : DB) a ga ok, Rep db a → SRep db ga →
  appendSharedDeliveryTasks ios i now m ts db = (db', ok) →
  Rep db' a ∧ ∃ ga', SRep db' ga' ∧ (∀ g, active m (group ga g) → active m (group ga' g)) ∧
    (ok = true → Forall (λ t, st_ShareGroup t ≠ "" → active m (group ga' (st_ShareGroup t))) ts).
Proof.
  intros Hts Hm Hids. induction ts as [|t ts IH]; intros Hg i db db' a ga ok HR HS; cbn [appendSharedDeliveryTasks].
  { intros [= <- <-]. split; [done|]. exists ga. split_and!; [done|done|constructor]. }
  apply Forall_cons in Hg as [Hgt Hg]. destruct (appendShareOne (ios i) now m t db) as [db1 ok1] eqn:E1.
  destruct (share_one (ios i) now m t db db1 a ga ok1 HR HS Hts Hm (Hids i) Hgt E1) as (HR1 & ga1 & HS1 & Hmono1 & Hact1).
  destruct (appendSharedDeliveryTasks ios (S i) now m ts db1) as [db2 ok2] eqn:E2.
  destruct (IH Hg (S i) db1 db2 a ga1 ok2 HR1 HS1 E2) as (HR2 & ga2 & HS2 & Hmono2 & Hact2). intros [= <- <-].
  split; [done|]. exists ga2. split_and!; [done|by intros g Ha; apply Hmono2, Hmono1|]. intros [Ho1 Ho2]%andb_true_iff.
  constructor; [intros Hne; by apply Hmono2, Hact1|by apply Hact2].
Qed.

Lemma plans_all ios now m plans : ts_ok now → fresh_ok m → (∀ c u, ap_newID (ios c) = Some u → canonical u ∧ u ≠ uuid_Nil) →
  Forall (λ p, cp_ClientID p ≠ "" → client_ok (cp_ClientID p)) plans → ∀ (db db' : DB) a ga ok, Rep db a → SRep db ga →
  appendClientDeliveryTasks ios now m plans db = (db', ok) →
  SRep db' ga ∧ ∃ a', Rep db' a' ∧ (∀ c, has_message m (queue a c) = true → has_message m (queue a' c) = true) ∧
    (ok = true → Forall (λ p, cp_ClientID p ≠ "" → has_message m (queue a' (cp_ClientID p)) = true) plans).
Proof.
  intros Hts [Hm _] Hids. induction plans as [|p plans IH]; intros Hc db db' a ga ok HR HS; cbn [appendClientDeliveryTasks].
  { intros [= <- <-]. split; [done|]. exists a. split_and!; [done|done|constructor]. }
  apply Forall_cons in Hc as [Hcp Hc]. case_bool_decide as Ec.
  { intros E. destruct (IH Hc db db' a ga ok HR HS E) as (HS' & a' & HR' & Hmono & Hall). split; [done|]. exists a'. split_and!; [done|done|].
    intros Ho. constructor; [done|by apply Hall]. }
  specialize (Hcp Ec).
  pose proof (append_client_SRep (ios (cp_ClientID p)) now (cp_ClientID p) m p "" uuid_Nil db ga HS) as HS1.
  destruct (append_client_queue (ios (cp_ClientID p)) now (cp_ClientID p) m p "" uuid_Nil db a HR Hcp Hts Hm uuid_Parse_Nil (Hids _))
    as (a1 & HR1 & Hmono1 & Hhas1).
  destruct (AppendClientTask _ _ _ _ _ _ _ db) as [db1 r]. cbn [fst snd] in *.
  destruct (appendClientDeliveryTasks ios now m plans db1) as [db2 ok2] eqn:E2.
  destruct (IH Hc db1 db2 a1 ga ok2 HR1 HS1 E2) as (HS2 & a2 & HR2 & Hmono2 & Hall). intros [= <- <-].
  split; [done|]. exists a2. split_and!; [done|by intros c Hh; apply Hmono2, Hmono1|]. destruct r as [x|]; [|done]. intros Ho.
  constructor; [intros _; by eapply Hmono2, Hhas1|by apply Hall].
Qed.

(** The message is in the payload store: it decodes to the publication. *)
Definition payload_stored (id sender : string) (publish : Publish) (now : Z) (p : PDB) : Prop :=
  ∃ raw, LoadMessagePayload id p = Ok (Some raw) ∧
    ser_Decode raw = Ok (mkPubMessage sender "" id (Some (stored_publish publish)) false now (publishExpiredNano now publish)).

(** Fresh identifiers are fresh and the time fits. *)
Definition publish_io_ok (io : PublishIO) : Prop :=
  ts_ok (pb_now io) ∧ pb_now io ≠ 0 ∧ (∀ u, sv_newID (pb_save io) = Some u → fresh_ok u) ∧
  (∀ i, fresh_ok (sh_newID (pb_share io i))) ∧ (∀ c u, ap_newID (pb_append io c) = Some u → canonical u ∧ u ≠ uuid_Nil).

(** Saving and queueing, once the recipients are known. *)
Lemma queued io m publish routes (p p' : PDB) (db db1 db2 : DB) a ga id : publish_io_ok io → wf_packet (PPublish publish) →
  canonical (pm_MessageID m) → Rep db a → SRep db ga →
  Forall (λ t, st_ShareGroup t ≠ "" → client_ok (st_ShareGroup t)) (rr_ShareGroupTasks routes) →
  Forall (λ pl, cp_ClientID pl ≠ "" → client_ok (cp_ClientID pl)) (rr_Plans routes) →
  SavePublishMessage (pb_save io) (pb_now io) (pm_SendClientID m) publish (pm_MessageID m) p = (p', Ok id) →
  appendSharedDeliveryTasks (pb_share io) 0 (pb_now io) id (rr_ShareGroupTasks routes) db = (db1, true) →
  appendClientDeliveryTasks (pb_append io) (pb_now io) id (rr_Plans routes) db1 = (db2, true) →
  payload_stored id (pm_SendClientID m) publish (pb_now io) p' ∧
  Forall (λ pl, cp_ClientID pl ≠ "" → deliveryTaskExistsInTxn db2 (cp_ClientID pl) id = Ok true) (rr_Plans routes) ∧
  Forall (λ t, st_ShareGroup t ≠ "" → ∃ x, queryShareTaskByMessageID db2 (st_ShareGroup t) id activeShareTaskStatuses = Ok (Some x)) (rr_ShareGroupTasks routes).
Proof.
  intros (Hts & Hnz & Hnew & Hsh & Hap) Hwf Hmid HR HS Hg Hc Hsave Eshare Eclient.
  pose proof (saved_message_read_back (pb_save io) (pb_now io) (pm_SendClientID m) publish (pm_MessageID m) p Hwf ltac:(unfold is_i64, ts_ok in *; lia) Hnz Hmid Hnew) as Hsv.
  rewrite Hsave in Hsv. destruct Hsv as (Hid & (raw & Hload & Hdec) & _).
  assert (fresh_ok id) as Hfresh.
  { destruct Hid as [->|[_ Hid]]; [|by apply Hnew]. split; [done|]. intros E. rewrite E in Hload. unfold LoadMessagePayload in Hload.
    by rewrite bool_decide_true in Hload. }
  destruct (share_all _ _ _ _ Hts Hfresh Hsh Hg 0 db db1 a ga true HR HS Eshare) as (HR1 & ga1 & HS1 & _ & Hact).
  destruct (plans_all _ _ _ _ Hts Hfresh Hap Hc db1 db2 a ga1 true HR1 HS1 Eclient) as (HS2 & a2 & HR2 & _ & Hhas).
  split; [by exists raw|]. specialize (Hact eq_refl). specialize (Hhas eq_refl). rewrite !Forall_forall in *. split.
  - intros pl Hpl Hne. rewrite (exists_in_queue db2 a2) by (done || by apply Hc || by destruct Hfresh). f_equal. by apply Hhas.
  - intros t Ht Hne. rewrite (by_message_refines db2 ga1 _ id _ HS2) by (by apply Hg).
    destruct (proj1 (by_message_active _ _) (Hact t Ht Hne)) as [x ->]. by eexists.
Qed.

(** Retaining touches the hash of retained messages only. *)
Lemma retained_same io publish c (b : Broker DB PDB Data) b' r : processRetainedInternalPublish io publish c b = (b', r) →
  ∃ h, b' = with_retained h b.
Proof.
  unfold processRetainedInternalPublish. assert (b = with_retained (bk_retained b) b) as Hb by (by destruct b).
  destruct (negb _); [intros [= <- _]; by eexists|]. destruct (bool_decide _).
  - destruct (DeleteRetainMessage _ _ _). intros [= <- _]. by eexists.
  - destruct (newRetainMessageFromPublish _ _ _); [|intros [= <- _]; by eexists]. destruct (PutRetainMessage _ _ _). intros [= <- _]. by eexists.
Qed.

(** Client identifiers and group names of the recipients fit the keys of the store, as MQTT
    strings do. *)
Definition names_ok (st : MemorySubCenter) (publish : Publish) (publisher : string) : Prop :=
  (∀ c o, c ≠ "" → takes st (pub_Topic publish) publisher c o → ordinary o → client_ok c) ∧
  (∀ c o g f, shares st publish publisher c o g f → client_ok g).

(** C3. A message the broker accepts reaches everyone's queue.  When routing a publication (QoS 1
    or 2, or QoS 0 with storing switched on, to a valid topic that is not under $share) reports
    success, there is a message identifier such that every named client with an ordinary
    subscription that covers the topic, wherever in the center it is stored and whatever the
    client's state, has a task for it in its delivery queue; every share group with a member
    whose shared subscription covers the topic has an active task for it; and the payload store
    holds the message: its bytes decode to the publication with its topic, payload, QoS and
    properties, its sender, the time of saving and the moment it expires.  A subscription of the
    publisher itself that has No Local does not count in either case ([takes], [shares]).  The
    packet is one the codec accepts, the stores are in a state their operations lead to, and the
    time, the client and group names and the fresh identifiers fit the keys of the stores. *)
Theorem accepted_publish_queued ops (b b' : Broker DB PDB Data) io m publish calls a ga :
  bk_subs b = reachable ops → pm_Publish m = Some publish →
  validatePublishTopic (pub_Topic publish) = Ok tt → head (SplitTopicLevels (pub_Topic publish)) ≠ Some "$share" →
  wf_packet (PPublish publish) → (pub_QoS publish ≠ 0 ∨ bk_storeQoS0 b = true) → canonical (pm_MessageID m) →
  publish_io_ok io → names_ok (bk_subs b) publish (pm_SendClientID m) → Rep (bk_meta b) a → SRep (bk_meta b) ga →
  routePublishClientMode io m b = (b', Ok calls) →
  ∃ id,
    (∀ c o, c ≠ "" → takes (bk_subs b) (pub_Topic publish) (pm_SendClientID m) c o → ordinary o →
       deliveryTaskExistsInTxn (bk_meta b') c id = Ok true ∧ payload_stored id (pm_SendClientID m) publish (pb_now io) (bk_payload b')) ∧
    (∀ c o g f, shares (bk_subs b) publish (pm_SendClientID m) c o g f →
       (∃ t, queryShareTaskByMessageID (bk_meta b') g id activeShareTaskStatuses = Ok (Some t)) ∧
       payload_stored id (pm_SendClientID m) publish (pb_now io) (bk_payload b')).
Proof.
  intros Hst Hp Hv Hh Hwf Hq Hmid Hio [Hn1 Hn2] HR HS. unfold routePublishClientMode. rewrite Hp.
  destruct (processRetainedInternalPublish io publish (pm_SendClientID m) b) as [b1 [[]|]] eqn:Er; [|done].
  apply retained_same in Er as [h ->]. cbn [with_retained bk_subs bk_storeQoS0 bk_payload bk_meta].
  pose proof (reachable_ok ops) as Hok. rewrite <-Hst in Hok.
  pose proof (plans_clients (bk_subs b) publish (pm_SendClientID m) Hok Hv Hh) as Hplans.
  pose proof (share_tasks_groups (bk_subs b) publish (pm_SendClientID m) Hok Hv Hh) as Hgroups.
  set (routes := Route (bk_subs b) publish (pm_SendClientID m)) in *.
  destruct (hasDeliveryRoutes routes) eqn:Eroutes; cbn [negb].
  2: { intros [= <- _]. exists "". apply orb_false_iff in Eroutes as [E1 E2]. apply bool_decide_eq_false in E1, E2.
    assert (rr_Plans routes = []) as E1' by (destruct (rr_Plans routes); [done|cbn in E1; lia]).
    assert (rr_ShareGroupTasks routes = []) as E2' by (destruct (rr_ShareGroupTasks routes); [done|cbn in E2; lia]).
    rewrite E1' in Hplans. rewrite E2' in Hgroups. split; intros c o.
    - intros Hc Ht Ho. exfalso. apply (not_elem_of_nil c), Hplans. split; [done|by exists o].
    - intros g f Hs. exfalso. destruct (proj2 (Hgroups g f)) as (t & Ht & _); [by exists c, o|]. by apply elem_of_nil in Ht. }
  replace ((pub_QoS publish =? 0) && negb (bk_storeQoS0 b)) with false by (destruct Hq as [Hq| ->]; [by rewrite (proj2 (Z.eqb_neq _ _) Hq)|by rewrite andb_false_r]).
  destruct (SavePublishMessage _ _ _ _ _ (bk_payload b)) as [p' [id|]] eqn:Es; [|done]. cbn [with_payload bk_meta].
  match goal with |- context [appendSharedDeliveryTasks ?x1 ?x2 ?x3 ?x4 ?x5 ?x6] => destruct (appendSharedDeliveryTasks x1 x2 x3 x4 x5 x6) as [db1 []] eqn:E1; [|done] end.
  match goal with |- context [appendClientDeliveryTasks ?x1 ?x2 ?x3 ?x4 ?x5] => destruct (appendClientDeliveryTasks x1 x2 x3 x4 x5) as [db2 []] eqn:E2; [|done] end. intros [= <- _]. cbn [with_meta bk_meta bk_payload].
  exists id. destruct (queued io m publish routes (bk_payload b) p' (bk_meta b) db1 db2 a ga id Hio Hwf Hmid HR HS) as (Hpay & Hc & Hg); [| |done..|].
  - apply Forall_forall. intros t Ht _. destruct (proj1 (Hgroups (st_ShareGroup t) (st_TopicFilter t))) as (c & o & Hs); [by exists t|]. by eapply Hn2.
  - apply Forall_forall. intros pl Hpl Hne. destruct (proj1 (Hplans (cp_ClientID pl))) as [_ (o & Ht & Ho)]; [by apply list_elem_of_fmap_2|]. by eapply Hn1.
  - rewrite Forall_forall in Hc. rewrite Forall_forall in Hg. split.
    + intros c o Hne Ht Ho. split; [|done]. assert (c ∈ cp_ClientID <$> rr_Plans routes) as (pl & -> & Hpl)%list_elem_of_fmap
        by (apply Hplans; split; [done|by exists o]). by apply Hc.
    + intros c o g f Hs. split; [|done]. destruct (proj2 (Hgroups g f)) as (t & Ht & <- & _); [by exists c, o|]. apply Hg; [done|].
      by destruct (Hn2 _ _ _ _ Hs).
Qed.

(** With stores that commit, queueing succeeds. *)
Lemma share_one_ok io now m t (db : DB) ga : SRep db ga → ts_ok now → fresh_ok m → fresh_ok (sh_newID io) → client_ok (st_ShareGroup t) →
  sh_query io = false → sh_notify io = true → uo_outcome (sh_update io) = TxnCommit → (appendShareOne io now m t db).2 = true.
Proof.
  intros HS Hts [Hm Hmn] [Hid Hidn] Hg Hq Hn Ho. unfold appendShareOne. rewrite bool_decide_false, Hq by (by destruct Hg).
  rewrite (by_message_refines db ga _ m _ HS Hg). destruct (g_by_message _ _ _); [done|]. cbn [fmap option_fmap option_map].
  set (task := newPendingShareGroupTask _ _ _ _). assert (share_task_valid task) as Hv by (by split_and!).
  pose proof (share_append_refines db ga (sh_update io) now task HS (conj Hv Hts)) as Hs. cbn [share_step g_step] in Hs.
  destruct (AppendShareGroupTask _ _ _ task db) as [db1 r]. destruct Hs as [_ [= ->]]. by rewrite Ho.
Qed.


Definition publish_commits (io : PublishIO) : Prop :=
  (∀ i, sh_query (pb_share io i) = false ∧ sh_notify (pb_share io i) = true ∧ uo_outcome (sh_update (pb_share io i)) = TxnCommit) ∧
  (∀ c, is_Some (ap_newID (pb_append io c)) ∧ final_outcome 3 (uo_outcomes (ap_update (pb_append io c))) = TxnCommit).

Lemma share_all_ok io m ts : publish_io_ok io → publish_commits io → fresh_ok m → Forall (λ t, client_ok (st_ShareGroup t)) ts →
  ∀ i (db : DB) a ga, Rep db a → SRep db ga → (appendSharedDeliveryTasks (pb_share io) i (pb_now io) m ts db).2 = true.
Proof.
  intros (Hts & _ & _ & Hsh & _) [Hc _] Hm. induction ts as [|t ts IH]; intros Hg i db a ga HR HS; [done|]. apply Forall_cons in Hg as [Hgt Hg].
  cbn [appendSharedDeliveryTasks]. destruct (Hc i) as (? & ? & ?).
  pose proof (share_one_ok (pb_share io i) (pb_now io) m t db ga HS Hts Hm (Hsh i) Hgt) as Hok.
  destruct (appendShareOne _ _ _ t db) as [db1 ok] eqn:E1. destruct (share_one _ _ _ _ _ _ _ _ _ HR HS Hts Hm (Hsh i) (λ _, Hgt) E1) as (HR1 & ga1 & HS1 & _).
  specialize (IH Hg (S i) db1 a ga1 HR1 HS1). destruct (appendSharedDeliveryTasks _ _ _ _ ts db1). cbn in *. subst. by rewrite Hok.
Qed.

Lemma plans_all_ok io m plans : publish_io_ok io → publish_commits io → fresh_ok m → Forall (λ p, client_ok (cp_ClientID p)) plans →
  ∀ (db : DB) a, Rep db a → (appendClientDeliveryTasks (pb_append io) (pb_now io) m plans db).2 = true.
Proof.
  intros (Hts & _ & _ & _ & Hap) [_ Hc] [Hm _]. induction plans as [|p plans IH]; intros Hcl db a HR; [done|]. apply Forall_cons in Hcl as [Hcp Hcl].
  cbn [appendClientDeliveryTasks]. rewrite bool_decide_false by (by destruct Hcp). destruct (Hc (cp_ClientID p)) as [[u Hu] Ho]. destruct (Hap _ _ Hu).
  destruct (append_client_ok (pb_append io (cp_ClientID p)) (pb_now io) (cp_ClientID p) m p "" uuid_Nil u db a) as [x Hx]; try done; [apply uuid_Parse_Nil|].
  destruct (append_client_queue (pb_append io (cp_ClientID p)) (pb_now io) (cp_ClientID p) m p "" uuid_Nil db a HR Hcp Hts Hm uuid_Parse_Nil (Hap _)) as (a1 & HR1 & _).
  destruct (AppendClientTask _ _ _ _ _ _ _ db) as [db1 r]. cbn [fst snd] in *. subst r. specialize (IH Hcl db1 a1 HR1).
  by destruct (appendClientDeliveryTasks _ _ _ plans db1).
Qed.
End pipeline.

(** ** Two filters under one share name *)

Section two_filters.
Context {DB : Type} `{Hkv : !KV DB, HKV : !KVLaws DB, Huu : !UUIDs, HUU : !UUIDLaws, HC : !Codecs, HJ : !JsonInts}.

Lemma first_appended io now m t (db db' : DB) ga : SRep db ga → ts_ok now → fresh_ok m → fresh_ok (sh_newID io) → client_ok (st_ShareGroup t) →
  ¬ active m (group ga (st_ShareGroup t)) → appendShareOne io now m t db = (db', true) →
  ∃ ga', SRep db' ga' ∧ group ga' (st_ShareGroup t) =
    g_put ((now, sh_newID io), share_value TaskStatusPending (newPendingShareGroupTask (sh_newID io) now m t)) (group ga (st_ShareGroup t)).
Proof.
  intros HS Hts [Hm Hmn] [Hid Hidn] Hg Hno. unfold appendShareOne. rewrite bool_decide_false by (by destruct Hg).
  destruct (sh_query io); [done|]. rewrite (by_message_refines db ga _ m _ HS Hg).
  destruct (g_by_message _ _ _) as [x|] eqn:Ex; [destruct Hno; apply by_message_active; by rewrite Ex|]. cbn [fmap option_fmap option_map].
  set (task := newPendingShareGroupTask _ _ _ _). assert (share_task_valid task) as Hv by (by split_and!).
  pose proof (share_append_refines db ga (sh_update io) now task HS (conj Hv Hts)) as Hs. cbn [share_step g_step] in Hs.
  destruct (AppendShareGroupTask _ _ _ task db) as [db1 r]. destruct Hs as [HS' [= Er]]. destruct r; [|done]. intros [= <- _].
  eexists. split; [exact HS'|]. change (sg_ShareGroup task) with (st_ShareGroup t). rewrite commit_group, decide_True by done.
  destruct (uo_outcome (sh_update io)); done.
Qed.

(** C40. A share name used with two filters.  Two shared subscriptions are different when their
    filters differ, and the router makes one task for each share name and filter.  For a new
    message that matches both, queueing the two tasks reports success, but the group's queue
    holds a task for the first filter only: looking up the second finds the first by message
    and share name, so the members of the second subscription never get the message. *)
Theorem second_filter_of_group_dropped ios i now m t1 t2 (db db' : DB) ga : SRep db ga →
  client_ok (st_ShareGroup t1) → st_ShareGroup t2 = st_ShareGroup t1 → st_TopicFilter t2 ≠ st_TopicFilter t1 →
  ts_ok now → fresh_ok m → (∀ j, fresh_ok (sh_newID (ios j))) →
  queryShareTaskByMessageID db (st_ShareGroup t1) m [] = Ok None →
  appendSharedDeliveryTasks ios i now m [t1; t2] db = (db', true) →
  (∃ t, queryShareTaskByMessageID db' (st_ShareGroup t1) m activeShareTaskStatuses = Ok (Some t) ∧ sg_TopicFilter t = st_TopicFilter t1) ∧
  ∀ limit, ∃ l, readShareGroupTasks db' (st_ShareGroup t1) zeroTime uuid_Nil limit = Ok l ∧
    Forall (λ t, sg_MessageID t = m → sg_TopicFilter t = st_TopicFilter t1) l.
Proof.
  intros HS Hg Hg2 Hf Hts Hm Hids Hnone. rewrite (by_message_refines db ga _ m _ HS Hg) in Hnone.
  assert (∀ p tv, g_tasks (group ga (st_ShareGroup t1)) !! p = Some tv → stv_MessageID tv ≠ m) as Hnew.
  { intros p tv Hp E. unfold g_by_message in Hnone. destruct (filter _ _) eqn:El; [|done].
    assert ((p, tv) ∈ filter (λ x, has_status [] m x.2 = true) (g_list (group ga (st_ShareGroup t1)))) as Hin
      by (apply list_elem_of_filter; split; [apply andb_true_iff; split; [done|by apply bool_decide_eq_true]|by apply pos_list_elem]).
    rewrite El in Hin. by apply elem_of_nil in Hin. }
  cbn [appendSharedDeliveryTasks]. destruct (appendShareOne (ios i) now m t1 db) as [db1 ok1] eqn:E1.
  destruct (appendShareOne (ios (S i)) now m t2 db1) as [db2 ok2] eqn:E2. intros [= <- [-> [-> _]%andb_true_iff]%andb_true_iff].
  destruct (first_appended (ios i) now m t1 db db1 ga HS Hts Hm (Hids i) Hg) as (ga1 & HS1 & Hq); [|done|].
  { intros (p & tv & Hp & [_ Hmsg%bool_decide_eq_true]%andb_true_iff). by apply (Hnew p tv). }
  set (tv := share_value _ _) in Hq.
  assert (has_status activeShareTaskStatuses m tv = true) as Hact
    by (apply andb_true_iff; split; [apply orb_true_iff; right; apply bool_decide_eq_true; left|by apply bool_decide_eq_true]).
  assert (∀ p v, g_tasks (group ga1 (st_ShareGroup t1)) !! p = Some v → stv_MessageID v = m → stv_TopicFilter v = st_TopicFilter t1) as Honly.
  { intros p v Hp Hv. rewrite Hq in Hp. cbn in Hp. apply lookup_insert_Some in Hp as [[_ <-]|[_ Hp]]; [done|]. by destruct (Hnew _ _ Hp). }
  assert (is_Some (g_by_message (group ga1 (st_ShareGroup t1)) m activeShareTaskStatuses)) as [x Hx]
    by (apply by_message_active; rewrite Hq; by apply active_put).
  assert (db2 = db1) as ->.
  { unfold appendShareOne in E2. rewrite Hg2, bool_decide_false in E2 by (by destruct Hg). destruct (sh_query (ios (S i))); [by injection E2 as <-|].
    rewrite (by_message_refines db1 ga1 _ m _ HS1 Hg), Hx in E2. by injection E2 as <-. }
  split.
  - rewrite (by_message_refines db1 ga1 _ m _ HS1 Hg), Hx. eexists. split; [done|]. unfold g_by_message in Hx.
    assert (x ∈ filter (λ y, has_status activeShareTaskStatuses m y.2 = true) (g_list (group ga1 (st_ShareGroup t1)))) as Hin
      by (destruct (filter _ _); [done|injection Hx as ->; left]).
    apply list_elem_of_filter in Hin as [[_ Hmsg%bool_decide_eq_true]%andb_true_iff Hin]. destruct x as [p v]. apply pos_list_elem in Hin. by eapply Honly.
  - intros limit. pose proof (pending_refines db1 ga1 (st_ShareGroup t1) (zeroTime, uuid_Nil) limit HS1 Hg (cursor_ok_start 0 _ (or_introl eq_refl))) as Hr.
    eexists. split; [exact Hr|]. apply Forall_take, Forall_fmap, Forall_forall. intros [p v] [_ Hin]%list_elem_of_filter. apply pos_list_elem in Hin.
    exact (Honly p v Hin).
Qed.
End two_filters.

(** ** Wills *)

Lemma merge_same (l : list UnfinishedMessage) : mergeOfflineUnfinishedMessages l (Some <$> l) = l.
Proof.
  unfold mergeOfflineUnfinishedMessages. assert (not_nil (Some <$> l) = l) as Hnn by (unfold not_nil; induction l as [|x l IH]; cbn; [done|by rewrite IH]).
  assert (∀ x, x ∈ l → um_IsOutgoing x = false → um_PacketID x ∈ offlineIncoming (Some <$> l)) as Hin.
  { intros x Hx Ho. apply offlineIncoming_spec. rewrite Hnn, lookup_incoming_map.
    assert (x ∈ filter (λ m, um_IsOutgoing m = false ∧ um_PacketID m = um_PacketID x) l) as H by (by apply list_elem_of_filter).
    destruct (filter _ l); [by apply elem_of_nil in H|done]. }
  rewrite Hnn. destruct (filter _ l) as [|x l'] eqn:E; [done|]. exfalso.
  assert (x ∈ filter (λ msg, um_IsOutgoing msg = false ∧ um_PacketID msg ∉ offlineIncoming (Some <$> l)) l) as H by (rewrite E; left).
  apply list_elem_of_filter in H as [[Ho Hid] Hx]. by apply Hid, Hin.
Qed.

Section will.
Context {DB PDB Data : Type} `{Hkv : !KV DB, Hpkv : !KV PDB, HRC : !RetainCodec Data, Huu : !UUIDs, HC : !Codecs, HJ : !JsonInts, HSP : !StoreProto, HEP : !EventProto}.

Lemma route_sessions io m (b b' : Broker DB PDB Data) r : routePublishClientMode io m b = (b', r) → bk_sessions b' = bk_sessions b.
Proof.
  unfold routePublishClientMode. destruct (pm_Publish m) as [publish|]; [|by intros [= <- _]].
  destruct (processRetainedInternalPublish _ _ _ b) as [b1 [[]|]] eqn:Er; apply retained_same in Er as [h ->]; [|by intros [= <- _]].
  destruct (negb _); [by intros [= <- _]|]. destruct (_ && _); [by intros [= <- _]|].
  destruct (SavePublishMessage _ _ _ _ _ _) as [p' [id|]]; [|by intros [= <- _]].
  match goal with |- context [appendSharedDeliveryTasks ?x1 ?x2 ?x3 ?x4 ?x5 ?x6] => destruct (appendSharedDeliveryTasks x1 x2 x3 x4 x5 x6) as [db1 []]; [|by intros [= <- _]] end.
  match goal with |- context [appendClientDeliveryTasks ?x1 ?x2 ?x3 ?x4 ?x5] => destruct (appendClientDeliveryTasks x1 x2 x3 x4 x5) as [db2 []]; by intros [= <- _] end.
Qed.

(** Publishing a will changes more of the session than its will.  When the will of a client
    whose session is still there has been routed, the session has no will any more, its
    unfinished messages are kept, but its outgoing replay cursor is gone and it expires a full
    interval after the publication: a session that was to expire at [t0] plus the interval,
    [t0] being when the connection ended, now lives longer by the delay of the will. *)
Theorem published_will_restarts_expiry plugin io wio w publish publish' c s (b b1 : Broker DB PDB Data) calls :
  pm_Publish w = Some publish → plugin publish = Some publish' → pm_SendClientID w = c → c ≠ "" →
  routePublishClientMode io (mkPubMessage c (pm_OwnerToken w) (pm_MessageID w) (Some publish') (pm_PubReceived w) (pm_CreatedTime w) (pm_ExpiredTime w)) b
    = (b1, Ok calls) →
  c_Sessions (bk_sessions b) !! c = Some s → sessionExpired (Some s) (wi_clock wio) = false → is_Some (ss_WillMessage s) →
  ss_SessionExpiryInterval s ≠ 0 → ownerTokenMatches (bk_sessions b) c (pm_OwnerToken w) = true →
  wi_getFail wio = false → wi_saveFail wio = false → 0 < wi_now wio →
  ∃ s', c_Sessions (bk_sessions (processWillMessage plugin io wio w b).1) !! c = Some s' ∧
    ss_WillMessage s' = None ∧ ss_UnfinishedMessages s' = ss_UnfinishedMessages s ∧ ss_SessionExpiryInterval s' = ss_SessionExpiryInterval s ∧
    ss_OutgoingReplayCursor s' = None ∧
    ∀ t0, ss_ExpireAtUnixNano s = sessionExpiryDeadlineUnixNano (ss_SessionExpiryInterval s) t0 →
      0 < ss_SessionExpiryInterval s < neverExpireSessionInterval → 0 ≤ t0 → t0 < 2 ^ 62 → wi_now wio < 2 ^ 62 →
      ss_ExpireAtUnixNano s' = ss_ExpireAtUnixNano s + (wi_now wio - t0).
Proof.
  intros Hp Hpl Hc Hne Hr Hs Hexp [wm Hw] Hi Htok Hg Hsv Hnow. pose proof (route_sessions _ _ _ _ _ Hr) as Hses.
  unfold processWillMessage. rewrite Hp, Hpl, Hc, Hr. unfold clearPublishedWillFromSession. cbn [pm_SendClientID pm_OwnerToken].
  rewrite bool_decide_false, Hg, Hses by done. unfold GetSession. rewrite Hs. change (requestNowUnixNano _ 0) with (wi_clock wio). rewrite Hexp.
  cbn [fst]. rewrite Hw, Hsv. cbn [fst with_sessions bk_sessions]. unfold saveOfflineState.
  cbn [sor_ClientID sor_OwnerToken sor_SessionExpiryInterval sor_ClearWill sor_UnfinishedMessages sor_NowUnixNano sor_OutgoingReplayCursor].
  rewrite bool_decide_false by done. unfold ownerTokenMatches in Htok.
  match goal with |- context [if ?x then (bk_sessions b, Ok tt) else _] => assert (x = false) as -> end.
  { destruct (bool_decide (pm_OwnerToken w = "")); [done|]. cbn [negb]. destruct (c_Owners (bk_sessions b) !! c); [by rewrite Htok|done]. }
  rewrite (proj2 (Z.eqb_neq _ _) Hi), Hs, merge_same. unfold requestNowUnixNano. replace (0 <? wi_now wio) with true by lia.
  eexists (mkSession c None (ss_UnfinishedMessages s) (ss_SessionExpiryInterval s) _ None). split_and!; [| done..|].
  - destruct (c_Owners _ !! c); cbn; by rewrite lookup_insert_eq.
  - intros t0 -> [Hi0 Hin] Ht0 Ht1 Ht2. cbn [ss_ExpireAtUnixNano]. unfold neverExpireSessionInterval in Hin.
    unfold sessionExpiryDeadlineUnixNano, neverExpireSessionInterval. zcase. rewrite !(wrap_i64_id (ss_SessionExpiryInterval s * _)) by lia.
    rewrite !wrap_i64_id by lia. lia.
Qed.
End will.

(** ** Direct delivery of QoS 0 *)

Definition online (core : Core) (c : string) (n : Z) : Prop :=
  ∃ owner, c_Owners core !! c = Some owner ∧ ow_NodeID owner = n ∧ n ≠ 0 ∧ ow_Online owner = true.

Lemma online_fun core c n n' : online core c n → online core c n' → n = n'.
Proof. intros (o & Ho & <- & _) (o' & Ho' & <- & _). congruence. Qed.

Lemma owners_items core ids item : item ∈ GetSessionOwners core ids ↔
  ∃ c, c ∈ ids ∧ c ≠ "" ∧ item = mkOwnerItem c (c_Owners core !! c) (bool_decide (is_Some (c_Owners core !! c))).
Proof.
  unfold GetSessionOwners. destruct (bool_decide (length ids = 0%nat)) eqn:E.
  { apply bool_decide_eq_true, nil_length_inv in E as ->. split; [by intros ?%elem_of_nil|]. by intros (c & ?%elem_of_nil & _). }
  clear E. match goal with |- context [foldl ?f _ _] => set (step := f) end.
  set (mk := λ c, mkOwnerItem c (c_Owners core !! c) (bool_decide (is_Some (c_Owners core !! c)))).
  assert (∀ seen items, (∀ c, c ∈ seen → mk c ∈ items) →
    item ∈ (foldl step (seen, items) ids).2 ↔ item ∈ items ∨ ∃ c, c ∈ ids ∧ c ≠ "" ∧ item = mk c) as H.
  { induction ids as [|c ids IH]; intros seen items Hseen; cbn [foldl].
    { split; [by left|]. intros [?|(c & ?%elem_of_nil & _)]; done. }
    unfold step at 2. case_bool_decide as Ec; [rewrite IH by done|case_bool_decide as Es; [rewrite IH by done|rewrite IH]].
    - split; (intros [?|(c' & Hc' & ? & ?)]; [by left|right]); exists c'; split_and!; try done; [by right|]. by apply elem_of_cons in Hc' as [->|?].
    - split; [intros [?|(c' & Hc' & ? & ?)]; [by left|right; exists c'; split_and!; [by right|done|done]]|].
      intros [?|(c' & [->|Hc']%elem_of_cons & ? & ->)]; [by left|left; by apply Hseen|right; by exists c'].
    - fold (mk c). split.
      + intros [[?|Hm%list_elem_of_singleton]%elem_of_app|(c' & Hc' & ? & ?)]; [by left|right; exists c; split_and!; [left|done|done]|right; exists c'; split_and!; [by right|done|done]].
      + intros [?|(c' & [->|Hc']%elem_of_cons & ? & ->)]; [left; apply elem_of_app; by left|left; apply elem_of_app; right; by apply list_elem_of_singleton|right; by exists c'].
    - fold (mk c). intros c' [->%elem_of_singleton|Hc']%elem_of_union; apply elem_of_app; [right; by apply list_elem_of_singleton|left; by apply Hseen]. }
  rewrite H by set_solver. split; [intros [?%elem_of_nil|?]; done|by right].
Qed.

(** What the cache knows is right. *)
Definition cache_ok (core : Core) (cache : ownerNodeLookupCache) : Prop :=
  (∀ c n, oc_nodeByClient cache !! c = Some n → c ∈ oc_loaded cache) ∧
  (∀ c n, c ∈ oc_loaded cache → oc_nodeByClient cache !! c = Some n ↔ online core c n).

Lemma cache_item core cache c : cache_ok core cache → c ≠ "" →
  let item := mkOwnerItem c (c_Owners core !! c) (bool_decide (is_Some (c_Owners core !! c))) in
  cache_ok core (cacheItem cache item) ∧ oc_loaded (cacheItem cache item) = {[c]} ∪ oc_loaded cache.
Proof.
  intros [H1 H2] Hc. unfold cacheItem. cbn [roi_ClientID roi_Owner roi_Exist]. rewrite bool_decide_false by done.
  assert (∀ m : gmap string Z, (∀ n, m !! c = Some n ↔ online core c n) → (∀ c', c' ≠ c → m !! c' = oc_nodeByClient cache !! c') →
    cache_ok core (mkOwnerCache ({[c]} ∪ oc_loaded cache) m)) as Hok.
  { intros m Hm Ho. split; cbn [oc_loaded oc_nodeByClient].
    - intros c' n Hn. destruct (decide (c' = c)) as [->|Hne]; [set_solver|]. rewrite Ho in Hn by done. apply H1 in Hn. set_solver.
    - intros c' n Hin. destruct (decide (c' = c)) as [->|Hne]; [done|]. rewrite Ho by done. apply H2. set_solver. }
  destruct (c_Owners core !! c) as [o|] eqn:Eo.
  - cbn [negb]. rewrite bool_decide_true by done. cbn [negb orb].
    destruct ((ow_NodeID o =? 0) || negb (ow_Online o)) eqn:Eoff; (split; [apply Hok|done]).
    + intros n. rewrite lookup_delete_eq. split; [done|]. intros (o' & Ho' & <- & Hn & Hon). assert (o' = o) as -> by congruence.
      rewrite Hon in Eoff. apply orb_true_iff in Eoff as [E|E]; [lia|done].
    + intros c' Hne. by rewrite lookup_delete_ne.
    + intros n. rewrite lookup_insert_eq. apply orb_false_iff in Eoff as [E1 E2%negb_false_iff]. split.
      * intros [= <-]. exists o. split_and!; [done|done|lia|done].
      * intros (o' & Ho' & <- & _). f_equal. congruence.
    + intros c' Hne. by rewrite lookup_insert_ne.
  - split; [apply Hok|done].
    + intros n. rewrite lookup_delete_eq. split; [done|]. intros (o' & Ho' & _). congruence.
    + intros c' Hne. by rewrite lookup_delete_ne.
Qed.

Lemma cache_items core items : (∀ item, item ∈ items → ∃ c, c ≠ "" ∧ item = mkOwnerItem c (c_Owners core !! c) (bool_decide (is_Some (c_Owners core !! c)))) →
  ∀ cache, cache_ok core cache → cache_ok core (foldl cacheItem cache items) ∧
    ∀ c, c ∈ oc_loaded (foldl cacheItem cache items) ↔ c ∈ oc_loaded cache ∨ c ∈ roi_ClientID <$> items.
Proof.
  induction items as [|item items IH]; intros Hi cache Hok; cbn [foldl fmap list_fmap]; [split; [done|]; intros c; set_solver|].
  destruct (Hi item) as (c & Hc & ->); [left|]. destruct (cache_item core cache c Hok Hc) as [Hok1 Hl].
  destruct (IH (λ i H, Hi i (list_elem_of_further _ _ _ H)) _ Hok1) as [Hok2 Hl2]. split; [done|]. intros c'. rewrite Hl2, Hl. cbn [roi_ClientID]. set_solver.
Qed.

Lemma cache_missing_loaded cache ids : (∀ c, c ∈ ids → c ∈ oc_loaded cache) → foldl cacheMissing cache ids = cache.
Proof.
  induction ids as [|c ids IH]; intros H; [done|]. cbn [foldl]. unfold cacheMissing at 2. rewrite bool_decide_true by (apply H; left).
  apply IH. intros c' Hc'. apply H. by right.
Qed.

Lemma collectUnique_elem ids c : ∀ seen, c ∈ collectUnique seen ids ↔ c ∈ ids ∧ c ≠ "" ∧ c ∉ seen.
Proof.
  induction ids as [|x ids IH]; intros seen; cbn [collectUnique]; [set_solver|].
  destruct (decide (x = "")) as [->|Hx]; [rewrite bool_decide_true by done; cbn [orb]; rewrite IH; set_solver|].
  rewrite (bool_decide_false (x = "")) by done. cbn [orb]. case_bool_decide as Hs; [rewrite IH; set_solver|].
  rewrite elem_of_cons, IH. destruct (decide (c = x)) as [->|]; set_solver.
Qed.
Lemma collectUnique_NoDup ids : ∀ seen, NoDup (collectUnique seen ids).
Proof.
  induction ids as [|x ids IH]; intros seen; cbn [collectUnique]; [constructor|]. destruct (_ || _); [apply IH|]. constructor; [|apply IH].
  rewrite collectUnique_elem. set_solver.
Qed.

Lemma keyed_NoDup (m : gmap string Z) (l : list string) : NoDup l → NoDup (omap (λ c, (λ nodeID, (c, nodeID)) <$> m !! c) l).*1.
Proof.
  induction 1 as [|x l Hx _ IH]; [constructor|]. cbn. destruct (m !! x); cbn; [|exact IH]. constructor; [|exact IH].
  intros (y & -> & Hy)%list_elem_of_fmap. apply list_elem_of_omap in Hy as (z' & Hz & (n' & _ & ->)%fmap_Some). done.
Qed.

(** The session center answers a lookup with the owners it has, or the lookup fails. *)
Definition looks_up (core : Core) (lookup : list string → result string (list ReadSessionOwnerItem)) : Prop :=
  ∀ ids, lookup ids = Ok (GetSessionOwners core ids) ∨ ∃ e, lookup ids = Err e.
Definition answers (lookup : list string → result string (list ReadSessionOwnerItem)) : Prop := ∀ ids e, lookup ids ≠ Err e.

(** The owners of the clients that were not known are loaded, if the lookup is answered. *)
Lemma load_owners core ids cache : cache_ok core cache →
  let cache' := foldl cacheMissing (foldl cacheItem cache (GetSessionOwners core ids)) ids in
  (∀ c, c ∈ ids → c ≠ "") → cache_ok core cache' ∧ ∀ c, c ∈ ids ∨ c ∈ oc_loaded cache → c ∈ oc_loaded cache'.
Proof.
  intros Hok cache' Hids. unfold cache'.
  destruct (cache_items core (GetSessionOwners core ids)) with (cache := cache) as [Hok1 Hl1]; [|done|].
  { intros item (c & _ & Hc & ->)%owners_items. by exists c. }
  assert (∀ c, c ∈ ids ∨ c ∈ oc_loaded cache → c ∈ oc_loaded (foldl cacheItem cache (GetSessionOwners core ids))) as Hall.
  { intros c [Hc|Hc]; apply Hl1; [right|by left]. apply list_elem_of_fmap.
    exists (mkOwnerItem c (c_Owners core !! c) (bool_decide (is_Some (c_Owners core !! c)))). split; [done|].
    apply owners_items. exists c. by split_and!; [|apply Hids|]. }
  rewrite cache_missing_loaded by (intros c Hc; apply Hall; by left). by split.
Qed.

(** Looking up owners gives only clients that are online, at their node, whatever the cache knew;
    and all of them if the lookup is answered. *)
Lemma resolve_exact core lookup ids cache : looks_up core lookup → cache_ok core cache →
  let r := resolveOnlineOwnerNodes lookup ids cache in
  cache_ok core r.2 ∧ (∀ c n, r.1 !! c = Some n → c ∈ ids ∧ c ≠ "" ∧ online core c n) ∧
  (answers lookup → ∀ c n, c ∈ ids → c ≠ "" → online core c n → r.1 !! c = Some n).
Proof.
  intros Hlook Hok. cbv zeta. unfold resolveOnlineOwnerNodes. cbn [fst snd]. set (u := collectUniqueClientIDs ids). set (pending := filter _ u).
  assert (∀ c, c ∈ u ↔ c ∈ ids ∧ c ≠ "") as Hu by (intros c; unfold u, collectUniqueClientIDs; rewrite collectUnique_elem; set_solver).
  assert (∀ c, c ∈ pending ↔ c ∈ u ∧ c ∉ oc_loaded cache) as Hp by (intros c; unfold pending; rewrite list_elem_of_filter; tauto).
  match goal with |- cache_ok core ?c ∧ _ => set (cache' := c) end.
  assert (cache_ok core cache' ∧ (answers lookup → ∀ c, c ∈ u → c ∈ oc_loaded cache')) as [Hok' Hl'].
  { unfold cache'. case_bool_decide as E.
    { split; [done|]. intros _ c Hc. destruct (decide (c ∈ oc_loaded cache)) as [|Hn]; [done|].
      assert (c ∈ pending) as Hin by (by apply Hp). apply nil_length_inv in E. rewrite E in Hin. by apply elem_of_nil in Hin. }
    destruct (Hlook pending) as [->|[e He]]; [|rewrite He; split; [done|intros Ha; by destruct (Ha pending e)]].
    destruct (load_owners core pending cache Hok) as [H1 H2]; [by intros c [[_ ?]%Hu _]%Hp|]. split; [done|]. intros _ c Hc. apply H2.
    destruct (decide (c ∈ oc_loaded cache)); [by right|left]. by apply Hp. }
  assert (NoDup (omap (λ c, (λ nodeID, (c, nodeID)) <$> oc_nodeByClient cache' !! c) u).*1) as Hnd by (apply keyed_NoDup, collectUnique_NoDup).
  split; [done|]. destruct Hok' as [H1 H2]. split.
  - intros c n. rewrite <-elem_of_list_to_map by exact Hnd. rewrite list_elem_of_omap.
    intros (c' & Hc' & (n' & Hn & [= -> ->])%fmap_Some). apply Hu in Hc' as [??]. split_and!; [done|done|]. apply H2; [by eapply H1|done].
  - intros Ha c n Hc Hne Hon. rewrite <-elem_of_list_to_map by exact Hnd. apply list_elem_of_omap. exists c.
    assert (c ∈ u) as Hcu by (by apply Hu). split; [done|]. apply fmap_Some. exists n. split; [|done]. by apply H2; [apply Hl'|].
Qed.

Lemma group_by_node nb plans n c :
  (∃ set, groupByNode nb plans !! n = Some set ∧ c ∈ set) ↔ c ∈ cp_ClientID <$> plans ∧ c ≠ "" ∧ nb !! c = Some n.
Proof.
  unfold groupByNode. match goal with |- context [foldl ?f _ _] => set (step := f) end.
  assert (∀ sets : gmap Z (gset string), (∃ set, foldl step sets plans !! n = Some set ∧ c ∈ set) ↔
    (∃ set, sets !! n = Some set ∧ c ∈ set) ∨ c ∈ cp_ClientID <$> plans ∧ c ≠ "" ∧ nb !! c = Some n) as H.
  { induction plans as [|p plans IH]; intros sets; cbn [foldl fmap list_fmap]; [set_solver|]. rewrite IH. unfold step.
    destruct (decide (cp_ClientID p = "")) as [E|E]; [rewrite bool_decide_true by done; rewrite E; set_solver|].
    rewrite bool_decide_false by done. destruct (nb !! cp_ClientID p) as [n'|] eqn:En; [|set_solver].
    assert ((∃ set, (<[n' := {[cp_ClientID p]} ∪ default ∅ (sets !! n')]> sets : gmap Z (gset string)) !! n = Some set ∧ c ∈ set) ↔
      (∃ set, sets !! n = Some set ∧ c ∈ set) ∨ n = n' ∧ c = cp_ClientID p) as ->; [|set_solver].
    destruct (decide (n' = n)) as [->|Hn].
    - rewrite lookup_insert_eq. split.
      + intros (? & [= <-] & [->%elem_of_singleton|Hc]%elem_of_union); [by right|left]. destruct (sets !! n) as [x|]; [by exists x|set_solver].
      + intros [(x & -> & Hc)|[_ ->]]; eexists; (split; [done|]); set_solver.
    - rewrite lookup_insert_ne by done. split; [by left|]. intros [?|[? _]]; [done|congruence]. }
  rewrite H. split; [intros [(? & ? & _)|?]; [by rewrite lookup_empty in *|done]|by right].
Qed.

(** Who is notified where. *)
Definition notified (calls : list NotifyCall) : list (Z * string) := calls ≫= λ k, (λ c, (nc_nodeID k, c)) <$> nc_clientIDs k.

Lemma notified_groups (groups : gmap Z (gset string)) (mk : Z * gset string → NotifyCall) :
  (∀ x, nc_nodeID (mk x) = x.1 ∧ nc_clientIDs (mk x) = elements x.2) →
  NoDup (notified (mk <$> map_to_list groups)) ∧
  ∀ n c, (n, c) ∈ notified (mk <$> map_to_list groups) ↔ ∃ set, groups !! n = Some set ∧ c ∈ set.
Proof.
  intros Hmk. assert (∀ l n c, (n, c) ∈ notified (mk <$> l) ↔ ∃ set, (n, set) ∈ l ∧ c ∈ set) as Hel.
  { intros l n c. unfold notified. rewrite list_elem_of_bind. split.
    - intros (k & (c' & E & Hc)%list_elem_of_fmap & ([n' set] & -> & Hin)%list_elem_of_fmap). destruct (Hmk (n', set)) as [Hn Hcs]. rewrite Hn in E. rewrite Hcs in Hc.
      cbn in E, Hc. injection E as <- <-. exists set. split; [done|]. by apply elem_of_elements.
    - intros (set & Hin & Hc). exists (mk (n, set)). destruct (Hmk (n, set)) as [Hn Hcs]. split; [|by apply list_elem_of_fmap_2].
      rewrite Hn, Hcs. cbn. apply list_elem_of_fmap_2. by apply elem_of_elements. }
  split.
  - pose proof (NoDup_fst_map_to_list groups) as Hnd. induction (map_to_list groups) as [|[n set] l IH]; [constructor|].
    cbn in Hnd. apply NoDup_cons in Hnd as [Hn Hnd]. cbn [fmap list_fmap]. unfold notified. cbn [mbind list_bind]. apply NoDup_app. split_and!; [|
      |by apply IH].
    + destruct (Hmk (n, set)) as [_ ->]. apply NoDup_fmap_2; [|apply NoDup_elements]. by intros ?? [= ?].
    + intros [n' c'] (c & [= -> ->] & _)%list_elem_of_fmap Hin. apply Hel in Hin as (set' & Hin & _). destruct (Hmk (n, set)) as [Hn' _]. rewrite Hn' in Hin.
      apply Hn, list_elem_of_fmap. by exists (n, set').
  - intros n c. rewrite Hel. by setoid_rewrite elem_of_map_to_list.
Qed.

(** A member of the task's group, with its filter, online at [n], that may get the message. *)
Definition eligible_member (subs : MemorySubCenter) (core : Core) (t : Router.ShareGroupTask) (c : string) (n : Z) (opts : ClientDeliveryOptions) : Prop :=
  mkMember c (st_TopicFilter t) ∈ GetShareGroupMembers subs (st_ShareGroup t) ∧ c ≠ "" ∧ online core c n ∧
  resolveSharedDeliveryOptionsForClient subs c t = Some opts.

Lemma local_owners (l : list string) : Forall (λ c, c ≠ "") l → ∀ c,
  is_Some (foldl (λ m c, if bool_decide (c = "") then m else if false then m else <[c := 0]> m) (∅ : gmap string Z) l !! c) ↔ c ∈ l.
Proof.
  intros Hne c. assert (∀ m : gmap string Z, is_Some (foldl (λ m c, if bool_decide (c = "") then m else if false then m else <[c := 0]> m) m l !! c) ↔
    is_Some (m !! c) ∨ c ∈ l) as H.
  { induction Hne as [|x l Hx _ IH]; intros m; cbn [foldl]; [set_solver|]. rewrite bool_decide_false, IH by done.
    destruct (decide (x = c)) as [->|Hn]; [rewrite lookup_insert_eq|rewrite lookup_insert_ne by done]; [split; [intros _; right; left|by left]|set_solver]. }
  rewrite H, lookup_empty. split; [intros [[]|?]; done|by right].
Qed.

Lemma candidates_of_subs subs t : st_ShareGroup t ≠ "" → st_TopicFilter t ≠ "" →
  ∃ l, OnlineCandidates (subCenterStrategy subs) (st_ShareGroup t) (st_TopicFilter t) = Ok l ∧
    ∀ c, c ∈ om_ClientID <$> l ↔ c ≠ "" ∧ mkMember c (st_TopicFilter t) ∈ GetShareGroupMembers subs (st_ShareGroup t).
Proof.
  intros Hg Hf. unfold OnlineCandidates. rewrite bool_decide_false by done. cbn [subCenterStrategy sy_members mbind result_mbind result_bind].
  set (members := GetShareGroupMembers _ _). set (matched := filter _ members).
  assert (Forall (λ c, c ≠ "") (mb_ClientID <$> matched)) as Hne.
  { apply Forall_fmap, Forall_forall. by intros m [[Hm _] _]%list_elem_of_filter. }
  assert (∃ owners : gmap string Z, sy_resolveOnlineOwnerNodes (subCenterStrategy subs) (mb_ClientID <$> matched) = Ok owners ∧
    ∀ c, is_Some (owners !! c) ↔ c ∈ mb_ClientID <$> matched) as (owners & -> & Hown).
  { unfold sy_resolveOnlineOwnerNodes. case_bool_decide as E.
    - apply nil_length_inv in E. rewrite E. exists ∅. split; [done|]. intros c. rewrite lookup_empty. split; [by intros []|by intros ?%elem_of_nil].
    - eexists. split; [reflexivity|]. by apply local_owners. }
  cbn [mbind result_mbind result_bind]. eexists. split; [done|]. intros c. rewrite list_elem_of_fmap. split.
  - intros (om & -> & (m & Hm & (n & _ & ->)%fmap_Some)%list_elem_of_omap). cbn. apply list_elem_of_filter in Hm as [[Hc [?|Hmf]] Hm]; [done|].
    split; [done|]. destruct m as [mc mf]. cbn in *. by subst.
  - intros [Hc Hm]. assert (mkMember c (st_TopicFilter t) ∈ matched) as Hin by (apply list_elem_of_filter; split; [split; [done|by right]|done]).
    destruct (proj2 (Hown c)) as [n Hn]; [apply list_elem_of_fmap; by exists (mkMember c (st_TopicFilter t))|].
    eexists. split; [|apply list_elem_of_omap; eexists; split; [exact Hin|]; cbn; rewrite Hn; reflexivity]. done.
Qed.

Lemma first_candidate subs t cands perm : (∀ sel opts, firstQoS0Candidate subs t cands perm = Some (sel, opts) →
    sel ∈ cands ∧ resolveSharedDeliveryOptionsForClient subs (qc_clientID sel) t = Some opts) ∧
  (firstQoS0Candidate subs t cands perm = None → ∀ i sel, i ∈ perm → cands !! i = Some sel → resolveSharedDeliveryOptionsForClient subs (qc_clientID sel) t = None).
Proof.
  induction perm as [|i perm [IH1 IH2]]; cbn [firstQoS0Candidate]; [split; [done|]; by intros _ i sel ?%elem_of_nil|].
  destruct (cands !! i) as [x|] eqn:Ei.
  - destruct (resolveSharedDeliveryOptionsForClient subs (qc_clientID x) t) as [o|] eqn:Er; (split; [|try done]).
    + intros sel opts [= <- <-]. split; [by eapply list_elem_of_lookup_2|done].
    + exact IH1.
    + intros Hn j sel [->|Hj]%elem_of_cons Hs; [congruence|by eapply IH2].
  - split; [exact IH1|]. intros Hn j sel [->|Hj]%elem_of_cons Hs; [congruence|by eapply IH2].
Qed.

(** The candidates of a task: members of its group with its filter that are online. *)
Lemma candidates_exact subs core lookup t cache : looks_up core lookup → cache_ok core cache → st_ShareGroup t ≠ "" → st_TopicFilter t ≠ "" →
  let r := onlineQoS0SharedCandidates subs lookup t cache in
  let member c n := c ≠ "" ∧ mkMember c (st_TopicFilter t) ∈ GetShareGroupMembers subs (st_ShareGroup t) ∧ online core c n in
  cache_ok core r.2 ∧ (∀ c n, mkQoS0Candidate c n ∈ r.1 → member c n) ∧ (answers lookup → ∀ c n, member c n → mkQoS0Candidate c n ∈ r.1).
Proof.
  intros Hlook Hok Hg Hf. cbv zeta. unfold onlineQoS0SharedCandidates. destruct (candidates_of_subs subs t Hg Hf) as (l & -> & Hl).
  destruct l as [|m0 ms].
  { split; [done|]. split; [by intros c n ?%elem_of_nil|]. intros _ c n (Hc & Hm & _). by destruct (not_elem_of_nil c (proj2 (Hl c) (conj Hc Hm))). }
  set (members := m0 :: ms) in *.
  destruct (resolve_exact core lookup (filter (λ c, c ≠ "") (om_ClientID <$> members)) cache Hlook Hok) as (Hok' & Hs & Hall).
  destruct (resolveOnlineOwnerNodes _ _ cache) as [nb cache']. cbn [fst snd] in *. split; [done|]. split.
  - intros c n. rewrite list_elem_of_omap. intros (m & Hm & Hsome). case_bool_decide as Em; [done|].
    apply fmap_Some in Hsome as (n' & Hn & [= -> ->]). apply Hs in Hn as (_ & Hc & Hon).
    split_and!; [done| |done]. apply (Hl (om_ClientID m)). by apply list_elem_of_fmap_2.
  - intros Ha c n (Hc & Hm & Hon). rewrite list_elem_of_omap. assert (c ∈ om_ClientID <$> members) as Hin by (by apply Hl).
    pose proof Hin as (m & -> & Hm')%list_elem_of_fmap. exists m. split; [done|]. rewrite bool_decide_false by done.
    apply fmap_Some. exists n. split; [|done]. by apply Hall; [|apply list_elem_of_filter| |].
Qed.

Lemma select_exact subs core lookup rand t cache : looks_up core lookup → cache_ok core cache → (∀ n, rand n ≡ₚ seq 0 n) →
  let r := selectQoS0SharedCandidate subs lookup rand t cache in
  cache_ok core r.2 ∧
  match r.1 with
  | Some (sel, opts) => eligible_member subs core t (qc_clientID sel) (qc_nodeID sel) opts
  | None => answers lookup → ∀ c n opts, ¬ eligible_member subs core t c n opts
  end.
Proof.
  intros Hlook Hok Hrand. cbv zeta. unfold selectQoS0SharedCandidate.
  destruct (bool_decide (st_ShareGroup t = "") || bool_decide (st_TopicFilter t = "")) eqn:E.
  { split; [done|]. intros _ c n opts (_ & _ & _ & Hr). unfold resolveSharedDeliveryOptionsForClient in Hr.
    destruct (bool_decide (c = "")); [done|]. cbn [orb] in Hr. by rewrite E in Hr. }
  apply orb_false_iff in E as [Hg%bool_decide_eq_false Hf%bool_decide_eq_false].
  destruct (candidates_exact subs core lookup t cache Hlook Hok Hg Hf) as (Hok' & Hs & Hall).
  destruct (onlineQoS0SharedCandidates _ _ _ cache) as [cands cache']. cbn [fst snd] in *. split; [done|].
  destruct (first_candidate subs t cands (rand (length cands))) as [H1 H2]. destruct (firstQoS0Candidate _ _ _ _) as [[[c n] opts]|].
  - destruct (H1 _ _ eq_refl) as [Hin Hr]. apply Hs in Hin as (Hc & Hm & Hon). by split_and!.
  - intros Ha c n opts (Hm & Hc & Hon & Hr). assert (mkQoS0Candidate c n ∈ cands) as Hin by (by apply Hall). apply list_elem_of_lookup in Hin as [i Hi].
    pose proof (H2 eq_refl i _ ltac:(rewrite Hrand; apply elem_of_seq; apply lookup_lt_Some in Hi; lia) Hi) as Hno. cbn in Hno. congruence.
Qed.

(** The pick for a task of a share group; nobody is picked only if nobody is eligible or the
    owners could not be looked up. *)
Definition picked (subs : MemorySubCenter) (core : Core) (answered : Prop) (t : Router.ShareGroupTask) (pick : option NotifyCall) : Prop :=
  match pick with
  | Some call => ∃ c n opts, eligible_member subs core t c n opts ∧ notified [call] = [(n, c)] ∧ nc_clientOptions call = {[c := opts]}
  | None => answered → ∀ c n opts, ¬ eligible_member subs core t c n opts
  end.

Lemma shared_picked subs core lookups rands topic payload ts : (∀ n, looks_up core (lookups n)) → (∀ i n, rands i n ≡ₚ seq 0 n) → ∀ i cache, cache_ok core cache →
  ∃ picks, notifyQoS0DirectSharedTasks subs lookups rands i topic payload ts cache = omap id picks ∧ length picks = length ts ∧
    ∀ j t, ts !! j = Some t → ∃ pick, picks !! j = Some pick ∧ picked subs core (answers (lookups (i + j)%nat)) t pick.
Proof.
  intros Hlook Hr. induction ts as [|t ts IH]; intros i cache Hok; cbn [notifyQoS0DirectSharedTasks]; [by exists []|].
  destruct (select_exact subs core (lookups i) (rands i) t cache (Hlook i) Hok (Hr i)) as [Hok' Hsel]. destruct (selectQoS0SharedCandidate _ _ _ t cache) as [sel cache'].
  cbn [fst snd] in *. destruct (IH (S i) cache' Hok') as (picks & -> & Hlen & Hall).
  exists (((λ '(sel, opts), notifyQoS0SharedCandidate topic payload sel opts) <$> sel) :: picks).
  split; [by destruct sel as [[sel opts]|]|]. split; [cbn; by rewrite Hlen|]. intros [|j] t' Ht; cbn in Ht.
  - injection Ht as <-. eexists. split; [done|]. rewrite Nat.add_0_r. destruct sel as [[sel opts]|]; [|exact Hsel].
    by exists (qc_clientID sel), (qc_nodeID sel), opts.
  - destruct (Hall j t' Ht) as (pick & Hp & Hpick). exists pick. split; [done|]. by rewrite Nat.add_succ_r.
Qed.

Lemma normal_notified core lookup topic plans payload cache : looks_up core lookup → cache_ok core cache →
  let r := notifyQoS0DirectNormalPlans lookup topic plans payload cache in
  cache_ok core r.2 ∧ NoDup (notified r.1) ∧
  (∀ n c, (n, c) ∈ notified r.1 → c ≠ "" ∧ c ∈ cp_ClientID <$> plans ∧ online core c n) ∧
  (answers lookup → ∀ n c, c ≠ "" → c ∈ cp_ClientID <$> plans → online core c n → (n, c) ∈ notified r.1).
Proof.
  intros Hlook Hok. cbv zeta. unfold notifyQoS0DirectNormalPlans. case_bool_decide as E.
  { apply nil_length_inv in E as ->. split_and!; [done|constructor|by intros n c ?%elem_of_nil|by intros _ n c _ ?%elem_of_nil]. }
  destruct (resolve_exact core lookup (collectPlanClientIDs plans) cache Hlook Hok) as (Hok' & Hs & Hall). destruct (resolveOnlineOwnerNodes _ _ cache) as [nb cache'].
  cbn [fst snd] in *. split; [done|].
  match goal with |- context [?f <$> map_to_list ?g] => destruct (notified_groups g f) as [Hnd Hel]; [done|] end. split; [exact Hnd|]. split.
  - intros n c (Hc & Hne & Hn)%Hel%group_by_node. apply Hs in Hn as (_ & _ & Hon). done.
  - intros Ha n c Hne Hc Hon. apply Hel, group_by_node. split_and!; [done|done|]. apply Hall; [done| |done|done]. by apply list_elem_of_filter.
Qed.

Section qos0.
Context {DB PDB Data : Type} `{Hkv : !KV DB, Hpkv : !KV PDB, HRC : !RetainCodec Data, Huu : !UUIDs, HC : !Codecs, HJ : !JsonInts, HSP : !StoreProto, HEP : !EventProto}.

(** The lookups of a publication: each is answered unless it is one that fails. *)
Lemma ownerLookup_answers io (b : Broker DB PDB Data) n : looks_up (bk_sessions b) (ownerLookup io b n) ∧
  (pb_ownersFail io n = false → answers (ownerLookup io b n)).
Proof.
  unfold ownerLookup. split.
  - intros ids. destruct (pb_ownersFail io n); [right; by eexists|by left].
  - by intros -> ids e.
Qed.

(** C6. Direct delivery of QoS 0.  With storing of QoS 0 messages switched off, routing one
    (to a valid topic that is not under $share), when it succeeds, writes neither store.  For ordinary subscriptions
    the notifications it makes go only to named clients that are online and have a subscription
    that covers the topic, each once and at the node that owns it, where the publisher's own
    subscriptions with No Local do not count; and to all such clients if the session center
    answers the lookup of their owners.  For every share group and filter the router found, one
    member that is online and may get the message is notified, or nobody; and nobody only if there
    is no such member or the lookup of the members' owners failed. *)
Theorem qos0_direct_exact ops (b b' : Broker DB PDB Data) io m publish calls :
  bk_subs b = reachable ops → pm_Publish m = Some publish →
  validatePublishTopic (pub_Topic publish) = Ok tt → head (SplitTopicLevels (pub_Topic publish)) ≠ Some "$share" →
  pub_QoS publish = 0 → bk_storeQoS0 b = false → (∀ i n, pb_rand io i n ≡ₚ seq 0 n) →
  routePublishClientMode io m b = (b', Ok calls) →
  let receives c n := c ≠ "" ∧ (∃ o, takes (bk_subs b) (pub_Topic publish) (pm_SendClientID m) c o ∧ ordinary o) ∧ online (bk_sessions b) c n in
  let tasks := rr_ShareGroupTasks (Route (bk_subs b) publish (pm_SendClientID m)) in
  bk_meta b' = bk_meta b ∧ bk_payload b' = bk_payload b ∧
  ∃ direct picks, calls = direct ++ omap id picks ∧ NoDup (notified direct) ∧
    (∀ n c, (n, c) ∈ notified direct → receives c n) ∧
    (pb_ownersFail io 0 = false → ∀ n c, receives c n → (n, c) ∈ notified direct) ∧
    length picks = length tasks ∧
    ∀ i t, tasks !! i = Some t → ∃ pick, picks !! i = Some pick ∧
      picked (bk_subs b) (bk_sessions b) (pb_ownersFail io (S i) = false) t pick.
Proof.
  intros Hst Hp Hv Hh Hq Hs0 Hrand Hrun receives tasks. unfold routePublishClientMode in Hrun. rewrite Hp in Hrun.
  destruct (processRetainedInternalPublish io publish (pm_SendClientID m) b) as [b1 [[]|]] eqn:Er; [|done].
  apply retained_same in Er as [h ->]. cbn [with_retained bk_subs bk_storeQoS0] in Hrun.
  pose proof (reachable_ok ops) as Hok. rewrite <-Hst in Hok.
  pose proof (plans_clients (bk_subs b) publish (pm_SendClientID m) Hok Hv Hh) as Hplans.
  set (routes := Route (bk_subs b) publish (pm_SendClientID m)) in *. unfold tasks. rewrite Hq, Hs0 in Hrun. cbn [Z.eqb negb andb] in Hrun.
  destruct (hasDeliveryRoutes routes) eqn:Eroutes; cbn [negb] in Hrun.
  2: { injection Hrun as <- <-. split_and!; [done|done|]. apply orb_false_iff in Eroutes as [E1 E2]. apply bool_decide_eq_false in E1, E2.
    assert (rr_ShareGroupTasks routes = []) as -> by (destruct (rr_ShareGroupTasks routes); [done|cbn in E2; lia]).
    assert (rr_Plans routes = []) as E1' by (destruct (rr_Plans routes); [done|cbn in E1; lia]). rewrite E1' in Hplans.
    exists [], []. split_and!; [done|constructor|by intros n c ?%elem_of_nil| |done|done]. intros _ n c (Hc & Ho & _).
    destruct (not_elem_of_nil c). by apply Hplans. }
  unfold handleQoS0DirectNoStore in Hrun. destruct (encodeQoS0DirectPayload io m _) as [payload|]; [|done]. cbn [mbind result_mbind result_bind] in Hrun.
  set (b2 := with_retained h b) in *. pose proof (ownerLookup_answers io b2) as Hlook.
  destruct (normal_notified (bk_sessions b) _ (pub_Topic publish) (rr_Plans routes) payload newOwnerNodeLookupCache (proj1 (Hlook 0%nat))) as (Hcache & Hnd & Hs & Hall);
    [split; [by intros c n; cbn; rewrite lookup_empty|by intros c n; cbn; intros ?%not_elem_of_empty]|].
  destruct (notifyQoS0DirectNormalPlans _ _ _ _ _) as [direct cache]. cbn [fst snd] in *.
  destruct (shared_picked (bk_subs b) (bk_sessions b) (λ i, ownerLookup io b2 (S i)) (pb_rand io) (pub_Topic publish) payload
    (rr_ShareGroupTasks routes) (λ i, proj1 (Hlook (S i))) Hrand 0 cache Hcache) as (picks & Hpicks & Hlen & Hpick).
  injection Hrun as <- <-. split_and!; [done|done|]. exists direct, picks. unfold b2 in Hpicks |- *. cbn [with_retained bk_subs]. rewrite Hpicks.
  split_and!; [done|done| | |done|].
  - intros n c (H1 & H2 & H3)%Hs. apply Hplans in H2 as [_ H2]. done.
  - intros Hf n c (H1 & H2 & H3). apply Hall; [by apply Hlook|done|by apply Hplans|done].
  - intros i t Ht. destruct (Hpick i t Ht) as (pick & Hi & Hpk). exists pick. split; [done|]. destruct pick; [exact Hpk|].
    intros Hf. apply Hpk. by apply Hlook.
Qed.
End qos0.

(** ** An example: two subscribers, one of them through a share group *)

#[export] Instance plain_EventProto : EventProto := { er_Marshal r := Ok (er_Data r) }.
#[export] Instance plain_RetainCodec : RetainCodec RetainMessage := { rc_Marshal m := Ok m; rc_Unmarshal m := Ok m }.

Definition pipeline_ops : list center_op :=
  [CCreate (mkSubRequest [mkSubOption 1 true "+/b" false 0 0] "c1" "");
   CCreate (mkSubRequest [mkSubOption 1 true "$share/g/a/+" false 0 0] "c2" "");
   CCreate (mkSubRequest [mkSubOption 1 true "$share/g/+/b" false 0 0] "c3" "")].
Definition pipeline_broker : Broker (gmap string string) (gmap string string) RetainMessage :=
  mkBroker false 1 (reachable pipeline_ops) NewCore ∅ ∅ ∅.
Definition pipeline_publish : Publish := mkPublish [] "a/b" None 0 1 false false.
Definition pipeline_message : PubMessage := mkPubMessage "pub" "" (example_uuid 7) (Some pipeline_publish) false 0 0.
Definition pipeline_io : PublishIO :=
  mkPublishIO 0 None "" 0 1700000000000000000 (mkSaveIO None 0 TxnCommit) (λ i, mkShareIO false (example_uuid match i with O => 30 | S _ => 31 end) committed true)
    (λ _, mkAppendIO (Some (example_uuid 60)) committed) (λ _, false) (λ _ _, false) true (λ _ n, seq 0 n).

Definition pipeline_share (f : string) : Router.ShareGroupTask := mkShareTask "g" f 1 1 "pub" "[]" false true.
Definition pipeline_plan : ClientPlan := mkPlan "c1" 1 "[]" false true.

Lemma pipeline_routes : Route (bk_subs pipeline_broker) pipeline_publish "pub" = mkRoute [pipeline_plan] [pipeline_share "+/b"; pipeline_share "a/+"].
Proof. vm_compute. reflexivity. Qed.

Lemma pipeline_names : names_ok (bk_subs pipeline_broker) pipeline_publish "pub".
Proof.
  pose proof (reachable_ok pipeline_ops) as Hok. split.
  - intros c o Hc Ht Ho. pose proof (plans_clients (bk_subs pipeline_broker) pipeline_publish "pub" Hok eq_refl ltac:(discriminate) c) as H.
    rewrite pipeline_routes in H. destruct H as [_ H]. specialize (H (conj Hc (ex_intro _ o (conj Ht Ho)))).
    clear Ht. apply elem_of_cons in H as [->|H]; [clear; done|by apply elem_of_nil in H].
  - intros c o g f Hs. pose proof (share_tasks_groups (bk_subs pipeline_broker) pipeline_publish "pub" Hok eq_refl ltac:(discriminate) g f) as H.
    rewrite pipeline_routes in H. destruct H as [_ H]. destruct (H (ex_intro _ c (ex_intro _ o Hs))) as (t & Ht & <- & _).
    clear H Hs. cbn [rr_ShareGroupTasks] in Ht. repeat (apply elem_of_cons in Ht as [->|Ht]; [clear; done|]). by apply elem_of_nil in Ht.
Qed.

Lemma pipeline_io_ok : publish_io_ok pipeline_io.
Proof.
  split; [unfold ts_ok; cbn; lia|]. split; [done|]. split; [done|]. split.
  - intros [|i]; (split; [vm_compute; reflexivity|by vm_compute]).
  - intros c u [= <-]. split; [vm_compute; reflexivity|by vm_compute].
Qed.

(** Everything commits, so the message is accepted. *)
Lemma pipeline_accepted : ∃ b' calls, routePublishClientMode pipeline_io pipeline_message pipeline_broker = (b', Ok calls).
Proof.
  unfold routePublishClientMode. cbn [pipeline_message pm_Publish pm_SendClientID pm_MessageID].
  change (processRetainedInternalPublish pipeline_io pipeline_publish "pub" pipeline_broker) with (pipeline_broker, Ok tt : result string unit).
  cbv beta iota. rewrite pipeline_routes. cbv zeta. change (negb (hasDeliveryRoutes _)) with false. cbv iota.
  change ((pub_QoS pipeline_publish =? 0) && _) with false. cbv iota.
  assert ((SavePublishMessage (pb_save pipeline_io) (pb_now pipeline_io) "pub" pipeline_publish (example_uuid 7) (bk_payload pipeline_broker)).2 = Ok (example_uuid 7)) as Es
    by (vm_compute; reflexivity).
  destruct (SavePublishMessage _ _ _ _ _ _) as [p' r]. cbn [snd] in Es. subst r. cbn [rr_ShareGroupTasks rr_Plans].
  assert (publish_commits pipeline_io) as Hc by (split; [by intros i|intros c; split; [by eexists|done]]).
  assert (fresh_ok (example_uuid 7)) as Hf by (split; [vm_compute; reflexivity|by vm_compute]).
  assert (Rep (∅ : gmap string string) ∅ ∧ SRep (∅ : gmap string string) ∅) as [HR HS] by (split; [exact (Rep_empty _ example_empty)|exact (SRep_empty _ example_empty)]).
  assert (Forall (λ t, client_ok (st_ShareGroup t)) [pipeline_share "+/b"; pipeline_share "a/+"]) as Hg by (repeat constructor; clear; done).
  change (bk_meta (with_payload p' pipeline_broker)) with (∅ : gmap string string).
  pose proof (share_all_ok pipeline_io (example_uuid 7) _ pipeline_io_ok Hc Hf Hg 0 _ _ _ HR HS) as H1.
  match goal with |- context [appendSharedDeliveryTasks ?x1 ?x2 ?x3 ?x4 ?x5 ?x6] => destruct (appendSharedDeliveryTasks x1 x2 x3 x4 x5 x6) as [db1 ok] eqn:E1 end.
  cbn [snd] in H1. subst ok.
  destruct (share_all _ _ _ _ (proj1 pipeline_io_ok) Hf (proj1 (proj2 (proj2 (proj2 pipeline_io_ok)))) (Forall_impl _ _ _ Hg (λ t H _, H)) 0 _ db1 ∅ ∅ true HR HS E1) as [HR1 _].
  pose proof (plans_all_ok pipeline_io (example_uuid 7) [pipeline_plan] pipeline_io_ok Hc Hf ltac:(repeat constructor; clear; done) db1 ∅ HR1) as H2.
  match goal with |- context [appendClientDeliveryTasks ?x1 ?x2 ?x3 ?x4 ?x5] => destruct (appendClientDeliveryTasks x1 x2 x3 x4 x5) as [db2 ok] eqn:E2 end.
  cbn [snd] in H2. subst ok. by eexists _, _.
Qed.

Lemma accepted_publish_queued_witness :
  ∃ b' calls id, routePublishClientMode pipeline_io pipeline_message pipeline_broker = (b', Ok calls) ∧
    deliveryTaskExistsInTxn (bk_meta b') "c1" id = Ok true ∧
    (∃ t, queryShareTaskByMessageID (bk_meta b') "g" id activeShareTaskStatuses = Ok (Some t)) ∧
    payload_stored id "pub" pipeline_publish 1700000000000000000 (bk_payload b').
Proof.
  destruct pipeline_accepted as (b' & calls & E). exists b', calls.
  destruct (accepted_publish_queued pipeline_ops pipeline_broker b' pipeline_io pipeline_message pipeline_publish calls ∅ ∅ eq_refl eq_refl eq_refl
    ltac:(discriminate) ltac:(clear; cbn; unfold is_u16; split_and!; try lia; done) ltac:(left; discriminate) ltac:(clear; vm_compute; reflexivity) pipeline_io_ok pipeline_names
    (Rep_empty _ example_empty) (SRep_empty _ example_empty) E) as (id & H1 & H2).
  exists id. split; [exact E|].
  destruct (H1 "c1" (mkSubOption 1 true "+/b" false 0 0) ltac:(discriminate)) as [H3 H4].
  - split; [vm_compute; reflexivity|]. split; [vm_compute; reflexivity|]. intros (_ & Hn & _). discriminate Hn.
  - vm_compute; reflexivity.
  - split; [exact H3|]. split; [|exact H4]. apply (H2 "c3" (mkSubOption 1 true "$share/g/+/b" false 0 0) "g" "+/b"). split; [|vm_compute; reflexivity].
    split; [vm_compute; reflexivity|]. split; [vm_compute; reflexivity|]. intros (_ & Hn & _). discriminate Hn.
Defined.

Lemma second_filter_of_group_dropped_witness :
  ∃ db', rr_ShareGroupTasks (Route (bk_subs pipeline_broker) pipeline_publish "pub") = [pipeline_share "+/b"; pipeline_share "a/+"] ∧
    appendSharedDeliveryTasks (pb_share pipeline_io) 0 10 (example_uuid 7) [pipeline_share "+/b"; pipeline_share "a/+"] (∅ : gmap string string) = (db', true) ∧
    ∀ limit, ∃ l, readShareGroupTasks db' "g" zeroTime uuid_Nil limit = Ok l ∧ Forall (λ t, sg_MessageID t = example_uuid 7 → sg_TopicFilter t = "+/b") l.
Proof.
  assert (Forall (λ t, client_ok (st_ShareGroup t)) [pipeline_share "+/b"; pipeline_share "a/+"]) as Hg by (repeat constructor; clear; done).
  assert (fresh_ok (example_uuid 7)) as Hf by (split; [vm_compute; reflexivity|by vm_compute]).
  assert ((appendSharedDeliveryTasks (pb_share pipeline_io) 0 10 (example_uuid 7) [pipeline_share "+/b"; pipeline_share "a/+"] (∅ : gmap string string)).2 = true) as Hok.
  { apply (share_all_ok (mkPublishIO 0 None "" 0 10 (mkSaveIO None 0 TxnCommit) (pb_share pipeline_io) (pb_append pipeline_io) (λ _, false) (λ _ _, false) true (λ _ n, [])) _ _) with (a := ∅) (ga := ∅);
      [|split; [by intros i|intros c; split; [by eexists|done]]|exact Hf|exact Hg|exact (Rep_empty _ example_empty)|exact (SRep_empty _ example_empty)].
    destruct pipeline_io_ok as (_ & _ & H3 & H4 & H5). split; [unfold ts_ok; cbn; lia|]. split; [done|]. by split_and!. }
  destruct (appendSharedDeliveryTasks _ _ _ _ _ _) as [db' ok] eqn:E. cbn [snd] in Hok. subst ok. exists db'.
  split; [rewrite pipeline_routes; reflexivity|]. split; [reflexivity|].
  exact (proj2 (second_filter_of_group_dropped (pb_share pipeline_io) 0 10 (example_uuid 7) (pipeline_share "+/b") (pipeline_share "a/+") (∅ : gmap string string) db' ∅
    (SRep_empty _ example_empty) ltac:(clear; done) eq_refl ltac:(discriminate) ltac:(clear; unfold ts_ok; lia) Hf (proj1 (proj2 (proj2 (proj2 pipeline_io_ok))))
    ltac:(clear; vm_compute; reflexivity) E)).
Defined.

(** A client of session expiry 60 s that went away at 1000 s; its will, delayed by 50 s, is
    published at 1050 s. *)
Definition will_session : Session :=
  mkSession "w" (Some (mkWillMessage "a/b" [] 1 false ∅ None None None None [] None (Some 50))) [] 60 1060000000000
    (Some (mkReplayCursor 5 "t" 0)).
Definition will_broker : Broker (gmap string string) (gmap string string) RetainMessage :=
  mkBroker false 1 NewMemorySubCenter (mkCore {["w" := will_session]} ∅) ∅ ∅ ∅.
Definition will_message : PubMessage := mkPubMessage "w" "tok" uuid_Nil (Some pipeline_publish) false 0 0.

Lemma published_will_restarts_expiry_witness :
  ∃ s', c_Sessions (bk_sessions (processWillMessage Some pipeline_io (mkWillIO false false 1050000000000 1050000000000) will_message will_broker).1) !! "w" = Some s' ∧
    ss_ExpireAtUnixNano s' = 1110000000000 ∧ ss_OutgoingReplayCursor s' = None.
Proof.
  destruct (published_will_restarts_expiry Some pipeline_io (mkWillIO false false 1050000000000 1050000000000) will_message pipeline_publish pipeline_publish
    "w" will_session will_broker will_broker [] eq_refl eq_refl eq_refl ltac:(discriminate) ltac:(vm_compute; reflexivity) ltac:(vm_compute; reflexivity)
    ltac:(vm_compute; reflexivity) ltac:(by eexists) ltac:(discriminate) ltac:(vm_compute; reflexivity) eq_refl eq_refl ltac:(cbn; lia)) as (s' & H1 & _ & _ & _ & H2 & H3).
  exists s'. split; [exact H1|]. split; [|exact H2].
  rewrite (H3 1000000000000 ltac:(vm_compute; reflexivity)); cbn; lia || (unfold neverExpireSessionInterval; lia).
Defined.

(** [c1] is online at node 2, [c3] (a member of the share group) at node 3. *)
Definition direct_broker : Broker (gmap string string) (gmap string string) RetainMessage :=
  mkBroker false 1 (reachable pipeline_ops) (mkCore ∅ {["c1" := mkOwner "c1" 2 "t1" true; "c3" := mkOwner "c3" 3 "t3" true]}) ∅ ∅ ∅.
Definition direct_publish : Publish := mkPublish [] "a/b" None 0 0 false false.
Definition direct_message : PubMessage := mkPubMessage "pub" "" (example_uuid 7) (Some direct_publish) false 0 0.

Lemma qos0_direct_exact_witness :
  ∃ b' calls, routePublishClientMode pipeline_io direct_message direct_broker = (b', Ok calls) ∧ notified calls = [(2, "c1"); (3, "c3")] ∧
    ∃ direct picks, calls = direct ++ omap id picks ∧ length picks = 2%nat ∧
      (2, "c1") ∈ notified direct ∧ ¬ (3, "c3") ∈ notified direct.
Proof.
  assert (∃ b' calls, routePublishClientMode pipeline_io direct_message direct_broker = (b', Ok calls) ∧ notified calls = [(2, "c1"); (3, "c3")]) as (b' & calls & E & En)
    by (eexists _, _; split; vm_compute; reflexivity).
  destruct (qos0_direct_exact pipeline_ops direct_broker b' pipeline_io direct_message direct_publish calls eq_refl eq_refl eq_refl ltac:(discriminate) eq_refl eq_refl
    ltac:(reflexivity) E) as (_ & _ & direct & picks & Hc & _ & Hs & Hall & Hlen & _).
  exists b', calls. split; [exact E|]. split; [exact En|]. exists direct, picks. split; [exact Hc|].
  split; [rewrite Hlen; vm_compute; reflexivity|]. clear E En Hc Hlen.
  pose proof (plans_clients (bk_subs pipeline_broker) pipeline_publish "pub" (reachable_ok pipeline_ops) eq_refl ltac:(discriminate)) as Hp. rewrite pipeline_routes in Hp. split.
  - apply Hall; [reflexivity|]. split; [discriminate|]. split; [apply (Hp "c1"); left|]. exists (mkOwner "c1" 2 "t1" true). split; [vm_compute; reflexivity|]. by split_and!.
  - intros (_ & Ho & _)%Hs. assert ("c3" ∈ ["c1"]) as H by (apply (Hp "c3"); split; [discriminate|exact Ho]). apply elem_of_cons in H as [H|H%elem_of_nil]; [discriminate H|exact H].
Defined.
