(* ===== verification/Uplink.v ===== *)
(** * Messages from the client ([src/internal/broker/client], PUBLISH and PUBREL)

    [handlePublish] takes a PUBLISH of the client through topic alias, validation,
    the plugin, the server's capabilities, the rate limit and the Receive Maximum;
    QoS 0 and 1 messages are retained and routed at once, QoS 2 messages are kept in
    the receive store, and in the session when it outlives the connection, until
    [handlePubRel] routes them.  [restoreIncomingQoS2FromSession] takes the open
    QoS 2 flows up again on the next connection.

    The state is what the handlers read and write of [Client], with the session
    center it stores the open flows in.  What the outside decides while a packet is
    handled (the clock, new UUIDs, the plugin, the answers of the state router, the
    retain store and the session center's transport, the fate of the one packet
    written; the plugin may also change the packet) is the record [UplinkIO]; one clock reading serves the whole handler. *)

From S2P Require Import Prelude GoStrings Mqtt5 Topic Wire WireParse WireProps WireCodec SessionCore TopicAlias Inflight Downlink Retain.

(** ** The QoS 2 receive store ([qos2receive/qos2_receiver.go]) *)

(** The fields of [brokerpublish.Message] these flows use. *)
Record Message := mkMessage {
  msg_MessageID : string;
  msg_AckReasonCode : Z;
  msg_Publish : option Publish;
  msg_FromSession : bool }.

Record QoS2ReceiveStore := mkQoS2 {
  q2_waiting : gmap Z Message;
  q2_firstSeen : gmap Z Z;
  q2_lastSeen : gmap Z Z }.
Definition NewQoS2ReceiveStore : QoS2ReceiveStore := mkQoS2 ∅ ∅ ∅.

Definition defaultQoS2WaitingTTL : Z := 10 * 60 * 1000000000.

(** [cleanupExpiredLocked] and [CleanupExpired]. *)
Definition cleanupExpired (ttl now : Z) (q : QoS2ReceiveStore) : QoS2ReceiveStore :=
  if ttl <=? 0 then q
  else
    let expired := filter (λ x, ttl < now - x.2) (q2_lastSeen q) in
    mkQoS2 (filter (λ x, expired !! x.1 = None) (q2_waiting q))
           (filter (λ x, expired !! x.1 = None) (q2_firstSeen q))
           (filter (λ x, expired !! x.1 = None) (q2_lastSeen q)).

Definition qos2_Store (now : Z) (message : Message) (q : QoS2ReceiveStore) : QoS2ReceiveStore * bool :=
  match msg_Publish message with
  | None => (q, false)
  | Some publish =>
      let id := pub_PacketID publish in
      let q := cleanupExpired defaultQoS2WaitingTTL now q in
      match q2_waiting q !! id with
      | Some _ => (mkQoS2 (q2_waiting q) (q2_firstSeen q) (<[id := now]> (q2_lastSeen q)), true)
      | None => (mkQoS2 (<[id := message]> (q2_waiting q)) (<[id := now]> (q2_firstSeen q)) (<[id := now]> (q2_lastSeen q)), false)
      end
  end.

Definition qos2_Read (packetID : Z) (q : QoS2ReceiveStore) : option Message := q2_waiting q !! packetID.

Definition qos2_Delete (packetID : Z) (q : QoS2ReceiveStore) : QoS2ReceiveStore :=
  match q2_waiting q !! packetID with
  | None => q
  | Some _ => mkQoS2 (delete packetID (q2_waiting q)) (delete packetID (q2_firstSeen q)) (delete packetID (q2_lastSeen q))
  end.

(** [Count] drops what has expired first. *)
Definition qos2_Count (now : Z) (q : QoS2ReceiveStore) : QoS2ReceiveStore * Z :=
  let q := cleanupExpired defaultQoS2WaitingTTL now q in (q, Z.of_nat (size (q2_waiting q))).

(** ** The rate limiter ([incoming_rate_limiter.go]) *)

Record incomingPublishRateLimiter := mkLimiter {
  rl_limit : Z;
  rl_window : Z;
  rl_windowStart : option Z;
  rl_count : Z }.

Definition newIncomingPublishRateLimiter (limit window : Z) : option incomingPublishRateLimiter :=
  if limit <=? 0 then None
  else Some (mkLimiter limit (if window <=? 0 then 1000000000 else window) None 0).

Definition allow (now : Z) (l : incomingPublishRateLimiter) : incomingPublishRateLimiter * bool :=
  if rl_limit l <=? 0 then (l, true)
  else
    let restart := match rl_windowStart l with None => true | Some s => rl_window l <=? now - s end in
    let l := if restart then mkLimiter (rl_limit l) (rl_window l) (Some now) 0 else l in
    if rl_limit l <=? rl_count l then (l, false)
    else (mkLimiter (rl_limit l) (rl_window l) (rl_windowStart l) (rl_count l + 1), true).

(** ** State *)

Inductive UpEffect :=
| USent (p : Packet)
| URouted (ok : bool) (messageID : string) (p : Publish) (duplicate : bool)
| URetainPut (m : RetainMessage)
| URetainDelete (topic : string)
| UClosed.

(** What of the broker configuration the handlers read. *)
Record UplinkConfig := mkUplinkConfig {
  uc_TopicAliasMaximum : Z;
  uc_MaxQos : Z;
  uc_RetainAvailable : Z;
  uc_NoSubTopicResponse : Z;
  uc_QoS0RejectPolicy : string }.

Record Uplink := mkUplink {
  up_ID : string;
  up_ownerToken : string;
  up_sessionExpiryInterval : Z;
  up_serverReceiveMaximum : Z;
  up_alias : option TopicAliasManager;
  up_limiter : option incomingPublishRateLimiter;
  up_QoS2 : QoS2ReceiveStore;
  up_incomingQoS1Inflight : gset Z;
  up_incomingQoS1MessageIDs : gmap Z string;
  up_center : Core;
  up_done : bool;
  up_trace : list UpEffect }.

Definition up_with_alias (x : option TopicAliasManager) (u : Uplink) : Uplink :=
  let 'mkUplink a b c d _ f g h i j k l := u in mkUplink a b c d x f g h i j k l.
Definition up_with_limiter (x : option incomingPublishRateLimiter) (u : Uplink) : Uplink :=
  let 'mkUplink a b c d e _ g h i j k l := u in mkUplink a b c d e x g h i j k l.
Definition up_with_QoS2 (x : QoS2ReceiveStore) (u : Uplink) : Uplink :=
  let 'mkUplink a b c d e f _ h i j k l := u in mkUplink a b c d e f x h i j k l.
Definition up_with_inflight (x : gset Z) (u : Uplink) : Uplink :=
  let 'mkUplink a b c d e f g _ i j k l := u in mkUplink a b c d e f g x i j k l.
Definition up_with_ids (x : gmap Z string) (u : Uplink) : Uplink :=
  let 'mkUplink a b c d e f g h _ j k l := u in mkUplink a b c d e f g h x j k l.
Definition up_with_center (x : Core) (u : Uplink) : Uplink :=
  let 'mkUplink a b c d e f g h i _ k l := u in mkUplink a b c d e f g h i x k l.
Definition up_cancel (u : Uplink) : Uplink :=
  let 'mkUplink a b c d e f g h i j _ l := u in mkUplink a b c d e f g h i j true l.
Definition up_emit (x : UpEffect) (u : Uplink) : Uplink :=
  let 'mkUplink a b c d e f g h i j k l := u in mkUplink a b c d e f g h i j k (l ++ [x]).
Definition up_close (u : Uplink) : Uplink := up_emit UClosed (up_cancel u).

Record UplinkIO := mkUplinkIO {
  ui_now : Z;
  ui_newID : string;
  ui_plugin : Publish → Publish * bool;
  ui_matching : result string bool;
  ui_upsert : option string;
  ui_remove : option string;
  ui_retain : option string;
  ui_route : option string;
  ui_write : WriteOutcome }.

(** [Client.write] of a packet that is not a PUBLISH (as [Downlink.write]). *)
Definition up_write (o : WriteOutcome) (p : Packet) (u : Uplink) : Uplink * result string unit :=
  match o with
  | WSent => (up_emit (USent p) u, Ok tt)
  | WOversized => (up_close u, Err "packet size exceeds client maximum")
  | WFailed => (up_cancel u, Err "write packet error")
  end.

Definition ErrProtocolError : string := "protocol error".
Definition ErrStore : string := "store error".

(** [_ = client.write(packet); _ = client.close(); return err]. *)
Definition up_disconnect (io : UplinkIO) (p : Packet) (u : Uplink) : Uplink :=
  up_close (up_write (ui_write io) p u).1.

(** ** DISCONNECT packets *)

Definition DisconnectNotAuthorized : Z := 0x87.
Definition DisconnectTopicNameInvalid : Z := 0x90.
Definition DisconnectReceiveMaximumExceeded : Z := 0x93.
Definition DisconnectTopicAliasInvalid : Z := 0x94.
Definition DisconnectMessageRateTooHigh : Z := 0x96.
Definition DisconnectPayloadFormatInvalid : Z := 0x99.
Definition DisconnectRetainNotSupported : Z := 0x9A.
Definition DisconnectQoSNotSupported : Z := 0x9B.

Definition ForTopicAliasError (err : TopicAliasError) : Packet :=
  match err with
  | ErrTopicAliasNotFound =>
      NewServerDisconnect DisconnectProtocolError "protocol error: topic alias not found: topic alias not found"
  | ErrTopicAliasInvalid => NewServerDisconnect DisconnectTopicAliasInvalid "topic alias invalid: topic alias invalid"
  end.
Definition topicAliasErrorText (err : TopicAliasError) : string :=
  match err with ErrTopicAliasNotFound => "topic alias not found" | ErrTopicAliasInvalid => "topic alias invalid" end.

(** The constructors of the publish handler: a reason string only if there is a reason. *)
Definition disconnectWithReason (code : Z) (prefix reason : string) : Packet :=
  PDisconnect (mkDisconnect
    (if bool_decide (reason = "") then None else Some (mkDisconnectProperties None "" (prefix +:+ reason) [])) code).
Definition disconnectForPayloadFormatInvalid : string → Packet :=
  disconnectWithReason DisconnectPayloadFormatInvalid "payload format invalid: ".
Definition disconnectForTopicNameInvalid : string → Packet :=
  disconnectWithReason DisconnectTopicNameInvalid "topic name invalid: ".
Definition disconnectForRetainNotSupported : string → Packet :=
  disconnectWithReason DisconnectRetainNotSupported "retain not supported: ".
Definition disconnectForQoSNotSupported : string → Packet :=
  disconnectWithReason DisconnectQoSNotSupported "qos not supported: ".

Definition ForMessageRateTooHigh (reason : string) : Packet :=
  if bool_decide (reason = "") then NewServerDisconnect DisconnectMessageRateTooHigh "message rate too high"
  else NewServerDisconnect DisconnectMessageRateTooHigh ("message rate too high: " +:+ reason).

Definition ForReceiveMaximumExceeded (inflight maximum : Z) : Packet :=
  NewServerDisconnect DisconnectReceiveMaximumExceeded
    ("receive maximum exceeded: inflight " +:+ pretty inflight +:+ " >= maximum " +:+ pretty maximum).

(** ** Preparing an inbound PUBLISH *)

Definition normalizeInboundPublishFlags (p : Publish) : Publish :=
  if pub_QoS p =? 0
  then mkPublish (pub_Payload p) (pub_Topic p) (pub_Properties p) 0 (pub_QoS p) false (pub_Retain p)
  else p.

(** [ApplyUplink] has set the topic of the packet where it answers that it did. *)
Definition applyPublishTopicAlias (cfg : UplinkConfig) (io : UplinkIO) (p : Publish) (u : Uplink)
    : Uplink * Publish * result string string :=
  match up_alias u with
  | None => (u, p, Ok (pub_Topic p))
  | Some m =>
      let '(m, p, res) := ApplyUplink m p (wrap 16 (uc_TopicAliasMaximum cfg)) in
      let u := up_with_alias (Some m) u in
      match res with
      | Err err => (up_disconnect io (ForTopicAliasError err) u, p, Err (topicAliasErrorText err))
      | Ok (finalTopic, _) => (u, p, Ok finalTopic)
      end
  end.

Definition validatePublishEnvelope (io : UplinkIO) (p : Publish) (topic : string) (u : Uplink)
    : Uplink * result string unit :=
  if bool_decide (topic = "") then
    (up_disconnect io (disconnectForTopicNameInvalid "empty topic name without a valid topic alias") u, Err ErrProtocolError)
  else if HasWildcard topic then
    (up_disconnect io (disconnectForTopicNameInvalid "topic name contains wildcard") u, Err ErrProtocolError)
  else if match pub_Properties p with
          | None => false | Some props => bool_decide (length (pup_SubscriptionIdentifier props) ≠ 0%nat) end then
    (up_disconnect io (ForProtocolError "Subscription Identifier is not allowed in client PUBLISH") u, Err ErrProtocolError)
  else (u, Ok tt).

Definition publishPayloadFormatInvalid (p : Publish) : bool := outboundPayloadFormatInvalid p.

Definition PubackNotAuthorized : Z := 0x87.
Definition PubrecNotAuthorized : Z := 0x87.
Definition PubackPayloadFormatInvalid : Z := 0x99.
Definition PubrecPayloadFormatInvalid : Z := 0x99.

Definition rejectPublishPayloadFormatInvalid (io : UplinkIO) (p : Publish) (u : Uplink) : Uplink * result string unit :=
  if pub_QoS p =? 0 then
    (up_disconnect io (disconnectForPayloadFormatInvalid "payload is not valid UTF-8") u, Err ErrProtocolError)
  else if pub_QoS p =? 1 then up_write (ui_write io) (PPuback (mkAck None (pub_PacketID p) PubackPayloadFormatInvalid)) u
  else if pub_QoS p =? 2 then up_write (ui_write io) (PPubrec (mkAck None (pub_PacketID p) PubrecPayloadFormatInvalid)) u
  else (u, Ok tt).

(** The Go results [(topic, handled, err)]: [Ok None] when handled. *)
Definition preparePublishPacket (cfg : UplinkConfig) (io : UplinkIO) (p : Publish) (u : Uplink)
    : Uplink * Publish * result string (option string) :=
  let p := normalizeInboundPublishFlags p in
  let '(u, p, res) := applyPublishTopicAlias cfg io p u in
  match res with
  | Err e => (u, p, Err e)
  | Ok topic =>
      let '(u, res) := validatePublishEnvelope io p topic u in
      match res with
      | Err e => (u, p, Err e)
      | Ok _ =>
          if publishPayloadFormatInvalid p then
            let '(u, res) := rejectPublishPayloadFormatInvalid io p u in
            (u, p, (λ _, None) <$> res)
          else (u, p, Ok (Some topic))
      end
  end.

(** ** The stages of [handlePublish] *)

(** [handleRepeatedPublish]: [Some] when it answered the packet. *)
Definition handleRepeatedPublish (io : UplinkIO) (p : Publish) (u : Uplink) : option Uplink :=
  if negb (pub_QoS p =? 2) || (pub_PacketID p =? 0) then None
  else match qos2_Read (pub_PacketID p) (up_QoS2 u) with
       | None => None
       | Some stored =>
           let reasonCode := msg_AckReasonCode stored in
           if mqtt5ReasonCodeIsError reasonCode then None
           else Some (up_write (ui_write io) (PPubrec (mkAck None (pub_PacketID p) reasonCode)) u).1
       end.

Definition denyPublish (cfg : UplinkConfig) (io : UplinkIO) (p : Publish) (u : Uplink) : Uplink :=
  if pub_QoS p =? 0 then
    let policy := if bool_decide (uc_QoS0RejectPolicy cfg = "") then "drop" else uc_QoS0RejectPolicy cfg in
    if bool_decide (policy = "disconnect")
    then up_disconnect io (NewServerDisconnect DisconnectNotAuthorized "publish not authorized") u else u
  else if pub_QoS p =? 1 then
    (up_write (ui_write io)
       (PPuback (mkAck (Some (mkReasonProperties "publish not authorized" [])) (pub_PacketID p) PubackNotAuthorized)) u).1
  else if pub_QoS p =? 2 then
    (up_write (ui_write io)
       (PPubrec (mkAck (Some (mkReasonProperties "publish not authorized" [])) (pub_PacketID p) PubrecNotAuthorized)) u).1
  else u.

Definition enforcePublishCapabilities (cfg : UplinkConfig) (io : UplinkIO) (p : Publish) (u : Uplink)
    : Uplink * result string unit :=
  if uc_MaxQos cfg <? pub_QoS p then
    (up_disconnect io (disconnectForQoSNotSupported "publish QoS exceeds server Maximum QoS") u, Err ErrProtocolError)
  else if (uc_RetainAvailable cfg =? 0) && pub_Retain p then
    (up_disconnect io (disconnectForRetainNotSupported "retained messages are disabled") u, Err ErrProtocolError)
  else (u, Ok tt).

Definition enforceIncomingPublishRate (io : UplinkIO) (u : Uplink) : Uplink * result string unit :=
  match up_limiter u with
  | None => (u, Ok tt)
  | Some l =>
      let '(l, ok) := allow (ui_now io) l in
      let u := up_with_limiter (Some l) u in
      if ok then (u, Ok tt)
      else (up_disconnect io (ForMessageRateTooHigh "incoming publish rate exceeded") u, Err ErrProtocolError)
  end.

(** The cleanup function [trackIncomingPublishQuota] returns is [cleanupQuota]. *)
Definition trackIncomingPublishQuota (io : UplinkIO) (p : Publish) (u : Uplink) : Uplink * result string unit :=
  if negb (pub_QoS p =? 1) && negb (pub_QoS p =? 2) then (u, Ok tt)
  else
    let '(q, count) := qos2_Count (ui_now io) (up_QoS2 u) in
    let u := up_with_QoS2 q u in
    let inflight := Z.of_nat (size (up_incomingQoS1Inflight u)) + count in
    let maximum := up_serverReceiveMaximum u in
    if (0 <? maximum) && (maximum <=? inflight) then
      (up_disconnect io (ForReceiveMaximumExceeded inflight maximum) u, Err ErrProtocolError)
    else if negb (pub_QoS p =? 1) || (pub_PacketID p =? 0) then (u, Ok tt)
    else (up_with_inflight ({[pub_PacketID p]} ∪ up_incomingQoS1Inflight u) u, Ok tt).
Definition cleanupQuota (p : Publish) (u : Uplink) : Uplink :=
  if negb (pub_QoS p =? 1) || (pub_PacketID p =? 0) then u
  else up_with_inflight (up_incomingQoS1Inflight u ∖ {[pub_PacketID p]}) u.

Definition noMatchingSubscribers (cfg : UplinkConfig) (io : UplinkIO) : bool :=
  if uc_NoSubTopicResponse cfg =? 0 then false
  else match ui_matching io with Err _ => false | Ok matched => negb matched end.

(** *** The session center *)

(** [ConvertToProtoUnfinishedMessage(msg, false)]; a packet that cannot be encoded is
    left out of the record. *)
Definition ConvertToProtoUnfinishedMessage (now : Z) (msg : Message) : option UnfinishedMessage :=
  match msg_Publish msg with
  | None => None
  | Some publish =>
      if negb (pub_QoS publish =? 2) then None
      else
        let packet := match Encode 0 (Some (publishPacket publish)) with Ok bytes => bytes | Err _ => [] end in
        Some (mkUnfinished (msg_MessageID msg) (pub_PacketID publish) (pub_QoS publish) WAITING_PUBREL None false
                (unixMicro now) packet (msg_AckReasonCode msg))
  end.

Definition shouldPersistIncomingQoS2 (u : Uplink) : bool :=
  negb (bool_decide (up_ID u = "")) && (0 <? up_sessionExpiryInterval u).

Definition persistIncomingQoS2WaitingPubrel (io : UplinkIO) (msg : Message) (u : Uplink) : Uplink * result string unit :=
  if negb (shouldPersistIncomingQoS2 u) then (u, Ok tt)
  else match ConvertToProtoUnfinishedMessage (ui_now io) msg with
       | None => (u, Err "incoming qos2 unfinished message is invalid")
       | Some unfinished =>
           if um_PacketID unfinished =? 0 then (u, Err "incoming qos2 packet id is required")
           else match ui_upsert io with
                | Some e => (u, Err e)
                | None =>
                    let '(c, res) := upsertIncomingUnfinished (ui_now io) (up_center u)
                      (mkUpsertRequest (up_ID u) (um_PacketID unfinished) (Some unfinished) (up_ownerToken u) (ui_now io)) in
                    (up_with_center c u, res)
                end
       end.

Definition removeIncomingQoS2Unfinished (io : UplinkIO) (packetID : Z) (u : Uplink) : Uplink * result string unit :=
  if negb (shouldPersistIncomingQoS2 u) || (packetID =? 0) then (u, Ok tt)
  else match ui_remove io with
       | Some e => (u, Err e)
       | None =>
           let '(c, res) := removeIncomingUnfinished (ui_now io) (up_center u)
             (mkRemoveIncomingRequest (up_ID u) packetID (up_ownerToken u) (ui_now io)) in
           (up_with_center c u, res)
       end.

Definition storeQoS2Publish (io : UplinkIO) (p : Publish) (reasonCode : Z) (u : Uplink) : Uplink * result string unit :=
  let msg := mkMessage (ui_newID io) reasonCode (Some p) false in
  let u := up_with_QoS2 (qos2_Store (ui_now io) msg (up_QoS2 u)).1 u in
  let '(u, res) := persistIncomingQoS2WaitingPubrel io msg u in
  match res with
  | Err e => (up_with_QoS2 (qos2_Delete (pub_PacketID p) (up_QoS2 u)) u, Err e)
  | Ok _ => (u, Ok tt)
  end.

Definition PubackNoMatchingSubscribers : Z := 0x10.
Definition PubrecNoMatchingSubscribers : Z := 0x10.

Definition buildPublishResponse (cfg : UplinkConfig) (io : UplinkIO) (p : Publish) (u : Uplink)
    : Uplink * result string (option Packet) :=
  let none := noMatchingSubscribers cfg io in
  if pub_QoS p =? 1 then
    (u, Ok (Some (PPuback (mkAck None (pub_PacketID p) (if none then PubackNoMatchingSubscribers else 0)))))
  else if pub_QoS p =? 2 then
    let reasonCode := if none then PubrecNoMatchingSubscribers else 0 in
    let '(u, res) := storeQoS2Publish io p reasonCode u in
    (u, (λ _, Some (PPubrec (mkAck None (pub_PacketID p) reasonCode))) <$> res)
  else (u, Ok None).

Definition commitRetainedPublish (io : UplinkIO) (p : Publish) (topic : string) (u : Uplink) : Uplink * result string unit :=
  if bool_decide (length (pub_Payload p) = 0%nat) then
    match ui_retain io with Some e => (u, Err e) | None => (up_emit (URetainDelete topic) u, Ok tt) end
  else match newRetainMessageFromPublish p (ui_now io) (up_ID u) with
       | Err _ => (u, Err "retain message encode error")
       | Ok retained =>
           match ui_retain io with Some e => (u, Err e) | None => (up_emit (URetainPut retained) u, Ok tt) end
       end.

Definition processRetainedPublish (io : UplinkIO) (p : Publish) (topic : string) (u : Uplink) : Uplink * result string unit :=
  if negb (pub_Retain p) || (pub_QoS p =? 2) then (u, Ok tt) else commitRetainedPublish io p topic u.

Definition qos1DeliveryMessageID (io : UplinkIO) (p : Publish) (u : Uplink) : Uplink * string :=
  if negb (pub_QoS p =? 1) || (pub_PacketID p =? 0) then (u, uuid_Nil)
  else match up_incomingQoS1MessageIDs u !! pub_PacketID p with
       | Some id => (u, id)
       | None => (up_with_ids (<[pub_PacketID p := ui_newID io]> (up_incomingQoS1MessageIDs u)) u, ui_newID io)
       end.

(** [stateRouter.RoutePublish]. *)
Definition routePublish (io : UplinkIO) (messageID : string) (p : Publish) (duplicate : bool) (u : Uplink)
    : Uplink * result string unit :=
  match ui_route io with
  | Some e => (up_emit (URouted false messageID p duplicate) u, Err e)
  | None => (up_emit (URouted true messageID p duplicate) u, Ok tt)
  end.

Definition dispatchLivePublish (io : UplinkIO) (p : Publish) (u : Uplink) : Uplink * result string unit :=
  if pub_QoS p =? 2 then (u, Ok tt)
  else
    let '(u, messageID) := qos1DeliveryMessageID io p u in
    let '(u, res) := routePublish io messageID (clonePublishForLiveDelivery p) (pub_Duplicate p) u in
    match res with Err _ => (u, Err ErrStore) | Ok _ => (u, Ok tt) end.

Definition clearQoS1DeliveryMessageID (response : Packet) (u : Uplink) : Uplink :=
  match response with
  | PPuback a =>
      if ack_PacketID a =? 0 then u
      else up_with_ids (delete (ack_PacketID a) (up_incomingQoS1MessageIDs u)) u
  | _ => u
  end.

Definition writePublishResponse (io : UplinkIO) (response : option Packet) (u : Uplink) : Uplink * result string unit :=
  match response with
  | None => (u, Ok tt)
  | Some packet =>
      let '(u, res) := up_write (ui_write io) packet u in
      match res with
      | Err e => (u, Err e)
      | Ok _ => (clearQoS1DeliveryMessageID packet u, Ok tt)
      end
  end.

(** ** [handlePublish] and [handlePubRel] *)

(** A stage that fails ends the handler. *)
Definition and_then {A} (r : Uplink * result string A) (f : A → Uplink → Uplink * result string unit)
    : Uplink * result string unit :=
  match r.2 with Err e => (r.1, Err e) | Ok a => f a r.1 end.

(** From the quota on, with its deferred cleanup. *)
Definition acceptPublish (cfg : UplinkConfig) (io : UplinkIO) (p : Publish) (topic : string) (u : Uplink)
    : Uplink * result string unit :=
  and_then (trackIncomingPublishQuota io p u) (λ _ u,
    let '(u, res) :=
      and_then (buildPublishResponse cfg io p u) (λ response u,
      and_then (processRetainedPublish io p topic u) (λ _ u,
      and_then (dispatchLivePublish io p u) (λ _ u,
      writePublishResponse io response u))) in
    (cleanupQuota p u, res)).

Definition handlePublish (cfg : UplinkConfig) (io : UplinkIO) (p : Publish) (u : Uplink) : Uplink * result string unit :=
  let '(u, p, res) := preparePublishPacket cfg io p u in
  match res with
  | Err e => (u, Err e)
  | Ok None => (u, Ok tt)
  | Ok (Some topic) =>
      match handleRepeatedPublish io p u with
      | Some u => (u, Ok tt)
      | None =>
          let '(p, allowed) := ui_plugin io p in
          if allowed then
            and_then (enforcePublishCapabilities cfg io p u) (λ _ u,
            and_then (enforceIncomingPublishRate io u) (λ _ u,
            acceptPublish cfg io p topic u))
          else (denyPublish cfg io p u, Ok tt)
      end
  end.

Definition PubcompPacketIdentifierNotFound : Z := 0x92.

(** The flow ends: forgotten in the session, then here, then PUBCOMP. *)
Definition finishPubRel (io : UplinkIO) (packetID : Z) (u : Uplink) : Uplink * result string unit :=
  and_then (removeIncomingQoS2Unfinished io packetID u) (λ _ u,
    let u := up_with_QoS2 (qos2_Delete packetID (up_QoS2 u)) u in
    ((up_write (ui_write io) (PPubcomp (mkAck None packetID 0)) u).1, Ok tt)).

Definition handlePubRel (io : UplinkIO) (receivedPubRel : Ack) (u : Uplink) : Uplink * result string unit :=
  let packetID := ack_PacketID receivedPubRel in
  match qos2_Read packetID (up_QoS2 u) with
  | None => ((up_write (ui_write io) (PPubcomp (mkAck None packetID PubcompPacketIdentifierNotFound)) u).1, Ok tt)
  | Some stored =>
      if mqtt5ReasonCodeIsError (ack_ReasonCode receivedPubRel) then finishPubRel io packetID u
      else match msg_Publish stored with
      | None => finishPubRel io packetID u
      | Some publish =>
          let storedPubrecReason := msg_AckReasonCode stored in
          if mqtt5ReasonCodeIsError storedPubrecReason then finishPubRel io packetID u
          else
            and_then (if pub_Retain publish then commitRetainedPublish io publish (pub_Topic publish) u else (u, Ok tt)) (λ _ u,
            if storedPubrecReason =? PubrecNoMatchingSubscribers then finishPubRel io packetID u
            else
              and_then (routePublish io (msg_MessageID stored) (clonePublishForLiveDelivery publish) (pub_Duplicate publish) u)
                (λ _ u, finishPubRel io packetID u))
      end
  end.

(** ** The packets of one connection *)

(** The cases of [dispatchInboundPacket] modelled here. *)
Inductive UpPacket :=
| InPublish (p : Publish)
| InPubrel (a : Ack).

Definition up_dispatch (cfg : UplinkConfig) (io : UplinkIO) (x : UpPacket) (u : Uplink) : Uplink * result string unit :=
  match x with
  | InPublish p => handlePublish cfg io p u
  | InPubrel a => handlePubRel io a u
  end.

(** [Run] reads packets until the context is done or a handler fails. *)
Fixpoint up_run (cfg : UplinkConfig) (xs : list (UplinkIO * UpPacket)) (u : Uplink) : Uplink :=
  match xs with
  | [] => u
  | (io, x) :: xs =>
      if up_done u then u
      else let '(u, res) := up_dispatch cfg io x u in
           match res with Err _ => u | Ok _ => up_run cfg xs u end
  end.

(** ** The next connection ([incoming_qos2_restore.go]) *)

(** One unfinished message of the session; [newID] is [uuid.New()]. *)
Definition restoreOne (now : Z) (newID : string) (unfinished : UnfinishedMessage) (q : QoS2ReceiveStore) : QoS2ReceiveStore :=
  if um_IsOutgoing unfinished || negb (bool_decide (um_State unfinished = WAITING_PUBREL))
     || negb (um_Qos unfinished =? 2) || (um_PacketID unfinished =? 0)
     || bool_decide (length (um_PublishPacket unfinished) = 0%nat) then q
  else match Decode 0 (um_PublishPacket unfinished) with
       | Err _ => q
       | Ok (cp, _) =>
           match cp_Content cp with
           | Some (PPublish publish) =>
               let publish := if pub_PacketID publish =? 0
                              then set_qos_id (pub_QoS publish) (wrap 16 (um_PacketID unfinished)) publish else publish in
               if negb (pub_QoS publish =? 2) then q
               else (qos2_Store now (mkMessage newID (wrap 8 (um_AckReasonCode unfinished)) (Some publish) true) q).1
           | _ => q
           end
       end.

Definition restoreIncomingQoS2FromSession (now : Z) (msgs : list (string * UnfinishedMessage)) (q : QoS2ReceiveStore)
    : QoS2ReceiveStore :=
  foldl (λ q x, restoreOne now x.1 x.2 q) q msgs.
