(* ===== verification/UplinkProofs.v ===== *)
(** * Messages from the client: safety

    Over every run of a connection, whatever fails: a message identifier is routed
    at most once, and the open QoS 2 flows stay within the server's Receive
    Maximum.  A QoS 1 message is acknowledged only after it was retained and
    routed. *)

From S2P Require Import Prelude GoStrings Mqtt5 Topic Wire WireParse WireProps WireCodec SessionCore TopicAlias Inflight Downlink Retain Uplink.

(** ** What a stage leaves alone *)

(** Identifiers of the messages handed to the router with success; QoS 0 messages
    carry the nil identifier. *)
Definition routed_id (e : UpEffect) : option string :=
  match e with
  | URouted true id _ _ => if bool_decide (id = uuid_Nil) then None else Some id
  | _ => None
  end.
Definition routed_ids (l : list UpEffect) : list string := omap routed_id l.

(** Anything but a PUBACK that accepts the message. *)
Definition no_puback (p : Packet) : Prop :=
  match p with PPuback a => mqtt5ReasonCodeIsError (ack_ReasonCode a) = true | _ => True end.
Definition no_ack (e : UpEffect) : Prop := match e with USent p => no_puback p | _ => True end.

(** A stage that routes and accepts nothing and opens no flow. *)
Record quiet (u u' : Uplink) : Prop := {
  quiet_trace : ∃ l, up_trace u' = up_trace u ++ l ∧ Forall no_ack l;
  quiet_routed : routed_ids (up_trace u') = routed_ids (up_trace u);
  quiet_waiting : q2_waiting (up_QoS2 u') ⊆ q2_waiting (up_QoS2 u);
  quiet_ids : up_incomingQoS1MessageIDs u' = up_incomingQoS1MessageIDs u;
  quiet_max : up_serverReceiveMaximum u' = up_serverReceiveMaximum u;
  quiet_ID : up_ID u' = up_ID u }.

Lemma up_quiet_same u u' :
  up_trace u' = up_trace u → q2_waiting (up_QoS2 u') ⊆ q2_waiting (up_QoS2 u) →
  up_incomingQoS1MessageIDs u' = up_incomingQoS1MessageIDs u →
  up_serverReceiveMaximum u' = up_serverReceiveMaximum u → up_ID u' = up_ID u → quiet u u'.
Proof. intros Ht ????. split; rewrite ?Ht; try done. exists []. by rewrite app_nil_r. Qed.

Lemma up_quiet_refl u : quiet u u.
Proof. by apply up_quiet_same. Qed.

Lemma up_quiet_trans u v w : quiet u v → quiet v w → quiet u w.
Proof.
  intros [(l & H1 & F1) ?????] [(l' & H2 & F2) ?????]. split; [|congruence|by etrans|congruence..].
  exists (l ++ l'). rewrite H2, H1, app_assoc. split; [done|by apply Forall_app].
Qed.

#[export] Instance quiet_preorder : PreOrder quiet.
Proof. split; [exact up_quiet_refl|exact up_quiet_trans]. Qed.

Lemma up_quiet_emit e u : routed_id e = None → no_ack e → quiet u (up_emit e u).
Proof.
  intros He Ha. destruct u; split; cbn; [|..|done|done|done|done]; [exists [e]; by repeat constructor|]. unfold routed_ids. rewrite omap_app. cbn. by rewrite He, app_nil_r.
Qed.

Lemma quiet_alias x u : quiet u (up_with_alias x u).
Proof. by apply up_quiet_same; destruct u. Qed.
Lemma quiet_limiter x u : quiet u (up_with_limiter x u).
Proof. by apply up_quiet_same; destruct u. Qed.
Lemma quiet_inflight x u : quiet u (up_with_inflight x u).
Proof. by apply up_quiet_same; destruct u. Qed.
Lemma quiet_center x u : quiet u (up_with_center x u).
Proof. by apply up_quiet_same; destruct u. Qed.
Lemma quiet_cancel u : quiet u (up_cancel u).
Proof. by apply up_quiet_same; destruct u. Qed.
Lemma quiet_QoS2 q u : q2_waiting q ⊆ q2_waiting (up_QoS2 u) → quiet u (up_with_QoS2 q u).
Proof. intros. by apply up_quiet_same; destruct u. Qed.

Create HintDb quiet discriminated.
#[export] Hint Resolve up_quiet_refl quiet_alias quiet_limiter quiet_inflight quiet_center quiet_cancel : quiet.

Lemma up_quiet_close u : quiet u (up_close u).
Proof. unfold up_close. etrans; [apply quiet_cancel|by apply up_quiet_emit]. Qed.

Lemma up_quiet_write o p u : no_puback p → quiet u (up_write o p u).1.
Proof. intros. destruct o; cbn; [by apply up_quiet_emit|apply up_quiet_close|apply quiet_cancel]. Qed.

Lemma up_quiet_disconnect io p u : no_puback p → quiet u (up_disconnect io p u).
Proof. intros. unfold up_disconnect. etrans; [by apply up_quiet_write|apply up_quiet_close]. Qed.
#[export] Hint Resolve up_quiet_close : quiet.
#[export] Hint Extern 3 (quiet _ (up_write _ _ _).1) => apply up_quiet_write; exact I || reflexivity : quiet.
#[export] Hint Extern 3 (quiet _ (up_disconnect _ _ _)) => apply up_quiet_disconnect; exact I || reflexivity : quiet.

Lemma cleanup_waiting ttl now q : q2_waiting (cleanupExpired ttl now q) ⊆ q2_waiting q.
Proof. unfold cleanupExpired. case_if; [done|]. cbn. apply map_filter_subseteq. Qed.

Lemma delete_waiting k q : q2_waiting (qos2_Delete k q) = delete k (q2_waiting q).
Proof. unfold qos2_Delete. destruct (q2_waiting q !! k) eqn:E; [done|]. by rewrite delete_id. Qed.

(** ** The stages are quiet *)

Lemma alias_quiet cfg io p u : quiet u (applyPublishTopicAlias cfg io p u).1.1.
Proof.
  unfold applyPublishTopicAlias. destruct (up_alias u) as [m|]; [|apply up_quiet_refl].
  destruct (ApplyUplink _ _ _) as [[m' p'] [[t b]|e]]; cbn; [auto with quiet|].
  etrans; [apply quiet_alias|apply up_quiet_disconnect; by destruct e].
Qed.

Lemma envelope_quiet io p topic u : quiet u (validatePublishEnvelope io p topic u).1.
Proof. unfold validatePublishEnvelope. repeat case_if; cbn; auto with quiet. Qed.

Lemma reject_quiet io p u : quiet u (rejectPublishPayloadFormatInvalid io p u).1.
Proof. unfold rejectPublishPayloadFormatInvalid. repeat case_if; cbn [fst]; auto with quiet. Qed.

Lemma prepare_quiet cfg io p u : quiet u (preparePublishPacket cfg io p u).1.1.
Proof.
  unfold preparePublishPacket. pose proof (alias_quiet cfg io (normalizeInboundPublishFlags p) u) as H1.
  destruct (applyPublishTopicAlias _ _ _ _) as [[u1 p1] [topic|e]]; cbn in *; [|done].
  pose proof (envelope_quiet io p1 topic u1) as H2.
  destruct (validatePublishEnvelope _ _ _ _) as [u2 [[]|e]]; cbn in *; [|by etrans].
  case_if; cbn; [|by etrans]. pose proof (reject_quiet io p1 u2) as H3.
  destruct (rejectPublishPayloadFormatInvalid _ _ _) as [u3 r]; cbn in *. by do 2 (etrans; [eassumption|]).
Qed.

Lemma repeated_quiet io p u u' : handleRepeatedPublish io p u = Some u' → quiet u u'.
Proof.
  unfold handleRepeatedPublish. case_if; [done|]. destruct (qos2_Read _ _); [|done].
  case_if; [done|]. intros [= <-]. by apply up_quiet_write.
Qed.

Lemma deny_quiet cfg io p u : quiet u (denyPublish cfg io p u).
Proof. unfold denyPublish. repeat case_if; auto with quiet. Qed.

Lemma caps_quiet cfg io p u : quiet u (enforcePublishCapabilities cfg io p u).1.
Proof. unfold enforcePublishCapabilities. repeat case_if; cbn; auto with quiet. Qed.

Lemma rate_quiet io u : quiet u (enforceIncomingPublishRate io u).1.
Proof.
  unfold enforceIncomingPublishRate. destruct (up_limiter u) as [l|]; [|apply up_quiet_refl].
  destruct (allow _ _) as [l' []]; cbn; [auto with quiet|]. etrans; [apply quiet_limiter|by apply up_quiet_disconnect].
Qed.

(** A passed quota check leaves room for one more flow. *)
Lemma quota_quiet io p u : quiet u (trackIncomingPublishQuota io p u).1.
Proof.
  unfold trackIncomingPublishQuota. case_if; [apply up_quiet_refl|]. cbn.
  assert (quiet u (up_with_QoS2 (cleanupExpired defaultQoS2WaitingTTL (ui_now io) (up_QoS2 u)) u)) as H
    by (apply quiet_QoS2, cleanup_waiting).
  repeat case_if; cbn; (etrans; [exact H|]); auto with quiet.
Qed.

Lemma quota_room io p u u' :
  pub_QoS p = 2 → trackIncomingPublishQuota io p u = (u', Ok tt) → 0 < up_serverReceiveMaximum u →
  Z.of_nat (size (q2_waiting (up_QoS2 u'))) < up_serverReceiveMaximum u.
Proof.
  intros Hq H Hmax. revert H. unfold trackIncomingPublishQuota. rewrite Hq. cbn [negb andb orb Z.eqb Pos.eqb].
  unfold qos2_Count. set (q := cleanupExpired _ _ _).
  assert (∀ v, up_serverReceiveMaximum (up_with_QoS2 v u) = up_serverReceiveMaximum u ∧ up_QoS2 (up_with_QoS2 v u) = v) as Hv
    by (by destruct u).
  destruct (Hv q) as [-> Hq2].
  match goal with |- context [if ?b then _ else _] => destruct b eqn:E end; [done|]. intros [= <-]. rewrite Hq2.
  apply andb_false_iff in E as [E%Z.ltb_ge|E%Z.leb_gt]; lia.
Qed.

Lemma retained_quiet io p topic u : quiet u (commitRetainedPublish io p topic u).1.
Proof.
  unfold commitRetainedPublish. repeat case_if; [destruct (ui_retain io); cbn; auto with quiet; by apply up_quiet_emit|].
  destruct (newRetainMessageFromPublish _ _ _); [|apply up_quiet_refl].
  destruct (ui_retain io); cbn; auto with quiet; by apply up_quiet_emit.
Qed.

Lemma process_quiet io p topic u : quiet u (processRetainedPublish io p topic u).1.
Proof. unfold processRetainedPublish. case_if; [apply up_quiet_refl|apply retained_quiet]. Qed.

Lemma persist_quiet io msg u : quiet u (persistIncomingQoS2WaitingPubrel io msg u).1.
Proof.
  unfold persistIncomingQoS2WaitingPubrel. case_if; [apply up_quiet_refl|].
  destruct (ConvertToProtoUnfinishedMessage _ _); [|apply up_quiet_refl]. case_if; [apply up_quiet_refl|].
  destruct (ui_upsert io); [apply up_quiet_refl|]. destruct (upsertIncomingUnfinished _ _ _); apply quiet_center.
Qed.

Lemma remove_quiet io k u : quiet u (removeIncomingQoS2Unfinished io k u).1.
Proof.
  unfold removeIncomingQoS2Unfinished. case_if; [apply up_quiet_refl|].
  destruct (ui_remove io); [apply up_quiet_refl|]. destruct (removeIncomingUnfinished _ _ _); apply quiet_center.
Qed.

Lemma cleanupQuota_quiet p u : quiet u (cleanupQuota p u).
Proof. unfold cleanupQuota. case_if; auto with quiet. Qed.

Lemma quiet_delete k u : quiet u (up_with_QoS2 (qos2_Delete k (up_QoS2 u)) u).
Proof. apply quiet_QoS2. rewrite delete_waiting. apply delete_subseteq. Qed.
#[export] Hint Resolve cleanupQuota_quiet quiet_delete remove_quiet persist_quiet process_quiet retained_quiet : quiet.

Lemma and_then_quiet {A} u (r : Uplink * result string A) f :
  quiet u r.1 → (∀ a, r.2 = Ok a → quiet r.1 (f a r.1).1) → quiet u (and_then r f).1.
Proof.
  intros H1 H2. unfold and_then. destruct (r.2) as [a|e]; [|done]. etrans; [done|]. by apply H2.
Qed.

Lemma finish_quiet io k u : quiet u (finishPubRel io k u).1.
Proof.
  unfold finishPubRel. apply and_then_quiet; [apply remove_quiet|]. intros _ _. cbn.
  etrans; [apply quiet_delete|by apply up_quiet_write].
Qed.

(** [handlePublish] ends before the quota with nothing done, or gets as far as
    [acceptPublish] with what the plugin let through. *)
Lemma publish_cases cfg io p u :
  quiet u (handlePublish cfg io p u).1 ∨
  ∃ u1 p1 topic p' v, preparePublishPacket cfg io p u = (u1, p1, Ok (Some topic)) ∧ ui_plugin io p1 = (p', true) ∧
    quiet u v ∧ handlePublish cfg io p u = acceptPublish cfg io p' topic v.
Proof.
  unfold handlePublish. pose proof (prepare_quiet cfg io p u) as Hq.
  destruct (preparePublishPacket _ _ _ _) as [[u1 p1] [[topic|]|e]]; cbn [fst] in Hq; [|by left..].
  destruct (handleRepeatedPublish io p1 u1) as [u2|] eqn:Hrep; [left; etrans; [exact Hq|by eapply repeated_quiet]|].
  destruct (ui_plugin io p1) as [p2 []] eqn:Hplug; [|left; etrans; [exact Hq|apply deny_quiet]].
  pose proof (caps_quiet cfg io p2 u1) as Hc. unfold and_then.
  destruct (enforcePublishCapabilities _ _ _ _) as [u2 [[]|e]]; cbn [fst snd] in *; [|left; by etrans].
  pose proof (rate_quiet io u2) as Hr.
  destruct (enforceIncomingPublishRate _ _) as [u3 [[]|e]]; cbn [fst snd] in *; [|left; etrans; [exact Hq|]; by etrans].
  right. exists u1, p1, topic, p2, u3. split_and!; [done|done| |done]. etrans; [exact Hq|]. by etrans.
Qed.

(** ** At most once *)

(** [S] holds every identifier seen so far. *)
Record up_inv (S : gset string) (u : Uplink) : Prop := {
  inv_nodup : NoDup (routed_ids (up_trace u));
  inv_routed : ∀ id, id ∈ routed_ids (up_trace u) → id ∈ S;
  inv_waiting : ∀ k m, q2_waiting (up_QoS2 u) !! k = Some m →
    msg_MessageID m ∈ S ∧ msg_MessageID m ∉ routed_ids (up_trace u);
  inv_inj : ∀ k k' m m', q2_waiting (up_QoS2 u) !! k = Some m → q2_waiting (up_QoS2 u) !! k' = Some m' →
    msg_MessageID m = msg_MessageID m' → k = k';
  inv_ids : up_incomingQoS1MessageIDs u = ∅ }.

Lemma up_inv_quiet S u u' : quiet u u' → up_inv S u → up_inv S u'.
Proof.
  intros [_ Hr Hw Hi _ _] [H1 H2 H3 H4 H5]. split; rewrite ?Hr, ?Hi; try done.
  - intros k m Hk. apply (H3 k m). by eapply lookup_weaken.
  - intros k k' m m' Hk Hk'. apply H4; by eapply lookup_weaken.
Qed.

Lemma up_inv_mono S S' u : S ⊆ S' → up_inv S u → up_inv S' u.
Proof. intros HS [H1 H2 H3 H4 H5]. split; try done; [set_solver|]. intros k m Hk. destruct (H3 k m Hk). set_solver. Qed.

(** After a handler: nothing was routed twice; if it succeeded, the invariant holds
    with the identifier it may have drawn. *)
Definition once (S : gset string) (r : Uplink * result string unit) : Prop :=
  NoDup (routed_ids (up_trace r.1)) ∧ (r.2 = Ok tt → up_inv S r.1).

Lemma once_quiet S u r : up_inv S u → quiet u r.1 → once S r.
Proof. intros H Hq. pose proof (up_inv_quiet _ _ _ Hq H). split; [by destruct H0|done]. Qed.

Lemma once_then {A} S u (r : Uplink * result string A) f :
  up_inv S u → quiet u r.1 → (∀ a, r.2 = Ok a → up_inv S r.1 → once S (f a r.1)) → once S (and_then r f).
Proof.
  intros H Hq Hf. unfold and_then. destruct (r.2) as [a|e] eqn:E; [|by apply (once_quiet _ u)].
  apply Hf; [done|]. by eapply up_inv_quiet.
Qed.

Lemma routed_route io id p d u :
  routed_ids (up_trace (routePublish io id p d u).1) =
  routed_ids (up_trace u) ++ match ui_route io with
                             | None => if bool_decide (id = uuid_Nil) then [] else [id] | Some _ => [] end.
Proof.
  unfold routePublish, routed_ids. destruct (ui_route io); destruct u; cbn; rewrite omap_app; cbn; [done|].
  by case_bool_decide.
Qed.

Lemma route_rest io id p d u : let u' := (routePublish io id p d u).1 in
  up_QoS2 u' = up_QoS2 u ∧ up_incomingQoS1MessageIDs u' = up_incomingQoS1MessageIDs u ∧
  up_serverReceiveMaximum u' = up_serverReceiveMaximum u.
Proof. unfold routePublish. by destruct (ui_route io), u. Qed.

(** A QoS 0 or 1 message. *)
Lemma live_spec io p u :
  pub_QoS p ≠ 2 → up_incomingQoS1MessageIDs u = ∅ →
  let u' := (dispatchLivePublish io p u).1 in
  (∃ l, routed_ids (up_trace u') = routed_ids (up_trace u) ++ l ∧ (l = [] ∨ l = [ui_newID io])) ∧
  up_QoS2 u' = up_QoS2 u ∧ up_serverReceiveMaximum u' = up_serverReceiveMaximum u ∧
  (up_incomingQoS1MessageIDs u' = ∅ ∨
   pub_QoS p = 1 ∧ pub_PacketID p ≠ 0 ∧ up_incomingQoS1MessageIDs u' = {[pub_PacketID p := ui_newID io]}).
Proof.
  intros Hq Hids. unfold dispatchLivePublish. destruct (Z.eqb_spec (pub_QoS p) 2); [done|].
  unfold qos1DeliveryMessageID. rewrite Hids, lookup_empty. set (pl := clonePublishForLiveDelivery p).
  destruct (negb (pub_QoS p =? 1) || (pub_PacketID p =? 0)) eqn:E.
  - pose proof (routed_route io uuid_Nil pl (pub_Duplicate p) u) as Hr.
    destruct (route_rest io uuid_Nil pl (pub_Duplicate p) u) as (H1 & H2 & H3).
    destruct (routePublish _ _ _ _ _) as [u' [|]]; cbn in *; rewrite Hr, H1, H2, H3;
      (split_and!; [|done|done|by left]); exists []; (split; [|by left]); by destruct (ui_route io).
  - apply orb_false_iff in E as [E1 E2]. set (v := up_with_ids _ u).
    pose proof (routed_route io (ui_newID io) pl (pub_Duplicate p) v) as Hr.
    destruct (route_rest io (ui_newID io) pl (pub_Duplicate p) v) as (H1 & H2 & H3).
    assert (up_QoS2 v = up_QoS2 u ∧ up_serverReceiveMaximum v = up_serverReceiveMaximum u ∧ up_trace v = up_trace u ∧
      up_incomingQoS1MessageIDs v = {[pub_PacketID p := ui_newID io]}) as (V1 & V2 & V3 & V4) by (by destruct u).
    rewrite V3 in Hr. rewrite V1 in H1. rewrite V4 in H2. rewrite V2 in H3.
    destruct (routePublish _ _ _ _ _) as [u' r]; cbn in *.
    assert (∃ l, routed_ids (up_trace u') = routed_ids (up_trace u) ++ l ∧ (l = [] ∨ l = [ui_newID io])) as Hl.
    { rewrite Hr. eexists; split; [reflexivity|]. destruct (ui_route io); [by left|]. case_bool_decide; [by left|by right]. }
    destruct r; cbn; (split_and!; [done..|]); right; (split_and!; [lia|lia|done]).
Qed.

Lemma response_spec io response u :
  let r := writePublishResponse io response u in
  routed_ids (up_trace r.1) = routed_ids (up_trace u) ∧ up_QoS2 r.1 = up_QoS2 u ∧
  up_serverReceiveMaximum r.1 = up_serverReceiveMaximum u ∧
  (r.2 = Ok tt → up_incomingQoS1MessageIDs r.1 =
     match response with
     | Some (PPuback a) => if ack_PacketID a =? 0 then up_incomingQoS1MessageIDs u
                           else delete (ack_PacketID a) (up_incomingQoS1MessageIDs u)
     | _ => up_incomingQoS1MessageIDs u end).
Proof.
  unfold writePublishResponse. destruct response as [packet|]; [|done].
  assert (routed_ids (up_trace (up_write (ui_write io) packet u).1) = routed_ids (up_trace u)) as Hr.
  { unfold routed_ids. destruct (ui_write io), u; cbn; rewrite ?omap_app; cbn; by rewrite ?app_nil_r. }
  assert (let v := (up_write (ui_write io) packet u).1 in up_QoS2 v = up_QoS2 u ∧
    up_serverReceiveMaximum v = up_serverReceiveMaximum u ∧ up_incomingQoS1MessageIDs v = up_incomingQoS1MessageIDs u)
    as (H1 & H2 & H3) by (by destruct (ui_write io), u).
  destruct (up_write _ _ _) as [v [[]|e]]; cbn in *; [|by split_and!].
  unfold clearQoS1DeliveryMessageID. destruct packet; try by split_and!.
  case_if; [by split_and!|]. rewrite <-Hr, <-H1, <-H2, <-H3. by destruct v.
Qed.

Lemma live_once io p u response S :
  pub_QoS p ≠ 2 → up_inv S u → ui_newID io ∉ S →
  (pub_QoS p = 1 → ∃ c, response = Some (PPuback (mkAck None (pub_PacketID p) c))) →
  once ({[ui_newID io]} ∪ S)
    (and_then (dispatchLivePublish io p u) (λ _ u, writePublishResponse io response u)).
Proof.
  intros Hq Hinv Hnew Hresp. destruct (live_spec io p u Hq (inv_ids _ _ Hinv)) as ((l & Hl & Hl') & Hq2 & _ & Hids).
  destruct Hinv as [H1 H2 H3 H4 H5].
  assert (NoDup (routed_ids (up_trace u) ++ l)) as Hnd.
  { apply NoDup_app. split_and!; [done| |destruct Hl' as [->| ->]; repeat constructor; set_solver].
    intros x Hx Hx'. destruct Hl' as [->| ->]; [set_solver|]. apply list_elem_of_singleton in Hx' as ->. by apply Hnew, H2. }
  unfold and_then. destruct (dispatchLivePublish io p u) as [u1 [[]|e]]; cbn in *; [|split; cbn; [by rewrite Hl|done]].
  destruct (response_spec io response u1) as (R1 & R2 & _ & R3). split; [by rewrite R1, Hl|].
  intros Hok. specialize (R3 Hok). split; rewrite ?R1, ?R2, ?Hl, ?Hq2; [done|..].
  - intros id [Hid|Hid]%elem_of_app; [set_solver|]. destruct Hl' as [->| ->]; set_solver.
  - intros k m Hk. destruct (H3 k m Hk) as [? Hnr]. split; [set_solver|]. intros [?|Hid]%elem_of_app; [done|].
    destruct Hl' as [->| ->]; [set_solver|]. apply list_elem_of_singleton in Hid. congruence.
  - done.
  - rewrite R3. destruct Hids as [Hids|(Hq1 & Hk & Hids)].
    + rewrite Hids. destruct response as [[]|]; try done. case_if; [done|apply delete_empty].
    + destruct (Hresp Hq1) as [c ->]. cbn. destruct (Z.eqb_spec (pub_PacketID p) 0); [done|].
      rewrite Hids. apply delete_singleton_eq.
Qed.

(** A QoS 2 message is filed, not routed. *)
Lemma stored_waiting now msg p q : msg_Publish msg = Some p →
  ∃ m, q2_waiting (qos2_Store now msg q).1 ⊆ <[pub_PacketID p := m]> (q2_waiting q) ∧
    (q2_waiting q !! pub_PacketID p = Some m ∨ m = msg).
Proof.
  intros Hp. unfold qos2_Store. rewrite Hp. pose proof (cleanup_waiting defaultQoS2WaitingTTL now q) as Hc.
  destruct (q2_waiting (cleanupExpired _ _ _) !! pub_PacketID p) as [m|] eqn:E; cbn [fst q2_waiting].
  - pose proof (lookup_weaken _ _ _ _ E Hc) as Hk. exists m. split; [by rewrite insert_id|by left].
  - exists msg. split; [by apply insert_mono|by right].
Qed.

Lemma store_spec io p c u : let u' := (storeQoS2Publish io p c u).1 in
  routed_ids (up_trace u') = routed_ids (up_trace u) ∧
  up_incomingQoS1MessageIDs u' = up_incomingQoS1MessageIDs u ∧
  up_serverReceiveMaximum u' = up_serverReceiveMaximum u ∧
  ∃ m, q2_waiting (up_QoS2 u') ⊆ <[pub_PacketID p := m]> (q2_waiting (up_QoS2 u)) ∧
    (q2_waiting (up_QoS2 u) !! pub_PacketID p = Some m ∨ msg_MessageID m = ui_newID io).
Proof.
  unfold storeQoS2Publish. set (msg := mkMessage _ _ _ _).
  destruct (stored_waiting (ui_now io) msg p (up_QoS2 u) eq_refl) as (m & Hm & Hm').
  set (v := up_with_QoS2 _ u).
  assert (up_trace v = up_trace u ∧ up_incomingQoS1MessageIDs v = up_incomingQoS1MessageIDs u ∧
    up_serverReceiveMaximum v = up_serverReceiveMaximum u ∧ up_QoS2 v = (qos2_Store (ui_now io) msg (up_QoS2 u)).1)
    as (V1 & V2 & V3 & V4) by (by destruct u).
  rewrite <-V4 in Hm. rewrite <-V1, <-V2, <-V3.
  pose proof (persist_quiet io msg v) as Hp. destruct (persistIncomingQoS2WaitingPubrel _ _ _) as [w r]. cbn in Hp.
  assert (quiet v match r with Ok _ => w | Err _ => up_with_QoS2 (qos2_Delete (pub_PacketID p) (up_QoS2 w)) w end) as Hqv.
  { destruct r; [done|]. etrans; [exact Hp|apply quiet_delete]. }
  assert (∀ w', quiet v w' → routed_ids (up_trace w') = routed_ids (up_trace v) ∧
    up_incomingQoS1MessageIDs w' = up_incomingQoS1MessageIDs v ∧ up_serverReceiveMaximum w' = up_serverReceiveMaximum v ∧
    ∃ m, q2_waiting (up_QoS2 w') ⊆ <[pub_PacketID p := m]> (q2_waiting (up_QoS2 u)) ∧
    (q2_waiting (up_QoS2 u) !! pub_PacketID p = Some m ∨ msg_MessageID m = ui_newID io)) as Hgo.
  { intros w' [_ W1 W2 W3 W4 _]. split_and!; try done. exists m. split; [by etrans|].
    destruct Hm' as [?| ->]; [by left|by right]. }
  by destruct r; cbn; apply Hgo.
Qed.

Lemma flow_opened S io k m u u' :
  up_inv S u → ui_newID io ∉ S →
  routed_ids (up_trace u') = routed_ids (up_trace u) →
  up_incomingQoS1MessageIDs u' = up_incomingQoS1MessageIDs u →
  q2_waiting (up_QoS2 u') ⊆ <[k := m]> (q2_waiting (up_QoS2 u)) →
  (q2_waiting (up_QoS2 u) !! k = Some m ∨ msg_MessageID m = ui_newID io) →
  up_inv ({[ui_newID io]} ∪ S) u'.
Proof.
  intros [H1 H2 H3 H4 H5] Hnew Hr Hi Hw Hm.
  assert (∀ k' m', q2_waiting (up_QoS2 u') !! k' = Some m' →
    q2_waiting (up_QoS2 u) !! k' = Some m' ∨ k' = k ∧ msg_MessageID m' = ui_newID io) as Hcase.
  { intros k' m' Hk. pose proof (lookup_weaken _ _ _ _ Hk Hw) as [[-> ->]|[Hne Hk']]%lookup_insert_Some; [|by left].
    destruct Hm; [by left|by right]. }
  split; rewrite ?Hr, ?Hi; [done|set_solver| | |done].
  - intros k' m' [Hk|[-> ->]]%Hcase; [destruct (H3 _ _ Hk); set_solver|]. split; [set_solver|]. intros Hin. by apply Hnew, H2.
  - intros k1 k2 m1 m2 [K1|[-> E1]]%Hcase [K2|[-> E2]]%Hcase Heq; [by eapply H4|..|done].
    + destruct (H3 _ _ K1) as [Hin _]. rewrite Heq, E2 in Hin. done.
    + destruct (H3 _ _ K2) as [Hin _]. rewrite <-Heq, E1 in Hin. done.
Qed.

Lemma once_cleanup S p r : once S r → once S (let '(u, res) := r in (cleanupQuota p u, res)).
Proof.
  destruct r as [u res]. intros [H1 H2]. pose proof (cleanupQuota_quiet p u) as Hq. split; cbn in *.
  - by rewrite (quiet_routed _ _ Hq).
  - intros Hok. eapply up_inv_quiet; [exact Hq|by apply H2].
Qed.

Lemma once_mono S S' r : S ⊆ S' → once S r → once S' r.
Proof. intros HS [H1 H2]. split; [done|]. intros. eapply up_inv_mono; [done|by apply H2]. Qed.

Lemma pubrec_quiet io a u : quiet u (writePublishResponse io (Some (PPubrec a)) u).1.
Proof.
  unfold writePublishResponse. pose proof (up_quiet_write (ui_write io) (PPubrec a) u I) as H.
  by destruct (up_write _ _ _) as [v [[]|e]].
Qed.

Lemma accept_once cfg io p topic u S :
  up_inv S u → ui_newID io ∉ S → once ({[ui_newID io]} ∪ S) (acceptPublish cfg io p topic u).
Proof.
  intros Hinv Hnew. unfold acceptPublish. set (S' := _ ∪ S).
  assert (∀ v, up_inv S v → up_inv S' v) as Hm by (intros; eapply up_inv_mono; [|done]; set_solver).
  pose proof (quota_quiet io p u) as Hq0. unfold and_then at 1.
  destruct (trackIncomingPublishQuota io p u) as [u1 [[]|e]]; cbn [fst snd] in *;
    [|by apply (once_quiet _ u); [apply Hm|]].
  pose proof (up_inv_quiet _ _ _ Hq0 Hinv) as Hinv1. apply once_cleanup. unfold buildPublishResponse.
  destruct (Z.eqb_spec (pub_QoS p) 2) as [Hq|Hq].
  - rewrite (proj2 (Z.eqb_neq _ _)) by lia. destruct (store_spec io p (if noMatchingSubscribers cfg io then PubrecNoMatchingSubscribers else 0) u1)
      as (R1 & R2 & R3 & m & Hm1 & Hm2).
    destruct (storeQoS2Publish _ _ _ _) as [u2 r]; cbn [fst] in *.
    pose proof (flow_opened S io _ m u1 u2 Hinv1 Hnew R1 R2 Hm1 Hm2) as Hinv2.
    unfold and_then at 1. destruct r as [[]|e]; cbn [fmap result_fmap fst snd]; [|by apply (once_quiet _ u2)].
    apply once_then with u2; [done|apply process_quiet|]. intros _ _ Hinv3.
    unfold dispatchLivePublish. rewrite Hq. cbn [Z.eqb Pos.eqb and_then snd fst].
    eapply once_quiet; [exact Hinv3|apply pubrec_quiet].
  - assert (∀ response, (pub_QoS p = 1 → ∃ c, response = Some (PPuback (mkAck None (pub_PacketID p) c))) →
      once S' (and_then (processRetainedPublish io p topic u1) (λ _ u, and_then (dispatchLivePublish io p u)
        (λ _ u, writePublishResponse io response u)))) as Hgo.
    { intros response Hresp. pose proof (process_quiet io p topic u1) as Hp. unfold and_then at 1.
      destruct (processRetainedPublish _ _ _ _) as [u2 [[]|e]]; cbn [fst snd] in *.
      - apply live_once; try done. by eapply up_inv_quiet.
      - apply (once_quiet _ u1); [by apply Hm|done]. }
    destruct (Z.eqb_spec (pub_QoS p) 1); unfold and_then at 1; cbn [fst snd]; apply Hgo; [by eauto|done].
Qed.

Lemma publish_once cfg io p u S :
  up_inv S u → ui_newID io ∉ S → once ({[ui_newID io]} ∪ S) (handlePublish cfg io p u).
Proof.
  intros Hinv Hnew. destruct (publish_cases cfg io p u) as [Hq|(u1 & p1 & topic & p' & v & _ & _ & Hq & ->)].
  - apply once_quiet with u; [|done]. eapply up_inv_mono; [|done]. set_solver.
  - apply accept_once; [|done]. by eapply up_inv_quiet.
Qed.

(** Once routed, a QoS 2 message is forgotten or the connection ends. *)
Lemma finish_once S io k m u :
  up_inv S u → q2_waiting (up_QoS2 u) !! k = Some m → ∀ p d,
  once S (and_then (routePublish io (msg_MessageID m) p d u) (λ _ u, finishPubRel io k u)).
Proof.
  intros [H1 H2 H3 H4 H5] Hk p d. destruct (H3 _ _ Hk) as [Hin Hnin].
  pose proof (routed_route io (msg_MessageID m) p d u) as Hr.
  destruct (route_rest io (msg_MessageID m) p d u) as (R1 & R2 & _).
  assert (NoDup (routed_ids (up_trace (routePublish io (msg_MessageID m) p d u).1))) as Hnd.
  { rewrite Hr. destruct (ui_route io); [by rewrite app_nil_r|]. case_bool_decide; [by rewrite app_nil_r|].
    apply NoDup_app. split_and!; [done|set_solver|repeat constructor; set_solver]. }
  unfold and_then at 1. destruct (routePublish _ _ _ _ _) as [u1 [[]|e]] eqn:Hroute; cbn [fst snd] in *; [|by split].
  pose proof (finish_quiet io k u1) as Hq. split; [by rewrite (quiet_routed _ _ Hq)|]. intros Hok.
  assert (q2_waiting (up_QoS2 (finishPubRel io k u1).1) ⊆ delete k (q2_waiting (up_QoS2 u))) as Hw.
  { revert Hok. unfold finishPubRel, and_then. pose proof (quiet_waiting _ _ (remove_quiet io k u1)) as Hw1.
    destruct (removeIncomingQoS2Unfinished _ _ _) as [v [[]|e]]; cbn [fst snd] in *; [|done]. intros _.
    assert (up_QoS2 (up_with_QoS2 (qos2_Delete k (up_QoS2 v)) v) = qos2_Delete k (up_QoS2 v)) as Hv by (by destruct v).
    etrans; [apply quiet_waiting; by apply up_quiet_write|]. rewrite Hv, delete_waiting. rewrite R1 in Hw1. by apply delete_mono. }
  assert (∀ k' m', q2_waiting (up_QoS2 (finishPubRel io k u1).1) !! k' = Some m' →
    k' ≠ k ∧ q2_waiting (up_QoS2 u) !! k' = Some m') as Hcase.
  { intros k' m' Hk'. pose proof (lookup_weaken _ _ _ _ Hk' Hw) as [??]%lookup_delete_Some. done. }
  split; rewrite ?(quiet_routed _ _ Hq), ?(quiet_ids _ _ Hq), ?R2; [done|..|done].
  - intros id. rewrite Hr. intros [?|Hid]%elem_of_app; [by apply H2|]. destruct (ui_route io); [set_solver|].
    case_bool_decide; [set_solver|]. apply list_elem_of_singleton in Hid as ->. done.
  - intros k' m' [Hne Hk']%Hcase. destruct (H3 _ _ Hk') as [? ?]. split; [done|]. rewrite Hr.
    intros [?|Hid]%elem_of_app; [done|]. destruct (ui_route io); [set_solver|]. case_bool_decide; [set_solver|].
    apply list_elem_of_singleton in Hid. apply Hne. by eapply H4.
  - intros k1 k2 m1 m2 [_ K1]%Hcase [_ K2]%Hcase. by apply H4.
Qed.

Lemma pubrel_once io a u S : up_inv S u → once S (handlePubRel io a u).
Proof.
  intros Hinv. unfold handlePubRel, qos2_Read.
  destruct (q2_waiting (up_QoS2 u) !! ack_PacketID a) as [m|] eqn:Hk; [|eapply once_quiet; [done|by apply up_quiet_write]].
  assert (∀ v, up_inv S v → once S (finishPubRel io (ack_PacketID a) v)) as Hf
    by (intros; eapply once_quiet; [done|apply finish_quiet]).
  case_if; [by apply Hf|]. destruct (msg_Publish m) as [p|]; [|by apply Hf]. case_if; [by apply Hf|].
  assert (quiet u (if pub_Retain p then commitRetainedPublish io p (pub_Topic p) u else (u, Ok tt)).1 ∧
    up_QoS2 (if pub_Retain p then commitRetainedPublish io p (pub_Topic p) u else (u, Ok tt)).1 = up_QoS2 u) as [Hq Hq2].
  { destruct (pub_Retain p); [|by split]. split; [apply retained_quiet|]. unfold commitRetainedPublish.
    case_if; [by destruct (ui_retain io), u|]. by destruct (newRetainMessageFromPublish _ _ _), (ui_retain io), u. }
  eapply once_then; [done|exact Hq|]. intros _ _ Hinv1. case_if; [by apply Hf|].
  apply finish_once; [done|]. by rewrite Hq2.
Qed.

(** Identifiers drawn on a connection are new, as [uuid.New] makes them. *)
Definition fresh_ids (S : gset string) (xs : list (UplinkIO * UpPacket)) : Prop :=
  NoDup (ui_newID <$> xs.*1) ∧ ∀ id, id ∈ ui_newID <$> xs.*1 → id ∉ S.

Lemma run_once cfg xs : ∀ S u, up_inv S u → fresh_ids S xs → NoDup (routed_ids (up_trace (up_run cfg xs u))).
Proof.
  induction xs as [|[io x] xs IH]; intros S u Hinv [Hnd Hf]; cbn; [by destruct Hinv|].
  destruct (up_done u); [by destruct Hinv|]. cbn in *. apply NoDup_cons in Hnd as [Hn Hnd].
  assert (once ({[ui_newID io]} ∪ S) (up_dispatch cfg io x u)) as [H1 H2].
  { destruct x; cbn; [apply publish_once; [done|apply Hf; left]|].
    eapply once_mono; [|by apply pubrel_once]. set_solver. }
  destruct (up_dispatch cfg io x u) as [u' [[]|e]]; cbn in *; [|done].
  apply (IH ({[ui_newID io]} ∪ S)); [by apply H2|]. split; [done|].
  intros id Hid. apply not_elem_of_union. split; [|apply Hf; by right].
  intros ->%elem_of_singleton. done.
Qed.

(** ** The Receive Maximum *)

Definition within_max (max : Z) (u : Uplink) : Prop :=
  up_serverReceiveMaximum u = max ∧ Z.of_nat (size (q2_waiting (up_QoS2 u))) ≤ max.

Section within.
Context (max : Z) (Hmax : 0 < max).

Lemma within_quiet u u' : quiet u u' → within_max max u → within_max max u'.
Proof.
  intros [_ _ Hw _ Hm _] [H1 H2]. split; [congruence|]. apply map_subseteq_size in Hw. lia.
Qed.

Lemma within_then {A} u (r : Uplink * result string A) f :
  within_max max u → quiet u r.1 → (∀ a, r.2 = Ok a → within_max max r.1 → within_max max (f a r.1).1) → within_max max (and_then r f).1.
Proof.
  intros H Hq Hf. pose proof (within_quiet _ _ Hq H). unfold and_then. destruct (r.2); [by apply Hf|done].
Qed.

Lemma live_rest io p u : let u' := (dispatchLivePublish io p u).1 in
  up_QoS2 u' = up_QoS2 u ∧ up_serverReceiveMaximum u' = up_serverReceiveMaximum u.
Proof.
  unfold dispatchLivePublish. case_if; [done|].
  assert (let v := (qos1DeliveryMessageID io p u).1 in
    up_QoS2 v = up_QoS2 u ∧ up_serverReceiveMaximum v = up_serverReceiveMaximum u) as [<- <-].
  { unfold qos1DeliveryMessageID. case_if; [done|]. destruct (up_incomingQoS1MessageIDs u !! _); [done|]. by destruct u. }
  destruct (qos1DeliveryMessageID io p u) as [v id]; cbn.
  destruct (route_rest io id (clonePublishForLiveDelivery p) (pub_Duplicate p) v) as (<- & _ & <-).
  by destruct (routePublish _ _ _ _ _) as [? []].
Qed.

Lemma live_within io p u response :
  pub_QoS p ≠ 2 → within_max max u →
  within_max max (and_then (dispatchLivePublish io p u) (λ _ u, writePublishResponse io response u)).1.
Proof.
  intros Hq H.
  destruct (live_rest io p u) as [H1 H2].
  unfold and_then. destruct (dispatchLivePublish io p u) as [u1 [[]|e]]; cbn in *; unfold within_max in *;
    [|by rewrite H1, H2].
  destruct (response_spec io response u1) as (_ & -> & -> & _). by rewrite H1, H2.
Qed.

Lemma accept_within cfg io p topic u :
  within_max max u → within_max max (acceptPublish cfg io p topic u).1.
Proof.
  intros H. unfold acceptPublish. pose proof (quota_room io p u) as Hroom. pose proof (quota_quiet io p u) as Hq0.
  unfold and_then at 1. destruct (trackIncomingPublishQuota io p u) as [u1 [[]|e]]; cbn [fst snd] in *; [|by eapply within_quiet].
  pose proof (within_quiet _ _ Hq0 H) as H1. rewrite (proj1 H) in Hroom.
  assert (∀ r, within_max max r.1 → within_max max (let '(u, res) := r in (cleanupQuota p u, res) : Uplink * result string unit).1) as Hc.
  { intros [v res] Hv. cbn. eapply within_quiet; [apply cleanupQuota_quiet|done]. }
  apply Hc. unfold buildPublishResponse. destruct (Z.eqb_spec (pub_QoS p) 2) as [Hq|Hq].
  - rewrite (proj2 (Z.eqb_neq _ _)) by lia. specialize (Hroom u1 Hq eq_refl Hmax).
    destruct (store_spec io p (if noMatchingSubscribers cfg io then PubrecNoMatchingSubscribers else 0) u1) as (_ & _ & R3 & m & Hm & _).
    destruct (storeQoS2Publish _ _ _ _) as [u2 r]; cbn [fst] in *.
    assert (within_max max u2) as H2.
    { split; [by rewrite R3; apply H1|]. apply map_subseteq_size in Hm. rewrite map_size_insert in Hm.
      destruct (q2_waiting (up_QoS2 u1) !! _); cbn [id] in Hm; lia. }
    unfold and_then at 1. destruct r as [[]|e]; cbn [fmap result_fmap fst snd]; [|done].
    apply within_then with u2; [done|apply process_quiet|]. intros _ _ H3.
    unfold dispatchLivePublish. rewrite Hq. cbn [Z.eqb Pos.eqb and_then snd fst].
    eapply within_quiet; [apply pubrec_quiet|done].
  - destruct (Z.eqb_spec (pub_QoS p) 1); unfold and_then at 1; cbn [fst snd];
      (apply within_then with u1; [done|apply process_quiet|]); intros _ _ H2; by apply live_within.
Qed.

Lemma publish_within cfg io p u :
  within_max max u → within_max max (handlePublish cfg io p u).1.
Proof.
  intros H. destruct (publish_cases cfg io p u) as [Hq|(u1 & p1 & topic & p' & v & _ & _ & Hq & ->)];
    [by eapply within_quiet|]. apply accept_within. by eapply within_quiet.
Qed.

Lemma pubrel_within io a u : within_max max u → within_max max (handlePubRel io a u).1.
Proof.
  intros H. unfold handlePubRel. assert (∀ v, within_max max v → within_max max (finishPubRel io (ack_PacketID a) v).1) as Hf
    by (intros; eapply within_quiet; [apply finish_quiet|done]).
  destruct (qos2_Read _ _) as [m|]; [|eapply within_quiet; [by apply up_quiet_write|done]].
  case_if; [by apply Hf|]. destruct (msg_Publish m) as [p|]; [|by apply Hf]. case_if; [by apply Hf|].
  apply within_then with u; [done|destruct (pub_Retain p); auto with quiet|]. intros _ _ H1. case_if; [by apply Hf|].
  destruct (route_rest io (msg_MessageID m) (clonePublishForLiveDelivery p) (pub_Duplicate p)
    (if pub_Retain p then commitRetainedPublish io p (pub_Topic p) u else (u, Ok tt)).1) as (R1 & _ & R2).
  unfold and_then at 1. destruct (routePublish _ _ _ _ _) as [v [[]|e]]; cbn [fst snd] in *;
    (try apply Hf); unfold within_max in *; by rewrite R1, R2.
Qed.

Lemma run_within cfg xs : ∀ u, within_max max u → within_max max (up_run cfg xs u).
Proof.
  induction xs as [|[io x] xs IH]; intros u H; cbn; [done|]. destruct (up_done u); [done|].
  assert (within_max max (up_dispatch cfg io x u).1) as H1 by (destruct x; [by apply publish_within|by apply pubrel_within]).
  destruct (up_dispatch cfg io x u) as [u' [[]|e]]; [by apply IH|done].
Qed.
End within.

(** ** PUBACK comes last *)

(** What committing a retained message does. *)
Definition retained_effect (io : UplinkIO) (clientID : string) (p : Publish) (topic : string) (e : UpEffect) : Prop :=
  match pub_Payload p with
  | [] => e = URetainDelete topic
  | _ => ∃ r, newRetainMessageFromPublish p (ui_now io) clientID = Ok r ∧ e = URetainPut r
  end.

Lemma commit_ok io p topic u u' :
  commitRetainedPublish io p topic u = (u', Ok tt) →
  ∃ e, up_trace u' = up_trace u ++ [e] ∧ retained_effect io (up_ID u) p topic e.
Proof.
  unfold commitRetainedPublish, retained_effect. case_bool_decide as Hl.
  - destruct (ui_retain io); [done|]. intros [= <-]. exists (URetainDelete topic).
    apply nil_length_inv in Hl as ->. by destruct u.
  - destruct (newRetainMessageFromPublish _ _ _) as [r|] eqn:Hr; [|done]. destruct (ui_retain io); [done|]. intros [= <-].
    exists (URetainPut r). destruct (pub_Payload p); [done|]. split; [by destruct u|by exists r].
Qed.

Lemma no_ack_elem l a :
  Forall no_ack l → USent (PPuback a) ∈ l → mqtt5ReasonCodeIsError (ack_ReasonCode a) = false → False.
Proof. intros F Ha Herr. rewrite Forall_forall in F. specialize (F _ Ha). cbn in F. congruence. Qed.

(** The effects [l] accept nothing, or end with the routed message and its PUBACK. *)
Definition acked_last (io : UplinkIO) (clientID : string) (p : Publish) (topic : string) (l : list UpEffect) : Prop :=
  Forall no_ack l ∨
  ∃ l0 id a, l = l0 ++ [URouted true id (clonePublishForLiveDelivery p) (pub_Duplicate p); USent (PPuback a)] ∧
    Forall no_ack l0 ∧ pub_QoS p = 1 ∧ ack_PacketID a = pub_PacketID p ∧
    (pub_Retain p = true → ∃ e, e ∈ l0 ∧ retained_effect io clientID p topic e).

Lemma cleanup_trace p u : up_trace (cleanupQuota p u) = up_trace u.
Proof. unfold cleanupQuota. case_if; [done|]. by destruct u. Qed.

Lemma dispatch_trace io p u : pub_QoS p ≠ 2 →
  ∃ ok id, up_trace (dispatchLivePublish io p u).1 =
    up_trace u ++ [URouted ok id (clonePublishForLiveDelivery p) (pub_Duplicate p)] ∧
    (ok = true ↔ (dispatchLivePublish io p u).2 = Ok tt).
Proof.
  intros Hq. unfold dispatchLivePublish. rewrite (proj2 (Z.eqb_neq _ _)) by done.
  assert (up_trace (qos1DeliveryMessageID io p u).1 = up_trace u) as Ht.
  { unfold qos1DeliveryMessageID. case_if; [done|]. destruct (up_incomingQoS1MessageIDs u !! _); [done|]. by destruct u. }
  destruct (qos1DeliveryMessageID io p u) as [v id]; cbn in *. rewrite <-Ht. unfold routePublish.
  destruct (ui_route io), v; cbn; eexists _, id; (split; [reflexivity|by split]).
Qed.

Lemma live_acked io p topic (l0 : list UpEffect) clientID response u :
  pub_QoS p ≠ 2 → Forall no_ack l0 →
  match response with
  | Some packet => pub_QoS p = 1 ∧ ∃ c, packet = PPuback (mkAck None (pub_PacketID p) c) | None => True end →
  (pub_Retain p = true → ∃ e, e ∈ l0 ∧ retained_effect io clientID p topic e) →
  ∃ l, up_trace (and_then (dispatchLivePublish io p u) (λ _ u, writePublishResponse io response u)).1 = up_trace u ++ l ∧
    acked_last io clientID p topic (l0 ++ l).
Proof.
  intros Hq F0 Hresp Hret. destruct (dispatch_trace io p u Hq) as (ok & id & Ht & Hok).
  unfold and_then. destruct (dispatchLivePublish io p u) as [u1 [[]|e]]; cbn [fst snd] in *.
  2:{ eexists. split; [exact Ht|]. left. apply Forall_app. split; [done|by repeat constructor]. }
  assert (ok = true) as -> by (by apply Hok). unfold writePublishResponse. destruct response as [packet|].
  2:{ eexists. split; [exact Ht|]. left. apply Forall_app. split; [done|by repeat constructor]. }
  destruct Hresp as (Hq1 & c & ->). unfold up_write.
  assert (∀ x v, up_trace (clearQoS1DeliveryMessageID x v) = up_trace v) as Hclear.
  { intros x v. unfold clearQoS1DeliveryMessageID. destruct x; try done. case_if; [done|]. by destruct v. }
  destruct (ui_write io); cbn [fst].
  - exists [URouted true id (clonePublishForLiveDelivery p) (pub_Duplicate p); USent (PPuback (mkAck None (pub_PacketID p) c))].
    split; [rewrite Hclear; destruct u1; cbn in *; by rewrite Ht, <-app_assoc|]. right. by eexists l0, id, _.
  - eexists. split; [destruct u1; cbn in *; by rewrite Ht, <-app_assoc|]. left.
    apply Forall_app. split; [done|by repeat constructor].
  - eexists. split; [destruct u1; cbn in *; exact Ht|]. left. apply Forall_app. split; [done|by repeat constructor].
Qed.

Lemma store_trace io p c u : ∃ l, up_trace (storeQoS2Publish io p c u).1 = up_trace u ++ l ∧ Forall no_ack l.
Proof.
  unfold storeQoS2Publish. set (msg := mkMessage _ _ _ _). set (v := up_with_QoS2 _ u).
  assert (up_trace v = up_trace u) as <- by (by destruct u).
  pose proof (persist_quiet io msg v) as Hp. destruct (persistIncomingQoS2WaitingPubrel io msg v) as [w [[]|e]]; cbn in *.
  - by destruct Hp.
  - apply quiet_trace. etrans; [exact Hp|apply quiet_delete].
Qed.

Lemma accept_acked cfg io p topic u :
  ∃ l, up_trace (acceptPublish cfg io p topic u).1 = up_trace u ++ l ∧ acked_last io (up_ID u) p topic l.
Proof.
  unfold acceptPublish. pose proof (quota_quiet io p u) as Hq0. unfold and_then at 1.
  destruct (trackIncomingPublishQuota io p u) as [u1 [[]|e]]; cbn [fst snd] in *;
    destruct (quiet_trace _ _ Hq0) as (l1 & Ht1 & F1); [|by eexists; split; [exact Ht1|left]].
  rewrite <-(quiet_ID _ _ Hq0).
  assert (∀ r : Uplink * result string unit, (∃ l, up_trace r.1 = up_trace u1 ++ l ∧ acked_last io (up_ID u1) p topic (l1 ++ l)) →
    ∃ l, up_trace (let '(u, res) := r in (cleanupQuota p u, res)).1 = up_trace u ++ l ∧ acked_last io (up_ID u1) p topic l) as Hgo.
  { intros [v res] (l & Hl & Ha). cbn in *. exists (l1 ++ l). by rewrite cleanup_trace, Hl, Ht1, app_assoc. }
  apply Hgo. clear Hgo. unfold buildPublishResponse. destruct (Z.eqb_spec (pub_QoS p) 2) as [Hq|Hq].
  - rewrite (proj2 (Z.eqb_neq _ _)) by lia.
    destruct (store_trace io p (if noMatchingSubscribers cfg io then PubrecNoMatchingSubscribers else 0) u1) as (l2 & Ht2 & F2).
    destruct (storeQoS2Publish _ _ _ _) as [u2 r]; cbn [fst] in Ht2. unfold and_then at 1.
    destruct r as [[]|e]; cbn [fmap result_fmap fst snd]; [|by exists l2; split; [|left; apply Forall_app]].
    unfold processRetainedPublish, dispatchLivePublish. rewrite Hq, orb_true_r. cbn [Z.eqb Pos.eqb and_then snd fst].
    destruct (quiet_trace _ _ (pubrec_quiet io (mkAck None (pub_PacketID p)
      (if noMatchingSubscribers cfg io then PubrecNoMatchingSubscribers else 0)) u2)) as (l3 & Ht3 & F3).
    exists (l2 ++ l3). rewrite Ht3, Ht2, app_assoc. split; [done|]. left. rewrite !Forall_app. done.
  - assert (∀ response, match response with
        | Some packet => pub_QoS p = 1 ∧ ∃ c, packet = PPuback (mkAck None (pub_PacketID p) c) | None => True end →
      ∃ l, up_trace (and_then (processRetainedPublish io p topic u1) (λ _ u, and_then (dispatchLivePublish io p u)
        (λ _ u, writePublishResponse io response u))).1 = up_trace u1 ++ l ∧ acked_last io (up_ID u1) p topic (l1 ++ l)) as Hgo.
    { intros response Hresp. pose proof (process_quiet io p topic u1) as Hp.
      destruct (processRetainedPublish io p topic u1) as [u2 r] eqn:Hproc. cbn [fst] in Hp.
      destruct (quiet_trace _ _ Hp) as (l2 & Ht2 & F2). unfold and_then at 1. destruct r as [[]|e]; cbn [fst snd].
      2:{ exists l2. split; [done|]. left. by apply Forall_app. }
      destruct (live_acked io p topic (l1 ++ l2) (up_ID u1) response u2) as (l & Hl & Ha); [done|by apply Forall_app|done| |].
      - intros Hret. revert Hproc. unfold processRetainedPublish. rewrite Hret, (proj2 (Z.eqb_neq _ _)) by lia. cbn [negb orb].
        intros (e & He & Hr)%commit_ok. exists e. split; [|done]. apply elem_of_app. right.
        rewrite Ht2 in He. apply app_inv_head in He as ->. left.
      - exists (l2 ++ l). by rewrite Hl, Ht2, <-!app_assoc in *. }
    destruct (Z.eqb_spec (pub_QoS p) 1); unfold and_then at 1; cbn [fst snd]; apply Hgo; [by eauto|done].
Qed.

(** ** The theorems *)

(** A connection before its first packet, with the flows restored from the session. *)
Definition connection_start (u : Uplink) : Prop :=
  up_trace u = [] ∧ up_incomingQoS1MessageIDs u = ∅ ∧
  ∀ k k' m m', q2_waiting (up_QoS2 u) !! k = Some m → q2_waiting (up_QoS2 u) !! k' = Some m' →
    msg_MessageID m = msg_MessageID m' → k = k'.

Definition start_ids (u : Uplink) : gset string :=
  list_to_set ((λ x, msg_MessageID x.2) <$> map_to_list (q2_waiting (up_QoS2 u))).

(** On one connection no message is handed to the router twice: over every
    sequence of PUBLISH and PUBREL packets, with any failure of the plugin, the
    router, the stores or the writes at any point and with retransmitted packets,
    the non-nil identifiers of the routed messages are pairwise different, provided
    [uuid.New] gives new identifiers. *)
Theorem uplink_routes_once cfg u xs :
  connection_start u → fresh_ids (start_ids u) xs → NoDup (routed_ids (up_trace (up_run cfg xs u))).
Proof.
  intros (Ht & Hi & Hinj) Hf. apply (run_once _ _ (start_ids u)); [|done]. split; rewrite ?Ht; try done.
  - apply NoDup_nil_2.
  - set_solver.
  - intros k m Hk. split; [|set_solver]. apply elem_of_list_to_set, list_elem_of_fmap.
    exists (k, m). split; [done|]. by apply elem_of_map_to_list.
Qed.

(** C32. The client cannot open more QoS 2 flows than the server announced: on a
    connection that starts within the server's Receive Maximum, the number of QoS 2
    messages waiting for PUBREL never exceeds it, whatever is sent and whatever
    fails. *)
Theorem server_receive_maximum_kept cfg u xs :
  0 < up_serverReceiveMaximum u →
  Z.of_nat (size (q2_waiting (up_QoS2 u))) ≤ up_serverReceiveMaximum u →
  Z.of_nat (size (q2_waiting (up_QoS2 (up_run cfg xs u)))) ≤ up_serverReceiveMaximum u.
Proof. intros Hmax H. by apply (run_within (up_serverReceiveMaximum u) Hmax cfg xs u). Qed.

(** C17. A QoS 1 message is acknowledged only when the broker has taken it over: if
    handling a PUBLISH sends a PUBACK whose reason is not an error, then the message
    the plugin let through has QoS 1 and the packet identifier of the PUBACK, the
    last thing done before the PUBACK was routing it with success, and if it is a
    retained message the retained store was updated before that. *)
Theorem puback_after_route cfg io p u u' res l a :
  handlePublish cfg io p u = (u', res) → up_trace u' = up_trace u ++ l →
  USent (PPuback a) ∈ l → mqtt5ReasonCodeIsError (ack_ReasonCode a) = false →
  ∃ u1 p1 topic p' l0 id,
    preparePublishPacket cfg io p u = (u1, p1, Ok (Some topic)) ∧ ui_plugin io p1 = (p', true) ∧
    pub_QoS p' = 1 ∧ ack_PacketID a = pub_PacketID p' ∧
    l = l0 ++ [URouted true id (clonePublishForLiveDelivery p') (pub_Duplicate p'); USent (PPuback a)] ∧
    (pub_Retain p' = true → ∃ e, e ∈ l0 ∧ retained_effect io (up_ID u) p' topic e).
Proof.
  intros H Hl Ha Herr. destruct (publish_cases cfg io p u) as [Hq|(u1 & p1 & topic & p' & v & Hp & Hplug & Hq & Hacc)].
  { rewrite H in Hq. destruct (quiet_trace _ _ Hq) as (l' & Hl' & F). cbn in Hl'. rewrite Hl in Hl'.
    apply app_inv_head in Hl' as <-. by destruct (no_ack_elem l a). }
  rewrite H in Hacc. destruct (quiet_trace _ _ Hq) as (l3 & Ht3 & F3).
  destruct (accept_acked cfg io p' topic v) as (l4 & Ht4 & Hacked).
  rewrite <-Hacc in Ht4. cbn [fst] in Ht4. rewrite Hl, Ht3, <-app_assoc in Ht4. apply app_inv_head in Ht4 as ->.
  apply elem_of_app in Ha as [Ha|Ha]; [by destruct (no_ack_elem l3 a)|].
  destruct Hacked as [F|(l0 & id & a' & -> & F0 & Hq1 & Hid & Hret)]; [by destruct (no_ack_elem l4 a)|].
  apply elem_of_app in Ha as [Ha|Ha]; [by destruct (no_ack_elem l0 a)|].
  assert (a' = a) as ->.
  { apply elem_of_cons in Ha as [?|Ha]; [done|]. apply list_elem_of_singleton in Ha. congruence. }
  exists u1, p1, topic, p', (l3 ++ l0), id. rewrite <-(quiet_ID _ _ Hq), app_assoc. split_and!; try done.
  intros (e & He & Hre)%Hret. exists e. split; [|done]. apply elem_of_app. by right.
Qed.

(** ** Examples *)

Definition example_config : UplinkConfig := mkUplinkConfig 10 2 1 0 "".
Definition example_id (n : Z) : string := "id-" +:+ pretty n.
Definition example_ui (n : Z) (route remove : option string) : UplinkIO :=
  mkUplinkIO (1000 + n) (example_id n) (λ p, (p, true)) (Ok true) None remove None route WSent.
Definition example_uplink (expiry : Z) : Uplink :=
  mkUplink "c" "tok" expiry 1 (Some NewTopicAliasManager) None NewQoS2ReceiveStore ∅ ∅ NewCore false [].
Definition example_publish (qos id : Z) : Publish := mkPublish (go_bytes "on") "lamp" None id qos false false.

(** A QoS 2 message sent three times, released twice, and one more than allowed. *)
Definition example_run : list (UplinkIO * UpPacket) :=
  [(example_ui 1 None None, InPublish (example_publish 2 7)); (example_ui 2 None None, InPublish (example_publish 2 7));
   (example_ui 3 None None, InPublish (example_publish 2 7)); (example_ui 4 None None, InPubrel (mkAck None 7 0));
   (example_ui 5 None None, InPubrel (mkAck None 7 0)); (example_ui 6 None None, InPublish (example_publish 1 8));
   (example_ui 7 None None, InPublish (example_publish 2 9)); (example_ui 8 None None, InPublish (example_publish 2 10))].

Lemma example_start_ok : connection_start (example_uplink 0).
Proof. split_and!; [done..|]. intros k k' m m' H. cbn in H. by rewrite lookup_empty in H. Qed.

Lemma uplink_routes_once_witness :
  let u := up_run example_config example_run (example_uplink 0) in
  routed_ids (up_trace u) = [example_id 1; example_id 6] ∧ NoDup (routed_ids (up_trace u)).
Proof.
  split; [vm_compute; reflexivity|]. refine (uplink_routes_once example_config (example_uplink 0) example_run example_start_ok _).
  split; [apply (bool_decide_unpack _); vm_compute; reflexivity|].
  intros id _ H. unfold start_ids in H. cbn in H. by apply not_elem_of_empty in H.
Defined.

Lemma server_receive_maximum_kept_witness :
  let u := up_run example_config example_run (example_uplink 0) in
  size (q2_waiting (up_QoS2 u)) = 1%nat ∧ Z.of_nat (size (q2_waiting (up_QoS2 u))) ≤ 1.
Proof.
  split; [vm_compute; reflexivity|].
  apply (server_receive_maximum_kept example_config (example_uplink 0) example_run); vm_compute; done.
Defined.

Lemma puback_after_route_witness :
  ∃ id, up_trace (handlePublish example_config (example_ui 6 None None) (example_publish 1 8) (example_uplink 0)).1 =
    [URouted true id (example_publish 1 8) false; USent (PPuback (mkAck None 8 0))].
Proof.
  destruct (handlePublish example_config (example_ui 6 None None) (example_publish 1 8) (example_uplink 0)) as [u' res] eqn:E.
  destruct (puback_after_route example_config (example_ui 6 None None) (example_publish 1 8) (example_uplink 0) u' res
    (up_trace u') (mkAck None 8 0) E) as (u1 & p1 & topic & p' & l0 & id & Hp & Hpl & _ & _ & Hl & _).
  - reflexivity.
  - vm_compute in E. injection E as <- _. cbn. right. left.
  - reflexivity.
  - exists id. cbn [fst]. vm_compute in Hp. injection Hp as _ <- _. vm_compute in Hpl. injection Hpl as <-.
    rewrite Hl. assert (l0 = []) as ->; [|reflexivity]. vm_compute in E. injection E as <- _. cbn in Hl.
    destruct l0 as [|x [|y [|z l]]]; [done|discriminate..].
Defined.
