(* ===== verification/UplinkFlow.v ===== *)
(** * Messages from the client: what the broker does with a working service

    The abstract receiver of MQTT 5 section 4.3: QoS 0 and 1 messages are taken over
    at once, a QoS 2 message when its flow is released, and every packet is answered.
    While the services behind the broker work and the client keeps to the rules, the
    handlers implement it; so a QoS 2 message is routed exactly once however often
    its packets are sent. *)

From S2P Require Import Prelude GoStrings Mqtt5 Topic Wire WireParse WireProps WireCodec SessionCore TopicAlias Inflight Downlink Retain Uplink UplinkProofs.

(** ** The abstract receiver *)

Record Receiver := mkReceiver {
  rx_open : gmap Z (Publish * Z);
  rx_routed : list Publish;
  rx_sent : list Packet }.

(** [none]: no subscriber matches, and the broker says so. *)
Definition rx_publish (none : bool) (p : Publish) (r : Receiver) : Receiver :=
  let code := if none then 0x10 else 0 in
  let id := pub_PacketID p in
  if pub_QoS p =? 2 then
    match rx_open r !! id with
    | Some (_, c) => mkReceiver (rx_open r) (rx_routed r) (rx_sent r ++ [PPubrec (mkAck None id c)])
    | None => mkReceiver (<[id := (p, code)]> (rx_open r)) (rx_routed r) (rx_sent r ++ [PPubrec (mkAck None id code)])
    end
  else mkReceiver (rx_open r) (rx_routed r ++ [clonePublishForLiveDelivery p])
         (rx_sent r ++ if pub_QoS p =? 1 then [PPuback (mkAck None id code)] else []).

Definition rx_pubrel (a : Ack) (r : Receiver) : Receiver :=
  let id := ack_PacketID a in
  match rx_open r !! id with
  | None => mkReceiver (rx_open r) (rx_routed r) (rx_sent r ++ [PPubcomp (mkAck None id 0x92)])
  | Some (p, c) =>
      mkReceiver (delete id (rx_open r))
        (rx_routed r ++ if mqtt5ReasonCodeIsError (ack_ReasonCode a) || (c =? 0x10) then [] else [clonePublishForLiveDelivery p])
        (rx_sent r ++ [PPubcomp (mkAck None id 0)])
  end.

Definition rx_step (none : bool) (x : UpPacket) (r : Receiver) : Receiver :=
  match x with InPublish p => rx_publish none p r | InPubrel a => rx_pubrel a r end.

Fixpoint rx_run (cfg : UplinkConfig) (xs : list (UplinkIO * UpPacket)) (r : Receiver) : Receiver :=
  match xs with [] => r | (io, x) :: xs => rx_run cfg xs (rx_step (noMatchingSubscribers cfg io) x r) end.

(** ** When everything works *)

(** A PUBLISH the broker has no objection to. *)
Record publish_valid (cfg : UplinkConfig) (p : Publish) : Prop := {
  pv_topic : pub_Topic p ≠ "";
  pv_wildcard : HasWildcard (pub_Topic p) = false;
  pv_subids : (pub_Properties p ≫= λ q, head (pup_SubscriptionIdentifier q)) = None;
  pv_alias : packet_alias p = None;
  pv_format : publishPayloadFormatInvalid p = false;
  pv_qos : 0 ≤ pub_QoS p ≤ 2;
  pv_maxqos : pub_QoS p ≤ uc_MaxQos cfg;
  pv_retain : pub_Retain p = true → uc_RetainAvailable cfg ≠ 0 ∧
    ∀ now id, is_Ok (newRetainMessageFromPublish p now id);
  pv_qos0 : pub_QoS p = 0 → pub_PacketID p = 0 ∧ pub_Duplicate p = false;
  pv_id : pub_QoS p ≠ 0 → pub_PacketID p ≠ 0 }.

(** The plugin, the router, the stores and the connection work; the clock is within
    the time a flow is kept. *)
Record io_works (t0 : Z) (io : UplinkIO) : Prop := {
  iw_plugin : ∀ p, ui_plugin io p = (p, true);
  iw_upsert : ui_upsert io = None;
  iw_remove : ui_remove io = None;
  iw_retain : ui_retain io = None;
  iw_route : ui_route io = None;
  iw_write : ui_write io = WSent;
  iw_now : t0 ≤ ui_now io ≤ t0 + defaultQoS2WaitingTTL }.

(** A packet the client may send: a valid PUBLISH within the Receive Maximum (0: none
    announced), or a PUBREL. *)
Definition may_send (cfg : UplinkConfig) (max : Z) (x : UpPacket) (r : Receiver) : Prop :=
  match x with
  | InPublish p => publish_valid cfg p ∧
      (max = 0 ∨ Z.of_nat (size (rx_open r)) < max ∨ pub_QoS p = 2 ∧ is_Some (rx_open r !! pub_PacketID p))
  | InPubrel a => True
  end.

Fixpoint well_behaved (cfg : UplinkConfig) (t0 max : Z) (xs : list (UplinkIO * UpPacket)) (r : Receiver) : Prop :=
  match xs with
  | [] => True
  | (io, x) :: xs => io_works t0 io ∧ may_send cfg max x r ∧
      well_behaved cfg t0 max xs (rx_step (noMatchingSubscribers cfg io) x r)
  end.

(** ** The simulation *)

Definition routed_publish (e : UpEffect) : option Publish :=
  match e with URouted true _ p _ => Some p | _ => None end.
Definition sent_packet (e : UpEffect) : option Packet := match e with USent p => Some p | _ => None end.

Definition flow_of (m : Message) : option Publish * Z := (msg_Publish m, msg_AckReasonCode m).

Record Follows (t0 : Z) (r : Receiver) (u : Uplink) : Prop := {
  fo_open : flow_of <$> q2_waiting (up_QoS2 u) = (λ x, (Some x.1, x.2)) <$> rx_open r;
  fo_codes : ∀ k p c, rx_open r !! k = Some (p, c) → c = 0 ∨ c = 0x10;
  fo_valid : ∀ k p c, rx_open r !! k = Some (p, c) → pub_Retain p = true →
    ∀ now id, is_Ok (newRetainMessageFromPublish p now id);
  fo_seen : ∀ k t, q2_lastSeen (up_QoS2 u) !! k = Some t → t0 ≤ t;
  fo_done : up_done u = false;
  fo_limiter : up_limiter u = None;
  fo_inflight : up_incomingQoS1Inflight u = ∅;
  fo_ids : up_incomingQoS1MessageIDs u = ∅;
  fo_routed : omap routed_publish (up_trace u) = rx_routed r;
  fo_sent : omap sent_packet (up_trace u) = rx_sent r }.

Lemma cleanup_none t0 now q :
  now ≤ t0 + defaultQoS2WaitingTTL → (∀ k t, q2_lastSeen q !! k = Some t → t0 ≤ t) →
  cleanupExpired defaultQoS2WaitingTTL now q = q.
Proof.
  intros Hnow Hseen. unfold cleanupExpired. change (defaultQoS2WaitingTTL <=? 0) with false. cbv iota.
  assert (filter (λ x, defaultQoS2WaitingTTL < now - x.2) (q2_lastSeen q) = ∅) as ->.
  { apply map_empty. intros k. apply map_lookup_filter_None. right. intros t Hk. cbn. specialize (Hseen k t Hk). lia. }
  destruct q as [w f l]; cbn. f_equal; apply map_filter_id; intros k x _; apply lookup_empty.
Qed.

Section flow.
Context (cfg : UplinkConfig) (t0 : Z).
Implicit Types (r : Receiver) (u : Uplink) (p : Publish).

Lemma follows_waiting r u k : Follows t0 r u →
  flow_of <$> q2_waiting (up_QoS2 u) !! k = (λ x, (Some x.1, x.2)) <$> rx_open r !! k.
Proof. intros H. rewrite <-!lookup_fmap. by rewrite (fo_open _ _ _ H). Qed.

Lemma follows_size r u : Follows t0 r u → size (q2_waiting (up_QoS2 u)) = size (rx_open r).
Proof.
  intros H. rewrite <-(map_size_fmap flow_of), (fo_open _ _ _ H). apply map_size_fmap.
Qed.

Lemma follows_cleanup r u io : Follows t0 r u → io_works t0 io →
  cleanupExpired defaultQoS2WaitingTTL (ui_now io) (up_QoS2 u) = up_QoS2 u.
Proof. intros H Hio. apply (cleanup_none t0); [apply Hio|apply H]. Qed.

Lemma prepare_valid io p u : publish_valid cfg p →
  preparePublishPacket cfg io p u = (u, p, Ok (Some (pub_Topic p))).
Proof.
  intros H. unfold preparePublishPacket.
  assert (normalizeInboundPublishFlags p = p) as ->.
  { unfold normalizeInboundPublishFlags. destruct (Z.eqb_spec (pub_QoS p) 0) as [Hq|]; [|done].
    destruct (pv_qos0 _ _ H Hq) as [Hid Hd]. destruct p; cbn in *. by subst. }
  assert (applyPublishTopicAlias cfg io p u = (u, p, Ok (pub_Topic p))) as ->.
  { unfold applyPublishTopicAlias, ApplyUplink. rewrite (pv_alias _ _ H). by destruct u as [???? [m|]]. }
  unfold validatePublishEnvelope. rewrite bool_decide_false by apply H. rewrite (pv_wildcard _ _ H).
  assert (match pub_Properties p with None => false
          | Some props => bool_decide (length (pup_SubscriptionIdentifier props) ≠ 0%nat) end = false) as ->.
  { pose proof (pv_subids _ _ H) as Hs. destruct (pub_Properties p) as [q|]; [|done]. cbn in Hs.
    by destruct (pup_SubscriptionIdentifier q). }
  by rewrite (pv_format _ _ H).
Qed.

Lemma caps_valid io p u : publish_valid cfg p → enforcePublishCapabilities cfg io p u = (u, Ok tt).
Proof.
  intros H. unfold enforcePublishCapabilities. pose proof (pv_maxqos _ _ H). rewrite (proj2 (Z.ltb_ge _ _)) by done.
  destruct (pub_Retain p) eqn:Hr; [|by rewrite andb_false_r].
  destruct (pv_retain _ _ H Hr) as [Hne _]. by rewrite (proj2 (Z.eqb_neq _ _)) by done.
Qed.

(** A handler call on a valid, new PUBLISH comes down to [acceptPublish]. *)
Lemma publish_accepted io p r u :
  Follows t0 r u → io_works t0 io → publish_valid cfg p →
  (pub_QoS p = 2 → rx_open r !! pub_PacketID p = None) →
  handlePublish cfg io p u = acceptPublish cfg io p (pub_Topic p) u.
Proof.
  intros Hf Hio Hv Hnew. unfold handlePublish. rewrite prepare_valid by done.
  assert (handleRepeatedPublish io p u = None) as ->.
  { unfold handleRepeatedPublish, qos2_Read. case_if; [done|]. apply orb_false_iff in Heqb as [Hq _].
    apply negb_false_iff, Z.eqb_eq in Hq. pose proof (follows_waiting r u (pub_PacketID p) Hf) as Hw.
    rewrite (Hnew Hq) in Hw. by destruct (q2_waiting (up_QoS2 u) !! pub_PacketID p). }
  rewrite (iw_plugin _ _ Hio), (caps_valid io p u Hv). unfold and_then; cbn [snd fst].
  unfold enforceIncomingPublishRate. by rewrite (fo_limiter _ _ _ Hf).
Qed.

Lemma repeated_answer io p m r u :
  Follows t0 r u → io_works t0 io → publish_valid cfg p → pub_QoS p = 2 →
  rx_open r !! pub_PacketID p = Some m →
  handlePublish cfg io p u = (up_emit (USent (PPubrec (mkAck None (pub_PacketID p) m.2))) u, Ok tt).
Proof.
  intros Hf Hio Hv Hq Hm. unfold handlePublish. rewrite prepare_valid by done.
  pose proof (follows_waiting r u (pub_PacketID p) Hf) as Hw. rewrite Hm in Hw.
  unfold handleRepeatedPublish, qos2_Read. rewrite Hq. rewrite (proj2 (Z.eqb_neq (pub_PacketID p) 0)) by (apply Hv; lia).
  cbn [negb Z.eqb Pos.eqb orb].
  destruct (q2_waiting (up_QoS2 u) !! pub_PacketID p) as [s|]; [|done]. injection Hw as _ Hc.
  rewrite Hc. destruct m as [q c]; cbn [snd] in *.
  assert (mqtt5ReasonCodeIsError c = false) as -> by (destruct (fo_codes _ _ _ Hf _ _ _ Hm) as [->| ->]; done).
  by rewrite (iw_write _ _ Hio).
Qed.

(** Effects the receiver does not see, and changes of the session center. *)
Lemma follows_emit r u e :
  routed_publish e = None → sent_packet e = None → Follows t0 r u → Follows t0 r (up_emit e u).
Proof.
  intros H1 H2 [????????? ?]. destruct u; split; cbn in *; try done; rewrite omap_app; cbn; rewrite ?H1, ?H2, app_nil_r; done.
Qed.

Lemma follows_center r u c : Follows t0 r u → Follows t0 r (up_with_center c u).
Proof. intros [????????? ?]. by destruct u; split. Qed.

Lemma commit_works io p topic r u :
  Follows t0 r u → io_works t0 io → (∀ now id, is_Ok (newRetainMessageFromPublish p now id)) →
  ∃ u', commitRetainedPublish io p topic u = (u', Ok tt) ∧ Follows t0 r u' ∧
    ∃ e, u' = up_emit e u.
Proof.
  intros Hf Hio Henc. unfold commitRetainedPublish. rewrite (iw_retain _ _ Hio).
  case_if; [exists (up_emit (URetainDelete topic) u); split_and!; [done|by apply follows_emit|by exists (URetainDelete topic)]|].
  destruct (Henc (ui_now io) (up_ID u)) as [m ->].
  exists (up_emit (URetainPut m) u). split_and!; [done|by apply follows_emit|by exists (URetainPut m)].
Qed.

Lemma quota_works io p r u :
  Follows t0 r u → io_works t0 io →
  (up_serverReceiveMaximum u = 0 ∨ Z.of_nat (size (rx_open r)) < up_serverReceiveMaximum u) →
  trackIncomingPublishQuota io p u =
    (if (pub_QoS p =? 1) && negb (pub_PacketID p =? 0) then up_with_inflight {[pub_PacketID p]} u else u, Ok tt).
Proof.
  intros Hf Hio Hmax. unfold trackIncomingPublishQuota, qos2_Count.
  destruct (Z.eqb_spec (pub_QoS p) 1) as [Hq1|Hq1], (Z.eqb_spec (pub_QoS p) 2) as [Hq2|Hq2]; cbn [negb andb orb]; [lia|..|done].
  all: rewrite (follows_cleanup r u io Hf Hio).
  all: assert (up_with_QoS2 (up_QoS2 u) u = u) as -> by (by destruct u).
  all: rewrite (fo_inflight _ _ _ Hf), size_empty, (follows_size r u Hf).
  all: rewrite (proj2 (andb_false_iff _ _)) by (rewrite Z.ltb_ge, Z.leb_gt; lia).
  - destruct (Z.eqb_spec (pub_PacketID p) 0); [done|]. by rewrite union_empty_r_L.
  - done.
Qed.

Lemma persist_works io p c u : io_works t0 io → pub_QoS p = 2 → pub_PacketID p ≠ 0 → ∃ center,
  persistIncomingQoS2WaitingPubrel io (mkMessage (ui_newID io) c (Some p) false) u = (up_with_center center u, Ok tt).
Proof.
  intros Hio Hq Hid. unfold persistIncomingQoS2WaitingPubrel, shouldPersistIncomingQoS2.
  destruct (negb (negb (bool_decide (up_ID u = "")) && (0 <? up_sessionExpiryInterval u))) eqn:E; [exists (up_center u); by destruct u|]. apply negb_false_iff, andb_true_iff in E as [E _].
  unfold ConvertToProtoUnfinishedMessage. cbn [msg_Publish]. rewrite Hq. cbn [negb Z.eqb Pos.eqb um_PacketID].
  rewrite (proj2 (Z.eqb_neq (pub_PacketID p) 0)) by done. rewrite (iw_upsert _ _ Hio).
  unfold upsertIncomingUnfinished. cbn [uir_ClientID uir_PacketID uir_UnfinishedMessage uir_OwnerToken uir_NowUnixNano].
  apply negb_true_iff in E. rewrite E, (proj2 (Z.eqb_neq (pub_PacketID p) 0)) by done.
  case_if; [exists (up_center u); by destruct u|].
  destruct (sessionExpired _ _); by eexists.
Qed.

Lemma remove_works io k u : io_works t0 io → ∃ center,
  removeIncomingQoS2Unfinished io k u = (up_with_center center u, Ok tt).
Proof.
  intros Hio. unfold removeIncomingQoS2Unfinished, shouldPersistIncomingQoS2.
  assert (∃ center, (u, Ok tt : result string unit) = (up_with_center center u, Ok tt)) as Hid by (exists (up_center u); by destruct u).
  destruct (negb (negb (bool_decide (up_ID u = "")) && (0 <? up_sessionExpiryInterval u)) || (k =? 0)) eqn:E; [done|].
  apply orb_false_iff in E as [E Hk]. apply negb_false_iff, andb_true_iff in E as [E _]. apply negb_true_iff in E.
  rewrite (iw_remove _ _ Hio). unfold removeIncomingUnfinished. cbn [rir_ClientID rir_PacketID rir_OwnerToken rir_NowUnixNano].
  rewrite E, Hk. case_if; [by eexists|]. case_if; [by eexists|].
  destruct (c_Sessions (up_center u) !! up_ID u); [|by eexists]. case_if; by eexists.
Qed.

(** The first copy of a QoS 2 message opens its flow. *)
Lemma flow_open io p r u :
  Follows t0 r u → io_works t0 io → publish_valid cfg p → pub_QoS p = 2 → rx_open r !! pub_PacketID p = None →
  (up_serverReceiveMaximum u = 0 ∨ Z.of_nat (size (rx_open r)) < up_serverReceiveMaximum u) →
  ∃ u', acceptPublish cfg io p (pub_Topic p) u = (u', Ok tt) ∧ Follows t0 (rx_publish (noMatchingSubscribers cfg io) p r) u' ∧
    up_serverReceiveMaximum u' = up_serverReceiveMaximum u.
Proof.
  intros Hf Hio Hv Hq Hnew Hmax. unfold acceptPublish. rewrite (quota_works io p r u) by done. rewrite Hq.
  unfold and_then at 1; cbn [fst snd Z.eqb Pos.eqb andb]. unfold buildPublishResponse, storeQoS2Publish. rewrite Hq.
  cbn [Z.eqb Pos.eqb]. change PubrecNoMatchingSubscribers with 0x10. set (code := if noMatchingSubscribers cfg io then 0x10 else 0).
  unfold qos2_Store. cbn [msg_Publish]. rewrite (follows_cleanup r u io) by done.
  pose proof (follows_waiting r u (pub_PacketID p) Hf) as Hw. rewrite Hnew in Hw.
  destruct (q2_waiting (up_QoS2 u) !! pub_PacketID p) eqn:Hk; [done|]. cbn [fst].
  set (msg := mkMessage _ _ _ _). set (q := mkQoS2 _ _ _). set (v := up_with_QoS2 q u).
  destruct (persist_works io p code v Hio Hq) as [center Hp]; [apply Hv; lia|]. fold msg in Hp. rewrite Hp.
  unfold and_then; cbn [fst snd fmap result_fmap]. unfold processRetainedPublish, dispatchLivePublish, writePublishResponse.
  rewrite Hq, orb_true_r, (iw_write _ _ Hio). cbn [fst snd Z.eqb Pos.eqb up_write].
  unfold cleanupQuota. rewrite Hq. cbn [Z.eqb Pos.eqb negb orb]. eexists. split; [reflexivity|].
  unfold v. split; [|by destruct u]. destruct Hf as [Ho Hc Hvd Hs Hd Hl Hi Hids Hr Hsent].
  unfold rx_publish. rewrite Hq, Hnew. cbn [Z.eqb Pos.eqb]. fold code.
  destruct u; split; cbn in *; try done.
  - by rewrite !fmap_insert, Ho.
  - intros k p' c' [[<- [= <- <-]]|[_ Hk']]%lookup_insert_Some; [|by eapply Hc]. unfold code. destruct (noMatchingSubscribers cfg io); auto.
  - intros k p' c' [[<- [= <- <-]]|[_ Hk']]%lookup_insert_Some; [|by eapply Hvd]. intros Hret. by apply (pv_retain _ _ Hv).
  - intros k t [[<- <-]|[_ Hk']]%lookup_insert_Some; [apply Hio|by eapply Hs].
  - by rewrite omap_app, Hr, app_nil_r.
  - by rewrite omap_app, Hsent.
Qed.

(** A QoS 0 or 1 message is routed and answered at once. *)
Definition up_append (l : list UpEffect) (u : Uplink) : Uplink :=
  let 'mkUplink a b c d e f g h i j k t := u in mkUplink a b c d e f g h i j k (t ++ l).

Lemma process_works io p topic u : io_works t0 io → publish_valid cfg p → ∃ l,
  processRetainedPublish io p topic u = (up_append l u, Ok tt) ∧ omap routed_publish l = [] ∧ omap sent_packet l = [].
Proof.
  intros Hio Hv. unfold processRetainedPublish.
  assert (up_append [] u = u) as Hnil by (destruct u; cbn; by rewrite app_nil_r).
  destruct (pub_Retain p) eqn:Hr; [|by exists []; rewrite Hnil]. case_if; [by exists []; rewrite Hnil|].
  unfold commitRetainedPublish. rewrite (iw_retain _ _ Hio). case_if; [exists [URetainDelete topic]; by destruct u|].
  destruct (proj2 (pv_retain _ _ Hv Hr) (ui_now io) (up_ID u)) as [m ->]. exists [URetainPut m]. by destruct u.
Qed.

Lemma live_works io p r u :
  Follows t0 r u → io_works t0 io → publish_valid cfg p → pub_QoS p ≠ 2 →
  (up_serverReceiveMaximum u = 0 ∨ Z.of_nat (size (rx_open r)) < up_serverReceiveMaximum u) →
  ∃ u', acceptPublish cfg io p (pub_Topic p) u = (u', Ok tt) ∧ Follows t0 (rx_publish (noMatchingSubscribers cfg io) p r) u' ∧
    up_serverReceiveMaximum u' = up_serverReceiveMaximum u.
Proof.
  intros Hf Hio Hv Hq Hmax. unfold acceptPublish. rewrite (quota_works io p r u) by done.
  unfold and_then at 1; cbn [fst snd]. unfold buildPublishResponse. change PubackNoMatchingSubscribers with 0x10.
  rewrite (proj2 (Z.eqb_neq (pub_QoS p) 2)) by done. pose proof (pv_qos _ _ Hv) as Hrange.
  assert (pub_QoS p = 0 ∨ pub_QoS p = 1) as [Hq0|Hq1] by lia; [rewrite Hq0|rewrite Hq1]; cbn [Z.eqb Pos.eqb andb].
  - unfold and_then at 1; cbn [fst snd]. destruct (process_works io p (pub_Topic p) u Hio Hv) as (l & -> & Hl1 & Hl2).
    unfold and_then; cbn [fst snd]. unfold dispatchLivePublish, qos1DeliveryMessageID, routePublish, writePublishResponse, cleanupQuota.
    rewrite Hq0, (iw_route _ _ Hio). cbn [Z.eqb negb orb fst snd]. eexists. split; [reflexivity|]. split; [|by destruct u].
    unfold rx_publish. rewrite Hq0. cbn [Z.eqb]. destruct Hf as [Ho Hc Hvd Hs Hd Hli Hi Hids Hr Hsent].
    destruct u; split; cbn in *; try done; rewrite !omap_app, ?Hr, ?Hl1, ?Hsent, ?Hl2, ?app_nil_r; done.
  - assert (pub_PacketID p ≠ 0) as Hid by (apply Hv; lia). rewrite (proj2 (Z.eqb_neq (pub_PacketID p) 0)) by done. cbn [negb].
    unfold and_then at 1; cbn [fst snd]. set (u1 := up_with_inflight _ u).
    destruct (process_works io p (pub_Topic p) u1 Hio Hv) as (l & -> & Hl1 & Hl2).
    unfold and_then; cbn [fst snd]. unfold dispatchLivePublish, qos1DeliveryMessageID, routePublish, writePublishResponse, cleanupQuota.
    assert (up_incomingQoS1MessageIDs (up_append l u1) = ∅) as -> by (destruct u; apply Hf).
    rewrite Hq1, (iw_route _ _ Hio), (iw_write _ _ Hio), lookup_empty. cbn [Z.eqb Pos.eqb negb orb fst snd up_write].
    rewrite (proj2 (Z.eqb_neq (pub_PacketID p) 0)) by done. unfold clearQoS1DeliveryMessageID. cbn [ack_PacketID negb orb].
    rewrite (proj2 (Z.eqb_neq (pub_PacketID p) 0)) by done. eexists. split; [reflexivity|].
    unfold rx_publish. rewrite Hq1. cbn [Z.eqb Pos.eqb]. destruct Hf as [Ho Hc Hvd Hs Hd Hli Hi Hids Hr Hsent].
    split; [|by destruct u]. destruct u; split; cbn in *; try done.
    + by apply difference_diag_L.
    + by rewrite insert_empty, delete_singleton_eq.
    + rewrite !omap_app, Hr, Hl1. cbn. by rewrite !app_nil_r.
    + rewrite !omap_app, Hsent, Hl2. cbn. by rewrite !app_nil_r.
Qed.

(** PUBREL ends the flow. *)
Lemma finish_works io k r u :
  Follows t0 r u → io_works t0 io →
  ∃ u', finishPubRel io k u = (u', Ok tt) ∧
    Follows t0 (mkReceiver (delete k (rx_open r)) (rx_routed r) (rx_sent r ++ [PPubcomp (mkAck None k 0)])) u' ∧
    up_serverReceiveMaximum u' = up_serverReceiveMaximum u.
Proof.
  intros Hf Hio. unfold finishPubRel. destruct (remove_works io k u Hio) as [center ->].
  unfold and_then; cbn [fst snd]. rewrite (iw_write _ _ Hio). cbn [up_write fst]. eexists. split; [reflexivity|].
  split; [|by destruct u]. destruct Hf as [Ho Hc Hvd Hs Hd Hl Hi Hids Hr Hsent]. destruct u; split; cbn in *; try done.
  - by rewrite delete_waiting, !fmap_delete, Ho.
  - intros k' p c [_ Hk]%lookup_delete_Some. by eapply Hc.
  - intros k' p c [_ Hk]%lookup_delete_Some. by eapply Hvd.
  - intros k' t. unfold qos2_Delete. destruct (q2_waiting _ !! k); cbn; [intros [_ Hk]%lookup_delete_Some|]; by eauto.
  - by rewrite omap_app, app_nil_r.
  - by rewrite omap_app, Hsent.
Qed.

Lemma follows_routed io id p d r u :
  Follows t0 r u → io_works t0 io →
  routePublish io id p d u = (up_emit (URouted true id p d) u, Ok tt) ∧
  Follows t0 (mkReceiver (rx_open r) (rx_routed r ++ [p]) (rx_sent r)) (up_emit (URouted true id p d) u).
Proof.
  intros Hf Hio. unfold routePublish. rewrite (iw_route _ _ Hio). split; [done|].
  destruct Hf as [Ho Hc Hvd Hs Hd Hl Hi Hids Hr Hsent]. destruct u; split; cbn in *; try done.
  - by rewrite omap_app, Hr.
  - by rewrite omap_app, Hsent, app_nil_r.
Qed.

Lemma pubrel_follows io a r u :
  Follows t0 r u → io_works t0 io →
  ∃ u', handlePubRel io a u = (u', Ok tt) ∧ Follows t0 (rx_pubrel a r) u' ∧
    up_serverReceiveMaximum u' = up_serverReceiveMaximum u.
Proof.
  intros Hf Hio. unfold handlePubRel, rx_pubrel, qos2_Read. pose proof (follows_waiting r u (ack_PacketID a) Hf) as Hw.
  destruct (q2_waiting (up_QoS2 u) !! ack_PacketID a) as [m|], (rx_open r !! ack_PacketID a) as [[p c]|] eqn:Hk; try done.
  2:{ rewrite (iw_write _ _ Hio). eexists. split; [reflexivity|]. split; [|by destruct u].
      destruct Hf as [Ho Hc Hvd Hs Hd Hl Hi Hids Hr Hsent]. destruct u; split; cbn in *; try done;
        rewrite omap_app; cbn; by rewrite ?app_nil_r, ?Hsent. }
  injection Hw as Hp Hc. rewrite Hp, Hc. pose proof (finish_works io (ack_PacketID a) r u Hf Hio) as Hfin.
  destruct (mqtt5ReasonCodeIsError (ack_ReasonCode a)); cbn [orb]; [by rewrite app_nil_r|].
  assert (mqtt5ReasonCodeIsError c = false) as -> by (destruct (fo_codes _ _ _ Hf _ _ _ Hk) as [->| ->]; done).
  assert (∃ v, (if pub_Retain p then commitRetainedPublish io p (pub_Topic p) u else (u, Ok tt)) = (v, Ok tt) ∧
    Follows t0 r v ∧ up_serverReceiveMaximum v = up_serverReceiveMaximum u) as (v & -> & Hv & Hmax).
  { destruct (pub_Retain p) eqn:Hret; [|by exists u].
    destruct (commit_works io p (pub_Topic p) r u Hf Hio (fo_valid _ _ _ Hf _ _ _ Hk Hret)) as (v & -> & Hv & e & ->).
    eexists. split_and!; [done|done|by destruct u]. }
  unfold and_then at 1; cbn [fst snd]. change PubrecNoMatchingSubscribers with 0x10. rewrite <-Hmax.
  destruct (c =? 0x10); [rewrite app_nil_r; by apply finish_works|].
  destruct (follows_routed io (msg_MessageID m) (clonePublishForLiveDelivery p) (pub_Duplicate p) r v Hv Hio) as [-> Hv'].
  unfold and_then; cbn [fst snd].
  destruct (finish_works io (ack_PacketID a) _ _ Hv' Hio) as (u' & H1 & H2 & H3). exists u'. split_and!; [done..|].
  rewrite H3. by destruct v.
Qed.

Lemma publish_follows io p r u :
  Follows t0 r u → io_works t0 io → may_send cfg (up_serverReceiveMaximum u) (InPublish p) r →
  ∃ u', handlePublish cfg io p u = (u', Ok tt) ∧ Follows t0 (rx_publish (noMatchingSubscribers cfg io) p r) u' ∧
    up_serverReceiveMaximum u' = up_serverReceiveMaximum u.
Proof.
  intros Hf Hio [Hv Hmax]. destruct (Z.eq_dec (pub_QoS p) 2) as [Hq|Hq].
  - destruct (rx_open r !! pub_PacketID p) as [[q c]|] eqn:Hk.
    + rewrite (repeated_answer io p (q, c) r u) by done. eexists. split; [reflexivity|]. split; [|by destruct u].
      unfold rx_publish. rewrite Hq, Hk. cbn [Z.eqb Pos.eqb snd].
      destruct Hf as [Ho Hc Hvd Hs Hd Hl Hi Hids Hr Hsent]. destruct u; split; cbn in *; try done;
        rewrite omap_app; cbn; by rewrite ?app_nil_r, ?Hsent.
    + rewrite (publish_accepted io p r u) by done. apply flow_open; try done.
      destruct Hmax as [?|[?|[_ [??]]]]; [by left|by right|congruence].
  - rewrite (publish_accepted io p r u) by done. apply live_works; try done.
    destruct Hmax as [?|[?|[??]]]; [by left|by right|done].
Qed.

Lemma run_follows xs : ∀ r u,
  Follows t0 r u → well_behaved cfg t0 (up_serverReceiveMaximum u) xs r → Follows t0 (rx_run cfg xs r) (up_run cfg xs u).
Proof.
  induction xs as [|[io x] xs IH]; intros r u Hf Hw; cbn in *; [done|]. destruct Hw as (Hio & Hs & Hw).
  rewrite (fo_done _ _ _ Hf).
  assert (∃ u', up_dispatch cfg io x u = (u', Ok tt) ∧ Follows t0 (rx_step (noMatchingSubscribers cfg io) x r) u' ∧
    up_serverReceiveMaximum u' = up_serverReceiveMaximum u) as (u' & -> & Hf' & Hm).
  { destruct x; [by apply publish_follows|by apply pubrel_follows]. }
  apply IH; [done|by rewrite Hm].
Qed.
End flow.

(** ** Exactly once *)

(** What the receiver has to do with packet identifier [k]. *)
Definition of_id (k : Z) (x : UpPacket) : bool :=
  match x with
  | InPublish p => (pub_QoS p =? 2) && (pub_PacketID p =? k)
  | InPubrel a => ack_PacketID a =? k
  end.
Definition routed_of (k : Z) (r : Receiver) : list Publish :=
  filter (λ p, pub_QoS p = 2 ∧ pub_PacketID p = k) (rx_routed r).

(** Flows are filed under the identifier of their message. *)
Definition flows_ok (r : Receiver) : Prop :=
  ∀ k p c, rx_open r !! k = Some (p, c) → pub_QoS p = 2 ∧ pub_PacketID p = k.

Lemma flows_ok_step none x r : flows_ok r → flows_ok (rx_step none x r).
Proof.
  intros H. destruct x as [p|a]; cbn.
  - unfold rx_publish. destruct (Z.eqb_spec (pub_QoS p) 2); [|done].
    destruct (rx_open r !! pub_PacketID p) as [[]|]; [done|].
    intros k q c Hk. cbn in Hk. apply lookup_insert_Some in Hk as [[<- [= <- <-]]|[_ Hk]]; [done|by eapply H].
  - unfold rx_pubrel. destruct (rx_open r !! ack_PacketID a) as [[]|]; [|done].
    intros k q c' Hk. cbn in Hk. apply lookup_delete_Some in Hk as [_ Hk]. by eapply H.
Qed.

Lemma routed_of_app k l l' : filter (λ p, pub_QoS p = 2 ∧ pub_PacketID p = k) (l ++ l') =
  filter (λ p, pub_QoS p = 2 ∧ pub_PacketID p = k) l ++ filter (λ p, pub_QoS p = 2 ∧ pub_PacketID p = k) l'.
Proof. apply filter_app. Qed.

(** Packets of other identifiers leave the flow alone. *)
Lemma other_id none x r k : flows_ok r → of_id k x = false →
  rx_open (rx_step none x r) !! k = rx_open r !! k ∧ routed_of k (rx_step none x r) = routed_of k r.
Proof.
  intros Hok Hx. unfold routed_of. destruct x as [p|a]; cbn in *.
  - unfold rx_publish. destruct (Z.eqb_spec (pub_QoS p) 2) as [Hq|Hq]; cbn in *.
    + apply Z.eqb_neq in Hx. destruct (rx_open r !! pub_PacketID p) as [[]|]; [done|]. cbn.
      by rewrite lookup_insert_ne.
    + split; [done|]. rewrite routed_of_app, (filter_none _ [_]), app_nil_r; [done|].
      intros q ->%list_elem_of_singleton. cbn. by intros [? _].
  - unfold rx_pubrel. apply Z.eqb_neq in Hx. destruct (rx_open r !! ack_PacketID a) as [[p c]|] eqn:Hk; [|done]. cbn.
    rewrite lookup_delete_ne by done. split; [done|]. destruct (Hok _ _ _ Hk) as [_ Hid].
    case_if; [by rewrite app_nil_r|]. rewrite routed_of_app, (filter_none _ [_]), app_nil_r; [done|].
    intros q ->%list_elem_of_singleton. cbn. by intros [_ ?]; congruence.
Qed.

(** The copies of one message, then the PUBRELs that release it. *)
Definition release_of (k : Z) (x : UpPacket) : Prop :=
  match x with InPubrel a => ack_PacketID a = k ∧ mqtt5ReasonCodeIsError (ack_ReasonCode a) = false | _ => False end.
Definition copy_of (k : Z) (x : UpPacket) : Prop :=
  match x with InPublish p => pub_QoS p = 2 ∧ pub_PacketID p = k | _ => False end.

(** One step of the flow [k]; [none] is what the broker learned about subscribers. *)
Definition flow_step (k : Z) (none : bool) (x : UpPacket) (s : option (Publish * Z) * list Publish)
    : option (Publish * Z) * list Publish :=
  match x, s.1 with
  | InPublish p, None => (Some (p, if none then 0x10 else 0), s.2)
  | InPubrel a, Some (p, c) =>
      (None, s.2 ++ if mqtt5ReasonCodeIsError (ack_ReasonCode a) || (c =? 0x10) then [] else [clonePublishForLiveDelivery p])
  | _, _ => s
  end.

Lemma own_id none x r k : flows_ok r → of_id k x = true →
  (rx_open (rx_step none x r) !! k, routed_of k (rx_step none x r)) = flow_step k none x (rx_open r !! k, routed_of k r).
Proof.
  intros Hok Hx. unfold routed_of. destruct x as [p|a]; cbn in *.
  - apply andb_true_iff in Hx as [Hq%Z.eqb_eq Hk%Z.eqb_eq]. unfold rx_publish. rewrite Hq, Hk. cbn.
    destruct (rx_open r !! k) as [[]|] eqn:E; cbn; [by rewrite E|]. by rewrite lookup_insert_eq.
  - apply Z.eqb_eq in Hx. unfold rx_pubrel. rewrite Hx.
    destruct (rx_open r !! k) as [[p c]|] eqn:E; cbn; [|by rewrite E]. rewrite lookup_delete_eq, routed_of_app.
    destruct (Hok _ _ _ E) as [Hq Hk]. case_if; [done|]. by rewrite (filter_cons_True _ _ []) by done.
Qed.

Fixpoint flow_run (cfg : UplinkConfig) (k : Z) (xs : list (UplinkIO * UpPacket)) (s : option (Publish * Z) * list Publish)
    : option (Publish * Z) * list Publish :=
  match xs with [] => s | (io, x) :: xs => flow_run cfg k xs (flow_step k (noMatchingSubscribers cfg io) x s) end.

Lemma run_of_id cfg k xs : ∀ r, flows_ok r →
  (rx_open (rx_run cfg xs r) !! k, routed_of k (rx_run cfg xs r)) =
  flow_run cfg k (filter (λ x, of_id k x.2 = true) xs) (rx_open r !! k, routed_of k r).
Proof.
  induction xs as [|[io x] xs IH]; intros r Hok; [done|]. cbn [rx_run].
  rewrite IH by (by apply flows_ok_step). destruct (of_id k x) eqn:E.
  - rewrite filter_cons_True by done. cbn [flow_run]. by rewrite own_id.
  - rewrite filter_cons_False by (cbn; by rewrite E). by destruct (other_id (noMatchingSubscribers cfg io) x r k Hok E) as [-> ->].
Qed.

Lemma flow_copies cfg k xs : ∀ m l, Forall (λ x, copy_of k x.2) xs → flow_run cfg k xs (Some m, l) = (Some m, l).
Proof.
  induction xs as [|[io [p|a]] xs IH]; intros m l H; [done|..]; apply Forall_cons in H as [H1 H2]; [|done]. cbn. by apply IH.
Qed.

Lemma flow_releases cfg k xs : ∀ l, Forall (λ x, release_of k x.2) xs → flow_run cfg k xs (None, l) = (None, l).
Proof.
  induction xs as [|[io [p|a]] xs IH]; intros l H; [done|..]; apply Forall_cons in H as [H1 H2]; [done|]. cbn. by apply IH.
Qed.

Lemma flow_run_app cfg k xs ys : ∀ s, flow_run cfg k (xs ++ ys) s = flow_run cfg k ys (flow_run cfg k xs s).
Proof. induction xs as [|[io x] xs IH]; intros s; [done|]. cbn. apply IH. Qed.

(** ** The theorems *)

(** A client that has just connected with nothing to take up again. *)
Definition fresh_connection (u : Uplink) : Prop :=
  up_trace u = [] ∧ up_incomingQoS1MessageIDs u = ∅ ∧ up_incomingQoS1Inflight u = ∅ ∧ up_limiter u = None ∧
  up_done u = false ∧ up_QoS2 u = NewQoS2ReceiveStore.

Definition rx_start : Receiver := mkReceiver ∅ [] [].

Lemma fresh_follows t0 u : fresh_connection u → Follows t0 rx_start u.
Proof.
  intros (Ht & Hids & Hi & Hl & Hd & Hq). split; rewrite ?Ht, ?Hq; try done.
Qed.

(** C15. The uplink handlers implement the MQTT receiver: for a client that keeps to
    the rules, and as long as the plugin, the router, the stores and the connection
    work, the messages routed and the packets sent are, in order, those of the
    abstract receiver: QoS 0 and 1 messages at once, a QoS 2 message at its PUBREL
    and once only, every packet answered with the right code. *)
Theorem uplink_refines_receiver cfg t0 u xs :
  fresh_connection u → well_behaved cfg t0 (up_serverReceiveMaximum u) xs rx_start →
  omap routed_publish (up_trace (up_run cfg xs u)) = rx_routed (rx_run cfg xs rx_start) ∧
  omap sent_packet (up_trace (up_run cfg xs u)) = rx_sent (rx_run cfg xs rx_start).
Proof.
  intros Hu Hw. pose proof (run_follows cfg t0 xs _ _ (fresh_follows t0 u Hu) Hw) as Hf.
  split; [apply Hf|apply Hf].
Qed.

(** C13. A QoS 2 message is delivered exactly once: if the packets a well-behaved
    client sends under identifier [k] are one or more copies of a message followed by
    one or more PUBRELs, in any interleaving with packets of other identifiers, and
    the broker did not answer that there are no subscribers, then exactly one QoS 2
    message with identifier [k] is routed, the first copy, and nothing is left open. *)
Theorem qos2_exactly_once cfg t0 u xs k io p copies releases :
  fresh_connection u → well_behaved cfg t0 (up_serverReceiveMaximum u) xs rx_start →
  filter (λ x, of_id k x.2 = true) xs = (io, InPublish p) :: copies ++ releases →
  Forall (λ x, copy_of k x.2) copies → Forall (λ x, release_of k x.2) releases → releases ≠ [] →
  noMatchingSubscribers cfg io = false →
  filter (λ q, pub_QoS q = 2 ∧ pub_PacketID q = k) (omap routed_publish (up_trace (up_run cfg xs u))) =
    [clonePublishForLiveDelivery p] ∧
  qos2_Read k (up_QoS2 (up_run cfg xs u)) = None.
Proof.
  intros Hu Hw Hxs Hc Hr Hne Hm. pose proof (run_follows cfg t0 xs _ _ (fresh_follows t0 u Hu) Hw) as Hf.
  pose proof (run_of_id cfg k xs rx_start ltac:(done)) as Hk. rewrite Hxs in Hk. cbn [flow_run flow_step fst snd rx_start rx_open] in Hk.
  rewrite lookup_empty, Hm, flow_run_app, flow_copies in Hk by done.
  destruct releases as [|[io' [q|a]] rels]; [done|by apply Forall_cons in Hr as [? _]|].
  apply Forall_cons in Hr as [[_ Ha] Hr]. cbn [flow_run flow_step fst snd] in Hk. cbn in Ha. rewrite Ha in Hk.
  cbn [orb Z.eqb] in Hk. rewrite flow_releases in Hk by done. injection Hk as Hk1 Hk2.
  rewrite (fo_routed _ _ _ Hf). split; [exact Hk2|]. unfold qos2_Read.
  pose proof (follows_waiting t0 _ _ k Hf) as Hw'. rewrite Hk1 in Hw'. by destruct (q2_waiting _ !! k).
Qed.

(** ** Examples *)

Lemma example_io_works n : 0 ≤ n ≤ 100 → io_works 1000 (example_ui n None None).
Proof. intros Hn. split; try done. cbn. unfold defaultQoS2WaitingTTL. lia. Qed.

Lemma example_publish_valid qos id : 0 < qos ≤ 2 → id ≠ 0 → publish_valid example_config (example_publish qos id).
Proof. intros Hq Hid. by split; cbn; try lia. Qed.

(** Two copies of message 7, another QoS 2 message in between, two PUBRELs. *)
Definition example_flow : list (UplinkIO * UpPacket) :=
  [(example_ui 1 None None, InPublish (example_publish 2 7)); (example_ui 2 None None, InPublish (example_publish 1 8));
   (example_ui 3 None None, InPublish (example_publish 2 7)); (example_ui 4 None None, InPubrel (mkAck None 7 0));
   (example_ui 5 None None, InPublish (example_publish 2 9)); (example_ui 6 None None, InPubrel (mkAck None 7 0))].
Definition example_connection : Uplink :=
  mkUplink "c" "tok" 60 2 (Some NewTopicAliasManager) None NewQoS2ReceiveStore ∅ ∅ NewCore false [].

Lemma example_behaved : well_behaved example_config 1000 2 example_flow rx_start.
Proof.
  cbn [well_behaved example_flow may_send].
  repeat split; try apply example_io_works; try apply example_publish_valid; try lia; try done; try (right; left; vm_compute; done).
Qed.

Lemma uplink_refines_receiver_witness :
  omap routed_publish (up_trace (up_run example_config example_flow example_connection)) =
    [example_publish 1 8; example_publish 2 7] ∧
  omap sent_packet (up_trace (up_run example_config example_flow example_connection)) =
    [PPubrec (mkAck None 7 0); PPuback (mkAck None 8 0); PPubrec (mkAck None 7 0); PPubcomp (mkAck None 7 0);
     PPubrec (mkAck None 9 0); PPubcomp (mkAck None 7 0x92)].
Proof.
  refine (uplink_refines_receiver example_config 1000 example_connection example_flow _ example_behaved).
  repeat split.
Defined.

Lemma qos2_exactly_once_witness :
  filter (λ q, pub_QoS q = 2 ∧ pub_PacketID q = 7)
    (omap routed_publish (up_trace (up_run example_config example_flow example_connection))) = [example_publish 2 7].
Proof.
  refine (proj1 (qos2_exactly_once example_config 1000 example_connection example_flow 7 (example_ui 1 None None) (example_publish 2 7)
    [(example_ui 3 None None, InPublish (example_publish 2 7))]
    [(example_ui 4 None None, InPubrel (mkAck None 7 0)); (example_ui 6 None None, InPubrel (mkAck None 7 0))] _ example_behaved _ _ _ _ _)).
  - repeat split.
  - reflexivity.
  - repeat constructor.
  - repeat constructor.
  - done.
  - reflexivity.
Defined.
