(* ===== verification/UplinkRestore.v ===== *)
(** * Open QoS 2 flows over a lost connection

    The session keeps what the receive store keeps: whenever a connection ends, at
    any packet and after any failure, every QoS 2 message still waiting for PUBREL is
    restored on the next connection with its payload and PUBREC code.  Its message
    identifier is not restored, which the last theorem shows to matter. *)

From S2P Require Import Prelude GoStrings Mqtt5 Topic Wire WireParse WireProps WirePropsProofs WireCodec WireRoundtrip SessionCore TopicAlias Inflight Downlink Retain RetainProofs Uplink UplinkProofs.

(** ** What stages do to the session center *)

(** The center, and what decides whether and how flows are persisted. *)
Record still (u u' : Uplink) : Prop := {
  still_center : up_center u' = up_center u;
  still_token : up_ownerToken u' = up_ownerToken u;
  still_expiry : up_sessionExpiryInterval u' = up_sessionExpiryInterval u }.

#[export] Instance still_preorder : PreOrder still.
Proof.
  split; [by intros u; split|]. intros u v w [] []. split; congruence.
Qed.

Lemma still_emit e u : still u (up_emit e u).
Proof. by destruct u. Qed.
Lemma still_alias x u : still u (up_with_alias x u).
Proof. by destruct u. Qed.
Lemma still_limiter x u : still u (up_with_limiter x u).
Proof. by destruct u. Qed.
Lemma still_inflight x u : still u (up_with_inflight x u).
Proof. by destruct u. Qed.
Lemma still_ids x u : still u (up_with_ids x u).
Proof. by destruct u. Qed.
Lemma still_QoS2 x u : still u (up_with_QoS2 x u).
Proof. by destruct u. Qed.

Lemma still_close u : still u (up_close u).
Proof. by destruct u. Qed.
Lemma still_write o p u : still u (up_write o p u).1.
Proof. destruct o, u; done. Qed.
Lemma still_disconnect io p u : still u (up_disconnect io p u).
Proof. unfold up_disconnect. etrans; [apply still_write|apply still_close]. Qed.

Create HintDb still discriminated.
#[export] Hint Resolve still_emit still_alias still_limiter still_inflight still_ids still_QoS2 still_write still_disconnect : still.
#[export] Hint Extern 1 (still ?u ?u) => reflexivity : still.

Lemma prepare_still cfg io p u : still u (preparePublishPacket cfg io p u).1.1.
Proof.
  unfold preparePublishPacket.
  assert (still u (applyPublishTopicAlias cfg io (normalizeInboundPublishFlags p) u).1.1) as H1.
  { unfold applyPublishTopicAlias. destruct (up_alias u) as [m|]; [|done].
    destruct (ApplyUplink _ _ _) as [[m' p'] [[t b]|e]]; cbn; [auto with still|]. etrans; [apply still_alias|apply still_disconnect]. }
  destruct (applyPublishTopicAlias _ _ _ _) as [[u1 p1] [topic|e]]; cbn in *; [|done].
  assert (still u1 (validatePublishEnvelope io p1 topic u1).1) as H2.
  { unfold validatePublishEnvelope. repeat case_if; cbn; auto with still. }
  destruct (validatePublishEnvelope _ _ _ _) as [u2 [[]|e]]; cbn in *; [|by etrans].
  case_if; cbn; [|by etrans].
  assert (still u2 (rejectPublishPayloadFormatInvalid io p1 u2).1) as H3.
  { unfold rejectPublishPayloadFormatInvalid. repeat case_if; cbn [fst]; auto with still. }
  destruct (rejectPublishPayloadFormatInvalid _ _ _) as [u3 r]; cbn in *. by do 2 (etrans; [eassumption|]).
Qed.

Lemma publish_cases_still cfg io p u :
  (still u (handlePublish cfg io p u).1 ∧ quiet u (handlePublish cfg io p u).1) ∨
  ∃ u1 p1 topic p' v, preparePublishPacket cfg io p u = (u1, p1, Ok (Some topic)) ∧ ui_plugin io p1 = (p', true) ∧
    handleRepeatedPublish io p1 u1 = None ∧ q2_waiting (up_QoS2 v) ⊆ q2_waiting (up_QoS2 u1) ∧
    still u v ∧ quiet u v ∧ handlePublish cfg io p u = acceptPublish cfg io p' topic v ∧ quiet u u1.
Proof.
  unfold handlePublish. pose proof (prepare_still cfg io p u) as Hs. pose proof (prepare_quiet cfg io p u) as Hq.
  destruct (preparePublishPacket _ _ _ _) as [[u1 p1] [[topic|]|e]]; cbn [fst] in Hs, Hq; [|by left..].
  destruct (handleRepeatedPublish io p1 u1) as [u2|] eqn:Hrep.
  { left. split; [|etrans; [exact Hq|by eapply repeated_quiet]].
    etrans; [exact Hs|]. revert Hrep. unfold handleRepeatedPublish. case_if; [done|]. destruct (qos2_Read _ _); [|done].
    case_if; [done|]. intros [= <-]. apply still_write. }
  destruct (ui_plugin io p1) as [p2 []] eqn:Hplug.
  2:{ left. split; [|etrans; [exact Hq|apply deny_quiet]].
      etrans; [exact Hs|]. unfold denyPublish. repeat case_if; cbn; auto with still. }
  pose proof (caps_quiet cfg io p2 u1) as Hc.
  assert (still u1 (enforcePublishCapabilities cfg io p2 u1).1) as Hcs.
  { unfold enforcePublishCapabilities. repeat case_if; cbn; auto with still. }
  unfold and_then. destruct (enforcePublishCapabilities _ _ _ _) as [u2 [[]|e]]; cbn [fst snd] in *; [|left; split; by etrans].
  pose proof (rate_quiet io u2) as Hr.
  assert (still u2 (enforceIncomingPublishRate io u2).1) as Hrs.
  { unfold enforceIncomingPublishRate. destruct (up_limiter u2) as [l|]; [|done]. destruct (allow _ _) as [l' []]; cbn; [auto with still|].
    etrans; [apply still_limiter|apply still_disconnect]. }
  destruct (enforceIncomingPublishRate _ _) as [u3 [[]|e]]; cbn [fst snd] in *.
  2:{ left. split; (etrans; [eassumption|]); by etrans. }
  right. exists u1, p1, topic, p2, u3. split_and!; try done.
  - etrans; [apply Hr|apply Hc].
  - etrans; [exact Hs|]. by etrans.
  - etrans; [exact Hq|]. by etrans.
Qed.

(** ** The flows kept in the session *)

(** A message the codec can carry. *)
Definition wire_ok (p : Publish) (bytes : list byte) : Prop :=
  wf_packet (PPublish p) ∧ Encode 0 (Some (publishPacket p)) = Ok bytes.

(** The record of the open flow [k] of message [m]. *)
Definition recorded (k : Z) (m : Message) (um : UnfinishedMessage) : Prop :=
  um_IsOutgoing um = false ∧ um_State um = WAITING_PUBREL ∧ um_Qos um = 2 ∧ um_PacketID um = k ∧ k ≠ 0 ∧
  um_AckReasonCode um = msg_AckReasonCode m ∧ (msg_AckReasonCode m = 0 ∨ msg_AckReasonCode m = 0x10) ∧
  ∃ p, msg_Publish m = Some p ∧ pub_QoS p = 2 ∧ pub_PacketID p = k ∧ wire_ok p (um_PublishPacket um).

(** Restoring the record can only fill the slot of its own identifier. *)
Definition coherent (um : UnfinishedMessage) : Prop :=
  ∀ cp l p, Decode 0 (um_PublishPacket um) = Ok (cp, l) → cp_Content cp = Some (PPublish p) →
    um_IsOutgoing um = false → pub_PacketID p = um_PacketID um.

Record flows_kept (u : Uplink) : Prop := {
  fk_persist : shouldPersistIncomingQoS2 u = true;
  fk_owner : ownerTokenMatches (up_center u) (up_ID u) (up_ownerToken u) = true;
  fk_session : ∃ s, c_Sessions (up_center u) !! up_ID u = Some s ∧ ss_ExpireAtUnixNano s = 0 ∧
    Forall coherent (ss_UnfinishedMessages s) ∧
    (∀ um um', um ∈ ss_UnfinishedMessages s → um' ∈ ss_UnfinishedMessages s →
       um_IsOutgoing um = false → um_IsOutgoing um' = false → um_PacketID um = um_PacketID um' → um = um') ∧
    ∀ k m, q2_waiting (up_QoS2 u) !! k = Some m → ∃ um, um ∈ ss_UnfinishedMessages s ∧ recorded k m um }.

Lemma kept_still u u' : still u u' → up_ID u' = up_ID u → q2_waiting (up_QoS2 u') ⊆ q2_waiting (up_QoS2 u) →
  flows_kept u → flows_kept u'.
Proof.
  intros [Hc Ht He] Hid Hw [H1 H2 (s & H3 & H4 & H5 & H6 & H7)]. split; rewrite ?Hc, ?Ht, ?Hid; [|done|].
  - unfold shouldPersistIncomingQoS2 in *. by rewrite Hid, He.
  - exists s. split_and!; try done. intros k m Hk. apply H7. by eapply lookup_weaken.
Qed.

Lemma kept_quiet u u' : still u u' → quiet u u' → flows_kept u → flows_kept u'.
Proof. intros Hs Hq. apply kept_still; [done|apply Hq..]. Qed.

(** ** Opening a flow *)

Lemma coherent_recorded k m um : recorded k m um → coherent um.
Proof.
  intros (_ & _ & _ & Hk & _ & _ & _ & p & _ & _ & Hid & Hwf & He) cp l q Hd Hc _.
  destruct (decode_publish _ _ Hwf He) as (cp' & Hd' & Hc'). rewrite Hd in Hd'. injection Hd' as <- _.
  rewrite Hc in Hc'. injection Hc' as ->. cbn. congruence.
Qed.

Lemma not_expired s now : ss_ExpireAtUnixNano s = 0 → sessionExpired (Some s) now = false.
Proof. intros H. unfold sessionExpired. by rewrite H. Qed.

(** Filing the message under a free identifier keeps the session up to date, also
    when the session center cannot be reached: the flow is then dropped again. *)
Lemma upserted io c id token k s um :
  id ≠ "" → k ≠ 0 → ownerTokenMatches c id token = true → c_Sessions c !! id = Some s → ss_ExpireAtUnixNano s = 0 →
  upsertIncomingUnfinished (ui_now io) c (mkUpsertRequest id k (Some um) token (ui_now io)) =
    (set_session id (mkSession id (ss_WillMessage s)
       (upsertIncomingUnfinishedMessage (ss_UnfinishedMessages s)
          (mkUnfinished (um_MessageID um) k 2 WAITING_PUBREL (um_SubscribeTopic um) false (um_FirstPubTime um)
             (um_PublishPacket um) (um_AckReasonCode um)))
       (ss_SessionExpiryInterval s) (ss_ExpireAtUnixNano s) (ss_OutgoingReplayCursor s)) c, Ok tt).
Proof.
  intros Hid Hk Ht Hs He. unfold upsertIncomingUnfinished. cbn [uir_ClientID uir_PacketID uir_UnfinishedMessage uir_OwnerToken uir_NowUnixNano].
  rewrite bool_decide_false by done. rewrite (proj2 (Z.eqb_neq _ _)) by done. rewrite Ht, Hs, not_expired by done. done.
Qed.

Lemma flow_kept_upsert u id k s m um :
  flows_kept u → up_ID u = id → c_Sessions (up_center u) !! id = Some s → recorded k m um →
  ∀ u', up_ID u' = id → up_ownerToken u' = up_ownerToken u → up_sessionExpiryInterval u' = up_sessionExpiryInterval u →
  q2_waiting (up_QoS2 u') ⊆ <[k := m]> (q2_waiting (up_QoS2 u)) →
  (∃ s', up_center u' = set_session id s' (up_center u) ∧ ss_ExpireAtUnixNano s' = 0 ∧
     ss_UnfinishedMessages s' = upsertIncomingUnfinishedMessage (ss_UnfinishedMessages s) um) →
  flows_kept u'.
Proof.
  intros [H1 H2 (s0 & H3 & H4 & H5 & H6 & H7)] Hid Hs Hrec u' Hid' Ht He Hw (s' & Hc & He' & Hm).
  rewrite Hid in H2, H3. rewrite Hs in H3. injection H3 as <-.
  assert (um_IsOutgoing um = false ∧ um_PacketID um = k) as [Hout Hk] by (by destruct Hrec as (? & _ & _ & ? & _)).
  split.
  - unfold shouldPersistIncomingQoS2 in *. by rewrite Hid', He, <-Hid.
  - rewrite Hc, Ht, Hid'. exact H2.
  - exists s'. rewrite Hc, Hid', Hm. unfold upsertIncomingUnfinishedMessage, set_session. cbn [c_Sessions].
    split_and!; [by rewrite lookup_insert_eq|done| | |].
    + apply Forall_app. split; [|by repeat constructor; eapply coherent_recorded].
      apply Forall_forall. intros x [_ Hx]%list_elem_of_filter. rewrite Forall_forall in H5. by apply H5.
    + intros x y [[Nx Hx]%list_elem_of_filter| ->%list_elem_of_singleton]%elem_of_app
        [[Ny Hy]%list_elem_of_filter| ->%list_elem_of_singleton]%elem_of_app Ox Oy Hxy; [by apply H6|..|done].
      * exfalso. apply Nx. split; [done|congruence].
      * exfalso. apply Ny. split; [done|congruence].
    + intros k' m' Hk'. pose proof (lookup_weaken _ _ _ _ Hk' Hw) as [[<- <-]|[Hne Hold]]%lookup_insert_Some.
      * exists um. split; [|done]. apply elem_of_app. right. apply list_elem_of_singleton. done.
      * destruct (H7 _ _ Hold) as (x & Hx & Hrx). exists x. split; [|done]. apply elem_of_app. left.
        apply list_elem_of_filter. split; [|done]. intros [_ ?]. destruct Hrx as (_ & _ & _ & ? & _). congruence.
Qed.

Lemma store_kept io p c u bytes :
  flows_kept u → pub_QoS p = 2 → wire_ok p bytes → c = 0 ∨ c = 0x10 →
  q2_waiting (up_QoS2 u) !! pub_PacketID p = None → flows_kept (storeQoS2Publish io p c u).1.
Proof.
  intros Hk Hq Hwire Hcode Hfree. pose proof Hk as [H1 H2 (s & H3 & H4 & _)].
  unfold storeQoS2Publish. set (msg := mkMessage _ _ _ _).
  destruct (stored_waiting (ui_now io) msg p (up_QoS2 u) eq_refl) as (m & Hm & Hm').
  destruct Hm' as [?| ->]; [congruence|]. set (v := up_with_QoS2 _ u).
  assert (still u v ∧ up_ID v = up_ID u ∧ up_QoS2 v = (qos2_Store (ui_now io) msg (up_QoS2 u)).1) as ([Hc Ht He] & Hid & Hv)
    by (unfold v; split_and!; [apply still_QoS2|by destruct u|by destruct u]).
  rewrite <-Hv in Hm. clearbody v.
  assert (flows_kept (up_with_QoS2 (qos2_Delete (pub_PacketID p) (up_QoS2 v)) v)) as Hdrop.
  { apply (kept_still u); [|by destruct v| |done].
    - etrans; [by split|apply still_QoS2].
    - assert (up_QoS2 (up_with_QoS2 (qos2_Delete (pub_PacketID p) (up_QoS2 v)) v) = qos2_Delete (pub_PacketID p) (up_QoS2 v)) as ->
        by (by destruct v).
      rewrite delete_waiting. etrans; [by apply delete_mono|]. rewrite delete_insert_id by done. done. }
  unfold persistIncomingQoS2WaitingPubrel. assert (shouldPersistIncomingQoS2 v = true) as ->
    by (unfold shouldPersistIncomingQoS2 in *; by rewrite Hid, He).
  cbn [negb]. unfold ConvertToProtoUnfinishedMessage. cbn [msg_Publish msg_MessageID msg_AckReasonCode msg]. rewrite Hq.
  cbn [negb Z.eqb Pos.eqb]. rewrite (proj2 Hwire). cbn [um_PacketID].
  destruct (Z.eqb_spec (pub_PacketID p) 0); [done|]. destruct (ui_upsert io); [done|].
  rewrite Hid, Hc, Ht. rewrite (upserted io _ _ _ _ s); try done.
  2:{ intros Hnil. unfold shouldPersistIncomingQoS2 in H1. rewrite bool_decide_true in H1 by done. done. }
  cbn [um_MessageID um_SubscribeTopic um_FirstPubTime um_PublishPacket um_AckReasonCode fst].
  set (um := mkUnfinished _ _ _ _ _ _ _ _ _).
  assert (recorded (pub_PacketID p) msg um) as Hrec.
  { unfold recorded. cbn. split_and!; try done. exists p. done. }
  apply (flow_kept_upsert u (up_ID u) (pub_PacketID p) s msg um Hk eq_refl H3 Hrec); try (by destruct v).
  eexists. split; [by destruct v|]. cbn. split; [done|]. done.
Qed.

(** ** Every handler keeps the flows *)

Lemma quota_still io p u : still u (trackIncomingPublishQuota io p u).1.
Proof.
  unfold trackIncomingPublishQuota. case_if; [done|]. cbn.
  pose proof (still_QoS2 (cleanupExpired defaultQoS2WaitingTTL (ui_now io) (up_QoS2 u)) u) as H.
  repeat case_if; cbn; (etrans; [exact H|]); auto with still.
Qed.

Lemma retained_still io p topic u : still u (commitRetainedPublish io p topic u).1.
Proof.
  unfold commitRetainedPublish. case_if; [destruct (ui_retain io); cbn; auto with still|].
  destruct (newRetainMessageFromPublish _ _ _); [|done]. destruct (ui_retain io); cbn; auto with still.
Qed.

Lemma process_still io p topic u : still u (processRetainedPublish io p topic u).1.
Proof. unfold processRetainedPublish. case_if; [done|apply retained_still]. Qed.

Lemma route_still io id p d u : still u (routePublish io id p d u).1.
Proof. unfold routePublish. destruct (ui_route io); cbn; auto with still. Qed.

Lemma dispatch_still io p u : still u (dispatchLivePublish io p u).1.
Proof.
  unfold dispatchLivePublish. case_if; [done|].
  assert (still u (qos1DeliveryMessageID io p u).1) as H.
  { unfold qos1DeliveryMessageID. case_if; [done|]. destruct (up_incomingQoS1MessageIDs u !! _); cbn; auto with still. }
  destruct (qos1DeliveryMessageID io p u) as [v id]. cbn in H.
  pose proof (route_still io id (clonePublishForLiveDelivery p) (pub_Duplicate p) v) as H'.
  destruct (routePublish _ _ _ _ _) as [w []]; cbn in *; by etrans.
Qed.

Lemma response_still io response u : still u (writePublishResponse io response u).1.
Proof.
  unfold writePublishResponse. destruct response as [packet|]; [|done]. pose proof (still_write (ui_write io) packet u) as H.
  destruct (up_write _ _ _) as [v [[]|e]]; cbn in *; [|done]. etrans; [exact H|]. unfold clearQoS1DeliveryMessageID.
  destruct packet; try done. case_if; [done|apply still_ids].
Qed.

Lemma cleanup_still p u : still u (cleanupQuota p u).
Proof. unfold cleanupQuota. case_if; auto with still. Qed.

(** A change that leaves the center and the receive store alone. *)
Lemma flow_kept_same u u' : still u u' → up_ID u' = up_ID u → up_QoS2 u' = up_QoS2 u → flows_kept u → flows_kept u'.
Proof. intros Hs Hid Hq. apply kept_still; [done..|by rewrite Hq]. Qed.

Lemma live_ID io p u : up_ID (dispatchLivePublish io p u).1 = up_ID u.
Proof.
  unfold dispatchLivePublish. case_if; [done|].
  assert (up_ID (qos1DeliveryMessageID io p u).1 = up_ID u) as <-.
  { unfold qos1DeliveryMessageID. case_if; [done|]. destruct (up_incomingQoS1MessageIDs u !! _); [done|]. by destruct u. }
  destruct (qos1DeliveryMessageID io p u) as [v id]; cbn. unfold routePublish. by destruct (ui_route io), v.
Qed.

Lemma response_ID io response u : up_ID (writePublishResponse io response u).1 = up_ID u.
Proof.
  unfold writePublishResponse. destruct response as [packet|]; [|done].
  assert (up_ID (up_write (ui_write io) packet u).1 = up_ID u) as <- by (by destruct (ui_write io), u).
  destruct (up_write _ _ _) as [v [[]|e]]; cbn; [|done]. unfold clearQoS1DeliveryMessageID. destruct packet; try done.
  case_if; [done|]. by destruct v.
Qed.

Lemma accept_kept cfg io p topic u :
  flows_kept u → (pub_QoS p = 2 → (∃ bytes, wire_ok p bytes) ∧ q2_waiting (up_QoS2 u) !! pub_PacketID p = None) →
  flows_kept (acceptPublish cfg io p topic u).1.
Proof.
  intros Hk Hp. unfold acceptPublish. pose proof (quota_quiet io p u) as Hq0. pose proof (quota_still io p u) as Hs0.
  unfold and_then at 1. destruct (trackIncomingPublishQuota io p u) as [u1 [[]|e]]; cbn [fst snd] in *; [|by apply (kept_quiet u)].
  pose proof (kept_quiet _ _ Hs0 Hq0 Hk) as H1.
  assert (∀ r : Uplink * result string unit, flows_kept r.1 → flows_kept (let '(u, res) := r in (cleanupQuota p u, res)).1) as Hc.
  { intros [v res] Hv. cbn. apply (kept_quiet v); [apply cleanup_still|apply cleanupQuota_quiet|done]. }
  apply Hc. clear Hc. unfold buildPublishResponse. destruct (Z.eqb_spec (pub_QoS p) 2) as [Hq|Hq].
  - rewrite (proj2 (Z.eqb_neq _ _)) by lia. destruct (Hp Hq) as ([bytes Hwire] & Hfree).
    pose proof (store_kept io p (if noMatchingSubscribers cfg io then PubrecNoMatchingSubscribers else 0) u1 bytes H1 Hq Hwire) as H2.
    destruct (storeQoS2Publish _ _ _ _) as [u2 r]; cbn [fst] in H2. unfold and_then at 1.
    assert (flows_kept u2) as H2'.
    { apply H2; [destruct (noMatchingSubscribers cfg io); auto|].
      destruct (q2_waiting (up_QoS2 u1) !! pub_PacketID p) as [m|] eqn:E; [|done].
      pose proof (lookup_weaken _ _ _ _ E (quiet_waiting _ _ Hq0)). congruence. }
    destruct r as [[]|e]; cbn [fmap result_fmap fst snd]; [|done].
    unfold processRetainedPublish, dispatchLivePublish. rewrite Hq, orb_true_r. cbn [Z.eqb Pos.eqb and_then snd fst].
    apply (kept_quiet u2); [apply response_still|apply pubrec_quiet|done].
  - assert (∀ response, flows_kept (and_then (processRetainedPublish io p topic u1) (λ _ u, and_then (dispatchLivePublish io p u)
        (λ _ u, writePublishResponse io response u))).1) as Hgo.
    { intros response. pose proof (process_quiet io p topic u1) as Hp1. pose proof (process_still io p topic u1) as Hp2.
      unfold and_then at 1. destruct (processRetainedPublish _ _ _ _) as [u2 [[]|e]]; cbn [fst snd] in *; [|by apply (kept_quiet u1)].
      pose proof (kept_quiet _ _ Hp2 Hp1 H1) as H2. destruct (live_rest io p u2) as [L1 _].
      pose proof (flow_kept_same _ _ (dispatch_still io p u2) (live_ID io p u2) L1 H2) as H3. unfold and_then.
      destruct (dispatchLivePublish io p u2) as [u3 [[]|e]]; cbn [fst snd] in *; [|done].
      apply (flow_kept_same u3); [apply response_still|apply response_ID|by apply response_spec|done]. }
    destruct (Z.eqb_spec (pub_QoS p) 1); unfold and_then at 1; cbn [fst snd]; apply Hgo.
Qed.

(** The record goes with the flow. *)
Lemma finish_kept io k u : flows_kept u → flows_kept (finishPubRel io k u).1.
Proof.
  intros Hk. pose proof Hk as [H1 H2 (s & H3 & H4 & H5 & H6 & H7)]. unfold finishPubRel, removeIncomingQoS2Unfinished.
  rewrite H1. cbn [negb orb].
  assert (∀ v, still u v → up_ID v = up_ID u → up_QoS2 v = up_QoS2 u →
    flows_kept (up_write (ui_write io) (PPubcomp (mkAck None k 0)) (up_with_QoS2 (qos2_Delete k (up_QoS2 v)) v)).1) as Hsame.
  { intros v Hs Hid Hq. apply (kept_quiet (up_with_QoS2 (qos2_Delete k (up_QoS2 v)) v)); [apply still_write|by apply up_quiet_write|].
    apply (kept_quiet v); [apply still_QoS2|apply quiet_delete|]. by apply (flow_kept_same u). }
  destruct (Z.eqb_spec k 0) as [_|Hk0]; [unfold and_then; cbn; by apply Hsame|]. destruct (ui_remove io); [done|].
  unfold removeIncomingUnfinished. cbn [rir_ClientID rir_PacketID rir_OwnerToken rir_NowUnixNano].
  assert (up_ID u ≠ "") as Hid0.
  { intros Hnil. unfold shouldPersistIncomingQoS2 in H1. by rewrite bool_decide_true in H1. }
  rewrite bool_decide_false by done. rewrite (proj2 (Z.eqb_neq k 0) Hk0).
  rewrite H2, H3, not_expired by done. cbn [negb].
  case_bool_decide as Hlen; [unfold and_then; cbn; apply Hsame; by destruct u|].
  unfold and_then; cbn [fst snd]. set (v := up_with_center _ u).
  apply (kept_quiet (up_with_QoS2 (qos2_Delete k (up_QoS2 v)) v)); [apply still_write|by apply up_quiet_write|].
  assert (up_ID v = up_ID u ∧ up_ownerToken v = up_ownerToken u ∧ up_sessionExpiryInterval v = up_sessionExpiryInterval u ∧
    up_QoS2 v = up_QoS2 u) as (V1 & V2 & V3 & V4) by (by destruct u).
  assert (up_center v = set_session (up_ID u) (set_unfinished
    (filter (λ m, ¬ (um_IsOutgoing m = false ∧ um_PacketID m = k)) (ss_UnfinishedMessages s)) s) (up_center u)) as V5 by (by destruct u).
  set (w := up_with_QoS2 _ v).
  assert (up_ID w = up_ID v ∧ up_ownerToken w = up_ownerToken v ∧ up_sessionExpiryInterval w = up_sessionExpiryInterval v ∧
    up_center w = up_center v ∧ up_QoS2 w = qos2_Delete k (up_QoS2 v)) as (W1 & W2 & W3 & W4 & W5) by (by destruct v).
  clearbody v w. split.
  - unfold shouldPersistIncomingQoS2 in *. by rewrite W1, W3, V1, V3.
  - rewrite W4, W2, W1, V5, V2, V1. exact H2.
  - eexists. rewrite W4, W1, V5, V1. split; [by apply lookup_insert_eq|]. cbn [set_unfinished ss_ExpireAtUnixNano ss_UnfinishedMessages].
    split_and!; [done| | |].
    + apply Forall_forall. intros x [_ Hx]%list_elem_of_filter. rewrite Forall_forall in H5. by apply H5.
    + intros x y [_ Hx]%list_elem_of_filter [_ Hy]%list_elem_of_filter. by apply H6.
    + rewrite W5, delete_waiting, V4. intros k' m [Hne Hk']%lookup_delete_Some. destruct (H7 _ _ Hk') as (um & Hum & Hrec).
      exists um. split; [|done]. apply list_elem_of_filter. split; [|done]. intros [_ ?].
      destruct Hrec as (_ & _ & _ & ? & _). congruence.
Qed.

Lemma pubrel_kept io a u : flows_kept u → flows_kept (handlePubRel io a u).1.
Proof.
  intros H. unfold handlePubRel. pose proof (λ v, finish_kept io (ack_PacketID a) v) as Hf.
  destruct (qos2_Read _ _) as [m|]; [|cbn; apply (kept_quiet u); [apply still_write|by apply up_quiet_write|done]].
  case_if; [by apply Hf|]. destruct (msg_Publish m) as [p|]; [|by apply Hf]. case_if; [by apply Hf|].
  assert (flows_kept (if pub_Retain p then commitRetainedPublish io p (pub_Topic p) u else (u, Ok tt)).1) as H1.
  { destruct (pub_Retain p); [|done]. apply (kept_quiet u); [apply retained_still|apply retained_quiet|done]. }
  unfold and_then at 1. destruct (if pub_Retain p then _ else _) as [u1 [[]|e]]; cbn [fst snd] in *; [|done].
  case_if; [by apply Hf|].
  pose proof (flow_kept_same u1 _ (route_still io (msg_MessageID m) (clonePublishForLiveDelivery p) (pub_Duplicate p) u1)) as H2.
  destruct (route_rest io (msg_MessageID m) (clonePublishForLiveDelivery p) (pub_Duplicate p) u1) as (R1 & _ & _).
  unfold and_then. assert (up_ID (routePublish io (msg_MessageID m) (clonePublishForLiveDelivery p) (pub_Duplicate p) u1).1 = up_ID u1) as R2
    by (unfold routePublish; by destruct (ui_route io), u1).
  destruct (routePublish _ _ _ _ _) as [u2 [[]|e]]; cbn [fst snd] in *; [apply Hf|]; by apply H2.
Qed.

(** ** Runs *)

(** The plugin leaves packets alone, no topic aliases are used, and QoS 2 messages can
    be written to the wire. *)
Definition packet_ok (io : UplinkIO) (x : UpPacket) : Prop :=
  (∀ p, (ui_plugin io p).1 = p) ∧
  match x with
  | InPublish p => packet_alias p = None ∧ (pub_QoS p = 2 → ∃ bytes, wire_ok p bytes)
  | InPubrel _ => True
  end.

Lemma normalized_alias p : packet_alias (normalizeInboundPublishFlags p) = packet_alias p.
Proof. unfold normalizeInboundPublishFlags. by case_if. Qed.

Lemma prepared_packet cfg io p u : packet_alias p = None →
  (preparePublishPacket cfg io p u).1.2 = normalizeInboundPublishFlags p.
Proof.
  intros Ha. unfold preparePublishPacket, applyPublishTopicAlias, ApplyUplink. rewrite normalized_alias, Ha.
  assert (∀ v, (let '(u2, res) := validatePublishEnvelope io (normalizeInboundPublishFlags p) (pub_Topic (normalizeInboundPublishFlags p)) v in
     match res with
     | Err e => (u2, normalizeInboundPublishFlags p, Err e)
     | Ok _ => if publishPayloadFormatInvalid (normalizeInboundPublishFlags p)
               then let '(u3, res3) := rejectPublishPayloadFormatInvalid io (normalizeInboundPublishFlags p) u2 in
                    (u3, normalizeInboundPublishFlags p, (λ _, None) <$> res3)
               else (u2, normalizeInboundPublishFlags p, Ok (Some (pub_Topic (normalizeInboundPublishFlags p))))
     end).1.2 = normalizeInboundPublishFlags p) as H.
  { intros v. destruct (validatePublishEnvelope _ _ _ _) as [u2 [[]|e]]; [|done]. case_if; [|done].
    by destruct (rejectPublishPayloadFormatInvalid _ _ _). }
  destruct (up_alias u) as [m|]; apply H.
Qed.

Lemma publish_kept cfg io p u : packet_ok io (InPublish p) → flows_kept u → flows_kept (handlePublish cfg io p u).1.
Proof.
  intros (Hplug & Ha & Hwire) Hk.
  destruct (publish_cases_still cfg io p u) as [[Hs Hq]|(u1 & p1 & topic & p' & v & Hprep & Hp' & Hrep & Hw & Hs & Hq & -> & Hq1)];
    [by apply (kept_quiet u)|].
  apply accept_kept; [by apply (kept_quiet u)|]. intros Hq2.
  assert (p' = p1) as -> by (specialize (Hplug p1); rewrite Hp' in Hplug; done).
  assert (p1 = p) as ->.
  { pose proof (prepared_packet cfg io p u Ha) as Hn. rewrite Hprep in Hn. cbn in Hn. subst p1.
    revert Hq2. unfold normalizeInboundPublishFlags. destruct (Z.eqb_spec (pub_QoS p) 0); [|done]. cbn. lia. }
  split; [by apply Hwire|].
  destruct (q2_waiting (up_QoS2 v) !! pub_PacketID p) as [m|] eqn:E; [|done]. exfalso.
  pose proof (lookup_weaken _ _ _ _ E Hw) as E1. pose proof (lookup_weaken _ _ _ _ E (quiet_waiting _ _ Hq)) as E0.
  destruct (fk_session _ Hk) as (s & _ & _ & _ & _ & Hrec). destruct (Hrec _ _ E0) as (um & _ & Hr).
  destruct Hr as (_ & _ & _ & _ & Hne & _ & Hcode & _). revert Hrep. unfold handleRepeatedPublish, qos2_Read.
  rewrite Hq2, E1, (proj2 (Z.eqb_neq (pub_PacketID p) 0)) by done. cbn [negb Z.eqb Pos.eqb orb].
  by destruct Hcode as [->| ->].
Qed.

Lemma run_kept cfg xs : ∀ u, Forall (λ x, packet_ok x.1 x.2) xs → flows_kept u → flows_kept (up_run cfg xs u).
Proof.
  induction xs as [|[io x] xs IH]; intros u Hx H; cbn; [done|]. apply Forall_cons in Hx as [Hx Hxs].
  destruct (up_done u); [done|].
  assert (flows_kept (up_dispatch cfg io x u).1) as H1 by (destruct x; [by apply publish_kept|by apply pubrel_kept]).
  destruct (up_dispatch cfg io x u) as [u' [[]|e]]; [by apply IH|done].
Qed.

(** ** Restoring *)

(** While flows are restored nothing expires. *)
Definition just_seen (now : Z) (q : QoS2ReceiveStore) : Prop := ∀ k t, q2_lastSeen q !! k = Some t → t = now.

Lemma just_seen_cleanup now q : just_seen now q → cleanupExpired defaultQoS2WaitingTTL now q = q.
Proof.
  intros Hseen. unfold cleanupExpired. change (defaultQoS2WaitingTTL <=? 0) with false. cbv iota.
  assert (filter (λ x, defaultQoS2WaitingTTL < now - x.2) (q2_lastSeen q) = ∅) as ->.
  { apply map_empty. intros k. apply map_lookup_filter_None. right. intros t Hk. cbn.
    rewrite (Hseen k t Hk). unfold defaultQoS2WaitingTTL. lia. }
  destruct q as [w f l]; cbn. f_equal; apply map_filter_id; intros k x _; apply lookup_empty.
Qed.

Lemma restored_store now msg p q : just_seen now q → msg_Publish msg = Some p →
  just_seen now (qos2_Store now msg q).1 ∧
  q2_waiting (qos2_Store now msg q).1 =
    match q2_waiting q !! pub_PacketID p with Some _ => q2_waiting q | None => <[pub_PacketID p := msg]> (q2_waiting q) end.
Proof.
  intros Hq Hp. unfold qos2_Store. rewrite Hp, just_seen_cleanup by done.
  destruct (q2_waiting q !! pub_PacketID p); cbn; (split; [|done]); intros k t Hk; cbn in Hk;
    apply lookup_insert_Some in Hk as [[_ <-]|[_ Hk]]; [done|by eapply Hq|done|by eapply Hq].
Qed.

(** The message a record restores to. *)
Definition restored (newID : string) (um : UnfinishedMessage) : option (Z * Message) :=
  if um_IsOutgoing um || negb (bool_decide (um_State um = WAITING_PUBREL)) || negb (um_Qos um =? 2) || (um_PacketID um =? 0)
     || bool_decide (length (um_PublishPacket um) = 0%nat) then None
  else match Decode 0 (um_PublishPacket um) with
       | Ok (cp, _) =>
           match cp_Content cp with
           | Some (PPublish p) =>
               let p := if pub_PacketID p =? 0 then set_qos_id (pub_QoS p) (wrap 16 (um_PacketID um)) p else p in
               if negb (pub_QoS p =? 2) then None
               else Some (pub_PacketID p, mkMessage newID (wrap 8 (um_AckReasonCode um)) (Some p) true)
           | _ => None
           end
       | Err _ => None
       end.

Lemma restoreOne_spec now newID um q : just_seen now q →
  just_seen now (restoreOne now newID um q) ∧
  q2_waiting (restoreOne now newID um q) =
    match restored newID um with
    | Some (k, m) => match q2_waiting q !! k with Some _ => q2_waiting q | None => <[k := m]> (q2_waiting q) end
    | None => q2_waiting q
    end.
Proof.
  intros Hq. unfold restoreOne, restored. case_if; [done|]. destruct (Decode 0 (um_PublishPacket um)) as [[cp l]|e]; [|done].
  destruct (cp_Content cp) as [[]|]; try done. destruct (pub_PacketID p =? 0); (case_if; [done|]; by apply restored_store).
Qed.

(** The slot a record of an incoming flow fills is its own. *)
Lemma restored_slot newID um k m : coherent um → restored newID um = Some (k, m) → um_IsOutgoing um = false ∧ um_PacketID um = k.
Proof.
  intros Hc. unfold restored. case_if; [done|]. bool_arith.
  destruct (Decode 0 (um_PublishPacket um)) as [[cp l]|e] eqn:Hd; [|done].
  destruct (cp_Content cp) as [[]|] eqn:Hcp; try done. assert (pub_PacketID p = um_PacketID um) as Hid by (by eapply Hc).
  destruct (Z.eqb_spec (pub_PacketID p) 0); [lia|]. case_if; [done|]. intros [= <- <-]. done.
Qed.

Lemma restored_recorded newID k m um : recorded k m um →
  ∃ p, msg_Publish m = Some p ∧ restored newID um = Some (k, mkMessage newID (msg_AckReasonCode m) (Some (norm_pub p)) true).
Proof.
  intros (Ho & Hs & Hq & Hk & Hk0 & Hc & Hcode & p & Hp & Hq2 & Hid & Hwf & He). exists p. split; [done|].
  destruct (decode_publish _ _ Hwf He) as (cp & Hd & Hcp). pose proof (Encode_nonempty _ _ _ He) as Hne.
  unfold restored. rewrite Ho, Hs, Hq, Hk, Hd, Hcp, Hc. rewrite bool_decide_true by done. rewrite (proj2 (Z.eqb_neq k 0)) by done.
  rewrite bool_decide_false by (by intros ?%nil_length_inv). cbn [orb negb Z.eqb Pos.eqb].
  assert (pub_PacketID (norm_pub p) = k ∧ pub_QoS (norm_pub p) = 2) as [Hid' Hq'] by done.
  rewrite Hid', (proj2 (Z.eqb_neq k 0)) by done. rewrite Hid', Hq'. cbn [negb Z.eqb Pos.eqb].
  by destruct Hcode as [->| ->].
Qed.

(** Restoring a session's records: a slot is filled by the record of its identifier. *)
Lemma restore_slot now (msgs : list (string * UnfinishedMessage)) k m um : ∀ q,
  just_seen now q →
  Forall (λ x, coherent x.2) msgs →
  (∀ x y, x ∈ msgs.*2 → y ∈ msgs.*2 → um_IsOutgoing x = false → um_IsOutgoing y = false → um_PacketID x = um_PacketID y → x = y) →
  um ∈ msgs.*2 → recorded k m um → q2_waiting q !! k = None →
  ∃ newID p, msg_Publish m = Some p ∧
    q2_waiting (restoreIncomingQoS2FromSession now msgs q) !! k =
      Some (mkMessage newID (msg_AckReasonCode m) (Some (norm_pub p)) true).
Proof.
  assert (∀ l q m', just_seen now q → q2_waiting q !! k = Some m' →
    q2_waiting (restoreIncomingQoS2FromSession now l q) !! k = Some m') as Hstay.
  { induction l as [|x l IH]; intros q m' Hq Hk; [done|]. cbn. destruct (restoreOne_spec now x.1 x.2 q Hq) as [H1 H2].
    apply IH; [done|]. rewrite H2. destruct (restored x.1 x.2) as [[k' m'']|]; [|done].
    destruct (q2_waiting q !! k') eqn:E; [done|]. rewrite lookup_insert_ne; [done|congruence]. }
  induction msgs as [|[newID x] msgs IH]; intros q Hq Hco Huniq Hum Hrec Hk; [by apply elem_of_nil in Hum|].
  apply Forall_cons in Hco as [Hcx Hco]. destruct (restoreOne_spec now newID x q Hq) as [H1 H2]. cbn [restoreIncomingQoS2FromSession foldl].
  fold (restoreIncomingQoS2FromSession now msgs (restoreOne now newID x q)).
  destruct (decide (x = um)) as [->|Hne].
  - destruct (restored_recorded newID k m um Hrec) as (p & Hp & Hr). exists newID, p. split; [done|]. apply Hstay; [done|].
    cbn. by rewrite H2, Hr, Hk, lookup_insert_eq.
  - apply elem_of_cons in Hum as [->|Hum]; [done|].
    apply IH; try done.
    + intros y z Hy Hz. apply Huniq; by right.
    + cbn. rewrite H2. destruct (restored newID x) as [[k' m']|] eqn:Hr; [|done].
      destruct (restored_slot _ _ _ _ Hcx Hr) as [Ho Hid].
      destruct (q2_waiting q !! k'); [done|]. rewrite lookup_insert_ne; [done|]. intros ->. apply Hne.
      destruct Hrec as (Ho' & _ & _ & Hid' & _). apply Huniq; [left|by right|done|done|cbn in *; congruence].
Qed.

(** ** The theorems *)

(** C18. A lost connection loses no QoS 2 message: let a connection with a persistent
    session start with its open flows recorded in the session, and let any packets
    arrive and any part fail.  Wherever the connection ends, restoring the session
    gives the next connection every message still waiting for PUBREL, as decoded from
    the wire, with the PUBREC code it was answered with. *)
Theorem open_flows_survive cfg u xs now ids :
  flows_kept u → Forall (λ x, packet_ok x.1 x.2) xs →
  let u' := up_run cfg xs u in
  ∀ k m, qos2_Read k (up_QoS2 u') = Some m →
  ∃ s, c_Sessions (up_center u') !! up_ID u' = Some s ∧
    (length ids = length (ss_UnfinishedMessages s) →
     ∃ newID p, msg_Publish m = Some p ∧
       qos2_Read k (restoreIncomingQoS2FromSession now (zip ids (ss_UnfinishedMessages s)) NewQoS2ReceiveStore) =
         Some (mkMessage newID (msg_AckReasonCode m) (Some (norm_pub p)) true)).
Proof.
  intros Hk Hx u' k m Hm. destruct (fk_session _ (run_kept cfg xs u Hx Hk)) as (s & Hs & _ & Hco & Huniq & Hrec).
  exists s. split; [done|]. intros Hlen. destruct (Hrec k m Hm) as (um & Hum & Hr).
  assert ((zip ids (ss_UnfinishedMessages s)).*2 = ss_UnfinishedMessages s) as Hz by (apply snd_zip; lia).
  apply (restore_slot now _ k m um); rewrite ?Hz; try done.
  rewrite <-Hz in Hco. by rewrite Forall_fmap in Hco.
Qed.

(** ** Examples *)

Definition example_session : Core :=
  mkCore {["c" := mkSession "c" None [] 60 0 None]} {["c" := mkOwner "c" 1 "tok" true]}.
Definition persistent_uplink : Uplink :=
  mkUplink "c" "tok" 60 5 (Some NewTopicAliasManager) None NewQoS2ReceiveStore ∅ ∅ example_session false [].
Definition unfinished_of (u : Uplink) : list UnfinishedMessage :=
  default [] (ss_UnfinishedMessages <$> c_Sessions (up_center u) !! up_ID u).

(** The PUBREL routes the message, then the session center cannot be reached. *)
Definition broken_release : list (UplinkIO * UpPacket) :=
  [(example_ui 1 None None, InPublish (example_publish 2 7));
   (example_ui 2 None (Some "timeout"), InPubrel (mkAck None 7 0))].
(** The next connection: the flow is restored and the client repeats its PUBREL. *)
Definition next_connection (u : Uplink) : Uplink :=
  mkUplink "c" "tok2" 60 5 (Some NewTopicAliasManager) None
    (restoreIncomingQoS2FromSession 2000 (zip [example_id 9] (unfinished_of u)) NewQoS2ReceiveStore) ∅ ∅
    (mkCore (c_Sessions (up_center u)) {["c" := mkOwner "c" 1 "tok2" true]}) false [].

Lemma persistent_kept : flows_kept persistent_uplink.
Proof.
  split; [done|done|]. eexists. split; [reflexivity|]. cbn. split_and!; [done|constructor| |].
  - intros um um' H. by apply elem_of_nil in H.
  - intros k m H. by rewrite lookup_empty in H.
Qed.

Lemma example_wire id : 0 < id < 65536 → wf_packet (PPublish (example_publish 2 id)).
Proof. intros H. cbn. unfold is_u16. split_and!; done || lia. Qed.

Lemma open_flows_survive_witness :
  let u' := up_run example_config broken_release persistent_uplink in
  ∃ newID, qos2_Read 7 (restoreIncomingQoS2FromSession 2000 (zip [example_id 9] (unfinished_of u')) NewQoS2ReceiveStore) =
    Some (mkMessage newID 0 (Some (norm_pub (example_publish 2 7))) true).
Proof.
  intros u'. destruct (qos2_Read 7 (up_QoS2 u')) as [m|] eqn:Hm; [|vm_compute in Hm; discriminate].
  destruct (open_flows_survive example_config persistent_uplink broken_release 2000 [example_id 9] persistent_kept) with (k := 7) (m := m)
    as (s & Hs & H).
  - repeat constructor. intros _. destruct (Encode 0 (Some (publishPacket (example_publish 2 7)))) as [bs|] eqn:E; [|vm_compute in E; discriminate].
    exists bs. split; [by apply example_wire|done].
  - exact Hm.
  - fold u' in Hs, H. assert (unfinished_of u' = ss_UnfinishedMessages s) as -> by (unfold unfinished_of; by rewrite Hs).
    destruct H as (newID & p & Hp & Hr).
    { assert (unfinished_of u' = ss_UnfinishedMessages s) as <- by (unfold unfinished_of; by rewrite Hs). vm_compute. reflexivity. }
    exists newID. rewrite Hr. vm_compute in Hm. injection Hm as <-. injection Hp as <-. reflexivity.
Defined.

(** After the session center failed to drop a routed QoS 2 flow, the client's
    PUBREL on the next connection routes the same message again, under another message
    identifier, so that receivers cannot recognise the copy: the identifier stored in
    the session is not the one the flow is restored with. *)
Theorem restored_flow_routed_twice :
  let u1 := up_run example_config broken_release persistent_uplink in
  let u2 := up_run example_config [(example_ui 3 None None, InPubrel (mkAck None 7 0))] (next_connection u1) in
  routed_ids (up_trace u1) = [example_id 1] ∧ routed_ids (up_trace u2) = [example_id 9] ∧
  um_MessageID <$> unfinished_of u1 = [example_id 1] ∧ example_id 1 ≠ example_id 9.
Proof. vm_compute. repeat split. discriminate. Qed.
