(* ===== verification/Subscribe.v ===== *)
(** * SUBSCRIBE and UNSUBSCRIBE ([src/internal/broker/client/client_handler_subscribe.go])

    [handleSub] checks the filters of a SUBSCRIBE and the server's capabilities, stores
    the subscriptions through the state router, answers with one reason code per
    filter, tells the shared-subscription manager and starts the job that sends the
    retained messages.  [handleUnsub] removes subscriptions.

    The state is the connection ([Downlink]), what identifies it, the state router's
    centers and the calls made to the shared-subscription manager, in order.  The
    plugin, which may change the packet, and the fate of the one packet written are
    inputs.  Checks that end the connection answer the DISCONNECT to send.  The job
    works on the retain store; it may wait for a flow token, and is modelled up to
    that point. *)

From S2P Require Import Prelude GoStrings Mqtt5 Topic Wire WireParse WireProps WireCodec SubCore SubCenter SessionCore Router StateRouter Inflight Downlink Retain RetainStore.

(** ** State *)

(** The broker and cluster configuration the handlers read; [sc_manager]: the component
    has a shared-subscription manager. *)
Record SubscribeConfig := mkSubscribeConfig {
  sc_MaxQos : Z;
  sc_RetainAvailable : Z;
  sc_WildcardSubscriptionAvailable : bool;
  sc_SubscriptionIdentifierAvailable : bool;
  sc_SharedSubscriptionAvailable : bool;
  sc_manager : bool;
  sc_LocalNodeID : Z }.

Inductive SharedCall :=
| OnClientOnline (clientID shareGroup topicFilter : string)
| OnClientUnsubscribe (clientID shareGroup topicFilter : string).

Record SubClient := mkSubClient {
  cs_down : Downlink;
  cs_ownerToken : string;
  cs_connAckAccepted : bool;
  cs_router : RouterState;
  cs_shared : list SharedCall }.

Definition cs_ID (s : SubClient) : string := dl_ID (cs_down s).
Definition cs_with_down (x : Downlink) (s : SubClient) : SubClient :=
  mkSubClient x (cs_ownerToken s) (cs_connAckAccepted s) (cs_router s) (cs_shared s).
Definition cs_with_router (x : RouterState) (s : SubClient) : SubClient :=
  mkSubClient (cs_down s) (cs_ownerToken s) (cs_connAckAccepted s) x (cs_shared s).
Definition cs_call (x : SharedCall) (s : SubClient) : SubClient :=
  mkSubClient (cs_down s) (cs_ownerToken s) (cs_connAckAccepted s) (cs_router s) (cs_shared s ++ [x]).

Definition cs_write (o : WriteOutcome) (p : Packet) (s : SubClient) : SubClient * result (list string) unit :=
  match write o p "" (cs_down s) with
  | (d, Ok _) => (cs_with_down d s, Ok tt)
  | (d, Err e) => (cs_with_down d s, Err [e])
  end.

(** [failProtocol] and [failProtocolWithCode]. *)
Definition failProtocol (o : WriteOutcome) (packet : Packet) (s : SubClient) : SubClient * result (list string) unit :=
  let s := if cs_connAckAccepted s then (cs_write o packet s).1 else s in
  (cs_with_down (close (cs_down s)) s, Err ["protocol error"]).

(** ** SUBSCRIBE: checks *)

Definition SubackNotauthorized : Z := 0x87.
Definition SubackTopicFilterinvalid : Z := 0x8F.
Definition DisconnectMalformedPacket : Z := 0x81.
Definition DisconnectSharedSubscriptionNotSupported : Z := 0x9E.
Definition DisconnectSubscriptionIdentifiersNotSupported : Z := 0xA1.
Definition DisconnectWildcardSubscriptionsNotSupported : Z := 0xA2.
Definition mqtt5SubscriptionIdentifierMin : Z := 1.
Definition mqtt5SubscriptionIdentifierMax : Z := 268435455.

Definition invalidSubscribeTopicFilter (filter : string) : bool :=
  match ValidateTopicFilterSyntax filter with Ok _ => false | Err _ => true end.

Record subscribePrecheckResult := mkPrecheck {
  pc_rejectedReasons : list Z;
  pc_hasRejected : bool;
  pc_filtered : option Subscribe }.

Definition reject (idx : nat) (reason : Z) (r : subscribePrecheckResult) : subscribePrecheckResult :=
  mkPrecheck (<[idx := reason]> (pc_rejectedReasons r)) true (pc_filtered r).

Definition allRejected (r : subscribePrecheckResult) : bool :=
  pc_hasRejected r && match pc_filtered r with None => true | Some _ => false end.

Definition subscribeForCreate (r : subscribePrecheckResult) (subscribe : Subscribe) : Subscribe :=
  default subscribe (pc_filtered r).

Fixpoint topicValidation (idx : nat) (subs : list SubOptions) (r : subscribePrecheckResult)
    : result Packet subscribePrecheckResult :=
  match subs with
  | [] => Ok r
  | sub :: subs =>
      if invalidSubscribeTopicFilter (sub_Topic sub)
      then topicValidation (S idx) subs (reject idx SubackTopicFilterinvalid r)
      else if IsSharedSubscription (sub_Topic sub) && sub_NoLocal sub
      then Err (ForProtocolError "No Local is not allowed on shared subscriptions")
      else topicValidation (S idx) subs r
  end.
Definition applySubscribeTopicValidation (subscribe : Subscribe) (r : subscribePrecheckResult)
    : result Packet subscribePrecheckResult := topicValidation 0 (sbs_Subscriptions subscribe) r.

Definition subscriptionIdentifier (subscribe : Subscribe) : option Z :=
  sbs_Properties subscribe ≫= sbp_SubscriptionIdentifier.

Definition validateSubscriptionIdentifier (subscribe : Subscribe) : result Packet unit :=
  match subscriptionIdentifier subscribe with
  | None => Ok tt
  | Some sid =>
      if (mqtt5SubscriptionIdentifierMin <=? sid) && (sid <=? mqtt5SubscriptionIdentifierMax) then Ok tt
      else Err (NewServerDisconnect DisconnectMalformedPacket
                  ("subscription identifier " +:+ pretty sid +:+ " out of range [" +:+
                   pretty mqtt5SubscriptionIdentifierMin +:+ ", " +:+ pretty mqtt5SubscriptionIdentifierMax +:+ "]"))
  end.

(** The loop of [applySubscribeCapabilities]. *)
Fixpoint filterCapabilities (cfg : SubscribeConfig) (subs : list SubOptions) (rejected : list Z) : result Packet unit :=
  match subs, rejected with
  | sub :: subs, reason :: rejected =>
      if negb (reason =? 0) || bool_decide (sub_Topic sub = "") then filterCapabilities cfg subs rejected
      else if HasWildcard (sub_Topic sub) && negb (sc_WildcardSubscriptionAvailable cfg) then
        Err (NewServerDisconnect DisconnectWildcardSubscriptionsNotSupported
               ("wildcard subscriptions are not supported: " +:+ sub_Topic sub))
      else if IsSharedSubscription (sub_Topic sub) && (negb (sc_SharedSubscriptionAvailable cfg) || negb (sc_manager cfg)) then
        Err (NewServerDisconnect DisconnectSharedSubscriptionNotSupported
               ("shared subscriptions are not supported: " +:+ sub_Topic sub))
      else filterCapabilities cfg subs rejected
  | _, _ => Ok tt
  end.
Definition applySubscribeCapabilities (cfg : SubscribeConfig) (subscribe : Subscribe) (r : subscribePrecheckResult)
    : result Packet unit :=
  if negb (sc_SubscriptionIdentifierAvailable cfg) && bool_decide (is_Some (subscriptionIdentifier subscribe)) then
    Err (NewServerDisconnect DisconnectSubscriptionIdentifiersNotSupported "subscription identifiers are not supported")
  else filterCapabilities cfg (sbs_Subscriptions subscribe) (pc_rejectedReasons r).

(** The items with reason 0. *)
Fixpoint keepUnrejected (subs : list SubOptions) (rejected : list Z) : list SubOptions :=
  match subs, rejected with
  | sub :: subs, reason :: rejected =>
      if reason =? 0 then sub :: keepUnrejected subs rejected else keepUnrejected subs rejected
  | _, _ => []
  end.
Definition buildFilteredSubscribe (subscribe : Subscribe) (rejectedReasons : list Z) (hasRejected : bool) : option Subscribe :=
  if negb hasRejected then None
  else match keepUnrejected (sbs_Subscriptions subscribe) rejectedReasons with
       | [] => None
       | filteredSubs => Some (mkSubscribe (sbs_Properties subscribe) filteredSubs (sbs_PacketID subscribe))
       end.

Definition precheckSubscribe (cfg : SubscribeConfig) (subscribe : Subscribe) : result Packet subscribePrecheckResult :=
  r ← applySubscribeTopicValidation subscribe (mkPrecheck (replicate (length (sbs_Subscriptions subscribe)) 0) false None);
  _ ← validateSubscriptionIdentifier subscribe;
  _ ← applySubscribeCapabilities cfg subscribe r;
  Ok (mkPrecheck (pc_rejectedReasons r) (pc_hasRejected r)
        (buildFilteredSubscribe subscribe (pc_rejectedReasons r) (pc_hasRejected r))).

(** ** SUBSCRIBE: storing and answering *)

(** The filters of the packet the session already has; a [map[string]bool] whose
    entries are all true. *)
Definition readExistingSessionSubscriptions (cfg : SubscribeConfig) (subscribe : Subscribe) (s : SubClient) : gset string :=
  match ListClientSubscriptions (cs_router s) (cs_ID s) (sc_LocalNodeID cfg) with
  | Err _ => ∅
  | Ok currentSubs =>
      list_to_set (filter (λ f, f ≠ "" ∧ is_Some (currentSubs !! f)) (sub_Topic <$> sbs_Subscriptions subscribe))
  end.

Definition createSubscriptions (cfg : SubscribeConfig) (subscribe : Subscribe) (s : SubClient)
    : SubClient * result (list string) (list Z) :=
  let '(router, rsp) := RouterSubscribe (cs_router s)
    (mkSubscribeRequest (sc_LocalNodeID cfg) (cs_ID s) (cs_ownerToken s) (Some subscribe) (sc_MaxQos cfg)) in
  (cs_with_router router s, rsp).

Definition subscribeAckQoS (granted maxQos : Z) : Z :=
  if granted <? 0 then granted else if wrap_i32 maxQos <? granted then wrap_i32 maxQos else granted.

Definition Int32ToQoS (qos : Z) : Z := if qos =? 1 then 1 else if qos =? 2 then 2 else 0.

Record subAckBuildResult := mkSubAckBuild {
  sb_reasons : list Z;
  sb_successSubs : list SubOptions;
  sb_successGrantedQoS : list Z }.

(** [grantedQoS] is what is left of it from [validIdx] on. *)
Fixpoint buildSubAckReasons (subs : list SubOptions) (rejectedReasons grantedQoS : list Z) (maxQos : Z) : subAckBuildResult :=
  match subs, rejectedReasons with
  | sub :: subs, reason :: rejectedReasons =>
      if negb (reason =? 0) then
        let r := buildSubAckReasons subs rejectedReasons grantedQoS maxQos in
        mkSubAckBuild (reason :: sb_reasons r) (sb_successSubs r) (sb_successGrantedQoS r)
      else
        match grantedQoS with
        | [] =>
            let r := buildSubAckReasons subs rejectedReasons [] maxQos in
            mkSubAckBuild (0x80 :: sb_reasons r) (sb_successSubs r) (sb_successGrantedQoS r)
        | granted :: grantedQoS =>
            let r := buildSubAckReasons subs rejectedReasons grantedQoS maxQos in
            let ack := subscribeAckQoS granted maxQos in
            if ack <? 0 then mkSubAckBuild (0x80 :: sb_reasons r) (sb_successSubs r) (sb_successGrantedQoS r)
            else mkSubAckBuild (Int32ToQoS ack :: sb_reasons r) (sub :: sb_successSubs r) (ack :: sb_successGrantedQoS r)
        end
  | _, _ => mkSubAckBuild [] [] []
  end.

(** One call of the manager per shared filter; an error of the manager is logged. *)
Fixpoint registerSuccessfulSharedSubscriptions (cfg : SubscribeConfig) (subs : list SubOptions) (grantedQoS : list Z) (s : SubClient) : SubClient :=
  if negb (sc_manager cfg) then s
  else
    match subs, grantedQoS with
    | sub :: subs, ack :: grantedQoS =>
        let s :=
          if bool_decide (sub_Topic sub = "") || negb (IsSharedSubscription (sub_Topic sub)) then s
          else if ack <? 0 then s
          else match ParseSharedSubscription (sub_Topic sub) with
               | Err _ => s
               | Ok (shareGroup, actualTopicFilter) => cs_call (OnClientOnline (cs_ID s) shareGroup actualTopicFilter) s
               end in
        registerSuccessfulSharedSubscriptions cfg subs grantedQoS s
    | _, _ => s
    end.

Record SubscribeIO := mkSubscribeIO {
  si_plugin : Subscribe → Subscribe * bool;
  si_write : WriteOutcome }.

Definition newSubAckPacket (packetID : Z) (reasons : list Z) : Packet := PSuback (mkCodeList None reasons packetID).

(** The job started with the successful subscriptions and the filters the session had. *)
Record RetainJob := mkRetainJob {
  rj_subs : list SubOptions;
  rj_existed : gset string }.

Definition handleSub (cfg : SubscribeConfig) (io : SubscribeIO) (subscribe : Subscribe) (s : SubClient)
    : SubClient * result (list string) unit * option RetainJob :=
  let packetID := sbs_PacketID subscribe in
  let '(subscribe, allowed) := si_plugin io subscribe in
  if negb allowed then
    ((cs_write (si_write io) (newSubAckPacket packetID
        (replicate (length (sbs_Subscriptions subscribe)) SubackNotauthorized)) s).1, Ok tt, None)
  else
    match precheckSubscribe cfg subscribe with
    | Err packet => (failProtocol (si_write io) packet s, None)
    | Ok precheck =>
        let existedSessionSubs := readExistingSessionSubscriptions cfg subscribe s in
        if allRejected precheck then
          ((cs_write (si_write io) (newSubAckPacket packetID (pc_rejectedReasons precheck)) s).1, Ok tt, None)
        else
          match createSubscriptions cfg (subscribeForCreate precheck subscribe) s with
          | (s, Err e) => (s, Err e, None)
          | (s, Ok grantedQoS) =>
              let ackResult := buildSubAckReasons (sbs_Subscriptions subscribe) (pc_rejectedReasons precheck) grantedQoS (sc_MaxQos cfg) in
              match cs_write (si_write io) (newSubAckPacket packetID (sb_reasons ackResult)) s with
              | (s, Err e) => (s, Err e, None)
              | (s, Ok _) =>
                  (registerSuccessfulSharedSubscriptions cfg (sb_successSubs ackResult) (sb_successGrantedQoS ackResult) s, Ok tt,
                   match sb_successSubs ackResult with [] => None | subs => Some (mkRetainJob subs existedSessionSubs) end)
              end
          end
    end.

(** ** UNSUBSCRIBE *)

Definition UnsubackSuccess : Z := 0x00.
Definition UnsubackUnspecifiedError : Z := 0x80.
Definition UnsubackNotAuthorized : Z := 0x87.
Definition UnsubackTopicFilterInvalid : Z := 0x8F.

Definition invalidUnsubscribeTopicFilter (filter : string) : bool := invalidSubscribeTopicFilter filter.

Fixpoint precheckUnsubscribeTopics (topics : list string) : list Z * list string :=
  match topics with
  | [] => ([], [])
  | topicFilter :: topics =>
      let '(rejectedReasons, validTopics) := precheckUnsubscribeTopics topics in
      if invalidUnsubscribeTopicFilter topicFilter then (UnsubackTopicFilterInvalid :: rejectedReasons, validTopics)
      else (0 :: rejectedReasons, topicFilter :: validTopics)
  end.

Definition deleteValidSubscriptions (validTopics : list string) (s : SubClient) : SubClient * list Z :=
  let '(t, topics) := DeleteSub (rs_subs (cs_router s)) (mkUnSubRequest validTopics (cs_ID s) (cs_ownerToken s)) in
  (cs_with_router (mkRouterState (rs_sessions (cs_router s)) t) s, topics).

(** The reasons and the filters removed; [rsp] is what is left from [validReasonIdx] on. *)
Fixpoint buildUnsubAckReasons (topics : list string) (rejectedReasons rsp : list Z) : list Z * gset string :=
  match topics, rejectedReasons with
  | topicFilter :: topics, reason :: rejectedReasons =>
      if negb (reason =? 0) then
        let '(reasons, removed) := buildUnsubAckReasons topics rejectedReasons rsp in (reason :: reasons, removed)
      else
        match rsp with
        | [] =>
            let '(reasons, removed) := buildUnsubAckReasons topics rejectedReasons [] in
            (UnsubackUnspecifiedError :: reasons, removed)
        | ack :: rsp =>
            let '(reasons, removed) := buildUnsubAckReasons topics rejectedReasons rsp in
            if ack =? -1 then (UnsubackUnspecifiedError :: reasons, removed)
            else (wrap 8 ack :: reasons, if wrap 8 ack =? UnsubackSuccess then {[topicFilter]} ∪ removed else removed)
        end
  | _, _ => ([], ∅)
  end.

Fixpoint unregisterSharedUnsubscriptions (cfg : SubscribeConfig) (validTopics : list string) (removed : gset string) (s : SubClient) : SubClient :=
  if negb (sc_manager cfg) then s
  else
    match validTopics with
    | [] => s
    | topicFilter :: validTopics =>
        let s :=
          if negb (bool_decide (topicFilter ∈ removed)) || bool_decide (topicFilter = "") then s
          else if negb (IsSharedSubscription topicFilter) then s
          else match ParseSharedSubscription topicFilter with
               | Err _ => s
               | Ok (shareGroup, topicName) => cs_call (OnClientUnsubscribe (cs_ID s) shareGroup topicName) s
               end in
        unregisterSharedUnsubscriptions cfg validTopics removed s
    end.

Record UnsubscribeIO := mkUnsubscribeIO {
  ni_plugin : Unsubscribe → Unsubscribe * bool;
  ni_write : WriteOutcome }.

Definition newUnsubAckPacket (packetID : Z) (reasons : list Z) : Packet := PUnsuback (mkCodeList None reasons packetID).

Definition handleUnsub (cfg : SubscribeConfig) (io : UnsubscribeIO) (unsubscribe : Unsubscribe) (s : SubClient)
    : SubClient * result (list string) unit :=
  let packetID := uns_PacketID unsubscribe in
  let '(unsubscribe, allowed) := ni_plugin io unsubscribe in
  if negb allowed then
    cs_write (ni_write io) (newUnsubAckPacket packetID (replicate (length (uns_Topics unsubscribe)) UnsubackNotAuthorized)) s
  else
    let '(rejectedReasons, validTopics) := precheckUnsubscribeTopics (uns_Topics unsubscribe) in
    match validTopics with
    | [] => cs_write (ni_write io) (newUnsubAckPacket packetID rejectedReasons) s
    | _ =>
        let '(s, rsp) := deleteValidSubscriptions validTopics s in
        let '(reasons, removed) := buildUnsubAckReasons (uns_Topics unsubscribe) rejectedReasons rsp in
        let s := unregisterSharedUnsubscriptions cfg validTopics removed s in
        cs_write (ni_write io) (newUnsubAckPacket packetID reasons) s
    end.

(** [restoreSharedSubscriptions]: the loop over the client's filters, in any order. *)
Fixpoint restoreEach (topics : list string) (s : SubClient) : SubClient :=
  match topics with
  | [] => s
  | topicFilter :: topics =>
      let s :=
        if bool_decide (topicFilter = "") || negb (IsSharedSubscription topicFilter) then s
        else match ParseSharedSubscription topicFilter with
             | Err _ => s
             | Ok (shareGroup, actualTopicFilter) => cs_call (OnClientOnline (cs_ID s) shareGroup actualTopicFilter) s
             end in
      restoreEach topics s
  end.
Definition restoreSharedSubscriptions (cfg : SubscribeConfig) (s : SubClient) : SubClient :=
  if negb (sc_manager cfg) then s
  else restoreEach (map_to_list (GetClientSubscriptions (rs_subs (cs_router s)) (cs_ID s))).*1 s.
