(* ===== verification/SubscribeProofs.v ===== *)
(** * SUBSCRIBE and UNSUBSCRIBE are answered filter by filter

    For the connection that owns its client: a SUBSCRIBE is either a protocol violation,
    which ends the connection and stores nothing, or is answered by a SUBACK with one
    code per filter in order, and exactly the filters granted are stored; an
    UNSUBSCRIBE is answered in the same way. *)

From S2P Require Import Prelude GoStrings Mqtt5 Topic Wire WireParse WireProps WireCodec SubCore SubCoreProofs SubCenter SubCenterProofs SessionCore Router StateRouter StateRouterProofs Inflight Downlink Retain RetainStore Subscribe.

(** ** What a SUBSCRIBE deserves *)

Definition good_filter (f : string) : Prop := ValidateTopicFilterSyntax f = Ok tt.
#[export] Instance good_filter_dec f : Decision (good_filter f).
Proof. unfold good_filter. destruct (ValidateTopicFilterSyntax f) as [[]|]; [left|right]; done. Defined.

Definition good_subs (p : Subscribe) : list SubOptions := filter (λ s, good_filter (sub_Topic s)) (sbs_Subscriptions p).

(** The code a filter is refused with before anything is stored; 0 if it is not. *)
Definition refusal (f : string) : Z := if decide (good_filter f) then 0 else 0x8F.

Lemma refusal_good f : good_filter f → refusal f = 0.
Proof. intros. unfold refusal. by rewrite decide_True. Qed.
Lemma refusal_bad f : ¬ good_filter f → refusal f = 0x8F.
Proof. intros. unfold refusal. by rewrite decide_False. Qed.

(** The capability a filter needs and the server does not have. *)
Definition lacking (cfg : SubscribeConfig) (s : SubOptions) : option Z :=
  if HasWildcard (sub_Topic s) && negb (sc_WildcardSubscriptionAvailable cfg) then Some 0xA2
  else if IsSharedSubscription (sub_Topic s) && (negb (sc_SharedSubscriptionAvailable cfg) || negb (sc_manager cfg)) then Some 0x9E
  else None.

(** The code of the DISCONNECT the packet deserves. *)
Definition violation (cfg : SubscribeConfig) (p : Subscribe) : option Z :=
  if existsb (λ s, IsSharedSubscription (sub_Topic s) && sub_NoLocal s) (good_subs p) then Some 0x82
  else match sbs_Properties p ≫= sbp_SubscriptionIdentifier with
       | Some sid =>
           if negb ((1 <=? sid) && (sid <=? 268435455)) then Some 0x81
           else if negb (sc_SubscriptionIdentifierAvailable cfg) then Some 0xA1 else head (omap (lacking cfg) (good_subs p))
       | None => head (omap (lacking cfg) (good_subs p))
       end.

(** ** The checks *)

Lemma invalid_spec f : invalidSubscribeTopicFilter f = bool_decide (¬ good_filter f).
Proof.
  unfold invalidSubscribeTopicFilter. case_bool_decide as H; unfold good_filter in H;
    by destruct (ValidateTopicFilterSyntax f) as [[]|].
Qed.

Lemma good_nonempty f : good_filter f → f ≠ "".
Proof. by intros [? _]%ValidateTopicFilterSyntax_spec. Qed.

Definition spoiled (subs : list SubOptions) : bool :=
  existsb (λ s, IsSharedSubscription (sub_Topic s) && sub_NoLocal s) (filter (λ s, good_filter (sub_Topic s)) subs).

Lemma topicValidation_spec subs : ∀ pre had filtered,
  topicValidation (length pre) subs (mkPrecheck (pre ++ replicate (length subs) 0) had filtered) =
  if spoiled subs then Err (ForProtocolError "No Local is not allowed on shared subscriptions")
  else Ok (mkPrecheck (pre ++ (refusal ∘ sub_Topic <$> subs))
             (had || existsb (λ s, bool_decide (¬ good_filter (sub_Topic s))) subs) filtered).
Proof.
  unfold spoiled. induction subs as [|s subs IH]; intros pre had filtered.
  { cbn. by rewrite orb_false_r. }
  cbn [topicValidation existsb length replicate]. rewrite invalid_spec, fmap_cons. cbn [compose]. unfold refusal at 1.
  rewrite filter_cons. destruct (decide (good_filter (sub_Topic s))) as [Hg|Hg].
  - rewrite (bool_decide_eq_false_2 (¬ _)) by tauto. cbn [existsb].
    destruct (IsSharedSubscription (sub_Topic s) && sub_NoLocal s); [done|]. cbn [orb].
    specialize (IH (pre ++ [0]) had filtered). rewrite length_app, Nat.add_comm, <-!app_assoc in IH. apply IH.
  - rewrite (bool_decide_eq_true_2 (¬ _)) by done. unfold reject. cbn [pc_rejectedReasons pc_filtered].
    rewrite insert_app_r_alt, Nat.sub_diag by lia. cbn [insert list_insert]. rewrite orb_true_r.
    specialize (IH (pre ++ [0x8F]) true filtered). rewrite length_app, Nat.add_comm, <-!app_assoc in IH. apply IH.
Qed.

Lemma keepUnrejected_spec subs : keepUnrejected subs (refusal ∘ sub_Topic <$> subs) = filter (λ s, good_filter (sub_Topic s)) subs.
Proof.
  induction subs as [|s subs IH]; [done|]. rewrite fmap_cons, filter_cons. cbn [keepUnrejected compose]. rewrite IH. unfold refusal.
  by case_decide.
Qed.

(** The packet of an error, by its reason code. *)
Definition disconnects (code : Z) (p : Packet) : Prop := ∃ props, p = PDisconnect (mkDisconnect props code).

Lemma filterCapabilities_spec cfg subs :
  match head (omap (lacking cfg) (filter (λ s, good_filter (sub_Topic s)) subs)) with
  | None => filterCapabilities cfg subs (refusal ∘ sub_Topic <$> subs) = Ok tt
  | Some code => ∃ p, filterCapabilities cfg subs (refusal ∘ sub_Topic <$> subs) = Err p ∧ disconnects code p
  end.
Proof.
  induction subs as [|s subs IH]; [done|]. rewrite fmap_cons, filter_cons. cbn [filterCapabilities compose].
  case_decide as Hg; [rewrite (refusal_good _ Hg)|by rewrite (refusal_bad _ Hg)]. rewrite (bool_decide_eq_false_2 (_ = "")) by by apply good_nonempty.
  cbn [Z.eqb negb orb omap list_omap]. unfold lacking at 1.
  destruct (HasWildcard (sub_Topic s) && negb (sc_WildcardSubscriptionAvailable cfg)); cbn [head].
  { eexists. split; [done|]. by eexists. }
  destruct (IsSharedSubscription (sub_Topic s) && _); cbn [head]; [|done]. eexists. split; [done|]. by eexists.
Qed.

Lemma none_good subs :
  existsb (λ s, bool_decide (¬ good_filter (sub_Topic s))) subs = bool_decide (filter (λ s, good_filter (sub_Topic s)) subs ≠ subs).
Proof.
  induction subs as [|s subs IH]; [done|]. cbn [existsb]. rewrite filter_cons, IH. destruct (decide (good_filter (sub_Topic s))) as [Hg|Hg].
  - rewrite (bool_decide_eq_false_2 (¬ good_filter (sub_Topic s))) by (by intros []). cbn [orb]. apply bool_decide_ext. split; [congruence|]. intros H E. by apply H; f_equal.
  - rewrite (bool_decide_eq_true_2 (¬ good_filter (sub_Topic s))) by done. symmetry. apply bool_decide_eq_true_2. intros E.
    pose proof (length_filter (λ s, good_filter (sub_Topic s)) subs). rewrite E in *. cbn in *. lia.
Qed.

(** The result of the checks when none ends the connection. *)
Definition checked (p : Subscribe) (r : subscribePrecheckResult) : Prop :=
  pc_rejectedReasons r = (refusal ∘ sub_Topic <$> sbs_Subscriptions p) ∧
  allRejected r = bool_decide (good_subs p = [] ∧ sbs_Subscriptions p ≠ []) ∧
  (allRejected r = false → subscribeForCreate r p = mkSubscribe (sbs_Properties p) (good_subs p) (sbs_PacketID p)).

Lemma checked_ok p :
  let reasons := refusal ∘ sub_Topic <$> sbs_Subscriptions p in
  let had := existsb (λ s, bool_decide (¬ good_filter (sub_Topic s))) (sbs_Subscriptions p) in
  checked p (mkPrecheck reasons had (buildFilteredSubscribe p reasons had)).
Proof.
  intros reasons had. split; [done|]. unfold allRejected, subscribeForCreate, buildFilteredSubscribe. cbn [pc_hasRejected pc_filtered].
  subst reasons had. rewrite none_good, keepUnrejected_spec. fold (good_subs p). case_bool_decide as Hne; cbn [negb andb].
  - destruct (good_subs p) as [|s l] eqn:E; cbn [default].
    + split; [|done]. symmetry. by apply bool_decide_eq_true_2.
    + split; [|done]. symmetry. apply bool_decide_eq_false_2. by intros [? _].
  - split; [symmetry; apply bool_decide_eq_false_2; intros [? H]; congruence|]. intros _. rewrite Hne. by destruct p.
Qed.

Lemma precheck_spec cfg p :
  match violation cfg p with
  | Some code => ∃ d, precheckSubscribe cfg p = Err d ∧ disconnects code d
  | None => ∃ r, precheckSubscribe cfg p = Ok r ∧ checked p r
  end.
Proof.
  unfold violation, precheckSubscribe, applySubscribeTopicValidation.
  pose proof (topicValidation_spec (sbs_Subscriptions p) [] false None) as Htv. cbn [length app orb] in Htv. rewrite Htv.
  unfold spoiled. fold (good_subs p).
  destruct (existsb _ (good_subs p)); [cbn; eexists; split; [done|by eexists]|]. cbn [mbind result_mbind result_bind pc_rejectedReasons pc_hasRejected].
  pose proof (filterCapabilities_spec cfg (sbs_Subscriptions p)) as Hcap. fold (good_subs p) in Hcap.
  pose proof (checked_ok p) as Hok. cbv zeta in Hok.
  unfold validateSubscriptionIdentifier, applySubscribeCapabilities, subscriptionIdentifier, mqtt5SubscriptionIdentifierMin,
    mqtt5SubscriptionIdentifierMax. cbn [pc_rejectedReasons pc_hasRejected].
  destruct (sbs_Properties p ≫= sbp_SubscriptionIdentifier) as [sid|].
  - destruct ((1 <=? sid) && (sid <=? 268435455)); cbn [negb mbind result_mbind result_bind pc_rejectedReasons pc_hasRejected]; [|eexists; split; [done|by eexists]].
    rewrite (bool_decide_eq_true_2 (is_Some _)) by done. rewrite andb_true_r.
    destruct (negb (sc_SubscriptionIdentifierAvailable cfg)); cbn [mbind result_mbind result_bind pc_rejectedReasons pc_hasRejected]; [eexists; split; [done|by eexists]|].
    destruct (head _) as [code|]; [|rewrite Hcap; cbn; by eexists]. destruct Hcap as (d & -> & Hd). cbn. by exists d.
  - rewrite (bool_decide_eq_false_2 (is_Some _)), andb_false_r by (by intros []). cbn [mbind result_mbind result_bind pc_rejectedReasons pc_hasRejected].
    destruct (head _) as [code|]; [|rewrite Hcap; cbn; by eexists]. destruct Hcap as (d & -> & Hd). cbn. by exists d.
Qed.

(** ** The SUBACK *)

Definition ack_code (maxQos : Z) (s : SubOptions) : Z :=
  if decide (good_filter (sub_Topic s)) then Z.min (sub_QoS s) maxQos else 0x8F.

Lemma ack_qos maxQos q : 0 ≤ maxQos ≤ 2 → 0 ≤ q →
  let ack := subscribeAckQoS (Z.min q maxQos) maxQos in ack = Z.min q maxQos ∧ Int32ToQoS ack = ack ∧ 0 ≤ ack.
Proof.
  intros Hm Hq. cbv zeta. unfold subscribeAckQoS, Int32ToQoS, wrap_i32. rewrite (Z.mod_small (maxQos + 2 ^ 31)) by lia.
  zcase; lia.
Qed.

Lemma buildSubAck_spec maxQos subs : 0 ≤ maxQos ≤ 2 → Forall (λ s, 0 ≤ sub_QoS s) subs →
  let good := filter (λ s, good_filter (sub_Topic s)) subs in
  let granted := (λ s, Z.min (sub_QoS s) maxQos) <$> good in
  buildSubAckReasons subs (refusal ∘ sub_Topic <$> subs) granted maxQos = mkSubAckBuild (ack_code maxQos <$> subs) good granted.
Proof.
  intros Hm. induction 1 as [|s subs Hq Hsubs IH]; [done|]. cbv zeta in *. rewrite !fmap_cons, filter_cons. cbn [buildSubAckReasons compose].
  unfold ack_code at 1. destruct (decide (good_filter (sub_Topic s))) as [Hg|Hg].
  - rewrite (refusal_good _ Hg), fmap_cons, IH. cbn [Z.eqb negb sb_reasons sb_successSubs sb_successGrantedQoS].
    destruct (ack_qos maxQos (sub_QoS s) Hm Hq) as (E1 & E2 & E3). rewrite E2, (proj2 (Z.ltb_ge _ _)), E1 by done. done.
  - by rewrite (refusal_bad _ Hg), IH.
Qed.

(** What the shared-subscription manager is told. *)
Definition shared_call (call : string → string → SharedCall) (f : string) : option SharedCall :=
  match ParseSharedSubscription f with Ok (g, inner) => Some (call g inner) | Err _ => None end.

Lemma shared_call_ordinary call f : IsSharedSubscription f = false → shared_call call f = None.
Proof. intros H. unfold shared_call, ParseSharedSubscription. by rewrite H. Qed.

Definition told (calls : list SharedCall) (s : SubClient) : SubClient :=
  mkSubClient (cs_down s) (cs_ownerToken s) (cs_connAckAccepted s) (cs_router s) (cs_shared s ++ calls).

Lemma told_nil s : told [] s = s.
Proof. destruct s. unfold told. cbn. by rewrite app_nil_r. Qed.

Lemma register_spec cfg subs granted s : sc_manager cfg = true → length granted = length subs → Forall (λ q, 0 ≤ q) granted →
  registerSuccessfulSharedSubscriptions cfg subs granted s =
  told (omap (shared_call (OnClientOnline (cs_ID s)) ∘ sub_Topic) (filter (λ s, sub_Topic s ≠ "") subs)) s.
Proof.
  intros Hmgr. revert granted s. induction subs as [|x subs IH]; intros [|ack granted] s Hlen Hg; try done; cbn [registerSuccessfulSharedSubscriptions];
    rewrite Hmgr; cbn [negb]; [by rewrite told_nil|]. apply Forall_cons in Hg as [Ha Hg]. rewrite filter_cons.
  destruct (decide (sub_Topic x = "")) as [E|E].
  { rewrite (bool_decide_eq_true_2 (_ = "")), (decide_False (P := _ ≠ "")) by tauto. apply IH; [by injection Hlen|done]. }
  rewrite (bool_decide_eq_false_2 (_ = "")), (decide_True (P := _ ≠ "")) by done. cbn [orb omap list_omap compose].
  destruct (IsSharedSubscription (sub_Topic x)) eqn:Es; cbn [negb].
  - rewrite (proj2 (Z.ltb_ge ack 0)) by done. unfold shared_call at 1.
    destruct (ParseSharedSubscription (sub_Topic x)) as [[g f]|]; [|apply IH; [by injection Hlen|done]].
    rewrite IH by (by injection Hlen). unfold told, cs_call. cbn. by rewrite <-app_assoc.
  - rewrite (shared_call_ordinary _ _ Es). apply IH; [by injection Hlen|done].
Qed.

Lemma good_named (subs : list SubOptions) :
  filter (λ s, sub_Topic s ≠ "") (filter (λ s, good_filter (sub_Topic s)) subs) = filter (λ s, good_filter (sub_Topic s)) subs.
Proof.
  rewrite list_filter_filter. apply list_filter_iff. intros s. pose proof (good_nonempty (sub_Topic s)). tauto.
Qed.

Lemma registered cfg p s : Forall (λ x, 0 ≤ sub_QoS x) (sbs_Subscriptions p) → 0 ≤ sc_MaxQos cfg →
  registerSuccessfulSharedSubscriptions cfg (good_subs p) ((λ x, Z.min (sub_QoS x) (sc_MaxQos cfg)) <$> good_subs p) s =
  told (if sc_manager cfg then omap (shared_call (OnClientOnline (cs_ID s)) ∘ sub_Topic) (good_subs p) else []) s.
Proof.
  intros Hq Hm. destruct (sc_manager cfg) eqn:Hmgr; [|rewrite told_nil; by destruct (good_subs p); cbn; rewrite Hmgr].
  rewrite register_spec; [|done|by rewrite length_fmap|].
  - unfold good_subs at 1. by rewrite good_named.
  - rewrite Forall_fmap, Forall_forall. intros x [_ Hx]%list_elem_of_filter. rewrite Forall_forall in Hq. specialize (Hq x Hx). cbn. lia.
Qed.

(** ** SUBSCRIBE *)

(** What the connection wrote and the calls of the manager, after the old ones. *)
Definition extends (effects : list Effect) (calls : list SharedCall) (s s' : SubClient) : Prop :=
  dl_trace (cs_down s') = dl_trace (cs_down s) ++ effects ∧ cs_shared s' = cs_shared s ++ calls ∧ cs_ID s' = cs_ID s.

Lemma cs_write_sent p s : (∀ pub, p ≠ PPublish pub) →
  cs_write WSent p s = (cs_with_down (emit (Sent p) (cs_down s)) s, Ok tt).
Proof. intros Hp. unfold cs_write, write. destruct p; try done. by destruct (Hp p). Qed.

Lemma trace_emit x d : dl_trace (emit x d) = dl_trace d ++ [x].
Proof. by destruct d. Qed.
Lemma trace_close d : dl_trace (close d) = dl_trace d ++ [Closed].
Proof. by destruct d. Qed.
Lemma id_emit x d : dl_ID (emit x d) = dl_ID d.
Proof. by destruct d. Qed.
Lemma id_close d : dl_ID (close d) = dl_ID d.
Proof. by destruct d. Qed.

Lemma create_spec cfg p s :
  holds (cs_ID s) (cs_ownerToken s) (cs_router s) → sc_LocalNodeID cfg ≠ 0 → 0 ≤ sc_MaxQos cfg ≤ 2 →
  Forall (λ x, good_filter (sub_Topic x)) (sbs_Subscriptions p) →
  ∃ router, createSubscriptions cfg p s = (cs_with_router router s, Ok ((λ x, Z.min (sub_QoS x) (sc_MaxQos cfg)) <$> sbs_Subscriptions p)) ∧
    rs_sessions router = rs_sessions (cs_router s) ∧ center_ok (rs_subs router) ∧
    ∀ c f, sub_of (rs_subs router) c f =
      if bool_decide (c = cs_ID s)
      then subscribe_effect f (capped (sc_MaxQos cfg) (packet_subID p) <$> sbs_Subscriptions p) (sub_of (rs_subs (cs_router s)) c f)
      else sub_of (rs_subs (cs_router s)) c f.
Proof.
  intros Hh Hn Hm Hg. unfold createSubscriptions.
  destruct (RouterSubscribe_grants (cs_router s) (mkSubscribeRequest (sc_LocalNodeID cfg) (cs_ID s) (cs_ownerToken s) (Some p) (sc_MaxQos cfg)) p)
    as (H1 & H2 & H3 & H4); [done..|]. cbn [sq_MaxQoS sq_ClientID] in *.
  assert (Forall (λ x, validateTopicFilter (sub_Topic x) = Ok tt) (sbs_Subscriptions p)) as Hv.
  { eapply Forall_impl; [exact Hg|]. intros x. apply syntax_check_implies_trie. }
  rewrite bool_decide_eq_true_2 in H4 by (by rewrite Forall_fmap).
  rewrite (proj2 (accepted_all _) Hv) in H3. destruct (RouterSubscribe _ _) as [router rsp]. cbn [fst snd] in *. subst rsp.
  exists router. split_and!; [|done..]. by rewrite <-list_fmap_compose.
Qed.

(** C19. SUBSCRIBE, for the connection that owns its client, with a plugin that lets the
    packet through and a working connection.  A packet that violates the protocol or a
    server capability is answered by a DISCONNECT with the code of the violation, the
    connection is closed and nothing is stored.  Any other packet is answered by one
    SUBACK with a code per filter, in the order of the packet: 0x8F for a malformed
    filter, else the requested QoS capped by the server's maximum.  Exactly the
    well-formed filters are stored, with the packet's options, the capped QoS and the
    subscription identifier; the manager is told of the shared ones, and the
    retained messages are sent for exactly the filters granted. *)
Theorem subscribe_answered cfg p p' s :
  holds (cs_ID s) (cs_ownerToken s) (cs_router s) → cs_connAckAccepted s = true →
  sc_LocalNodeID cfg ≠ 0 → 0 ≤ sc_MaxQos cfg ≤ 2 → Forall (λ x, 0 ≤ sub_QoS x) (sbs_Subscriptions p') →
  let '(s', res, job) := handleSub cfg (mkSubscribeIO (λ _, (p', true)) WSent) p s in
  match violation cfg p' with
  | Some code =>
      (∃ props, extends [Sent (PDisconnect (mkDisconnect props code)); Closed] [] s s') ∧
      res = Err ["protocol error"] ∧ job = None ∧ cs_router s' = cs_router s
  | None =>
      extends [Sent (PSuback (mkCodeList None (ack_code (sc_MaxQos cfg) <$> sbs_Subscriptions p') (sbs_PacketID p)))]
        (if sc_manager cfg then omap (shared_call (OnClientOnline (cs_ID s)) ∘ sub_Topic) (good_subs p') else []) s s' ∧
      res = Ok tt ∧ rs_sessions (cs_router s') = rs_sessions (cs_router s) ∧ center_ok (rs_subs (cs_router s')) ∧
      (∀ c f, sub_of (rs_subs (cs_router s')) c f = if bool_decide (c = cs_ID s)
         then subscribe_effect f (capped (sc_MaxQos cfg) (packet_subID p') <$> good_subs p') (sub_of (rs_subs (cs_router s)) c f)
         else sub_of (rs_subs (cs_router s)) c f) ∧
      (rj_subs <$> job) = (if decide (good_subs p' = []) then None else Some (good_subs p'))
  end.
Proof.
  intros Hh Hca Hn Hm Hq. unfold handleSub. cbn [si_plugin si_write negb].
  pose proof (precheck_spec cfg p') as Hpre. destruct (violation cfg p') as [code|].
  { destruct Hpre as (d & -> & [props ->]). unfold failProtocol. rewrite Hca, cs_write_sent by done. cbn [fst]. split_and!; [|done..].
    exists props. split_and!; cbn; [|by rewrite app_nil_r|by unfold cs_ID; cbn; rewrite id_close, id_emit]. by rewrite trace_close, trace_emit, <-app_assoc. }
  destruct Hpre as (r & -> & Hr & Hall & Hcreate). rewrite Hr in *. case_bool_decide as Hnone; rewrite Hall.
  - rewrite cs_write_sent by done. cbn [fst]. destruct Hnone as [Hgood Hne]. rewrite Hgood. cbn [omap list_omap fmap list_fmap].
    assert (refusal ∘ sub_Topic <$> sbs_Subscriptions p' = ack_code (sc_MaxQos cfg) <$> sbs_Subscriptions p') as ->.
    { apply list_fmap_ext. intros i x Hx%list_elem_of_lookup_2. cbn. unfold refusal, ack_code. case_decide as Hg; [|done].
      assert (x ∈ good_subs p') as Hin by by apply list_elem_of_filter. rewrite Hgood in Hin. by apply elem_of_nil in Hin. }
    split_and!; try done; cbn; [|by destruct Hh|intros; by case_bool_decide]. split_and!; cbn; [by rewrite trace_emit|by case_match; rewrite app_nil_r|by unfold cs_ID; cbn; rewrite id_emit].
  - rewrite Hcreate by done. clear Hcreate Hall Hnone r Hr.
    destruct (create_spec cfg (mkSubscribe (sbs_Properties p') (good_subs p') (sbs_PacketID p')) s)
      as (router & -> & Hsess & Hok & Hsub); [done..| |].
    { apply Forall_forall. by intros x [? _]%list_elem_of_filter. }
    cbn [sbs_Subscriptions] in *. pose proof (buildSubAck_spec (sc_MaxQos cfg) (sbs_Subscriptions p') Hm Hq) as Hb.
    cbv zeta in Hb. fold (good_subs p') in Hb. rewrite Hb. cbn [sb_reasons sb_successSubs sb_successGrantedQoS]. rewrite cs_write_sent by done.
    set (s1 := cs_with_down _ _).
    rewrite registered by (done || lia). replace (cs_ID s1) with (cs_ID s) by (unfold cs_ID, s1; cbn; by rewrite id_emit).
    split_and!; try done; [split_and!; subst s1; cbn; [by rewrite trace_emit|done|by unfold cs_ID; cbn; rewrite id_emit]|].
    by destruct (good_subs p').
Qed.

(** ** UNSUBSCRIBE *)

(** The codes of an UNSUBACK: 0x8F for a malformed filter, 0 for one that was
    subscribed to and not yet removed by this packet, else 0x11. *)
Fixpoint unsuback_codes (has : string → bool) (fs : list string) : list Z :=
  match fs with
  | [] => []
  | f :: fs =>
      if decide (good_filter f)
      then (if has f then 0 else 0x11) :: unsuback_codes (λ g, has g && negb (bool_decide (g = f))) fs
      else 0x8F :: unsuback_codes has fs
  end.

Lemma precheckUnsub_spec fs : precheckUnsubscribeTopics fs = (refusal <$> fs, filter good_filter fs).
Proof.
  induction fs as [|f fs IH]; [done|]. cbn [precheckUnsubscribeTopics]. rewrite IH, fmap_cons, filter_cons. unfold invalidUnsubscribeTopicFilter.
  rewrite invalid_spec. destruct (decide (good_filter f)) as [Hg|Hg].
  - by rewrite (bool_decide_eq_false_2 (¬ good_filter f)), refusal_good by (done || by intros []).
  - by rewrite (bool_decide_eq_true_2 (¬ good_filter f)), refusal_bad.
Qed.

Lemma buildUnsub_spec fs : ∀ has, ∃ removed,
  buildUnsubAckReasons fs (refusal <$> fs) (unsubscribe_codes has (filter good_filter fs)) = (unsuback_codes has fs, removed) ∧
  ∀ f, f ∈ removed ↔ good_filter f ∧ f ∈ fs ∧ has f = true.
Proof.
  induction fs as [|f fs IH]; intros has. { exists ∅. split; [done|]. set_solver. }
  rewrite fmap_cons, filter_cons. cbn [buildUnsubAckReasons unsuback_codes]. destruct (decide (good_filter f)) as [Hg|Hg].
  - rewrite (refusal_good _ Hg). cbn [Z.eqb negb unsubscribe_codes].
    destruct (IH (λ g, has g && negb (bool_decide (g = f)))) as (removed & -> & Hr).
    assert (∀ g, g ∈ removed ↔ good_filter g ∧ g ∈ fs ∧ has g = true ∧ g ≠ f) as Hr'.
    { intros g. rewrite Hr, andb_true_iff, negb_true_iff, bool_decide_eq_false. tauto. }
    destruct (has f) eqn:Hf; cbn [Z.eqb].
    + change (wrap 8 0) with 0. cbn [Z.eqb UnsubackSuccess]. eexists. split; [done|]. intros g. rewrite elem_of_union, elem_of_singleton, Hr', elem_of_cons. destruct (decide (g = f)); naive_solver.
    + change (wrap 8 0x11) with 0x11. cbn [Z.eqb UnsubackSuccess]. eexists. split; [done|]. intros g. rewrite Hr', elem_of_cons. naive_solver congruence.
  - rewrite (refusal_bad _ Hg). cbn [Z.eqb negb]. destruct (IH has) as (removed & -> & Hr). exists removed. split; [done|].
    intros g. rewrite Hr, elem_of_cons. naive_solver.
Qed.

Lemma unregister_spec cfg fs removed s : sc_manager cfg = true →
  unregisterSharedUnsubscriptions cfg fs removed s =
  told (omap (shared_call (OnClientUnsubscribe (cs_ID s))) (filter (λ f, f ∈ removed ∧ f ≠ "") fs)) s.
Proof.
  intros Hmgr. revert s. induction fs as [|f fs IH]; intros s; cbn [unregisterSharedUnsubscriptions]; rewrite Hmgr; cbn [negb];
    [by rewrite told_nil|]. rewrite filter_cons. destruct (decide (f ∈ removed ∧ f ≠ "")) as [[Hr Hf]|Hn].
  - rewrite (bool_decide_eq_true_2 (f ∈ removed)), (bool_decide_eq_false_2 (f = "")) by done. cbn [negb orb omap list_omap].
    destruct (IsSharedSubscription f) eqn:Es; cbn [negb]; [|by rewrite (shared_call_ordinary _ _ Es), IH].
    unfold shared_call at 1. destruct (ParseSharedSubscription f) as [[g i]|]; [|by rewrite IH].
    rewrite IH. unfold told, cs_call. cbn. by rewrite <-app_assoc.
  - destruct (negb (bool_decide (f ∈ removed)) || bool_decide (f = "")) eqn:E; [apply IH|].
    apply orb_false_iff in E as [E1%negb_false_iff E2]. rewrite bool_decide_eq_true in E1. rewrite bool_decide_eq_false in E2. tauto.
Qed.

Lemma has_sub_good (fs : list string) (has : string → bool) (removed : gset string) : (∀ f, f ∈ removed ↔ good_filter f ∧ f ∈ fs ∧ has f = true) →
  filter (λ f, f ∈ removed ∧ f ≠ "") (filter good_filter fs) = filter (λ f, good_filter f ∧ has f = true) fs.
Proof.
  intros Hr. rewrite list_filter_filter. apply filter_ext_elem. intros f Hf. rewrite Hr. pose proof (good_nonempty f). tauto.
Qed.

Lemma unregistered cfg (fs : list string) (has : string → bool) removed s :
  (∀ f, f ∈ removed ↔ good_filter f ∧ f ∈ fs ∧ has f = true) →
  unregisterSharedUnsubscriptions cfg (filter good_filter fs) removed s =
  told (if sc_manager cfg then omap (shared_call (OnClientUnsubscribe (cs_ID s))) (filter (λ f, good_filter f ∧ has f = true) fs) else []) s.
Proof.
  intros Hr. destruct (sc_manager cfg) eqn:Hmgr; [by rewrite unregister_spec, (has_sub_good _ _ _ Hr)|].
  rewrite told_nil. by destruct (filter good_filter fs); cbn; rewrite Hmgr.
Qed.

Lemma all_refused has fs : (∀ f, f ∈ fs → ¬ good_filter f) → unsuback_codes has fs = refusal <$> fs.
Proof.
  induction fs as [|f fs IH]; intros Hnone; [done|]. rewrite fmap_cons. cbn [unsuback_codes].
  assert (¬ good_filter f) as Hf by (apply Hnone; left). rewrite decide_False, refusal_bad, IH by (done || intros; apply Hnone; by right). done.
Qed.

(** UNSUBSCRIBE, for the connection that owns its client, with a plugin that lets the
    packet through and a working connection: one UNSUBACK with a code per filter in
    order, 0x8F for a malformed filter, 0 for a subscription removed, 0x11 for one that
    did not exist (any more); the well-formed filters of the packet are gone from the
    client's subscriptions and nothing else changes; and the manager is told of the
    shared subscriptions that existed. *)
Theorem unsubscribe_answered cfg p p' s :
  holds (cs_ID s) (cs_ownerToken s) (cs_router s) →
  let has := has_sub (rs_subs (cs_router s)) (cs_ID s) in
  let '(s', res) := handleUnsub cfg (mkUnsubscribeIO (λ _, (p', true)) WSent) p s in
  extends [Sent (PUnsuback (mkCodeList None (unsuback_codes has (uns_Topics p')) (uns_PacketID p)))]
    (if sc_manager cfg then omap (shared_call (OnClientUnsubscribe (cs_ID s))) (filter (λ f, good_filter f ∧ has f = true) (uns_Topics p')) else [])
    s s' ∧
  res = Ok tt ∧ rs_sessions (cs_router s') = rs_sessions (cs_router s) ∧ center_ok (rs_subs (cs_router s')) ∧
  ∀ c f, sub_of (rs_subs (cs_router s')) c f =
    if bool_decide (c = cs_ID s ∧ good_filter f ∧ f ∈ uns_Topics p') then None else sub_of (rs_subs (cs_router s)) c f.
Proof.
  intros Hh has. unfold handleUnsub. cbn [ni_plugin ni_write negb]. rewrite precheckUnsub_spec.
  destruct (filter good_filter (uns_Topics p')) as [|f0 fs0] eqn:Hgood.
  - assert (∀ f, f ∈ uns_Topics p' → ¬ good_filter f) as Hnone.
    { intros f Hf Hg. assert (f ∈ filter good_filter (uns_Topics p')) as Hin by by apply list_elem_of_filter. rewrite Hgood in Hin. by apply elem_of_nil in Hin. }
    rewrite cs_write_sent by done.
    rewrite (filter_none (λ f, good_filter f ∧ has f = true)) by naive_solver.
    rewrite <-(all_refused has) by done.
    split_and!; try done; [split_and!; cbn; [by rewrite trace_emit|by case_match; rewrite app_nil_r|by unfold cs_ID; cbn; rewrite id_emit]|apply Hh|].
    intros c f. rewrite bool_decide_eq_false_2; [done|]. naive_solver.
  - rewrite <-Hgood. unfold deleteValidSubscriptions.
    destruct (DeleteSub _ _) as [t codes] eqn:Hd. destruct Hh as (Hok & _ & Htok & Hg & _).
    apply DeleteSub_spec in Hd as (Hok' & Hcodes & Hsub); [|done]. cbn [ur_Topics ur_ClientID ur_OwnerToken] in *.
    assert (¬ fenced (rs_subs (cs_router s)) (cs_ID s) (cs_ownerToken s)) as Hnf by (unfold fenced; tauto).
    rewrite bool_decide_eq_false_2 in Hcodes by done. subst codes.
    fold has. destruct (buildUnsub_spec (uns_Topics p') has) as (removed & -> & Hr).
    rewrite (unregistered _ _ has) by done. replace (cs_ID (cs_with_router _ s)) with (cs_ID s) by done.
    rewrite cs_write_sent by done. split_and!; try done; [split_and!; cbn; [by rewrite trace_emit|done|by unfold cs_ID; cbn; rewrite id_emit]|].
    intros c f. cbn. rewrite Hsub. rewrite (bool_decide_ext _ (c = cs_ID s ∧ good_filter f ∧ f ∈ uns_Topics p')); [done|].
    rewrite list_elem_of_filter. tauto.
Qed.

(** ** Instances *)

Definition example_subcfg : SubscribeConfig := mkSubscribeConfig 1 1 true true true true 1.
Definition example_subclient : SubClient :=
  mkSubClient (mkDownlink "c" 0 None ∅ ∅ (0, "") 0 false false []) "new" true
    (AcquireSession 0 example_start (example_acquire "new")).1 [].
Definition example_subpacket : Subscribe :=
  mkSubscribe None [mkSubOptions "a/b" 2 0 false false; mkSubOptions "a/#/b" 1 0 false false; mkSubOptions "$share/g/x" 0 0 false true] 7.

Lemma example_subclient_holds : holds "c" "new" (cs_router example_subclient).
Proof. apply (holds_acquired 0 example_start (example_acquire "new")); [apply NewMemorySubCenter_ok|reflexivity]. Qed.

Lemma subscribe_answered_witness :
  let '(s', res, job) := handleSub example_subcfg (mkSubscribeIO (λ p, (p, true)) WSent) example_subpacket example_subclient in
  dl_trace (cs_down s') = [Sent (PSuback (mkCodeList None [1; 0x8F; 0] 7))] ∧
  cs_shared s' = [OnClientOnline "c" "g" "x"] ∧ res = Ok tt ∧
  sub_of (rs_subs (cs_router s')) "c" "a/b" = Some (mkSubOption 1 false "a/b" false 0 0) ∧
  sub_of (rs_subs (cs_router s')) "c" "a/#/b" = None.
Proof.
  pose proof (subscribe_answered example_subcfg example_subpacket example_subpacket example_subclient example_subclient_holds
    eq_refl ltac:(discriminate) ltac:(cbn; lia) ltac:(repeat constructor; cbn; lia)) as H.
  change (λ p, (p, true)) with (λ p : Subscribe, (p, true)).
  change (handleSub example_subcfg (mkSubscribeIO (λ p, (p, true)) WSent) example_subpacket example_subclient) with
    (handleSub example_subcfg (mkSubscribeIO (λ _, (example_subpacket, true)) WSent) example_subpacket example_subclient).
  destruct (handleSub _ _ _ _) as [[s' res] job]. change (violation example_subcfg example_subpacket) with (@None Z) in H.
  destruct H as ((Ht & Hs & _) & Hres & _ & _ & Hsub & _). split_and!; [exact Ht|exact Hs|done|..]; rewrite Hsub; vm_compute; reflexivity.
Defined.

Lemma unsubscribe_answered_witness :
  let '(s', res) := handleUnsub example_subcfg (mkUnsubscribeIO (λ _, (mkUnsubscribe ["a/b"; "#/a"; "a/b"] None 8, true)) WSent)
    (mkUnsubscribe [] None 8) (handleSub example_subcfg (mkSubscribeIO (λ p, (p, true)) WSent) example_subpacket example_subclient).1.1 in
  res = Ok tt ∧ sub_of (rs_subs (cs_router s')) "c" "a/b" = None ∧
  List.last (dl_trace (cs_down s')) Closed = Sent (PUnsuback (mkCodeList None [0; 0x8F; 0x11] 8)).
Proof.
  set (s := (handleSub _ _ _ _).1.1).
  assert (holds (cs_ID s) (cs_ownerToken s) (cs_router s)) as Hh.
  { pose proof (keeps_holds "c" "new" (cs_router example_subclient) (0, RSubscribe (mkSubscribeRequest 1 "c" "new"
      (Some (mkSubscribe None (good_subs example_subpacket) 7)) 1)) example_subclient_holds I) as Hk.
    vm_compute in Hk. vm_compute. exact Hk. }
  pose proof (unsubscribe_answered example_subcfg (mkUnsubscribe [] None 8) (mkUnsubscribe ["a/b"; "#/a"; "a/b"] None 8) s Hh) as H.
  cbv zeta in H. destruct (handleUnsub _ _ _ _) as [s' res]. destruct H as ((Ht & _) & Hres & _ & _ & Hsub).
  split_and!; [done|rewrite Hsub; vm_compute; reflexivity|]. rewrite Ht. vm_compute. reflexivity.
Defined.
