(* ===== verification/RetainedJob.v ===== *)
(** * Retained messages after SUBSCRIBE ([src/internal/broker/client/client_handler_subscribe.go])

    The job [handleSub] starts: for each granted subscription, by its Retain Handling,
    the live retained messages its filter matches are sent with the options of the
    client's best matching subscription.  The job runs on the retain store, the
    subscription center and the connection; it is modelled as one run, up to the point
    where a QoS 1 or 2 message has to wait for a flow token. *)

From S2P Require Import Prelude GoStrings Mqtt5 Topic Wire WireParse WireProps WireCodec SubCore SubCenter SessionCore Router StateRouter Inflight Downlink Retain RetainStore Subscribe.

(** ** Which subscriptions *)

Definition shouldSendRetainedForSubscription (sub : SubOptions) (existedSessionSubs : gset string) : bool :=
  if IsSharedSubscription (sub_Topic sub) then false
  else if bool_decide (sub_Topic sub = "") || (sub_RetainHandling sub =? 2) then false
  else negb (sub_RetainHandling sub =? 1) || negb (bool_decide (sub_Topic sub ∈ existedSessionSubs)).

Definition markSubscriptionAsExistingForRetainHandling (sub : SubOptions) (existedSessionSubs : gset string) : gset string :=
  if negb (sub_RetainHandling sub =? 1) || bool_decide (sub_Topic sub = "") || IsSharedSubscription (sub_Topic sub)
  then existedSessionSubs else {[sub_Topic sub]} ∪ existedSessionSubs.

Definition retainedTopicFilterForSubscription (topicFilter : string) : string :=
  if negb (IsSharedSubscription topicFilter) then topicFilter
  else match ParseSharedSubscription topicFilter with Err _ => "" | Ok (_, actualTopicFilter) => actualTopicFilter end.

(** ** With which options *)

Definition filterNoLocalRetainedMatches (matches : list MatchedSubscription) (clientID publisherClientID : string)
    : list MatchedSubscription :=
  filter (λ ms, negb (negb (bool_decide (publisherClientID = "")) && bool_decide (publisherClientID = clientID) && ms_NoLocal ms) = true) matches.

(** The first entry of the client; [None] if there is none or No Local leaves nothing. *)
Definition retainedMatchesForClient (t : MemorySubCenter) (clientID topicName publisherClientID : string)
    : option (list MatchedSubscription) :=
  match filter (λ cm, cm_ClientID cm = clientID) (GetAllMatchClientV2 t topicName) with
  | [] => None
  | cm :: _ =>
      match filterNoLocalRetainedMatches (cm_Matched cm) clientID publisherClientID with
      | [] => None
      | matches => Some matches
      end
  end.

Record retainedSubscriptionWinner := mkRetainedWinner {
  rw_qos : Z;
  rw_rap : bool;
  rw_filter : string;
  rw_wildcardCnt : Z;
  rw_depth : Z;
  rw_set : bool }.

(** The characters it counts are single bytes. *)
Definition retainedFilterMetrics (filter : string) : Z * Z :=
  let wildcardCnt := foldl (λ n ch, if bool_decide (ch = "+"%char) || bool_decide (ch = "#"%char) then n + 1 else n) 0 (go_bytes filter) in
  if bool_decide (filter = "") then (wildcardCnt, 0)
  else (wildcardCnt, foldl (λ n ch, if bool_decide (ch = "/"%char) then n + 1 else n) 1 (go_bytes filter)).

Definition better (w : retainedSubscriptionWinner) (ms : MatchedSubscription) : bool :=
  let qos := ms_QoS ms in
  let filter := ms_TopicFilter ms in
  let '(wildcardCnt, depth) := retainedFilterMetrics filter in
  if negb (rw_set w) then true
  else if negb (qos =? rw_qos w) then rw_qos w <? qos
  else if negb (wildcardCnt =? rw_wildcardCnt w) then wildcardCnt <? rw_wildcardCnt w
  else if negb (depth =? rw_depth w) then rw_depth w <? depth
  else string_ltb filter (rw_filter w).

Definition update (ms : MatchedSubscription) : retainedSubscriptionWinner :=
  let '(wildcardCnt, depth) := retainedFilterMetrics (ms_TopicFilter ms) in
  mkRetainedWinner (ms_QoS ms) (ms_RetainAsPublished ms) (ms_TopicFilter ms) wildcardCnt depth true.

Definition chooseRetainedSubscriptionOptions (matches : list MatchedSubscription) : Z * bool * list Z * bool :=
  let '(winner, subIDs) :=
    foldl (λ '(winner, subIDs) ms,
      (if better winner ms then update ms else winner,
       if 0 <? ms_SubscriptionIdentifier ms then subIDs ++ [ms_SubscriptionIdentifier ms] else subIDs))
      (mkRetainedWinner 0 true "" 0 0 false, []) matches in
  (rw_qos winner, rw_rap winner, subIDs, rw_set winner).

(** [(winnerQoS, winnerRAP, subIDs)] if there are any. *)
Definition getRetainedMessageSubscriptionOptions (t : MemorySubCenter) (clientID topicName publisherClientID : string)
    : option (Z * bool * list Z) :=
  match retainedMatchesForClient t clientID topicName publisherClientID with
  | None => None
  | Some matches =>
      match chooseRetainedSubscriptionOptions matches with
      | (qos, rap, subIDs, true) => Some (qos, rap, subIDs)
      | _ => None
      end
  end.

Definition applySubscriptionOptionsToPublish (winnerRAP : bool) (subIDs : list Z) (p : Publish) : Publish :=
  setPublishSubscriptionIdentifiers subIDs (if negb winnerRAP then set_retain false p else p).

(** The packet for the client: a copy of the retained one with its options. *)
Definition retainedCopy (winnerQoS : Z) (winnerRAP : bool) (subIDs : list Z) (p : Publish) : Publish :=
  let p := applySubscriptionOptionsToPublish winnerRAP subIDs (CopyPublish p) in
  let winnerQoS := if winnerQoS <? 0 then 0 else winnerQoS in
  if winnerQoS <? pub_QoS p then set_qos_id (wrap 8 winnerQoS) (pub_PacketID p) p else p.

(** ** The job *)

Section job.
Context {Data : Type} {Hcodec : RetainCodec Data}.

(** What the outside decides while one topic is handled: failing reads and deletes of
    the store (its own lazy one, and the one of [getRetainMessage]), the two clock
    readings, and the write. *)
Record TopicEnv := mkTopicEnv {
  te_failGet : option string;
  te_failLazy : option string;
  te_failDelete : option string;
  te_storeNow : Z;
  te_now : Z;
  te_io : RetainedIO }.

(** While a filter with wildcards is scanned: the entries come in any order. *)
Record FilterEnv := mkFilterEnv {
  fe_failGet : option string;
  fe_failDel : option string;
  fe_now : Z;
  fe_order : gmap string Data → list (string * Data);
  fe_topic : string → TopicEnv }.

(** The publisher and the packet. *)
Definition getRetainMessage (env : TopicEnv) (topicName : string) (h : gmap string Data)
    : gmap string Data * option (string * Publish) :=
  let '(h, found) := GetRetainMessage (te_failGet env) (te_failLazy env) (te_storeNow env) topicName h in
  match found with
  | None => (h, None)
  | Some message =>
      match publishFromRetainMessage message (te_now env) with
      | None =>
          (if bool_decide (rm_Topic message = "") then h
           else (DeleteRetainMessage (te_failDelete env) (rm_Topic message) h).1, None)
      | Some publish => (h, Some (rm_PublisherClientID message, publish))
      end
  end.

(** The answer is whether the job goes on: [false] while it waits for a flow token. *)
Definition sendRetainedForTopic (cfg : SubscribeConfig) (t : MemorySubCenter) (env : TopicEnv) (topicName : string)
    (s : gmap string Data * Downlink) : gmap string Data * Downlink * bool :=
  let '(h, d) := s in
  if sc_RetainAvailable cfg =? 0 then (h, d, true)
  else if dl_done d then (h, d, true)
  else
    let '(h, rm) := getRetainMessage env topicName h in
    match rm with
    | None => (h, d, true)
    | Some (publisherClientID, publish) =>
        match getRetainedMessageSubscriptionOptions t (dl_ID d) topicName publisherClientID with
        | None => (h, d, true)
        | Some (winnerQoS, winnerRAP, subIDs) =>
            match writeRetainedPublish (te_io env) (retainedCopy winnerQoS winnerRAP subIDs publish) topicName d with
            | None => (h, d, false)
            | Some d => (h, d, true)
            end
        end
    end.

Fixpoint sendRetainedForTopics (cfg : SubscribeConfig) (t : MemorySubCenter) (env : string → TopicEnv) (topics : list string)
    (s : gmap string Data * Downlink) : gmap string Data * Downlink * bool :=
  match topics with
  | [] => (s, true)
  | topic :: topics =>
      if bool_decide (topic = "") then sendRetainedForTopics cfg t env topics s
      else match sendRetainedForTopic cfg t (env topic) topic s with
           | (s, true) => sendRetainedForTopics cfg t env topics s
           | stopped => stopped
           end
  end.

Definition sendRetainedForWildcardFilter (cfg : SubscribeConfig) (t : MemorySubCenter) (env : FilterEnv) (topicFilter : string)
    (s : gmap string Data * Downlink) : gmap string Data * Downlink * bool :=
  match GetRetainMessagesByTopicFilter (fe_failGet env) (fe_failDel env) (fe_now env) (fe_order env s.1) topicFilter s.1 with
  | (h, Err _) => (h, s.2, true)
  | (h, Ok retainedMessages) => sendRetainedForTopics cfg t (fe_topic env) (rm_Topic <$> retainedMessages) (h, s.2)
  end.

Definition sendRetainedForTopicFilter (cfg : SubscribeConfig) (t : MemorySubCenter) (env : FilterEnv) (topicFilter : string)
    (s : gmap string Data * Downlink) : gmap string Data * Downlink * bool :=
  let topicFilter := retainedTopicFilterForSubscription topicFilter in
  if bool_decide (topicFilter = "") then (s, true)
  else if negb (HasWildcard topicFilter) then sendRetainedForTopic cfg t (fe_topic env topicFilter) topicFilter s
  else sendRetainedForWildcardFilter cfg t env topicFilter s.

(** The loop over the subscriptions. *)
Fixpoint sendRetainedForEach (cfg : SubscribeConfig) (t : MemorySubCenter) (subs : list (FilterEnv * SubOptions)) (currentSessionSubs : gset string)
    (s : gmap string Data * Downlink) : gmap string Data * Downlink * bool :=
  match subs with
  | [] => (s, true)
  | (env, sub) :: subs =>
      if dl_done s.2 then (s, true)
      else
        match (if shouldSendRetainedForSubscription sub currentSessionSubs
               then sendRetainedForTopicFilter cfg t env (sub_Topic sub) s else (s, true)) with
        | (s, true) =>
            sendRetainedForEach cfg t subs (markSubscriptionAsExistingForRetainHandling sub currentSessionSubs) s
        | stopped => stopped
        end
  end.

(** [existedSessionSubs] is cloned, so that the marks stay with the job. *)
Definition sendRetainedAfterSubscribe (cfg : SubscribeConfig) (t : MemorySubCenter) (subs : list (FilterEnv * SubOptions))
    (existedSessionSubs : gset string) (s : gmap string Data * Downlink) : gmap string Data * Downlink * bool :=
  if (sc_RetainAvailable cfg =? 0) || bool_decide (length subs = 0%nat) then (s, true)
  else sendRetainedForEach cfg t subs existedSessionSubs s.
End job.
