(* ===== verification/RetainedJobProofs.v ===== *)
(** * Which retained messages a subscriber gets

    The options of a retained message are those of the client's best subscription that
    takes it; the job sends, for each subscription whose Retain Handling asks for it, every
    live retained message its filter matches, once, and nothing else. *)

From stdpp Require Import sorting.
From S2P Require Import Prelude GoStrings Mqtt5 Topic Wire WireParse WireProps WireCodec SubCore SubCoreProofs SubCenter SubCenterProofs SessionCore Router RouterProofs StateRouter Inflight InflightProofs Downlink WireRoundtrip Retain RetainProofs RetainStore Subscribe SubscribeProofs RetainedJob.

(** ** Options *)

Definition retained_winner (w : option MatchedSubscription) : retainedSubscriptionWinner :=
  match w with None => mkRetainedWinner 0 true "" 0 0 false | Some ms => update ms end.

Lemma retained_better_spec w ms : better (retained_winner w) ms = isBetterWinner ms w.
Proof.
  destruct w as [cur|]; unfold better, isBetterWinner; cbn.
  - unfold update. change retainedFilterMetrics with wildcardMetrics.
    destruct (wildcardMetrics (ms_TopicFilter ms)), (wildcardMetrics (ms_TopicFilter cur)). done.
  - by destruct (retainedFilterMetrics (ms_TopicFilter ms)).
Qed.

Lemma choose_spec l : chooseRetainedSubscriptionOptions l =
  match best_of l with
  | None => (0, true, ids_of l, false)
  | Some w => (ms_QoS w, ms_RetainAsPublished w, ids_of l, true)
  end.
Proof.
  unfold chooseRetainedSubscriptionOptions.
  assert (foldl (λ '(winner, subIDs) ms,
      (if better winner ms then update ms else winner,
       if 0 <? ms_SubscriptionIdentifier ms then subIDs ++ [ms_SubscriptionIdentifier ms] else subIDs))
      (mkRetainedWinner 0 true "" 0 0 false, []) l = (retained_winner (best_of l), ids_of l)) as ->.
  { induction l as [|ms l IH] using rev_ind; [done|]. rewrite foldl_app, IH, best_of_snoc, ids_of_snoc. cbn [foldl].
    rewrite retained_better_spec. by destruct (isBetterWinner ms (best_of l)). }
  destruct (best_of l) as [w|]; [|done]. cbn. unfold update. by destruct (retainedFilterMetrics _).
Qed.

Section options.
Context (t : MemorySubCenter) (c topic publisher : string).
Context (Hok : center_ok t) (Hv : validatePublishTopic topic = Ok tt) (Hh : head (SplitTopicLevels topic) ≠ Some "$share").

(** The options are those of a subscription of the client that takes the message and
    to which no other is preferred, with the identifiers of all of them. *)
Definition best_options (q : Z) (rap : bool) (ids : list Z) : Prop :=
  (∃ o, takes t topic publisher c o ∧ q = so_QoS o ∧ rap = so_RetainAsPublished o ∧
     ∀ o', takes t topic publisher c o' → preferred o' o = false) ∧
  ∀ i, i ∈ ids ↔ 0 < i ∧ ∃ o, takes t topic publisher c o ∧ so_SubscriptionIdentifier o = i.

Lemma elem_of_matches ms :
  ms ∈ default [] (retainedMatchesForClient t c topic publisher) ↔
  ∃ o, ms = matchedSubscriptionFromOption o ∧ takes t topic publisher c o.
Proof.
  destruct (center_matches t topic Hok Hv Hh) as (Hnd & Hin & Hms). unfold retainedMatchesForClient.
  destruct (filter (λ cm, cm_ClientID cm = c) (GetAllMatchClientV2 t topic)) as [|cm l] eqn:E.
  - cbn. split; [by intros ?%elem_of_nil|]. intros (o & _ & (Ho & Hc & _)).
    assert (c ∈ cm_ClientID <$> GetAllMatchClientV2 t topic) as Hx by (apply Hin; by exists (so_Topic o), o).
    apply list_elem_of_fmap in Hx as (cm & -> & Hcm).
    assert (cm ∈ filter (λ x, cm_ClientID x = cm_ClientID cm) (GetAllMatchClientV2 t topic)) as Hf by by apply list_elem_of_filter.
    rewrite E in Hf. by apply elem_of_nil in Hf.
  - assert (cm ∈ filter (λ x, cm_ClientID x = c) (GetAllMatchClientV2 t topic)) as [Hc Hcm]%list_elem_of_filter by (rewrite E; left).
    destruct (Hms cm Hcm) as (_ & Hel & _).
    assert (∀ ms, ms ∈ filterNoLocalRetainedMatches (cm_Matched cm) c publisher ↔
      ∃ o, ms = matchedSubscriptionFromOption o ∧ takes t topic publisher c o) as Hgoal.
    { intros x. unfold filterNoLocalRetainedMatches. rewrite list_elem_of_filter, Hel, negb_true_iff. fold (noLocalSkips publisher c x).
      rewrite noLocalSkips_spec, Hc. unfold takes. naive_solver. }
    destruct (filterNoLocalRetainedMatches (cm_Matched cm) c publisher); apply Hgoal.
Qed.

Lemma options_spec :
  match getRetainedMessageSubscriptionOptions t c topic publisher with
  | Some (q, rap, ids) => best_options q rap ids
  | None => ∀ o, ¬ takes t topic publisher c o
  end.
Proof.
  pose proof elem_of_matches as Hel. unfold getRetainedMessageSubscriptionOptions.
  destruct (retainedMatchesForClient t c topic publisher) as [l|] eqn:El; cbn [default] in Hel.
  - assert (l ≠ []) as Hl.
    { unfold retainedMatchesForClient in El. destruct (filter _ _); [done|]. destruct (filterNoLocalRetainedMatches _ _ _); [done|].
      injection El as <-. done. }
    rewrite choose_spec. destruct (best_of_spec l Hl) as (w & -> & Hw & Hbest).
    apply Hel in Hw as (o & -> & Ho). split.
    + exists o. split_and!; [done..|]. intros o' Ho'. apply Hbest, Hel. eauto.
    + intros i. rewrite elem_of_ids. setoid_rewrite Hel. naive_solver.
  - intros o Ho. apply (not_elem_of_nil (matchedSubscriptionFromOption o)), Hel. eauto.
Qed.
End options.

(** ** One message *)

Lemma takeToken_bucket d d' : takeToken d = Some d' → ∃ b, d' = with_bucket b d.
Proof.
  unfold takeToken. assert (∃ b, d = with_bucket b d) as Hd by (exists (dl_publishBucket d); by destruct d).
  destruct (dl_publishBucket d) as [b|]; [|by intros [= <-]]. destruct (GetToken b) as [b'|]; [intros [= <-]; eauto|].
  destruct (dl_done d); [by intros [= <-]|done].
Qed.

(** Writing a retained message on a working connection that does not make it wait and
    has an identifier left. *)
Lemma write_retained io p topic d d' : writeRetainedPublish io p topic d = Some d' → rt_write io = WSent →
  0 ≤ dl_packetIDs d ≤ 65535 → (∃ z, is_id z ∧ dl_outgoingInflight d' !! z = None) → dl_done d = false →
  dl_done d' = false ∧ dl_ID d' = dl_ID d ∧ 0 ≤ dl_packetIDs d' ≤ 65535 ∧
  (∀ z, dl_outgoingInflight d' !! z = None → dl_outgoingInflight d !! z = None) ∧
  if outboundPayloadFormatInvalid p then dl_trace d' = dl_trace d
  else ∃ id, dl_trace d' = dl_trace d ++ [Sent (PPublish (set_qos_id (pub_QoS p) id p))].
Proof.
  intros Hw Hs Hids Hfree Hd. unfold writeRetainedPublish in Hw. rewrite Hs in Hw.
  destruct (outboundPayloadFormatInvalid p); [injection Hw as <-; split_and!; try done; lia|].
  destruct (Z.eqb_spec (pub_QoS p) 0) as [Hq|Hq].
  { injection Hw as <-. destruct d. cbn in *. split_and!; try done; try lia. exists 0. by rewrite Hq. }
  destruct (NextPacketID _ _) as [ids id] eqn:En. apply NextPacketID_spec in En as [Hids' Hid]; [|done].
  destruct (Z.eqb_spec id 0) as [->|Hid0].
  { injection Hw as <-. destruct Hid as [(? & _)|[_ Hall]]; [unfold is_id in *; lia|]. destruct Hfree as (z & Hz & Hn).
    destruct (Hall z Hz) as [e He]. destruct d. cbn in *. congruence. }
  destruct Hid as [(_ & Hfresh & _)|[? _]]; [|done].
  destruct (takeToken _) as [d2|] eqn:Et; [|done]. apply takeToken_bucket in Et as [b ->].
  unfold Put in Hw. cbn [oi_PacketID] in Hw. rewrite (proj2 (Z.eqb_neq id 0)) in Hw by done.
  destruct d as [di dp db dof dt dl da dc dd dtr]. cbn in Hw, Hfresh, Hids, Hfree, Hd |- *.
  rewrite Hfresh, (bool_decide_eq_false_2 (is_Some None)) in Hw by (by intros []). injection Hw as <-. cbn. split_and!; try done; try lia.
  - intros z [? _]%lookup_insert_None. done.
  - by exists id.
Qed.

Definition grows (d d' : Downlink) : Prop := ∀ z, dl_outgoingInflight d' !! z = None → dl_outgoingInflight d !! z = None.
Definition id_left (d : Downlink) : Prop := ∃ z, is_id z ∧ dl_outgoingInflight d !! z = None.

#[export] Instance grows_preorder : PreOrder grows.
Proof. split; [by intros d z|]. intros x y z H1 H2 k Hk. by apply H1, H2. Qed.

Lemma grows_left d d' : grows d d' → id_left d' → id_left d.
Proof. intros Hg (z & Hz & Hn). exists z. split; [done|]. by apply Hg. Qed.

Lemma disconnect_inflight o p d : dl_outgoingInflight (disconnect o p d) = dl_outgoingInflight d.
Proof. by destruct d, o, p. Qed.

Lemma write_grows io p topic d d' : writeRetainedPublish io p topic d = Some d' → rt_write io = WSent → grows d d'.
Proof.
  intros Hw Hs. unfold writeRetainedPublish in Hw. rewrite Hs in Hw.
  destruct (outboundPayloadFormatInvalid p); [by injection Hw as <-|].
  destruct (pub_QoS p =? 0). { injection Hw as <-. intros z. by destruct d. }
  destruct (NextPacketID _ _) as [ids id]. destruct (Z.eqb_spec id 0) as [_|Hid0]. { injection Hw as <-. intros z. by destruct d. }
  destruct (takeToken _) as [d2|] eqn:Et; [|done]. apply takeToken_bucket in Et as [b ->].
  unfold Put in Hw. cbn [oi_PacketID] in Hw. rewrite (proj2 (Z.eqb_neq id 0)) in Hw by done.
  destruct d as [di dp db dof dt dl da dc dd dtr]. cbn in Hw. intros z Hz. cbn. case_bool_decide; injection Hw as <-.
  - rewrite disconnect_inflight in Hz. cbn in Hz. by apply lookup_insert_None in Hz as [? _].
  - cbn in Hz. by apply lookup_insert_None in Hz as [? _].
Qed.

(** ** The job *)

Section job_spec.
Context {Data : Type} {Hcodec : RetainCodec Data} {Hlaws : RetainCodecLaws Data}.
Context (cfg : SubscribeConfig) (t : MemorySubCenter) (c : string) (a : gmap string RetainMessage) (now : Z).

(** The packet of a topic: its live retained message, with the options of the client's
    subscriptions, unless the payload is not of the format it claims. *)
Definition retained_for (topic : string) : option Publish :=
  m ← live now a topic;
  p ← publishFromRetainMessage m now;
  o ← getRetainedMessageSubscriptionOptions t c topic (rm_PublisherClientID m);
  let p := retainedCopy o.1.1 o.1.2 o.2 p in
  if outboundPayloadFormatInvalid p then None else Some p.

(** The store and the connection work, at the time [now]. *)
Definition te_works (env : TopicEnv) : Prop :=
  te_failGet env = None ∧ te_storeNow env = now ∧ te_now env = now ∧ rt_write (te_io env) = WSent.
Definition fe_works (env : @FilterEnv Data) : Prop :=
  fe_failGet env = None ∧ fe_now env = now ∧ (∀ h, fe_order env h ≡ₚ map_to_list h) ∧ ∀ topic, te_works (fe_topic env topic).

(** The packets of those of the topics that have one. *)
Definition packets (topics : list string) (l : list Effect) : Prop :=
  Forall2 (λ topic e, ∃ p id, retained_for topic = Some p ∧ e = Sent (PPublish (set_qos_id (pub_QoS p) id p)))
    (filter (λ topic, is_Some (retained_for topic)) topics) l.

Lemma packets_app l1 l2 e1 e2 : packets l1 e1 → packets l2 e2 → packets (l1 ++ l2) (e1 ++ e2).
Proof. unfold packets. rewrite filter_app. apply Forall2_app. Qed.

Definition sends (topics : list string) (d d' : Downlink) : Prop := ∃ l, dl_trace d' = dl_trace d ++ l ∧ packets topics l.

Lemma sends_none topics d d' : dl_trace d' = dl_trace d → (∀ topic, topic ∈ topics → retained_for topic = None) → sends topics d d'.
Proof.
  intros Ht Hn. exists []. rewrite app_nil_r. split; [done|]. unfold packets. rewrite filter_none; [done|].
  intros x Hx [p Hp]. rewrite Hn in Hp by done. discriminate.
Qed.

Lemma sends_app l1 l2 d1 d2 d3 : sends l1 d1 d2 → sends l2 d2 d3 → sends (l1 ++ l2) d1 d3.
Proof.
  intros (e1 & H1 & P1) (e2 & H2 & P2). exists (e1 ++ e2). rewrite H2, H1, <-app_assoc. split; [done|]. by apply packets_app.
Qed.

Definition ready (s : gmap string Data * Downlink) : Prop :=
  Holds now s.1 a ∧ dl_done s.2 = false ∧ dl_ID s.2 = c ∧ 0 ≤ dl_packetIDs s.2 ≤ 65535.

(** Live messages can be turned back into packets. *)
Context (Huse : ∀ topic m, live now a topic = Some m → is_Some (publishFromRetainMessage m now)).
Context (Havail : sc_RetainAvailable cfg ≠ 0).

Lemma getRetain_spec env topic h h' r : te_works env → Holds now h a → getRetainMessage env topic h = (h', r) →
  Holds now h' a ∧ r = (m ← live now a topic; p ← publishFromRetainMessage m now; Some (rm_PublisherClientID m, p)).
Proof.
  intros (Hg & Hs & Hn & _) Hh. unfold getRetainMessage. rewrite Hg, Hs, Hn.
  pose proof (step_holds now now (OpGet None (te_failLazy env) topic) h a ltac:(lia) I Hh) as [Hh' Ha]. cbn [rt_step a_step a_answer] in Hh', Ha.
  destruct (GetRetainMessage _ _ _ _ _) as [h1 found]. cbn in Hh', Ha.
  destruct found as [m|], (live now a topic) as [m'|] eqn:El; cbn in Ha; try discriminate Ha; [injection Ha as ->|].
  - destruct (Huse topic m' El) as [p Hp]. rewrite Hp. cbn. intros [= <- <-]. by rewrite Hp.
  - by intros [= <- <-].
Qed.

Lemma topic_grows env topic s h' d' b : rt_write (te_io env) = WSent →
  sendRetainedForTopic cfg t env topic s = (h', d', b) → grows s.2 d'.
Proof.
  intros Hw. destruct s as [h d]. unfold sendRetainedForTopic. cbn [snd]. destruct (sc_RetainAvailable cfg =? 0); [by intros [= <- <- <-]|].
  destruct (dl_done d); [by intros [= <- <- <-]|]. destruct (getRetainMessage env topic h) as [h1 [[pub p]|]]; [|by intros [= <- <- <-]].
  destruct (getRetainedMessageSubscriptionOptions _ _ _ _) as [[[q rap] ids]|]; [|by intros [= <- <- <-]].
  destruct (writeRetainedPublish _ _ _ _) as [d1|] eqn:E; intros [= <- <- <-]; [|done]. by eapply write_grows.
Qed.

Lemma topic_sends env topic s h' d' : te_works env → ready s → id_left d' →
  sendRetainedForTopic cfg t env topic s = (h', d', true) → ready (h', d') ∧ sends [topic] s.2 d'.
Proof.
  intros Hw (Hh & Hd & Hc & Hids) Hfree. destruct s as [h d]. unfold sendRetainedForTopic. cbn [fst snd] in *.
  rewrite (proj2 (Z.eqb_neq _ _)), Hd by done. destruct (getRetainMessage env topic h) as [h1 r] eqn:Er.
  apply getRetain_spec in Er as [Hh1 ->]; [|done..].
  assert (∀ o, retained_for topic = o → o = None → ready (h1, d) ∧ sends [topic] d d) as Hnone.
  { intros o Ho Hn. split; [unfold ready; cbn; split_and!; done || lia|]. apply sends_none; [done|]. intros x ->%list_elem_of_singleton. congruence. }
  unfold retained_for in Hnone. destruct (live now a topic) as [m|] eqn:El; cbn in Hnone |- *; [|intros [= <- <-]; by eapply Hnone].
  destruct (Huse topic m El) as [p Hp]. rewrite Hp in Hnone |- *. cbn in Hnone |- *. rewrite Hc.
  destruct (getRetainedMessageSubscriptionOptions _ _ _ _) as [[[q rap] ids]|] eqn:Eo; cbn in Hnone |- *; [|intros [= <- <-]; by eapply Hnone].
  destruct (writeRetainedPublish _ _ _ _) as [d1|] eqn:E; [|done]. intros [= <- <-].
  apply write_retained in E as (H1 & H2 & H3 & _ & Ht); [|by apply Hw|done..]. split; [unfold ready; cbn; split_and!; congruence || lia|].
  destruct (outboundPayloadFormatInvalid _) eqn:Ei; [apply sends_none; [done|]; intros x ->%list_elem_of_singleton|].
  - unfold retained_for. rewrite El. cbn. rewrite Hp. cbn. rewrite Eo. cbn. by rewrite Ei.
  - destruct Ht as [id Ht]. eexists. split; [exact Ht|]. unfold packets.
    assert (retained_for topic = Some (retainedCopy q rap ids p)) as Hr.
    { unfold retained_for. rewrite El. cbn. rewrite Hp. cbn. rewrite Eo. cbn. by rewrite Ei. }
    rewrite filter_cons_True by (by rewrite Hr). apply Forall2_cons. split; [|done]. eauto.
Qed.

Lemma topics_grows env topics : (∀ topic, rt_write (te_io (env topic)) = WSent) → ∀ s h' d' b,
  sendRetainedForTopics cfg t env topics s = (h', d', b) → grows s.2 d'.
Proof.
  intros Hw. induction topics as [|topic topics IH]; intros s h' d' b; cbn [sendRetainedForTopics]; [by intros [= -> <-]|].
  destruct (bool_decide (topic = "")); [apply IH|]. destruct (sendRetainedForTopic _ _ _ _ _) as [[h1 d1] b1] eqn:E.
  apply topic_grows in E; [|done]. destruct b1; [|by intros [= <- <- <-]]. intros H%IH. by etrans.
Qed.

Lemma topics_sends env topics : (∀ topic, te_works (env topic)) → (∀ topic, topic ∈ topics → topic ≠ "") → ∀ s h' d', ready s → id_left d' →
  sendRetainedForTopics cfg t env topics s = (h', d', true) → ready (h', d') ∧ sends topics s.2 d'.
Proof.
  intros Hw. induction topics as [|topic topics IH]; intros Hne s h' d' Hr Hfree; cbn [sendRetainedForTopics].
  { intros [= ->]. split; [done|]. apply sends_none; [done|]. by intros ? ?%elem_of_nil. }
  rewrite bool_decide_eq_false_2 by (apply Hne; left). destruct (sendRetainedForTopic _ _ _ _ _) as [[h1 d1] b1] eqn:E.
  destruct b1; [|done]. intros H. assert (id_left d1) as Hf1.
  { eapply grows_left; [|exact Hfree]. eapply (topics_grows _ _ (λ topic, proj2 (proj2 (proj2 (Hw topic)))) (h1, d1)), H. }
  apply topic_sends in E as [Hr1 Hs1]; [|done..]. apply IH in H as [Hr' Hs']; [|intros; apply Hne; by right|done..].
  split; [done|]. by apply (sends_app [topic] topics s.2 d1 d').
Qed.

Lemma filter_grows env f s h' d' b : fe_works env →
  sendRetainedForTopicFilter cfg t env f s = (h', d', b) → grows s.2 d'.
Proof.
  intros (_ & _ & _ & Hw). unfold sendRetainedForTopicFilter. destruct (bool_decide _); [by intros [= -> <-]|].
  destruct (HasWildcard _); cbn [negb]; [|apply topic_grows, Hw]. unfold sendRetainedForWildcardFilter.
  destruct (GetRetainMessagesByTopicFilter _ _ _ _ _ _) as [h1 [messages|]]; [|by intros [= <- <- <-]].
  intros H. eapply (topics_grows _ _ (λ topic, proj2 (proj2 (proj2 (Hw topic)))) (h1, s.2)), H.
Qed.

Lemma retained_live topic : is_Some (retained_for topic) → is_Some (live now a topic).
Proof. unfold retained_for. intros [p Hp]. destruct (live now a topic); [done|discriminate Hp]. Qed.

Lemma filter_sends env f s h' d' : fe_works env → ready s → id_left d' → IsSharedSubscription f = false → f ≠ "" →
  sendRetainedForTopicFilter cfg t env f s = (h', d', true) → ready (h', d') ∧
  ∃ topics, NoDup topics ∧ (∀ topic, topic ∈ topics → MatchTopicFilter f topic = true) ∧
    (∀ topic, MatchTopicFilter f topic = true → is_Some (live now a topic) → topic ∈ topics) ∧ sends topics s.2 d'.
Proof.
  intros (Hg & Hn & Ho & Hw) Hr Hfree Hs Hf. unfold sendRetainedForTopicFilter, retainedTopicFilterForSubscription. rewrite Hs. cbn [negb].
  rewrite bool_decide_eq_false_2 by done. destruct (HasWildcard f) eqn:Hwild; cbn [negb]; intros H.
  - unfold sendRetainedForWildcardFilter in H. rewrite Hg, Hn in H. destruct Hr as (Hh & Hd & Hc & Hids).
    pose proof (step_holds now now (OpScan None (fe_failDel env) (fe_order env) f) s.1 a ltac:(lia) Ho Hh) as [Hh1 Ha].
    cbn [rt_step a_step a_answer] in Hh1, Ha. destruct (GetRetainMessagesByTopicFilter _ _ _ _ _ _) as [h1 r]. cbn in Hh1, Ha.
    destruct Ha as (messages & -> & Hnd & Hin). apply topics_sends in H as [Hr' Hs'].
    + split; [done|]. exists (rm_Topic <$> messages). split_and!; [done|..|done].
      * intros topic (m & -> & Hm)%list_elem_of_fmap. by apply Hin in Hm as [? _].
      * intros topic Hmt [m Hm]. apply list_elem_of_fmap. exists m. rewrite (live_topic _ _ _ _ _ _ Hh Hm). split; [done|].
        apply Hin. by rewrite (live_topic _ _ _ _ _ _ Hh Hm).
    + done.
    + intros topic (m & -> & Hm)%list_elem_of_fmap E. apply Hin in Hm as [_ Hm]. destruct (Huse _ m Hm) as [p Hp].
      unfold publishFromRetainMessage in Hp. by rewrite bool_decide_eq_true_2 in Hp.
    + unfold ready; cbn; split_and!; done || lia.
    + done.
  - apply topic_sends in H as [Hr' Hs']; [|apply Hw|done..]. split; [done|]. exists [f]. split_and!; [apply NoDup_singleton|..|done].
    + intros topic ->%list_elem_of_singleton. rewrite MatchTopicFilter_exact by done. by apply bool_decide_eq_true.
    + intros topic. rewrite MatchTopicFilter_exact, bool_decide_eq_true by done. intros -> _. left.
Qed.

(** Retain Handling: 0 sends always, 1 only for a subscription the session did not
    have (nor an earlier item of the packet with Retain Handling 1), 2 never; shared
    subscriptions never. *)
Definition wants (existed : gset string) (before : list SubOptions) (sub : SubOptions) : Prop :=
  IsSharedSubscription (sub_Topic sub) = false ∧ sub_Topic sub ≠ "" ∧ sub_RetainHandling sub ≠ 2 ∧
  (sub_RetainHandling sub = 1 → (sub_Topic sub ∉ existed) ∧
    Forall (λ x, ¬ (sub_RetainHandling x = 1 ∧ sub_Topic x = sub_Topic sub)) before).
#[export] Instance wants_dec existed before sub : Decision (wants existed before sub).
Proof. unfold wants. apply _. Defined.

Fixpoint due (existed : gset string) (before subs : list SubOptions) : list SubOptions :=
  match subs with
  | [] => []
  | sub :: subs => (if decide (wants existed before sub) then [sub] else []) ++ due existed (before ++ [sub]) subs
  end.

(** The filters the session has when the job reaches an item. *)
Definition marked (existed : gset string) (before : list SubOptions) : gset string :=
  foldl (λ e sub, markSubscriptionAsExistingForRetainHandling sub e) existed before.

Lemma elem_of_marked before : ∀ existed f, f ∈ marked existed before ↔ f ∈ existed ∨
  ∃ x, x ∈ before ∧ sub_RetainHandling x = 1 ∧ sub_Topic x ≠ "" ∧ IsSharedSubscription (sub_Topic x) = false ∧ f = sub_Topic x.
Proof.
  induction before as [|x before IH]; intros existed f; cbn [marked foldl]; [set_solver|].
  fold (marked (markSubscriptionAsExistingForRetainHandling x existed) before). rewrite IH.
  assert (f ∈ markSubscriptionAsExistingForRetainHandling x existed ↔ f ∈ existed ∨
    (sub_RetainHandling x = 1 ∧ sub_Topic x ≠ "" ∧ IsSharedSubscription (sub_Topic x) = false ∧ f = sub_Topic x)) as ->.
  { unfold markSubscriptionAsExistingForRetainHandling. destruct (Z.eqb_spec (sub_RetainHandling x) 1); cbn [negb orb]; [|naive_solver].
    case_bool_decide; cbn [orb]; [naive_solver|]. destruct (IsSharedSubscription (sub_Topic x)); [naive_solver|]. set_solver. }
  setoid_rewrite elem_of_cons. naive_solver.
Qed.

Lemma should_wants existed before sub :
  shouldSendRetainedForSubscription sub (marked existed before) = bool_decide (wants existed before sub).
Proof.
  pose proof (elem_of_marked before existed (sub_Topic sub)) as Hm.
  destruct (decide (wants existed before sub)) as [Hw|Hw].
  - rewrite (bool_decide_eq_true_2 (wants _ _ _)) by done. destruct Hw as (Hs & Hne & H2 & H1). unfold shouldSendRetainedForSubscription.
    rewrite Hs, (bool_decide_eq_false_2 (_ = "")), (proj2 (Z.eqb_neq _ _) H2) by done. cbn [orb].
    destruct (Z.eqb_spec (sub_RetainHandling sub) 1) as [E|]; [|done]. cbn [negb orb]. apply negb_true_iff, bool_decide_eq_false_2.
    destruct (H1 E) as [Hx Hall]. rewrite Forall_forall in Hall. intros [?|(x & Hin & Hr & _ & _ & Ht)]%Hm; [done|]. by apply (Hall x Hin).
  - rewrite (bool_decide_eq_false_2 (wants _ _ _)) by done. apply not_true_is_false. intros H. apply Hw.
    unfold shouldSendRetainedForSubscription in H. destruct (IsSharedSubscription (sub_Topic sub)) eqn:Hs; [done|].
    case_bool_decide as Hne; [done|]. destruct (Z.eqb_spec (sub_RetainHandling sub) 2) as [|H2]; [done|]. cbn [orb] in H. split_and!; [done..|].
    intros E. rewrite E in H. cbn in H. apply negb_true_iff, bool_decide_eq_false in H.
    split; [naive_solver|]. apply Forall_forall. intros x Hx [Hr Ht]. apply H, Hm. right. exists x. rewrite Ht. by split_and!.
Qed.

(** What is sent for one item. *)
Definition batch (sub : SubOptions) (l : list Effect) : Prop :=
  ∃ topics, NoDup topics ∧ (∀ topic, topic ∈ topics → MatchTopicFilter (sub_Topic sub) topic = true) ∧
    (∀ topic, MatchTopicFilter (sub_Topic sub) topic = true → is_Some (live now a topic) → topic ∈ topics) ∧ packets topics l.

Lemma each_grows subs : Forall (λ x, fe_works x.1) subs → ∀ cur s h' d' b,
  sendRetainedForEach cfg t subs cur s = (h', d', b) → grows s.2 d'.
Proof.
  induction 1 as [|[env sub] subs Hw _ IH]; intros cur s h' d' b; cbn [sendRetainedForEach]; [by intros [= -> <-]|].
  destruct (dl_done s.2); [by intros [= -> <-]|].
  destruct (shouldSendRetainedForSubscription sub cur); [|apply IH].
  destruct (sendRetainedForTopicFilter _ _ _ _ _) as [[h1 d1] b1] eqn:E. apply filter_grows in E; [|done].
  destruct b1; [|by intros [= <- <- <-]]. intros H%IH. by etrans.
Qed.

Lemma each_sends existed subs : Forall (λ x, fe_works x.1) subs → ∀ before s h' d', ready s → id_left d' →
  sendRetainedForEach cfg t subs (marked existed before) s = (h', d', true) →
  ready (h', d') ∧ ∃ ls, dl_trace d' = dl_trace s.2 ++ concat ls ∧ Forall2 batch (due existed before subs.*2) ls.
Proof.
  induction 1 as [|[env sub] subs Hw Hall IH]; intros before s h' d' Hr Hfree; cbn [sendRetainedForEach].
  { intros [= ->]. split; [done|]. exists []. by rewrite app_nil_r. }
  pose proof Hr as (_ & -> & _). rewrite should_wants. cbn [fmap list_fmap snd due].
  assert (markSubscriptionAsExistingForRetainHandling sub (marked existed before) = marked existed (before ++ [sub])) as ->.
  { unfold marked. by rewrite foldl_app. }
  destruct (decide (wants existed before sub)) as [Hwant|Hwant].
  - rewrite bool_decide_eq_true_2 by done. destruct (sendRetainedForTopicFilter _ _ _ _ _) as [[h1 d1] b1] eqn:E. destruct b1; [|done].
    intros H. pose proof (each_grows _ Hall _ _ _ _ _ H) as Hg. destruct Hwant as (Hs & Hne & _).
    apply filter_sends in E as (Hr1 & topics & Hnd & Hm1 & Hm2 & l & Hl & Hp); [|done|done|by eapply grows_left|done..].
    apply IH in H as (Hr' & ls & Htr & Hls); [|done..]. split; [done|]. exists (l :: ls). cbn [concat snd] in *.
    split; [by rewrite Htr, Hl, <-app_assoc|]. apply Forall2_cons. split; [|done]. exists topics. by split_and!.
  - rewrite bool_decide_eq_false_2 by done. apply IH; done.
Qed.
End job_spec.

(** ** The packets *)

Definition sub_ids (p : Publish) : list Z := default [] (pup_SubscriptionIdentifier <$> pub_Properties p).

Lemma retainedCopy_fields q rap ids p : 0 ≤ pub_QoS p ≤ 2 →
  let r := retainedCopy q rap ids p in
  pub_Payload r = pub_Payload p ∧ pub_Topic r = pub_Topic p ∧ pub_QoS r = Z.min (pub_QoS p) (Z.max q 0) ∧
  pub_Retain r = pub_Retain p && rap ∧ sub_ids r = sanitizeSubscriptionIdentifiers ids ∧
  outboundPayloadFormatInvalid r = outboundPayloadFormatInvalid p.
Proof.
  intros Hq. cbv zeta. destruct p as [payload topic props id qos dup ret]. cbn [pub_QoS] in Hq. unfold retainedCopy, applySubscriptionOptionsToPublish, CopyPublish,
    setPublishSubscriptionIdentifiers, outboundPayloadFormatInvalid, sub_ids. cbn [pub_Properties].
  assert (∀ x, x < qos → 0 ≤ x → wrap 8 x = x) as Hwrap by (intros; unfold wrap; apply Z.mod_small; lia).
  case_bool_decide as Hl; [apply nil_length_inv in Hl; rewrite Hl|]; destruct props as [pr|], rap; cbn;
    destruct (Z.ltb_spec q 0); cbn; zcase; cbn; rewrite ?Hwrap by lia; split_and!; try done; try lia; by destruct ret.
Qed.

Lemma publishFrom_fields m now p : publishFromRetainMessage m now = Some p → pub_Topic p = rm_Topic m ∧ pub_Retain p = true.
Proof.
  unfold publishFromRetainMessage. case_bool_decide; [done|].
  destruct (match rm_PublishPacket m with [] => _ | _ => _ end) as [p0|]; [|done]. unfold applyRetainedMessageExpiry.
  destruct (pub_Properties _ ≫= _); [|by intros [= <-]]. repeat case_if; try done; by intros [= <-].
Qed.

Section theorem.
Context {Data : Type} {Hcodec : RetainCodec Data} {Hlaws : RetainCodecLaws Data}.

(** A retained message the broker can serve: it decodes, its QoS is 0, 1 or 2, and its
    topic is one to publish to. *)
Definition servable (now : Z) (a : gmap string RetainMessage) : Prop :=
  ∀ topic m, live now a topic = Some m → validatePublishTopic topic = Ok tt ∧ head (SplitTopicLevels topic) ≠ Some "$share" ∧
    ∃ p, publishFromRetainMessage m now = Some p ∧ 0 ≤ pub_QoS p ≤ 2.

(** The client gets the retained message of the topic: its payload is of the format it
    claims, and a subscription of the client takes it. *)
Definition gets (t : MemorySubCenter) (c : string) (a : gmap string RetainMessage) (now : Z) (topic : string) : Prop :=
  ∃ m p o, live now a topic = Some m ∧ publishFromRetainMessage m now = Some p ∧ outboundPayloadFormatInvalid p = false ∧
    takes t topic (rm_PublisherClientID m) c o.

(** [p] is the packet for it. *)
Definition packet_for (t : MemorySubCenter) (c : string) (a : gmap string RetainMessage) (now : Z) (p : Publish) : Prop :=
  ∃ m p0 q rap ids, live now a (pub_Topic p) = Some m ∧ publishFromRetainMessage m now = Some p0 ∧
    best_options t c (pub_Topic p) (rm_PublisherClientID m) q rap ids ∧
    pub_Payload p = pub_Payload p0 ∧ pub_QoS p = Z.min (pub_QoS p0) (Z.max q 0) ∧ pub_Retain p = rap ∧
    ∀ i, i ∈ sub_ids p ↔ i ∈ ids ∧ i ≤ 268435455.

Lemma retained_for_spec t c a now topic : center_ok t → servable now a →
  match retained_for t c a now topic with
  | None => ¬ gets t c a now topic
  | Some p => gets t c a now topic ∧ ∀ h, Holds now h a → ∀ id : Z, pub_Topic p = topic ∧ packet_for t c a now (set_qos_id (pub_QoS p) id p)
  end.
Proof.
  intros Hok Hs. unfold retained_for. destruct (live now a topic) as [m|] eqn:El; cbn; [|by intros (m & ? & ? & ? & _); congruence].
  destruct (Hs topic m El) as (Hv & Hsh & p0 & Hp & Hq). rewrite Hp. cbn.
  pose proof (options_spec t c topic (rm_PublisherClientID m) Hok Hv Hsh) as Ho.
  destruct (getRetainedMessageSubscriptionOptions _ _ _ _) as [[[q rap] ids]|]; cbn.
  2:{ intros (m' & p & o & Hm & _ & _ & Ht). rewrite El in Hm. injection Hm as <-. by apply (Ho o). }
  destruct (retainedCopy_fields q rap ids p0 Hq) as (F1 & F2 & F3 & F4 & F5 & F6). rewrite F6.
  destruct (outboundPayloadFormatInvalid p0) eqn:Ei.
  { intros (m' & p & o & Hm & Hp' & Hi & _). rewrite El in Hm. injection Hm as <-. congruence. }
  split.
  - destruct Ho as [(o & Ht & _) _]. by exists m, p0, o.
  - intros h Hh id. destruct (publishFrom_fields _ _ _ Hp) as [G1 G2].
    assert (pub_Topic (retainedCopy q rap ids p0) = topic) as Htop by (rewrite F2, G1; by eapply live_topic).
    split; [done|]. exists m, p0, q, rap, ids. cbn. rewrite Htop. split_and!; try done; [by rewrite F4, G2|].
    intros i. unfold sub_ids in *. cbn. rewrite F5. unfold sanitizeSubscriptionIdentifiers.
    rewrite list_elem_of_filter. destruct Ho as [_ Hids]. rewrite Hids. split; naive_solver lia.
Qed.

(** What one item of the SUBSCRIBE brings. *)
Definition brings (t : MemorySubCenter) (c : string) (a : gmap string RetainMessage) (now : Z) (sub : SubOptions) (l : list Publish) : Prop :=
  NoDup (pub_Topic <$> l) ∧
  (∀ topic, topic ∈ pub_Topic <$> l ↔ MatchTopicFilter (sub_Topic sub) topic = true ∧ gets t c a now topic) ∧
  Forall (packet_for t c a now) l.

Lemma batch_brings t c a now h sub l : center_ok t → servable now a → Holds now h a → batch t c a now sub l →
  ∃ ps, l = (Sent ∘ PPublish <$> ps) ∧ brings t c a now sub ps.
Proof.
  intros Hok Hs Hh (topics & Hnd & Hm1 & Hm2 & Hp). unfold packets in Hp.
  assert (∃ ps, l = (Sent ∘ PPublish <$> ps) ∧ pub_Topic <$> ps = filter (λ topic, is_Some (retained_for t c a now topic)) topics ∧
    Forall (packet_for t c a now) ps) as (ps & -> & Hps & Hall).
  { clear Hnd Hm1 Hm2. induction Hp as [|topic e topics' l' (p & id & Hr & ->) _ (ps & -> & IH & IHall)]; [by exists []|].
    pose proof (retained_for_spec t c a now topic Hok Hs) as Hspec. rewrite Hr in Hspec. destruct Hspec as [_ Hspec].
    destruct (Hspec h Hh id) as [Ht Hpk]. exists (set_qos_id (pub_QoS p) id p :: ps). split_and!; [done|by rewrite fmap_cons, IH; cbn; rewrite Ht|].
    by constructor. }
  exists ps. split; [done|]. split_and!; [rewrite Hps; by apply NoDup_filter| |done].
  intros topic. rewrite Hps, list_elem_of_filter. pose proof (retained_for_spec t c a now topic Hok Hs) as Hspec. split.
  - intros [[p Hp'] Hin]. rewrite Hp' in Hspec. split; [by apply Hm1|by apply Hspec].
  - intros [Hm Hg]. destruct (retained_for t c a now topic) eqn:E; [|done]. split; [by eexists|]. apply Hm2; [done|].
    destruct Hg as (m & _ & _ & Hl & _). by rewrite Hl.
Qed.

(** C20. Retained messages on SUBSCRIBE.  When the store, the clock and the connection work
    at one instant, the job runs to its end and identifiers do not run out, it sends,
    for each item of the packet whose Retain Handling asks for it, in order, every
    retained message of a topic the item's filter matches that has not expired and that
    a subscription of the client takes (No Local), each topic once, and nothing
    else.  Each packet has the payload of the message, the smaller of its QoS and the
    best subscription's, that subscription's Retain As Published as its RETAIN flag,
    and the identifiers of all subscriptions that take it.  The retained messages stay. *)
Theorem retained_on_subscribe cfg t c a now existed (subs : list (@FilterEnv Data * SubOptions)) h d h' d' :
  center_ok t → sc_RetainAvailable cfg ≠ 0 → servable now a → Forall (λ x, fe_works now x.1) subs →
  ready c a now (h, d) → id_left d' →
  sendRetainedAfterSubscribe cfg t subs existed (h, d) = (h', d', true) →
  Holds now h' a ∧
  ∃ sent, dl_trace d' = dl_trace d ++ (Sent ∘ PPublish <$> concat sent) ∧
    Forall2 (brings t c a now) (due existed [] subs.*2) sent.
Proof.
  intros Hok Ha Hs Hw Hr Hfree H. unfold sendRetainedAfterSubscribe in H. rewrite (proj2 (Z.eqb_neq _ _) Ha) in H. cbn [orb] in H.
  assert (sendRetainedForEach cfg t subs (marked existed []) (h, d) = (h', d', true)) as H'.
  { case_bool_decide as E; [|done]. by rewrite (nil_length_inv _ E). }
  apply (each_sends cfg t c a now) in H' as [(Hh' & _) (ls & Htr & Hls)]; [|intros topic m Hm; destruct (Hs topic m Hm) as (_ & _ & p & Hp & _); eauto|done..].
  split; [done|]. clear H. destruct Hr as (Hh & _).
  assert (∃ sent, concat ls = (Sent ∘ PPublish <$> concat sent) ∧ Forall2 (brings t c a now) (due existed [] subs.*2) sent) as (sent & E & Hsent).
  { clear Htr. induction Hls as [|sub l subs' ls Hb _ (sent & IH1 & IH2)]; [by exists []|].
    destruct (batch_brings _ _ _ _ _ _ _ Hok Hs Hh Hb) as (ps & -> & Hps). exists (ps :: sent). cbn. rewrite fmap_app, IH1. split; [done|]. by constructor. }
  exists sent. by rewrite Htr, E.
Qed.
End theorem.

(** ** A retained duplicate *)

(** A retained message stored from a retransmitted PUBLISH keeps its DUP flag, so the
    copy for a subscription of QoS 0 has QoS 0 and DUP, which the encoder refuses: the
    write fails and ends the subscriber's connection, at every SUBSCRIBE that matches
    the topic. *)
Theorem retained_duplicate_unsendable p now publisher m now' p0 rap ids :
  wf_packet (PPublish p) → pub_Topic p ≠ "" → pub_Duplicate p = true →
  newRetainMessageFromPublish p now publisher = Ok m → publishFromRetainMessage m now' = Some p0 →
  let copy := retainedCopy 0 rap ids p0 in
  pub_QoS copy = 0 ∧ ∃ e, Encode 0 (Some (publishPacket (set_qos_id 0 0 copy))) = Err e.
Proof.
  intros Hwf Ht Hdup Hm Hp copy. pose proof Hwf as [Hq _]. rewrite (retained_decoded _ _ _ _ _ Hwf Ht Hm) in Hp.
  assert (pub_Duplicate p0 = true ∧ pub_QoS p0 = pub_QoS p) as [H1 H2].
  { unfold applyRetainedMessageExpiry in Hp. cbn in Hp. revert Hp. repeat case_match; try done; intros [= <-]; cbn; done. }
  assert (pub_QoS copy = 0) as Hc by (destruct (retainedCopy_fields 0 rap ids p0) as (_ & _ & E & _); [lia|]; fold copy in E; lia).
  assert (pub_Duplicate copy = true) as Hd.
  { subst copy. unfold retainedCopy, applySubscriptionOptionsToPublish, setPublishSubscriptionIdentifiers.
    destruct p0, rap; cbn in H1 |- *; subst; repeat case_match; done. }
  split; [done|]. unfold Encode. cbn. rewrite Hd. cbn. by eexists.
Qed.

Definition example_duplicate : Publish := mkPublish [] "a" None 3 1 true true.
Lemma retained_duplicate_unsendable_witness :
  ∃ m p0, newRetainMessageFromPublish example_duplicate 5 "p" = Ok m ∧ publishFromRetainMessage m 6 = Some p0 ∧
    ∃ e, Encode 0 (Some (publishPacket (set_qos_id 0 0 (retainedCopy 0 false [] p0)))) = Err e.
Proof.
  eexists _, _. split; [vm_compute; reflexivity|]. split; [vm_compute; reflexivity|].
  refine (proj2 (retained_duplicate_unsendable example_duplicate 5 "p" _ 6 _ false [] _ _ _ _ _)); [|done|done|vm_compute; reflexivity..].
  split_and!; [cbn; lia|cbn; lia|done|done].
Defined.

(** ** An instance *)

Definition example_center : MemorySubCenter :=
  reachable [CCreate (mkSubRequest [mkSubOption 1 false "a/+" false 0 5; mkSubOption 0 true "a/#" false 0 0] "c" "")].
Definition example_store : gmap string RetainMessage :=
  {["a/b" := example_retained "a/b" 0; "x" := example_retained "x" 0]}.
Definition example_envs : @FilterEnv RetainMessage :=
  mkFilterEnv None None 9 map_to_list (λ _, mkTopicEnv None None None 9 9 (mkRetainedIO "m" [] WSent WSent 9)).
Definition example_connection : Downlink := mkDownlink "c" 0 None ∅ ∅ (0, "") 0 false false [].
Definition example_retained_publish : Publish :=
  mkPublish [] "a/b" (Some (set_subids [5] emptyPublishProperties)) 0 0 false false.

Lemma example_entry topic m : example_store !! topic = Some m → (topic = "a/b" ∨ topic = "x") ∧ m = example_retained topic 0.
Proof.
  unfold example_store.
  destruct (decide (topic = "a/b")) as [->|]; [rewrite lookup_insert_eq; intros [= <-]; naive_solver|]. rewrite lookup_insert_ne by done.
  destruct (decide (topic = "x")) as [->|]; [rewrite lookup_singleton_eq; intros [= <-]; naive_solver|]. by rewrite lookup_singleton_ne.
Qed.

Definition example_job : gmap string RetainMessage * Downlink * bool :=
  sendRetainedAfterSubscribe example_subcfg example_center [(example_envs, mkSubOptions "a/+" 1 0 false false)] ∅ (example_store, example_connection).

Lemma retained_on_subscribe_witness :
  dl_trace example_job.1.2 = [Sent (PPublish example_retained_publish)] ∧
  ∃ sent, dl_trace example_job.1.2 = (Sent ∘ PPublish <$> concat sent) ∧
    Forall2 (brings example_center "c" example_store 9) [mkSubOptions "a/+" 1 0 false false] sent.
Proof.
  split; [vm_compute; reflexivity|].
  refine (proj2 (retained_on_subscribe example_subcfg example_center "c" example_store 9 ∅ [(example_envs, mkSubOptions "a/+" 1 0 false false)]
    example_store example_connection example_job.1.1 example_job.1.2 _ _ _ _ _ _ _)).
  - apply reachable_ok.
  - done.
  - intros topic m Hm. unfold live in Hm. destruct (example_store !! topic) as [m'|] eqn:Hl; [|done]. cbn in Hm.
    destruct (isExpired m' 9); [done|]. injection Hm as ->. apply example_entry in Hl as [Ht ->].
    destruct Ht as [->| ->]; (split; [reflexivity|split; [done|]]); eexists; (split; [vm_compute; reflexivity|cbn; lia]).
  - constructor; [|constructor]. unfold fe_works. cbn. by split_and!.
  - unfold ready. cbn [fst snd]. split_and!; [|done|done|cbn; lia..]. split.
    + intros topic x Hx. by exists x.
    + by intros topic m [_ ->]%example_entry.
    + intros topic m Hm Hn. cbn in Hn. congruence.
  - exists 1. split; [unfold is_id; lia|vm_compute; reflexivity].
  - vm_compute. reflexivity.
Defined.
