(* ===== verification/Outbound.v ===== *)
(** * Writing packets to the client ([src/internal/broker/client/client_io.go], [problem_info.go])

    Every packet the server sends goes through [write]: plugin hooks, topic alias for a
    PUBLISH, the client's Request Problem Information, then its Maximum Packet Size:
    optional properties are dropped until the packet fits; a PUBLISH that does not fit
    is discarded, any other packet ends the connection with a DISCONNECT.

    [ob_frames] is what the connection was handed, frame by frame (as much of a frame as
    it took).  What plugins make of a packet and how far a write gets are inputs.  Write
    deadlines, metrics and logs are omitted; [Write] adds only the lock. *)

From S2P Require Import Prelude GoStrings Mqtt5 Wire WireParse WireProps WireCodec TopicAlias Inflight Downlink.

(** [NewControlPacket] with its content set. *)
Definition controlPacket (p : Packet) : ControlPacket :=
  mkControlPacket (Some p) (defaultPacket (PacketType p)) (mkFixedHeader (PacketType p) 0 0).

Record Outbound := mkOutbound {
  ob_clientMaximumPacketSize : option Z;
  ob_requestProblemInfo : bool;
  ob_connAckAccepted : bool;
  ob_topicAliasManager : option TopicAliasManager;
  ob_packetIdentifierIDTopic : gmap Z string;
  ob_frames : list (list byte);
  ob_done : bool;
  ob_closed : bool }.

Definition ob_with_alias (x : option TopicAliasManager) (o : Outbound) : Outbound :=
  let 'mkOutbound a b c _ e f g h := o in mkOutbound a b c x e f g h.
Definition ob_with_topics (x : gmap Z string) (o : Outbound) : Outbound :=
  let 'mkOutbound a b c d _ f g h := o in mkOutbound a b c d x f g h.
Definition ob_accept (o : Outbound) : Outbound :=
  let 'mkOutbound a b _ d e f g h := o in mkOutbound a b true d e f g h.
Definition ob_frame (x : list byte) (o : Outbound) : Outbound :=
  let 'mkOutbound a b c d e f g h := o in mkOutbound a b c d e (f ++ [x]) g h.
Definition ob_cancel (o : Outbound) : Outbound :=
  let 'mkOutbound a b c d e f _ h := o in mkOutbound a b c d e f true h.
Definition ob_close (o : Outbound) : Outbound :=
  let 'mkOutbound a b c d e f _ _ := o in mkOutbound a b c d e f true true.

(** What the plugins leave of each packet they are shown; their errors are ignored. *)
Record Hooks := mkHooks {
  hk_ConnAck : ConnAck → ConnAck;
  hk_Suback : CodeList → CodeList;
  hk_Unsuback : CodeList → CodeList;
  hk_Publish : Publish → Publish;
  hk_Puback : Ack → Ack;
  hk_Pubrec : Ack → Ack;
  hk_Pubrel : Ack → Ack;
  hk_Pubcomp : Ack → Ack }.

(** How a write on the connection ends: all of it, or an error after some bytes. *)
Record OutboundIO := mkOutboundIO {
  bi_hooks : Hooks;
  bi_conn : option nat;
  bi_disconnect : option nat }.

(** ** Preparing *)

Definition prepareOutboundPublish (hooks : Hooks) (p : Publish) (o : Outbound) : Outbound * Publish :=
  let '(o, p) :=
    match ob_topicAliasManager o with
    | None => (o, p)
    | Some m => let '(m, p) := ApplyDownlink m p in (ob_with_alias (Some m) o, p)
    end in
  (o, hk_Publish hooks p).

Definition prepareOutboundPacket (hooks : Hooks) (packet : Packet) (fullTopic : string) (o : Outbound) : Outbound * Packet :=
  match packet with
  | PConnAck p => (o, PConnAck (hk_ConnAck hooks p))
  | PSuback p => (o, PSuback (hk_Suback hooks p))
  | PUnsuback p => (o, PUnsuback (hk_Unsuback hooks p))
  | PPublish p =>
      let '(o, p) := prepareOutboundPublish hooks p o in
      (ob_with_topics (<[pub_PacketID p := fullTopic]> (ob_packetIdentifierIDTopic o)) o, PPublish p)
  | PPuback p => (o, PPuback (hk_Puback hooks p))
  | PPubrec p => (o, PPubrec (hk_Pubrec hooks p))
  | PPubrel p => (o, PPubrel (hk_Pubrel hooks p))
  | PPubcomp p => (o, PPubcomp (hk_Pubcomp hooks p))
  | p => (o, p)
  end.

Definition noReason : ReasonProperties := mkReasonProperties "" [].
Definition set_ack_props (x : option ReasonProperties) (p : Ack) : Ack := mkAck x (ack_PacketID p) (ack_ReasonCode p).
Definition set_code_props (x : option ReasonProperties) (p : CodeList) : CodeList := mkCodeList x (cdl_Reasons p) (cdl_PacketID p).

Definition applyProblemInfoPreference (requestProblemInfo : bool) (packet : Packet) : Packet :=
  if requestProblemInfo then packet
  else
    let strip (props : option ReasonProperties) := (λ _, noReason) <$> props in
    match packet with
    | PPuback p => PPuback (set_ack_props (strip (ack_Properties p)) p)
    | PPubrec p => PPubrec (set_ack_props (strip (ack_Properties p)) p)
    | PPubrel p => PPubrel (set_ack_props (strip (ack_Properties p)) p)
    | PPubcomp p => PPubcomp (set_ack_props (strip (ack_Properties p)) p)
    | PSuback p => PSuback (set_code_props (strip (cdl_Properties p)) p)
    | PUnsuback p => PUnsuback (set_code_props (strip (cdl_Properties p)) p)
    | PAuth p =>
        PAuth (mkAuth ((λ q, mkAuthProperties (aup_AuthMethod q) (aup_AuthData q) "" []) <$> aut_Properties p) (aut_ReasonCode p))
    | p => p
    end.

(** ** Trimming *)

(** [packetsize.CheckPacketSizeWithMax(packet, maxSize) == nil]. *)
Definition fits (maxSize : Z) (p : Packet) : bool :=
  match CheckPacketSizeWithMax (Some (controlPacket p)) maxSize with Ok _ => true | Err _ => false end.

(** One trimming step: if there is something to drop, drop it, and stop when the packet
    fits; [k] goes on with what is left. *)
Definition trim {A} (maxSize : Z) (mk : A → Packet) (present : bool) (drop : A → A) (k : A → Packet) (x : A) : Packet :=
  if present then (if fits maxSize (mk (drop x)) then mk (drop x) else k (drop x)) else k x.

Definition reason_drop_user (q : ReasonProperties) : ReasonProperties := mkReasonProperties (rsp_ReasonString q) [].
Definition reason_drop_reason (q : ReasonProperties) : ReasonProperties := mkReasonProperties "" (rsp_User q).

(** The six acknowledgements: user properties, then the reason string. *)
Definition trimReasonAndUserPropertiesToFit (maxSize : Z) (mk : option ReasonProperties → Packet) (props : option ReasonProperties) : Packet :=
  match props with
  | None => mk None
  | Some q =>
      let mk q := mk (Some q) in
      trim maxSize mk (negb (bool_decide (rsp_User q = []))) reason_drop_user (λ q, mk (reason_drop_reason q)) q
  end.

Definition ConnAckUseAnotherServer : Z := 0x9C.
Definition ConnAckServerMoved : Z := 0x9D.
Definition connAckUsesServerReference (reasonCode : Z) : bool :=
  (reasonCode =? ConnAckUseAnotherServer) || (reasonCode =? ConnAckServerMoved).
Definition disconnectUsesServerReference (reasonCode : Z) : bool :=
  (reasonCode =? 0x9C) || (reasonCode =? 0x9D).

Definition connack_set (response reference reason : string) (user : list User) (q : ConnAckProperties) : ConnAckProperties :=
  mkConnAckProperties (cap_SessionExpiryInterval q) (cap_AssignedClientID q) (cap_ServerKeepAlive q) (cap_AuthMethod q) (cap_AuthData q)
    response reference reason (cap_ReceiveMaximum q) (cap_TopicAliasMaximum q) (cap_MaximumQOS q) (cap_RetainAvailable q)
    (cap_WildcardSubAvailable q) (cap_SubIDAvailable q) (cap_SharedSubAvailable q) (cap_MaximumPacketSize q) user.
Definition connack_drop_user (q : ConnAckProperties) : ConnAckProperties :=
  connack_set (cap_ResponseInfo q) (cap_ServerReference q) (cap_ReasonString q) [] q.
Definition connack_drop_reason (q : ConnAckProperties) : ConnAckProperties :=
  connack_set (cap_ResponseInfo q) (cap_ServerReference q) "" (cap_User q) q.
Definition connack_drop_response (q : ConnAckProperties) : ConnAckProperties :=
  connack_set "" (cap_ServerReference q) (cap_ReasonString q) (cap_User q) q.
Definition connack_drop_reference (q : ConnAckProperties) : ConnAckProperties :=
  connack_set (cap_ResponseInfo q) "" (cap_ReasonString q) (cap_User q) q.

Definition trimConnAckPropertiesToFit (maxSize : Z) (p : ConnAck) : Packet :=
  match coa_Properties p with
  | None => PConnAck p
  | Some q =>
      let mk q := PConnAck (mkConnAck (Some q) (coa_ReasonCode p) (coa_SessionPresent p)) in
      let present s := negb (bool_decide (s = "")) in
      trim maxSize mk (negb (bool_decide (cap_User q = []))) connack_drop_user (λ q,
      trim maxSize mk (present (cap_ReasonString q)) connack_drop_reason (λ q,
      trim maxSize mk (present (cap_ResponseInfo q)) connack_drop_response (λ q,
        if present (cap_ServerReference q) && negb (connAckUsesServerReference (coa_ReasonCode p))
        then mk (connack_drop_reference q) else mk q) q) q) q
  end.

Definition auth_drop_user (q : AuthProperties) : AuthProperties := mkAuthProperties (aup_AuthMethod q) (aup_AuthData q) (aup_ReasonString q) [].
Definition auth_drop_reason (q : AuthProperties) : AuthProperties := mkAuthProperties (aup_AuthMethod q) (aup_AuthData q) "" (aup_User q).

Definition trimAuthPropertiesToFit (maxSize : Z) (p : Auth) : Packet :=
  match aut_Properties p with
  | None => PAuth p
  | Some q =>
      let mk q := PAuth (mkAuth (Some q) (aut_ReasonCode p)) in
      trim maxSize mk (negb (bool_decide (aup_User q = []))) auth_drop_user (λ q, mk (auth_drop_reason q)) q
  end.

Definition disconnect_drop_user (q : DisconnectProperties) : DisconnectProperties :=
  mkDisconnectProperties (dip_SessionExpiryInterval q) (dip_ServerReference q) (dip_ReasonString q) [].
Definition disconnect_drop_reason (q : DisconnectProperties) : DisconnectProperties :=
  mkDisconnectProperties (dip_SessionExpiryInterval q) (dip_ServerReference q) "" (dip_User q).
Definition disconnect_drop_reference (q : DisconnectProperties) : DisconnectProperties :=
  mkDisconnectProperties (dip_SessionExpiryInterval q) "" (dip_ReasonString q) (dip_User q).

Definition trimDisconnectPropertiesToFit (maxSize : Z) (p : Disconnect) : Packet :=
  match dis_Properties p with
  | None => PDisconnect p
  | Some q =>
      let mk q := PDisconnect (mkDisconnect (Some q) (dis_ReasonCode p)) in
      trim maxSize mk (negb (bool_decide (dip_User q = []))) disconnect_drop_user (λ q,
      trim maxSize mk (negb (bool_decide (dip_ReasonString q = ""))) disconnect_drop_reason (λ q,
        if negb (bool_decide (dip_ServerReference q = "")) && negb (disconnectUsesServerReference (dis_ReasonCode p))
        then mk (disconnect_drop_reference q) else mk q) q) q
  end.

Definition outboundMaxPacketSize (o : Outbound) : Z := default 0 (ob_clientMaximumPacketSize o).

Definition trimOutboundOptionalProperties (maxSize : Z) (packet : Packet) : Packet :=
  if (maxSize <=? 0) || fits maxSize packet then packet
  else
    match packet with
    | PConnAck p => trimConnAckPropertiesToFit maxSize p
    | PAuth p => trimAuthPropertiesToFit maxSize p
    | PDisconnect p => trimDisconnectPropertiesToFit maxSize p
    | PPuback p => trimReasonAndUserPropertiesToFit maxSize (λ x, PPuback (set_ack_props x p)) (ack_Properties p)
    | PPubrec p => trimReasonAndUserPropertiesToFit maxSize (λ x, PPubrec (set_ack_props x p)) (ack_Properties p)
    | PPubrel p => trimReasonAndUserPropertiesToFit maxSize (λ x, PPubrel (set_ack_props x p)) (ack_Properties p)
    | PPubcomp p => trimReasonAndUserPropertiesToFit maxSize (λ x, PPubcomp (set_ack_props x p)) (ack_Properties p)
    | PSuback p => trimReasonAndUserPropertiesToFit maxSize (λ x, PSuback (set_code_props x p)) (cdl_Properties p)
    | PUnsuback p => trimReasonAndUserPropertiesToFit maxSize (λ x, PUnsuback (set_code_props x p)) (cdl_Properties p)
    | p => p
    end.

(** ** Writing *)

Inductive OutboundError :=
| EOversizedPublish
| ETooLarge (e : SizeError)
| EEncode (e : WireError)
| EConnection.

(** [wire.Write] without a limit. *)
Definition wire_Write (conn : option nat) (p : Packet) (o : Outbound) : Outbound * result OutboundError unit :=
  match Encode 0 (Some (controlPacket p)) with
  | Err e => (o, Err (EEncode e))
  | Ok bs =>
      match conn with
      | None => (ob_frame bs o, Ok tt)
      | Some n => (ob_frame (take n bs) o, Err EConnection)
      end
  end.

Definition DisconnectPacketTooLarge : Z := 0x95.
Definition ForPacketTooLarge (packetSize maxSize : Z) : Packet :=
  NewServerDisconnect DisconnectPacketTooLarge ("packet size " +:+ pretty packetSize +:+ " exceeds maximum " +:+ pretty maxSize).
Definition MinimalForPacketTooLarge : Packet := PDisconnect (mkDisconnect None DisconnectPacketTooLarge).

Definition closeForOversizedOutboundPacket (io : OutboundIO) (err : SizeError) (packet : Packet) (maxSize : Z) (o : Outbound) : Outbound :=
  if negb (ob_connAckAccepted o) then ob_close o
  else
    let packetSize := match calculatePacketSize (Some (controlPacket packet)) with Ok n => n | Err _ => 0 end in
    let disconnectPacket := applyProblemInfoPreference (ob_requestProblemInfo o) (ForPacketTooLarge packetSize maxSize) in
    let disconnectPacket := if fits maxSize disconnectPacket then disconnectPacket else MinimalForPacketTooLarge in
    if negb (fits maxSize disconnectPacket) then ob_close o
    else ob_close (wire_Write (bi_disconnect io) disconnectPacket o).1.

Definition discardOversizedOutboundPublish (fullTopic : string) (p : Publish) (o : Outbound) : Outbound :=
  ob_with_alias (revertDownlinkAlias fullTopic (pub_Topic p) <$> ob_topicAliasManager o) o.

Definition enforceOutboundMaxPacketSize (io : OutboundIO) (packet : Packet) (fullTopic : string) (o : Outbound)
    : Outbound * result OutboundError unit :=
  let maxSize := outboundMaxPacketSize o in
  if maxSize <=? 0 then (o, Ok tt)
  else
    match CheckPacketSizeWithMax (Some (controlPacket packet)) maxSize with
    | Ok _ => (o, Ok tt)
    | Err err =>
        match packet with
        | PPublish p => (discardOversizedOutboundPublish fullTopic p o, Err EOversizedPublish)
        | _ => (closeForOversizedOutboundPacket io err packet maxSize o, Err (ETooLarge err))
        end
    end.

Definition markAcceptedConnAck (packet : Packet) (o : Outbound) : Outbound :=
  match packet with
  | PConnAck p => if negb (mqtt5ReasonCodeIsError (coa_ReasonCode p)) then ob_accept o else o
  | _ => o
  end.

Definition ob_write (io : OutboundIO) (packet : Packet) (fullTopic : string) (o : Outbound) : Outbound * result OutboundError unit :=
  let '(o, packet) := prepareOutboundPacket (bi_hooks io) packet fullTopic o in
  let packet := applyProblemInfoPreference (ob_requestProblemInfo o) packet in
  let packet := trimOutboundOptionalProperties (outboundMaxPacketSize o) packet in
  match enforceOutboundMaxPacketSize io packet fullTopic o with
  | (o, Err e) => (o, Err e)
  | (o, Ok _) =>
      match wire_Write (bi_conn io) packet o with
      | (o, Err e) => (ob_cancel o, Err e)
      | (o, Ok _) => (markAcceptedConnAck packet o, Ok tt)
      end
  end.

(** A PUBLISH sent again is a copy with DUP. *)
Definition RetryWrite (io : OutboundIO) (packet : Packet) (fullTopic : string) (o : Outbound) : Outbound * result OutboundError unit :=
  match packet with
  | PPublish p => ob_write io (PPublish (set_dup (CopyPublish p))) fullTopic o
  | p => ob_write io p fullTopic o
  end.
