(* ===== verification/OutboundProofs.v ===== *)
(** * What reaches the client

    The packets written are the packets asked for with at most optional properties
    dropped, never larger than the client's maximum; a PUBLISH that does not fit
    never costs the connection. *)

From S2P Require Import Prelude GoStrings Mqtt5 Wire WireParse WireProps WireCodec TopicAlias Inflight Downlink Outbound.

(** ** Optional properties *)

(** User properties, reason string, response information and a server reference the
    reason code does not ask for. *)
Definition optional (p : Packet) : list User * string * string * string :=
  let of_reason q := (rsp_User q, rsp_ReasonString q, "", "") in
  let none := ([], "", "", "") in
  match p with
  | PPuback a | PPubrec a | PPubrel a | PPubcomp a => from_option of_reason none (ack_Properties a)
  | PSuback a | PUnsuback a => from_option of_reason none (cdl_Properties a)
  | PAuth a => from_option (λ q, (aup_User q, aup_ReasonString q, "", "")) none (aut_Properties a)
  | PConnAck a =>
      from_option (λ q, (cap_User q, cap_ReasonString q, cap_ResponseInfo q,
        if connAckUsesServerReference (coa_ReasonCode a) then "" else cap_ServerReference q)) none (coa_Properties a)
  | PDisconnect a =>
      from_option (λ q, (dip_User q, dip_ReasonString q, "",
        if disconnectUsesServerReference (dis_ReasonCode a) then "" else dip_ServerReference q)) none (dis_Properties a)
  | _ => none
  end.

(** The packet without them. *)
Definition bare (p : Packet) : Packet :=
  let strip (props : option ReasonProperties) := (λ _, noReason) <$> props in
  match p with
  | PPuback a => PPuback (set_ack_props (strip (ack_Properties a)) a)
  | PPubrec a => PPubrec (set_ack_props (strip (ack_Properties a)) a)
  | PPubrel a => PPubrel (set_ack_props (strip (ack_Properties a)) a)
  | PPubcomp a => PPubcomp (set_ack_props (strip (ack_Properties a)) a)
  | PSuback a => PSuback (set_code_props (strip (cdl_Properties a)) a)
  | PUnsuback a => PUnsuback (set_code_props (strip (cdl_Properties a)) a)
  | PAuth a => PAuth (mkAuth ((λ q, mkAuthProperties (aup_AuthMethod q) (aup_AuthData q) "" []) <$> aut_Properties a) (aut_ReasonCode a))
  | PConnAck a =>
      PConnAck (mkConnAck ((λ q, connack_set "" (if connAckUsesServerReference (coa_ReasonCode a) then cap_ServerReference q else "") "" [] q) <$>
        coa_Properties a) (coa_ReasonCode a) (coa_SessionPresent a))
  | PDisconnect a =>
      PDisconnect (mkDisconnect ((λ q, mkDisconnectProperties (dip_SessionExpiryInterval q)
        (if disconnectUsesServerReference (dis_ReasonCode a) then dip_ServerReference q else "") "" []) <$> dis_Properties a) (dis_ReasonCode a))
  | p => p
  end.

(** [p'] is [p] with some optional properties dropped. *)
Definition slimmer (p' p : Packet) : Prop :=
  bare p' = bare p ∧
  let '(u, r, i, s) := optional p in let '(u', r', i', s') := optional p' in
  (u' = u ∨ u' = []) ∧ (r' = r ∨ r' = "") ∧ (i' = i ∨ i' = "") ∧ (s' = s ∨ s' = "").

#[export] Instance slimmer_preorder : PreOrder slimmer.
Proof.
  split.
  - intros p. split; [done|]. destruct (optional p) as [[[??]?]?]. by auto.
  - intros p q r [H1 H2] [H3 H4]. split; [congruence|].
    destruct (optional p) as [[[??]?]?], (optional q) as [[[??]?]?], (optional r) as [[[??]?]?].
    destruct_and!. split_and!; destruct_or!; subst; auto.
Qed.

Lemma bare_slimmer p : slimmer (bare p) p.
Proof.
  destruct p as [| [q ? ?]| |[q ? ?]|[q ? ?]|[q ? ?]|[q ? ?]| |[q ? ?]| |[q ? ?]| | |[q ?]|[q ?]]; try done; destruct q; cbn; split; try done; cbn;
    try (by auto 10); repeat case_match; by auto 10.
Qed.

(** ** Trimming *)

Lemma trim_cases {A} max (mk : A → Packet) present drop k x : (present = false → drop x = x) →
  fits max (trim max mk present drop k x) = true ∧ trim max mk present drop k x = mk (drop x) ∨
  trim max mk present drop k x = k (drop x).
Proof.
  intros Hd. unfold trim. destruct present; [|right; by rewrite Hd].
  destruct (fits max (mk (drop x))) eqn:E; auto.
Qed.

(** Trimming keeps the packet apart from optional properties, and stops short of dropping
    all of them only when the rest fits. *)
Definition trims (max : Z) (q q' : Packet) : Prop := slimmer q' q ∧ (fits max q' = true ∨ q' = bare q).

Lemma present_nil P `{Decision P} : negb (bool_decide P) = false → P.
Proof. rewrite negb_false_iff. apply bool_decide_eq_true. Qed.

Lemma reason_trim max mk props :
  (props = None ∧ trimReasonAndUserPropertiesToFit max mk props = mk None) ∨
  ∃ r, props = Some r ∧
    (fits max (mk (Some (reason_drop_user r))) = true ∧ trimReasonAndUserPropertiesToFit max mk props = mk (Some (reason_drop_user r)) ∨
     trimReasonAndUserPropertiesToFit max mk props = mk (Some noReason)).
Proof.
  destruct props as [r|]; [right|by left]. exists r. split; [done|]. unfold trimReasonAndUserPropertiesToFit.
  destruct (trim_cases max (λ q, mk (Some q)) (negb (bool_decide (rsp_User r = []))) reason_drop_user
    (λ q, mk (Some (reason_drop_reason q))) r) as [[Hf E]|E]; [|left; rewrite E in *; done|right; by rewrite E].
  intros H%present_nil. destruct r. cbn in *. by subst.
Qed.

Lemma slimmer_reason (mk : option ReasonProperties → Packet) props props' :
  (∀ x, bare (mk x) = mk ((λ _, noReason) <$> x) ∧
        optional (mk x) = from_option (λ q, (rsp_User q, rsp_ReasonString q, "", "")) ([], "", "", "") x) →
  (props = None ∧ props' = None ∨ ∃ r, props = Some r ∧ (props' = Some (reason_drop_user r) ∨ props' = Some noReason)) →
  slimmer (mk props') (mk props).
Proof.
  intros Hmk H. destruct (Hmk props) as [B O], (Hmk props') as [B' O']. unfold slimmer. rewrite B, B', O, O'.
  destruct H as [[-> ->]|(r & -> & [-> | ->])]; cbn; by auto 10.
Qed.

Lemma reason_trims max (mk : option ReasonProperties → Packet) props :
  (∀ x, bare (mk x) = mk ((λ _, noReason) <$> x) ∧
        optional (mk x) = from_option (λ q, (rsp_User q, rsp_ReasonString q, "", "")) ([], "", "", "") x) →
  trims max (mk props) (trimReasonAndUserPropertiesToFit max mk props).
Proof.
  intros Hmk. destruct (Hmk props) as [B _].
  destruct (reason_trim max mk props) as [[-> ->]|(r & -> & [[Hf ->]| ->])]; (split; [by apply slimmer_reason; eauto|]).
  - right. by rewrite B.
  - by left.
  - right. by rewrite B.
Qed.

Lemma trim_trims {A} max q (mk : A → Packet) present drop k x : (present = false → drop x = x) →
  slimmer (mk (drop x)) q → trims max q (k (drop x)) → trims max q (trim max mk present drop k x).
Proof.
  intros Hd Hs Hk. destruct (trim_cases max mk present drop k x Hd) as [[Hf E]|E]; [|by rewrite E].
  split; [by rewrite E|by left].
Qed.

Lemma bare_trims max q q' : q' = bare q → trims max q q'.
Proof. intros ->. split; [apply bare_slimmer|by right]. Qed.

(** A step of a chain of trims: what is dropped is absent if not present, and optional. *)
Ltac trim_step :=
  apply trim_trims;
  [let H := fresh in intros H; apply present_nil in H; cbn in H |- *; by rewrite ?H
  |split; cbn; repeat case_match; by auto 10|].

Lemma auth_trims max p : trims max (PAuth p) (trimAuthPropertiesToFit max p).
Proof.
  destruct p as [[[? ? ? ?]|] code]; unfold trimAuthPropertiesToFit; cbn [aut_Properties aut_ReasonCode]; [|by apply bare_trims].
  trim_step. by apply bare_trims.
Qed.

Lemma disconnect_trims max p : trims max (PDisconnect p) (trimDisconnectPropertiesToFit max p).
Proof.
  destruct p as [[[? ref ? ?]|] code]; unfold trimDisconnectPropertiesToFit; cbn [dis_Properties dis_ReasonCode]; [|by apply bare_trims].
  do 2 trim_step. apply bare_trims. cbn. destruct (disconnectUsesServerReference code); [by rewrite andb_false_r|].
  rewrite andb_true_r. case_bool_decide; by subst.
Qed.

Lemma connack_trims max p : trims max (PConnAck p) (trimConnAckPropertiesToFit max p).
Proof.
  destruct p as [[[]|] code sp]; unfold trimConnAckPropertiesToFit; cbn [coa_Properties coa_ReasonCode coa_SessionPresent]; [|by apply bare_trims].
  do 3 trim_step. apply bare_trims. cbn. destruct (connAckUsesServerReference code); [by rewrite andb_false_r|].
  rewrite andb_true_r. case_bool_decide; by subst.
Qed.

Lemma fits_trims max q : fits max q = true → trims max q q.
Proof. intros. split; [done|by left]. Qed.

Lemma trimOutbound_spec max q : let q' := trimOutboundOptionalProperties max q in
  slimmer q' q ∧ (max ≤ 0 ∨ fits max q = true → q' = q) ∧ (0 < max → fits max q' = true ∨ q' = bare q).
Proof.
  cbv zeta. unfold trimOutboundOptionalProperties. destruct (Z.leb_spec max 0) as [Hm|Hm]; cbn [orb].
  { split_and!; [done|done|lia]. }
  destruct (fits max q) eqn:Hf; [split_and!; [done|done|by left]|].
  match goal with |- slimmer ?q' _ ∧ _ => assert (trims max q q') as [H1 H2] end; [|split_and!; [done|by intros [?|?]; [lia|]|done]].
  destruct q as [|a| |a|a|a|a| |a| |a| | |a|a]; try (by apply bare_trims); [apply connack_trims| | | | | | |apply disconnect_trims|apply auth_trims];
    destruct a as [props x y].
  - apply (reason_trims max (λ z, PPuback (set_ack_props z (mkAck props x y))) props). by intros [].
  - apply (reason_trims max (λ z, PPubrec (set_ack_props z (mkAck props x y))) props). by intros [].
  - apply (reason_trims max (λ z, PPubrel (set_ack_props z (mkAck props x y))) props). by intros [].
  - apply (reason_trims max (λ z, PPubcomp (set_ack_props z (mkAck props x y))) props). by intros [].
  - apply (reason_trims max (λ z, PSuback (set_code_props z (mkCodeList props x y))) props). by intros [].
  - apply (reason_trims max (λ z, PUnsuback (set_code_props z (mkCodeList props x y))) props). by intros [].
Qed.

(** ** Writing *)

Lemma fits_length max p bs : fits max p = true → Encode 0 (Some (controlPacket p)) = Ok bs → Z.of_nat (length bs) ≤ max.
Proof.
  unfold fits, CheckPacketSizeWithMax, calculatePacketSize. intros Hf He. rewrite He in Hf. cbn in Hf.
  destruct (Z.ltb_spec max (Z.of_nat (length bs))); [done|lia].
Qed.

Lemma fits_check max p : fits max p = true ↔ CheckPacketSizeWithMax (Some (controlPacket p)) max = Ok tt.
Proof. unfold fits. destruct (CheckPacketSizeWithMax _ _) as [[]|]; split; congruence || done. Qed.

(** The packet a call of [write] is asked to send: as the plugins leave it, with the topic
    alias, and without problem information if the client does not want it. *)
Definition asked (io : OutboundIO) (p : Packet) (topic : string) (o : Outbound) : Packet :=
  applyProblemInfoPreference (ob_requestProblemInfo o) (prepareOutboundPacket (bi_hooks io) p topic o).2.

(** Everything but the aliases and the topics of identifiers. *)
Definition same_conn (o o' : Outbound) : Prop :=
  ob_clientMaximumPacketSize o' = ob_clientMaximumPacketSize o ∧ ob_requestProblemInfo o' = ob_requestProblemInfo o ∧
  ob_connAckAccepted o' = ob_connAckAccepted o ∧ ob_frames o' = ob_frames o ∧ ob_done o' = ob_done o ∧ ob_closed o' = ob_closed o.

Lemma prepare_same hooks p topic o : same_conn o (prepareOutboundPacket hooks p topic o).1 ∧
  PacketType (prepareOutboundPacket hooks p topic o).2 = PacketType p.
Proof.
  destruct p; try done. unfold prepareOutboundPacket, prepareOutboundPublish. destruct o as [a b c alias e f g h]. cbn.
  destruct alias as [m|]; [|done]. by destruct (ApplyDownlink m p).
Qed.

Lemma preference_type b p : PacketType (applyProblemInfoPreference b p) = PacketType p.
Proof. by destruct b, p. Qed.

Lemma trim_type max p : PacketType (trimOutboundOptionalProperties max p) = PacketType p.
Proof.
  destruct (trimOutbound_spec max p) as [[Hb _] _].
  assert (∀ p, PacketType (bare p) = PacketType p) as Ht by by intros [].
  by rewrite <-Ht, Hb, Ht.
Qed.

Lemma wire_Write_spec conn p o : let '(o', r) := wire_Write conn p o in
  ob_clientMaximumPacketSize o' = ob_clientMaximumPacketSize o ∧ ob_closed o' = ob_closed o ∧ ob_done o' = ob_done o ∧
  ∃ fs, ob_frames o' = ob_frames o ++ fs ∧
    (∀ max, fits max p = true → Forall (λ f, Z.of_nat (length f) ≤ max) fs) ∧
    match r with
    | Ok _ => ∃ f, fs = [f] ∧ Encode 0 (Some (controlPacket p)) = Ok f
    | Err EConnection | Err (EEncode _) => True
    | Err _ => False
    end.
Proof.
  unfold wire_Write. destruct (Encode 0 (Some (controlPacket p))) as [bs|e] eqn:He; [destruct conn as [n|]|].
  - destruct o. cbn. split_and!; try done. eexists. split; [done|]. split; [|done]. intros max Hf. apply Forall_singleton.
    pose proof (fits_length _ _ _ Hf He). rewrite length_take. lia.
  - destruct o. cbn. split_and!; try done. eexists. split; [done|]. split; [|eauto]. intros max Hf. apply Forall_singleton.
    by eapply fits_length.
  - split_and!; try done. exists []. by rewrite app_nil_r.
Qed.

Definition short (max : Z) (f : list byte) : Prop := max ≤ 0 ∨ Z.of_nat (length f) ≤ max.

Lemma close_oversized io err p max o : 0 < max →
  let o' := closeForOversizedOutboundPacket io err p max o in
  ob_closed o' = true ∧ ob_clientMaximumPacketSize o' = ob_clientMaximumPacketSize o ∧
  ∃ fs, ob_frames o' = ob_frames o ++ fs ∧ Forall (short max) fs.
Proof.
  intros Hm. cbv zeta. unfold closeForOversizedOutboundPacket.
  assert (∀ o, ob_closed (ob_close o) = true ∧ ob_clientMaximumPacketSize (ob_close o) = ob_clientMaximumPacketSize o ∧
    ob_frames (ob_close o) = ob_frames o) as Hc by by intros [].
  destruct (negb (ob_connAckAccepted o)).
  { destruct (Hc o) as (-> & -> & ->). split_and!; [done..|]. exists []. by rewrite app_nil_r. }
  match goal with |- context [fits max (if ?b then ?x else ?y)] => generalize (if b then x else y) as d end. intros d.
  destruct (fits max d) eqn:Hf; cbn [negb].
  - pose proof (wire_Write_spec (bi_disconnect io) d o) as H. destruct (wire_Write _ _ _) as [o1 r]. cbn [fst].
    destruct H as (H1 & _ & _ & fs & Hfs & Hs & _). destruct (Hc o1) as (-> & -> & ->). split_and!; [done..|]. exists fs. split; [done|].
    eapply Forall_impl; [by apply Hs|]. intros f ?. by right.
  - destruct (Hc o) as (-> & -> & ->). split_and!; [done..|]. exists []. by rewrite app_nil_r.
Qed.

Lemma markAccepted_same p o : ob_clientMaximumPacketSize (markAcceptedConnAck p o) = ob_clientMaximumPacketSize o ∧
  ob_frames (markAcceptedConnAck p o) = ob_frames o ∧ ob_done (markAcceptedConnAck p o) = ob_done o ∧
  ob_closed (markAcceptedConnAck p o) = ob_closed o.
Proof. destruct p as [|p| | | | | | | | | | | | |]; try done. cbn. destruct (mqtt5ReasonCodeIsError _), o; done. Qed.

(** The part of [write] after the checks. *)
Lemma send_spec io q o : let max := outboundMaxPacketSize o in max ≤ 0 ∨ fits max q = true →
  let '(o', r) := match wire_Write (bi_conn io) q o with
                  | (o, Err e) => (ob_cancel o, Err e)
                  | (o, Ok _) => (markAcceptedConnAck q o, Ok tt)
                  end in
  ob_clientMaximumPacketSize o' = ob_clientMaximumPacketSize o ∧
  ∃ fs, ob_frames o' = ob_frames o ++ fs ∧ Forall (short max) fs ∧ ob_closed o' = ob_closed o ∧
    match r with
    | Ok _ => ob_done o' = ob_done o ∧ ∃ f, fs = [f] ∧ Encode 0 (Some (controlPacket q)) = Ok f
    | Err EOversizedPublish | Err (ETooLarge _) => False
    | Err _ => ob_done o' = true
    end.
Proof.
  intros max Hm. pose proof (wire_Write_spec (bi_conn io) q o) as H. destruct (wire_Write _ _ _) as [o1 r].
  destruct H as (H1 & H2 & H3 & fs & Hfs & Hs & Hr).
  assert (Forall (short max) fs) as Hshort.
  { destruct Hm as [?|Hf]; [apply Forall_forall; by left|]. eapply Forall_impl; [by apply Hs|]. intros f ?. by right. }
  destruct r as [[]|e].
  - destruct (markAccepted_same q o1) as (-> & -> & -> & ->). split; [done|]. exists fs. by split_and!.
  - assert (ob_clientMaximumPacketSize (ob_cancel o1) = ob_clientMaximumPacketSize o1 ∧ ob_frames (ob_cancel o1) = ob_frames o1 ∧
      ob_closed (ob_cancel o1) = ob_closed o1 ∧ ob_done (ob_cancel o1) = true) as (-> & -> & -> & ->) by by destruct o1.
    split; [done|]. exists fs. split_and!; [done..|]. by destruct e.
Qed.

(** The outcome of writing: [p] is what the caller gave, [q] what is asked of the
    connection. *)
Definition wrote (max : Z) (p q : Packet) (o o' : Outbound) (r : result OutboundError unit) : Prop :=
  ob_clientMaximumPacketSize o' = ob_clientMaximumPacketSize o ∧
  ∃ fs, ob_frames o' = ob_frames o ++ fs ∧ Forall (short max) fs ∧
    match r with
    | Ok _ => ∃ q' f, fs = [f] ∧ Encode 0 (Some (controlPacket q')) = Ok f ∧ slimmer q' q ∧
        (max ≤ 0 ∨ fits max q = true → q' = q) ∧ ob_done o' = ob_done o ∧ ob_closed o' = ob_closed o
    | Err EOversizedPublish => fs = [] ∧ PacketType p = PUBLISH ∧ 0 < max ∧ fits max q = false ∧
        ob_done o' = ob_done o ∧ ob_closed o' = ob_closed o
    | Err (ETooLarge _) => PacketType p ≠ PUBLISH ∧ 0 < max ∧ fits max (bare q) = false ∧ ob_closed o' = true
    | Err _ => ob_done o' = true ∧ ob_closed o' = ob_closed o
    end.

Lemma wrote_fitting io p q o o1 : same_conn o o1 → let max := outboundMaxPacketSize o in
  let q' := trimOutboundOptionalProperties max q in max ≤ 0 ∨ fits max q' = true →
  let '(o', r) := match wire_Write (bi_conn io) q' o1 with
                  | (o, Err e) => (ob_cancel o, Err e)
                  | (o, Ok _) => (markAcceptedConnAck q' o, Ok tt)
                  end in
  wrote max p q o o' r.
Proof.
  intros (S1 & S2 & S3 & S4 & S5 & S6) max q' Hfit. pose proof (send_spec io q' o1) as H. cbv zeta in H.
  assert (outboundMaxPacketSize o1 = max) as Hmax by (unfold max, outboundMaxPacketSize; by rewrite S1). rewrite Hmax in H. specialize (H Hfit).
  destruct (trimOutbound_spec max q) as (T1 & T2 & _). fold q' in T1, T2. 
  match type of H with context [wire_Write ?c ?p ?o] => destruct (wire_Write c p o) as [o2 [[]|e2]] end.
  all: destruct H as (H1 & fs & H2 & H3 & H4 & H5); rewrite S1 in H1; rewrite S4 in H2; rewrite S6 in H4; (split; [done|]); exists fs; split_and!; try done.
  - destruct H5 as (H5 & f & -> & Hf). exists q', f. split_and!; try done. congruence.
  - by destruct e2.
Qed.

Lemma discard_same topic p o : same_conn o (discardOversizedOutboundPublish topic p o).
Proof. by destruct o. Qed.

Lemma same_conn_trans o1 o2 o3 : same_conn o1 o2 → same_conn o2 o3 → same_conn o1 o3.
Proof. unfold same_conn. intuition congruence. Qed.

Lemma asked_quiet io p topic o : ob_requestProblemInfo o = false → PacketType p ≠ CONNACK → PacketType p ≠ DISCONNECT →
  (optional (asked io p topic o)).1.1 = ([], "").
Proof.
  intros Hr. unfold asked. rewrite Hr. pose proof (prepare_same (bi_hooks io) p topic o) as [_ Ht].
  destruct (prepareOutboundPacket _ _ _ _) as [o1 q]. cbn [snd] in *. rewrite <-Ht. destruct q as [| [? ? ?]| |[[]]|[[]]|[[]]|[[]]| |[[]]| |[[]]| | |[? ?]|[[]]]; done.
Qed.

Lemma outbound_wrote io p topic o :
  wrote (outboundMaxPacketSize o) p (asked io p topic o) o (ob_write io p topic o).1 (ob_write io p topic o).2.
Proof.
  assert (let '(o', r) := ob_write io p topic o in wrote (outboundMaxPacketSize o) p (asked io p topic o) o o' r) as H;
    [|by destruct (ob_write io p topic o)].
  unfold ob_write, asked. pose proof (prepare_same (bi_hooks io) p topic o) as [Hsame Htype].
  destruct (prepareOutboundPacket (bi_hooks io) p topic o) as [o1 q0]. cbn [fst snd] in *. pose proof Hsame as (S1 & S2 & S3 & S4 & S5 & S6).
  rewrite <-S2. set (q := applyProblemInfoPreference _ q0).
  assert (outboundMaxPacketSize o1 = outboundMaxPacketSize o) as Hmax by (unfold outboundMaxPacketSize; by rewrite S1). rewrite Hmax.
  pose proof (wrote_fitting io p q o o1 Hsame) as Hfit. cbv zeta in Hfit. unfold enforceOutboundMaxPacketSize. rewrite Hmax.
  assert (PacketType (trimOutboundOptionalProperties (outboundMaxPacketSize o) q) = PacketType p) as Hqt.
  { rewrite trim_type. subst q. by rewrite preference_type. }
  pose proof (trimOutbound_spec (outboundMaxPacketSize o) q) as (_ & T2 & T3). cbv zeta in T2, T3.
  set (max := outboundMaxPacketSize o) in *. set (q' := trimOutboundOptionalProperties max q) in *.
  destruct (Z.leb_spec max 0) as [Hm|Hm]; [by apply Hfit; left|].
  destruct (CheckPacketSizeWithMax (Some (controlPacket q')) max) as [[]|err] eqn:Hc; [apply Hfit; right; by apply fits_check|].
  assert (fits max q' = false) as Hn by (unfold fits; by rewrite Hc). destruct (T3 Hm) as [?|Hbare]; [congruence|].
  assert (fits max q = false) as Hnq by (apply not_true_is_false; intros E; rewrite T2 in Hn by auto; congruence).
  assert (wrote max p q o (closeForOversizedOutboundPacket io err q' max o1) (Err (ETooLarge err)) ∨ PacketType p = PUBLISH) as Hclose.
  { destruct (decide (PacketType p = PUBLISH)) as [|Hne]; [by right|left].
    destruct (close_oversized io err q' max o1 Hm) as (C1 & C2 & fs & C3 & C4). split; [congruence|]. exists fs.
    rewrite <-Hbare. split_and!; try done. congruence. }
  destruct q' as [| |p'| | | | | | | | | | | |] eqn:Eq; try (destruct Hclose as [H|H]; [exact H|rewrite H in Hqt; discriminate Hqt]).
  pose proof (same_conn_trans _ _ _ Hsame (discard_same topic p' o1)) as (D1 & _ & _ & D4 & D5 & D6).
  split; [done|]. exists []. rewrite app_nil_r. by split_and!.
Qed.

(** One packet.  What [write] sends is the packet asked for (as the plugins leave it,
    with its topic alias, without problem information for a client that does not want
    it) with at most optional properties dropped: user properties, reason string,
    response information, an unneeded server reference; and unchanged if it fits the
    client's Maximum Packet Size.  A PUBLISH that does not fit is discarded and the
    connection untouched.  Any other packet ends the connection only if it does
    not fit even without its optional properties.  Nothing longer than the maximum is
    written in any case.  A client that does not want problem information gets no
    reason string and no user properties, except in CONNACK and DISCONNECT (and the
    user properties of a PUBLISH). *)
Theorem outbound_packet io p topic o :
  (let '(o', r) := ob_write io p topic o in wrote (outboundMaxPacketSize o) p (asked io p topic o) o o' r) ∧
  (ob_requestProblemInfo o = false → PacketType p ≠ CONNACK → PacketType p ≠ DISCONNECT → (optional (asked io p topic o)).1.1 = ([], "")).
Proof.
  split; [|apply asked_quiet]. pose proof (outbound_wrote io p topic o). by destruct (ob_write io p topic o).
Qed.

(** ** Many packets *)

(** A write, or a repeated one. *)
Definition ob_step (o : Outbound) (x : bool * OutboundIO * Packet * string) : Outbound :=
  let '(retry, io, p, topic) := x in (if retry then RetryWrite io p topic o else ob_write io p topic o).1.
Definition ob_run (ws : list (bool * OutboundIO * Packet * string)) (o : Outbound) : Outbound := foldl ob_step o ws.

Lemma ob_step_write o x : let '(retry, io, p, topic) := x in ∃ p', ob_step o x = (ob_write io p' topic o).1 ∧ PacketType p' = PacketType p.
Proof.
  destruct x as [[[retry io] p] topic]. unfold ob_step, RetryWrite. destruct retry; [|by eauto].
  destruct p; eauto.
Qed.

Lemma ob_step_keeps o x max : outboundMaxPacketSize o = max → 0 < max →
  outboundMaxPacketSize (ob_step o x) = max ∧
  (Forall (λ f, Z.of_nat (length f) ≤ max) (ob_frames o) → Forall (λ f, Z.of_nat (length f) ≤ max) (ob_frames (ob_step o x))) ∧
  (PacketType x.1.2 = PUBLISH → ob_closed (ob_step o x) = ob_closed o).
Proof.
  intros Hm Hpos. pose proof (ob_step_write o x) as H. destruct x as [[[retry io] p] topic]. destruct H as (p' & -> & Ht).
  destruct (outbound_wrote io p' topic o) as (H1 & fs & H2 & H3 & H4). rewrite Hm in H3.
  destruct (ob_write io p' topic o) as [o' r]. cbn [fst snd] in *. split_and!.
  - unfold outboundMaxPacketSize in *. by rewrite H1.
  - intros Hf. rewrite H2. apply Forall_app. split; [done|]. eapply Forall_impl; [done|]. intros f [?|?]; [lia|done].
  - intros E. destruct r as [[]|[]]; [by destruct H4 as (? & ? & ? & ? & ? & ? & ? & ?)|by destruct H4 as (? & ? & ? & ? & ? & ?)| |by destruct H4..].
    destruct H4 as (H4 & _). congruence.
Qed.

(** C33. The client's Maximum Packet Size is kept over the whole connection: of every
    sequence of packets and retries, with plugins that change packets and writes that
    break off, no frame is longer than the maximum; and as long as only PUBLISH packets
    are written, the server does not close the connection, however large they are. *)
Theorem maximum_packet_size_kept ws o max :
  outboundMaxPacketSize o = max → 0 < max → Forall (λ f, Z.of_nat (length f) ≤ max) (ob_frames o) →
  Forall (λ f, Z.of_nat (length f) ≤ max) (ob_frames (ob_run ws o)) ∧
  (Forall (λ x, PacketType x.1.2 = PUBLISH) ws → ob_closed (ob_run ws o) = ob_closed o).
Proof.
  intros Hm Hpos. unfold ob_run. revert o Hm. induction ws as [|x ws IH]; intros o Hm Hf; [done|]. cbn [foldl].
  destruct (ob_step_keeps o x max Hm Hpos) as (H1 & H2 & H3). destruct (IH _ H1 (H2 Hf)) as [I1 I2]. split; [done|].
  intros [Hx Hws]%Forall_cons. by rewrite I2, H3.
Qed.

(** ** Instances *)

Definition example_hooks : Hooks := mkHooks id id id id id id id id.
Definition example_out : Outbound := mkOutbound (Some 20) true true None ∅ [] false false.
(** Too large as they are: an acknowledgement with a reason string, and a PUBLISH. *)
Definition example_puback : Packet := PPuback (mkAck (Some (mkReasonProperties "a reason that is too long" [])) 7 0x87).
Definition example_large : Packet := PPublish (mkPublish (go_bytes "a payload that is too long") "a" None 0 0 false false).
Definition example_writes : list (bool * OutboundIO * Packet * string) :=
  [(false, mkOutboundIO example_hooks None None, example_puback, ""); (false, mkOutboundIO example_hooks None None, example_large, "a")].

(** The acknowledgement went out without its reason, the PUBLISH not at all. *)
Example example_frames : ob_frames (ob_run example_writes example_out) = [z2b <$> [0x40; 3; 0; 7; 0x87]].
Proof. vm_compute. reflexivity. Qed.

Lemma maximum_packet_size_kept_witness :
  Forall (λ f, Z.of_nat (length f) ≤ 20) (ob_frames (ob_run example_writes example_out)) ∧
  ob_closed (ob_run [(true, mkOutboundIO example_hooks None None, example_large, "a")] example_out) = false.
Proof.
  split.
  - apply (maximum_packet_size_kept example_writes example_out 20); [reflexivity|lia|constructor].
  - apply (maximum_packet_size_kept [(true, mkOutboundIO example_hooks None None, example_large, "a")] example_out 20);
      [reflexivity|lia|constructor|by constructor].
Defined.
