(* ===== verification/Acl.v ===== *)
(** * Access control ([src/internal/broker/acl], [src/internal/broker/plugin/acl.go])

    Rules that allow or deny topics to an identity, their evaluation for PUBLISH and
    SUBSCRIBE, the manager that keeps a ruleset in the key-value store and the current
    evaluator in memory, and the plugin that the broker asks.

    Not under the sources, hence a parameter: the YAML encoding (class [YamlCodec]).  What
    the world answers to one call (whether the file exists when the call starts, the file as
    [loadRules] sees it, the failures of the store) is the record [AclIO].  The manager of a
    plugin is never nil.  A key of the store is the string of its bytes. *)

From S2P Require Import Prelude GoStrings Mqtt5 Topic.

(** ** [model.go] *)

Inductive Action := ActionPublish | ActionSubscribe.
#[export] Instance Action_eq_dec : EqDecision Action.
Proof. solve_decision. Defined.

Record Identity := mkIdentity { id_Username : string; id_ClientID : string }.
Record RuleEntry := mkRuleEntry { re_Pub : list string; re_Sub : list string }.
Record Rule := mkRule { ru_Identity : Identity; ru_Allow : RuleEntry; ru_Deny : RuleEntry }.
Record Ruleset := mkRuleset { rs_DefaultDeny : bool; rs_Rules : list Rule }.
#[export] Instance Identity_eq_dec : EqDecision Identity.
Proof. solve_decision. Defined.
#[export] Instance RuleEntry_eq_dec : EqDecision RuleEntry.
Proof. solve_decision. Defined.
#[export] Instance Rule_eq_dec : EqDecision Rule.
Proof. solve_decision. Defined.
#[export] Instance Ruleset_eq_dec : EqDecision Ruleset.
Proof. solve_decision. Defined.

(** ** [match.go] *)

(** The loop from index [i] on; [rest] are the filter levels from there. *)
Fixpoint matchLevelsFrom (filterLevels topicLevels : list string) (i : nat) (rest : list string) : bool :=
  match rest with
  | [] => bool_decide (length topicLevels = length filterLevels)
  | f :: rest =>
      if bool_decide (f = "#") then true
      else match topicLevels !! i with
           | None => false
           | Some t =>
               if bool_decide (f = "+") then matchLevelsFrom filterLevels topicLevels (S i) rest
               else if negb (bool_decide (f = t)) then false
               else matchLevelsFrom filterLevels topicLevels (S i) rest
           end
  end.

Definition matchLevels (filterLevels topicLevels : list string) : bool :=
  matchLevelsFrom filterLevels topicLevels 0 filterLevels.

Definition MatchTopic (filter topic : string) : bool :=
  if bool_decide (filter = "") || bool_decide (topic = "") then false
  else if HasWildcard topic then false
  else matchLevels (SplitTopicLevels filter) (SplitTopicLevels topic).

(** Both indices advance together, so the loop consumes the two lists. *)
Fixpoint supersetLevels (ruleLevels reqLevels : list string) : bool :=
  match ruleLevels with
  | [] => bool_decide (reqLevels = [])
  | r :: ruleLevels =>
      if bool_decide (r = "#") then true
      else match reqLevels with
           | [] => false
           | q :: reqLevels =>
               if bool_decide (q = "#") then false
               else if bool_decide (q = "+") then
                 if negb (bool_decide (r = "+")) then false else supersetLevels ruleLevels reqLevels
               else if negb (bool_decide (r = "+")) && negb (bool_decide (r = q)) then false
               else supersetLevels ruleLevels reqLevels
           end
  end.

Definition FilterSuperset (ruleFilter reqFilter : string) : bool :=
  if bool_decide (ruleFilter = "") || bool_decide (reqFilter = "") then false
  else if bool_decide (ruleFilter = "#") then true
  else if bool_decide (reqFilter = "#") then
    bool_decide (ruleFilter = "#") || bool_decide (ruleFilter = "+/#")
  else supersetLevels (SplitTopicLevels ruleFilter) (SplitTopicLevels reqFilter).

(** ** [policy.go] *)

Definition identityMatch (id : Identity) (username clientID : string) : bool :=
  if negb (bool_decide (id_Username id = "")) && negb (bool_decide (id_Username id = username)) then false
  else if negb (bool_decide (id_ClientID id = "")) && negb (bool_decide (id_ClientID id = clientID)) then false
  else negb (bool_decide (id_Username id = "")) || negb (bool_decide (id_ClientID id = "")).

Definition anyMatchTopic (filters : list string) (topic : string) : bool :=
  existsb (λ f, MatchTopic f topic) filters.
Definition anySuperset (ruleFilters : list string) (reqFilter : string) : bool :=
  existsb (λ rf, FilterSuperset rf reqFilter) ruleFilters.

(** One of the two loops of [eval]: does a rule of this identity have an entry that fits? *)
Definition anyRule (entry : Rule → RuleEntry) (rules : list Rule) (username clientID : string) (action : Action) (subject : string) : bool :=
  existsb (λ r, identityMatch (ru_Identity r) username clientID &&
    match action with
    | ActionPublish => anyMatchTopic (re_Pub (entry r)) subject
    | ActionSubscribe => anySuperset (re_Sub (entry r)) subject
    end) rules.

Definition acl_eval (e : Ruleset) (username clientID : string) (action : Action) (subject : string) : bool :=
  if anyRule ru_Deny (rs_Rules e) username clientID action subject then false
  else if anyRule ru_Allow (rs_Rules e) username clientID action subject then true
  else negb (rs_DefaultDeny e).

Definition AllowPublish (e : Ruleset) (username clientID topic : string) : result string bool :=
  if bool_decide (topic = "") then Err "empty topic"
  else Ok (acl_eval e username clientID ActionPublish topic).

Definition AllowSubscribe (e : Ruleset) (username clientID topicFilter : string) : result string bool :=
  if bool_decide (topicFilter = "") then Err "empty topic filter"
  else Ok (acl_eval e username clientID ActionSubscribe topicFilter).

(** ** [manager.go], [source_file.go] *)

Definition ErrFileModeActive : string := "acl file mode is active".
Definition ErrRulesetNotFound : string := "acl ruleset not found".
Definition ErrInvalidIdentity : string := "invalid identity: username and client_id are both empty".

(** [yaml.Marshal] and [yaml.Unmarshal] of a ruleset. *)
Class YamlCodec := {
  yaml_Marshal : Ruleset → result string (list byte);
  yaml_Unmarshal : list byte → result string Ruleset }.
Class YamlCodecLaws `{!YamlCodec} := {
  yaml_roundtrip : ∀ rs b, yaml_Marshal rs = Ok b → yaml_Unmarshal b = Ok rs;
  yaml_nonempty : ∀ rs, yaml_Marshal rs ≠ Ok [] }.

Record AclIO := mkAclIO {
  (** Whether [filePath] exists when the operation starts. *)
  io_stat : bool;
  (** The file when [loadRules] looks: absent, unreadable, or its bytes. *)
  io_file : option (result string (list byte));
  io_readFail : option string;
  io_putFail : option string;
  io_delFail : option string }.

(** [mg_store] is [None] for a nil store; [mg_eval] is the current evaluator. *)
Record Manager := mkManager {
  mg_store : option (gmap string (list byte));
  mg_key : string;
  mg_filePath : string;
  mg_defaultDeny : bool;
  mg_eval : option Ruleset }.

Definition NewManager (store : option (gmap string (list byte))) (key filePath : string) (defaultDeny : bool) : Manager :=
  mkManager store key filePath defaultDeny None.

Definition setCurrent (ev : option Ruleset) (m : Manager) : Manager :=
  mkManager (mg_store m) (mg_key m) (mg_filePath m) (mg_defaultDeny m) ev.
Definition with_store (s : gmap string (list byte)) (m : Manager) : Manager :=
  mkManager (Some s) (mg_key m) (mg_filePath m) (mg_defaultDeny m) (mg_eval m).

Definition FileModeActive (m : Manager) (exists_ : bool) : bool :=
  negb (bool_decide (mg_filePath m = "")) && exists_.

Definition applyDefaultDeny (m : Manager) (rs : Ruleset) : Ruleset :=
  if negb (rs_DefaultDeny rs) && mg_defaultDeny m then mkRuleset true (rs_Rules rs) else rs.

Definition validateIdentity (id : Identity) : result string unit :=
  if bool_decide (id_Username id = "") && bool_decide (id_ClientID id = "") then Err ErrInvalidIdentity else Ok tt.
Fixpoint validateRules (rules : list Rule) : result string unit :=
  match rules with
  | [] => Ok tt
  | r :: rules => match validateIdentity (ru_Identity r) with Err e => Err e | Ok _ => validateRules rules end
  end.
Definition validateRuleset (rs : Ruleset) : result string unit := validateRules (rs_Rules rs).
Definition sameIdentity (a b : Identity) : bool :=
  bool_decide (id_Username a = id_Username b) && bool_decide (id_ClientID a = id_ClientID b).

Section manager.
Context {Hyaml : YamlCodec}.

(** [FileSource.Load]: the path is not empty when the manager calls it. *)
Definition FileSource_Load (contents : result string (list byte)) : result string Ruleset :=
  match contents with Err e => Err e | Ok b => yaml_Unmarshal b end.

(** [None] is not found. *)
Definition loadRules (io : AclIO) (m : Manager) : result string (option Ruleset) :=
  match FileModeActive m (bool_decide (io_file io ≠ None)), io_file io with
  | true, Some contents => match FileSource_Load contents with Err e => Err e | Ok rs => Ok (Some rs) end
  | _, _ =>
      match mg_store m with
      | None => Err "keystore is nil"
      | Some s =>
          if bool_decide (mg_key m = "") then Err "acl keystore key is empty"
          else match io_readFail io with
               | Some e => Err e
               | None =>
                   match s !! mg_key m with
                   | None | Some [] => Ok None
                   | Some b => match yaml_Unmarshal b with Err e => Err e | Ok rs => Ok (Some rs) end
                   end
               end
      end
  end.

Definition loadRulesStrict (io : AclIO) (m : Manager) : result string Ruleset :=
  match loadRules io m with
  | Err e => Err e
  | Ok None => Err ErrRulesetNotFound
  | Ok (Some rs) => Ok rs
  end.

Definition Reload (io : AclIO) (m : Manager) : Manager * result string unit :=
  match loadRulesStrict io m with
  | Err e => (m, Err e)
  | Ok rs => (setCurrent (Some (applyDefaultDeny m rs)) m, Ok tt)
  end.

Definition EnsureLoaded (io : AclIO) (m : Manager) : Manager * result string unit :=
  match mg_eval m with Some _ => (m, Ok tt) | None => Reload io m end.

Definition GetRuleset (io : AclIO) (m : Manager) : result string (option Ruleset) :=
  match loadRules io m with
  | Err e => Err e
  | Ok None => Ok None
  | Ok (Some rs) => Ok (Some (applyDefaultDeny m rs))
  end.

Definition putRulesetLocked (io : AclIO) (rs : Ruleset) (m : Manager) : Manager * result string unit :=
  match mg_store m with
  | None => (m, Err "keystore is nil")
  | Some s =>
      if bool_decide (mg_key m = "") then (m, Err "acl keystore key is empty")
      else match yaml_Marshal rs with
           | Err e => (m, Err e)
           | Ok b => match io_putFail io with
                     | Some e => (m, Err e)
                     | None => (with_store (<[mg_key m := b]> s) m, Ok tt)
                     end
           end
  end.

(** Store the ruleset and, when that worked, evaluate with it. *)
Definition putAndSet (io : AclIO) (rs : Ruleset) (m : Manager) : Manager * result string unit :=
  let '(m, res) := putRulesetLocked io rs m in
  match res with Err e => (m, Err e) | Ok _ => (setCurrent (Some rs) m, Ok tt) end.

Definition PutRuleset (io : AclIO) (rs : Ruleset) (m : Manager) : Manager * result string unit :=
  if FileModeActive m (io_stat io) then (m, Err ErrFileModeActive)
  else match validateRuleset rs with
       | Err e => (m, Err e)
       | Ok _ => putAndSet io (applyDefaultDeny m rs) m
       end.

Definition DeleteRuleset (io : AclIO) (m : Manager) : Manager * result string unit :=
  if FileModeActive m (io_stat io) then (m, Err ErrFileModeActive)
  else match mg_store m with
       | None => (m, Err "keystore is nil")
       | Some s =>
           if bool_decide (mg_key m = "") then (m, Err "acl keystore key is empty")
           else match io_delFail io with
                | Some e => (m, Err e)
                | None => (setCurrent None (with_store (delete (mg_key m) s) m), Ok tt)
                end
       end.

Definition findRule (id : Identity) (rules : list Rule) : option Rule :=
  find (λ r, sameIdentity (ru_Identity r) id) rules.

Definition GetRule (io : AclIO) (id : Identity) (m : Manager) : result string (option Rule) :=
  match validateIdentity id with
  | Err e => Err e
  | Ok _ => match loadRules io m with
            | Err e => Err e
            | Ok None => Ok None
            | Ok (Some rs) => Ok (findRule id (rs_Rules rs))
            end
  end.

(** The loop of [UpsertRule]: the first rule of the identity is replaced, otherwise the
    rule is appended. *)
Fixpoint upsert (rule : Rule) (rules : list Rule) : list Rule :=
  match rules with
  | [] => [rule]
  | r :: rules =>
      if sameIdentity (ru_Identity r) (ru_Identity rule) then rule :: rules else r :: upsert rule rules
  end.

Definition UpsertRule (io : AclIO) (rule : Rule) (m : Manager) : Manager * result string unit :=
  if FileModeActive m (io_stat io) then (m, Err ErrFileModeActive)
  else match validateIdentity (ru_Identity rule) with
       | Err e => (m, Err e)
       | Ok _ =>
           match loadRules io m with
           | Err e => (m, Err e)
           | Ok found =>
               let rs := applyDefaultDeny m (default (mkRuleset (mg_defaultDeny m) []) found) in
               putAndSet io (mkRuleset (rs_DefaultDeny rs) (upsert rule (rs_Rules rs))) m
           end
       end.

Definition DeleteRule (io : AclIO) (id : Identity) (m : Manager) : Manager * result string bool :=
  if FileModeActive m (io_stat io) then (m, Err ErrFileModeActive)
  else match validateIdentity id with
       | Err e => (m, Err e)
       | Ok _ =>
           match loadRules io m with
           | Err e => (m, Err e)
           | Ok None => (m, Ok false)
           | Ok (Some rs) =>
               let out := List.filter (λ r, negb (sameIdentity (ru_Identity r) id)) (rs_Rules rs) in
               let removed := existsb (λ r, sameIdentity (ru_Identity r) id) (rs_Rules rs) in
               if negb removed then (m, Ok false)
               else let '(m, res) := putAndSet io (applyDefaultDeny m (mkRuleset (rs_DefaultDeny rs) out)) m in
                    match res with Err e => (m, Err e) | Ok _ => (m, Ok true) end
           end
       end.

(** ** [source.go], [source_keystore.go], [loader.go] *)

(** What [Load] of a source answers; [Ok None] is a nil ruleset without error. *)
Definition Source : Type := result string (option Ruleset).

Definition KeyStoreSource_Load (store : option (gmap string (list byte))) (key : string) (readFail : option string) : Source :=
  match store with
  | None => Err "keystore is nil"
  | Some s =>
      if bool_decide (key = "") then Err "acl keystore key is empty"
      else match readFail with
           | Some e => Err e
           | None => match s !! key with
                     | None | Some [] => Err "acl rules not found in keystore"
                     | Some b => match yaml_Unmarshal b with Err e => Err e | Ok rs => Ok (Some rs) end
                     end
           end
  end.

(** A loader; [ld_fileSrc] replaces the file when it is set. *)
Record Loader := mkLoader {
  ld_filePath : string;
  ld_fileSrc : option Source;
  ld_fallback : option Source;
  ld_defaultDeny : bool;
  ld_eval : option Ruleset }.

Definition loaderDeny (l : Loader) (rs : option Ruleset) : option Ruleset :=
  match rs with
  | None => None
  | Some rs => Some (if negb (rs_DefaultDeny rs) && ld_defaultDeny l then mkRuleset true (rs_Rules rs) else rs)
  end.

Definition loader_loadRules (file : option (result string (list byte))) (l : Loader) : result string (option Ruleset) :=
  match negb (bool_decide (ld_filePath l = "")), file with
  | true, Some contents =>
      match default (match FileSource_Load contents with Err e => Err e | Ok rs => Ok (Some rs) end) (ld_fileSrc l) with
      | Err e => Err (String.append "load acl from file failed: " e)
      | Ok rs => Ok (loaderDeny l rs)
      end
  | _, _ =>
      match ld_fallback l with
      | None => Err "no acl source available"
      | Some (Err e) => Err (String.append "load acl from keystore failed: " e)
      | Some (Ok rs) => Ok (loaderDeny l rs)
      end
  end.

(** [LoadOnce]; [None] is the panic of dereferencing a nil ruleset. *)
Definition LoadOnce (file : option (result string (list byte))) (l : Loader) : option (Loader * result string Ruleset) :=
  match loader_loadRules file l with
  | Err e => Some (l, Err e)
  | Ok None => None
  | Ok (Some rs) => Some (mkLoader (ld_filePath l) (ld_fileSrc l) (ld_fallback l) (ld_defaultDeny l) (Some rs), Ok rs)
  end.

(** ** [plugin/acl.go] *)

Record ACLPlugin := mkACLPlugin {
  ap_manager : Manager;
  ap_usernameByClient : gmap string string }.

Definition with_manager (m : Manager) (p : ACLPlugin) : ACLPlugin := mkACLPlugin m (ap_usernameByClient p).

Definition acl_username (p : ACLPlugin) (clientID : string) : string :=
  if bool_decide (clientID = "") then "" else default "" (ap_usernameByClient p !! clientID).

Definition acl_OnReceivedConnect (io : AclIO) (clientID : string) (connect : Connect) (p : ACLPlugin) : ACLPlugin * result string unit :=
  if bool_decide (clientID = "") then (p, Ok tt)
  else
    let username := if con_UsernameFlag connect && negb (bool_decide (con_Username connect = ""))
                    then con_Username connect else "" in
    let p := mkACLPlugin (ap_manager p) (<[clientID := username]> (ap_usernameByClient p)) in
    let '(m, res) := EnsureLoaded io (ap_manager p) in (with_manager m p, res).

Definition acl_evaluator (io : AclIO) (p : ACLPlugin) : ACLPlugin * result string Ruleset :=
  let '(m, res) := EnsureLoaded io (ap_manager p) in
  (with_manager m p,
   match res with
   | Err e => Err e
   | Ok _ => match mg_eval m with None => Err "acl evaluator is nil" | Some ev => Ok ev end
   end).

(** The filter that is authorised: the inner one of a shared subscription. *)
Definition acl_subject (topicFilter : string) : string :=
  let actual := (ParseShareTopic topicFilter).2 in
  if bool_decide (actual = "") then topicFilter else actual.

(** The loop over the subscriptions of a SUBSCRIBE. *)
Fixpoint subscribeAllowed (ev : Ruleset) (username clientID : string) (subs : list SubOptions) : result string unit :=
  match subs with
  | [] => Ok tt
  | s :: subs =>
      if bool_decide (sub_Topic s = "") then subscribeAllowed ev username clientID subs
      else match AllowSubscribe ev username clientID (acl_subject (sub_Topic s)) with
           | Ok true => subscribeAllowed ev username clientID subs
           | _ => Err (String.append "acl denied subscribe: client=" (String.append clientID (String.append " topic_filter=" (sub_Topic s))))
           end
  end.

Definition acl_OnSubscribe (io : AclIO) (clientID : string) (subscribe : Subscribe) (p : ACLPlugin) : ACLPlugin * result string unit :=
  let '(p, res) := acl_evaluator io p in
  (p, match res with
      | Err e => Err e
      | Ok ev => subscribeAllowed ev (acl_username p clientID) clientID (sbs_Subscriptions subscribe)
      end).

Definition acl_OnReceivedPublish (io : AclIO) (clientID : string) (publish : Publish) (p : ACLPlugin) : ACLPlugin * result string unit :=
  let '(p, res) := acl_evaluator io p in
  (p, match res with
      | Err e => Err e
      | Ok ev => match AllowPublish ev (acl_username p clientID) clientID (pub_Topic publish) with
                 | Ok true => Ok tt
                 | _ => Err (String.append "acl denied publish: client=" (String.append clientID (String.append " topic=" (pub_Topic publish))))
                 end
      end).

End manager.

#[global] Arguments acl_eval : simpl never.
