(* ===== verification/AclProofs.v ===== *)
(** * Properties of access control

    - [FilterSuperset] decides inclusion of the topics two filters match;
    - what the plugin lets through is covered by an allow rule of the client, for every
      topic the subscription center would deliver;
    - a deny rule does not protect against a broader subscription;
    - the manager serves the ruleset it stores, an abstract table of rules, or that of the
      rules file while it is there. *)

From S2P Require Import Prelude GoStrings Mqtt5 Topic SubCore SubCoreProofs Acl.

(** ** Matching on levels *)

Fixpoint amatch (fs ts : list string) : bool :=
  match fs with
  | [] => bool_decide (ts = [])
  | f :: fs =>
      if bool_decide (f = "#") then true
      else match ts with
           | [] => false
           | t :: ts => (bool_decide (f = "+") || bool_decide (f = t)) && amatch fs ts
           end
  end.

Lemma matchLevelsFrom_amatch rest fp tp ts :
  length fp = length tp → matchLevelsFrom (fp ++ rest) (tp ++ ts) (length tp) rest = amatch rest ts.
Proof.
  revert fp tp ts. induction rest as [|f rest IH]; intros fp tp ts Hl; cbn.
  - apply bool_decide_ext. rewrite !length_app, Hl. destruct ts; cbn; split; try done; lia.
  - case_bool_decide; [done|]. rewrite lookup_app_r, Nat.sub_diag by lia.
    destruct ts as [|t ts]; [done|]. cbn.
    assert (matchLevelsFrom (fp ++ f :: rest) (tp ++ t :: ts) (S (length tp)) rest = amatch rest ts) as Hs.
    { rewrite (cons_middle f), (cons_middle t), !app_assoc.
      replace (S (length tp)) with (length (tp ++ [t])) by (rewrite length_app; cbn; lia).
      apply IH. rewrite !length_app. cbn. lia. }
    case_bool_decide; [done|]. cbn. by case_bool_decide.
Qed.

Lemma matchLevels_amatch fs ts : matchLevels fs ts = amatch fs ts.
Proof. exact (matchLevelsFrom_amatch fs [] [] ts eq_refl). Qed.

Lemma MatchTopic_amatch f t : MatchTopic f t = true ↔
  f ≠ "" ∧ t ≠ "" ∧ HasWildcard t = false ∧ amatch (SplitTopicLevels f) (SplitTopicLevels t) = true.
Proof.
  unfold MatchTopic. rewrite matchLevels_amatch.
  case_bool_decide; [naive_solver|]. case_bool_decide; [naive_solver|]. cbn.
  destruct (HasWildcard t); naive_solver.
Qed.

(** On well-formed filters it is the matching relation of the specification. *)
Lemma amatch_levels fs ts : levels_match fs ts → amatch fs ts = true.
Proof.
  induction 1 as [|ts|fs t ts _ IH|l fs ts H1 H2 _ IH]; cbn; try done.
  rewrite bool_decide_false by done. rewrite (bool_decide_true (l = l)) by done.
  by rewrite orb_true_r.
Qed.

Lemma supersetLevels_sound r q t :
  supersetLevels r q = true → amatch q t = true → amatch r t = true.
Proof.
  revert q t. induction r as [|r0 r IH]; intros q t; cbn.
  { intros ->%bool_decide_eq_true. done. }
  case_bool_decide; [done|]. destruct q as [|q0 q]; [done|]. cbn.
  case_bool_decide; [done|]. destruct t as [|t0 t].
  { by destruct (bool_decide (q0 = "+")), (bool_decide (r0 = "+")). }
  case_bool_decide.
  - case_bool_decide; [|done]. cbn. apply IH.
  - case_bool_decide; cbn.
    + intros Hs [_ Hq]%andb_true_iff. eauto.
    + case_bool_decide; [|done]. subst. cbn. intros Hs [Hq0 Hq]%andb_true_iff.
      rewrite Hq0. cbn. eauto.
Qed.

Lemma SplitTopicLevels_hash : SplitTopicLevels "#" = ["#"].
Proof. reflexivity. Qed.
Lemma SplitTopicLevels_plus_hash : SplitTopicLevels "+/#" = ["+"; "#"].
Proof. reflexivity. Qed.

(** Every filter, well formed or not: what the request matches, the rule matches. *)
Lemma FilterSuperset_sound rule req topic :
  FilterSuperset rule req = true → MatchTopic req topic = true → MatchTopic rule topic = true.
Proof.
  rewrite !MatchTopic_amatch. unfold FilterSuperset.
  case_bool_decide; [done|]. case_bool_decide as Hq; [done|]. cbn.
  intros Hs (_ & Ht & Hw & Hm). split_and!; [done..|]. revert Hs.
  case_bool_decide; [by subst|]. case_bool_decide.
  - subst. cbn. intros ->%bool_decide_eq_true. rewrite SplitTopicLevels_plus_hash.
    pose proof (SplitTopicLevels_nonempty topic Ht). by destruct (SplitTopicLevels topic).
  - intros Hs. by eapply supersetLevels_sound.
Qed.

(** ** Completeness on well-formed filters *)

Definition good_level (l : string) : Prop := literal_level l ∧ contains_byte slash l = false.

(** A topic the filter matches. *)
Fixpoint instance (q : list string) : list string :=
  match q with
  | [] => []
  | l :: q =>
      if bool_decide (l = "#") then [] else (if bool_decide (l = "+") then "x" else l) :: instance q
  end.

Lemma good_x : good_level "x".
Proof. done. Qed.

(** The levels of a well-formed filter, or of none. *)
Definition wf_levels (q : list string) : Prop :=
  (q = [] ∨ filter_levels q) ∧ Forall (λ l, contains_byte slash l = false) q.

Lemma wf_levels_tail l q : l ≠ "#" → wf_levels (l :: q) → wf_levels q ∧ plain_level l.
Proof.
  intros Hl [[?|Hf] Hs]; [done|]. inversion Hs; subst.
  inversion Hf; subst; try done; split; try done; split; auto.
Qed.

Lemma wf_levels_hash q : wf_levels ("#" :: q) → q = [].
Proof.
  intros [[?|Hf] _]; [done|]. inversion Hf; subst; try done. by destruct hash_not_plain.
Qed.

Lemma good_literal l q : l ≠ "#" → l ≠ "+" → wf_levels (l :: q) → good_level l.
Proof.
  intros Hh Hp Hw. destruct (wf_levels_tail l q Hh Hw) as [_ [Hl|]]; [|done].
  split; [done|]. by destruct Hw as [_ [? _]%Forall_cons_1].
Qed.

(** What a counterexample to inclusion looks like: the request matches it, the rule does
    not, and its empty levels come from the request. *)
Definition separates (r q t : list string) : Prop :=
  Forall good_level t ∧ amatch q t = true ∧ amatch r t = false ∧
  Forall (λ l, l ≠ "" ∨ l ∈ q) t.

Lemma instance_ok q : wf_levels q →
  Forall good_level (instance q) ∧ amatch q (instance q) = true ∧ Forall (λ l, l ≠ "" ∨ l ∈ q) (instance q).
Proof.
  induction q as [|l q IH]; intros Hw; cbn; [by split_and!|].
  case_bool_decide as Hh; [by split_and!|].
  destruct (wf_levels_tail l q Hh Hw) as [Hq Hl]. destruct (IH Hq) as (H1 & H2 & H3).
  assert (Forall (λ x, x ≠ "" ∨ x ∈ l :: q) (instance q)) as H3'.
  { eapply Forall_impl; [exact H3|]. cbn. intros x [?|?]; [by left|right; by right]. }
  rewrite H2, andb_true_r. case_bool_decide as Hp; split_and!; try constructor; try done.
  - by left.
  - by eapply good_literal.
  - cbn. by apply bool_decide_true.
  - right. by left.
Qed.

Lemma fresh_level r0 : ∃ x, good_level x ∧ x ≠ "" ∧ r0 ≠ x.
Proof. destruct (decide (r0 = "x")) as [->|]; [exists "y"|exists "x"]; done. Qed.

Lemma separates_cons r0 q0 r q t0 t :
  q0 ≠ "#" → r0 ≠ "#" → good_level t0 → q0 = "+" ∨ q0 = t0 → (t0 ≠ "" ∨ t0 = q0) →
  (r0 ≠ "+" ∧ r0 ≠ t0 ∧ Forall good_level t ∧ amatch q t = true ∧ Forall (λ l, l ≠ "" ∨ l ∈ q) t ∨ separates r q t) →
  separates (r0 :: r) (q0 :: q) (t0 :: t).
Proof.
  intros Hq Hr Hg Hm He H. unfold separates. cbn.
  rewrite !bool_decide_false with (P := _ = "#") by done.
  assert (Forall good_level t ∧ amatch q t = true ∧ Forall (λ l, l ≠ "" ∨ l ∈ q) t) as (H1 & H2 & H3).
  { destruct H as [(_ & _ & ?)|(?&?&_&?)]; done. }
  split_and!.
  - by constructor.
  - rewrite H2, andb_true_r. apply orb_true_iff. rewrite !bool_decide_eq_true. done.
  - destruct H as [(? & ? & _)|(_&_&->&_)]; [|by rewrite andb_false_r].
    by rewrite !bool_decide_false by done.
  - constructor; [destruct He as [?| ->]; [by left|right; by left]|].
    eapply Forall_impl; [exact H3|]. cbn. intros x [?|?]; [by left|right; by right].
Qed.

Lemma supersetLevels_complete r q :
  wf_levels q → wf_levels r → supersetLevels r q = false → ∃ t, separates r q t.
Proof.
  revert q. induction r as [|r0 r IH]; intros q Hq Hr; cbn.
  - intros Hne%bool_decide_eq_false. destruct q as [|q0 q]; [done|].
    destruct (decide (q0 = "#")) as [->|Hh].
    + exists ["x"]. split_and!; try done; [by apply Forall_singleton|by apply Forall_singleton; left].
    + destruct (instance_ok _ Hq) as (H1 & H2 & H3). exists (instance (q0 :: q)). split_and!; try done.
      cbn [amatch]. apply bool_decide_false. cbn. by rewrite bool_decide_false by done.
  - case_bool_decide as Hrh; [done|]. destruct q as [|q0 q].
    { intros _. exists []. split_and!; try done. cbn. by rewrite bool_decide_false. }
    case_bool_decide as Hqh.
    { subst. intros _. exists []. split_and!; try done. cbn. by rewrite bool_decide_false. }
    destruct (wf_levels_tail _ _ Hrh Hr) as [Hr' _], (wf_levels_tail _ _ Hqh Hq) as [Hq' _].
    destruct (instance_ok q Hq') as (H1 & H2 & H3).
    case_bool_decide as Hqp; [subst q0; case_bool_decide as Hrp|]; cbn.
    + intros [t Ht]%IH; [|done..]. exists ("x" :: t). apply separates_cons; auto using good_x; done.
    + intros _. destruct (fresh_level r0) as (x & Hx & Hxe & Hxr). exists (x :: instance q).
      apply separates_cons; auto. left. done.
    + assert (good_level q0) as Hg by (by eapply good_literal).
      destruct (negb (bool_decide (r0 = "+")) && negb (bool_decide (r0 = q0))) eqn:E; intros Hs.
      * apply andb_true_iff in E as [E1%negb_true_iff%bool_decide_eq_false E2%negb_true_iff%bool_decide_eq_false].
        exists (q0 :: instance q). apply separates_cons; auto. left. done.
      * apply IH in Hs as [t Ht]; [|done..]. exists (q0 :: t). apply separates_cons; auto.
Qed.

(** Nothing but [#] and [+/#] matches every topic. *)
Lemma not_everything r : wf_levels r → r ≠ [] → r ≠ ["#"] → r ≠ ["+"; "#"] →
  ∃ t, t ≠ [] ∧ t ≠ [""] ∧ Forall good_level t ∧ amatch r t = false.
Proof.
  intros Hw Hn Hh Hp. destruct r as [|r0 r]; [done|].
  destruct (decide (r0 = "#")) as [->|Hr0]; [by rewrite (wf_levels_hash _ Hw) in Hh|].
  destruct (decide (r0 = "+")) as [->|Hr0'].
  - destruct r as [|r1 r].
    { exists ["x"; "x"]. split_and!; try done; repeat constructor. }
    assert (r1 ≠ "#").
    { intros ->. apply wf_levels_tail in Hw as [Hw _]; [|done]. by rewrite (wf_levels_hash _ Hw) in Hp. }
    exists ["x"]. split_and!; try done; [repeat constructor|]. cbn. by rewrite (bool_decide_false (r1 = _)) by done.
  - destruct (fresh_level r0) as (x & Hx & Hxe & Hxr). exists [x]. split_and!; try done.
    + congruence.
    + by apply Forall_singleton.
    + cbn. by rewrite !bool_decide_false by done.
Qed.

(** A non-empty list of good levels is the levels of a topic. *)
Lemma contains_byte_join c l : c ≠ slash →
  contains_byte c (join_byte slash l) = existsb (contains_byte c) l.
Proof.
  intros Hc. induction l as [|x l IH]; [done|]. destruct l as [|y l]; [cbn; by rewrite orb_false_r|].
  cbn [join_byte]. cbn in IH. rewrite contains_byte_app. cbn. rewrite IH.
  by rewrite bool_decide_false by done.
Qed.

Lemma good_topic t : t ≠ [] → t ≠ [""] → Forall good_level t →
  ∃ s, s ≠ "" ∧ HasWildcard s = false ∧ SplitTopicLevels s = t.
Proof.
  intros Hn He Hg. exists (join_byte slash t).
  assert (split_byte slash (join_byte slash t) = t) as Hs.
  { apply split_join; [done|]. eapply Forall_impl; [exact Hg|]. by intros ? []. }
  assert (join_byte slash t ≠ "") as Hne. { intros E. rewrite E in Hs. by subst. }
  split_and!; [done| |by unfold SplitTopicLevels; rewrite bool_decide_false].
  assert (∀ c, c ≠ slash → (∀ l, good_level l → contains_byte c l = false) → contains_byte c (join_byte slash t) = false) as H.
  { intros c Hc Hl. rewrite contains_byte_join by done. clear -Hg Hl.
    induction Hg as [|l t Hl' _ IH]; [done|]. cbn. by rewrite Hl, IH. }
  unfold HasWildcard. rewrite !H; [done|done|by intros ? [[] ?]|done|by intros ? [[] ?]].
Qed.

(** The filters of [ValidateTopicFilterSyntax] that are not shared have such levels. *)
Lemma wf_Split f : filter_levels (SplitTopicLevels f) → wf_levels (SplitTopicLevels f).
Proof.
  intros Hf. split; [by right|]. unfold SplitTopicLevels. case_bool_decide; [done|]. apply split_byte_parts.
Qed.

Lemma filter_levels_nonempty f : filter_levels (SplitTopicLevels f) → f ≠ "".
Proof. intros H ->. inversion H. Qed.

Lemma Split_eq f l : SplitTopicLevels f = SplitTopicLevels l ↔ f = l.
Proof. split; [apply SplitTopicLevels_inj|by intros ->]. Qed.

(** A topic that separates the levels of two filters separates the filters. *)
Lemma separating_topic rule req t :
  rule ≠ "" → req ≠ "" → t ≠ [] → t ≠ [""] → Forall good_level t →
  amatch (SplitTopicLevels req) t = true → amatch (SplitTopicLevels rule) t = false →
  ∃ topic, MatchTopic req topic = true ∧ MatchTopic rule topic = false.
Proof.
  intros Hr Hq Hn He Hg H1 H2. destruct (good_topic t Hn He Hg) as (s & Hs & Hw & <-).
  exists s. split; [by apply MatchTopic_amatch|]. apply not_true_is_false.
  rewrite MatchTopic_amatch. intros (_ & _ & _ & ?). congruence.
Qed.

(** The levels of one empty level are matched by few filters. *)
Lemma separates_not_empty r q : wf_levels q → q ≠ [] → q ≠ ["#"] → q ≠ [""] → q ≠ [""; "#"] →
  ∀ t, separates r q t → t ≠ [] ∧ t ≠ [""].
Proof.
  intros Hw H1 H2 H3 H4 t (_ & Hm & _ & Ht). destruct q as [|q0 q]; [done|].
  assert (q0 ≠ "#") as Hq0 by (intros ->; by rewrite (wf_levels_hash _ Hw) in H2).
  apply wf_levels_tail in Hw as [Hw _]; [|done].
  cbn in Hm. rewrite bool_decide_false in Hm by done. destruct t as [|t0 t]; [done|]. split; [done|].
  intros [= -> ->]. apply andb_true_iff in Hm as [Hm Hm'].
  assert (q = [] ∨ q = ["#"]) as Hq.
  { destruct q as [|q1 q]; [by left|]. cbn in Hm'. destruct (decide (q1 = "#")) as [->|].
    - right. by rewrite (wf_levels_hash _ Hw).
    - by rewrite bool_decide_false in Hm' by done. }
  apply Forall_singleton in Ht as [?|Ht]; [done|]. apply elem_of_cons in Ht as [<-|Ht].
  - destruct Hq as [->| ->]; done.
  - destruct Hq as [->| ->]; [by apply elem_of_nil in Ht|by apply list_elem_of_singleton in Ht].
Qed.

Lemma FilterSuperset_complete rule req :
  filter_levels (SplitTopicLevels rule) → filter_levels (SplitTopicLevels req) → req ≠ "/#" →
  FilterSuperset rule req = false → ∃ topic, MatchTopic req topic = true ∧ MatchTopic rule topic = false.
Proof.
  intros Hr Hq Hs. pose proof (filter_levels_nonempty _ Hr) as Hr0. pose proof (filter_levels_nonempty _ Hq) as Hq0.
  pose proof (wf_Split _ Hr) as Wr. pose proof (wf_Split _ Hq) as Wq.
  unfold FilterSuperset. rewrite !(bool_decide_false (_ = "")) by done. cbn [orb].
  case_bool_decide as Hrh; [done|]. case_bool_decide as Hqh.
  - cbn. intros Hrp%bool_decide_eq_false.
    destruct (not_everything (SplitTopicLevels rule)) as (t & H1 & H2 & H3 & H4);
      [done|by apply SplitTopicLevels_nonempty| | |].
    + by intros E%(Split_eq rule "#").
    + by intros E%(Split_eq rule "+/#").
    + subst req. by eapply separating_topic.
  - intros [t Ht]%supersetLevels_complete; [|done..].
    destruct (separates_not_empty (SplitTopicLevels rule) (SplitTopicLevels req)) with t as [H1 H2]; try done.
    + by apply SplitTopicLevels_nonempty.
    + by intros E%(Split_eq req "#").
    + intros E. apply Hq0. rewrite <-(join_SplitTopicLevels req), E. done.
    + by intros E%(Split_eq req "/#").
    + destruct Ht as (? & ? & ? & ?). by eapply separating_topic.
Qed.

(** C38. [FilterSuperset] decides inclusion: for well-formed filters (but the request [/#])
    it holds exactly when every topic the request matches is matched by the rule. *)
Theorem FilterSuperset_exact rule req :
  filter_levels (SplitTopicLevels rule) → filter_levels (SplitTopicLevels req) → req ≠ "/#" →
  FilterSuperset rule req = true ↔ (∀ topic, MatchTopic req topic = true → MatchTopic rule topic = true).
Proof.
  intros Hr Hq Hs. split; [intros H topic; by apply FilterSuperset_sound|].
  intros H. apply not_false_is_true. intros (t & Ht & Ht')%FilterSuperset_complete; [|done..].
  apply H in Ht. congruence.
Qed.

Lemma FilterSuperset_exact_witness :
  FilterSuperset "a/+/#" "a/b/+" = true ∧
  (∀ topic, MatchTopic "a/b/+" topic = true → MatchTopic "a/+/#" topic = true).
Proof.
  split; [reflexivity|].
  apply (FilterSuperset_exact "a/+/#" "a/b/+"); [| |discriminate|reflexivity].
  - repeat (constructor; [by (left + right)|]). constructor.
  - constructor; [by left|]. constructor; [by left|]. constructor. by right.
Defined.

(** ** Decisions *)

Lemma existsb_elem {A} (f : A → bool) l : existsb f l = true ↔ ∃ x, x ∈ l ∧ f x = true.
Proof. rewrite existsb_exists. setoid_rewrite list_elem_of_In. done. Qed.

(** A rule of the identity [username], [clientID] has an entry whose filters fit. *)
Definition rule_fits (fits : RuleEntry → Prop) (entry : Rule → RuleEntry) (ev : Ruleset) (username clientID : string) : Prop :=
  ∃ r, r ∈ rs_Rules ev ∧ identityMatch (ru_Identity r) username clientID = true ∧ fits (entry r).

Definition publishes (topic : string) (e : RuleEntry) : Prop := ∃ f, f ∈ re_Pub e ∧ MatchTopic f topic = true.
Definition subscribes (req : string) (e : RuleEntry) : Prop := ∃ f, f ∈ re_Sub e ∧ FilterSuperset f req = true.

Lemma anyRule_spec entry ev username clientID action subject :
  anyRule entry (rs_Rules ev) username clientID action subject = true ↔
  rule_fits (match action with ActionPublish => publishes subject | ActionSubscribe => subscribes subject end)
    entry ev username clientID.
Proof.
  unfold anyRule, rule_fits. rewrite existsb_elem. setoid_rewrite andb_true_iff.
  destruct action; unfold anyMatchTopic, anySuperset; by setoid_rewrite existsb_elem.
Qed.

Lemma acl_eval_spec ev username clientID action subject :
  let fits := match action with ActionPublish => publishes subject | ActionSubscribe => subscribes subject end in
  acl_eval ev username clientID action subject = true ↔
  ¬ rule_fits fits ru_Deny ev username clientID ∧
  (rs_DefaultDeny ev = true → rule_fits fits ru_Allow ev username clientID).
Proof.
  cbn. rewrite <-!anyRule_spec. unfold acl_eval.
  destruct (anyRule ru_Deny _ _ _ _ _), (anyRule ru_Allow _ _ _ _ _), (rs_DefaultDeny ev); naive_solver.
Qed.

Lemma subscribeAllowed_spec ev username clientID subs :
  subscribeAllowed ev username clientID subs = Ok tt ↔
  ∀ s, s ∈ subs → sub_Topic s ≠ "" → acl_eval ev username clientID ActionSubscribe (acl_subject (sub_Topic s)) = true.
Proof.
  induction subs as [|s subs IH]; cbn. { split; [by intros _ ? ?%elem_of_nil|done]. }
  setoid_rewrite elem_of_cons.
  case_bool_decide as Hs; [rewrite IH; split; [intros H s' [->|]; eauto; done|eauto]|].
  assert (acl_subject (sub_Topic s) ≠ "") as Hn.
  { unfold acl_subject. by case_bool_decide. }
  unfold AllowSubscribe. rewrite bool_decide_false by done.
  destruct (acl_eval _ _ _ _ _) eqn:E.
  - rewrite IH. split; [intros H s' [->|]; eauto|eauto].
  - split; [done|]. intros H. rewrite (H s) in E; [done|by left|done].
Qed.

(** What the subscription center delivers for a filter, the authorised filter matches. *)
Lemma covers_subject f topic : ValidateTopicFilterSyntax f = Ok tt → HasWildcard topic = false →
  covers f topic = true → MatchTopic (acl_subject f) topic = true.
Proof.
  intros [Hf Hv]%ValidateTopicFilterSyntax_spec Hw.
  assert (∀ g, MatchTopicFilter g topic = true → MatchTopic g topic = true) as Hm.
  { intros g Hg. destruct (decide (g = "")) as [->|Hg0]; [done|].
    destruct (decide (topic = "")) as [->|Ht0].
    { unfold MatchTopicFilter in Hg. by rewrite orb_true_r in Hg. }
    apply MatchTopic_amatch. split_and!; [done..|]. rewrite MatchTopicFilter_levels in Hg by done.
    apply andb_true_iff in Hg as [_ Hg]. by apply amatch_levels, levels_matchb_spec. }
  destruct (has_prefix f "$share/") eqn:Es.
  - destruct Hv as (g & f' & -> & Hp & _).
    rewrite (covers_shared _ g f') by (by apply ParseSharedSubscription_spec).
    intros Hc. apply Hm in Hc. destruct Hp as (Hg & Hf' & Hsl & _).
    replace (acl_subject _) with f'; [done|]. unfold acl_subject, ParseShareTopic, IsShareTopic.
    rewrite Es. cbn [negb]. unfold BuildSharedSubscriptionTopicFilter, SharedSubscriptionPrefix.
    rewrite trim_share, cut_byte_append by done. cbn. by rewrite bool_decide_false.
  - replace (acl_subject f) with f.
    2:{ unfold acl_subject, ParseShareTopic, IsShareTopic. rewrite Es. cbn. by rewrite bool_decide_false. }
    intros Hc. apply Hm. revert Hc. unfold covers.
    destruct (SplitTopicLevels f) as [|l0 [|l1 rest]] eqn:E; [done..|]. case_bool_decide; [|done].
    subst l0. exfalso. rewrite <-(join_SplitTopicLevels f), E in Es. cbn in Es. done.
Qed.

Section plugin.
Context {Hyaml : YamlCodec}.

Lemma acl_evaluator_current io p p' ev : acl_evaluator io p = (p', Ok ev) → mg_eval (ap_manager p') = Some ev.
Proof.
  unfold acl_evaluator. destruct (EnsureLoaded io (ap_manager p)) as [m [[]|e]]; [|by intros [= _ ?]].
  destruct (mg_eval m) eqn:E; by intros [= <- ->].
Qed.

(** C21. A SUBSCRIBE passes the access control only if, for each filter in it, no deny
    rule of the client covers the filter and, under default deny, one allow filter of a
    rule of the client matches every topic the broker would deliver for it. *)
Theorem acl_subscribe_enforced io clientID subscribe p p' :
  acl_OnSubscribe io clientID subscribe p = (p', Ok tt) →
  ∃ ev, mg_eval (ap_manager p') = Some ev ∧
  let username := acl_username p' clientID in
  ∀ s, s ∈ sbs_Subscriptions subscribe → ValidateTopicFilterSyntax (sub_Topic s) = Ok tt →
    ¬ rule_fits (subscribes (acl_subject (sub_Topic s))) ru_Deny ev username clientID ∧
    (rs_DefaultDeny ev = true →
     ∃ r f, r ∈ rs_Rules ev ∧ identityMatch (ru_Identity r) username clientID = true ∧ f ∈ re_Sub (ru_Allow r) ∧
       ∀ topic, HasWildcard topic = false → covers (sub_Topic s) topic = true → MatchTopic f topic = true).
Proof.
  unfold acl_OnSubscribe. destruct (acl_evaluator io p) as [q [ev|e]] eqn:E; [|by intros [= _ ?]].
  intros [= <- H]. exists ev. split; [by eapply acl_evaluator_current|]. cbn. intros s Hs Hv.
  rewrite subscribeAllowed_spec in H. specialize (H s Hs).
  apply acl_eval_spec in H as [Hd Ha]; [|by intros Hn; rewrite Hn in Hv].
  split; [done|]. intros Hdd. destruct (Ha Hdd) as (r & Hr & Hi & f & Hf & Hsup).
  exists r, f. split_and!; [done..|]. intros topic Hw Hc.
  apply (FilterSuperset_sound f _ topic Hsup). by apply covers_subject.
Qed.

(** A PUBLISH passes exactly when a ruleset is served, its topic is not empty, no deny
    filter of the client matches the topic and, under default deny, an allow filter does. *)
Lemma acl_publish_exact io clientID publish p p' :
  (acl_OnReceivedPublish io clientID publish p).1 = p' →
  ((acl_OnReceivedPublish io clientID publish p).2 = Ok tt ↔
   ∃ ev, (acl_evaluator io p).2 = Ok ev ∧ pub_Topic publish ≠ "" ∧
     let username := acl_username p' clientID in
     ¬ rule_fits (publishes (pub_Topic publish)) ru_Deny ev username clientID ∧
     (rs_DefaultDeny ev = true → rule_fits (publishes (pub_Topic publish)) ru_Allow ev username clientID)).
Proof.
  unfold acl_OnReceivedPublish. destruct (acl_evaluator io p) as [q [ev|e]]; cbn; intros <-; [|naive_solver].
  unfold AllowPublish. case_bool_decide; [naive_solver|].
  pose proof (acl_eval_spec ev (acl_username q clientID) clientID ActionPublish (pub_Topic publish)) as Hs. cbn in Hs.
  destruct (acl_eval _ _ _ _ _); naive_solver.
Qed.
End plugin.

(** ** Deny rules and broader subscriptions *)

(** Under default allow, a deny rule stops exactly the subscriptions all of whose
    topics it denies: a filter with one topic outside is granted, whatever denied topics it
    matches as well. *)
Theorem deny_subscribe_bypassed denied req username clientID :
  username ≠ "" → filter_levels (SplitTopicLevels denied) → filter_levels (SplitTopicLevels req) → req ≠ "/#" →
  let ev := mkRuleset false [mkRule (mkIdentity username "") (mkRuleEntry [] []) (mkRuleEntry [] [denied])] in
  AllowSubscribe ev username clientID req = Ok true ↔
  ∃ topic, MatchTopic req topic = true ∧ MatchTopic denied topic = false.
Proof.
  intros Hu Hd Hq Hs ev. unfold AllowSubscribe. rewrite bool_decide_false by (by apply filter_levels_nonempty).
  assert (rule_fits (subscribes req) ru_Deny ev username clientID ↔ FilterSuperset denied req = true) as Hfits.
  { split.
    - by intros (r & ->%list_elem_of_singleton & _ & f & ->%list_elem_of_singleton & Hf).
    - intros Hf. eexists. split; [by left|]. split; [|exists denied; split; [by left|done]].
      unfold identityMatch. cbn. by rewrite !(bool_decide_false (username = "")), bool_decide_true by done. }
  transitivity (acl_eval ev username clientID ActionSubscribe req = true); [split; [by intros [= ->]|by intros ->]|].
  rewrite acl_eval_spec, Hfits. split.
  - intros [Hn _]. apply not_true_is_false in Hn. by apply FilterSuperset_complete.
  - intros (t & Ht & Ht'). split; [|done]. intros Hf. rewrite (FilterSuperset_sound _ _ t Hf Ht) in Ht'. done.
Qed.

Lemma deny_subscribe_bypassed_witness :
  AllowSubscribe (mkRuleset false [mkRule (mkIdentity "bob" "") (mkRuleEntry [] []) (mkRuleEntry [] ["secret/x"])])
    "bob" "c1" "secret/+" = Ok true ∧ covers "secret/+" "secret/x" = true.
Proof.
  split; [|reflexivity]. apply (deny_subscribe_bypassed "secret/x" "secret/+" "bob" "c1");
    [discriminate| | |discriminate|exists "secret/y"; split; reflexivity].
  - constructor; [by left|]. constructor. by left.
  - constructor; [by left|]. constructor. by right.
Defined.

(** ** The manager *)

Inductive AclOp := OReload | OEnsure | OPut (rs : Ruleset) | ODelete | OUpsert (rule : Rule) | ODeleteRule (id : Identity).

Definition deny (dd : bool) (rs : Ruleset) : Ruleset := mkRuleset (rs_DefaultDeny rs || dd) (rs_Rules rs).

(** The abstract manager: the table that is kept and the rules that are in force. *)
Record AclSpec := mkAclSpec { sp_table : option Ruleset; sp_current : option Ruleset }.

Definition spec_replace (rs : Ruleset) : AclSpec := mkAclSpec (Some rs) (Some rs).

(** What an operation that succeeds does, [source] being the rules a load finds. *)
Definition spec_step (dd : bool) (source : option Ruleset) (op : AclOp) (s : AclSpec) : AclSpec :=
  match op with
  | OReload => mkAclSpec (sp_table s) source
  | OEnsure => match sp_current s with Some _ => s | None => mkAclSpec (sp_table s) source end
  | OPut rs => spec_replace (deny dd rs)
  | ODelete => mkAclSpec None None
  | OUpsert rule => let rs := default (mkRuleset dd []) source in spec_replace (mkRuleset (rs_DefaultDeny rs) (upsert rule (rs_Rules rs)))
  | ODeleteRule id =>
      match source with
      | None => s
      | Some rs =>
          if existsb (λ r, sameIdentity (ru_Identity r) id) (rs_Rules rs)
          then spec_replace (mkRuleset (rs_DefaultDeny rs) (List.filter (λ r, negb (sameIdentity (ru_Identity r) id)) (rs_Rules rs)))
          else s
      end
  end.

Section manager.
Context {Hyaml : YamlCodec}.

Definition acl_step (io : AclIO) (op : AclOp) (m : Manager) : Manager * result string unit :=
  match op with
  | OReload => Reload io m
  | OEnsure => EnsureLoaded io m
  | OPut rs => PutRuleset io rs m
  | ODelete => DeleteRuleset io m
  | OUpsert rule => UpsertRule io rule m
  | ODeleteRule id => let '(m, res) := DeleteRule io id m in (m, match res with Err e => Err e | Ok _ => Ok tt end)
  end.

(** What the rules file holds when rules are loaded, if a path is configured and it is there. *)
Definition file_rules (path : string) (io : AclIO) : option (result string Ruleset) :=
  if bool_decide (path = "") then None
  else match io_file io with None => None | Some (Err e) => Some (Err e) | Some (Ok b) => Some (yaml_Unmarshal b) end.

(** What a load finds: the file if it is there, the table otherwise. *)
Definition spec_load (dd : bool) (path : string) (io : AclIO) (s : AclSpec) : result string (option Ruleset) :=
  match file_rules path io with
  | Some (Err e) => Err e
  | Some (Ok rs) => Ok (Some (deny dd rs))
  | None => match io_readFail io with Some e => Err e | None => Ok (sp_table s) end
  end.
Definition spec_source (dd : bool) (path : string) (io : AclIO) (s : AclSpec) : option Ruleset :=
  match spec_load dd path io s with Ok source => source | Err _ => None end.

(** A run; the operations that succeeded act on the abstract manager. *)
Fixpoint acl_run (ops : list (AclIO * AclOp)) (m : Manager) (s : AclSpec) : Manager * AclSpec :=
  match ops with
  | [] => (m, s)
  | (io, op) :: ops =>
      let '(m', res) := acl_step io op m in
      acl_run ops m' (match res with
                      | Ok _ => spec_step (mg_defaultDeny m) (spec_source (mg_defaultDeny m) (mg_filePath m) io s) op s
                      | Err _ => s
                      end)
  end.

Definition readStore (kv : gmap string (list byte)) (key : string) : result string (option Ruleset) :=
  match kv !! key with
  | None | Some [] => Ok None
  | Some b => match yaml_Unmarshal b with Err e => Err e | Ok rs => Ok (Some rs) end
  end.

(** The store holds the table, and the evaluator has the rules in force. *)
Definition stores (m : Manager) (table : option Ruleset) : Prop :=
  ∃ kv s0, mg_store m = Some kv ∧ mg_key m ≠ "" ∧ readStore kv (mg_key m) = Ok s0 ∧
    table = deny (mg_defaultDeny m) <$> s0.
Definition implements (m : Manager) (s : AclSpec) : Prop := stores m (sp_table s) ∧ mg_eval m = sp_current s.

(** The file is not there during the call. *)
Definition no_file (io : AclIO) : Prop := io_stat io = false ∧ io_file io = None.

Lemma applyDefaultDeny_deny m rs : applyDefaultDeny m rs = deny (mg_defaultDeny m) rs.
Proof. unfold applyDefaultDeny, deny. by destruct rs as [[] ?], (mg_defaultDeny m). Qed.

Lemma deny_deny d rs : deny d (deny d rs) = deny d rs.
Proof. unfold deny. cbn. by destruct (rs_DefaultDeny rs), d. Qed.

(** Loading finds what the abstract manager finds, errors included. *)
Lemma loadRules_spec io m s : implements m s →
  spec_load (mg_defaultDeny m) (mg_filePath m) io s
  = match loadRules io m with Err e => Err e | Ok found => Ok (deny (mg_defaultDeny m) <$> found) end.
Proof.
  intros [(kv & s0 & Hs & Hk & Hr & Ht) _]. unfold spec_load, loadRules, file_rules, FileModeActive.
  assert (match io_readFail io with Some e => Err e | None => Ok (sp_table s) end =
    match (match io_readFail io with Some e => Err e | None => readStore kv (mg_key m) end) with
    | Err e => Err e | Ok found => Ok (deny (mg_defaultDeny m) <$> found) end) as Hread.
  { destruct (io_readFail io); [done|]. by rewrite Hr, Ht. }
  rewrite Hs, (bool_decide_false (mg_key m = "")) by done.
  destruct (bool_decide (mg_filePath m = "")); cbn [negb andb]; [exact Hread|].
  destruct (io_file io) as [[b|e]|]; cbn; [by destruct (yaml_Unmarshal b)|done|exact Hread].
Qed.

Lemma source_of_load io m s found : implements m s → loadRules io m = Ok found →
  spec_source (mg_defaultDeny m) (mg_filePath m) io s = deny (mg_defaultDeny m) <$> found.
Proof. intros Hi Hl. unfold spec_source. by rewrite (loadRules_spec io m s Hi), Hl. Qed.

Context {Hlaws : YamlCodecLaws}.

(** One step of the manager and one of the abstract manager. *)
Definition follows (m : Manager) (s s' : AclSpec) (r : Manager * result string unit) : Prop :=
  mg_defaultDeny r.1 = mg_defaultDeny m ∧ mg_filePath r.1 = mg_filePath m ∧
  implements r.1 (match r.2 with Ok _ => s' | Err _ => s end).

(** Storing a table with default deny applied: it is stored and in force, or nothing changes. *)
Lemma putAndSet_follows io rs m s : implements m s → follows m s (spec_replace (deny (mg_defaultDeny m) rs)) (putAndSet io (deny (mg_defaultDeny m) rs) m).
Proof.
  intros Hi. assert (Hi' := Hi). destruct Hi' as [(kv & s0 & Hs & Hk & _ & _) _].
  unfold putAndSet, putRulesetLocked. set (new := deny _ rs).
  rewrite Hs, bool_decide_false by done. destruct (yaml_Marshal new) as [b|e] eqn:Em; [|done].
  destruct (io_putFail io); [done|]. split_and!; [done|done|]. split; [|done].
  exists (<[mg_key m := b]> kv), (Some new). split_and!; [done|done| |cbn; unfold new; by rewrite deny_deny].
  unfold readStore. cbn. rewrite lookup_insert_eq. rewrite (yaml_roundtrip _ _ Em).
  destruct b; [by apply yaml_nonempty in Em|done].
Qed.

Lemma follows_err m s s' e : implements m s → follows m s s' (m, Err e).
Proof. done. Qed.
Lemma follows_same m s r : implements m s → follows m s s (m, r).
Proof. intros H. unfold follows. by destruct r. Qed.

Lemma Reload_follows io m s : implements m s →
  follows m s (mkAclSpec (sp_table s) (spec_source (mg_defaultDeny m) (mg_filePath m) io s)) (Reload io m).
Proof.
  intros Hi. unfold Reload, loadRulesStrict. destruct (loadRules io m) as [[rs|]|] eqn:El; [|by apply follows_err..].
  rewrite (source_of_load io m s _ Hi El), applyDefaultDeny_deny. destruct Hi as [Hst _]. done.
Qed.

(** One operation, whether the file is there or not. *)
Lemma acl_step_refines io op m s : implements m s →
  follows m s (spec_step (mg_defaultDeny m) (spec_source (mg_defaultDeny m) (mg_filePath m) io s) op s) (acl_step io op m).
Proof.
  intros Hi. pose proof Hi as [(kv & s0 & Hs & Hk & _) Hev]. destruct op as [| |rs| |rule|id]; cbn [acl_step spec_step].
  - by apply Reload_follows.
  - unfold EnsureLoaded. rewrite Hev. destruct (sp_current s); [by apply follows_same|by apply Reload_follows].
  - unfold PutRuleset. destruct (FileModeActive _ _); [by apply follows_err|]. destruct (validateRuleset rs); [|by apply follows_err].
    rewrite applyDefaultDeny_deny. by apply putAndSet_follows.
  - unfold DeleteRuleset. destruct (FileModeActive _ _); [by apply follows_err|]. rewrite Hs, bool_decide_false by done.
    destruct (io_delFail io); [by apply follows_err|]. split_and!; [done|done|]. split; [|done].
    exists (delete (mg_key m) kv), None. split_and!; [done..| |done]. unfold readStore. cbn. by rewrite lookup_delete_eq.
  - unfold UpsertRule. destruct (FileModeActive _ _); [by apply follows_err|]. destruct (validateIdentity _); [|by apply follows_err].
    destruct (loadRules io m) as [found|] eqn:El; [|by apply follows_err]. rewrite (source_of_load io m s _ Hi El), applyDefaultDeny_deny.
    set (dd := mg_defaultDeny m) in *. set (r0 := default (mkRuleset dd []) found).
    assert (default (mkRuleset dd []) (deny dd <$> found) = deny dd r0) as -> by (subst r0; destruct found; [done|by unfold deny; destruct dd]).
    pose proof (putAndSet_follows io (mkRuleset (rs_DefaultDeny (deny dd r0)) (upsert rule (rs_Rules (deny dd r0)))) m s Hi) as Hput.
    fold dd in Hput. cbv zeta. by replace (deny dd (mkRuleset (rs_DefaultDeny (deny dd r0)) (upsert rule (rs_Rules (deny dd r0)))))
      with (mkRuleset (rs_DefaultDeny (deny dd r0)) (upsert rule (rs_Rules (deny dd r0)))) in Hput by (unfold deny; cbn; by destruct (rs_DefaultDeny r0), dd).
  - unfold DeleteRule. destruct (FileModeActive _ _); [by apply follows_err|]. destruct (validateIdentity _); [|by apply follows_err].
    destruct (loadRules io m) as [[rs|]|] eqn:El; [|rewrite (source_of_load io m s _ Hi El); by apply follows_same|by apply follows_err].
    rewrite (source_of_load io m s _ Hi El). cbn [fmap option_fmap option_map deny rs_Rules rs_DefaultDeny].
    destruct (existsb _ _); cbn [negb]; [|by apply follows_same]. rewrite applyDefaultDeny_deny.
    pose proof (putAndSet_follows io (mkRuleset (rs_DefaultDeny rs) (List.filter (λ r, negb (sameIdentity (ru_Identity r) id)) (rs_Rules rs))) m s Hi) as Hput.
    unfold deny in Hput at 1. cbn [rs_DefaultDeny rs_Rules] in Hput. by destruct (putAndSet _ _ _) as [m' [[]|e]].
Qed.

Lemma acl_run_refines ops : ∀ m s, implements m s →
  mg_defaultDeny (acl_run ops m s).1 = mg_defaultDeny m ∧ mg_filePath (acl_run ops m s).1 = mg_filePath m ∧
  implements (acl_run ops m s).1 (acl_run ops m s).2.
Proof.
  induction ops as [|[io op] ops IH]; intros m s Hi; [done|]. cbn [acl_run].
  destruct (acl_step_refines io op m s Hi) as (H1 & H2 & H3). destruct (acl_step io op m) as [m' res]. cbn [fst snd] in *.
  destruct (IH _ _ H3) as (H4 & H5 & H6). by rewrite H4, H5.
Qed.

(** Without a file only the table is ever in force. *)
Lemma acl_run_table ops : ∀ m s, Forall (λ x, no_file x.1) ops → sp_current s = None ∨ sp_current s = sp_table s →
  let s' := (acl_run ops m s).2 in sp_current s' = None ∨ sp_current s' = sp_table s'.
Proof.
  induction ops as [|[io op] ops IH]; intros m s Hf Hs; [done|]. apply Forall_cons in Hf as [[_ Hf] Hfs]. cbn [acl_run].
  destruct (acl_step io op m) as [m' [[]|e]]; apply IH; try done.
  assert (let x := spec_source (mg_defaultDeny m) (mg_filePath m) io s in x = None ∨ x = sp_table s) as Hsrc.
  { unfold spec_source, spec_load, file_rules. cbn in Hf. rewrite Hf. destruct (bool_decide _), (io_readFail io); [left|right|left|right]; done. }
  cbv zeta in Hsrc. destruct op; cbn [spec_step]; try (by right); try done.
  - destruct (sp_current s) eqn:Ec; [by rewrite Ec|exact Hsrc].
  - destruct (spec_source _ _ _ _) as [rs|]; [|done]. destruct (existsb _ _); [by right|done].
Qed.

Definition acl_writes (op : AclOp) : bool := match op with OReload | OEnsure => false | _ => true end.

(** C22. The manager implements a table of rules beside an optional rules file.  It has a key
    store, whose rules, if it holds any, can be parsed.  After any operations, failed reads and
    writes included and whether or not the file is there during each of them, the plugin
    evaluates with the rules the successful operations put in force (a reload: the file's if it
    is there, the table's otherwise; a write: the new table; a delete: none), default deny
    applied; when none are in force it loads them the same way, and refuses if there are none
    or they cannot be read.  While the file is there every write of the table is
    refused and changes nothing.  If the file was there in no call, what is evaluated is the table. *)
Theorem acl_manager_refines ops m s : implements m s →
  let m' := (acl_run ops m s).1 in let s' := (acl_run ops m s).2 in
  (∀ io names, (acl_evaluator io (mkACLPlugin m' names)).2 =
     match sp_current s', spec_load (mg_defaultDeny m) (mg_filePath m) io s' with
     | Some ev, _ => Ok ev
     | None, Ok (Some ev) => Ok ev
     | None, Ok None => Err ErrRulesetNotFound
     | None, Err e => Err e
     end) ∧
  (∀ io op, mg_filePath m ≠ "" → io_stat io = true → acl_writes op = true → acl_step io op m' = (m', Err ErrFileModeActive)) ∧
  (Forall (λ x, no_file x.1) ops → sp_current s = None ∨ sp_current s = sp_table s →
   ∀ io names, no_file io → io_readFail io = None →
     (acl_evaluator io (mkACLPlugin m' names)).2 = match sp_table s' with Some ev => Ok ev | None => Err ErrRulesetNotFound end).
Proof.
  intros Hi m0 s0. pose proof (acl_run_table ops m s) as Htab. cbv zeta in Htab. fold s0 in Htab.
  destruct (acl_run_refines ops m s Hi) as (Hdd & Hfp & Hi'). fold m0 s0 in Hi', Hdd, Hfp. rewrite <-Hdd, <-Hfp. clearbody m0 s0. clear Hdd Hfp.
  assert (∀ io names, (acl_evaluator io (mkACLPlugin m0 names)).2 =
     match sp_current s0, spec_load (mg_defaultDeny m0) (mg_filePath m0) io s0 with
     | Some ev, _ => Ok ev
     | None, Ok (Some ev) => Ok ev
     | None, Ok None => Err ErrRulesetNotFound
     | None, Err e => Err e
     end) as Heval.
  { intros io names. unfold acl_evaluator, EnsureLoaded. cbn [ap_manager]. rewrite (loadRules_spec io m0 s0 Hi').
    pose proof Hi' as [_ Hev]. rewrite Hev. destruct (sp_current s0) as [ev|] eqn:Ec; [cbn; by rewrite Hev|].
    unfold Reload, loadRulesStrict. destruct (loadRules io m0) as [[rs|]|]; cbn; [by rewrite applyDefaultDeny_deny|done|done]. }
  split_and!; [exact Heval| |].
  - intros io op Hp Hst Hw. assert (FileModeActive m0 (io_stat io) = true) as Ha by (unfold FileModeActive; by rewrite bool_decide_false, Hst).
    destruct op; try done; cbn [acl_step]; [unfold PutRuleset|unfold DeleteRuleset|unfold UpsertRule|unfold DeleteRule]; by rewrite Ha.
  - intros Hf Hc io names [_ Hio] Hr. rewrite Heval. unfold spec_load, file_rules. rewrite Hio, Hr.
    destruct (bool_decide _); (destruct (Htab Hf Hc) as [->|Heq]; [done|]; rewrite <-Heq; by destruct (sp_current s0)).
Qed.
End manager.

(** ** Witnesses *)

(** A codec of two rulesets. *)
Definition demo_rule : Rule := mkRule (mkIdentity "bob" "") (mkRuleEntry ["a/#"] ["a/#"]) (mkRuleEntry [] []).
Definition demo_rules : Ruleset := mkRuleset true [demo_rule].
#[local] Instance demo_yaml : YamlCodec := {
  yaml_Marshal rs := if bool_decide (rs = demo_rules) then Ok [z2b 1] else Err "unsupported";
  yaml_Unmarshal b := if bool_decide (b = [z2b 1]) then Ok demo_rules else Err "unsupported" }.
#[local] Instance demo_yaml_laws : YamlCodecLaws.
Proof.
  split; intros rs; cbn; case_bool_decide; try done. subst. intros b [= <-]. reflexivity.
Qed.

Definition demo_io : AclIO := mkAclIO false None None None None.
(** The file is there and holds [demo_rules]. *)
Definition demo_file_io : AclIO := mkAclIO true (Some (Ok [z2b 1])) None None None.

(** A rule is added, then a file appears: it is served after a reload, and the table cannot be deleted. *)
Lemma acl_manager_refines_witness :
  let m := NewManager (Some ∅) "acl" "rules.yaml" true in
  let ops := [(demo_io, OReload); (demo_io, OUpsert demo_rule); (demo_io, ODelete); (demo_file_io, OReload)] in
  (acl_evaluator demo_io (mkACLPlugin (acl_run ops m (mkAclSpec None None)).1 ∅)).2 = Ok demo_rules ∧
  acl_step demo_file_io ODelete (acl_run ops m (mkAclSpec None None)).1 = ((acl_run ops m (mkAclSpec None None)).1, Err ErrFileModeActive) ∧
  (acl_evaluator demo_io (mkACLPlugin (acl_run [(demo_io, OUpsert demo_rule)] m (mkAclSpec None None)).1 ∅)).2 = Ok demo_rules.
Proof.
  intros m ops. assert (implements m (mkAclSpec None None)) as Hi by (split; [by exists ∅, None|done]).
  destruct (acl_manager_refines ops m (mkAclSpec None None) Hi) as (H1 & H2 & _).
  destruct (acl_manager_refines [(demo_io, OUpsert demo_rule)] m (mkAclSpec None None) Hi) as (_ & _ & H3).
  split; [rewrite H1; vm_compute; reflexivity|]. split; [by apply H2|].
  rewrite H3; [vm_compute; reflexivity|by repeat constructor|by left|done|done].
Defined.

Lemma acl_subscribe_enforced_witness :
  let p := mkACLPlugin (setCurrent (Some demo_rules) (NewManager None "" "" true)) {["c1" := "bob"]} in
  let sub := mkSubscribe None [mkSubOptions "$share/g/a/+" 1 0 false false] 7 in
  ∃ ev, mg_eval (ap_manager p) = Some ev ∧
  ∀ s, s ∈ sbs_Subscriptions sub → ValidateTopicFilterSyntax (sub_Topic s) = Ok tt →
    ¬ rule_fits (subscribes (acl_subject (sub_Topic s))) ru_Deny ev (acl_username p "c1") "c1" ∧
    (rs_DefaultDeny ev = true →
     ∃ r f, r ∈ rs_Rules ev ∧ identityMatch (ru_Identity r) (acl_username p "c1") "c1" = true ∧ f ∈ re_Sub (ru_Allow r) ∧
       ∀ topic, HasWildcard topic = false → covers (sub_Topic s) topic = true → MatchTopic f topic = true).
Proof.
  exact (acl_subscribe_enforced demo_io "c1" (mkSubscribe None [mkSubOptions "$share/g/a/+" 1 0 false false] 7)
    (mkACLPlugin (setCurrent (Some demo_rules) (NewManager None "" "" true)) {["c1" := "bob"]}) _ eq_refl).
Defined.
