(* ===== verification/Lifecycle.v ===== *)
(** * The end of a connection ([src/internal/broker/client/client_lifecycle.go], [will_publisher.go])

    [close] runs once: it saves the offline state of the session, takes the client off the
    keep-alive tracker, publishes or schedules the will, and removes the session state
    when it expires with the connection, or leaves a timer that does so later.

    The session and subscription centers and the store of delayed wills are the models of
    their files, held in [World]; the other calls are recorded in order as [Effect]s.  What
    fails, what the clock says and what the downlink has in flight ([Downlink]) are the
    record [CloseIO].  State router, centers, cursor store and keep-alive tracker are
    present; the shared-subscription manager, the will-delay center and the will channel
    may be missing.  Durations are nanoseconds. *)

From S2P Require Import Prelude GoStrings Mqtt5 Retain SubCenter SessionCore StateRouter WillDelay Downlink.

Record World := mkWorld { wd_state : RouterState; wd_wills : WillCore }.

(** The goroutines [scheduleLifecycleTimerTask] starts. *)
Inductive Timer :=
| TExpiry (clientID ownerToken : string) (publishContent : option Publish) (willDelay : Z)
| TWill (clientID ownerToken : string) (publishContent : option Publish) (willDelay : Z).

Inductive Effect :=
| FWrite (p : Packet)
| FOffline (clientID : string)
| FDeleteListener (clientID : string)
| FConnClose
| FKeepAliveDelete (clientID ownerToken : string)
| FWill (m : Message) (willDelay : Z)
| FDeleteDelivery (clientID : string)
| FTimer (delay : Z) (t : Timer).

(** The part of [Client] that closing needs; the will is its PUBLISH and its delay. *)
Record Client := mkClient {
  cl_ID : string;
  cl_ownerToken : string;
  cl_connAckAccepted : bool;
  cl_closed : bool;
  cl_disconnectWithoutWill : Z;
  cl_cleanSession : bool;
  cl_sessionExpiryInterval : Z;
  cl_connectSessionExpiryInterval : Z;
  cl_willMessage : option (Publish * Z);
  cl_willScheduledAtSessionExpiry : bool;
  cl_deliveryListener : bool }.

Record CloseConfig := mkCloseConfig {
  lg_nodeID : Z;
  lg_shared : bool;
  lg_willDelayCenter : bool;
  lg_willChan : bool }.

Record CloseIO := mkCloseIO {
  (** The clock when the offline state is saved, and when a will is scheduled. *)
  li_saveNow : Z;
  li_willNow : Z;
  (** The clock of the session center. *)
  li_clock : Z;
  li_unfinished : list UnfinishedMessage;
  li_cursor : option OutgoingReplayCursor;
  li_saveErr : bool;
  li_getSessionErr : bool;
  li_ownerErr : bool;
  li_addTaskErr : bool;
  li_deleteSubsErr : bool;
  li_deleteSessionErr : bool;
  (** The will channel takes the message before the context ends. *)
  li_sent : bool }.

Definition cl_close (c : Client) : Client :=
  let 'mkClient a b d _ f g h i j k _ := c in mkClient a b d true f g h i j k false.
Definition cl_flag (x : Z) (c : Client) : Client :=
  let 'mkClient a b d e _ g h i j k l := c in mkClient a b d e x g h i j k l.
Definition cl_will (x : option (Publish * Z)) (c : Client) : Client :=
  let 'mkClient a b d e f g h i _ k l := c in mkClient a b d e f g h i x k l.
Definition cl_scheduled (c : Client) : Client :=
  let 'mkClient a b d e f g h i j _ l := c in mkClient a b d e f g h i j true l.

Definition with_sessions (s : Core) (w : World) : World :=
  mkWorld (mkRouterState s (rs_subs (wd_state w))) (wd_wills w).
Definition with_subs (t : MemorySubCenter) (w : World) : World :=
  mkWorld (mkRouterState (rs_sessions (wd_state w)) t) (wd_wills w).
Definition with_state (s : RouterState) (w : World) : World := mkWorld s (wd_wills w).
Definition with_wills (x : WillCore) (w : World) : World := mkWorld (wd_state w) x.

Definition canSendDisconnect (c : Client) : bool := cl_connAckAccepted c.
Definition second : Z := 1000000000.

(** ** Saving *)

Definition shouldPublishWillForDisconnect (reason : Z) : bool := (reason =? 4) || (reason =? -1).

Definition persistUnfinishedMessagesToSession (cfg : CloseConfig) (io : CloseIO) (c : Client) (w : World) : World :=
  if bool_decide (cl_ID c = "") then w
  else if li_saveErr io then w
  else
    let disconnectFlag := cl_disconnectWithoutWill c in
    let clearWill := negb (disconnectFlag =? 4) && negb (disconnectFlag =? -1) in
    with_state (SaveOfflineState (li_clock io) (wd_state w)
      (mkRouterSave (lg_nodeID cfg) (cl_ID c) (cl_ownerToken c) (Some <$> li_unfinished io) (li_cursor io) clearWill
         (cl_sessionExpiryInterval c) (li_saveNow io))).1 w.

(** ** Expiry *)

(** [None] when the session never expires. *)
Definition sessionExpiryDuration (interval : Z) : option Z :=
  if interval =? neverExpireSessionInterval then None else Some (interval * second).

Definition cleanupExpiredSessionState (io : CloseIO) (clientID ownerToken : string) (w : World) : World * list Effect :=
  if bool_decide (clientID = "") then (w, [])
  else
    let w := if li_deleteSubsErr io then w
             else with_subs (DeleteClient (rs_subs (wd_state w)) (mkDeleteClientRequest clientID ownerToken)).1 w in
    let w := if li_deleteSessionErr io then w else with_sessions (deleteSession clientID (rs_sessions (wd_state w))) w in
    (w, [FDeleteDelivery clientID]).

Definition shouldExpireClosedClient (io : CloseIO) (clientID ownerToken : string) (w : World) : bool :=
  if bool_decide (clientID = "") || bool_decide (ownerToken = "") then true
  else if li_ownerErr io then true
  else match GetSessionOwner (rs_sessions (wd_state w)) clientID with
       | (Some owner, true) => negb (ow_Online owner) && bool_decide (ow_OwnerToken owner = ownerToken)
       | _ => true
       end.

(** [willMessagePublisher.publish]. *)
Definition willPublish (cfg : CloseConfig) (io : CloseIO) (clientID ownerToken : string) (publishContent : option Publish) (willDelay : Z) : list Effect :=
  match publishContent with
  | Some p => if lg_willChan cfg && li_sent io then [FWill (mkMessage p clientID ownerToken true) willDelay] else []
  | None => []
  end.

Definition scheduleSessionExpiryCleanup (io : CloseIO) (publishWillAtExpiry : bool) (c : Client) (w : World) : World * list Effect :=
  match sessionExpiryDuration (cl_sessionExpiryInterval c) with
  | None => (w, [])
  | Some expiry =>
      if expiry =? 0 then cleanupExpiredSessionState io (cl_ID c) (cl_ownerToken c) w
      else
        let expiry := if cl_willScheduledAtSessionExpiry c then expiry + 2 * second else expiry in
        let '(publishContent, willDelay) :=
          match cl_willMessage c with
          | Some (p, d) => if publishWillAtExpiry then (Some p, d) else (None, 0)
          | None => (None, 0)
          end in
        (w, [FTimer expiry (TExpiry (cl_ID c) (cl_ownerToken c) publishContent willDelay)])
  end.

(** ** The will *)

Definition hydrateWillPropertiesFromSession (io : CloseIO) (clientID : string) (publishContent : Publish) (w : World) : Publish :=
  match pub_Properties publishContent with
  | Some _ => publishContent
  | None =>
      if li_getSessionErr io then publishContent
      else match GetSession (li_clock io) (rs_sessions (wd_state w)) clientID 0 with
           | (Some session, true) =>
               match ss_WillMessage session with
               | None => publishContent
               | Some willMsg =>
                   mkPublish (pub_Payload publishContent) (pub_Topic publishContent) (Some (ProtoToWillProperties willMsg))
                     (pub_PacketID publishContent) (pub_QoS publishContent) (pub_Duplicate publishContent) (pub_Retain publishContent)
               end
           | _ => publishContent
           end
  end.

(** The PUBLISH of the will, with properties filled in, and its delay. *)
Definition willPublishOnClose (io : CloseIO) (c : Client) (w : World) : option (Publish * Z) :=
  match cl_willMessage c with
  | None => None
  | Some (publishContent, willDelay) =>
      if negb (cl_connAckAccepted c) then None
      else if negb (shouldPublishWillForDisconnect (cl_disconnectWithoutWill c)) then None
      else Some (hydrateWillPropertiesFromSession io (cl_ID c) publishContent w, willDelay)
  end.

Definition shouldPublishWillAtSessionExpiry (willDelay : Z) (expiry : option Z) : bool :=
  match expiry with None => false | Some expiry => (0 <? willDelay) && (expiry <=? willDelay) end.

(** [AddTask] of the center; it does not panic on a store its operations built. *)
Definition addWillTask (io : CloseIO) (c : Client) (delay : Z) (w : World) : World * bool :=
  let task := mkWillTask (cl_ID c) (li_willNow io `div` 1000 + delay `div` 1000) (cl_ownerToken c) in
  if li_addTaskErr io then (w, false)
  else match AddTask (Some task) (wd_wills w) with
       | Some (wills, Ok _) => (with_wills wills w, true)
       | _ => (w, false)
       end.

Definition scheduleWillAtSessionExpiryTask (cfg : CloseConfig) (io : CloseIO) (expiry : Z) (c : Client) (w : World) : World * bool :=
  if (expiry <=? 0) || negb (lg_willDelayCenter cfg) then (w, false)
  else if bool_decide (cl_ownerToken c = "") then (w, false)
  else addWillTask io c expiry w.

Definition scheduleLocalWillDelayFallback (cfg : CloseConfig) (willDelay : Z) (c : Client) : list Effect * bool :=
  if (willDelay <=? 0) || negb (lg_willChan cfg) then ([], false)
  else ([FTimer willDelay (TWill (cl_ID c) (cl_ownerToken c) (clonePublish ∘ fst <$> cl_willMessage c) willDelay)], true).

Definition scheduleWillDelay (cfg : CloseConfig) (io : CloseIO) (willDelay : Z) (c : Client) (w : World) : World * list Effect * bool :=
  if willDelay <=? 0 then (w, [], false)
  else if bool_decide (cl_ownerToken c = "") then (w, [], false)
  else
    let fallback := let '(fx, ok) := scheduleLocalWillDelayFallback cfg willDelay c in (w, fx, ok) in
    if negb (lg_willDelayCenter cfg) then fallback
    else let '(w', ok) := addWillTask io c willDelay w in if ok then (w', [], true) else fallback.

(** The result tells whether the will is left to the expiry of the session. *)
Definition handleWillOnClose (cfg : CloseConfig) (io : CloseIO) (c : Client) (w : World) : Client * World * list Effect * bool :=
  match willPublishOnClose io c w with
  | None => (c, w, [], false)
  | Some (publishContent, willDelay) =>
      let c := cl_will (Some (publishContent, willDelay)) c in
      if bool_decide (cl_ownerToken c = "") then (c, w, [], false)
      else
        let publishNow := willPublish cfg io (cl_ID c) (cl_ownerToken c) (Some publishContent) willDelay in
        let expiry := sessionExpiryDuration (cl_sessionExpiryInterval c) in
        if bool_decide (expiry = Some 0) then (c, w, publishNow, false)
        else if shouldPublishWillAtSessionExpiry willDelay expiry then
          let '(w, ok) := scheduleWillAtSessionExpiryTask cfg io (default 0 expiry) c w in
          if ok then (cl_scheduled c, w, [], false) else (c, w, [], true)
        else
          let '(w, fx, ok) := scheduleWillDelay cfg io willDelay c w in
          if ok then (c, w, fx, false)
          else if willDelay <=? 0 then (c, w, fx ++ publishNow, false)
          else (c, w, fx, false)
  end.

(** ** Closing *)

Definition close (cfg : CloseConfig) (io : CloseIO) (c : Client) (w : World) : Client * World * list Effect :=
  if cl_closed c then (c, w, [])
  else
    let fx := (if lg_shared cfg && negb (bool_decide (cl_ID c = "")) then [FOffline (cl_ID c)] else []) ++
      (if cl_deliveryListener c && negb (bool_decide (cl_ID c = "")) then [FDeleteListener (cl_ID c)] else []) ++ [FConnClose] in
    let w := persistUnfinishedMessagesToSession cfg io c w in
    let fx := fx ++ [FKeepAliveDelete (cl_ID c) (cl_ownerToken c)] in
    let '(c, w, fx1, publishWillAtExpiry) := handleWillOnClose cfg io c w in
    let '(w, fx2) := scheduleSessionExpiryCleanup io publishWillAtExpiry c w in
    (cl_close c, w, fx ++ fx1 ++ fx2).

Definition writeDisconnectAndCloseLocked (cfg : CloseConfig) (io : CloseIO) (packet : Packet) (c : Client) (w : World) : Client * World * list Effect :=
  let '(c', w', fx) := close cfg io c w in
  (c', w', (if canSendDisconnect c then [FWrite packet] else []) ++ fx).

Definition closeWithDisconnectLocked (cfg : CloseConfig) (io : CloseIO) (packet : Packet) (c : Client) (w : World) : Client * World * list Effect :=
  writeDisconnectAndCloseLocked cfg io packet (cl_flag 0 c) w.
Definition closeWithDisconnectKeepWillLocked (cfg : CloseConfig) (io : CloseIO) (packet : Packet) (c : Client) (w : World) : Client * World * list Effect :=
  writeDisconnectAndCloseLocked cfg io packet c w.

Definition ForSessionTakenOver : Packet := NewServerDisconnect 0x8E "session taken over".
Definition closeWithSessionTakenOverLocked (cfg : CloseConfig) (io : CloseIO) (c : Client) (w : World) : Client * World * list Effect :=
  closeWithDisconnectLocked cfg io ForSessionTakenOver c w.

(** ** The timers *)

Definition fireTimer (cfg : CloseConfig) (io : CloseIO) (t : Timer) (w : World) : World * list Effect :=
  match t with
  | TExpiry clientID ownerToken publishContent willDelay =>
      if negb (shouldExpireClosedClient io clientID ownerToken w) then (w, [])
      else
        let '(w, fx) := cleanupExpiredSessionState io clientID ownerToken w in
        (w, willPublish cfg io clientID ownerToken publishContent willDelay ++ fx)
  | TWill clientID ownerToken publishContent willDelay =>
      if negb (shouldExpireClosedClient io clientID ownerToken w) then (w, [])
      else
        let content :=
          if li_getSessionErr io then publishContent
          else match GetSession (li_clock io) (rs_sessions (wd_state w)) clientID 0 with
               | (Some session, true) =>
                   match ss_WillMessage session with
                   | None => publishContent
                   | Some willMsg =>
                       Some (mkPublish (wm_Payload willMsg) (wm_Topic willMsg) (Some (ProtoToWillProperties willMsg)) 0
                               (wrap 8 (wm_Qos willMsg)) false (wm_Retain willMsg))
                   end
               | _ => publishContent
               end in
        (w, willPublish cfg io clientID ownerToken content willDelay)
  end.

#[global] Arguments close : simpl never.
