(* ===== verification/LifecycleProofs.v ===== *)
(** * Properties of the end of a connection

    - [close] settles the will exactly once: nothing, now, or scheduled for the earlier of
      its delay and the session's expiry;
    - together with the scanner: a will whose delay ends before the session is published once,
      one that falls due at the session's expiry is not;
    - the close of a connection that lost its session to another one. *)

From S2P Require Import Prelude GoStrings Mqtt5 Retain SubCenter SessionCore StateRouter WillDelay WillDelayProofs Downlink Lifecycle.

(** ** The will *)

(** The will is to be published when this connection closes. *)
Definition will_due (c : Client) : bool :=
  cl_connAckAccepted c && shouldPublishWillForDisconnect (cl_disconnectWithoutWill c) && negb (bool_decide (cl_ownerToken c = "")).

(** When, counted from the close: now, or the earlier of delay and expiry. *)
Definition will_after (interval delay : Z) : Z :=
  match sessionExpiryDuration interval with
  | Some expiry => if (delay <=? 0) || (expiry =? 0) then 0 else Z.min expiry delay
  | None => Z.max 0 delay
  end.

(** The part of a PUBLISH a will fixes besides its properties. *)
Definition content (p : Publish) : string * list byte * Z * bool := (pub_Topic p, pub_Payload p, pub_QoS p, pub_Retain p).

(** The wills published or left to timers, with their delays. *)
Definition will_effect (e : Effect) : option (Z * (string * list byte * Z * bool)) :=
  match e with
  | FWill m _ => Some (0, content (mg_Publish m))
  | FTimer d (TExpiry _ _ (Some p) _) | FTimer d (TWill _ _ (Some p) _) => Some (d, content p)
  | _ => None
  end.
Definition wills_of (fx : list Effect) : list (Z * (string * list byte * Z * bool)) := omap will_effect fx.

Lemma content_hydrate io id p w : content (hydrateWillPropertiesFromSession io id p w) = content p.
Proof.
  unfold hydrateWillPropertiesFromSession. destruct (pub_Properties p); [done|].
  destruct (li_getSessionErr io); [done|]. destruct (GetSession _ _ _ _) as [[s|] []]; try done.
  by destruct (ss_WillMessage s).
Qed.

(** Fields that preparing the will leaves alone. *)
Lemma cl_will_fields x c :
  cl_ID (cl_will x c) = cl_ID c ∧ cl_ownerToken (cl_will x c) = cl_ownerToken c ∧
  cl_sessionExpiryInterval (cl_will x c) = cl_sessionExpiryInterval c ∧ cl_willMessage (cl_will x c) = x ∧
  cl_willScheduledAtSessionExpiry (cl_will x c) = cl_willScheduledAtSessionExpiry c.
Proof. by destruct c. Qed.
Lemma cl_scheduled_fields c :
  cl_ID (cl_scheduled c) = cl_ID c ∧ cl_ownerToken (cl_scheduled c) = cl_ownerToken c ∧
  cl_sessionExpiryInterval (cl_scheduled c) = cl_sessionExpiryInterval c ∧ cl_willMessage (cl_scheduled c) = cl_willMessage c ∧
  cl_willScheduledAtSessionExpiry (cl_scheduled c) = true.
Proof. by destruct c. Qed.

(** The center schedules one task for the client's owner token. *)
Definition schedules (io : CloseIO) (c : Client) (delay : Z) (w w' : World) : Prop :=
  will_ok (wd_wills w') ∧
  ∀ i k, scheduled (wd_wills w') i k =
    if decide (i = cl_ID c ∧ k = cl_ownerToken c) then Some (li_willNow io `div` 1000 + delay `div` 1000)
    else scheduled (wd_wills w) i k.

Lemma addWillTask_ok io c delay w :
  will_ok (wd_wills w) → cl_ID c ≠ "" → cl_ownerToken c ≠ "" → nul_free (cl_ID c) →
  let '(w', ok) := addWillTask io c delay w in
  wd_state w' = wd_state w ∧
  if li_addTaskErr io then w' = w ∧ ok = false else ok = true ∧ schedules io c delay w w'.
Proof.
  intros Hw Hi Ht Hn. unfold addWillTask. destruct (li_addTaskErr io); [done|].
  set (t := mkWillTask _ _ _). assert (task_ok t) as Hok by done.
  destruct (putTask_ok (wd_wills w) t Hw Hok) as (x & Hp & Hx & E).
  unfold AddTask. rewrite (proj2 (ValidateTaskForAdd_Ok t tt)) by done. rewrite Hp. cbn.
  split; [done|]. split; [done|]. split; [done|]. intros i k. cbn [with_wills wd_wills].
  by rewrite (scheduled_put (wd_wills w) x t Hw Hok E).
Qed.

Section settle.
Context (cfg : CloseConfig) (io : CloseIO).
Hypothesis (Hchan : lg_willChan cfg = true) (Hsent : li_sent io = true).

(** What is to become of the will of [c]; [fx] are the effects of closing. *)
Definition settled_will (c : Client) (w w' : World) (fx : list Effect) : Prop :=
  match cl_willMessage c with
  | Some (p, delay) =>
      let after := will_after (cl_sessionExpiryInterval c) delay in
      if will_due c then
        if (0 <? after) && lg_willDelayCenter cfg && negb (li_addTaskErr io)
        then schedules io c after w w' ∧ wills_of fx = []
        else wd_wills w' = wd_wills w ∧ wills_of fx = [(after, content p)]
      else wd_wills w' = wd_wills w ∧ wills_of fx = []
  | None => wd_wills w' = wd_wills w ∧ wills_of fx = []
  end.

Lemma willPublish_now c p d : wills_of (willPublish cfg io (cl_ID c) (cl_ownerToken c) (Some p) d) = [(0, content p)].
Proof. unfold willPublish. by rewrite Hchan, Hsent. Qed.

Lemma expiry_effects pub c w :
  let '(w', fx) := scheduleSessionExpiryCleanup io pub c w in
  wd_wills w' = wd_wills w ∧
  wills_of fx =
    match sessionExpiryDuration (cl_sessionExpiryInterval c), cl_willMessage c with
    | Some expiry, Some (p, _) =>
        if negb (expiry =? 0) && pub
        then [(if cl_willScheduledAtSessionExpiry c then expiry + 2 * second else expiry, content p)] else []
    | _, _ => []
    end.
Proof.
  unfold scheduleSessionExpiryCleanup, cleanupExpiredSessionState.
  destruct (sessionExpiryDuration _) as [e|]; [|done].
  destruct (e =? 0); cbn [negb andb].
  - case_bool_decide; [by destruct (cl_willMessage c) as [[]|]|].
    destruct (li_deleteSubsErr io), (li_deleteSessionErr io); by destruct (cl_willMessage c) as [[]|].
  - destruct (cl_willMessage c) as [[p d]|]; [|done]. by destruct pub.
Qed.

(** The three ways a due will goes. *)
Lemma scheduleWillDelay_spec c w d p d' :
  will_ok (wd_wills w) → cl_ID c ≠ "" → cl_ownerToken c ≠ "" → nul_free (cl_ID c) → 0 < d →
  cl_willMessage c = Some (p, d') →
  let '(w', fx, ok) := scheduleWillDelay cfg io d c w in
  ok = true ∧ wd_state w' = wd_state w ∧
  if lg_willDelayCenter cfg && negb (li_addTaskErr io) then schedules io c d w w' ∧ wills_of fx = []
  else w' = w ∧ wills_of fx = [(d, content p)].
Proof.
  intros Hw Hi Ht Hn Hd Hp. unfold scheduleWillDelay, scheduleLocalWillDelayFallback.
  replace (d <=? 0) with false by lia. rewrite (bool_decide_false (_ = "")) by done. rewrite Hchan, Hp. cbn.
  destruct (lg_willDelayCenter cfg); cbn; [|done].
  pose proof (addWillTask_ok io c d w Hw Hi Ht Hn) as H. destruct (addWillTask io c d w) as [w' ok].
  destruct H as [Hst H]. destruct (li_addTaskErr io); destruct H as [-> H]; cbn; [by rewrite H|done].
Qed.

Lemma scheduleAtExpiry_spec c w e :
  will_ok (wd_wills w) → cl_ID c ≠ "" → cl_ownerToken c ≠ "" → nul_free (cl_ID c) → 0 < e →
  let '(w', ok) := scheduleWillAtSessionExpiryTask cfg io e c w in
  wd_state w' = wd_state w ∧
  if lg_willDelayCenter cfg && negb (li_addTaskErr io) then ok = true ∧ schedules io c e w w' else ok = false ∧ w' = w.
Proof.
  intros Hw Hi Ht Hn He. unfold scheduleWillAtSessionExpiryTask. replace (e <=? 0) with false by lia.
  destruct (lg_willDelayCenter cfg); cbn; [|done]. rewrite (bool_decide_false (_ = "")) by done.
  pose proof (addWillTask_ok io c e w Hw Hi Ht Hn) as H. destruct (addWillTask io c e w) as [w' ok].
  destruct H as [Hst H]. destruct (li_addTaskErr io); destruct H as [-> H]; cbn; [by rewrite H|done].
Qed.

Lemma expiry_nonneg i e : 0 ≤ i → sessionExpiryDuration i = Some e → 0 ≤ e.
Proof. unfold sessionExpiryDuration, second. destruct (_ =? _); intros ? [= <-]. lia. Qed.

Lemma will_after_now i d : d ≤ 0 ∨ sessionExpiryDuration i = Some 0 → will_after i d = 0.
Proof.
  unfold will_after. intros [H|H].
  - destruct (sessionExpiryDuration i); [|lia]. by replace (d <=? 0) with true by lia.
  - rewrite H. by rewrite orb_true_r.
Qed.
Lemma will_after_expiry i d e : sessionExpiryDuration i = Some e → 0 < e → 0 < d → e ≤ d → will_after i d = e.
Proof.
  unfold will_after. intros -> ???. replace (d <=? 0) with false by lia. replace (e =? 0) with false by lia. cbn. lia.
Qed.
Lemma will_after_delay i d : 0 ≤ i → sessionExpiryDuration i ≠ Some 0 → 0 < d →
  shouldPublishWillAtSessionExpiry d (sessionExpiryDuration i) = false → will_after i d = d.
Proof.
  unfold will_after, shouldPublishWillAtSessionExpiry. intros Hi H0 Hd.
  destruct (sessionExpiryDuration i) as [e|]; [|lia].
  replace (0 <? d) with true by lia. cbn. intros He. replace (d <=? 0) with false by lia.
  destruct (e =? 0) eqn:E; [|cbn; lia]. assert (e = 0) by lia. by subst.
Qed.

(** What the handling of the will leaves to do: [pub] is its result. *)
Definition handled (c c1 : Client) (w w1 : World) (fx : list Effect) (pub : bool) : Prop :=
  wd_state w1 = wd_state w ∧
  if pub then
    ∃ p p' d, cl_willMessage c = Some (p, d) ∧ cl_willMessage c1 = Some (p', d) ∧ content p' = content p ∧ will_due c = true ∧
      cl_sessionExpiryInterval c1 = cl_sessionExpiryInterval c ∧
      cl_willScheduledAtSessionExpiry c1 = cl_willScheduledAtSessionExpiry c ∧
      sessionExpiryDuration (cl_sessionExpiryInterval c) = Some (will_after (cl_sessionExpiryInterval c) d) ∧
      0 < will_after (cl_sessionExpiryInterval c) d ∧ lg_willDelayCenter cfg && negb (li_addTaskErr io) = false ∧
      w1 = w ∧ fx = []
  else settled_will c w w1 fx.

Lemma handleWill_handled c w :
  will_ok (wd_wills w) → cl_ID c ≠ "" → nul_free (cl_ID c) → 0 ≤ cl_sessionExpiryInterval c →
  let '(c1, w1, fx1, pub) := handleWillOnClose cfg io c w in handled c c1 w w1 fx1 pub.
Proof.
  intros Hw Hid Hn Hi. unfold handled, handleWillOnClose, willPublishOnClose, settled_will, will_due.
  destruct (cl_willMessage c) as [[p d]|] eqn:Ew; [|done].
  destruct (cl_connAckAccepted c); cbn [negb andb]; [|done].
  destruct (shouldPublishWillForDisconnect _); cbn [negb andb]; [|done].
  set (p' := hydrateWillPropertiesFromSession io (cl_ID c) p w).
  assert (content p' = content p) as Hc by apply content_hydrate.
  destruct (cl_will_fields (Some (p', d)) c) as (Fid & Ftk & Fse & Fwm & Fws). set (c' := cl_will _ c) in *.
  assert (∀ delay w', schedules io c' delay w w' → schedules io c delay w w') as Hsch.
  { unfold schedules. by rewrite Fid, Ftk. }
  rewrite Ftk, Fse. case_bool_decide as Htk; cbn [negb]; [done|].
  assert (wills_of (willPublish cfg io (cl_ID c') (cl_ownerToken c) (Some p') d) = [(0, content p)]) as Hnow.
  { rewrite <-Ftk, willPublish_now, Hc. done. }
  case_bool_decide as He.
  { rewrite will_after_now by auto. done. }
  destruct (shouldPublishWillAtSessionExpiry d _) eqn:Esh.
  - unfold shouldPublishWillAtSessionExpiry in Esh. destruct (sessionExpiryDuration _) as [e|] eqn:Ee; [|done].
    pose proof (expiry_nonneg _ _ Hi Ee) as He0. assert (e ≠ 0) as He1 by congruence.
    assert (will_after (cl_sessionExpiryInterval c) d = e) as Ha by (apply will_after_expiry; [done|lia..]).
    rewrite !Ha. cbn [default from_option id]. pose proof (scheduleAtExpiry_spec c' w e Hw) as H.
    rewrite Fid, Ftk in H. specialize (H Hid Htk Hn ltac:(lia)).
    destruct (scheduleWillAtSessionExpiryTask cfg io e c' w) as [w' ok]. destruct H as [Hst H].
    replace (0 <? e) with true by lia. cbn [andb].
    destruct (lg_willDelayCenter cfg && negb (li_addTaskErr io)); destruct H as [-> H]; cbv beta iota.
    + split; [done|]. split; [by apply Hsch|done].
    + subst w'. split; [done|]. exists p, p', d. rewrite Ha. split_and!; try done. lia.
  - destruct (decide (d ≤ 0)) as [Hd|Hd].
    + unfold scheduleWillDelay. replace (d <=? 0) with true by lia. rewrite will_after_now by auto. done.
    + rewrite will_after_delay by (done || lia).
      pose proof (scheduleWillDelay_spec c' w d p' d Hw) as H. rewrite Fid, Ftk in H.
      specialize (H Hid Htk Hn ltac:(lia) Fwm). destruct (scheduleWillDelay cfg io d c' w) as [[w' fx] ok].
      destruct H as (-> & Hst & H). cbv beta iota. split; [done|]. replace (0 <? d) with true by lia. cbn [andb].
      destruct (lg_willDelayCenter cfg && negb (li_addTaskErr io)); destruct H as [H1 H2].
      * split; [by apply Hsch|done].
      * subst w'. by rewrite H2, Hc.
Qed.

Lemma wills_of_app fx fx' : wills_of (fx ++ fx') = wills_of fx ++ wills_of fx'.
Proof. apply omap_app. Qed.

(** With the timer of the session, the will is settled. *)
Lemma will_settled c w :
  will_ok (wd_wills w) → cl_ID c ≠ "" → nul_free (cl_ID c) → 0 ≤ cl_sessionExpiryInterval c →
  cl_willScheduledAtSessionExpiry c = false →
  let '(c1, w1, fx1, pub) := handleWillOnClose cfg io c w in
  let '(w2, fx2) := scheduleSessionExpiryCleanup io pub c1 w1 in
  wd_state w1 = wd_state w ∧ settled_will c w w2 (fx1 ++ fx2).
Proof.
  intros Hw Hid Hn Hi Hs. pose proof (handleWill_handled c w Hw Hid Hn Hi) as H.
  destruct (handleWillOnClose cfg io c w) as [[[c1 w1] fx1] pub]. destruct H as [Hst H].
  pose proof (expiry_effects pub c1 w1) as He. destruct (scheduleSessionExpiryCleanup io pub c1 w1) as [w2 fx2].
  destruct He as [Hwl Hfx]. split; [done|]. destruct pub.
  - destruct H as (p & p' & d & E1 & E2 & E3 & E4 & E5 & E6 & E7 & E8 & E9 & -> & ->).
    unfold settled_will. rewrite E1, E4. rewrite <-andb_assoc, E9, andb_false_r. split; [done|].
    cbn [app]. rewrite Hfx, E2, E5, E7, E6, Hs, E3. by replace (_ =? 0) with false by lia.
  - assert (wills_of fx2 = []) as Hnil.
    { rewrite Hfx. destruct (sessionExpiryDuration _), (cl_willMessage c1) as [[]|]; by rewrite ?andb_false_r. }
    unfold settled_will, schedules in *. by rewrite Hwl, wills_of_app, Hnil, app_nil_r.
Qed.

(** C11. Closing settles the will of an accepted connection exactly once: nothing after a
    DISCONNECT that discards it; otherwise it is published now when it has no delay or the
    session ends with the connection, and else scheduled for the earlier of its delay
    and the session's expiry, in the will-delay center or, failing that, on a timer. *)
Theorem close_settles_will c w :
  cl_closed c = false → will_ok (wd_wills w) → cl_ID c ≠ "" → nul_free (cl_ID c) → 0 ≤ cl_sessionExpiryInterval c →
  cl_willScheduledAtSessionExpiry c = false →
  let '(_, w', fx) := close cfg io c w in settled_will c w w' fx.
Proof.
  intros Hcl Hw Hid Hn Hi Hs. unfold close. rewrite Hcl.
  set (w0 := persistUnfinishedMessagesToSession cfg io c w).
  assert (wd_wills w0 = wd_wills w) as Hw0.
  { unfold w0, persistUnfinishedMessagesToSession. case_bool_decide; [done|]. by destruct (li_saveErr io). }
  pose proof (will_settled c w0) as H. rewrite Hw0 in H. specialize (H Hw Hid Hn Hi Hs).
  destruct (handleWillOnClose cfg io c w0) as [[[c1 w1] fx1] pub].
  destruct (scheduleSessionExpiryCleanup io pub c1 w1) as [w2 fx2]. destruct H as [_ H].
  unfold settled_will, schedules in *. rewrite <-Hw0. rewrite wills_of_app.
  replace (wills_of _) with (@nil (Z * (string * list byte * Z * bool))); [done|].
  by destruct (lg_shared cfg && _), (cl_deliveryListener c && _).
Qed.
End settle.

(** ** The session a close leaves *)

Lemma addWillTask_state io c d w : wd_state (addWillTask io c d w).1 = wd_state w.
Proof.
  unfold addWillTask. destruct (li_addTaskErr io); [done|]. by destruct (AddTask _ _) as [[? [[]|]]|].
Qed.

Lemma handleWill_state cfg io c w :
  wd_state (handleWillOnClose cfg io c w).1.1.2 = wd_state w.
Proof.
  unfold handleWillOnClose. destruct (willPublishOnClose io c w) as [[p d]|]; [|done].
  case_bool_decide; [done|]. case_bool_decide; [done|]. destruct (shouldPublishWillAtSessionExpiry _ _).
  - unfold scheduleWillAtSessionExpiryTask.
    match goal with |- context [addWillTask io ?x ?y ?z] => pose proof (addWillTask_state io x y z) as Hst end.
    destruct (_ || _); [done|]. case_bool_decide; [done|]. by destruct (addWillTask _ _ _ _) as [? []].
  - unfold scheduleWillDelay, scheduleLocalWillDelayFallback.
    match goal with |- context [addWillTask io ?x ?y ?z] => pose proof (addWillTask_state io x y z) as Hst end.
    destruct (d <=? 0); [done|]. case_bool_decide; [done|].
    destruct (lg_willDelayCenter cfg), (addWillTask _ _ _ _) as [? []], (lg_willChan cfg); done.
Qed.

Lemma handleWill_fields cfg io c w :
  let c1 := (handleWillOnClose cfg io c w).1.1.1 in
  cl_ID c1 = cl_ID c ∧ cl_ownerToken c1 = cl_ownerToken c ∧ cl_sessionExpiryInterval c1 = cl_sessionExpiryInterval c.
Proof.
  unfold handleWillOnClose. destruct (willPublishOnClose io c w) as [[p d]|]; [|done].
  destruct (cl_will_fields (Some (p, d)) c) as (H1 & H2 & H3 & _). set (c' := cl_will _ c) in *.
  destruct (cl_scheduled_fields c') as (G1 & G2 & G3 & _).
  case_bool_decide; [done|]. case_bool_decide; [done|]. destruct (shouldPublishWillAtSessionExpiry _ _).
  - destruct (scheduleWillAtSessionExpiryTask _ _ _ _ _) as [? []]; cbn; rewrite ?G1, ?G2, ?G3; done.
  - destruct (scheduleWillDelay _ _ _ _ _) as [[? ?] []]; [done|]. by destruct (d <=? 0).
Qed.

(** The centers after a close: saved, then removed when the session ends with it. *)
Lemma close_state cfg io c w : cl_closed c = false →
  let w0 := persistUnfinishedMessagesToSession cfg io c w in
  let '(_, w', _) := close cfg io c w in
  wd_state w' = if bool_decide (cl_sessionExpiryInterval c = 0)
                then wd_state (cleanupExpiredSessionState io (cl_ID c) (cl_ownerToken c) w0).1 else wd_state w0.
Proof.
  intros Hcl w0. unfold close. rewrite Hcl. fold w0.
  pose proof (handleWill_state cfg io c w0) as Hst. pose proof (handleWill_fields cfg io c w0) as (F1 & F2 & F3).
  destruct (handleWillOnClose cfg io c w0) as [[[c1 w1] fx1] pub]. cbn in Hst, F1, F2, F3.
  unfold scheduleSessionExpiryCleanup. rewrite F1, F2, F3.
  assert (∀ w', wd_state w' = wd_state w0 → wd_state (cleanupExpiredSessionState io (cl_ID c) (cl_ownerToken c) w').1 =
    wd_state (cleanupExpiredSessionState io (cl_ID c) (cl_ownerToken c) w0).1) as Hcu.
  { intros w' E. unfold cleanupExpiredSessionState. case_bool_decide; [done|].
    destruct (li_deleteSubsErr io), (li_deleteSessionErr io); cbn; by rewrite ?E. }
  unfold sessionExpiryDuration, second, neverExpireSessionInterval. destruct (_ =? 4294967295) eqn:En.
  { rewrite (bool_decide_false (_ = 0)) by lia. done. }
  destruct (_ =? 0) eqn:E0.
  - rewrite (bool_decide_true (_ = 0)) by lia. specialize (Hcu w1 Hst). by destruct (cleanupExpiredSessionState _ _ _ w1).
  - rewrite (bool_decide_false (_ = 0)) by lia. destruct (cl_willMessage c1) as [[]|]; [destruct pub|]; exact Hst.
Qed.

(** A connection that still owns its session. *)
Record owns (cfg : CloseConfig) (c : Client) (w : World) (ses : Session) (ow : SessionOwner) : Prop := {
  own_open : cl_closed c = false;
  own_id : cl_ID c ≠ "";
  own_node : lg_nodeID cfg ≠ 0;
  own_token : cl_ownerToken c ≠ "";
  own_session : c_Sessions (rs_sessions (wd_state w)) !! cl_ID c = Some ses;
  own_owner : c_Owners (rs_sessions (wd_state w)) !! cl_ID c = Some ow;
  own_same : ow_OwnerToken ow = cl_ownerToken c }.

(** Closing it keeps the will in the saved session, until the session's deadline, and
    marks the owner offline. *)
Lemma close_saves cfg io c w ses ow :
  owns cfg c w ses ow → li_saveErr io = false → cl_sessionExpiryInterval c ≠ 0 →
  shouldPublishWillForDisconnect (cl_disconnectWithoutWill c) = true → 0 < li_saveNow io →
  let '(_, w', _) := close cfg io c w in
  let core := rs_sessions (wd_state w') in
  (∃ s, c_Sessions core !! cl_ID c = Some s ∧ ss_WillMessage s = ss_WillMessage ses ∧
     ss_ExpireAtUnixNano s = sessionExpiryDeadlineUnixNano (cl_sessionExpiryInterval c) (li_saveNow io)) ∧
  c_Owners core !! cl_ID c = Some (mkOwner (ow_ClientID ow) (ow_NodeID ow) (ow_OwnerToken ow) false).
Proof.
  intros [H1 H2 H3 H4 H5 H6 H7] Hse Hi Hfl Hnow. pose proof (close_state cfg io c w H1) as Hst.
  destruct (close cfg io c w) as [[c' w'] fx]. cbn zeta in Hst. rewrite bool_decide_false in Hst by done.
  cbn zeta. rewrite Hst. unfold persistUnfinishedMessagesToSession. rewrite bool_decide_false, Hse by done.
  cbn [with_state wd_state]. unfold SaveOfflineState, validateClientOwnerRequest. cbn [sv_ClientID sv_OwnerToken sv_BrokerNodeID].
  rewrite !bool_decide_false by done. replace (lg_nodeID cfg =? 0) with false by lia.
  cbn [sv_UnfinishedMessages sv_ClearWill sv_SessionExpiryInterval sv_NowUnixNano sv_OutgoingReplayCursor].
  unfold saveOfflineState. cbn [sor_ClientID sor_OwnerToken]. rewrite !bool_decide_false by done. cbn [negb].
  rewrite H6, H7, bool_decide_true by done. cbn [negb sor_SessionExpiryInterval].
  replace (cl_sessionExpiryInterval c =? 0) with false by lia. rewrite H5.
  cbn [c_Owners set_session]. rewrite H6. cbn [fst rs_sessions set_owner set_session c_Sessions c_Owners].
  rewrite !lookup_insert_eq, H7. split; [|done]. eexists. split; [done|]. cbn. split.
  - unfold shouldPublishWillForDisconnect in Hfl. by destruct (_ =? 4), (_ =? -1).
  - unfold requestNowUnixNano. by replace (0 <? li_saveNow io) with true by lia.
Qed.

(** ** With the scanner *)

(** What [io] says about executing the task [t] while nobody has reconnected: the centers
    are as [close] left them, the queries work, the channel takes the message. *)
Record undisturbed (w : World) (io : TaskIO) : Prop := {
  un_sessions : io_session io = rs_sessions (wd_state w);
  un_owner : io_ownerErr io = false;
  un_session : io_sessionErr io = false;
  un_sent : io_sent io = true }.

Section scanner.
Context (cfg : CloseConfig) (io : CloseIO) (c : Client) (w : World) (ses : Session) (ow : SessionOwner) (p : Publish) (d : Z).
Context (range : map_range) {Hrange : range_ok range}.
Hypothesis (Hchan : lg_willChan cfg = true) (Hsent : li_sent io = true).
Hypothesis (Hcenter : lg_willDelayCenter cfg = true) (Hadd : li_addTaskErr io = false) (Hsave : li_saveErr io = false).
Hypothesis (Hown : owns cfg c w ses ow) (Hnul : nul_free (cl_ID c)) (Hwills : will_ok (wd_wills w)).
Hypothesis (Hnew : cl_willScheduledAtSessionExpiry c = false).
Hypothesis (Hwill : cl_willMessage c = Some (p, d)) (Hdue : will_due c = true) (Hd : 0 < d).
Hypothesis (Hint : is_u32 (cl_sessionExpiryInterval c)) (Hi0 : cl_sessionExpiryInterval c ≠ 0).
Hypothesis (Hnow : 0 < li_saveNow io < 2 ^ 62).

Definition closed_world : World := (close cfg io c w).1.2.
Definition will_time : Z := li_willNow io `div` 1000 + will_after (cl_sessionExpiryInterval c) d `div` 1000.
Definition will_task : WillDelayTask := mkWillTask (cl_ID c) will_time (cl_ownerToken c).

Lemma will_after_positive : 0 < will_after (cl_sessionExpiryInterval c) d.
Proof using Hd Hi0 Hint.
  unfold will_after, sessionExpiryDuration, second. destruct Hint as [? _]. destruct (_ =? _); [lia|].
  replace (d <=? 0) with false by lia. replace (_ =? 0) with false by lia. cbn. lia.
Qed.

(** The task is in the store, and is the only one of the client's owner token. *)
Lemma closed_schedules : will_ok (wd_wills closed_world) ∧
  scheduled (wd_wills closed_world) (cl_ID c) (cl_ownerToken c) = Some will_time.
Proof using All.
  pose proof (close_settles_will cfg io Hchan Hsent c w) as H. destruct Hown as [H1 H2 H3 H4 H5 H6 H7].
  specialize (H H1 Hwills H2 Hnul ltac:(destruct Hint; lia) Hnew). unfold closed_world.
  destruct (close cfg io c w) as [[c' w'] fx]. unfold settled_will in H. rewrite Hwill, Hdue, Hcenter, Hadd in H.
  pose proof will_after_positive. replace (0 <? _) with true in H by lia. destruct H as [[H8 H9] _].
  split; [done|]. cbn. rewrite H9. by rewrite decide_True.
Qed.

Lemma session_deadline : cl_sessionExpiryInterval c ≠ neverExpireSessionInterval →
  sessionExpiryDeadlineUnixNano (cl_sessionExpiryInterval c) (li_saveNow io) =
  li_saveNow io + cl_sessionExpiryInterval c * second.
Proof using Hint Hi0 Hnow.
  intros Hn. unfold sessionExpiryDeadlineUnixNano, second. replace (_ =? 0) with false by lia.
  replace (_ =? neverExpireSessionInterval) with false by lia. cbn [orb]. destruct Hint.
  unfold wrap_i64. rewrite (Z.mod_small (_ * _ + _)), (Z.mod_small (_ + _ + _)) by lia. lia.
Qed.

(** What a scan does with the task: it publishes the session's will while it lives. *)
Lemma published_after_close tio : undisturbed closed_world tio →
  let live := bool_decide (cl_sessionExpiryInterval c = neverExpireSessionInterval) ||
              (io_clock tio <? li_saveNow io + cl_sessionExpiryInterval c * second) in
  published tio will_task = if live then will_publication will_task <$> ss_WillMessage ses else None.
Proof using All.
  intros [U1 U2 U3 U4]. pose proof Hown as [H1 H2 H3 H4 H5 H6 H7].
  assert (shouldPublishWillForDisconnect (cl_disconnectWithoutWill c) = true) as Hfl.
  { unfold will_due in Hdue. by destruct (cl_connAckAccepted c), (shouldPublishWillForDisconnect _). }
  pose proof (close_saves cfg io c w ses ow Hown Hsave Hi0 Hfl ltac:(lia)) as H.
  unfold closed_world in U1. destruct (close cfg io c w) as [[c' w'] fx]. cbn in U1. cbn zeta in H.
  destruct H as [(s & Hs & Hsw & Hse) Ho]. rewrite <-U1 in Hs, Ho.
  unfold published, willDelayTaskOwnerStillValid, GetSessionOwner, live_will, GetSession. cbn [wt_OwnerToken wt_ClientID will_task].
  rewrite (bool_decide_false (_ = "")) by done. rewrite U2, U3, U4, Ho. cbn [bool_decide].
  change (bool_decide (is_Some (Some _))) with true. cbn [ow_OwnerToken ow_Online].
  rewrite bool_decide_false by (rewrite H7; naive_solver). cbn [negb andb].
  rewrite Hs. change (requestNowUnixNano (io_clock tio) 0) with (io_clock tio). cbn [sessionExpired]. rewrite Hse.
  destruct (decide (cl_sessionExpiryInterval c = neverExpireSessionInterval)) as [Hn|Hn].
  - rewrite (bool_decide_true (_ = _)) by done. cbn [orb].
    unfold sessionExpiryDeadlineUnixNano. rewrite Hn. cbn. by rewrite Hsw.
  - rewrite (bool_decide_false (_ = _)) by done. cbn [orb]. rewrite (session_deadline Hn).
    destruct Hint. unfold second. replace (0 <? _) with true by lia. cbn [andb].
    destruct (_ <=? io_clock tio) eqn:E.
    + by replace (_ <? _) with false by lia.
    + replace (_ <? _) with true by lia. cbn. by rewrite Hsw.
Qed.

(** A scan, seen from the client: its messages come from this task alone. *)
Lemma scan_after_close (sio : WillDelayTask → TaskIO) now :
  undisturbed closed_world (sio will_task) →
  ∃ s' out, scanAndExecute (WillCenter0 := core_center range Hrange) sio now (wd_wills closed_world) = Some (s', out) ∧
    of_owner (cl_ID c) (cl_ownerToken c) out = if decide (will_time ≤ now) then option_list (published (sio will_task) will_task) else [].
Proof using All.
  intros Hu. destruct closed_schedules as [Hok Hs].
  destruct (scan_owner (WillCenter0 := core_center range Hrange) sio now (wd_wills closed_world) will_task Hok Hs) as (s' & out & Hrun & _ & Ho & _).
  by exists s', out.
Qed.

Lemma will_time_delay : cl_sessionExpiryInterval c = neverExpireSessionInterval ∨ d < cl_sessionExpiryInterval c * second →
  will_time = li_willNow io `div` 1000 + d `div` 1000.
Proof using Hd Hi0.
  intros Hlt. unfold will_time. do 2 f_equal. unfold will_after, sessionExpiryDuration. destruct (_ =? neverExpireSessionInterval) eqn:E; [lia|].
  destruct Hlt as [Hx|Hx]; [lia|]. unfold second in *. replace (d <=? 0) with false by lia. replace (_ =? 0) with false by lia. cbn. lia.
Qed.

(** C12. A will whose delay ends before its session expires is published exactly once.  The client
    is gone and has not come back; of the scans that follow, those before the delay is over are
    arbitrary, then comes one after the delay, before the session expires, whose queries work,
    whose message the channel takes and whose deletion of the task succeeds, and then any more.
    None of them fails, and all the messages they hand over for this client and owner token
    are one: the will of the CONNECT as the session stored it.  Afterwards the task is gone. *)
Theorem delayed_will_published wm early (sio : WillDelayTask → TaskIO) now late :
  let at_time := li_willNow io `div` 1000 + d `div` 1000 in
  ss_WillMessage ses = Some wm →
  cl_sessionExpiryInterval c = neverExpireSessionInterval ∨ d < cl_sessionExpiryInterval c * second →
  Forall (λ r, r.2 < at_time) early → at_time ≤ now →
  undisturbed closed_world (sio will_task) → io_deleteErr (sio will_task) = false →
  cl_sessionExpiryInterval c = neverExpireSessionInterval ∨
    io_clock (sio will_task) < li_saveNow io + cl_sessionExpiryInterval c * second →
  ∃ s' out, scan_rounds (WillCenter0 := core_center range Hrange) (early ++ (sio, now) :: late) (wd_wills closed_world) = Some (s', out) ∧
    of_owner (cl_ID c) (cl_ownerToken c) out = [will_publication will_task wm] ∧
    scheduled s' (cl_ID c) (cl_ownerToken c) = None.
Proof using All.
  intros at_time Hwm Hlt Hearly Hle Hu Hdel Hlive. destruct closed_schedules as [Hok Hs].
  pose proof (will_time_delay Hlt) as Ht. fold at_time in Ht. rewrite <-Ht in Hearly, Hle.
  pose proof (published_after_close _ Hu) as Hpub. cbv zeta in Hpub.
  replace (bool_decide _ || _) with true in Hpub; [|symmetry; apply orb_true_iff; rewrite bool_decide_eq_true, Z.ltb_lt; done].
  rewrite Hwm in Hpub. cbn [fmap option_fmap option_map] in Hpub.
  destruct (rounds_early (WillCenter0 := core_center range Hrange) early will_task Hearly (wd_wills closed_world) Hok Hs) as (s1 & out1 & Hr1 & Hok1 & Ho1 & Hp1).
  destruct (scan_owner (WillCenter0 := core_center range Hrange) sio now s1 will_task Hok1 Hp1) as (s2 & out2 & Hr2 & Hok2 & Ho2 & Hp2).
  rewrite decide_True, Hpub in Ho2 by done. rewrite decide_True in Hp2.
  2: { split_and!; [done| |done]. pose proof Hu as [_ _ U3 U4]. unfold settled. rewrite U3, U4. by rewrite orb_true_r, orb_true_r. }
  destruct (rounds_no_owner (WillCenter0 := core_center range Hrange) late (cl_ID c) (cl_ownerToken c) s2 Hok2 Hp2) as (s' & out3 & Hr3 & _ & Ho3 & Hp3).
  cbn [will_task wt_ClientID wt_OwnerToken] in Ho1, Ho2.
  exists s', (out1 ++ out2 ++ out3). split_and!; [|by rewrite !of_owner_app, Ho1, Ho2, Ho3|done].
  eapply scan_rounds_app; [exact Hr1|]. cbn [scan_rounds]. rewrite Hr2. cbn [mbind option_bind]. by rewrite Hr3.
Qed.

(** A will that is to be published when the session expires is lost: with a delay at or
    beyond the session expiry the task falls due at the session's deadline or later, and
    the scanner then finds no session and publishes nothing for the client. *)
Theorem will_at_session_expiry_lost (sio : WillDelayTask → TaskIO) now :
  cl_sessionExpiryInterval c ≠ neverExpireSessionInterval → cl_sessionExpiryInterval c * second ≤ d →
  li_saveNow io ≤ 1000 * (li_willNow io `div` 1000) →
  undisturbed closed_world (sio will_task) → 1000 * now ≤ io_clock (sio will_task) →
  ∃ s' out, scanAndExecute (WillCenter0 := core_center range Hrange) sio now (wd_wills closed_world) = Some (s', out) ∧
    ∀ m, m ∈ out → ¬ (mg_SendClientID m = cl_ID c ∧ mg_OwnerToken m = cl_ownerToken c).
Proof using All.
  intros Hn Hle Ht Hu Hclk. destruct (scan_after_close sio now Hu) as (s' & out & Hrun & Hm).
  exists s', out. split; [done|]. intros m Hin Hfrom.
  assert (m ∈ of_owner (cl_ID c) (cl_ownerToken c) out) as Hmem by (by apply list_elem_of_filter).
  rewrite Hm in Hmem. destruct (decide (will_time ≤ now)) as [Hdue'|]; [|by apply elem_of_nil in Hmem].
  destruct (published _ will_task) as [m'|] eqn:Hp; [|by apply elem_of_nil in Hmem]. rewrite (published_after_close _ Hu) in Hp.
  rewrite (bool_decide_false (_ = _)) in Hp by done. cbn [orb] in Hp.
  assert (will_after (cl_sessionExpiryInterval c) d = cl_sessionExpiryInterval c * second) as Ha.
  { destruct Hint. apply will_after_expiry; [|unfold second in *; lia..].
    unfold sessionExpiryDuration. by replace (_ =? neverExpireSessionInterval) with false by lia. }
  unfold will_time in Hdue'. rewrite Ha in Hdue'. unfold second in *.
  assert ((cl_sessionExpiryInterval c * 1000000000) `div` 1000 = cl_sessionExpiryInterval c * 1000000) as Hdiv.
  { replace (cl_sessionExpiryInterval c * 1000000000) with (cl_sessionExpiryInterval c * 1000000 * 1000) by lia. apply Z.div_mul. lia. }
  rewrite Hdiv in Hdue'. destruct (_ <? _) eqn:E in Hp; [lia|done].
Qed.
End scanner.

(** ** A connection that lost its session *)

(** The close of a connection whose session another connection has taken over leaves
    both centers alone, unless its own session was to end with it: then the session and
    the owner record of the new connection are deleted (its subscriptions are not). *)
Lemma superseded_close cfg io c w ow :
  cl_closed c = false → cl_ID c ≠ "" → cl_ownerToken c ≠ "" →
  c_Owners (rs_sessions (wd_state w)) !! cl_ID c = Some ow → ow_OwnerToken ow ≠ cl_ownerToken c →
  getOwnerToken (rs_subs (wd_state w)) (cl_ID c) = ow_OwnerToken ow →
  let '(_, w', _) := close cfg io c w in
  wd_state w' =
    if bool_decide (cl_sessionExpiryInterval c = 0) && negb (li_deleteSessionErr io)
    then mkRouterState (deleteSession (cl_ID c) (rs_sessions (wd_state w))) (rs_subs (wd_state w))
    else wd_state w.
Proof.
  intros Hcl Hid Htk Ho Hne Hsub. pose proof (close_state cfg io c w Hcl) as Hst.
  destruct (close cfg io c w) as [[c' w'] fx]. rewrite Hst. clear Hst.
  assert (wd_state (persistUnfinishedMessagesToSession cfg io c w) = wd_state w) as Hp.
  { unfold persistUnfinishedMessagesToSession. rewrite (bool_decide_false (cl_ID c = "")) by done.
    destruct (li_saveErr io); [done|]. cbn [with_state wd_state]. unfold SaveOfflineState.
    destruct (validateClientOwnerRequest _ _ _); [|done]. unfold saveOfflineState. cbn [sor_ClientID sor_OwnerToken sv_ClientID sv_OwnerToken].
    rewrite !(bool_decide_false (_ = "")) by done. cbn [negb]. rewrite Ho, bool_decide_false by done. cbn.
    by destruct (wd_state w). }
  case_bool_decide; cbn [andb]; [|done]. unfold cleanupExpiredSessionState. rewrite (bool_decide_false (_ = "")) by done.
  unfold DeleteClient. cbn [dr_ClientID dr_OwnerToken]. rewrite Hp, Hsub, !bool_decide_false by done. cbn [negb andb fst].
  destruct (li_deleteSubsErr io), (li_deleteSessionErr io); cbn; rewrite ?Hp; by destruct (wd_state w).
Qed.

(** ** Witnesses *)

Definition demo_cfg : CloseConfig := mkCloseConfig 1 false true true.
Definition demo_close : CloseIO := mkCloseIO 1000000 2000000 1000000 [] None false false false false false false true.
Definition demo_will : WillMessage := mkWillMessage "wills/c" [] 1 false ∅ None None None None [] None None.
Definition demo_publish : Publish := mkPublish [] "wills/c" None 0 1 false false.
Definition demo_client (interval delay : Z) : Client :=
  mkClient "c" "tok" true false (-1) false interval interval (Some (demo_publish, delay)) false false.
Definition demo_session : Session := mkSession "c" (Some demo_will) [] 60 0 None.
Definition demo_owner : SessionOwner := mkOwner "c" 1 "tok" true.
Definition demo_world (token : string) : World :=
  mkWorld (mkRouterState (mkCore {["c" := demo_session]} {["c" := mkOwner "c" 1 token true]})
    (setOwnerToken NewMemorySubCenter "c" token)) NewWillCore.

Lemma demo_owns interval delay : owns demo_cfg (demo_client interval delay) (demo_world "tok") demo_session demo_owner.
Proof. by split. Qed.
Lemma demo_nul : nul_free "c".
Proof. apply (bool_decide_unpack _). vm_compute. exact I. Qed.

Lemma close_settles_will_witness :
  let '(_, w', fx) := close demo_cfg demo_close (demo_client 60 5000000000) (demo_world "tok") in
  settled_will demo_cfg demo_close (demo_client 60 5000000000) (demo_world "tok") w' fx.
Proof.
  apply (close_settles_will demo_cfg demo_close eq_refl eq_refl (demo_client 60 5000000000) (demo_world "tok"));
    [done|apply will_ok_New|done|apply demo_nul|done|done].
Defined.

(** The session center as the close left it, asked at [clock]. *)
Definition demo_scan (interval delay clock : Z) (t : WillDelayTask) : TaskIO :=
  mkTaskIO (rs_sessions (wd_state (closed_world demo_cfg demo_close (demo_client interval delay) (demo_world "tok"))))
    false false clock true false.

(** Scans at 4 s, 5 s and 6 s (the owner query of the last one fails). *)
Lemma delayed_will_published_witness :
  let sio := demo_scan 60 5000000000 5003000000 in
  ∃ s' out, scan_rounds (WillCenter0 := core_center map_to_list range_ok_map_to_list)
      [(sio, 4000000); (sio, 5002000); (λ _, mkTaskIO NewCore true false 6000000000 true false, 6000000)]
      (wd_wills (closed_world demo_cfg demo_close (demo_client 60 5000000000) (demo_world "tok"))) = Some (s', out) ∧
    of_owner "c" "tok" out = [will_publication (will_task demo_close (demo_client 60 5000000000) 5000000000) demo_will] ∧
    scheduled s' "c" "tok" = None.
Proof.
  apply (delayed_will_published demo_cfg demo_close (demo_client 60 5000000000) (demo_world "tok") demo_session demo_owner
    demo_publish 5000000000 map_to_list) with (early := [(demo_scan 60 5000000000 5003000000, 4000000)]); try done; try apply demo_owns; try apply demo_nul; try apply will_ok_New;
    try (apply Forall_singleton); vm_compute; auto; try (split; congruence).
Defined.

Lemma will_at_session_expiry_lost_witness :
  ∃ s' out, scanAndExecute (WillCenter0 := core_center map_to_list range_ok_map_to_list) (demo_scan 60 60000000000 60003000000) 60002000
      (wd_wills (closed_world demo_cfg demo_close (demo_client 60 60000000000) (demo_world "tok"))) = Some (s', out) ∧
    ∀ m, m ∈ out → ¬ (mg_SendClientID m = "c" ∧ mg_OwnerToken m = "tok").
Proof.
  apply (will_at_session_expiry_lost demo_cfg demo_close (demo_client 60 60000000000) (demo_world "tok") demo_session demo_owner
    demo_publish 60000000000 map_to_list); try done; try apply demo_owns; try apply demo_nul; try apply will_ok_New; vm_compute; auto; try (split; congruence).
Defined.
