(* ===== verification/Negotiate.v ===== *)
(** * Negotiation at CONNECT ([src/internal/broker/client]: [connack_properties.go], [connack_failure.go],
    the negotiation functions of [client_handler_auth_disconnect.go] and [client_handler_connect.go])

    The values a connection runs with (session expiry, keep alive, windows, packet size),
    the properties of the CONNACK that tells the client about them, and the checks of a
    CONNECT that need no session.  The configuration is the one [brokerRuntimeConfig]
    returns.  Machine integers: an [int] of the configuration is a [Z]; the conversions of
    the code are written out. *)

From S2P Require Import Prelude GoStrings Mqtt5 Topic Outbound.

(** ** Configuration ([src/config]) *)

Record ConnectAckProperty := mkConnectAckProperty {
  cfp_ReceiveMaximum : Z;
  cfp_MaxQos : Z;
  cfp_RetainAvailable : Z;
  cfp_MaximumPacketSize : Z;
  cfp_TopicAliasMaximum : Z;
  cfp_WildcardSubscriptionAvailable : bool;
  cfp_SubscriptionIdentifierAvailable : bool;
  cfp_SharedSubscriptionAvailable : bool;
  cfp_ServerKeepAlive : Z;
  cfp_ResponseInformation : string;
  cfp_ServerReference : string }.

Record BrokerLimits := mkBrokerLimits {
  bl_WillDelayMaxSeconds : Z;
  bl_SessionExpiryMaxSeconds : Z }.

(** ** [connack_properties.go] *)

Definition maxUint16 : Z := 65535.
Definition maxUint32 : Z := 4294967295.

Definition clampInt (v lo hi : Z) : Z := if v <? lo then lo else if hi <? v then hi else v.
Definition clampUint32 (v : Z) : Z := if v <=? 0 then 0 else if maxUint32 <? v then maxUint32 else v.

Definition emptyConnAckProperties : ConnAckProperties :=
  mkConnAckProperties None "" None "" None "" "" "" None None None None None None None None [].
Definition ensureConnAckProperties (p : option ConnAckProperties) : ConnAckProperties := default emptyConnAckProperties p.

Definition bool_byte (b : bool) : Z := if b then 1 else 0.

Definition applyConfigToConnAckProperties (prop : ConnectAckProperty) (connAck : ConnAck) : ConnAck :=
  let p := ensureConnAckProperties (coa_Properties connAck) in
  let keep {A} (b : bool) (v : A) (old : option A) : option A := if b then Some v else old in
  mkConnAck (Some (mkConnAckProperties
    (cap_SessionExpiryInterval p) (cap_AssignedClientID p)
    (keep (0 <=? cfp_ServerKeepAlive prop) (wrap 16 (clampInt (cfp_ServerKeepAlive prop) 0 maxUint16)) (cap_ServerKeepAlive p))
    (cap_AuthMethod p) (cap_AuthData p)
    (if bool_decide (cfp_ResponseInformation prop = "") then cap_ResponseInfo p else cfp_ResponseInformation prop)
    (if negb (bool_decide (cfp_ServerReference prop = "")) && connAckUsesServerReference (coa_ReasonCode connAck)
     then cfp_ServerReference prop else cap_ServerReference p)
    (cap_ReasonString p)
    (keep (0 <? cfp_ReceiveMaximum prop) (wrap 16 (clampInt (cfp_ReceiveMaximum prop) 1 maxUint16)) (cap_ReceiveMaximum p))
    (keep (0 <=? cfp_TopicAliasMaximum prop) (wrap 16 (clampInt (cfp_TopicAliasMaximum prop) 0 maxUint16)) (cap_TopicAliasMaximum p))
    (keep ((0 <=? cfp_MaxQos prop) && (cfp_MaxQos prop <=? 1)) (wrap 8 (cfp_MaxQos prop)) (cap_MaximumQOS p))
    (keep ((cfp_RetainAvailable prop =? 0) || (cfp_RetainAvailable prop =? 1)) (wrap 8 (cfp_RetainAvailable prop)) (cap_RetainAvailable p))
    (Some (bool_byte (cfp_WildcardSubscriptionAvailable prop)))
    (Some (bool_byte (cfp_SubscriptionIdentifierAvailable prop)))
    (Some (bool_byte (cfp_SharedSubscriptionAvailable prop)))
    (keep (0 <? cfp_MaximumPacketSize prop) (clampUint32 (cfp_MaximumPacketSize prop)) (cap_MaximumPacketSize p))
    (cap_User p))) (coa_ReasonCode connAck) (coa_SessionPresent connAck).

(** Assignments to one field of the properties, created when missing. *)
Definition map_props (f : ConnAckProperties → ConnAckProperties) (connAck : ConnAck) : ConnAck :=
  mkConnAck (Some (f (ensureConnAckProperties (coa_Properties connAck)))) (coa_ReasonCode connAck) (coa_SessionPresent connAck).
Definition cap_set_expiry (v : option Z) (p : ConnAckProperties) : ConnAckProperties :=
  let 'mkConnAckProperties _ b c d e f g h i j k l m n o q r := p in mkConnAckProperties v b c d e f g h i j k l m n o q r.
Definition cap_set_assigned (v : string) (p : ConnAckProperties) : ConnAckProperties :=
  let 'mkConnAckProperties a _ c d e f g h i j k l m n o q r := p in mkConnAckProperties a v c d e f g h i j k l m n o q r.
Definition cap_set_auth (method : string) (data : option (list byte)) (p : ConnAckProperties) : ConnAckProperties :=
  let 'mkConnAckProperties a b c _ e f g h i j k l m n o q r := p in
  mkConnAckProperties a b c method (match data with Some d => Some d | None => e end) f g h i j k l m n o q r.
Definition cap_set_response (v : string) (p : ConnAckProperties) : ConnAckProperties :=
  let 'mkConnAckProperties a b c d e _ g h i j k l m n o q r := p in mkConnAckProperties a b c d e v g h i j k l m n o q r.
Definition cap_set_reference (v : string) (p : ConnAckProperties) : ConnAckProperties :=
  let 'mkConnAckProperties a b c d e f _ h i j k l m n o q r := p in mkConnAckProperties a b c d e f v h i j k l m n o q r.
Definition cap_set_reason (v : string) (p : ConnAckProperties) : ConnAckProperties :=
  let 'mkConnAckProperties a b c d e f g _ i j k l m n o q r := p in mkConnAckProperties a b c d e f g v i j k l m n o q r.
Definition cap_set_shared (v : option Z) (p : ConnAckProperties) : ConnAckProperties :=
  let 'mkConnAckProperties a b c d e f g h i j k l m n _ q r := p in mkConnAckProperties a b c d e f g h i j k l m n v q r.

Definition connectRequestsResponseInfo (connectPacket : Connect) : bool :=
  match con_Properties connectPacket ≫= cop_RequestResponseInfo with Some v => v =? 1 | None => false end.

Definition applyConnectAwareConfigToConnAckProperties (prop : ConnectAckProperty) (connectPacket : Connect) (connAck : ConnAck) : ConnAck :=
  let connAck := applyConfigToConnAckProperties prop connAck in
  if negb (bool_decide (cfp_ResponseInformation prop = "")) && negb (connectRequestsResponseInfo connectPacket)
  then map_props (cap_set_response "") connAck else connAck.

(** [shared]: a shared-subscription manager is wired in. *)
Definition applyRuntimeCapabilitiesToConnAckProperties (shared : bool) (connAck : ConnAck) : ConnAck :=
  if negb shared then map_props (cap_set_shared (Some 0)) connAck else map_props id connAck.

Definition applyNegotiatedSessionExpiryToConnAckProperties (sessionExpiryInterval : Z) (connAck : ConnAck) : ConnAck :=
  map_props (cap_set_expiry (Some sessionExpiryInterval)) connAck.

(** [cloneBytes]: an empty slice becomes nil. *)
Definition cloneBytes (data : option (list byte)) : option (list byte) :=
  match data with Some (b :: l) => Some (b :: l) | _ => None end.

Definition applyEnhancedAuthToConnAckProperties (method : string) (data : option (list byte)) (connAck : ConnAck) : ConnAck :=
  if bool_decide (method = "") then connAck else map_props (cap_set_auth method (cloneBytes data)) connAck.

Definition applyAssignedClientIDToConnAck (assignedByServer : bool) (clientID : string) (connAck : ConnAck) : ConnAck :=
  if negb assignedByServer then connAck
  else if negb (coa_ReasonCode connAck =? 0) then connAck
  else map_props (cap_set_assigned clientID) connAck.

(** ** Negotiated values *)

Definition mqttNeverExpireSessionInterval : Z := 4294967295.

Definition capSessionExpiryInterval (sessionExpiryInterval : Z) (limits : BrokerLimits) : Z :=
  if bl_SessionExpiryMaxSeconds limits =? 0 then sessionExpiryInterval
  else if sessionExpiryInterval =? mqttNeverExpireSessionInterval then sessionExpiryInterval
  else if bl_SessionExpiryMaxSeconds limits <? sessionExpiryInterval then bl_SessionExpiryMaxSeconds limits
  else sessionExpiryInterval.

Definition mqtt5ConnectSessionExpiryInterval (connectPacket : Connect) : Z :=
  default 0 (con_Properties connectPacket ≫= cop_SessionExpiryInterval).

Definition mqtt5SessionExpiryInterval (connectPacket : Connect) (limits : BrokerLimits) : Z :=
  capSessionExpiryInterval (mqtt5ConnectSessionExpiryInterval connectPacket) limits.

(** In nanoseconds. *)
Definition mqtt5KeepAlive (connectPacket : Connect) (prop : ConnectAckProperty) : Z :=
  let keepAliveSeconds :=
    if 0 <=? cfp_ServerKeepAlive prop then clampInt (cfp_ServerKeepAlive prop) 0 maxUint16 else con_KeepAlive connectPacket in
  keepAliveSeconds * 1000000000.

Definition serverReceiveMaximum (prop : ConnectAckProperty) : Z :=
  let v := cfp_ReceiveMaximum prop in
  if 0 <? v then if 65535 <? v then 65535 else wrap 16 v else 65535.

Definition mqtt5RequestProblemInfo (connectPacket : Connect) : bool :=
  match con_Properties connectPacket ≫= cop_RequestProblemInfo with Some v => negb (v =? 0) | None => true end.

(** The Maximum Packet Size that [applyConnectClientPreferences] stores; [old] stays otherwise. *)
Definition clientMaximumPacketSize (connectPacket : Connect) (old : option Z) : option Z :=
  match con_Properties connectPacket ≫= cop_MaximumPacketSize with
  | Some v => if v =? 0 then old else Some v
  | None => old
  end.

(** The capacity of the bucket of [setupPublishBucket]; the two window sizes of the
    configuration follow. *)
Definition publishWindow (connectPacket : Connect) (cfgWindow rateWindow : Z) : Z :=
  let windowSize := default 65535 (con_Properties connectPacket ≫= cop_ReceiveMaximum) in
  let windowSize :=
    if windowSize <=? 0 then
      if 0 <? cfgWindow then cfgWindow else if 0 <? rateWindow then rateWindow else windowSize
    else windowSize in
  if windowSize <=? 0 then 1 else windowSize.

(** ** The checks of a CONNECT *)

Definition ErrClientIDEmpty : string := "client id empty".
Definition ErrClientUsernameNotEmpty : string := "client username not empty".
Definition ErrClientPasswordNotEmpty : string := "client password not empty".
Definition ErrProtocolError : string := "protocol error".

(** A refusal: the reason code and string of the CONNACK, and the error returned. *)
Record Refusal := mkRefusal { rf_code : Z; rf_reason : string; rf_error : string }.

(** [quoted] is the protocol name as [fmt] prints it with [%q]. *)
Definition validateConnectBasics (quoted : string) (connectPacket : Connect) : option Refusal :=
  if bool_decide (con_ClientID connectPacket = "") && negb (con_CleanStart connectPacket)
  then Some (mkRefusal 0x85 "client id is empty and clean start is false" ErrClientIDEmpty)
  else if negb (bool_decide (con_ProtocolName connectPacket = "MQTT")) || negb (con_ProtocolVersion connectPacket =? 5)
  then Some (mkRefusal 0x84
    ("unsupported protocol " +:+ quoted +:+ " version " +:+ pretty (con_ProtocolVersion connectPacket))
    ("unsupported protocol version " +:+ con_ProtocolName connectPacket +:+ " " +:+ pretty (con_ProtocolVersion connectPacket)))
  else if negb (con_UsernameFlag connectPacket) && negb (bool_decide (con_Username connectPacket = ""))
  then Some (mkRefusal 0x86 "username present but username flag is unset" ErrClientUsernameNotEmpty)
  else if negb (con_PasswordFlag connectPacket) && negb (bool_decide (con_Password connectPacket = []))
  then Some (mkRefusal 0x86 "password present but password flag is unset" ErrClientPasswordNotEmpty)
  else None.

Definition validateConnectProperties (connectPacket : Connect) : option Refusal :=
  match con_Properties connectPacket with
  | None => None
  | Some p =>
      if match cop_AuthData p with Some (_ :: _) => true | _ => false end && bool_decide (cop_AuthMethod p = "")
      then Some (mkRefusal 0x8C "auth data provided without auth method" ErrProtocolError)
      else if bool_decide (cop_ReceiveMaximum p = Some 0)
      then Some (mkRefusal 0x82 "receive maximum must not be zero" ErrProtocolError)
      else if bool_decide (cop_MaximumPacketSize p = Some 0)
      then Some (mkRefusal 0x82 "maximum packet size must not be zero" ErrProtocolError)
      else None
  end.

Definition validateConnectWill (prop : ConnectAckProperty) (connectPacket : Connect) : option Refusal :=
  if negb (con_WillFlag connectPacket) then None
  else if bool_decide (con_WillTopic connectPacket = "") || HasWildcard (con_WillTopic connectPacket)
  then Some (mkRefusal 0x90 "will topic must be a non-empty concrete topic name" ErrProtocolError)
  else if bool_decide (con_WillProperties connectPacket ≫= pup_PayloadFormat = Some 1) &&
          negb (utf8_valid (con_WillMessage connectPacket))
  then Some (mkRefusal 0x99 "will payload is not valid UTF-8 with payload format indicator = 1" ErrProtocolError)
  else if (cfp_RetainAvailable prop =? 0) && con_WillRetain connectPacket
  then Some (mkRefusal 0x9A "retain is not supported by this server" ErrProtocolError)
  else if cfp_MaxQos prop <? con_WillQOS connectPacket
  then Some (mkRefusal 0x9B ("requested will QoS " +:+ pretty (con_WillQOS connectPacket) +:+ " exceeds server maximum " +:+
    pretty (cfp_MaxQos prop)) ErrProtocolError)
  else None.

Definition validateConnectConfiguredLimits (limits : BrokerLimits) (connectPacket : Connect) : option Refusal :=
  match con_WillProperties connectPacket ≫= pup_WillDelayInterval with
  | Some v =>
      if con_WillFlag connectPacket && (0 <? bl_WillDelayMaxSeconds limits) && (bl_WillDelayMaxSeconds limits <? v)
      then Some (mkRefusal 0x82 ("will delay interval " +:+ pretty v +:+ " exceeds server maximum " +:+
        pretty (bl_WillDelayMaxSeconds limits)) ErrProtocolError)
      else None
  | None => None
  end.

(** The first check that fails. *)
Definition validConnect (quoted : string) (prop : ConnectAckProperty) (limits : BrokerLimits) (connectPacket : Connect) : option Refusal :=
  match validateConnectBasics quoted connectPacket with
  | Some r => Some r
  | None =>
      match validateConnectProperties connectPacket with
      | Some r => Some r
      | None =>
          match validateConnectWill prop connectPacket with
          | Some r => Some r
          | None => validateConnectConfiguredLimits limits connectPacket
          end
      end
  end.

(** [failConnect]: the CONNACK it writes. *)
Definition failedConnAck (reasonCode : Z) (reasonString : string) : ConnAck :=
  mkConnAck (if bool_decide (reasonString = "") then None else Some (cap_set_reason reasonString emptyConnAckProperties)) reasonCode false.
