(* ===== verification/Connect.v ===== *)
(** * Establishing a connection ([src/internal/broker/client]: [client_handler.go], [client_handler_connect.go],
    [client_handler_auth_disconnect.go], the enhanced authentication of [client_handler_publish.go])

    The packets of a client from its first one on: the order of packets is checked, CONNECT
    is validated, authenticated (in one or more rounds of AUTH), admitted, bound to its session
    and answered; DISCONNECT and re-authentication follow; all other packets go to the
    handlers of the other files once the entry checks pass.

    Sessions, subscriptions, delayed wills and the end of the connection are the models of
    [StateRouter], [WillDelay] and [Lifecycle]; other calls are recorded as effects.  The
    fate of each write ([Outbound]), the plugins, the admission callback, fresh identifiers,
    failing stores and the old connection the client manager hands back are the record
    [ConnectIO] of the packet.  The request context and mTLS certificates only reach plugins. *)

From S2P Require Import Prelude GoStrings Mqtt5 Topic Wire WireCodec SubCenter SessionCore StateRouter WillDelay TopicAlias Uplink Downlink Outbound Lifecycle Negotiate.

(** ** State *)

Inductive enhancedAuthState :=
| enhancedAuthNone | enhancedAuthAuthenticating | enhancedAuthAuthenticated | enhancedAuthReauthenticating.
#[export] Instance enhancedAuthState_eq_dec : EqDecision enhancedAuthState.
Proof. solve_decision. Defined.

Record AuthData := mkAuthData {
  au_state : enhancedAuthState;
  au_method : string;
  au_data : option (list byte);
  au_pendingConnect : option Connect;
  au_pendingAssigned : bool }.

Record Negotiated := mkNegotiated {
  ng_requestProblemInfo : bool;
  ng_clientMaximumPacketSize : option Z;
  ng_serverReceiveMaximum : Z;
  ng_publishWindow : Z;
  ng_limiter : option incomingPublishRateLimiter;
  ng_keepAlive : Z;
  ng_username : string;
  ng_alias : TopicAliasManager }.

Inductive CEffect :=
| CE (e : Effect)
| COld (e : Effect)
| CPlugin (c : Connect) (ok : bool)
| CAuth (req : Auth) (resp : option Auth)
| CClosePrevious (owner : SessionOwner)
| CRegister (clientID : string)
| CKeepAlive (clientID ownerToken : string) (keepAlive : Z)
| CRestoreShared
| CRestore (session : Session)
| CStartRunner
| CDispatch (p : Packet).

Record Conn := mkConn {
  cn_client : Client;
  cn_auth : AuthData;
  cn_neg : Negotiated;
  cn_world : World;
  cn_fx : list CEffect }.

(** [NewClient]. *)
Definition NewConn (w : World) : Conn :=
  mkConn (mkClient "" "" false false (-1) false 0 0 None false false)
    (mkAuthData enhancedAuthNone "" None None false) (mkNegotiated true None 0 0 None 0 "" NewTopicAliasManager) w [].

(** Fates of a write: written; failed; too large for the client, which closes it. *)
Inductive WriteFate := Written | WriteFailed | TooLarge.

(** What the plugins make of an AUTH: none is registered, an error, a response. *)
Inductive AuthAnswer := NoHandler | AuthFailed (e : string) | AuthAnswered (a : Auth).

Record ConnectIO := mkConnectIO {
  ci_write : Packet → WriteFate;
  ci_quoted : string;
  ci_clientID : string;
  ci_ownerToken : string;
  ci_auth : Auth → AuthAnswer;
  ci_onSendAuth : Auth → Auth;
  ci_admission : option (Z * string * string);
  ci_plugin : Connect → Connect * option string;
  ci_now : Z;
  ci_clock : Z;
  ci_acquireErr : option string;
  ci_deleteWillErr : bool;
  ci_deleteSubsErr : bool;
  ci_old : option (Client * CloseIO);
  ci_close : CloseIO;
  ci_app : Packet → option string * bool }.

Record ConnectConfig := mkConnectConfig {
  cc_prop : ConnectAckProperty;
  cc_limits : BrokerLimits;
  cc_rateEnabled : bool;
  cc_messagesPerSecond : Z;
  cc_rateWindow : Z;
  cc_window : Z;
  cc_close : CloseConfig;
  cc_range : map_range }.

Definition cn_log (e : CEffect) (s : Conn) : Conn :=
  mkConn (cn_client s) (cn_auth s) (cn_neg s) (cn_world s) (cn_fx s ++ [e]).
Definition cn_set_client (x : Client) (s : Conn) : Conn := mkConn x (cn_auth s) (cn_neg s) (cn_world s) (cn_fx s).
Definition cn_set_auth (x : AuthData) (s : Conn) : Conn := mkConn (cn_client s) x (cn_neg s) (cn_world s) (cn_fx s).
Definition cn_set_neg (x : Negotiated) (s : Conn) : Conn := mkConn (cn_client s) (cn_auth s) x (cn_world s) (cn_fx s).
Definition cn_set_world (x : World) (s : Conn) : Conn := mkConn (cn_client s) (cn_auth s) (cn_neg s) x (cn_fx s).

Definition cl_set_id (x : string) (c : Client) : Client :=
  let 'mkClient _ b d e f g h i j k l := c in mkClient x b d e f g h i j k l.
Definition cl_set_token (x : string) (c : Client) : Client :=
  let 'mkClient a _ d e f g h i j k l := c in mkClient a x d e f g h i j k l.
Definition cl_accept (c : Client) : Client :=
  let 'mkClient a b _ e f g h i j k l := c in mkClient a b true e f g h i j k l.
Definition cl_set_expiry (clean : bool) (x y : Z) (c : Client) : Client :=
  let 'mkClient a b d e f _ _ _ j k l := c in mkClient a b d e f clean x y j k l.
Definition cl_set_listener (c : Client) : Client :=
  let 'mkClient a b d e f g h i j k _ := c in mkClient a b d e f g h i j k true.

(** ** Writing and closing *)

Definition conn_close (cfg : ConnectConfig) (io : ConnectIO) (s : Conn) : Conn :=
  let '(c, w, fx) := close (cc_close cfg) (ci_close io) (cn_client s) (cn_world s) in
  mkConn c (cn_auth s) (cn_neg s) w (cn_fx s ++ (CE <$> fx)).

(** [Client.Write] of a packet of the connection.  The hook [OnSendConnAck] is not called: the
    plugins under src leave the CONNACK as it is. *)
Definition conn_write (cfg : ConnectConfig) (io : ConnectIO) (p : Packet) (s : Conn) : Conn * bool :=
  match ci_write io p with
  | Written =>
      let s := cn_log (CE (FWrite p)) s in
      (match p with
       | PConnAck a => if mqtt5ReasonCodeIsError (coa_ReasonCode a) then s else cn_set_client (cl_accept (cn_client s)) s
       | _ => s
       end, true)
  | WriteFailed => (s, false)
  | TooLarge => (conn_close cfg io s, false)
  end.

Definition conn_failProtocol (cfg : ConnectConfig) (io : ConnectIO) (reason : string) (s : Conn) : Conn * result string unit :=
  let s := if canSendDisconnect (cn_client s) then (conn_write cfg io (Downlink.ForProtocolError reason) s).1 else s in
  (conn_close cfg io s, Err ErrProtocolError).

Definition failConnect (cfg : ConnectConfig) (io : ConnectIO) (code : Z) (reason : string) (s : Conn) : Conn :=
  (conn_write cfg io (PConnAck (failedConnAck code reason)) s).1.

(** ** Enhanced authentication *)

Definition AuthSuccess : Z := 0.
Definition AuthContinueAuthentication : Z := 0x18.
Definition AuthReauthenticate : Z := 0x19.
Definition ErrAuthHandlerNotSet : string := "auth handler not set".

Definition authPacketFromConnect (connectPacket : Connect) (p : ConnectProperties) : Auth :=
  mkAuth (Some (mkAuthProperties (cop_AuthMethod p) (cloneBytes (cop_AuthData p)) "" [])) AuthSuccess.

Definition normalizeAuthResponse (method : string) (authResp : Auth) : Auth :=
  let p := default (mkAuthProperties "" None "" []) (aut_Properties authResp) in
  let p := if bool_decide (aup_AuthMethod p = "") then mkAuthProperties method (aup_AuthData p) (aup_ReasonString p) (aup_User p) else p in
  mkAuth (Some p) (aut_ReasonCode authResp).

Definition receiveAuthResponse (io : ConnectIO) (authPacket : Auth) (s : Conn) : Conn * result string Auth :=
  match ci_auth io authPacket with
  | NoHandler => (s, Err ErrAuthHandlerNotSet)
  | AuthFailed e => (cn_log (CAuth authPacket None) s, Err e)
  | AuthAnswered a => (cn_log (CAuth authPacket (Some a)) s, Ok a)
  end.

Definition sendAuthPacket (cfg : ConnectConfig) (io : ConnectIO) (authResp : Auth) (s : Conn) : Conn * result string unit :=
  let '(s, ok) := conn_write cfg io (PAuth (ci_onSendAuth io authResp)) s in
  (s, if ok then Ok tt else Err "write packet error").

Definition hex_digit (z : Z) : string :=
  String (ascii_of_N (Z.to_N (if z <? 10 then 48 + z else 55 + z))) "".
(** [fmt]'s [0x%X] of a byte. *)
Definition hex_byte (z : Z) : string :=
  "0x" +:+ (if z <? 16 then "" else hex_digit (z `div` 16)) +:+ hex_digit (z `mod` 16).

Definition rejectedReason (authResp : Auth) : string :=
  let r := match aut_Properties authResp with Some p => aup_ReasonString p | None => "" end in
  if bool_decide (r = "") then "enhanced authentication rejected with reason code " +:+ hex_byte (aut_ReasonCode authResp) else r.

Definition isHandlerNotSet (io : ConnectIO) (authPacket : Auth) : bool :=
  match ci_auth io authPacket with NoHandler => true | _ => false end.

(** [Ok true]: an AUTH was sent and the CONNECT waits. *)
Definition handleInitialEnhancedAuth (cfg : ConnectConfig) (io : ConnectIO) (connectPacket : Connect) (assignedByServer : bool) (s : Conn)
    : Conn * result string bool :=
  match con_Properties connectPacket with
  | None => (s, Ok false)
  | Some p =>
      if bool_decide (cop_AuthMethod p = "") then (s, Ok false)
      else if bool_decide (au_state (cn_auth s) = enhancedAuthAuthenticated) then (s, Ok false)
      else
        let a := cn_auth s in
        let s := cn_set_auth (mkAuthData (au_state a) (cop_AuthMethod p) (au_data a) (au_pendingConnect a) (au_pendingAssigned a)) s in
        let authReq := authPacketFromConnect connectPacket p in
        let '(s, res) := receiveAuthResponse io authReq s in
        match res with
        | Err e =>
            let code := if isHandlerNotSet io authReq then 0x8C else 0x87 in
            let s := (conn_write cfg io (PConnAck (map_props (cap_set_reason ("enhanced authentication failed: " +:+ e)) (mkConnAck None code false))) s).1 in
            (conn_close cfg io s, Err e)
        | Ok authResp =>
            let authResp := normalizeAuthResponse (cop_AuthMethod p) authResp in
            let a := cn_auth s in
            let code := aut_ReasonCode authResp in
            if code =? AuthSuccess then
              (cn_set_auth (mkAuthData enhancedAuthAuthenticated (au_method a) (cloneBytes (aut_Properties authResp ≫= aup_AuthData))
                 (au_pendingConnect a) (au_pendingAssigned a)) s, Ok false)
            else if code =? AuthContinueAuthentication then
              let s := cn_set_auth (mkAuthData enhancedAuthAuthenticating (au_method a) (au_data a) (Some connectPacket) assignedByServer) s in
              let '(s, res) := sendAuthPacket cfg io authResp s in
              (s, match res with Ok _ => Ok true | Err e => Err e end)
            else
              let s := (conn_write cfg io (PConnAck (map_props (cap_set_reason (rejectedReason authResp)) (mkConnAck None 0x87 false))) s).1 in
              (conn_close cfg io s, Err ErrProtocolError)
        end
  end.

(** ** Completing a CONNECT *)

Definition handleConnectAdmission (cfg : ConnectConfig) (io : ConnectIO) (s : Conn) : Conn * result string unit :=
  match ci_admission io with
  | None => (s, Ok tt)
  | Some (code, reason, reference) =>
      if code =? 0 then (s, Ok tt)
      else
        let p := if bool_decide (reason = "") then emptyConnAckProperties else cap_set_reason reason emptyConnAckProperties in
        let p := if connAckUsesServerReference code
                 then cap_set_reference (if bool_decide (reference = "") then cfp_ServerReference (cc_prop cfg) else reference) p else p in
        let s := (conn_write cfg io (PConnAck (mkConnAck (Some p) code false)) s).1 in
        (conn_close cfg io s, Err ErrProtocolError)
  end.

(** The plugins see the CONNECT and may change it. *)
Definition runConnectPlugin (cfg : ConnectConfig) (io : ConnectIO) (connectPacket : Connect) (s : Conn) : Conn * Connect * result string unit :=
  let '(connectPacket, err) := ci_plugin io connectPacket in
  match err with
  | None => (cn_log (CPlugin connectPacket true) s, connectPacket, Ok tt)
  | Some e =>
      let s := cn_log (CPlugin connectPacket false) s in
      let s := (conn_write cfg io (PConnAck (mkConnAck (Some (cap_set_reason e emptyConnAckProperties)) 0x87 false)) s).1 in
      (conn_close cfg io s, connectPacket, Err e)
  end.

Definition initializeConnectSetup (cfg : ConnectConfig) (connectPacket : Connect) (s : Conn) : Conn :=
  let interval := mqtt5SessionExpiryInterval connectPacket (cc_limits cfg) in
  let s := cn_set_client (cl_set_expiry (interval =? 0) interval (mqtt5ConnectSessionExpiryInterval connectPacket) (cn_client s)) s in
  let n := cn_neg s in
  let s := cn_set_neg (mkNegotiated (ng_requestProblemInfo n) (ng_clientMaximumPacketSize n) (serverReceiveMaximum (cc_prop cfg))
    (ng_publishWindow n) (ng_limiter n) (ng_keepAlive n) (ng_username n) (ng_alias n)) s in
  let a := cn_auth s in
  cn_set_auth (mkAuthData (au_state a) (match con_Properties connectPacket with Some p => cop_AuthMethod p | None => "" end)
    (au_data a) (au_pendingConnect a) (au_pendingAssigned a)) s.

Definition acquireSessionForConnect (cfg : ConnectConfig) (io : ConnectIO) (connectPacket : Connect) (s : Conn)
    : Conn * result string AcquireSessionResponse :=
  match ci_acquireErr io with
  | Some e => (s, Err e)
  | None =>
      let '(st, res) := AcquireSession (ci_clock io) (wd_state (cn_world s))
        (mkAcquireRequest (lg_nodeID (cc_close cfg)) (cl_ID (cn_client s)) (ci_ownerToken io) (WillMessageToProto connectPacket)
           (cl_sessionExpiryInterval (cn_client s)) (con_CleanStart connectPacket) (ci_now io)) in
      (cn_set_world (with_state st (cn_world s)) s, res)
  end.

Definition applyTakenOverOwnerToken (takeOver : TakeOverSessionOwnerResponse) (s : Conn) : Conn * result string unit :=
  let token := ow_OwnerToken (top_Owner takeOver) in
  if bool_decide (token = "") then (s, Err "state router takeover response missing owner token")
  else (cn_set_client (cl_set_token token (cn_client s)) s, Ok tt).

Definition closePreviousSessionOwner (takeOver : TakeOverSessionOwnerResponse) (s : Conn) : Conn :=
  match top_PreviousOwner takeOver with
  | Some owner => if top_PreviousOwnerExists takeOver then cn_log (CClosePrevious owner) s else s
  | None => s
  end.

(** [DeleteTask]; it does not panic on a store its operations built. *)
Definition deletePendingWillDelayTask (cfg : ConnectConfig) (io : ConnectIO) (s : Conn) : Conn :=
  if negb (lg_willDelayCenter (cc_close cfg)) || ci_deleteWillErr io then s
  else match DeleteTask (cc_range cfg) (cl_ID (cn_client s)) (wd_wills (cn_world s)) with
       | Some x => cn_set_world (with_wills x (cn_world s)) s
       | None => s
       end.

Definition cleanupCleanStartState (cfg : ConnectConfig) (io : ConnectIO) (connectPacket : Connect) (s : Conn) : Conn :=
  if negb (con_CleanStart connectPacket) then s
  else
    let w := cn_world s in
    let s := if ci_deleteSubsErr io then s
             else cn_set_world (with_state (DeleteClientSubscriptions (wd_state w)
               (mkDeleteSubsRequest (lg_nodeID (cc_close cfg)) (cl_ID (cn_client s)) (cl_ownerToken (cn_client s)))).1 w) s in
    cn_log (CE (FDeleteDelivery (cl_ID (cn_client s)))) s.

(** The connection the manager held for the same identifier is closed with DISCONNECT
    session taken over. *)
Definition registerClientConnection (cfg : ConnectConfig) (io : ConnectIO) (s : Conn) : Conn :=
  let s := cn_log (CRegister (cl_ID (cn_client s))) s in
  match ci_old io with
  | None => s
  | Some (old, oldIO) =>
      let '(_, w, fx) := closeWithSessionTakenOverLocked (cc_close cfg) oldIO old (cn_world s) in
      mkConn (cn_client s) (cn_auth s) (cn_neg s) w (cn_fx s ++ (COld <$> fx))
  end.

(** [prepareConnectedClientRuntime], [setupPublishBucket] and [setupIncomingPublishRateLimiter]. *)
Definition prepareConnectedClientRuntime (cfg : ConnectConfig) (connectPacket : Connect) (s : Conn) : Conn :=
  let n := cn_neg s in
  let s := cn_set_neg (mkNegotiated (ng_requestProblemInfo n) (ng_clientMaximumPacketSize n) (ng_serverReceiveMaximum n)
    (publishWindow connectPacket (cc_window cfg) (cc_rateWindow cfg))
    (if negb (cc_rateEnabled cfg) || (cc_messagesPerSecond cfg <=? 0) then None
     else newIncomingPublishRateLimiter (cc_messagesPerSecond cfg) 1000000000)
    (mqtt5KeepAlive connectPacket (cc_prop cfg)) (con_Username connectPacket) (ng_alias n)) s in
  if negb (con_CleanStart connectPacket) && lg_shared (cc_close cfg) then cn_log CRestoreShared s else s.

Definition publishPropertiesFromWill (p : PublishProperties) : PublishProperties :=
  mkPublishProperties (pup_PayloadFormat p) (pup_MessageExpiry p) None (pup_ContentType p) (pup_ResponseTopic p)
    (cloneBytes (pup_CorrelationData p)) None [] (pup_User p).

Definition prepareClientWillMessage (connectPacket : Connect) (s : Conn) : Conn :=
  if negb (con_WillFlag connectPacket) then s
  else
    let publish := mkPublish (con_WillMessage connectPacket) (con_WillTopic connectPacket)
      (publishPropertiesFromWill <$> con_WillProperties connectPacket) 0 (con_WillQOS connectPacket) false (con_WillRetain connectPacket) in
    let delay := default 0 (con_WillProperties connectPacket ≫= pup_WillDelayInterval) * second in
    cn_set_client (cl_will (Some (publish, delay)) (cn_client s)) s.

Definition resetDownlinkTopicAlias (connectPacket : Connect) (m : TopicAliasManager) : TopicAliasManager :=
  SetDownlinkMax (default 0 (con_Properties connectPacket ≫= cop_TopicAliasMaximum)) (ResetDownlink m).

(** The CONNACK of a connection that is accepted. *)
Definition successConnAck (cfg : ConnectConfig) (connectPacket : Connect) (assignedByServer : bool) (openResp : OpenSessionForConnectResponse) (s : Conn) : ConnAck :=
  let present := negb (con_CleanStart connectPacket) && osp_OldSessionExists openResp in
  let a := applyAssignedClientIDToConnAck assignedByServer (cl_ID (cn_client s)) (mkConnAck None 0 present) in
  let a := applyConnectAwareConfigToConnAckProperties (cc_prop cfg) connectPacket a in
  let a := applyRuntimeCapabilitiesToConnAckProperties (lg_shared (cc_close cfg)) a in
  let a := applyNegotiatedSessionExpiryToConnAckProperties (cl_sessionExpiryInterval (cn_client s)) a in
  applyEnhancedAuthToConnAckProperties (au_method (cn_auth s)) (au_data (cn_auth s)) a.

Definition prepareSuccessConnAck (cfg : ConnectConfig) (connectPacket : Connect) (assignedByServer : bool) (openResp : OpenSessionForConnectResponse) (s : Conn)
    : Conn * ConnAck :=
  let n := cn_neg s in
  (cn_set_neg (mkNegotiated (ng_requestProblemInfo n) (ng_clientMaximumPacketSize n) (ng_serverReceiveMaximum n) (ng_publishWindow n)
     (ng_limiter n) (ng_keepAlive n) (ng_username n) (resetDownlinkTopicAlias connectPacket (ng_alias n))) s,
   successConnAck cfg connectPacket assignedByServer openResp s).

Definition UpdateClientAliveTime (s : Conn) : Conn :=
  let c := cn_client s in
  if bool_decide (cl_ID c = "") || bool_decide (cl_ownerToken c = "") then s
  else cn_log (CKeepAlive (cl_ID c) (cl_ownerToken c) (ng_keepAlive (cn_neg s))) s.

(** The downlink and uplink restore their flows from the session ([Downlink], [UplinkRestore]). *)
Definition restoreSessionAfterConnAck (connectPacket : Connect) (openResp : OpenSessionForConnectResponse) (s : Conn) : Conn :=
  if con_CleanStart connectPacket then s else cn_log (CRestore (osp_Session openResp)) s.

(** From the acquired session on. *)
Definition establish (cfg : ConnectConfig) (io : ConnectIO) (connectPacket : Connect) (assignedByServer : bool) (resp : AcquireSessionResponse) (s : Conn)
    : Conn * result string unit :=
  let '(s, res) := applyTakenOverOwnerToken (ap_Takeover resp) s in
  match res with
  | Err e => (s, Err e)
  | Ok _ =>
      let s := closePreviousSessionOwner (ap_Takeover resp) s in
      let s := deletePendingWillDelayTask cfg io s in
      let s := cleanupCleanStartState cfg io connectPacket s in
      let s := registerClientConnection cfg io s in
      let s := prepareConnectedClientRuntime cfg connectPacket s in
      let s := prepareClientWillMessage connectPacket s in
      let '(s, conAck) := prepareSuccessConnAck cfg connectPacket assignedByServer (ap_OpenSession resp) s in
      let '(s, ok) := conn_write cfg io (PConnAck conAck) s in
      if negb ok then (s, Err "write packet error")
      else
        let s := UpdateClientAliveTime s in
        let s := restoreSessionAfterConnAck connectPacket (ap_OpenSession resp) s in
        (cn_set_client (cl_set_listener (cn_client s)) (cn_log CStartRunner s), Ok tt)
  end.

Definition completeConnect (cfg : ConnectConfig) (io : ConnectIO) (connectPacket : Connect) (assignedByServer : bool) (s : Conn) : Conn * result string unit :=
  let '(s, res) := handleConnectAdmission cfg io s in
  match res with
  | Err e => (s, Err e)
  | Ok _ =>
      let '(s, connectPacket, res) := runConnectPlugin cfg io connectPacket s in
      match res with
      | Err e => (s, Err e)
      | Ok _ =>
          let s := initializeConnectSetup cfg connectPacket s in
          let '(s, res) := acquireSessionForConnect cfg io connectPacket s in
          match res with
          | Err e => (s, Err e)
          | Ok resp => establish cfg io connectPacket assignedByServer resp s
          end
      end
  end.

(** ** The handlers *)

Definition applyConnectClientPreferences (connectPacket : Connect) (s : Conn) : Conn :=
  let n := cn_neg s in
  cn_set_neg (mkNegotiated (mqtt5RequestProblemInfo connectPacket) (clientMaximumPacketSize connectPacket (ng_clientMaximumPacketSize n))
    (ng_serverReceiveMaximum n) (ng_publishWindow n) (ng_limiter n) (ng_keepAlive n) (ng_username n) (ng_alias n)) s.

Definition handleConnect (cfg : ConnectConfig) (io : ConnectIO) (connectPacket : Connect) (s : Conn) : Conn * result string unit :=
  let s := applyConnectClientPreferences connectPacket s in
  match validConnect (ci_quoted io) (cc_prop cfg) (cc_limits cfg) connectPacket with
  | Some r => (failConnect cfg io (rf_code r) (rf_reason r) s, Err (rf_error r))
  | None =>
      let assignedByServer := bool_decide (con_ClientID connectPacket = "") in
      let s := cn_set_client (cl_set_id (if assignedByServer then ci_clientID io else con_ClientID connectPacket) (cn_client s)) s in
      let '(s, res) := handleInitialEnhancedAuth cfg io connectPacket assignedByServer s in
      match res with
      | Err e => (s, Err e)
      | Ok true => (s, Ok tt)
      | Ok false => completeConnect cfg io connectPacket assignedByServer s
      end
  end.

Definition failEnhancedAuthConnect (cfg : ConnectConfig) (io : ConnectIO) (code : Z) (reason : string) (cause : string) (s : Conn) : Conn * result string unit :=
  (conn_close cfg io (failConnect cfg io code reason s), Err cause).

Definition handleAuthDuringConnect (cfg : ConnectConfig) (io : ConnectIO) (authPacket : Auth) (s : Conn) : Conn * result string unit :=
  let '(s, res) := receiveAuthResponse io authPacket s in
  match res with
  | Err e =>
      failEnhancedAuthConnect cfg io (if isHandlerNotSet io authPacket then 0x8C else 0x87) ("enhanced authentication failed: " +:+ e) e s
  | Ok authResp =>
      let authResp := normalizeAuthResponse (au_method (cn_auth s)) authResp in
      let code := aut_ReasonCode authResp in
      if code =? AuthContinueAuthentication then sendAuthPacket cfg io authResp s
      else if code =? AuthSuccess then
        match au_pendingConnect (cn_auth s) with
        | None => failEnhancedAuthConnect cfg io 0x82 "missing pending CONNECT for enhanced authentication" ErrProtocolError s
        | Some pendingConnect =>
            let a := cn_auth s in
            let s := cn_set_auth (mkAuthData enhancedAuthAuthenticated (au_method a) (cloneBytes (aut_Properties authResp ≫= aup_AuthData)) None false) s in
            completeConnect cfg io pendingConnect (au_pendingAssigned a) s
        end
      else failEnhancedAuthConnect cfg io 0x87 (rejectedReason authResp) ErrProtocolError s
  end.

Definition set_auth_state (x : enhancedAuthState) (s : Conn) : Conn :=
  let a := cn_auth s in cn_set_auth (mkAuthData x (au_method a) (au_data a) (au_pendingConnect a) (au_pendingAssigned a)) s.

Definition handleAuthAfterConnect (cfg : ConnectConfig) (io : ConnectIO) (authPacket : Auth) (s : Conn) : Conn * result string unit :=
  let '(s, res) := receiveAuthResponse io authPacket s in
  match res with
  | Err _ => conn_failProtocol cfg io "enhanced re-authentication failed" s
  | Ok authResp =>
      let authResp := normalizeAuthResponse (au_method (cn_auth s)) authResp in
      let code := aut_ReasonCode authResp in
      if code =? AuthContinueAuthentication then sendAuthPacket cfg io authResp (set_auth_state enhancedAuthReauthenticating s)
      else if code =? AuthSuccess then sendAuthPacket cfg io authResp (set_auth_state enhancedAuthAuthenticated s)
      else conn_failProtocol cfg io "enhanced re-authentication returned invalid reason code" s
  end.

Definition handleAuth (cfg : ConnectConfig) (io : ConnectIO) (authPacket : Auth) (s : Conn) : Conn * result string unit :=
  let method := match aut_Properties authPacket with Some p => aup_AuthMethod p | None => "" end in
  if bool_decide (method = "") then conn_failProtocol cfg io "AUTH packet requires Authentication Method" s
  else if bool_decide (au_method (cn_auth s) = "")
  then conn_failProtocol cfg io "AUTH packet received without negotiated enhanced authentication" s
  else if negb (bool_decide (method = au_method (cn_auth s)))
  then conn_failProtocol cfg io "AUTH method does not match negotiated method" s
  else
    let code := aut_ReasonCode authPacket in
    match au_state (cn_auth s) with
    | enhancedAuthAuthenticating =>
        if negb (code =? AuthContinueAuthentication)
        then conn_failProtocol cfg io "initial enhanced authentication AUTH must use Continue Authentication" s
        else handleAuthDuringConnect cfg io authPacket s
    | enhancedAuthAuthenticated =>
        if negb (code =? AuthReauthenticate)
        then conn_failProtocol cfg io "connected enhanced authentication AUTH must start with Re-authenticate" s
        else handleAuthAfterConnect cfg io authPacket s
    | enhancedAuthReauthenticating =>
        if negb (code =? AuthContinueAuthentication)
        then conn_failProtocol cfg io "continued enhanced re-authentication AUTH must use Continue Authentication" s
        else handleAuthAfterConnect cfg io authPacket s
    | enhancedAuthNone => conn_failProtocol cfg io "AUTH packet received without negotiated enhanced authentication" s
    end.

Definition isClientDisconnectReasonCodeAllowed (code : Z) : bool :=
  bool_decide (code ∈ [0x00; 0x04; 0x80; 0x81; 0x82; 0x83; 0x8C; 0x90; 0x93; 0x94; 0x95; 0x96; 0x97; 0x98; 0x99]).

Definition handleDisconnect (cfg : ConnectConfig) (io : ConnectIO) (d : Disconnect) (s : Conn) : Conn * result string unit :=
  let code := dis_ReasonCode d in
  let reference := match dis_Properties d with Some p => dip_ServerReference p | None => "" end in
  if negb (isClientDisconnectReasonCodeAllowed code)
  then conn_failProtocol cfg io ("DISCONNECT reason code " +:+ hex_byte code +:+ " is not valid from client") s
  else if negb (bool_decide (reference = ""))
  then conn_failProtocol cfg io "Server Reference is not allowed in client DISCONNECT" s
  else
    let c := cn_client s in
    match dis_Properties d ≫= dip_SessionExpiryInterval with
    | Some v =>
        if (cl_connectSessionExpiryInterval c =? 0) && negb (v =? 0)
        then conn_failProtocol cfg io "DISCONNECT Session Expiry Interval is not allowed when CONNECT Session Expiry Interval is 0" s
        else
          let interval := capSessionExpiryInterval v (cc_limits cfg) in
          let c := cl_set_expiry (interval =? 0) interval (cl_connectSessionExpiryInterval c) c in
          (conn_close cfg io (cn_set_client (cl_flag code c) s), Ok tt)
    | None => (conn_close cfg io (cn_set_client (cl_flag code c) s), Ok tt)
    end.

(** ** The entry of a packet *)

Definition isClientToServerPacket (p : Packet) : bool :=
  match p with
  | PConnect _ | PPublish _ | PPuback _ | PPubrec _ | PPubrel _ | PPubcomp _ | PSubscribe _ | PUnsubscribe _
  | PPingreq | PDisconnect _ | PAuth _ => true
  | _ => false
  end.

Definition is_connect (p : Packet) : bool := match p with PConnect _ => true | _ => false end.
Definition is_auth_or_disconnect (p : Packet) : bool := match p with PAuth _ | PDisconnect _ => true | _ => false end.

(** The check that fails, if any. *)
Definition validateInboundPacketState (p : Packet) (s : Conn) : option string :=
  let id := cl_ID (cn_client s) in
  if negb (is_connect p) && bool_decide (id = "") then Some "first packet must be CONNECT"
  else if is_connect p && negb (bool_decide (id = "")) then Some "CONNECT received after session is established"
  else if bool_decide (au_state (cn_auth s) = enhancedAuthAuthenticating) && negb (is_auth_or_disconnect p)
  then Some "only AUTH or DISCONNECT is allowed while enhanced authentication is in progress"
  else if negb (isClientToServerPacket p) then Some (PacketTypeName (PacketType p) +:+ " is not valid from client to server")
  else None.

(** Handlers of other files: they may close the connection and return an error. *)
Definition handleApp (cfg : ConnectConfig) (io : ConnectIO) (p : Packet) (s : Conn) : Conn * result string unit :=
  let s := cn_log (CDispatch p) s in
  let '(err, closes) := ci_app io p in
  (if closes then conn_close cfg io s else s, match err with None => Ok tt | Some e => Err e end).

Definition conn_dispatch (cfg : ConnectConfig) (io : ConnectIO) (p : Packet) (s : Conn) : Conn * result string unit :=
  match p with
  | PConnect c => handleConnect cfg io c s
  | PAuth a => handleAuth cfg io a s
  | PDisconnect d => handleDisconnect cfg io d s
  | _ => handleApp cfg io p s
  end.

Definition rejectOversizedInboundPacket (cfg : ConnectConfig) (io : ConnectIO) (p : Packet) (s : Conn) : Conn * bool :=
  let max := cfp_MaximumPacketSize (cc_prop cfg) in
  if fits max p then (s, true)
  else
    let size := match calculatePacketSize (Some (controlPacket p)) with Ok n => n | Err _ => 0 end in
    let s := if canSendDisconnect (cn_client s) then (conn_write cfg io (ForPacketTooLarge size max) s).1 else s in
    (conn_close cfg io s, false).

Definition HandlePacket (cfg : ConnectConfig) (io : ConnectIO) (p : Packet) (s : Conn) : Conn * result string unit :=
  let s := UpdateClientAliveTime s in
  let '(s, ok) := rejectOversizedInboundPacket cfg io p s in
  if negb ok then (s, Err "packet size exceeds server maximum")
  else match validateInboundPacketState p s with
       | Some reason => conn_failProtocol cfg io reason s
       | None => conn_dispatch cfg io p s
       end.

(** ** Reading *)

(** The text of an error of the decoder. *)
Definition ReadError_Error (e : ReadError) : string :=
  match e with IOErr e => IOError_Error e | WireErr e => WireError_Error e end.

Definition disconnectForReadPacketError (err : ReadError) : Packet :=
  match err with
  | WireErr wireErr =>
      match we_Kind wireErr with
      | ErrPacketTooLarge => ForPacketTooLarge (we_PacketSize wireErr) (we_MaxPacketSize wireErr)
      | ErrMalformedPacket => NewServerDisconnect 0x81 (WireError_Error wireErr)
      | Wire.ErrProtocolError => NewServerDisconnect 0x82 (WireError_Error wireErr)
      | ErrImplementation => NewServerDisconnect 0x83 (WireError_Error wireErr)
      | ErrUnsupportedProtocolVersion => NewServerDisconnect 0x82 (WireError_Error wireErr)
      end
  | IOErr _ => Downlink.ForProtocolError (ReadError_Error err)
  end.

Definition connAckReasonFromWireError (err : WireError) : Z :=
  match we_Kind err with
  | ErrMalformedPacket => 0x81
  | Wire.ErrProtocolError => 0x82
  | ErrPacketTooLarge => 0x95
  | ErrUnsupportedProtocolVersion => 0x84
  | ErrImplementation => 0x83
  end.

Definition failConnectForReadPacketError (cfg : ConnectConfig) (io : ConnectIO) (err : ReadError) (s : Conn) : Conn :=
  match err with
  | WireErr wireErr =>
      if negb (we_Packet wireErr =? CONNECT) then s
      else failConnect cfg io (connAckReasonFromWireError wireErr) (WireError_Error wireErr) s
  | IOErr _ => s
  end.

(** [Run] on the bytes of the connection, one [ConnectIO] per packet: decode, handle, and
    leave at the first error or once the connection is closed; then [close].  When the list
    ends, the connection waits for more. *)
Fixpoint conn_run (cfg : ConnectConfig) (ios : list ConnectIO) (input : list byte) (s : Conn) : Conn :=
  match ios with
  | [] => s
  | io :: ios =>
      if cl_closed (cn_client s) then s
      else match Decode (cfp_MaximumPacketSize (cc_prop cfg)) input with
           | Err e =>
               conn_close cfg io
                 (if canSendDisconnect (cn_client s) then (conn_write cfg io (disconnectForReadPacketError e) s).1
                  else failConnectForReadPacketError cfg io e s)
           | Ok (controlPacket, input) =>
               match cp_Content controlPacket with
               | None => s
               | Some p =>
                   match HandlePacket cfg io p s with
                   | (s, Ok _) => conn_run cfg ios input s
                   | (s, Err _) => conn_close cfg io s
                   end
               end
           end
  end.
