(* ===== verification/ConnectProofs.v ===== *)
(** * Properties of connection establishment

    - the order of a connection: at most one CONNACK, other packets only after an accepting
      one, which itself comes after the plugins' consent and, for a CONNECT with an
      authentication method, after a successful authentication;
    - what an accepting CONNACK says and which session it stands for;
    - what a DISCONNECT does to session and will;
    - what a refused CONNECT does to the session of its client identifier. *)

From S2P Require Import Prelude GoStrings Mqtt5 Topic Wire WireCodec SubCore SubCenter SessionCore SubCenterProofs SessionCoreProofs StateRouter StateRouterProofs WillDelay WillDelayProofs TopicAlias Uplink Downlink Outbound Lifecycle LifecycleProofs Negotiate Connect.

(** ** Effects *)

Definition ack_of (e : CEffect) : option ConnAck := match e with CE (FWrite (PConnAck a)) => Some a | _ => None end.
Definition acks (fx : list CEffect) : list ConnAck := omap ack_of fx.

Definition is_accept (e : CEffect) : Prop := match ack_of e with Some a => mqtt5ReasonCodeIsError (coa_ReasonCode a) = false | None => False end.
Definition is_dispatch (e : CEffect) : Prop := match e with CDispatch _ => True | _ => False end.
Definition is_consent (e : CEffect) : Prop := match e with CPlugin _ ok => ok = true | _ => False end.
Definition is_authenticated (e : CEffect) : Prop :=
  match e with CAuth _ (Some a) => aut_ReasonCode a = AuthSuccess | _ => False end.

(** Neither a CONNACK nor a packet for a handler. *)
Definition quiet_effect (e : CEffect) : Prop := ack_of e = None ∧ ¬ is_dispatch e.

(** Every [P] in the log has a [Q] before it. *)
Definition before (P Q : CEffect → Prop) (fx : list CEffect) : Prop :=
  ∀ l1 e l2, fx = l1 ++ e :: l2 → P e → Exists Q l1.

Lemma before_nil P Q : before P Q [].
Proof. by intros [|? l1] e l2 [=]. Qed.

Lemma before_snoc P Q fx e : before P Q fx → (P e → Exists Q fx) → before P Q (fx ++ [e]).
Proof.
  intros Hb He l1 x l2 Heq Hx. destruct l2 as [|y l2 _] using rev_ind.
  - apply app_inj_tail in Heq as [-> ->]. auto.
  - rewrite app_comm_cons, app_assoc in Heq. apply app_inj_tail in Heq as [Heq _]. by eapply Hb.
Qed.

Lemma before_app P Q fx l : before P Q fx → Exists Q fx ∨ Forall (λ e, ¬ P e) l → before P Q (fx ++ l).
Proof.
  intros Hb H. induction l as [|e l IH] using rev_ind; [by rewrite app_nil_r|].
  rewrite app_assoc. apply before_snoc.
  - apply IH. destruct H as [?|[H _]%Forall_app]; auto.
  - destruct H as [H|[_ H]%Forall_app]; [intros _; apply Exists_app; by left|].
    apply Forall_cons_1 in H as [H _]. intros He. by destruct (H He).
Qed.

Lemma acks_app l l' : acks (l ++ l') = acks l ++ acks l'.
Proof. apply omap_app. Qed.

Lemma acks_quiet l : Forall quiet_effect l → acks l = [].
Proof. induction 1 as [|e l [He _] _ IH]; [done|]. unfold acks in *. cbn. by rewrite He. Qed.

Lemma quiet_accept e : quiet_effect e → ¬ is_accept e.
Proof. intros [He _]. unfold is_accept. rewrite He. tauto. Qed.
Lemma quiet_dispatch e : quiet_effect e → ¬ is_dispatch e.
Proof. by intros [_ ?]. Qed.

(** ** Closing and writing *)

Definition no_write (e : Effect) : Prop := match e with FWrite _ => False | _ => True end.

Lemma willPublish_no_write cfg io id tok p d : Forall no_write (willPublish cfg io id tok p d).
Proof. unfold willPublish. destruct p; [|done]. destruct (_ && _); [|done]. by apply Forall_singleton. Qed.

Lemma handleWill_no_write cfg io c w : Forall no_write (handleWillOnClose cfg io c w).1.2.
Proof.
  unfold handleWillOnClose. destruct (willPublishOnClose io c w) as [[p d]|]; [|done].
  case_bool_decide; [done|]. case_bool_decide; [apply willPublish_no_write|].
  destruct (shouldPublishWillAtSessionExpiry _ _).
  - by destruct (scheduleWillAtSessionExpiryTask _ _ _ _ _) as [? []].
  - unfold scheduleWillDelay, scheduleLocalWillDelayFallback.
    destruct (d <=? 0); cbn [orb]; [apply willPublish_no_write|].
    case_bool_decide; [done|]. destruct (addWillTask _ _ _ _) as [? []], (lg_willDelayCenter cfg), (lg_willChan cfg); cbn;
      try done; by apply Forall_singleton.
Qed.

Lemma close_no_write cfg io c w : Forall no_write (close cfg io c w).2.
Proof.
  unfold close. destruct (cl_closed c); [done|].
  pose proof (handleWill_no_write cfg io c (persistUnfinishedMessagesToSession cfg io c w)) as H.
  destruct (handleWillOnClose _ _ _ _) as [[[c1 w1] fx1] pub]. unfold scheduleSessionExpiryCleanup, cleanupExpiredSessionState.
  assert (∀ fx2, Forall no_write fx2 → Forall no_write
    ((((if lg_shared cfg && negb (bool_decide (cl_ID c = "")) then [FOffline (cl_ID c)] else []) ++
      (if cl_deliveryListener c && negb (bool_decide (cl_ID c = "")) then [FDeleteListener (cl_ID c)] else []) ++ [FConnClose]) ++
      [FKeepAliveDelete (cl_ID c) (cl_ownerToken c)]) ++ fx1 ++ fx2)) as Hall.
  { intros fx2 H2. apply Forall_app. split; [|by apply Forall_app].
    destruct (lg_shared cfg && _), (cl_deliveryListener c && _); repeat constructor. }
  destruct (sessionExpiryDuration _) as [e|]; [|by apply Hall]. destruct (e =? 0).
  - destruct (bool_decide (cl_ID c1 = "")); apply Hall; repeat constructor.
  - destruct (cl_willMessage c1) as [[]|]; [destruct pub|]; apply Hall; repeat constructor.
Qed.

Lemma close_client cfg io c w :
  let c' := (close cfg io c w).1.1 in
  cl_connAckAccepted c' = cl_connAckAccepted c ∧ cl_ID c' = cl_ID c ∧ cl_closed c' = true.
Proof.
  unfold close. destruct (cl_closed c) eqn:Hc; [done|].
  set (w0 := persistUnfinishedMessagesToSession cfg io c w).
  assert (cl_connAckAccepted (handleWillOnClose cfg io c w0).1.1.1 = cl_connAckAccepted c ∧
          cl_ID (handleWillOnClose cfg io c w0).1.1.1 = cl_ID c) as [H1 H2].
  { unfold handleWillOnClose. destruct (willPublishOnClose io c w0) as [[p d]|]; [|done].
    case_bool_decide; [by destruct c|]. case_bool_decide; [by destruct c|].
    destruct (shouldPublishWillAtSessionExpiry _ _).
    - destruct (scheduleWillAtSessionExpiryTask _ _ _ _ _) as [? []]; by destruct c.
    - destruct (scheduleWillDelay _ _ _ _ _) as [[? ?] []]; [by destruct c|]. destruct (d <=? 0); by destruct c. }
  destruct (handleWillOnClose cfg io c w0) as [[[c1 w1] fx1] pub]. cbn in H1, H2.
  destruct (scheduleSessionExpiryCleanup _ _ _ _) as [w2 fx2]. destruct c1. cbn in *. done.
Qed.

(** [s'] is [s] with [l] appended to the log. *)
Definition grows (s s' : Conn) (l : list CEffect) : Prop := cn_fx s' = cn_fx s ++ l.

(** What a step that ends the connection or just writes leaves in place. *)
Record calm (s s' : Conn) : Prop := {
  ca_fx : ∃ l, grows s s' l ∧ Forall quiet_effect l;
  ca_accepted : cl_connAckAccepted (cn_client s') = cl_connAckAccepted (cn_client s);
  ca_id : cl_ID (cn_client s') = cl_ID (cn_client s);
  ca_auth : au_state (cn_auth s') = au_state (cn_auth s) }.

Lemma calm_refl s : calm s s.
Proof. split; try done. exists []. split; [|done]. unfold grows. by rewrite app_nil_r. Qed.

Lemma calm_trans s s1 s2 : calm s s1 → calm s1 s2 → calm s s2.
Proof.
  intros [(l & Hl & Hq) A1 A2 A3] [(l' & Hl' & Hq') B1 B2 B3]. split; [|congruence..].
  exists (l ++ l'). unfold grows in *. rewrite Hl', Hl, app_assoc. split; [done|]. by apply Forall_app.
Qed.

Lemma calm_close cfg io s : calm s (conn_close cfg io s) ∧ cl_closed (cn_client (conn_close cfg io s)) = true.
Proof.
  unfold conn_close. pose proof (close_no_write (cc_close cfg) (ci_close io) (cn_client s) (cn_world s)) as Hn.
  pose proof (close_client (cc_close cfg) (ci_close io) (cn_client s) (cn_world s)) as (H1 & H2 & H3).
  destruct (close _ _ _ _) as [[c w] fx]. cbn in *. split; [|done]. split; try done.
  exists (CE <$> fx). split; [done|]. apply Forall_fmap. eapply Forall_impl; [exact Hn|].
  intros e He. unfold quiet_effect, compose. destruct e; [done|..]; (split; [reflexivity|intros []]).
Qed.

(** Writing a packet that is not a CONNACK. *)
Lemma calm_write cfg io p s : (∀ a, p ≠ PConnAck a) → calm s (conn_write cfg io p s).1.
Proof.
  intros Hp. unfold conn_write. destruct (ci_write io p); [|apply calm_refl|apply calm_close].
  destruct p as [|a| | | | | | | | | | | | |]; try (by destruct (Hp a)); (split; try done);
    (eexists [_]; split; [done|apply Forall_singleton; split; [reflexivity|intros []]]).
Qed.

Lemma calm_failProtocol cfg io reason s :
  calm s (conn_failProtocol cfg io reason s).1 ∧ (conn_failProtocol cfg io reason s).2 = Err ErrProtocolError ∧
  cl_closed (cn_client (conn_failProtocol cfg io reason s).1) = true.
Proof.
  unfold conn_failProtocol. cbn. split_and!; [|done|apply calm_close].
  eapply calm_trans; [|apply calm_close]. destruct (canSendDisconnect _); [|apply calm_refl].
  apply calm_write. intros a. unfold Downlink.ForProtocolError, NewServerDisconnect. by case_bool_decide.
Qed.

(** A refusing CONNACK, followed by nothing but calm. *)
Record refuses (s s' : Conn) : Prop := {
  re_fx : ∃ l, grows s s' l ∧ (length (acks l) ≤ 1)%nat ∧ Forall (λ e, ¬ is_accept e ∧ ¬ is_dispatch e) l;
  re_accepted : cl_connAckAccepted (cn_client s') = cl_connAckAccepted (cn_client s) }.

Lemma refuses_calm s s' : calm s s' → refuses s s'.
Proof.
  intros [(l & Hl & Hq) H _ _]. split; [|done]. exists l. split_and!; [done| |].
  - rewrite (acks_quiet l Hq). cbn. lia.
  - eapply Forall_impl; [exact Hq|]. intros e He. split; [by apply quiet_accept|by apply quiet_dispatch].
Qed.

Lemma refuses_calm_after s s1 s2 : refuses s s1 → calm s1 s2 → refuses s s2.
Proof.
  intros [(l & Hl & Ha & Hq) H1] [(l' & Hl' & Hq') H2 _ _]. split; [|congruence].
  exists (l ++ l'). unfold grows in *. rewrite Hl', Hl, app_assoc, acks_app, (acks_quiet l' Hq'), app_nil_r.
  split_and!; [done|done|]. apply Forall_app. split; [done|]. eapply Forall_impl; [exact Hq'|].
  intros e He. split; [by apply quiet_accept|by apply quiet_dispatch].
Qed.

Lemma calm_refuses s s1 s2 : calm s s1 → refuses s1 s2 → refuses s s2.
Proof.
  intros [(l & Hl & Hq) H1 _ _] [(l' & Hl' & Ha & Hq') H2]. split; [|congruence].
  exists (l ++ l'). unfold grows in *. rewrite Hl', Hl, app_assoc, acks_app, (acks_quiet l Hq).
  split_and!; [done|done|]. apply Forall_app. split; [|done]. eapply Forall_impl; [exact Hq|].
  intros e He. split; [by apply quiet_accept|by apply quiet_dispatch].
Qed.

Lemma refuses_write cfg io a s : mqtt5ReasonCodeIsError (coa_ReasonCode a) = true →
  refuses s (conn_write cfg io (PConnAck a) s).1.
Proof.
  intros Ha. unfold conn_write. destruct (ci_write io _);
    [|apply refuses_calm, calm_refl|apply refuses_calm, calm_close].
  rewrite Ha. split; [|done]. eexists [_]. split; [done|]. split; [cbn; lia|].
  apply Forall_singleton. unfold is_accept. cbn. rewrite Ha. split; [done|intros []].
Qed.

Lemma refuses_write_close cfg io a s : mqtt5ReasonCodeIsError (coa_ReasonCode a) = true →
  refuses s (conn_close cfg io (conn_write cfg io (PConnAck a) s).1).
Proof. intros Ha. eapply refuses_calm_after; [by apply refuses_write|apply calm_close]. Qed.

(** ** Establishing *)

(** A step that appends these quiet effects. *)
Lemma calm_log s s' l : cn_fx s' = cn_fx s ++ l → Forall quiet_effect l →
  cl_connAckAccepted (cn_client s') = cl_connAckAccepted (cn_client s) → cl_ID (cn_client s') = cl_ID (cn_client s) →
  au_state (cn_auth s') = au_state (cn_auth s) → calm s s'.
Proof. intros. split; try done. by exists l. Qed.

Lemma quiet_single e : ack_of e = None → (is_dispatch e → False) → Forall quiet_effect [e].
Proof. intros. by apply Forall_singleton. Qed.

Lemma calm_same s s' : cn_fx s' = cn_fx s →
  cl_connAckAccepted (cn_client s') = cl_connAckAccepted (cn_client s) → cl_ID (cn_client s') = cl_ID (cn_client s) →
  au_state (cn_auth s') = au_state (cn_auth s) → calm s s'.
Proof. intros H. intros. apply (calm_log s s' []); try done. by rewrite app_nil_r. Qed.

Lemma client_setters x y z b c :
  cl_connAckAccepted (cl_set_token x c) = cl_connAckAccepted c ∧ cl_ID (cl_set_token x c) = cl_ID c ∧
  cl_connAckAccepted (cl_set_expiry b y z c) = cl_connAckAccepted c ∧ cl_ID (cl_set_expiry b y z c) = cl_ID c ∧
  cl_connAckAccepted (cl_set_listener c) = cl_connAckAccepted c ∧ cl_ID (cl_set_listener c) = cl_ID c ∧
  cl_connAckAccepted (cl_flag y c) = cl_connAckAccepted c ∧ cl_ID (cl_flag y c) = cl_ID c ∧
  cl_connAckAccepted (cl_accept c) = true ∧ cl_ID (cl_accept c) = cl_ID c ∧
  cl_connAckAccepted (cl_set_id x c) = cl_connAckAccepted c ∧ cl_ID (cl_set_id x c) = x.
Proof. by destruct c. Qed.

Lemma client_will x c : cl_connAckAccepted (cl_will x c) = cl_connAckAccepted c ∧ cl_ID (cl_will x c) = cl_ID c.
Proof. by destruct c. Qed.

Lemma calm_setup cfg c s : calm s (initializeConnectSetup cfg c s).
Proof. apply calm_same; try done; cbn; by destruct (cn_client s). Qed.

Lemma calm_acquire cfg io c s : calm s (acquireSessionForConnect cfg io c s).1.
Proof.
  unfold acquireSessionForConnect. destruct (ci_acquireErr io); [apply calm_refl|].
  destruct (AcquireSession _ _ _) as [st res]. by apply calm_same.
Qed.

Lemma calm_token t s : calm s (applyTakenOverOwnerToken t s).1.
Proof.
  unfold applyTakenOverOwnerToken. case_bool_decide; [apply calm_refl|].
  apply calm_same; try done; cbn; by destruct (cn_client s).
Qed.

Lemma calm_previous t s : calm s (closePreviousSessionOwner t s).
Proof.
  unfold closePreviousSessionOwner. destruct (top_PreviousOwner t); [|apply calm_refl].
  destruct (top_PreviousOwnerExists t); [|apply calm_refl]. eapply calm_log; [done|by apply quiet_single|done..].
Qed.

Lemma calm_pending_will cfg io s : calm s (deletePendingWillDelayTask cfg io s).
Proof.
  unfold deletePendingWillDelayTask. destruct (_ || _); [apply calm_refl|].
  destruct (DeleteTask _ _ _); [by apply calm_same|apply calm_refl].
Qed.

Lemma calm_clean_start cfg io c s : calm s (cleanupCleanStartState cfg io c s).
Proof.
  unfold cleanupCleanStartState. destruct (con_CleanStart c); cbn; [|apply calm_refl].
  destruct (ci_deleteSubsErr io); (eapply calm_log; [done|by apply quiet_single|done..]).
Qed.

Lemma calm_register cfg io s : calm s (registerClientConnection cfg io s).
Proof.
  unfold registerClientConnection. destruct (ci_old io) as [[old oio]|].
  - destruct (closeWithSessionTakenOverLocked _ _ _ _) as [[c' w] fx].
    apply (calm_log _ _ (CRegister (cl_ID (cn_client s)) :: (COld <$> fx))); try done.
    + cbn. by rewrite <-app_assoc.
    + constructor; [split; [done|by intros []]|]. apply Forall_fmap, Forall_true. split; [done|by intros []].
  - eapply calm_log; [done|by apply quiet_single|done..].
Qed.

Lemma calm_runtime cfg c s : calm s (prepareConnectedClientRuntime cfg c s).
Proof.
  unfold prepareConnectedClientRuntime. destruct (_ && _); [|by apply calm_same].
  eapply calm_log; [done|by apply quiet_single|done..].
Qed.

Lemma calm_will c s : calm s (prepareClientWillMessage c s).
Proof.
  unfold prepareClientWillMessage. destruct (con_WillFlag c); cbn; [|apply calm_refl].
  apply calm_same; try done; cbn; by destruct (cn_client s).
Qed.

Lemma calm_alive s : calm s (UpdateClientAliveTime s).
Proof.
  unfold UpdateClientAliveTime. destruct (_ || _); [apply calm_refl|]. eapply calm_log; [done|by apply quiet_single|done..].
Qed.

Lemma calm_restore c o s : calm s (restoreSessionAfterConnAck c o s).
Proof.
  unfold restoreSessionAfterConnAck. destruct (con_CleanStart c); [apply calm_refl|].
  eapply calm_log; [done|by apply quiet_single|done..].
Qed.

(** An accepting CONNACK between calm steps. *)
Record accepts (s s' : Conn) : Prop := {
  ac_fx : ∃ l1 a l2, grows s s' (l1 ++ CE (FWrite (PConnAck a)) :: l2) ∧ coa_ReasonCode a = 0 ∧
    Forall quiet_effect l1 ∧ Forall quiet_effect l2;
  ac_accepted : cl_connAckAccepted (cn_client s') = true;
  ac_id : cl_ID (cn_client s') = cl_ID (cn_client s);
  ac_auth : au_state (cn_auth s') = au_state (cn_auth s) }.

Lemma calm_accepts s s1 s2 : calm s s1 → accepts s1 s2 → accepts s s2.
Proof.
  intros [(l & Hl & Hq) H1 H2 H3] [(l1 & a & l2 & Hg & Ha & Hq1 & Hq2) G1 G2 G3]. split; [|congruence..].
  exists (l ++ l1), a, l2. unfold grows in *. rewrite Hg, Hl, !app_assoc. split_and!; try done. by apply Forall_app.
Qed.

Lemma successConnAck_code cfg c b o s : coa_ReasonCode (successConnAck cfg c b o s) = 0.
Proof.
  unfold successConnAck, applyEnhancedAuthToConnAckProperties. case_bool_decide; cbn;
    unfold applyRuntimeCapabilitiesToConnAckProperties, applyConnectAwareConfigToConnAckProperties, applyAssignedClientIDToConnAck;
    destruct (lg_shared _), (_ && _), b; done.
Qed.

Lemma establish_spec cfg io c b resp s : 
  let '(s', res) := establish cfg io c b resp s in
  match res with Ok _ => accepts s s' | Err _ => calm s s' end.
Proof.
  unfold establish. pose proof (calm_token (ap_Takeover resp) s) as Ht.
  destruct (applyTakenOverOwnerToken _ _) as [s1 [[]|e]]; [|done]. cbn in Ht.
  set (s2 := closePreviousSessionOwner _ _). set (s3 := deletePendingWillDelayTask _ _ _).
  set (s4 := cleanupCleanStartState _ _ _ _). set (s5 := registerClientConnection _ _ _).
  set (s6 := prepareConnectedClientRuntime _ _ _). set (s7 := prepareClientWillMessage _ _).
  assert (calm s s7) as H7.
  { eapply calm_trans; [exact Ht|]. eapply calm_trans; [apply calm_previous|]. eapply calm_trans; [apply calm_pending_will|].
    eapply calm_trans; [apply calm_clean_start|]. eapply calm_trans; [apply calm_register|].
    eapply calm_trans; [apply calm_runtime|]. apply calm_will. }
  clearbody s7. unfold prepareSuccessConnAck. set (s8 := cn_set_neg _ s7). set (a := successConnAck _ _ _ _ _).
  assert (calm s s8) as H8 by (eapply calm_trans; [exact H7|by apply calm_same]).
  assert (coa_ReasonCode a = 0) as Ha by apply successConnAck_code.
  unfold conn_write. destruct (ci_write io (PConnAck a)); [|exact H8|eapply calm_trans; [exact H8|apply calm_close]].
  rewrite Ha. change (mqtt5ReasonCodeIsError 0) with false. cbn [negb].
  set (s9 := cn_set_client (cl_accept _) _). eapply calm_accepts; [exact H8|].
  pose (s10 := restoreSessionAfterConnAck c (ap_OpenSession resp) (UpdateClientAliveTime s9)).
  change (accepts s8 (cn_set_client (cl_set_listener (cn_client s10)) (cn_log CStartRunner s10))).
  assert (calm s9 s10) as H10 by (eapply calm_trans; [apply calm_alive|apply calm_restore]).
  clearbody s10. destruct H10 as [(l & Hl & Hq) G1 G2 G3].
  destruct (client_setters "" 0 0 false (cn_client s8)) as (_ & _ & _ & _ & _ & _ & _ & _ & S1 & S2 & _).
  destruct (client_setters "" 0 0 false (cn_client s10)) as (_ & _ & _ & _ & S3 & S4 & _).
  split; cbn [cn_client cn_auth cn_set_client cn_log].
  - exists [], a, (l ++ [CStartRunner]). unfold grows in *. split_and!; try done.
    + change (cn_fx s10 ++ [CStartRunner] = cn_fx s8 ++ CE (FWrite (PConnAck a)) :: l ++ [CStartRunner]).
      rewrite Hl. cbn. by rewrite <-!app_assoc.
    + apply Forall_app. split; [done|by apply quiet_single].
  - rewrite S3, G1. exact S1.
  - rewrite S4, G2. exact S2.
  - rewrite G3. done.
Qed.

(** ** Completing *)

(** Accepted, after the plugins consented. *)
Record approves (s s' : Conn) : Prop := {
  ap_fx : ∃ l1 a l2, grows s s' (l1 ++ CE (FWrite (PConnAck a)) :: l2) ∧ coa_ReasonCode a = 0 ∧
    Forall quiet_effect l1 ∧ Forall quiet_effect l2 ∧ Exists is_consent l1;
  ap_accepted : cl_connAckAccepted (cn_client s') = true;
  ap_id : cl_ID (cn_client s') = cl_ID (cn_client s);
  ap_auth : au_state (cn_auth s') = au_state (cn_auth s) }.

Lemma calm_approves s s1 s2 : calm s s1 → approves s1 s2 → approves s s2.
Proof.
  intros [(l & Hl & Hq) H1 H2 H3] [(l1 & a & l2 & Hg & Ha & Hq1 & Hq2 & Hc) G1 G2 G3]. split; [|congruence..].
  exists (l ++ l1), a, l2. unfold grows in *. rewrite Hg, Hl, !app_assoc. split_and!; try done; [by apply Forall_app|].
  apply Exists_app. by right.
Qed.

Lemma consent_accepts c s s' : accepts (cn_log (CPlugin c true) s) s' → approves s s'.
Proof.
  intros [(l1 & a & l2 & Hg & Ha & Hq1 & Hq2) G1 G2 G3]. split; [|done..].
  exists (CPlugin c true :: l1), a, l2. unfold grows in *. rewrite Hg. cbn. rewrite <-app_assoc. split_and!; try done.
  - constructor; [split; [done|by intros []]|done].
  - by constructor.
Qed.

(** The codes of the admission callback are success or errors. *)
Definition admission_ok (io : ConnectIO) : Prop :=
  match ci_admission io with Some (code, _, _) => code = 0 ∨ 0x80 ≤ code < 256 | None => True end.

Lemma error_code code : 0x80 ≤ code < 256 → mqtt5ReasonCodeIsError code = true.
Proof. unfold mqtt5ReasonCodeIsError. lia. Qed.

Lemma completeConnect_spec cfg io c b s : admission_ok io →
  let '(s', res) := completeConnect cfg io c b s in
  match res with Ok _ => approves s s' | Err _ => refuses s s' end.
Proof.
  intros Had. unfold completeConnect, handleConnectAdmission, admission_ok in *.
  assert (let '(s', res) :=
      let '(s, connectPacket, res) := runConnectPlugin cfg io c s in
      match res with
      | Err e => (s, Err e)
      | Ok _ =>
          let s := initializeConnectSetup cfg connectPacket s in
          let '(s, res) := acquireSessionForConnect cfg io connectPacket s in
          match res with Err e => (s, Err e) | Ok resp => establish cfg io connectPacket b resp s end
      end in match res with Ok _ => approves s s' | Err _ => refuses s s' end) as Hmain.
  { unfold runConnectPlugin. destruct (ci_plugin io c) as [c' [e|]].
    - apply (calm_refuses _ (cn_log (CPlugin c' false) s)); [|by apply refuses_write_close].
      eapply calm_log; [done|apply quiet_single; [done|by intros []]|done..].
    - set (s1 := cn_log _ s). pose proof (calm_acquire cfg io c' (initializeConnectSetup cfg c' s1)) as Hq.
      pose proof (calm_trans _ _ _ (calm_setup cfg c' s1) Hq) as H1.
      destruct (acquireSessionForConnect _ _ _ _) as [s2 [resp|e]]; cbn in H1.
      + pose proof (establish_spec cfg io c' b resp s2) as He. destruct (establish _ _ _ _ _ _) as [s3 [[]|e]].
        * apply (consent_accepts c'). by eapply calm_accepts.
        * apply refuses_calm. apply (calm_trans _ s1); [|exact (calm_trans _ _ _ H1 He)]. eapply calm_log; [done|by apply quiet_single|done..].
      + apply refuses_calm. apply (calm_trans _ s1); [|exact H1]. eapply calm_log; [done|apply quiet_single; [done|by intros []]|done..]. }
  destruct (ci_admission io) as [[[code reason] reference]|]; [|exact Hmain].
  destruct (code =? 0) eqn:E; [exact Hmain|]. apply refuses_write_close. cbn. apply error_code. lia.
Qed.

(** ** Phases *)

Definition needs_auth (c : Connect) : Prop :=
  match con_Properties c with Some p => cop_AuthMethod p ≠ "" | None => False end.

(** What the log of a connection that started with CONNECT [c] promises. *)
Record in_order (c : Connect) (fx : list CEffect) : Prop := {
  io_one : (length (acks fx) ≤ 1)%nat;
  io_dispatch : before is_dispatch is_accept fx;
  io_consent : before is_accept is_consent fx;
  io_auth : needs_auth c → before is_accept is_authenticated fx }.

(** Waiting for the client's next AUTH. *)
Record waiting (s : Conn) : Prop := {
  wa_fx : Forall quiet_effect (cn_fx s);
  wa_accepted : cl_connAckAccepted (cn_client s) = false;
  wa_state : au_state (cn_auth s) = enhancedAuthAuthenticating;
  wa_id : cl_ID (cn_client s) ≠ "" }.

Record connected (c : Connect) (s : Conn) : Prop := {
  co_order : in_order c (cn_fx s);
  co_accept : Exists is_accept (cn_fx s);
  co_accepted : cl_connAckAccepted (cn_client s) = true;
  co_state : au_state (cn_auth s) ≠ enhancedAuthAuthenticating;
  co_id : cl_ID (cn_client s) ≠ "" }.

Lemma before_none (P Q : CEffect → Prop) fx : Forall (λ e, ¬ P e) fx → before P Q fx.
Proof. intros H. apply (before_app P Q [] fx); [apply before_nil|by right]. Qed.

Lemma in_order_refused c fx l : Forall quiet_effect fx → (length (acks l) ≤ 1)%nat →
  Forall (λ e, ¬ is_accept e ∧ ¬ is_dispatch e) l → in_order c (fx ++ l).
Proof.
  intros Hq Ha Hl.
  assert (Forall (λ e, ¬ is_accept e) (fx ++ l)) as H1.
  { apply Forall_app. split; [eapply Forall_impl; [exact Hq|]; apply quiet_accept|].
    eapply Forall_impl; [exact Hl|]. by intros ? []. }
  assert (Forall (λ e, ¬ is_dispatch e) (fx ++ l)) as H2.
  { apply Forall_app. split; [eapply Forall_impl; [exact Hq|]; apply quiet_dispatch|].
    eapply Forall_impl; [exact Hl|]. by intros ? []. }
  split; [rewrite acks_app, (acks_quiet fx Hq); cbn; lia|by apply before_none..|intros _; by apply before_none].
Qed.

Lemma in_order_refuses c s s' : Forall quiet_effect (cn_fx s) → refuses s s' → in_order c (cn_fx s').
Proof. intros Hq [(l & -> & Ha & Hl) _]. by apply in_order_refused. Qed.

Lemma in_order_quiet c fx : Forall quiet_effect fx → in_order c fx.
Proof.
  intros H. rewrite <-(app_nil_r fx). apply in_order_refused; [done|cbn; lia|done].
Qed.

(** The accepting CONNACK, with consent and, if needed, authentication in the log. *)
Lemma in_order_approves c s s' : Forall quiet_effect (cn_fx s) → (needs_auth c → Exists is_authenticated (cn_fx s)) →
  approves s s' → in_order c (cn_fx s') ∧ Exists is_accept (cn_fx s').
Proof.
  intros Hq Hn [(l1 & a & l2 & Hg & Ha & Hq1 & Hq2 & Hc) _ _ _]. unfold grows in Hg.
  assert (is_accept (CE (FWrite (PConnAck a)))) as Hacc. { unfold is_accept. cbn. by rewrite Ha. }
  assert (∀ Q, Exists Q (cn_fx s ++ l1) → before is_accept Q (cn_fx s')) as Hbef.
  { intros Q HQ. rewrite Hg, cons_middle, !app_assoc. apply before_app; [|left; apply Exists_app; by left].
    apply before_snoc; [|done]. apply before_none, Forall_app.
    split; (eapply Forall_impl; [eassumption|]; apply quiet_accept). }
  split; [split|].
  - rewrite Hg, !acks_app. change (acks (CE (FWrite (PConnAck a)) :: l2)) with (a :: acks l2).
    rewrite !acks_quiet by done. cbn. lia.
  - apply before_none. rewrite Hg. apply Forall_app. split; [eapply Forall_impl; [exact Hq|]; apply quiet_dispatch|].
    apply Forall_app. split; [eapply Forall_impl; [exact Hq1|]; apply quiet_dispatch|].
    constructor; [by intros []|]. eapply Forall_impl; [exact Hq2|]; apply quiet_dispatch.
  - apply Hbef. apply Exists_app. by right.
  - intros Hna. apply Hbef. apply Exists_app. left. auto.
  - rewrite Hg. apply Exists_app. right. apply Exists_app. right. by constructor.
Qed.

Lemma connected_grows c s s' l : connected c s → grows s s' l → acks l = [] →
  cl_connAckAccepted (cn_client s') = cl_connAckAccepted (cn_client s) →
  au_state (cn_auth s') ≠ enhancedAuthAuthenticating → cl_ID (cn_client s') = cl_ID (cn_client s) → connected c s'.
Proof.
  intros [[H1 H2 H3 H4] H5 H6 H7 H8] Hg Ha Hac Hs Hi. unfold grows in Hg.
  assert (Forall (λ e, ¬ is_accept e) l) as Hl.
  { clear -Ha. induction l as [|e l IH]; [done|]. unfold acks in Ha. cbn in Ha.
    destruct (ack_of e) eqn:E; [done|]. constructor; [|by apply IH]. unfold is_accept. rewrite E. tauto. }
  split; [split|..]; rewrite ?Hg; [rewrite acks_app, Ha, app_nil_r; done| | | |..].
  - apply before_app; [done|by left].
  - apply before_app; [done|by right].
  - intros Hn. apply before_app; [by apply H4|by right].
  - apply Exists_app. by left.
  - by rewrite Hac.
  - done.
  - by rewrite Hi.
Qed.

Lemma connected_calm c s s' : connected c s → calm s s' → connected c s'.
Proof.
  intros Hc [(l & Hg & Hq) Hac Hi Ha]. eapply connected_grows; [done|exact Hg|by apply acks_quiet|done| |done].
  rewrite Ha. apply Hc.
Qed.

Lemma in_order_calm c s s' : in_order c (cn_fx s) → calm s s' → in_order c (cn_fx s').
Proof.
  intros [H1 H2 H3 H4] [(l & Hg & Hq) _ _ _]. unfold grows in Hg. rewrite Hg.
  assert (Forall (λ e, ¬ is_accept e) l) as Ha by (eapply Forall_impl; [exact Hq|]; apply quiet_accept).
  assert (Forall (λ e, ¬ is_dispatch e) l) as Hd by (eapply Forall_impl; [exact Hq|]; apply quiet_dispatch).
  split; [rewrite acks_app, (acks_quiet l Hq), app_nil_r; done|..].
  - apply before_app; [done|by right].
  - apply before_app; [done|by right].
  - intros Hn. apply before_app; [by apply H4|by right].
Qed.

Lemma waiting_calm s s' : waiting s → calm s s' → waiting s'.
Proof.
  intros [H1 H2 H3 H4] [(l & Hg & Hq) Ha Hi Hs]. split; try congruence.
  unfold grows in Hg. rewrite Hg. by apply Forall_app.
Qed.

(** Ready for [completeConnect]. *)
Record cleared (c : Connect) (s : Conn) : Prop := {
  cd_fx : Forall quiet_effect (cn_fx s);
  cd_auth : needs_auth c → Exists is_authenticated (cn_fx s);
  cd_state : au_state (cn_auth s) ≠ enhancedAuthAuthenticating;
  cd_id : cl_ID (cn_client s) ≠ "" }.

(** Where a connection that began with [c] is after a step: it goes on, or it ends with its log
    in order. *)
Definition phase (c : Connect) (r : Conn * result string unit) : Prop :=
  match r.2 with
  | Ok _ => waiting r.1 ∨ connected c r.1
  | Err _ => in_order c (cn_fx r.1)
  end.

Lemma complete_phase cfg io c pc b s : admission_ok io → cleared c s → phase c (completeConnect cfg io pc b s).
Proof.
  intros Had [H1 H2 H3 H4]. pose proof (completeConnect_spec cfg io pc b s Had) as H. unfold phase.
  destruct (completeConnect cfg io pc b s) as [s' [[]|e]]; cbn; [|by eapply in_order_refuses].
  right. pose proof (in_order_approves c s s' H1 H2 H) as [Ho He]. destruct H as [_ Hac Hi Ha]. split; try done.
  - by rewrite Ha.
  - by rewrite Hi.
Qed.

Lemma quiet_auth req resp : Forall quiet_effect [CAuth req resp].
Proof. apply quiet_single; [done|by intros []]. Qed.

(** The first round of enhanced authentication. *)
Lemma initial_auth_spec cfg io c b s : Forall quiet_effect (cn_fx s) → cl_connAckAccepted (cn_client s) = false →
  au_state (cn_auth s) = enhancedAuthNone → cl_ID (cn_client s) ≠ "" →
  let '(s', res) := handleInitialEnhancedAuth cfg io c b s in
  match res with Ok true => waiting s' | Ok false => cleared c s' | Err _ => in_order c (cn_fx s') end.
Proof.
  intros Hq Hacc Hst Hid. unfold handleInitialEnhancedAuth.
  destruct (con_Properties c) as [p|] eqn:Hp.
  2: { split; try done; [|by rewrite Hst]. unfold needs_auth. by rewrite Hp. }
  case_bool_decide as Hm.
  { split; try done; [|by rewrite Hst]. unfold needs_auth. by rewrite Hp. }
  rewrite (bool_decide_false (au_state (cn_auth s) = _)) by (by rewrite Hst).
  unfold receiveAuthResponse. set (req := authPacketFromConnect c p). set (s1 := cn_set_auth _ s).
  destruct (ci_auth io req) as [|e|a] eqn:Ha.
  - apply (in_order_refuses _ s1); [done|]. apply refuses_write_close. by destruct (isHandlerNotSet io req).
  - apply (in_order_refuses _ (cn_log (CAuth req None) s1)); [apply Forall_app; split; [done|apply quiet_auth]|].
    apply refuses_write_close. by destruct (isHandlerNotSet io req).
  - set (s2 := cn_log _ s1). assert (Forall quiet_effect (cn_fx s2)) as H2.
    { apply Forall_app. split; [done|apply quiet_auth]. }
    cbn [aut_ReasonCode normalizeAuthResponse]. destruct (aut_ReasonCode a =? AuthSuccess) eqn:E0; [|destruct (_ =? AuthContinueAuthentication)].
    + split; try done. intros _. apply Exists_app. right. constructor. unfold is_authenticated. lia.
    + set (s3 := cn_set_auth _ s2). assert (waiting s3) as H3 by done. unfold sendAuthPacket.
      pose proof (calm_write cfg io (PAuth (ci_onSendAuth io (normalizeAuthResponse (cop_AuthMethod p) a))) s3 ltac:(done)) as Hw.
      destruct (conn_write _ _ _ s3) as [s4 []]; cbn in Hw.
      * by eapply waiting_calm.
      * apply (in_order_calm _ s3); [by apply in_order_quiet|done].
    + apply (in_order_refuses _ s2); [done|]. by apply refuses_write_close.
Qed.

(** Every refusal of the checks carries an error code. *)
Lemma validConnect_error q prop limits c r : validConnect q prop limits c = Some r →
  mqtt5ReasonCodeIsError (rf_code r) = true.
Proof.
  unfold validConnect. destruct (validateConnectBasics q c) eqn:H1; [intros [= <-]|destruct (validateConnectProperties c) eqn:H2; [intros [= <-]|
    destruct (validateConnectWill prop c) eqn:H3; [intros [= <-]|intros H4]]].
  - unfold validateConnectBasics in H1. repeat case_match; simplify_eq; done.
  - unfold validateConnectProperties in H2. destruct (con_Properties c); [|done]. repeat case_match; simplify_eq; done.
  - unfold validateConnectWill in H3. repeat case_match; simplify_eq; done.
  - unfold validateConnectConfiguredLimits in H4. destruct (_ ≫= _); [|done]. repeat case_match; simplify_eq; done.
Qed.

Lemma connect_phase cfg io c s : ci_clientID io ≠ "" → admission_ok io → Forall quiet_effect (cn_fx s) →
  cl_connAckAccepted (cn_client s) = false → au_state (cn_auth s) = enhancedAuthNone → phase c (handleConnect cfg io c s).
Proof.
  intros Hci Had Hq Hacc Hst. unfold handleConnect. set (s1 := applyConnectClientPreferences c s).
  destruct (validConnect _ _ _ _) as [r|] eqn:Hv.
  - unfold phase. cbn. apply (in_order_refuses _ s1); [done|]. unfold failConnect. apply refuses_write. cbn.
    by apply (validConnect_error _ _ _ _ _ Hv).
  - set (s2 := cn_set_client _ s1). set (b := bool_decide _).
    destruct (client_setters (if b then ci_clientID io else con_ClientID c) 0 0 false (cn_client s)) as (_ & _ & _ & _ & _ & _ & _ & _ & _ & _ & S1 & S2).
    assert (cl_ID (cn_client s2) ≠ "") as Hid.
    { unfold s2, b. cbn. fold b. rewrite S2. unfold b. by case_bool_decide. }
    pose proof (initial_auth_spec cfg io c b s2 Hq (eq_trans S1 Hacc) Hst Hid) as H.
    destruct (handleInitialEnhancedAuth _ _ _ _ _) as [s3 [[]|e]]; [by left| |done]. by apply complete_phase.
Qed.

Lemma failProtocol_phase cfg io reason c s : in_order c (cn_fx s) → phase c (conn_failProtocol cfg io reason s).
Proof.
  intros H. pose proof (calm_failProtocol cfg io reason s) as (Hc & He & _). unfold phase. rewrite He.
  by apply (in_order_calm c s).
Qed.

Lemma sendAuth_calm cfg io a s : calm s (sendAuthPacket cfg io a s).1.
Proof.
  unfold sendAuthPacket. pose proof (calm_write cfg io (PAuth (ci_onSendAuth io a)) s ltac:(done)).
  by destruct (conn_write _ _ _ _).
Qed.

Lemma sendAuth_phase cfg io a c s : waiting s ∨ connected c s → phase c (sendAuthPacket cfg io a s).
Proof.
  intros H. pose proof (sendAuth_calm cfg io a s) as Hc. unfold phase.
  destruct (sendAuthPacket cfg io a s) as [s' [[]|e]]; cbn in *.
  - destruct H; [left; by eapply waiting_calm|right; by eapply connected_calm].
  - apply (in_order_calm c s); [|done]. destruct H as [H|H]; [apply in_order_quiet, H|apply H].
Qed.

Lemma auth_during_phase cfg io a c s : admission_ok io → waiting s → phase c (handleAuthDuringConnect cfg io a s).
Proof.
  intros Had Hw. unfold handleAuthDuringConnect, receiveAuthResponse, failEnhancedAuthConnect, failConnect.
  assert (∀ s' code reason e, Forall quiet_effect (cn_fx s') → mqtt5ReasonCodeIsError code = true →
    phase c (conn_close cfg io (conn_write cfg io (PConnAck (failedConnAck code reason)) s').1, Err e)) as Hfail.
  { intros s' code reason e Hq Hcode. unfold phase. cbn. apply (in_order_refuses _ s'); [done|]. by apply refuses_write_close. }
  assert (∀ r, waiting (cn_log (CAuth a r) s)) as Hlog.
  { intros r. eapply waiting_calm; [exact Hw|]. eapply calm_log; [done|apply quiet_auth|done..]. }
  destruct (ci_auth io a) as [|e|resp] eqn:Ha.
  - apply Hfail; [apply Hw|by destruct (isHandlerNotSet io a)].
  - apply Hfail; [apply (Hlog None)|by destruct (isHandlerNotSet io a)].
  - pose proof (Hlog (Some resp)) as H1. set (s1 := cn_log _ s) in *. cbn [normalizeAuthResponse aut_ReasonCode].
    destruct (_ =? AuthContinueAuthentication); [apply sendAuth_phase; by left|].
    destruct (aut_ReasonCode resp =? AuthSuccess) eqn:E0; [|apply Hfail; [apply H1|done]].
    destruct (au_pendingConnect _) as [pc|]; [|apply Hfail; [apply H1|done]].
    apply complete_phase; [done|]. split; try done; [apply H1| |apply H1].
    intros _. apply Exists_app. right. constructor. unfold is_authenticated. lia.
Qed.

Lemma auth_after_phase cfg io a c s : connected c s → phase c (handleAuthAfterConnect cfg io a s).
Proof.
  intros Hc. unfold handleAuthAfterConnect, receiveAuthResponse.
  assert (∀ r, connected c (cn_log (CAuth a r) s)) as Hlog.
  { intros r. eapply connected_calm; [exact Hc|]. eapply calm_log; [done|apply quiet_auth|done..]. }
  assert (∀ r x, x ≠ enhancedAuthAuthenticating → connected c (set_auth_state x (cn_log (CAuth a r) s))) as Hset.
  { intros r x Hx. apply (connected_grows c (cn_log (CAuth a r) s) _ []); try done.
    unfold grows. by rewrite app_nil_r. }
  destruct (ci_auth io a) as [|e|resp] eqn:Ha; [apply failProtocol_phase, Hc|apply failProtocol_phase, (Hlog None)|].
  cbn [normalizeAuthResponse aut_ReasonCode].
  destruct (_ =? AuthContinueAuthentication); [apply sendAuth_phase; right; by apply Hset|].
  destruct (_ =? AuthSuccess); [apply sendAuth_phase; right; by apply Hset|]. apply failProtocol_phase, (Hlog (Some resp)).
Qed.

Lemma auth_phase cfg io a c s : admission_ok io → waiting s ∨ connected c s → phase c (handleAuth cfg io a s).
Proof.
  intros Had Hs. assert (in_order c (cn_fx s)) as Ho.
  { destruct Hs as [H|H]; [apply in_order_quiet, H|apply H]. }
  unfold handleAuth. set (m := match aut_Properties a with Some p => aup_AuthMethod p | None => "" end).
  destruct (bool_decide (m = "")), (bool_decide (au_method (cn_auth s) = "")), (bool_decide (m = au_method (cn_auth s)));
    cbn [negb]; try by apply failProtocol_phase.
  destruct Hs as [H|H].
  - rewrite (wa_state s H). destruct (_ =? _); [by apply auth_during_phase|by apply failProtocol_phase].
  - pose proof (co_state c s H). destruct (au_state (cn_auth s)) eqn:E; try done; [by apply failProtocol_phase|..];
      (destruct (_ =? _); [by apply auth_after_phase|by apply failProtocol_phase]).
Qed.

Lemma disconnect_phase cfg io d c s : waiting s ∨ connected c s → phase c (handleDisconnect cfg io d s).
Proof.
  intros Hs. assert (in_order c (cn_fx s)) as Ho.
  { destruct Hs as [H|H]; [apply in_order_quiet, H|apply H]. }
  assert (∀ x, cl_connAckAccepted x = cl_connAckAccepted (cn_client s) → cl_ID x = cl_ID (cn_client s) →
    phase c (conn_close cfg io (cn_set_client x s), Ok tt)) as Hclose.
  { intros x H1 H2. assert (calm s (conn_close cfg io (cn_set_client x s))) as Hc.
    { eapply calm_trans; [|apply calm_close]. by apply calm_same. }
    unfold phase. cbn. destruct Hs; [left; by eapply waiting_calm|right; by eapply connected_calm]. }
  unfold handleDisconnect. destruct (isClientDisconnectReasonCodeAllowed _); cbn [negb]; [|by apply failProtocol_phase].
  case_bool_decide; cbn [negb]; [|by apply failProtocol_phase].
  destruct (_ ≫= _) as [v|]; [destruct (_ && _); [by apply failProtocol_phase|]|]; apply Hclose; by destruct (cn_client s).
Qed.

Lemma app_phase cfg io p c s : connected c s → phase c (handleApp cfg io p s).
Proof.
  intros Hc. unfold handleApp. assert (connected c (cn_log (CDispatch p) s)) as H1.
  { eapply connected_grows; [exact Hc|done|done|done|apply Hc|done]. }
  destruct (ci_app io p) as [err closes]. set (s1 := cn_log _ s) in *.
  assert (connected c (if closes then conn_close cfg io s1 else s1)) as H2.
  { destruct closes; [|done]. eapply connected_calm; [done|apply calm_close]. }
  unfold phase. destruct err; cbn; [apply H2|by right].
Qed.

Lemma calm_oversized cfg io p s : calm s (rejectOversizedInboundPacket cfg io p s).1.
Proof.
  unfold rejectOversizedInboundPacket. destruct (fits _ _); [apply calm_refl|]. cbn.
  eapply calm_trans; [|apply calm_close]. destruct (canSendDisconnect _); [|apply calm_refl].
  apply calm_write. intros a. unfold ForPacketTooLarge, NewServerDisconnect. by case_bool_decide.
Qed.

(** The entry of a packet, up to its dispatch. *)
Lemma HandlePacket_phase cfg io p c s : in_order c (cn_fx s) →
  (∀ s', calm s s' → validateInboundPacketState p s' = None → phase c (conn_dispatch cfg io p s')) →
  phase c (HandlePacket cfg io p s).
Proof.
  intros Ho Hd. unfold HandlePacket. pose proof (calm_trans _ _ _ (calm_alive s) (calm_oversized cfg io p (UpdateClientAliveTime s))) as Hc.
  destruct (rejectOversizedInboundPacket _ _ _ _) as [s1 []]; cbn in *; [|by eapply in_order_calm].
  destruct (validateInboundPacketState p s1) eqn:Hv; [|by apply Hd].
  apply failProtocol_phase. by eapply in_order_calm.
Qed.

Lemma later_packet_phase cfg io p c s : admission_ok io → waiting s ∨ connected c s → phase c (HandlePacket cfg io p s).
Proof.
  intros Had Hs. apply HandlePacket_phase; [destruct Hs as [H|H]; [apply in_order_quiet, H|apply H]|].
  intros s' Hc Hv. assert (waiting s' ∨ connected c s') as Hs'.
  { destruct Hs; [left; by eapply waiting_calm|right; by eapply connected_calm]. }
  assert (cl_ID (cn_client s') ≠ "") as Hid by (destruct Hs' as [H|H]; apply H).
  unfold validateInboundPacketState in Hv. rewrite (bool_decide_false (cl_ID (cn_client s') = "")) in Hv by done.
  destruct p as [c'|a|p|p|p|p|p|p|p|p|p| | |d|au]; try done; cbn in Hv;
    try (by apply auth_phase); try (by apply disconnect_phase);
    (destruct Hs' as [H|H]; [rewrite (wa_state s' H) in Hv; done|by apply app_phase]).
Qed.

(** A packet that cannot be read. *)
Lemma read_error_in_order cfg io e c s : Forall quiet_effect (cn_fx s) ∨ connected c s →
  in_order c (cn_fx (if canSendDisconnect (cn_client s) then (conn_write cfg io (disconnectForReadPacketError e) s).1
                     else failConnectForReadPacketError cfg io e s)).
Proof.
  intros Hs. assert (in_order c (cn_fx s)) as Ho by (destruct Hs as [H|H]; [by apply in_order_quiet|apply H]).
  destruct (canSendDisconnect (cn_client s)) eqn:Ea.
  - eapply in_order_calm; [exact Ho|]. apply calm_write. intros a. unfold disconnectForReadPacketError.
    destruct e as [e|e]; [by unfold Downlink.ForProtocolError, NewServerDisconnect; case_bool_decide|].
    destruct (we_Kind e); unfold ForPacketTooLarge, NewServerDisconnect; by case_bool_decide.
  - unfold failConnectForReadPacketError. destruct e as [|e]; [done|]. destruct (we_Packet e =? CONNECT); [|done].
    destruct Hs as [Hq|Hc]; [|unfold canSendDisconnect in Ea; by rewrite (co_accepted c s Hc) in Ea].
    apply (in_order_refuses c s); [done|]. apply refuses_write. unfold connAckReasonFromWireError. cbn. by destruct (we_Kind e).
Qed.

(** From a phase on, a run ends with its log in order. *)
Lemma run_in_order cfg ios input c s : Forall admission_ok ios → waiting s ∨ connected c s →
  in_order c (cn_fx (conn_run cfg ios input s)).
Proof.
  intros Hp. revert input s. induction Hp as [|io ios Had Hp IH]; intros input s Hs; cbn.
  { destruct Hs as [H|H]; [apply in_order_quiet, H|apply H]. }
  assert (in_order c (cn_fx s)) as Ho. { destruct Hs as [H|H]; [apply in_order_quiet, H|apply H]. }
  destruct (cl_closed (cn_client s)); [done|]. destruct (Decode _ input) as [[cp rest]|e].
  - destruct (cp_Content cp) as [p|]; [|done].
    pose proof (later_packet_phase cfg io p c s Had Hs) as H. destruct (HandlePacket cfg io p s) as [s' [[]|e]]; [by apply IH|].
    eapply in_order_calm; [exact H|apply calm_close].
  - eapply in_order_calm; [|apply calm_close]. apply read_error_in_order. destruct Hs as [H|H]; [left; apply H|by right].
Qed.

(** ** The session of an accepted CONNECT *)

(** The centers after the clean-start cleanup. *)
Definition clean_state (cfg : ConnectConfig) (io : ConnectIO) (c : Connect) (id token : string) (st : RouterState) : RouterState :=
  if con_CleanStart c && negb (ci_deleteSubsErr io)
  then (DeleteClientSubscriptions st (mkDeleteSubsRequest (lg_nodeID (cc_close cfg)) id token)).1 else st.

(** The world after the close of the connection that was replaced. *)
Definition replaced_world (cfg : ConnectConfig) (io : ConnectIO) (w : World) : World :=
  match ci_old io with
  | None => w
  | Some (old, oldIO) => (closeWithSessionTakenOverLocked (cc_close cfg) oldIO old w).1.2
  end.

Lemma world_token t s s1 : applyTakenOverOwnerToken t s = (s1, Ok tt) →
  cn_world s1 = cn_world s ∧ cl_ID (cn_client s1) = cl_ID (cn_client s) ∧ cl_ownerToken (cn_client s1) = ow_OwnerToken (top_Owner t).
Proof. unfold applyTakenOverOwnerToken. case_bool_decide; [done|]. intros [= <-]. cbn. by destruct (cn_client s). Qed.

Lemma world_previous t s : cn_world (closePreviousSessionOwner t s) = cn_world s ∧ cn_client (closePreviousSessionOwner t s) = cn_client s.
Proof. unfold closePreviousSessionOwner. destruct (top_PreviousOwner t); [|done]. by destruct (top_PreviousOwnerExists t). Qed.

Lemma world_pending_will cfg io s :
  wd_state (cn_world (deletePendingWillDelayTask cfg io s)) = wd_state (cn_world s) ∧ cn_client (deletePendingWillDelayTask cfg io s) = cn_client s.
Proof. unfold deletePendingWillDelayTask. destruct (_ || _); [done|]. by destruct (DeleteTask _ _ _). Qed.

Lemma world_clean_start cfg io c s :
  let s' := cleanupCleanStartState cfg io c s in
  wd_state (cn_world s') = clean_state cfg io c (cl_ID (cn_client s)) (cl_ownerToken (cn_client s)) (wd_state (cn_world s)) ∧
  cn_client s' = cn_client s.
Proof. unfold cleanupCleanStartState, clean_state. destruct (con_CleanStart c); [|done]. by destruct (ci_deleteSubsErr io). Qed.

Lemma world_register cfg io s :
  cn_world (registerClientConnection cfg io s) = replaced_world cfg io (cn_world s) ∧ cn_client (registerClientConnection cfg io s) = cn_client s.
Proof.
  unfold registerClientConnection, replaced_world. destruct (ci_old io) as [[old oio]|]; [|done].
  by destruct (closeWithSessionTakenOverLocked _ _ _ _) as [[? ?] ?].
Qed.

Lemma world_late cfg c o s :
  cn_world (prepareClientWillMessage c (prepareConnectedClientRuntime cfg c s)) = cn_world s ∧
  cn_world (restoreSessionAfterConnAck c o (UpdateClientAliveTime s)) = cn_world s.
Proof.
  unfold prepareClientWillMessage, prepareConnectedClientRuntime, restoreSessionAfterConnAck, UpdateClientAliveTime. split.
  - by destruct (con_WillFlag c), (_ && _).
  - by destruct (con_CleanStart c), (_ || _).
Qed.

Lemma successConnAck_present cfg c b o s :
  coa_SessionPresent (successConnAck cfg c b o s) = negb (con_CleanStart c) && osp_OldSessionExists o.
Proof.
  unfold successConnAck, applyEnhancedAuthToConnAckProperties. case_bool_decide; cbn;
    unfold applyRuntimeCapabilitiesToConnAckProperties, applyConnectAwareConfigToConnAckProperties, applyAssignedClientIDToConnAck;
    destruct (lg_shared _), (_ && _), b; done.
Qed.

(** The steps of [establish] before the CONNACK. *)
Definition prepared (cfg : ConnectConfig) (io : ConnectIO) (c : Connect) (t : TakeOverSessionOwnerResponse) (s : Conn) : Conn :=
  prepareClientWillMessage c (prepareConnectedClientRuntime cfg c (registerClientConnection cfg io
    (cleanupCleanStartState cfg io c (deletePendingWillDelayTask cfg io (closePreviousSessionOwner t s))))).

Lemma calm_prepared cfg io c t s : calm s (prepared cfg io c t s).
Proof.
  unfold prepared. eapply calm_trans; [apply calm_previous|]. eapply calm_trans; [apply calm_pending_will|].
  eapply calm_trans; [apply calm_clean_start|]. eapply calm_trans; [apply calm_register|].
  eapply calm_trans; [apply calm_runtime|]. apply calm_will.
Qed.

Lemma prepared_world cfg io c t s :
  ∃ w5, wd_state w5 = clean_state cfg io c (cl_ID (cn_client s)) (cl_ownerToken (cn_client s)) (wd_state (cn_world s)) ∧
    cn_world (prepared cfg io c t s) = replaced_world cfg io w5.
Proof.
  unfold prepared. set (s2 := closePreviousSessionOwner t s). set (s3 := deletePendingWillDelayTask cfg io s2).
  set (s4 := cleanupCleanStartState cfg io c s3). set (s5 := registerClientConnection cfg io s4).
  destruct (world_previous t s) as [E1 E2], (world_pending_will cfg io s2) as [E3 E4],
    (world_clean_start cfg io c s3) as [E5 E6], (world_register cfg io s4) as [E7 E8],
    (world_late cfg c (mkOpenResponse None false (mkSession "" None [] 0 0 None)) s5) as [E9 _].
  fold s2 in E1, E2. fold s3 in E3, E4. fold s4 in E5, E6. fold s5 in E7, E8. exists (cn_world s4). split.
  - by rewrite E5, E4, E3, E2, E1.
  - by rewrite E9, E7.
Qed.

(** The accepting CONNACK of a successful [establish], and the centers it leaves. *)
Lemma establish_world cfg io c b resp s s' : establish cfg io c b resp s = (s', Ok tt) →
  ∃ w5 l1 a l2, wd_state w5 = clean_state cfg io c (cl_ID (cn_client s)) (ow_OwnerToken (top_Owner (ap_Takeover resp))) (wd_state (cn_world s)) ∧
    cn_world s' = replaced_world cfg io w5 ∧
    cn_fx s' = cn_fx s ++ l1 ++ CE (FWrite (PConnAck a)) :: l2 ∧
    coa_ReasonCode a = 0 ∧ coa_SessionPresent a = negb (con_CleanStart c) && osp_OldSessionExists (ap_OpenSession resp).
Proof.
  unfold establish. destruct (applyTakenOverOwnerToken _ _) as [s1 [[]|e]] eqn:Et; [|done].
  apply world_token in Et as Hw. destruct Hw as (T1 & T2 & T3).
  pose proof (calm_token (ap_Takeover resp) s) as Ht. rewrite Et in Ht. cbn in Ht.
  pose proof (calm_trans _ _ _ Ht (calm_prepared cfg io c (ap_Takeover resp) s1)) as H7.
  destruct (prepared_world cfg io c (ap_Takeover resp) s1) as (w5 & P1 & P2). rewrite T1, T2, T3 in P1.
  fold (prepared cfg io c (ap_Takeover resp) s1). set (s7 := prepared _ _ _ _ _) in *. clearbody s7.
  unfold prepareSuccessConnAck. set (s8 := cn_set_neg _ s7). set (a := successConnAck _ _ _ _ _).
  unfold conn_write. destruct (ci_write io (PConnAck a)); [|done..].
  rewrite (successConnAck_code cfg c b (ap_OpenSession resp) s7 : coa_ReasonCode a = 0). change (mqtt5ReasonCodeIsError 0) with false. cbn [negb].
  set (s9 := cn_set_client (cl_accept _) _). intros [= <-].
  destruct (world_late cfg c (ap_OpenSession resp) s9) as [_ E10].
  set (s10 := restoreSessionAfterConnAck _ _ _) in *. assert (calm s9 s10) as [(l & Hl & Hq) _ _ _] by (eapply calm_trans; [apply calm_alive|apply calm_restore]).
  destruct H7 as [(l0 & Hl0 & _) _ _ _]. unfold grows in *. exists w5, l0, a, (l ++ [CStartRunner]).
  split_and!; [done|cbn; rewrite E10; exact P2| |apply successConnAck_code|apply successConnAck_present].
  change (cn_fx s10 ++ [CStartRunner] = cn_fx s ++ l0 ++ CE (FWrite (PConnAck a)) :: l ++ [CStartRunner]).
  rewrite Hl. change (cn_fx s9) with (cn_fx s7 ++ [CE (FWrite (PConnAck a))]). rewrite Hl0. by rewrite <-!app_assoc.
Qed.

(** The connection it replaces is open, has the same identifier and another token. *)
Definition replaces (id token : string) (io : ConnectIO) : Prop :=
  match ci_old io with
  | None => True
  | Some (old, _) => cl_closed old = false ∧ cl_ID old = id ∧ cl_ownerToken old ≠ "" ∧ cl_ownerToken old ≠ token
  end.

(** The session of the connection it replaces ended with that connection. *)
Definition old_session_ended (io : ConnectIO) : bool :=
  match ci_old io with
  | None => false
  | Some (old, oldIO) => bool_decide (cl_sessionExpiryInterval old = 0) && negb (li_deleteSessionErr oldIO)
  end.

Lemma replaced_state cfg io w id token : holds id token (wd_state w) → replaces id token io →
  wd_state (replaced_world cfg io w) =
    if old_session_ended io then mkRouterState (deleteSession id (rs_sessions (wd_state w))) (rs_subs (wd_state w)) else wd_state w.
Proof.
  intros (Hok & Hid & Htok & Hsub & Hown) Hr. unfold replaced_world, replaces, old_session_ended in *.
  destruct (ci_old io) as [[old oio]|]; [|done]. destruct Hr as (H1 & H2 & H3 & H4).
  apply fmap_Some in Hown as (ow & Hown & Htk).
  pose proof (superseded_close (cc_close cfg) oio (cl_flag 0 old) w ow) as Hs.
  unfold closeWithSessionTakenOverLocked, closeWithDisconnectLocked, writeDisconnectAndCloseLocked.
  assert (cl_closed (cl_flag 0 old) = cl_closed old ∧ cl_ID (cl_flag 0 old) = cl_ID old ∧
    cl_ownerToken (cl_flag 0 old) = cl_ownerToken old ∧ cl_sessionExpiryInterval (cl_flag 0 old) = cl_sessionExpiryInterval old)
    as (F1 & F2 & F3 & F4) by (by destruct old).
  rewrite F1, F2, F3, F4, H2 in Hs. destruct (close _ _ _ _) as [[c' w'] fx]. cbn. apply Hs; try done; congruence.
Qed.

Lemma clean_state_spec cfg io c id token st : holds id token st → lg_nodeID (cc_close cfg) ≠ 0 → ci_deleteSubsErr io = false →
  let st' := clean_state cfg io c id token st in
  holds id token st' ∧ rs_sessions st' = rs_sessions st ∧
  ∀ c' f, sub_of (rs_subs st') c' f = if con_CleanStart c && bool_decide (c' = id) then None else sub_of (rs_subs st) c' f.
Proof.
  intros (Hok & Hid & Htok & Hsub & Hown) Hn He. unfold clean_state. rewrite He.
  destruct (con_CleanStart c); [|done]. cbn [andb negb]. unfold DeleteClientSubscriptions. cbn [dq_ClientID dq_OwnerToken dq_BrokerNodeID].
  rewrite (proj2 (validate_ok id token _)) by done. destruct (DeleteClient _ _) as [t b] eqn:E.
  apply DeleteClient_spec in E as (D1 & D2 & _ & D4); [|done..]. cbn.
  assert (¬ SubCenterProofs.fenced (rs_subs st) id token) as Hnf by (unfold SubCenterProofs.fenced; tauto).
  split_and!; [split_and!; try done; cbn; by rewrite (getOwnerToken_eq (rs_subs st))|done|].
  intros c' f. rewrite D4. destruct (decide (c' = id)); [rewrite !bool_decide_true by done; done|rewrite !bool_decide_false by tauto; done].
Qed.

(** The request that acquires the session of CONNECT [c], as the plugins left it. *)
Definition acquire_request (cfg : ConnectConfig) (io : ConnectIO) (c : Connect) (id : string) : AcquireSessionRequest :=
  mkAcquireRequest (lg_nodeID (cc_close cfg)) id (ci_ownerToken io) (WillMessageToProto c)
    (mqtt5SessionExpiryInterval c (cc_limits cfg)) (con_CleanStart c) (ci_now io).

(** A CONNECT that is completed passed admission and plugins and acquired its session. *)
Lemma completeConnect_ok cfg io c b s s' : completeConnect cfg io c b s = (s', Ok tt) →
  let c' := (ci_plugin io c).1 in
  let r := acquire_request cfg io c' (cl_ID (cn_client s)) in
  ∃ resp s2, validateAcquireSessionRequest r = Ok tt ∧
    AcquireSession (ci_clock io) (wd_state (cn_world s)) r = (wd_state (cn_world s2), Ok resp) ∧
    cn_fx s2 = cn_fx s ++ [CPlugin c' true] ∧ cl_ID (cn_client s2) = cl_ID (cn_client s) ∧
    establish cfg io c' b resp s2 = (s', Ok tt).
Proof.
  unfold completeConnect. intros H. set (c' := (ci_plugin io c).1). set (r := acquire_request _ _ _ _).
  assert (handleConnectAdmission cfg io s = (s, Ok tt)) as Ha.
  { unfold handleConnectAdmission in *. destruct (ci_admission io) as [[[code ?] ?]|]; [|done]. by destruct (code =? 0). }
  rewrite Ha in H. unfold runConnectPlugin in H. subst c'. destruct (ci_plugin io c) as [c' [e|]]; [done|]. cbn [fst] in *.
  unfold acquireSessionForConnect in H. destruct (ci_acquireErr io); [done|].
  set (s1 := initializeConnectSetup cfg c' (cn_log (CPlugin c' true) s)) in *.
  assert (cl_ID (cn_client s1) = cl_ID (cn_client s) ∧ cl_sessionExpiryInterval (cn_client s1) = mqtt5SessionExpiryInterval c' (cc_limits cfg))
    as [E1 E2]. { unfold s1. cbn. by destruct (cn_client s). }
  rewrite E1, E2 in H. fold (acquire_request cfg io c' (cl_ID (cn_client s))) in H. fold r in H.
  change (cn_world s1) with (cn_world s) in H.
  assert (validateAcquireSessionRequest r = Ok tt) as Hv.
  { unfold AcquireSession in H. by destruct (validateAcquireSessionRequest r) as [[]|]. }
  destruct (AcquireSession _ _ r) as [st [resp|e]] eqn:Eq; [|done].
  eexists resp, (cn_set_world (with_state st (cn_world s)) s1). split_and!; done.
Qed.

(** C10. An accepted CONNECT.  Whatever the plugins made of it, the CONNACK carries reason code 0
    and announces a present session exactly when the CONNECT asked to keep one and a session that
    had not expired was stored; after a clean start no subscription of the client is left,
    otherwise all are kept; no other client is touched.  The connection's token then
    owns the client in both centers, unless it replaced a connection to this broker whose
    session had expiry 0: the close of that connection then deleted the new session and its
    owner record. *)
Theorem accepted_connect cfg io c b s s' :
  center_ok (rs_subs (wd_state (cn_world s))) → ci_deleteSubsErr io = false →
  replaces (cl_ID (cn_client s)) (ci_ownerToken io) io →
  completeConnect cfg io c b s = (s', Ok tt) →
  let c' := (ci_plugin io c).1 in
  let id := cl_ID (cn_client s) in
  let st := wd_state (cn_world s) in
  let st' := wd_state (cn_world s') in
  (∃ l1 a l2, cn_fx s' = cn_fx s ++ l1 ++ CE (FWrite (PConnAck a)) :: l2 ∧ coa_ReasonCode a = 0 ∧
     coa_SessionPresent a = negb (con_CleanStart c') && (GetSession (ci_clock io) (rs_sessions st) id (ci_now io)).2) ∧
  (∀ x f, sub_of (rs_subs st') x f = if con_CleanStart c' && bool_decide (x = id) then None else sub_of (rs_subs st) x f) ∧
  (∀ x, x ≠ id → same_client x (rs_sessions st') (rs_sessions st)) ∧
  (if old_session_ended io then c_Sessions (rs_sessions st') !! id = None ∧ c_Owners (rs_sessions st') !! id = None
   else holds id (ci_ownerToken io) st').
Proof.
  intros Hok Hds Hrep Hc. apply completeConnect_ok in Hc as (resp & s2 & Hv & Hacq & Hfx & Hid & Hest).
  intros c' id st st'. fold c' id in Hv, Hacq, Hfx, Hest. set (r := acquire_request cfg io c' id) in *.
  destruct (AcquireSession_takes_over (ci_clock io) st r Hok Hv) as (Hholds & (ses & owner & Hresp & _) & _ & Hsubs & Hsame).
  fold st in Hacq. rewrite Hacq in Hholds, Hresp, Hsubs, Hsame. cbn [fst snd] in *. injection Hresp as ->.
  destruct (establish_world _ _ _ _ _ _ _ Hest) as (w5 & l1 & a & l2 & Hw5 & Hw & Hlog & Hcode & Hpres).
  rewrite Hid in Hw5. cbn in Hw5, Hpres. fold id in Hw5.
  assert (lg_nodeID (cc_close cfg) ≠ 0) as Hn.
  { unfold validateAcquireSessionRequest in Hv. destruct (validateClientOwnerRequest _ _ _) as [[]|] eqn:E; [|done].
    by apply validate_ok in E as (_ & _ & ?). }
  destruct (clean_state_spec cfg io c' id (ci_ownerToken io) _ Hholds Hn Hds) as (Hh5 & Hs5 & Hsub5). rewrite <-Hw5 in Hh5, Hs5, Hsub5.
  pose proof (replaced_state cfg io w5 id (ci_ownerToken io) Hh5 Hrep) as Hst. rewrite <-Hw in Hst. fold st' in Hst.
  split_and!.
  - exists (CPlugin c' true :: l1), a, l2. rewrite Hlog, Hfx, <-app_assoc. done.
  - intros x f. rewrite Hst. destruct (old_session_ended io); cbn; rewrite Hsub5; (destruct (con_CleanStart c' && bool_decide (x = id)); [done|apply Hsubs]).
  - intros x Hx. rewrite Hst. destruct (old_session_ended io); cbn; rewrite Hs5; [apply same_client_delete; [done|]|]; by apply Hsame.
  - rewrite Hst. destruct (old_session_ended io); [|done]. cbn. by rewrite !lookup_delete_eq.
Qed.

(** ** A refused CONNECT *)

(** The connection when its CONNECT has named it and nothing else has happened. *)
Definition fresh (id : string) (s : Conn) : Prop := cn_client s = cl_set_id id (cn_client (NewConn (cn_world s))).

(** Closing it removes everything that is stored under its name. *)
Lemma fresh_closes cfg io id w : id ≠ "" → center_ok (rs_subs (wd_state w)) →
  li_deleteSubsErr io = false → li_deleteSessionErr io = false →
  let '(_, w', fx) := close cfg io (cl_set_id id (cn_client (NewConn w))) w in
  FDeleteDelivery id ∈ fx ∧ rs_sessions (wd_state w') = deleteSession id (rs_sessions (wd_state w)) ∧
  ∀ x f, sub_of (rs_subs (wd_state w')) x f = if bool_decide (x = id) then None else sub_of (rs_subs (wd_state w)) x f.
Proof.
  intros Hid Hok Hd1 Hd2. cbn [NewConn cn_client cl_set_id].
  unfold close. cbn [cl_closed]. unfold handleWillOnClose. cbn [willPublishOnClose cl_willMessage].
  unfold persistUnfinishedMessagesToSession, SaveOfflineState, validateClientOwnerRequest.
  cbn [cl_ID cl_ownerToken sv_ClientID sv_OwnerToken]. rewrite !(bool_decide_false (id = "")) by done.
  rewrite (bool_decide_true ("" = "")) by done. set (w0 := if li_saveErr io then w else _).
  assert (wd_state w0 = wd_state w) as Hw0 by (unfold w0; by destruct (li_saveErr io)).
  unfold scheduleSessionExpiryCleanup, sessionExpiryDuration. cbn [cl_sessionExpiryInterval cl_ID cl_ownerToken].
  change (0 =? neverExpireSessionInterval) with false. cbn [Z.mul Z.eqb]. unfold cleanupExpiredSessionState.
  rewrite (bool_decide_false (id = "")), Hd1, Hd2 by done.
  destruct (DeleteClient (rs_subs (wd_state w0)) _) as [t ok] eqn:E. rewrite Hw0 in E.
  apply DeleteClient_spec in E as (_ & _ & _ & Hsub); [|done..]. cbn. rewrite Hw0. split_and!; [|done|].
  - apply elem_of_app. right. set_solver.
  - intros x f. rewrite Hsub. destruct (decide (x = id)) as [->|Hx];
      [rewrite !bool_decide_true by (unfold SubCenterProofs.fenced; tauto)|rewrite !bool_decide_false by tauto]; done.
Qed.

Lemma fresh_close cfg io id s : fresh id s → id ≠ "" → center_ok (rs_subs (wd_state (cn_world s))) →
  li_deleteSubsErr (ci_close io) = false → li_deleteSessionErr (ci_close io) = false →
  let s' := conn_close cfg io s in
  let st := wd_state (cn_world s) in
  CE (FDeleteDelivery id) ∈ cn_fx s' ∧ rs_sessions (wd_state (cn_world s')) = deleteSession id (rs_sessions st) ∧
  ∀ x f, sub_of (rs_subs (wd_state (cn_world s'))) x f = if bool_decide (x = id) then None else sub_of (rs_subs st) x f.
Proof.
  intros Hf Hid Hok Hd1 Hd2 s' st. pose proof (fresh_closes (cc_close cfg) (ci_close io) id (cn_world s) Hid Hok Hd1 Hd2) as H.
  unfold fresh in Hf. subst s'. unfold conn_close. rewrite <-Hf in H.
  destruct (close _ _ _ _) as [[c' w'] fx]. destruct H as (H1 & H2 & H3). split_and!; [|done..].
  apply elem_of_app. right. apply list_elem_of_fmap. by exists (FDeleteDelivery id).
Qed.

(** The same when a refusing CONNACK was tried first. *)
Lemma fresh_refused cfg io a id s : fresh id s → mqtt5ReasonCodeIsError (coa_ReasonCode a) = true →
  let s' := (conn_write cfg io (PConnAck a) s).1 in
  (fresh id s' ∧ cn_world s' = cn_world s) ∨ conn_close cfg io s' = conn_close cfg io s.
Proof.
  intros Hf Ha. unfold conn_write. destruct (ci_write io _); [left|by left|right].
  - rewrite Ha. by split.
  - pose proof (calm_close cfg io s) as [_ Hc]. cbn. set (s1 := conn_close cfg io s) in *. unfold conn_close, close. rewrite Hc.
    cbn. rewrite app_nil_r. by destruct s1.
Qed.

(** The refusals of [completeConnect]. *)
Definition connect_refused (io : ConnectIO) (c : Connect) : Prop :=
  (∃ code reason reference, ci_admission io = Some (code, reason, reference) ∧ code ≠ 0) ∨ is_Some (ci_plugin io c).2.

Lemma refused_completes cfg io c b id s : fresh id s → admission_ok io → connect_refused io c →
  ∃ a s1 e, completeConnect cfg io c b s = (conn_close cfg io (conn_write cfg io (PConnAck a) s1).1, Err e) ∧
    mqtt5ReasonCodeIsError (coa_ReasonCode a) = true ∧ fresh id s1 ∧ cn_world s1 = cn_world s.
Proof.
  intros Hf Had Hr. unfold completeConnect, handleConnectAdmission, admission_ok, connect_refused in *.
  destruct (ci_admission io) as [[[code reason] reference]|].
  - destruct (code =? 0) eqn:E.
    + destruct Hr as [(? & ? & ? & ? & ?)|Hr]; [simplify_eq; lia|]. unfold runConnectPlugin.
      destruct (ci_plugin io c) as [c' [e|]]; [|by destruct Hr]. by eexists _, _, e.
    + eexists _, s, _. split; [done|]. split; [apply error_code; cbn; lia|done].
  - destruct Hr as [(? & ? & ? & ? & ?)|Hr]; [done|]. unfold runConnectPlugin.
    destruct (ci_plugin io c) as [c' [e|]]; [|by destruct Hr]. by eexists _, _, e.
Qed.

(** C34. A CONNECT that names a client and is refused by the admission callback or by the plugins
    (authentication, for one) destroys what the broker stores for that client, whoever sent it: the
    connection is closed with session expiry 0 and without an owner token, so the session and
    its owner are deleted, the subscriptions are removed without the token check, and the delivery
    state is deleted. *)
Theorem refused_connect_destroys_session cfg io c w :
  validConnect (ci_quoted io) (cc_prop cfg) (cc_limits cfg) c = None → ¬ needs_auth c → con_ClientID c ≠ "" →
  admission_ok io → connect_refused io c → center_ok (rs_subs (wd_state w)) →
  li_deleteSubsErr (ci_close io) = false → li_deleteSessionErr (ci_close io) = false →
  let '(s', res) := handleConnect cfg io c (NewConn w) in
  let id := con_ClientID c in
  let st' := wd_state (cn_world s') in
  (∃ e, res = Err e) ∧ c_Sessions (rs_sessions st') !! id = None ∧ c_Owners (rs_sessions st') !! id = None ∧
  (∀ f, sub_of (rs_subs st') id f = None) ∧ CE (FDeleteDelivery id) ∈ cn_fx s'.
Proof.
  intros Hv Hna Hid Had Hr Hok Hd1 Hd2. unfold handleConnect. rewrite Hv, (bool_decide_false (con_ClientID c = "")) by done.
  set (s1 := cn_set_client _ _). assert (fresh (con_ClientID c) s1) as Hf by done.
  assert (handleInitialEnhancedAuth cfg io c false s1 = (s1, Ok false)) as ->.
  { unfold handleInitialEnhancedAuth, needs_auth in *. destruct (con_Properties c); [|done].
    rewrite bool_decide_true; [done|]. destruct (decide (cop_AuthMethod c0 = "")); tauto. }
  destruct (refused_completes cfg io c false _ s1 Hf Had Hr) as (a & s2 & e & -> & Ha & Hf2 & Hw2).
  change (cn_world s1) with w in Hw2. set (s3 := (conn_write cfg io (PConnAck a) s2).1).
  assert (∃ s4, conn_close cfg io s3 = conn_close cfg io s4 ∧ fresh (con_ClientID c) s4 ∧ cn_world s4 = w) as (s4 & -> & Hf4 & Hw4).
  { destruct (fresh_refused cfg io a _ s2 Hf2 Ha) as [[H1 H2]|H]; [exists s3|exists s2]; naive_solver congruence. }
  destruct (fresh_close cfg io _ s4 Hf4 Hid ltac:(by rewrite Hw4) Hd1 Hd2) as (G1 & G2 & G3).
  split_and!; [by exists e|rewrite G2; apply lookup_delete_eq..| |done].
  intros f. by rewrite G3, bool_decide_true.
Qed.

(** ** The order of a connection *)

(** C9. Whatever bytes arrive on a new connection, and whatever plugins, writes and stores do:
    at most one CONNACK is written; no packet reaches its handler before an accepting CONNACK;
    before an accepting CONNACK the plugins agreed to the CONNECT; and if the first packet is a
    CONNECT that names an authentication method, the authentication plugin answered success
    before that CONNACK. *)
Theorem connection_in_order cfg w ios input :
  Forall (λ io, ci_clientID io ≠ "" ∧ admission_ok io) ios →
  let fx := cn_fx (conn_run cfg ios input (NewConn w)) in
  (length (acks fx) ≤ 1)%nat ∧ before is_dispatch is_accept fx ∧ before is_accept is_consent fx ∧
  (∀ cp rest c, Decode (cfp_MaximumPacketSize (cc_prop cfg)) input = Ok (cp, rest) → cp_Content cp = Some (PConnect c) →
     needs_auth c → before is_accept is_authenticated fx).
Proof.
  intros Hp fx. pose (first := match Decode (cfp_MaximumPacketSize (cc_prop cfg)) input with Ok (cp, _) => cp_Content cp | Err _ => None end).
  assert (∀ c, (∀ c', first = Some (PConnect c') → c' = c) → in_order c fx) as H.
  { intros c Hfirst. subst fx first. destruct ios as [|io ios]; [by apply in_order_quiet|].
    apply Forall_cons in Hp as [[Hci Had] Hp]. cbn [conn_run NewConn cn_client cl_closed]. fold (NewConn w).
    destruct (Decode _ input) as [[cp rest]|e].
    2: { eapply in_order_calm; [|apply calm_close]. apply (read_error_in_order cfg io e c (NewConn w)). by left. }
    destruct (cp_Content cp) as [p|]; [|by apply in_order_quiet].
    assert (phase c (HandlePacket cfg io p (NewConn w))) as Hph.
    { apply HandlePacket_phase; [by apply in_order_quiet|]. intros s' [(l & Hg & Hq) Ha Hi Hs] Hv.
      unfold grows in Hg. cbn in Hg, Ha, Hi, Hs. unfold validateInboundPacketState in Hv. rewrite Hi in Hv.
      destruct p; try done. cbn. rewrite (Hfirst _ eq_refl). apply connect_phase; try done. by rewrite Hg. }
    destruct (HandlePacket cfg io p (NewConn w)) as [s' [[]|e]].
    - apply run_in_order; [|exact Hph]. eapply Forall_impl; [exact Hp|]. by intros ? [].
    - eapply in_order_calm; [exact Hph|apply calm_close]. }
  pose (c := match first with Some (PConnect c) => c | _ => mkConnect [] [] "" "" "" "" None None 0 0 0 false false false false false end).
  assert (∀ c', first = Some (PConnect c') → c' = c) as Hc by (intros c' E; subst c; by rewrite E).
  destruct (H c Hc) as [H1 H2 H3 H4]. split_and!; try done. intros cp rest c' E1 E2 Hn. apply H4.
  rewrite <-(Hc c'); [done|]. unfold first. by rewrite E1.
Qed.

(** ** Witnesses *)

Definition demo_prop : ConnectAckProperty := mkConnectAckProperty 100 2 1 65536 10 true true true 30 "" "".
Definition demo_connect_cfg : ConnectConfig := mkConnectConfig demo_prop (mkBrokerLimits 0 0) false 0 0 0 demo_cfg map_to_list.

(** The plugins refuse or not; a connection is replaced or not. *)
Definition demo_io (refuse : option string) (old : option (Client * CloseIO)) : ConnectIO :=
  mkConnectIO (λ _, Written) "" "generated" "new" (λ _, NoHandler) id None (λ c, (c, refuse)) 1000000 1000000 None false false old
    demo_close (λ _, (None, false)).

Definition demo_connect (clean : bool) : Connect :=
  mkConnect [] [] "" "MQTT" "c" "" None None 60 5 0 false false false false clean.

(** The world of a client "c" that is connected with token "tok" and subscribed to "t/a". *)
Definition demo_subscribed : World :=
  with_subs (CreateSub (rs_subs (wd_state (demo_world "tok")))
    (mkSubRequest [mkSubOption 1 false "t/a" false 0 0] "c" "tok")).1.1 (demo_world "tok").

Lemma demo_subscribed_ok : center_ok (rs_subs (wd_state demo_subscribed)).
Proof. apply CreateSub_ok, setOwnerToken_ok, NewMemorySubCenter_ok. Qed.

Lemma accepted_connect_witness :
  let io := demo_io None (Some (demo_client 0 0, demo_close)) in
  let s := cn_set_client (cl_set_id "c" (cn_client (NewConn demo_subscribed))) (NewConn demo_subscribed) in
  let s' := (completeConnect demo_connect_cfg io (demo_connect false) false s).1 in
  (∃ l1 a l2, cn_fx s' = [] ++ l1 ++ CE (FWrite (PConnAck a)) :: l2 ∧ coa_ReasonCode a = 0 ∧ coa_SessionPresent a = true) ∧
  c_Sessions (rs_sessions (wd_state (cn_world s'))) !! "c" = None.
Proof.
  intros io s s'.
  destruct (accepted_connect demo_connect_cfg io (demo_connect false) false s s' demo_subscribed_ok eq_refl) as (H1 & _ & _ & [H2 _]).
  - split_and!; done.
  - vm_compute. reflexivity.
  - split; [|exact H2]. exact H1.
Defined.

Lemma refused_connect_destroys_session_witness :
  is_Some (c_Sessions (rs_sessions (wd_state demo_subscribed)) !! "c") ∧
  sub_of (rs_subs (wd_state demo_subscribed)) "c" "t/a" ≠ None ∧
  let '(s', _) := handleConnect demo_connect_cfg (demo_io (Some "bad password") None) (demo_connect false) (NewConn demo_subscribed) in
  c_Sessions (rs_sessions (wd_state (cn_world s'))) !! "c" = None ∧ (∀ f, sub_of (rs_subs (wd_state (cn_world s'))) "c" f = None).
Proof.
  split; [by eexists|]. split; [vm_compute; discriminate|].
  pose proof (refused_connect_destroys_session demo_connect_cfg (demo_io (Some "bad password") None) (demo_connect false) demo_subscribed
    eq_refl (λ H, H) ltac:(done) I (or_intror (ex_intro _ "bad password" eq_refl)) demo_subscribed_ok eq_refl eq_refl) as H.
  destruct (handleConnect _ _ _ _) as [s' res]. destruct H as (_ & H1 & _ & H2 & _). by split.
Defined.

(** CONNECT and PINGREQ on the wire. *)
Definition demo_input : list byte :=
  default [] (match Encode 0 (Some (controlPacket (PConnect (demo_connect true)))), Encode 0 (Some (controlPacket PPingreq)) with
              | Ok a, Ok b => Some (a ++ b) | _, _ => None end).

Lemma connection_in_order_witness :
  let fx := cn_fx (conn_run demo_connect_cfg [demo_io None None; demo_io None None] demo_input (NewConn demo_subscribed)) in
  Exists is_dispatch fx ∧ (length (acks fx) ≤ 1)%nat ∧ before is_dispatch is_accept fx ∧ before is_accept is_consent fx.
Proof.
  intros fx. split.
  - vm_compute. repeat (first [by apply Exists_cons_hd|apply Exists_cons_tl]).
  - pose proof (connection_in_order demo_connect_cfg demo_subscribed [demo_io None None; demo_io None None] demo_input)
      as (H1 & H2 & H3 & _); [|done]. repeat constructor; done.
Defined.
