(* ===== verification/KeepAlive.v ===== *)
(** * Keep alive ([src/internal/broker/clientalive/tracker.go], [core/broker_keepalive.go],
    [client/client_manager.go], [client/client_identity.go])

    Every packet of a client moves its entry in an indexed heap to the time at which the
    client will have been silent for one and a half keep-alive intervals; a periodic scan
    closes the clients whose time has come.  Connections are numbered: the manager maps
    client identifiers to them and compares them by identity, as the code compares pointers.
    Times are nanoseconds of the clock (never Go's zero time); [None] as a result is a nil
    dereference of the heap.  The other effects of closing are in [Lifecycle]. *)

From S2P Require Import Prelude IndexedHeap.

(** ** The tracker *)

Record aliveValue := mkAliveValue {
  av_clientID : string;
  av_ownerToken : string;
  av_lastAlive : Z;
  av_expireAt : Z }.

Record ExpiredClient := mkExpiredClient { ex_ClientID : string; ex_OwnerToken : string }.

Definition Tracker : Type := Queue string aliveValue.
Definition NewTracker : Tracker := New.

Definition tracker_Update (clientID ownerToken : string) (at_ keepAlive : Z) (t : Tracker) : option Tracker :=
  if bool_decide (clientID = "") || bool_decide (ownerToken = "") || (keepAlive <=? 0) then Some t
  else
    let expireAt := at_ + (keepAlive + Z.quot keepAlive 2) in
    Upsert clientID expireAt (mkAliveValue clientID ownerToken at_ expireAt) t.

Definition DeleteIfOwner (clientID ownerToken : string) (t : Tracker) : option (Tracker * bool) :=
  if bool_decide (clientID = "") || bool_decide (ownerToken = "") then Some (t, false)
  else
    item ← Get clientID t;
    match item with
    | None => Some (t, false)
    | Some item => if negb (bool_decide (av_ownerToken item = ownerToken)) then Some (t, false) else Remove clientID t
    end.

Fixpoint removeDue (due : list aliveValue) (t : Tracker) (expired : list ExpiredClient) : option (Tracker * list ExpiredClient) :=
  match due with
  | [] => Some (t, expired)
  | item :: due =>
      '(t, removed) ← Remove (av_clientID item) t;
      removeDue due t (if removed : bool then expired ++ [mkExpiredClient (av_clientID item) (av_ownerToken item)] else expired)
  end.

Definition ScanExpired (now : Z) (t : Tracker) : option (Tracker * list ExpiredClient) :=
  due ← ValuesAtOrBefore now t;
  removeDue due t [].

Definition LastAlive (clientID : string) (t : Tracker) : option (option Z) :=
  if bool_decide (clientID = "") then Some None else match Get clientID t with None => None | Some item => Some (option_map av_lastAlive item) end.
Definition ExpireAt (clientID : string) (t : Tracker) : option (option Z) :=
  if bool_decide (clientID = "") then Some None else match Get clientID t with None => None | Some item => Some (option_map av_expireAt item) end.

(** ** Connections *)

(** What a [Client] knows about its own liveness. *)
Record AliveClient := mkAliveClient {
  ac_ID : string;
  ac_ownerToken : string;
  ac_aliveTime : option Z;
  ac_keepAlive : Z;
  ac_closed : bool }.

Definition KeepAliveExpired (now : Z) (c : AliveClient) : bool :=
  if ac_keepAlive c <=? 0 then false
  else match ac_aliveTime c with
       | None => false
       | Some lastAlive => ac_keepAlive c + Z.quot (ac_keepAlive c) 2 <? now - lastAlive
       end.

Definition IdleDurationSince (now : Z) (c : AliveClient) : Z :=
  match ac_aliveTime c with
  | None => 0
  | Some lastAlive => if now <? lastAlive then 0 else now - lastAlive
  end.

Record Liveness := mkLiveness {
  lv_conns : gmap nat AliveClient;
  lv_manager : gmap string nat;
  lv_tracker : Tracker }.

Definition lv_put (p : nat) (c : AliveClient) (s : Liveness) : Liveness :=
  mkLiveness (<[p := c]> (lv_conns s)) (lv_manager s) (lv_tracker s).
Definition lv_set_tracker (t : Tracker) (s : Liveness) : Liveness := mkLiveness (lv_conns s) (lv_manager s) t.
Definition lv_set_manager (m : gmap string nat) (s : Liveness) : Liveness := mkLiveness (lv_conns s) m (lv_tracker s).

(** ** The manager *)

Definition AddClient (clientID : string) (p : nat) (s : Liveness) : Liveness * option nat :=
  (lv_set_manager (<[clientID := p]> (lv_manager s)) s, lv_manager s !! clientID).

Definition DeleteConn (p : nat) (c : AliveClient) (s : Liveness) : Liveness :=
  if bool_decide (lv_manager s !! ac_ID c = Some p) then lv_set_manager (delete (ac_ID c) (lv_manager s)) s else s.

Definition ReadClient (clientID : string) (s : Liveness) : option (nat * AliveClient) :=
  p ← lv_manager s !! clientID; c ← lv_conns s !! p; Some (p, c).

(** ** The life of a connection *)

(** [UpdateClientAliveTime]. *)
Definition updateAliveTime (now : Z) (p : nat) (s : Liveness) : option Liveness :=
  match lv_conns s !! p with
  | None => Some s
  | Some c =>
      let c := mkAliveClient (ac_ID c) (ac_ownerToken c) (Some now) (ac_keepAlive c) (ac_closed c) in
      t ← tracker_Update (ac_ID c) (ac_ownerToken c) now (ac_keepAlive c) (lv_tracker s);
      Some (lv_set_tracker t (lv_put p c s))
  end.

(** [close], once per connection, with [cleanupKeepAlive]. *)
Definition closeConn (p : nat) (s : Liveness) : option Liveness :=
  match lv_conns s !! p with
  | None => Some s
  | Some c =>
      if ac_closed c then Some s
      else
        '(t, _) ← DeleteIfOwner (ac_ID c) (ac_ownerToken c) (lv_tracker s);
        Some (lv_set_tracker t (lv_put p (mkAliveClient (ac_ID c) (ac_ownerToken c) (ac_aliveTime c) (ac_keepAlive c) true) s))
  end.

(** A CONNECT of the new connection [p] that is accepted: registered, the old connection closed,
    keep alive set, alive time updated after the CONNACK. *)
Definition registerConn (now : Z) (p : nat) (clientID ownerToken : string) (keepAlive : Z) (s : Liveness) : option Liveness :=
  let '(s, oldClient) := AddClient clientID p s in
  s ← match oldClient with None => Some s | Some old => if bool_decide (old = p) then Some s else closeConn old s end;
  updateAliveTime now p (lv_put p (mkAliveClient clientID ownerToken None keepAlive false) s).

(** The connection's goroutine ends: [close] and [DeleteClient]. *)
Definition endConn (p : nat) (s : Liveness) : option Liveness :=
  s ← closeConn p s;
  Some (match lv_conns s !! p with None => s | Some c => DeleteConn p c s end).

(** ** The scan *)

(** Closed for silence: which connection, how long it was idle, its keep alive. *)
Record TimedOut := mkTimedOut { to_conn : nat; to_idle : Z; to_keepAlive : Z }.

Fixpoint closeExpired (now : Z) (expired : list ExpiredClient) (s : Liveness) : option (Liveness * list TimedOut) :=
  match expired with
  | [] => Some (s, [])
  | e :: expired =>
      match ReadClient (ex_ClientID e) s with
      | None => closeExpired now expired s
      | Some (p, c) =>
          if negb (bool_decide (ac_ownerToken c = ex_OwnerToken e)) then closeExpired now expired s
          else if negb (KeepAliveExpired now c) then
            t ← tracker_Update (ac_ID c) (ac_ownerToken c) (now - IdleDurationSince now c) (ac_keepAlive c) (lv_tracker s);
            closeExpired now expired (lv_set_tracker t s)
          else
            s ← closeConn p s;
            '(s, closed) ← closeExpired now expired (DeleteConn p c s);
            Some (s, mkTimedOut p (IdleDurationSince now c) (ac_keepAlive c) :: closed)
      end
  end.

Definition deleteUnAliveClient (now : Z) (s : Liveness) : option (Liveness * list TimedOut) :=
  '(t, expired) ← ScanExpired now (lv_tracker s);
  closeExpired now expired (lv_set_tracker t s).

Definition keepAliveScanInterval (configured : Z) : Z := if configured <=? 0 then 1000000000 else configured.
