(* ===== verification/KeepAliveProofs.v ===== *)
(** * Properties of keep alive

    - the tracker is a map from client identifiers to deadlines;
    - a scan closes only registered connections that have been silent for more than one and a
      half keep-alive intervals, and all of them whose client had no late packet of an earlier
      connection since they last spoke;
    - such a late packet takes the connection that replaced the sender off the tracker for good. *)

From Stdlib Require Import Sorting.Sorted.
From S2P Require Import Prelude IndexedHeap IndexedHeapProofs KeepAlive.

(** ** The tracker as a map *)

(** [t] holds the entries of [m], each under its client and queued for its deadline. *)
Definition tracks (t : Tracker) (m : gmap string aliveValue) : Prop :=
  ∃ l, queue_ok t l ∧ m = n_value <$> model l ∧
    ∀ k x, model l !! k = Some x → av_clientID (n_value x) = k ∧ n_priority x = av_expireAt (n_value x).

Lemma tracks_New : tracks NewTracker ∅.
Proof. exists []. split_and!; [apply queue_ok_New|done|]. intros k x H. change ((∅ : gmap string (node string aliveValue)) !! k = Some x) in H. by rewrite lookup_empty in H. Qed.

(** The entry an update writes. *)
Definition alive_entry (clientID ownerToken : string) (at_ keepAlive : Z) : option aliveValue :=
  if bool_decide (clientID = "") || bool_decide (ownerToken = "") || (keepAlive <=? 0) then None
  else Some (mkAliveValue clientID ownerToken at_ (at_ + (keepAlive + Z.quot keepAlive 2))).

Lemma tracks_Update t m id tok at_ ka : tracks t m →
  ∃ t', tracker_Update id tok at_ ka t = Some t' ∧
    tracks t' (match alive_entry id tok at_ ka with Some v => <[id := v]> m | None => m end).
Proof.
  intros (l & Hq & -> & Hl). unfold tracker_Update, alive_entry. destruct (_ || _ || _); [by exists t; split; [|exists l]|].
  set (v := mkAliveValue _ _ _ _). destruct (Upsert_model t l id (at_ + (ka + Z.quot ka 2)) v Hq) as (t' & l' & s & -> & Hq' & Hm).
  exists t'. split; [done|]. exists l'. split_and!; [done|by rewrite Hm, fmap_insert|].
  intros k x. rewrite Hm, lookup_insert_Some. intros [[<- <-]|[_ H]]; [done|by apply Hl].
Qed.

Lemma tracks_Remove t m id : tracks t m →
  ∃ t', Remove id t = Some (t', bool_decide (is_Some (m !! id))) ∧ tracks t' (delete id m).
Proof.
  intros (l & Hq & -> & Hl). destruct (Remove_model t l id Hq) as (t' & l' & -> & Hq' & Hm).
  exists t'. rewrite lookup_fmap. split.
  - do 2 f_equal. apply bool_decide_ext. destruct (model l !! id); cbn; [|split; by intros []]. split; by eexists.
  - exists l'. split_and!; [done|by rewrite Hm, fmap_delete|]. intros k x. rewrite Hm, lookup_delete_Some. intros [_ H]. by apply Hl.
Qed.

Lemma tracks_Get t m id : tracks t m → Get id t = Some (m !! id).
Proof. intros (l & Hq & -> & _). by rewrite (queue_Get t l id Hq), lookup_fmap. Qed.

Lemma tracks_DeleteIfOwner t m id tok : tracks t m →
  ∃ t' b, DeleteIfOwner id tok t = Some (t', b) ∧
    tracks t' (if bool_decide (id ≠ "" ∧ tok ≠ "" ∧ av_ownerToken <$> m !! id = Some tok) then delete id m else m).
Proof.
  intros Ht. unfold DeleteIfOwner. destruct (decide (id = "")) as [->|Hid].
  { rewrite (bool_decide_false (_ ∧ _)) by tauto. by eexists _, _. }
  destruct (decide (tok = "")) as [->|Htok].
  { rewrite (bool_decide_false (_ ∧ _)) by tauto. rewrite orb_comm. by eexists _, _. }
  rewrite !(bool_decide_false (_ = "")) by done. cbn [orb]. rewrite (tracks_Get t m id Ht). cbn.
  destruct (m !! id) as [v|] eqn:E; [|rewrite bool_decide_false by naive_solver; by eexists _, _].
  destruct (decide (av_ownerToken v = tok)) as [Hv|Hv].
  - rewrite (bool_decide_true (av_ownerToken v = tok)), (bool_decide_true (_ ∧ _)) by (cbn; naive_solver). cbn.
    destruct (tracks_Remove t m id Ht) as (t' & -> & Ht'). by eexists _, _.
  - rewrite (bool_decide_false (av_ownerToken v = tok)), (bool_decide_false (_ ∧ _)) by (cbn; naive_solver). by eexists _, _.
Qed.

Definition expired_of (v : aliveValue) : ExpiredClient := mkExpiredClient (av_clientID v) (av_ownerToken v).

Lemma removeDue_spec due : ∀ t m out, tracks t m → NoDup (av_clientID <$> due) →
  (∀ v, v ∈ due → m !! av_clientID v = Some v) →
  ∃ t' m', removeDue due t out = Some (t', out ++ (expired_of <$> due)) ∧ tracks t' m' ∧
    ∀ id, m' !! id = if bool_decide (id ∈ av_clientID <$> due) then None else m !! id.
Proof.
  induction due as [|v due IH]; intros t m out Ht Hnd Hin; cbn.
  { rewrite app_nil_r. by exists t, m. }
  apply NoDup_cons in Hnd as [Hv Hnd]. assert (m !! av_clientID v = Some v) as Hm by (apply Hin; set_solver).
  destruct (tracks_Remove t m (av_clientID v) Ht) as (t1 & -> & Ht1). cbn. rewrite bool_decide_true by (by rewrite Hm).
  destruct (IH t1 (delete (av_clientID v) m) (out ++ [expired_of v]) Ht1 Hnd) as (t' & m' & Hr & Ht' & Hm').
  { intros u Hu. rewrite lookup_delete_ne; [apply Hin; set_solver|]. intros Heq. apply Hv. rewrite Heq. by apply list_elem_of_fmap_2. }
  exists t', m'. rewrite <-app_assoc in Hr. split_and!; [exact Hr|done|]. intros id. rewrite Hm'.
  destruct (decide (id = av_clientID v)) as [->|Hne].
  - rewrite lookup_delete_eq, (bool_decide_true (_ ∈ _ :: _)) by set_solver. by case_bool_decide.
  - rewrite lookup_delete_ne by done. destruct (decide (id ∈ av_clientID <$> due)) as [H|H];
      [rewrite !bool_decide_true by set_solver|rewrite !bool_decide_false by set_solver]; done.
Qed.

(** A scan takes out the entries whose deadline has come, and reports each once. *)
Lemma tracks_Scan t m now : tracks t m →
  ∃ t' out m', ScanExpired now t = Some (t', out) ∧ tracks t' m' ∧ NoDup (ex_ClientID <$> out) ∧
    (∀ e, e ∈ out ↔ ∃ v, m !! ex_ClientID e = Some v ∧ av_ownerToken v = ex_OwnerToken e ∧ av_expireAt v ≤ now) ∧
    (∀ id, m' !! id = if bool_decide (id ∈ ex_ClientID <$> out) then None else m !! id).
Proof.
  intros Ht. pose proof Ht as (l & Hq & Hm & Hl). unfold ScanExpired.
  destruct (queue_due_perm t l now Hq) as (d & -> & Hd & _). cbn.
  pose proof (qo_keys _ _ Hq) as Hk.
  assert (∀ x, x ∈ l → av_clientID (n_value x) = n_key x ∧ n_priority x = av_expireAt (n_value x)) as Hx.
  { intros x Hin. apply (Hl (n_key x)). by apply model_lookup. }
  assert (∀ x, x ∈ d ↔ n_priority x ≤ now ∧ x ∈ l) as Hin.
  { intros x. by rewrite Hd, list_elem_of_filter. }
  assert (av_clientID <$> (n_value <$> d) = n_key <$> d) as Hkeys.
  { rewrite <-list_fmap_compose. apply list_fmap_ext. intros i x Hi. apply Hx, Hin. by eapply list_elem_of_lookup_2. }
  assert (∀ v, v ∈ n_value <$> d → m !! av_clientID v = Some v) as Hv.
  { intros v (x & -> & Hxd)%list_elem_of_fmap. apply Hin in Hxd as [_ Hxl]. destruct (Hx x Hxl) as [-> _].
    rewrite Hm, lookup_fmap, (proj2 (model_lookup l (n_key x) x Hk)) by done. done. }
  assert (NoDup (av_clientID <$> (n_value <$> d))) as Hnd.
  { rewrite Hkeys. apply NoDup_fmap_2_strong.
    - intros x y [_ H1]%Hin [_ H2]%Hin Heq. pose proof (proj2 (model_lookup l (n_key x) x Hk) (conj H1 eq_refl)) as E1.
      pose proof (proj2 (model_lookup l (n_key x) y Hk) (conj H2 (eq_sym Heq))) as E2. congruence.
    - rewrite Hd. apply NoDup_filter, NoDup_nodes, Hk. }
  destruct (removeDue_spec (n_value <$> d) t m [] Ht Hnd Hv) as (t' & m' & Hr & Ht' & Hm'). cbn in Hr.
  assert (ex_ClientID <$> (expired_of <$> (n_value <$> d)) = av_clientID <$> (n_value <$> d)) as Hids.
  { by rewrite <-!list_fmap_compose. }
  eexists t', _, m'. split_and!; [exact Hr|done|by rewrite Hids| |by intros id; rewrite Hids].
  intros e. rewrite list_elem_of_fmap. split.
  - intros (v & -> & Hvd). exists v. split_and!; [by apply Hv|done|].
    apply list_elem_of_fmap in Hvd as (x & -> & Hxd). apply Hin in Hxd as [Hp Hxl]. destruct (Hx x Hxl) as [_ <-]. done.
  - intros (v & Hmv & Htok & Hle). exists v. rewrite Hm, lookup_fmap in Hmv. apply fmap_Some in Hmv as (x & Hxm & ->).
    apply model_lookup in Hxm as [Hxl Hxk]; [|done]. destruct (Hx x Hxl) as [H1 H2]. split.
    + destruct e as [a b]. unfold expired_of. cbn in *. congruence.
    + apply list_elem_of_fmap. exists x. split; [done|]. apply Hin. split; [lia|done].
Qed.

(** ** The connections *)

(** The entry the tracker should hold for a client: that of its registered connection. *)
Definition expected (s : Liveness) (id : string) : option aliveValue :=
  p ← lv_manager s !! id; c ← lv_conns s !! p; la ← ac_aliveTime c;
  alive_entry (ac_ID c) (ac_ownerToken c) la (ac_keepAlive c).

(** Registered connections are the open ones, under their own names. *)
Record registered_ok (clock : Z) (s : Liveness) : Prop := {
  ro_conn : ∀ id p, lv_manager s !! id = Some p → ∃ c la, lv_conns s !! p = Some c ∧ ac_ID c = id ∧ id ≠ "" ∧
    ac_closed c = false ∧ ac_ownerToken c ≠ "" ∧ ac_aliveTime c = Some la ∧ la ≤ clock;
  ro_open : ∀ p c, lv_conns s !! p = Some c → ac_closed c = false → lv_manager s !! ac_ID c = Some p }.

(** [late] are the clients whose entry a late packet may have replaced; the others have theirs. *)
Definition live_ok (clock : Z) (late : gset string) (s : Liveness) : Prop :=
  registered_ok clock s ∧ ∃ m, tracks (lv_tracker s) m ∧ ∀ id v, id ∉ late → expected s id = Some v → m !! id = Some v.

Lemma expected_holder s id p c la : lv_manager s !! id = Some p → lv_conns s !! p = Some c → ac_aliveTime c = Some la →
  expected s id = alive_entry (ac_ID c) (ac_ownerToken c) la (ac_keepAlive c).
Proof. intros H1 H2 H3. unfold expected. rewrite H1. cbn. rewrite H2. cbn. by rewrite H3. Qed.

Lemma registered_ok_later clock now s : registered_ok clock s → clock ≤ now → registered_ok now s.
Proof.
  intros [H1 H2] Hle. split; [|done]. intros id p Hp. destruct (H1 id p Hp) as (c & la & G). exists c, la. intuition lia.
Qed.

Lemma alive_entry_Some id tok la ka v : alive_entry id tok la ka = Some v →
  av_clientID v = id ∧ av_ownerToken v = tok ∧ av_expireAt v = la + (ka + Z.quot ka 2) ∧ 0 < ka.
Proof. unfold alive_entry. destruct (_ || _) eqn:E; [done|]. intros [= <-]. cbn. apply orb_false_iff in E as [_ E]. split_and!; try done. lia. Qed.

(** Who is registered and for how long, as [closeConn] and [DeleteConn] leave it. *)
Definition closed_client (c : AliveClient) : AliveClient :=
  mkAliveClient (ac_ID c) (ac_ownerToken c) (ac_aliveTime c) (ac_keepAlive c) true.

Lemma closeConn_spec p c s m : lv_conns s !! p = Some c → ac_closed c = false → tracks (lv_tracker s) m →
  ∃ t, closeConn p s = Some (mkLiveness (<[p := closed_client c]> (lv_conns s)) (lv_manager s) t) ∧
    tracks t (if bool_decide (ac_ID c ≠ "" ∧ ac_ownerToken c ≠ "" ∧ av_ownerToken <$> m !! ac_ID c = Some (ac_ownerToken c))
              then delete (ac_ID c) m else m).
Proof.
  intros Hc Ho Ht. unfold closeConn. rewrite Hc, Ho.
  destruct (tracks_DeleteIfOwner _ m (ac_ID c) (ac_ownerToken c) Ht) as (t & b & -> & Ht'). cbn. by eexists.
Qed.

(** A connection leaves: closed and taken off the manager. *)
Lemma leave_ok clock s id p c t : registered_ok clock s → lv_manager s !! id = Some p → lv_conns s !! p = Some c →
  let s' := mkLiveness (<[p := closed_client c]> (lv_conns s)) (delete id (lv_manager s)) t in
  registered_ok clock s' ∧ ∀ id', expected s' id' = if bool_decide (id' = id) then None else expected s id'.
Proof.
  intros [R1 R2] Hp Hc s'. destruct (R1 id p Hp) as (c0 & la & Hc0 & Hid & _). assert (c0 = c) as -> by congruence.
  assert (∀ id', id' ≠ id → lv_manager s !! id' ≠ Some p) as Hother.
  { intros id' Hne Hp'. destruct (R1 id' p Hp') as (c1 & _ & Hc1 & Hid1 & _). congruence. }
  split; [split|].
  - intros id' q Hq. cbn in Hq. apply lookup_delete_Some in Hq as [Hne Hq]. destruct (R1 id' q Hq) as (c1 & la1 & H1 & H2).
    exists c1, la1. split; [|done]. cbn. rewrite lookup_insert_ne; [done|]. intros <-. by apply (Hother id').
  - intros q c1. cbn. rewrite lookup_insert_Some. intros [[<- <-]|[Hne Hq]] Ho; [done|].
    apply lookup_delete_Some. split; [|by apply R2]. intros Heq. pose proof (R2 q c1 Hq Ho) as G. rewrite <-Heq, Hp in G. congruence.
  - intros id'. unfold expected. cbn. case_bool_decide as E; [subst; by rewrite lookup_delete_eq|].
    rewrite lookup_delete_ne by done. destruct (lv_manager s !! id') as [q|] eqn:Hq; [|done]. cbn.
    rewrite lookup_insert_ne; [done|]. intros <-. by apply (Hother id').
Qed.

(** ** The scan *)

(** Closing what a scan reported: every connection it closes had expired, and every expired one
    that was reported under its token is closed; who still has no entry was reported. *)
Lemma closeExpired_spec now late es : ∀ s m, registered_ok now s → tracks (lv_tracker s) m →
  (∀ id v, id ∉ late → expected s id = Some v → mkExpiredClient id (av_ownerToken v) ∈ es ∨ m !! id = Some v) →
  ∃ s' closed, closeExpired now es s = Some (s', closed) ∧ live_ok now late s' ∧
    (∀ p, p ∈ to_conn <$> closed → ∃ id c, lv_manager s !! id = Some p ∧ lv_conns s !! p = Some c ∧ KeepAliveExpired now c = true) ∧
    (∀ e p c, e ∈ es → lv_manager s !! ex_ClientID e = Some p → lv_conns s !! p = Some c → ac_ownerToken c = ex_OwnerToken e →
       KeepAliveExpired now c = true → p ∈ to_conn <$> closed) ∧
    (∀ id p, lv_manager s' !! id = Some p ↔ lv_manager s !! id = Some p ∧ p ∉ to_conn <$> closed).
Proof.
  induction es as [|e es IH]; intros s m Hr Ht Hm; cbn.
  { exists s, []. split_and!; [done| |set_solver|set_solver|set_solver]. split; [done|]. exists m. split; [done|].
    intros id v H1 H2. by destruct (Hm id v H1 H2) as [?%elem_of_nil|]. }
  unfold ReadClient. destruct (lv_manager s !! ex_ClientID e) as [p|] eqn:Hp; cbn.
  2: { destruct (IH s m Hr Ht) as (s' & closed & Hrun & Hok & Hcl & Hall & Hman).
    { intros id v H1 H2. destruct (Hm id v H1 H2) as [[<-|?]%elem_of_cons|]; [|by left|by right]. unfold expected in H2. cbn in Hp. by rewrite Hp in H2. }
    exists s', closed. split_and!; try done. intros e' p c [->|He]%elem_of_cons G1 G2 G3; [congruence|by eapply Hall]. }
  destruct (ro_conn _ _ Hr _ _ Hp) as (c & la & Hc & Hid & Hne & Ho & Htok & Hla & Hle). rewrite Hc. cbn.
  pose proof (expected_holder s _ p c la Hp Hc Hla) as Hexp.
  destruct (decide (ac_ownerToken c = ex_OwnerToken e)) as [Hown|Hown].
  2: { rewrite bool_decide_false by done. cbn [negb]. destruct (IH s m Hr Ht) as (s' & closed & Hrun & Hok & Hcl & Hall & Hman).
    { intros id v H1 H2. destruct (Hm id v H1 H2) as [[<-|?]%elem_of_cons|]; [|by left|by right]. cbn in Hp, Hexp, Hown.
      rewrite Hexp in H2. apply alive_entry_Some in H2 as (_ & H2 & _). congruence. }
    exists s', closed. split_and!; try done. intros e' p' c' [->|He]%elem_of_cons G1 G2 G3; [congruence|by eapply Hall]. }
  rewrite bool_decide_true by done. cbn [negb]. destruct (KeepAliveExpired now c) eqn:Hex; cbn [negb].
  - destruct (closeConn_spec p c s m Hc Ho Ht) as (t & -> & Ht'). cbn [mbind option_bind]. rewrite Hid in Ht'.
    unfold DeleteConn. cbn [lv_manager]. rewrite Hid, (bool_decide_true (_ = Some p)) by done. unfold lv_set_manager. cbn [lv_conns lv_manager lv_tracker].
    destruct (leave_ok now s _ p c t Hr Hp Hc) as [Hr' He']. set (s2 := mkLiveness _ _ t) in *.
    match type of Ht' with tracks _ ?x => assert (∀ id, id ≠ ex_ClientID e → x !! id = m !! id) as Hsame
      by (intros id Hne'; case_bool_decide; [by rewrite lookup_delete_ne|done]); destruct (IH s2 x Hr' Ht') as (s' & closed & Hrun & Hok & Hcl & Hall & Hman) end.
    { intros id v H1 H2. rewrite He' in H2. case_bool_decide as E; [done|]. rewrite Hsame by done.
      destruct (Hm id v H1 H2) as [[<-|?]%elem_of_cons|]; [done|by left|by right]. }
    assert (∀ id q, lv_manager s !! id = Some q → id ≠ ex_ClientID e → q ≠ p) as Hqp.
    { intros id q G1 G2 ->. destruct (ro_conn _ _ Hr _ _ G1) as (c2 & _ & G5 & G6 & _). congruence. }
    rewrite Hrun. cbn. eexists s', _. split_and!; [done|done| | |].
    + intros q. cbn. rewrite elem_of_cons. intros [->|Hq]; [by exists (ex_ClientID e), c|]. destruct (Hcl q Hq) as (id & c1 & G1 & G2 & G3).
      cbn in G1, G2. apply lookup_delete_Some in G1 as [G0 G1]. exists id, c1. split_and!; [done| |done].
      rewrite lookup_insert_ne in G2; [done|]. intros <-. by apply (Hqp id p G1).
    + intros e' q c' He2 G1 G2 G3 G4. cbn. apply elem_of_cons. destruct (decide (ex_ClientID e' = ex_ClientID e)) as [Heq|Hne2]; [left; congruence|right].
      apply elem_of_cons in He2 as [->|He2]; [done|]. apply (Hall e' q c'); try done; cbn; [by rewrite lookup_delete_ne|].
      rewrite lookup_insert_ne; [done|]. intros <-. by apply (Hqp _ p G1).
    + intros id q. cbn. rewrite Hman, not_elem_of_cons. cbn. rewrite lookup_delete_Some. split.
      * intros [[G1 G2] G3]. split_and!; [done| |done]. by apply (Hqp id).
      * intros (G1 & G2 & G3). split_and!; [|done..]. intros <-. congruence.
  - assert (now - IdleDurationSince now c = la) as ->.
    { unfold IdleDurationSince. rewrite Hla. replace (now <? la) with false by lia. lia. }
    destruct (tracks_Update _ m (ac_ID c) (ac_ownerToken c) la (ac_keepAlive c) Ht) as (t & -> & Ht'). cbn [mbind option_bind]. rewrite <-Hexp, Hid in Ht'.
    match type of Ht' with tracks _ ?x => destruct (IH (lv_set_tracker t s) x) as (s' & closed & Hrun & Hok & Hcl & Hall & Hman); [destruct Hr; by split|done| |] end.
    { intros id v H1 H2. change (expected (lv_set_tracker t s) id) with (expected s id) in H2.
      destruct (decide (id = ex_ClientID e)) as [->|Hne2]; [right; by rewrite H2, lookup_insert_eq|].
      destruct (Hm id v H1 H2) as [[<-|?]%elem_of_cons|]; [done|by left|right]. destruct (expected s (ex_ClientID e)); [by rewrite lookup_insert_ne|done]. }
    rewrite Hrun. exists s', closed. split_and!; try done.
    intros e' q c' [->|He2]%elem_of_cons G1 G2 G3 G4; [congruence|by eapply Hall].
Qed.

Lemma scan_spec_live now late s : live_ok now late s →
  ∃ s' closed, deleteUnAliveClient now s = Some (s', closed) ∧ live_ok now late s' ∧
    (∀ p, p ∈ to_conn <$> closed → ∃ id c, lv_manager s !! id = Some p ∧ lv_conns s !! p = Some c ∧ KeepAliveExpired now c = true) ∧
    (∀ id p c, id ∉ late → lv_manager s !! id = Some p → lv_conns s !! p = Some c → KeepAliveExpired now c = true → p ∈ to_conn <$> closed) ∧
    (∀ id p, lv_manager s' !! id = Some p ↔ lv_manager s !! id = Some p ∧ p ∉ to_conn <$> closed).
Proof.
  intros (Hr & m & Ht & Hm). unfold deleteUnAliveClient.
  destruct (tracks_Scan _ m now Ht) as (t & out & m' & -> & Ht' & _ & Hout & Hm'). cbn [mbind option_bind].
  destruct (closeExpired_spec now late out (lv_set_tracker t s) m') as (s' & closed & Hrun & Hok & Hcl & Hall & Hman); [destruct Hr; by split|done| |].
  { intros id v H1 H2. specialize (Hm id v H1 H2). rewrite Hm'. case_bool_decide as E; [left|by right].
    apply list_elem_of_fmap in E as (e & -> & He). destruct (proj1 (Hout e) He) as (v' & Hv' & Htok & _). rewrite Hm in Hv'. injection Hv' as <-.
    rewrite Htok. by destruct e. }
  exists s', closed. split_and!; [done|done|exact Hcl| |exact Hman]. intros id p c Hl G1 G2 G3.
  destruct (ro_conn _ _ Hr _ _ G1) as (c0 & la & H0 & Hid & Hne & _ & Htok & Hla & _). assert (c0 = c) as -> by congruence.
  apply (Hall (mkExpiredClient id (ac_ownerToken c)) p c); try done. apply Hout. cbn.
  unfold KeepAliveExpired in G3. rewrite Hla in G3. destruct (ac_keepAlive c <=? 0) eqn:Hka; [done|].
  exists (mkAliveValue id (ac_ownerToken c) la (la + (ac_keepAlive c + Z.quot (ac_keepAlive c) 2))).
  split_and!; [|done|cbn; lia]. apply Hm; [done|]. rewrite (expected_holder s id p c la) by done. unfold alive_entry.
  by rewrite Hid, !(bool_decide_false (_ = "")), Hka.
Qed.

(** ** Runs *)

(** One event at time [now]: a CONNECT of a new connection is accepted, an open connection
    receives a packet, a packet of a connection that is already closed (replaced, perhaps) is
    handled late, a connection ends, the scan runs.  The sets are the clients of which a late
    packet was handled since their connection connected or last received one. *)
Inductive alive_step (now : Z) : gset string → Liveness → gset string → Liveness → Prop :=
| step_connect p id tok ka late s s' : lv_conns s !! p = None → id ≠ "" → tok ≠ "" →
    registerConn now p id tok ka s = Some s' → alive_step now late s (late ∖ {[id]}) s'
| step_packet p c late s s' : lv_conns s !! p = Some c → ac_closed c = false →
    updateAliveTime now p s = Some s' → alive_step now late s (late ∖ {[ac_ID c]}) s'
| step_late p c late s s' : lv_conns s !! p = Some c → ac_closed c = true →
    updateAliveTime now p s = Some s' → alive_step now late s ({[ac_ID c]} ∪ late) s'
| step_end p late s s' : endConn p s = Some s' → alive_step now late s late s'
| step_scan late s s' closed : deleteUnAliveClient now s = Some (s', closed) → alive_step now late s late s'.

Inductive alive_reach : Z → gset string → Liveness → Prop :=
| reach_start clock : alive_reach clock ∅ (mkLiveness ∅ ∅ NewTracker)
| reach_step clock now late s late' s' : alive_reach clock late s → clock ≤ now → alive_step now late s late' s' → alive_reach now late' s'.

(** What a registered connection other than [p] looks like. *)
Definition others_ok (now : Z) (p : nat) (id0 : string) (s : Liveness) : Prop :=
  ∀ id q, id ≠ id0 → lv_manager s !! id = Some q → q ≠ p ∧ ∃ c la, lv_conns s !! q = Some c ∧ ac_ID c = id ∧ id ≠ "" ∧
    ac_closed c = false ∧ ac_ownerToken c ≠ "" ∧ ac_aliveTime c = Some la ∧ la ≤ now.

(** A connection is refreshed, the first time too. *)
Lemma refresh_ok now late s p c m : lv_conns s !! p = Some c → ac_closed c = false → lv_manager s !! ac_ID c = Some p →
  ac_ID c ≠ "" → ac_ownerToken c ≠ "" → others_ok now p (ac_ID c) s →
  (∀ q c', lv_conns s !! q = Some c' → ac_closed c' = false → lv_manager s !! ac_ID c' = Some q) →
  tracks (lv_tracker s) m → (∀ id v, id ≠ ac_ID c → id ∉ late → expected s id = Some v → m !! id = Some v) →
  ∃ s', updateAliveTime now p s = Some s' ∧ live_ok now (late ∖ {[ac_ID c]}) s'.
Proof.
  intros Hc Ho Hp Hid Htok Hoth Hopen Ht Hm. unfold updateAliveTime. rewrite Hc. cbn [ac_ID ac_ownerToken ac_keepAlive].
  destruct (tracks_Update _ m (ac_ID c) (ac_ownerToken c) now (ac_keepAlive c) Ht) as (t & -> & Ht'). cbn.
  eexists. split; [done|]. split; [split|].
  - cbn. intros id q Hq. destruct (decide (id = ac_ID c)) as [->|Hne].
    + assert (q = p) as -> by congruence. eexists _, now. rewrite lookup_insert_eq. by split_and!.
    + destruct (Hoth id q Hne Hq) as (Hqp & c' & la & G). exists c', la. by rewrite lookup_insert_ne.
  - cbn. intros q c'. rewrite lookup_insert_Some. intros [[<- <-]|[_ Hq]] Ho'; [done|by apply Hopen].
  - eexists. split; [exact Ht'|]. intros id v Hl. unfold expected. cbn. destruct (decide (id = ac_ID c)) as [->|Hne].
    + rewrite Hp. cbn. rewrite lookup_insert_eq. cbn. intros ->. by rewrite lookup_insert_eq.
    + assert (∀ x, (match x with Some v => <[ac_ID c := v]> m | None => m end) !! id = m !! id) as ->.
      { intros [w|]; [by rewrite lookup_insert_ne|done]. }
      destruct (lv_manager s !! id) as [q|] eqn:Hq; [|done]. cbn.
      destruct (Hoth id q Hne Hq) as [Hqp _]. rewrite lookup_insert_ne by done. intros Hv. apply Hm; [done|set_solver|].
      unfold expected. by rewrite Hq.
Qed.

Lemma live_others now s p c : registered_ok now s → lv_conns s !! p = Some c → others_ok now p (ac_ID c) s.
Proof.
  intros Hr Hc id q Hne Hq. destruct (ro_conn _ _ Hr id q Hq) as (c' & la & H1 & H2 & H3). split; [|by exists c', la].
  intros ->. congruence.
Qed.

Lemma packet_live now late p c s : live_ok now late s → lv_conns s !! p = Some c → ac_closed c = false →
  ∃ s', updateAliveTime now p s = Some s' ∧ live_ok now (late ∖ {[ac_ID c]}) s'.
Proof.
  intros (Hr & m & Ht & Hm) Hc Ho. pose proof (ro_open _ _ Hr p c Hc Ho) as Hp.
  destruct (ro_conn _ _ Hr _ _ Hp) as (c' & la & Hc' & Hid & Hne & _ & Htok & Hla & _). assert (c' = c) as -> by congruence.
  apply (refresh_ok now late s p c m); try done; [by apply live_others|by apply (ro_open _ _ Hr)|by intros id v _; apply Hm].
Qed.

(** A packet of a closed connection touches the entry of its client only. *)
Lemma late_live now late p c s : live_ok now late s → lv_conns s !! p = Some c → ac_closed c = true →
  ∃ s', updateAliveTime now p s = Some s' ∧ live_ok now ({[ac_ID c]} ∪ late) s'.
Proof.
  intros (Hr & m & Ht & Hm) Hc Hcl. unfold updateAliveTime. rewrite Hc. cbn [ac_ID ac_ownerToken ac_keepAlive].
  destruct (tracks_Update _ m (ac_ID c) (ac_ownerToken c) now (ac_keepAlive c) Ht) as (t & -> & Ht'). cbn.
  assert (∀ id q, lv_manager s !! id = Some q → q ≠ p) as Hqp.
  { intros id q Hq ->. destruct (ro_conn _ _ Hr _ _ Hq) as (c1 & _ & H1 & _ & _ & H2 & _). congruence. }
  eexists. split; [done|]. split; [split|].
  - cbn. intros id q Hq. destruct (ro_conn _ _ Hr _ _ Hq) as (c1 & la & G). exists c1, la. rewrite lookup_insert_ne; [done|]. by intros <-; apply (Hqp id p Hq).
  - cbn. intros q c1. rewrite lookup_insert_Some. intros [[<- <-]|[_ Hq]] Ho; [cbn in Ho; congruence|by apply (ro_open _ _ Hr)].
  - eexists. split; [exact Ht'|]. intros id v Hl Hv. assert (expected s id = Some v) as Hs.
    { unfold expected in Hv |- *. cbn in Hv. destruct (lv_manager s !! id) as [q|] eqn:Hq; [|done]. cbn in Hv |- *.
      rewrite lookup_insert_ne in Hv; [done|]. by intros <-; apply (Hqp id p Hq). }
    specialize (Hm id v ltac:(set_solver) Hs). destruct (alive_entry _ _ _ _); [|done]. rewrite lookup_insert_ne; [done|]. set_solver.
Qed.

(** A registered connection is closed: no other client's entry changes. *)
Lemma close_registered now s m id p c : registered_ok now s → tracks (lv_tracker s) m →
  lv_manager s !! id = Some p → lv_conns s !! p = Some c →
  ∃ t m', closeConn p s = Some (mkLiveness (<[p := closed_client c]> (lv_conns s)) (lv_manager s) t) ∧ tracks t m' ∧
    ∀ id', id' ≠ id → m' !! id' = m !! id'.
Proof.
  intros Hr Ht Hp Hc. destruct (ro_conn _ _ Hr _ _ Hp) as (c' & la & Hc' & Hid & _ & Ho & _). assert (c' = c) as -> by congruence.
  destruct (closeConn_spec p c s m Hc Ho Ht) as (t & -> & Ht'). rewrite Hid in Ht'. eexists t, _. split_and!; [done|exact Ht'|].
  intros id' Hne. case_bool_decide; [by rewrite lookup_delete_ne|done].
Qed.

Lemma end_live now late p s : live_ok now late s → ∃ s', endConn p s = Some s' ∧ live_ok now late s'.
Proof.
  intros Hlive. pose proof Hlive as (Hr & m & Ht & Hm). unfold endConn.
  destruct (lv_conns s !! p) as [c|] eqn:Hc.
  2: { unfold closeConn. rewrite Hc. cbn. rewrite Hc. by eexists. }
  destruct (ac_closed c) eqn:Ho.
  - unfold closeConn. rewrite Hc, Ho. cbn. rewrite Hc. eexists. split; [done|]. unfold DeleteConn. rewrite bool_decide_false; [done|].
    intros Hp. destruct (ro_conn _ _ Hr _ _ Hp) as (c' & la & Hc' & _ & _ & Ho' & _). congruence.
  - pose proof (ro_open _ _ Hr p c Hc Ho) as Hp. destruct (close_registered now s m _ p c Hr Ht Hp Hc) as (t & m' & -> & Ht' & Hm').
    cbn. rewrite lookup_insert_eq. eexists. split; [done|]. unfold DeleteConn. cbn. rewrite bool_decide_true by done.
    destruct (leave_ok now s _ p c t Hr Hp Hc) as [Hr' He']. split; [exact Hr'|]. exists m'. split; [done|].
    intros id v Hl Hv. unfold lv_set_manager in Hv. cbn in Hv. rewrite He' in Hv. case_bool_decide; [done|]. rewrite Hm' by done. by apply Hm.
Qed.

Lemma closeConn_manager M p s : closeConn p (lv_set_manager M s) = lv_set_manager M <$> closeConn p s.
Proof.
  unfold closeConn. cbn. destruct (lv_conns s !! p) as [c|]; [|done]. destruct (ac_closed c); [done|].
  by destruct (DeleteIfOwner _ _ _) as [[]|].
Qed.

(** A fresh connection under a name that is free. *)
Lemma join_ok now late p id tok ka s m : registered_ok now s → lv_conns s !! p = None → id ≠ "" → tok ≠ "" →
  tracks (lv_tracker s) m → (∀ id' v, id' ≠ id → id' ∉ late → expected s id' = Some v → m !! id' = Some v) →
  (∀ q c, lv_conns s !! q = Some c → ac_closed c = false → ac_ID c ≠ id) →
  ∃ s', updateAliveTime now p (lv_put p (mkAliveClient id tok None ka false) (lv_set_manager (<[id := p]> (lv_manager s)) s)) = Some s' ∧
    live_ok now (late ∖ {[id]}) s'.
Proof.
  intros Hr Hc Hid Htok Ht Hm Hfree. set (c := mkAliveClient id tok None ka false).
  apply (refresh_ok now late _ p c m); cbn; try done; [by rewrite lookup_insert_eq|by rewrite lookup_insert_eq| | |].
  - intros id' q Hne Hq. cbn in Hq. rewrite lookup_insert_ne in Hq by done.
    destruct (ro_conn _ _ Hr _ _ Hq) as (c' & la & Hc' & G). assert (q ≠ p) by congruence. split; [done|]. exists c', la. cbn. by rewrite lookup_insert_ne.
  - intros q c'. rewrite lookup_insert_Some. intros [[<- <-]|[Hne Hq]] Ho; [by rewrite lookup_insert_eq|].
    rewrite lookup_insert_ne; [by apply (ro_open _ _ Hr)|]. intros Heq. by apply (Hfree q c').
  - intros id' v Hne Hl. unfold expected. cbn. rewrite lookup_insert_ne by done.
    destruct (lv_manager s !! id') as [q|] eqn:Hq; [|done]. cbn. rewrite lookup_insert_ne.
    + intros Hv. apply Hm; [done|done|]. unfold expected. by rewrite Hq.
    + intros <-. destruct (ro_conn _ _ Hr _ _ Hq) as (c' & la & Hc' & _). congruence.
Qed.

Lemma connect_live now late p id tok ka s : live_ok now late s → lv_conns s !! p = None → id ≠ "" → tok ≠ "" →
  ∃ s', registerConn now p id tok ka s = Some s' ∧ live_ok now (late ∖ {[id]}) s'.
Proof.
  intros (Hr & m & Ht & Hm) Hc Hid Htok. unfold registerConn, AddClient. destruct (lv_manager s !! id) as [old|] eqn:Hold.
  - destruct (ro_conn _ _ Hr _ _ Hold) as (co & la & Hco & Hido & _). rewrite bool_decide_false by congruence.
    destruct (close_registered now s m id old co Hr Ht Hold Hco) as (t & m' & Hcl & Ht' & Hm').
    rewrite closeConn_manager, Hcl. cbn [fmap option_fmap option_map mbind option_bind].
    destruct (leave_ok now s id old co t Hr Hold Hco) as [Hr' He']. set (s1 := mkLiveness _ (delete id _) t) in *.
    assert (lv_set_manager (<[id := p]> (lv_manager s)) (mkLiveness (<[old := closed_client co]> (lv_conns s)) (lv_manager s) t) =
      lv_set_manager (<[id := p]> (lv_manager s1)) s1) as ->. { unfold lv_set_manager. cbn. by rewrite insert_delete_eq. }
    apply (join_ok now late p id tok ka s1 m'); try done.
    + cbn. rewrite lookup_insert_ne; [done|]. congruence.
    + intros id' v Hne Hl Hv. rewrite He', bool_decide_false in Hv by done. rewrite Hm' by done. by apply Hm.
    + intros q c Hq Ho Heq. pose proof (ro_open _ _ Hr' q c Hq Ho) as G. cbn in G. rewrite Heq, lookup_delete_eq in G. done.
  - apply (join_ok now late p id tok ka s m); try done; [by intros id' v _; apply Hm|].
    intros q c Hq Ho <-. pose proof (ro_open _ _ Hr q c Hq Ho). congruence.
Qed.

Lemma reach_live clock late s : alive_reach clock late s → live_ok clock late s.
Proof.
  induction 1 as [clock|clock now late s late' s' _ IH Hle Hstep].
  { split; [split; [intros id p H; cbn in H; by rewrite lookup_empty in H|intros p c H; cbn in H; by rewrite lookup_empty in H]|].
    exists ∅. split; [apply tracks_New|]. intros id v _. unfold expected. cbn. by rewrite !lookup_empty. }
  assert (live_ok now late s) as Hnow. { destruct IH as [Hr Hm]. split; [by eapply registered_ok_later|done]. }
  destruct Hstep as [p id tok ka late s s' H1 H2 H3 H|p c late s s' H1 H2 H|p c late s s' H1 H2 H|p late s s' H|late s s' closed H].
  - destruct (connect_live now late p id tok ka s Hnow H1 H2 H3) as (s1 & E & ?). congruence.
  - destruct (packet_live now late p c s Hnow H1 H2) as (s1 & E & ?). congruence.
  - destruct (late_live now late p c s Hnow H1 H2) as (s1 & E & ?). congruence.
  - destruct (end_live now late p s Hnow) as (s1 & E & ?). congruence.
  - destruct (scan_spec_live now late s Hnow) as (s1 & cl & E & ? & _). congruence.
Qed.

(** The connection [p] is registered for [id], has a keep alive and has been silent for more than one and a
    half times that interval. *)
Definition silent (now : Z) (s : Liveness) (id : string) (p : nat) : Prop :=
  ∃ c la, lv_manager s !! id = Some p ∧ lv_conns s !! p = Some c ∧ ac_aliveTime c = Some la ∧
    0 < ac_keepAlive c ∧ la + (ac_keepAlive c + Z.quot (ac_keepAlive c) 2) < now.

Lemma silent_expired clock now s id p c : registered_ok clock s → lv_manager s !! id = Some p → lv_conns s !! p = Some c →
  KeepAliveExpired now c = true ↔ silent now s id p.
Proof.
  intros Hr Hp Hc. destruct (ro_conn _ _ Hr _ _ Hp) as (c' & la & Hc' & _ & _ & _ & _ & Hla & _). assert (c' = c) as -> by congruence.
  unfold KeepAliveExpired. rewrite Hla. split.
  - destruct (_ <=? 0) eqn:E; [done|]. intros H. exists c, la. split_and!; [done..|lia|lia].
  - intros (c' & la' & _ & H1 & H2 & H3 & H4). assert (c' = c) as -> by congruence. assert (la' = la) as -> by congruence.
    replace (_ <=? 0) with false by lia. lia.
Qed.

(** C26. Keep alive is enforced.  Whatever connections came, sent packets, were replaced or
    ended before, packets of closed connections that were handled late included, a scan never
    fails; it closes only registered connections with a keep alive that have been silent for
    more than one and a half times that interval, and takes them, and no others, off the
    manager; and it closes every such connection of a client of which no late packet of an
    earlier connection was handled since the connection connected or last spoke. *)
Theorem keepalive_enforced clock now late s : alive_reach clock late s → clock ≤ now →
  ∃ s' closed, deleteUnAliveClient now s = Some (s', closed) ∧
    (∀ p, p ∈ to_conn <$> closed → ∃ id, silent now s id p) ∧
    (∀ id p, id ∉ late → silent now s id p → p ∈ to_conn <$> closed) ∧
    (∀ id p, lv_manager s' !! id = Some p ↔ lv_manager s !! id = Some p ∧ p ∉ to_conn <$> closed).
Proof.
  intros Hreach Hle. apply reach_live in Hreach as [Hr Hm].
  destruct (scan_spec_live now late s) as (s' & closed & Hrun & _ & Hcl & Hall & Hman); [split; [by eapply registered_ok_later|done]|].
  exists s', closed. split_and!; [done| | |done].
  - intros p Hp. destruct (Hcl p Hp) as (id & c & H1 & H2 & H3). exists id. by apply (silent_expired clock now s id p c).
  - intros id p Hl Hs. pose proof Hs as (c & la & H1 & H2 & _). apply (Hall id p c); try done. by apply (silent_expired clock now s id p c).
Qed.

(** ** A late packet *)

(** [id] is held by connection [p] with token [tok], and the tracker has no entry of that token for it. *)
Record untracked (now : Z) (id tok : string) (p : nat) (s : Liveness) : Prop := {
  un_registered : registered_ok now s;
  un_manager : lv_manager s !! id = Some p;
  un_token : ac_ownerToken <$> lv_conns s !! p = Some tok;
  un_tracker : ∃ m, tracks (lv_tracker s) m ∧ av_ownerToken <$> m !! id ≠ Some tok }.

(** Closing what the scan found never reaches it. *)
Lemma closeExpired_untracked now id tok p es : ∀ s, untracked now id tok p s →
  (∀ e, e ∈ es → ex_ClientID e = id → ex_OwnerToken e ≠ tok) →
  ∃ s' closed, closeExpired now es s = Some (s', closed) ∧ (p ∉ (to_conn <$> closed)) ∧ untracked now id tok p s'.
Proof.
  induction es as [|e es IH]; intros s Hu Hes; cbn; [exists s, []; split_and!; [done|set_solver|done]|].
  assert (∀ e, e ∈ es → ex_ClientID e = id → ex_OwnerToken e ≠ tok) as Hes' by (intros; apply Hes; set_solver).
  unfold ReadClient. destruct (lv_manager s !! ex_ClientID e) as [q|] eqn:Hq; cbn; [|by apply IH].
  destruct (ro_conn _ _ (un_registered _ _ _ _ _ Hu) _ _ Hq) as (c & la & Hc & Hid & _ & Ho & _). rewrite Hc. cbn.
  case_bool_decide as Htok; cbn [negb]; [|by apply IH].
  destruct Hu as [Hr Hp Ht (m & Hm & Hn)]. assert (ex_ClientID e ≠ id) as Hne.
  { intros Heq. apply (Hes e); [set_solver|done|]. rewrite Heq, Hp in Hq. injection Hq as <-. rewrite Hc in Ht. cbn in Ht. congruence. }
  destruct (KeepAliveExpired now c); cbn [negb].
  - destruct (closeConn_spec q c s m Hc Ho Hm) as (t & -> & Ht'). cbn [mbind option_bind]. rewrite Hid in Ht'.
    unfold DeleteConn. cbn [lv_manager]. rewrite Hid, (bool_decide_true (_ = Some q)) by done.
    destruct (leave_ok now s _ q c t Hr Hq Hc) as [Hr' _]. assert (q ≠ p) as Hqp.
    { intros ->. destruct (ro_conn _ _ Hr _ _ Hp) as (c' & _ & Hc' & Hid' & _). congruence. }
    destruct (IH (mkLiveness (<[q := closed_client c]> (lv_conns s)) (delete (ex_ClientID e) (lv_manager s)) t)) as (s' & closed & Hrun & Hcl & Hu').
    { split; [exact Hr'|cbn; by rewrite lookup_delete_ne|cbn; by rewrite lookup_insert_ne|]. eexists. split; [exact Ht'|].
      case_bool_decide; [by rewrite lookup_delete_ne|done]. }
    { done. }
    unfold lv_set_manager. cbn [lv_conns lv_tracker]. rewrite Hrun. cbn. eexists s', _. split_and!; [done|set_solver|done].
  - destruct (tracks_Update _ m (ac_ID c) (ac_ownerToken c) (now - IdleDurationSince now c) (ac_keepAlive c) Hm) as (t & -> & Ht').
    cbn [mbind option_bind]. apply IH; [|done]. destruct Hr. split; [by split|done|done|]. eexists. split; [exact Ht'|].
    destruct (alive_entry _ _ _ _); [rewrite Hid, lookup_insert_ne by done|]; done.
Qed.

Lemma scan_untracked now id tok p s : untracked now id tok p s →
  ∃ s' closed, deleteUnAliveClient now s = Some (s', closed) ∧ (p ∉ (to_conn <$> closed)) ∧ untracked now id tok p s'.
Proof.
  intros [Hr Hp Ht (m & Hm & Hn)]. unfold deleteUnAliveClient.
  destruct (tracks_Scan _ m now Hm) as (t & out & m' & -> & Ht' & _ & Hout & Hm'). cbn [mbind option_bind].
  apply closeExpired_untracked.
  - destruct Hr. split; [by split|done|done|]. exists m'. split; [done|]. rewrite Hm'. by case_bool_decide.
  - intros e He Heq Hx. apply Hout in He as (v & Hv & Htok & _). rewrite Heq in Hv. rewrite Hv in Hn. cbn in Hn. congruence.
Qed.

(** Scans at the given times, with everything they close. *)
Fixpoint scans (nows : list Z) (s : Liveness) : option (list TimedOut) :=
  match nows with
  | [] => Some []
  | now :: nows => '(s, closed) ← deleteUnAliveClient now s; rest ← scans nows s; Some (closed ++ rest)
  end.

(** A packet of a replaced connection that is handled after the replacement (it was
    read before the connection was closed) overwrites the tracker entry of the connection that
    replaced it; from then on no scan, however late, closes the new connection when it is silent. *)
Theorem late_packet_stops_timeout clock now late s id p p0 c c0 nows :
  alive_reach clock late s → clock ≤ now → Sorted Z.le (now :: nows) →
  lv_manager s !! id = Some p → lv_conns s !! p = Some c →
  lv_conns s !! p0 = Some c0 → ac_ID c0 = id → ac_ownerToken c0 ≠ "" → ac_ownerToken c0 ≠ ac_ownerToken c → 0 < ac_keepAlive c0 →
  ∃ s1 closed, updateAliveTime now p0 s = Some s1 ∧ scans nows s1 = Some closed ∧ p ∉ to_conn <$> closed.
Proof.
  intros Hreach Hle Hsort Hp Hc Hc0 Hid0 Htok0 Hne Hka0. apply reach_live in Hreach as (Hr & m & Hm & _).
  apply (registered_ok_later _ now) in Hr; [|done]. destruct (ro_conn _ _ Hr _ _ Hp) as (c' & la & Hc' & Hid & Hidne & _).
  assert (c' = c) as -> by congruence. assert (p0 ≠ p) as Hpp by congruence.
  unfold updateAliveTime. rewrite Hc0. cbn [ac_ID ac_ownerToken ac_keepAlive].
  destruct (tracks_Update _ m (ac_ID c0) (ac_ownerToken c0) now (ac_keepAlive c0) Hm) as (t & -> & Ht'). cbn.
  set (s1 := lv_set_tracker t _). assert (untracked now id (ac_ownerToken c) p s1) as Hu.
  { split; [split|done|cbn; by rewrite lookup_insert_ne, Hc|].
    - cbn. intros id' q Hq. destruct (ro_conn _ _ Hr _ _ Hq) as (c1 & la1 & H1 & H2 & H3 & H4 & H5 & H6 & H7).
      destruct (decide (q = p0)) as [->|Hq0]; [|exists c1, la1; by rewrite lookup_insert_ne].
      assert (c1 = c0) as -> by congruence. eexists _, now. rewrite lookup_insert_eq. by split_and!.
    - cbn. intros q c1. rewrite lookup_insert_Some. intros [[<- <-]|[_ Hq]] Ho; [|by apply (ro_open _ _ Hr)]. cbn in *. by apply (ro_open _ _ Hr).
    - eexists. split; [exact Ht'|]. unfold alive_entry. rewrite Hid0, !(bool_decide_false (_ = "")) by done.
      replace (ac_keepAlive c0 <=? 0) with false by lia. cbn [orb]. rewrite lookup_insert_eq. cbn. congruence. }
  assert (∀ nows now s, untracked now id (ac_ownerToken c) p s → Sorted Z.le (now :: nows) →
    ∃ closed, scans nows s = Some closed ∧ p ∉ to_conn <$> closed) as Hscans.
  { clear. induction nows as [|n nows IH]; intros now s Hu Hs; cbn; [exists []; split; [done|set_solver]|].
    apply Sorted_inv in Hs as [Hs Hn]. apply HdRel_inv in Hn.
    assert (untracked n id (ac_ownerToken c) p s) as Hu' by (destruct Hu; split; [by eapply registered_ok_later|done..]).
    destruct (scan_untracked n id _ p s Hu') as (s2 & cl & -> & Hcl & Hu2). cbn.
    destruct (IH n s2 Hu2 Hs) as (cl2 & -> & Hcl2). cbn. eexists. split; [done|]. rewrite fmap_app. set_solver. }
  destruct (Hscans nows now s1 Hu Hsort) as (closed & Hrun & Hcl). by exists s1, closed.
Qed.

(** ** Witnesses *)

Definition no_live : Liveness := mkLiveness ∅ ∅ NewTracker.
(** Client "c" connects on connection 1 with keep alive 60 at time 0, on connection 2 at time 30. *)
Definition live_one : Liveness := default no_live (registerConn 0 1 "c" "t1" 60 no_live).
Definition live_two : Liveness := default no_live (registerConn 30 2 "c" "t2" 60 live_one).

Lemma live_one_reach : alive_reach 0 ∅ live_one.
Proof.
  change ∅ with ((∅ : gset string) ∖ {["c"]}). eapply reach_step; [apply (reach_start 0)|done|]. eapply (step_connect 0 1 "c" "t1" 60); [done..|]. vm_compute. reflexivity.
Qed.
Lemma live_two_reach : alive_reach 30 ∅ live_two.
Proof.
  change ∅ with ((∅ : gset string) ∖ {["c"]}). eapply reach_step; [apply live_one_reach|lia|]. eapply (step_connect 30 2 "c" "t2" 60); [vm_compute; reflexivity|done..|].
  vm_compute. reflexivity.
Qed.

(** Connection 2 speaks at time 40, after a late packet of connection 1 at time 35. *)
Definition live_late : Liveness := default no_live (updateAliveTime 35 1 live_two).
Definition live_again : Liveness := default no_live (updateAliveTime 40 2 live_late).
Lemma live_late_reach : alive_reach 35 {["c"]} live_late.
Proof.
  change {["c"]} with ({["c"]} ∪ (∅ : gset string)). eapply reach_step; [apply live_two_reach|lia|].
  eapply (step_late 35 1 (mkAliveClient "c" "t1" (Some 0) 60 true)); vm_compute; reflexivity.
Qed.
Lemma live_again_reach : alive_reach 40 ∅ live_again.
Proof.
  change ∅ with (({["c"]} : gset string) ∖ {["c"]}). eapply reach_step; [apply live_late_reach|lia|].
  eapply (step_packet 40 2 (mkAliveClient "c" "t2" (Some 30) 60 false)); vm_compute; reflexivity.
Qed.

Lemma keepalive_enforced_witness :
  ∃ s' closed, deleteUnAliveClient 131 live_again = Some (s', closed) ∧ (2%nat ∈ (to_conn <$> closed)) ∧ lv_manager s' !! "c" = None.
Proof.
  destruct (keepalive_enforced 40 131 ∅ live_again live_again_reach ltac:(lia)) as (s' & closed & Hrun & _ & Hall & Hman).
  assert (2%nat ∈ (to_conn <$> closed)) as Hin.
  { apply (Hall "c"); [set_solver|]. exists (mkAliveClient "c" "t2" (Some 40) 60 false), 40. split_and!; vm_compute; reflexivity. }
  exists s', closed. split_and!; [done|done|]. destruct (lv_manager s' !! "c") as [p|] eqn:E; [|done].
  apply Hman in E as [E Hn]. vm_compute in E. injection E as <-. done.
Defined.

Lemma late_packet_stops_timeout_witness :
  ∃ s1 closed, updateAliveTime 31 1 live_two = Some s1 ∧ scans [1000; 100000] s1 = Some closed ∧ 2%nat ∉ (to_conn <$> closed).
Proof.
  apply (late_packet_stops_timeout 30 31 ∅ live_two "c" 2 1 (mkAliveClient "c" "t2" (Some 30) 60 false) (mkAliveClient "c" "t1" (Some 0) 60 true));
    [apply live_two_reach|lia|repeat constructor; lia|vm_compute; reflexivity..|done|done|done].
Defined.
